(* ===== verification/_CoqProject ===== *)
-Q . S2P
Prelude.v
Platform.v
Memory.v
Libkern.v
Printf.v
Bitmap.v
Alloc.v
Pmm.v
Kmemzone.v
Kmalloc.v
Umem.v
Ringbuffer.v
Dynarr.v
Memzone.v
Mmu64.v
Vmm64.v
Vmm.v
Hash.v
Uint2048.v
Sha256.v
BootMem.v
LibcString.v
LibcMalloc.v
BootFs.v
Ext2Lite.v
Ext2Dev.v
Ext2Alloc.v
Ext2File.v
Ext2Dir.v
Dentry.v
Vfs.v
Ext2Vfs.v
Elf.v
TimeManager.v
Tasking.v
Runqueue.v
Thread.v
Signal.v
Sched.v
SchedRuns.v
Lifecycle.v
