(* ===== verification/Prelude.v ===== *)
(** * opuntiaOS: a verification library for the kernel's core

    opuntiaOS is an operating system in C for five targets (x86, arm32, x86_64,
    arm64, riscv64): a preemptive multi-processor kernel ([kernel/]), boot loaders
    that check and load it ([boot/]), a C library and C++ libraries ([libs/]), and
    a user land with a window server ([userland/]). This library is a shallow
    embedding of the parts that carry the system's own logic. File and function
    names are those of the repository below [src/].

    ** How the code is translated

    Every function of the C code that is modelled is a [Definition] or [Fixpoint]
    of the same name. A machine integer is a [Z] with the wrap function of its type
    written where the code converts or overflows ([u32], [s32], [usize], ...);
    [size_t] has the width of the class [Target], and [Platform] adds the other
    constants that differ between the five targets. State is passed explicitly: a
    record for each component, byte-addressed memory ([Memory.v]) where the code
    works on bytes through pointers. A function that can read or write out of
    bounds, fail an [ASSERT], divide by zero or not terminate returns [option], and
    [None] is exactly that; so a theorem [f x = Some y] is a theorem of total
    correctness. Calls that may stop the machine return an [outcome]. A [while]
    loop is [loop] with fuel, a counted one [for_loop] or [for_n] with its own
    count. The fuel is part of a definition only where the code has no bound of its
    own: 27 rounds for the scheduler's search (two passes over 13 priorities and
    the exchange between them), the bytes of a memory or the bits of a number
    elsewhere (the bytes of a directory block in ext2, since each record it steps
    over has at least one); each time a theorem shows that it is enough. The ext2
    theorems are for blocks of 1 KiB, the only length the driver's own buffers
    ([MAX_BLOCK_LEN]) hold; those on writing are for files of up to 268 blocks, what
    the direct and the single indirect pointers address, since a new block of
    pointers is not cleared and behind those it is followed ([stale_pointer_followed]).
    The search of the bitmap is wrong behind the last whole word, so what rests on
    it is stated for maps of fewer than 32 bits or a multiple of 32 ([searchable]).
    Locks are left out: a call is one step,
    and where calls of several CPUs interleave the steps are the events of
    [Sched.v]. The cache of directory entries keeps its locks as state: its calls
    nest, and taking a lock that is held is a hang ([None]). Its theorems ask for
    room for the inodes that a call reads: at [DENTRY_SWAP_THRESHOLD_FOR_INODE_CACHE]
    [free_inode_cache] starts to free pointers twice.

    ** The files

    - [Prelude.v] (this one): machine integers, arrays, loops with their rules of
      total correctness, the automation.
    - [Platform.v]: the constants of the five targets; rounding to pages.
    - [Memory.v]: byte-addressed memory. [Libkern.v]: [libkern/mem.c], [utils.c],
      [ctype.h]. [Printf.v]: [libkern/printf.c], [scanf.c]. [Umem.v]:
      [libkern/umem.c], the gate to user memory.
    - [Alloc.v]: the contract [RangeAllocator] that the three bitmap allocators
      and the one of the C library share, and what follows from it for any run of calls.
      [Bitmap.v]: [algo/bitmap.c]. [Pmm.v]: [mem/pmm.c], physical memory.
      [Kmemzone.v]: [mem/kmemzone.c], zones of kernel addresses.
      [Kmalloc.v]: [mem/kmalloc.c], the heap. They are instances of the contract.
    - [Ringbuffer.v], [Dynarr.v], [Hash.v]: the rest of [kernel/algo].
    - [Memzone.v]: [mem/memzone.c], the memory zones of a process, over [Dynarr.v].
    - [Mmu64.v], [Vmm64.v], [Vmm.v]: the page tables of x86_64: the entries
      ([x86_64/vmm/mmu.c]); the tables in physical memory, beside the processor's
      own walk ([mem/bits64/vm_pspace64.c], [vmm64.c], [vm_alloc.c]); mapping,
      allocation and page faults on top ([mem/vmm.c]).
    - [Ext2Dev.v], [Ext2Alloc.v], [Ext2File.v], [Ext2Dir.v]: the kernel's ext2 file
      system, [fs/ext2/ext2.c]: the drive as sectors with the transfers of bytes to
      and from it, and the packed records on it; block groups, bitmaps and the
      mount; the blocks of a file, reading, writing and truncating it; directories.
    - [Dentry.v]: [fs/dentry.c], the cache of directory entries, over any file
      system. [Vfs.v]: [fs/vfs.c] and [fs/helper.c], paths and the checks before
      files are made, opened and removed. [Ext2Vfs.v]: the operations of ext2 that
      go through the cache, ext2 as an instance of the interfaces of both, and runs
      of the whole stack on a small tree.
    - [Elf.v]: [tasking/elf.c], the loading of programs over [Memzone.v].
    - [TimeManager.v]: [time/time_manager.c] and [libkern/time.h].
    - [Tasking.v], [Runqueue.v], [Thread.v], [Signal.v], [Sched.v]: threads,
      processes and CPUs; the run queues as doubly linked lists through the threads;
      [thread.c], [proc.c], [tasking.c], [blocker.c]; [signal.c]; [sched.c].
      [SchedRuns.v]: the scheduler as a transition system of several CPUs.
      [Lifecycle.v]: blocking, waking, signals and death on top of it.
    - [Uint2048.v], [Sha256.v], [BootMem.v], [BootFs.v], [Ext2Lite.v]: the boot
      loader: big numbers, the hash, memory routines, the interface of a file system
      and its ext2 reader.
    - [LibcString.v], [LibcMalloc.v]: [libs/libc/string/string.c] and
      [libs/libc/malloc].

    ** What is shown

    - Scheduling: in any run of any number of CPUs in which no thread is woken while
      it executes and no priority changes under queued threads ([settled]; the code
      ensures neither), no thread executes twice, links and queues stay intact and
      no step goes wrong, and what an early wake does is shown as well
      ([sched_threads_exclusive]); in such a run no thread starves
      ([sched_every_thread_runs]); the search ends on every CPU and finds the most
      urgent thread ([sched_finds_most_urgent]). Waking, sleeping, signals and the
      death of a process keep that invariant and do what they mean to do
      ([unblock_wakes_ready], [sleep_lasts_until], [signal_dispatch_least],
      [proc_die_ends_threads]).
    - Memory: the word-wise searches of the bitmap are first-fit searches over bits;
      live allocations of each allocator never overlap, whatever is allocated and
      freed in between; freeing undoes allocating; the boot marks what is in use.
      The zones of a process never overlap, and its searches find the lowest and the
      highest free range. Mapping a page gives its addresses the translation asked
      and no other address another one ([vmm_map_page_translates]); a page fault
      gives the process a zeroed frame inside its zones, or what the zone's own
      function makes of a frame, and nothing outside ([vmm_page_fault_on_demand]).
      Copies to and from user memory stay where they may.
      The chunks and slabs of [malloc] never overlap, and a block whose chunks are all
      freed is one chunk again ([malloc_live_chunks_disjoint], [malloc_all_freed]);
      a chunk that [realloc] moves to overlaps no live one ([realloc_moves]).
    - Programs: loading gives a process the zones of the segments whose pages are
      free, the guard page and the stack, apart from each other ([elf_load_zones]), and their pages get the
      bytes of the file and zeros behind them ([elf_page_content]).
    - Files: the transfers of the ext2 driver change the bytes they are asked to and
      no others ([ext2_dev_transfers]); a block that is allocated was free in the
      bitmap of its group and the counters follow ([ext2_allocate_block]); writing
      makes the bytes of the range those given and leaves the others alone
      ([ext2_write_bytes]), and reading gives them, by all levels of pointers
      ([ext2_read_bytes]); a directory with room finds the names that were added to
      it, and removing takes one entry out
      ([ext2_add_child_found], [ext2_rm_child_removes]). The cache of directory
      entries is transparent: what the kernel sees of the inodes of a drive does not
      depend on which of them are cached ([dentry_get_transparent],
      [dentry_put_keeps]), and resolving a path on whose way nothing is mounted is a
      walk over the directories, after which the result is held and so is all that
      was held before ([vfs_resolve_path_walks]; counts can grow beyond the
      references, [resolved_twice_leaks]).
    - Data structures: the ring buffer refines a byte queue, the dynamic array a
      list; memory and string routines refine their specifications on bytes; what
      is printed is scanned again, within the buffer ([printf_scanf_roundtrip]); time
      stamps and dates follow the calendar.
    - Boot: the modular power that signatures are checked with, SHA-256 in pieces
      against the compression of the padded message, and the path lookup and reads
      of the ext2 reader against a walk over directories and blocks.

    Where the code does not do what it means to, the theorem says what it does and
    an [Example] shows it; the manifest lists these as findings.

    ** Interfaces

    [Target] and [Platform] are what the code is compiled for; [RangeAllocator] is
    what an allocator promises to its clients; [BootFs] is what a file system
    promises to the boot loader. [InodeStore] is what a file system promises to the
    cache of directory entries and [Directories] what it promises to the resolution
    of paths, with [InodeOps] and [FileSystem] for its functions; ext2 is an
    instance of them. [sched_ok] of [Sched.v] is what the scheduler
    promises to the rest of the kernel: the operations of [Lifecycle.v] are proved
    against it and not against the queues.

    ** Not modelled

    Drivers and interrupt handling (they speak to devices), the assembly and the
    context switch of the platforms, the page tables of the 32-bit targets
    ([mem/bits32]) and swapping, making and freeing whole address spaces, the
    registry of devices and file systems and mapped files in [vfs.c], [procfs] and
    [devfs], terminals, sockets and shared
    buffers, the loading of the kernel itself, the system calls except [nice],
    the rest of libc, the C++ libraries and programs, vendored code
    ([libfreetype], [third_party], [puff.c]) and the build scripts. The state of a
    thread leaves out stacks, trap frames and the FPU; a signal frame is recorded as
    the signal it belongs to. *)
From Stdlib Require Export ZArith Lia.
From stdpp Require Export base tactics numbers option list_numbers list.

#[global] Open Scope Z_scope.

(** ** Machine integers

    A C integer is a [Z] together with the wrap function of its type. *)

Definition u8 (x : Z) : Z := x mod 2 ^ 8.
Definition u16 (x : Z) : Z := x mod 2 ^ 16.
Definition u32 (x : Z) : Z := x mod 2 ^ 32.
Definition u64 (x : Z) : Z := x mod 2 ^ 64.
(** [int]: conversions to it and arithmetic on it, two's complement. *)
Definition s32 (x : Z) : Z := (x + 2 ^ 31) mod 2 ^ 32 - 2 ^ 31.

(** The targets differ in the width of [size_t]/[uintptr_t]: 32 bits on x86
    and arm32, 64 bits on x86_64, arm64 and riscv64. *)
Class Target := {
  ptr_bits : Z;
  ptr_bits_cases : ptr_bits = 32 ∨ ptr_bits = 64;
}.

Definition target32 : Target := {| ptr_bits := 32; ptr_bits_cases := or_introl eq_refl |}.
Definition target64 : Target := {| ptr_bits := 64; ptr_bits_cases := or_intror eq_refl |}.

(** Conversion to [size_t]; in particular of a negative [int], which is
    sign-extended and so becomes a very large value. *)
Definition usize `{Target} (x : Z) : Z := x mod 2 ^ ptr_bits.
(** Conversion to [ssize_t]. *)
Definition ssize `{Target} (x : Z) : Z :=
  (x + 2 ^ (ptr_bits - 1)) mod 2 ^ ptr_bits - 2 ^ (ptr_bits - 1).

(** [errno] values, returned negated. *)
Definition EPERM : Z := 1.
Definition ENOENT : Z := 2.
Definition ESRCH : Z := 3.
Definition EINTR : Z := 4.
Definition ENOMEM : Z := 12.
Definition EACCES : Z := 13.
Definition EFAULT : Z := 14.
Definition EBUSY : Z := 16.
Definition EINVAL : Z := 22.
Definition ENOSPC : Z := 28.
Definition ENOTEMPTY : Z := 39.
Definition EALREADY : Z := 114.
Definition ENODATA : Z := 61.
Definition EOVERFLOW : Z := 75.

(** ** Undefined behaviour

    Code that can read or write memory, or that asserts, is translated into
    [option]: [None] is an access out of bounds, a failed [ASSERT] or another
    undefined behaviour of C. A theorem that says [f x = Some y] therefore says
    that [f] terminates and does none of these. *)

(** A call returns, or the kernel stops the machine ([kpanic],
    [system_stop]): that is no undefined behaviour, but there is no caller to
    return to. *)
Inductive outcome (A : Type) :=
  | Returned (a : A)
  | SystemStop.
Arguments Returned {A} a.
Arguments SystemStop {A}.

(** Sequencing of calls that may stop the machine. *)
Definition kbind {A B} (f : A → option (outcome B)) (x : option (outcome A)) : option (outcome B) :=
  match x with
  | None => None
  | Some SystemStop => Some SystemStop
  | Some (Returned a) => f a
  end.

(** Array access by an index of any sign. *)
Definition zget {A} (l : list A) (i : Z) : option A :=
  if decide (0 <= i) then l !! Z.to_nat i else None.
Definition zset {A} (l : list A) (i : Z) (x : A) : option (list A) :=
  if decide (0 <= i < Z.of_nat (length l)) then Some (<[Z.to_nat i := x]> l) else None.

(** A block of [n] cells read from, or of [length b] cells written to, an
    array at an offset: [memcpy] on disjoint blocks. *)
Definition zread {A} (l : list A) (off n : Z) : option (list A) :=
  if decide (0 <= off ∧ 0 <= n ∧ off + n <= Z.of_nat (length l))
  then Some (take (Z.to_nat n) (drop (Z.to_nat off) l)) else None.
Definition zwrite {A} (l : list A) (off : Z) (b : list A) : option (list A) :=
  if decide (0 <= off ∧ off + Z.of_nat (length b) <= Z.of_nat (length l))
  then Some (take (Z.to_nat off) l ++ b ++ drop (Z.to_nat off + length b) l) else None.

(** Bytes, and the number that a list of them stands for, the least significant
    first. *)
Definition byte (b : Z) : Prop := 0 <= b < 2 ^ 8.
Definition le_val (l : list Z) : Z := foldr (λ b v, b + 2 ^ 8 * v) 0 l.

(** A field of [n] bytes of a packed record in memory. *)
Definition field (l : list Z) (off n : Z) : option Z :=
  bytes ← zread l off n; Some (le_val bytes).

Declare Scope kern_scope.
Delimit Scope kern_scope with kern.
Notation "l '.[' i ']'" := (zget l i) (at level 1, left associativity, format "l .[ i ]") : kern_scope.
Notation "l '.[' i '<-' x ']'" := (zset l i x) (at level 1, left associativity) : kern_scope.
Notation "x '←!' y ; z" := (kbind (λ x : _, z) y)
  (at level 20, y at level 100, z at level 200, right associativity) : kern_scope.
Notation "' x '←!' y ; z" := (kbind (λ x : _, z) y)
  (at level 20, x pattern, y at level 100, z at level 200, right associativity) : kern_scope.
#[global] Open Scope kern_scope.

(** ** Loops *)

(** A [while] loop with early exits: the body continues with [inl] or leaves
    with [inr]. Running out of fuel is [None], so that [loop _ _ _ = Some _]
    also says the loop ended. *)
Fixpoint loop {S R : Type} (fuel : nat) (body : S → option (S + R)) (s : S) : option R :=
  match fuel with
  | O => None
  | Datatypes.S fuel =>
      match body s with
      | None => None
      | Some (inl s') => loop fuel body s'
      | Some (inr r) => Some r
      end
  end.

(** A counted loop [for (i = lo; n iterations; i++)] with early exits. *)
Fixpoint for_loop {S R : Type} (n : nat) (i : Z) (body : Z → S → option (S + R)) (s : S)
  : option (S + R) :=
  match n with
  | O => Some (inl s)
  | Datatypes.S n =>
      match body i s with
      | None => None
      | Some (inl s') => for_loop n (i + 1) body s'
      | Some (inr r) => Some (inr r)
      end
  end.

(** A counted loop whose body never leaves early. *)
Fixpoint for_n {S : Type} (n : nat) (i : Z) (body : Z → S → option S) (s : S) : option S :=
  match n with
  | O => Some s
  | Datatypes.S n => s' ← body i s; for_n n (i + 1) body s'
  end.

Lemma loop_S {S R} fuel (body : S → option (S + R)) s :
  loop (Datatypes.S fuel) body s =
  match body s with
  | None => None
  | Some (inl s') => loop fuel body s'
  | Some (inr r) => Some r
  end.
Proof. reflexivity. Qed.

Lemma for_loop_S {S R} n i (body : Z → S → option (S + R)) s :
  for_loop (Datatypes.S n) i body s =
  match body i s with
  | None => None
  | Some (inl s') => for_loop n (i + 1) body s'
  | Some (inr r) => Some (inr r)
  end.
Proof. reflexivity. Qed.

Lemma for_n_S {S} n i (body : Z → S → option S) s :
  for_n (Datatypes.S n) i body s = s' ← body i s; for_n n (i + 1) body s'.
Proof. reflexivity. Qed.

(** *** Total-correctness rules *)

Lemma loop_total {S R} (I : S → Prop) (m : S → Z) (Q : R → Prop)
    (body : S → option (S + R)) fuel s :
  I s → 0 <= m s < Z.of_nat fuel →
  (∀ s, I s → 0 <= m s →
     match body s with
     | None => False
     | Some (inl s') => I s' ∧ 0 <= m s' < m s
     | Some (inr r) => Q r
     end) →
  ∃ r, loop fuel body s = Some r ∧ Q r.
Proof.
  intros HI Hm Hb. revert s HI Hm.
  induction fuel as [|fuel IH]; intros s HI Hm; [lia|]. simpl.
  specialize (Hb s HI) as Hs.
  destruct (body s) as [[s'|r]|]; [| |tauto].
  - destruct Hs as [HI' Hm']; [lia|]. apply IH; [done|lia].
  - eauto with lia.
Qed.

(** Whatever a loop returns, a round returned. *)
Lemma loop_result {S R} (Q : R → Prop) (body : S → option (S + R)) fuel s r :
  (∀ s r, body s = Some (inr r) → Q r) → loop fuel body s = Some r → Q r.
Proof.
  intros Hb. revert s. induction fuel as [|fuel IH]; intros s Hr; [done|].
  rewrite loop_S in Hr. destruct (body s) as [[s'|r']|] eqn:E; [by eapply IH| |done].
  injection Hr as ->. by eapply Hb.
Qed.

Lemma for_loop_total {S R} (I : Z → S → Prop) (Q : R → Prop)
    (body : Z → S → option (S + R)) n lo s :
  I lo s →
  (∀ i s, lo <= i < lo + Z.of_nat n → I i s →
     match body i s with
     | None => False
     | Some (inl s') => I (i + 1) s'
     | Some (inr r) => Q r
     end) →
  ∃ x, for_loop n lo body s = Some x ∧
    match x with inl s' => I (lo + Z.of_nat n) s' | inr r => Q r end.
Proof.
  revert lo s. induction n as [|n IH]; intros lo s HI Hb; simpl.
  - exists (inl s). split; [done|]. by replace (lo + Z.of_nat 0) with lo by lia.
  - specialize (Hb lo s ltac:(lia) HI) as Hs.
    destruct (body lo s) as [[s'|r]|]; [|by eauto|done].
    destruct (IH (lo + 1) s') as (x & -> & Hx); [done| |].
    { intros i s'' Hi. apply Hb. lia. }
    exists x. split; [done|]. destruct x; [|done].
    by replace (lo + Z.of_nat (Datatypes.S n)) with (lo + 1 + Z.of_nat n) by lia.
Qed.

Lemma for_n_total {S} (I : Z → S → Prop) (body : Z → S → option S) n lo s :
  I lo s →
  (∀ i s, lo <= i < lo + Z.of_nat n → I i s → ∃ s', body i s = Some s' ∧ I (i + 1) s') →
  ∃ s', for_n n lo body s = Some s' ∧ I (lo + Z.of_nat n) s'.
Proof.
  revert lo s. induction n as [|n IH]; intros lo s HI Hb; simpl.
  - exists s. split; [done|]. by replace (lo + Z.of_nat 0) with lo by lia.
  - destruct (Hb lo s ltac:(lia) HI) as (s' & Hbs & Hs'); rewrite Hbs. simpl.
    destruct (IH (lo + 1) s') as (s'' & -> & ?); [done| |].
    { intros i s2 Hi. apply Hb. lia. }
    exists s''. split; [done|].
    by replace (lo + Z.of_nat (Datatypes.S n)) with (lo + 1 + Z.of_nat n) by lia.
Qed.

#[global] Arguments loop : simpl never.
#[global] Arguments for_loop : simpl never.
#[global] Arguments for_n : simpl never.

(** ** Machine integers: values in range are unchanged *)

Lemma s32_small x : - 2 ^ 31 <= x < 2 ^ 31 → s32 x = x.
Proof. intros. unfold s32. rewrite Z.mod_small; lia. Qed.
Lemma u32_small x : 0 <= x < 2 ^ 32 → u32 x = x.
Proof. apply Z.mod_small. Qed.
Lemma u8_small x : 0 <= x < 2 ^ 8 → u8 x = x.
Proof. apply Z.mod_small. Qed.
Lemma u64_small x : 0 <= x < 2 ^ 64 → u64 x = x.
Proof. apply Z.mod_small. Qed.
Lemma s32_range x : - 2 ^ 31 <= s32 x < 2 ^ 31.
Proof. unfold s32. pose proof (Z.mod_pos_bound (x + 2 ^ 31) (2 ^ 32)). lia. Qed.
Lemma u32_range x : 0 <= u32 x < 2 ^ 32.
Proof. apply Z.mod_pos_bound. lia. Qed.
Lemma u8_range x : 0 <= u8 x < 2 ^ 8.
Proof. apply Z.mod_pos_bound. lia. Qed.
Lemma u64_range x : 0 <= u64 x < 2 ^ 64.
Proof. apply Z.mod_pos_bound. lia. Qed.

Section target.
Context `{Target}.
Lemma ptr_bits_ge : 2 ^ 32 <= 2 ^ ptr_bits.
Proof. destruct ptr_bits_cases as [-> | ->]; lia. Qed.
Lemma usize_small x : 0 <= x < 2 ^ ptr_bits → usize x = x.
Proof. apply Z.mod_small. Qed.
Lemma usize_int x : 0 <= x < 2 ^ 31 → usize x = x.
Proof. intros. apply usize_small. pose proof ptr_bits_ge. lia. Qed.
Lemma usize_range x : 0 <= usize x < 2 ^ ptr_bits.
Proof. apply Z.mod_pos_bound. pose proof ptr_bits_ge. lia. Qed.
(** Wrapping twice is wrapping once. *)
Lemma usize_sub_l a b : usize (usize a - b) = usize (a - b).
Proof. apply Zminus_mod_idemp_l. Qed.
Lemma usize_add_l a b : usize (usize a + b) = usize (a + b).
Proof. apply Zplus_mod_idemp_l. Qed.
(** A negative [int] compared with a [size_t] counts as a huge number. *)
Lemma usize_neg x : - 2 ^ 31 <= x < 0 → usize x = x + 2 ^ ptr_bits ∧ 2 ^ 31 <= usize x.
Proof.
  intros. pose proof ptr_bits_ge. unfold usize.
  rewrite <- (Z.mod_unique_pos x (2 ^ ptr_bits) (-1) (x + 2 ^ ptr_bits)) by lia. lia.
Qed.
Lemma ssize_small x : 0 <= x < 2 ^ 31 → ssize x = x.
Proof.
  intros. unfold ssize.
  destruct ptr_bits_cases as [-> | ->]; rewrite Z.mod_small; lia.
Qed.
End target.

(** ** Automation *)

(** Wraps of values in range, for [autorewrite with cint]; ranges of wrapped
    values, for [auto with cint]. *)
Create HintDb cint.
Create Rewrite HintDb cint.
#[export] Hint Rewrite @usize_small @usize_int @s32_small @u32_small @u8_small @u64_small using lia : cint.
#[export] Hint Resolve s32_range u32_range u8_range u64_range @usize_range @ptr_bits_ge : cint.

(** Past a call that returned. *)
Ltac bind_red := cbn [mbind option_bind].
Tactic Notation "returns" constr(H) := rewrite H; bind_red.
Tactic Notation "returns" constr(H) "by" tactic3(tac) := rewrite H by tac; bind_red.

(** ** Arrays *)

Section arrays.
Context {A : Type}.
Implicit Types (l b : list A) (x : A) (i j off n : Z).

Lemma zget_lookup l i : 0 <= i → l.[i] = l !! Z.to_nat i.
Proof. unfold zget. intros. by rewrite decide_True. Qed.
Lemma zget_Some l i x : l.[i] = Some x → 0 <= i < Z.of_nat (length l).
Proof.
  unfold zget. case_decide; [|done]. intros ?%lookup_lt_Some. lia.
Qed.
Lemma zget_is_Some l i : 0 <= i < Z.of_nat (length l) → ∃ x, l.[i] = Some x.
Proof.
  intros. rewrite zget_lookup by lia. apply lookup_lt_is_Some_2. lia.
Qed.
Lemma zget_None l i : ¬ (0 <= i < Z.of_nat (length l)) → l.[i] = None.
Proof.
  intros. unfold zget. case_decide; [|done]. apply lookup_ge_None_2. lia.
Qed.
Lemma zset_in l i x : 0 <= i < Z.of_nat (length l) → l.[i <- x] = Some (<[Z.to_nat i := x]> l).
Proof. intros. unfold zset. by rewrite decide_True. Qed.
Lemma zset_Some l i x l' : l.[i <- x] = Some l' →
  0 <= i < Z.of_nat (length l) ∧ l' = <[Z.to_nat i := x]> l.
Proof. unfold zset. case_decide; [|done]. by intros [= <-]. Qed.
Lemma zset_length l i x l' : l.[i <- x] = Some l' → length l' = length l.
Proof. intros [_ ->]%zset_Some. apply length_insert. Qed.
Lemma zget_insert l i j x : 0 <= i < Z.of_nat (length l) →
  (<[Z.to_nat i := x]> l).[j] = if decide (i = j) then Some x else l.[j].
Proof.
  intros. unfold zget. case_decide as Hj.
  - case_decide as Hij.
    + subst. apply list_lookup_insert_eq. lia.
    + apply list_lookup_insert_ne. lia.
  - rewrite decide_False by lia. done.
Qed.

(** Writing the cell after a prefix. *)
Lemma zset_next l y tl x i : i = Z.of_nat (length l) → (l ++ y :: tl).[i <- x] = Some ((l ++ [x]) ++ tl).
Proof.
  intros ->. rewrite zset_in by (rewrite length_app; simpl; lia). f_equal.
  rewrite Nat2Z.id, insert_app_r_alt, Nat.sub_diag by lia. simpl. by rewrite <- app_assoc.
Qed.
(** A loop that fills an array from the end of a prefix on. *)
Lemma fill_next l tl x (n : nat) : (n <= length tl)%nat →
  for_n n (Z.of_nat (length l)) (λ i l, l.[i <- x]) (l ++ tl) = Some (l ++ replicate n x ++ drop n tl).
Proof.
  revert l tl. induction n as [|n IH]; intros l tl Hn; [done|].
  destruct tl as [|y tl]; simpl in Hn; [lia|].
  rewrite for_n_S, zset_next by done. cbn [mbind option_bind].
  replace (Z.of_nat (length l) + 1) with (Z.of_nat (length (l ++ [x]))) by (rewrite length_app; simpl; lia).
  rewrite IH by lia. simpl. by rewrite <- app_assoc.
Qed.

Lemma zread_in l off n : 0 <= off → 0 <= n → off + n <= Z.of_nat (length l) →
  zread l off n = Some (take (Z.to_nat n) (drop (Z.to_nat off) l)).
Proof. intros. unfold zread. by rewrite decide_True. Qed.
Lemma zwrite_in l off b : 0 <= off → off + Z.of_nat (length b) <= Z.of_nat (length l) →
  zwrite l off b = Some (take (Z.to_nat off) l ++ b ++ drop (Z.to_nat off + length b) l).
Proof. intros. unfold zwrite. by rewrite decide_True. Qed.
Lemma zwrite_length l off b l' : zwrite l off b = Some l' → length l' = length l.
Proof.
  unfold zwrite. case_decide; [|done]. intros [= <-].
  rewrite !length_app, length_take, length_drop. lia.
Qed.
Lemma zwrite_get l off b l' j : zwrite l off b = Some l' →
  l'.[j] = if decide (off <= j < off + Z.of_nat (length b)) then b.[j - off] else l.[j].
Proof.
  unfold zwrite. case_decide as Hoff; [|done]. intros [= <-].
  destruct (decide (0 <= j)).
  2:{ rewrite decide_False by lia. unfold zget. by rewrite !decide_False by lia. }
  case_decide.
  - rewrite !zget_lookup by lia.
    rewrite lookup_app_r, lookup_app_l; rewrite length_take; [f_equal; lia|lia..].
  - rewrite !zget_lookup by lia. destruct (decide (j < off)).
    + rewrite lookup_app_l by (rewrite length_take; lia).
      rewrite lookup_take_lt by lia. done.
    + rewrite lookup_app_r by (rewrite length_take; lia).
      rewrite lookup_app_r by (rewrite length_take; lia).
      rewrite lookup_drop, length_take. f_equal. lia.
Qed.
End arrays.

Lemma zget_app {A} (d b : list A) j : (d ++ b).[j] =
  if decide (j < Z.of_nat (length d)) then d.[j] else b.[j - Z.of_nat (length d)].
Proof.
  destruct (decide (0 <= j)).
  2:{ rewrite decide_True by lia. unfold zget. by rewrite !decide_False by lia. }
  case_decide; rewrite !zget_lookup by lia; [rewrite lookup_app_l by lia; done|].
  rewrite lookup_app_r by lia. f_equal. lia.
Qed.

(** Arrays of the same length and cells are equal. *)
Lemma list_eq_zget {A} (l l' : list A) :
  length l = length l' → (∀ j, 0 <= j < Z.of_nat (length l) → l.[j] = l'.[j]) → l = l'.
Proof.
  intros Hl Hj. apply list_eq. intros i. destruct (decide (i < length l)%nat).
  - specialize (Hj (Z.of_nat i) ltac:(lia)). by rewrite !zget_lookup, !Nat2Z.id in Hj by lia.
  - by rewrite !lookup_ge_None_2 by lia.
Qed.

Lemma le_val_range l : Forall byte l → 0 <= le_val l < 2 ^ (8 * Z.of_nat (length l)).
Proof.
  induction 1 as [|b l Hb _ IH]; [done|]. cbn [le_val foldr length]. fold (le_val l).
  replace (8 * Z.of_nat (S (length l))) with (8 + 8 * Z.of_nat (length l)) by lia.
  rewrite Z.pow_add_r by lia. unfold byte in Hb. lia.
Qed.

Lemma field_in l off n : 0 <= off → 0 <= n → off + n <= Z.of_nat (length l) → Forall byte l →
  ∃ v, field l off n = Some v ∧ 0 <= v < 2 ^ (8 * n) ∧
    v = le_val (take (Z.to_nat n) (drop (Z.to_nat off) l)).
Proof.
  intros Ho Hn Hl Hb. unfold field. rewrite zread_in by done. eexists. split; [done|]. split; [|done].
  pose proof (le_val_range (take (Z.to_nat n) (drop (Z.to_nat off) l))) as Hr.
  rewrite length_take, length_drop in Hr.
  replace (Z.of_nat (Z.to_nat n `min` (length l - Z.to_nat off))) with n in Hr by lia.
  apply Hr. by apply Forall_take, Forall_drop.
Qed.

(** ** Bits *)

Lemma testbit_high x n j : 0 <= x < 2 ^ n → n <= j → Z.testbit x j = false.
Proof.
  intros [Hx Hn] Hj. destruct (Z.eq_dec x 0) as [-> |]; [apply Z.bits_0|].
  apply Z.bits_above_log2; [done|]. apply Z.log2_lt_pow2 in Hn; lia.
Qed.

Lemma testbit_bound x n : 0 <= n → 0 <= x →
  (∀ j, n <= j → Z.testbit x j = false) → x < 2 ^ n.
Proof.
  intros Hn Hx Hj. assert (x = x mod 2 ^ n) as ->.
  { apply Z.bits_inj'. intros j Hj0. destruct (Z.lt_ge_cases j n).
    - by rewrite Z.mod_pow2_bits_low.
    - rewrite Z.mod_pow2_bits_high by lia. by apply Hj. }
  apply Z.mod_pos_bound. lia.
Qed.

Lemma testbit_u8 x j : Z.testbit (u8 x) j = if decide (j < 8) then Z.testbit x j else false.
Proof.
  unfold u8. case_decide; [|by apply Z.mod_pow2_bits_high; lia].
  destruct (Z.lt_ge_cases j 0); [by rewrite !Z.testbit_neg_r|].
  by apply Z.mod_pow2_bits_low.
Qed.
Lemma testbit_u32 x j : Z.testbit (u32 x) j = if decide (j < 32) then Z.testbit x j else false.
Proof.
  unfold u32. case_decide; [|by apply Z.mod_pow2_bits_high; lia].
  destruct (Z.lt_ge_cases j 0); [by rewrite !Z.testbit_neg_r|].
  by apply Z.mod_pow2_bits_low.
Qed.

(** A concatenation of bit fields as a sum. *)
Lemma lor_shiftl_add a b n : 0 <= n → 0 <= a < 2 ^ n → Z.lor (Z.shiftl b n) a = 2 ^ n * b + a.
Proof.
  intros Hn Ha. rewrite Z.shiftl_mul_pow2 by done. rewrite (Z.mul_comm (2 ^ n)).
  rewrite <- Z.lxor_lor; [rewrite <- Z.add_nocarry_lxor; [done|]|]; apply Z.bits_inj'; intros j Hj;
    rewrite Z.land_spec, Z.bits_0; (destruct (Z.lt_ge_cases j n);
    [rewrite Z.mul_pow2_bits_low by done; done|rewrite (testbit_high a n) by done; apply andb_false_r]).
Qed.

Lemma land_1_testbit x k : 0 <= k →
  Z.land (Z.shiftr x k) 1 = if Z.testbit x k then 1 else 0.
Proof.
  intros. change 1 with (Z.ones 1) at 1. rewrite Z.land_ones by lia.
  change (2 ^ 1) with 2. by rewrite Zmod_odd, Z.testbit_odd.
Qed.

Lemma testbit_pow2 o j : 0 <= o → Z.testbit (Z.shiftl 1 o) j = bool_decide (j = o).
Proof.
  intros. rewrite Z.shiftl_1_l. case_bool_decide.
  - subst. by apply Z.pow2_bits_true.
  - apply Z.pow2_bits_false. lia.
Qed.
