(* ===== verification/Platform.v ===== *)
(** * Platform: what the five targets define differently

    The [consts.h] and [settings.h] under [kernel/include/platform] and the
    rounding macros of [libkern/libkern.h]. The components are written for any
    platform; the instances are the values of the headers. *)
From S2P Require Import Prelude.

(** Every target uses 4 KiB pages. *)
Definition VMM_PAGE_SIZE : Z := 4096.

Class Platform := {
  plat_target :: Target;
  PMM_BLOCK_SIZE : Z;
  USER_HIGH : Z;
  KERNEL_BASE : Z;
  (** Whether plain [char] is signed in the target's ABI. *)
  char_signed : bool;
  pmm_block_size_cases : PMM_BLOCK_SIZE = 1024 ∨ PMM_BLOCK_SIZE = 4096;
  user_high_page : (USER_HIGH + 1) mod VMM_PAGE_SIZE = 0;
  kernel_base_page : KERNEL_BASE mod VMM_PAGE_SIZE = 0;
  user_kernel : 2 ^ 31 <= USER_HIGH < KERNEL_BASE;
  kernel_base_fits : KERNEL_BASE + 2 ^ 30 <= 2 ^ ptr_bits;
}.

Definition x86 : Platform.
Proof.
  refine {| plat_target := target32; PMM_BLOCK_SIZE := 4096; USER_HIGH := 0xbfffffff;
            KERNEL_BASE := 0xc0000000; char_signed := true |};
    try (vm_compute; split; discriminate); try reflexivity; [by right|done..].
Defined.

Definition arm32 : Platform.
Proof.
  refine {| plat_target := target32; PMM_BLOCK_SIZE := 1024; USER_HIGH := 0xbfffffff;
            KERNEL_BASE := 0xc0000000; char_signed := false |};
    try (vm_compute; split; discriminate); try reflexivity; [by left|done..].
Defined.

Definition x86_64 : Platform.
Proof.
  refine {| plat_target := target64; PMM_BLOCK_SIZE := 4096; USER_HIGH := 0x7fffffffffff;
            KERNEL_BASE := 0xffff800000000000; char_signed := true |};
    try (vm_compute; split; discriminate); try reflexivity; [by right|done..].
Defined.

Definition arm64 : Platform.
Proof.
  refine {| plat_target := target64; PMM_BLOCK_SIZE := 4096; USER_HIGH := 0x1fffffffff;
            KERNEL_BASE := 0xffffff8000000000; char_signed := false |};
    try (vm_compute; split; discriminate); try reflexivity; [by right|done..].
Defined.

Definition riscv64 : Platform.
Proof.
  refine {| plat_target := target64; PMM_BLOCK_SIZE := 4096; USER_HIGH := 0x7fffffffffff;
            KERNEL_BASE := 0xffff800000000000; char_signed := false |};
    try (vm_compute; split; discriminate); try reflexivity; [by right|done..].
Defined.

Definition IS_USER_VADDR `{Platform} (vaddr : Z) : bool := vaddr <=? USER_HIGH.

(** The size of a pointer and of [size_t] in bytes. *)
Definition ptr_bytes `{Target} : Z := ptr_bits / 8.

(** User mode may use the page. *)
Definition MMU_FLAG_NONPRIV : Z := Z.shiftl 1 4.

(** All the bits of [flag] are set. *)
Definition TEST_FLAG (val flag : Z) : bool := Z.land val flag =? flag.

Lemma test_flag_bit v k : 0 <= k → TEST_FLAG v (Z.shiftl 1 k) = Z.testbit v k.
Proof.
  intros Hk. unfold TEST_FLAG. rewrite Z.shiftl_1_l. destruct (Z.testbit v k) eqn:E.
  - apply Z.eqb_eq, Z.bits_inj'. intros j Hj. rewrite Z.land_spec, Z.pow2_bits_eqb by done.
    destruct (Z.eqb_spec k j) as [->|]; [by rewrite E|by rewrite andb_false_r].
  - apply Z.eqb_neq. intros H%(f_equal (λ x, Z.testbit x k)).
    by rewrite Z.land_spec, E, Z.pow2_bits_true in H by done.
Qed.

(** [ROUND_CEIL] and [ROUND_FLOOR] on a [size_t] and an [int] constant [b]:
    the mask [~(b - 1)] is sign-extended to the width of [size_t]. *)
Definition ROUND_CEIL `{Target} (a b : Z) : Z :=
  Z.land (usize (a + (b - 1))) (usize (Z.lnot (b - 1))).
Definition ROUND_FLOOR `{Target} (a b : Z) : Z :=
  Z.land a (usize (Z.lnot (b - 1))).

Section rounding.
Context `{Target}.

(** Masking with [~(2^k - 1)] clears the low [k] bits. *)
Lemma land_mask a k : 0 <= k < 32 → 0 <= a < 2 ^ ptr_bits →
  Z.land a (usize (Z.lnot (2 ^ k - 1))) = a - a mod 2 ^ k.
Proof.
  intros Hk Ha. pose proof ptr_bits_ge.
  assert (0 < 2 ^ k) by (apply Z.pow_pos_nonneg; lia).
  assert (0 <= ptr_bits) by (destruct ptr_bits_cases; lia).
  replace (2 ^ k - 1) with (Z.ones k) by (rewrite Z.ones_equiv; lia).
  replace (a - a mod 2 ^ k) with (Z.ldiff a (Z.ones k)).
  2:{ rewrite Z.ldiff_ones_r, Z.shiftr_div_pow2, Z.shiftl_mul_pow2 by lia.
      pose proof (Z.div_mod a (2 ^ k)). lia. }
  apply Z.bits_inj'. intros j Hj. rewrite Z.land_spec, Z.ldiff_spec. unfold usize.
  destruct (Z.lt_ge_cases j ptr_bits).
  - by rewrite Z.mod_pow2_bits_low, Z.lnot_spec by lia.
  - rewrite (testbit_high a ptr_bits) by lia. done.
Qed.

Lemma ROUND_FLOOR_spec a k : 0 <= k < 32 → 0 <= a < 2 ^ ptr_bits →
  ROUND_FLOOR a (2 ^ k) = a - a mod 2 ^ k.
Proof. apply land_mask. Qed.

Lemma ROUND_CEIL_spec a k : 0 <= k < 32 → 0 <= a → a + (2 ^ k - 1) < 2 ^ ptr_bits →
  ROUND_CEIL a (2 ^ k) = (a + (2 ^ k - 1)) - (a + (2 ^ k - 1)) mod 2 ^ k.
Proof.
  intros. assert (0 < 2 ^ k) by (apply Z.pow_pos_nonneg; lia).
  unfold ROUND_CEIL. rewrite (usize_small (a + _)) by lia. apply land_mask; lia.
Qed.
End rounding.
