(* ===== verification/Memory.v ===== *)
(** * Memory: byte-addressed memory

    A memory maps the addresses that are mapped to their bytes; an access to
    any other address is a fault ([None]). Words are little-endian, as on all
    five targets. What a routine does to memory is stated pointwise, by
    [agrees] and [filled]. *)
From stdpp Require Import gmap.
From S2P Require Import Prelude.

Abbreviation mem := (gmap Z Z).

Definition mset (m : mem) (a v : Z) : option mem :=
  match m !! a with Some _ => Some (<[a := v]> m) | None => None end.

(** An [n]-byte little-endian load and store. *)
Fixpoint load (m : mem) (a : Z) (n : nat) : option Z :=
  match n with
  | O => Some 0
  | S n => b ← m !! a; r ← load m (a + 1) n; Some (b + 256 * r)
  end.

Fixpoint store (m : mem) (a : Z) (n : nat) (v : Z) : option mem :=
  match n with
  | O => Some m
  | S n => m ← mset m a (v mod 256); store m (a + 1) n (v / 256)
  end.

(** ** Vocabulary *)

Definition mapped (m : mem) (a n : Z) : Prop := ∀ x, a <= x < a + n → is_Some (m !! x).

(** [m'] holds [f x] at each address of [a .. a + n), and is [m] elsewhere. *)
Definition filled (m m' : mem) (a n : Z) (f : Z → option Z) : Prop :=
  ∀ x, m' !! x = if decide (a <= x < a + n) then f x else m !! x.

(** The bytes [l] lie at [a]. *)
Definition bytes_at (m : mem) (a : Z) (l : list Z) : Prop :=
  ∀ i, 0 <= i < Z.of_nat (length l) → m !! (a + i) = l.[i].

(** Every byte of the memory is one. *)
Definition mem_ok (m : mem) : Prop := ∀ a b, m !! a = Some b → 0 <= b < 256.

Lemma mset_mapped m a v : is_Some (m !! a) → mset m a v = Some (<[a := v]> m).
Proof. unfold mset. by intros [? ->]. Qed.

Lemma mset_Some m a v m' : mset m a v = Some m' → is_Some (m !! a) ∧ m' = <[a := v]> m.
Proof. unfold mset. destruct (m !! a) eqn:E; [|done]. intros [= <-]. eauto. Qed.

Lemma mem_ok_insert m a v : mem_ok m → 0 <= v < 256 → mem_ok (<[a := v]> m).
Proof.
  intros Hm Hv a' b. rewrite lookup_insert. case_decide; [by intros [= <-]|apply Hm].
Qed.

Lemma mapped_insert m a n x v : mapped m a n → mapped (<[x := v]> m) a n.
Proof. intros Hm y Hy. rewrite lookup_insert. case_decide; [done|by apply Hm]. Qed.

Lemma mapped_sub m a n a' n' : mapped m a n → a <= a' → a' + n' <= a + n → mapped m a' n'.
Proof. intros Hm ? ? x Hx. apply Hm. lia. Qed.

Lemma mapped_filled m m' a n f b k : filled m m' a n f →
  (∀ x, a <= x < a + n → is_Some (f x)) → mapped m b k → mapped m' b k.
Proof. intros Hf Hs Hm x Hx. rewrite Hf. case_decide; [by apply Hs|by apply Hm]. Qed.

Lemma mem_ok_filled m m' a n f : filled m m' a n f →
  (∀ x b, a <= x < a + n → f x = Some b → 0 <= b < 256) → mem_ok m → mem_ok m'.
Proof. intros Hf Hs Hm x b. rewrite Hf. case_decide; [by apply Hs|apply Hm]. Qed.

Lemma filled_nil m a f n : n <= 0 → filled m m a n f.
Proof. intros Hn x. rewrite decide_False by lia. done. Qed.

Lemma filled_eq m m1 m2 a n f : filled m m1 a n f → filled m m2 a n f → m1 = m2.
Proof. intros H1 H2. apply map_eq. intros x. by rewrite H1, H2. Qed.

(** Filling one range and then the next fills both. *)
Lemma filled_app m m1 m2 a n k f : 0 <= n → 0 <= k →
  filled m m1 a n f → filled m1 m2 (a + n) k f → filled m m2 a (n + k) f.
Proof.
  intros Hn Hk H1 H2 x. rewrite H2, H1. repeat case_decide; (done || lia).
Qed.

Lemma filled_one m a v f : f a = Some v → filled m (<[a := v]> m) a 1 f.
Proof.
  intros Hf x. rewrite lookup_insert. repeat case_decide; subst; (done || lia).
Qed.

(** ** Words *)

Lemma store_filled n m a v : mapped m a (Z.of_nat n) →
  ∃ m', store m a n v = Some m' ∧
    filled m m' a (Z.of_nat n) (λ x, Some (v / 256 ^ (x - a) mod 256)).
Proof.
  revert m a v. induction n as [|n IH]; intros m a v Hm; simpl store.
  { exists m. split; [done|by apply filled_nil]. }
  rewrite mset_mapped by (apply Hm; lia). simpl.
  destruct (IH (<[a := v mod 256]> m) (a + 1) (v / 256)) as (m' & -> & Hf).
  { apply mapped_insert. intros x Hx. apply Hm. lia. }
  exists m'. split; [done|].
  replace (Z.of_nat (S n)) with (1 + Z.of_nat n) by lia.
  eapply filled_app; [lia|lia| |].
  - apply filled_one. by rewrite Z.sub_diag, Z.pow_0_r, Z.div_1_r.
  - intros x. rewrite Hf. case_decide; [|done]. f_equal.
    replace (x - a) with (1 + (x - (a + 1))) by lia.
    rewrite Z.pow_add_r, Z.pow_1_r by lia. by rewrite Z.div_div by (try apply Z.pow_pos_nonneg; lia).
Qed.

Lemma load_ext n m m' a : (∀ x, a <= x < a + Z.of_nat n → m !! x = m' !! x) →
  load m a n = load m' a n.
Proof.
  revert a. induction n as [|n IH]; intros a Hx; simpl; [done|].
  rewrite (Hx a) by lia. rewrite (IH (a + 1)); [done|]. intros x ?. apply Hx. lia.
Qed.

(** A load gives back what the store at the same place wrote. *)
Lemma load_stored n m a v : 0 <= v < 256 ^ Z.of_nat n →
  (∀ x, a <= x < a + Z.of_nat n → m !! x = Some (v / 256 ^ (x - a) mod 256)) →
  load m a n = Some v.
Proof.
  revert m a v. induction n as [|n IH]; intros m a v Hv Hf; simpl.
  { rewrite Z.pow_0_r in Hv. f_equal. lia. }
  rewrite Hf by lia. rewrite Z.sub_diag, Z.pow_0_r, Z.div_1_r. simpl.
  rewrite (IH m (a + 1) (v / 256)).
  - simpl. f_equal. pose proof (Z.div_mod v 256). lia.
  - replace (Z.of_nat (S n)) with (1 + Z.of_nat n) in Hv by lia.
    rewrite Z.pow_add_r, Z.pow_1_r in Hv by lia.
    split; [apply Z.div_pos; lia|]. apply Z.div_lt_upper_bound; lia.
  - intros x Hx. rewrite Hf by lia. do 2 f_equal.
    replace (x - a) with (1 + (x - (a + 1))) by lia.
    rewrite Z.pow_add_r, Z.pow_1_r by lia. by rewrite Z.div_div by (try apply Z.pow_pos_nonneg; lia).
Qed.

Lemma load_store_same n m a v m' : 0 <= v < 256 ^ Z.of_nat n → mapped m a (Z.of_nat n) →
  store m a n v = Some m' → load m' a n = Some v.
Proof.
  intros Hv Hm Hs. destruct (store_filled n m a v Hm) as (m2 & Hs2 & Hf).
  assert (m2 = m') as -> by congruence. apply load_stored; [done|].
  intros x Hx. rewrite Hf. by rewrite decide_True.
Qed.

(** *** Strings and blocks *)

Lemma bytes_at_cons m a b l : bytes_at m a (b :: l) ↔ m !! a = Some b ∧ bytes_at m (a + 1) l.
Proof.
  unfold bytes_at. split.
  - intros H. split.
    + rewrite <- (Z.add_0_r a). rewrite H by (simpl; lia). done.
    + intros i Hi. replace (a + 1 + i) with (a + (i + 1)) by lia.
      rewrite H by (simpl; lia). rewrite !zget_lookup by lia.
      replace (Z.to_nat (i + 1)) with (S (Z.to_nat i)) by lia. done.
  - intros [H0 H] i Hi. simpl in Hi. destruct (Z.eq_dec i 0) as [->|].
    + by rewrite Z.add_0_r.
    + replace (a + i) with (a + 1 + (i - 1)) by lia. rewrite H by lia.
      rewrite !zget_lookup by lia. replace (Z.to_nat i) with (S (Z.to_nat (i - 1))) by lia. done.
Qed.

Lemma bytes_at_app m a l1 l2 : bytes_at m a (l1 ++ l2) ↔
  bytes_at m a l1 ∧ bytes_at m (a + Z.of_nat (length l1)) l2.
Proof.
  revert a. induction l1 as [|b l1 IH]; intros a; simpl.
  - rewrite Z.add_0_r. split; [|tauto]. intros H. split; [|done]. intros i Hi. simpl in Hi. lia.
  - rewrite !bytes_at_cons, IH.
    replace (a + 1 + Z.of_nat (length l1)) with (a + Z.of_nat (S (length l1))) by lia. tauto.
Qed.

Lemma bytes_at_mapped m a l : bytes_at m a l → mapped m a (Z.of_nat (length l)).
Proof.
  intros H x Hx. replace x with (a + (x - a)) by lia. rewrite H by lia.
  destruct (zget_is_Some l (x - a)) as [b ->]; [lia|done].
Qed.

(** Distinct mapped addresses are counted by the size of the memory. *)
Lemma mapped_size m a n : mapped m a (Z.of_nat n) → (n <= size m)%nat.
Proof.
  revert m a. induction n as [|n IH]; intros m a Hm; [lia|].
  destruct (Hm a) as [b Hb]; [lia|].
  assert (n <= size (delete a m))%nat.
  { apply (IH _ (a + 1)). intros x Hx. rewrite lookup_delete_ne by lia. apply Hm. lia. }
  rewrite map_size_delete, Hb in H. 
  assert (size m ≠ 0)%nat; [|lia]. apply map_size_ne_0_lookup. by exists a, b.
Qed.
