(* ===== verification/Libkern.v ===== *)
(** * Libkern: memory and string routines of the kernel

    [kernel/libkern/mem.c] and [kernel/libkern/utils.c] over byte-addressed
    memory. An [int] loop counter that would overflow is undefined behaviour,
    hence [None]. *)
From stdpp Require Import gmap.
From S2P Require Import Prelude Platform Memory.

(** [for (int i = 0; i < n; i++)] with an unsigned bound [n]: from [2 ^ 31] on
    the counter overflows. *)
Definition for_int {S} (n : Z) (body : Z → S → option S) (s : S) : option S :=
  if 2 ^ 31 <=? n then None else for_n (Z.to_nat n) 0 body s.

(** ** [mem.c] *)

Definition set_byte (dest fll i : Z) (m : mem) : option mem := mset m (dest + i) fll.

(** A store through a [uint64_t *], which must be aligned. *)
Definition store64 (a v : Z) (m : mem) : option mem :=
  if a mod 8 =? 0 then store m a 8 v else None.

Definition fill64 (fll : Z) : Z :=
  let fll16 := Z.lor (Z.shiftl fll 8) fll in
  let fll32 := Z.lor (u64 (Z.shiftl fll16 16)) fll16 in
  Z.lor (u64 (Z.shiftl fll32 32)) fll32.

Definition copy_byte (dest src i : Z) (m : mem) : option mem :=
  b ← m !! (src + i); mset m (dest + i) b.

Section libkern.
Context `{Platform}.

Definition memset (dest fll nbytes : Z) (m : mem) : option (Z * mem) :=
  if nbytes <? 16 then
    m ← for_int nbytes (set_byte dest fll) m; Some (dest, m)
  else
    let aligment := (8 - dest mod 8) mod 8 in
    m ← for_int aligment (set_byte dest fll) m;
    let nbytes := usize (nbytes - aligment) in
    let destaddr_aligned := usize (dest + aligment) in
    let words := nbytes / 8 in
    let fll64 := fill64 fll in
    m ← for_n (Z.to_nat words) 0 (λ i, store64 (destaddr_aligned + 8 * i) fll64) m;
    let destaddr_tail := destaddr_aligned + 8 * words in
    let rembytes := usize (nbytes - usize (words * 8)) in
    m ← for_n (Z.to_nat rembytes) 0 (set_byte destaddr_tail fll) m;
    Some (dest, m).

Definition memcpy (dest src nbytes : Z) (m : mem) : option (Z * mem) :=
  m ← for_int nbytes (copy_byte dest src) m; Some (dest, m).

(** The second loop counts down from [(int)(nbytes - 1)], which is negative
    for [nbytes] 0 and above [2 ^ 31]. *)
Definition memmove (dest src nbytes : Z) (m : mem) : option (Z * mem) :=
  if dest <? src then
    m ← for_int nbytes (copy_byte dest src) m; Some (dest, m)
  else
    let i0 := s32 (usize (nbytes - 1)) in
    m ← for_n (Z.to_nat (i0 + 1)) 0 (λ k, copy_byte dest src (i0 - k)) m;
    Some (dest, m).

(** Null when the stop byte is not met. *)
Definition memccpy_step (dest src stop i : Z) (m : mem) : option (mem + Z * mem) :=
  m ← copy_byte dest src i m;
  b ← m !! (src + i);
  if b =? stop then Some (inr (dest + i + 1, m)) else Some (inl m).

Definition memccpy (dest src stop nbytes : Z) (m : mem) : option (Z * mem) :=
  if 2 ^ 31 <=? nbytes then None else
  r ← for_loop (Z.to_nat nbytes) 0 (memccpy_step dest src stop) m;
  Some (match r with inl m => (0, m) | inr r => r end).

Definition memcmp (m : mem) (src1 src2 nbytes : Z) : option Z :=
  if 2 ^ 31 <=? nbytes then None else
  r ← for_loop (Z.to_nat nbytes) 0 (λ i (_ : unit),
    b1 ← m !! (src1 + i);
    b2 ← m !! (src2 + i);
    if b1 <? b2 then Some (inr (-1))
    else if b2 <? b1 then Some (inr 1)
    else Some (inl ())) ();
  Some (match r with inl _ => 0 | inr r => r end).

(** ** [utils.c] *)

(** The value of a [char]. *)
Definition char_val (b : Z) : Z :=
  if char_signed then (if b <? 128 then b else b - 256) else b.

(** A loop over a string reads a new address each time and stops at the first
    unmapped one, so the size of the memory bounds it. *)
Definition str_fuel (m : mem) : nat := S (size m).

Definition strlen (m : mem) (s : Z) : option Z :=
  loop (str_fuel m) (λ i,
    b ← m !! (s + i);
    if b =? 0 then Some (inr i) else Some (inl (usize (i + 1)))) 0.

Definition strcmp_end (x y : Z) : Z :=
  if char_val x <? char_val y then -1 else if char_val y <? char_val x then 1 else 0.

Definition strcmp (m : mem) (a b : Z) : option Z :=
  loop (str_fuel m) (λ '(a, b),
    x ← m !! a; y ← m !! b;
    if (x =? y) && negb (x =? 0) && negb (y =? 0) then Some (inl (a + 1, b + 1))
    else Some (inr (strcmp_end x y))) (a, b).

Definition strncmp (m : mem) (a b num : Z) : option Z :=
  loop (str_fuel m) (λ '(a, b, num),
    x ← m !! a; y ← m !! b;
    if (x =? y) && negb (x =? 0) && negb (y =? 0) && negb (num =? 0)
    then Some (inl (a + 1, b + 1, num - 1))
    else if num =? 0 then Some (inr 0)
    else Some (inr (strcmp_end x y))) (a, b, num).

Definition ptrarray_len (m : mem) (s : Z) : option Z :=
  loop (str_fuel m) (λ len,
    p ← load m (s + ptr_bytes * len) (Z.to_nat ptr_bytes);
    if p =? 0 then Some (inr len) else Some (inl (usize (len + 1)))) 0.

Definition reverse (s : Z) (m : mem) : option mem :=
  n ← strlen m s;
  let j0 := s32 (usize (n - 1)) in
  loop (str_fuel m) (λ '(i, j, m),
    if i <? j then
      c ← m !! (s + i);
      d ← m !! (s + j);
      m ← mset m (s + i) d;
      m ← mset m (s + j) c;
      Some (inl (i + 1, j - 1, m))
    else Some (inr m)) (0, j0, m).

(** Any 64-bit number has at most 64 digits. *)
Definition digits_fuel : nat := 65.

Definition hex_char (num : Z) : Z := if num <? 10 then num + 48 else num + 97 - 10.

(** The digits are written from the least significant one and then reversed;
    [digit] turns one into its character. *)
Definition htos_digits (base : Z) (digit : Z → Z) (n str : Z) (m : mem) : option mem :=
  '(i, m) ← (if n =? 0 then m ← mset m str 48; Some (1, m) else Some (0, m));
  '(i, m) ← loop digits_fuel (λ '(n, i, m),
    if n =? 0 then Some (inr (i, m))
    else m ← mset m (str + i) (digit (n mod base)); Some (inl (n / base, i + 1, m))) (n, i, m);
  m ← mset m (str + i) 0;
  reverse str m.

Definition htos (hex str : Z) (m : mem) : option mem := htos_digits 16 hex_char hex str m.
Definition dtos (dec str : Z) (m : mem) : option mem := htos_digits 10 (λ num, num + 48) dec str m.

(** Nine digits fit an [int]; [mult] is multiplied once more after the last. *)
Definition stoi (m : mem) (str len : Z) : option Z :=
  if 9 <? len then Some 0 else
  '(res, _) ← for_n (Z.to_nat len) 0 (λ k '(res, mult),
    b ← m !! (str + len - 1 - k);
    let res := res + (char_val b - 48) * mult in
    let mult := mult * 10 in
    if decide (- 2 ^ 31 <= res < 2 ^ 31 ∧ mult < 2 ^ 31) then Some (res, mult) else None) (0, 1);
  Some res.

End libkern.

(** ** [ctype.h] *)

Definition _U : Z := 0x01.
Definition _L : Z := 0x02.
Definition _N : Z := 0x04.
Definition _S : Z := 0x08.
Definition _P : Z := 0x10.
Definition _C : Z := 0x20.
Definition _X : Z := 0x40.
Definition _B : Z := 0x80.

(** The table, as bytes; its upper half is zero. *)
Definition __kern_ctypes : list Z :=
  [32; 32; 32; 32; 32; 32; 32; 32; 32; 40; 40; 40; 40; 40; 32; 32;
   32; 32; 32; 32; 32; 32; 32; 32; 32; 32; 32; 32; 32; 32; 32; 32;
   136; 16; 16; 16; 16; 16; 16; 16; 16; 16; 16; 16; 16; 16; 16; 16;
   4; 4; 4; 4; 4; 4; 4; 4; 4; 4; 16; 16; 16; 16; 16; 16;
   16; 65; 65; 65; 65; 65; 65; 1; 1; 1; 1; 1; 1; 1; 1; 1;
   1; 1; 1; 1; 1; 1; 1; 1; 1; 1; 1; 16; 16; 16; 16; 16;
   16; 66; 66; 66; 66; 66; 66; 2; 2; 2; 2; 2; 2; 2; 2; 2;
   2; 2; 2; 2; 2; 2; 2; 2; 2; 2; 2; 16; 16; 16; 16; 32] ++ replicate 128 0.

(** [c] is converted to [unsigned char], so the lookup is in the table. *)
Definition ctype (c mask : Z) : Z := Z.land (default 0 (__kern_ctypes.[u8 c])) mask.

Definition isalnum (c : Z) : Z := ctype c (Z.lor _U (Z.lor _L _N)).
Definition isalpha (c : Z) : Z := ctype c (Z.lor _U _L).
Definition iscntrl (c : Z) : Z := ctype c _C.
Definition isdigit (c : Z) : Z := ctype c _N.
Definition isxdigit (c : Z) : Z := ctype c (Z.lor _N _X).
Definition isspace (c : Z) : Z := ctype c _S.
Definition ispunct (c : Z) : Z := ctype c _P.
Definition isprint (c : Z) : Z := ctype c (Z.lor _P (Z.lor _U (Z.lor _L (Z.lor _N _B)))).
Definition isgraph (c : Z) : Z := ctype c (Z.lor _P (Z.lor _U (Z.lor _L _N))).
Definition islower (c : Z) : bool := ctype c (Z.lor _U _L) =? _L.
Definition isupper (c : Z) : bool := ctype c (Z.lor _U _L) =? _U.
Definition tolower (c : Z) : Z := if isupper c then c - 97 + 65 else c.
Definition toupper (c : Z) : Z := if islower c then c - 65 + 97 else c.

(** ** Memory routines *)

Section mem_spec.
Context `{Platform}.

(** An ascending loop that writes [c] bytes in each round. *)
Lemma for_n_filled (c : Z) (body : Z → mem → option mem) n m a f : 0 <= c →
  (∀ x, a <= x < a + c * Z.of_nat n → is_Some (f x)) →
  mapped m a (c * Z.of_nat n) →
  (∀ i m', 0 <= i < Z.of_nat n → filled m m' a (c * i) f → mapped m' a (c * Z.of_nat n) →
     ∃ m'', body i m' = Some m'' ∧ filled m' m'' (a + c * i) c f) →
  ∃ m', for_n n 0 body m = Some m' ∧ filled m m' a (c * Z.of_nat n) f.
Proof.
  intros Hc Hf Hm Hb.
  destruct (for_n_total (λ i m', filled m m' a (c * i) f) body n 0 m) as (m' & -> & Hm').
  - rewrite Z.mul_0_r. by apply filled_nil.
  - intros i m' Hi Hfill. destruct (Hb i m') as (m'' & Heq & Hfill'); [lia|done| |].
    { eapply mapped_filled; [exact Hfill| |done]. intros x Hx. apply Hf. nia. }
    exists m''. split; [done|]. replace (c * (i + 1)) with (c * i + c) by lia.
    eapply filled_app; [nia|done|done|done].
  - eauto.
Qed.

Lemma set_loop_spec n m dest v : mapped m dest (Z.of_nat n) →
  ∃ m', for_n n 0 (set_byte dest v) m = Some m' ∧ filled m m' dest (Z.of_nat n) (λ _, Some v).
Proof.
  intros Hm. rewrite <- (Z.mul_1_l (Z.of_nat n)) in *.
  apply for_n_filled; [lia|done|done|]. intros i m' Hi _ Hm'. unfold set_byte.
  rewrite mset_mapped by (apply Hm'; lia). eexists. split; [done|].
  rewrite Z.mul_1_l. by apply filled_one.
Qed.

(** All the bytes of the fill word are the fill byte. *)
Lemma fill64_bytes v i : 0 <= v < 256 → 0 <= i < 8 → fill64 v / 256 ^ i mod 256 = v.
Proof.
  intros Hv Hi.
  assert (forallb (λ v, forallb (λ i, fill64 v / 256 ^ i mod 256 =? v) (seqZ 0 8)) (seqZ 0 256) = true)
    as Hall by (vm_compute; reflexivity).
  rewrite forallb_forall in Hall. specialize (Hall v).
  rewrite <- list_elem_of_In, elem_of_seqZ in Hall. specialize (Hall ltac:(lia)).
  rewrite forallb_forall in Hall. specialize (Hall i).
  rewrite <- list_elem_of_In, elem_of_seqZ in Hall. specialize (Hall ltac:(lia)). lia.
Qed.

(** The word-wise fill is the byte-wise one. *)
Lemma memset_spec dest v n m : 0 <= v < 256 → 0 <= n < 2 ^ 31 → 0 <= dest →
  dest + n <= 2 ^ ptr_bits → mapped m dest n →
  ∃ m', memset dest v n m = Some (dest, m') ∧ filled m m' dest n (λ _, Some v).
Proof.
  intros Hv Hn Hd Hend Hm. unfold memset, for_int. destruct (Z.ltb_spec n 16).
  { destruct (Z.leb_spec (2 ^ 31) n); [lia|].
    destruct (set_loop_spec (Z.to_nat n) m dest v) as (m' & -> & Hf); [by rewrite Z2Nat.id by lia|].
    rewrite Z2Nat.id in Hf by lia. simpl. eauto. }
  pose proof ptr_bits_ge. set (al := (8 - dest mod 8) mod 8).
  assert (0 <= al < 8 ∧ (dest + al) mod 8 = 0) as (Hal & Hd8).
  { unfold al. Z.div_mod_to_equations; lia. }
  clearbody al. destruct (Z.leb_spec (2 ^ 31) al); [lia|].
  rewrite (usize_small (n - al)), (usize_small (dest + al)) by lia.
  set (w := (n - al) / 8). assert (0 <= w ∧ 0 <= n - al - 8 * w < 8) as (Hw & Hrem).
  { unfold w. Z.div_mod_to_equations; lia. }
  clearbody w. rewrite (usize_small (w * 8)) by lia.
  replace (n - al - w * 8) with (n - al - 8 * w) by lia. rewrite (usize_small (n - al - 8 * w)) by lia.
  destruct (set_loop_spec (Z.to_nat al) m dest v) as (m1 & -> & Hf1).
  { rewrite Z2Nat.id by lia. by eapply mapped_sub; [exact Hm|lia|lia]. }
  rewrite Z2Nat.id in Hf1 by lia. simpl.
  destruct (for_n_filled 8 (λ i, store64 (dest + al + 8 * i) (fill64 v)) (Z.to_nat w) m1 (dest + al)
    (λ _, Some v)) as (m2 & -> & Hf2); [lia|done| | |].
  { rewrite Z2Nat.id by lia. eapply mapped_filled; [exact Hf1|done|].
    by eapply mapped_sub; [exact Hm|lia|lia]. }
  { intros i m' Hi _ Hm'. unfold store64.
    replace ((dest + al + 8 * i) mod 8 =? 0) with true by (Z.div_mod_to_equations; lia).
    destruct (store_filled 8 m' (dest + al + 8 * i) (fill64 v)) as (m'' & -> & Hf).
    { eapply mapped_sub; [exact Hm'|lia|lia]. }
    exists m''. split; [done|]. intros x. rewrite Hf. change (Z.of_nat 8) with 8. case_decide; [|done].
    by rewrite fill64_bytes by lia. }
  rewrite Z2Nat.id in Hf2 by lia. simpl.
  assert (filled m m2 dest (al + 8 * w) (λ _, Some v)) as Hf12 by (eapply filled_app; eauto with lia).
  destruct (set_loop_spec (Z.to_nat (n - al - 8 * w)) m2 (dest + al + 8 * w) v) as (m3 & -> & Hf3).
  { rewrite Z2Nat.id by lia. eapply mapped_filled; [exact Hf12|done|].
    by eapply mapped_sub; [exact Hm|lia|lia]. }
  rewrite Z2Nat.id in Hf3 by lia. simpl. exists m3. split; [done|].
  replace n with ((al + 8 * w) + (n - al - 8 * w)) by lia.
  eapply filled_app; [lia|lia|exact Hf12|]. by rewrite Z.add_assoc.
Qed.

(** A block copied from [src] to [dest]. *)
Definition copied (m m' : mem) (dest src n : Z) : Prop :=
  filled m m' dest n (λ x, m !! (src + (x - dest))).

Lemma copy_byte_spec (m m' : mem) dest src i : is_Some (m' !! (src + i)) → is_Some (m' !! (dest + i)) →
  m' !! (src + i) = m !! (src + i) →
  ∃ m'', copy_byte dest src i m' = Some m'' ∧
    filled m' m'' (dest + i) 1 (λ x, m !! (src + (x - dest))).
Proof.
  intros [b Hb] Hd Heq. unfold copy_byte. rewrite Hb. simpl. rewrite mset_mapped by done.
  eexists. split; [done|]. apply filled_one. rewrite <- Hb, Heq. f_equal. lia.
Qed.

(** Copying upwards is right when the destination does not start inside the
    source. *)
Lemma copy_up_spec m dest src n : dest <= src ∨ src + n <= dest → 0 <= n < 2 ^ 31 →
  mapped m dest n → mapped m src n →
  ∃ m', for_int n (copy_byte dest src) m = Some m' ∧ copied m m' dest src n.
Proof.
  intros Hov Hn Hd Hs. unfold for_int. destruct (Z.leb_spec (2 ^ 31) n); [lia|].
  assert (Z.of_nat (Z.to_nat n) = n) as Hnn by lia.
  destruct (for_n_filled 1 (copy_byte dest src) (Z.to_nat n) m dest
    (λ x, m !! (src + (x - dest)))) as (m' & -> & Hf); rewrite ?Hnn, ?Z.mul_1_l in *; [lia| |done| |by eauto].
  - intros x Hx. apply Hs. lia.
  - intros i m' Hi Hf Hm'. rewrite Z.mul_1_l in Hf |- *. apply copy_byte_spec.
    + rewrite Hf. case_decide; apply Hs; lia.
    + apply Hm'. lia.
    + rewrite Hf. rewrite decide_False by lia. done.
Qed.

Lemma memcpy_spec dest src n m : dest <= src ∨ src + n <= dest → 0 <= n < 2 ^ 31 →
  mapped m dest n → mapped m src n →
  ∃ m', memcpy dest src n m = Some (dest, m') ∧ copied m m' dest src n.
Proof.
  intros. unfold memcpy. destruct (copy_up_spec m dest src n) as (m' & -> & ?); eauto.
Qed.

Lemma memmove_spec dest src n m : 0 <= n < 2 ^ 31 → mapped m dest n → mapped m src n →
  ∃ m', memmove dest src n m = Some (dest, m') ∧ copied m m' dest src n.
Proof.
  intros Hn Hd Hs. unfold memmove. destruct (Z.ltb_spec dest src).
  { destruct (copy_up_spec m dest src n) as (m' & -> & ?); eauto with lia. }
  pose proof ptr_bits_ge.
  assert (s32 (usize (n - 1)) = n - 1) as ->.
  { destruct (Z.eq_dec n 0) as [->|].
    - unfold usize, s32. destruct ptr_bits_cases as [-> | ->]; reflexivity.
    - by rewrite usize_small, s32_small by lia. }
  replace (n - 1 + 1) with n by lia.
  destruct (for_n_total (λ k m', filled m m' (dest + (n - k)) k (λ x, m !! (src + (x - dest))))
    (λ k, copy_byte dest src (n - 1 - k)) (Z.to_nat n) 0 m) as (m' & -> & Hf).
  - by apply filled_nil.
  - intros k m' Hk Hf.
    destruct (copy_byte_spec m m' dest src (n - 1 - k)) as (m'' & Heq & Hf').
    + rewrite Hf. case_decide; apply Hs; lia.
    + rewrite Hf. case_decide; [apply Hs|apply Hd]; lia.
    + rewrite Hf. rewrite decide_False by lia. done.
    + exists m''. split; [done|]. intros x. rewrite Hf', Hf. repeat case_decide; (done || lia).
  - rewrite Z.add_0_l, Z2Nat.id in Hf by lia. simpl. exists m'. split; [done|].
    unfold copied. by replace (dest + (n - n)) with dest in Hf by lia.
Qed.

End mem_spec.

(** ** Strings *)

(** The NUL-terminated string [l] lies at [s]. *)
Definition cstr (m : mem) (s : Z) (l : list Z) : Prop :=
  bytes_at m s (l ++ [0]) ∧ Forall (λ b, 0 < b < 256) l.

Lemma cstr_get m s l i : cstr m s l → 0 <= i <= Z.of_nat (length l) →
  ∃ b, m !! (s + i) = Some b ∧ (b = 0 ↔ i = Z.of_nat (length l)) ∧
    (i < Z.of_nat (length l) → l.[i] = Some b ∧ 0 < b < 256).
Proof.
  intros [Hb Hl] Hi. specialize (Hb i). rewrite length_app in Hb. simpl in Hb.
  rewrite Hb by lia. rewrite zget_lookup by lia. destruct (Z.eq_dec i (Z.of_nat (length l))) as [->|].
  - rewrite lookup_app_r, Nat2Z.id, Nat.sub_diag by lia. exists 0. simpl. split_and!; [done|done|lia].
  - rewrite lookup_app_l by lia.
    destruct (lookup_lt_is_Some_2 l (Z.to_nat i)) as [b Eb]; [lia|]. rewrite Eb.
    pose proof (Forall_lookup_1 _ _ _ _ Hl Eb) as Hbr. simpl in Hbr.
    exists b. rewrite zget_lookup by lia. split_and!; [done|lia|done].
Qed.

Lemma cstr_nil m s : cstr m s [] ↔ m !! s = Some 0.
Proof.
  unfold cstr. simpl. rewrite bytes_at_cons. split; [tauto|]. intros H. split; [|constructor].
  split; [done|]. intros i Hi. simpl in Hi. lia.
Qed.

Lemma cstr_cons m s b l : cstr m s (b :: l) ↔ m !! s = Some b ∧ 0 < b < 256 ∧ cstr m (s + 1) l.
Proof. unfold cstr. simpl. rewrite bytes_at_cons, Forall_cons. tauto. Qed.

Lemma cstr_fuel m s l : cstr m s l → (length l + 1 < str_fuel m)%nat.
Proof.
  intros [Hb%bytes_at_mapped _]. apply mapped_size in Hb. rewrite length_app in Hb. simpl in Hb.
  unfold str_fuel. lia.
Qed.

Lemma cstr_mapped m s l : cstr m s l → mapped m s (Z.of_nat (length l) + 1).
Proof.
  intros [Hb%bytes_at_mapped _]. rewrite length_app in Hb. simpl in Hb.
  by replace (Z.of_nat (length l) + 1) with (Z.of_nat (length l + 1)) by lia.
Qed.

(** Splits on the string [l] at the address of [H]. *)
Ltac cstr_cases l x H :=
  destruct l as [|x l];
  [apply cstr_nil in H | apply cstr_cons in H as (H & ?Hbyte & ?Htail)].

Section str_spec.
Context `{Platform}.

Lemma strlen_spec m s l : cstr m s l → Z.of_nat (length l) < 2 ^ ptr_bits →
  strlen m s = Some (Z.of_nat (length l)).
Proof.
  intros Hs Hlen. unfold strlen. pose proof (cstr_fuel m s l Hs).
  match goal with |- loop ?f ?b ?s0 = _ =>
    destruct (loop_total (λ i, 0 <= i <= Z.of_nat (length l)) (λ i, Z.of_nat (length l) - i)
      (λ r, r = Z.of_nat (length l)) b f s0) as (r & Hr & Heq) end; [lia|lia| |by rewrite Hr, Heq].
  intros i Hi _. destruct (cstr_get m s l i Hs Hi) as (b & -> & Hz & _). simpl.
  destruct (Z.eqb_spec b 0) as [Hb|Hb].
  - by apply Hz.
  - assert (i ≠ Z.of_nat (length l)) by tauto. rewrite usize_small by lia. lia.
Qed.

(** The answer of a comparison: decided by the first place where the strings,
    terminators included, differ. *)
Definition cmp_result (la lb : list Z) (r : Z) : Prop :=
  la = lb ∧ r = 0 ∨
  ∃ p x y ra rb, la ++ [0] = p ++ x :: ra ∧ lb ++ [0] = p ++ y :: rb ∧ x ≠ y ∧ r = strcmp_end x y.

Lemma cmp_result_cons b la lb r : cmp_result la lb r → cmp_result (b :: la) (b :: lb) r.
Proof.
  intros [[-> ->]|(p & x & y & ra & rb & Ha & Hb & Hne & ->)]; [by left|right].
  exists (b :: p), x, y, ra, rb. simpl. by rewrite Ha, Hb.
Qed.

Lemma char_val_inj x y : 0 <= x < 256 → 0 <= y < 256 → char_val x = char_val y → x = y.
Proof. unfold char_val. intros. destruct char_signed; [|done]. repeat case_match; lia. Qed.

Lemma strcmp_end_eq x : strcmp_end x x = 0.
Proof. unfold strcmp_end. by rewrite Z.ltb_irrefl. Qed.

Lemma strcmp_end_nonzero x y : 0 <= x < 256 → 0 <= y < 256 → x ≠ y → strcmp_end x y ≠ 0.
Proof.
  intros Hx Hy Hne. unfold strcmp_end. destruct (Z.ltb_spec (char_val x) (char_val y)); [done|].
  destruct (Z.ltb_spec (char_val y) (char_val x)); [done|]. exfalso. apply Hne.
  apply char_val_inj; [done..|lia].
Qed.

(** Zero means equal: strings have no byte 0. *)
Lemma cmp_result_zero la lb r : Forall (λ b, 0 < b < 256) la → Forall (λ b, 0 < b < 256) lb →
  cmp_result la lb r → r = 0 ↔ la = lb.
Proof.
  intros Hla Hlb [[-> ->]|(p & x & y & ra & rb & Ha & Hb & Hne & ->)]; [done|].
  assert (0 <= x < 256) as Hx.
  { assert (x ∈ la ++ [0]) as Hin by (rewrite Ha; apply elem_of_app; right; left).
    rewrite elem_of_app, list_elem_of_singleton in Hin. destruct Hin as [Hin| ->]; [|lia].
    rewrite Forall_forall in Hla. specialize (Hla x Hin). lia. }
  assert (0 <= y < 256) as Hy.
  { assert (y ∈ lb ++ [0]) as Hin by (rewrite Hb; apply elem_of_app; right; left).
    rewrite elem_of_app, list_elem_of_singleton in Hin. destruct Hin as [Hin| ->]; [|lia].
    rewrite Forall_forall in Hlb. specialize (Hlb y Hin). lia. }
  pose proof (strcmp_end_nonzero x y Hx Hy Hne). split; [done|]. intros ->.
  rewrite Ha in Hb. apply app_inv_head in Hb. congruence.
Qed.

Lemma strcmp_loop_spec m fuel a b la lb : cstr m a la → cstr m b lb → (length la < fuel)%nat →
  ∃ r, loop fuel (λ '(a, b),
    x ← m !! a; y ← m !! b;
    if (x =? y) && negb (x =? 0) && negb (y =? 0) then Some (inl (a + 1, b + 1))
    else Some (inr (strcmp_end x y))) (a, b) = Some r ∧ cmp_result la lb r.
Proof.
  revert a b la lb. induction fuel as [|fuel IH]; intros a b la lb Ha Hb Hf; [lia|]. rewrite loop_S. cbn beta iota.
  cstr_cases la x Ha; cstr_cases lb y Hb.
  - rewrite Ha, Hb. simpl. exists 0. rewrite strcmp_end_eq. split; [done|by left].
  - rewrite Ha, Hb. cbn [mbind option_bind]. replace (0 =? y) with false by lia. cbn [andb]. eexists. split; [done|].
    right. exists [], 0, y, [], (lb ++ [0]). simpl. split_and!; (done || lia).
  - rewrite Ha, Hb. simpl. replace (x =? 0) with false by lia. simpl. eexists. split; [done|].
    right. exists [], x, 0, (la ++ [0]), []. simpl. split_and!; (done || lia).
  - rewrite Ha, Hb. simpl. destruct (Z.eqb_spec x y) as [->|Hne].
    + replace (y =? 0) with false by lia. simpl.
      destruct (IH (a + 1) (b + 1) la lb) as (r & -> & Hr); [done|done|simpl in Hf; lia|].
      exists r. split; [done|]. by apply cmp_result_cons.
    + simpl. eexists. split; [done|]. right. exists [], x, y, (la ++ [0]), (lb ++ [0]). by simpl.
Qed.

Lemma strcmp_spec m a b la lb : cstr m a la → cstr m b lb →
  ∃ r, strcmp m a b = Some r ∧ cmp_result la lb r.
Proof. intros Ha Hb. apply strcmp_loop_spec; [done..|]. apply cstr_fuel in Ha. lia. Qed.

(** [strncmp] decides on the first [n] characters. *)
Lemma strncmp_loop_spec m fuel a b la lb n : cstr m a la → cstr m b lb → 0 <= n →
  (length la < fuel)%nat →
  ∃ r, loop fuel (λ '(a, b, num),
    x ← m !! a; y ← m !! b;
    if (x =? y) && negb (x =? 0) && negb (y =? 0) && negb (num =? 0)
    then Some (inl (a + 1, b + 1, num - 1))
    else if num =? 0 then Some (inr 0)
    else Some (inr (strcmp_end x y))) (a, b, n) = Some r ∧
    cmp_result (take (Z.to_nat n) la) (take (Z.to_nat n) lb) r.
Proof.
  revert a b la lb n. induction fuel as [|fuel IH]; intros a b la lb n Ha Hb Hn Hf; [lia|].
  rewrite loop_S. cbn beta iota. destruct (Z.eqb_spec n 0) as [->|].
  { change (Z.to_nat 0) with 0%nat. rewrite !take_0.
    destruct (cstr_get m a la 0 Ha) as (x & Hx & _); [lia|].
    destruct (cstr_get m b lb 0 Hb) as (y & Hy & _); [lia|].
    rewrite Z.add_0_r in Hx, Hy. rewrite Hx, Hy. simpl. rewrite andb_false_r.
    exists 0. split; [done|by left]. }
  replace (Z.to_nat n) with (S (Z.to_nat (n - 1))) by lia.
  cstr_cases la x Ha; cstr_cases lb y Hb.
  - rewrite Ha, Hb. simpl. exists 0. rewrite strcmp_end_eq. split; [done|by left].
  - rewrite Ha, Hb. cbn [mbind option_bind]. replace (0 =? y) with false by lia. cbn [andb]. eexists. split; [done|].
    right. exists [], 0, y, [], (take (Z.to_nat (n - 1)) lb ++ [0]). simpl. split_and!; (done || lia).
  - rewrite Ha, Hb. simpl. replace (x =? 0) with false by lia. simpl. eexists. split; [done|].
    right. exists [], x, 0, (take (Z.to_nat (n - 1)) la ++ [0]), []. simpl. split_and!; (done || lia).
  - rewrite Ha, Hb. simpl. destruct (Z.eqb_spec x y) as [->|Hne].
    + replace (y =? 0) with false by lia. simpl.
      destruct (IH (a + 1) (b + 1) la lb (n - 1)) as (r & -> & Hr); [done|done|lia|simpl in Hf; lia|].
      exists r. split; [done|]. by apply cmp_result_cons.
    + simpl. eexists. split; [done|]. right.
      exists [], x, y, (take (Z.to_nat (n - 1)) la ++ [0]), (take (Z.to_nat (n - 1)) lb ++ [0]). by simpl.
Qed.

Lemma strncmp_spec m a b la lb n : cstr m a la → cstr m b lb → 0 <= n →
  ∃ r, strncmp m a b n = Some r ∧ cmp_result (take (Z.to_nat n) la) (take (Z.to_nat n) lb) r.
Proof. intros Ha Hb Hn. apply strncmp_loop_spec; [done..|]. apply cstr_fuel in Ha. lia. Qed.

(** [(int)(n - 1)] counts down from the last index. *)
Lemma s32_usize_pred n : 0 <= n <= 2 ^ 31 → s32 (usize (n - 1)) = n - 1.
Proof.
  intros Hn. pose proof ptr_bits_ge. destruct (Z.eq_dec n 0) as [->|].
  - unfold usize, s32. destruct ptr_bits_cases as [-> | ->]; reflexivity.
  - by rewrite usize_small, s32_small by lia.
Qed.

Lemma rev_zget (l : list Z) k : 0 <= k < Z.of_nat (length l) →
  (rev l).[k] = l.[Z.of_nat (length l) - 1 - k].
Proof.
  intros Hk. rewrite !zget_lookup by lia. rewrite rev_alt.
  etransitivity; [apply (reverse_lookup l); lia|]. f_equal. lia.
Qed.

(** *** [reverse] *)

(** The string [l] at [s] with the positions below [i] and above [j] swapped. *)
Definition swapped (m m' : mem) (s : Z) (l : list Z) (i j : Z) : Prop :=
  filled m m' s (Z.of_nat (length l)) (λ x,
    let k := x - s in
    if decide (k < i ∨ j < k) then l.[Z.of_nat (length l) - 1 - k] else l.[k]).

Lemma swap_step m m' s l i j : i + j = Z.of_nat (length l) - 1 → 0 <= i < j →
  swapped m m' s l i j → mapped m s (Z.of_nat (length l)) →
  ∃ c d, m' !! (s + i) = Some c ∧ m' !! (s + j) = Some d ∧
    mset m' (s + i) d = Some (<[s + i := d]> m') ∧
    mset (<[s + i := d]> m') (s + j) c = Some (<[s + j := c]> (<[s + i := d]> m')) ∧
    swapped m (<[s + j := c]> (<[s + i := d]> m')) s l (i + 1) (j - 1).
Proof.
  intros Hij Hi Hsw Hm. unfold swapped in *. set (n := Z.of_nat (length l)) in *.
  destruct (zget_is_Some l i) as [c Hc]; [lia|]. destruct (zget_is_Some l j) as [d Hd]; [lia|].
  assert (m' !! (s + i) = Some c) as Hmi.
  { rewrite Hsw, decide_True, decide_False by lia. by replace (s + i - s) with i by lia. }
  assert (m' !! (s + j) = Some d) as Hmj.
  { rewrite Hsw, decide_True, decide_False by lia. by replace (s + j - s) with j by lia. }
  exists c, d. split_and!; [done|done|by apply mset_mapped| |].
  { apply mset_mapped. rewrite lookup_insert. case_decide; [done|by rewrite Hmj]. }
  intros x. rewrite !lookup_insert, Hsw.
  destruct (decide (s + j = x)) as [<-|].
  { rewrite !decide_True by lia. replace (n - 1 - (s + j - s)) with i by lia. done. }
  destruct (decide (s + i = x)) as [<-|].
  { rewrite !decide_True by lia. replace (n - 1 - (s + i - s)) with j by lia. done. }
  case_decide; [|done]. repeat case_decide; (done || lia).
Qed.

Lemma reverse_spec s l m : cstr m s l → Z.of_nat (length l) < 2 ^ 31 →
  ∃ m', reverse s m = Some m' ∧ cstr m' s (rev l) ∧
    filled m m' s (Z.of_nat (length l)) (λ x, (rev l).[x - s]).
Proof.
  intros Hs Hlen. pose proof ptr_bits_ge. unfold reverse.
  rewrite (strlen_spec m s l Hs) by lia. simpl. rewrite s32_usize_pred by lia.
  pose proof (cstr_fuel m s l Hs) as Hfuel. pose proof Hs as [Hb Hl].
  assert (mapped m s (Z.of_nat (length l))) as Hm.
  { apply bytes_at_app in Hb as [Hb _]. by apply bytes_at_mapped. }
  set (n := Z.of_nat (length l)) in *.
  match goal with |- context [loop ?f ?b ?s0] =>
    destruct (loop_total (λ '(i, j, m'), i + j = n - 1 ∧ 0 <= i <= j + 1 ∧ swapped m m' s l i j)
      (λ '(i, j, _), j + 1 - i)
      (λ m', filled m m' s n (λ x, (rev l).[x - s])) b f s0) as (m' & -> & Hm') end.
  - split_and!; [lia..|]. intros x. fold n. case_decide; [|done].
    rewrite decide_False by lia. unfold bytes_at in Hb. specialize (Hb (x - s)).
    rewrite length_app in Hb. simpl in Hb. replace (s + (x - s)) with x in Hb by lia.
    rewrite Hb by lia. rewrite !zget_lookup by lia. by rewrite lookup_app_l by lia.
  - unfold n. lia.
  - intros [[i j] m1] (Hij & Hi & Hsw) Hpos. destruct (Z.ltb_spec i j).
    + destruct (swap_step m m1 s l i j) as (c & d & -> & -> & Hset1 & Hset2 & Hsw'); [done|lia|done..|].
      cbn [mbind option_bind]. rewrite Hset1. cbn [mbind option_bind]. rewrite Hset2.
      cbn [mbind option_bind]. split_and!; (done || lia).
    + intros x. rewrite (Hsw x). fold n. case_decide; [|done]. rewrite rev_zget by (fold n; lia).
      fold n. cbv zeta. case_decide; [done|]. f_equal. lia.
  - exists m'. split; [done|]. split; [|done]. split; [|by apply Forall_rev].
    apply bytes_at_app. rewrite length_rev. fold n. split.
    + intros k Hk. rewrite length_rev in Hk. rewrite Hm', decide_True by lia. f_equal. lia.
    + apply bytes_at_app in Hb as [_ Hb]. fold n in Hb. intros k Hk. simpl in Hk.
      rewrite <- (Hb k) by done. rewrite Hm', decide_False by lia. done.
Qed.

(** *** Numbers *)

(** The digits of [n], the least significant first. *)
Fixpoint digits (fuel : nat) (base n : Z) : list Z :=
  match fuel with
  | O => []
  | S fuel => if n =? 0 then [] else n mod base :: digits fuel base (n / base)
  end.

Definition digits_value (base : Z) (ds : list Z) : Z := foldr (λ d v, d + base * v) 0 ds.

Lemma digits_value_digits fuel base n : 2 <= base → 0 <= n < 2 ^ Z.of_nat fuel →
  digits_value base (digits fuel base n) = n.
Proof.
  intros Hb. revert n. induction fuel as [|fuel IH]; intros n Hn; simpl.
  { rewrite Z.pow_0_r in Hn. lia. }
  destruct (Z.eqb_spec n 0); [done|]. simpl. fold (digits_value base (digits fuel base (n / base))).
  replace (Z.of_nat (S fuel)) with (1 + Z.of_nat fuel) in Hn by lia.
  rewrite Z.pow_add_r in Hn by lia. rewrite IH.
  - pose proof (Z.div_mod n base). lia.
  - split; [apply Z.div_pos; lia|]. apply Z.div_lt_upper_bound; nia.
Qed.

Lemma digits_range fuel base n : 2 <= base → Forall (λ d, 0 <= d < base) (digits fuel base n).
Proof.
  intros Hb. revert n. induction fuel as [|fuel IH]; intros n; simpl; [done|].
  destruct (n =? 0); [done|]. constructor; [apply Z.mod_pos_bound; lia|done].
Qed.

Lemma digits_length fuel base n : (length (digits fuel base n) <= fuel)%nat.
Proof.
  revert n. induction fuel as [|fuel IH]; intros n; simpl; [lia|].
  destruct (n =? 0); simpl; [lia|]. specialize (IH (n / base)). lia.
Qed.

(** The loop that writes them. *)
Lemma digit_loop_spec base digit fuel n i str m : 2 <= base → 0 <= n < 2 ^ Z.of_nat fuel → 0 <= i →
  mapped m (str + i) (Z.of_nat (length (digits fuel base n))) →
  ∃ m', loop (S fuel) (λ '(n, i, m),
      if n =? 0 then Some (inr (i, m))
      else m ← mset m (str + i) (digit (n mod base)); Some (inl (n / base, i + 1, m))) (n, i, m)
      = Some (i + Z.of_nat (length (digits fuel base n)), m') ∧
    filled m m' (str + i) (Z.of_nat (length (digits fuel base n)))
      (λ x, (digit <$> digits fuel base n).[x - (str + i)]).
Proof.
  intros Hb. revert n i m. induction fuel as [|fuel IH]; intros n i m Hn Hi Hm.
  { rewrite Z.pow_0_r in Hn. replace n with 0 by lia. rewrite loop_S. simpl.
    exists m. rewrite Z.add_0_r. split; [done|by apply filled_nil]. }
  rewrite loop_S. cbn beta iota. simpl digits in *. destruct (Z.eqb_spec n 0) as [->|Hnz].
  { exists m. rewrite Z.add_0_r. split; [done|by apply filled_nil]. }
  simpl length in *. rewrite mset_mapped by (apply Hm; lia). cbn [mbind option_bind].
  replace (Z.of_nat (S fuel)) with (1 + Z.of_nat fuel) in Hn by lia.
  rewrite Z.pow_add_r in Hn by lia.
  set (ds := digits fuel base (n / base)) in *.
  replace (Z.of_nat (S (length ds))) with (1 + Z.of_nat (length ds)) in * by lia.
  destruct (IH (n / base) (i + 1) (<[str + i := digit (n mod base)]> m)) as (m' & Heq & Hf).
  { split; [apply Z.div_pos; lia|]. apply Z.div_lt_upper_bound; nia. }
  { lia. }
  { apply mapped_insert. fold ds. eapply mapped_sub; [exact Hm|lia|lia]. }
  rewrite Heq. fold ds in Hf |- *. exists m'. split; [do 2 f_equal; lia|].
  intros x. rewrite Hf, lookup_insert. repeat case_decide; try lia.
  - rewrite !zget_lookup by lia. 
    replace (Z.to_nat (x - (str + i))) with (S (Z.to_nat (x - (str + (i + 1))))) by lia. done.
  - subst x. rewrite Z.sub_diag. done.
  - done.
Qed.

(** The digits that are printed: at least one. *)
Definition shown_digits (base n : Z) : list Z := if n =? 0 then [0] else digits 64 base n.

Lemma shown_digits_value base n : 2 <= base → 0 <= n < 2 ^ 64 →
  digits_value base (shown_digits base n) = n.
Proof.
  intros Hb Hn. unfold shown_digits. destruct (Z.eqb_spec n 0) as [->|]; [simpl; lia|].
  by apply digits_value_digits.
Qed.

Lemma shown_digits_range base n : 2 <= base → Forall (λ d, 0 <= d < base) (shown_digits base n).
Proof.
  intros Hb. unfold shown_digits. destruct (n =? 0); [|by apply digits_range].
  repeat constructor; lia.
Qed.

Lemma shown_digits_length base n : (length (shown_digits base n) <= 64)%nat.
Proof. unfold shown_digits. destruct (n =? 0); [simpl; lia|]. apply digits_length. Qed.

(** Below [base ^ k] there are at most [k] digits. *)
Lemma digits_short fuel base n k : 2 <= base → 0 <= n < base ^ Z.of_nat k →
  (length (digits fuel base n) <= k)%nat.
Proof.
  intros Hb. revert n k. induction fuel as [|fuel IH]; intros n k Hn; simpl; [lia|].
  destruct (Z.eqb_spec n 0); simpl; [lia|]. destruct k as [|k].
  { rewrite Z.pow_0_r in Hn. lia. }
  replace (Z.of_nat (S k)) with (1 + Z.of_nat k) in Hn by lia. rewrite Z.pow_add_r in Hn by lia.
  specialize (IH (n / base) k). assert (0 <= n / base < base ^ Z.of_nat k); [|lia].
  split; [apply Z.div_pos; lia|]. apply Z.div_lt_upper_bound; lia.
Qed.

Lemma shown_digits_short n : 0 <= n < 10 ^ 9 → (length (shown_digits 10 n) <= 9)%nat.
Proof.
  intros Hn. unfold shown_digits. destruct (n =? 0); [simpl; lia|]. by apply digits_short.
Qed.

Lemma htos_digits_spec base digit n str m : 2 <= base → 0 <= n < 2 ^ 64 →
  digit 0 = 48 → (∀ d, 0 <= d < base → 0 < digit d < 256) →
  let ds := shown_digits base n in
  mapped m str (Z.of_nat (length ds) + 1) →
  ∃ m', htos_digits base digit n str m = Some m' ∧ cstr m' str (rev (digit <$> ds)) ∧
    ∃ f, filled m m' str (Z.of_nat (length ds) + 1) f.
Proof.
  intros Hb Hn Hd0 Hdr ds Hm. unfold htos_digits.
  assert (∃ m1, ('(i, m) ← (if n =? 0 then m ← mset m str 48; Some (1, m) else Some (0, m));
    loop digits_fuel (λ '(n, i, m),
      if n =? 0 then Some (inr (i, m))
      else m ← mset m (str + i) (digit (n mod base)); Some (inl (n / base, i + 1, m))) (n, i, m))
      = Some (Z.of_nat (length ds), m1) ∧
    filled m m1 str (Z.of_nat (length ds)) (λ x, (digit <$> ds).[x - str])) as (m1 & Heq & Hf).
  { unfold ds, shown_digits in *. change digits_fuel with (S 64) in *. destruct (Z.eqb_spec n 0) as [->|].
    - simpl in Hm. rewrite mset_mapped by (apply Hm; lia). cbn [mbind option_bind]. rewrite loop_S. simpl.
      eexists. split; [done|]. apply filled_one. by rewrite Z.sub_diag, Hd0.
    - cbn [mbind option_bind]. destruct (digit_loop_spec base digit 64 n 0 str m) as (m1 & Hl & Hf).
      { done. } { done. } { done. }
      { rewrite Z.add_0_r. eapply mapped_sub; [exact Hm|lia|lia]. }
      rewrite Z.add_0_r in Hf. rewrite Hl, Z.add_0_l. by exists m1. }
  destruct (if n =? 0 then _ else _) as [[i0 m0]|]; [|done].
  cbn [mbind option_bind] in Heq |- *. rewrite Heq. cbn [mbind option_bind].
  assert (mapped m1 str (Z.of_nat (length ds) + 1)) as Hm1.
  { eapply mapped_filled; [exact Hf| |done]. intros x Hx. apply zget_is_Some. rewrite length_fmap. lia. }
  rewrite mset_mapped by (apply Hm1; lia). cbn [mbind option_bind].
  set (m2 := <[str + Z.of_nat (length ds) := 0]> m1).
  assert (cstr m2 str (digit <$> ds)) as Hcs.
  { split.
    - apply bytes_at_app. rewrite length_fmap. split.
      + intros k Hk. rewrite length_fmap in Hk. unfold m2.
        rewrite lookup_insert_ne, Hf, decide_True by lia. f_equal. lia.
      + apply bytes_at_cons. split; [apply lookup_insert_eq|]. intros k Hk. simpl in Hk. lia.
    - apply Forall_fmap. eapply Forall_impl; [by apply shown_digits_range|]. simpl.
      intros d Hd. by apply Hdr. }
  pose proof (shown_digits_length base n) as Hlen. fold ds in Hlen.
  destruct (reverse_spec str (digit <$> ds) m2 Hcs) as (m' & -> & Hcs' & Hf'); [rewrite length_fmap; lia|].
  exists m'. split_and!; [done|done|]. exists (λ x, m' !! x). intros x.
  case_decide as Hx; [done|]. rewrite Hf', length_fmap, decide_False by lia.
  unfold m2. rewrite lookup_insert_ne, Hf, decide_False by lia. done.
Qed.

(** *** [stoi] *)

Lemma stoi_spec m str ds : bytes_at m str (rev ((λ d, d + 48) <$> ds)) →
  Forall (λ d, 0 <= d < 10) ds → (length ds <= 9)%nat →
  stoi m str (Z.of_nat (length ds)) = Some (digits_value 10 ds).
Proof.
  intros Hb Hds Hlen. unfold stoi. destruct (Z.ltb_spec 9 (Z.of_nat (length ds))); [lia|].
  rewrite Nat2Z.id.
  match goal with |- context [for_n ?n ?i ?b ?s] =>
    destruct (for_n_total (λ k '(res, mult), mult = 10 ^ k ∧
      res = digits_value 10 (take (Z.to_nat k) ds) ∧ 0 <= res < 10 ^ k) b n i s) as ([res mult] & -> & Hres) end.
  - simpl. done.
  - intros k [res mult] Hk (-> & Hres & Hr).
    destruct (lookup_lt_is_Some_2 ds (Z.to_nat k)) as [d Hd]; [lia|].
    assert (m !! (str + Z.of_nat (length ds) - 1 - k) = Some (d + 48)) as ->.
    { replace (str + Z.of_nat (length ds) - 1 - k) with (str + (Z.of_nat (length ds) - 1 - k)) by lia.
      rewrite Hb by (rewrite length_rev, length_fmap; lia).
      rewrite rev_zget by (rewrite length_fmap; lia). rewrite length_fmap.
      rewrite zget_lookup by lia. rewrite list_lookup_fmap.
      replace (Z.of_nat (length ds) - 1 - (Z.of_nat (length ds) - 1 - k)) with k by lia. by rewrite Hd. }
    pose proof (Forall_lookup_1 _ _ _ _ Hds Hd) as Hdr. simpl in Hdr.
    assert (char_val (d + 48) = d + 48) as Hcv.
    { unfold char_val. destruct char_signed; [|done]. destruct (Z.ltb_spec (d + 48) 128); lia. }
    cbn [mbind option_bind]. rewrite Hcv. replace (d + 48 - 48) with d by lia.
    assert (10 ^ (k + 1) = 10 * 10 ^ k) as Hp by (rewrite Z.pow_add_r by lia; lia).
    assert (10 ^ k * 10 <= 10 ^ 9).
    { replace (10 ^ k * 10) with (10 ^ (k + 1)) by lia. apply Z.pow_le_mono_r; lia. }
    rewrite decide_True by nia. eexists. split; [done|]. split_and!; [lia| |nia|nia].
    replace (Z.to_nat (k + 1)) with (S (Z.to_nat k)) by lia.
    rewrite (take_S_r _ _ _ Hd). rewrite Hres. clear -Hk Hd.
    assert (length (take (Z.to_nat k) ds) = Z.to_nat k) as Hl.
    { apply lookup_lt_Some in Hd. rewrite length_take. lia. }
    replace (10 ^ k) with (10 ^ Z.of_nat (length (take (Z.to_nat k) ds))) by (f_equal; lia).
    generalize (take (Z.to_nat k) ds). intros l. induction l as [|x l IH]; simpl; [lia|].
    rewrite <- IH. fold (digits_value 10 l).
    replace (Z.of_nat (S (length l))) with (1 + Z.of_nat (length l)) by lia.
    rewrite Z.pow_add_r by lia. lia.
  - destruct Hres as (_ & -> & _). rewrite Z.add_0_l, Nat2Z.id, take_ge by lia. done.
Qed.

End str_spec.

(** ** Properties *)

(** The character classes on bytes. *)
Definition between (lo hi c : Z) : bool := (lo <=? c) && (c <=? hi).

Definition classes_ok (c : Z) : bool :=
  eqb (negb (isdigit c =? 0)) (between 48 57 c) &&
  eqb (isupper c) (between 65 90 c) &&
  eqb (islower c) (between 97 122 c) &&
  eqb (negb (isalpha c =? 0)) (isupper c || islower c) &&
  eqb (negb (isalnum c =? 0)) (negb (isalpha c =? 0) || negb (isdigit c =? 0)) &&
  eqb (negb (isxdigit c =? 0)) (negb (isdigit c =? 0) || between 65 70 c || between 97 102 c) &&
  eqb (negb (isspace c =? 0)) ((c =? 32) || between 9 13 c) &&
  eqb (negb (iscntrl c =? 0)) (between 0 31 c || (c =? 127)) &&
  eqb (negb (isgraph c =? 0)) (between 33 126 c) &&
  eqb (negb (isprint c =? 0)) (between 32 126 c) &&
  eqb (negb (ispunct c =? 0)) (negb (isgraph c =? 0) && (isalnum c =? 0)).

Section properties.
Context `{Platform}.

(** The word-wise [memset] is the byte-wise one. It fills exactly the
    [n] bytes asked for, whatever the alignment of the start and the length;
    all its 64-bit stores are aligned; and it touches no other byte. *)
Theorem memset_fills dest v n m : 0 <= v < 256 → 0 <= n < 2 ^ 31 → 0 <= dest →
  dest + n <= 2 ^ ptr_bits → mapped m dest n →
  ∃ m', memset dest v n m = Some (dest, m') ∧
    ∀ x, m' !! x = if decide (dest <= x < dest + n) then Some v else m !! x.
Proof. apply memset_spec. Qed.

(** [memmove] copies as if through a buffer, however the two blocks
    overlap: afterwards the destination holds what the source held before, and
    every other byte is unchanged. [memcpy] does the same unless the
    destination starts inside the source. *)
Theorem memmove_memcpy_copy dest src n m : 0 <= n < 2 ^ 31 → mapped m dest n → mapped m src n →
  ∃ m', memmove dest src n m = Some (dest, m') ∧
    (∀ x, m' !! x = if decide (dest <= x < dest + n) then m !! (src + (x - dest)) else m !! x) ∧
    (dest <= src ∨ src + n <= dest → memcpy dest src n m = Some (dest, m')).
Proof.
  intros Hn Hd Hs. destruct (memmove_spec dest src n m) as (m' & -> & Hf); [done..|].
  exists m'. split_and!; [done|exact Hf|]. intros Hov.
  destruct (memcpy_spec dest src n m) as (m2 & -> & Hf2); [done..|].
  by rewrite (filled_eq _ _ _ _ _ _ Hf Hf2).
Qed.

(** The string comparisons decide equality: on two terminated strings
    they return, reading only the strings and their terminators, [strcmp] gives
    0 exactly for equal strings and [strncmp] exactly for strings with the same
    first [n] characters. *)
Theorem strcmp_strncmp_equal m a b la lb n : cstr m a la → cstr m b lb → 0 <= n →
  ∃ r rn, strcmp m a b = Some r ∧ strncmp m a b n = Some rn ∧
    (r = 0 ↔ la = lb) ∧ (rn = 0 ↔ take (Z.to_nat n) la = take (Z.to_nat n) lb) ∧
    cmp_result la lb r ∧ cmp_result (take (Z.to_nat n) la) (take (Z.to_nat n) lb) rn.
Proof.
  intros Ha Hb Hn. destruct (strcmp_spec m a b la lb Ha Hb) as (r & Hr & Hc).
  destruct (strncmp_spec m a b la lb n Ha Hb Hn) as (rn & Hrn & Hcn).
  exists r, rn. pose proof Ha as [_ Hla]. pose proof Hb as [_ Hlb].
  split_and!; [done|done| | |done|done]; eapply cmp_result_zero; try done; by apply Forall_take.
Qed.

(** Printing a number and reading it back. [dtos] writes the decimal
    digits of any [uintptr_t] and a terminator, nothing else; for a number of
    at most nine digits, [stoi] on that string, with the length [strlen]
    reports, gives the number. *)
Theorem dtos_stoi_roundtrip n str m : 0 <= n < 2 ^ ptr_bits → mapped m str 65 →
  ∃ m' l, dtos n str m = Some m' ∧ strlen m' str = Some l ∧ l <= 64 ∧
    (∀ x, x < str ∨ str + l < x → m' !! x = m !! x) ∧
    (n < 10 ^ 9 → stoi m' str l = Some n).
Proof.
  intros Hn Hm. assert (n < 2 ^ 64) as Hn64 by (destruct ptr_bits_cases as [E|E]; rewrite E in Hn; lia).
  pose proof ptr_bits_ge. pose proof (shown_digits_length 10 n) as Hlen.
  destruct (htos_digits_spec 10 (λ d, d + 48) n str m) as (m' & Hd & Hcs & f & Hf);
    [lia|lia|done|lia|by eapply mapped_sub; [exact Hm|lia|lia]|].
  set (ds := shown_digits 10 n) in *. exists m', (Z.of_nat (length ds)).
  assert (length (rev ((λ d, d + 48) <$> ds)) = length ds) as Hl by by rewrite length_rev, length_fmap.
  split_and!; [exact Hd| |lia| |].
  - erewrite strlen_spec by (done || rewrite Hl; lia). by rewrite Hl.
  - intros x Hx. rewrite Hf, decide_False by lia. done.
  - intros Hn9. pose proof (shown_digits_range 10 n ltac:(lia)) as Hr. fold ds in Hr.
    pose proof (shown_digits_value 10 n ltac:(lia) ltac:(lia)) as Hv. fold ds in Hv.
    rewrite <- Hv. destruct Hcs as [[Hb _]%bytes_at_app _].
    apply stoi_spec; [done|done|]. apply shown_digits_short. lia.
Qed.

(** The character classes are those of ASCII, and no byte from 128 up is
    in any; but the two case conversions add the offset of the other one, so
    that [tolower] turns ['A'] into ['!'] and no letter is converted. *)
Theorem ctype_classes c : 0 <= c < 256 →
  classes_ok c = true ∧
  tolower c = (if between 65 90 c then c - 32 else c) ∧
  toupper c = (if between 97 122 c then c + 32 else c).
Proof.
  intros Hc.
  assert (forallb (λ c, classes_ok c && (tolower c =? if between 65 90 c then c - 32 else c)
    && (toupper c =? if between 97 122 c then c + 32 else c)) (seqZ 0 256) = true) as Hall
    by (vm_compute; reflexivity).
  rewrite forallb_forall in Hall. specialize (Hall c).
  rewrite <- list_elem_of_In, elem_of_seqZ in Hall. specialize (Hall ltac:(lia)).
  rewrite !andb_true_iff, !Z.eqb_eq in Hall. tauto.
Qed.

End properties.

(** A page of memory at [0x1000], holding the string ["ab"] twice. *)
Definition example_page : mem :=
  list_to_map (zip (seqZ 0x1000 256) ([97; 98; 0; 97; 98; 0] ++ replicate 250 7)).

Lemma example_page_mapped a n : 0x1000 <= a → a + n <= 0x1100 → mapped example_page a n.
Proof.
  intros Ha Hn x Hx.
  assert (forallb (λ x, bool_decide (is_Some (example_page !! x))) (seqZ 0x1000 256) = true) as Hall
    by (vm_compute; reflexivity).
  rewrite forallb_forall in Hall. specialize (Hall x).
  rewrite <- list_elem_of_In, elem_of_seqZ in Hall. specialize (Hall ltac:(lia)).
  by apply bool_decide_eq_true in Hall.
Qed.

Lemma example_page_cstr : cstr example_page 0x1000 [97; 98] ∧ cstr example_page 0x1003 [97; 98].
Proof. rewrite !cstr_cons, !cstr_nil. split_and!; (done || lia). Qed.

Lemma memset_fills_witness :
  ∃ m', @memset x86 0x1003 5 50 example_page = Some (0x1003, m') ∧
    ∀ x, m' !! x = if decide (0x1003 <= x < 0x1003 + 50) then Some 5 else example_page !! x.
Proof.
  apply (@memset_fills x86 0x1003 5 50 example_page);
    [lia|lia|lia|vm_compute; discriminate|apply example_page_mapped; lia].
Defined.

Lemma memmove_memcpy_copy_witness :
  ∃ m', @memmove x86 0x1010 0x1005 50 example_page = Some (0x1010, m') ∧
    (∀ x, m' !! x = if decide (0x1010 <= x < 0x1010 + 50)
                    then example_page !! (0x1005 + (x - 0x1010)) else example_page !! x) ∧
    (0x1010 <= 0x1005 ∨ 0x1005 + 50 <= 0x1010 →
       memcpy 0x1010 0x1005 50 example_page = Some (0x1010, m')).
Proof.
  apply (@memmove_memcpy_copy x86 0x1010 0x1005 50 example_page);
    [lia|apply example_page_mapped; lia|apply example_page_mapped; lia].
Defined.

Lemma strcmp_strncmp_equal_witness :
  ∃ r rn, @strcmp x86 example_page 0x1000 0x1003 = Some r ∧
    @strncmp x86 example_page 0x1000 0x1003 1 = Some rn ∧
    (r = 0 ↔ [97; 98] = [97; 98]) ∧ (rn = 0 ↔ [97] = [97]) ∧
    @cmp_result x86 [97; 98] [97; 98] r ∧ @cmp_result x86 [97] [97] rn.
Proof.
  exact (@strcmp_strncmp_equal x86 example_page 0x1000 0x1003 [97; 98] [97; 98] 1
    (proj1 example_page_cstr) (proj2 example_page_cstr) ltac:(lia)).
Defined.

Lemma dtos_stoi_roundtrip_witness :
  ∃ m' l, @dtos x86 90210 0x1000 example_page = Some m' ∧ @strlen x86 m' 0x1000 = Some l ∧ l <= 64 ∧
    (∀ x, x < 0x1000 ∨ 0x1000 + l < x → m' !! x = example_page !! x) ∧
    (90210 < 10 ^ 9 → @stoi x86 m' 0x1000 l = Some 90210).
Proof.
  apply (@dtos_stoi_roundtrip x86 90210 0x1000 example_page);
    [vm_compute; split; congruence|apply example_page_mapped; lia].
Defined.

Lemma ctype_classes_witness :
  classes_ok 65 = true ∧ tolower 65 = 33 ∧ toupper 65 = 65.
Proof. exact (ctype_classes 65 ltac:(lia)). Defined.

(** With a signed [char], bytes from 128 up sort before the end of the string,
    where the C standard compares as [unsigned char]. *)
Example strcmp_signed :
  let m : mem := list_to_map [(0, 0xe9); (1, 0); (2, 0)] in
  @strcmp x86 m 0 2 = Some (-1) ∧ @strcmp arm64 m 0 2 = Some 1.
Proof. split; vm_compute; reflexivity. Qed.

(** [strncmp] reads one character more than it compares: with [n] = 2 it
    faults on two-byte buffers that are followed by unmapped memory. *)
Example strncmp_over_read :
  let m : mem := list_to_map [(0, 97); (1, 98); (10, 97); (11, 98)] in
  @strncmp x86 m 0 10 2 = None.
Proof. vm_compute. reflexivity. Qed.
