(* ===== verification/Printf.v ===== *)
(** * Printf: formatted output and input of the kernel

    [kernel/libkern/printf.c] and [scanf.c]: the engines over their callbacks, and
    the functions that print into and scan from a buffer in byte-addressed memory.
    A variable argument list is the list of its words, by their widths: taking an
    argument of another width than the one that was passed is undefined. *)
From stdpp Require Import gmap.
From S2P Require Import Prelude Platform Memory Libkern.

(** ** Variable arguments *)

Inductive varg := A32 (v : Z) | AWord (v : Z) | A64 (v : Z).

Section args.
Context `{Target}.
(** An [int] or [unsigned]; a [long], [size_t] or pointer; a [uint64_t]. *)
Definition va_32 (args : list varg) : option (Z * list varg) :=
  match args with A32 v :: args => Some (u32 v, args) | _ => None end.
Definition va_word (args : list varg) : option (Z * list varg) :=
  match args with
  | AWord v :: args => Some (usize v, args)
  | A64 v :: args => if decide (ptr_bits = 64) then Some (usize v, args) else None
  | _ => None
  end.
Definition va_64 (args : list varg) : option (Z * list varg) :=
  match args with
  | A64 v :: args => Some (u64 v, args)
  | AWord v :: args => if decide (ptr_bits = 64) then Some (u64 v, args) else None
  | _ => None
  end.
End args.

(** ** The engine of [printf] *)

Definition hex_alphabet (d : Z) : Z := if d <? 10 then 48 + d else 87 + d.
Definition HEX_alphabet (d : Z) : Z := if d <? 10 then 48 + d else 55 + d.

(** The digits in [tmp_buf], which has room for [cap] of them. *)
Definition fill_tmp_buf (cap base : Z) (alph : Z → Z) (value : Z) : option (list Z) :=
  loop digits_fuel (λ '(value, tmp_buf),
    if 0 <? value then
      if cap <=? Z.of_nat (length tmp_buf) then None
      else Some (inl (value / base, tmp_buf ++ [alph (value mod base)]))
    else Some (inr tmp_buf)) (value, []).

(** The prefixes [l], [z] and [h] behind the [%] at [p]: where the conversion is and
    how often each was read. The last character of the format ends them, too. *)
Definition parse_args (m : mem) (p : Z) : option (Z * (Z * Z * Z)) :=
  loop (str_fuel m) (λ '(p, (l, z, h)),
    c ← m !! (p + 1);
    let r := (p + 1, (if c =? 108 then l + 1 else l, if c =? 122 then z + 1 else z, if c =? 104 then h + 1 else h)) in
    if (c =? 108) || (c =? 122) || (c =? 104) then
      next ← m !! (p + 2); Some (if next =? 0 then inr r else inl r)
    else Some (inr r)) (p, (0, 0, 0)).

Section printf.
Context `{Platform} {S : Type}.
(** The memory that the engine reads from, and the callback. *)
Context (look : S → mem) (callback : Z → S → option S).

Fixpoint put_all (l : list Z) (st : S) : option S :=
  match l with [] => Some st | ch :: l => st ← callback ch st; put_all l st end.

(** From the last one that was stored. *)
Definition put_tmp_buf (tmp_buf : list Z) (st : S) : option S :=
  st ← (if bool_decide (tmp_buf = []) then callback 48 st else Some st);
  put_all (rev tmp_buf) st.

Definition _printf_hex_impl (cap : Z) (alph : Z → Z) (value : Z) (st : S) : option S :=
  tmp_buf ← fill_tmp_buf cap 16 alph value;
  st ← callback 48 st; st ← callback 120 st;
  put_tmp_buf tmp_buf st.
Definition _printf_hex32 (value : Z) (st : S) : option S := _printf_hex_impl 16 hex_alphabet value st.
Definition _printf_HEX32 (value : Z) (st : S) : option S := _printf_hex_impl 16 HEX_alphabet value st.
(** The parameter is an [unsigned long]. *)
Definition _printf_hex64 (value : Z) (st : S) : option S := _printf_hex_impl 32 hex_alphabet (usize value) st.
Definition _printf_HEX64 (value : Z) (st : S) : option S := _printf_hex_impl 32 HEX_alphabet (usize value) st.

Definition _printf_u32 (value : Z) (st : S) : option S :=
  tmp_buf ← fill_tmp_buf 16 10 (λ d, d + 48) value; put_tmp_buf tmp_buf st.
Definition _printf_u64 (value : Z) (st : S) : option S :=
  tmp_buf ← fill_tmp_buf 32 10 (λ d, d + 48) (usize value); put_tmp_buf tmp_buf st.
Definition _printf_i32 (value : Z) (st : S) : option S :=
  if value <? 0 then st ← callback 45 st; _printf_u32 (u32 (s32 (- value))) st
  else _printf_u32 (u32 value) st.
Definition _printf_i64 (value : Z) (st : S) : option S :=
  if value <? 0 then st ← callback 45 st; _printf_u64 (- value) st
  else _printf_u64 value st.

Definition _printf_string (value : Z) (st : S) : option S :=
  if value =? 0 then Some st else
  len ← strlen (look st) value;
  for_n (Z.to_nat len) 0 (λ i st, ch ← look st !! (value + i); callback ch st) st.

(** A [long] of the word [v]. *)
Definition to_long (v : Z) : Z := if v <? 2 ^ (ptr_bits - 1) then v else v - 2 ^ ptr_bits.

(** One conversion [c] with its prefixes; an unknown one prints nothing. *)
Definition convert (c l z : Z) (args : list varg) (st : S) : option (list varg * S) :=
  if (c =? 105) || (c =? 100) then
    if negb (l =? 0) then '(v, args) ← va_word args; st ← _printf_i64 (to_long v) st; Some (args, st)
    else '(v, args) ← va_32 args; st ← _printf_i32 (s32 v) st; Some (args, st)
  else if c =? 117 then
    if negb (z =? 0) then '(v, args) ← va_word args; st ← _printf_u64 v st; Some (args, st)
    else if negb (l =? 0) then '(v, args) ← va_64 args; st ← _printf_u64 v st; Some (args, st)
    else '(v, args) ← va_32 args; st ← _printf_u32 v st; Some (args, st)
  else if c =? 120 then
    if negb (z =? 0) then '(v, args) ← va_word args; st ← _printf_hex64 v st; Some (args, st)
    else if negb (l =? 0) then '(v, args) ← va_64 args; st ← _printf_hex64 v st; Some (args, st)
    else '(v, args) ← va_32 args; st ← _printf_hex32 v st; Some (args, st)
  else if c =? 88 then
    if negb (l =? 0) then '(v, args) ← va_64 args; st ← _printf_HEX64 v st; Some (args, st)
    else '(v, args) ← va_32 args; st ← _printf_HEX32 v st; Some (args, st)
  else if c =? 99 then '(v, args) ← va_32 args; st ← callback (u8 v) st; Some (args, st)
  else if c =? 37 then st ← callback 37 st; Some (args, st)
  else if c =? 115 then '(v, args) ← va_word args; st ← _printf_string v st; Some (args, st)
  else if c =? 112 then '(v, args) ← va_word args; st ← _printf_hex64 v st; Some (args, st)
  else Some (args, st).

(** The characters of the format from [p] on. *)
Definition print_step (p : Z) (args : list varg) (st : S) : option ((Z * list varg * S) + S) :=
  c ← look st !! p;
  if c =? 0 then Some (inr st) else
  next ← (if c =? 37 then look st !! (p + 1) else Some 0);
  if negb (next =? 0) then
    '(p, (l, z, _)) ← parse_args (look st) p;
    c ← look st !! p;
    '(args, st) ← convert c l z args st; Some (inl (p + 1, args, st))
  else st ← callback c st; Some (inl (p + 1, args, st)).

Definition _printf_internal (format : Z) (args : list varg) (st : S) : option S :=
  loop (str_fuel (look st)) (λ '(p, args, st), print_step p args st) (format, args, st).
End printf.

(** ** Printing into a buffer *)

Section buffers.
Context `{Platform}.

(** The memory and [written]. *)
Definition putch_callback_sized_buf (buf_base n ch : Z) (st : mem * Z) : option (mem * Z) :=
  let '(m, vw) := st in
  if n <=? vw then Some (m, vw) else m ← mset m (buf_base + vw) ch; Some (m, vw + 1).
Definition putch_callback_buf (buf_base ch : Z) (st : mem * Z) : option (mem * Z) :=
  let '(m, vw) := st in m ← mset m (buf_base + vw) ch; Some (m, usize (vw + 1)).

Definition vsnprintf (s n format : Z) (args : list varg) (m : mem) : option (Z * mem) :=
  if s =? 0 then Some (0, m) else
  if n =? 0 then Some (0, m) else
  '(m, wr) ← _printf_internal fst (putch_callback_sized_buf s n) format args (m, 0);
  m ← mset m (s + (if wr =? n then n - 1 else wr)) 0;
  Some (s32 wr, m).

Definition vsprintf (s format : Z) (args : list varg) (m : mem) : option (Z * mem) :=
  if s =? 0 then Some (0, m) else
  '(m, wr) ← _printf_internal fst (putch_callback_buf s) format args (m, 0);
  m ← mset m (s + wr) 0; Some (s32 wr, m).

(** The text, as a callback collects it that stores nothing in the memory. *)
Definition collect (ch : Z) (st : mem * list Z) : option (mem * list Z) := Some (st.1, st.2 ++ [ch]).
Definition printf_engine {S} (look : S → mem) (callback : Z → S → option S) (format : Z) (args : list varg) (st : S) : option S :=
  _printf_internal look callback format args st.
Definition text (format : Z) (args : list varg) (m : mem) : option (list Z) :=
  snd <$> printf_engine fst collect format args (m, []).
End buffers.

(** ** The engine of [scanf] *)

Section scanf.
Context `{Platform} {S : Type}.
(** The callbacks, over their own state and the memory. *)
Context (lookupch : mem → S → option Z) (getch : mem → S → option (Z * S)).

(** The value, the number of characters, and the state. *)
Definition _scanf_u32 (m : mem) (st : S) : option (Z * Z * S) :=
  loop (str_fuel m) (λ '(res, read, st),
    c ← lookupch m st;
    if negb (isdigit c =? 0) then
      '(ch, st) ← getch m st; Some (inl (u32 (u32 (res * 10) + (ch - 48)), read + 1, st))
    else Some (inr (res, read, st))) (0, 0, st).

(** No value is stored when there are no digits; the sign is then gone. *)
Definition _scanf_i32 (m : mem) (st : S) : option (option Z * Z * S) :=
  c ← lookupch m st;
  '(negative, read, st) ← (if c =? 45 then '(_, st) ← getch m st; Some (true, 1, st) else Some (false, 0, st));
  '(tmp_u32, read_imm, st) ← _scanf_u32 m st;
  if read_imm =? 0 then Some (None, 0, st) else
  let tmp_i32 := s32 tmp_u32 in
  Some (Some (if negative : bool then s32 (- tmp_i32) else tmp_i32), read + read_imm, st).

Definition skip_input (m : mem) (passed : Z) (st : S) : option (Z * S) :=
  loop (str_fuel m) (λ '(passed, st),
    c ← lookupch m st;
    if negb (isspace c =? 0) then '(_, st) ← getch m st; Some (inl (passed + 1, st)) else Some (inr (passed, st))) (passed, st).

Definition skip_format (m : mem) (p : Z) : option Z :=
  loop (str_fuel m) (λ p, c ← m !! p; Some (if negb (isspace c =? 0) then inl (p + 1) else inr p)) p.

(** The word after the blanks, which only a blank ends. *)
Definition scan_word (value : Z) (m : mem) (passed : Z) (st : S) : option (Z * mem * S) :=
  '(rv, m, passed, st) ← loop (str_fuel m) (λ '(rv, m, passed, st),
    c ← lookupch m st;
    if isspace c =? 0 then
      '(ch, st) ← getch m st; m ← mset m (value + rv) (u8 ch); Some (inl (rv + 1, m, passed + 1, st))
    else Some (inr (rv, m, passed, st))) (0, m, passed, st);
  m ← mset m (value + rv) 0; Some (passed, m, st).

(** One conversion [c], behind [l] prefixes [l]. *)
Definition scan_convert (c l : Z) (args : list varg) (m : mem) (passed : Z) (st : S)
  : option (list varg * mem * Z * S) :=
  if (c =? 105) || (c =? 100) then
    if l =? 0 then
      '(value, args) ← va_word args;
      '(v, read, st) ← _scanf_i32 m st;
      m ← (match v with Some v => store m value 4 v | None => Some m end);
      Some (args, m, passed + read, st)
    else Some (args, m, passed, st)
  else if c =? 117 then
    if l =? 0 then
      '(value, args) ← va_word args;
      '(v, read, st) ← _scanf_u32 m st;
      m ← store m value 4 v;
      Some (args, m, passed + read, st)
    else Some (args, m, passed, st)
  else if c =? 115 then
    '(value, args) ← va_word args;
    '(passed, m, st) ← scan_word value m passed st; Some (args, m, passed, st)
  else Some (args, m, passed, st).

(** [parse_args] without [z]. *)
Definition scan_prefixes (m : mem) (p : Z) : option (Z * Z) :=
  loop (str_fuel m) (λ '(p, l),
    c ← m !! (p + 1);
    let r := (p + 1, if c =? 108 then l + 1 else l) in
    if (c =? 108) || (c =? 104) then next ← m !! (p + 2); Some (if next =? 0 then inr r else inl r)
    else Some (inr r)) (p, 0).

Definition scan_step (p passed : Z) (args : list varg) (m : mem) (st : S)
  : option ((Z * Z * list varg * mem * S) + (Z * mem)) :=
  c ← m !! p;
  if c =? 0 then Some (inr (passed, m)) else
  p ← skip_format m p;
  c ← m !! p;
  next ← (if c =? 37 then m !! (p + 1) else Some 0);
  if negb (next =? 0) then
    '(p, l) ← scan_prefixes m p;
    '(passed, st) ← skip_input m passed st;
    c ← m !! p;
    '(args, m, passed, st) ← scan_convert c l args m passed st;
    Some (inl (p + 1, passed, args, m, st))
  else
    '(passed, st) ← skip_input m passed st;
    ch ← lookupch m st;
    if negb (ch =? c) then Some (inr (passed, m)) else
    '(_, st) ← getch m st; Some (inl (p + 1, passed + 1, args, m, st)).

Definition _scanf_internal (format : Z) (args : list varg) (m : mem) (st : S) : option (Z * mem) :=
  loop (str_fuel m) (λ '(p, passed, args, m, st), scan_step p passed args m st) (format, 0, args, m, st).
End scanf.

Section sscanf.
Context `{Platform}.
(** The state is the pointer into the buffer, which is not NULL. *)
Definition lookup_callback_buffer (m : mem) (buf : Z) : option Z := if buf =? 0 then Some (-1) else m !! buf.
Definition getch_callback_buffer (m : mem) (buf : Z) : option (Z * Z) :=
  if buf =? 0 then Some (-1, 0) else res ← m !! buf; Some (res, buf + 1).

Definition vsscanf (buf format : Z) (args : list varg) (m : mem) : option (Z * mem) :=
  _scanf_internal lookup_callback_buffer getch_callback_buffer format args m buf.
End sscanf.

(** ** Two runs of the engine *)

Lemma loop_sim {S1 S2 R1 R2} (Rel : S1 → S2 → Prop) (Out : R1 → R2 → Prop)
    (body1 : S1 → option (S1 + R1)) (body2 : S2 → option (S2 + R2)) n1 n2 s1 s2 r2 :
  (∀ s1 s2 x2, Rel s1 s2 → body2 s2 = Some x2 → ∃ x1, body1 s1 = Some x1 ∧
    match x1, x2 with inl s1, inl s2 => Rel s1 s2 | inr r1, inr r2 => Out r1 r2 | _, _ => False end) →
  Rel s1 s2 → (n2 <= n1)%nat → loop n2 body2 s2 = Some r2 → ∃ r1, loop n1 body1 s1 = Some r1 ∧ Out r1 r2.
Proof.
  intros Hb. revert n1 s1 s2. induction n2 as [|n2 IH]; intros n1 s1 s2 Hr Hn E; [done|].
  destruct n1 as [|n1]; [lia|]. rewrite loop_S in E. rewrite loop_S.
  destruct (body2 s2) as [x2|] eqn:E2; [|done]. destruct (Hb s1 s2 x2 Hr E2) as (x1 & -> & Hx).
  destruct x1 as [s1'|r1], x2 as [s2'|r2']; try done.
  - apply (IH n1 s1' s2'); [done|lia|done].
  - injection E as <-. by exists r1.
Qed.

(** A larger memory has more fuel and the same bytes. *)
Section larger.
Context (m1 m2 : mem) (Hsub : m2 ⊆ m1).

Lemma larger_fuel : (str_fuel m2 <= str_fuel m1)%nat.
Proof using Hsub. unfold str_fuel. apply map_subseteq_size in Hsub. lia. Qed.

Lemma larger_loop {S R} (body1 body2 : S → option (S + R)) s r :
  (∀ s x, body2 s = Some x → body1 s = Some x) → loop (str_fuel m2) body2 s = Some r → loop (str_fuel m1) body1 s = Some r.
Proof using Hsub.
  intros Hb E. destruct (loop_sim eq eq body1 body2 (str_fuel m1) (str_fuel m2) s s r) as (r1 & E1 & ->); try done.
  - intros s1 s2 x2 -> E2. exists x2. split; [by apply Hb|]. by destruct x2.
  - apply larger_fuel.
Qed.

Lemma larger_get a b : m2 !! a = Some b → m1 !! a = Some b.
Proof using Hsub. intros Hb. exact (lookup_weaken m2 m1 a b Hb Hsub). Qed.

Lemma larger_strlen `{Platform} a n : strlen m2 a = Some n → strlen m1 a = Some n.
Proof using Hsub.
  apply larger_loop. intros i x Hx. apply bind_Some in Hx as (b & Hb & <-). by rewrite (larger_get _ _ Hb).
Qed.

Lemma larger_parse p r : parse_args m2 p = Some r → parse_args m1 p = Some r.
Proof using Hsub.
  apply larger_loop. intros [q [[l z] h]] x Hx. apply bind_Some in Hx as (c & Hc & Hx). rewrite (larger_get _ _ Hc). bind_red.
  destruct (_ || _); [|done]. apply bind_Some in Hx as (d & Hd & Hx). by rewrite (larger_get _ _ Hd).
Qed.
End larger.

Section simulation.
Context `{Platform} {S1 S2 : Type} (look1 : S1 → mem) (look2 : S2 → mem)
  (call1 : Z → S1 → option S1) (call2 : Z → S2 → option S2) (R : S1 → S2 → Prop).
Hypothesis R_look : ∀ st1 st2, R st1 st2 → look2 st2 ⊆ look1 st1.
Hypothesis R_call : ∀ ch st1 st2 st2', R st1 st2 → call2 ch st2 = Some st2' → ∃ st1', call1 ch st1 = Some st1' ∧ R st1' st2'.

(** [f2] simulates [f1]: what one run does the other one does, too. *)
Definition sim (f1 : S1 → option S1) (f2 : S2 → option S2) : Prop :=
  ∀ st1 st2 st2', R st1 st2 → f2 st2 = Some st2' → ∃ st1', f1 st1 = Some st1' ∧ R st1' st2'.

Lemma sim_bind f1 f2 g1 g2 : sim f1 f2 → sim g1 g2 → sim (λ st, st ← f1 st; g1 st) (λ st, st ← f2 st; g2 st).
Proof.
  intros Hf Hg st1 st2 st2' Hr E. apply bind_Some in E as (x & Ex & E). destruct (Hf _ _ _ Hr Ex) as (y & -> & Hy).
  by apply (Hg y x).
Qed.
Lemma sim_call ch : sim (call1 ch) (call2 ch).
Proof using R_call. intros st1 st2 st2'. apply R_call. Qed.
Lemma sim_ret : sim Some Some.
Proof. intros st1 st2 st2' Hr [= <-]. by exists st1. Qed.
Lemma sim_if (b : bool) f1 f2 g1 g2 : sim f1 f2 → sim g1 g2 →
  sim (λ st, if b then f1 st else g1 st) (λ st, if b then f2 st else g2 st).
Proof. by destruct b. Qed.

Lemma sim_put_all l : sim (put_all call1 l) (put_all call2 l).
Proof using R_call. induction l as [|ch l IH]; [apply sim_ret|]. apply (sim_bind (call1 ch) (call2 ch)); [apply sim_call|apply IH]. Qed.
Lemma sim_put_tmp l : sim (put_tmp_buf call1 l) (put_tmp_buf call2 l).
Proof using R_call.
  apply (sim_bind (λ st, if bool_decide (l = []) then call1 48 st else Some st)
    (λ st, if bool_decide (l = []) then call2 48 st else Some st)); [apply sim_if; [apply sim_call|apply sim_ret]|apply sim_put_all].
Qed.
Lemma sim_known {A} (x : option A) g1 g2 : (∀ a, sim (g1 a) (g2 a)) → sim (λ st, a ← x; g1 a st) (λ st, a ← x; g2 a st).
Proof. destruct x as [a|]; [intros Hg; apply Hg|]. intros _ st1 st2 st2' _ [=]. Qed.

Lemma sim_hex cap alph v : sim (_printf_hex_impl call1 cap alph v) (_printf_hex_impl call2 cap alph v).
Proof using R_call.
  apply sim_known. intros l. apply (sim_bind (call1 48) (call2 48)); [apply sim_call|].
  apply (sim_bind (call1 120) (call2 120)); [apply sim_call|apply sim_put_tmp].
Qed.
Lemma sim_u32 v : sim (_printf_u32 call1 v) (_printf_u32 call2 v).
Proof using R_call. apply sim_known. intros l. apply sim_put_tmp. Qed.
Lemma sim_u64 v : sim (_printf_u64 call1 v) (_printf_u64 call2 v).
Proof using R_call. apply sim_known. intros l. apply sim_put_tmp. Qed.
Lemma sim_i32 v : sim (_printf_i32 call1 v) (_printf_i32 call2 v).
Proof using R_call.
  apply sim_if; [|apply sim_u32]. apply (sim_bind (call1 45) (call2 45)); [apply sim_call|apply sim_u32].
Qed.
Lemma sim_i64 v : sim (_printf_i64 call1 v) (_printf_i64 call2 v).
Proof using R_call.
  apply sim_if; [|apply sim_u64]. apply (sim_bind (call1 45) (call2 45)); [apply sim_call|apply sim_u64].
Qed.

Lemma sim_string v : sim (_printf_string look1 call1 v) (_printf_string look2 call2 v).
Proof using R_call R_look.
  apply sim_if; [apply sim_ret|]. intros st1 st2 st2' Hr E. apply bind_Some in E as (len & El & E).
  rewrite (larger_strlen (look1 st1) (look2 st2) (R_look _ _ Hr) v len El). bind_red. clear El.
  revert st1 st2 Hr E. generalize (Z.to_nat len) as n, 0 as i. induction n as [|n IH]; intros i st1 st2 Hr E.
  - injection E as <-. by exists st1.
  - rewrite for_n_S in E. rewrite for_n_S. apply bind_Some in E as (x & Ex & E). apply bind_Some in Ex as (ch & Ec & Ex).
    rewrite (larger_get (look1 st1) (look2 st2) (R_look _ _ Hr) _ _ Ec). bind_red.
    destruct (R_call _ _ _ _ Hr Ex) as (y & -> & Hy). bind_red. by apply (IH (i + 1) y x).
Qed.

(** With the rest of the arguments. *)
Definition sim_args (f1 : S1 → option (list varg * S1)) (f2 : S2 → option (list varg * S2)) : Prop :=
  ∀ st1 st2 args st2', R st1 st2 → f2 st2 = Some (args, st2') → ∃ st1', f1 st1 = Some (args, st1') ∧ R st1' st2'.
Lemma sim_take (x : option (Z * list varg)) g1 g2 : (∀ v, sim (g1 v) (g2 v)) →
  sim_args (λ st, '(v, args) ← x; st ← g1 v st; Some (args, st)) (λ st, '(v, args) ← x; st ← g2 v st; Some (args, st)).
Proof.
  intros Hg st1 st2 args st2' Hr E. destruct x as [[v rest]|]; [|done]. cbn [mbind option_bind] in E |- *. apply bind_Some in E as (y & Ey & [= <- <-]).
  destruct (Hg v _ _ _ Hr Ey) as (z & -> & Hz). by exists z.
Qed.
Lemma sim_args_if (b : bool) f1 f2 g1 g2 : sim_args f1 f2 → sim_args g1 g2 →
  sim_args (λ st, if b then f1 st else g1 st) (λ st, if b then f2 st else g2 st).
Proof. by destruct b. Qed.

Lemma sim_convert c l z args : sim_args (convert look1 call1 c l z args) (convert look2 call2 c l z args).
Proof using R_call R_look.
  unfold convert. repeat apply sim_args_if;
    try (apply sim_take; intros v; first [apply sim_i64|apply sim_i32|apply sim_u64|apply sim_u32|apply sim_hex|apply sim_call|apply sim_string]).
  - intros st1 st2 rest st2' Hr E. apply bind_Some in E as (y & Ey & [= <- <-]).
    destruct (R_call _ _ _ _ Hr Ey) as (x & -> & Hx). by exists x.
  - intros st1 st2 rest st2' Hr [= <- <-]. by exists st1.
Qed.

Lemma sim_internal format args : sim (_printf_internal look1 call1 format args) (_printf_internal look2 call2 format args).
Proof using R_call R_look.
  intros st1 st2 st2' Hr E. unfold _printf_internal in *.
  eapply (loop_sim (λ '(p1, a1, st1) '(p2, a2, st2), p1 = p2 ∧ a1 = a2 ∧ R st1 st2) R); [| |by apply larger_fuel, R_look|exact E]; [|done].
  clear st1 st2 st2' Hr E. intros [[p a] st1] [[p2 a2] st2] x2 (<- & <- & Hr) E. unfold print_step in *.
  pose proof (R_look _ _ Hr) as Hsub.
  apply bind_Some in E as (c & Ec & E). rewrite (larger_get _ _ Hsub _ _ Ec). bind_red.
  destruct (c =? 0); [injection E as <-; by exists (inr st1)|].
  assert (∃ next, (if c =? 37 then look2 st2 !! (p + 1) else Some 0) = Some next ∧
    (if c =? 37 then look1 st1 !! (p + 1) else Some 0) = Some next) as (next & En & ->).
  { apply bind_Some in E as (next & En & _). exists next. split; [done|]. destruct (c =? 37); [by apply (larger_get _ _ Hsub)|done]. }
  rewrite En in E. bind_red. cbn [mbind option_bind] in E. destruct (negb (next =? 0)).
  - apply bind_Some in E as ([q [[l z] h]] & Ep & E). rewrite (larger_parse _ _ Hsub _ _ Ep). bind_red.
    apply bind_Some in E as (d & Ed & E). rewrite (larger_get _ _ Hsub _ _ Ed). bind_red.
    apply bind_Some in E as ([rest y] & Ey & [= <-]). destruct (sim_convert d l z a _ _ _ _ Hr Ey) as (x & -> & Hx).
    by exists (inl (q + 1, rest, x)).
  - apply bind_Some in E as (y & Ey & [= <-]). destruct (R_call _ _ _ _ Hr Ey) as (x & -> & Hx).
    by exists (inl (p + 1, a, x)).
Qed.
End simulation.

(** ** Into a buffer *)

(** The memory without the bytes of [a .. a + n). *)
Definition without (m : mem) (a n : Z) : mem := filter (λ '(x, _), ¬ (a <= x < a + n)) m.

Lemma lookup_without m a n x : without m a n !! x = if decide (a <= x < a + n) then None else m !! x.
Proof.
  unfold without. case_decide as Hx.
  - apply map_lookup_filter_None. right. intros v _ []. done.
  - destruct (m !! x) as [v|] eqn:E; [by apply map_lookup_filter_Some|].
    apply map_lookup_filter_None. by left.
Qed.

Section printed.
Context `{Platform} (s n : Z) (m : mem) (Hn : 0 < n) (Hm : mapped m s n).

(** The buffer holds what of the text has fitted. *)
Definition printed (st : mem * Z) (st2 : mem * list Z) : Prop :=
  st2.1 = without m s n ∧ st.2 = Z.min n (Z.of_nat (length st2.2)) ∧
  ∀ x, st.1 !! x = if decide (s <= x < s + st.2) then st2.2.[x - s] else m !! x.

Lemma printed_look st st2 : printed st st2 → st2.1 ⊆ st.1.
Proof using.
  intros (-> & Hw & Hx). apply map_subseteq_spec. intros x b. rewrite lookup_without. case_decide; [done|].
  intros <-. rewrite Hx. case_decide; [lia|done].
Qed.

Lemma printed_call ch st st2 st2' : printed st st2 → collect ch st2 = Some st2' →
  ∃ st', putch_callback_sized_buf s n ch st = Some st' ∧ printed st' st2'.
Proof using Hm Hn.
  destruct st as [m1 w], st2 as [m2 t]. intros (Em & Ew & Hx) [= <-]. cbn [fst snd] in *. unfold putch_callback_sized_buf.
  destruct (Z.leb_spec n w).
  - exists (m1, w). split; [done|]. unfold printed. cbn [fst snd]. rewrite length_app. cbn [length].
    split; [done|]. split; [lia|]. intros x. rewrite Hx. case_decide; [|done]. rewrite zget_app. case_decide; [done|lia].
  - rewrite mset_mapped by (rewrite Hx; case_decide; [lia|apply Hm; lia]). bind_red. eexists. split; [done|].
    unfold printed. cbn [fst snd]. rewrite length_app. cbn [length]. split; [done|]. split; [lia|].
    intros x. rewrite lookup_insert, Hx, zget_app. repeat case_decide; try done; try lia.
    by replace (x - s - Z.of_nat (length t)) with 0 by lia.
Qed.

Lemma vsnprintf_spec format args t : s ≠ 0 → n < 2 ^ 31 → text format args (without m s n) = Some t →
  ∃ m', vsnprintf s n format args m = Some (Z.min n (Z.of_nat (length t)), m') ∧
    (∀ x, ¬ (s <= x < s + n) → m' !! x = m !! x) ∧ bytes_at m' s (take (Z.to_nat (n - 1)) t ++ [0]).
Proof using Hm Hn.
  intros Hs Hn31 Et. unfold text, printf_engine in Et.
  destruct (_printf_internal fst collect format args (without m s n, [])) as [[m2 t2]|] eqn:E; [|done].
  injection Et as ->.
  destruct (sim_internal fst fst (putch_callback_sized_buf s n) collect printed printed_look printed_call
    format args (m, 0) (without m s n, []) (m2, t)) as ([m1 w] & E1 & _ & Ew & Hx); [|exact E|].
  { split; [done|]. split; [cbn; lia|]. intros x. cbn [fst snd]. case_decide; [lia|done]. }
  cbn [fst snd] in *. unfold vsnprintf. destruct (Z.eqb_spec s 0); [done|]. destruct (Z.eqb_spec n 0); [lia|].
  rewrite E1. bind_red. set (z := if w =? n then n - 1 else w).
  assert (z = Z.min (n - 1) (Z.of_nat (length t))) as Hz by (unfold z; destruct (Z.eqb_spec w n); lia).
  rewrite mset_mapped by (rewrite Hx; case_decide; [apply zget_is_Some; lia|apply Hm; lia]). bind_red.
  rewrite s32_small by lia. rewrite Ew. eexists. split; [done|].
  assert (Z.of_nat (length (take (Z.to_nat (n - 1)) t)) = z) as Hl by (rewrite length_take; lia). split.
  - intros x Hxo. rewrite lookup_insert, Hx. repeat case_decide; (done || lia).
  - apply bytes_at_app. rewrite Hl. split; [|apply bytes_at_cons; split; [apply lookup_insert_eq|intros i Hi; simpl in Hi; lia]].
    intros i Hi. rewrite Hl in Hi. rewrite lookup_insert_ne, Hx by lia. rewrite decide_True by lia.
    replace (s + i - s) with i by lia. rewrite !zget_lookup by lia. rewrite lookup_take_lt by lia. done.
Qed.
End printed.

(** ** Texts with numbers *)

(** A format of plain characters, [%d] and [%u] with their arguments. *)
Inductive item := Plain (c : Z) | Signed (v : Z) | Unsigned (v : Z).

Definition format_of (it : item) : list Z := match it with Plain c => [c] | Signed _ => [37; 100] | Unsigned _ => [37; 117] end.
Definition args_of (it : item) : list varg := match it with Plain _ => [] | Signed v | Unsigned v => [A32 v] end.
Definition show (v : Z) : list Z := rev ((λ d, d + 48) <$> shown_digits 10 v).
Definition text_of (it : item) : list Z :=
  match it with Plain c => [c] | Signed v => if v <? 0 then 45 :: show (- v) else show v | Unsigned v => show v end.

Lemma fill_spec cap base (alph : Z → Z) fuel v (tmp : list Z) : 2 <= base → 0 <= v < 2 ^ Z.of_nat fuel →
  Z.of_nat (length tmp + length (digits fuel base v)) <= cap →
  loop (S fuel) (λ '(value, tmp_buf),
    if 0 <? value then
      if cap <=? Z.of_nat (length tmp_buf) then None
      else Some (inl (value / base, tmp_buf ++ [alph (value mod base)]))
    else Some (inr tmp_buf)) (v, tmp) = Some (tmp ++ (alph <$> digits fuel base v)).
Proof.
  intros Hb. revert v tmp. induction fuel as [|fuel IH]; intros v tmp Hv Hl.
  { rewrite Z.pow_0_r in Hv. replace v with 0 by lia. rewrite loop_S. cbn. by rewrite app_nil_r. }
  rewrite loop_S. cbn [digits] in *. destruct (Z.eqb_spec v 0) as [->|].
  { cbn. by rewrite app_nil_r. }
  destruct (Z.ltb_spec 0 v); [|lia]. cbn [length] in Hl. destruct (Z.leb_spec cap (Z.of_nat (length tmp))); [lia|].
  replace (Z.of_nat (S fuel)) with (1 + Z.of_nat fuel) in Hv by lia. rewrite Z.pow_add_r in Hv by lia.
  rewrite IH; [by rewrite <- app_assoc| |rewrite length_app; cbn [length]; lia].
  split; [apply Z.div_pos; lia|]. apply Z.div_lt_upper_bound; nia.
Qed.

Lemma put_all_collect l m acc : put_all collect l (m, acc) = Some (m, acc ++ l).
Proof.
  revert acc. induction l as [|ch l IH]; intros acc; cbn [put_all]; [by rewrite app_nil_r|].
  cbn. rewrite IH. by rewrite <- app_assoc.
Qed.

Lemma print_u32 v m acc : 0 <= v < 2 ^ 32 → _printf_u32 collect v (m, acc) = Some (m, acc ++ show v).
Proof.
  intros Hv. unfold _printf_u32.
  pose proof (digits_short 64 10 v 10 ltac:(lia) ltac:(lia)) as Hl.
  assert (fill_tmp_buf 16 10 (λ d, d + 48) v = Some ([] ++ ((λ d, d + 48) <$> digits 64 10 v))) as ->.
  { apply fill_spec; [lia|lia|]. cbn [length]. lia. }
  rewrite app_nil_l. bind_red. unfold put_tmp_buf, show, shown_digits.
  destruct (Z.eqb_spec v 0) as [->|]; [done|].
  rewrite bool_decide_false; [bind_red; apply put_all_collect|].
  cbn [digits]. destruct (Z.eqb_spec v 0); [done|]. by rewrite fmap_cons.
Qed.

Definition item_ok (it : item) : Prop :=
  match it with
  | Plain c => 0 < c < 256 ∧ c ≠ 37 ∧ isspace c = 0
  | Signed v => - 2 ^ 31 < v < 2 ^ 31
  | Unsigned v => 0 <= v < 2 ^ 32
  end.

Section items.
Context `{Platform}.

Lemma print_item m p it args acc rest : item_ok it → cstr m p (format_of it ++ rest) →
  print_step fst collect p (args_of it ++ args) (m, acc) = 
  Some (inl (p + Z.of_nat (length (format_of it)), args, (m, acc ++ text_of it))).
Proof.
  intros Hok Hc. unfold print_step. cbn [fst]. destruct it as [c|v|v]; cbn [format_of args_of text_of app] in *.
  - apply cstr_cons in Hc as (-> & Hc0 & _). destruct Hok as (_ & Hp & _). bind_red.
    destruct (Z.eqb_spec c 0); [lia|]. destruct (Z.eqb_spec c 37); [done|]. done.
  - apply cstr_cons in Hc as (-> & _ & (Ed & _ & _)%cstr_cons). bind_red. cbn [Z.eqb]. change (37 =? 0) with false.
    change (37 =? 37) with true. cbv match. rewrite Ed. bind_red. change (negb (100 =? 0)) with true. cbv match.
    unfold parse_args, str_fuel. rewrite loop_S, Ed. bind_red. cbn [orb Z.eqb Pos.eqb]. bind_red. rewrite Ed. bind_red.
    cbn [convert Z.eqb Pos.eqb orb negb va_32]. bind_red. unfold convert. cbn [Z.eqb Pos.eqb orb negb va_32]. bind_red.
    unfold _printf_i32. unfold item_ok in Hok.
    assert (s32 (u32 v) = v) as ->.
    { unfold s32, u32. rewrite Z.add_mod_idemp_l by lia. rewrite Z.mod_small by lia. lia. }
    destruct (Z.ltb_spec v 0).
    + change (collect 45 (m, acc)) with (Some (m, acc ++ [45])). bind_red. rewrite s32_small, u32_small by lia. rewrite print_u32 by lia. bind_red.
      rewrite <- app_assoc. by replace (p + 1 + 1) with (p + Z.of_nat (length [37; 100])) by (cbn; lia).
    + rewrite u32_small by lia. rewrite print_u32 by lia. bind_red.
      by replace (p + 1 + 1) with (p + Z.of_nat (length [37; 100])) by (cbn; lia).
  - apply cstr_cons in Hc as (-> & _ & (Ed & _ & _)%cstr_cons). bind_red. change (37 =? 0) with false.
    change (37 =? 37) with true. cbv match. rewrite Ed. bind_red. change (negb (117 =? 0)) with true. cbv match.
    unfold parse_args, str_fuel. rewrite loop_S, Ed. bind_red. cbn [orb Z.eqb Pos.eqb]. bind_red. rewrite Ed. bind_red.
    unfold convert. cbn [Z.eqb Pos.eqb orb negb va_32]. bind_red. unfold item_ok in Hok.
    rewrite (u32_small v) by lia. rewrite print_u32 by lia. bind_red.
    by replace (p + 1 + 1) with (p + Z.of_nat (length [37; 117])) by (cbn; lia).
Qed.

Lemma cstr_app m p a b : cstr m p (a ++ b) → cstr m (p + Z.of_nat (length a)) b.
Proof.
  revert p. induction a as [|x a IH]; intros p Hc; cbn [app length] in *; [by rewrite Z.add_0_r|].
  apply cstr_cons in Hc as (_ & _ & Hc). replace (p + Z.of_nat (S (length a))) with (p + 1 + Z.of_nat (length a)) by lia. by apply IH.
Qed.

Lemma print_items items m p acc fuel : Forall item_ok items → cstr m p (concat (map format_of items)) →
  (length items < fuel)%nat →
  loop fuel (λ '(p, args, st), print_step fst collect p args st) (p, concat (map args_of items), (m, acc)) =
  Some (m, acc ++ concat (map text_of items)).
Proof.
  revert p acc fuel. induction items as [|it items IH]; intros p acc fuel Hok Hc Hf; (destruct fuel as [|fuel]; [cbn in Hf; lia|]).
  - apply cstr_nil in Hc. rewrite loop_S. unfold print_step. cbn [fst]. rewrite Hc. bind_red. cbn. by rewrite app_nil_r.
  - apply Forall_cons in Hok as [Hi Hok]. cbn [map concat] in *. rewrite loop_S, (print_item m p it _ acc _ Hi Hc).
    rewrite IH; [by rewrite <- app_assoc|done|by eapply cstr_app|cbn in Hf; lia].
Qed.

Lemma format_length items : (length items <= length (concat (map format_of items)))%nat.
Proof. induction items as [|[] items IH]; cbn [map concat length format_of app]; rewrite ?length_app; cbn [length]; lia. Qed.

Lemma text_items items m p : Forall item_ok items → cstr m p (concat (map format_of items)) →
  text p (concat (map args_of items)) m = Some (concat (map text_of items)).
Proof.
  intros Hok Hc. unfold text, printf_engine, _printf_internal. pose proof (cstr_fuel _ _ _ Hc) as Hf.
  pose proof (format_length items). rewrite print_items by (done || (cbn [fst]; lia)). done.
Qed.
End items.

(** ** Scanning the text again *)

(** What the conversions store, as 32-bit words. *)
Definition number_of (it : item) : list Z := match it with Plain _ => [] | Signed v | Unsigned v => [u32 v] end.

(** After a number comes the end or a character that is no digit. *)
Fixpoint separated (items : list item) : Prop :=
  match items with
  | [] => True
  | Plain _ :: items => separated items
  | _ :: items => separated items ∧ match items with [] => True | Plain c :: _ => isdigit c = 0 | _ => False end
  end.

Lemma digit_char c : 48 <= c < 58 → negb (isdigit c =? 0) = true ∧ isspace c = 0.
Proof.
  intros Hc. assert (forallb (λ c, negb (isdigit c =? 0) && (isspace c =? 0)) (seqZ 48 10) = true) as Hall by done.
  rewrite forallb_forall in Hall. specialize (Hall c). rewrite <- list_elem_of_In, elem_of_seqZ in Hall.
  specialize (Hall ltac:(lia)). by apply andb_true_iff in Hall as [-> Hall%Z.eqb_eq].
Qed.

Lemma show_digits v : Forall (λ c, 48 <= c < 58) (show v).
Proof.
  unfold show. apply Forall_rev, Forall_fmap. eapply Forall_impl; [apply (shown_digits_range 10); lia|]. cbn. lia.
Qed.
Lemma show_cons v : ∃ c l, show v = c :: l ∧ 48 <= c < 58.
Proof.
  pose proof (show_digits v) as Hd. destruct (show v) as [|c l] eqn:E; [|apply Forall_cons in Hd as [? _]; by exists c, l].
  apply (f_equal length) in E. unfold show in E. rewrite length_rev, length_fmap in E.
  unfold shown_digits in E. destruct (Z.eqb_spec v 0); [done|]. cbn [digits] in E. by destruct (Z.eqb_spec v 0).
Qed.

(** The value of digits that are read from the first one on. *)
Definition read_digits (r : Z) (l : list Z) : Z := foldl (λ r c, u32 (u32 (r * 10) + (c - 48))) r l.

Lemma read_digits_mod r l : 
  read_digits (u32 r) l = u32 (foldl (λ r c, r * 10 + (c - 48)) r l).
Proof.
  revert r. induction l as [|c l IH]; intros r; [done|]. cbn [read_digits foldl] in *. unfold read_digits in IH. rewrite <- IH.
  f_equal. unfold u32. rewrite Z.mul_mod_idemp_l, Z.add_mod_idemp_l by lia. done.
Qed.

Lemma read_show v : 0 <= v < 2 ^ 32 → read_digits 0 (show v) = v.
Proof.
  intros Hv. change 0 with (u32 0) at 1. rewrite read_digits_mod. rewrite <- (u32_small v) at 2 by lia. f_equal.
  transitivity (digits_value 10 (shown_digits 10 v)); [|apply shown_digits_value; lia].
  unfold show. generalize (shown_digits 10 v) as ds. intros ds.
  induction ds as [|d ds IH]; [done|]. rewrite fmap_cons. cbn [rev]. rewrite foldl_snoc, IH. unfold digits_value. cbn [foldr]. lia.
Qed.

(** Four bytes of a number are those of its word. *)
Lemma store_u32 m q w : store m q 4 w = store m q 4 (u32 w).
Proof.
  cbn [store]. unfold u32.
  assert (∀ k, 0 <= k < 4 → w / 256 ^ k mod 256 = (w mod 2 ^ 32) / 256 ^ k mod 256) as E.
  { intros k Hk. rewrite <- !(Z.pow_mul_r 2 8) by lia. change 256 with (2 ^ 8). apply Z.bits_inj'. intros j Hj.
    destruct (decide (j < 8)); [|rewrite !Z.mod_pow2_bits_high by lia; done].
    rewrite !Z.mod_pow2_bits_low, !Z.div_pow2_bits by lia. rewrite Z.mod_pow2_bits_low by lia. done. }
  pose proof (E 0 ltac:(lia)) as E0. pose proof (E 1 ltac:(lia)) as E1. pose proof (E 2 ltac:(lia)) as E2. pose proof (E 3 ltac:(lia)) as E3.
  change (256 ^ 0) with 1 in E0. rewrite !Z.div_1_r in E0. change (256 ^ 1) with 256 in E1.
  rewrite !Z.div_div by lia. change (256 * 256) with (256 ^ 2). change (256 * 256 ^ 2) with (256 ^ 3) in *. 
  change (256 ^ 2 * 256) with (256 ^ 3). by rewrite E0, E1, E2, E3.
Qed.

Section scanned.
Context `{Platform}.
Abbreviation lookupch := lookup_callback_buffer.
Abbreviation getch := getch_callback_buffer.

Lemma look_at m b c rest : 0 < b → cstr m b (c :: rest) →
  lookupch m b = Some c ∧ getch m b = Some (c, b + 1) ∧ cstr m (b + 1) rest.
Proof.
  intros Hb Hc. apply cstr_cons in Hc as (Ec & _ & Hc). unfold lookupch, getch.
  destruct (Z.eqb_spec b 0); [lia|]. rewrite Ec. done.
Qed.
Lemma look_end m b : 0 < b → cstr m b [] → lookupch m b = Some 0.
Proof. intros Hb Hc%cstr_nil. unfold lookupch. by destruct (Z.eqb_spec b 0); [lia|]. Qed.

(** What follows a number is no digit. *)
Definition stops (l : list Z) : Prop := match l with [] => True | c :: _ => isdigit c = 0 end.

Lemma scan_digits m l : ∀ rest b res read fuel, 0 < b → cstr m b (l ++ rest) → Forall (λ c, 48 <= c < 58) l → stops rest →
  (length l < fuel)%nat →
  loop fuel (λ '(res, read, st),
    c ← lookupch m st;
    if negb (isdigit c =? 0) then
      '(ch, st) ← getch m st; Some (inl (u32 (u32 (res * 10) + (ch - 48)), read + 1, st))
    else Some (inr (res, read, st))) (res, read, b)
  = Some (read_digits res l, read + Z.of_nat (length l), b + Z.of_nat (length l)).
Proof.
  induction l as [|c l IH]; intros rest b res read fuel Hb Hc Hl Hs Hf; (destruct fuel as [|fuel]; [cbn in Hf; lia|]); rewrite loop_S.
  - assert (∃ c, lookupch m b = Some c ∧ isdigit c = 0) as (c & Ec & Ez).
    { destruct rest as [|c rest]; [exists 0; split; [by apply look_end|done]|].
      exists c. split; [by apply (look_at m b c rest)|done]. }
    rewrite Ec. bind_red. rewrite Ez. change (negb (0 =? 0)) with false. cbn. by rewrite !Z.add_0_r.
  - apply Forall_cons in Hl as [Hd Hl]. destruct (look_at m b c (l ++ rest) Hb Hc) as (-> & Eg & Hc').
    bind_red. destruct (digit_char c Hd) as [Ed _]. rewrite Ed, Eg. bind_red.
    rewrite (IH rest) by (done || lia || (cbn in Hf; lia)). cbn [length read_digits foldl]. do 2 f_equal; [f_equal|]; lia.
Qed.

Lemma scan_u32 m b v rest : 0 < b → cstr m b (show v ++ rest) → stops rest → 0 <= v < 2 ^ 32 →
  _scanf_u32 lookupch getch m b = Some (v, Z.of_nat (length (show v)), b + Z.of_nat (length (show v))).
Proof.
  intros Hb Hc Hs Hv. unfold _scanf_u32. pose proof (cstr_fuel _ _ _ Hc) as Hf. rewrite length_app in Hf.
  rewrite (scan_digits m (show v) rest) by (done || lia || apply show_digits). by rewrite read_show.
Qed.

Lemma scan_i32 m b v rest : 0 < b → cstr m b (text_of (Signed v) ++ rest) → stops rest → - 2 ^ 31 < v < 2 ^ 31 →
  _scanf_i32 lookupch getch m b =
  Some (Some v, Z.of_nat (length (text_of (Signed v))), b + Z.of_nat (length (text_of (Signed v)))).
Proof.
  intros Hb Hc Hs Hv. cbn [text_of] in *. unfold _scanf_i32.
  assert (∀ w, ∃ c l, show w = c :: l ∧ c ≠ 45 ∧ Z.of_nat (length (show w)) ≠ 0) as Hshow.
  { intros w. destruct (show_cons w) as (c & l & E & ?). exists c, l. rewrite E. cbn [length]. split; [done|]. lia. }
  destruct (Z.ltb_spec v 0).
  - cbn [app] in Hc. destruct (look_at m b 45 _ Hb Hc) as (-> & Eg & Hc'). bind_red. change (45 =? 45) with true. cbv match.
    rewrite Eg. bind_red. rewrite (scan_u32 m (b + 1) (- v) rest) by (done || lia). bind_red.
    destruct (Hshow (- v)) as (c & l & _ & _ & Hne). destruct (Z.eqb_spec (Z.of_nat (length (show (- v)))) 0); [done|].
    rewrite (s32_small (- v)), s32_small by lia. cbn [length]. do 2 f_equal; [f_equal; [f_equal; lia|lia]|lia].
  - destruct (Hshow v) as (c & l & E & Hc45 & Hne). pose proof Hc as Hc2. rewrite E in Hc2. cbn [app] in Hc2.
    destruct (look_at m b c _ Hb Hc2) as (-> & _ & _). bind_red. destruct (Z.eqb_spec c 45); [done|]. bind_red.
    rewrite (scan_u32 m b v rest) by (done || lia). bind_red.
    destruct (Z.eqb_spec (Z.of_nat (length (show v))) 0); [done|]. rewrite s32_small by lia. done.
Qed.

Lemma skip_none m passed b c rest : 0 < b → cstr m b (c :: rest) → isspace c = 0 →
  skip_input lookupch getch m passed b = Some (passed, b).
Proof.
  intros Hb Hc Hs. destruct (look_at m b c rest Hb Hc) as (E & _ & _). unfold skip_input, str_fuel. rewrite loop_S, E. bind_red. by rewrite Hs.
Qed.
Lemma skip_format_none m p c rest : cstr m p (c :: rest) → isspace c = 0 → skip_format m p = Some p.
Proof. intros (E & _ & _)%cstr_cons Hs. unfold skip_format, str_fuel. rewrite loop_S, E. bind_red. by rewrite Hs. Qed.

(** A plain character is matched. *)
Lemma scan_plain m p b c rest rest' passed args : 0 < b → item_ok (Plain c) →
  cstr m p (c :: rest) → cstr m b (c :: rest') →
  scan_step lookupch getch p passed args m b = Some (inl (p + 1, passed + 1, args, m, b + 1)).
Proof.
  intros Hb (Hc & Hp & Hs) Hf Ht. pose proof Hf as (E & _ & _)%cstr_cons. unfold scan_step. rewrite E. bind_red.
  destruct (Z.eqb_spec c 0); [lia|]. rewrite (skip_format_none m p c rest) by done. bind_red. rewrite E. bind_red.
  destruct (Z.eqb_spec c 37); [done|]. bind_red. change (negb (0 =? 0)) with false. cbv match.
  rewrite (skip_none m passed b c rest') by done. bind_red.
  destruct (look_at m b c rest' Hb Ht) as (-> & -> & _). bind_red. by rewrite Z.eqb_refl.
Qed.

(** A conversion stores its number. *)
Lemma scan_number m p b q it rest rest' passed args v : 0 < b → item_ok it → number_of it = [v] → 0 <= q < 2 ^ ptr_bits →
  cstr m p (format_of it ++ rest) → cstr m b (text_of it ++ rest') → stops rest' →
  scan_step lookupch getch p passed (AWord q :: args) m b =
  (m' ← store m q 4 v; 
   Some (inl (p + 2, passed + Z.of_nat (length (text_of it)), args, m', b + Z.of_nat (length (text_of it))))).
Proof.
  intros Hb Hok Hv Hq Hf Ht Hs. unfold scan_step.
  assert (∃ k, format_of it = [37; k] ∧ (k = 100 ∨ k = 117)) as (k & Ek & Hk) by (destruct it; [done|eauto|eauto]).
  rewrite Ek in Hf. cbn [app] in Hf. pose proof Hf as (E & _ & (E2 & _ & _)%cstr_cons)%cstr_cons. rewrite E. bind_red.
  change (37 =? 0) with false. cbv match. rewrite (skip_format_none m p 37 (k :: rest)) by done. bind_red. rewrite E. bind_red.
  change (37 =? 37) with true. cbv match. rewrite E2. bind_red.
  replace (negb (k =? 0)) with true by (destruct (Z.eqb_spec k 0); [lia|done]). cbv match.
  assert (scan_prefixes m p = Some (p + 1, 0)) as ->.
  { unfold scan_prefixes, str_fuel. rewrite loop_S, E2. bind_red. by destruct Hk as [-> | ->]. }
  bind_red.
  assert (∃ c l, text_of it = c :: l ∧ isspace c = 0) as (c & l & Ec & Hcs).
  { destruct it as [|w|w]; [done| |]; cbn [text_of].
    - destruct (w <? 0); [by exists 45, (show (- w))|]. destruct (show_cons w) as (c & l & -> & Hc). exists c, l. by split; [|apply digit_char].
    - destruct (show_cons w) as (c & l & -> & Hc). exists c, l. by split; [|apply digit_char]. }
  rewrite (skip_none m passed b c (l ++ rest')) by (done || (rewrite Ec in Ht; done)). bind_red. rewrite E2. bind_red.
  unfold scan_convert. destruct it as [|w|w]; [done| |]; injection Ek as <-; injection Hv as <-; unfold item_ok in Hok.
  - change ((100 =? 105) || (100 =? 100)) with true. change (0 =? 0) with true. cbv match. cbn [va_word]. bind_red.
    rewrite usize_small by lia. rewrite (scan_i32 m b w rest') by done. bind_red.
    assert (store m q 4 w = store m q 4 (u32 w)) as -> by apply store_u32.
    destruct (store m q 4 (u32 w)); [|done]. bind_red. by replace (p + 1 + 1) with (p + 2) by lia.
  - change ((117 =? 105) || (117 =? 100)) with false. change (117 =? 117) with true. change (0 =? 0) with true. cbv match. cbn [va_word]. bind_red.
    rewrite usize_small by lia. cbn [text_of] in Ht |- *. rewrite (scan_u32 m b w rest') by (done || lia). bind_red.
    rewrite u32_small by lia. destruct (store m q 4 w); [|done]. bind_red. by replace (p + 1 + 1) with (p + 2) by lia.
Qed.
End scanned.

(** *** All items *)

Abbreviation formats items := (concat (map format_of items)).
Abbreviation texts items := (concat (map text_of items)).
Abbreviation numbers items := (concat (map number_of items)).

(** The four bytes at [q] do not meet [a .. a + k). *)
Definition far (q a k : Z) : Prop := q + 4 <= a ∨ a + k <= q.
(** No two of the cells meet. *)
Fixpoint spread (qs : list Z) : Prop :=
  match qs with [] => True | q :: qs => Forall (λ q', far q' q 4) qs ∧ spread qs end.

Lemma cstr_same m m' a l : cstr m a l → (∀ x, a <= x < a + (Z.of_nat (length l) + 1) → m' !! x = m !! x) → cstr m' a l.
Proof.
  intros [Hb Hl] Hx. split; [|done]. intros i Hi. rewrite Hx; [by apply Hb|]. rewrite length_app in Hi. cbn in Hi. lia.
Qed.

Lemma texts_bytes items : Forall item_ok items → Forall (λ b, 0 < b < 256) (texts items).
Proof.
  intros Hok. apply Forall_concat, Forall_fmap. eapply Forall_impl; [exact Hok|].
  assert (∀ v, Forall (λ b, 0 < b < 256) (show v)) as Hs.
  { intros v. eapply Forall_impl; [apply show_digits|]. cbn. lia. }
  intros [c|v|v] Hi; cbn; [by repeat constructor; apply Hi| |done]. destruct (v <? 0); [|done]. constructor; [lia|done].
Qed.

Lemma separated_stops it items : separated (it :: items) → number_of it ≠ [] → stops (texts items).
Proof. destruct it as [c|v|v]; [done|..]; intros [_ Hs] _; by destruct items as [|[] items]. Qed.

Section scan_items.
Context `{Platform}.

Definition cell_ok (m : mem) (p b : Z) (items : list item) (q : Z) : Prop :=
  0 <= q < 2 ^ ptr_bits ∧ mapped m q 4 ∧ far q p (Z.of_nat (length (formats items)) + 1) ∧
  far q b (Z.of_nat (length (texts items)) + 1).

Lemma cell_ok_next m p b it items q : cell_ok m p b (it :: items) q →
  cell_ok m (p + Z.of_nat (length (format_of it))) (b + Z.of_nat (length (text_of it))) items q.
Proof.
  intros (Hq & Hm & Hf & Ht). split; [done|]. split; [done|]. unfold far in *. cbn [map concat] in *.
  rewrite !length_app in *. lia.
Qed.

Lemma scan_items items : ∀ m p b qs passed fuel, 0 < b → Forall item_ok items → separated items →
  cstr m p (formats items) → cstr m b (texts items) → length qs = length (numbers items) →
  Forall (cell_ok m p b items) qs → spread qs → (length items < fuel)%nat →
  ∃ m', loop fuel (λ '(p, passed, args, m, st),
      scan_step lookup_callback_buffer getch_callback_buffer p passed args m st) (p, passed, map AWord qs, m, b) =
      Some (passed + Z.of_nat (length (texts items)), m') ∧
    (∀ x, Forall (λ q, ¬ (q <= x < q + 4)) qs → m' !! x = m !! x) ∧
    Forall2 (λ q v, load m' q 4 = Some v) qs (numbers items).
Proof.
  induction items as [|it items IH]; intros m p b qs passed fuel Hb Hok Hsep Hf Ht Hl Hqs Hsp Hfu;
    (destruct fuel as [|fuel]; [cbn in Hfu; lia|]); rewrite loop_S.
  { destruct qs; [|done]. apply cstr_nil in Hf. unfold scan_step. rewrite Hf. bind_red. exists m.
    cbn. rewrite Z.add_0_r. by repeat split. }
  apply Forall_cons in Hok as [Hi Hok]. cbn [map concat] in *.
  assert (Forall (cell_ok m (p + Z.of_nat (length (format_of it))) (b + Z.of_nat (length (text_of it))) items) qs) as Hqs'.
  { eapply Forall_impl; [exact Hqs|]. intros q. apply cell_ok_next. }
  pose proof (cstr_app _ _ _ _ Hf) as Hf'. pose proof (cstr_app _ _ _ _ Ht) as Ht'. rewrite length_app.
  destruct (number_of it) as [|v [|]] eqn:Ev; [| |by destruct it].
  - destruct it as [c|v|v]; [|done..]. cbn [format_of text_of app length] in *. rewrite (scan_plain m p b c (formats items) (texts items)) by done.
    destruct (IH m (p + 1) (b + 1) qs (passed + 1) fuel) as (m' & -> & Hrest); try done; [lia|cbn in Hfu; lia|].
    exists m'. split; [do 2 f_equal; lia|done].
  - destruct qs as [|q qs]; [done|]. cbn [map length] in *. apply Forall_cons in Hqs as [(Hq & Hm & Hfar) Hqs].
    destruct Hsp as [Hqq Hsp]. apply Forall_cons in Hqs' as [(_ & _ & Hf1 & Ht1) Hqs'].
    assert (0 <= v < 256 ^ Z.of_nat 4) as Hv.
    { change (256 ^ Z.of_nat 4) with (2 ^ 32). destruct it; [done|..]; injection Ev as <-; apply u32_range. }
    rewrite (scan_number m p b q it (formats items) (texts items) passed (map AWord qs) v)
      by (done || by apply (separated_stops it items); [|rewrite Ev]).
    destruct (store_filled 4 m q v Hm) as (m1 & Es & Hfill). rewrite Es. bind_red.
    replace (p + 2) with (p + Z.of_nat (length (format_of it))) by (destruct it; done || (cbn; lia)).
    destruct (IH m1 (p + Z.of_nat (length (format_of it))) (b + Z.of_nat (length (text_of it))) qs
      (passed + Z.of_nat (length (text_of it))) fuel) as (m' & -> & Hsame & Hload).
    + lia.
    + done.
    + destruct it; [done|..]; apply Hsep.
    + apply (cstr_same m); [done|]. intros x Hx. rewrite Hfill, decide_False; [done|]. unfold far in Hf1. lia.
    + apply (cstr_same m); [done|]. intros x Hx. rewrite Hfill, decide_False; [done|]. unfold far in Ht1. lia.
    + cbn [app length] in Hl. lia.
    + eapply Forall_impl; [exact Hqs'|]. intros q' (? & Hm' & ? & ?). split; [done|]. split; [|done].
      eapply mapped_filled; [exact Hfill|eauto|exact Hm'].
    + done.
    + cbn in Hfu. lia.
    + exists m'. split; [do 2 f_equal; lia|]. split.
      * intros x [Hxq Hx]%Forall_cons. rewrite Hsame by done. rewrite Hfill, decide_False; [done|lia].
      * cbn [app]. constructor; [|done].
        rewrite <- (load_store_same 4 m q v m1 Hv Hm Es). apply load_ext. intros x Hx. apply Hsame.
        eapply Forall_impl; [exact Hqq|]. unfold far. lia.
Qed.
End scan_items.

(** ** Properties *)

Section properties.
Context `{Platform}.

(** C34. [vsnprintf] writes the text of the format and its arguments, cut off after
    [n - 1] characters, and a NUL behind it, and it writes nothing but the buffer's
    [n] bytes. The text depends neither on the buffer nor on its size; the format
    and the strings among the arguments must not lie in the buffer. The answer is
    the number of characters that were stored before the last one gave way to the
    NUL, and not the length of the text. *)
Theorem vsnprintf_truncates s n format args m t : s ≠ 0 → 0 < n < 2 ^ 31 → mapped m s n →
  text format args (without m s n) = Some t →
  ∃ m', vsnprintf s n format args m = Some (Z.min n (Z.of_nat (length t)), m') ∧
    (∀ x, ¬ (s <= x < s + n) → m' !! x = m !! x) ∧
    bytes_at m' s (take (Z.to_nat (n - 1)) t ++ [0]).
Proof. intros Hs [Hn Hn31] Hm Ht. by apply vsnprintf_spec. Qed.

(** C30. What is printed is scanned again. For a format of plain characters, [%d]
    and [%u] in which every number is followed by a character that is no digit or
    by the end, [vsnprintf] prints a text that [vsscanf] with the same format reads
    to its end, and it stores exactly the numbers that were printed. *)
Theorem printf_scanf_roundtrip items s n format qs m :
  Forall item_ok items → separated items → 0 < s → 0 < n < 2 ^ 31 → mapped m s n →
  Z.of_nat (length (texts items)) < n → cstr (without m s n) format (formats items) →
  length qs = length (numbers items) → spread qs →
  Forall (λ q, 0 <= q < 2 ^ ptr_bits ∧ mapped m q 4 ∧ far q format (Z.of_nat (length (formats items)) + 1) ∧ far q s n) qs →
  ∃ m1 m2, vsnprintf s n format (concat (map args_of items)) m = Some (Z.of_nat (length (texts items)), m1) ∧
    cstr m1 s (texts items) ∧
    vsscanf s format (map AWord qs) m1 = Some (Z.of_nat (length (texts items)), m2) ∧
    Forall2 (λ q v, load m2 q 4 = Some v) qs (numbers items).
Proof.
  intros Hok Hsep Hs [Hn Hn31] Hm Hlen Hf Hl Hsp Hqs.
  destruct (vsnprintf_spec s n m Hn Hm format (concat (map args_of items)) (texts items)) as (m1 & E1 & Hsame & Hbytes);
    [lia|done|by apply text_items|].
  rewrite Z.min_r in E1 by lia. rewrite take_ge in Hbytes by lia.
  assert (cstr m1 s (texts items)) as Ht1 by (split; [done|by apply texts_bytes]).
  assert (cstr m1 format (formats items)) as Hf1.
  { destruct Hf as [Hf Hfb]. split; [|done]. intros i Hi. specialize (Hf i Hi). rewrite lookup_without in Hf.
    rewrite <- Hf. case_decide as Hd; [|by apply Hsame].
    destruct (zget_is_Some (formats items ++ [0]) i) as [b Hb]; [lia|]. congruence. }
  pose proof (cstr_fuel _ _ _ Hf1) as Hfu. pose proof (format_length items).
  destruct (scan_items items m1 format s qs 0 (str_fuel m1)) as (m2 & E2 & _ & Hload); try done; [|lia|].
  { eapply Forall_impl; [exact Hqs|]. intros q (Hq & Hmq & Hfq & Hsq). unfold far in *. split; [done|]. split; [|unfold far; lia].
    intros x Hx. rewrite Hsame by lia. by apply Hmq. }
  exists m1, m2. split; [done|]. split; [done|]. split; [exact E2|done].
Qed.
End properties.

(** ** Examples *)

#[local] Existing Instance x86.

Definition put_bytes_at (a : Z) (l : list Z) : mem := list_to_map (zip (seqZ a (Z.of_nat (length l))) l).
(** A format of seven characters at 100, a buffer at 200 and two cells at 300. *)
Definition io_mem (format : list Z) : mem :=
  put_bytes_at 100 (format ++ [0]) ∪ put_bytes_at 200 (replicate 32 1) ∪ put_bytes_at 300 (replicate 8 1).
Definition io_items : list item := [Plain 97; Signed (-42); Plain 44; Unsigned 4000000000].
Definition io_format : list Z := [97; 37; 100; 44; 37; 117].

Lemma io_mapped a n : 0 <= n → forallb (λ x, bool_decide (is_Some (io_mem io_format !! x))) (seqZ a n) = true → mapped (io_mem io_format) a n.
Proof.
  intros Hn Hall x Hx. rewrite forallb_forall in Hall. specialize (Hall x).
  rewrite <- list_elem_of_In, elem_of_seqZ in Hall. apply (bool_decide_eq_true_1 _). apply Hall. lia.
Qed.

Lemma printf_scanf_roundtrip_witness :
  ∃ m1 m2, vsnprintf 200 32 100 [A32 (-42); A32 4000000000] (io_mem io_format) = Some (15, m1) ∧
    cstr m1 200 [97; 45; 52; 50; 44; 52; 48; 48; 48; 48; 48; 48; 48; 48; 48] ∧
    vsscanf 200 100 [AWord 300; AWord 304] m1 = Some (15, m2) ∧
    Forall2 (λ q v, load m2 q 4 = Some v) [300; 304] [4294967254; 4000000000].
Proof.
  apply (printf_scanf_roundtrip io_items 200 32 100 [300; 304] (io_mem io_format)); try done.
  - repeat constructor; done.
  - apply io_mapped; [done|vm_compute; reflexivity].
  - split; [|repeat constructor; done]. intros i Hi.
    assert (∀ k, (k < 7)%nat → without (io_mem io_format) 200 32 !! (100 + Z.of_nat k) = (formats io_items ++ [0]).[Z.of_nat k]) as Hall.
    { intros k Hk. do 7 (destruct k as [|k]; [vm_compute; reflexivity|]). lia. }
    assert (Z.of_nat (length (formats io_items ++ [0])) = 7) as El by done. rewrite El in Hi.
    specialize (Hall (Z.to_nat i)). rewrite Z2Nat.id in Hall by lia. apply Hall. lia.
  - split; [|by split; [constructor|]]. constructor; [unfold far; lia|constructor].
  - assert (∀ q, q = 300 ∨ q = 304 → 0 <= q < 2 ^ ptr_bits ∧ mapped (io_mem io_format) q 4 ∧
      far q 100 (Z.of_nat (length (formats io_items)) + 1) ∧ far q 200 32) as Hall.
    { assert (Z.of_nat (length (formats io_items)) = 6) as -> by done. assert (2 ^ ptr_bits = 2 ^ 32) as -> by done.
      intros q Hq. split; [lia|]. split; [|unfold far; lia].
      destruct Hq as [-> | ->]; apply io_mapped; (done || (vm_compute; reflexivity)). }
    constructor; [by apply Hall; left|]. constructor; [by apply Hall; right|constructor].
Defined.

(** Eight bytes of room. *)
Lemma vsnprintf_truncates_witness :
  ∃ m', vsnprintf 200 8 100 [A32 (-42); A32 4000000000] (io_mem io_format) = Some (8, m') ∧
    (∀ x, ¬ (200 <= x < 200 + 8) → m' !! x = io_mem io_format !! x) ∧
    bytes_at m' 200 ([97; 45; 52; 50; 44; 52; 48] ++ [0]).
Proof.
  apply (vsnprintf_truncates 200 8 100 [A32 (-42); A32 4000000000] (io_mem io_format)
    [97; 45; 52; 50; 44; 52; 48; 48; 48; 48; 48; 48; 48; 48; 48]); [done|done| |vm_compute; reflexivity].
  apply io_mapped; [done|vm_compute; reflexivity].
Defined.

Definition printed_text (format : list Z) (args : list varg) : option (list Z) := text 100 args (io_mem format).

Example prints_hex : printed_text [37; 120; 32; 37; 88] [A32 255; A32 (-1)] =
  Some [48; 120; 102; 102; 32; 48; 120; 70; 70; 70; 70; 70; 70; 70; 70].
Proof. vm_compute. reflexivity. Qed.

(** A width is taken for an unknown conversion, and the [d] behind it is printed. *)
Example width_not_read : printed_text [37; 53; 100] [A32 7] = Some [100].
Proof. vm_compute. reflexivity. Qed.
(** [%lu] takes a [uint64_t], which an [unsigned long] of 32 bits is not, and of
    the [uint64_t] of [%llu] only the lower half is printed. *)
Example lu_takes_64 : printed_text [37; 108; 117] [AWord 5] = None.
Proof. vm_compute. reflexivity. Qed.
Example llu_prints_half : printed_text [37; 108; 108; 117] [A64 (2 ^ 32 + 5)] = Some [53].
Proof. vm_compute. reflexivity. Qed.
(** [%zd] takes an [int], also where [ssize_t] has 64 bits. *)
Example zd_takes_int : text (H := x86_64) 100 [A64 5] (io_mem [37; 122; 100]) = None.
Proof. vm_compute. reflexivity. Qed.

(** The word of [%s] goes on behind the end of the input; a blank at the end of the
    format is skipped together with the NUL behind it. *)
Example scan_word_overruns : vsscanf 100 110 [AWord 300] (put_bytes_at 100 [97; 98; 0] ∪ put_bytes_at 110 [37; 115; 0] ∪ put_bytes_at 300 (replicate 8 1)) = None.
Proof. vm_compute. reflexivity. Qed.
Example trailing_blank_overruns : vsscanf 100 110 [AWord 300] (put_bytes_at 100 [53; 0] ∪ put_bytes_at 110 [37; 100; 32; 0] ∪ put_bytes_at 300 (replicate 8 1)) = None.
Proof. vm_compute. reflexivity. Qed.
