(* ===== verification/Bitmap.v ===== *)
(** * Bitmap: the allocation bitmaps of [kernel/algo/bitmap.c]

    The C struct is passed by value and its [data] pointer shared: operations
    that write take the struct and give it back with the new bytes behind the
    pointer. [data = None] is the null pointer. [None] as a result is an access
    outside the bytes, or a loop that does not end. *)
From S2P Require Import Prelude.

Definition BITMAP_BLOCKS_PER_BYTE : Z := 8.

Record bitmap_t := mk_bitmap_t { data : option (list Z); len : Z }.

Definition bitmap_wrap (d : option (list Z)) (l : Z) : bitmap_t :=
  {| data := d; len := l |}.

Definition with_data (bm : bitmap_t) (d : list Z) : bitmap_t :=
  {| data := Some d; len := len bm |}.

(** The macro [bitmap_get(bitmap, where)] at its only use, where [where] is the text
    [a + i]. It has no parentheses around [where], so the byte is
    [data[a + i / 8]] and the shift [a + i % 8]; the byte is an [int] by then,
    and a shift by 32 or more is undefined. *)
Definition bitmap_get `{Target} (d : list Z) (a i : Z) : option Z :=
  b ← d.[usize (a + i / BITMAP_BLOCKS_PER_BYTE)];
  let n := usize (a + i mod BITMAP_BLOCKS_PER_BYTE) in
  if n <? 32 then Some (Z.land (Z.shiftr b n) 1) else None.

(** [bitmap32[k]]: the bytes seen as an array of little-endian words. *)
Definition bitmap32_get (d : list Z) (k : Z) : option Z :=
  b0 ← d.[4 * k]; b1 ← d.[4 * k + 1]; b2 ← d.[4 * k + 2]; b3 ← d.[4 * k + 3];
  Some (Z.lor b0 (Z.lor (Z.shiftl b1 8) (Z.lor (Z.shiftl b2 16) (Z.shiftl b3 24)))).

(** [__builtin_ctz]; undefined on 0. *)
Fixpoint pos_ctz (p : positive) : Z :=
  match p with xO p => 1 + pos_ctz p | _ => 0 end.
Definition ctz32 (v : Z) : option Z :=
  match v with Zpos p => Some (pos_ctz p) | _ => None end.

Section bitmap.
Context `{Target}.

(** One turn of [while (viewed_bits < 32)]. It leaves with [inl] at the end of
    the bucket and with [inr] when the function returns. *)
Definition next_range_in_bucket (bucket_index min_len : Z) (s : Z * Z * Z * Z)
  : option ((Z * Z * Z * Z) + ((Z * Z) + (Z * Z))) :=
  let '(bucket, viewed_bits, free_chunks, start) := s in
  if negb (viewed_bits <? 32) then Some (inr (inl (free_chunks, start)))
  else
    let start := if free_chunks =? 0 then s32 (usize (bucket_index * 32 + viewed_bits))
                 else start in
    if bucket =? 0 then
      Some (inl (bucket, 32, usize (free_chunks + (32 - viewed_bits)), start))
    else
      trailing_zeroes ← ctz32 bucket;
      let bucket := Z.shiftr bucket trailing_zeroes in
      let free_chunks := usize (free_chunks + trailing_zeroes) in
      let viewed_bits := s32 (viewed_bits + trailing_zeroes) in
      if min_len <=? free_chunks then Some (inr (inr (s32 free_chunks, start)))
      else
        trailing_ones ← ctz32 (u32 (Z.lnot bucket));
        let bucket := Z.shiftr bucket trailing_ones in
        Some (inl (bucket, s32 (viewed_bits + trailing_ones), 0, start)).

(** One turn of the loop over the 32-bit buckets. *)
Definition next_range_bucket (d : list Z) (min_len bucket_index : Z) (s : Z * Z * Z)
  : option ((Z * Z * Z) + (Z * Z)) :=
  let '(free_chunks, start, start_bucket_bit) := s in
  bucket ← bitmap32_get d bucket_index;
  if bucket =? 0xffffffff then
    if min_len <=? free_chunks then Some (inr (s32 free_chunks, start))
    else Some (inl (0, start, 0))
  else if bucket =? 0x0 then
    let start := if free_chunks =? 0 then s32 (usize (bucket_index * 32)) else start in
    let free_chunks := usize (free_chunks + 32) in
    if min_len <=? free_chunks then Some (inr (s32 free_chunks, start))
    else Some (inl (free_chunks, start, 0))
  else
    r ← loop 33 (next_range_in_bucket bucket_index min_len)
          (Z.shiftr bucket start_bucket_bit, start_bucket_bit, free_chunks, start);
    match r with
    | inl (free_chunks, start) => Some (inl (free_chunks, start, 0))
    | inr ret => Some (inr ret)
    end.

(** One turn of the loop over the bits after the last whole bucket. *)
Definition next_range_trailing (d : list Z) (min_len first_trailing_bit i : Z) (s : Z * Z)
  : option ((Z * Z) + (Z * Z)) :=
  let '(free_chunks, start) := s in
  b ← bitmap_get d first_trailing_bit i;
  if b =? 0 then
    let start := if free_chunks =? 0 then s32 (usize (first_trailing_bit + i)) else start in
    let free_chunks := usize (free_chunks + 1) in
    if min_len <=? free_chunks then Some (inr (s32 free_chunks, start))
    else Some (inl (free_chunks, start))
  else Some (inl (0, start)).

(** Returns the return value and [*start_of_free_chunks]. *)
Definition bitmap_next_range_of_unset_bits (bm : bitmap_t) (from min_len start : Z)
  : option (Z * Z) :=
  d ← data bm;
  let start_bucket_index := usize (Z.quot from 32) in
  let start_bucket_bit := Z.rem from 32 in
  r ← for_loop (Z.to_nat (len bm / 32 - start_bucket_index)) start_bucket_index
        (next_range_bucket d min_len) (0, start, start_bucket_bit);
  match r with
  | inr ret => Some ret
  | inl (free_chunks, start, _) =>
      if free_chunks <? min_len then
        let first_trailing_bit := (len bm / 32) * 32 in
        let trailing_bits := len bm mod 32 in
        r ← for_loop (Z.to_nat trailing_bits) 0
              (next_range_trailing d min_len first_trailing_bit) (free_chunks, start);
        match r with
        | inr ret => Some ret
        | inl (_, start) => Some (-1, start)
        end
      else Some (s32 free_chunks, start)
  end.

Definition bitmap_find_space (bm : bitmap_t) (req : Z) : option Z :=
  match data bm with
  | None => Some (- EINVAL)
  | Some _ =>
      '(l, start) ← bitmap_next_range_of_unset_bits bm 0 (usize req) 0;
      if l <? 0 then Some (- ENODATA) else Some start
  end.

(** One turn of the loop over the bits of byte [i]. *)
Definition find_aligned_bit (byte i req alignment j : Z) (s : Z * Z)
  : option ((Z * Z) + Z) :=
  let '(taken, start) := s in
  if negb (Z.land (Z.shiftr byte j) 1 =? 0) then Some (inl (0, start))
  else
    let start := if taken =? 0 then s32 (i * BITMAP_BLOCKS_PER_BYTE + j) else start in
    if alignment =? 0 then None else
    let taken := if Z.rem start alignment =? 0 then s32 (taken + 1) else taken in
    if taken =? req then Some (inr start) else Some (inl (taken, start)).

Definition find_aligned_byte (d : list Z) (req alignment i : Z) (s : Z * Z)
  : option ((Z * Z) + Z) :=
  let '(taken, start) := s in
  byte ← d.[i];
  if byte =? 0xff then Some (inl (0, start))
  else for_loop 8 0 (find_aligned_bit byte i req alignment) (taken, start).

Definition bitmap_find_space_aligned (bm : bitmap_t) (req alignment : Z) : option Z :=
  match data bm with
  | None => Some (- EINVAL)
  | Some d =>
      r ← for_loop (Z.to_nat (len bm / 8)) 0 (find_aligned_byte d req alignment) (0, 0);
      match r with
      | inr start => Some start
      | inl _ => Some (- ENODATA)
      end
  end.

Definition bitmap_set (bm : bitmap_t) (wh : Z) : option (Z * bitmap_t) :=
  match data bm with
  | None => Some (- EINVAL, bm)
  | Some d =>
      if len bm <=? usize wh then Some (- EFAULT, bm) else
      let block := Z.quot wh BITMAP_BLOCKS_PER_BYTE in
      let offset := Z.rem wh BITMAP_BLOCKS_PER_BYTE in
      b ← d.[block];
      d' ← d.[block <- u8 (Z.lor b (Z.shiftl 1 offset))];
      Some (0, with_data bm d')
  end.

Definition bitmap_unset (bm : bitmap_t) (wh : Z) : option (Z * bitmap_t) :=
  match data bm with
  | None => Some (- EINVAL, bm)
  | Some d =>
      if len bm <=? usize wh then Some (- EFAULT, bm) else
      let block := Z.quot wh BITMAP_BLOCKS_PER_BYTE in
      let offset := Z.rem wh BITMAP_BLOCKS_PER_BYTE in
      b ← d.[block];
      d' ← d.[block <- u8 (Z.land b (Z.lnot (Z.shiftl 1 offset)))];
      Some (0, with_data bm d')
  end.

(** The three loops of [bitmap_set_range] and [bitmap_unset_range], with the
    single-bit operation and the byte they store; the loop state is [where],
    [len] and the bitmap. *)
Definition range_head (op : bitmap_t → Z → option (Z * bitmap_t)) (s : Z * Z * bitmap_t)
  : option ((Z * Z * bitmap_t) + (Z * Z * bitmap_t)) :=
  let '(wh, l, bm) := s in
  if negb (l =? 0) && negb (Z.rem wh BITMAP_BLOCKS_PER_BYTE =? 0) then
    '(_, bm) ← op bm wh; Some (inl (s32 (wh + 1), s32 (l - 1), bm))
  else Some (inr s).

Definition range_bytes (fill : Z) (s : Z * Z * bitmap_t)
  : option ((Z * Z * bitmap_t) + (Z * Z * bitmap_t)) :=
  let '(wh, l, bm) := s in
  if BITMAP_BLOCKS_PER_BYTE <=? l then
    d ← data bm;
    let block := Z.quot wh BITMAP_BLOCKS_PER_BYTE in
    d' ← d.[block <- fill];
    Some (inl (s32 (wh + BITMAP_BLOCKS_PER_BYTE), s32 (l - BITMAP_BLOCKS_PER_BYTE),
               with_data bm d'))
  else Some (inr s).

Definition range_tail (op : bitmap_t → Z → option (Z * bitmap_t)) (s : Z * Z * bitmap_t)
  : option ((Z * Z * bitmap_t) + (Z * Z * bitmap_t)) :=
  let '(wh, l, bm) := s in
  if negb (l =? 0) then
    '(_, bm) ← op bm wh; Some (inl (s32 (wh + 1), s32 (l - 1), bm))
  else Some (inr s).

(** Each loop makes at most [len] turns; with a negative [len] the last one
    does not end before [len] overflows. *)
Definition range_loops (op : bitmap_t → Z → option (Z * bitmap_t)) (fill start l : Z)
    (bm : bitmap_t) : option bitmap_t :=
  let fuel := S (Z.to_nat l) in
  s ← loop fuel (range_head op) (start, l, bm);
  s ← loop fuel (range_bytes fill) s;
  '(_, _, bm) ← loop fuel (range_tail op) s;
  Some bm.

Definition bitmap_set_range (bm : bitmap_t) (start l : Z) : option (Z * bitmap_t) :=
  match data bm with
  | None => Some (- EINVAL, bm)
  | Some _ =>
      if len bm <=? usize (s32 (start + l - 1)) then Some (- EFAULT, bm) else
      bm' ← range_loops bitmap_set 0xff start l bm;
      Some (0, bm')
  end.

Definition bitmap_unset_range (bm : bitmap_t) (start l : Z) : option (Z * bitmap_t) :=
  match data bm with
  | None => Some (- EINVAL, bm)
  | Some _ =>
      if len bm <=? usize (s32 (start + l - 1)) then Some (- EFAULT, bm) else
      bm' ← range_loops bitmap_unset 0x0 start l bm;
      Some (0, bm')
  end.

End bitmap.

(** ** Specification *)

(** Bit [i] of the map: set when block [i] is taken. *)
Definition bit (d : list Z) (i : Z) : bool := Z.testbit (default 0 (d.[i / 8])) (i mod 8).

Definition is_bytes (d : list Z) : Prop := Forall (λ b, 0 <= b < 2 ^ 8) d.

(** A bitmap the kernel can use: bytes behind the pointer, enough of them for
    [len] bits, and [len] representable by the [int]s that index it. *)
Definition bitmap_wf (bm : bitmap_t) (d : list Z) : Prop :=
  data bm = Some d ∧ is_bytes d ∧ 0 <= len bm < 2 ^ 31 ∧
  len bm <= 8 * Z.of_nat (length d).

(** The search behind the last whole word, with [bitmap_get], works only when it has
    nothing to do or there is no whole word before it. *)
Definition searchable (l : Z) : Prop := l < 32 ∨ l mod 32 = 0.
#[global] Instance searchable_dec l : Decision (searchable l) := or_dec _ _.

Definition free_range (d : list Z) (s n : Z) : Prop :=
  ∀ i, s <= i < s + n → bit d i = false.

(** [s] is where a first-fit search for [m] free blocks below [l] succeeds. *)
Definition first_fit (d : list Z) (l m s : Z) : Prop :=
  0 <= s ∧ s + m <= l ∧ free_range d s m ∧ ∀ s', 0 <= s' < s → ¬ free_range d s' m.

Definition no_fit (d : list Z) (l m : Z) : Prop :=
  ∀ s, 0 <= s → s + m <= l → ¬ free_range d s m.

(** ** Bits, bytes and words *)

Lemma is_bytes_get d i b : is_bytes d → d.[i] = Some b → 0 <= b < 2 ^ 8.
Proof.
  intros Hd Hb. assert (0 <= i) by (apply zget_Some in Hb; lia).
  rewrite zget_lookup in Hb by done. by eapply Forall_lookup_1 in Hd.
Qed.

Lemma bit_byte d k j b : d.[k] = Some b → 0 <= j < 8 → bit d (8 * k + j) = Z.testbit b j.
Proof.
  intros Hb Hj. unfold bit.
  replace ((8 * k + j) / 8) with k by (Z.div_mod_to_equations; lia).
  replace ((8 * k + j) mod 8) with j by (Z.div_mod_to_equations; lia).
  by rewrite Hb.
Qed.

Lemma bitmap32_get_bit d k : is_bytes d → 0 <= k → 32 * (k + 1) <= 8 * Z.of_nat (length d) →
  ∃ w, bitmap32_get d k = Some w ∧ 0 <= w < 2 ^ 32 ∧
    ∀ j, 0 <= j < 32 → Z.testbit w j = bit d (32 * k + j).
Proof.
  intros Hd Hk Hlen. unfold bitmap32_get.
  destruct (zget_is_Some d (4 * k)) as [b0 E0]; [lia|].
  destruct (zget_is_Some d (4 * k + 1)) as [b1 E1]; [lia|].
  destruct (zget_is_Some d (4 * k + 2)) as [b2 E2]; [lia|].
  destruct (zget_is_Some d (4 * k + 3)) as [b3 E3]; [lia|].
  rewrite E0, E1, E2, E3. simpl. eexists. split; [done|].
  pose proof (is_bytes_get _ _ _ Hd E0). pose proof (is_bytes_get _ _ _ Hd E1).
  pose proof (is_bytes_get _ _ _ Hd E2). pose proof (is_bytes_get _ _ _ Hd E3).
  assert (∀ b j, 0 <= b < 2 ^ 8 → j < 0 ∨ 8 <= j → Z.testbit b j = false) as Hout.
  { intros b j Hb [|]; [by apply Z.testbit_neg_r|by apply (testbit_high b 8)]. }
  set (w := Z.lor _ _).
  assert (∀ j, 0 <= j → Z.testbit w j = Z.testbit b0 j || (Z.testbit b1 (j - 8) ||
    (Z.testbit b2 (j - 16) || Z.testbit b3 (j - 24)))) as Hw.
  { intros j Hj. unfold w. by rewrite !Z.lor_spec, !Z.shiftl_spec by done. }
  split; [split|].
  - unfold w. rewrite !Z.lor_nonneg, !Z.shiftl_nonneg. lia.
  - apply testbit_bound; [lia| |].
    + unfold w. rewrite !Z.lor_nonneg, !Z.shiftl_nonneg. lia.
    + intros j Hj. rewrite Hw by lia. by rewrite !Hout by lia.
  - intros j Hj. rewrite Hw by lia.
    assert (j < 8 ∨ 8 <= j < 16 ∨ 16 <= j < 24 ∨ 24 <= j) as [|[|[|]]] by lia.
    + rewrite (Hout b1), (Hout b2), (Hout b3), orb_false_r by lia.
      replace (32 * k + j) with (8 * (4 * k) + j) by lia. by rewrite (bit_byte _ _ _ b0) by (done || lia).
    + rewrite (Hout b0), (Hout b2), (Hout b3), orb_false_r by lia.
      replace (32 * k + j) with (8 * (4 * k + 1) + (j - 8)) by lia. by rewrite (bit_byte _ _ _ b1) by (done || lia).
    + rewrite (Hout b0), (Hout b1), (Hout b3), orb_false_r by lia.
      replace (32 * k + j) with (8 * (4 * k + 2) + (j - 16)) by lia. by rewrite (bit_byte _ _ _ b2) by (done || lia).
    + rewrite (Hout b0), (Hout b1), (Hout b2) by lia.
      replace (32 * k + j) with (8 * (4 * k + 3) + (j - 24)) by lia. by rewrite (bit_byte _ _ _ b3) by (done || lia).
Qed.

Lemma ctz32_spec v : 0 < v → ∃ n, ctz32 v = Some n ∧ 0 <= n ∧ Z.testbit v n = true ∧
  ∀ j, j < n → Z.testbit v j = false.
Proof.
  destruct v as [|p|]; [lia| |lia]. intros _. exists (pos_ctz p). split; [done|].
  induction p as [p IH|p IH|]; simpl.
  - split; [lia|]. split; [done|]. intros j Hj. by apply Z.testbit_neg_r.
  - destruct IH as (? & Ht & Hlow). split; [lia|]. split.
    + rewrite Pos2Z.inj_xO, Z.double_bits, <- Ht. f_equal. lia.
    + intros j Hj. rewrite Pos2Z.inj_xO, Z.double_bits. apply Hlow. lia.
  - split; [lia|]. split; [done|]. intros j Hj. by apply Z.testbit_neg_r.
Qed.

(** ** First fit *)

(** The search has looked at the bits below [p]: the free run ending at [p]
    has length [fc] and starts at [st], and a run of [m] free blocks that ends
    at or before [p] cannot start before it. *)
Definition run_inv (d : list Z) (m p fc st : Z) : Prop :=
  0 <= fc <= p ∧ free_range d (p - fc) fc ∧ (0 < fc → st = p - fc) ∧
  (0 < p - fc → bit d (p - fc - 1) = true) ∧
  ∀ s, 0 <= s → s + m <= p → free_range d s m → p - fc <= s.

Lemma run_inv_init d m st : 0 < m → run_inv d m 0 0 st.
Proof. intros. split_and!; try lia. intros i Hi; lia. Qed.

(** [n] free bits extend the run; it starts at [p] if there was none. *)
Lemma run_inv_free d m p fc st n : 0 <= n → run_inv d m p fc st → free_range d p n →
  run_inv d m (p + n) (fc + n) (if fc =? 0 then p else st).
Proof.
  intros Hn (Hfc & Hfree & Hst & Hprev & Hno) Hp. split_and!; [lia..| | | |].
  - intros i Hi. destruct (Z.lt_ge_cases i p); [apply Hfree|apply Hp]; lia.
  - intros. destruct (Z.eqb_spec fc 0); [lia|]. rewrite Hst by lia. lia.
  - replace (p + n - (fc + n)) with (p - fc) by lia. done.
  - intros s Hs Hsm Hrun. destruct (Z.lt_ge_cases s (p - fc)) as [Hlt|]; [|lia].
    assert (bit d (p - fc - 1) = true) by (apply Hprev; lia).
    destruct (Z.le_gt_cases (s + m) p) as [Hle|].
    + specialize (Hno s Hs Hle Hrun). lia.
    + assert (bit d (p - fc - 1) = false) by (apply Hrun; lia). congruence.
Qed.

(** Set bits end a run that was too short. *)
Lemma run_inv_set d m p fc st n st' : 0 < n → 0 < m → run_inv d m p fc st → fc < m →
  (∀ i, p <= i < p + n → bit d i = true) → run_inv d m (p + n) 0 st'.
Proof.
  intros Hn Hm (Hfc & Hfree & Hst & Hprev & Hno) Hlt Hset. split_and!; try lia.
  - intros i Hi. lia.
  - intros. apply Hset. lia.
  - intros s Hs Hsm Hrun. destruct (Z.lt_ge_cases s (p + n)) as [Hsp|]; [|lia].
    destruct (Z.le_gt_cases (s + m) p) as [Hle|].
    + specialize (Hno s Hs Hle Hrun). lia.
    + assert (bit d (Z.max s p) = false) by (apply Hrun; lia).
      assert (bit d (Z.max s p) = true) by (apply Hset; lia). congruence.
Qed.

Lemma run_inv_fit d m p fc st l : 0 < m → run_inv d m p fc st → m <= fc → p <= l →
  first_fit d l m st.
Proof.
  intros Hm (Hfc & Hfree & Hst & Hprev & Hno) Hle Hp.
  rewrite Hst in * by lia. split_and!; [lia..| |].
  - intros i Hi. apply Hfree. lia.
  - intros s' Hs' Hrun. assert (bit d (p - fc - 1) = true) by (apply Hprev; lia).
    destruct (Z.le_gt_cases (s' + m) p) as [Hle'|].
    + specialize (Hno s' ltac:(lia) Hle' Hrun). lia.
    + assert (bit d (p - fc - 1) = false) by (apply Hrun; lia). congruence.
Qed.

Lemma run_inv_no_fit d m p fc st : 0 < m → run_inv d m p fc st → fc < m → no_fit d p m.
Proof. intros Hm (_ & _ & _ & _ & Hno) Hlt s Hs Hsm Hrun. specialize (Hno s Hs Hsm Hrun). lia. Qed.

Section find.
Context `{Target}.

Lemma usize_small31 x : 0 <= x <= 2 ^ 31 → usize x = x.
Proof. intros. apply usize_small. pose proof ptr_bits_ge. lia. Qed.

Lemma bitmap_get_bit d i : 0 <= i < 32 → i < 8 * Z.of_nat (length d) → bitmap_get d 0 i = Some (if bit d i then 1 else 0).
Proof.
  intros Hi Hl. unfold bitmap_get, bit, BITMAP_BLOCKS_PER_BYTE. pose proof (Z.mod_pos_bound i 8 ltac:(lia)).
  assert (0 <= i / 8 < Z.of_nat (length d)) as Hk by (Z.div_mod_to_equations; lia). rewrite !Z.add_0_l, !usize_small31 by (Z.div_mod_to_equations; lia).
  destruct (zget_is_Some d (i / 8)) as [b ->]; [done|]. simpl. destruct (Z.ltb_spec (i mod 8) 32); [|lia].
  rewrite land_1_testbit; [done|lia].
Qed.

(** Behind a whole word the shift is too wide. *)
Lemma bitmap_get_wide d a i : 32 <= a < 2 ^ 31 → 0 <= i < 32 → bitmap_get d a i = None.
Proof.
  intros Ha Hi. unfold bitmap_get, BITMAP_BLOCKS_PER_BYTE. pose proof (Z.mod_pos_bound i 8 ltac:(lia)). pose proof (Z.mod_le i 8 ltac:(lia) ltac:(lia)).
  destruct (d.[_]); [|done]. simpl. pose proof ptr_bits_ge. rewrite usize_small by lia. destruct (Z.ltb_spec (a + i mod 8) 32); [lia|done].
Qed.

(** What a search that returned [(ret, start)] promises. *)
Definition found (d : list Z) (l m : Z) (r : Z * Z) : Prop :=
  0 <= r.1 ∧ first_fit d l m r.2.

Lemma run_inv_found d m p fc st l : 0 < m → run_inv d m p fc st → m <= fc → p <= l → l < 2 ^ 31 →
  found d l m (s32 fc, st).
Proof.
  intros. assert (0 <= fc <= p) by (by destruct H1).
  split; simpl; [rewrite s32_small; lia|]. by eapply run_inv_fit.
Qed.

(** [bucket] holds the bits of word [k] from [viewed] on. *)
Definition in_bucket_inv (d : list Z) (m k : Z) (s : Z * Z * Z * Z) : Prop :=
  let '(bucket, viewed, fc, st) := s in
  0 <= viewed <= 32 ∧ 0 <= bucket < 2 ^ 32 - 1 ∧
  (∀ j, 0 <= j → Z.testbit bucket j =
     if decide (viewed + j < 32) then bit d (32 * k + (viewed + j)) else false) ∧
  run_inv d m (32 * k + viewed) fc st.

Lemma lnot_u32 b : 0 <= b < 2 ^ 32 → u32 (Z.lnot b) = 2 ^ 32 - 1 - b.
Proof.
  intros. unfold u32, Z.lnot, Z.pred.
  symmetry. apply (Z.mod_unique_pos _ _ (-1)); lia.
Qed.

(** The leading ones of a bucket whose first bit is one. *)
Lemma trailing_ones bucket : 0 <= bucket < 2 ^ 32 - 1 → Z.testbit bucket 0 = true →
  ∃ n, ctz32 (u32 (Z.lnot bucket)) = Some n ∧ 1 <= n < 32 ∧
    ∀ j, 0 <= j < n → Z.testbit bucket j = true.
Proof.
  intros Hb H0. destruct (ctz32_spec (u32 (Z.lnot bucket))) as (n & -> & Hn & Ht & Hlow).
  { rewrite lnot_u32; lia. }
  assert (∀ j, 0 <= j < 32 → Z.testbit (u32 (Z.lnot bucket)) j = negb (Z.testbit bucket j)) as Hneg.
  { intros j Hj. by rewrite testbit_u32, decide_True, Z.lnot_spec by lia. }
  assert (n < 32) as Hn32.
  { rewrite testbit_u32 in Ht. case_decide; [done|congruence]. }
  exists n. split; [done|]. split.
  - destruct (Z.eq_dec n 0) as [->|]; [|lia]. rewrite Hneg in Ht by lia. by rewrite H0 in Ht.
  - intros j Hj. specialize (Hlow j ltac:(lia)). rewrite Hneg in Hlow by lia.
    by destruct (Z.testbit bucket j).
Qed.

Lemma in_bucket_step d m k l s :
  0 < m < 2 ^ 31 → 0 <= k → 32 * k + 32 <= l → l < 2 ^ 31 → in_bucket_inv d m k s →
  match next_range_in_bucket k m s with
  | None => False
  | Some (inl s') => in_bucket_inv d m k s' ∧ 0 <= 32 - s'.1.1.2 < 32 - s.1.1.2
  | Some (inr (inl (fc, st))) => run_inv d m (32 * k + 32) fc st
  | Some (inr (inr r)) => found d l m r
  end.
Proof.
  intros Hm Hk Hl Hl31. destruct s as [[[bucket viewed] fc] st].
  intros (Hv & Hb & Hbits & Hrun). simpl.
  assert (0 <= fc <= 32 * k + viewed) as Hfc by (by destruct Hrun).
  destruct (Z.ltb_spec viewed 32); simpl.
  2:{ by replace 32 with viewed at 2 by lia. }
  rewrite (usize_small31 (k * 32 + viewed)), s32_small by lia.
  replace (k * 32 + viewed) with (32 * k + viewed) by lia.
  destruct (Z.eqb_spec bucket 0) as [->|Hb0].
  { rewrite usize_small31 by lia. simpl. split; [|lia]. split_and!; [lia..| |].
    - intros j Hj. rewrite decide_False by lia. apply Z.bits_0.
    - replace (32 * k + 32) with (32 * k + viewed + (32 - viewed)) by lia.
      apply run_inv_free; [lia|done|]. intros i Hi.
      specialize (Hbits (i - 32 * k - viewed) ltac:(lia)).
      rewrite Z.bits_0, decide_True in Hbits by lia. rewrite Hbits. f_equal. lia. }
  destruct (ctz32_spec bucket) as (tz & -> & Htz & Ht & Hlow); [lia|]. simpl.
  assert (viewed + tz < 32) as Htz32.
  { rewrite Hbits in Ht by lia. case_decide; [done|congruence]. }
  rewrite usize_small31 by lia. rewrite (s32_small (viewed + tz)) by lia.
  assert (run_inv d m (32 * k + (viewed + tz)) (fc + tz)
            (if fc =? 0 then 32 * k + viewed else st)) as Hrun'.
  { rewrite Z.add_assoc. apply run_inv_free; [done..|]. intros i Hi.
    specialize (Hlow (i - 32 * k - viewed) ltac:(lia)).
    rewrite Hbits, decide_True in Hlow by lia. rewrite <- Hlow. f_equal. lia. }
  destruct (Z.leb_spec m (fc + tz)).
  { eapply run_inv_found; [lia|done|lia..]. }
  set (bucket' := Z.shiftr bucket tz).
  assert (∀ j, 0 <= j → Z.testbit bucket' j = Z.testbit bucket (j + tz)) as Hb'.
  { intros. unfold bucket'. by rewrite Z.shiftr_spec. }
  assert (0 <= bucket' < 2 ^ 32 - 1) as Hb'r.
  { unfold bucket'. rewrite Z.shiftr_div_pow2 by done.
    split; [apply Z.div_pos; lia|].
    eapply Z.le_lt_trans; [|apply Hb]. apply Z.div_le_upper_bound; nia. }
  destruct (trailing_ones bucket') as (ones & -> & Hones & Hset); [done|by rewrite Hb'|]. simpl.
  assert (∀ j, 0 <= j < ones → bit d (32 * k + (viewed + tz) + j) = true ∧ viewed + tz + j < 32) as Hset'.
  { intros j Hj. specialize (Hset j Hj). rewrite Hb', Hbits in Hset by lia.
    case_decide; [|done]. split; [|lia]. rewrite <- Hset. f_equal. lia. }
  pose proof (Hset' (ones - 1) ltac:(lia)) as [_ ?].
  rewrite s32_small by lia. split; [|lia].
  assert (∀ j, 0 <= j → Z.testbit (Z.shiftr bucket' ones) j = Z.testbit bucket (j + ones + tz)) as Hb''.
  { intros. rewrite Z.shiftr_spec, Hb' by lia. done. }
  split_and!; [lia..| | | |].
  - apply Z.shiftr_nonneg. lia.
  - rewrite Z.shiftr_div_pow2 by lia.
    eapply Z.le_lt_trans; [|apply Hb'r]. apply Z.div_le_upper_bound; nia.
  - intros j Hj. rewrite Hb'', Hbits by lia. 
    replace (viewed + (j + ones + tz)) with (viewed + tz + ones + j) by lia. done.
  - rewrite Z.add_assoc. eapply run_inv_set; [lia|lia|exact Hrun'|lia|].
    intros i Hi. destruct (Hset' (i - 32 * k - (viewed + tz)) ltac:(lia)) as [<- _]. f_equal. lia.
Qed.

Lemma bucket_step d m k l fc st :
  is_bytes d → 0 < m < 2 ^ 31 → 0 <= k → 32 * (k + 1) <= l → l < 2 ^ 31 →
  l <= 8 * Z.of_nat (length d) → run_inv d m (32 * k) fc st →
  match next_range_bucket d m k (fc, st, 0) with
  | None => False
  | Some (inl (fc', st', sbb)) => sbb = 0 ∧ run_inv d m (32 * (k + 1)) fc' st'
  | Some (inr r) => found d l m r
  end.
Proof.
  intros Hd Hm Hk Hl Hl31 Hlen Hrun.
  assert (0 <= fc <= 32 * k) as Hfc by (by destruct Hrun).
  unfold next_range_bucket. destruct (bitmap32_get_bit d k) as (w & -> & Hw & Hbits); [done|lia..|]. simpl.
  replace (32 * (k + 1)) with (32 * k + 32) in * by lia.
  destruct (Z.eqb_spec w 0xffffffff) as [->|Hfull].
  { destruct (Z.leb_spec m fc); [eapply run_inv_found; [lia|done|lia..]|].
    split; [done|]. eapply run_inv_set; [lia|lia|done|done|].
    intros i Hi. replace i with (32 * k + (i - 32 * k)) by lia. rewrite <- Hbits by lia.
    change 0xffffffff with (Z.ones 32). rewrite Z.testbit_ones_nonneg by lia. apply Z.ltb_lt. lia. }
  destruct (Z.eqb_spec w 0) as [->|Hw0].
  { rewrite !usize_small31, (s32_small (k * 32)) by lia. replace (k * 32) with (32 * k) by lia.
    assert (run_inv d m (32 * k + 32) (fc + 32) (if fc =? 0 then 32 * k else st)).
    { apply run_inv_free; [lia|done|]. intros i Hi.
      replace i with (32 * k + (i - 32 * k)) by lia. rewrite <- Hbits by lia. apply Z.bits_0. }
    destruct (Z.leb_spec m (fc + 32)); [eapply run_inv_found; [lia|done|lia..]|done]. }
  rewrite Z.shiftr_0_r.
  destruct (loop_total (in_bucket_inv d m k) (λ s, 32 - s.1.1.2)
    (λ r, match r with inl (fc, st) => run_inv d m (32 * k + 32) fc st | inr r => found d l m r end)
    (next_range_in_bucket k m) 33 (w, 0, fc, st)) as (r & -> & Hr); simpl; [|lia| |].
  - split_and!; [lia..| |by rewrite Z.add_0_r].
    intros j Hj. case_decide; [by apply Hbits; lia|]. apply (testbit_high w 32); lia.
  - intros s Hs _. pose proof (in_bucket_step d m k l s) as Hstep.
    destruct (next_range_in_bucket k m s) as [[s'|[[fc' st']|r]]|]; by apply Hstep; try lia.
  - destruct r as [[fc' st']|r]; [done|]. done.
Qed.

Lemma trailing_step d m i l fc st :
  0 < m < 2 ^ 31 → 0 <= i → i < l → l <= 32 → l <= 8 * Z.of_nat (length d) → run_inv d m i fc st → fc < m →
  match next_range_trailing d m 0 i (fc, st) with
  | None => False
  | Some (inl (fc', st')) => run_inv d m (i + 1) fc' st' ∧ fc' < m
  | Some (inr r) => found d l m r
  end.
Proof.
  intros Hm Hi Hl Hl32 Hlen Hrun Hlt. assert (0 <= fc <= i) as Hfc by (by destruct Hrun).
  unfold next_range_trailing. rewrite bitmap_get_bit by lia. simpl. rewrite ?Z.add_0_l.
  destruct (bit d i) eqn:Hbit; simpl.
  - split; [|lia]. eapply run_inv_set; [lia|lia|done|done|].
    intros j Hj. by replace j with i by lia.
  - rewrite !usize_small31, (s32_small i) by lia.
    assert (run_inv d m (i + 1) (fc + 1) (if fc =? 0 then i else st)).
    { apply run_inv_free; [lia|done|]. intros j Hj. by replace j with i by lia. }
    destruct (Z.leb_spec m (fc + 1)); [eapply run_inv_found; [lia|done|lia..]|].
    split; [done|lia].
Qed.

(** The loop over the whole words, which are [n] bits. *)
Lemma buckets_spec bm d m st n : bitmap_wf bm d → 0 < m < 2 ^ 31 → n = 32 * (len bm / 32) →
  ∃ r, for_loop (Z.to_nat (len bm / 32)) 0 (next_range_bucket d m) (0, st, 0) = Some r ∧
    match r with inl (fc, st, sbb) => sbb = 0 ∧ run_inv d m n fc st | inr r => found d n m r end.
Proof.
  intros (_ & Hd & Hlen & Hle) Hm ->. set (l := len bm) in *.
  assert (0 <= l / 32 ∧ 32 * (l / 32) <= l) by (Z.div_mod_to_equations; lia).
  destruct (for_loop_total (λ k '(fc, st, sbb), sbb = 0 ∧ run_inv d m (32 * k) fc st)
    (found d (32 * (l / 32)) m) (next_range_bucket d m) (Z.to_nat (l / 32)) 0 (0, st, 0)) as (r & -> & Hr).
  { split; [done|]. apply run_inv_init; lia. }
  { intros k [[fc st'] sbb] Hk (-> & Hrun).
    pose proof (bucket_step d m k (32 * (l / 32)) fc st') as Hstep.
    destruct (next_range_bucket d m k (fc, st', 0)) as [[[[fc' st''] sbb]|r]|];
      apply Hstep; try done; lia. }
  exists r. split; [done|]. destruct r as [[[fc st'] sbb]|r]; [|done]. by rewrite Z2Nat.id in Hr by lia.
Qed.

Lemma first_fit_below d l l' m s : l <= l' → first_fit d l m s → first_fit d l' m s.
Proof. intros Hl (? & ? & ? & ?). split; [done|]. split; [lia|done]. Qed.

Lemma next_range_spec bm d m st : bitmap_wf bm d → 0 < m < 2 ^ 31 → searchable (len bm) →
  ∃ r, bitmap_next_range_of_unset_bits bm 0 m st = Some r ∧
    (found d (len bm) m r ∨ r.1 = -1 ∧ no_fit d (len bm) m).
Proof.
  intros Hwf Hm Hsr. unfold bitmap_next_range_of_unset_bits. pose proof Hwf as (Hdata & Hd & Hlen & Hle).
  rewrite Hdata. simpl. rewrite Z.quot_0_l, Z.rem_0_l, usize_small31, Z.sub_0_r by lia.
  destruct (buckets_spec bm d m st _ Hwf Hm eq_refl) as (r & -> & Hr). set (l := len bm) in *. simpl.
  assert (0 <= l / 32 ∧ 32 * (l / 32) <= l ∧ l mod 32 = l - 32 * (l / 32) ∧ 0 <= l mod 32 < 32) by (Z.div_mod_to_equations; lia).
  destruct r as [[[fc st'] sbb]|r].
  2:{ eexists. split; [done|]. left. destruct Hr as [? Hr]. split; [done|]. eapply first_fit_below; [|done]. lia. }
  destruct Hr as [-> Hrun]. assert (0 <= fc <= 32 * (l / 32)) as Hfc by (by destruct Hrun).
  destruct (Z.ltb_spec fc m).
  2:{ eexists. split; [done|]. left. eapply run_inv_found; [lia|done|lia..]. }
  destruct (Z.eq_dec (l mod 32) 0) as [E0|E0].
  { rewrite E0. simpl. eexists. split; [done|]. right. split; [done|].
    replace (32 * (l / 32)) with l in Hrun by lia. eapply run_inv_no_fit; [lia|done|done]. }
  assert (l < 32) by (destruct Hsr; [done|lia]). assert (l / 32 = 0) as E32 by lia. rewrite E32 in *. change (0 * 32) with 0. change (32 * 0) with 0 in Hrun.
  destruct (for_loop_total (λ i '(fc, st), run_inv d m i fc st ∧ fc < m)
    (found d l m) (next_range_trailing d m 0) (Z.to_nat (l mod 32)) 0 (fc, st'))
    as (r & -> & Hr); [done| |].
  { intros i [fc1 st1] Hi (Hrun1 & Hlt1).
    pose proof (trailing_step d m i l fc1 st1) as Hstep.
    destruct (next_range_trailing _ _ _ _ _) as [[[fc' st'']|r]|]; apply Hstep; try done; lia. }
  simpl. destruct r as [[fc1 st1]|r]; [|by eauto].
  eexists. split; [done|]. right. split; [done|]. destruct Hr as [Hr Hlt].
  replace (Z.of_nat (Z.to_nat (l mod 32))) with l in Hr by lia. eapply run_inv_no_fit; [lia|done|done].
Qed.

(** Behind whole words the search is undefined as soon as it gets there. *)
Lemma next_range_trailing_undefined bm d m st : bitmap_wf bm d → 0 < m < 2 ^ 31 → ¬ searchable (len bm) →
  (∃ r, bitmap_next_range_of_unset_bits bm 0 m st = Some r ∧ found d (32 * (len bm / 32)) m r) ∨
  (bitmap_next_range_of_unset_bits bm 0 m st = None ∧ no_fit d (32 * (len bm / 32)) m).
Proof.
  intros Hwf Hm Hsr. unfold bitmap_next_range_of_unset_bits. pose proof Hwf as (Hdata & Hd & Hlen & Hle).
  rewrite Hdata. simpl. rewrite Z.quot_0_l, Z.rem_0_l, usize_small31, Z.sub_0_r by lia.
  destruct (buckets_spec bm d m st _ Hwf Hm eq_refl) as (r & -> & Hr). set (l := len bm) in *. simpl.
  destruct r as [[[fc st'] sbb]|r]; [|left; by eexists].
  destruct Hr as [-> Hrun]. assert (0 <= fc <= 32 * (l / 32)) as Hfc by (by destruct Hrun).
  assert (32 <= l ∧ l mod 32 ≠ 0) as [Hl32 Hlm] by (unfold searchable in Hsr; lia).
  assert (32 <= 32 * (l / 32) <= l ∧ 0 < l mod 32) by (Z.div_mod_to_equations; lia).
  destruct (Z.ltb_spec fc m).
  2:{ left. eexists. split; [done|]. eapply run_inv_found; [lia|done|lia..]. }
  right. split; [|by eapply run_inv_no_fit; [lia|..]].
  destruct (Z.to_nat (l mod 32)) as [|n] eqn:En; [lia|]. rewrite for_loop_S. unfold next_range_trailing at 1.
  rewrite bitmap_get_wide by lia. done.
Qed.

(** [bitmap_find_space] on a map that it can search to its end. *)
Lemma bitmap_find_space_spec bm d req : bitmap_wf bm d → 0 < req < 2 ^ 31 → searchable (len bm) →
  ∃ r, bitmap_find_space bm req = Some r ∧
    (first_fit d (len bm) req r ∨ r = - ENODATA ∧ no_fit d (len bm) req).
Proof.
  intros Hwf Hreq Hsr. unfold bitmap_find_space.
  destruct (next_range_spec bm d req 0 Hwf Hreq Hsr) as ([l st] & Hr & Hcase).
  pose proof Hwf as (-> & _). rewrite usize_small31, Hr by lia. simpl.
  destruct Hcase as [[Hl Hfit]|[Hl Hno]]; simpl in *.
  - destruct (Z.ltb_spec l 0); [lia|]. eauto.
  - rewrite Hl. eauto.
Qed.

End find.

(** ** Setting and clearing *)

(** [d'] is [d] with the [n] bits from [s] set to [v]. *)
Definition updated (v : bool) (d d' : list Z) (s n : Z) : Prop :=
  length d' = length d ∧ is_bytes d' ∧
  ∀ i, 0 <= i → bit d' i = if decide (s <= i < s + n) then v else bit d i.

Lemma bit_insert d k x i : 0 <= k < Z.of_nat (length d) → 0 <= i →
  bit (<[Z.to_nat k := x]> d) i = if decide (i / 8 = k) then Z.testbit x (i mod 8) else bit d i.
Proof.
  intros Hk Hi. unfold bit. rewrite zget_insert by done.
  destruct (decide (k = i / 8)); destruct (decide (i / 8 = k)); (done || lia).
Qed.

Lemma is_bytes_insert d k x : is_bytes d → 0 <= x < 2 ^ 8 → is_bytes (<[k := x]> d).
Proof. intros. by apply Forall_insert. Qed.

(** The bytes are determined by their bits. *)
Lemma bits_ext d d' : is_bytes d → is_bytes d' → length d = length d' →
  (∀ i, 0 <= i < 8 * Z.of_nat (length d) → bit d i = bit d' i) → d = d'.
Proof.
  intros Hd Hd' Hlen Hbits. apply list_eq_same_length with (length d); [done..|].
  intros k x y Hk Hx Hy.
  assert (d.[Z.of_nat k] = Some x) as Ex by (rewrite zget_lookup, Nat2Z.id by lia; done).
  assert (d'.[Z.of_nat k] = Some y) as Ey by (rewrite zget_lookup, Nat2Z.id by lia; done).
  pose proof (is_bytes_get _ _ _ Hd Ex). pose proof (is_bytes_get _ _ _ Hd' Ey).
  apply Z.bits_inj'. intros j Hj. destruct (Z.lt_ge_cases j 8).
  - rewrite <- (bit_byte d (Z.of_nat k) j x), <- (bit_byte d' (Z.of_nat k) j y) by (done || lia).
    apply Hbits. lia.
  - rewrite !(testbit_high _ 8) by lia. done.
Qed.

Lemma updated_refl v d s : is_bytes d → updated v d d s 0.
Proof. intros. split_and!; [done..|]. intros. by rewrite decide_False by lia. Qed.

(** Adjacent updates compose. *)
Lemma updated_app v d d1 d2 s n1 n2 : 0 <= n1 → 0 <= n2 →
  updated v d d1 s n1 → updated v d1 d2 (s + n1) n2 → updated v d d2 s (n1 + n2).
Proof.
  intros Hn1 Hn2 (Hl1 & _ & H1) (Hl2 & Hb2 & H2). split_and!; [congruence|done|].
  intros i Hi. rewrite H2, H1 by done. repeat case_decide; (done || lia).
Qed.

(** An update of a range that held the other value is undone by the opposite one. *)
Lemma updated_undo v d d1 d2 s n : is_bytes d → 
  (∀ i, s <= i < s + n → bit d i = negb v) →
  updated v d d1 s n → updated (negb v) d1 d2 s n → d2 = d.
Proof.
  intros Hd Hold (Hl1 & Hb1 & H1) (Hl2 & Hb2 & H2). apply bits_ext; [done..|congruence|].
  intros i Hi. rewrite H2, H1 by lia. case_decide; [|done]. symmetry. by apply Hold.
Qed.

Lemma bitmap_wf_with_data bm d d' v s n : bitmap_wf bm d → updated v d d' s n →
  bitmap_wf (with_data bm d') d'.
Proof. intros (? & ? & ? & ?) (? & ? & ?). split_and!; simpl; (done || lia). Qed.

(** A zeroed map has every bit clear. *)
Lemma bitmap_fresh n l : 0 <= l < 2 ^ 31 → l <= 8 * Z.of_nat n →
  bitmap_wf (bitmap_wrap (Some (replicate n 0)) l) (replicate n 0) ∧
  ∀ i, 0 <= i → bit (replicate n 0) i = false.
Proof.
  intros Hl Hn. split.
  - split_and!; simpl; [done|apply Forall_replicate; lia|lia|lia|]. rewrite length_replicate. lia.
  - intros i Hi. unfold bit. rewrite zget_lookup by (Z.div_mod_to_equations; lia).
    destruct (replicate n 0 !! _) as [x|] eqn:E; simpl; [|apply Z.bits_0].
    apply lookup_replicate in E as [-> _]. apply Z.bits_0.
Qed.

Lemma with_data_id bm d : data bm = Some d → with_data bm d = bm.
Proof. destruct bm; simpl. by intros ->. Qed.

Section set.
Context `{Target}.

(** What [bitmap_set] ([v] is [true]) and [bitmap_unset] promise. *)
Definition sets_bit (op : bitmap_t → Z → option (Z * bitmap_t)) (v : bool) : Prop :=
  ∀ bm d wh, bitmap_wf bm d → 0 <= wh < len bm →
    ∃ d', op bm wh = Some (0, with_data bm d') ∧ updated v d d' wh 1.

Lemma updated_bit v d b wh :
  is_bytes d → 0 <= wh < 8 * Z.of_nat (length d) → 0 <= b < 2 ^ 8 →
  (∀ j, 0 <= j < 8 → Z.testbit b j =
     if decide (j = wh mod 8) then v else bit d (8 * (wh / 8) + j)) →
  updated v d (<[Z.to_nat (wh / 8) := b]> d) wh 1.
Proof.
  intros Hd Hwh Hb Hbits. split_and!; [apply length_insert|by apply is_bytes_insert|].
  intros i Hi. rewrite bit_insert by (Z.div_mod_to_equations; lia).
  destruct (decide (i / 8 = wh / 8)) as [Heq|].
  - rewrite Hbits by (apply Z.mod_pos_bound; lia).
    destruct (decide (i mod 8 = wh mod 8)); destruct (decide (wh <= i < wh + 1));
      [done|Z.div_mod_to_equations; lia..|].
    f_equal. Z.div_mod_to_equations; lia.
  - rewrite decide_False; [done|]. intros ?. by replace i with wh in * by lia.
Qed.

Lemma bitmap_set_spec : sets_bit bitmap_set true.
Proof.
  intros bm d wh (Hdata & Hd & Hlen & Hle) Hwh. unfold bitmap_set, BITMAP_BLOCKS_PER_BYTE.
  rewrite Hdata, usize_small31 by lia. destruct (Z.leb_spec (len bm) wh); [lia|].
  rewrite Z.quot_div_nonneg, Z.rem_mod_nonneg by lia.
  destruct (zget_is_Some d (wh / 8)) as [b Hb]; [Z.div_mod_to_equations; lia|].
  rewrite Hb. simpl. rewrite zset_in by (by eapply zget_Some). simpl.
  eexists. split; [done|]. apply updated_bit; [done|lia|apply u8_range|].
  intros j Hj. pose proof (Z.mod_pos_bound wh 8).
  rewrite testbit_u8, decide_True, Z.lor_spec, testbit_pow2 by lia.
  rewrite (bit_byte _ _ _ _ Hb) by done. by case_bool_decide; case_decide; try lia; destruct (Z.testbit b j).
Qed.

Lemma bitmap_unset_spec : sets_bit bitmap_unset false.
Proof.
  intros bm d wh (Hdata & Hd & Hlen & Hle) Hwh. unfold bitmap_unset, BITMAP_BLOCKS_PER_BYTE.
  rewrite Hdata, usize_small31 by lia. destruct (Z.leb_spec (len bm) wh); [lia|].
  rewrite Z.quot_div_nonneg, Z.rem_mod_nonneg by lia.
  destruct (zget_is_Some d (wh / 8)) as [b Hb]; [Z.div_mod_to_equations; lia|].
  rewrite Hb. simpl. rewrite zset_in by (by eapply zget_Some). simpl.
  eexists. split; [done|]. apply updated_bit; [done|lia|apply u8_range|].
  intros j Hj. pose proof (Z.mod_pos_bound wh 8).
  rewrite testbit_u8, decide_True, Z.land_spec, Z.lnot_spec, testbit_pow2 by lia.
  rewrite (bit_byte _ _ _ _ Hb) by done. by case_bool_decide; case_decide; try lia; destruct (Z.testbit b j).
Qed.

(** *** Ranges *)

Section range.
Context (op : bitmap_t → Z → option (Z * bitmap_t)) (v : bool) (fill : Z).
Context (Hop : sets_bit op v) (Hfill : 0 <= fill < 2 ^ 8).
Context (Hbits : ∀ j, 0 <= j < 8 → Z.testbit fill j = v).
Context (bm : bitmap_t) (d : list Z) (start l : Z).
Context (Hwf : bitmap_wf bm d) (Hstart : 0 <= start) (Hl : 0 <= l) (Hin : start + l <= len bm).

(** The bits from [start] to [wh] are done, [r] are left. *)
Definition range_inv (s : Z * Z * bitmap_t) : Prop :=
  let '(wh, r, bm') := s in
  start <= wh ∧ 0 <= r ∧ wh + r = start + l ∧
  ∃ d', bm' = with_data bm d' ∧ updated v d d' start (wh - start).

Definition byte_aligned (s : Z * Z * bitmap_t) : Prop := s.1.2 = 0 ∨ s.1.1 mod 8 = 0.

Lemma range_one_bit wh r bm' : range_inv (wh, r, bm') → r ≠ 0 →
  ∃ bm'', op bm' wh = Some (0, bm'') ∧ range_inv (s32 (wh + 1), s32 (r - 1), bm'').
Proof.
  intros (Hwh & Hr & Hsum & d' & -> & Hupd) Hr0. destruct Hwf as (_ & _ & Hlen & _).
  destruct (Hop (with_data bm d') d' wh) as (d2 & -> & Hupd2);
    [by eapply bitmap_wf_with_data|simpl; lia|].
  eexists. split; [done|]. rewrite !s32_small by lia. split_and!; [lia..|].
  exists d2. split; [done|]. replace (wh + 1 - start) with (wh - start + 1) by lia.
  eapply updated_app; [lia..|done|]. by replace (start + (wh - start)) with wh by lia.
Qed.

Lemma range_byte_step s : range_inv s → byte_aligned s →
  match range_bytes fill s with
  | None => False
  | Some (inl s') => (range_inv s' ∧ byte_aligned s') ∧ 0 <= s'.1.2 < s.1.2
  | Some (inr s') => range_inv s'
  end.
Proof.
  destruct s as [[wh r] bm']. intros Hinv Hal. simpl. unfold BITMAP_BLOCKS_PER_BYTE.
  destruct (Z.leb_spec 8 r); [|done].
  destruct Hinv as (Hwh & Hr & Hsum & d' & -> & Hupd). destruct Hwf as (_ & Hd & Hlen & Hle).
  destruct Hal as [|Hal]; simpl in *; [lia|].
  pose proof Hupd as (Hld & Hbd & _).
  rewrite Z.quot_div_nonneg, zset_in, !s32_small by (Z.div_mod_to_equations; lia). simpl.
  split; [split|lia]; [|right; simpl; Z.div_mod_to_equations; lia].
  split_and!; [lia..|]. eexists. split; [done|].
  replace (wh + 8 - start) with (wh - start + 8) by lia.
  eapply updated_app; [lia..|done|]. replace (start + (wh - start)) with wh by lia.
  split_and!; [apply length_insert|by apply is_bytes_insert|].
  intros i Hi. rewrite bit_insert by (Z.div_mod_to_equations; lia).
  case_decide; case_decide; try (Z.div_mod_to_equations; lia); [|done].
  apply Hbits, Z.mod_pos_bound. lia.
Qed.

Lemma range_loops_spec :
  ∃ d', range_loops op fill start l bm = Some (with_data bm d') ∧ updated v d d' start l.
Proof.
  unfold range_loops.
  assert (range_inv (start, l, bm)) as H0.
  { split_and!; [lia..|]. exists d. pose proof Hwf as (Hd & ? & _). split.
    - by rewrite with_data_id.
    - rewrite Z.sub_diag. by apply updated_refl. }
  destruct (loop_total range_inv (λ s, s.1.2) (λ s, range_inv s ∧ byte_aligned s ∧ s.1.2 <= l)
    (range_head op) (S (Z.to_nat l)) (start, l, bm)) as (s1 & -> & Hs1 & Hal1 & Hr1);
    [done|simpl; lia| |].
  { intros [[wh r] bm'] Hs Hpos. simpl. unfold BITMAP_BLOCKS_PER_BYTE.
    assert (0 <= wh ∧ r <= l) by (destruct Hs as (? & ? & ? & _); lia).
    rewrite Z.rem_mod_nonneg by lia.
    destruct (Z.eqb_spec r 0) as [->|]; [split; [done|split; [by left|simpl; lia]]|].
    destruct (Z.eqb_spec (wh mod 8) 0) as [Hz|]; [split; [done|split; [by right|simpl; lia]]|].
    destruct (range_one_bit wh r bm') as (bm2 & -> & ?); [done..|]. simpl.
    split; [done|]. destruct Hwf as (_ & _ & ? & _). destruct Hs as (? & ? & ? & _).
    rewrite s32_small; lia. }
  simpl. destruct (loop_total (λ s, range_inv s ∧ byte_aligned s) (λ s, s.1.2)
    (λ s, range_inv s ∧ s.1.2 <= l)
    (range_bytes fill) (S (Z.to_nat l)) s1) as (s2 & -> & Hs2 & Hr2);
    [done|destruct s1 as [[wh r] bm']; destruct Hs1 as (? & ? & ? & _); simpl in *; lia| |].
  { intros s [Hs Hals] _. pose proof (range_byte_step s Hs Hals) as Hstep.
    destruct (range_bytes fill s) as [[s'|s']|]; [done| |done].
    split; [done|]. destruct s' as [[wh r] bm']; destruct Hstep as (? & ? & ? & _). simpl. lia. }
  simpl. destruct (loop_total range_inv (λ s, s.1.2) (λ s, range_inv s ∧ s.1.2 = 0)
    (range_tail op) (S (Z.to_nat l)) s2) as ([[wh r] bm'] & -> & Hs3 & Hr3);
    [done|destruct s2 as [[wh r] bm']; destruct Hs2 as (? & ? & ? & _); simpl in *; lia| |].
  { intros [[wh r] bm'] Hs Hpos. simpl.
    destruct (Z.eqb_spec r 0); [done|].
    destruct (range_one_bit wh r bm') as (bm2 & -> & ?); [done..|]. simpl.
    split; [done|]. destruct Hwf as (_ & _ & ? & _). destruct Hs as (? & ? & ? & _).
    rewrite s32_small; lia. }
  simpl in *. subst r. destruct Hs3 as (? & ? & ? & d' & -> & Hupd). exists d'.
  split; [done|]. by replace l with (wh - start) by lia.
Qed.
End range.

Lemma range_guard bm d start l : bitmap_wf bm d → 0 <= start → 0 <= l → start + l <= len bm →
  0 < start + l → (len bm <=? usize (s32 (start + l - 1))) = false.
Proof.
  intros (_ & _ & ? & _) ? ? ? ?. rewrite s32_small, usize_small31 by lia. apply Z.leb_gt. lia.
Qed.

Lemma bitmap_set_range_spec bm d start l :
  bitmap_wf bm d → 0 <= start → 0 <= l → start + l <= len bm → 0 < start + l →
  ∃ d', bitmap_set_range bm start l = Some (0, with_data bm d') ∧ updated true d d' start l.
Proof.
  intros Hwf Hs Hl Hin Hpos. unfold bitmap_set_range. pose proof Hwf as (-> & _).
  erewrite range_guard by done.
  destruct (range_loops_spec bitmap_set true 0xff bitmap_set_spec) with bm d start l
    as (d' & -> & ?); [lia| |done..|by exists d'].
  intros j Hj. change 0xff with (Z.ones 8). rewrite Z.testbit_ones_nonneg by lia.
  apply Z.ltb_lt. lia.
Qed.

Lemma bitmap_unset_range_spec bm d start l :
  bitmap_wf bm d → 0 <= start → 0 <= l → start + l <= len bm → 0 < start + l →
  ∃ d', bitmap_unset_range bm start l = Some (0, with_data bm d') ∧ updated false d d' start l.
Proof.
  intros Hwf Hs Hl Hin Hpos. unfold bitmap_unset_range. pose proof Hwf as (-> & _).
  erewrite range_guard by done.
  destruct (range_loops_spec bitmap_unset false 0x0 bitmap_unset_spec) with bm d start l
    as (d' & -> & ?); [lia| |done..|by exists d'].
  intros j Hj. apply Z.bits_0.
Qed.

(** A range that reaches past the end of the map is refused and nothing written. *)
Lemma bitmap_range_oob bm d start l : bitmap_wf bm d →
  0 <= start < 2 ^ 31 → 0 <= l → start + l - 1 < 2 ^ 31 → start + l = 0 ∨ len bm < start + l →
  bitmap_set_range bm start l = Some (- EFAULT, bm) ∧
  bitmap_unset_range bm start l = Some (- EFAULT, bm).
Proof.
  intros (Hdata & _ & Hlen & _) Hs Hl Hsl Hout.
  assert ((len bm <=? usize (s32 (start + l - 1))) = true) as Hg.
  { apply Z.leb_le. rewrite s32_small by lia. destruct Hout.
    - pose proof (usize_neg (start + l - 1)). lia.
    - rewrite usize_small31 by lia. lia. }
  unfold bitmap_set_range, bitmap_unset_range. by rewrite Hdata, Hg.
Qed.

End set.

(** ** First aligned fit *)

(** The least aligned position with [m] free blocks below [l]. *)
Definition aligned_fit (d : list Z) (l al m s : Z) : Prop :=
  0 <= s ∧ s + m <= l ∧ s mod al = 0 ∧ free_range d s m ∧
  ∀ s', 0 <= s' < s → s' mod al = 0 → ¬ free_range d s' m.

Section aligned.
Context `{Target} (d : list Z) (m al : Z).
Context (Hm : 0 < m < 2 ^ 31) (Hal : 0 < al).

(** The search has looked at the bits below [p]; [taken] free blocks from an
    aligned [start] end there, and every aligned position before them meets a
    taken block. *)
Definition aligned_inv (p : Z) (s : Z * Z) : Prop :=
  let '(taken, start) := s in
  0 <= taken < m ∧ taken <= p ∧ (0 < taken → start = p - taken ∧ start mod al = 0) ∧
  free_range d (p - taken) taken ∧
  ∀ s, 0 <= s < p - taken → s mod al = 0 → ∃ i, s <= i < s + m ∧ i < p ∧ bit d i = true.

Lemma aligned_inv_set p n taken start start' : 0 < n → aligned_inv p (taken, start) →
  (∀ i, p <= i < p + n → bit d i = true) → aligned_inv (p + n) (0, start').
Proof.
  intros Hn (Ht & Htp & Hst & Hfree & Hno) Hset. split_and!; try lia.
  - intros i Hi. lia.
  - intros s Hs Hsal. destruct (Z.lt_ge_cases s (p - taken)).
    + destruct (Hno s) as (i & ? & ? & ?); [lia|done|]. exists i. split_and!; (done || lia).
    + exists (Z.max s p). split_and!; [lia..|]. apply Hset. lia.
Qed.

Lemma aligned_bit_step byte k j p s l : 
  0 <= k → 0 <= j < 8 → p = 8 * k + j → d.[k] = Some byte → p + 1 <= l → l < 2 ^ 31 →
  aligned_inv p s →
  match find_aligned_bit byte k m al j s with
  | None => False
  | Some (inl s') => aligned_inv (p + 1) s'
  | Some (inr r) => aligned_fit d l al m r
  end.
Proof.
  intros Hk Hj -> Hbyte Hl Hl31. destruct s as [taken start]. intros Hinv.
  unfold find_aligned_bit, BITMAP_BLOCKS_PER_BYTE. rewrite land_1_testbit by lia.
  assert (bit d (8 * k + j) = Z.testbit byte j) as Hbit by by apply bit_byte.
  destruct (Z.testbit byte j); simpl.
  { eapply aligned_inv_set; [lia|done|]. intros i Hi. by replace i with (8 * k + j) by lia. }
  destruct Hinv as (Ht & Htp & Hst & Hfree & Hno).
  rewrite (s32_small (k * 8 + j)) by lia. replace (k * 8 + j) with (8 * k + j) by lia.
  set (p := 8 * k + j) in *. destruct (Z.eqb_spec al 0); [lia|].
  set (start' := if taken =? 0 then p else start).
  assert (start' = p - taken) as Hstart'.
  { unfold start'. destruct (Z.eqb_spec taken 0); [lia|]. apply Hst. lia. }
  rewrite Hstart', Z.rem_mod_nonneg by lia.
  assert (free_range d (p - taken) (taken + 1)) as Hfree'.
  { intros i Hi. destruct (Z.eq_dec i p); [congruence|]. apply Hfree. lia. }
  assert (0 < taken → (p - taken) mod al = 0) as Halt.
  { intros. destruct Hst as [<- ?]; [lia|done]. }
  destruct (Z.eqb_spec ((p - taken) mod al) 0).
  2:{ assert (taken = 0) as -> by lia. destruct (Z.eqb_spec 0 m); [lia|].
      split_and!; try lia. { intros i Hi; lia. }
      intros s Hs Hsal. destruct (Z.eq_dec s p) as [->|]; [by rewrite Z.sub_0_r in *|].
      destruct (Hno s) as (i & ? & ? & ?); [lia|done|]. exists i. split_and!; (done || lia). }
  rewrite s32_small by lia. destruct (Z.eqb_spec (taken + 1) m).
  - split_and!; [lia..|done| |].
    + by replace m with (taken + 1).
    + intros s' Hs' Hal' Hrun. destruct (Hno s') as (i & ? & ? & ?); [lia|done|].
      specialize (Hrun i ltac:(lia)). congruence.
  - replace (p - taken) with (p + 1 - (taken + 1)) in * by lia. split_and!; (done || lia || idtac).
    intros s Hs Hsal. destruct (Hno s) as (i & ? & ? & ?); [lia|done|].
    exists i. split_and!; (done || lia).
Qed.

Lemma aligned_byte_step k s l :
  is_bytes d → 0 <= k → 8 * (k + 1) <= l → l < 2 ^ 31 → l <= 8 * Z.of_nat (length d) →
  aligned_inv (8 * k) s →
  match find_aligned_byte d m al k s with
  | None => False
  | Some (inl s') => aligned_inv (8 * (k + 1)) s'
  | Some (inr r) => aligned_fit d l al m r
  end.
Proof.
  intros Hd Hk Hl Hl31 Hlen Hinv. destruct s as [taken start]. unfold find_aligned_byte.
  destruct (zget_is_Some d k) as [byte Hb]; [lia|]. rewrite Hb. simpl.
  replace (8 * (k + 1)) with (8 * k + 8) by lia.
  destruct (Z.eqb_spec byte 0xff) as [->|].
  { eapply aligned_inv_set; [lia|done|]. intros i Hi.
    replace i with (8 * k + (i - 8 * k)) by lia. rewrite (bit_byte _ _ _ _ Hb) by lia.
    change 0xff with (Z.ones 8). rewrite Z.testbit_ones_nonneg by lia. apply Z.ltb_lt. lia. }
  destruct (for_loop_total (λ j, aligned_inv (8 * k + j)) (aligned_fit d l al m)
    (find_aligned_bit byte k m al) 8 0 (taken, start)) as (r & -> & Hr); [by rewrite Z.add_0_r| |].
  { intros j s Hj Hs. rewrite Z.add_assoc.
    by apply (aligned_bit_step byte k j (8 * k + j) s l); try lia. }
  by destruct r as [[t st]|r].
Qed.

(** [bitmap_find_space_aligned] finds the least aligned position, among the
    whole bytes of the map only. *)
Lemma bitmap_find_space_aligned_spec bm : bitmap_wf bm d →
  ∃ r, bitmap_find_space_aligned bm m al = Some r ∧
    (aligned_fit d (8 * (len bm / 8)) al m r ∨
     r = - ENODATA ∧ ∀ s, 0 <= s → s + m <= 8 * (len bm / 8) → s mod al = 0 → ¬ free_range d s m).
Proof.
  intros (Hdata & Hd & Hlen & Hle). unfold bitmap_find_space_aligned. rewrite Hdata.
  assert (0 <= len bm / 8 ∧ 8 * (len bm / 8) <= len bm) by (Z.div_mod_to_equations; lia).
  destruct (for_loop_total (λ k, aligned_inv (8 * k)) (aligned_fit d (8 * (len bm / 8)) al m)
    (find_aligned_byte d m al) (Z.to_nat (len bm / 8)) 0 (0, 0)) as (r & -> & Hr).
  { split_and!; try lia. intros i Hi. lia. }
  { intros k s Hk Hs. apply aligned_byte_step; (done || lia). }
  simpl. destruct r as [[t st]|r]; [|by eauto]. eexists. split; [done|]. right. split; [done|].
  rewrite Z2Nat.id, Z.add_0_l in Hr by lia. destruct Hr as (Ht & Htp & Hst & Hfree & Hno).
  intros s Hs Hsm Hsal Hrun. destruct (Hno s) as (i & ? & ? & ?); [lia|done|].
  specialize (Hrun i ltac:(lia)). congruence.
Qed.
End aligned.

(** ** Properties *)

Section properties.
Context `{Target}.

(** C17. [bitmap_find_space] is a first-fit search, on a well-formed map and for a
    positive request. If the length is a multiple of 32 or less than 32, it
    terminates, reads only bytes of the map, and returns the least position from
    which enough bits are clear, or [-ENODATA] exactly when no such position exists
    below [len]: the word-at-a-time scan is equivalent to testing every position.
    With any other length that holds of the whole words only: when they have no
    room, the search goes on behind them and its behaviour is undefined. *)
Theorem bitmap_find_space_first_fit bm d req :
  bitmap_wf bm d → 0 < req < 2 ^ 31 → let words := 32 * (len bm / 32) in
  if decide (searchable (len bm)) then
    ∃ r, bitmap_find_space bm req = Some r ∧ (first_fit d (len bm) req r ∨ r = - ENODATA ∧ no_fit d (len bm) req)
  else
    (∃ r, bitmap_find_space bm req = Some r ∧ first_fit d words req r) ∨
    (bitmap_find_space bm req = None ∧ no_fit d words req).
Proof.
  intros Hwf Hreq words. destruct (decide _) as [Hsr|Hsr]; [by apply bitmap_find_space_spec|]. unfold bitmap_find_space.
  pose proof (next_range_trailing_undefined bm d req 0 Hwf Hreq Hsr) as Hr. pose proof Hwf as (-> & _). rewrite usize_small31 by lia.
  destruct Hr as [([l st] & -> & Hl & Hfit)|[-> Hno]]; simpl in *; [left|by right].
  destruct (Z.ltb_spec l 0); [lia|]. by exists st.
Qed.

(** [bitmap_find_space_aligned] returns the least position that is a
    multiple of the alignment and starts enough clear bits, among the whole
    bytes of the map; it fails with [-ENODATA] exactly when there is none
    there. *)
Theorem bitmap_find_space_aligned_first_fit bm d req align :
  bitmap_wf bm d → 0 < req < 2 ^ 31 → 0 < align →
  ∃ r, bitmap_find_space_aligned bm req align = Some r ∧
    (aligned_fit d (8 * (len bm / 8)) align req r ∨
     r = - ENODATA ∧
     ∀ s, 0 <= s → s + req <= 8 * (len bm / 8) → s mod align = 0 → ¬ free_range d s req).
Proof. intros ? ? ?. by apply bitmap_find_space_aligned_spec. Qed.

(** [bitmap_set_range] sets exactly the bits of the range, bit by bit, a
    byte at a time or both, and on a range that was clear
    [bitmap_unset_range] gives back the very same bytes. *)
Theorem bitmap_set_unset_range bm d start l :
  bitmap_wf bm d → 0 <= start → 0 < l → start + l <= len bm → free_range d start l →
  ∃ d', bitmap_set_range bm start l = Some (0, with_data bm d') ∧
    (∀ i, 0 <= i → bit d' i = bool_decide (start <= i < start + l) || bit d i) ∧
    bitmap_unset_range (with_data bm d') start l = Some (0, bm).
Proof.
  intros Hwf Hs Hl Hin Hfree.
  destruct (bitmap_set_range_spec bm d start l) as (d' & Heq & Hupd); [done|lia..|].
  exists d'. split; [done|]. split.
  { destruct Hupd as (_ & _ & Hbit). intros i Hi. rewrite Hbit by done.
    by case_decide; case_bool_decide. }
  destruct (bitmap_unset_range_spec (with_data bm d') d' start l) as (d2 & -> & Hupd2);
    [by eapply bitmap_wf_with_data|simpl; lia..|].
  pose proof Hwf as (Hdata & Hd & _).
  assert (d2 = d) as -> by (eapply (updated_undo true); eauto).
  do 2 f_equal. unfold with_data. simpl. destruct bm; simpl in *. by subst.
Qed.

(** Ranges that reach past the end of the map are refused with [-EFAULT],
    and so is the empty range at 0, whose last index is [-1]: nothing is
    written. *)
Theorem bitmap_range_refused bm d start l :
  bitmap_wf bm d → 0 <= start < 2 ^ 31 → 0 <= l → start + l - 1 < 2 ^ 31 →
  start + l = 0 ∨ len bm < start + l →
  bitmap_set_range bm start l = Some (- EFAULT, bm) ∧
  bitmap_unset_range bm start l = Some (- EFAULT, bm).
Proof. apply bitmap_range_oob. Qed.

End properties.

Definition example_bytes : list Z := [0xff; 0x0f; 0; 0xff; 0x1; 0; 0].
Definition example_bitmap : bitmap_t := bitmap_wrap (Some example_bytes) 50.

Lemma example_wf : bitmap_wf example_bitmap example_bytes.
Proof. split_and!; [done| |done..]. repeat constructor; done. Qed.

Definition example_words : bitmap_t := bitmap_wrap (Some [0xff; 0x0f; 0; 0xff; 0x1; 0; 0; 0]) 64.
Lemma example_words_wf : bitmap_wf example_words [0xff; 0x0f; 0; 0xff; 0x1; 0; 0; 0].
Proof. split_and!; [done| |done..]. repeat constructor; done. Qed.

Lemma bitmap_find_space_first_fit_witness :
  (∃ r, @bitmap_find_space target32 example_words 13 = Some r ∧ first_fit [0xff; 0x0f; 0; 0xff; 0x1; 0; 0; 0] 64 13 r) ∧
  @bitmap_find_space target32 example_bitmap 12 = Some 12 ∧ @bitmap_find_space target32 example_bitmap 13 = None.
Proof.
  split; [|by split].
  destruct (@bitmap_find_space_first_fit target32 _ _ 13 example_words_wf ltac:(lia)) as (r & E & [Hr|[-> _]]); [by exists r|discriminate E].
Defined.

Lemma bitmap_find_space_aligned_first_fit_witness :
  ∃ r, bitmap_find_space_aligned example_bitmap 8 4 = Some r ∧
    (aligned_fit example_bytes 48 4 8 r ∨
     r = - ENODATA ∧
     ∀ s, 0 <= s → s + 8 <= 48 → s mod 4 = 0 → ¬ free_range example_bytes s 8).
Proof. apply (bitmap_find_space_aligned_first_fit _ _ 8 4 example_wf); lia. Defined.

Lemma bitmap_set_unset_range_witness :
  ∃ d', @bitmap_set_range target32 example_bitmap 33 12 = Some (0, with_data example_bitmap d') ∧
    (∀ i, 0 <= i → bit d' i = bool_decide (33 <= i < 33 + 12) || bit example_bytes i) ∧
    @bitmap_unset_range target32 (with_data example_bitmap d') 33 12 = Some (0, example_bitmap).
Proof.
  apply (@bitmap_set_unset_range target32 _ _ 33 12 example_wf); [lia..|done|].
  intros i Hi. assert (∃ n, (n < 12)%nat ∧ i = 33 + Z.of_nat n) as (n & Hn & ->).
  { exists (Z.to_nat (i - 33)). lia. }
  do 12 (destruct n as [|n]; [reflexivity|]). lia.
Defined.

Lemma bitmap_range_refused_witness :
  @bitmap_set_range target64 example_bitmap 45 6 = Some (- EFAULT, example_bitmap) ∧
  @bitmap_unset_range target64 example_bitmap 45 6 = Some (- EFAULT, example_bitmap).
Proof.
  apply (@bitmap_range_refused target64 _ _ 45 6 example_wf); [lia..|]. right. simpl. lia.
Defined.
