(* ===== verification/Alloc.v ===== *)
(** * Alloc: what the kernel's allocators promise

    The physical memory manager, the kernel zone allocator and the heap all
    keep a bitmap of blocks and hand out ranges of it. [RangeAllocator] is the
    contract they share. From the contract alone, any sequence of calls keeps
    the live allocations pairwise disjoint. *)
From stdpp Require Import relations.
From S2P Require Import Prelude.

Definition range_disjoint (r1 r2 : Z * Z) : Prop :=
  ∀ i, r1.1 <= i < r1.1 + r1.2 → r2.1 <= i < r2.1 + r2.2 → False.

#[global] Instance range_disjoint_sym : Symmetric range_disjoint.
Proof. intros r1 r2 Hdis i H1 H2. by apply (Hdis i). Qed.

Definition in_range (r : Z * Z) (i : Z) : bool := bool_decide (r.1 <= i < r.1 + r.2).

Class RangeAllocator (St Req Handle : Type) := {
  ra_alloc : Req → St → option (option Handle * St);
  ra_free : Handle → St → option St;
  ra_range : Handle → Z * Z;
  (** Block [i] is taken. *)
  ra_taken : St → Z → bool;
  ra_inv : St → Prop;
  ra_req_ok : Req → Prop;
  (** What a caller that may free the handle knows about the state. *)
  ra_owned : St → Handle → Prop;

  ra_owned_taken st h i : ra_owned st h → in_range (ra_range h) i = true → ra_taken st i = true;

  (** An allocation succeeds with blocks that were all free, and takes exactly
      those, or fails and leaves the state as it was. *)
  ra_alloc_law r st : ra_inv st → ra_req_ok r →
    ∃ h st', ra_alloc r st = Some (h, st') ∧ ra_inv st' ∧
      match h with
      | None => st' = st
      | Some h =>
          (∀ i, in_range (ra_range h) i = true → ra_taken st i = false) ∧
          (∀ i, 0 <= i → ra_taken st' i = in_range (ra_range h) i || ra_taken st i) ∧
          ra_owned st' h ∧ 0 < (ra_range h).2 ∧
          ∀ h0, ra_owned st h0 → ra_owned st' h0
      end;

  (** Freeing an owned handle frees exactly its blocks. *)
  ra_free_law h st : ra_inv st → ra_owned st h →
    ∃ st', ra_free h st = Some st' ∧ ra_inv st' ∧
      (∀ i, 0 <= i → ra_taken st' i = negb (in_range (ra_range h) i) && ra_taken st i) ∧
      ∀ h0, ra_owned st h0 → range_disjoint (ra_range h) (ra_range h0) → ra_owned st' h0;
}.

Section reach.
Context {St Req Handle : Type} `{!RangeAllocator St Req Handle}.

(** The system: the allocator's state and the handles its clients hold. *)
Inductive alloc_step : St * list Handle → St * list Handle → Prop :=
  | step_alloc st live r h st' :
      ra_req_ok r → ra_alloc r st = Some (Some h, st') →
      alloc_step (st, live) (st', h :: live)
  | step_fail st live r st' :
      ra_req_ok r → ra_alloc r st = Some (None, st') →
      alloc_step (st, live) (st', live)
  | step_free st live1 h live2 st' :
      ra_free h st = Some st' →
      alloc_step (st, live1 ++ h :: live2) (st', live1 ++ live2).

Definition disjoint_handles (h1 h2 : Handle) : Prop := range_disjoint (ra_range h1) (ra_range h2).

Fixpoint pairwise_disjoint (live : list Handle) : Prop :=
  match live with
  | [] => True
  | h :: live => Forall (disjoint_handles h) live ∧ pairwise_disjoint live
  end.

Definition live_ok (s : St * list Handle) : Prop :=
  ra_inv s.1 ∧ Forall (ra_owned s.1) s.2 ∧ pairwise_disjoint s.2.

Lemma pairwise_app l1 l2 : pairwise_disjoint (l1 ++ l2) ↔
  pairwise_disjoint l1 ∧ pairwise_disjoint l2 ∧
  Forall (λ h, Forall (disjoint_handles h) l2) l1.
Proof.
  induction l1 as [|h l1 IH]; simpl.
  - split; [|tauto]. intros Hp. split; [done|]. by split; [|constructor].
  - rewrite IH, Forall_app, Forall_cons. tauto.
Qed.

Lemma pairwise_remove l1 h l2 : pairwise_disjoint (l1 ++ h :: l2) →
  pairwise_disjoint (l1 ++ l2) ∧ Forall (disjoint_handles h) (l1 ++ l2).
Proof.
  rewrite !pairwise_app, Forall_app. simpl. intros (H1 & [Hh H2] & Hx). split_and!; auto.
  - eapply Forall_impl; [exact Hx|]. by intros h' [_ ?]%Forall_cons.
  - eapply Forall_impl; [exact Hx|]. intros h' [Hdis _]%Forall_cons.
    unfold disjoint_handles in *. by symmetry.
Qed.

Lemma alloc_step_ok s s' : alloc_step s s' → live_ok s → live_ok s'.
Proof.
  intros Hstep (Hinv & Howned & Hpair). destruct Hstep as [st live r h st' Hr Ha|st live r st' Hr Ha|st l1 h l2 st' Hf];
    simpl in *.
  - destruct (ra_alloc_law r st Hinv Hr) as (h' & st2 & Ha' & Hinv' & Hlaw).
    rewrite Ha in Ha'. simplify_eq. destruct Hlaw as (Hfree & Htk & Hown & Hn & Hmono).
    split_and!; simpl; [done| |split; [|done]].
    + apply Forall_cons. split; [done|]. eapply Forall_impl; eauto.
    + eapply Forall_impl; [exact Howned|]. intros h0 Hh0 i Hi Hi0.
      assert (ra_taken st i = true).
      { eapply ra_owned_taken; [done|]. by apply bool_decide_eq_true. }
      rewrite Hfree in *; [done|]. by apply bool_decide_eq_true.
  - destruct (ra_alloc_law r st Hinv Hr) as (h' & st2 & Ha' & Hinv' & Hlaw).
    rewrite Ha in Ha'. by simplify_eq.
  - apply Forall_app in Howned as [Ho1 [Hoh Ho2]%Forall_cons].
    destruct (pairwise_remove _ _ _ Hpair) as [Hpair' Hdis].
    destruct (ra_free_law h st Hinv Hoh) as (st2 & Hf' & Hinv' & _ & Hkeep).
    rewrite Hf in Hf'. simplify_eq. split_and!; simpl; [done| |done].
    assert (Forall (ra_owned st) (l1 ++ l2)) as Hall by by apply Forall_app.
    rewrite Forall_forall in Hall, Hdis. apply Forall_forall. intros h0 Hh0.
    apply Hkeep; [by apply Hall|by apply Hdis].
Qed.

Lemma alloc_reachable_ok s s' : rtc alloc_step s s' → live_ok s → live_ok s'.
Proof. induction 1; eauto using alloc_step_ok. Qed.

Lemma pairwise_lookup live i j h1 h2 : pairwise_disjoint live → i ≠ j →
  live !! i = Some h1 → live !! j = Some h2 → disjoint_handles h1 h2.
Proof.
  revert i j. induction live as [|h live IH]; [done|].
  intros [|i] [|j] [Hh Hp] Hij H1 H2; simplify_eq/=.
  - by eapply Forall_lookup_1 in Hh.
  - unfold disjoint_handles. symmetry. by eapply Forall_lookup_1 in Hh.
  - eapply IH; [done| |done..]. congruence.
Qed.

(** Two live allocations, whenever they were made and whatever was allocated
    and freed in between, never overlap. *)
Lemma live_disjoint st0 st live i j h1 h2 : ra_inv st0 →
  rtc alloc_step (st0, []) (st, live) → i ≠ j →
  live !! i = Some h1 → live !! j = Some h2 →
  range_disjoint (ra_range h1) (ra_range h2).
Proof.
  intros Hinv Hreach Hij H1 H2.
  destruct (alloc_reachable_ok _ _ Hreach) as (_ & _ & Hp); [by repeat split|].
  by eapply (pairwise_lookup live i j).
Qed.

(** What is taken is what is live, and what was taken at the start. *)
Definition live_at (live : list Handle) (i : Z) : bool := existsb (λ h, in_range (ra_range h) i) live.
Definition tracks (st0 : St) (s : St * list Handle) : Prop :=
  live_ok s ∧ ∀ i, 0 <= i → ra_taken s.1 i = live_at s.2 i || ra_taken st0 i ∧ (live_at s.2 i = true → ra_taken st0 i = false).

Lemma live_at_disjoint h live i : Forall (disjoint_handles h) live → in_range (ra_range h) i = true → live_at live i = false.
Proof.
  intros Hd Hi%bool_decide_eq_true. apply not_true_is_false. intros (h' & Hh' & Hi')%existsb_exists. apply bool_decide_eq_true in Hi'.
  rewrite Forall_forall in Hd. apply (Hd h') with i; [by apply list_elem_of_In|done..].
Qed.

Lemma alloc_step_tracks st0 s s' : alloc_step s s' → tracks st0 s → tracks st0 s'.
Proof.
  intros Hstep [Hok Htr]. split; [by eapply alloc_step_ok|]. destruct Hok as (Hinv & Howned & Hpair).
  destruct Hstep as [st live r h st' Hr Ha|st live r st' Hr Ha|st l1 h l2 st' Hf]; cbn [fst snd] in *.
  - destruct (ra_alloc_law r st Hinv Hr) as (h' & st2 & Ha' & _ & Hlaw). rewrite Ha in Ha'. simplify_eq. destruct Hlaw as (Hfree & Htk & _).
    intros i Hi. destruct (Htr i Hi) as [Et Hl]. rewrite Htk, Et by done. unfold live_at. cbn [existsb].
    split; [apply orb_assoc|]. intros [Hr'|Hr']%orb_prop; [|by apply Hl]. specialize (Hfree i Hr'). rewrite Et in Hfree.
    by apply orb_false_elim in Hfree as [_ ?].
  - destruct (ra_alloc_law r st Hinv Hr) as (h' & st2 & Ha' & _ & Hlaw). rewrite Ha in Ha'. by simplify_eq.
  - apply Forall_app in Howned as [_ [Hoh _]%Forall_cons]. destruct (pairwise_remove _ _ _ Hpair) as [_ Hdis].
    destruct (ra_free_law h st Hinv Hoh) as (st2 & Hf' & _ & Htk & _). rewrite Hf in Hf'. simplify_eq.
    intros i Hi. destruct (Htr i Hi) as [Et Hl]. rewrite Htk, Et by done. unfold live_at in *. rewrite existsb_app in Hl |- *. cbn [existsb] in Hl |- *.
    rewrite existsb_app.
    destruct (in_range (ra_range h) i) eqn:Eh; cbn [negb andb orb] in *; [|done]. rewrite orb_true_r in *. rewrite (Hl eq_refl).
    pose proof (live_at_disjoint h _ i Hdis Eh) as El. unfold live_at in El. rewrite existsb_app in El. by rewrite El.
Qed.

(** Once everything has been freed, the same is taken as at the start. *)
Lemma all_freed st0 st i : ra_inv st0 → rtc alloc_step (st0, []) (st, []) → 0 <= i → ra_taken st i = ra_taken st0 i.
Proof.
  intros Hinv Hreach Hi. assert (∀ s s', rtc alloc_step s s' → tracks st0 s → tracks st0 s') as Hall.
  { induction 1; eauto using alloc_step_tracks. }
  destruct (Hall _ _ Hreach) as [_ Htr]; [split; [by repeat split|done]|]. apply (Htr i Hi).
Qed.

(** A list of calls: an allocation, or the freeing of one of the live handles. *)
Definition alloc_op (s : St * list Handle) (op : Req + nat) : option (St * list Handle) :=
  match op with
  | inl r => '(h, st) ← ra_alloc r s.1; Some (st, match h with Some h => h :: s.2 | None => s.2 end)
  | inr k => h ← s.2 !! k; st ← ra_free h s.1; Some (st, delete k s.2)
  end.
Fixpoint alloc_run (ops : list (Req + nat)) (s : St * list Handle) : option (St * list Handle) :=
  match ops with [] => Some s | op :: ops => s ← alloc_op s op; alloc_run ops s end.

Lemma alloc_run_reach ops s s' : Forall (λ op, match op with inl r => ra_req_ok r | inr _ => True end) ops →
  alloc_run ops s = Some s' → rtc alloc_step s s'.
Proof.
  revert s. induction ops as [|op ops IH]; intros [st live] Hok; cbn [alloc_run]; [by intros [= <-]|].
  apply Forall_cons in Hok as [Ho Hok]. intros ([st1 live1] & E1 & E2)%bind_Some. eapply rtc_l; [|by apply (IH _ Hok E2)].
  destruct op as [r|k]; cbn in E1.
  - apply bind_Some in E1 as ([[h|] st2] & Ea & [= <- <-]); by econstructor.
  - apply bind_Some in E1 as (h & Eh & (st2 & Ef & [= <- <-])%bind_Some). rewrite delete_take_drop.
    rewrite <- (take_drop_middle live k h Eh) at 1. by constructor.
Qed.

End reach.

(** ** Allocators over a bitmap

    An allocator whose handles are owned because their blocks are taken, and
    because of what it keeps in those blocks ([aux], such as a heap header),
    meets the contract as soon as its calls take and clear the right blocks. *)
Section block_allocator.
Context {St Req Handle : Type}.
Context (alloc : Req → St → option (option Handle * St)) (free : Handle → St → option St).
Context (range : Handle → Z * Z) (taken : St → Z → bool).
Context (inv : St → Prop) (req_ok : Req → Prop) (valid : Handle → Prop) (aux : St → Handle → Prop).

Definition block_owned (st : St) (h : Handle) : Prop :=
  valid h ∧ (∀ i, in_range (range h) i = true → taken st i = true) ∧ aux st h.

Hypothesis range_nonneg : ∀ h, valid h → 0 <= (range h).1.

Hypothesis alloc_blocks : ∀ r st, inv st → req_ok r →
  ∃ h st', alloc r st = Some (h, st') ∧ inv st' ∧
    match h with
    | None => st' = st
    | Some h => valid h ∧ 0 < (range h).2 ∧
        (∀ i, in_range (range h) i = true → taken st i = false) ∧
        (∀ i, 0 <= i → taken st' i = in_range (range h) i || taken st i) ∧
        aux st' h ∧
        ∀ h0, valid h0 → range_disjoint (range h) (range h0) → aux st h0 → aux st' h0
    end.

Hypothesis free_blocks : ∀ h st, inv st → block_owned st h →
  ∃ st', free h st = Some st' ∧ inv st' ∧
    (∀ i, 0 <= i → taken st' i = negb (in_range (range h) i) && taken st i) ∧
    ∀ h0, valid h0 → range_disjoint (range h) (range h0) → aux st h0 → aux st' h0.

Lemma in_range_nonneg h i : valid h → in_range (range h) i = true → 0 <= i.
Proof. intros Hv%range_nonneg Hi%bool_decide_eq_true. lia. Qed.

Definition block_allocator : RangeAllocator St Req Handle.
Proof using All.
  refine {| ra_alloc := alloc; ra_free := free; ra_range := range; ra_taken := taken;
            ra_inv := inv; ra_req_ok := req_ok; ra_owned := block_owned |}.
  - intros st h i (_ & Htk & _). apply Htk.
  - intros r st Hinv Hr. destruct (alloc_blocks r st Hinv Hr) as (h & st' & Ha & Hinv' & Hh).
    exists h, st'. split_and!; [done..|]. destruct h as [h|]; [|done].
    destruct Hh as (Hv & Hpos & Hfree & Htk & Haux & Hkeep). split_and!; [done..| |done|].
    + split_and!; [done| |done]. intros i Hi. rewrite Htk by by eapply in_range_nonneg. by rewrite Hi.
    + intros h0 (Hv0 & Htk0 & Haux0). split_and!; [done| |].
      * intros i Hi. rewrite Htk by by eapply in_range_nonneg. rewrite Htk0 by done. apply orb_true_r.
      * apply Hkeep; [done| |done]. intros i Hi Hi0.
        specialize (Hfree i ltac:(by apply bool_decide_eq_true)).
        specialize (Htk0 i ltac:(by apply bool_decide_eq_true)). congruence.
  - intros h st Hinv Ho. destruct (free_blocks h st Hinv Ho) as (st' & Hf & Hinv' & Htk & Hkeep).
    exists st'. split_and!; [done..|]. intros h0 (Hv0 & Htk0 & Haux0) Hdis.
    split_and!; [done| |by apply Hkeep].
    intros i Hi. rewrite Htk by by eapply in_range_nonneg. rewrite Htk0 by done.
    destruct (in_range (range h) i) eqn:Hh; [|done].
    apply bool_decide_eq_true in Hi, Hh. by destruct (Hdis i).
Defined.

End block_allocator.
