(* ===== verification/Pmm.v ===== *)
(** * Pmm: the physical memory manager, [kernel/mem/pmm.c]

    One bit per physical block of [PMM_BLOCK_SIZE] bytes. The lock that the
    public functions hold around the [_locked] ones is not modelled: each call
    is one step. A pointer is its address, [0] is null. *)
From stdpp Require Import relations.
From S2P Require Import Prelude Platform Bitmap Alloc.

Record memory_layout_t := mk_memory_layout {
  ml_base : Z; ml_size : Z; ml_flags : Z }.

Definition MEMORY_LAYOUT_FLAG_TERMINATE : Z := Z.shiftl 1 0.

Record boot_args_t := mk_boot_args {
  ba_paddr : Z;
  ba_vaddr : Z;
  ba_kernel_data_size : Z;
  ba_ram_base : Z;
  ba_ram_size : Z;
  ba_reserved_areas : list memory_layout_t;
}.

Record pmm_state_t := mk_pmm_state {
  kernel_va_base : Z;
  kernel_data_size : Z;
  mat : bitmap_t;
  ram_size : Z;
  ram_offset : Z;
  max_blocks : Z;
  used_blocks : Z;
}.

Definition set_mat (st : pmm_state_t) (m : bitmap_t) (used : Z) : pmm_state_t :=
  {| kernel_va_base := kernel_va_base st; kernel_data_size := kernel_data_size st;
     mat := m; ram_size := ram_size st; ram_offset := ram_offset st;
     max_blocks := max_blocks st; used_blocks := used |}.

Section pmm.
Context `{Platform}.

Definition _pmm_block_id_to_ptr (st : pmm_state_t) (value : Z) : Z :=
  usize (usize (value * PMM_BLOCK_SIZE) + ram_offset st).

Definition _pmm_ptr_to_block_id (st : pmm_state_t) (value : Z) : Z :=
  usize (value - ram_offset st) / PMM_BLOCK_SIZE.

Definition _pmm_mark_avail_region (region_start region_len : Z) (st : pmm_state_t)
  : option pmm_state_t :=
  let region_start := usize (ROUND_CEIL region_start PMM_BLOCK_SIZE - ram_offset st) in
  let region_len := ROUND_FLOOR region_len PMM_BLOCK_SIZE in
  let block_id := region_start / PMM_BLOCK_SIZE in
  let blocks_len := region_len / PMM_BLOCK_SIZE in
  let used := usize (used_blocks st - blocks_len) in
  '(_, m) ← bitmap_unset_range (mat st) (s32 block_id) (s32 blocks_len);
  Some (set_mat st m used).

Definition _pmm_mark_used_region (region_start region_len : Z) (st : pmm_state_t)
  : option pmm_state_t :=
  let region_start := usize (ROUND_FLOOR region_start PMM_BLOCK_SIZE - ram_offset st) in
  let region_len := ROUND_CEIL region_len PMM_BLOCK_SIZE in
  let block_id := region_start / PMM_BLOCK_SIZE in
  let blocks_len := region_len / PMM_BLOCK_SIZE in
  let used := usize (used_blocks st - blocks_len) in
  '(_, m) ← bitmap_set_range (mat st) (s32 block_id) (s32 blocks_len);
  Some (set_mat st m used).

Definition _pmm_init_ram (ba : boot_args_t) (st : pmm_state_t) : pmm_state_t :=
  {| kernel_va_base := kernel_va_base st; kernel_data_size := kernel_data_size st;
     mat := mat st; ram_size := usize (ba_ram_size ba); ram_offset := usize (ba_ram_base ba);
     max_blocks := max_blocks st; used_blocks := used_blocks st |}.

(** [mem] is the memory after the kernel image, where the map is put. *)
Definition _pmm_allocate_mat (mem : list Z) (st : pmm_state_t) : option pmm_state_t :=
  let mat_cover_len := ram_size st in
  let m := bitmap_wrap (Some mem) (mat_cover_len / PMM_BLOCK_SIZE) in
  mem' ← zwrite mem 0 (replicate (Z.to_nat (len m / 8)) 0xff);
  Some {| kernel_va_base := kernel_va_base st;
     kernel_data_size := usize (kernel_data_size st + ROUND_CEIL (len m / 8) PMM_BLOCK_SIZE);
     mat := with_data m mem'; ram_size := ram_size st; ram_offset := ram_offset st;
     max_blocks := mat_cover_len / PMM_BLOCK_SIZE;
     used_blocks := mat_cover_len / PMM_BLOCK_SIZE |}.

(** The loop over the reserved areas ends at the terminator; a list without
    one is read past its end. *)
Fixpoint _pmm_init_mat_areas (mem_layout : list memory_layout_t) (st : pmm_state_t)
  : option pmm_state_t :=
  match mem_layout with
  | [] => None
  | a :: rest =>
      if TEST_FLAG (ml_flags a) MEMORY_LAYOUT_FLAG_TERMINATE then Some st
      else st' ← _pmm_mark_used_region (usize (ml_base a)) (usize (ml_size a)) st;
           _pmm_init_mat_areas rest st'
  end.

Definition _pmm_init_mat (ba : boot_args_t) (st : pmm_state_t) : option pmm_state_t :=
  st ← _pmm_mark_avail_region (ram_offset st) (ram_size st) st;
  _pmm_init_mat_areas (ba_reserved_areas ba) st.

Definition _pmm_init_from_desc (ba : boot_args_t) (mem : list Z) (st : pmm_state_t)
  : option pmm_state_t :=
  let st := {| kernel_va_base := ROUND_FLOOR (ba_vaddr ba) PMM_BLOCK_SIZE;
               kernel_data_size := ROUND_CEIL (ba_kernel_data_size ba) PMM_BLOCK_SIZE;
               mat := mat st; ram_size := ram_size st; ram_offset := ram_offset st;
               max_blocks := max_blocks st; used_blocks := used_blocks st |} in
  let st := _pmm_init_ram ba st in
  st ← _pmm_allocate_mat mem st;
  st ← _pmm_init_mat ba st;
  st ← (if ram_offset st <? ba_paddr ba
        then _pmm_mark_used_region (ram_offset st) (usize (ba_paddr ba - ram_offset st)) st
        else Some st);
  _pmm_mark_used_region (ba_paddr ba) (kernel_data_size st) st.

Definition pmm_state0 : pmm_state_t :=
  mk_pmm_state 0 0 (bitmap_wrap None 0) 0 0 0 0.

Definition pmm_setup (ba : boot_args_t) (mem : list Z) : option pmm_state_t :=
  _pmm_init_from_desc ba mem pmm_state0.

Definition pmm_alloc_blocks (count : Z) (st : pmm_state_t) : option (Z * pmm_state_t) :=
  block_id ← bitmap_find_space (mat st) (s32 count);
  if block_id <? 0 then Some (0, st) else
  '(_, m) ← bitmap_set_range (mat st) block_id (s32 count);
  let st := set_mat st m (usize (used_blocks st + count)) in
  Some (_pmm_block_id_to_ptr st block_id, st).

Definition pmm_alloc_blocks_aligned (count align : Z) (st : pmm_state_t)
  : option (Z * pmm_state_t) :=
  block_id ← bitmap_find_space_aligned (mat st) (s32 count) (s32 align);
  if block_id <? 0 then Some (0, st) else
  '(_, m) ← bitmap_set_range (mat st) block_id (s32 count);
  let st := set_mat st m (usize (used_blocks st + count)) in
  Some (_pmm_block_id_to_ptr st block_id, st).

Definition pmm_free_blocks (block_id count : Z) (st : pmm_state_t) : option (Z * pmm_state_t) :=
  let used := usize (used_blocks st - count) in
  '(r, m) ← bitmap_unset_range (mat st) (s32 block_id) (s32 count);
  Some (r, set_mat st m used).

Definition block_count (size : Z) : Z := usize (size + PMM_BLOCK_SIZE - 1) / PMM_BLOCK_SIZE.

Definition pmm_alloc (size : Z) (st : pmm_state_t) : option (Z * pmm_state_t) :=
  pmm_alloc_blocks (block_count size) st.

Definition pmm_alloc_aligned (size align : Z) (st : pmm_state_t) : option (Z * pmm_state_t) :=
  let block_align := usize (align + PMM_BLOCK_SIZE - 1) / PMM_BLOCK_SIZE in
  if block_align =? 1 then pmm_alloc_blocks (block_count size) st
  else pmm_alloc_blocks_aligned (block_count size) block_align st.

Definition pmm_free (block size : Z) (st : pmm_state_t) : option (Z * pmm_state_t) :=
  pmm_free_blocks (_pmm_ptr_to_block_id st block) (block_count size) st.

Definition pmm_get_free_blocks (st : pmm_state_t) : Z := usize (max_blocks st - used_blocks st).
Definition pmm_get_ram_in_kb (st : pmm_state_t) : Z := ram_size st / 1024.
Definition pmm_get_free_space_in_kb (st : pmm_state_t) : Z :=
  usize (pmm_get_free_blocks st * (PMM_BLOCK_SIZE / 1024)).

End pmm.

(** ** Invariant *)

Section pmm_spec.
Context `{Platform}.

Lemma block_size_pow : ∃ k, 10 <= k <= 12 ∧ PMM_BLOCK_SIZE = 2 ^ k.
Proof. destruct pmm_block_size_cases as [-> | ->]; [exists 10|exists 12]; split; lia. Qed.

Lemma block_size_pos : 1024 <= PMM_BLOCK_SIZE <= 4096.
Proof. destruct pmm_block_size_cases as [-> | ->]; lia. Qed.

(** The map behind [st] is [d]; the RAM it covers lies below the end of the
    address space; the search can go to its end; and block 0 of a RAM that starts at address 0 is never
    handed out, since its address would read as a failure. *)
Definition pmm_inv (st : pmm_state_t) (d : list Z) : Prop :=
  bitmap_wf (mat st) d ∧ 0 <= ram_offset st ∧
  ram_offset st + len (mat st) * PMM_BLOCK_SIZE <= 2 ^ ptr_bits ∧
  (ram_offset st = 0 → bit d 0 = true) ∧ 0 <= used_blocks st < 2 ^ ptr_bits ∧ searchable (len (mat st)).

(** A request whose size does not overflow when rounded up, for a number of
    blocks that an [int] can hold. *)
Definition size_ok (size : Z) : Prop :=
  0 < size ∧ size + PMM_BLOCK_SIZE <= 2 ^ ptr_bits ∧
  (size + PMM_BLOCK_SIZE - 1) / PMM_BLOCK_SIZE < 2 ^ 31.

Lemma block_count_eq size : size_ok size →
  block_count size = (size + PMM_BLOCK_SIZE - 1) / PMM_BLOCK_SIZE ∧ 0 < block_count size < 2 ^ 31.
Proof.
  intros (? & ? & ?). pose proof block_size_pos. unfold block_count.
  rewrite usize_small by lia. split; [done|split; [|done]].
  apply Z.div_str_pos. lia.
Qed.

Lemma block_addr st d b : pmm_inv st d → 0 <= b < len (mat st) →
  _pmm_block_id_to_ptr st b = ram_offset st + b * PMM_BLOCK_SIZE ∧
  _pmm_ptr_to_block_id st (ram_offset st + b * PMM_BLOCK_SIZE) = b.
Proof.
  intros (_ & ? & ? & _) Hb. pose proof block_size_pos.
  assert (0 <= b * PMM_BLOCK_SIZE ∧ b * PMM_BLOCK_SIZE + PMM_BLOCK_SIZE <= len (mat st) * PMM_BLOCK_SIZE) by nia.
  unfold _pmm_block_id_to_ptr, _pmm_ptr_to_block_id. rewrite !usize_small by (rewrite ?usize_small by lia; lia).
  split; [lia|].
  replace (ram_offset st + b * PMM_BLOCK_SIZE - ram_offset st) with (b * PMM_BLOCK_SIZE) by lia.
  apply Z.div_mul. lia.
Qed.

(** The state after blocks [b .. b + n) of [d] became [v]. *)
Definition blocks_set (v : bool) (st st' : pmm_state_t) (d : list Z) (b n : Z) : Prop :=
  ∃ d', updated v d d' b n ∧
    st' = set_mat st (with_data (mat st) d')
            (usize (if v then used_blocks st + n else used_blocks st - n)).

Lemma blocks_set_inv v st st' d b n : pmm_inv st d → blocks_set v st st' d b n →
  0 <= b → (v = false → ram_offset st = 0 → 0 < b) → ∃ d', pmm_inv st' d' ∧ updated v d d' b n.
Proof.
  intros (Hwf & Hoff & Hend & Hnull & Hused & Hsr) (d' & Hupd & ->) Hb Hv. exists d'. split; [|done].
  split_and!; simpl; [by eapply bitmap_wf_with_data|done|done| |apply usize_range..|done].
  intros Hz. destruct Hupd as (_ & _ & Hbit). rewrite Hbit by lia.
  case_decide; [|by apply Hnull]. destruct v; [done|]. specialize (Hv eq_refl Hz). lia.
Qed.

(** *** Allocation *)

(** [pmm_alloc_blocks] and [pmm_alloc_blocks_aligned] once a position [b] is
    found: the blocks were free, they become taken, and their address is
    returned. *)
Definition allocated (st : pmm_state_t) (d : list Z) (count b ptr : Z) (st' : pmm_state_t) : Prop :=
  0 <= b ∧ b + count <= len (mat st) ∧ free_range d b count ∧
  ptr = ram_offset st + b * PMM_BLOCK_SIZE ∧ blocks_set true st st' d b count.

Lemma allocate_found st d count b : pmm_inv st d → 0 < count < 2 ^ 31 →
  0 <= b → b + count <= len (mat st) → free_range d b count →
  ∃ ptr st', ('(_, m) ← bitmap_set_range (mat st) b (s32 count);
    let st := set_mat st m (usize (used_blocks st + count)) in
    Some (_pmm_block_id_to_ptr st b, st)) = Some (ptr, st') ∧ allocated st d count b ptr st'.
Proof.
  intros Hinv Hc Hb Hin Hfree. pose proof Hinv as (Hwf & _). rewrite s32_small by lia.
  destruct (bitmap_set_range_spec (mat st) d b count) as (d' & -> & Hupd); [done|lia..|]. simpl.
  eexists _, _. split; [done|]. split_and!; [done..| |by exists d'].
  destruct (block_addr st d b) as [<- _]; [done|lia|done].
Qed.

Lemma pmm_alloc_blocks_spec st d count : pmm_inv st d → 0 < count < 2 ^ 31 →
  ∃ ptr st', pmm_alloc_blocks count st = Some (ptr, st') ∧
    ((∃ b, first_fit d (len (mat st)) count b ∧ allocated st d count b ptr st') ∨
     ptr = 0 ∧ st' = st ∧ no_fit d (len (mat st)) count).
Proof.
  intros Hinv Hc. pose proof Hinv as (Hwf & _ & _ & _ & _ & Hsr). unfold pmm_alloc_blocks.
  destruct (bitmap_find_space_spec (mat st) d count Hwf Hc Hsr) as (r & Hr & Hcase).
  rewrite s32_small in * by lia. rewrite Hr. simpl. destruct Hcase as [Hfit|[-> Hno]].
  - pose proof Hfit as (Hr0 & Hin & Hfree & _). destruct (Z.ltb_spec r 0); [lia|].
    destruct (allocate_found st d count r) as (ptr & st' & Heq & Hal); [done..|].
    rewrite s32_small in Heq by lia. exists ptr, st'. split; [exact Heq|eauto].
  - simpl. eauto 10.
Qed.

Lemma pmm_alloc_blocks_aligned_spec st d count align :
  pmm_inv st d → 0 < count < 2 ^ 31 → 0 < align < 2 ^ 31 →
  ∃ ptr st', pmm_alloc_blocks_aligned count align st = Some (ptr, st') ∧
    ((∃ b, aligned_fit d (8 * (len (mat st) / 8)) align count b ∧
           allocated st d count b ptr st') ∨
     ptr = 0 ∧ st' = st).
Proof.
  intros Hinv Hc Hal. pose proof Hinv as (Hwf & _). unfold pmm_alloc_blocks_aligned.
  destruct (bitmap_find_space_aligned_spec d count align Hc ltac:(lia) (mat st) Hwf)
    as (r & Hr & Hcase).
  rewrite !s32_small in * by lia. rewrite Hr. simpl. destruct Hcase as [Hfit|[-> Hno]].
  - pose proof Hfit as (Hr0 & Hin & Hmod & Hfree & _). destruct (Z.ltb_spec r 0); [lia|].
    destruct (allocate_found st d count r) as (ptr & st' & Heq & Hall);
      [done|done|done|Z.div_mod_to_equations; lia|done|].
    rewrite s32_small in Heq by lia. exists ptr, st'. split; [exact Heq|eauto].
  - simpl. eauto 10.
Qed.

(** *** Freeing *)

Lemma pmm_free_spec st d b size : pmm_inv st d → size_ok size →
  0 <= b → b + block_count size <= len (mat st) →
  ∃ st', pmm_free (ram_offset st + b * PMM_BLOCK_SIZE) size st = Some (0, st') ∧
    blocks_set false st st' d b (block_count size).
Proof.
  intros Hinv Hsize Hb Hin. pose proof Hinv as (Hwf & _).
  pose proof Hwf as (_ & _ & ? & _). destruct (block_count_eq size Hsize) as [_ Hc].
  unfold pmm_free. destruct (block_addr st d b) as [_ ->]; [done|lia|].
  unfold pmm_free_blocks. rewrite !s32_small by lia.
  destruct (bitmap_unset_range_spec (mat st) d b (block_count size)) as (d' & -> & Hupd); [done|lia..|].
  simpl. eexists. split; [done|]. by exists d'.
Qed.

(** Allocating and freeing gives back the state, the map and the counter. *)
Lemma allocated_free st d count b ptr st' size : pmm_inv st d → size_ok size →
  count = block_count size → allocated st d count b ptr st' → ptr ≠ 0 →
  pmm_free ptr size st' = Some (0, st).
Proof.
  intros Hinv Hsize -> (Hb & Hin & Hfree & -> & Hset) Hnz.
  pose proof Hset as (d1 & Hupd1 & Hst').
  destruct (block_count_eq size Hsize) as [_ Hc].
  destruct (blocks_set_inv true st st' d b (block_count size)) as (d1' & Hinv' & _); [done..|].
  assert (d1' = d1) as ->.
  { destruct Hinv' as ((Hd1 & _) & _). rewrite Hst' in Hd1. simpl in Hd1. congruence. }
  destruct (pmm_free_spec st' d1 b size) as (st2 & Hf & (d2 & Hupd2 & Hst2));
    [done|done|done|by rewrite Hst'|].
  assert (ram_offset st' = ram_offset st) as Hoff by by rewrite Hst'.
  rewrite Hoff in Hf. rewrite Hf. do 2 f_equal. rewrite Hst2, Hst'. simpl.
  pose proof Hinv as ((Hdata & Hd & _) & _ & _ & _ & Hused).
  assert (d2 = d) as -> by (eapply (updated_undo true); eauto).
  unfold set_mat; simpl. unfold with_data; simpl.
  destruct st as [va ks [dat ln] rs ro mb ub]; simpl in *. subst. f_equal.
  unfold usize. pose proof ptr_bits_ge. rewrite Zminus_mod_idemp_l. rewrite Z.add_simpl_r.
  apply Z.mod_small. lia.
Qed.

End pmm_spec.

(** ** The contract *)

Inductive pmm_req :=
  | PmmAlloc (size : Z)
  | PmmAllocAligned (size align : Z).

Section contract.
Context `{Platform}.
(** The start of RAM, fixed at boot. *)
Context (off : Z).

(** A handle is what [pmm_free] needs: the address and the size. *)
Definition pmm_ra_alloc (r : pmm_req) (st : pmm_state_t)
  : option (option (Z * Z) * pmm_state_t) :=
  match r with
  | PmmAlloc size =>
      '(ptr, st) ← pmm_alloc size st; Some (if ptr =? 0 then None else Some (ptr, size), st)
  | PmmAllocAligned size align =>
      '(ptr, st) ← pmm_alloc_aligned size align st;
      Some (if ptr =? 0 then None else Some (ptr, size), st)
  end.

Definition pmm_ra_free (h : Z * Z) (st : pmm_state_t) : option pmm_state_t :=
  '(_, st) ← pmm_free h.1 h.2 st; Some st.

Definition pmm_range (h : Z * Z) : Z * Z := ((h.1 - off) / PMM_BLOCK_SIZE, block_count h.2).

Definition pmm_taken (st : pmm_state_t) (i : Z) : bool :=
  match data (mat st) with Some d => bit d i | None => true end.

Definition pmm_req_ok (r : pmm_req) : Prop :=
  match r with
  | PmmAlloc size => size_ok size
  | PmmAllocAligned size align => size_ok size ∧ size_ok align
  end.

Definition pmm_ok (st : pmm_state_t) : Prop := ram_offset st = off ∧ ∃ d, pmm_inv st d.

Definition pmm_owned (st : pmm_state_t) (h : Z * Z) : Prop :=
  size_ok h.2 ∧ h.1 ≠ 0 ∧ ∃ b, 0 <= b ∧ b + block_count h.2 <= len (mat st) ∧
    h.1 = off + b * PMM_BLOCK_SIZE ∧
    ∀ i, b <= i < b + block_count h.2 → pmm_taken st i = true.

Lemma range_of_block b size :
  pmm_range (off + b * PMM_BLOCK_SIZE, size) = (b, block_count size).
Proof.
  unfold pmm_range. simpl. f_equal. pose proof block_size_pos.
  replace (off + b * PMM_BLOCK_SIZE - off) with (b * PMM_BLOCK_SIZE) by lia. apply Z.div_mul. lia.
Qed.

Lemma pmm_taken_set v st st' d b n i : pmm_inv st d → blocks_set v st st' d b n → 0 <= i →
  pmm_taken st' i = if decide (b <= i < b + n) then v else pmm_taken st i.
Proof.
  intros ((Hd & _) & _) (d' & (_ & _ & Hbit) & ->) Hi. unfold pmm_taken. simpl. rewrite Hd.
  by apply Hbit.
Qed.

(** The two searches give the same promise. *)
Lemma pmm_any_alloc r st d : pmm_inv st d → pmm_req_ok r →
  ∃ ptr st', (match r with
      | PmmAlloc size => pmm_alloc size st
      | PmmAllocAligned size align => pmm_alloc_aligned size align st end) = Some (ptr, st') ∧
    let size := match r with PmmAlloc size | PmmAllocAligned size _ => size end in
    ((∃ b, allocated st d (block_count size) b ptr st') ∨ ptr = 0 ∧ st' = st).
Proof.
  intros Hinv Hr. destruct r as [size|size align]; simpl in *.
  - destruct (block_count_eq size Hr) as [_ Hc].
    destruct (pmm_alloc_blocks_spec st d (block_count size)) as (ptr & st' & Heq & Hcase); [done..|].
    exists ptr, st'. split; [done|]. destruct Hcase as [(b & _ & Hal)|(-> & -> & _)]; eauto.
  - destruct Hr as [Hs Ha]. destruct (block_count_eq size Hs) as [_ Hc].
    destruct (block_count_eq align Ha) as [_ Hca]. unfold pmm_alloc_aligned.
    fold (block_count align). destruct (Z.eqb_spec (block_count align) 1).
    + destruct (pmm_alloc_blocks_spec st d (block_count size)) as (ptr & st' & Heq & Hcase); [done..|].
      exists ptr, st'. split; [done|]. destruct Hcase as [(b & _ & Hal)|(-> & -> & _)]; eauto.
    + destruct (pmm_alloc_blocks_aligned_spec st d (block_count size) (block_count align))
        as (ptr & st' & Heq & Hcase); [done..|].
      exists ptr, st'. split; [done|]. destruct Hcase as [(b & _ & Hal)|(-> & ->)]; eauto.
Qed.

(** A successful allocation is never mistaken for a failure. *)
Lemma allocated_nonnull st d count b ptr st' : pmm_inv st d → 0 < count →
  allocated st d count b ptr st' → ptr ≠ 0.
Proof.
  intros (_ & ? & _ & Hnull & _) Hc (Hb & _ & Hfree & -> & _) Hz. pose proof block_size_pos.
  assert (ram_offset st = 0 ∧ b = 0) as [Ho ->] by nia.
  specialize (Hnull Ho). rewrite (Hfree 0) in Hnull by lia. done.
Qed.

Lemma pmm_alloc_law r st : pmm_ok st → pmm_req_ok r →
  ∃ h st', pmm_ra_alloc r st = Some (h, st') ∧ pmm_ok st' ∧
    match h with
    | None => st' = st
    | Some h =>
        (∀ i, in_range (pmm_range h) i = true → pmm_taken st i = false) ∧
        (∀ i, 0 <= i → pmm_taken st' i = in_range (pmm_range h) i || pmm_taken st i) ∧
        pmm_owned st' h ∧ 0 < (pmm_range h).2 ∧
        ∀ h0, pmm_owned st h0 → pmm_owned st' h0
    end.
Proof.
  intros (Hoff & d & Hinv) Hr.
  destruct (pmm_any_alloc r st d Hinv Hr) as (ptr & st' & Heq & Hcase).
  set (size := match r with PmmAlloc size | PmmAllocAligned size _ => size end) in *.
  assert (pmm_ra_alloc r st = Some (if ptr =? 0 then None else Some (ptr, size), st')) as ->.
  { by destruct r; simpl in *; rewrite Heq. }
  eexists _, _. split; [done|].
  assert (size_ok size) as Hsize by (destruct r; simpl in *; tauto).
  clear Heq. clearbody size.
  destruct (block_count_eq size Hsize) as [_ Hc].
  destruct Hcase as [[b Hal]|[-> ->]]; [|simpl; split; [by split; eauto|done]].
  pose proof (allocated_nonnull st d (block_count size) b ptr st' Hinv (proj1 Hc) Hal) as Hnz.
  destruct Hal as (Hb & Hin & Hfree & Hptr & Hset). rewrite Hoff in Hptr.
  destruct (Z.eqb_spec ptr 0); [done|]. rewrite Hptr, range_of_block.
  assert (∀ i, 0 <= i → pmm_taken st' i = if decide (b <= i < b + block_count size) then true else pmm_taken st i) as Htk.
  { intros. by eapply pmm_taken_set. }
  assert (len (mat st') = len (mat st) ∧ ram_offset st' = off) as [Hlen Hoff'].
  { destruct Hset as (d' & _ & ->). simpl. done. }
  split_and!.
  - split; [done|]. destruct (blocks_set_inv _ _ _ _ _ _ Hinv Hset) as (d' & ? & _); [done|done|].
    by exists d'.
  - intros i Hi%bool_decide_eq_true. simpl in Hi. unfold pmm_taken.
    destruct Hinv as ((-> & _) & _). by apply Hfree.
  - intros i Hi. rewrite Htk by done. unfold in_range. simpl. case_decide; case_bool_decide; done.
  - split; [done|]. split; [simpl; by rewrite <- Hptr|]. exists b. simpl.
    split_and!; [lia|lia|done|]. intros i Hi. rewrite Htk by lia. by rewrite decide_True.
  - simpl. lia.
  - intros h0 (? & ? & b0 & ? & ? & ? & Htaken). split_and!; [done..|]. exists b0.
    split_and!; [done|lia|done|]. intros i Hi. rewrite Htk by lia. case_decide; [done|]. by apply Htaken.
Qed.

Lemma pmm_free_law h st : pmm_ok st → pmm_owned st h →
  ∃ st', pmm_ra_free h st = Some st' ∧ pmm_ok st' ∧
    (∀ i, 0 <= i → pmm_taken st' i = negb (in_range (pmm_range h) i) && pmm_taken st i) ∧
    ∀ h0, pmm_owned st h0 → range_disjoint (pmm_range h) (pmm_range h0) → pmm_owned st' h0.
Proof.
  intros (Hoff & d & Hinv). destruct h as [addr size].
  intros (Hsize & Hnz & b & Hb & Hin & Haddr & Htaken). simpl in *. subst addr.
  destruct (pmm_free_spec st d b size) as (st' & Hf & Hset); [done..|].
  unfold pmm_ra_free. simpl. rewrite Hoff in Hf. rewrite Hf. simpl.
  eexists. split; [done|]. rewrite range_of_block.
  assert (∀ i, 0 <= i → pmm_taken st' i = if decide (b <= i < b + block_count size) then false else pmm_taken st i) as Htk.
  { intros. by eapply pmm_taken_set. }
  assert (len (mat st') = len (mat st) ∧ ram_offset st' = off) as [Hlen Hoff'].
  { destruct Hset as (d' & _ & ->). simpl. done. }
  pose proof block_size_pos. split_and!.
  - split; [done|]. destruct (blocks_set_inv _ _ _ _ _ _ Hinv Hset) as (d' & ? & _);
      [done| |by exists d'].
    intros _ Hz. destruct (Z.eq_dec b 0) as [->|]; lia.
  - intros i Hi. rewrite Htk by done. unfold in_range. simpl. case_decide; case_bool_decide; done.
  - intros h0 (? & ? & b0 & ? & ? & Heq & Htaken0) Hdis. split_and!; [done..|]. exists b0.
    split_and!; [done|lia|done|]. intros i Hi. rewrite Htk by lia. case_decide; [|by apply Htaken0].
    destruct h0 as [a0 s0]. simpl in *. subst a0. rewrite range_of_block in Hdis.
    destruct (Hdis i); simpl; lia.
Qed.

#[global, program] Instance pmm_allocator : RangeAllocator pmm_state_t pmm_req (Z * Z) := {|
  ra_alloc := pmm_ra_alloc; ra_free := pmm_ra_free; ra_range := pmm_range;
  ra_taken := pmm_taken; ra_inv := pmm_ok; ra_req_ok := pmm_req_ok; ra_owned := pmm_owned;
|}.
Next Obligation.
  intros st [addr size] i (Hsize & Hnz & b & Hb & Hin & Haddr & Htaken) Hi. simpl in *.
  subst addr. rewrite range_of_block in Hi. apply bool_decide_eq_true in Hi. by apply Htaken.
Qed.
Next Obligation. exact pmm_alloc_law. Qed.
Next Obligation. exact pmm_free_law. Qed.

End contract.

(** ** Boot *)

Section setup.
Context `{Platform}.

Definition blocks_up (size : Z) : Z := (size + (PMM_BLOCK_SIZE - 1)) / PMM_BLOCK_SIZE.

Lemma round_up size : 0 <= size → size + PMM_BLOCK_SIZE <= 2 ^ ptr_bits →
  ROUND_CEIL size PMM_BLOCK_SIZE = blocks_up size * PMM_BLOCK_SIZE.
Proof.
  intros. unfold blocks_up. destruct block_size_pow as (k & Hk & Heq). rewrite Heq in *.
  rewrite ROUND_CEIL_spec by lia. assert (0 < 2 ^ k) by (apply Z.pow_pos_nonneg; lia).
  pose proof (Z.div_mod (size + (2 ^ k - 1)) (2 ^ k)). lia.
Qed.

Lemma round_aligned a : 0 <= a → a + PMM_BLOCK_SIZE <= 2 ^ ptr_bits → a mod PMM_BLOCK_SIZE = 0 →
  ROUND_CEIL a PMM_BLOCK_SIZE = a ∧ ROUND_FLOOR a PMM_BLOCK_SIZE = a.
Proof.
  intros ? ? Hm. destruct block_size_pow as (k & Hk & Heq). rewrite Heq in *.
  assert (0 < 2 ^ k) by (apply Z.pow_pos_nonneg; lia).
  rewrite ROUND_CEIL_spec, ROUND_FLOOR_spec by lia. split; [|lia].
  rewrite Z.add_mod, Hm, Z.add_0_l, Z.mod_mod, (Z.mod_small (2 ^ k - 1)) by lia. lia.
Qed.

Lemma blocks_up_facts size : 0 <= size →
  0 <= blocks_up size ∧ size <= blocks_up size * PMM_BLOCK_SIZE.
Proof.
  intros. pose proof block_size_pos. unfold blocks_up. split; [apply Z.div_pos; lia|].
  pose proof (Z.div_mod (size + (PMM_BLOCK_SIZE - 1)) PMM_BLOCK_SIZE).
  pose proof (Z.mod_pos_bound (size + (PMM_BLOCK_SIZE - 1)) PMM_BLOCK_SIZE). lia.
Qed.

(** The region starts at block [b] and has [blocks_up size] blocks. *)
Lemma mark_used_spec st d b size : bitmap_wf (mat st) d →
  0 <= ram_offset st → ram_offset st mod PMM_BLOCK_SIZE = 0 →
  ram_offset st + (len (mat st) + 1) * PMM_BLOCK_SIZE <= 2 ^ ptr_bits →
  0 <= b → 0 <= size → b + blocks_up size <= len (mat st) →
  ∃ d', _pmm_mark_used_region (ram_offset st + b * PMM_BLOCK_SIZE) size st =
      Some (set_mat st (with_data (mat st) d') (usize (used_blocks st - blocks_up size))) ∧
    updated true d d' b (blocks_up size).
Proof.
  intros Hwf Hoff Hal Hend Hb Hs Hin. pose proof block_size_pos. pose proof Hwf as (Hdata & Hd & ? & _).
  destruct (blocks_up_facts size Hs) as [? Hsz].
  assert (b * PMM_BLOCK_SIZE + blocks_up size * PMM_BLOCK_SIZE <= len (mat st) * PMM_BLOCK_SIZE) by nia.
  unfold _pmm_mark_used_region. rewrite round_up by nia.
  destruct (round_aligned (ram_offset st + b * PMM_BLOCK_SIZE)) as [_ ->]; [nia|nia| |].
  { by rewrite Z.mod_add by lia. }
  replace (ram_offset st + b * PMM_BLOCK_SIZE - ram_offset st) with (b * PMM_BLOCK_SIZE) by lia.
  rewrite (usize_small (b * _)), !Z.div_mul, !s32_small by nia.
  destruct (Z.eq_dec (b + blocks_up size) 0) as [Hz|].
  - assert (b = 0 ∧ blocks_up size = 0) as [-> ->] by lia.
    destruct (bitmap_range_oob (mat st) d 0 0) as [-> _]; [done|lia..|]. simpl.
    exists d. split; [by rewrite with_data_id|by apply updated_refl].
  - destruct (bitmap_set_range_spec (mat st) d b (blocks_up size)) as (d' & -> & Hupd); [done|lia..|].
    simpl. by exists d'.
Qed.

(** An area of the memory map that lies in RAM and starts at a block. *)
Definition area_ok (off blocks : Z) (a : memory_layout_t) : Prop :=
  TEST_FLAG (ml_flags a) MEMORY_LAYOUT_FLAG_TERMINATE = false ∧
  ∃ b, 0 <= b ∧ ml_base a = off + b * PMM_BLOCK_SIZE ∧ 0 <= ml_size a ∧
    b + blocks_up (ml_size a) <= blocks.

Definition in_area (addr : Z) (a : memory_layout_t) : bool :=
  (ml_base a <=? addr) && (addr <? ml_base a + ml_size a).

Definition area_blocks (areas : list memory_layout_t) : Z :=
  foldr (λ a n, blocks_up (ml_size a) + n) 0 areas.

Lemma in_area_block off a b i : 0 <= i → ml_base a = off + b * PMM_BLOCK_SIZE →
  in_area (off + i * PMM_BLOCK_SIZE) a = bool_decide (b <= i < b + blocks_up (ml_size a)).
Proof.
  intros Hi Hb. pose proof block_size_pos. unfold in_area, blocks_up. rewrite Hb.
  apply eq_bool_prop_intro. rewrite bool_decide_spec, andb_True, !Is_true_true, Z.leb_le, Z.ltb_lt.
  destruct block_size_pow as (k & Hk & Heq).
  assert (b <= i ↔ off + b * PMM_BLOCK_SIZE <= off + i * PMM_BLOCK_SIZE) as Hle by nia.
  rewrite <- Hle.
  assert (i - b < (ml_size a + (PMM_BLOCK_SIZE - 1)) / PMM_BLOCK_SIZE ↔
          (i - b) * PMM_BLOCK_SIZE < ml_size a) as Hlt.
  { pose proof (Z.div_mod (ml_size a + (PMM_BLOCK_SIZE - 1)) PMM_BLOCK_SIZE).
    pose proof (Z.mod_pos_bound (ml_size a + (PMM_BLOCK_SIZE - 1)) PMM_BLOCK_SIZE). nia. }
  lia.
Qed.

Lemma areas_spec areas term rest st d : bitmap_wf (mat st) d →
  0 <= ram_offset st → ram_offset st mod PMM_BLOCK_SIZE = 0 →
  ram_offset st + (len (mat st) + 1) * PMM_BLOCK_SIZE <= 2 ^ ptr_bits →
  Forall (area_ok (ram_offset st) (len (mat st))) areas →
  TEST_FLAG (ml_flags term) MEMORY_LAYOUT_FLAG_TERMINATE = true →
  0 <= used_blocks st < 2 ^ ptr_bits →
  ∃ d', _pmm_init_mat_areas (areas ++ term :: rest) st =
      Some (set_mat st (with_data (mat st) d') (usize (used_blocks st - area_blocks areas))) ∧
    length d' = length d ∧ is_bytes d' ∧
    ∀ i, 0 <= i → bit d' i = existsb (in_area (ram_offset st + i * PMM_BLOCK_SIZE)) areas || bit d i.
Proof.
  intros Hwf Hoff Hal Hend Hok Hterm. revert st d Hwf Hoff Hal Hend Hok.
  induction areas as [|a areas IH]; intros st d Hwf Hoff Hal Hend Hok Hused; simpl.
  { rewrite Hterm. exists d. pose proof Hwf as (Hdata & ? & _). split_and!; [|done..].
    rewrite with_data_id, Z.sub_0_r, usize_small by done. by destruct st. }
  apply Forall_cons in Hok as [(Hflag & b & Hb & Hbase & Hs & Hin) Hok].
  rewrite Hflag. pose proof block_size_pos.
  pose proof Hwf as (_ & _ & Hlen & _).
  destruct (blocks_up_facts (ml_size a) Hs) as [? Hsz].
  rewrite !usize_small by nia. rewrite Hbase.
  destruct (mark_used_spec st d b (ml_size a)) as (d1 & -> & Hupd); [done..|]. simpl.
  destruct (IH (set_mat st (with_data (mat st) d1) (usize (used_blocks st - blocks_up (ml_size a)))) d1)
    as (d' & -> & Hl' & Hb' & Hbit); [by eapply bitmap_wf_with_data|done..|apply usize_range|].
  exists d'. destruct Hupd as (Hl1 & Hb1 & Hbit1). split_and!; [|congruence|done|].
  - do 2 f_equal. simpl. unfold usize. rewrite Zminus_mod_idemp_l. f_equal. lia.
  - intros i Hi. rewrite Hbit, Hbit1 by done. simpl.
    rewrite (in_area_block _ a b) by done. case_decide; case_bool_decide; try done.
    by rewrite orb_true_r.
Qed.

(** A boot description the map can be built from: RAM, the kernel image and
    every reserved area start at a block and lie in RAM, and the memory after
    the image has room for the map. *)
Record boot_ok (ba : boot_args_t) (mem : list Z) (areas : list memory_layout_t)
    (blocks kblocks : Z) : Prop := {
  bo_off : 0 <= ba_ram_base ba ∧ ba_ram_base ba mod PMM_BLOCK_SIZE = 0;
  bo_ram : ba_ram_size ba = blocks * PMM_BLOCK_SIZE ∧ 0 < blocks < 2 ^ 31;
  bo_end : ba_ram_base ba + (blocks + 1) * PMM_BLOCK_SIZE <= 2 ^ ptr_bits;
  bo_mem : is_bytes mem ∧ blocks <= 8 * Z.of_nat (length mem);
  bo_areas : ∃ term rest, ba_reserved_areas ba = areas ++ term :: rest ∧
     TEST_FLAG (ml_flags term) MEMORY_LAYOUT_FLAG_TERMINATE = true;
  bo_areas_ok : Forall (area_ok (ba_ram_base ba) blocks) areas;
  bo_kernel : 0 <= kblocks ∧ ba_paddr ba = ba_ram_base ba + kblocks * PMM_BLOCK_SIZE;
  bo_ksize : 0 <= ba_kernel_data_size ba ∧
    kblocks + blocks_up (ba_kernel_data_size ba) + blocks_up (blocks / 8) <= blocks;
}.

Lemma blocks_up_mul n : blocks_up (n * PMM_BLOCK_SIZE) = n.
Proof.
  pose proof block_size_pos. unfold blocks_up.
  rewrite Z.add_comm, Z.div_add, Z.div_small by lia. lia.
Qed.


(** Clearing the whole map. *)
Lemma mark_avail_all st d : bitmap_wf (mat st) d → 0 < len (mat st) →
  0 <= ram_offset st → ram_offset st mod PMM_BLOCK_SIZE = 0 →
  ram_offset st + (len (mat st) + 1) * PMM_BLOCK_SIZE <= 2 ^ ptr_bits →
  ∃ d', _pmm_mark_avail_region (ram_offset st) (len (mat st) * PMM_BLOCK_SIZE) st =
      Some (set_mat st (with_data (mat st) d') (usize (used_blocks st - len (mat st)))) ∧
    updated false d d' 0 (len (mat st)).
Proof.
  intros Hwf Hpos Hoff Hal Hend. pose proof block_size_pos. pose proof Hwf as (_ & _ & ? & _).
  unfold _pmm_mark_avail_region.
  destruct (round_aligned (ram_offset st)) as [-> _]; [done|nia|done|].
  destruct (round_aligned (len (mat st) * PMM_BLOCK_SIZE)) as [_ ->]; [nia|nia|by apply Z.mod_mul; lia|].
  rewrite Z.sub_diag, (usize_small 0), Z.div_mul by lia. rewrite (s32_small (len _)) by lia.
  destruct (bitmap_unset_range_spec (mat st) d 0 (len (mat st))) as (d' & -> & Hupd); [done|lia..|].
  simpl. by exists d'.
Qed.

(** What boot leaves behind: a block is taken exactly when it holds part of the
    memory up to the end of the kernel image and the map, or of a reserved
    area; and the counter of used blocks has been decremented for each of
    them, where the blocks taken should have been added. *)
Lemma pmm_setup_spec ba mem areas blocks kblocks : boot_ok ba mem areas blocks kblocks →
  let kernel := blocks_up (ba_kernel_data_size ba) + blocks_up (blocks / 8) in
  ∃ st d, pmm_setup ba mem = Some st ∧ bitmap_wf (mat st) d ∧ len (mat st) = blocks ∧
    ram_offset st = ba_ram_base ba ∧ max_blocks st = blocks ∧
    (∀ i, 0 <= i < blocks → bit d i =
       (i <? kblocks + kernel) || existsb (in_area (ba_ram_base ba + i * PMM_BLOCK_SIZE)) areas) ∧
    used_blocks st = usize (- (area_blocks areas + kblocks + kernel)).
Proof.
  intros [[Hoff Hal] [Hram Hblk] Hend [Hmem Hlen] (term & rest & Hareas & Hterm) Haok [Hk Hpaddr] [Hks Hfit]].
  pose proof block_size_pos. cbv zeta.
  destruct (blocks_up_facts _ Hks) as [Hku Hku2].
  destruct (blocks_up_facts (blocks / 8)) as [Hmu Hmu2]; [Z.div_mod_to_equations; lia|].
  assert (usize (blocks * PMM_BLOCK_SIZE) = blocks * PMM_BLOCK_SIZE) as Hur by (apply usize_small; nia).
  assert (usize (ba_ram_base ba) = ba_ram_base ba) as Huo by (apply usize_small; nia).
  unfold pmm_setup, _pmm_init_from_desc, _pmm_init_ram, _pmm_allocate_mat. simpl.
  rewrite Hram, Hur, Huo, Z.div_mul by lia.
  assert (Z.of_nat (length (replicate (Z.to_nat (blocks / 8)) 0xff)) = blocks / 8) as Hrep.
  { rewrite length_replicate. Z.div_mod_to_equations; lia. }
  rewrite zwrite_in by (rewrite ?Hrep; Z.div_mod_to_equations; lia). simpl.
  set (mem' := replicate _ _ ++ _).
  assert (length mem' = length mem ∧ is_bytes mem') as [Hlen' Hmem'].
  { unfold mem'. rewrite length_app, length_drop, length_replicate. split.
    - Z.div_mod_to_equations; lia.
    - apply Forall_app. split; [apply Forall_replicate; lia|by apply Forall_drop]. }
  unfold _pmm_init_mat. simpl.
  set (st0 := {| kernel_va_base := _; mat := with_data _ _ |}).
  assert (bitmap_wf (mat st0) mem') as Hwf0 by (split_and!; simpl; done || lia).
  destruct (mark_avail_all st0 mem') as (d1 & Hav & Hupd1); [done|simpl; lia..|done|simpl; lia|].
  simpl in Hav. rewrite Hav. simpl. set (st1 := set_mat st0 _ _).
  assert (bitmap_wf (mat st1) d1) as Hwf1 by by eapply (bitmap_wf_with_data (mat st0)).
  rewrite Hareas.
  destruct (areas_spec areas term rest st1 d1) as (d2 & Hinit & Hl2 & Hb2 & Hbit2);
    [done|done|done|simpl; lia|done|done|apply usize_range|].
  rewrite Hinit. simpl. set (st2 := set_mat st1 _ _).
  assert (bitmap_wf (mat st2) d2) as Hwf2.
  { destruct Hwf1 as (_ & ? & ? & ?). split_and!; simpl in *; done || lia. }
  assert (blocks_up (kblocks * PMM_BLOCK_SIZE) = kblocks) as Hkb by apply blocks_up_mul.
  (* the blocks before the kernel *)
  assert (∃ d3, (if ba_ram_base ba <? ba_paddr ba
      then _pmm_mark_used_region (ba_ram_base ba) (usize (ba_paddr ba - ba_ram_base ba)) st2
      else Some st2) = Some (set_mat st2 (with_data (mat st2) d3) (usize (used_blocks st2 - kblocks)))
      ∧ updated true d2 d3 0 kblocks) as (d3 & Hm3 & Hupd3).
  { rewrite Hpaddr. destruct (Z.ltb_spec (ba_ram_base ba) (ba_ram_base ba + kblocks * PMM_BLOCK_SIZE)).
    - replace (ba_ram_base ba + kblocks * PMM_BLOCK_SIZE - ba_ram_base ba)
        with (kblocks * PMM_BLOCK_SIZE) by lia.
      rewrite usize_small by nia.
      destruct (mark_used_spec st2 d2 0 (kblocks * PMM_BLOCK_SIZE)) as (d3 & Hm & Hu);
        [done|done|done|simpl; lia|lia|nia|simpl; rewrite Hkb; lia|].
      rewrite Hkb in *. exists d3. split; [|done]. rewrite <- Hm. f_equal. simpl. lia.
    - assert (kblocks = 0) as -> by nia. exists d2. split.
      + rewrite with_data_id, Z.sub_0_r, usize_small by (done || apply usize_range). done.
      + apply updated_refl. by destruct Hwf2 as (_ & ? & _). }
  rewrite Hm3. simpl. set (st3 := set_mat st2 _ _).
  assert (bitmap_wf (mat st3) d3) as Hwf3 by by eapply (bitmap_wf_with_data (mat st2)).
  (* the image and the map *)
  set (ksz := usize (_ + _)).
  assert (ksz = (blocks_up (ba_kernel_data_size ba) + blocks_up (blocks / 8)) * PMM_BLOCK_SIZE) as Hksz.
  { unfold ksz. rewrite !round_up by (Z.div_mod_to_equations; nia). rewrite usize_small; nia. }
  clearbody ksz. subst ksz. rewrite Hpaddr.
  destruct (mark_used_spec st3 d3 kblocks
    ((blocks_up (ba_kernel_data_size ba) + blocks_up (blocks / 8)) * PMM_BLOCK_SIZE)) as (d4 & Hm4 & Hupd4);
    [done|done|done|simpl; lia|lia|nia|simpl; rewrite blocks_up_mul; lia|].
  simpl in Hm4. rewrite Hm4, blocks_up_mul in *.
  eexists _, d4. split; [done|]. simpl. split_and!; try done.
  - by eapply (bitmap_wf_with_data (mat st3)).
  - intros i Hi. destruct Hupd1 as (_ & _ & H1). destruct Hupd3 as (_ & _ & H3).
    destruct Hupd4 as (_ & _ & H4). rewrite H4, H3, Hbit2, H1 by lia. simpl.
    destruct (Z.ltb_spec i (kblocks + (blocks_up (ba_kernel_data_size ba) + blocks_up (blocks / 8))));
      repeat case_decide; try lia; simpl; try done. by rewrite orb_false_r.
  - rewrite (usize_sub_l _ (area_blocks _)), (usize_sub_l _ kblocks), usize_sub_l.
    f_equal. lia.
Qed.

End setup.

(** ** Properties *)

Section properties.
Context `{Platform}.

(** C3. Physical allocations never overlap: after any sequence of
    [pmm_alloc], [pmm_alloc_aligned] and [pmm_free] of live blocks, started in
    a well-formed state whose RAM is a multiple of 32 blocks (or fewer than 32),
    two live allocations have no block in common. With another number of blocks
    the search of the bitmap is undefined when it gets behind the last word. *)
Theorem pmm_live_allocations_disjoint off st0 st live i j h1 h2 :
  pmm_ok off st0 →
  rtc (alloc_step (RangeAllocator0 := pmm_allocator off)) (st0, []) (st, live) →
  i ≠ j → live !! i = Some h1 → live !! j = Some h2 →
  range_disjoint (pmm_range off h1) (pmm_range off h2).
Proof. apply (live_disjoint (RangeAllocator0 := pmm_allocator off)). Qed.

(** [pmm_alloc] hands out the first fit and [pmm_free] undoes it exactly.
    A request either returns the address of the least run of free blocks long
    enough, not null, after which freeing that address with that size restores
    the very same state, bitmap and counter included; or there is no such run,
    and null is returned and the state unchanged. *)
Theorem pmm_alloc_free st d size : pmm_inv st d → size_ok size →
  ∃ ptr st', pmm_alloc size st = Some (ptr, st') ∧
    ((∃ b, first_fit d (len (mat st)) (block_count size) b ∧
           ptr = ram_offset st + b * PMM_BLOCK_SIZE ∧ ptr ≠ 0 ∧
           pmm_free ptr size st' = Some (0, st)) ∨
     ptr = 0 ∧ st' = st ∧ no_fit d (len (mat st)) (block_count size)).
Proof.
  intros Hinv Hs. destruct (block_count_eq size Hs) as [_ Hc].
  destruct (pmm_alloc_blocks_spec st d (block_count size) Hinv Hc) as (ptr & st' & Heq & Hcase).
  exists ptr, st'. split; [done|]. destruct Hcase as [(b & Hfit & Hal)|]; [|by right].
  left. exists b. pose proof (allocated_nonnull st d _ b ptr st' Hinv (proj1 Hc) Hal).
  split_and!; [done|by destruct Hal as (_ & _ & _ & ? & _)|done|].
  by eapply allocated_free.
Qed.

(** An aligned allocation is aligned: when RAM starts at a multiple of the
    alignment, a non-null result of [pmm_alloc_aligned] is one too. *)
Theorem pmm_alloc_aligned_aligned st d size n ptr st' :
  pmm_inv st d → size_ok size → size_ok (n * PMM_BLOCK_SIZE) →
  ram_offset st mod (n * PMM_BLOCK_SIZE) = 0 →
  pmm_alloc_aligned size (n * PMM_BLOCK_SIZE) st = Some (ptr, st') → ptr ≠ 0 →
  ptr mod (n * PMM_BLOCK_SIZE) = 0.
Proof.
  intros Hinv Hs Ha Hoff Hal Hnz. pose proof block_size_pos.
  destruct (block_count_eq size Hs) as [_ Hc]. destruct (block_count_eq _ Ha) as [Hca Hca'].
  assert (block_count (n * PMM_BLOCK_SIZE) = n) as Hn.
  { rewrite Hca. replace (n * PMM_BLOCK_SIZE + PMM_BLOCK_SIZE - 1)
      with (PMM_BLOCK_SIZE - 1 + n * PMM_BLOCK_SIZE) by lia.
    rewrite Z.div_add, Z.div_small by lia. lia. }
  unfold pmm_alloc_aligned in Hal. fold (block_count (n * PMM_BLOCK_SIZE)) in Hal.
  rewrite Hn in *. assert (0 < n) by lia.
  assert (∃ b, ptr = ram_offset st + b * PMM_BLOCK_SIZE ∧ b mod n = 0) as (b & -> & Hb).
  { destruct (Z.eqb_spec n 1) as [->|].
    - destruct (pmm_alloc_blocks_spec st d _ Hinv Hc) as (p & s & Heq & Hcase).
      rewrite Heq in Hal. simplify_eq.
      destruct Hcase as [(b & _ & (_ & _ & _ & -> & _))|(-> & _)]; [|done].
      exists b. split; [done|apply Z.mod_1_r].
    - destruct (pmm_alloc_blocks_aligned_spec st d _ n Hinv Hc) as (p & s & Heq & Hcase); [lia|].
      rewrite Heq in Hal. simplify_eq.
      destruct Hcase as [(b & (_ & _ & Hb & _) & (_ & _ & _ & -> & _))|(-> & _)]; [|done].
      by exists b. }
  rewrite Z.add_mod, Hoff, Z.add_0_l, Z.mod_mod by nia.
  rewrite Z.mul_mod_distr_r, Hb by lia. done.
Qed.

(** Boot marks exactly the memory that is in use. After [pmm_setup] on a
    block-aligned description, a block is taken iff it lies before the end of
    the kernel image and its map, or in a reserved area. The counter, however,
    ends up below zero: [_pmm_mark_used_region] subtracts the blocks it takes
    from [used_blocks] instead of adding them. *)
Theorem pmm_setup_marks_used ba mem areas blocks kblocks :
  boot_ok ba mem areas blocks kblocks →
  let kernel := blocks_up (ba_kernel_data_size ba) + blocks_up (blocks / 8) in
  ∃ st d, pmm_setup ba mem = Some st ∧ bitmap_wf (mat st) d ∧ len (mat st) = blocks ∧
    ram_offset st = ba_ram_base ba ∧ max_blocks st = blocks ∧
    (∀ i, 0 <= i < blocks → bit d i =
       (i <? kblocks + kernel) || existsb (in_area (ba_ram_base ba + i * PMM_BLOCK_SIZE)) areas) ∧
    used_blocks st = usize (- (area_blocks areas + kblocks + kernel)).
Proof. apply pmm_setup_spec. Qed.

End properties.

(** A small machine: 24 blocks of RAM at 4 MiB, two of them taken. *)
Definition example_pmm : pmm_state_t :=
  mk_pmm_state 0 0 (bitmap_wrap (Some [0x03; 0; 0]) 24) (24 * 4096) 0x400000 24 2.

Lemma example_pmm_inv : @pmm_inv x86 example_pmm [0x03; 0; 0].
Proof. split_and!; try done; [repeat constructor; done|by left]. Qed.

Lemma example_size_ok size : 0 < size < 2 ^ 20 → @size_ok x86 size.
Proof.
  intros. unfold size_ok. simpl. split_and!; [lia|lia|]. Z.div_mod_to_equations; lia.
Qed.

Lemma pmm_alloc_free_witness :
  ∃ ptr st', @pmm_alloc x86 5000 example_pmm = Some (ptr, st') ∧
    ((∃ b, first_fit [0x03; 0; 0] 24 (@block_count x86 5000) b ∧
           ptr = 0x400000 + b * 4096 ∧ ptr ≠ 0 ∧
           @pmm_free x86 ptr 5000 st' = Some (0, example_pmm)) ∨
     ptr = 0 ∧ st' = example_pmm ∧ no_fit [0x03; 0; 0] 24 (@block_count x86 5000)).
Proof. exact (@pmm_alloc_free x86 _ _ 5000 example_pmm_inv (example_size_ok 5000 ltac:(lia))). Defined.

Lemma pmm_live_allocations_disjoint_witness :
  range_disjoint (@pmm_range x86 0x400000 (0x404000, 5000)) (@pmm_range x86 0x400000 (0x402000, 4097)).
Proof.
  eapply (@pmm_live_allocations_disjoint x86 0x400000 example_pmm _
            [(0x404000, 5000); (0x402000, 4097)] 0 1); [| |done|done|done].
  - split; [done|]. eexists. apply example_pmm_inv.
  - eapply rtc_l; [eapply (step_alloc _ _ (PmmAlloc 4097)); [apply example_size_ok; lia|reflexivity]|].
    eapply rtc_once. eapply (step_alloc _ _ (PmmAllocAligned 5000 8192)); [|reflexivity].
    split; apply example_size_ok; lia.
Defined.

Lemma pmm_alloc_aligned_aligned_witness : 0x404000 mod (4 * @PMM_BLOCK_SIZE x86) = 0.
Proof.
  eapply (@pmm_alloc_aligned_aligned x86 example_pmm _ 5000 4 0x404000);
    [apply example_pmm_inv|apply example_size_ok; lia|apply (example_size_ok 16384); lia|reflexivity|reflexivity|done].
Defined.

(** A boot description: 24 blocks of RAM, one reserved area, a two-block image
    loaded at the third block. *)
Definition example_boot : boot_args_t :=
  mk_boot_args 0x402000 0xc0000000 8000 0x400000 (24 * 4096)
    [mk_memory_layout 0x410000 6000 0; mk_memory_layout 0 0 1].

Lemma example_boot_ok : @boot_ok x86 example_boot [0; 0; 0] [mk_memory_layout 0x410000 6000 0] 24 2.
Proof.
  split; try done.
  - split; [|done]. repeat constructor; done.
  - by eexists _, _.
  - repeat constructor. exists 16. done.
Qed.

Lemma pmm_setup_marks_used_witness :
  ∃ st d, @pmm_setup x86 example_boot [0; 0; 0] = Some st ∧ bitmap_wf (mat st) d ∧
    len (mat st) = 24 ∧ ram_offset st = 0x400000 ∧ max_blocks st = 24 ∧
    (∀ i, 0 <= i < 24 → bit d i = (i <? 2 + (2 + 1)) ||
       existsb (in_area (0x400000 + i * 4096)) [mk_memory_layout 0x410000 6000 0]) ∧
    used_blocks st = @usize target32 (- (2 + 2 + (2 + 1))).
Proof. exact (@pmm_setup_marks_used x86 _ _ _ _ _ example_boot_ok). Defined.

(** The machine above has 7 blocks in use and reports 31 free ones out of 24. *)
Example pmm_free_blocks_after_setup :
  pmm_get_free_blocks (H := x86) <$> @pmm_setup x86 example_boot [0; 0; 0] = Some 31.
Proof. reflexivity. Qed.

(** A region that does not start at a block loses its last block: marking the
    two pages from 0x402800 takes the blocks of 0x402000 and 0x403000 and
    leaves 0x404000 free. *)
Example pmm_mark_used_unaligned :
  (λ st, data (mat st)) <$> @_pmm_mark_used_region x86 0x402800 8192 example_pmm
    = Some (Some [0x0f; 0; 0]) ∧
  in_area 0x404000 (mk_memory_layout 0x402800 8192 0) = true.
Proof. split; reflexivity. Qed.
