(* ===== verification/Kmemzone.v ===== *)
(** * Kmemzone: zones of the kernel's address space, [kernel/mem/kmemzone.c]

    Before the zone bitmap exists, zones are cut off a moving address; the
    bitmap is itself such a zone. From then on zones are runs of pages in the
    bitmap, which covers the gigabyte from [KERNEL_BASE]. The mapping of the
    zones is the virtual memory manager's and is not modelled; the lock around
    each call is not modelled either: a call is one step. *)
From stdpp Require Import relations.
From S2P Require Import Prelude Platform Bitmap Alloc.

Record kmemzone_t := mk_kmemzone { start : Z; zlen : Z }.

Record kmemzone_state := mk_kmemzone_state {
  _zoner_next_vaddr : Z;
  _zoner_bitmap : Z;
  bitmap : bitmap_t;
  _zoner_bitmap_set : bool;
}.

Definition set_next_vaddr (st : kmemzone_state) (v : Z) : kmemzone_state :=
  mk_kmemzone_state v (_zoner_bitmap st) (bitmap st) (_zoner_bitmap_set st).
Definition set_bitmap (st : kmemzone_state) (bm : bitmap_t) : kmemzone_state :=
  mk_kmemzone_state (_zoner_next_vaddr st) (_zoner_bitmap st) bm (_zoner_bitmap_set st).

Definition ZONER_BITMAP_SIZE : Z := 4 * 1024 * 8.

Section kmemzone.
Context `{Platform}.

Definition ZONER_TO_BITMAP_INDEX (x : Z) : Z := Z.shiftr (usize (x - KERNEL_BASE)) 12.
(** [x] is an [int], and so is the shifted value. *)
Definition ZONER_FROM_BITMAP_INDEX (x : Z) : Z := usize (s32 (Z.shiftl x 12) + KERNEL_BASE).

Definition _zoner_new_vzone_locked (size : Z) (st : kmemzone_state) : Z * kmemzone_state :=
  let res := _zoner_next_vaddr st in
  (res, set_next_vaddr st (usize (_zoner_next_vaddr st + size))).

Definition _zoner_new_vzone_aligned_locked (size alignment : Z) (st : kmemzone_state)
  : option (Z * kmemzone_state) :=
  let res := _zoner_next_vaddr st in
  let st := set_next_vaddr st (usize (_zoner_next_vaddr st + usize (size + alignment))) in
  let res := usize (res + alignment) in
  if alignment =? 0 then None else Some (usize (res - res mod alignment), st).

Definition kmemzone_init_stage2 (st : kmemzone_state) : option kmemzone_state :=
  let '(addr, st) := _zoner_new_vzone_locked ZONER_BITMAP_SIZE st in
  let bm := bitmap_wrap (Some (replicate (Z.to_nat ZONER_BITMAP_SIZE) 0)) (ZONER_BITMAP_SIZE * 8) in
  '(_, bm) ← bitmap_set_range bm 0 (s32 (ZONER_TO_BITMAP_INDEX (_zoner_next_vaddr st)));
  Some (mk_kmemzone_state (_zoner_next_vaddr st) addr bm true).

(** [mat_data] and [mat_len] are the address and the length in bits of the
    physical memory map. *)
Definition kmemzone_init (mat_data mat_len : Z) (st : kmemzone_state) : kmemzone_state :=
  let start_vaddr := usize (mat_data + mat_len / 8) in
  let start_vaddr := ROUND_CEIL start_vaddr 0x400000 in
  set_next_vaddr st start_vaddr.

Definition page_up (size : Z) : Z :=
  if size mod VMM_PAGE_SIZE =? 0 then size
  else usize (size + (VMM_PAGE_SIZE - size mod VMM_PAGE_SIZE)).

(** The common end of [kmemzone_new] and [kmemzone_new_aligned]. *)
Definition zone_at (start0 blocks size : Z) (st : kmemzone_state)
  : option (kmemzone_t * kmemzone_state) :=
  if start0 <? 0 then Some (mk_kmemzone 0 0, st) else
  '(r, bm) ← bitmap_set_range (bitmap st) start0 (s32 blocks);
  let st := set_bitmap st bm in
  if r <? 0 then Some (mk_kmemzone 0 size, st)
  else Some (mk_kmemzone (ZONER_FROM_BITMAP_INDEX start0) size, st).

Definition kmemzone_new (size : Z) (st : kmemzone_state) : option (kmemzone_t * kmemzone_state) :=
  let size := page_up size in
  if negb (_zoner_bitmap_set st) then
    let '(a, st) := _zoner_new_vzone_locked size st in Some (mk_kmemzone a size, st)
  else
    let blocks := size / VMM_PAGE_SIZE in
    start0 ← bitmap_find_space (bitmap st) (s32 blocks);
    zone_at start0 blocks size st.

Definition kmemzone_new_aligned (size alignment : Z) (st : kmemzone_state)
  : option (kmemzone_t * kmemzone_state) :=
  let size := page_up size in
  let alignment := page_up alignment in
  if negb (_zoner_bitmap_set st) then
    '(a, st) ← _zoner_new_vzone_aligned_locked size alignment st;
    Some (mk_kmemzone a size, st)
  else
    let blocks := size / VMM_PAGE_SIZE in
    let blocks_alignment := alignment / VMM_PAGE_SIZE in
    start0 ← bitmap_find_space_aligned (bitmap st) (s32 blocks) (s32 blocks_alignment);
    zone_at start0 blocks size st.

Definition kmemzone_free (zone : kmemzone_t) (st : kmemzone_state) : option (Z * kmemzone_state) :=
  if start zone <? _zoner_next_vaddr st then Some (- EPERM, st) else
  let start0 := s32 (ZONER_TO_BITMAP_INDEX (start zone)) in
  let blocks := zlen zone / VMM_PAGE_SIZE in
  '(r, bm) ← bitmap_unset_range (bitmap st) start0 (s32 blocks);
  Some (r, set_bitmap st bm).

End kmemzone.

(** ** Invariant *)

(** The pages the bitmap covers. *)
Definition zone_pages : Z := 2 ^ 18.

Section spec.
Context `{Platform}.
(** The end of the zones handed out before the bitmap; fixed once it exists. *)
Context (next : Z).

Definition early_pages : Z := (next - KERNEL_BASE) / VMM_PAGE_SIZE.

(** The zones of the first phase end at [next], at a page of the first
    gigabyte, and their pages are taken for good. *)
Definition kmemzone_inv (st : kmemzone_state) (d : list Z) : Prop :=
  bitmap_wf (bitmap st) d ∧ len (bitmap st) = zone_pages ∧
  _zoner_bitmap_set st = true ∧ _zoner_next_vaddr st = next ∧
  KERNEL_BASE <= next <= KERNEL_BASE + 2 ^ 30 ∧ next mod VMM_PAGE_SIZE = 0 ∧
  ∀ i, 0 <= i < early_pages → bit d i = true.

Definition zone_size_ok (size : Z) : Prop := 0 < size <= 2 ^ 31.

Definition pages (size : Z) : Z := (size + (VMM_PAGE_SIZE - 1)) / VMM_PAGE_SIZE.

Lemma page_up_spec size : zone_size_ok size →
  page_up size = pages size * VMM_PAGE_SIZE ∧ 0 < pages size <= 2 ^ 19.
Proof.
  intros Hs. unfold zone_size_ok, page_up, pages, VMM_PAGE_SIZE in *. pose proof ptr_bits_ge.
  split; [|Z.div_mod_to_equations; lia].
  destruct (Z.eqb_spec (size mod 4096) 0); [Z.div_mod_to_equations; lia|].
  rewrite usize_small; Z.div_mod_to_equations; lia.
Qed.

Lemma kernel_base_bounds : 2 ^ 31 < KERNEL_BASE ∧ KERNEL_BASE + 2 ^ 30 <= 2 ^ ptr_bits ∧
  KERNEL_BASE mod VMM_PAGE_SIZE = 0.
Proof. pose proof user_kernel. pose proof kernel_base_fits. pose proof kernel_base_page. lia. Qed.

Lemma index_of_block b : 0 <= b <= zone_pages → b * VMM_PAGE_SIZE + KERNEL_BASE < 2 ^ ptr_bits →
  s32 (ZONER_TO_BITMAP_INDEX (KERNEL_BASE + b * VMM_PAGE_SIZE)) = b.
Proof.
  unfold zone_pages, VMM_PAGE_SIZE, ZONER_TO_BITMAP_INDEX. intros Hb Hfit.
  pose proof kernel_base_bounds.
  rewrite usize_small by lia. rewrite Z.shiftr_div_pow2 by lia. change (2 ^ 12) with 4096.
  replace (KERNEL_BASE + b * 4096 - KERNEL_BASE) with (b * 4096) by lia.
  rewrite Z.div_mul, s32_small by lia. done.
Qed.

Lemma address_of_block b : 0 <= b < zone_pages →
  ZONER_FROM_BITMAP_INDEX b = KERNEL_BASE + b * VMM_PAGE_SIZE.
Proof.
  unfold zone_pages, VMM_PAGE_SIZE, ZONER_FROM_BITMAP_INDEX. intros Hb. pose proof kernel_base_bounds.
  rewrite Z.shiftl_mul_pow2 by lia. change (2 ^ 12) with 4096.
  rewrite s32_small, usize_small by lia. lia.
Qed.

Lemma early_pages_bounds : KERNEL_BASE <= next <= KERNEL_BASE + 2 ^ 30 →
  next mod VMM_PAGE_SIZE = 0 →
  0 <= early_pages <= zone_pages ∧ next = KERNEL_BASE + early_pages * VMM_PAGE_SIZE.
Proof.
  intros Hn Hm. unfold early_pages, zone_pages, VMM_PAGE_SIZE in *. pose proof kernel_base_bounds as (_ & _ & Hk).
  unfold VMM_PAGE_SIZE in *.
  assert ((next - KERNEL_BASE) mod 4096 = 0) by (rewrite Zminus_mod, Hm, Hk; done).
  Z.div_mod_to_equations; lia.
Qed.

(** The zone [z] is the run of [n] pages from [b]. *)
Definition zone_is (z : kmemzone_t) (b n : Z) : Prop :=
  z = mk_kmemzone (KERNEL_BASE + b * VMM_PAGE_SIZE) (n * VMM_PAGE_SIZE) ∧
  0 < n ∧ early_pages <= b ∧ b + n <= zone_pages.

(** Pages [b .. b + n) of the map became [v], and nothing else changed. *)
Definition pages_set (v : bool) (st st' : kmemzone_state) (d : list Z) (b n : Z) : Prop :=
  ∃ d', updated v d d' b n ∧ st' = set_bitmap st (with_data (bitmap st) d').

Lemma pages_set_inv v st st' d b n : kmemzone_inv st d → early_pages <= b →
  pages_set v st st' d b n → ∃ d', kmemzone_inv st' d' ∧ updated v d d' b n.
Proof.
  intros (Hwf & Hlen & Hset & Hnext & Hn & Hm & Hearly) Hb (d' & Hupd & ->).
  exists d'. split; [|done]. split_and!; try (done || lia).
  - by eapply bitmap_wf_with_data.
  - intros i Hi. destruct Hupd as (_ & _ & Hbit). rewrite Hbit by lia.
    rewrite decide_False by lia. by apply Hearly.
Qed.

(** A free run never touches the pages of the first phase. *)
Lemma free_run_late st d b n : kmemzone_inv st d → 0 <= b → 0 < n →
  free_range d b n → early_pages <= b.
Proof.
  intros (_ & _ & _ & _ & Hn & Hm & Hearly) Hb Hpos Hfree.
  destruct (early_pages_bounds Hn Hm) as [? _].
  destruct (Z.lt_ge_cases b early_pages); [|done].
  specialize (Hfree b ltac:(lia)). rewrite Hearly in Hfree by lia. done.
Qed.

Lemma zone_at_spec st d b n : kmemzone_inv st d → 0 <= b → 0 < n → b + n <= zone_pages →
  free_range d b n →
  ∃ z st', zone_at b n (n * VMM_PAGE_SIZE) st = Some (z, st') ∧ zone_is z b n ∧
    pages_set true st st' d b n.
Proof.
  intros Hinv Hb Hn Hin Hfree. pose proof Hinv as (Hwf & Hlen & _). unfold zone_at.
  pose proof (free_run_late st d b n Hinv Hb Hn Hfree).
  destruct (Z.ltb_spec b 0); [lia|]. unfold zone_pages in *. rewrite (s32_small n) by lia.
  destruct (bitmap_set_range_spec (bitmap st) d b n) as (d' & -> & Hupd); [done|lia..|].
  simpl. eexists _, _. split; [done|].
  split; [split_and!; [|done..]|by exists d'].
  rewrite address_of_block by (unfold zone_pages; lia). done.
Qed.

(** What both searches promise: a zone of free pages, or failure. *)
Definition zone_result (st st' : kmemzone_state) (d : list Z) (size : Z) (z : kmemzone_t) : Prop :=
  (∃ b, zone_is z b (pages size) ∧ free_range d b (pages size) ∧
        pages_set true st st' d b (pages size)) ∨
  z = mk_kmemzone 0 0 ∧ st' = st.

Lemma kmemzone_new_spec st d size : kmemzone_inv st d → zone_size_ok size →
  ∃ z st', kmemzone_new size st = Some (z, st') ∧
    ((∃ b, first_fit d zone_pages (pages size) b ∧ zone_is z b (pages size) ∧
           pages_set true st st' d b (pages size)) ∨
     z = mk_kmemzone 0 0 ∧ st' = st ∧ no_fit d zone_pages (pages size)).
Proof.
  intros Hinv Hs. pose proof Hinv as (Hwf & Hlen & Hset & _). unfold kmemzone_new. rewrite Hset. simpl.
  destruct (page_up_spec size Hs) as [-> Hp]. rewrite Z.div_mul, s32_small by (unfold VMM_PAGE_SIZE; lia).
  destruct (bitmap_find_space_spec (bitmap st) d (pages size) Hwf) as (r & -> & Hcase); [lia|by rewrite Hlen; right|]. simpl.
  rewrite Hlen in Hcase. destruct Hcase as [Hfit|[-> Hno]].
  - pose proof Hfit as (Hr & Hin & Hfree & _).
    destruct (zone_at_spec st d r (pages size)) as (z & st' & -> & Hz & Hst'); [done|lia..|done|].
    exists z, st'. split; [done|]. left. by exists r.
  - unfold zone_at. simpl. eexists _, _. split; [done|]. by right.
Qed.

Lemma kmemzone_new_aligned_spec st d size align : kmemzone_inv st d →
  zone_size_ok size → zone_size_ok align →
  ∃ z st', kmemzone_new_aligned size align st = Some (z, st') ∧
    ((∃ b, aligned_fit d zone_pages (pages align) (pages size) b ∧ zone_is z b (pages size) ∧
           pages_set true st st' d b (pages size)) ∨
     z = mk_kmemzone 0 0 ∧ st' = st ∧
     ∀ b, 0 <= b → b + pages size <= zone_pages → b mod pages align = 0 →
       ¬ free_range d b (pages size)).
Proof.
  intros Hinv Hs Ha. pose proof Hinv as (Hwf & Hlen & Hset & _). unfold kmemzone_new_aligned.
  rewrite Hset. simpl.
  destruct (page_up_spec size Hs) as [-> Hp]. destruct (page_up_spec align Ha) as [-> Hpa].
  rewrite !Z.div_mul, !s32_small by (unfold VMM_PAGE_SIZE; lia).
  destruct (bitmap_find_space_aligned_spec d (pages size) (pages align)) with (bitmap st)
    as (r & -> & Hcase); [lia..|done|]. simpl.
  rewrite Hlen in Hcase. change (8 * (zone_pages / 8)) with zone_pages in Hcase.
  destruct Hcase as [Hfit|[-> Hno]].
  - pose proof Hfit as (Hr & Hin & Hmod & Hfree & _).
    destruct (zone_at_spec st d r (pages size)) as (z & st' & -> & Hz & Hst'); [done|lia..|done|].
    exists z, st'. split; [done|]. left. by exists r.
  - unfold zone_at. simpl. eexists _, _. split; [done|]. by right.
Qed.

Lemma kmemzone_free_spec st d z b n : kmemzone_inv st d → zone_is z b n →
  ∃ st', kmemzone_free z st = Some (0, st') ∧ pages_set false st st' d b n.
Proof.
  intros (Hwf & Hlen & Hset & Hnext & Hn & Hm & Hearly) (-> & Hpos & Hb & Hin).
  destruct (early_pages_bounds Hn Hm) as [He Heq]. pose proof kernel_base_bounds as (_ & Hk & _).
  unfold kmemzone_free. rewrite Hnext. simpl.
  destruct (Z.ltb_spec (KERNEL_BASE + b * VMM_PAGE_SIZE) next); [unfold VMM_PAGE_SIZE in *; lia|].
  rewrite index_of_block by (unfold zone_pages, VMM_PAGE_SIZE in *; lia).
  rewrite Z.div_mul by done. unfold zone_pages in *. rewrite s32_small by lia.
  destruct (bitmap_unset_range_spec (bitmap st) d b n) as (d' & -> & Hupd); [done|lia..|].
  simpl. eexists. split; [done|]. by exists d'.
Qed.

End spec.

(** ** The contract *)

Inductive zone_req :=
  | ZoneNew (size : Z)
  | ZoneNewAligned (size align : Z).

Section contract.
Context `{Platform}.
Context (next : Z).

Definition zone_alloc (r : zone_req) (st : kmemzone_state)
  : option (option kmemzone_t * kmemzone_state) :=
  '(z, st) ← (match r with
              | ZoneNew size => kmemzone_new size st
              | ZoneNewAligned size align => kmemzone_new_aligned size align st
              end);
  Some (if start z =? 0 then None else Some z, st).

Definition zone_free (z : kmemzone_t) (st : kmemzone_state) : option kmemzone_state :=
  '(_, st) ← kmemzone_free z st; Some st.

Definition zone_range (z : kmemzone_t) : Z * Z :=
  ((start z - KERNEL_BASE) / VMM_PAGE_SIZE, zlen z / VMM_PAGE_SIZE).

Definition zone_taken (st : kmemzone_state) (i : Z) : bool :=
  match data (bitmap st) with Some d => bit d i | None => true end.

Definition zone_req_ok (r : zone_req) : Prop :=
  match r with
  | ZoneNew size => zone_size_ok size
  | ZoneNewAligned size align => zone_size_ok size ∧ zone_size_ok align
  end.

Definition zone_inv (st : kmemzone_state) : Prop := ∃ d, kmemzone_inv next st d.
Definition zone_valid (z : kmemzone_t) : Prop := 0 <= early_pages next ∧ ∃ b n, zone_is next z b n.

Lemma zone_range_is z b n : zone_is next z b n → zone_range z = (b, n).
Proof.
  intros (-> & _). unfold zone_range, VMM_PAGE_SIZE. simpl. f_equal; [|apply Z.div_mul; done].
  replace (KERNEL_BASE + b * 4096 - KERNEL_BASE) with (b * 4096) by lia. by apply Z.div_mul.
Qed.

Lemma zone_taken_set v st st' d b n i : kmemzone_inv next st d → pages_set v st st' d b n → 0 <= i →
  zone_taken st' i = if decide (b <= i < b + n) then v else zone_taken st i.
Proof.
  intros ((Hd & _) & _) (d' & (_ & _ & Hbit) & ->) Hi. unfold zone_taken. simpl. rewrite Hd.
  by apply Hbit.
Qed.

Lemma zone_is_nonnull z b n : KERNEL_BASE <= next <= KERNEL_BASE + 2 ^ 30 →
  next mod VMM_PAGE_SIZE = 0 → zone_is next z b n → start z ≠ 0.
Proof.
  intros Hn Hm (-> & _ & Hb & _). simpl. destruct (early_pages_bounds next Hn Hm) as [? _].
  pose proof kernel_base_bounds as (? & _). unfold VMM_PAGE_SIZE. lia.
Qed.

Lemma zone_alloc_result r st d : kmemzone_inv next st d → zone_req_ok r →
  let size := match r with ZoneNew size | ZoneNewAligned size _ => size end in
  ∃ z st', (match r with
      | ZoneNew size => kmemzone_new size st
      | ZoneNewAligned size align => kmemzone_new_aligned size align st end) = Some (z, st') ∧
    zone_result next st st' d size z ∧ zone_size_ok size.
Proof.
  intros Hinv Hr. destruct r as [size|size align]; simpl in *.
  - destruct (kmemzone_new_spec next st d size) as (z & st' & -> & Hcase); [done..|].
    exists z, st'. split_and!; [done| |apply Hr..]. destruct Hcase as [(b & (_ & _ & Hf & _) & Hz & Hs)|(-> & -> & _)].
    + left. by exists b.
    + by right.
  - destruct Hr as [Hr Ha].
    destruct (kmemzone_new_aligned_spec next st d size align) as (z & st' & -> & Hcase); [done..|].
    exists z, st'. split_and!; [done| |apply Hr..].
    destruct Hcase as [(b & (_ & _ & _ & Hf & _) & Hz & Hs)|(-> & -> & _)].
    + left. by exists b.
    + by right.
Qed.

Lemma zone_alloc_blocks r st : zone_inv st → zone_req_ok r →
  ∃ h st', zone_alloc r st = Some (h, st') ∧ zone_inv st' ∧
    match h with
    | None => st' = st
    | Some h => zone_valid h ∧ 0 < (zone_range h).2 ∧
        (∀ i, in_range (zone_range h) i = true → zone_taken st i = false) ∧
        (∀ i, 0 <= i → zone_taken st' i = in_range (zone_range h) i || zone_taken st i) ∧
        True ∧
        ∀ h0, zone_valid h0 → range_disjoint (zone_range h) (zone_range h0) → True → True
    end.
Proof.
  intros [d Hinv] Hr. destruct (zone_alloc_result r st d Hinv Hr) as (z & st' & Heq & Hres & Hs).
  unfold zone_alloc. rewrite Heq. simpl. eexists _, _. split; [done|].
  pose proof Hinv as (Hwf & _ & _ & _ & Hn & Hm & _).
  destruct Hres as [(b & Hz & Hfree & Hset)|[-> ->]]; [|split; [by exists d|done]].
  pose proof (zone_is_nonnull z b _ Hn Hm Hz). destruct (Z.eqb_spec (start z) 0); [done|].
  pose proof Hz as (_ & Hpos & Hb & _). rewrite (zone_range_is _ _ _ Hz). simpl.
  destruct (pages_set_inv _ _ _ _ _ _ _ Hinv Hb Hset) as (d' & Hinv' & _).
  destruct (early_pages_bounds next Hn Hm) as [He _].
  split_and!; [by exists d'|split; [lia|by eexists _, _]|by injection (zone_range_is _ _ _ Hz) as _ -> | | |done|done].
  - intros i Hi%bool_decide_eq_true. unfold zone_taken. destruct Hwf as (-> & _). by apply Hfree.
  - intros i Hi. rewrite (zone_taken_set _ _ _ _ _ _ _ Hinv Hset Hi). unfold in_range. simpl.
    case_decide; case_bool_decide; done.
Qed.

Lemma zone_free_blocks h st : zone_inv st →
  block_owned zone_range zone_taken zone_valid (λ _ _, True) st h →
  ∃ st', zone_free h st = Some st' ∧ zone_inv st' ∧
    (∀ i, 0 <= i → zone_taken st' i = negb (in_range (zone_range h) i) && zone_taken st i) ∧
    ∀ h0, zone_valid h0 → range_disjoint (zone_range h) (zone_range h0) → True → True.
Proof.
  intros [d Hinv] ((_ & b & n & Hz) & _ & _).
  destruct (kmemzone_free_spec next st d h b n Hinv Hz) as (st' & Hf & Hset).
  unfold zone_free. rewrite Hf. simpl. exists st'. rewrite (zone_range_is _ _ _ Hz).
  destruct (pages_set_inv _ _ _ _ _ _ _ Hinv (proj1 (proj2 (proj2 Hz))) Hset) as (d' & Hinv' & _).
  split_and!; [done|by exists d'| |done]. intros i Hi. rewrite (zone_taken_set _ _ _ _ _ _ _ Hinv Hset Hi).
  unfold in_range. simpl. case_decide; case_bool_decide; done.
Qed.

#[global] Instance zone_allocator : RangeAllocator kmemzone_state zone_req kmemzone_t.
Proof.
  refine (block_allocator zone_alloc zone_free zone_range zone_taken zone_inv zone_req_ok
    zone_valid (λ _ _, True) _ zone_alloc_blocks zone_free_blocks).
  intros h (He & b & n & Hz). rewrite (zone_range_is _ _ _ Hz). destruct Hz as (_ & _ & Hb & _). simpl. lia.
Defined.

End contract.

(** ** Boot *)

Section boot.
Context `{Platform}.

(** The zones taken before the bitmap exists, in order. *)
Fixpoint early_zones (sizes : list Z) (st : kmemzone_state)
  : option (list kmemzone_t * kmemzone_state) :=
  match sizes with
  | [] => Some ([], st)
  | size :: sizes =>
      '(z, st) ← kmemzone_new size st;
      '(zs, st) ← early_zones sizes st;
      Some (z :: zs, st)
  end.

(** Each zone starts where the one before ends. *)
Fixpoint zones_from (a : Z) (zs : list kmemzone_t) (e : Z) : Prop :=
  match zs with
  | [] => a = e
  | z :: zs => start z = a ∧ 0 < zlen z ∧ zones_from (a + zlen z) zs e
  end.

Definition zones_pages (sizes : list Z) : Z := foldr (λ size n, pages size + n) 0 sizes.

Lemma zones_pages_nonneg sizes : Forall zone_size_ok sizes → 0 <= zones_pages sizes.
Proof.
  induction 1 as [|size sizes Hs _ IH]; simpl; [lia|]. destruct (page_up_spec size Hs). lia.
Qed.

Lemma early_zones_spec sizes st : _zoner_bitmap_set st = false →
  Forall zone_size_ok sizes → 0 <= _zoner_next_vaddr st →
  _zoner_next_vaddr st + zones_pages sizes * VMM_PAGE_SIZE < 2 ^ ptr_bits →
  ∃ zs, let e := _zoner_next_vaddr st + zones_pages sizes * VMM_PAGE_SIZE in
    early_zones sizes st = Some (zs, set_next_vaddr st e) ∧
    zones_from (_zoner_next_vaddr st) zs e ∧
    Forall2 (λ size z, zlen z = pages size * VMM_PAGE_SIZE) sizes zs.
Proof.
  intros Hset Hok. revert st Hset. unfold VMM_PAGE_SIZE.
  induction Hok as [|size sizes Hs Hok IH]; intros st Hset Hn Hfit; simpl in *.
  - exists []. cbv zeta. rewrite Z.add_0_r. split_and!; [by destruct st|done|done].
  - pose proof (zones_pages_nonneg sizes Hok). destruct (page_up_spec size Hs) as [Hpu Hp].
    unfold VMM_PAGE_SIZE in Hpu.
    unfold kmemzone_new. rewrite Hset, Hpu. simpl.
    destruct (IH (set_next_vaddr st (usize (_zoner_next_vaddr st + pages size * 4096)))) as (zs & Heq & Hz & Hl);
      simpl; rewrite ?usize_small in * by lia; [done|lia..|].
    simpl in *. rewrite Heq. simpl.
    replace (_zoner_next_vaddr st + (pages size + zones_pages sizes) * 4096)
      with (_zoner_next_vaddr st + pages size * 4096 + zones_pages sizes * 4096) by lia.
    eexists. split; [done|]. simpl. split_and!; [done|lia|done|by constructor].
Qed.

Lemma stage2_spec st : _zoner_next_vaddr st mod VMM_PAGE_SIZE = 0 →
  KERNEL_BASE <= _zoner_next_vaddr st → _zoner_next_vaddr st + ZONER_BITMAP_SIZE < KERNEL_BASE + 2 ^ 30 →
  ∃ st' d, kmemzone_init_stage2 st = Some st' ∧ _zoner_bitmap st' = _zoner_next_vaddr st ∧
    kmemzone_inv (_zoner_next_vaddr st + ZONER_BITMAP_SIZE) st' d ∧
    ∀ i, 0 <= i → bit d i = bool_decide (i < early_pages (_zoner_next_vaddr st + ZONER_BITMAP_SIZE)).
Proof.
  intros Hm Hlo Hhi. pose proof kernel_base_bounds as (Hk & Hend & Hkm).
  unfold kmemzone_init_stage2, _zoner_new_vzone_locked.
  pose proof (Z2Nat.id ZONER_BITMAP_SIZE ltac:(done)) as Hsz.
  set (sz := Z.to_nat ZONER_BITMAP_SIZE) in *. clearbody sz.
  cbn [_zoner_next_vaddr set_next_vaddr _zoner_bitmap].
  set (nv := _zoner_next_vaddr st) in *. change ZONER_BITMAP_SIZE with 32768 in *.
  rewrite usize_small by lia.
  assert ((nv + 32768) mod VMM_PAGE_SIZE = 0) as Hm'.
  { unfold VMM_PAGE_SIZE in *. Z.div_mod_to_equations; lia. }
  destruct (early_pages_bounds (nv + 32768)) as [He Heq]; [lia|done|].
  pose proof (index_of_block (early_pages (nv + 32768)) He) as Hidx. rewrite <- Heq in Hidx.
  rewrite Hidx by (unfold VMM_PAGE_SIZE in *; lia).
  set (ep := early_pages (nv + 32768)) in *. unfold zone_pages in *.
  destruct (bitmap_fresh sz (32768 * 8)) as [Hwf Hz]; [lia..|].
  destruct (bitmap_set_range_spec _ _ 0 ep Hwf) as (d & -> & Hupd);
    [lia|lia|simpl; lia|unfold VMM_PAGE_SIZE in *; lia|].
  cbn [mbind option_bind]. eexists _, d. split; [done|]. split; [done|].
  assert (∀ i, 0 <= i → bit d i = bool_decide (i < ep)) as Hbit.
  { intros i Hi. destruct Hupd as (_ & _ & ->); [|done].
    case_decide; case_bool_decide; (done || lia || by apply Hz). }
  split; [|done]. split_and!; try (done || lia).
  - by eapply (bitmap_wf_with_data _ _ d).
  - intros i Hi. rewrite Hbit by lia. apply bool_decide_eq_true. fold ep in Hi. lia.
Qed.

End boot.

(** ** Properties *)

Section properties.
Context `{Platform}.

(** C8. Zones never overlap. From any state after the second stage of the
    boot, whatever zones were asked for (aligned or not) and freed since, two
    live zones have no byte in common, and each lies between the end of the
    zones of the first stage and the end of the gigabyte the map covers. *)
Theorem kmemzone_live_zones_disjoint next st0 d st live i j z1 z2 :
  kmemzone_inv next st0 d →
  rtc (alloc_step (RangeAllocator0 := zone_allocator next)) (st0, []) (st, live) →
  i ≠ j → live !! i = Some z1 → live !! j = Some z2 →
  range_disjoint (start z1, zlen z1) (start z2, zlen z2) ∧
  next <= start z1 ∧ start z1 + zlen z1 <= KERNEL_BASE + 2 ^ 30.
Proof.
  intros Hinv Hreach Hij H1 H2.
  destruct (alloc_reachable_ok (RangeAllocator0 := zone_allocator next) _ _ Hreach) as ([d' Hinv'] & Hown & Hpair).
  { split_and!; simpl; [by exists d|constructor|done]. }
  pose proof Hinv' as (_ & _ & _ & _ & Hn & Hm & _). destruct (early_pages_bounds next Hn Hm) as [He Hnext].
  pose proof (Forall_lookup_1 _ _ _ _ Hown H1) as ((_ & b1 & n1 & Hz1) & _).
  pose proof (Forall_lookup_1 _ _ _ _ Hown H2) as ((_ & b2 & n2 & Hz2) & _).
  pose proof (pairwise_lookup (RangeAllocator0 := zone_allocator next) _ _ _ _ _ Hpair Hij H1 H2) as Hdis.
  unfold disjoint_handles in Hdis. simpl in Hdis.
  rewrite (zone_range_is _ _ _ _ Hz1), (zone_range_is _ _ _ _ Hz2) in Hdis.
  destruct Hz1 as (-> & ? & ? & ?), Hz2 as (-> & ? & ? & ?). unfold zone_pages, VMM_PAGE_SIZE in *. simpl.
  split; [|lia]. intros a. simpl. intros Ha1 Ha2.
  apply (Hdis ((a - KERNEL_BASE) / 4096)); simpl; Z.div_mod_to_equations; lia.
Qed.

(** [kmemzone_new] hands out the first free run of pages, rounded up to
    whole pages, and [kmemzone_free] of that zone restores the state exactly;
    or there is no such run, and the null zone is returned and nothing
    changed. *)
Theorem kmemzone_new_free next st d size : kmemzone_inv next st d → zone_size_ok size →
  ∃ z st', kmemzone_new size st = Some (z, st') ∧
    ((∃ b, first_fit d zone_pages (pages size) b ∧ start z = KERNEL_BASE + b * VMM_PAGE_SIZE ∧
           zlen z = pages size * VMM_PAGE_SIZE ∧ size <= zlen z ∧
           kmemzone_free z st' = Some (0, st)) ∨
     z = mk_kmemzone 0 0 ∧ st' = st ∧ no_fit d zone_pages (pages size)).
Proof.
  intros Hinv Hs. destruct (kmemzone_new_spec next st d size Hinv Hs) as (z & st' & Heq & Hcase).
  exists z, st'. split; [done|]. destruct Hcase as [(b & Hfit & Hz & Hset)|]; [|by right].
  left. exists b. pose proof Hz as (Hzeq & Hpos & Hb & _).
  destruct (pages_set_inv _ _ _ _ _ _ _ Hinv Hb Hset) as (d1 & Hinv' & Hupd1).
  destruct (kmemzone_free_spec next st' d1 z b _ Hinv' Hz) as (st2 & Hf & d2 & Hupd2 & ->).
  rewrite Hzeq at 1 2 3. simpl. split_and!; [done..| |].
  - unfold pages, VMM_PAGE_SIZE. Z.div_mod_to_equations; lia.
  - rewrite Hf. do 2 f_equal. destruct Hset as (d1' & _ & ->). simpl.
    pose proof Hinv as ((Hdata & Hd & _) & _).
    assert (d2 = d) as ->.
    { eapply (updated_undo true); [done| |done|done]. intros i Hi. by apply Hfit. }
    unfold set_bitmap, with_data. simpl. by destruct st as [? ? [? ?] ?]; simpl in *; subst.
Qed.

(** The two stages of the boot fit together. The zones asked for before
    the bitmap exists follow one another from the first 4 MiB boundary after
    the physical memory map; the bitmap comes next; and in the bitmap exactly
    the pages up to its own end are taken, so that no later zone can meet any
    of them. *)
Theorem kmemzone_boot mat_data mat_len sizes st :
  _zoner_bitmap_set st = false → Forall zone_size_ok sizes →
  KERNEL_BASE <= mat_data → 0 <= mat_len →
  mat_data + mat_len / 8 + 0x400000 + zones_pages sizes * VMM_PAGE_SIZE + ZONER_BITMAP_SIZE
    < KERNEL_BASE + 2 ^ 30 →
  ∃ zs st1 st2 d first, early_zones sizes (kmemzone_init mat_data mat_len st) = Some (zs, st1) ∧
    mat_data + mat_len / 8 <= first ∧ first mod 0x400000 = 0 ∧
    zones_from first zs (_zoner_bitmap st2) ∧
    Forall2 (λ size z, size <= zlen z) sizes zs ∧
    kmemzone_init_stage2 st1 = Some st2 ∧
    kmemzone_inv (_zoner_bitmap st2 + ZONER_BITMAP_SIZE) st2 d ∧
    ∀ i, 0 <= i → bit d i =
      bool_decide (KERNEL_BASE + i * VMM_PAGE_SIZE < _zoner_bitmap st2 + ZONER_BITMAP_SIZE).
Proof.
  intros Hset Hok Hlo Hlen Hfit. pose proof kernel_base_bounds as (Hk & Hend & Hkm).
  pose proof (zones_pages_nonneg sizes Hok). change ZONER_BITMAP_SIZE with 32768 in *.
  assert (0 <= mat_len / 8) by (by apply Z.div_pos). unfold VMM_PAGE_SIZE in *.
  set (me := mat_data + mat_len / 8) in *.
  assert (usize me = me) as Hme by (apply usize_small; lia).
  assert (ROUND_CEIL me 0x400000 = (me + (2 ^ 22 - 1)) - (me + (2 ^ 22 - 1)) mod 2 ^ 22) as Hrc.
  { apply (ROUND_CEIL_spec me 22); lia. }
  unfold kmemzone_init. fold me. rewrite Hme.
  set (first := ROUND_CEIL me 0x400000) in *.
  assert (me <= first < me + 2 ^ 22 ∧ first mod 2 ^ 22 = 0) as (Hf & Hfm).
  { Z.div_mod_to_equations; lia. }
  clearbody first. set (st1 := set_next_vaddr st first).
  destruct (early_zones_spec sizes st1) as (zs & Hzs & Hfrom & Hall);
    [done|done|simpl; lia|unfold VMM_PAGE_SIZE; simpl; lia|].
  unfold VMM_PAGE_SIZE in *. simpl in *.
  set (e := first + zones_pages sizes * 4096) in *.
  destruct (stage2_spec (set_next_vaddr st1 e)) as (st2 & d & Hst2 & Hbm & Hinv & Hbit); simpl in *.
  { unfold VMM_PAGE_SIZE. Z.div_mod_to_equations; lia. }
  { lia. }
  { change ZONER_BITMAP_SIZE with 32768. lia. }
  change ZONER_BITMAP_SIZE with 32768 in *.
  exists zs, (set_next_vaddr st1 e), st2, d, first. rewrite Hbm. split_and!; try (done || lia).
  - clear -Hall. eapply Forall2_impl; [exact Hall|]. simpl. intros size z ->.
    unfold pages, VMM_PAGE_SIZE. Z.div_mod_to_equations; lia.
  - intros i Hi. rewrite Hbit by done.
    pose proof Hinv as (_ & _ & _ & _ & Hn & Hm & _). destruct (early_pages_bounds _ Hn Hm) as [_ Hnx].
    unfold VMM_PAGE_SIZE in *. apply bool_decide_ext. lia.
Qed.

End properties.

(** A small boot on x86: the physical map ends inside [0xc0123000], two zones
    are taken early. *)
Definition example_zoner : kmemzone_state :=
  mk_kmemzone_state 0 0 (bitmap_wrap None 0) false.

Lemma kmemzone_boot_witness :
  ∃ zs st1 st2 d first,
    @early_zones x86 [5000; 4096] (@kmemzone_init x86 0xc0123000 1000 example_zoner) = Some (zs, st1) ∧
    0xc0123000 + 1000 / 8 <= first ∧ first mod 0x400000 = 0 ∧
    zones_from first zs (_zoner_bitmap st2) ∧
    Forall2 (λ size z, size <= zlen z) [5000; 4096] zs ∧
    @kmemzone_init_stage2 x86 st1 = Some st2 ∧
    @kmemzone_inv x86 (_zoner_bitmap st2 + ZONER_BITMAP_SIZE) st2 d ∧
    ∀ i, 0 <= i → bit d i =
      bool_decide (0xc0000000 + i * VMM_PAGE_SIZE < _zoner_bitmap st2 + ZONER_BITMAP_SIZE).
Proof.
  apply (@kmemzone_boot x86 0xc0123000 1000 [5000; 4096] example_zoner);
    [done|repeat constructor; done|done|done|done].
Defined.

(** The state after a boot whose first zones end at [0xc0400000]. *)
Lemma example_booted : ∃ st d,
  @kmemzone_init_stage2 x86 (set_next_vaddr example_zoner 0xc0400000) = Some st ∧
  @kmemzone_inv x86 0xc0408000 st d.
Proof.
  destruct (@stage2_spec x86 (set_next_vaddr example_zoner 0xc0400000))
    as (st & d & Hst & _ & Hinv & _); [reflexivity|done|done|].
  exists st, d. split; [exact Hst|exact Hinv].
Qed.

Lemma kmemzone_new_free_witness : ∃ st d z st',
  @kmemzone_inv x86 0xc0408000 st d ∧ @kmemzone_new x86 5000 st = Some (z, st') ∧
    ((∃ b, first_fit d zone_pages 2 b ∧ start z = 0xc0000000 + b * 4096 ∧
           zlen z = 2 * 4096 ∧ 5000 <= zlen z ∧ @kmemzone_free x86 z st' = Some (0, st)) ∨
     z = mk_kmemzone 0 0 ∧ st' = st ∧ no_fit d zone_pages 2).
Proof.
  destruct example_booted as (st & d & _ & Hinv).
  destruct (@kmemzone_new_free x86 _ st d 5000 Hinv ltac:(done)) as (z & st' & H).
  exists st, d, z, st'. split; [exact Hinv|exact H].
Defined.

(** Two requests on the booted state, as the kernel makes them. *)
Definition two_requests (st : kmemzone_state)
  : option (option kmemzone_t * option kmemzone_t) :=
  '(z1, st) ← @zone_alloc x86 (ZoneNew 5000) st;
  '(z2, st) ← @zone_alloc x86 (ZoneNewAligned 4096 0x10000) st;
  Some (z1, z2).

Lemma two_requests_run st z1 z2 : two_requests st = Some (z1, z2) →
  ∃ st1 st2, @zone_alloc x86 (ZoneNew 5000) st = Some (z1, st1) ∧
    @zone_alloc x86 (ZoneNewAligned 4096 0x10000) st1 = Some (z2, st2).
Proof.
  unfold two_requests. intros ([h1 st1] & H1 & H)%bind_Some.
  apply bind_Some in H as ([h2 st2] & H2 & H). injection H as -> ->. eauto.
Qed.

Example example_requests_eq :
  (st ← @kmemzone_init_stage2 x86 (set_next_vaddr example_zoner 0xc0400000); two_requests st) =
  Some (Some (mk_kmemzone 0xc0408000 8192), Some (mk_kmemzone 0xc0410000 4096)).
Proof. vm_compute. reflexivity. Qed.

Lemma example_run : ∃ st d st1 st2, @kmemzone_inv x86 0xc0408000 st d ∧
  @zone_alloc x86 (ZoneNew 5000) st = Some (Some (mk_kmemzone 0xc0408000 8192), st1) ∧
  @zone_alloc x86 (ZoneNewAligned 4096 0x10000) st1
    = Some (Some (mk_kmemzone 0xc0410000 4096), st2).
Proof.
  destruct example_booted as (st & d & Hst & Hinv).
  pose proof example_requests_eq as Heq. apply bind_Some in Heq as (st' & Hst' & Heq).
  rewrite Hst in Hst'. injection Hst' as <-.
  destruct (two_requests_run _ _ _ Heq) as (st1 & st2 & H1 & H2).
  exists st, d, st1, st2. split; [exact Hinv|split; [exact H1|exact H2]].
Qed.

Lemma kmemzone_live_zones_disjoint_witness :
  range_disjoint (0xc0410000, 4096) (0xc0408000, 8192) ∧
  0xc0408000 <= 0xc0410000 ∧ 0xc0410000 + 4096 <= 0xc0000000 + 2 ^ 30.
Proof.
  destruct example_run as (st & d & st1 & st2 & Hinv & H1 & H2).
  apply (@kmemzone_live_zones_disjoint x86 0xc0408000 st d st2
           [mk_kmemzone 0xc0410000 4096; mk_kmemzone 0xc0408000 8192] 0 1
           (mk_kmemzone 0xc0410000 4096) (mk_kmemzone 0xc0408000 8192));
    [exact Hinv| |discriminate|reflexivity|reflexivity].
  eapply rtc_l; [|eapply rtc_once].
  - refine (step_alloc (RangeAllocator0 := @zone_allocator x86 0xc0408000) _ _ (ZoneNew 5000) _ _ _ H1).
    change (zone_size_ok 5000). unfold zone_size_ok. lia.
  - refine (step_alloc (RangeAllocator0 := @zone_allocator x86 0xc0408000) _ _
      (ZoneNewAligned 4096 0x10000) _ _ _ H2).
    change (zone_size_ok 4096 ∧ zone_size_ok 0x10000). unfold zone_size_ok. lia.
Defined.
