(* ===== verification/Kmalloc.v ===== *)
(** * Kmalloc: the kernel heap, [kernel/mem/kmalloc.c]

    A zone of 4 MiB in blocks of 32 bytes. Every block that is handed out starts
    with a header word that holds its length, which [kfree] reads back: the
    heap's memory is part of the state. The bytes of the bitmap, which lie at
    the start of the zone, are kept apart; the invariant that their blocks stay
    taken is what makes that sound. Built without [KASAN_ENABLED]; the pages
    that [vmm_ensure_writing_to_active_address_space] maps on demand are mapped
    from the start. *)
From stdpp Require Import relations gmap.
From S2P Require Import Prelude Platform Bitmap Alloc Memory Libkern Kmemzone.

Record kheap := mk_kheap {
  _kmalloc_zone : Z;
  _kmalloc_bitmap_len : Z;
  heap_bitmap : bitmap_t;
  heap_mem : mem;
}.

Definition set_heap_bitmap (st : kheap) (bm : bitmap_t) : kheap :=
  mk_kheap (_kmalloc_zone st) (_kmalloc_bitmap_len st) bm (heap_mem st).
Definition set_heap_mem (st : kheap) (m : mem) : kheap :=
  mk_kheap (_kmalloc_zone st) (_kmalloc_bitmap_len st) (heap_bitmap st) m.

Definition KMALLOC_SPACE_SIZE : Z := 4 * 1024 * 1024.
Definition KMALLOC_BLOCK_SIZE : Z := 32.

Section kmalloc.
Context `{Platform}.

Definition word_size : nat := Z.to_nat ptr_bytes.

Definition kmalloc_to_vaddr (st : kheap) (start : Z) : Z :=
  usize (_kmalloc_zone st + usize (s32 (start * KMALLOC_BLOCK_SIZE))).

Definition kmalloc_to_index (st : kheap) (vaddr : Z) : Z :=
  s32 (usize (vaddr - _kmalloc_zone st) / KMALLOC_BLOCK_SIZE).

Definition _kmalloc_init_bitmap (st : kheap) : option kheap :=
  let bitmap_len := KMALLOC_SPACE_SIZE / KMALLOC_BLOCK_SIZE / 8 in
  let bm := bitmap_wrap (Some (replicate (Z.to_nat bitmap_len) 0)) (s32 bitmap_len) in
  let blocks_needed := s32 (usize (bitmap_len + KMALLOC_BLOCK_SIZE - 1) / KMALLOC_BLOCK_SIZE) in
  '(_, bm) ← bitmap_set_range bm (kmalloc_to_index st (_kmalloc_zone st)) blocks_needed;
  Some (mk_kheap (_kmalloc_zone st) bitmap_len bm (heap_mem st)).

(** [m] is the memory of the machine. *)
Definition kmalloc_init (zs : kmemzone_state) (m : mem) : option (kheap * kmemzone_state) :=
  '(zone, zs) ← kmemzone_new KMALLOC_SPACE_SIZE zs;
  st ← _kmalloc_init_bitmap (mk_kheap (start zone) 0 (bitmap_wrap None 0) m);
  Some (st, zs).

Definition kmalloc (size : Z) (st : kheap) : option (outcome Z * kheap) :=
  let alloc_size := size in
  let act_size := s32 (usize (alloc_size + ptr_bytes)) in
  if 2 ^ 31 <=? act_size + KMALLOC_BLOCK_SIZE - 1 then None else
  let blocks_needed := Z.quot (act_size + KMALLOC_BLOCK_SIZE - 1) KMALLOC_BLOCK_SIZE in
  start ← bitmap_find_space (heap_bitmap st) blocks_needed;
  if start <? 0 then Some (SystemStop, st) else
  let space := kmalloc_to_vaddr st start in
  '(_, bm) ← bitmap_set_range (heap_bitmap st) start blocks_needed;
  let st := set_heap_bitmap st bm in
  m ← store (heap_mem st) space word_size (usize act_size);
  Some (Returned (usize (space + ptr_bytes)), set_heap_mem st m).

Definition kmalloc_aligned (size alignment : Z) (st : kheap) : option (outcome Z * kheap) :=
  '(r, st) ← kmalloc (usize (usize (size + alignment) + ptr_bytes)) st;
  match r with
  | SystemStop => Some (SystemStop, st)
  | Returned ptr =>
      let max_addr := usize (usize (ptr + ptr_bytes) + alignment) in
      if alignment =? 0 then None else
      let aligned_ptr := usize (max_addr - max_addr mod alignment) in
      m ← store (heap_mem st) (aligned_ptr - ptr_bytes) word_size ptr;
      Some (Returned aligned_ptr, set_heap_mem st m)
  end.

Definition kmalloc_page_aligned (st : kheap) : option (outcome Z * kheap) :=
  kmalloc_aligned VMM_PAGE_SIZE VMM_PAGE_SIZE st.

Definition kfree (ptr : Z) (st : kheap) : option kheap :=
  if ptr =? 0 then Some st else
  len ← load (heap_mem st) (ptr - ptr_bytes) word_size;
  let blocks_to_delete := s32 (usize (len + KMALLOC_BLOCK_SIZE - 1) / KMALLOC_BLOCK_SIZE) in
  '(_, bm) ← bitmap_unset_range (heap_bitmap st) (kmalloc_to_index st (ptr - ptr_bytes)) blocks_to_delete;
  Some (set_heap_bitmap st bm).

Definition kfree_aligned (ptr : Z) (st : kheap) : option kheap :=
  if ptr =? 0 then Some st else
  p ← load (heap_mem st) (ptr - ptr_bytes) word_size;
  kfree p st.

Definition krealloc (ptr new_size : Z) (st : kheap) : option (outcome Z * kheap) :=
  old_size ← load (heap_mem st) (ptr - ptr_bytes) word_size;
  if old_size =? new_size then Some (Returned ptr, st) else
  '(r, st) ← kmalloc new_size st;
  match r with
  | SystemStop => Some (SystemStop, st)
  | Returned new_area =>
      if new_area =? 0 then Some (Returned 0, st) else
      '(_, m) ← memcpy new_area ptr (if old_size <? new_size then new_size else old_size) (heap_mem st);
      st ← kfree ptr (set_heap_mem st m);
      Some (Returned new_area, st)
  end.

End kmalloc.

(** ** Invariant *)

(** The blocks the bitmap covers: as many as it has bytes. *)
Definition heap_blocks : Z := 2 ^ 14.
(** The blocks of the bitmap itself. *)
Definition bitmap_blocks : Z := 2 ^ 9.

Section spec.
Context `{Platform}.
(** The start of the zone. *)
Context (zone : Z).

Definition heap_inv (st : kheap) (d : list Z) : Prop :=
  bitmap_wf (heap_bitmap st) d ∧ len (heap_bitmap st) = heap_blocks ∧
  _kmalloc_zone st = zone ∧ 0 < zone ∧ zone + KMALLOC_SPACE_SIZE <= 2 ^ ptr_bits ∧
  mapped (heap_mem st) zone KMALLOC_SPACE_SIZE ∧
  ∀ i, 0 <= i < bitmap_blocks → bit d i = true.

(** A request an [int] can hold once the header is added. *)
Definition heap_size_ok (size : Z) : Prop := 0 <= size < 2 ^ 30.

Definition blocks_for (size : Z) : Z :=
  (size + ptr_bytes + (KMALLOC_BLOCK_SIZE - 1)) / KMALLOC_BLOCK_SIZE.

Lemma ptr_bytes_cases : ptr_bytes = 4 ∨ ptr_bytes = 8.
Proof. unfold ptr_bytes. destruct ptr_bits_cases as [-> | ->]; [by left|by right]. Qed.

Lemma word_fits x : 0 <= x < 2 ^ ptr_bits → 0 <= x < 256 ^ Z.of_nat word_size.
Proof.
  unfold word_size, ptr_bytes. by destruct ptr_bits_cases as [-> | ->].
Qed.

Lemma word_size_bytes : Z.of_nat word_size = ptr_bytes.
Proof. unfold word_size. destruct ptr_bytes_cases as [-> | ->]; lia. Qed.

Lemma blocks_for_pos size : heap_size_ok size → 0 < blocks_for size < 2 ^ 26.
Proof.
  unfold heap_size_ok, blocks_for, KMALLOC_BLOCK_SIZE. intros Hs.
  destruct ptr_bytes_cases as [-> | ->]; Z.div_mod_to_equations; lia.
Qed.

Definition block_addr (b : Z) : Z := zone + b * KMALLOC_BLOCK_SIZE.

Lemma heap_addr st d b : heap_inv st d → 0 <= b < heap_blocks →
  kmalloc_to_vaddr st b = block_addr b ∧ kmalloc_to_index st (block_addr b) = b ∧
  0 < block_addr b ∧ block_addr b + KMALLOC_BLOCK_SIZE <= 2 ^ ptr_bits.
Proof.
  intros (_ & _ & Hz & Hpos & Hend & _) Hb. pose proof ptr_bits_ge.
  unfold kmalloc_to_vaddr, kmalloc_to_index, block_addr, heap_blocks, KMALLOC_BLOCK_SIZE,
    KMALLOC_SPACE_SIZE in *. rewrite Hz.
  rewrite s32_small, (usize_small (b * 32)), (usize_small (zone + b * 32)) by lia.
  split_and!; [done| |lia|lia].
  replace (zone + b * 32 - zone) with (b * 32) by lia. rewrite usize_small, Z.div_mul, s32_small by lia.
  done.
Qed.

(** What [kfree] finds in a block of [n] blocks at [b]. *)
Definition header_ok (st : kheap) (b n : Z) : Prop :=
  ∃ len, load (heap_mem st) (block_addr b) word_size = Some len ∧
    0 <= len < 2 ^ 31 ∧ (len + (KMALLOC_BLOCK_SIZE - 1)) / KMALLOC_BLOCK_SIZE = n.

Lemma header_ext st st' b n : 
  (∀ x, block_addr b <= x < block_addr b + ptr_bytes → heap_mem st !! x = heap_mem st' !! x) →
  header_ok st b n → header_ok st' b n.
Proof.
  intros Hx (len & Hl & Hn). exists len. split; [|done]. rewrite <- Hl. symmetry.
  apply load_ext. by rewrite word_size_bytes.
Qed.

(** The state after [kmalloc] took [n] blocks at [b], writing only the
    header. *)
Definition took (st st' : kheap) (d : list Z) (b n : Z) : Prop :=
  ∃ d' m', updated true d d' b n ∧
    st' = mk_kheap zone (_kmalloc_bitmap_len st) (with_data (heap_bitmap st) d') m' ∧
    (∃ f, filled (heap_mem st) m' (block_addr b) ptr_bytes (λ x, Some (f x))) ∧
    header_ok st' b n.

Lemma took_inv st st' d b n : heap_inv st d → took st st' d b n →
  ∃ d', heap_inv st' d' ∧ updated true d d' b n.
Proof.
  intros (Hwf & Hlen & Hz & Hpos & Hend & Hm & Hbm) (d' & m' & Hupd & -> & (f & Hf) & _).
  exists d'. split; [|done]. split_and!; try (done || lia).
  - by eapply bitmap_wf_with_data.
  - simpl. eapply mapped_filled; [exact Hf|done|done].
  - intros i Hi. destruct Hupd as (_ & _ & ->); [|lia]. case_decide; [done|by apply Hbm].
Qed.

(** A free run never touches the bitmap's blocks. *)
Lemma heap_run_late st d b n : heap_inv st d → 0 <= b → 0 < n → free_range d b n → bitmap_blocks <= b.
Proof.
  intros (_ & _ & _ & _ & _ & _ & Hbm) Hb Hn Hfree.
  destruct (Z.lt_ge_cases b bitmap_blocks); [|done].
  specialize (Hfree b ltac:(lia)). rewrite Hbm in Hfree by lia. done.
Qed.

Lemma kmalloc_spec st d size : heap_inv st d → heap_size_ok size →
  (∃ b st', first_fit d heap_blocks (blocks_for size) b ∧
     kmalloc size st = Some (Returned (block_addr b + ptr_bytes), st') ∧
     took st st' d b (blocks_for size)) ∨
  no_fit d heap_blocks (blocks_for size) ∧ kmalloc size st = Some (SystemStop, st).
Proof.
  intros Hinv Hs. pose proof (blocks_for_pos size Hs) as Hn. pose proof ptr_bits_ge.
  pose proof Hinv as (Hwf & Hlen & Hz & Hpos & Hend & Hm & Hbm). unfold kmalloc.
  unfold heap_size_ok in Hs. pose proof ptr_bytes_cases as Hpb.
  rewrite (usize_small (size + ptr_bytes)), (s32_small (size + ptr_bytes)) by lia.
  assert ((2 ^ 31 <=? size + ptr_bytes + KMALLOC_BLOCK_SIZE - 1) = false) as ->
    by (apply Z.leb_gt; unfold KMALLOC_BLOCK_SIZE; lia).
  assert (Z.quot (size + ptr_bytes + KMALLOC_BLOCK_SIZE - 1) KMALLOC_BLOCK_SIZE = blocks_for size) as ->.
  { unfold blocks_for, KMALLOC_BLOCK_SIZE. rewrite Z.quot_div_nonneg by lia. f_equal. lia. }
  destruct (bitmap_find_space_spec (heap_bitmap st) d (blocks_for size) Hwf) as (r & -> & Hcase); [lia|by rewrite Hlen; right|].
  cbn [mbind option_bind]. rewrite Hlen in Hcase. destruct Hcase as [Hfit|[-> Hno]]; [left|by right].
  pose proof Hfit as (Hr & Hin & Hfree & _). destruct (Z.ltb_spec r 0); [lia|].
  destruct (bitmap_set_range_spec (heap_bitmap st) d r (blocks_for size)) as (d' & -> & Hupd); [done|lia..|].
  cbn [mbind option_bind]. destruct (heap_addr st d r Hinv) as (-> & _ & Ha & Hae); [lia|].
  destruct (store_filled word_size (heap_mem st) (block_addr r) (usize (size + ptr_bytes)))
    as (m' & Hst & Hf).
  { rewrite word_size_bytes. eapply mapped_sub; [exact Hm|unfold block_addr, KMALLOC_BLOCK_SIZE; lia|].
    unfold block_addr, heap_blocks, KMALLOC_BLOCK_SIZE, KMALLOC_SPACE_SIZE in *. lia. }
  assert (load m' (block_addr r) word_size = Some (size + ptr_bytes)) as Hload.
  { rewrite usize_small in Hst by lia. eapply load_store_same; [apply word_fits; lia| |exact Hst].
    rewrite word_size_bytes. eapply mapped_sub; [exact Hm|unfold block_addr, KMALLOC_BLOCK_SIZE; lia|].
    unfold block_addr, heap_blocks, KMALLOC_BLOCK_SIZE, KMALLOC_SPACE_SIZE in *. lia. }
  simpl heap_mem. rewrite Hst. cbn [mbind option_bind].
  unfold KMALLOC_BLOCK_SIZE in Hae. rewrite usize_small by lia.
  eexists r, _. split; [done|]. split; [done|].
  exists d', m'. split_and!; [done|unfold set_heap_mem, set_heap_bitmap; simpl; by rewrite Hz| |].
  - eexists. rewrite <- word_size_bytes. exact Hf.
  - exists (size + ptr_bytes). split_and!; [done|lia|lia|done].
Qed.

(** A block that may be freed. *)
Definition is_block (ptr b n : Z) : Prop :=
  ptr = block_addr b + ptr_bytes ∧ bitmap_blocks <= b ∧ 0 < n ∧ b + n <= heap_blocks.

Lemma kfree_spec st d ptr b n : heap_inv st d → is_block ptr b n → header_ok st b n →
  ∃ d', kfree ptr st = Some (set_heap_bitmap st (with_data (heap_bitmap st) d')) ∧
    updated false d d' b n ∧ heap_inv (set_heap_bitmap st (with_data (heap_bitmap st) d')) d'.
Proof.
  intros Hinv (-> & Hb & Hn & Hin) (l & Hl & Hlr & Hln).
  assert (0 <= bitmap_blocks) by done.
  pose proof ptr_bits_ge. pose proof ptr_bytes_cases as Hpb.
  destruct (heap_addr st d b Hinv) as (_ & Hi & Ha & Hae); [lia|].
  pose proof Hinv as (Hwf & Hlen & Hz & Hpos & Hend & Hm & Hbm). unfold kfree.
  destruct (Z.eqb_spec (block_addr b + ptr_bytes) 0); [lia|].
  replace (block_addr b + ptr_bytes - ptr_bytes) with (block_addr b) by lia.
  rewrite Hl. cbn [mbind option_bind]. rewrite Hi.
  unfold KMALLOC_BLOCK_SIZE in *. replace (l + 32 - 1) with (l + (32 - 1)) by lia.
  rewrite (usize_small (l + (32 - 1))), Hln by lia. unfold heap_blocks in *. rewrite s32_small by lia.
  destruct (bitmap_unset_range_spec (heap_bitmap st) d b n) as (d' & -> & Hupd); [done|lia..|].
  cbn [mbind option_bind]. exists d'. unfold heap_inv. split_and!; try (done || lia).
  - by eapply bitmap_wf_with_data.
  - intros i Hii. destruct Hupd as (_ & _ & ->); [|lia]. rewrite decide_False by lia. by apply Hbm.
Qed.

(** Freeing a block right after it was taken gives back the map. *)
Lemma took_kfree st st' d b n m' : heap_inv st d → took st st' d b n →
  free_range d b n → bitmap_blocks <= b → 0 < n → b + n <= heap_blocks →
  mapped m' zone KMALLOC_SPACE_SIZE → header_ok (set_heap_mem st' m') b n →
  kfree (block_addr b + ptr_bytes) (set_heap_mem st' m') = Some (set_heap_mem st m').
Proof.
  intros Hinv Ht Hfree Hb Hn Hin Hm Hh. destruct (took_inv st st' d b n Hinv Ht) as (d1 & Hinv1 & Hupd1).
  assert (heap_inv (set_heap_mem st' m') d1) as Hinv2.
  { destruct Hinv1 as (? & ? & ? & ? & ? & _ & ?). split_and!; try (done || lia). }
  destruct (kfree_spec (set_heap_mem st' m') d1 _ b n Hinv2
    (conj eq_refl (conj Hb (conj Hn Hin))) Hh) as (d2 & -> & Hupd2 & _).
  f_equal. destruct Ht as (d1' & m1 & _ & -> & _). simpl.
  pose proof Hinv as ((Hdata & Hd & _) & _ & Hz & _).
  assert (d2 = d) as ->.
  { eapply (updated_undo true); [done| |done|done]. intros i Hi. by apply Hfree. }
  unfold set_heap_bitmap, set_heap_mem, with_data. simpl.
  destruct st as [? ? [? ?] ?]; simpl in *; by subst.
Qed.

End spec.

(** ** The contract *)

Section contract.
Context `{Platform}.
Context (zone : Z).

(** A handle: the pointer, and how many blocks its header stands for. *)
Definition heap_alloc (size : Z) (st : kheap) : option (option (Z * Z) * kheap) :=
  '(r, st) ← kmalloc size st;
  Some (match r with Returned p => Some (p, blocks_for size) | SystemStop => None end, st).

Definition heap_free (h : Z * Z) (st : kheap) : option kheap := kfree h.1 st.

Definition heap_block (h : Z * Z) : Z := (h.1 - ptr_bytes - zone) / KMALLOC_BLOCK_SIZE.
Definition heap_range (h : Z * Z) : Z * Z := (heap_block h, h.2).

Definition heap_taken (st : kheap) (i : Z) : bool :=
  match data (heap_bitmap st) with Some d => bit d i | None => true end.

Definition heap_ok (st : kheap) : Prop := ∃ d, heap_inv zone st d.
Definition heap_valid (h : Z * Z) : Prop := ∃ b, is_block zone h.1 b h.2.
Definition heap_aux (st : kheap) (h : Z * Z) : Prop := header_ok zone st (heap_block h) h.2.

Lemma heap_block_is h b : is_block zone h.1 b h.2 → heap_block h = b.
Proof.
  intros (Hp & _). unfold heap_block, block_addr, KMALLOC_BLOCK_SIZE in *. rewrite Hp.
  replace (zone + b * 32 + ptr_bytes - ptr_bytes - zone) with (b * 32) by lia. by apply Z.div_mul.
Qed.

Lemma header_kept st st' b f b0 n0 :
  filled (heap_mem st) (heap_mem st') (block_addr zone b) ptr_bytes f →
  b ≠ b0 → header_ok zone st b0 n0 → header_ok zone st' b0 n0.
Proof.
  intros Hf Hne. apply header_ext. intros x Hx. rewrite Hf.
  unfold block_addr, KMALLOC_BLOCK_SIZE in *. pose proof ptr_bytes_cases.
  rewrite decide_False by lia. done.
Qed.

Lemma disjoint_blocks h h0 b b0 : is_block zone h.1 b h.2 → is_block zone h0.1 b0 h0.2 →
  range_disjoint (heap_range h) (heap_range h0) → b ≠ b0.
Proof.
  intros Hb Hb0 Hdis ->. unfold heap_range in Hdis.
  rewrite (heap_block_is _ _ Hb), (heap_block_is _ _ Hb0) in Hdis.
  destruct Hb as (_ & _ & ? & _), Hb0 as (_ & _ & ? & _). apply (Hdis b0); simpl; lia.
Qed.

Lemma heap_alloc_blocks size st : heap_ok st → heap_size_ok size →
  ∃ h st', heap_alloc size st = Some (h, st') ∧ heap_ok st' ∧
    match h with
    | None => st' = st
    | Some h => heap_valid h ∧ 0 < (heap_range h).2 ∧
        (∀ i, in_range (heap_range h) i = true → heap_taken st i = false) ∧
        (∀ i, 0 <= i → heap_taken st' i = in_range (heap_range h) i || heap_taken st i) ∧
        heap_aux st' h ∧
        ∀ h0, heap_valid h0 → range_disjoint (heap_range h) (heap_range h0) →
          heap_aux st h0 → heap_aux st' h0
    end.
Proof.
  intros [d Hinv] Hs. pose proof (blocks_for_pos size Hs) as Hn. unfold heap_alloc.
  destruct (kmalloc_spec zone st d size Hinv Hs) as [(b & st' & Hfit & -> & Ht)|[_ ->]];
    cbn [mbind option_bind]; eexists _, _; (split; [done|]); [|by split; [exists d|]].
  pose proof Hfit as (Hb & Hin & Hfree & _).
  pose proof (heap_run_late zone st d b _ Hinv Hb (proj1 Hn) Hfree) as Hlate.
  set (h := (block_addr zone b + ptr_bytes, blocks_for size)).
  assert (is_block zone h.1 b h.2) as Hblk.
  { split_and!; [done|done|apply Hn|done]. }
  pose proof (heap_block_is h b Hblk) as Hhb.
  destruct (took_inv zone st st' d b _ Hinv Ht) as (d' & Hinv' & Hupd).
  split; [by exists d'|]. split; [by exists b|]. split; [apply Hn|].
  unfold heap_range, heap_aux. rewrite Hhb. split_and!.
  - intros i Hi%bool_decide_eq_true. unfold heap_taken. destruct Hinv as ((-> & _) & _). by apply Hfree.
  - intros i Hi. unfold heap_taken. destruct Hinv as ((-> & _) & _), Hinv' as ((-> & _) & _).
    destruct Hupd as (_ & _ & ->); [|done]. unfold in_range. simpl.
    case_decide; case_bool_decide; done.
  - by destruct Ht as (? & ? & _ & _ & _ & Hh).
  - intros h0 [b0 Hb0] Hdis. rewrite (heap_block_is h0 b0 Hb0). 
    assert (b ≠ b0) as Hne.
    { apply (disjoint_blocks h h0); [done..|]. unfold heap_range. by rewrite Hhb. }
    destruct Ht as (? & m' & _ & -> & (f & Hf) & _).
    intros Ha. by eapply header_kept; [exact Hf| |exact Ha].
Qed.

Lemma heap_free_blocks h st : heap_ok st → block_owned heap_range heap_taken heap_valid heap_aux st h →
  ∃ st', heap_free h st = Some st' ∧ heap_ok st' ∧
    (∀ i, 0 <= i → heap_taken st' i = negb (in_range (heap_range h) i) && heap_taken st i) ∧
    ∀ h0, heap_valid h0 → range_disjoint (heap_range h) (heap_range h0) →
      heap_aux st h0 → heap_aux st' h0.
Proof.
  intros [d Hinv] ([b Hb] & _ & Haux). unfold heap_aux in Haux. pose proof (heap_block_is h b Hb) as Hhb.
  rewrite Hhb in Haux. destruct (kfree_spec zone st d h.1 b h.2 Hinv Hb Haux) as (d' & Hf & Hupd & Hinv').
  unfold heap_free. rewrite Hf. eexists. split; [done|]. split; [by exists d'|]. split; [|done].
  intros i Hi. unfold heap_taken, heap_range. rewrite Hhb. simpl.
  destruct Hinv as ((-> & _) & _), Hupd as (_ & _ & ->); [|done]. unfold in_range. simpl.
  case_decide; case_bool_decide; done.
Qed.

#[global] Instance heap_allocator : RangeAllocator kheap Z (Z * Z).
Proof.
  refine (block_allocator heap_alloc heap_free heap_range heap_taken heap_ok heap_size_ok
    heap_valid heap_aux _ heap_alloc_blocks heap_free_blocks).
  intros h [b Hb]. unfold heap_range. rewrite (heap_block_is h b Hb).
  destruct Hb as (_ & Hb & _). assert (0 <= bitmap_blocks) by done. simpl. lia.
Defined.

End contract.

(** ** Boot *)

Lemma kmalloc_init_spec `{Platform} next zs d zone zs' m :
  kmemzone_inv next zs d → 0 <= early_pages next →
  kmemzone_new KMALLOC_SPACE_SIZE zs = Some (zone, zs') → start zone ≠ 0 →
  mapped m (start zone) KMALLOC_SPACE_SIZE →
  ∃ st dh, kmalloc_init zs m = Some (st, zs') ∧ heap_inv (start zone) st dh ∧
    ∀ i, 0 <= i → bit dh i = bool_decide (i < bitmap_blocks).
Proof.
  intros Hinv He Hnew Hnz Hm. unfold kmalloc_init. rewrite Hnew. cbn [mbind option_bind].
  assert (0 < start zone ∧ start zone + KMALLOC_SPACE_SIZE <= 2 ^ ptr_bits) as [Hpos Hend].
  { destruct (kmemzone_new_spec next zs d KMALLOC_SPACE_SIZE Hinv ltac:(done)) as (z & s & Heq & Hcase).
    rewrite Hnew in Heq. injection Heq as <- <-.
    destruct Hcase as [(b & _ & (Hz & _ & Hb & Hin) & _)|(-> & _)]; [|done].
    pose proof kernel_base_bounds as (? & ? & _). rewrite Hz. simpl.
    change (pages KMALLOC_SPACE_SIZE) with 1024 in Hin.
    unfold zone_pages, VMM_PAGE_SIZE, KMALLOC_SPACE_SIZE in *. lia. }
  pose proof ptr_bits_ge. unfold _kmalloc_init_bitmap.
  assert (KMALLOC_SPACE_SIZE / KMALLOC_BLOCK_SIZE / 8 = heap_blocks) as -> by reflexivity.
  unfold heap_blocks. pose proof (Z2Nat.id (2 ^ 14) ltac:(done)) as Hsz.
  set (sz := Z.to_nat (2 ^ 14)) in *. clearbody sz. rewrite (s32_small (2 ^ 14)) by lia.
  destruct (bitmap_fresh sz (2 ^ 14)) as [Hwf Hz]; [lia|lia|].
  assert (kmalloc_to_index (mk_kheap (start zone) 0 (bitmap_wrap None 0) m) (start zone) = 0) as Hi.
  { unfold kmalloc_to_index, KMALLOC_BLOCK_SIZE. simpl. rewrite Z.sub_diag, (usize_small 0) by lia. done. }
  cbn [_kmalloc_zone heap_mem]. rewrite Hi.
  rewrite (usize_small (2 ^ 14 + KMALLOC_BLOCK_SIZE - 1)) by (unfold KMALLOC_BLOCK_SIZE; lia).
  change (s32 ((2 ^ 14 + KMALLOC_BLOCK_SIZE - 1) / KMALLOC_BLOCK_SIZE)) with bitmap_blocks.
  destruct (bitmap_set_range_spec _ _ 0 bitmap_blocks Hwf) as (dh & -> & Hupd); [done..|].
  cbn [mbind option_bind]. eexists _, dh. split; [done|].
  assert (∀ i, 0 <= i → bit dh i = bool_decide (i < bitmap_blocks)) as Hbit.
  { intros i Hii. destruct Hupd as (_ & _ & ->); [|done].
    case_decide; case_bool_decide; (done || lia || by apply Hz). }
  split; [|done]. unfold heap_inv. split_and!; try (done || lia).
  - by eapply (bitmap_wf_with_data _ _ dh).
  - intros i Hii. rewrite Hbit by lia. apply bool_decide_eq_true. lia.
Qed.

(** ** Properties *)

Section properties.
Context `{Platform}.

(** C7. Heap blocks never overlap. Whatever was allocated and freed before,
    two live blocks, header and payload, have no byte in common, none meets the
    bitmap in the first 16 KiB of the zone, and all lie in the first 512 KiB:
    the bitmap is given its length in bytes where it counts bits, and seven
    eighths of the 4 MiB are never used. *)
Theorem kmalloc_live_blocks_disjoint zone st0 d st live i j p1 n1 p2 n2 :
  heap_inv zone st0 d →
  rtc (alloc_step (RangeAllocator0 := heap_allocator zone)) (st0, []) (st, live) →
  i ≠ j → live !! i = Some (p1, n1) → live !! j = Some (p2, n2) →
  range_disjoint (p1 - ptr_bytes, n1 * KMALLOC_BLOCK_SIZE) (p2 - ptr_bytes, n2 * KMALLOC_BLOCK_SIZE) ∧
  zone + heap_blocks <= p1 - ptr_bytes ∧
  p1 - ptr_bytes + n1 * KMALLOC_BLOCK_SIZE <= zone + KMALLOC_SPACE_SIZE / 8.
Proof.
  intros Hinv Hreach Hij H1 H2.
  destruct (alloc_reachable_ok (RangeAllocator0 := heap_allocator zone) _ _ Hreach) as (_ & Hown & Hpair).
  { split_and!; simpl; [by exists d|constructor|done]. }
  pose proof (Forall_lookup_1 _ _ _ _ Hown H1) as ([b1 Hb1] & _).
  pose proof (Forall_lookup_1 _ _ _ _ Hown H2) as ([b2 Hb2] & _).
  pose proof (pairwise_lookup (RangeAllocator0 := heap_allocator zone) _ _ _ _ _ Hpair Hij H1 H2) as Hdis.
  unfold disjoint_handles in Hdis. simpl in Hdis. unfold heap_range in Hdis.
  rewrite (heap_block_is _ _ _ Hb1), (heap_block_is _ _ _ Hb2) in Hdis.
  destruct Hb1 as (Hp1 & ? & ? & ?), Hb2 as (Hp2 & ? & ? & ?). simpl in *. subst p1 p2.
  rewrite !Z.add_simpl_r. unfold block_addr, heap_blocks, bitmap_blocks, KMALLOC_BLOCK_SIZE in *.
  change (KMALLOC_SPACE_SIZE / 8) with (2 ^ 19).
  split; [|lia]. intros a. simpl. intros Ha1 Ha2.
  apply (Hdis ((a - zone) / 32)); simpl; Z.div_mod_to_equations; lia.
Qed.

(** [kmalloc] hands out the payload of the first free run of blocks, big
    enough for the header and the request, or stops the system exactly when
    there is none. [kfree] of the pointer gives the blocks back, restoring the
    map, whatever the owner wrote to memory as long as the header is intact. *)
Theorem kmalloc_kfree zone st d size : heap_inv zone st d → heap_size_ok size →
  (no_fit d heap_blocks (blocks_for size) ∧ kmalloc size st = Some (SystemStop, st)) ∨
  ∃ b ptr st', first_fit d heap_blocks (blocks_for size) b ∧
    kmalloc size st = Some (Returned ptr, st') ∧
    ptr = zone + b * KMALLOC_BLOCK_SIZE + ptr_bytes ∧
    ptr + size <= zone + (b + blocks_for size) * KMALLOC_BLOCK_SIZE ∧
    ∀ m, mapped m zone KMALLOC_SPACE_SIZE →
      (∀ x, ptr - ptr_bytes <= x < ptr → m !! x = heap_mem st' !! x) →
      kfree ptr (set_heap_mem st' m) = Some (set_heap_mem st m).
Proof.
  intros Hinv Hs. destruct (kmalloc_spec zone st d size Hinv Hs)
    as [(b & st' & Hfit & Heq & Ht)|]; [right|by left].
  pose proof (blocks_for_pos size Hs) as Hn. pose proof Hfit as (Hb & Hin & Hfree & _).
  pose proof (heap_run_late zone st d b _ Hinv Hb (proj1 Hn) Hfree) as Hlate.
  exists b, (block_addr zone b + ptr_bytes), st'. split_and!; [done|done|done| |].
  - unfold block_addr, blocks_for, KMALLOC_BLOCK_SIZE.
    pose proof ptr_bytes_cases. Z.div_mod_to_equations; lia.
  - intros m Hm Hx. eapply took_kfree; [exact Hinv|exact Ht|done|done|apply Hn|done|done|].
    destruct Ht as (? & ? & _ & _ & _ & Hh). eapply header_ext; [|exact Hh].
    simpl. intros y Hy. symmetry. apply Hx. lia.
Qed.

(** [kmalloc_aligned] returns a multiple of the alignment with room for
    the request inside one heap block, and [kfree_aligned] finds the block
    again and gives back the map. *)
Theorem kmalloc_aligned_kfree_aligned zone st d size al b :
  heap_inv zone st d → 0 <= size < 2 ^ 29 → 0 < al < 2 ^ 28 →
  first_fit d heap_blocks (blocks_for (size + al + ptr_bytes)) b →
  ∃ ptr st' m, kmalloc_aligned size al st = Some (Returned ptr, st') ∧ ptr mod al = 0 ∧
    zone + b * KMALLOC_BLOCK_SIZE + 2 * ptr_bytes <= ptr ∧
    ptr + size <= zone + (b + blocks_for (size + al + ptr_bytes)) * KMALLOC_BLOCK_SIZE ∧
    kfree_aligned ptr st' = Some (set_heap_mem st m).
Proof.
  intros Hinv Hs Ha Hfit. pose proof ptr_bytes_cases as Hpb. pose proof ptr_bits_ge.
  set (tot := size + al + ptr_bytes) in *.
  assert (heap_size_ok tot) as Htot by (unfold heap_size_ok, tot; lia).
  pose proof (blocks_for_pos tot Htot) as Hn.
  destruct (kmalloc_spec zone st d tot Hinv Htot) as [(b' & st1 & Hfit' & Heq & Ht)|[Hno _]].
  2:{ destruct Hfit as (? & ? & Hf & _). by destruct (Hno b). }
  assert (b' = b) as ->.
  { destruct Hfit as (Hb0 & _ & Hf & Hmin), Hfit' as (Hb0' & _ & Hf' & Hmin').
    destruct (Z.lt_total b b') as [Hlt|[?|Hlt]]; [|done|].
    - destruct (Hmin' b); [lia|done].
    - destruct (Hmin b'); [lia|done]. }
  pose proof Hfit as (Hb & Hin & Hfree & _).
  pose proof (heap_run_late zone st d b _ Hinv Hb (proj1 Hn) Hfree) as Hlate.
  destruct (took_inv zone st st1 d b _ Hinv Ht) as (d1 & Hinv1 & _).
  pose proof Hinv1 as (_ & _ & _ & _ & Hend & Hm1 & _).
  set (ba := block_addr zone b) in *.
  assert (ba + tot + ptr_bytes <= ba + blocks_for tot * KMALLOC_BLOCK_SIZE) as Hroom.
  { unfold blocks_for, KMALLOC_BLOCK_SIZE. Z.div_mod_to_equations; lia. }
  assert (tot = size + al + ptr_bytes) as Htoteq by reflexivity.
  assert (zone <= ba ∧ ba + blocks_for tot * KMALLOC_BLOCK_SIZE <= zone + 2 ^ 19) as [Hba Hbe].
  { unfold ba, block_addr, heap_blocks, KMALLOC_BLOCK_SIZE, KMALLOC_SPACE_SIZE in *. lia. }
  assert (0 < zone) as Hz by apply Hinv. change KMALLOC_SPACE_SIZE with (2 ^ 22) in *.
  unfold kmalloc_aligned. rewrite (usize_small (size + al)), (usize_small (size + al + ptr_bytes)) by lia.
  fold tot. rewrite Heq. cbn [mbind option_bind].
  set (p := ba + ptr_bytes) in *. assert (p = ba + ptr_bytes) as Hp by reflexivity.
  rewrite (usize_small (p + ptr_bytes)), (usize_small (p + ptr_bytes + al)) by lia.
  set (ma := p + ptr_bytes + al) in *. assert (ma = p + ptr_bytes + al) as Hma by reflexivity. destruct (Z.eqb_spec al 0); [lia|].
  pose proof (Z.mod_pos_bound ma al ltac:(lia)) as Hmod.
  rewrite (usize_small (ma - ma mod al)) by lia.
  set (q := ma - ma mod al) in *. assert (q = ma - ma mod al) as Hqeq by reflexivity.
  assert (q mod al = 0) as Hq.
  { unfold q. rewrite Zminus_mod, Z.mod_mod, Z.sub_diag, Z.mod_0_l by lia. done. }
  destruct (store_filled word_size (heap_mem st1) (q - ptr_bytes) p) as (m2 & Hst & Hf).
  { rewrite word_size_bytes. eapply mapped_sub; [exact Hm1|lia|lia]. }
  rewrite Hst. cbn [mbind option_bind]. eexists q, _, m2. split; [done|].
  split_and!; [done|unfold p, ba, block_addr in *; lia|unfold p, ba, block_addr in *; lia|].
  unfold kfree_aligned. destruct (Z.eqb_spec q 0); [lia|]. simpl heap_mem.
  rewrite (load_store_same word_size (heap_mem st1) (q - ptr_bytes) p m2);
    [|apply word_fits; lia|rewrite word_size_bytes; eapply mapped_sub; [exact Hm1|lia|lia]|done].
  cbn [mbind option_bind]. eapply took_kfree; [exact Hinv|exact Ht|done|done|apply Hn|done| |].
  - eapply mapped_filled; [exact Hf|done|done].
  - destruct Ht as (? & ? & _ & _ & _ & Hh). eapply header_ext; [|exact Hh].
    simpl. intros y Hy. fold ba in Hy. rewrite Hf, decide_False by lia. done.
Qed.

End properties.

(** A heap at [0xc0800000] with nothing allocated. *)
Definition mem_fill (a : Z) (n : nat) (v : Z) : mem :=
  list_to_map ((λ x, (x, v)) <$> seqZ a (Z.of_nat n)).

Lemma mem_fill_mapped a n v : mapped (mem_fill a n v) a (Z.of_nat n).
Proof.
  intros x Hx. unfold mem_fill.
  destruct (list_to_map _ !! x) eqn:E; [done|]. apply not_elem_of_list_to_map_2 in E. exfalso.
  apply E. rewrite <- list_fmap_compose. apply list_elem_of_fmap. exists x. split; [done|].
  apply elem_of_seqZ. lia.
Qed.

Definition example_map : list Z := replicate 64 0xff ++ replicate 1984 0.

Lemma example_map_bits i : 0 <= i < 1024 → bit example_map i = (i <? 512).
Proof.
  intros Hi.
  assert (forallb (λ i, eqb (bit example_map i) (i <? 512)) (seqZ 0 1024) = true) as Hall
    by (vm_compute; reflexivity).
  rewrite forallb_forall in Hall. specialize (Hall i).
  rewrite <- list_elem_of_In, elem_of_seqZ in Hall. specialize (Hall ltac:(lia)).
  by apply eqb_prop.
Qed.

Lemma example_heap : ∃ st : kheap, @heap_inv x86 0xc0800000 st example_map.
Proof.
  pose proof (mem_fill_mapped 0xc0800000 (Z.to_nat KMALLOC_SPACE_SIZE) 0) as Hm.
  rewrite Z2Nat.id in Hm by done.
  set (m := mem_fill _ _ _) in Hm. clearbody m.
  exists (mk_kheap 0xc0800000 0x4000 (bitmap_wrap (Some example_map) (2 ^ 14)) m).
  unfold heap_inv. split_and!; try (done || lia).
  - split_and!; try (done || lia). apply Forall_app. split; apply Forall_replicate; lia.
  - intros i Hi. unfold bitmap_blocks in Hi. rewrite example_map_bits by lia. lia.
Qed.

Lemma kmalloc_kfree_witness : ∃ st, @heap_inv x86 0xc0800000 st example_map ∧
  ((no_fit example_map heap_blocks 4 ∧ @kmalloc x86 100 st = Some (SystemStop, st)) ∨
   ∃ b ptr st', first_fit example_map heap_blocks 4 b ∧
     @kmalloc x86 100 st = Some (Returned ptr, st') ∧
     ptr = 0xc0800000 + b * KMALLOC_BLOCK_SIZE + 4 ∧
     ptr + 100 <= 0xc0800000 + (b + 4) * KMALLOC_BLOCK_SIZE ∧
     ∀ m, mapped m 0xc0800000 KMALLOC_SPACE_SIZE →
       (∀ x, ptr - 4 <= x < ptr → m !! x = heap_mem st' !! x) →
       @kfree x86 ptr (set_heap_mem st' m) = Some (set_heap_mem st m)).
Proof.
  destruct example_heap as [st Hinv]. exists st. split; [exact Hinv|].
  apply (@kmalloc_kfree x86 0xc0800000 st example_map 100 Hinv). unfold heap_size_ok. lia.
Defined.

Lemma example_first_fit n : 0 < n <= 512 → first_fit example_map heap_blocks n 512.
Proof.
  intros Hn. unfold heap_blocks. split_and!; [lia|lia| |].
  - intros i Hi. rewrite example_map_bits by lia. lia.
  - intros s Hs Hfree. specialize (Hfree s ltac:(lia)). rewrite example_map_bits in Hfree by lia. lia.
Qed.

Lemma kmalloc_aligned_kfree_aligned_witness : ∃ st, @heap_inv x86 0xc0800000 st example_map ∧
  ∃ ptr st' m, @kmalloc_aligned x86 100 64 st = Some (Returned ptr, st') ∧ ptr mod 64 = 0 ∧
    0xc0800000 + 512 * KMALLOC_BLOCK_SIZE + 2 * 4 <= ptr ∧
    ptr + 100 <= 0xc0800000 + (512 + 6) * KMALLOC_BLOCK_SIZE ∧
    @kfree_aligned x86 ptr st' = Some (set_heap_mem st m).
Proof.
  destruct example_heap as [st Hinv]. exists st. split; [exact Hinv|].
  apply (@kmalloc_aligned_kfree_aligned x86 0xc0800000 st example_map 100 64 512 Hinv); [lia|lia|].
  change (@blocks_for x86 (100 + 64 + @ptr_bytes (@plat_target x86))) with 6. apply example_first_fit. lia.
Defined.

(** Two allocations on the empty heap succeed, at some blocks. *)
Lemma example_two_blocks : ∃ st st1 st2 p1 p2, @heap_inv x86 0xc0800000 st example_map ∧
  @heap_alloc x86 100 st = Some (Some (p1, 4), st1) ∧
  @heap_alloc x86 200 st1 = Some (Some (p2, 7), st2).
Proof.
  destruct example_heap as [st Hinv].
  destruct (@kmalloc_spec x86 _ st _ 100 Hinv) as [(b1 & st1 & Hfit1 & Heq1 & Ht1)|[Hno _]];
    [unfold heap_size_ok; lia| |].
  2:{ destruct (Hno 512); [lia|by vm_compute|]. by apply example_first_fit. }
  destruct (@took_inv x86 _ st st1 _ b1 _ Hinv Ht1) as (d1 & Hinv1 & _ & _ & Hbit).
  destruct (@kmalloc_spec x86 _ st1 d1 200 Hinv1) as [(b2 & st2 & Hfit2 & Heq2 & Ht2)|[Hno _]];
    [unfold heap_size_ok; lia| |].
  2:{ exfalso. change (@blocks_for x86 100) with 4 in *. change (@blocks_for x86 200) with 7 in *.
      destruct Hfit1 as (Hb1 & _ & _ & Hmin).
      assert (b1 <= 512) as Hle.
      { destruct (Z.le_gt_cases b1 512); [done|]. destruct (Hmin 512); [lia|].
        by apply example_first_fit. }
      apply (Hno 600); [lia|by vm_compute|]. intros i Hi. rewrite Hbit by lia.
      rewrite decide_False by lia. rewrite example_map_bits by lia. lia. }
  eexists st, st1, st2, _, _. split; [exact Hinv|]. unfold heap_alloc. rewrite Heq1, Heq2.
  split; reflexivity.
Qed.

Lemma kmalloc_live_blocks_disjoint_witness : ∃ p1 p2,
  range_disjoint (p2 - 4, 7 * KMALLOC_BLOCK_SIZE) (p1 - 4, 4 * KMALLOC_BLOCK_SIZE) ∧
  0xc0800000 + heap_blocks <= p2 - 4 ∧
  p2 - 4 + 7 * KMALLOC_BLOCK_SIZE <= 0xc0800000 + KMALLOC_SPACE_SIZE / 8.
Proof.
  destruct example_two_blocks as (st & st1 & st2 & p1 & p2 & Hinv & H1 & H2). exists p1, p2.
  apply (@kmalloc_live_blocks_disjoint x86 0xc0800000 st example_map st2
           [(p2, 7); (p1, 4)] 0 1 p2 7 p1 4); [exact Hinv| |discriminate|reflexivity|reflexivity].
  eapply rtc_l; [|eapply rtc_once].
  - refine (step_alloc (RangeAllocator0 := @heap_allocator x86 0xc0800000) _ _ 100 _ _ _ H1).
    change (heap_size_ok 100). unfold heap_size_ok. lia.
  - refine (step_alloc (RangeAllocator0 := @heap_allocator x86 0xc0800000) _ _ 200 _ _ _ H2).
    change (heap_size_ok 200). unfold heap_size_ok. lia.
Defined.

(** [krealloc] copies the larger of the two sizes, and takes the old one from
    the header, which counts itself: shrinking a block of 100 bytes to 8 writes
    past the new block and over the header of its neighbour. *)
Definition example_small_heap : kheap :=
  mk_kheap 0x1000 8 (bitmap_wrap (Some [0xff; 0; 0; 0; 0; 0; 0; 0]) 64) (mem_fill 0x1000 2048 0xAA).

Definition krealloc_run : option (option Z * option Z) :=
  '(a, st) ← @heap_alloc x86 100 example_small_heap;
  '(x, st) ← @heap_alloc x86 8 st;
  '(c, st) ← @heap_alloc x86 8 st;
  a ← a; x ← x; c ← c;
  st ← @kfree x86 x.1 st;
  let before := load (heap_mem st) (c.1 - 4) 4 in
  '(_, st) ← @krealloc x86 a.1 8 st;
  Some (before, load (heap_mem st) (c.1 - 4) 4).

Example krealloc_clobbers_neighbour : krealloc_run = Some (Some 12, Some 0xAAAAAAAA).
Proof. vm_compute. reflexivity. Qed.
