(* ===== verification/Umem.v ===== *)
(** * Umem: access to user memory, [kernel/libkern/umem.c]

    The user and the kernel share one address space, the user's part being the
    addresses up to [USER_HIGH]. [kernel_access] says whether the CPU's access
    type is [DATA_ACCESS_KERNEL]. Mapping a user page that is not present is the
    virtual memory manager's; such a page is unmapped here, a fault. Built with
    [DEBUG_UMEM_ACCESSES], as [umem.c] defines it: a refused access panics. *)
From stdpp Require Import gmap.
From S2P Require Import Prelude Platform Bitmap Memory Libkern Kmalloc.

Section umem.
Context `{Platform} (kernel_access : bool).

Definition umem_validate_str (us maxlen : Z) (m : mem) : option bool :=
  if us =? 0 then Some false else
  let n := usize (maxlen + 1) in
  if 2 ^ 31 <=? n then None else
  r ← for_loop (Z.to_nat n) 0 (λ i (_ : unit),
    b ← m !! (us + i);
    if b =? 0 then Some (inr true) else Some (inl ())) ();
  Some (match r with inl _ => false | inr r => r end).

Definition umem_validate_ptrarray (s maxlen : Z) (m : mem) : option bool :=
  if s =? 0 then Some false else
  let n := usize (maxlen + 1) in
  if 2 ^ 31 <=? n then None else
  r ← for_loop (Z.to_nat n) 0 (λ i (_ : unit),
    p ← load m (s + ptr_bytes * i) word_size;
    if p =? 0 then Some (inr true) else Some (inl ())) ();
  Some (match r with inl _ => false | inr r => r end).

Definition access_ok (src len : Z) : bool :=
  kernel_access || (IS_USER_VADDR src && IS_USER_VADDR (usize (src + len - 1))).

Definition umem_copy_to_user (dest src length : Z) (m : mem) : option (outcome mem) :=
  if negb (access_ok dest length) then Some SystemStop else
  '(_, m) ← memcpy dest src length m; Some (Returned m).

Definition umem_copy_from_user (dest src length : Z) (m : mem) : option (outcome mem) :=
  if negb (access_ok src length) then Some SystemStop else
  '(_, m) ← memcpy dest src length m; Some (Returned m).

(** [kmalloc] as a call that may stop the machine. *)
Definition kmalloc_call (size : Z) (st : kheap) : option (outcome (Z * kheap)) :=
  '(r, st) ← kmalloc size st;
  Some (match r with Returned p => Returned (p, st) | SystemStop => SystemStop end).

Definition umem_bring_to_kernel (data size : Z) (st : kheap) : option (outcome (Z * kheap)) :=
  '(kdata, st) ←! kmalloc_call size st;
  if kdata =? 0 then Some (Returned (0, st)) else
  m ←! umem_copy_from_user kdata data size (heap_mem st);
  Some (Returned (kdata, set_heap_mem st m)).

Definition umem_bring_to_kernel_str_with_len (data size : Z) (st : kheap)
  : option (outcome (Z * kheap)) :=
  '(kdata, st) ←! kmalloc_call (usize (size + 1)) st;
  if kdata =? 0 then Some (Returned (0, st)) else
  m ←! umem_copy_from_user kdata data size (heap_mem st);
  m ← mset m (kdata + size) 0;
  Some (Returned (kdata, set_heap_mem st m)).

Definition umem_bring_to_kernel_str (data maxlen : Z) (st : kheap) : option (outcome (Z * kheap)) :=
  ok ← umem_validate_str data maxlen (heap_mem st);
  if negb ok then Some (Returned (0, st)) else
  n ← strlen (heap_mem st) data;
  umem_bring_to_kernel_str_with_len data n st.

(** One round of the loop over the array: a string is brought in and its
    address stored in the new array. *)
Definition bring_element (data maxlen res i : Z) (st : kheap) : option (outcome kheap) :=
  p ← load (heap_mem st) (data + ptr_bytes * i) word_size;
  '(q, st) ←! umem_bring_to_kernel_str p maxlen st;
  m ← store (heap_mem st) (res + ptr_bytes * i) word_size q;
  Some (Returned (set_heap_mem st m)).

Fixpoint bring_elements (n : nat) (data maxlen res i : Z) (st : kheap) : option (outcome kheap) :=
  match n with
  | O => Some (Returned st)
  | S n => st ←! bring_element data maxlen res i st;
           bring_elements n data maxlen res (i + 1) st
  end.

Definition umem_bring_to_kernel_strarray (data maxlen : Z) (st : kheap)
  : option (outcome (Z * kheap)) :=
  ok ← umem_validate_ptrarray data maxlen (heap_mem st);
  if negb ok then Some (Returned (0, st)) else
  arrlen ← ptrarray_len (heap_mem st) data;
  '(res, st) ←! kmalloc_call (usize (arrlen * ptr_bytes)) st;
  st ←! bring_elements (Z.to_nat arrlen) data maxlen res 0 st;
  Some (Returned (res, st)).

End umem.

(** ** Confinement *)

Section spec.
Context `{Platform}.

Lemma for_n_confined n i (body : Z → mem → option mem) m m' x :
  (∀ j m m', i <= j < i + Z.of_nat n → body j m = Some m' → m' !! x = m !! x) →
  for_n n i body m = Some m' → m' !! x = m !! x.
Proof.
  revert i m. induction n as [|n IH]; intros i m Hb.
  { intros [= ->]. done. }
  rewrite for_n_S. intros (m1 & H1 & H2)%bind_Some.
  rewrite (IH (i + 1) m1); [by eapply Hb; [|exact H1]; lia| |done].
  intros j ma mb Hj. apply Hb. lia.
Qed.

(** [memcpy] writes the destination only, whatever it is given. *)
Lemma memcpy_confined dest src n m m' d x : memcpy dest src n m = Some (d, m') →
  ¬ (dest <= x < dest + n) → m' !! x = m !! x.
Proof.
  unfold memcpy, for_int. intros Hc Hx. destruct (Z.leb_spec (2 ^ 31) n); [done|].
  apply bind_Some in Hc as (m1 & Hc & [= <- <-]). eapply for_n_confined; [|exact Hc].
  intros j ma mb Hj Hb. unfold copy_byte in Hb. apply bind_Some in Hb as (b & _ & Hb).
  apply mset_Some in Hb as [_ ->]. rewrite lookup_insert_ne by lia. done.
Qed.

Lemma access_ok_range src n : 0 <= src → 0 < n <= 2 ^ 30 → access_ok false src n = true →
  src + n - 1 <= USER_HIGH.
Proof.
  unfold access_ok, IS_USER_VADDR. simpl. rewrite andb_true_iff, !Z.leb_le. intros Hs Hn [H1 H2].
  pose proof user_kernel. pose proof kernel_base_fits. rewrite usize_small in H2 by lia. lia.
Qed.

(** *** Strings *)

Lemma umem_validate_str_spec us maxlen m l : us ≠ 0 → 0 <= maxlen < 2 ^ 31 - 1 →
  cstr m us l → umem_validate_str us maxlen m = Some (bool_decide (Z.of_nat (length l) <= maxlen)).
Proof.
  intros Hus Hmax Hs. unfold umem_validate_str. destruct (Z.eqb_spec us 0); [done|].
  pose proof ptr_bits_ge. rewrite usize_small by lia.
  destruct (Z.leb_spec (2 ^ 31) (maxlen + 1)); [lia|].
  match goal with |- context [for_loop ?k ?i0 ?f ?s0] =>
    destruct (for_loop_total (λ i _, i <= Z.of_nat (length l))
      (λ r, r = true ∧ Z.of_nat (length l) <= maxlen) f k i0 s0) as (r & -> & Hr) end.
  - lia.
  - intros i _ Hi Hle. destruct (cstr_get m us l i Hs) as (b & -> & Hz & _); [lia|].
    cbn [mbind option_bind]. destruct (Z.eqb_spec b 0) as [Hb|Hb].
    + apply Hz in Hb. split; [done|lia].
    + assert (i ≠ Z.of_nat (length l)) by tauto. lia.
  - cbn [mbind option_bind]. f_equal. destruct r as [[]|r].
    + rewrite bool_decide_eq_false_2 by lia. done.
    + destruct Hr as [-> Hr]. by rewrite bool_decide_eq_true_2.
Qed.

Lemma cstr_ext m m' s l : cstr m s l →
  (∀ x, s <= x <= s + Z.of_nat (length l) → m' !! x = m !! x) → cstr m' s l.
Proof.
  intros [Hb Hl] Hx. split; [|done]. intros i Hi. rewrite Hx; [by apply Hb|].
  rewrite length_app in Hi. simpl in Hi. lia.
Qed.

(** [kmalloc] leaves user memory alone. *)
Lemma took_user zone st st' d b n x : took zone st st' d b n → 0 <= b → x < zone →
  heap_mem st' !! x = heap_mem st !! x.
Proof.
  intros (d' & m' & _ & -> & (f & Hf) & _) Hb Hx. simpl. rewrite Hf.
  unfold block_addr, KMALLOC_BLOCK_SIZE. rewrite decide_False by lia. done.
Qed.

(** The copy that [umem_bring_to_kernel_str] makes of a string. *)
Lemma bring_str_spec zone st d data l maxlen :
  heap_inv zone st d → USER_HIGH < zone → data ≠ 0 → 0 <= data →
  data + Z.of_nat (length l) <= USER_HIGH → cstr (heap_mem st) data l →
  Z.of_nat (length l) <= maxlen < 2 ^ 30 - 1 →
  ¬ no_fit d heap_blocks (blocks_for (Z.of_nat (length l) + 1)) →
  ∃ ptr st' d', umem_bring_to_kernel_str false data maxlen st = Some (Returned (ptr, st')) ∧
    cstr (heap_mem st') ptr l ∧ zone < ptr ∧ heap_inv zone st' d' ∧
    ∀ x, x < zone → heap_mem st' !! x = heap_mem st !! x.
Proof.
  intros Hinv Hzone Hnz Hd0 Hdata Hs Hmax Hroom. set (n := Z.of_nat (length l)) in *.
  pose proof user_kernel as Huk. pose proof kernel_base_fits as Hkb. pose proof ptr_bytes_cases as Hpb.
  unfold umem_bring_to_kernel_str.
  rewrite (umem_validate_str_spec data maxlen _ l) by (done || lia).
  rewrite bool_decide_eq_true_2 by lia. cbn [mbind option_bind negb].
  rewrite (strlen_spec _ _ l Hs) by (fold n; lia). cbn [mbind option_bind]. fold n.
  unfold umem_bring_to_kernel_str_with_len. rewrite (usize_small (n + 1)) by lia.
  assert (heap_size_ok (n + 1)) as Hsz by (unfold heap_size_ok; lia).
  destruct (kmalloc_spec zone st d (n + 1) Hinv Hsz) as [(b & st1 & Hfit & Heq & Ht)|[? _]]; [|done].
  unfold kmalloc_call. rewrite Heq. cbn [mbind option_bind kbind].
  pose proof Hfit as (Hb & Hin & Hfree & _). pose proof (blocks_for_pos _ Hsz) as Hbn.
  destruct (took_inv zone st st1 d b _ Hinv Ht) as (d1 & Hinv1 & _).
  pose proof Hinv1 as (Hwf1 & Hlen1 & Hz1 & Hpos & Hend & Hm1 & Hbm1).
  set (p := block_addr zone b + ptr_bytes).
  assert (p = zone + b * 32 + ptr_bytes) as Hp by reflexivity.
  assert (p + n + 1 <= zone + KMALLOC_SPACE_SIZE) as Hpe.
  { unfold blocks_for, heap_blocks, KMALLOC_BLOCK_SIZE, KMALLOC_SPACE_SIZE in *.
    Z.div_mod_to_equations; lia. }
  destruct (Z.eqb_spec p 0); [lia|].
  assert (access_ok false data n = true) as Hok.
  { unfold access_ok, IS_USER_VADDR. simpl. rewrite andb_true_iff, !Z.leb_le. split; [lia|].
    destruct (Z.eq_dec (data + n) 0); [lia|]. rewrite usize_small by lia. lia. }
  unfold umem_copy_from_user. rewrite Hok. cbn [negb].
  assert (cstr (heap_mem st1) data l) as Hs1.
  { eapply cstr_ext; [exact Hs|]. intros x Hx. eapply took_user; [exact Ht|done|]. fold n in Hx. lia. }
  destruct (memcpy_spec p data n (heap_mem st1)) as (m2 & Hcpy & Hf2); [lia|lia| | |].
  { eapply mapped_sub; [exact Hm1|lia|lia]. }
  { eapply mapped_sub; [apply cstr_mapped; exact Hs1|lia|fold n; lia]. }
  rewrite Hcpy. cbn [mbind option_bind kbind].
  assert (mapped m2 zone KMALLOC_SPACE_SIZE) as Hm2.
  { eapply mapped_filled; [exact Hf2| |done]. intros x Hx. apply (cstr_mapped _ _ _ Hs1). fold n. lia. }
  rewrite mset_mapped by (apply Hm2; lia). cbn [mbind option_bind].
  eexists p, _, d1. split; [done|]. cbn [heap_mem set_heap_mem]. split_and!.
  - destruct Hs1 as [Hb1 Hl]. split; [|done]. apply bytes_at_app. fold n. split.
    + intros i Hi. rewrite lookup_insert_ne by lia. rewrite Hf2, decide_True by lia.
      apply bytes_at_app in Hb1 as [Hb1 _]. rewrite <- (Hb1 i Hi). f_equal. lia.
    + apply bytes_at_cons. split; [apply lookup_insert_eq|]. intros i Hi. simpl in Hi. lia.
  - lia.
  - unfold heap_inv. split_and!; try (done || lia). by apply mapped_insert.
  - intros x Hx. rewrite lookup_insert_ne by lia. rewrite Hf2, decide_False by lia.
    eapply took_user; [exact Ht|done|done].
Qed.

End spec.

(** ** Properties *)

Section properties.
Context `{Platform}.

(** C22. A user access cannot reach the kernel. When the check of
    [umem_copy_to_user] lets a block of 1 byte to 1 GiB through, every byte of it
    is a user address, and the copy changes no other byte, no kernel byte in
    particular; and [umem_copy_from_user] lets through only such blocks that lie in
    user memory, and changes only its destination. For longer blocks the check
    does not hold what it promises ([access_ok_wraps]). *)
Theorem umem_copy_confined dest src n m m' : 0 <= dest → 0 <= src → 0 < n <= 2 ^ 30 →
  (umem_copy_to_user false dest src n m = Some (Returned m') →
     dest + n - 1 <= USER_HIGH ∧ ∀ x, ¬ (dest <= x < dest + n) → m' !! x = m !! x) ∧
  (umem_copy_from_user false dest src n m = Some (Returned m') →
     src + n - 1 <= USER_HIGH ∧ ∀ x, ¬ (dest <= x < dest + n) → m' !! x = m !! x).
Proof.
  intros Hd Hs Hn. unfold umem_copy_to_user, umem_copy_from_user.
  split; intros Hc; case_match eqn:Ha; try done; apply negb_false_iff in Ha;
    apply bind_Some in Hc as ([r m2] & Hc & [= ->]); split;
    (by apply access_ok_range) || (intros x; by eapply memcpy_confined).
Qed.

(** [umem_bring_to_kernel_str] brings a user string into the kernel. For a
    string within the limit and within user memory, when the heap has room, it
    returns a heap pointer at which the same string lies, terminator included;
    the heap stays well-formed and no user byte changes. *)
Theorem umem_bring_str_copies zone st d data l maxlen :
  heap_inv zone st d → USER_HIGH < zone → data ≠ 0 → 0 <= data →
  data + Z.of_nat (length l) <= USER_HIGH → cstr (heap_mem st) data l →
  Z.of_nat (length l) <= maxlen < 2 ^ 30 - 1 →
  ¬ no_fit d heap_blocks (blocks_for (Z.of_nat (length l) + 1)) →
  ∃ ptr st' d', umem_bring_to_kernel_str false data maxlen st = Some (Returned (ptr, st')) ∧
    cstr (heap_mem st') ptr l ∧ zone < ptr ∧ heap_inv zone st' d' ∧
    ∀ x, x < zone → heap_mem st' !! x = heap_mem st !! x.
Proof. apply bring_str_spec. Qed.

End properties.

Definition returned {A} (x : option (outcome A)) : bool :=
  match x with Some (Returned _) => true | _ => false end.
Lemma returned_ex {A} (x : option (outcome A)) : returned x = true → ∃ a, x = Some (Returned a).
Proof. destruct x as [[a|]|]; try done. by exists a. Qed.

(** Ten bytes of a user page over others, both ways. *)
Lemma umem_copy_confined_witness : ∃ m1 m2,
  @umem_copy_to_user x86 false 0x1000 0x1080 10 example_page = Some (Returned m1) ∧
  0x1000 + 10 - 1 <= 0xbfffffff ∧ (∀ x, ¬ (0x1000 <= x < 0x1000 + 10) → m1 !! x = example_page !! x) ∧
  @umem_copy_from_user x86 false 0x1000 0x1080 10 example_page = Some (Returned m2) ∧
  0x1080 + 10 - 1 <= 0xbfffffff ∧ (∀ x, ¬ (0x1000 <= x < 0x1000 + 10) → m2 !! x = example_page !! x).
Proof.
  assert (returned (@umem_copy_to_user x86 false 0x1000 0x1080 10 example_page) = true) as H1 by (vm_compute; reflexivity).
  assert (returned (@umem_copy_from_user x86 false 0x1000 0x1080 10 example_page) = true) as H2 by (vm_compute; reflexivity).
  apply returned_ex in H1 as [m1 E1]. apply returned_ex in H2 as [m2 E2]. exists m1, m2.
  destruct (@umem_copy_confined x86 0x1000 0x1080 10 example_page m1) as [C1 _]; [lia..|].
  destruct (@umem_copy_confined x86 0x1000 0x1080 10 example_page m2) as [_ C2]; [lia..|].
  split; [exact E1|]. split; [apply (C1 E1)|]. split; [apply (C1 E1)|]. split; [exact E2|]. split; apply (C2 E2).
Defined.

(** A heap and a user string in one memory. *)
Lemma example_user_heap : ∃ st : kheap, @heap_inv x86 0xc0800000 st example_map ∧
  cstr (heap_mem st) 0x1000 [97; 98].
Proof.
  destruct example_heap as (st & Hwf & Hlen & Hz & Hpos & Hend & Hm & Hbm).
  exists (set_heap_mem st (<[0x1000 := 97]> (<[0x1001 := 98]> (<[0x1002 := 0]> (heap_mem st))))).
  split.
  - unfold heap_inv. split_and!; try (done || lia). simpl. by repeat apply mapped_insert.
  - rewrite !cstr_cons, cstr_nil. cbn [heap_mem set_heap_mem].
    split_and!; try lia; rewrite ?lookup_insert; reflexivity.
Qed.

Lemma umem_bring_str_copies_witness : ∃ st ptr st' d',
  @umem_bring_to_kernel_str x86 false 0x1000 128 st = Some (Returned (ptr, st')) ∧
  cstr (heap_mem st') ptr [97; 98] ∧ 0xc0800000 < ptr ∧ @heap_inv x86 0xc0800000 st' d' ∧
  ∀ x, x < 0xc0800000 → heap_mem st' !! x = heap_mem st !! x.
Proof.
  destruct example_user_heap as (st & Hinv & Hs). exists st.
  apply (@umem_bring_str_copies x86 0xc0800000 st example_map 0x1000 [97; 98] 128);
    [exact Hinv|done|done|done|done|exact Hs|simpl; lia|].
  intros Hno. apply (Hno 512); [lia|by vm_compute|]. apply (example_first_fit 1). lia.
Defined.

(** On a 32-bit target the check of a longer block wraps around: almost 2 GiB
    from the last user byte, most of it kernel memory, is let through. *)
Example access_ok_wraps : @access_ok x86 false 0xbfffffff 0x7fffffff = true.
Proof. reflexivity. Qed.
