(* ===== verification/Ringbuffer.v ===== *)
(** * Ringbuffer: byte queues, [kernel/algo/ringbuffer.c]

    The ring lies in a kernel zone, in byte-addressed memory. The kernel and the
    user variants of a routine differ in how they copy a block; they are
    translated once, over the copy routine. [sync_ringbuffer.h] adds only the
    lock around each call, which is one step here. *)
From stdpp Require Import gmap.
From S2P Require Import Prelude Platform Bitmap Memory Libkern Kmemzone Umem.

Record ringbuffer_t := mk_ringbuffer {
  rb_zone : kmemzone_t;
  rb_start : Z;
  rb_end : Z;
}.

Definition set_start (rb : ringbuffer_t) (v : Z) : ringbuffer_t :=
  mk_ringbuffer (rb_zone rb) v (rb_end rb).
Definition set_end (rb : ringbuffer_t) (v : Z) : ringbuffer_t :=
  mk_ringbuffer (rb_zone rb) (rb_start rb) v.

Definition RINGBUFFER_STD_SIZE : Z := 16 * 1024.

Section ringbuffer.
Context `{Platform}.

(** On failure the indices stay as they were on the stack: [junk]. *)
Definition ringbuffer_create (junk : Z * Z) (size : Z) (zs : kmemzone_state)
  : option (ringbuffer_t * kmemzone_state) :=
  '(zone, zs) ← kmemzone_new size zs;
  if start zone =? 0 then Some (mk_ringbuffer zone junk.1 junk.2, zs)
  else Some (mk_ringbuffer zone 0 0, zs).

Definition ringbuffer_create_std (junk : Z * Z) (zs : kmemzone_state) :=
  ringbuffer_create junk RINGBUFFER_STD_SIZE zs.

Definition ringbuffer_free (buf : ringbuffer_t) (zs : kmemzone_state)
  : option (ringbuffer_t * kmemzone_state) :=
  '(_, zs) ← kmemzone_free (rb_zone buf) zs;
  Some (mk_ringbuffer (rb_zone buf) 0 0, zs).

Definition ringbuffer_space_to_read_from (buf : ringbuffer_t) (start : Z) : option Z :=
  if zlen (rb_zone buf) =? 0 then None else
  let start := start mod zlen (rb_zone buf) in
  let res := usize (usize (zlen (rb_zone buf) - start) + rb_end buf) in
  let res := if start <=? rb_end buf then usize (rb_end buf - start) else res in
  Some (ssize res).

Definition ringbuffer_space_to_read (buf : ringbuffer_t) : option Z :=
  ringbuffer_space_to_read_from buf (rb_start buf).

Definition ringbuffer_space_to_write (buf : ringbuffer_t) : Z :=
  let res := usize (usize (zlen (rb_zone buf) - rb_end buf) + rb_start buf) in
  let res := if rb_end buf <? rb_start buf then usize (rb_start buf - rb_end buf) else res in
  ssize res.

(** How a block is copied: destination, source, length. *)
Definition copier : Type := Z → Z → Z → mem → option (outcome mem).

Definition kernel_copy : copier := λ dest src n m,
  '(_, m) ← memcpy dest src n m; Some (Returned m).

Definition read_from_impl (copy : copier) (rbuf : ringbuffer_t) (start buf siz : Z) (m : mem)
  : option (outcome (Z * Z * mem)) :=
  let zone := rb_zone rbuf in
  '(i, start, m) ←!
    (if rb_end rbuf <? start then
       let todo := Z.min siz (usize (zlen zone - start)) in
       m ←! copy buf (Kmemzone.start zone + start) todo m;
       let start := usize (start + todo) in
       Some (Returned (todo, if start =? zlen zone then 0 else start, m))
     else Some (Returned (0, start, m)));
  let todo := Z.min (usize (siz - i)) (usize (rb_end rbuf - start)) in
  m ←! copy (buf + i) (Kmemzone.start zone + start) todo m;
  Some (Returned (usize (i + todo), usize (start + todo), m)).

Definition write_impl (copy : copier) (rbuf : ringbuffer_t) (buf siz : Z) (m : mem)
  : option (outcome (Z * ringbuffer_t * mem)) :=
  let zone := rb_zone rbuf in
  '(i, rbuf, m) ←!
    (if rb_start rbuf <=? rb_end rbuf then
       let todo := Z.min siz (usize (zlen zone - rb_end rbuf)) in
       m ←! copy (Kmemzone.start zone + rb_end rbuf) buf todo m;
       let e := usize (rb_end rbuf + todo) in
       Some (Returned (todo, set_end rbuf (if e =? zlen zone then 0 else e), m))
     else Some (Returned (0, rbuf, m)));
  let todo := Z.min (usize (siz - i)) (usize (rb_start rbuf - rb_end rbuf)) in
  m ←! copy (Kmemzone.start zone + rb_end rbuf) (buf + i) todo m;
  Some (Returned (usize (i + todo), set_end rbuf (usize (rb_end rbuf + todo)), m)).

Definition ringbuffer_read_from_impl := read_from_impl kernel_copy.
Definition ringbuffer_read_user_from_impl (acc : bool) := read_from_impl (umem_copy_to_user acc).

(** Reading from a position of the caller's leaves the ring's own alone. *)
Definition ringbuffer_read_from (rbuf : ringbuffer_t) (start buf siz : Z) (m : mem)
  : option (outcome (Z * mem)) :=
  if zlen (rb_zone rbuf) =? 0 then None else
  '(n, _, m) ←! ringbuffer_read_from_impl rbuf (start mod zlen (rb_zone rbuf)) buf siz m;
  Some (Returned (n, m)).

Definition ringbuffer_read_user_from (acc : bool) (rbuf : ringbuffer_t) (start buf siz : Z) (m : mem)
  : option (outcome (Z * mem)) :=
  if zlen (rb_zone rbuf) =? 0 then None else
  '(n, _, m) ←! ringbuffer_read_user_from_impl acc rbuf (start mod zlen (rb_zone rbuf)) buf siz m;
  Some (Returned (n, m)).

Definition ringbuffer_read (rbuf : ringbuffer_t) (buf siz : Z) (m : mem)
  : option (outcome (Z * ringbuffer_t * mem)) :=
  '(n, start, m) ←! ringbuffer_read_from_impl rbuf (rb_start rbuf) buf siz m;
  Some (Returned (n, set_start rbuf start, m)).

Definition ringbuffer_read_user (acc : bool) (rbuf : ringbuffer_t) (buf siz : Z) (m : mem)
  : option (outcome (Z * ringbuffer_t * mem)) :=
  '(n, start, m) ←! ringbuffer_read_user_from_impl acc rbuf (rb_start rbuf) buf siz m;
  Some (Returned (n, set_start rbuf start, m)).

Definition ringbuffer_write := write_impl kernel_copy.
Definition ringbuffer_write_user (acc : bool) := write_impl (umem_copy_from_user acc).

(** One byte into the ring; the end goes round. *)
Definition put_byte (rbuf : ringbuffer_t) (b : Z) (m : mem) : option (ringbuffer_t * mem) :=
  m ← mset m (Kmemzone.start (rb_zone rbuf) + rb_end rbuf) b;
  let e := usize (rb_end rbuf + 1) in
  Some (set_end rbuf (if e =? zlen (rb_zone rbuf) then 0 else e), m).

(** [umem_put_user] of one byte is a plain store, so the user variant is the
    same routine. *)
Definition ringbuffer_write_ignore_bounds (rbuf : ringbuffer_t) (buf siz : Z) (m : mem)
  : option (Z * ringbuffer_t * mem) :=
  '(rbuf, m) ← for_n (Z.to_nat siz) 0 (λ i '(rbuf, m),
    b ← m !! (buf + i); put_byte rbuf b m) (rbuf, m);
  Some (siz, rbuf, m).

Definition ringbuffer_write_user_ignore_bounds := ringbuffer_write_ignore_bounds.

Definition ringbuffer_write_one (buf : ringbuffer_t) (dat : Z) (m : mem)
  : option (Z * ringbuffer_t * mem) :=
  if usize (rb_end buf + 1) =? rb_start buf then Some (0, buf, m) else
  '(buf, m) ← put_byte buf dat m;
  Some (1, buf, m).

Definition ringbuffer_clear (buf : ringbuffer_t) : ringbuffer_t :=
  mk_ringbuffer (rb_zone buf) 0 0.

End ringbuffer.

(** ** The queue a ring holds *)

Section spec.
Context `{Platform}.

(** The length of the ring and the address of the cell [k] places after the
    position [p]. *)
Definition ring_len (rb : ringbuffer_t) : Z := zlen (rb_zone rb).
Definition cell (rb : ringbuffer_t) (p k : Z) : Z :=
  Kmemzone.start (rb_zone rb) + (p + k) mod ring_len rb.

Definition rb_wf (rb : ringbuffer_t) (m : mem) : Prop :=
  0 < ring_len rb < 2 ^ 30 ∧ 0 <= rb_start rb < ring_len rb ∧ 0 <= rb_end rb < ring_len rb ∧
  mapped m (Kmemzone.start (rb_zone rb)) (ring_len rb).

(** From position [p] up to the end the ring holds [l]. *)
Definition rb_from (rb : ringbuffer_t) (m : mem) (p : Z) (l : list Z) : Prop :=
  Z.of_nat (length l) = (rb_end rb - p) mod ring_len rb ∧
  ∀ k, 0 <= k < Z.of_nat (length l) → m !! cell rb p k = l.[k].

Definition rb_queue (rb : ringbuffer_t) (m : mem) (l : list Z) : Prop := rb_from rb m (rb_start rb) l.

(** A block of [n] bytes at [a] that does not meet the ring. *)
Definition apart (rb : ringbuffer_t) (a n : Z) : Prop :=
  a + n <= Kmemzone.start (rb_zone rb) ∨ Kmemzone.start (rb_zone rb) + ring_len rb <= a.

Lemma wrap_mod a L : 0 < L → 0 <= a < 2 * L → a mod L = if decide (a < L) then a else a - L.
Proof.
  intros HL Ha. case_decide; [by apply Z.mod_small; lia|].
  replace a with (a - L + 1 * L) at 1 by lia. rewrite Z.mod_add, Z.mod_small by lia. done.
Qed.

Lemma wrap_diff a b L : 0 < L → 0 <= a < L → 0 <= b < L →
  (a - b) mod L = if decide (b <= a) then a - b else L - b + a.
Proof.
  intros HL Ha Hb. case_decide; [by apply Z.mod_small; lia|].
  replace (a - b) with (L - b + a + (-1) * L) by lia. rewrite Z.mod_add, Z.mod_small by lia. done.
Qed.

(** What a copy routine promises, where [ok] says that it lets the block
    through. *)
Definition copies (copy : copier) (ok : Z → Z → Z → Prop) : Prop :=
  ∀ dest src n m, 0 <= n < 2 ^ 31 → dest + n <= src ∨ src + n <= dest →
    mapped m dest n → mapped m src n → ok dest src n →
    ∃ m', copy dest src n m = Some (Returned m') ∧ copied m m' dest src n.

Lemma kernel_copies : copies kernel_copy (λ _ _ _, True).
Proof.
  intros dest src n m Hn Hov Hd Hs _. unfold kernel_copy.
  destruct (memcpy_spec dest src n m) as (m' & -> & Hf); [lia|done..|]. by exists m'.
Qed.

Lemma to_user_copies acc :
  copies (umem_copy_to_user acc) (λ dest _ n, access_ok acc dest n = true).
Proof.
  intros dest src n m Hn Hov Hd Hs Hok. unfold umem_copy_to_user. rewrite Hok.
  destruct (memcpy_spec dest src n m) as (m' & -> & Hf); [lia|done..|]. by exists m'.
Qed.

Lemma from_user_copies acc :
  copies (umem_copy_from_user acc) (λ _ src n, access_ok acc src n = true).
Proof.
  intros dest src n m Hn Hov Hd Hs Hok. unfold umem_copy_from_user. rewrite Hok.
  destruct (memcpy_spec dest src n m) as (m' & -> & Hf); [lia|done..|]. by exists m'.
Qed.

(** *** Reading *)

Lemma returned_eq {A B M} (a a' : A) (b b' : B) (m : M) : a = a' → b = b' →
  Some (Returned (a, b, m)) = Some (Returned (a', b', m)).
Proof. by intros -> ->. Qed.

(** The cells of the ring are [m]'s. *)
Definition same_ring (rb : ringbuffer_t) (m m' : mem) : Prop :=
  ∀ x, Kmemzone.start (rb_zone rb) <= x < Kmemzone.start (rb_zone rb) + ring_len rb → m' !! x = m !! x.

(** One block out of the ring: [n] bytes from position [p], which are those of
    [l] from [off] on. *)
Lemma read_piece copy ok rb m p buf n l off : copies copy ok → rb_wf rb m →
  0 <= n < 2 ^ 31 → 0 <= p → p + n <= ring_len rb → mapped m buf n → apart rb buf n →
  ok buf (Kmemzone.start (rb_zone rb) + p) n →
  (∀ k, 0 <= k < n → m !! (Kmemzone.start (rb_zone rb) + p + k) = l.[off + k]) →
  ∃ m', copy buf (Kmemzone.start (rb_zone rb) + p) n m = Some (Returned m') ∧
    filled m m' buf n (λ x, l.[off + (x - buf)]) ∧ rb_wf rb m' ∧ same_ring rb m m' ∧
    ∀ a k, mapped m a k → mapped m' a k.
Proof.
  intros Hcopy (HL & Hs & He & Hm) Hn Hp Hpn Hbuf Hap Hok Hl. unfold apart in Hap.
  destruct (Hcopy buf (Kmemzone.start (rb_zone rb) + p) n m) as (m' & Heq & Hf);
    [done|lia|done|eapply mapped_sub; [exact Hm|lia|lia]|done|].
  assert (∀ a k, mapped m a k → mapped m' a k) as Hmap.
  { intros a k Ha. eapply mapped_filled; [exact Hf| |exact Ha]. intros x Hx. apply Hm. lia. }
  exists m'. split_and!; [done| |exact (conj HL (conj Hs (conj He (Hmap _ _ Hm))))| |done].
  - intros x. rewrite Hf. case_decide; [|done]. rewrite <- Hl by lia. done.
  - intros x Hx. rewrite Hf, decide_False by lia. done.
Qed.

Lemma rb_from_cells rb m p l k : 0 < ring_len rb → 0 <= p < ring_len rb → rb_from rb m p l →
  0 <= k < Z.of_nat (length l) →
  m !! (Kmemzone.start (rb_zone rb) + (if decide (p + k < ring_len rb) then p + k else p + k - ring_len rb))
    = l.[k].
Proof.
  intros HL Hp [Hlen Hl] Hk. rewrite <- Hl by done. unfold cell.
  pose proof (Z.mod_pos_bound (rb_end rb - p) (ring_len rb) HL). by rewrite wrap_mod by lia.
Qed.

Lemma read_spec copy ok rb p buf siz m l : copies copy ok → rb_wf rb m → 0 <= p < ring_len rb →
  rb_from rb m p l → 0 <= siz < 2 ^ 30 → mapped m buf siz → apart rb buf siz →
  (∀ i s n, 0 <= i → 0 <= n → i + n <= siz → ok (buf + i) s n) →
  ∃ m', read_from_impl copy rb p buf siz m =
      Some (Returned (Z.min siz (Z.of_nat (length l)),
        (p + Z.min siz (Z.of_nat (length l))) mod ring_len rb, m')) ∧
    filled m m' buf (Z.min siz (Z.of_nat (length l))) (λ x, l.[x - buf]) ∧ same_ring rb m m'.
Proof.
  intros Hcopy Hwf Hp Hfrom Hsiz Hbuf Hap Hok. pose proof Hwf as (HL & Hs & He & Hm).
  pose proof ptr_bits_ge. pose proof Hfrom as [Hlen _].
  pose proof (λ k, rb_from_cells rb m p l k ltac:(lia) Hp Hfrom) as Hcell.
  rewrite wrap_diff in Hlen by lia. unfold read_from_impl. fold (ring_len rb).
  set (L := ring_len rb) in *. set (e := rb_end rb) in *. set (n := Z.of_nat (length l)) in *.
  unfold apart in Hap. fold L in Hap.
  assert (∀ i s k, 0 <= i → 0 <= k → i + k <= siz → ok (buf + i) s k) as Hok' by done.
  pose proof (λ s k, Hok 0 s k) as Hok0. rewrite Z.add_0_r in Hok0.
  destruct (Z.ltb_spec e p) as [Hep|Hep]; rewrite ?decide_True, ?decide_False in Hlen by lia.
  - rewrite (usize_small (L - p)) by lia. set (t := Z.min siz (L - p)).
    assert (t = Z.min siz (L - p)) as Ht by reflexivity.
    destruct (read_piece copy ok rb m p buf t l 0) as (m1 & -> & Hf1 & Hwf1 & Hsame & Hmap);
      [done|done|lia|lia|fold L; lia|eapply mapped_sub; [exact Hbuf|lia|lia]
      |unfold apart; fold L; lia|apply Hok0; lia| |].
    { intros k Hk. rewrite Z.add_0_l, <- (Hcell k) by lia. rewrite decide_True by lia. f_equal. lia. }
    cbn [kbind]. rewrite (usize_small (p + t)) by lia. rewrite (usize_small (siz - t)) by lia.
    set (q := if p + t =? L then 0 else p + t).
    assert (t = siz ∨ q = 0 ∧ t = L - p) as Hq by (unfold q; destruct (Z.eqb_spec (p + t) L); lia).
    assert (0 <= q < L) as Hql by (unfold q; destruct (Z.eqb_spec (p + t) L); lia).
    pose proof (usize_range (e - q)) as Hur.
    set (u := Z.min (siz - t) (usize (e - q))).
    assert (u = Z.min siz n - t) as Hu.
    { unfold u. destruct Hq as [Hq|[Hq ?]]; [lia|]. rewrite Hq, Z.sub_0_r, usize_small by lia. lia. }
    destruct (read_piece copy ok rb m1 q (buf + t) u l t) as (m2 & -> & Hf2 & _ & Hsame2 & _);
      [done|done|lia|lia|fold L; lia|apply Hmap; eapply mapped_sub; [exact Hbuf|lia|lia]
      |unfold apart; fold L; lia|apply Hok; lia| |].
    { intros k Hk. rewrite Hsame by (fold L; lia). rewrite <- (Hcell (t + k)) by lia.
      rewrite decide_False by lia. f_equal. lia. }
    cbn [kbind]. rewrite (usize_small (t + u)), (usize_small (q + u)) by lia. exists m2. split_and!.
    + apply returned_eq; [lia|]. rewrite wrap_mod by lia. unfold q.
      destruct (Z.eqb_spec (p + t) L); case_decide; lia.
    + replace (Z.min siz n) with (t + u) by lia. eapply filled_app; [lia|lia|exact Hf1|].
      intros x. rewrite Hf2. case_decide; [|done]. f_equal. lia.
    + intros x Hx. by rewrite Hsame2, Hsame.
  - cbn [kbind]. rewrite Z.sub_0_r, Z.add_0_r, (usize_small siz), (usize_small (e - p)) by lia.
    rewrite <- Hlen. destruct (read_piece copy ok rb m p buf (Z.min siz n) l 0)
      as (m1 & -> & Hf1 & Hwf1 & Hsame & Hmap);
      [done|done|lia|lia|fold L; lia|eapply mapped_sub; [exact Hbuf|lia|lia]
      |unfold apart; fold L; lia|apply Hok0; lia| |].
    { intros k Hk. rewrite Z.add_0_l, <- (Hcell k) by lia. rewrite decide_True by lia. f_equal. lia. }
    cbn [kbind]. rewrite !usize_small by lia. exists m1. split_and!; [|exact Hf1|done].
    apply returned_eq; [lia|]. rewrite wrap_mod by lia. case_decide; lia.
Qed.

(** What was read is gone, and the rest stays. *)
Lemma rb_from_drop rb m m' p l n : rb_wf rb m → 0 <= p < ring_len rb → rb_from rb m p l →
  same_ring rb m m' → 0 <= n <= Z.of_nat (length l) →
  rb_from rb m' ((p + n) mod ring_len rb) (drop (Z.to_nat n) l).
Proof.
  intros (HL & Hs & He & Hm) Hp [Hlen Hl] Hsame Hn. unfold rb_from.
  rewrite length_drop. set (L := ring_len rb) in *. split.
  - rewrite Zminus_mod_idemp_r. replace (rb_end rb - (p + n)) with (rb_end rb - p - n) by lia.
    rewrite <- Zminus_mod_idemp_l, <- Hlen. rewrite Z.mod_small; [lia|].
    pose proof (Z.mod_pos_bound (rb_end rb - p) L). lia.
  - intros k Hk. rewrite Hsame.
    + unfold cell. fold L. rewrite Zplus_mod_idemp_l.
      replace (p + n + k) with (p + (n + k)) by lia. specialize (Hl (n + k)). unfold cell in Hl. fold L in Hl.
      rewrite Hl by lia. rewrite !zget_lookup, lookup_drop by lia. f_equal. lia.
    + unfold cell. fold L. pose proof (Z.mod_pos_bound ((p + n) mod L + k) L). lia.
Qed.

(** *** Writing *)

(** How much can be written before the end meets the start. *)
Definition rb_free (rb : ringbuffer_t) : Z :=
  ring_len rb - (rb_end rb - rb_start rb) mod ring_len rb.

(** The [n] cells from position [p] hold the first bytes of [d], and nothing
    else changed. *)
Definition cells_written (rb : ringbuffer_t) (m m' : mem) (p n : Z) (d : list Z) : Prop :=
  (∀ k, 0 <= k < n → m' !! cell rb p k = d.[k]) ∧
  ∀ x, (∀ k, 0 <= k < n → x ≠ cell rb p k) → m' !! x = m !! x.

(** One block into the ring: the bytes of [d] from [off] on, at position
    [p]. *)
Lemma write_piece copy ok rb m p buf n d off : copies copy ok → rb_wf rb m →
  0 <= n < 2 ^ 31 → 0 <= p → p + n <= ring_len rb → mapped m buf n → apart rb buf n →
  ok (Kmemzone.start (rb_zone rb) + p) buf n →
  (∀ k, 0 <= k < n → m !! (buf + k) = d.[off + k]) →
  ∃ m', copy (Kmemzone.start (rb_zone rb) + p) buf n m = Some (Returned m') ∧
    filled m m' (Kmemzone.start (rb_zone rb) + p) n
      (λ x, d.[off + (x - (Kmemzone.start (rb_zone rb) + p))]) ∧
    ∀ a k, mapped m a k → mapped m' a k.
Proof.
  intros Hcopy (HL & Hs & He & Hm) Hn Hp Hpn Hbuf Hap Hok Hd. unfold apart in Hap.
  destruct (Hcopy (Kmemzone.start (rb_zone rb) + p) buf n m) as (m' & Heq & Hf);
    [done|lia|eapply mapped_sub; [exact Hm|lia|lia]|done|done|].
  exists m'. split_and!; [done| |].
  - intros x. rewrite Hf. case_decide; [|done]. rewrite <- Hd by lia. done.
  - intros a k Ha. eapply mapped_filled; [exact Hf| |exact Ha]. intros x Hx. apply Hbuf. lia.
Qed.

Lemma cell_eq rb p k : 0 < ring_len rb → 0 <= p < ring_len rb → 0 <= k < ring_len rb →
  cell rb p k = Kmemzone.start (rb_zone rb) +
    (if decide (p + k < ring_len rb) then p + k else p + k - ring_len rb).
Proof. intros. unfold cell. by rewrite wrap_mod by lia. Qed.

(** Two blocks, the second from the start of the ring, write cells in
    order. *)
Lemma cells_written_two rb m m1 m2 p t u d : 0 < ring_len rb → 0 <= p < ring_len rb →
  0 <= t → 0 <= u → p + t <= ring_len rb → u = 0 ∨ p + t = ring_len rb ∧ u <= p →
  filled m m1 (Kmemzone.start (rb_zone rb) + p) t
    (λ x, d.[0 + (x - (Kmemzone.start (rb_zone rb) + p))]) →
  filled m1 m2 (Kmemzone.start (rb_zone rb)) u (λ x, d.[t + (x - Kmemzone.start (rb_zone rb))]) →
  cells_written rb m m2 p (t + u) d.
Proof.
  intros HL Hp Ht Hu Hpt Hor Hf1 Hf2. split.
  - intros k Hk. rewrite cell_eq by lia. destruct (decide (p + k < ring_len rb)); rewrite Hf2.
    + rewrite decide_False by lia. rewrite Hf1, decide_True by lia. f_equal. lia.
    + rewrite decide_True by lia. f_equal. lia.
  - intros x Hx. rewrite Hf2. case_decide as Hin.
    { destruct (Hx (t + (x - Kmemzone.start (rb_zone rb)))); [lia|].
      rewrite cell_eq by lia. case_decide; lia. }
    rewrite Hf1. case_decide as Hin2; [|done].
    destruct (Hx (x - (Kmemzone.start (rb_zone rb) + p))); [lia|]. rewrite cell_eq by lia.
    rewrite decide_True by lia. lia.
Qed.

Lemma write_spec copy ok rb buf m d : copies copy ok → rb_wf rb m →
  Z.of_nat (length d) < 2 ^ 30 → bytes_at m buf d → apart rb buf (Z.of_nat (length d)) →
  (∀ i x n, 0 <= i → 0 <= n → i + n <= Z.of_nat (length d) → ok x (buf + i) n) →
  let n := Z.min (Z.of_nat (length d)) (rb_free rb) in
  ∃ m', write_impl copy rb buf (Z.of_nat (length d)) m =
      Some (Returned (n, set_end rb ((rb_end rb + n) mod ring_len rb), m')) ∧
    cells_written rb m m' (rb_end rb) n d.
Proof.
  intros Hcopy Hwf Hsiz Hd Hap Hok n. pose proof Hwf as (HL & Hs & He & Hm).
  pose proof (bytes_at_mapped _ _ _ Hd) as Hbuf. set (siz := Z.of_nat (length d)) in *.
  pose proof ptr_bits_ge. assert (n = Z.min siz (rb_free rb)) as Hn by reflexivity.
  unfold rb_free in Hn. rewrite wrap_diff in Hn by lia. clearbody n.
  pose proof (λ x k, Hok 0 x k) as Hok0. rewrite Z.add_0_r in Hok0.
  unfold write_impl. fold (ring_len rb). unfold apart in Hap.
  set (L := ring_len rb) in *. set (e := rb_end rb) in *. set (s := rb_start rb) in *.
  assert (0 <= siz) as Hsiz0 by (unfold siz; lia).
  destruct (Z.leb_spec s e) as [Hse|Hse]; rewrite ?decide_True, ?decide_False in Hn by lia.
  - rewrite (usize_small (L - e)) by lia. set (t := Z.min siz (L - e)).
    assert (t = Z.min siz (L - e)) as Ht by reflexivity.
    destruct (write_piece copy ok rb m e buf t d 0) as (m1 & -> & Hf1 & Hmap);
      [done|done|lia|lia|fold L; lia|eapply mapped_sub; [exact Hbuf|lia|lia]
      |unfold apart; fold L; lia|apply Hok0; lia| |].
    { intros k Hk. rewrite Hd by (fold siz; lia). f_equal. }
    cbn [kbind]. rewrite (usize_small (e + t)), (usize_small (siz - t)) by lia.
    cbn [rb_start rb_end rb_zone set_end]. fold s.
    set (q := if e + t =? L then 0 else e + t).
    assert (t = siz ∧ q = e + t ∧ e + t < L ∨ q = 0 ∧ t = L - e) as Hq
      by (unfold q; destruct (Z.eqb_spec (e + t) L); lia).
    assert (0 <= q < L) as Hql by lia. pose proof (usize_range (s - q)) as Hur.
    set (u := Z.min (siz - t) (usize (s - q))).
    assert (u = n - t) as Hu.
    { unfold u. destruct Hq as [Hq|[Hq ?]]; [lia|]. rewrite Hq, Z.sub_0_r, usize_small by lia. lia. }
    assert (rb_wf rb m1) as Hwf1 by exact (conj HL (conj Hs (conj He (Hmap _ _ Hm)))).
    destruct (write_piece copy ok rb m1 q (buf + t) u d t) as (m2 & -> & Hf2 & _);
      [done|done|lia|lia|fold L; lia|apply Hmap; eapply mapped_sub; [exact Hbuf|lia|lia]
      |unfold apart; fold L; lia|apply Hok; lia| |].
    { intros k Hk. rewrite Hf1, decide_False by lia. rewrite <- Z.add_assoc, Hd by (fold siz; lia). done. }
    cbn [kbind]. rewrite (usize_small (t + u)), (usize_small (q + u)) by lia. exists m2. split.
    + unfold set_end. simpl. apply returned_eq; [lia|]. f_equal. rewrite wrap_mod by lia. case_decide; lia.
    + replace n with (t + u) by lia. destruct Hq as [Hq|[Hq0 Hq]].
      * eapply cells_written_two; fold L; [lia|lia|lia|lia|lia|left; lia|exact Hf1|].
        intros x. rewrite Hf2, !decide_False by lia. done.
      * eapply cells_written_two; fold L; [lia|lia|lia|lia|lia|right; lia|exact Hf1|].
        rewrite Hq0, Z.add_0_r in Hf2. exact Hf2.
  - cbn [kbind]. rewrite Z.sub_0_r, Z.add_0_r, (usize_small siz) by lia.
    fold s e. rewrite (usize_small (s - e)) by lia.
    replace (Z.min siz (s - e)) with n by lia.
    destruct (write_piece copy ok rb m e buf n d 0) as (m1 & -> & Hf1 & Hmap);
      [done|done|lia|lia|fold L; lia|eapply mapped_sub; [exact Hbuf|lia|lia]
      |unfold apart; fold L; lia|apply Hok0; lia| |].
    { intros k Hk. rewrite Hd by (fold siz; lia). f_equal. }
    cbn [kbind]. rewrite !usize_small by lia. exists m1. split.
    + apply returned_eq; [lia|]. f_equal. rewrite Z.mod_small by lia. done.
    + replace n with (n + 0) by lia.
      eapply cells_written_two; fold L; [lia|lia|lia|lia|lia|by left|exact Hf1|by apply filled_nil].
Qed.

(** Cells at different distances from a position are different. *)
Lemma cell_inj rb p k k' : 0 < ring_len rb → 0 <= k < ring_len rb → 0 <= k' < ring_len rb →
  cell rb p k = cell rb p k' → k = k'.
Proof.
  intros HL Hk Hk' Heq. unfold cell in Heq.
  assert ((p + k) mod ring_len rb = (p + k') mod ring_len rb) as Hm by lia.
  assert ((k - k') mod ring_len rb = 0) as H0.
  { replace (k - k') with ((p + k) - (p + k')) by lia. rewrite Zminus_mod, Hm, Z.sub_diag. done. }
  destruct (Z.lt_total k k') as [Hlt|[|Hlt]]; [|done|].
  - replace (k - k') with (ring_len rb + (k - k') + (-1) * ring_len rb) in H0 by lia.
    rewrite Z.mod_add, Z.mod_small in H0 by lia. lia.
  - rewrite Z.mod_small in H0 by lia. lia.
Qed.

(** What was written goes to the back of the queue, unless it filled the ring:
    then the end has met the start, and the queue reads as empty. *)
Lemma rb_queue_written rb m m' l d n : rb_wf rb m → rb_queue rb m l →
  0 <= n <= Z.min (Z.of_nat (length d)) (rb_free rb) →
  cells_written rb m m' (rb_end rb) n d →
  rb_queue (set_end rb ((rb_end rb + n) mod ring_len rb)) m'
    (if decide (n < rb_free rb) then l ++ take (Z.to_nat n) d else []).
Proof.
  intros (HL & Hs & He & Hm) [Hlen Hl] Hn [Hw Hframe]. unfold rb_free in *. rewrite <- Hlen in *.
  assert (∀ k, cell rb (rb_end rb) k = cell rb (rb_start rb) (Z.of_nat (length l) + k)) as Hcell.
  { intros k. unfold cell. f_equal. rewrite Hlen.
    rewrite <- (Zplus_mod_idemp_r ((rb_end rb - rb_start rb) mod ring_len rb + k)).
    rewrite Zplus_mod_idemp_l, Zplus_mod_idemp_r. f_equal. lia. }
  assert (((rb_end rb + n) mod ring_len rb - rb_start rb) mod ring_len rb
    = (Z.of_nat (length l) + n) mod ring_len rb) as Hnew.
  { rewrite Zminus_mod_idemp_l, Hlen, Zplus_mod_idemp_l. f_equal. lia. }
  split; unfold set_end, ring_len in *; simpl in *.
  - rewrite Hnew. case_decide; simpl.
    + rewrite length_app, length_take. rewrite Z.mod_small; lia.
    + replace (Z.of_nat (length l) + n) with (0 + 1 * zlen (rb_zone rb)) by lia.
      rewrite Z.mod_add by lia. done.
  - intros k Hk. case_decide; [|simpl in Hk; lia]. rewrite length_app, length_take in Hk.
    change (cell _ (rb_start rb) k) with (cell rb (rb_start rb) k).
    destruct (Z.lt_ge_cases k (Z.of_nat (length l))).
    + rewrite Hframe.
      * rewrite Hl, !zget_lookup, lookup_app_l by lia. done.
      * intros k' Hk' Heq. rewrite Hcell in Heq. apply cell_inj in Heq; unfold ring_len; lia.
    + replace k with (Z.of_nat (length l) + (k - Z.of_nat (length l))) at 1 by lia.
      rewrite <- Hcell, Hw by lia. rewrite !zget_lookup, lookup_app_r by lia.
      rewrite lookup_take_lt by lia. f_equal. lia.
Qed.

Lemma cells_written_mapped rb m m' p n d a k : cells_written rb m m' p n d →
  n <= Z.of_nat (length d) → mapped m a k → mapped m' a k.
Proof.
  intros [Hw Hframe] Hn Hm x Hx.
  destruct (decide (Exists (λ j, x = cell rb p j) (seqZ 0 n))) as [Hex|Hno].
  - apply Exists_exists in Hex as (j & Hj%elem_of_seqZ & ->). rewrite Hw by lia. apply zget_is_Some. lia.
  - rewrite Hframe; [by apply Hm|]. intros j Hj ->. apply Hno, Exists_exists. exists j.
    split; [apply elem_of_seqZ; lia|done].
Qed.

Lemma write_ignore_spec rb buf m d : rb_wf rb m → Z.of_nat (length d) <= ring_len rb →
  bytes_at m buf d → apart rb buf (Z.of_nat (length d)) →
  ∃ m', ringbuffer_write_ignore_bounds rb buf (Z.of_nat (length d)) m =
      Some (Z.of_nat (length d), set_end rb ((rb_end rb + Z.of_nat (length d)) mod ring_len rb), m') ∧
    cells_written rb m m' (rb_end rb) (Z.of_nat (length d)) d.
Proof.
  intros (HL & Hs & He & Hm) Hlen Hd Hap. unfold ringbuffer_write_ignore_bounds. pose proof ptr_bits_ge.
  rewrite Nat2Z.id. unfold apart in Hap.
  match goal with |- context [for_n ?n0 ?i0 ?f ?s0] =>
    destruct (for_n_total (λ k '(rb', m'), rb' = set_end rb ((rb_end rb + k) mod ring_len rb) ∧
      cells_written rb m m' (rb_end rb) k d) f n0 i0 s0) as ([rb' m'] & -> & -> & Hw) end.
  - rewrite Z.add_0_r, Z.mod_small by lia. split; [by destruct rb|]. split; [intros; lia|]. done.
  - intros k [rb' m1] Hk [-> Hw].
    pose proof (Z.mod_pos_bound (rb_end rb + k) (ring_len rb) ltac:(lia)) as Hmod.
    assert (m1 !! (buf + k) = d.[k]) as ->.
    { rewrite (proj2 Hw); [by apply Hd; lia|]. intros j Hj. unfold cell.
      pose proof (Z.mod_pos_bound (rb_end rb + j) (ring_len rb) ltac:(lia)). lia. }
    destruct (zget_is_Some d k) as [b Hb]; [lia|]. rewrite Hb. cbn [mbind option_bind]. unfold put_byte.
    cbn [rb_zone rb_end set_end]. fold (cell rb (rb_end rb) k). fold (ring_len rb).
    assert (is_Some (m1 !! cell rb (rb_end rb) k)).
    { eapply (cells_written_mapped _ _ _ _ _ _ _ _ Hw); [lia|exact Hm|]. unfold cell. lia. }
    rewrite mset_mapped by done. cbn [mbind option_bind].
    eexists (_, _). split; [done|]. split.
    + unfold set_end. simpl. f_equal. rewrite usize_small by lia. fold (ring_len rb).
      rewrite (wrap_mod (rb_end rb + k)), (wrap_mod (rb_end rb + (k + 1))) in * by lia.
      destruct (Z.eqb_spec ((if decide (rb_end rb + k < ring_len rb) then rb_end rb + k
        else rb_end rb + k - ring_len rb) + 1) (ring_len rb)); repeat case_decide; lia.
    + destruct Hw as [Hw Hframe]. split.
      * intros j Hj. rewrite lookup_insert. case_decide as Heq.
        { apply cell_inj in Heq; [|lia..]. by subst. }
        apply Hw. destruct (Z.eq_dec j k) as [->|]; [done|lia].
      * intros x Hx. rewrite lookup_insert_ne by (intros <-; eapply Hx; [|reflexivity]; lia).
        apply Hframe. intros j Hj. apply Hx. lia.
  - cbn [mbind option_bind]. exists m'. rewrite Z.add_0_l in *. done.
Qed.

(** Blocks that the user check lets through, piece by piece. *)
Lemma access_ok_pieces acc buf siz i n : acc = true ∨ 0 < buf ∧ buf + siz <= USER_HIGH →
  0 <= i → 0 <= n → i + n <= siz → access_ok acc (buf + i) n = true.
Proof.
  intros Hacc Hi Hn Hin. unfold access_ok, IS_USER_VADDR. destruct Hacc as [->|[Hb Hu]]; [done|].
  apply orb_true_iff. right. rewrite andb_true_iff, !Z.leb_le.
  pose proof user_kernel. pose proof kernel_base_fits. rewrite usize_small by lia. lia.
Qed.

Lemma rb_wf_kept rb m m' s e : rb_wf rb m → 0 <= s < ring_len rb → 0 <= e < ring_len rb →
  mapped m' (Kmemzone.start (rb_zone rb)) (ring_len rb) → rb_wf (set_start (set_end rb e) s) m'.
Proof. intros (HL & _) Hs He Hm. exact (conj HL (conj Hs (conj He Hm))). Qed.

End spec.

(** ** Properties *)

Section properties.
Context `{Platform}.

(** C24. Writing appends to the queue. With [l] in the ring, a write of the
    bytes [d] takes as many as there is room for, and the ring then holds [l]
    and those bytes, as long as some room is left. But the last free byte must
    never be used: a write that fills the ring makes the end meet the start,
    and the ring reads as empty, old bytes and new ones lost. The user variant
    does the same for a block in user memory, and [ringbuffer_space_to_write]
    reports the room. *)
Theorem ringbuffer_write_appends rb buf m l d : rb_wf rb m → rb_queue rb m l →
  Z.of_nat (length d) < 2 ^ 30 → bytes_at m buf d → apart rb buf (Z.of_nat (length d)) →
  let room := ring_len rb - Z.of_nat (length l) in
  let n := Z.min (Z.of_nat (length d)) room in
  ringbuffer_space_to_write rb = room ∧
  ∃ rb' m', ringbuffer_write rb buf (Z.of_nat (length d)) m = Some (Returned (n, rb', m')) ∧
    rb_wf rb' m' ∧ rb_queue rb' m' (if decide (n < room) then l ++ take (Z.to_nat n) d else []) ∧
    ∀ acc, acc = true ∨ 0 < buf ∧ buf + Z.of_nat (length d) <= USER_HIGH →
      ∃ m2, ringbuffer_write_user acc rb buf (Z.of_nat (length d)) m = Some (Returned (n, rb', m2)) ∧
        rb_queue rb' m2 (if decide (n < room) then l ++ take (Z.to_nat n) d else []).
Proof.
  intros Hwf Hq Hsiz Hd Hap room n. pose proof Hq as [Hlen _]. pose proof Hwf as (HL & Hs & He & Hm).
  assert (rb_free rb = room) as Hfree by (unfold rb_free, room; by rewrite Hlen). split.
  { unfold ringbuffer_space_to_write, room. fold (ring_len rb). rewrite Hlen, wrap_diff by lia.
    pose proof ptr_bits_ge. destruct (Z.ltb_spec (rb_end rb) (rb_start rb)).
    - rewrite decide_False, usize_small, ssize_small by lia. lia.
    - rewrite decide_True, (usize_small (ring_len rb - rb_end rb)), usize_small, ssize_small by lia. lia. }
  destruct (write_spec _ _ rb buf m d kernel_copies) as (m' & Heq & Hw); [done..|]. cbv zeta in Heq, Hw.
  rewrite Hfree in Heq, Hw. fold n in Heq, Hw.
  assert (0 <= n <= Z.min (Z.of_nat (length d)) (rb_free rb)) as Hn.
  { rewrite Hfree. unfold n, room. pose proof (Z.mod_pos_bound (rb_end rb - rb_start rb) (ring_len rb)). lia. }
  eexists _, m'. split; [exact Heq|]. split_and!.
  - pose proof (Z.mod_pos_bound (rb_end rb + n) (ring_len rb) ltac:(lia)).
    apply (rb_wf_kept rb m m' (rb_start rb) ((rb_end rb + n) mod ring_len rb)); [done..|].
    eapply cells_written_mapped; [exact Hw|lia|exact Hm].
  - rewrite <- Hfree. by eapply rb_queue_written.
  - intros acc Hacc. destruct (write_spec _ _ rb buf m d (from_user_copies acc)) as (m2 & Heq2 & Hw2); [done..| |].
    { intros i x k Hi Hk Hik. by eapply access_ok_pieces. }
    cbv zeta in Heq2, Hw2. rewrite Hfree in Heq2, Hw2. fold n in Heq2, Hw2.
    exists m2. split; [exact Heq2|]. rewrite <- Hfree. by eapply rb_queue_written.
Qed.

(** Reading takes from the front of the queue. A read of at most [siz]
    bytes delivers the first bytes of [l], as many as there are, in order, into
    the caller's buffer and nowhere else, and leaves the rest in the ring; the
    user variant does the same for a buffer in user memory, and
    [ringbuffer_space_to_read] reports the length of the queue. *)
Theorem ringbuffer_read_takes rb buf siz m l : rb_wf rb m → rb_queue rb m l →
  0 <= siz < 2 ^ 30 → mapped m buf siz → apart rb buf siz →
  let n := Z.min siz (Z.of_nat (length l)) in
  ringbuffer_space_to_read rb = Some (Z.of_nat (length l)) ∧
  ∃ rb' m', ringbuffer_read rb buf siz m = Some (Returned (n, rb', m')) ∧
    filled m m' buf n (λ x, l.[x - buf]) ∧ rb_queue rb' m' (drop (Z.to_nat n) l) ∧ 
    ∀ acc, acc = true ∨ 0 < buf ∧ buf + siz <= USER_HIGH →
      ringbuffer_read_user acc rb buf siz m = Some (Returned (n, rb', m')).
Proof.
  intros Hwf Hq Hsiz Hbuf Hap n. pose proof Hq as [Hlen _]. pose proof Hwf as (HL & Hs & He & Hm). split.
  { unfold ringbuffer_space_to_read, ringbuffer_space_to_read_from. fold (ring_len rb).
    destruct (Z.eqb_spec (ring_len rb) 0); [lia|]. rewrite Z.mod_small by lia. rewrite Hlen, wrap_diff by lia.
    pose proof ptr_bits_ge. destruct (Z.leb_spec (rb_start rb) (rb_end rb)).
    - rewrite decide_True, usize_small, ssize_small by lia. done.
    - rewrite decide_False, (usize_small (ring_len rb - rb_start rb)), usize_small, ssize_small by lia. done. }
  destruct (read_spec _ _ rb (rb_start rb) buf siz m l kernel_copies) as (m' & Heq & Hf & Hsame); [done..|].
  fold n in Heq, Hf. unfold ringbuffer_read, ringbuffer_read_from_impl. rewrite Heq. cbn [kbind].
  eexists _, m'. split; [done|]. split_and!; [exact Hf| |].
  - apply (rb_from_drop rb m); [done|done|done|done|lia].
  - intros acc Hacc. destruct (read_spec _ _ rb (rb_start rb) buf siz m l (to_user_copies acc))
      as (m2 & Heq2 & Hf2 & _); [done..| |].
    { intros i x k Hi Hk Hik. by eapply access_ok_pieces. }
    fold n in Heq2, Hf2. unfold ringbuffer_read_user, ringbuffer_read_user_from_impl. rewrite Heq2.
    cbn [kbind]. by rewrite (filled_eq _ _ _ _ _ _ Hf Hf2).
Qed.

(** The ring as a broadcast: after [ringbuffer_write_ignore_bounds] of
    fewer bytes than the ring is long, a reader whose own position is the end
    before the write gets exactly those bytes, wherever the ring's start is. *)
Theorem ringbuffer_broadcast rb buf m d pos out : rb_wf rb m → Z.of_nat (length d) < ring_len rb →
  bytes_at m buf d → apart rb buf (Z.of_nat (length d)) →
  pos mod ring_len rb = rb_end rb → mapped m out (Z.of_nat (length d)) →
  apart rb out (Z.of_nat (length d)) →
  ∃ rb' m1 m2, ringbuffer_write_ignore_bounds rb buf (Z.of_nat (length d)) m =
      Some (Z.of_nat (length d), rb', m1) ∧
    ringbuffer_space_to_read_from rb' pos = Some (Z.of_nat (length d)) ∧
    ringbuffer_read_from rb' pos out (Z.of_nat (length d)) m1 =
      Some (Returned (Z.of_nat (length d), m2)) ∧ bytes_at m2 out d.
Proof.
  intros Hwf Hlen Hd Hap Hpos Hout Hapo. pose proof Hwf as (HL & Hs & He & Hm).
  destruct (write_ignore_spec rb buf m d) as (m1 & Heq & Hw); [done|lia|done..|].
  set (n := Z.of_nat (length d)) in *. set (e' := (rb_end rb + n) mod ring_len rb) in *.
  set (rb' := set_end rb e') in *.
  assert (0 <= e' < ring_len rb) as He' by (apply Z.mod_pos_bound; lia).
  assert (∀ a k, mapped m a k → mapped m1 a k) as Hmap.
  { intros a k Ha. eapply cells_written_mapped; [exact Hw|lia|exact Ha]. }
  assert (rb_wf rb' m1) as Hwf'.
  { apply (rb_wf_kept rb m m1 (rb_start rb) e'); [done..|]. by apply Hmap. }
  assert ((e' - rb_end rb) mod ring_len rb = n) as Hdiff.
  { unfold e'. rewrite Zminus_mod_idemp_l. rewrite Z.mod_small; lia. }
  assert (rb_from rb' m1 (rb_end rb) d) as Hfrom.
  { split; [by symmetry|]. intros k Hk. by apply Hw. }
  destruct (read_spec _ _ rb' (rb_end rb) out n m1 d kernel_copies) as (m2 & Heq2 & Hf & _);
    [done|exact He|exact Hfrom|unfold n; lia|by apply Hmap|done|done|].
  exists rb', m1, m2. split; [exact Heq|].
  assert (zlen (rb_zone rb') = ring_len rb) as Hz by reflexivity.
  fold n in Heq2, Hf. rewrite Z.min_id in Heq2, Hf. split_and!.
  - unfold ringbuffer_space_to_read_from. rewrite Hz, Hpos. destruct (Z.eqb_spec (ring_len rb) 0); [lia|].
    rewrite <- Hdiff, wrap_diff by lia. change (rb_end rb') with e'. pose proof ptr_bits_ge.
    destruct (Z.leb_spec (rb_end rb) e').
    + rewrite decide_True, usize_small, ssize_small by lia. done.
    + rewrite decide_False, (usize_small (ring_len rb - rb_end rb)), usize_small, ssize_small by lia. done.
  - unfold ringbuffer_read_from. rewrite Hz, Hpos. destruct (Z.eqb_spec (ring_len rb) 0); [lia|].
    unfold ringbuffer_read_from_impl. rewrite Heq2. done.
  - intros k Hk. rewrite Hf, decide_True by lia. f_equal. lia.
Qed.

End properties.

(** A ring of 16 bytes at [0x1080] that holds four bytes, around its end. *)
Definition example_ring : ringbuffer_t := mk_ringbuffer (mk_kmemzone 0x1080 16) 14 2.

Lemma example_ring_wf : rb_wf example_ring example_page.
Proof.
  unfold rb_wf, ring_len. simpl. split; [lia|]. split; [lia|]. split; [lia|].
  apply example_page_mapped; lia.
Qed.

Lemma example_ring_queue : rb_queue example_ring example_page [7; 7; 7; 7].
Proof.
  split; [done|]. simpl. intros k Hk.
  assert (k = 0 ∨ k = 1 ∨ k = 2 ∨ k = 3) as [-> | [-> | [-> | ->]]] by lia; vm_compute; reflexivity.
Qed.

Lemma example_data : bytes_at example_page 0x1000 [97; 98; 0].
Proof. rewrite !bytes_at_cons. split_and!; try done. intros i Hi. simpl in Hi. lia. Qed.

Lemma ringbuffer_write_appends_witness :
  @ringbuffer_space_to_write x86 example_ring = 12 ∧
  ∃ rb' m', @ringbuffer_write x86 example_ring 0x1000 3 example_page = Some (Returned (3, rb', m')) ∧
    rb_wf rb' m' ∧ rb_queue rb' m' [7; 7; 7; 7; 97; 98; 0] ∧
    ∀ acc, acc = true ∨ 0 < 0x1000 ∧ 0x1000 + 3 <= 0xbfffffff →
      ∃ m2, @ringbuffer_write_user x86 acc example_ring 0x1000 3 example_page
              = Some (Returned (3, rb', m2)) ∧
        rb_queue rb' m2 [7; 7; 7; 7; 97; 98; 0].
Proof.
  apply (@ringbuffer_write_appends x86 example_ring 0x1000 example_page [7; 7; 7; 7] [97; 98; 0]
    example_ring_wf example_ring_queue); [simpl; lia|exact example_data|left; vm_compute; discriminate].
Defined.

Lemma ringbuffer_read_takes_witness :
  @ringbuffer_space_to_read x86 example_ring = Some 4 ∧
  ∃ rb' m', @ringbuffer_read x86 example_ring 0x1020 3 example_page = Some (Returned (3, rb', m')) ∧
    filled example_page m' 0x1020 3 (λ x, [7; 7; 7; 7].[x - 0x1020]) ∧ rb_queue rb' m' [7] ∧
    ∀ acc, acc = true ∨ 0 < 0x1020 ∧ 0x1020 + 3 <= 0xbfffffff →
      @ringbuffer_read_user x86 acc example_ring 0x1020 3 example_page = Some (Returned (3, rb', m')).
Proof.
  apply (@ringbuffer_read_takes x86 example_ring 0x1020 3 example_page [7; 7; 7; 7]
    example_ring_wf example_ring_queue);
    [lia|apply example_page_mapped; lia|left; vm_compute; discriminate].
Defined.

Lemma ringbuffer_broadcast_witness : ∃ rb' m1 m2,
  @ringbuffer_write_ignore_bounds x86 example_ring 0x1000 3 example_page = Some (3, rb', m1) ∧
  @ringbuffer_space_to_read_from x86 rb' 18 = Some 3 ∧
  @ringbuffer_read_from x86 rb' 18 0x1020 3 m1 = Some (Returned (3, m2)) ∧
  bytes_at m2 0x1020 [97; 98; 0].
Proof.
  apply (@ringbuffer_broadcast x86 example_ring 0x1000 example_page [97; 98; 0] 18 0x1020 example_ring_wf);
    [done|exact example_data|left; vm_compute; discriminate|done|apply example_page_mapped; simpl; lia
    |left; vm_compute; discriminate].
Defined.

(** One byte more than fits with [ringbuffer_write_one] at the end of the ring:
    the guard compares [end + 1] without going round, and the queue of 15 bytes
    is gone. *)
Example write_one_loses_queue :
  let rb := mk_ringbuffer (mk_kmemzone 0x1080 16) 0 15 in
  @ringbuffer_space_to_read x86 rb = Some 15 ∧
  (λ '(n, rb, _), (n, @ringbuffer_space_to_read x86 rb)) <$> @ringbuffer_write_one x86 rb 5 example_page
    = Some (1, Some 0).
Proof. split; vm_compute; reflexivity. Qed.
