(* ===== verification/Dynarr.v ===== *)
(** * Dynarr: growing arrays, [kernel/algo/dynamic_array.c]

    A dynamic array is a chain of buckets, each twice as long as the one before,
    so that an element never moves. A bucket pointer is its place in the chain;
    the head is the first bucket and the tail the last one. The memory of a new
    bucket is indeterminate ([None] in its slots). [kmalloc] returns here: when
    the heap is full it stops the system instead. *)
From S2P Require Import Prelude Platform.

Section dynarr.
Context `{Platform} {E : Type}.

Record dynamic_array_bucket := mk_bucket {
  b_data : list (option E);
  b_capacity : Z;
  b_size : Z;
}.

Record dynamic_array := mk_dynarr {
  buckets : list dynamic_array_bucket;
  v_size : Z;
}.

Definition tail_bucket (v : dynamic_array) : option dynamic_array_bucket := last (buckets v).

(** The search: [k] is the place of the bucket looked at, [cur] the capacity up
    to its end, [idx] the index inside it. *)
Fixpoint find_bucket (bs : list dynamic_array_bucket) (k cur idx index : Z) : option (Z * Z) :=
  match bs with
  | [] => None
  | b :: bs =>
      let cur := s32 (usize (usize cur + b_capacity b)) in
      if cur <=? index
      then find_bucket bs (k + 1) cur (s32 (usize (usize idx - b_capacity b))) index
      else Some (k, idx)
  end.

(** The bucket's place and the index inside it; [None] for a null pointer. *)
Definition _dynarr_bucket (v : dynamic_array) (index : Z) : option (Z * Z) :=
  find_bucket (buckets v) 0 0 index index.

Definition _dynarr_add_bucket (v : dynamic_array) (bucket_size : Z) : dynamic_array :=
  let new_bucket := mk_bucket (replicate (Z.to_nat bucket_size) None) (usize bucket_size) 0 in
  mk_dynarr (buckets v ++ [new_bucket]) (v_size v).

Definition _dynarr_has_empty_space (v : dynamic_array) : bool :=
  match tail_bucket v with
  | None => false
  | Some t => b_size t <? b_capacity t
  end.

Definition _dynarr_grow (v : dynamic_array) : dynamic_array :=
  let cap := match tail_bucket v with None => 8 | Some t => s32 (usize (b_capacity t * 2)) end in
  _dynarr_add_bucket v cap.

Definition dynarr_init_of_size_impl (cap : Z) : dynamic_array :=
  _dynarr_add_bucket (mk_dynarr [] 0) (s32 cap).

Definition dynarr_free (v : dynamic_array) : dynamic_array := mk_dynarr [] 0.

(** The slot that the returned pointer points to: its bucket's place and the
    index inside it; null for an index past the last bucket. *)
Definition dynarr_get (v : dynamic_array) (index : Z) : option (Z * Z) := _dynarr_bucket v index.

(** [memcpy] of an element into a slot. *)
Definition write_slot (v : dynamic_array) (k i : Z) (element : E) : option dynamic_array :=
  b ← (buckets v).[k];
  d ← (b_data b).[i <- Some element];
  bs ← (buckets v).[k <- mk_bucket d (b_capacity b) (b_size b)];
  Some (mk_dynarr bs (v_size v)).

(** [target->size++] and [target->size--]. *)
Definition count_bucket (v : dynamic_array) (k by_ : Z) : option dynamic_array :=
  b ← (buckets v).[k];
  bs ← (buckets v).[k <- mk_bucket (b_data b) (b_capacity b) (usize (b_size b + by_))];
  Some (mk_dynarr bs (v_size v)).

Definition dynarr_push (v : dynamic_array) (element : E) : option (Z * Z * dynamic_array) :=
  let v := if negb (_dynarr_has_empty_space v) then _dynarr_grow v else v in
  '(k, i) ← _dynarr_bucket v (s32 (v_size v));
  v ← write_slot v k i element;
  v ← count_bucket v k 1;
  Some (k, i, mk_dynarr (buckets v) (usize (v_size v + 1))).

Definition dynarr_pop (v : dynamic_array) : option (Z * dynamic_array) :=
  if v_size v =? 0 then Some (-1, v) else
  '(k, _) ← _dynarr_bucket v (s32 (usize (v_size v - 1)));
  v ← count_bucket v k (-1);
  Some (0, mk_dynarr (buckets v) (usize (v_size v - 1))).

Definition dynarr_clear (v : dynamic_array) : dynamic_array := dynarr_free v.

Definition dyarr_size (v : dynamic_array) : Z := v_size v.

(** The element a slot holds. *)
Definition slot (v : dynamic_array) (p : Z * Z) : option E :=
  b ← (buckets v).[p.1]; mjoin ((b_data b).[p.2]).

(** ** Invariant *)

(** The slots of the buckets in order, [size] of them in use: a bucket's own
    size is how many of its slots are. *)
Definition slots (bs : list dynamic_array_bucket) : list (option E) := concat (b_data <$> bs).

Definition bucket_ok (b : dynamic_array_bucket) : Prop :=
  0 < b_capacity b ∧ Z.of_nat (length (b_data b)) = b_capacity b.

(** [n] elements fill the buckets from the first on. *)
Fixpoint sizes_ok (bs : list dynamic_array_bucket) (n : Z) : Prop :=
  match bs with
  | [] => n = 0
  | b :: bs => b_size b = Z.min n (b_capacity b) ∧ sizes_ok bs (n - b_size b)
  end.

(** How many elements fit before the next bucket. *)
Definition total_capacity (v : dynamic_array) : Z := Z.of_nat (length (slots (buckets v))).

(** The array holds [l]. *)
Definition holds (v : dynamic_array) (l : list E) : Prop :=
  Forall bucket_ok (buckets v) ∧ sizes_ok (buckets v) (Z.of_nat (length l)) ∧
  v_size v = Z.of_nat (length l) ∧
  ∃ rest, slots (buckets v) = (Some <$> l) ++ rest.

Definition Zlen (bs : list dynamic_array_bucket) : Z := Z.of_nat (length (slots bs)).

Lemma slots_app bs1 bs2 : slots (bs1 ++ bs2) = slots bs1 ++ slots bs2.
Proof. unfold slots. by rewrite fmap_app, concat_app. Qed.

Lemma Zlen_app bs1 bs2 : Zlen (bs1 ++ bs2) = Zlen bs1 + Zlen bs2.
Proof. unfold Zlen. rewrite slots_app, length_app. lia. Qed.

Lemma Zlen_cons b bs : bucket_ok b → Zlen (b :: bs) = b_capacity b + Zlen bs.
Proof.
  intros [_ Hb]. unfold Zlen. change (slots (b :: bs)) with (b_data b ++ slots bs).
  rewrite length_app. lia.
Qed.

Lemma Zlen_nonneg bs : 0 <= Zlen bs.
Proof. unfold Zlen. lia. Qed.

Lemma sizes_ok_app bs1 bs2 n : Forall bucket_ok bs1 → 0 <= n →
  sizes_ok (bs1 ++ bs2) n ↔
  sizes_ok bs1 (Z.min n (Zlen bs1)) ∧ sizes_ok bs2 (n - Z.min n (Zlen bs1)).
Proof.
  intros Hok. revert n. induction Hok as [|b bs1 Hb Hok IH]; intros n Hn; simpl.
  { change (Zlen []) with 0. rewrite Z.min_r, Z.sub_0_r by lia. tauto. }
  rewrite Zlen_cons by done. pose proof (Zlen_nonneg bs1). destruct Hb as [Hc _].
  split.
  - intros [Hs Hrest]. apply IH in Hrest as [H1 H2]; [|lia].
    split_and!; [lia| |].
    + replace (Z.min n (b_capacity b + Zlen bs1) - b_size b) with (Z.min (n - b_size b) (Zlen bs1)) by lia. done.
    + by replace (n - Z.min n (b_capacity b + Zlen bs1))
        with (n - b_size b - Z.min (n - b_size b) (Zlen bs1)) by lia.
  - intros [[Hs H1] H2]. split; [lia|]. apply IH; [lia|].
    replace (Z.min (n - b_size b) (Zlen bs1)) with (Z.min n (b_capacity b + Zlen bs1) - b_size b) by lia.
    split; [done|]. by replace (n - b_size b - (Z.min n (b_capacity b + Zlen bs1) - b_size b))
      with (n - Z.min n (b_capacity b + Zlen bs1)) by lia.
Qed.

(** The bucket at place [length bs1] holds the slot of index [idx]. *)
Definition bucket_at (bs : list dynamic_array_bucket) (j i idx : Z) : Prop :=
  ∃ bs1 b bs2, bs = bs1 ++ b :: bs2 ∧ j = Z.of_nat (length bs1) ∧
    idx = Zlen bs1 + i ∧ 0 <= i < b_capacity b ∧ Forall bucket_ok bs1 ∧ bucket_ok b ∧ Forall bucket_ok bs2.

Lemma find_bucket_spec bs k cur idx index : Forall bucket_ok bs → idx = index - cur →
  0 <= cur <= index → index < 2 ^ 30 → cur + Zlen bs < 2 ^ 30 →
  (idx < Zlen bs ∧ ∃ j i, find_bucket bs k cur idx index = Some (k + j, i) ∧ bucket_at bs j i idx) ∨
  (Zlen bs <= idx ∧ find_bucket bs k cur idx index = None).
Proof.
  intros Hok. pose proof ptr_bits_ge. revert k cur idx.
  induction Hok as [|b bs Hb Hok IH]; intros k cur idx -> Hcur Hidx Hlen; simpl.
  { right. change (Zlen []) with 0. split; [lia|done]. }
  rewrite Zlen_cons in * by done. pose proof (Zlen_nonneg bs). pose proof Hb as [Hc Hbl].
  rewrite (usize_small cur), (usize_small (cur + b_capacity b)), (s32_small (cur + _)) by lia.
  destruct (Z.leb_spec (cur + b_capacity b) index).
  - rewrite (usize_small (index - cur)), (usize_small (index - cur - _)), (s32_small (index - cur - _)) by lia.
    destruct (IH (k + 1) (cur + b_capacity b) (index - cur - b_capacity b))
      as [(Hin & j & i & -> & Hat)|(Hout & ->)]; [lia..| |].
    + left. split; [lia|]. exists (j + 1), i. split; [do 2 f_equal; lia|].
      destruct Hat as (bs1 & b' & bs2 & -> & -> & Heq & Hi & Hok1 & Hb' & Hok2).
      exists (b :: bs1), b', bs2. rewrite Zlen_cons by done.
      split; [done|]. split; [simpl; lia|]. split; [lia|]. split; [done|].
      split; [by constructor|done].
    + right. split; [lia|done].
  - left. split; [lia|]. exists 0, (index - cur). split; [f_equal; f_equal; lia|].
    exists [], b, bs. change (Zlen []) with 0.
    split; [done|]. split; [done|]. split; [lia|]. split; [lia|]. by split; [constructor|].
Qed.

Lemma bucket_at_slot bs j i idx : bucket_at bs j i idx → bs.[j] ≫= (λ b, (b_data b).[i]) = (slots bs).[idx].
Proof.
  intros (bs1 & b & bs2 & -> & -> & -> & Hi & _ & [_ Hb] & _).
  rewrite (zget_lookup (bs1 ++ _)), Nat2Z.id, lookup_app_r, Nat.sub_diag by lia. simpl.
  pose proof (Zlen_nonneg bs1). unfold Zlen in *.
  rewrite slots_app, !zget_lookup, lookup_app_r by lia.
  change (slots (b :: bs2)) with (b_data b ++ slots bs2).
  rewrite lookup_app_l by lia. f_equal. lia.
Qed.

Lemma chain_get bs1 (b : dynamic_array_bucket) bs2 :
  (bs1 ++ b :: bs2).[Z.of_nat (length bs1)] = Some b.
Proof. rewrite zget_lookup, Nat2Z.id, lookup_app_r, Nat.sub_diag by lia. done. Qed.

Lemma chain_set bs1 (b b' : dynamic_array_bucket) bs2 :
  (bs1 ++ b :: bs2).[Z.of_nat (length bs1) <- b'] = Some (bs1 ++ b' :: bs2).
Proof.
  rewrite zset_in by (rewrite length_app; simpl; lia).
  rewrite Nat2Z.id. f_equal. rewrite insert_app_r_alt, Nat.sub_diag by lia. done.
Qed.

Lemma write_slot_spec bs1 b bs2 n i e : 0 <= i < Z.of_nat (length (b_data b)) →
  write_slot (mk_dynarr (bs1 ++ b :: bs2) n) (Z.of_nat (length bs1)) i e =
  Some (mk_dynarr (bs1 ++ mk_bucket (<[Z.to_nat i := Some e]> (b_data b)) (b_capacity b) (b_size b) :: bs2) n).
Proof.
  intros Hi. unfold write_slot. cbn [buckets v_size]. rewrite chain_get. cbn [mbind option_bind].
  rewrite zset_in by done. cbn [mbind option_bind]. rewrite chain_set. done.
Qed.

Lemma count_bucket_spec bs1 b bs2 n by_ : 0 <= b_size b + by_ < 2 ^ 32 →
  count_bucket (mk_dynarr (bs1 ++ b :: bs2) n) (Z.of_nat (length bs1)) by_ =
  Some (mk_dynarr (bs1 ++ mk_bucket (b_data b) (b_capacity b) (b_size b + by_) :: bs2) n).
Proof.
  intros Hs. pose proof ptr_bits_ge. unfold count_bucket. cbn [buckets v_size].
  rewrite chain_get. cbn [mbind option_bind]. rewrite chain_set, usize_small by lia. done.
Qed.

Lemma insert_slots bs1 b bs2 i x s : 0 <= i < Z.of_nat (length (b_data b)) →
  slots (bs1 ++ mk_bucket (<[Z.to_nat i := x]> (b_data b)) (b_capacity b) s :: bs2) =
  <[Z.to_nat (Zlen bs1 + i) := x]> (slots (bs1 ++ b :: bs2)).
Proof.
  intros Hi. unfold Zlen. rewrite !slots_app.
  change (slots (b :: bs2)) with (b_data b ++ slots bs2).
  change (slots (mk_bucket ?d ?c s :: bs2)) with (d ++ slots bs2).
  rewrite insert_app_r_alt by lia. f_equal. rewrite insert_app_l by lia. do 2 f_equal. lia.
Qed.

(** Where the next or the last element is: the bucket's own size agrees. *)
Lemma sizes_ok_at bs1 b bs2 n : Forall bucket_ok bs1 → bucket_ok b → Zlen bs1 <= n →
  n <= Zlen bs1 + b_capacity b → sizes_ok (bs1 ++ b :: bs2) n →
  b_size b = n - Zlen bs1 ∧
  ∀ n' d, Zlen bs1 <= n' <= Zlen bs1 + b_capacity b →
    sizes_ok (bs1 ++ mk_bucket d (b_capacity b) (n' - Zlen bs1) :: bs2) n'.
Proof.
  intros H1 Hb Hlo Hhi Hs. pose proof (Zlen_nonneg bs1).
  apply sizes_ok_app in Hs as [Hs1 [Hsb Hs2]]; [|done|lia].
  rewrite (Z.min_r n (Zlen bs1)) in Hs1, Hsb, Hs2 by lia. split; [lia|]. intros n' d Hn'.
  apply sizes_ok_app; [done|lia|]. rewrite (Z.min_r n' (Zlen bs1)) by lia. split; [done|].
  split; simpl; [lia|]. replace (n' - Zlen bs1 - (n' - Zlen bs1)) with (n - Zlen bs1 - b_size b) by lia. done.
Qed.

Lemma holds_length v l : holds v l → Z.of_nat (length l) <= total_capacity v.
Proof.
  intros (_ & _ & _ & rest & Heq). unfold total_capacity. rewrite Heq, length_app, length_fmap. lia.
Qed.

Lemma sizes_ok_last bs b n : Forall bucket_ok bs → 0 <= n <= Zlen (bs ++ [b]) → bucket_ok b →
  sizes_ok (bs ++ [b]) n → b_size b < b_capacity b ↔ n < Zlen (bs ++ [b]).
Proof.
  intros Hok Hn Hb Hs. apply sizes_ok_app in Hs as [_ [Hs _]]; [|done|lia].
  rewrite Zlen_app in *. rewrite Zlen_cons in * by done. change (Zlen []) with 0 in *.
  destruct Hb as [Hc _]. pose proof (Zlen_nonneg bs). lia.
Qed.

(** After [dynarr_push] has grown the array if need be, there is room. *)
Lemma grow_spec v l : holds v l → total_capacity v < 2 ^ 26 →
  let v' := if negb (_dynarr_has_empty_space v) then _dynarr_grow v else v in
  holds v' l ∧ Z.of_nat (length l) < total_capacity v' ∧ total_capacity v' < 2 ^ 28 ∧
  ∃ bs, buckets v' = buckets v ++ bs.
Proof.
  intros Hh Hcap. pose proof (holds_length v l Hh) as Hlen.
  destruct Hh as (Hok & Hs & Hn & rest & Heq). pose proof ptr_bits_ge.
  unfold _dynarr_has_empty_space, tail_bucket.
  assert (∀ c, 0 < c <= 2 ^ 27 → Z.of_nat (length l) = total_capacity v →
    holds (_dynarr_add_bucket v c) l ∧ Z.of_nat (length l) < total_capacity (_dynarr_add_bucket v c) ∧
    total_capacity (_dynarr_add_bucket v c) < 2 ^ 28 ∧
    ∃ bs, buckets (_dynarr_add_bucket v c) = buckets v ++ bs) as Hadd.
  { intros c Hc Hfull. unfold _dynarr_add_bucket, holds, total_capacity. cbn [buckets v_size].
    rewrite usize_small by lia. set (nb := mk_bucket _ c 0).
    assert (bucket_ok nb) as Hnb by (split; simpl; [lia|rewrite length_replicate; lia]).
    assert (length (slots (buckets v ++ [nb])) = (length (slots (buckets v)) + Z.to_nat c)%nat) as Hl.
    { rewrite slots_app, length_app. change (slots [nb]) with (b_data nb ++ []).
      rewrite app_nil_r. simpl. by rewrite length_replicate. }
    unfold total_capacity in *. rewrite Hl. split_and!; [| |done| |lia|lia|by eexists].
    - apply Forall_app. split; [done|by apply Forall_singleton].
    - apply sizes_ok_app; [done|lia|]. unfold Zlen. rewrite <- Hfull, Z.min_id, Z.sub_diag.
      split; [done|]. simpl. lia.
    - rewrite slots_app, Heq, <- app_assoc. by eexists. }
  destruct (buckets v) as [|b0 bs0] eqn:Hbs using rev_ind; [|clear IHbs0].
  - cbn [last negb]. unfold _dynarr_grow, tail_bucket. rewrite Hbs. cbn [last]. apply Hadd; [lia|].
    unfold total_capacity in *. rewrite Hbs in *. simpl in *. lia.
  - rewrite last_snoc. unfold _dynarr_grow, tail_bucket. rewrite Hbs, last_snoc.
    apply Forall_app in Hok as [Hok0 [Hb0 _]%Forall_cons].
    assert (Zlen (bs0 ++ [b0]) = total_capacity v) as Ht by (unfold total_capacity, Zlen; by rewrite Hbs).
    pose proof (sizes_ok_last bs0 b0 (Z.of_nat (length l)) Hok0 ltac:(lia) Hb0 Hs) as Hiff. rewrite Ht in Hiff.
    destruct (Z.ltb_spec (b_size b0) (b_capacity b0)); cbn [negb].
    + split_and!; [|by apply Hiff|lia|exists []; by rewrite app_nil_r, Hbs].
      unfold holds. rewrite Hbs. split_and!; [|done|done|by exists rest].
      apply Forall_app. split; [done|by apply Forall_singleton].
    + rewrite Zlen_app, Zlen_cons in Ht by done. change (Zlen []) with 0 in Ht.
      pose proof (Zlen_nonneg bs0). destruct Hb0 as [Hc0 _].
      rewrite usize_small, s32_small by lia. apply Hadd; lia.
Qed.

Lemma find_bucket_app bs bs' k cur idx index r :
  find_bucket bs k cur idx index = Some r → find_bucket (bs ++ bs') k cur idx index = Some r.
Proof.
  revert k cur idx. induction bs as [|b bs IH]; intros k cur idx; simpl; [done|].
  case_match; [apply IH|done].
Qed.

(** The search looks at capacities only. *)
Lemma find_bucket_caps bs bs' k cur idx index : b_capacity <$> bs = b_capacity <$> bs' →
  find_bucket bs k cur idx index = find_bucket bs' k cur idx index.
Proof.
  revert bs' k cur idx. induction bs as [|b bs IH]; intros [|b' bs'] k cur idx Heq; simplify_eq/=; [done|].
  replace (b_capacity b') with (b_capacity b) by done. case_match; [by apply IH|done].
Qed.

Lemma get_spec v l i : holds v l → 0 <= i < 2 ^ 29 → total_capacity v < 2 ^ 29 →
  (i < total_capacity v ∧ ∃ j i', dynarr_get v i = Some (j, i') ∧ bucket_at (buckets v) j i' i) ∨
  (total_capacity v <= i ∧ dynarr_get v i = None).
Proof.
  intros (Hok & _) Hi Hcap. unfold dynarr_get, _dynarr_bucket.
  destruct (find_bucket_spec (buckets v) 0 0 i i) as [(Hin & j & i' & -> & Hat)|[Hout ->]];
    [done|lia|lia|lia|unfold Zlen, total_capacity in *; lia|left|by right].
  split; [done|]. exists (0 + j), i'. done.
Qed.

Lemma slot_spec v l j i' i : holds v l → bucket_at (buckets v) j i' i → 0 <= i < Z.of_nat (length l) →
  slot v (j, i') = l.[i].
Proof.
  intros (_ & _ & _ & rest & Heq) Hat Hi. pose proof (bucket_at_slot _ _ _ _ Hat) as Hs.
  unfold slot. cbn [fst snd]. rewrite Heq in Hs. rewrite (zget_lookup (_ ++ _)), lookup_app_l in Hs
    by (rewrite ?length_fmap; lia). rewrite list_lookup_fmap in Hs. rewrite (zget_lookup l) by lia.
  destruct ((buckets v).[j]) as [b|]; simpl in *; [rewrite Hs|]; by destruct (l !! _).
Qed.

(** A place in a bucket belongs to one index. *)
Lemma bucket_at_inj bs j i idx idx' : bucket_at bs j i idx → bucket_at bs j i idx' → idx = idx'.
Proof.
  intros (bs1 & b & bs2 & -> & -> & -> & _) (bs1' & b' & bs2' & Heq & Hj & -> & _).
  assert (bs1 = bs1') as ->; [|done]. apply Nat2Z.inj in Hj. by apply app_inj_1 in Heq as [? _].
Qed.

(** Places depend on the capacities only. *)
Lemma Zlen_caps bs bs' : Forall bucket_ok bs → Forall bucket_ok bs' → b_capacity <$> bs = b_capacity <$> bs' →
  Zlen bs = Zlen bs'.
Proof.
  intros Hok. revert bs'. induction Hok as [|b bs Hb Hok IH]; intros [|b' bs'] Hok' Heq; simplify_eq/=; [done|].
  apply Forall_cons in Hok' as [Hb' Hok']. rewrite !Zlen_cons, (IH bs') by done. lia.
Qed.
Lemma bucket_at_caps bs bs' j i idx : Forall bucket_ok bs' → b_capacity <$> bs = b_capacity <$> bs' →
  bucket_at bs j i idx → bucket_at bs' j i idx.
Proof.
  intros Hok' Heq (bs1 & b & bs2 & -> & -> & -> & Hi & H1 & Hb & H2). rewrite fmap_app in Heq.
  symmetry in Heq. apply fmap_app_inv in Heq as (bs1' & bs2' & Heq1 & Heq2 & ->).
  destruct bs2' as [|b' bs2']; [done|]. injection Heq2 as Hc Heq2.
  apply Forall_app in Hok' as [Hok1 [Hb' Hok2]%Forall_cons].
  exists bs1', b', bs2'. split; [done|].
  split; [f_equal; by rewrite <- (length_fmap b_capacity bs1), Heq1, length_fmap|].
  split; [by rewrite (Zlen_caps bs1 bs1')|]. split; [lia|done].
Qed.

(** Writing an element through its pointer, and writing the old one back. *)
Lemma bucket_write_spec v l j i idx e : holds v l → bucket_at (buckets v) j i idx → 0 <= idx < Z.of_nat (length l) →
  ∃ v', write_slot v j i e = Some v' ∧ holds v' (<[Z.to_nat idx := e]> l) ∧
    total_capacity v' = total_capacity v ∧ (∀ k, dynarr_get v' k = dynarr_get v k) ∧
    b_capacity <$> buckets v = b_capacity <$> buckets v' ∧
    ∀ e0, l.[idx] = Some e0 → write_slot v' j i e0 = Some v.
Proof.
  intros Hh Hat Hidx. pose proof (slot_spec v l j i idx Hh Hat Hidx) as Hslot.
  pose proof Hat as (bs1 & b & bs2 & Hbs & -> & Hi & Hir & H1 & Hb & H2). pose proof Hb as [Hc Hbl].
  destruct v as [bs n]. cbn [buckets] in Hbs. subst bs. rewrite write_slot_spec by lia. eexists. split; [done|].
  pose proof Hh as (Hok & Hs & Hn & rest & Heq). cbn [buckets v_size] in *.
  set (b' := mk_bucket (<[Z.to_nat i := Some e]> (b_data b)) (b_capacity b) (b_size b)).
  assert (bucket_ok b') as Hb' by (split; cbn; [done|by rewrite length_insert]).
  assert (slots (bs1 ++ b' :: bs2) = (Some <$> <[Z.to_nat idx := e]> l) ++ rest) as Hsl.
  { unfold b'. rewrite insert_slots, <- Hi, Heq, insert_app_l by (rewrite ?length_fmap; lia). by rewrite list_fmap_insert. }
  split; [|split; [|split; [|split]]].
  - split; [|split; [|split; [|by exists rest]]]; cbn [buckets v_size].
    + apply Forall_app. split; [done|]. by constructor.
    + rewrite length_insert. apply sizes_ok_app in Hs as [Hs1 Hs2]; [|done|lia].
      apply sizes_ok_app; [done|lia|]. done.
    + by rewrite length_insert.
  - unfold total_capacity. cbn [buckets]. rewrite Hsl, Heq, !length_app, !length_fmap, length_insert. done.
  - intros k. unfold dynarr_get, _dynarr_bucket. cbn [buckets]. apply find_bucket_caps. by rewrite !fmap_app.
  - cbn [buckets]. by rewrite !fmap_app.
  - intros e0 He0. rewrite write_slot_spec by (cbn; rewrite length_insert; lia). cbn [b_data b_capacity b_size b'].
    rewrite list_insert_insert_eq, list_insert_id; [by destruct b|].
    rewrite He0 in Hslot. unfold slot in Hslot. cbn [fst snd buckets] in Hslot. rewrite chain_get in Hslot.
    cbn [mbind option_bind] in Hslot. rewrite zget_lookup in Hslot by lia.
    destruct (b_data b !! Z.to_nat i) as [[x|]|]; [|done..]. cbn in Hslot. by injection Hslot as ->.
Qed.

Lemma push_spec v l e : holds v l → total_capacity v < 2 ^ 26 →
  ∃ p v', dynarr_push v e = Some (p, v') ∧ holds v' (l ++ [e]) ∧ slot v' p = Some e ∧
    total_capacity v' < 2 ^ 28 ∧
    ∀ i q, dynarr_get v i = Some q → dynarr_get v' i = Some q.
Proof.
  intros Hh Hcap. unfold dynarr_push. pose proof ptr_bits_ge.
  destruct (grow_spec v l Hh Hcap) as (Hh1 & Hroom & Hcap1 & bs & Hbs). cbv zeta in *.
  set (v1 := if negb (_dynarr_has_empty_space v) then _dynarr_grow v else v) in *. clearbody v1.
  pose proof Hh1 as (Hok & Hs & Hn & rest & Heq). rewrite Hn, s32_small by lia.
  destruct (get_spec v1 l (Z.of_nat (length l)) Hh1) as [(_ & j & i & Hget & Hat)|[? _]]; [lia|lia| |lia].
  unfold dynarr_get in Hget. rewrite Hget. cbn [mbind option_bind].
  destruct v1 as [bsv nv]. simpl in *. subst nv.
  destruct Hat as (bs1 & b & bs2 & -> & -> & Hidx & Hi & H1 & Hb & H2). pose proof Hb as [Hc Hbl].
  destruct (sizes_ok_at bs1 b bs2 (Z.of_nat (length l))) as [Hbsz Hnew]; [done|done|lia|lia|done|].
  pose proof (Zlen_nonneg bs1) as Hnn.
  rewrite write_slot_spec by lia. cbn [mbind option_bind].
  rewrite count_bucket_spec by (simpl; lia). cbn [mbind option_bind buckets v_size b_data b_capacity b_size].
  rewrite usize_small by lia.
  set (b' := mk_bucket (<[Z.to_nat i := Some e]> (b_data b)) (b_capacity b) (b_size b + 1)).
  assert (slots (bs1 ++ b' :: bs2) = (Some <$> l ++ [e]) ++ tail rest) as Hslots.
  { unfold b'. rewrite insert_slots, <- Hidx, Nat2Z.id, Heq by lia.
    destruct rest as [|x rest].
    { exfalso. unfold total_capacity in Hroom. simpl in Hroom. rewrite Heq, app_nil_r, length_fmap in Hroom. lia. }
    rewrite insert_app_r_alt by (rewrite length_fmap; lia). rewrite length_fmap, Nat.sub_diag. simpl.
    rewrite fmap_app, <- app_assoc. done. }
  assert (bucket_at (bs1 ++ b' :: bs2) (Z.of_nat (length bs1)) i (Z.of_nat (length l))) as Hat'.
  { exists bs1, b', bs2. split; [done|]. split; [done|]. split; [done|]. split; [done|].
    split; [done|]. split; [|done]. split; [done|]. unfold b'. simpl. by rewrite length_insert. }
  assert (holds (mk_dynarr (bs1 ++ b' :: bs2) (Z.of_nat (length l) + 1)) (l ++ [e])) as Hh2.
  { unfold holds. cbn [buckets v_size]. rewrite length_app. simpl. split_and!.
    - apply Forall_app. split; [done|]. constructor; [|done]. split; [done|]. unfold b'. simpl.
      by rewrite length_insert.
    - unfold b'. replace (b_size b + 1) with (Z.of_nat (length l + 1) - Zlen bs1) by lia. apply Hnew. lia.
    - lia.
    - by eexists. }
  eexists (_, _), _. split; [done|]. split; [exact Hh2|]. split_and!.
  - erewrite slot_spec; [|exact Hh2|exact Hat'|rewrite length_app; simpl; lia].
    rewrite zget_lookup, Nat2Z.id, lookup_app_r, Nat.sub_diag by lia. done.
  - unfold total_capacity in *. simpl in *. rewrite Hslots. rewrite Heq in Hcap1, Hroom.
    rewrite !length_app, !length_fmap in *. rewrite length_app. destruct rest; simpl in *; lia.
  - intros k q Hq. unfold dynarr_get, _dynarr_bucket in *. cbn [buckets].
    rewrite (find_bucket_caps _ (bs1 ++ b :: bs2)) by (by rewrite !fmap_app).
    rewrite Hbs. by apply find_bucket_app.
Qed.

(** *** How much an array grows *)

Lemma slots_length_set bs k b b' bs' : bs.[k] = Some b → bs.[k <- b'] = Some bs' → length (b_data b') = length (b_data b) →
  length (slots bs') = length (slots bs).
Proof.
  intros Hb Hs Hl. pose proof (zget_Some _ _ _ Hb) as Hk. rewrite zget_lookup in Hb by lia. rewrite zset_in in Hs by done. injection Hs as <-.
  rewrite insert_take_drop by lia. rewrite <- (take_drop_middle bs (Z.to_nat k) b Hb) at 3.
  rewrite !slots_app, !length_app. unfold slots. cbn [fmap list_fmap concat]. rewrite !length_app, Hl. done.
Qed.
Lemma write_slot_capacity v k i e v' : write_slot v k i e = Some v' → total_capacity v' = total_capacity v.
Proof.
  intros (b & Hb & (d & Hd & (bs & Hs & [= <-])%bind_Some)%bind_Some)%bind_Some. unfold total_capacity. cbn [buckets].
  f_equal. eapply slots_length_set; [done..|]. by apply zset_length in Hd.
Qed.
Lemma count_bucket_capacity v k n v' : count_bucket v k n = Some v' → total_capacity v' = total_capacity v.
Proof.
  intros (b & Hb & (bs & Hs & [= <-])%bind_Some)%bind_Some. unfold total_capacity. cbn [buckets]. f_equal. by eapply slots_length_set.
Qed.

Lemma grow_capacity v l : holds v l → total_capacity v < 2 ^ 26 →
  total_capacity (if negb (_dynarr_has_empty_space v) then _dynarr_grow v else v) <= Z.max (total_capacity v) (3 * Z.of_nat (length l) + 8).
Proof.
  intros Hh Hcap. pose proof (holds_length v l Hh) as Hlen. destruct Hh as (Hok & Hs & Hn & rest & Heq). pose proof ptr_bits_ge.
  assert (∀ c, 0 <= c → total_capacity (_dynarr_add_bucket v c) = total_capacity v + c) as Hadd.
  { intros c Hc. unfold total_capacity, _dynarr_add_bucket. cbn [buckets]. rewrite slots_app, length_app. unfold slots at 2.
    cbn [fmap list_fmap concat b_data]. rewrite app_nil_r, length_replicate. lia. }
  unfold _dynarr_has_empty_space, _dynarr_grow, tail_bucket. destruct (buckets v) as [|b0 bs0] eqn:Hbs using rev_ind; [|clear IHbs0].
  - cbn [last negb]. rewrite Hadd by lia. unfold total_capacity. rewrite Hbs. cbn. lia.
  - rewrite last_snoc. destruct (Z.ltb_spec (b_size b0) (b_capacity b0)) as [|Hfull]; cbn [negb]; [lia|].
    apply Forall_app in Hok as [Hok0 [Hb0 _]%Forall_cons]. pose proof Hb0 as [Hc0 _].
    assert (Zlen (bs0 ++ [b0]) = total_capacity v) as Ht by (unfold total_capacity, Zlen; by rewrite Hbs).
    pose proof (sizes_ok_last bs0 b0 (Z.of_nat (length l)) Hok0 ltac:(lia) Hb0 Hs) as Hiff.
    rewrite Zlen_app, Zlen_cons in Ht by done. rewrite Zlen_app, Zlen_cons in Hiff by done. change (Zlen []) with 0 in *. pose proof (Zlen_nonneg bs0).
    rewrite usize_small, s32_small, Hadd by lia. lia.
Qed.

Lemma push_capacity v l e p v' : holds v l → total_capacity v < 2 ^ 26 → dynarr_push v e = Some (p, v') →
  total_capacity v' <= Z.max (total_capacity v) (3 * Z.of_nat (length l) + 8).
Proof.
  intros Hh Hcap. pose proof (grow_capacity v l Hh Hcap) as Hg. unfold dynarr_push. set (v1 := if negb _ then _ else _) in *. clearbody v1.
  intros ([k i] & _ & (v2 & E2 & (v3 & E3 & [= <- <-])%bind_Some)%bind_Some)%bind_Some.
  apply write_slot_capacity in E2. apply count_bucket_capacity in E3. change (total_capacity (mk_dynarr (buckets v3) _)) with (total_capacity v3). lia.
Qed.

Lemma pop_spec v l e : holds v (l ++ [e]) → total_capacity v < 2 ^ 28 →
  ∃ v', dynarr_pop v = Some (0, v') ∧ holds v' l ∧
    ∀ i, dynarr_get v' i = dynarr_get v i.
Proof.
  intros Hh Hcap. pose proof (holds_length v _ Hh) as Hlen. rewrite length_app in Hlen. simpl in Hlen.
  pose proof ptr_bits_ge. pose proof Hh as (Hok & Hs & Hn & rest & Heq).
  rewrite length_app in Hn, Hs. simpl in Hn, Hs. unfold dynarr_pop.
  destruct (Z.eqb_spec (v_size v) 0); [lia|]. rewrite Hn, usize_small, s32_small by lia.
  replace (Z.of_nat (length l + 1) - 1) with (Z.of_nat (length l)) by lia.
  destruct (get_spec v _ (Z.of_nat (length l)) Hh) as [(_ & j & i & Hget & Hat)|[? _]]; [lia|lia| |lia].
  unfold dynarr_get in Hget. rewrite Hget. cbn [mbind option_bind].
  destruct v as [bsv nv]. simpl in *. subst nv.
  destruct Hat as (bs1 & b & bs2 & -> & -> & Hidx & Hi & H1 & Hb & H2). pose proof Hb as [Hc Hbl].
  destruct (sizes_ok_at bs1 b bs2 (Z.of_nat (length l + 1))) as [Hbsz Hnew]; [done|done|lia|lia|done|].
  pose proof (Zlen_nonneg bs1) as Hnn.
  rewrite count_bucket_spec by lia. cbn [mbind option_bind buckets v_size].
  eexists. split; [done|]. split; [unfold holds; cbn [buckets v_size]; split_and!|].
  - apply Forall_app. split; [done|]. by constructor.
  - replace (b_size b + -1) with (Z.of_nat (length l) - Zlen bs1) by lia. apply Hnew. lia.
  - rewrite usize_small by lia. lia.
  - rewrite slots_app. change (slots (mk_bucket (b_data b) ?c ?s :: bs2)) with (slots (b :: bs2)).
    rewrite <- slots_app, Heq, fmap_app, <- app_assoc. by eexists.
  - intros k. unfold dynarr_get, _dynarr_bucket. cbn [buckets]. apply find_bucket_caps.
    by rewrite !fmap_app.
Qed.

(** ** Properties *)

(** A dynamic array behaves as a list. [dynarr_push] appends, growing by a
    bucket when the last one is full; the pointer it returns is the new
    element's; and no element moves: every pointer [dynarr_get] gave before is
    the one it gives after. [dynarr_pop] of the result removes the element
    again, and reports an empty array. *)
Theorem dynarr_push_pop v l e : holds v l → total_capacity v < 2 ^ 26 →
  ∃ p v' v'', dynarr_push v e = Some (p, v') ∧ holds v' (l ++ [e]) ∧ slot v' p = Some e ∧
    (∀ i q, dynarr_get v i = Some q → dynarr_get v' i = Some q) ∧
    dynarr_pop v' = Some (0, v'') ∧ holds v'' l ∧
    (l = [] → dynarr_pop v = Some (-1, v)).
Proof.
  intros Hh Hcap. destruct (push_spec v l e Hh Hcap) as (p & v' & Heq & Hh' & Hs & Hcap' & Hkeep).
  destruct (pop_spec v' l e Hh' Hcap') as (v'' & Hpop & Hh'' & _).
  exists p, v', v''. split_and!; try done. intros ->. destruct Hh as (_ & _ & Hn & _).
  unfold dynarr_pop. by rewrite Hn.
Qed.

(** [dynarr_get] is the list's lookup, below the size. It returns a pointer
    to the element for every index in use, and a null pointer only past the
    last bucket: for the indices between, it points to a slot that is not in
    use, since the index is compared with the capacity and not with the
    size. *)
Theorem dynarr_get_lookup v l i : holds v l → 0 <= i < 2 ^ 29 → total_capacity v < 2 ^ 29 →
  (i < Z.of_nat (length l) → ∃ p, dynarr_get v i = Some p ∧ slot v p = l.[i]) ∧
  (dynarr_get v i = None ↔ total_capacity v <= i).
Proof.
  intros Hh Hi Hcap. pose proof (holds_length v l Hh).
  destruct (get_spec v l i Hh Hi Hcap) as [(Hin & j & i' & Hget & Hat)|[Hout Hget]]; rewrite Hget.
  - split; [|split; [done|lia]]. intros Hl. exists (j, i'). split; [done|]. eapply slot_spec; [exact Hh|exact Hat|lia].
  - split; [lia|]. by split.
Qed.

End dynarr.

(** Three pushes on a fresh array of two-element buckets. *)
Definition example_dynarr : dynamic_array (E := Z) :=
  mk_dynarr [mk_bucket [Some 5; Some 6] 2 2; mk_bucket [Some 7; None; None; None] 4 1] 3.

Lemma example_dynarr_holds : holds example_dynarr [5; 6; 7].
Proof.
  unfold holds, example_dynarr. cbn [buckets v_size]. split.
  { repeat constructor; done. }
  split; [done|]. split; [done|]. by exists [None; None; None].
Qed.

Example example_dynarr_pushes :
  (let v := @dynarr_init_of_size_impl x86 Z 2 in
   '(_, v) ← @dynarr_push x86 Z v 5; '(_, v) ← @dynarr_push x86 Z v 6; @dynarr_push x86 Z v 7)
  = Some (1, 0, example_dynarr).
Proof. reflexivity. Qed.

Lemma dynarr_push_pop_witness : ∃ p v' v'',
  @dynarr_push x86 Z example_dynarr 8 = Some (p, v') ∧ holds v' [5; 6; 7; 8] ∧ slot v' p = Some 8 ∧
  (∀ i q, @dynarr_get x86 Z example_dynarr i = Some q → @dynarr_get x86 Z v' i = Some q) ∧
  @dynarr_pop x86 Z v' = Some (0, v'') ∧ holds v'' [5; 6; 7] ∧
  ([5; 6; 7] = [] → @dynarr_pop x86 Z example_dynarr = Some (-1, example_dynarr)).
Proof. exact (@dynarr_push_pop x86 Z example_dynarr [5; 6; 7] 8 example_dynarr_holds ltac:(done)). Defined.

Lemma dynarr_get_lookup_witness :
  (2 < 3 → ∃ p, @dynarr_get x86 Z example_dynarr 2 = Some p ∧ slot example_dynarr p = Some 7) ∧
  (@dynarr_get x86 Z example_dynarr 2 = None ↔ 6 <= 2).
Proof.
  exact (@dynarr_get_lookup x86 Z example_dynarr [5; 6; 7] 2 example_dynarr_holds ltac:(lia) ltac:(done)).
Defined.
