(* ===== verification/Memzone.v ===== *)
(** * Memzone: the memory zones of an address space, [kernel/mem/memzone.c]

    A zone is a range of pages of a process; the zones of an address space are in
    a dynamic array ([Dynarr.v]), in no order. A pointer to a zone is its slot.
    The reference counts of the files that zones map are part of the state; what
    happens to a file whose count reaches 0 belongs to [fs/file.c]. *)
From stdpp Require Import gmap.
From S2P Require Import Prelude Platform Dynarr.

Section memzone.
Context `{Platform}.

Record memzone_t := mk_memzone {
  vaddr : Z;
  len : Z;
  mmu_flags : Z;
  type : Z;
  file : option Z;
  file_offset : Z;
  file_size : Z;
  ops : option Z;
}.

Record vm_address_space_t := mk_aspace {
  zones : dynamic_array (E := memzone_t);
  file_counts : gmap Z Z;
}.

(** ** Files *)

Definition file_duplicate (f : Z) (s : vm_address_space_t) : option vm_address_space_t :=
  c ← file_counts s !! f;
  Some (mk_aspace (zones s) (<[f := usize (c + 1)]> (file_counts s))).

(** A count of 0 is an [ASSERT]; a file whose last reference goes is freed. *)
Definition file_put (f : Z) (s : vm_address_space_t) : option vm_address_space_t :=
  c ← file_counts s !! f;
  if negb (0 <? c) then None else
  Some (mk_aspace (zones s) (if c - 1 =? 0 then delete f (file_counts s) else <[f := c - 1]> (file_counts s))).

(** ** The zones *)

(** [dynarr_get] and a read through the pointer: a null pointer or a slot that was
    never written is undefined. *)
Definition get_zone (v : dynamic_array (E := memzone_t)) (i : Z) : option (Z * Z * memzone_t) :=
  p ← dynarr_get v (s32 i); z ← slot v p; Some (p, z).

Definition _pzones_addr_inside (zone : memzone_t) (addr : Z) : bool :=
  (vaddr zone <=? addr) && (addr <=? usize (usize (vaddr zone + len zone) - 1)).

Definition _pzones_intersect (start1 size1 start2 size2 : Z) : bool :=
  let end1 := usize (usize (start1 + size1) - 1) in
  let end2 := usize (usize (start2 + size2) - 1) in
  ((start1 <=? start2) && (start2 <=? end1)) || ((start1 <=? end2) && (end2 <=? end1)) ||
  ((start2 <=? start1) && (start1 <=? end2)) || ((start2 <=? end1) && (end1 <=? end2)).

(** Whether there is room, and the part of the range that is free: [len_ptr] is an
    [int] and a difference outside its range undefined. *)
Definition int_sub (a b : Z) : option Z :=
  if (- 2 ^ 31 <=? a - b) && (a - b <? 2 ^ 31) then Some (a - b) else None.

Definition _proc_can_fixup_zone (s : vm_address_space_t) (start_ptr len_ptr : Z) : option (bool * Z * Z) :=
  r ← for_loop (Z.to_nat (v_size (zones s))) 0 (λ i '(st, ln),
    '(_, zone) ← get_zone (zones s) i;
    if _pzones_intersect st (usize ln) (vaddr zone) (len zone) then
      '(st, ln) ← (if vaddr zone <=? st then
          let move := s32 (usize (usize (vaddr zone + len zone) - st)) in
          ln ← int_sub ln move; Some (usize (st + move), ln)
        else
          let move := s32 (usize (usize (st + ln) - vaddr zone)) in
          ln ← int_sub ln move; Some (st, ln));
      Some (if ln <=? 0 then inr (st, ln) else inl (st, ln))
    else Some (inl (st, ln))) (start_ptr, len_ptr);
  Some (match r with inl (st, ln) => (true, st, ln) | inr (st, ln) => (false, st, ln) end).

Definition _proc_can_add_zone (s : vm_address_space_t) (start len_ : Z) : option bool :=
  if (usize (start + len_) <? start) || negb (IS_USER_VADDR (usize (usize (start + len_) - 1))) then Some false else
  r ← for_loop (Z.to_nat (v_size (zones s))) 0 (λ i (_ : unit),
    '(_, zone) ← get_zone (zones s) i;
    Some (if _pzones_intersect start len_ (vaddr zone) (len zone) then inr tt else inl tt)) tt;
  Some (match r with inl _ => true | inr _ => false end).

(** The swap of two zones, [i] and [j] their slots. *)
Definition _proc_swap_zones (one two : Z * Z) (v : dynamic_array (E := memzone_t)) : option (dynamic_array (E := memzone_t)) :=
  z1 ← slot v one;
  z2 ← slot v two;
  v ← write_slot v one.1 one.2 z2;
  write_slot v two.1 two.2 z1.

(** The length rounded up to pages. *)
Definition page_len (len_ : Z) : Z :=
  if negb (len_ mod VMM_PAGE_SIZE =? 0) then usize (len_ + (VMM_PAGE_SIZE - len_ mod VMM_PAGE_SIZE)) else len_.

(** The new zone's slot, [None] for a null pointer. *)
Definition memzone_new (start len_ : Z) (s : vm_address_space_t) : option (option (Z * Z) * vm_address_space_t) :=
  let len_ := usize (len_ + Z.land start (VMM_PAGE_SIZE - 1)) in
  let start := ROUND_FLOOR start VMM_PAGE_SIZE in
  let len_ := page_len len_ in
  let new_zone := mk_memzone start len_ MMU_FLAG_NONPRIV 0 None 0 0 None in
  ok ← _proc_can_add_zone s start len_;
  if negb ok then Some (None, s) else
  '(_, _, v) ← dynarr_push (zones s) new_zone;
  p ← dynarr_get v (s32 (usize (v_size v - 1)));
  Some (Some p, mk_aspace v (file_counts s)).

Definition memzone_split (zone : Z * Z) (addr : Z) (s : vm_address_space_t) : option (option (Z * Z) * vm_address_space_t) :=
  let addr := ROUND_FLOOR addr VMM_PAGE_SIZE in
  z ← slot (zones s) zone;
  if len z <=? VMM_PAGE_SIZE then Some (None, s) else
  if negb (_pzones_addr_inside z addr) then Some (None, s) else
  if negb (vaddr z =? addr) then Some (None, s) else
  let orig_zone_len := usize (addr - vaddr z) in
  let new_zone_len := usize (len z - orig_zone_len) in
  let set_len l v := write_slot v zone.1 zone.2
    (mk_memzone (vaddr z) l (mmu_flags z) (type z) (file z) (file_offset z) (file_size z) (ops z)) in
  v ← set_len orig_zone_len (zones s);
  '(r, s) ← memzone_new addr new_zone_len (mk_aspace v (file_counts s));
  match r with
  | None => v ← set_len (len z) (zones s); Some (None, mk_aspace v (file_counts s))
  | Some p => Some (Some p, s)
  end.

(** The loop over the candidates behind the zones. *)
Definition lowest_end (s : vm_address_space_t) (len_ : Z) : option Z :=
  for_n (Z.to_nat (v_size (zones s))) 0 (λ i min_start,
    '(_, zone) ← get_zone (zones s) i;
    let e := usize (vaddr zone + len zone) in
    ok ← _proc_can_add_zone s e len_;
    Some (if ok && (e <? min_start) then e else min_start)) USER_HIGH.

Definition memzone_new_random (len_ : Z) (s : vm_address_space_t) : option (option (Z * Z) * vm_address_space_t) :=
  let len_ := page_len len_ in
  '(r, s') ← memzone_new 0 len_ s;
  match r with
  | Some p => Some (Some p, s')
  | None =>
      min_start ← lowest_end s' len_;
      if min_start =? USER_HIGH then Some (None, s') else memzone_new min_start len_ s'
  end.

Definition highest_start (s : vm_address_space_t) (len_ : Z) : option Z :=
  for_n (Z.to_nat (v_size (zones s))) 0 (λ i max_end,
    '(_, zone) ← get_zone (zones s) i;
    ok ← _proc_can_add_zone s (usize (vaddr zone - len_)) len_;
    Some (if ok && (max_end <? vaddr zone) then vaddr zone else max_end)) 0.

Definition memzone_new_random_backward (len_ : Z) (s : vm_address_space_t) : option (option (Z * Z) * vm_address_space_t) :=
  let len_ := page_len len_ in
  '(r, s') ← memzone_new (usize (usize (USER_HIGH - len_) + 1)) len_ s;
  match r with
  | Some p => Some (Some p, s')
  | None =>
      max_end ← highest_start s' len_;
      if max_end =? 0 then Some (None, s') else memzone_new (usize (max_end - len_)) len_ s'
  end.

Definition memzone_find_no_proc (v : dynamic_array (E := memzone_t)) (addr : Z) : option (option (Z * Z)) :=
  r ← for_loop (Z.to_nat (v_size v)) 0 (λ i (_ : unit),
    '(p, zone) ← get_zone v i;
    Some (if (vaddr zone <=? addr) && (addr <? usize (vaddr zone + len zone)) then inr p else inl tt)) tt;
  Some (match r with inl _ => None | inr p => Some p end).

(** [None]: there is no address space. *)
Definition memzone_find (s : option vm_address_space_t) (addr : Z) : option (option (Z * Z)) :=
  match s with
  | None => Some None
  | Some s => memzone_find_no_proc (zones s) addr
  end.

Definition memzone_free_no_proc (givzone : Z * Z) (s : vm_address_space_t) : option (Z * vm_address_space_t) :=
  r ← for_loop (Z.to_nat (v_size (zones s))) 0 (λ i (_ : unit),
    '(p, _) ← get_zone (zones s) i;
    Some (if bool_decide (p = givzone) then inr p else inl tt)) tt;
  match r with
  | inl _ => Some (- EALREADY, s)
  | inr p =>
      z ← slot (zones s) p;
      s ← (match file z with None => Some s | Some f => file_put f s end);
      last ← dynarr_get (zones s) (s32 (usize (v_size (zones s) - 1)));
      v ← _proc_swap_zones p last (zones s);
      '(_, v) ← dynarr_pop v;
      Some (0, mk_aspace v (file_counts s))
  end.

Definition memzone_free (givzone : Z * Z) (s : vm_address_space_t) : option (Z * vm_address_space_t) :=
  memzone_free_no_proc givzone s.

(** The zones of [from] are added to the address space. *)
Definition memzone_copy (from : dynamic_array (E := memzone_t)) (s : vm_address_space_t) : option (Z * vm_address_space_t) :=
  s ← for_n (Z.to_nat (v_size from)) 0 (λ i s,
    '(_, z) ← get_zone from i;
    s ← (match file z with None => Some s | Some f => file_duplicate f s end);
    '(_, _, v) ← dynarr_push (zones s) z;
    Some (mk_aspace v (file_counts s))) s;
  Some (0, s).

(** ** What the operations compute *)

Definition zone_end (z : memzone_t) : Z := vaddr z + len z.
Definition on_page (x : Z) : Prop := x mod VMM_PAGE_SIZE = 0.

(** Zones are made of pages of user memory. *)
Definition zone_ok (z : memzone_t) : Prop :=
  on_page (vaddr z) ∧ on_page (len z) ∧ 0 <= vaddr z ∧ 0 <= len z ∧ 0 < zone_end z <= USER_HIGH + 1.
Definition apart (z1 z2 : memzone_t) : Prop := zone_end z1 <= vaddr z2 ∨ zone_end z2 <= vaddr z1.

(** The zones of an address space: good ones, no two with an address in common. *)
Fixpoint zones_ok (l : list memzone_t) : Prop :=
  match l with [] => True | z :: l => zone_ok z ∧ Forall (apart z) l ∧ zones_ok l end.

#[global] Instance apart_sym : Symmetric apart.
Proof. intros z1 z2 [?|?]; [by right|by left]. Qed.

Lemma zones_ok_Forall l : zones_ok l → Forall zone_ok l.
Proof. induction l as [|z l IH]; [constructor|]. intros (Hz & _ & Hl). constructor; auto. Qed.

(** The order of the zones does not matter. *)
#[global] Instance zones_ok_perm : Proper (Permutation ==> iff) zones_ok.
Proof.
  assert (∀ l l', Permutation l l' → zones_ok l → zones_ok l') as Hd.
  { intros l l' Hp. induction Hp as [|z l l' Hp IH|z1 z2 l|l1 l2 l3 H1 IH1 H2 IH2]; cbn [zones_ok]; [done| | |tauto].
    - intros (Hz & Ha & Hl). split; [done|]. split; [by rewrite <- Hp|auto].
    - intros (Hz2 & [Ha2 H2]%Forall_cons & Hz1 & H1 & Hl). split; [done|]. split; [|done].
      constructor; [by symmetry|done]. }
  intros l l' Hp. split; apply Hd; [done|by symmetry].
Qed.

(** The range is in user memory and no zone reaches into it. *)
Definition free_range (l : list memzone_t) (a n : Z) : Prop :=
  0 <= a ∧ a + n <= USER_HIGH + 1 ∧ ∀ z, z ∈ l → a + n <= vaddr z ∨ zone_end z <= a.

Definition room (l : list memzone_t) (a n : Z) : bool :=
  negb ((usize (a + n) <? a) || negb (IS_USER_VADDR (usize (usize (a + n) - 1)))) &&
  forallb (λ z, negb (_pzones_intersect a n (vaddr z) (len z))) l.

Lemma user_fits : USER_HIGH + 1 < 2 ^ ptr_bits.
Proof. pose proof user_kernel. pose proof kernel_base_fits. lia. Qed.

Lemma end_small a n : 0 <= a → 0 <= n → 0 < a + n <= USER_HIGH + 1 → usize (usize (a + n) - 1) = a + n - 1.
Proof. intros. pose proof user_fits. rewrite (usize_small (a + n)), usize_small by lia. done. Qed.

Lemma intersect_spec a n z : 0 <= a → 0 < n → a + n <= USER_HIGH + 1 → zone_ok z → 0 < len z →
  _pzones_intersect a n (vaddr z) (len z) = true ↔ ¬ (a + n <= vaddr z ∨ zone_end z <= a).
Proof.
  intros Ha Hn Hu (_ & _ & Hv & Hl & Hz) Hlz. unfold _pzones_intersect, zone_end in *. rewrite !end_small by lia.
  rewrite !orb_true_iff, !andb_true_iff, !Z.leb_le. lia.
Qed.

(** Also for empty ranges and zones. *)
Lemma no_intersect a n z : 0 <= a → 0 <= n → 0 < a + n <= USER_HIGH + 1 → zone_ok z →
  _pzones_intersect a n (vaddr z) (len z) = false → a + n <= vaddr z ∨ zone_end z <= a.
Proof.
  intros Ha Hn Hu (_ & _ & Hv & Hl & Hz). unfold _pzones_intersect, zone_end in *. rewrite !end_small by lia.
  rewrite !orb_false_iff, !andb_false_iff, !Z.leb_gt. lia.
Qed.

Lemma room_bounds l a n : 0 <= a < 2 ^ ptr_bits → 0 <= n < 2 ^ ptr_bits → room l a n = true →
  0 < a + n <= USER_HIGH + 1.
Proof.
  intros Ha Hn. unfold room. rewrite andb_true_iff, negb_true_iff, orb_false_iff, negb_false_iff.
  intros [[Hw Hu] _]. apply Z.ltb_ge in Hw. unfold IS_USER_VADDR in Hu. apply Z.leb_le in Hu.
  pose proof user_fits. pose proof ptr_bits_ge.
  assert (usize (a + n) = a + n) as He.
  { unfold usize in *. destruct (Z.lt_ge_cases (a + n) (2 ^ ptr_bits)); [by rewrite Z.mod_small by lia|].
    rewrite <- (Z.mod_unique (a + n) (2 ^ ptr_bits) 1 (a + n - 2 ^ ptr_bits)) in Hw by lia. lia. }
  pose proof (usize_range (a + n)) as Hr. rewrite He in Hu, Hr. destruct (Z.eq_dec (a + n) 0) as [Hz|Hz].
  - rewrite Hz in Hu. unfold usize in Hu. rewrite <- (Z.mod_unique (0 - 1) (2 ^ ptr_bits) (-1) (2 ^ ptr_bits - 1)) in Hu by lia.
    lia.
  - rewrite usize_small in Hu by lia. lia.
Qed.

Lemma room_free l a n : 0 <= a < 2 ^ ptr_bits → 0 <= n < 2 ^ ptr_bits → Forall zone_ok l →
  room l a n = true → free_range l a n ∧ 0 < a + n.
Proof.
  intros Ha Hn Hl Hr. pose proof (room_bounds l a n Ha Hn Hr) as Hb. split; [|lia]. split; [lia|]. split; [lia|].
  unfold room in Hr. apply andb_true_iff in Hr as [_ Hr]. intros z Hz.
  rewrite forallb_forall in Hr. specialize (Hr z). rewrite <- list_elem_of_In in Hr. specialize (Hr Hz).
  rewrite Forall_forall in Hl. apply negb_true_iff in Hr. apply no_intersect; auto; lia.
Qed.

Lemma free_room l a n : 0 < n → Forall (λ z, zone_ok z ∧ 0 < len z) l → free_range l a n → room l a n = true.
Proof.
  intros Hn Hl (Ha & Hu & Hz). pose proof user_fits. unfold room, IS_USER_VADDR. rewrite end_small by lia.
  rewrite usize_small by lia. replace (a + n <? a) with false by lia. replace (a + n - 1 <=? USER_HIGH) with true by lia.
  apply forallb_forall. intros z Hin%list_elem_of_In. apply negb_true_iff, not_true_is_false.
  rewrite Forall_forall in Hl. destruct (Hl z Hin). rewrite intersect_spec by (done || lia). intros Hno. by apply Hno, Hz.
Qed.

(** A range that wraps around is no range. *)
Lemma room_wraps l a n : 0 < n < 2 ^ ptr_bits → - n <= a < 0 → room l (usize a) n = false.
Proof.
  intros Hn Ha. unfold room. pose proof ptr_bits_ge.
  assert (usize a = a + 2 ^ ptr_bits) as ->.
  { unfold usize. symmetry. apply (Z.mod_unique _ _ (-1)); lia. }
  replace (usize (a + 2 ^ ptr_bits + n)) with (a + n).
  - replace (a + n <? a + 2 ^ ptr_bits) with true by lia. done.
  - unfold usize. apply (Z.mod_unique _ _ 1); lia.
Qed.

(** ** The array of zones *)

Lemma get_zone_spec v l i z : holds v l → total_capacity v < 2 ^ 29 → l.[i] = Some z →
  ∃ p, get_zone v i = Some (p, z) ∧ dynarr_get v i = Some p ∧ bucket_at (buckets v) p.1 p.2 i.
Proof.
  intros Hh Hcap Hi. pose proof (zget_Some _ _ _ Hi) as Hr. pose proof (holds_length v l Hh) as Hlen.
  destruct (get_spec v l i Hh) as [(_ & j & i' & Hg & Hat)|[? _]]; [lia|done| |lia].
  exists (j, i'). unfold get_zone. rewrite s32_small, Hg by lia. cbn [mbind option_bind].
  rewrite (slot_spec v l j i' i Hh Hat Hr), Hi. done.
Qed.

(** A loop over the zones. *)
Lemma zones_loop {S R} v l (I : list memzone_t → S → Prop) (Q : R → Prop) (body : Z * Z → memzone_t → S → option (S + R)) s :
  holds v l → total_capacity v < 2 ^ 29 → I [] s →
  (∀ l1 z p s, (∃ l2, l = l1 ++ z :: l2) → get_zone v (Z.of_nat (length l1)) = Some (p, z) → I l1 s →
    match body p z s with None => False | Some (inl s') => I (l1 ++ [z]) s' | Some (inr r) => Q r end) →
  ∃ x, for_loop (Z.to_nat (v_size v)) 0 (λ i s, '(p, z) ← get_zone v i; body p z s) s = Some x ∧
    match x with inl s' => I l s' | inr r => Q r end.
Proof.
  intros Hh Hcap HI Hb. pose proof Hh as (_ & _ & Hn & _). rewrite Hn, Nat2Z.id.
  destruct (for_loop_total (λ i s, I (take (Z.to_nat i) l) s) Q (λ i s, '(p, z) ← get_zone v i; body p z s)
    (length l) 0 s) as (x & Hx & Hq); [done| |].
  - intros i s' Hi HIi. destruct (zget_is_Some l i) as [z Hz]; [lia|].
    destruct (get_zone_spec v l i z Hh Hcap Hz) as (p & Hp & _). rewrite Hp. cbn [mbind option_bind].
    rewrite zget_lookup in Hz by lia. pose proof (take_drop_middle l _ z Hz) as Hl.
    specialize (Hb (take (Z.to_nat i) l) z p s'). rewrite length_take in Hb.
    replace (Z.of_nat (Z.to_nat i `min` length l)) with i in Hb by lia.
    specialize (Hb (ex_intro _ _ (eq_sym Hl)) Hp HIi). destruct (body p z s') as [[s2|r]|]; [|done..].
    replace (Z.to_nat (i + 1)) with (Datatypes.S (Z.to_nat i)) by lia. by rewrite (take_S_r _ _ z).
  - exists x. split; [done|]. destruct x; [|done]. by rewrite Z.add_0_l, Nat2Z.id, firstn_all in Hq.
Qed.

Lemma can_add_spec s l a n : holds (zones s) l → total_capacity (zones s) < 2 ^ 29 →
  _proc_can_add_zone s a n = Some (room l a n).
Proof.
  intros Hh Hcap. unfold _proc_can_add_zone, room. destruct (_ || _); [done|]. cbn [negb andb].
  destruct (zones_loop (zones s) l (λ l1 _, forallb (λ z, negb (_pzones_intersect a n (vaddr z) (len z))) l1 = true)
    (λ _, forallb (λ z, negb (_pzones_intersect a n (vaddr z) (len z))) l = false)
    (λ _ z _, Some (if _pzones_intersect a n (vaddr z) (len z) then inr tt else inl tt)) tt Hh Hcap) as (x & Hx & Hq); [done| |].
  - intros l1 z p _ [l2 ->] _ HI. destruct (_pzones_intersect a n (vaddr z) (len z)) eqn:E.
    + rewrite forallb_app. simpl. by rewrite E, andb_false_r.
    + rewrite forallb_app, HI. simpl. by rewrite E.
  - setoid_rewrite Hx. cbn [mbind option_bind]. destruct x; by rewrite Hq.
Qed.

Lemma on_page_floor a : 0 <= a < 2 ^ ptr_bits → ROUND_FLOOR a VMM_PAGE_SIZE = a - a mod VMM_PAGE_SIZE.
Proof. intros Ha. apply (ROUND_FLOOR_spec a 12); lia. Qed.

Lemma low_bits a : 0 <= a → Z.land a (VMM_PAGE_SIZE - 1) = a mod VMM_PAGE_SIZE.
Proof. intros Ha. change (VMM_PAGE_SIZE - 1) with (Z.ones 12). by rewrite Z.land_ones. Qed.

Lemma pages_divide : (VMM_PAGE_SIZE | 2 ^ ptr_bits).
Proof. destruct ptr_bits_cases as [-> | ->]; [exists (2 ^ 20)|exists (2 ^ 52)]; reflexivity. Qed.

Lemma mod_page_usize x : usize x mod VMM_PAGE_SIZE = x mod VMM_PAGE_SIZE.
Proof.
  apply Z.mod_mod_divide, pages_divide.
Qed.
Lemma page_len_ok n : 0 <= n < 2 ^ ptr_bits → on_page (page_len n) ∧ 0 <= page_len n < 2 ^ ptr_bits.
Proof.
  intros Hn. unfold page_len, on_page. destruct (Z.eqb_spec (n mod VMM_PAGE_SIZE) 0) as [|Hne]; cbn [negb]; [by split|].
  split; [|apply usize_range]. rewrite mod_page_usize. unfold VMM_PAGE_SIZE in *.
  pose proof (Z.div_mod n 4096). replace (n + (4096 - n mod 4096)) with ((n / 4096 + 1) * 4096) by lia. apply Z.mod_mul. lia.
Qed.

(** The length is the least number of whole pages, when there are that many. *)
Lemma page_len_small n : 0 <= n → n <= USER_HIGH + 1 → n <= page_len n < n + VMM_PAGE_SIZE ∧ page_len n <= USER_HIGH + 1.
Proof.
  intros Hn Hu. pose proof user_fits. pose proof user_high_page as Hp. unfold page_len, VMM_PAGE_SIZE in *.
  pose proof (Z.mod_pos_bound n 4096). pose proof (Z.div_mod n 4096). pose proof (Z.div_mod (USER_HIGH + 1) 4096).
  destruct (Z.eqb_spec (n mod 4096) 0); cbn [negb]; [lia|].
  assert (n / 4096 < (USER_HIGH + 1) / 4096) by (apply Z.div_lt_upper_bound; lia).
  rewrite usize_small by lia. lia.
Qed.

(** [memzone_new] adds the zone behind the others, or changes nothing. *)
Lemma memzone_new_spec s l start n : holds (zones s) l → total_capacity (zones s) < 2 ^ 26 → zones_ok l →
  0 <= start < 2 ^ ptr_bits → 0 <= n < 2 ^ ptr_bits →
  let a := start - start mod VMM_PAGE_SIZE in
  let n' := page_len (usize (n + start mod VMM_PAGE_SIZE)) in
  let z := mk_memzone a n' MMU_FLAG_NONPRIV 0 None 0 0 None in
  if room l a n' then ∃ p s', memzone_new start n s = Some (Some p, s') ∧ holds (zones s') (l ++ [z]) ∧
    zones_ok (l ++ [z]) ∧ slot (zones s') p = Some z ∧ file_counts s' = file_counts s ∧
    (∀ i q, dynarr_get (zones s) i = Some q → dynarr_get (zones s') i = Some q)
  else memzone_new start n s = Some (None, s).
Proof.
  intros Hh Hcap Hl Hs Hn a n' z. unfold memzone_new. rewrite on_page_floor, low_bits by lia. fold a n' z.
  rewrite (can_add_spec s l) by (done || lia). cbn [mbind option_bind].
  assert (0 <= a < 2 ^ ptr_bits ∧ on_page a) as [Ha Hap].
  { unfold a, on_page, VMM_PAGE_SIZE. pose proof (Z.mod_pos_bound start 4096). pose proof (Z.div_mod start 4096).
    split; [lia|]. replace (start - start mod 4096) with (start / 4096 * 4096) by lia. apply Z.mod_mul. lia. }
  destruct (page_len_ok (usize (n + start mod VMM_PAGE_SIZE)) (usize_range _)) as [Hnp Hnr]. fold n' in Hnp, Hnr.
  destruct (room l a n') eqn:Hr; cbn [negb]; [|done].
  destruct (push_spec (zones s) l z Hh Hcap) as ([j i] & v' & Hpush & Hh' & Hslot & Hcap' & Hget). rewrite Hpush.
  cbn [mbind option_bind]. pose proof Hh' as (_ & _ & Hn' & _). rewrite length_app in Hn'. simpl in Hn'.
  pose proof (holds_length v' _ Hh') as Hlen'. rewrite length_app in Hlen'. simpl in Hlen'. pose proof ptr_bits_ge.
  rewrite Hn', usize_small by lia. replace (Z.of_nat (length l + 1) - 1) with (Z.of_nat (length l)) by lia.
  destruct (get_zone_spec v' (l ++ [z]) (Z.of_nat (length l)) z Hh') as (p & Hp & Hp' & Hat); [lia| |].
  { rewrite zget_lookup, Nat2Z.id, lookup_app_r, Nat.sub_diag by lia. done. }
  rewrite s32_small, Hp' by lia. cbn [mbind option_bind]. exists p. eexists. split; [done|]. split; [done|].
  split; [|split; [|done]].
  - rewrite Permutation_app_comm. cbn [zones_ok app].
    destruct (room_free l a n' Ha Hnr (zones_ok_Forall l Hl) Hr) as [(Ha0 & Hu & Hz) Hpos].
    split; [split; [done|]; split; [done|]; unfold zone_end; cbn; lia|]. split; [|done].
    apply Forall_forall. intros z' Hz'. unfold apart, zone_end. cbn. apply Hz, Hz'.
  - cbn [zones]. destruct p as [j' i']. rewrite (slot_spec v' (l ++ [z]) j' i' (Z.of_nat (length l)) Hh' Hat).
    + rewrite zget_lookup, Nat2Z.id, lookup_app_r, Nat.sub_diag by lia. done.
    + rewrite length_app. simpl. lia.
Qed.

(** ** Looking for room *)

(** A loop over the zones that never leaves early. *)
Lemma zones_loop_n {S} v l (I : list memzone_t → S → Prop) (body : Z * Z → memzone_t → S → option S) s :
  holds v l → total_capacity v < 2 ^ 29 → I [] s →
  (∀ l1 z p s, (∃ l2, l = l1 ++ z :: l2) → get_zone v (Z.of_nat (length l1)) = Some (p, z) → I l1 s →
    ∃ s', body p z s = Some s' ∧ I (l1 ++ [z]) s') →
  ∃ s', for_n (Z.to_nat (v_size v)) 0 (λ i s, '(p, z) ← get_zone v i; body p z s) s = Some s' ∧ I l s'.
Proof.
  intros Hh Hcap HI Hb. pose proof Hh as (_ & _ & Hn & _). rewrite Hn, Nat2Z.id.
  destruct (for_n_total (λ i s, I (take (Z.to_nat i) l) s) (λ i s, '(p, z) ← get_zone v i; body p z s)
    (length l) 0 s) as (x & Hx & Hq); [done| |].
  - intros i s' Hi HIi. destruct (zget_is_Some l i) as [z Hz]; [lia|].
    destruct (get_zone_spec v l i z Hh Hcap Hz) as (p & Hp & _). rewrite Hp. cbn [mbind option_bind].
    rewrite zget_lookup in Hz by lia. pose proof (take_drop_middle l _ z Hz) as Hl.
    specialize (Hb (take (Z.to_nat i) l) z p s'). rewrite length_take in Hb.
    replace (Z.of_nat (Z.to_nat i `min` length l)) with i in Hb by lia.
    destruct (Hb (ex_intro _ _ (eq_sym Hl)) Hp HIi) as (s2 & Hs2 & HI2). exists s2. split; [done|].
    replace (Z.to_nat (i + 1)) with (Datatypes.S (Z.to_nat i)) by lia. by rewrite (take_S_r _ _ z).
  - exists x. split; [done|]. by rewrite Z.add_0_l, Nat2Z.id, firstn_all in Hq.
Qed.

(** The candidate behind a zone, and the one in front of it. *)
Definition cand_low (l : list memzone_t) (n : Z) (z : memzone_t) : bool := room l (usize (zone_end z)) n.
Definition cand_high (l : list memzone_t) (n : Z) (z : memzone_t) : bool := room l (usize (vaddr z - n)) n.

Lemma lowest_end_spec s l n : holds (zones s) l → total_capacity (zones s) < 2 ^ 29 → Forall zone_ok l →
  ∃ m, lowest_end s n = Some m ∧ m <= USER_HIGH ∧ (∀ z, z ∈ l → cand_low l n z = true → m <= zone_end z) ∧
    (m = USER_HIGH ∨ ∃ z, z ∈ l ∧ cand_low l n z = true ∧ m = zone_end z).
Proof.
  intros Hh Hcap Hok. unfold lowest_end. pose proof user_fits.
  apply (zones_loop_n (zones s) l (λ l1 m, m <= USER_HIGH ∧ (∀ z, z ∈ l1 → cand_low l n z = true → m <= zone_end z) ∧
    (m = USER_HIGH ∨ ∃ z, z ∈ l ∧ cand_low l n z = true ∧ m = zone_end z))
    (λ _ zone min_start, let e := usize (vaddr zone + len zone) in
      ok ← _proc_can_add_zone s e n; Some (if ok && (e <? min_start) then e else min_start)) USER_HIGH Hh Hcap).
  - split; [lia|]. split; [|by left]. intros z Hz. by apply elem_of_nil in Hz.
  - intros l1 z p m [l2 Hl] _ (Hm & Hmin & Hcase). cbv zeta. rewrite (can_add_spec s l) by done. cbn [mbind option_bind].
    eexists. split; [done|]. change (vaddr z + len z) with (zone_end z). fold (cand_low l n z).
    assert (z ∈ l) as Hz by (rewrite Hl; apply elem_of_app; right; by left).
    rewrite Forall_forall in Hok. destruct (Hok z Hz) as (_ & _ & Hv & Hlz & He).
    rewrite (usize_small (zone_end z)) by lia.
    destruct (cand_low l n z) eqn:Ec; cbn [andb]; [destruct (Z.ltb_spec (zone_end z) m)|].
    + split; [lia|]. split; [|right; by exists z]. intros z' [Hz'| ->%list_elem_of_singleton]%elem_of_app Hc'; [|lia].
      specialize (Hmin z' Hz' Hc'). lia.
    + split; [done|]. split; [|done]. intros z' [Hz'| ->%list_elem_of_singleton]%elem_of_app Hc'; [by apply Hmin|lia].
    + split; [done|]. split; [|done]. intros z' [Hz'| ->%list_elem_of_singleton]%elem_of_app Hc'; [by apply Hmin|congruence].
Qed.

Lemma highest_start_spec s l n : holds (zones s) l → total_capacity (zones s) < 2 ^ 29 → Forall zone_ok l →
  ∃ m, highest_start s n = Some m ∧ 0 <= m ∧ (∀ z, z ∈ l → cand_high l n z = true → vaddr z <= m) ∧
    (m = 0 ∨ ∃ z, z ∈ l ∧ cand_high l n z = true ∧ m = vaddr z).
Proof.
  intros Hh Hcap Hok. unfold highest_start.
  apply (zones_loop_n (zones s) l (λ l1 m, 0 <= m ∧ (∀ z, z ∈ l1 → cand_high l n z = true → vaddr z <= m) ∧
    (m = 0 ∨ ∃ z, z ∈ l ∧ cand_high l n z = true ∧ m = vaddr z))
    (λ _ zone max_end, ok ← _proc_can_add_zone s (usize (vaddr zone - n)) n;
      Some (if ok && (max_end <? vaddr zone) then vaddr zone else max_end)) 0 Hh Hcap).
  - split; [lia|]. split; [|by left]. intros z Hz. by apply elem_of_nil in Hz.
  - intros l1 z p m [l2 Hl] _ (Hm & Hmax & Hcase). rewrite (can_add_spec s l) by done. cbn [mbind option_bind].
    eexists. split; [done|]. fold (cand_high l n z).
    assert (z ∈ l) as Hz by (rewrite Hl; apply elem_of_app; right; by left).
    rewrite Forall_forall in Hok. destruct (Hok z Hz) as (_ & _ & Hv & _).
    destruct (cand_high l n z) eqn:Ec; cbn [andb]; [destruct (Z.ltb_spec m (vaddr z))|].
    + split; [lia|]. split; [|right; by exists z]. intros z' [Hz'| ->%list_elem_of_singleton]%elem_of_app Hc'; [|lia].
      specialize (Hmax z' Hz' Hc'). lia.
    + split; [done|]. split; [|done]. intros z' [Hz'| ->%list_elem_of_singleton]%elem_of_app Hc'; [by apply Hmax|lia].
    + split; [done|]. split; [|done]. intros z' [Hz'| ->%list_elem_of_singleton]%elem_of_app Hc'; [by apply Hmax|congruence].
Qed.

(** A free range can be moved down to the end of a zone or to 0. *)
Lemma slide_down l a n : free_range l a n → 0 < n → Forall zone_ok l →
  ∃ b, 0 <= b <= a ∧ free_range l b n ∧ (b = 0 ∨ ∃ z, z ∈ l ∧ zone_end z = b).
Proof.
  intros (Ha & Hu & Hz) Hn Hok.
  assert (∃ b, 0 <= b <= a ∧ (∀ z, z ∈ l → zone_end z <= a → zone_end z <= b) ∧ (b = 0 ∨ ∃ z, z ∈ l ∧ zone_end z = b))
    as (b & Hb & Hmax & Hcase).
  { clear Hz. induction l as [|z l IH].
    - exists 0. split; [lia|]. split; [|by left]. intros z Hz. by apply elem_of_nil in Hz.
    - apply Forall_cons in Hok as [(_ & _ & _ & _ & Hez) Hok]. destruct (IH Hok) as (b & Hb & Hmax & Hcase).
      destruct (decide (zone_end z <= a)); [destruct (decide (zone_end z <= b))|].
      + exists b. split; [done|]. split; [|destruct Hcase as [|(z' & ? & ?)]; [by left|right; exists z'; split; [by right|done]]].
        intros z' [-> |Hz']%elem_of_cons; [done|by apply Hmax].
      + exists (zone_end z). split; [lia|]. split; [|right; exists z; split; [by left|done]].
        intros z' [-> |Hz']%elem_of_cons Hle; [done|]. specialize (Hmax z' Hz' Hle). lia.
      + exists b. split; [done|]. split; [|destruct Hcase as [|(z' & ? & ?)]; [by left|right; exists z'; split; [by right|done]]].
        intros z' [-> |Hz']%elem_of_cons; [done|by apply Hmax]. }
  exists b. split; [done|]. split; [|done]. split; [lia|]. split; [lia|]. intros z Hin.
  destruct (Hz z Hin) as [|Hle]; [left; lia|]. right. by apply Hmax.
Qed.

(** It can be moved up to the start of a zone or to the end of user memory. *)
Lemma slide_up l a n : free_range l a n → 0 < n → Forall zone_ok l →
  ∃ b, a + n <= b <= USER_HIGH + 1 ∧ free_range l (b - n) n ∧ (b = USER_HIGH + 1 ∨ ∃ z, z ∈ l ∧ vaddr z = b).
Proof.
  intros (Ha & Hu & Hz) Hn Hok.
  assert (∃ b, a + n <= b <= USER_HIGH + 1 ∧ (∀ z, z ∈ l → a + n <= vaddr z → b <= vaddr z) ∧
    (b = USER_HIGH + 1 ∨ ∃ z, z ∈ l ∧ vaddr z = b)) as (b & Hb & Hmin & Hcase).
  { clear Hz. induction l as [|z l IH].
    - exists (USER_HIGH + 1). split; [lia|]. split; [|by left]. intros z Hz. by apply elem_of_nil in Hz.
    - apply Forall_cons in Hok as [(_ & _ & _ & Hlz & Hez) Hok]. destruct (IH Hok) as (b & Hb & Hmin & Hcase).
      unfold zone_end in Hez. destruct (decide (a + n <= vaddr z)); [destruct (decide (b <= vaddr z))|].
      + exists b. split; [done|]. split; [|destruct Hcase as [|(z' & ? & ?)]; [by left|right; exists z'; split; [by right|done]]].
        intros z' [-> |Hz']%elem_of_cons; [done|by apply Hmin].
      + exists (vaddr z). split; [lia|]. split; [|right; exists z; split; [by left|done]].
        intros z' [-> |Hz']%elem_of_cons Hle; [done|]. specialize (Hmin z' Hz' Hle). lia.
      + exists b. split; [done|]. split; [|destruct Hcase as [|(z' & ? & ?)]; [by left|right; exists z'; split; [by right|done]]].
        intros z' [-> |Hz']%elem_of_cons; [done|by apply Hmin]. }
  exists b. split; [done|]. split; [|done]. split; [lia|]. split; [lia|]. intros z Hin.
  destruct (Hz z Hin) as [Hle|]; [left|right; lia]. specialize (Hmin z Hin Hle). lia.
Qed.

Lemma page_len_id n : on_page n → page_len n = n.
Proof. unfold page_len, on_page. by intros ->. Qed.

(** [memzone_new] at a page. *)
Lemma new_at_page s l a n : holds (zones s) l → total_capacity (zones s) < 2 ^ 26 → zones_ok l →
  0 <= a < 2 ^ ptr_bits → on_page a → 0 <= n < 2 ^ ptr_bits → on_page n →
  let z := mk_memzone a n MMU_FLAG_NONPRIV 0 None 0 0 None in
  if room l a n then ∃ p s', memzone_new a n s = Some (Some p, s') ∧ holds (zones s') (l ++ [z]) ∧
    zones_ok (l ++ [z]) ∧ slot (zones s') p = Some z ∧ file_counts s' = file_counts s ∧
    (∀ i q, dynarr_get (zones s) i = Some q → dynarr_get (zones s') i = Some q)
  else memzone_new a n s = Some (None, s).
Proof.
  intros Hh Hcap Hl Ha Hap Hn Hnp. pose proof (memzone_new_spec s l a n Hh Hcap Hl Ha Hn) as H1.
  unfold on_page in Hap. rewrite Hap, Z.add_0_r, Z.sub_0_r, usize_small, page_len_id in H1 by done. exact H1.
Qed.

(** What looking for room promises: a new zone of [n] bytes at [a]. *)
Record new_zone (s : vm_address_space_t) (l : list memzone_t) (a n : Z) (p : Z * Z) (s' : vm_address_space_t) : Prop := {
  nz_slot : slot (zones s') p = Some (mk_memzone a n MMU_FLAG_NONPRIV 0 None 0 0 None);
  nz_holds : holds (zones s') (l ++ [mk_memzone a n MMU_FLAG_NONPRIV 0 None 0 0 None]);
  nz_ok : zones_ok (l ++ [mk_memzone a n MMU_FLAG_NONPRIV 0 None 0 0 None]);
  nz_files : file_counts s' = file_counts s;
  nz_free : free_range l a n;
}.

Lemma new_zone_at s l a n : holds (zones s) l → total_capacity (zones s) < 2 ^ 26 → zones_ok l →
  Forall (λ z, 0 < len z) l → 0 < n → on_page a → on_page n → free_range l a n →
  ∃ p s', memzone_new a n s = Some (Some p, s') ∧ new_zone s l a n p s'.
Proof.
  intros Hh Hcap Hl Hpos Hn Hap Hnp Hfree. pose proof Hfree as (Ha & Hu & _). pose proof user_fits.
  pose proof (new_at_page s l a n Hh Hcap Hl) as H1. cbv zeta in H1. rewrite free_room in H1; [|done| |done].
  - destruct H1 as (p & s' & H2 & H3 & H4 & H5 & H6 & _); [lia|done|lia|done|]. exists p, s'. by split.
  - apply Forall_and. split; [by apply zones_ok_Forall|done].
Qed.

Lemma room_false l a n : 0 < n → Forall zone_ok l → Forall (λ z, 0 < len z) l → room l a n = false → ¬ free_range l a n.
Proof. intros Hn Hl Hpos Hr Hf. rewrite free_room in Hr; try done. apply Forall_and. by split. Qed.

Lemma on_page_pos n : on_page n → 0 < n → VMM_PAGE_SIZE <= n.
Proof. unfold on_page, VMM_PAGE_SIZE. intros Hn Hp. pose proof (Z.div_mod n 4096). lia. Qed.
Lemma user_end_page : on_page (USER_HIGH + 1).
Proof. exact user_high_page. Qed.
Lemma on_page_add a b : on_page a → on_page b → on_page (a + b).
Proof. unfold on_page, VMM_PAGE_SIZE. intros Ha Hb. by rewrite Z.add_mod, Ha, Hb by lia. Qed.
Lemma on_page_sub a b : on_page a → on_page b → on_page (a - b).
Proof. unfold on_page, VMM_PAGE_SIZE. intros Ha Hb. by rewrite Zminus_mod, Ha, Hb. Qed.
Lemma on_page_end z : zone_ok z → on_page (zone_end z).
Proof. intros (Hv & Hl & _). by apply on_page_add. Qed.

(** ** Properties *)

(** C23. [memzone_new_random] takes the lowest free range of user memory that has
    the pages asked for, and fails only if there is none; the zones stay good and
    apart. *)
Theorem memzone_new_random_lowest s l n : holds (zones s) l → total_capacity (zones s) < 2 ^ 26 → zones_ok l →
  Forall (λ z, 0 < len z) l → 0 < n <= USER_HIGH + 1 →
  (∃ a p s', memzone_new_random n s = Some (Some p, s') ∧ new_zone s l a (page_len n) p s' ∧
    ∀ b, free_range l b (page_len n) → a <= b) ∨
  (memzone_new_random n s = Some (None, s) ∧ ∀ b, ¬ free_range l b (page_len n)).
Proof.
  intros Hh Hcap Hl Hpos Hn. pose proof user_fits as Hu. pose proof user_kernel.
  destruct (page_len_small n) as [Hpl Hpu]; [lia..|]. destruct (page_len_ok n) as [Hpp _]; [lia|].
  pose proof (on_page_pos _ Hpp ltac:(lia)) as Hpage. unfold VMM_PAGE_SIZE in Hpage, Hpl.
  unfold memzone_new_random. set (n' := page_len n) in *. clearbody n'.
  pose proof (zones_ok_Forall l Hl) as Hok.
  destruct (room l 0 n') eqn:Hr0.
  { destruct (room_free l 0 n') as [Hfree _]; [lia|lia|done|done|].
    destruct (new_zone_at s l 0 n' Hh Hcap Hl Hpos) as (p & s' & Hs' & Hnz); [lia|done..|].
    left. exists 0, p, s'. rewrite Hs'. cbn [mbind option_bind]. split; [done|]. split; [done|]. intros b [Hb _]. lia. }
  pose proof (new_at_page s l 0 n' Hh Hcap Hl) as Hnew. cbv zeta in Hnew. rewrite Hr0 in Hnew.
  rewrite Hnew by (done || lia). cbn [mbind option_bind]. clear Hnew.
  destruct (lowest_end_spec s l n' Hh) as (m & Hm & Hmu & Hmin & Hcase); [lia|done|]. rewrite Hm. cbn [mbind option_bind].
  assert (∀ b, free_range l b n' → m <= b ∧ m ≠ USER_HIGH) as Hall.
  { intros b Hb. destruct (slide_down l b n' Hb) as (b' & Hbb & Hf & [->|(z & Hz & Hze)]); [lia|done| |].
    - exfalso. apply (room_false l 0 n'); (done || lia).
    - subst b'. assert (m <= zone_end z); [|destruct Hb as (_ & Hb & _); lia]. apply Hmin; [done|]. unfold cand_low.
      rewrite usize_small by (destruct Hf; lia). apply free_room; [lia| |done]. apply Forall_and. by split. }
  destruct (Z.eqb_spec m USER_HIGH) as [->|Hne].
  { right. split; [done|]. intros b Hb. by apply (Hall b Hb). }
  left. destruct Hcase as [|(z & Hz & Hc & ->)]; [done|]. rewrite Forall_forall in Hok.
  assert (0 < zone_end z <= USER_HIGH + 1) as Hze by (destruct (Hok z Hz) as (_ & _ & _ & _ & ?); done).
  unfold cand_low in Hc. rewrite usize_small in Hc by lia.
  destruct (room_free l (zone_end z) n') as [Hfree _]; [lia|lia|by apply Forall_forall|done|].
  destruct (new_zone_at s l (zone_end z) n' Hh Hcap Hl Hpos) as (p & s' & Hs' & Hnz); [lia|by apply on_page_end, Hok|done..|].
  exists (zone_end z), p, s'. split; [done|]. split; [done|]. intros b Hb. by apply Hall.
Qed.

(** [memzone_new_random_backward] takes the highest free range of user memory
    that has the pages asked for, and fails only if there is none. *)
Theorem memzone_new_random_backward_highest s l n : holds (zones s) l → total_capacity (zones s) < 2 ^ 26 → zones_ok l →
  Forall (λ z, 0 < len z) l → 0 < n <= USER_HIGH + 1 →
  (∃ a p s', memzone_new_random_backward n s = Some (Some p, s') ∧ new_zone s l a (page_len n) p s' ∧
    ∀ b, free_range l b (page_len n) → b <= a) ∨
  (memzone_new_random_backward n s = Some (None, s) ∧ ∀ b, ¬ free_range l b (page_len n)).
Proof.
  intros Hh Hcap Hl Hpos Hn. pose proof user_fits as Hu. pose proof user_kernel.
  destruct (page_len_small n) as [Hpl Hpu]; [lia..|]. destruct (page_len_ok n) as [Hpp _]; [lia|].
  unfold memzone_new_random_backward. set (n' := page_len n) in *. clearbody n'.
  pose proof (zones_ok_Forall l Hl) as Hok. rewrite usize_add_l.
  set (top := USER_HIGH - n' + 1). rewrite (usize_small top) by lia.
  assert (on_page top) as Htp.
  { replace top with (USER_HIGH + 1 - n') by lia. apply on_page_sub; [apply user_end_page|done]. }
  destruct (room l top n') eqn:Hr0.
  { destruct (room_free l top n') as [Hfree _]; [lia|lia|done|done|].
    destruct (new_zone_at s l top n' Hh Hcap Hl Hpos) as (p & s' & Hs' & Hnz); [lia|done..|].
    left. exists top, p, s'. rewrite Hs'. cbn [mbind option_bind]. split; [done|]. split; [done|]. intros b (_ & Hb & _). lia. }
  pose proof (new_at_page s l top n' Hh Hcap Hl) as Hnew. cbv zeta in Hnew. rewrite Hr0 in Hnew.
  rewrite Hnew by (done || lia). cbn [mbind option_bind]. clear Hnew.
  destruct (highest_start_spec s l n' Hh) as (m & Hm & Hm0 & Hmax & Hcase); [lia|done|]. rewrite Hm. cbn [mbind option_bind].
  assert (∀ b, free_range l b n' → b + n' <= m) as Hall.
  { intros b Hb. destruct (slide_up l b n' Hb) as (b' & Hbb & Hf & [->|(z & Hz & Hze)]); [lia|done| |].
    - exfalso. apply (room_false l top n'); [lia|done..|]. by replace top with (USER_HIGH + 1 - n') by lia.
    - subst b'. assert (vaddr z <= m); [|lia]. apply Hmax; [done|]. unfold cand_high.
      rewrite usize_small by (destruct Hb; lia). apply free_room; [lia| |done]. apply Forall_and. by split. }
  destruct (Z.eqb_spec m 0) as [->|Hne].
  { right. split; [done|]. intros b Hb. pose proof (Hall b Hb). destruct Hb. lia. }
  left. destruct Hcase as [|(z & Hz & Hc & ->)]; [done|]. rewrite Forall_forall in Hok.
  destruct (Hok z Hz) as (Hvp & _ & Hv & Hlz & Hze). unfold zone_end in Hze. unfold cand_high in Hc.
  assert (n' <= vaddr z) as Hnv.
  { destruct (Z.le_gt_cases n' (vaddr z)); [done|]. rewrite room_wraps in Hc by lia. done. }
  rewrite usize_small in * by lia.
  destruct (room_free l (vaddr z - n') n') as [Hfree _]; [lia|lia|by apply Forall_forall|done|].
  destruct (new_zone_at s l (vaddr z - n') n' Hh Hcap Hl Hpos) as (p & s' & Hs' & Hnz); [lia|by apply on_page_sub|done..|].
  exists (vaddr z - n'), p, s'. split; [done|]. split; [done|]. intros b Hb. pose proof (Hall b Hb). lia.
Qed.

(** ** Finding and freeing *)

Lemma find_spec v l addr : holds v l → total_capacity v < 2 ^ 29 → Forall zone_ok l →
  (∃ p i z, memzone_find_no_proc v addr = Some (Some p) ∧ get_zone v i = Some (p, z) ∧ l.[i] = Some z ∧
    vaddr z <= addr < zone_end z) ∨
  (memzone_find_no_proc v addr = Some None ∧ ∀ z, z ∈ l → ¬ (vaddr z <= addr < zone_end z)).
Proof.
  intros Hh Hcap Hok. unfold memzone_find_no_proc. pose proof user_fits. rewrite Forall_forall in Hok.
  destruct (zones_loop v l (λ l1 _, ∀ z, z ∈ l1 → ¬ (vaddr z <= addr < zone_end z))
    (λ p, ∃ i z, get_zone v i = Some (p, z) ∧ l.[i] = Some z ∧ vaddr z <= addr < zone_end z)
    (λ p zone _, Some (if (vaddr zone <=? addr) && (addr <? usize (vaddr zone + len zone)) then inr p else inl tt)) tt Hh Hcap)
    as (x & Hx & Hq).
  - intros z Hz. by apply elem_of_nil in Hz.
  - intros l1 z p u [l2 Hl] Hp HI.
    assert (z ∈ l) as Hz by (rewrite Hl; apply elem_of_app; right; by left).
    destruct (Hok z Hz) as (_ & _ & Hv & Hlz & He). change (vaddr z + len z) with (zone_end z).
    rewrite usize_small by lia. destruct (_ && _) eqn:E.
    + exists (Z.of_nat (length l1)), z. split; [done|]. split; [|lia].
      rewrite Hl, zget_lookup, Nat2Z.id by lia. by rewrite list_lookup_middle.
    + intros z' [Hz'| ->%list_elem_of_singleton]%elem_of_app; [by apply HI|lia].
  - rewrite Hx. cbn [mbind option_bind]. destruct x as [u|p]; [by right|left].
    destruct Hq as (i & z & H1 & H2 & H3). by exists p, i, z.
Qed.

(** The exchange of a zone with the last one, and the last one taken off. *)
Lemma swap_pop v l i z p : holds v l → total_capacity v < 2 ^ 28 → l.[i] = Some z → get_zone v i = Some (p, z) →
  ∃ q v1 v2 l', dynarr_get v (s32 (usize (v_size v - 1))) = Some q ∧ _proc_swap_zones p q v = Some v1 ∧
    dynarr_pop v1 = Some (0, v2) ∧ holds v2 l' ∧ l ≡ₚ z :: l' ∧ total_capacity v1 = total_capacity v.
Proof.
  intros Hh Hcap Hi Hp. pose proof (zget_Some _ _ _ Hi) as Hr. pose proof Hh as (_ & _ & Hn & _).
  pose proof (holds_length v l Hh) as Hlen. pose proof ptr_bits_ge.
  rewrite Hn, usize_small, s32_small by lia.
  destruct (get_zone_spec v l i z Hh) as ([j k] & Hp' & Hg & Hat); [lia|done|]. rewrite Hp in Hp'. injection Hp' as ->.
  destruct (zget_is_Some l (Z.of_nat (length l) - 1)) as [e He]; [lia|].
  destruct (get_zone_spec v l (Z.of_nat (length l) - 1) e Hh) as ([j' k'] & Hq & Hgq & Hatq); [lia|exact He|].
  cbn [fst snd] in *. exists (j', k'). unfold _proc_swap_zones.
  rewrite (slot_spec v l j k i), (slot_spec v l j' k' (Z.of_nat (length l) - 1)) by (done || lia).
  rewrite Hi, He. cbn [mbind option_bind fst snd].
  destruct (bucket_write_spec v l j k i e Hh Hat Hr) as (v1 & -> & Hh1 & Hc1 & _ & Hcaps & _). cbn [mbind option_bind].
  assert (bucket_at (buckets v1) j' k' (Z.of_nat (length l) - 1)) as Hat1.
  { apply (bucket_at_caps (buckets v)); [apply Hh1|done|done]. }
  destruct (bucket_write_spec v1 _ j' k' _ z Hh1 Hat1) as (v2 & -> & Hh2 & Hc2 & _); [rewrite length_insert; lia|].
  replace (Z.to_nat (Z.of_nat (length l) - 1)) with (length l - 1)%nat in * by lia.
  rewrite zget_lookup in Hi, He by lia. replace (Z.to_nat (Z.of_nat (length l) - 1)) with (length l - 1)%nat in He by lia.
  remember (length l - 1)%nat as n1 eqn:Hn1.
  assert (∃ l0, l = l0 ++ [e]) as [l0 ->].
  { exists (take n1 l). rewrite <- (take_drop_middle l n1 e He) at 1. f_equal.
    replace (Datatypes.S n1) with (length l) by lia. by rewrite drop_all. }
  rewrite length_app in *. simpl in *. replace n1 with (length l0) in * by lia.
  assert (<[length l0 := z]> (<[Z.to_nat i := e]> (l0 ++ [e])) = <[Z.to_nat i := e]> l0 ++ [z]) as Hl'.
  { destruct (decide (Z.to_nat i = length l0)) as [Heqi|Hne].
    - rewrite Heqi, list_insert_insert_eq, insert_app_r_alt, Nat.sub_diag by lia. simpl. by rewrite list_insert_ge by lia.
    - rewrite insert_app_l, insert_app_r_alt by (rewrite ?length_insert; lia). rewrite length_insert, Nat.sub_diag. done. }
  rewrite Hl' in Hh2. destruct (pop_spec v2 _ z Hh2) as (v3 & Hv3 & Hh3 & _); [lia|].
  exists v2, v3, (<[Z.to_nat i := e]> l0). split; [done|]. split; [done|]. split; [done|]. split; [done|].
  split; [|lia]. destruct (decide (Z.to_nat i = length l0)) as [Heqi|Hne].
  - rewrite list_insert_ge by lia. rewrite Heqi, list_lookup_middle in Hi by done. injection Hi as ->.
    by rewrite Permutation_app_comm.
  - rewrite lookup_app_l in Hi by lia. pose proof (take_drop_middle l0 _ z Hi) as Hmid.
    rewrite <- Hmid at 1. rewrite insert_take_drop by lia. rewrite <- !app_assoc. simpl.
    rewrite <- Permutation_middle. constructor. by rewrite (Permutation_app_comm (drop _ _)).
Qed.

(** How many zones map a file; its count is at least that. *)
Definition file_refs (l : list memzone_t) (f : Z) : Z := Z.of_nat (length (filter (λ z, file z = Some f) l)).
Definition files_ok (counts : gmap Z Z) (l : list memzone_t) : Prop :=
  ∀ f, 0 < file_refs l f → ∃ c, counts !! f = Some c ∧ file_refs l f <= c.

#[global] Instance file_refs_perm : Proper (Permutation ==> eq ==> eq) file_refs.
Proof. intros l l' Hp f _ <-. unfold file_refs. by rewrite Hp. Qed.

Lemma file_refs_cons z l f : file_refs (z :: l) f = file_refs l f + if decide (file z = Some f) then 1 else 0.
Proof. unfold file_refs. rewrite filter_cons. case_decide; cbn [length]; lia. Qed.

(** The release of the file that a zone maps. *)
Lemma put_file s z l : files_ok (file_counts s) (z :: l) →
  ∃ s', (match file z with None => Some s | Some f => file_put f s end) = Some s' ∧ zones s' = zones s ∧
    files_ok (file_counts s') l.
Proof.
  intros Hf. destruct (file z) as [f|] eqn:E.
  - assert (∀ f', file_refs (z :: l) f' = file_refs l f' + if decide (f = f') then 1 else 0) as Hr.
    { intros f'. rewrite file_refs_cons, E. repeat case_decide; congruence || lia. }
    destruct (Hf f) as (c & Hc & Hle); [rewrite Hr, decide_True by done; unfold file_refs; lia|].
    rewrite Hr, decide_True in Hle by done. assert (0 <= file_refs l f) by (unfold file_refs; lia).
    unfold file_put. rewrite Hc. cbn [mbind option_bind]. replace (0 <? c) with true by lia. cbn [negb].
    eexists. split; [done|]. split; [done|]. intros f' Hf'. cbn [file_counts].
    destruct (decide (f = f')) as [<-|Hne].
    + destruct (Z.eqb_spec (c - 1) 0); [lia|]. exists (c - 1). rewrite lookup_insert_eq. split; [done|lia].
    + destruct (Hf f') as (c' & Hc' & Hle'); [rewrite Hr, decide_False by done; lia|].
      rewrite Hr, decide_False in Hle' by done. exists c'. split; [|lia].
      by destruct (c - 1 =? 0); [rewrite lookup_delete_ne|rewrite lookup_insert_ne].
  - exists s. split; [done|]. split; [done|]. intros f Hpos. destruct (Hf f) as (c & Hc & Hle).
    + by rewrite file_refs_cons, decide_False, Z.add_0_r by congruence.
    + rewrite file_refs_cons, decide_False in Hle by congruence. exists c. split; [done|lia].
Qed.

(** A zone is freed through its pointer; any other pointer is refused. *)
Lemma free_spec s l p : holds (zones s) l → total_capacity (zones s) < 2 ^ 28 → files_ok (file_counts s) l →
  (∃ z i l' s', memzone_free p s = Some (0, s') ∧ get_zone (zones s) i = Some (p, z) ∧ l.[i] = Some z ∧
    holds (zones s') l' ∧ l ≡ₚ z :: l' ∧ files_ok (file_counts s') l') ∨
  (memzone_free p s = Some (- EALREADY, s) ∧ ∀ i z, l.[i] = Some z → get_zone (zones s) i ≠ Some (p, z)).
Proof.
  intros Hh Hcap Hf. unfold memzone_free, memzone_free_no_proc.
  destruct (zones_loop (zones s) l
    (λ l1 _, ∀ i z, 0 <= i < Z.of_nat (length l1) → get_zone (zones s) i ≠ Some (p, z))
    (λ q, q = p ∧ ∃ i z, get_zone (zones s) i = Some (p, z) ∧ l.[i] = Some z)
    (λ q _ _, Some (if bool_decide (q = p) then inr q else inl tt)) tt Hh) as (x & Hx & Hq); [lia| | |].
  - intros i z Hi. simpl in Hi. lia.
  - intros l1 z q u [l2 Hl] Hp HI. case_bool_decide as Hd.
    + split; [done|]. subst q. exists (Z.of_nat (length l1)), z. split; [done|].
      rewrite Hl, zget_lookup, Nat2Z.id by lia. by rewrite list_lookup_middle.
    + intros i z' Hi. rewrite length_app in Hi. simpl in Hi.
      destruct (decide (i = Z.of_nat (length l1))) as [->|]; [congruence|apply HI; lia].
  - rewrite Hx. cbn [mbind option_bind]. destruct x as [u|q].
    + right. split; [done|]. intros i z Hi. apply Hq. by apply zget_Some in Hi.
    + destruct Hq as [-> (i & z & Hp & Hi)]. left. pose proof (zget_Some _ _ _ Hi) as Hr.
      destruct (get_zone_spec (zones s) l i z Hh) as ([j k] & Hp' & _ & Hat); [lia|done|].
      rewrite Hp in Hp'. injection Hp' as ->. rewrite (slot_spec _ l j k i Hh Hat Hr), Hi. cbn [mbind option_bind].
      destruct (swap_pop (zones s) l i z (j, k) Hh Hcap Hi Hp) as (q & v1 & v2 & l' & Hg & Hsw & Hpop & Hh' & Hperm & _).
      destruct (put_file s z l') as (s1 & -> & Hz1 & Hf1).
      { intros f Hpos. rewrite <- Hperm in Hpos. destruct (Hf f Hpos) as (c & Hc & Hle). exists c. by rewrite <- Hperm. }
      cbn [mbind option_bind]. rewrite Hz1, Hg. cbn [mbind option_bind]. rewrite Hsw. cbn [mbind option_bind].
      rewrite Hpop. exists z, i, l'. eexists. split; [done|]. split; [done|]. split; [done|]. cbn [zones file_counts]. done.
Qed.

(** [memzone_split] never splits: the test of the address leaves only the start of
    the zone, and there the new zone meets the old one. *)
Lemma split_spec s l p i z addr : holds (zones s) l → total_capacity (zones s) < 2 ^ 26 → zones_ok l →
  l.[i] = Some z → get_zone (zones s) i = Some (p, z) → 0 <= addr < 2 ^ ptr_bits →
  memzone_split p addr s = Some (None, s).
Proof.
  intros Hh Hcap Hl Hi Hp Haddr. pose proof (zget_Some _ _ _ Hi) as Hr.
  destruct (get_zone_spec (zones s) l i z Hh) as ([j k] & Hp' & _ & Hat); [lia|done|].
  rewrite Hp in Hp'. injection Hp' as ->. cbn [fst snd] in Hat. unfold memzone_split. rewrite on_page_floor by done.
  set (a := addr - addr mod VMM_PAGE_SIZE). rewrite (slot_spec _ l j k i Hh Hat Hr), Hi. cbn [mbind option_bind].
  destruct (Z.leb_spec (len z) VMM_PAGE_SIZE) as [|Hlen]; [done|]. destruct (_pzones_addr_inside z a); cbn [negb]; [|done].
  destruct (Z.eqb_spec (vaddr z) a) as [Ha|]; cbn [negb]; [|done].
  pose proof (zones_ok_Forall l Hl) as Hok. rewrite Forall_forall in Hok.
  destruct (Hok z) as (Hvp & Hlp & Hv & Hlz & He).
  { apply list_elem_of_lookup. exists (Z.to_nat i). by rewrite zget_lookup in Hi by lia. }
  unfold zone_end in He. pose proof user_fits. rewrite <- Ha, Z.sub_diag, (usize_small 0), Z.sub_0_r, (usize_small (len z)) by lia.
  set (z0 := mk_memzone (vaddr z) 0 (mmu_flags z) (type z) (file z) (file_offset z) (file_size z) (ops z)).
  cbn [fst snd]. destruct (bucket_write_spec (zones s) l j k i z0 Hh Hat Hr) as (v & Hv1 & Hh1 & Hc1 & _ & _ & Hback).
  rewrite Hv1. cbn [mbind option_bind]. unfold memzone_new.
  rewrite on_page_floor, low_bits by lia. unfold on_page in Hvp, Hlp. rewrite Hvp, Z.add_0_r, Z.sub_0_r, usize_small by lia.
  rewrite page_len_id by done. rewrite (can_add_spec _ (<[Z.to_nat i := z0]> l)) by (cbn [zones]; (done || lia)).
  assert (room (<[Z.to_nat i := z0]> l) (vaddr z) (len z) = false) as ->.
  { unfold room. apply andb_false_iff. right. apply not_true_is_false. rewrite forallb_forall. intros Hall.
    specialize (Hall z0). rewrite <- list_elem_of_In in Hall. specialize (Hall ltac:(apply list_elem_of_lookup; exists (Z.to_nat i);
      apply list_lookup_insert_eq; lia)). apply negb_true_iff in Hall. unfold _pzones_intersect in Hall. cbn [z0 vaddr len] in Hall.
    unfold VMM_PAGE_SIZE in Hlen. rewrite (end_small (vaddr z) (len z)) in Hall by lia. lia. }
  cbn [mbind option_bind negb zones file_counts]. 
  replace (mk_memzone (vaddr z) (len z) _ _ _ _ _ _) with z by by destruct z. rewrite (Hback z Hi). by destruct s.
Qed.

(** ** Runs *)

Inductive zone_op :=
  | New (start n : Z)
  | Random (n : Z)
  | Backward (n : Z)
  | Split (p : Z * Z) (addr : Z)
  | Free (p : Z * Z).

Definition do_op (op : zone_op) (s : vm_address_space_t) : option vm_address_space_t :=
  match op with
  | New start n => '(_, s) ← memzone_new start n s; Some s
  | Random n => '(_, s) ← memzone_new_random n s; Some s
  | Backward n => '(_, s) ← memzone_new_random_backward n s; Some s
  | Split p addr => '(_, s) ← memzone_split p addr s; Some s
  | Free p => '(_, s) ← memzone_free p s; Some s
  end.

(** Arguments are of their types, and a zone that is split is one of the zones. *)
Definition op_ok (s : vm_address_space_t) (op : zone_op) : Prop :=
  let size x := 0 <= x < 2 ^ ptr_bits in
  match op with
  | New start n => size start ∧ size n
  | Random n | Backward n => size n
  | Split p addr => size addr ∧ ∃ i z, 0 <= i < v_size (zones s) ∧ get_zone (zones s) i = Some (p, z)
  | Free p => True
  end.

(** The kernel heap has no room for an array of this many zones. *)
Definition array_fits (s : vm_address_space_t) : Prop := total_capacity (zones s) < 2 ^ 26.

Inductive zone_step : vm_address_space_t → vm_address_space_t → Prop :=
  | zone_step_op op s s' : array_fits s → op_ok s op → do_op op s = Some s' → zone_step s s'.

Definition aspace_ok (s : vm_address_space_t) (l : list memzone_t) : Prop :=
  holds (zones s) l ∧ zones_ok l ∧ files_ok (file_counts s) l.

Lemma file_refs_new l z f : file z = None → file_refs (l ++ [z]) f = file_refs l f.
Proof.
  intros Hz. rewrite (Permutation_app_comm l). cbn [app]. rewrite file_refs_cons, Hz, decide_False by done. lia.
Qed.

Lemma new_keeps s l a n : aspace_ok s l → array_fits s → 0 <= a < 2 ^ ptr_bits → 0 <= n < 2 ^ ptr_bits →
  ∃ r s' l', memzone_new a n s = Some (r, s') ∧ aspace_ok s' l' ∧ (r = None → s' = s).
Proof.
  intros (Hh & Hl & Hf) Hcap Ha Hn. pose proof (memzone_new_spec s l a n Hh Hcap Hl Ha Hn) as H1. cbv zeta in H1.
  destruct (room _ _ _).
  - destruct H1 as (p & s' & H1 & Hh' & Hl' & _ & Hc' & _). eexists _, s', _. split; [done|]. split; [|done].
    split; [done|]. split; [done|]. rewrite Hc'. intros f. rewrite file_refs_new by done. apply Hf.
  - exists None, s, l. split; [done|]. by split; [split|].
Qed.

Lemma op_keeps s l op : aspace_ok s l → array_fits s → op_ok s op → ∃ s' l', do_op op s = Some s' ∧ aspace_ok s' l'.
Proof.
  intros Hs Hcap Hop. pose proof Hs as (Hh & Hl & Hf). pose proof user_fits. unfold array_fits in Hcap.
  pose proof (zones_ok_Forall l Hl) as Hok. pose proof user_kernel.
  destruct op as [a n|n|n|p addr|p]; cbn [do_op op_ok] in *.
  - destruct Hop as [Ha Hn]. destruct (new_keeps s l a n Hs Hcap Ha Hn) as (r & s' & l' & -> & Hs' & _). eauto.
  - destruct (page_len_ok n Hop) as [_ Hn]. unfold memzone_new_random.
    destruct (new_keeps s l 0 (page_len n) Hs Hcap) as ([p|] & s' & l' & -> & Hs' & Hsame); [lia|done|cbn; eauto|].
    rewrite (Hsame eq_refl). cbn [mbind option_bind].
    destruct (lowest_end_spec s l (page_len n) Hh) as (m & -> & Hm & _ & Hcase); [lia|done|]. cbn [mbind option_bind].
    destruct (m =? USER_HIGH); [cbn; eauto|].
    destruct (new_keeps s l m (page_len n) Hs Hcap) as (r & s2 & l2 & -> & Hs2 & _); [|done|cbn; eauto].
    destruct Hcase as [->|(z & Hz & _ & ->)]; [lia|]. rewrite Forall_forall in Hok. destruct (Hok z Hz) as (_ & _ & _ & _ & ?). lia.
  - destruct (page_len_ok n Hop) as [_ Hn]. unfold memzone_new_random_backward.
    destruct (new_keeps s l (usize (usize (USER_HIGH - page_len n) + 1)) (page_len n) Hs Hcap)
      as ([p|] & s' & l' & -> & Hs' & Hsame); [apply usize_range|done|cbn; eauto|].
    rewrite (Hsame eq_refl). cbn [mbind option_bind].
    destruct (highest_start_spec s l (page_len n) Hh) as (m & -> & _); [lia|done|]. cbn [mbind option_bind].
    destruct (m =? 0); [cbn; eauto|].
    destruct (new_keeps s l (usize (m - page_len n)) (page_len n) Hs Hcap) as (r & s2 & l2 & -> & Hs2 & _);
      [apply usize_range|done|cbn; eauto].
  - destruct Hop as [Ha (i & z & Hi & Hp)]. pose proof Hh as (_ & _ & Hn & _). rewrite Hn in Hi.
    destruct (zget_is_Some l i Hi) as [z' Hz']. destruct (get_zone_spec (zones s) l i z' Hh) as (q & Hq & _); [lia|done|].
    rewrite Hp in Hq. injection Hq as <- <-.
    rewrite (split_spec s l p i z addr Hh Hcap Hl Hz' Hp Ha). cbn. by exists s, l.
  - destruct (free_spec s l p Hh) as [(z & i & l' & s' & -> & _ & _ & Hh' & Hperm & Hf')|[-> _]]; [lia|done| |cbn; eauto].
    exists s', l'. split; [done|]. split; [done|]. split; [|done]. rewrite Hperm in Hl. by destruct Hl as (_ & _ & Hl).
Qed.

(** C21. Whatever zones a process makes, looks for, splits and frees, its zones stay
    whole pages of user memory and no two share an address; every file has at
    least as many references as zones that map it; and no operation goes wrong. *)
Theorem memzone_zones_disjoint s l s' : aspace_ok s l → rtc zone_step s s' →
  ∃ l', holds (zones s') l' ∧ zones_ok l' ∧ files_ok (file_counts s') l' ∧
    ∀ op, array_fits s' → op_ok s' op → ∃ s'', do_op op s' = Some s''.
Proof.
  intros Hs Hsteps. assert (∃ l', aspace_ok s' l') as (l' & Hs').
  { revert l Hs. induction Hsteps as [s|s s1 s2 Hstep _ IH]; intros l Hs; [by exists l|].
    destruct Hstep as [op s s1 Hcap Hop Hdo].
    destruct (op_keeps s l op Hs Hcap Hop) as (s1' & l1 & Hdo' & Hs1). rewrite Hdo in Hdo'. injection Hdo' as <-. by apply (IH l1). }
  exists l'. pose proof Hs' as (H1 & H2 & H3). split; [done|]. split; [done|]. split; [done|]. intros op Hcap Hop.
  destruct (op_keeps s' l' op Hs' Hcap Hop) as (s'' & _ & Hdo & _). by exists s''.
Qed.

(** The zone of an address is found, and a zone is freed through the pointer to
    it and only so. Looking never finds a zone that does not hold the address, and
    splitting a zone never succeeds and changes nothing. *)
Theorem memzone_find_free_split s l p addr : aspace_ok s l → array_fits s → 0 <= addr < 2 ^ ptr_bits →
  (∃ r, memzone_find (Some s) addr = Some r ∧
    match r with
    | Some q => ∃ i z, get_zone (zones s) i = Some (q, z) ∧ z ∈ l ∧ vaddr z <= addr < zone_end z
    | None => ∀ z, z ∈ l → ¬ (vaddr z <= addr < zone_end z)
    end) ∧
  (∀ i z, l.[i] = Some z → get_zone (zones s) i = Some (p, z) →
    memzone_split p addr s = Some (None, s) ∧
    ∃ s' l', memzone_free p s = Some (0, s') ∧ holds (zones s') l' ∧ l ≡ₚ z :: l').
Proof.
  intros (Hh & Hl & Hf) Hcap Ha. unfold array_fits in Hcap. split.
  - cbn [memzone_find]. destruct (find_spec (zones s) l addr Hh) as [(q & i & z & -> & Hq & Hi & Hz)|[-> Hno]];
      [lia|by apply zones_ok_Forall| |by eexists].
    eexists. split; [done|]. exists i, z. split; [done|]. split; [|done]. pose proof (zget_Some _ _ _ Hi).
    rewrite zget_lookup in Hi by lia. by eapply list_elem_of_lookup_2.
  - intros i z Hi Hp. split; [by apply (split_spec s l p i z)|].
    destruct (free_spec s l p Hh) as [(z' & i' & l' & s' & Hfree & Hp' & Hi' & Hh' & Hperm & _)|[_ Hno]];
      [lia|done| |by destruct (Hno i z Hi)].
    assert (z' = z) as ->; [|by exists s', l'].
    unfold get_zone in *. destruct (dynarr_get _ (s32 i)) as [q|]; [|done]. destruct (dynarr_get _ (s32 i')) as [q'|]; [|done].
    cbn [mbind option_bind] in *. destruct (slot (zones s) q) eqn:E; [|done]. destruct (slot (zones s) q') eqn:E'; [|done].
    cbn [mbind option_bind] in *. congruence.
Qed.
End memzone.

(** ** Examples *)

(** The guard page at 0, a mapped file and a zone for code. *)
Definition example_zones : list memzone_t :=
  [mk_memzone 0 4096 16 0 None 0 0 None; mk_memzone 8192 8192 16 64 (Some 7) 0 100 None].
Definition example_aspace : vm_address_space_t :=
  mk_aspace (mk_dynarr [mk_bucket ((Some <$> example_zones) ++ replicate 6 None) 8 2] 2) {[ 7 := 1 ]}.

Lemma example_aspace_ok : @aspace_ok x86 example_aspace example_zones.
Proof.
  split; [|split].
  - split; [by repeat constructor|]. split; [by vm_compute|]. split; [done|]. by exists (replicate 6 None).
  - assert (∀ z, z ∈ example_zones → @zone_ok x86 z) as Hok.
    { intros z [-> |[-> |Hz%elem_of_nil]%elem_of_cons]%elem_of_cons; [..|done]; vm_compute; intuition discriminate. }
    split; [apply Hok; by left|]. split; [|split; [apply Hok; right; by left|done]].
    constructor; [|constructor]. left. vm_compute. discriminate.
  - intros f Hf. unfold example_zones in *. rewrite !file_refs_cons in *. cbn [file] in *.
    change (file_refs [] f) with 0 in *. rewrite (decide_False (P := None = Some f)) in * by done.
    case_decide as Hd; [injection Hd as <-|lia]. by exists 1.
Qed.

Lemma example_zones_positive : Forall (λ z, 0 < len z) example_zones.
Proof. repeat constructor. Qed.

(** Two pages do not fit between the zones. *)
Lemma memzone_new_random_lowest_witness : ∃ p s',
  @memzone_new_random x86 8000 example_aspace = Some (Some p, s') ∧ @new_zone x86 example_aspace example_zones 16384 8192 p s'.
Proof.
  destruct example_aspace_ok as (Hh & Hl & _).
  destruct (@memzone_new_random_lowest x86 example_aspace example_zones 8000 Hh) as [(a & p & s' & Hs' & Hnz & Hmin)|[_ Hno]];
    [done|done|exact example_zones_positive|cbn; lia| |].
  - exists p, s'. split; [done|]. assert (a = 16384) as <-; [|exact Hnz].
    pose proof (nz_free _ _ _ _ _ _ Hnz) as (Ha & _ & Hz).
    pose proof (Hz _ (list_elem_of_here _ _)) as H0. pose proof (Hz _ (list_elem_of_further _ _ _ (list_elem_of_here _ _))) as H1.
    unfold zone_end in *. cbn in H0, H1. change (@page_len x86 8000) with 8192 in *.
    assert (a <= 16384); [|lia]. apply Hmin. split; [lia|]. split; [cbn; lia|].
    unfold zone_end. intros z [-> |[-> |Hz'%elem_of_nil]%elem_of_cons]%elem_of_cons; cbn; [lia|lia|done].
  - exfalso. apply (Hno 16384). split; [lia|]. split; [vm_compute; discriminate|]. change (@page_len x86 8000) with 8192.
    unfold zone_end. intros z [-> |[-> |Hz'%elem_of_nil]%elem_of_cons]%elem_of_cons; cbn; [lia|lia|done].
Defined.

Lemma memzone_new_random_backward_highest_witness : ∃ p s',
  @memzone_new_random_backward x86 8000 example_aspace = Some (Some p, s') ∧
  @new_zone x86 example_aspace example_zones 3221217280 8192 p s'.
Proof.
  destruct example_aspace_ok as (Hh & Hl & _).
  destruct (@memzone_new_random_backward_highest x86 example_aspace example_zones 8000 Hh) as [(a & p & s' & Hs' & Hnz & Hmax)|[_ Hno]];
    [done|done|exact example_zones_positive|cbn; lia| |].
  - exists p, s'. split; [done|]. assert (a = 3221217280) as <-; [|exact Hnz].
    pose proof (nz_free _ _ _ _ _ _ Hnz) as (Ha & Hu & _). change (@page_len x86 8000) with 8192 in *. cbn in Hu.
    assert (3221217280 <= a); [|lia]. apply Hmax. split; [lia|]. split; [cbn; lia|].
    unfold zone_end. intros z [-> |[-> |Hz'%elem_of_nil]%elem_of_cons]%elem_of_cons; cbn; [lia|lia|done].
  - exfalso. apply (Hno 16384). split; [lia|]. split; [vm_compute; discriminate|]. change (@page_len x86 8000) with 8192.
    unfold zone_end. intros z [-> |[-> |Hz'%elem_of_nil]%elem_of_cons]%elem_of_cons; cbn; [lia|lia|done].
Defined.

(** Three operations, the last of which frees the mapped file's zone. *)
Definition example_after : option vm_address_space_t :=
  s ← @do_op x86 (New 5000 10) example_aspace; s ← @do_op x86 (Backward 100000) s; @do_op x86 (Free (0, 1)) s.

Lemma example_after_steps : ∃ s', example_after = Some s' ∧ rtc (@zone_step x86) example_aspace s' ∧ file_counts s' = ∅.
Proof.
  eexists. split; [vm_compute; reflexivity|]. split; [|reflexivity].
  eapply rtc_l; [apply (@zone_step_op x86 (New 5000 10)); [done|cbn; lia|vm_compute; reflexivity]|].
  eapply rtc_l; [apply (@zone_step_op x86 (Backward 100000)); [done|cbn; lia|vm_compute; reflexivity]|].
  eapply rtc_l; [apply (@zone_step_op x86 (Free (0, 1))); [done|done|vm_compute; reflexivity]|].
  apply rtc_refl.
Qed.

Lemma memzone_zones_disjoint_witness : ∃ s' l', example_after = Some s' ∧ holds (zones s') l' ∧ @zones_ok x86 l' ∧
  file_counts s' = ∅.
Proof.
  destruct example_after_steps as (s' & He & Hs & Hf).
  destruct (@memzone_zones_disjoint x86 example_aspace example_zones s' example_aspace_ok Hs) as (l' & Hh & Hl & _).
  exists s', l'. done.
Defined.

Lemma memzone_find_free_split_witness :
  (∃ q z, @memzone_find x86 (Some example_aspace) 9000 = Some (Some q) ∧ z ∈ example_zones ∧ vaddr z <= 9000 < zone_end z) ∧
  @memzone_split x86 (0, 1) 12288 example_aspace = Some (None, example_aspace) ∧
  ∃ s', @memzone_free x86 (0, 1) example_aspace = Some (0, s').
Proof.
  destruct (@memzone_find_free_split x86 example_aspace example_zones (0, 1) 9000 example_aspace_ok) as [(r & Hr & Hcase) _];
    [done|cbn; lia|].
  destruct (@memzone_find_free_split x86 example_aspace example_zones (0, 1) 12288 example_aspace_ok) as [_ H];
    [done|cbn; lia|].
  destruct (H 1 (mk_memzone 8192 8192 16 64 (Some 7) 0 100 None)) as [Hs (s' & l' & Hf & _)]; [done|done|].
  split; [|split; [exact Hs|by exists s']]. destruct r as [q|].
  - destruct Hcase as (i & z & _ & Hz). by exists q, z.
  - exfalso. apply (Hcase (mk_memzone 8192 8192 16 64 (Some 7) 0 100 None)); [right; by left|]. unfold zone_end. cbn. lia.
Defined.

(** The length wraps around before it is checked: a zone of one page for a request
    of almost 4 GiB. *)
Example memzone_new_wraps : ∃ p s', @memzone_new x86 0x100800 0xffffff00 example_aspace = Some (Some p, s') ∧
  option_map len (slot (zones s') p) = Some 4096.
Proof. eexists _, _. split; [vm_compute; reflexivity|reflexivity]. Qed.
