(* ===== verification/Mmu64.v ===== *)
(** * Mmu64: the entries of the x86_64 page tables

    [platform/x86/x86_64/vmm/mmu.c] with the flags of [mem/bits/mmu.h] and the
    levels of [mem/bits/vm.h]. An entry is a 64-bit word; a function that
    updates [*entity] returns the new word. A level is a [nat], 0 for the
    tables of pages and 3 for the page directory. What the processor makes of
    an entry is stated beside it, from the paging structures it documents: bits
    12 to 51 are the frame, bit 0 is present, 1 writable, 2 user, 7 huge. *)
From stdpp Require Import relations.
From S2P Require Import Prelude Platform Pmm.

(** ** Flags *)

Definition MMU_FLAG_PERM_WRITE : Z := Z.shiftl 1 0.
Definition MMU_FLAG_PERM_READ : Z := Z.shiftl 1 1.
Definition MMU_FLAG_PERM_EXEC : Z := Z.shiftl 1 2.
Definition MMU_FLAG_UNCACHED : Z := Z.shiftl 1 3.
Definition MMU_FLAG_HUGE_PAGE : Z := Z.shiftl 1 7.

Definition MMU_PF_INFO_ON_NOT_PRESENT : Z := Z.shiftl 1 0.
Definition MMU_PF_INFO_ON_WRITE : Z := Z.shiftl 1 1.
Definition MMU_PF_INFO_ON_NONPRIV_ACCESS : Z := Z.shiftl 1 2.

Inductive ptable_state_t := PTABLE_ENTITY_PRESENT | PTABLE_ENTITY_INVALID | PTABLE_ENTITY_ALLOC.
#[global] Instance ptable_state_eq_dec : EqDecision ptable_state_t.
Proof. solve_decision. Defined.

Definition FRAME_OFFSET : Z := 12.

(** [SET_FLAGS] and [SET_OP] with an or-assignment. *)
Definition set_flags (flags f : Z) (acc af : Z) : Z := if TEST_FLAG flags f then Z.lor acc af else acc.

(** ** Operations *)

Definition clear_arch_flags (entity : Z) : Z :=
  let entity := Z.land entity (u64 (Z.lnot (Z.shiftl 1 FRAME_OFFSET - 1))) in
  Z.land entity (Z.shiftl 1 52 - 1).

Definition vm_ptable_entity_set_default_flags (entity : Z) (lv : nat) : Z := 0.
Definition vm_ptable_entity_allocated (entity : Z) (lv : nat) : Z := 0.
Definition vm_ptable_entity_invalidate (entity : Z) (lv : nat) : Z := 0.

Definition terminating_page_common_mmu_to_arch_flags (mmu_flags : Z) : Z :=
  let arch_flags := 0 in
  let arch_flags := set_flags mmu_flags MMU_FLAG_PERM_WRITE arch_flags (Z.shiftl 1 1) in
  let arch_flags := set_flags mmu_flags MMU_FLAG_NONPRIV arch_flags (Z.shiftl 1 2) in
  set_flags mmu_flags MMU_FLAG_UNCACHED arch_flags (Z.shiftl 1 4).

Definition vm_mmu_to_arch_flags (mmu_flags : Z) (lv : nat) : Z :=
  let arch_flags := vm_ptable_entity_set_default_flags 0 lv in
  match lv with
  | 0%nat =>
      let arch_flags := set_flags mmu_flags MMU_FLAG_PERM_READ arch_flags 1 in
      Z.lor arch_flags (terminating_page_common_mmu_to_arch_flags mmu_flags)
  | 1%nat | 2%nat =>
      if TEST_FLAG mmu_flags MMU_FLAG_HUGE_PAGE then
        let arch_flags := set_flags mmu_flags MMU_FLAG_PERM_READ arch_flags 1 in
        let arch_flags := Z.lor arch_flags (Z.shiftl 1 7) in
        Z.lor arch_flags (terminating_page_common_mmu_to_arch_flags mmu_flags)
      else set_flags mmu_flags MMU_FLAG_PERM_READ arch_flags 7
  | 3%nat => set_flags mmu_flags MMU_FLAG_PERM_READ arch_flags 7
  | _ => arch_flags
  end.

Definition terminating_page_common_arch_to_mmu_flags (entity : Z) : Z :=
  let mmu_flags := 0 in
  let mmu_flags := set_flags entity (Z.shiftl 1 0) mmu_flags MMU_FLAG_PERM_READ in
  let mmu_flags := set_flags entity (Z.shiftl 1 1) mmu_flags MMU_FLAG_PERM_WRITE in
  let mmu_flags := set_flags entity (Z.shiftl 1 2) mmu_flags MMU_FLAG_NONPRIV in
  set_flags entity (Z.shiftl 1 4) mmu_flags MMU_FLAG_UNCACHED.

(** The case of the tables: what the entry of an inner table reads as. *)
Definition vm_arch_to_mmu_flags (entity : Z) (lv : nat) : Z :=
  let inner :=
    Z.lor (set_flags entity (Z.shiftl 1 0) 0 MMU_FLAG_PERM_READ)
          (Z.lor MMU_FLAG_PERM_WRITE MMU_FLAG_NONPRIV) in
  match lv with
  | 0%nat => Z.lor 0 (terminating_page_common_arch_to_mmu_flags entity)
  | 1%nat | 2%nat =>
      if TEST_FLAG entity (Z.shiftl 1 7)
      then Z.lor (Z.lor 0 MMU_FLAG_HUGE_PAGE) (terminating_page_common_arch_to_mmu_flags entity)
      else inner
  | 3%nat => inner
  | _ => 0
  end.

Definition vm_arch_parse_pf_info (info : Z) : Z :=
  let res := 0 in
  let res := if Z.land info 4 =? 4 then Z.lor res MMU_PF_INFO_ON_NONPRIV_ACCESS else res in
  let res := if Z.land info 2 =? 2 then Z.lor res MMU_PF_INFO_ON_WRITE else res in
  if Z.land info 1 =? 0 then Z.lor res MMU_PF_INFO_ON_NOT_PRESENT else res.

Definition vm_ptable_entity_state (entity : Z) (lv : nat) : ptable_state_t :=
  match lv with
  | 0%nat | 1%nat | 2%nat | 3%nat =>
      if TEST_FLAG entity (Z.shiftl 1 0) then PTABLE_ENTITY_PRESENT else PTABLE_ENTITY_INVALID
  | _ => PTABLE_ENTITY_INVALID
  end.

Definition vm_ptable_entity_set_mmu_flags (entity : Z) (lv : nat) (mmu_flags : Z) : Z :=
  let old_mmu_flags := Z.lor (vm_arch_to_mmu_flags entity lv) mmu_flags in
  let arch_flags := vm_mmu_to_arch_flags old_mmu_flags lv in
  Z.lor (clear_arch_flags entity) arch_flags.

Definition vm_ptable_entity_rm_mmu_flags (entity : Z) (lv : nat) (mmu_flags : Z) : Z :=
  let old_mmu_flags := Z.land (vm_arch_to_mmu_flags entity lv) (u32 (Z.lnot mmu_flags)) in
  let arch_flags := vm_mmu_to_arch_flags old_mmu_flags lv in
  Z.lor (clear_arch_flags entity) arch_flags.

Definition vm_ptable_entity_set_frame (entity : Z) (lv : nat) (frame : Z) : Z :=
  let entity := Z.land entity (Z.shiftl 1 FRAME_OFFSET - 1) in
  let frame := Z.shiftr frame FRAME_OFFSET in
  Z.lor entity (u64 (Z.shiftl frame FRAME_OFFSET)).

Definition vm_ptable_entity_get_frame (entity : Z) (lv : nat) : Z :=
  u64 (Z.shiftl (Z.shiftr entity FRAME_OFFSET) FRAME_OFFSET).

(** The entry behind a pointer that is not null. *)
Definition vm_ptable_entity_is_present (entity : Z) (lv : nat) : bool :=
  bool_decide (vm_ptable_entity_state entity lv = PTABLE_ENTITY_PRESENT).

Definition vm_ptable_entity_is_only_allocated (entity : Z) (lv : nat) : bool := false.

(** ** What the processor reads *)

Definition hw_present (e : Z) : bool := Z.testbit e 0.
Definition hw_write (e : Z) : bool := Z.testbit e 1.
Definition hw_user (e : Z) : bool := Z.testbit e 2.
Definition hw_uncached (e : Z) : bool := Z.testbit e 4.
Definition hw_huge (e : Z) : bool := Z.testbit e 7.
(** The frame of an entry that maps [2 ^ k] bytes. *)
Definition hw_frame (k e : Z) : Z := (e / 2 ^ k * 2 ^ k) mod 2 ^ 52.

(** ** Lemmas *)

Lemma is_present_hw e lv : (lv <= 3)%nat → vm_ptable_entity_is_present e lv = hw_present e.
Proof.
  intros Hlv. unfold vm_ptable_entity_is_present, vm_ptable_entity_state, hw_present.
  do 4 (destruct lv as [|lv]; [rewrite test_flag_bit by done; by destruct (Z.testbit e 0)|]). lia.
Qed.

(** The two shifts of a frame round it down to a page. *)
Lemma shift_frame f : Z.shiftl (Z.shiftr f FRAME_OFFSET) FRAME_OFFSET = f - f mod 4096.
Proof.
  unfold FRAME_OFFSET. rewrite Z.shiftl_mul_pow2, Z.shiftr_div_pow2 by lia.
  change (2 ^ 12) with 4096. pose proof (Z.div_mod f 4096). lia.
Qed.

Lemma set_frame_add e lv f : 0 <= f < 2 ^ 64 → f mod 4096 = 0 →
  vm_ptable_entity_set_frame e lv f = e mod 4096 + f.
Proof.
  intros Hf Hal. unfold vm_ptable_entity_set_frame. rewrite shift_frame, Hal, Z.sub_0_r, u64_small by lia.
  change (Z.shiftl 1 FRAME_OFFSET - 1) with (Z.ones 12). rewrite Z.land_ones, Z.lor_comm by lia.
  replace f with (Z.shiftl (f / 4096) 12) at 1.
  - change (2 ^ 12) with 4096.
    rewrite lor_shiftl_add by (try change (2 ^ 12) with 4096; try apply Z.mod_pos_bound; lia).
    change (2 ^ 12) with 4096. pose proof (Z.div_mod f 4096). lia.
  - rewrite Z.shiftl_mul_pow2 by lia. change (2 ^ 12) with 4096. pose proof (Z.div_mod f 4096). lia.
Qed.

Lemma set_frame_round e lv f :
  vm_ptable_entity_set_frame e lv f = vm_ptable_entity_set_frame e lv (f - f mod 4096).
Proof.
  unfold vm_ptable_entity_set_frame. rewrite !shift_frame.
  by replace ((f - f mod 4096) mod 4096) with 0 by (Z.div_mod_to_equations; lia); rewrite Z.sub_0_r.
Qed.

Lemma get_frame_sub e lv : 0 <= e < 2 ^ 64 → vm_ptable_entity_get_frame e lv = e - e mod 4096.
Proof.
  intros He. unfold vm_ptable_entity_get_frame. rewrite shift_frame, u64_small; [done|].
  pose proof (Z.mod_pos_bound e 4096). pose proof (Z.mod_le e 4096). lia.
Qed.

(** The code and the processor read the same frame. *)
Lemma get_hw_frame e lv : 0 <= e < 2 ^ 52 → vm_ptable_entity_get_frame e lv = hw_frame 12 e.
Proof.
  intros He. rewrite get_frame_sub by lia. unfold hw_frame. change (2 ^ 12) with 4096.
  pose proof (Z.div_mod e 4096). pose proof (Z.mod_pos_bound e 4096). rewrite (Z.mod_small (_ * _)); lia.
Qed.

(** The low bits of an entry are its flags. *)
Lemma testbit_page e f j : f mod 4096 = 0 → 0 <= j < 12 → Z.testbit (e + f) j = Z.testbit e j.
Proof.
  intros Hf Hj. rewrite <-(Z.mod_pow2_bits_low (e + f) 12), <-(Z.mod_pow2_bits_low e 12) by lia.
  change (2 ^ 12) with 4096. rewrite <-Zplus_mod_idemp_r, Hf, Z.add_0_r. done.
Qed.

Lemma set_flags_bit flags k acc af : 0 <= k →
  set_flags flags (Z.shiftl 1 k) acc af = if Z.testbit flags k then Z.lor acc af else acc.
Proof. intros Hk. unfold set_flags. by rewrite test_flag_bit. Qed.

(** The flags a page entry gets, bit by bit. *)
Definition page_flags (mf : Z) : Z :=
  Z.b2z (Z.testbit mf 1) + 2 * Z.b2z (Z.testbit mf 0) + 4 * Z.b2z (Z.testbit mf 4) +
  16 * Z.b2z (Z.testbit mf 3).

Lemma set_mmu_flags_page mf : vm_ptable_entity_set_mmu_flags 0 0 mf = page_flags mf.
Proof.
  unfold vm_ptable_entity_set_mmu_flags. change (vm_arch_to_mmu_flags 0 0) with 0. rewrite Z.lor_0_l.
  change (clear_arch_flags 0) with 0. rewrite Z.lor_0_l.
  unfold vm_mmu_to_arch_flags, terminating_page_common_mmu_to_arch_flags, page_flags. cbv zeta.
  unfold MMU_FLAG_PERM_READ, MMU_FLAG_PERM_WRITE, MMU_FLAG_NONPRIV, MMU_FLAG_UNCACHED.
  rewrite !set_flags_bit by done.
  by destruct (Z.testbit mf 0), (Z.testbit mf 1), (Z.testbit mf 3), (Z.testbit mf 4).
Qed.

(** An inner entry of flags [R|W|X|NONPRIV] lets every access through. *)
Lemma set_mmu_flags_table lv : (1 <= lv <= 3)%nat →
  vm_ptable_entity_set_mmu_flags 0 lv
    (Z.lor (Z.lor (Z.lor MMU_FLAG_PERM_READ MMU_FLAG_PERM_WRITE) MMU_FLAG_PERM_EXEC) MMU_FLAG_NONPRIV) = 7.
Proof. intros Hlv. assert (lv = 1 ∨ lv = 2 ∨ lv = 3)%nat as [->|[->| ->]] by lia; done. Qed.

(** A huge page: the old flags of the cleared entry, which is not huge yet,
    are those of an inner table. *)
Lemma set_mmu_flags_huge lv mf : lv = 1%nat ∨ lv = 2%nat → Z.testbit mf 1 = true → Z.testbit mf 7 = true →
  vm_ptable_entity_set_mmu_flags 0 lv mf = 0x87 + 16 * Z.b2z (Z.testbit mf 3).
Proof.
  intros Hlv H1 H7. unfold vm_ptable_entity_set_mmu_flags.
  replace (vm_arch_to_mmu_flags 0 lv) with 17 by (by destruct Hlv as [-> | ->]).
  change (clear_arch_flags 0) with 0. rewrite Z.lor_0_l.
  assert (Hb : ∀ k, Z.testbit (Z.lor 17 mf) k = Z.testbit 17 k || Z.testbit mf k) by (intros; apply Z.lor_spec).
  unfold vm_mmu_to_arch_flags, terminating_page_common_mmu_to_arch_flags, MMU_FLAG_HUGE_PAGE, MMU_FLAG_PERM_READ,
    MMU_FLAG_PERM_WRITE, MMU_FLAG_NONPRIV, MMU_FLAG_UNCACHED. cbv zeta.
  rewrite test_flag_bit, !set_flags_bit, !Hb, H1, H7 by done.
  destruct Hlv as [-> | ->]; by destruct (Z.testbit mf 3).
Qed.

Lemma page_flags_bits mf f : f mod 4096 = 0 →
  hw_present (page_flags mf + f) = Z.testbit mf 1 ∧ hw_write (page_flags mf + f) = Z.testbit mf 0 ∧
  hw_user (page_flags mf + f) = Z.testbit mf 4 ∧ hw_uncached (page_flags mf + f) = Z.testbit mf 3.
Proof.
  intros Hf. unfold hw_present, hw_write, hw_user, hw_uncached. rewrite !testbit_page by (done || lia).
  unfold page_flags. by destruct (Z.testbit mf 0), (Z.testbit mf 1), (Z.testbit mf 3), (Z.testbit mf 4).
Qed.

Lemma page_flags_range mf : 0 <= page_flags mf < 32.
Proof.
  unfold page_flags. destruct (Z.testbit mf 0), (Z.testbit mf 1), (Z.testbit mf 3), (Z.testbit mf 4); simpl; lia.
Qed.

(** The word written for a page or a table, [fl] its flags. *)
Lemma flags_frame fl f lv : 0 <= fl < 4096 → 0 <= f < 2 ^ 52 → f mod 4096 = 0 →
  vm_ptable_entity_set_frame fl lv f = fl + f ∧ vm_ptable_entity_get_frame (fl + f) lv = f ∧
  hw_frame 12 (fl + f) = f ∧ (fl + f) mod 4096 = fl.
Proof.
  intros Hfl Hf Hal. rewrite set_frame_add by lia. rewrite (Z.mod_small fl) by lia.
  assert (Hm : (fl + f) mod 4096 = fl).
  { rewrite <-Zplus_mod_idemp_r, Hal, Z.add_0_r. by apply Z.mod_small. }
  assert (Hlt : f + 4096 <= 2 ^ 52) by (pose proof (Z.div_mod f 4096); lia).
  split_and!; [done| | |done].
  - rewrite get_frame_sub, Hm by lia. lia.
  - unfold hw_frame. change (2 ^ 12) with 4096. pose proof (Z.div_mod (fl + f) 4096).
    rewrite Z.mod_small; lia.
Qed.

(** Reading the flags of a page entry. *)
Lemma read_page_flags mf f : f mod 4096 = 0 →
  vm_arch_to_mmu_flags (page_flags mf + f) 0 = Z.land mf 27.
Proof.
  intros Hal. destruct (page_flags_bits mf f Hal) as (Hp & Hw & Hu & Hc).
  unfold hw_present, hw_write, hw_user, hw_uncached in *.
  unfold vm_arch_to_mmu_flags, terminating_page_common_arch_to_mmu_flags. cbv zeta.
  rewrite !set_flags_bit, Hp, Hw, Hu, Hc by done.
  apply Z.bits_inj'. intros j Hj. rewrite Z.land_spec. destruct (Z.lt_ge_cases j 5).
  - assert (j = 0 ∨ j = 1 ∨ j = 2 ∨ j = 3 ∨ j = 4) as [->|[->|[->|[->| ->]]]] by lia;
      by destruct (Z.testbit mf 0), (Z.testbit mf 1), (Z.testbit mf 2), (Z.testbit mf 3), (Z.testbit mf 4).
  - rewrite (testbit_high 27 5), andb_false_r by lia. apply (testbit_high _ 5); [|lia].
    destruct (Z.testbit mf 0), (Z.testbit mf 1), (Z.testbit mf 3), (Z.testbit mf 4); vm_compute; split; done.
Qed.

(** ** Properties *)

(** The entry of a mapped page gives back the frame and the flags it was
    made from: write, read, user and uncached survive the round trip, any other
    flag (execute among them, for which the kernel sets no bit) is dropped. *)
Theorem page_entry_roundtrip mf f : 0 <= f < 2 ^ 52 → f mod 4096 = 0 →
  let e := vm_ptable_entity_set_frame (vm_ptable_entity_set_mmu_flags 0 0 mf) 0 f in
  vm_ptable_entity_get_frame e 0 = f ∧
  vm_arch_to_mmu_flags e 0 =
    Z.land mf (Z.lor (Z.lor MMU_FLAG_PERM_READ MMU_FLAG_PERM_WRITE) (Z.lor MMU_FLAG_NONPRIV MMU_FLAG_UNCACHED)).
Proof.
  intros Hf Hal. rewrite set_mmu_flags_page. cbv zeta. pose proof (page_flags_range mf).
  destruct (flags_frame (page_flags mf) f 0) as (-> & Hg & _); [lia|done..|].
  split; [done|by apply read_page_flags].
Qed.

(** Whatever flags a huge page is mapped with, its entry is writable and
    open to user mode: the flags of the cleared entry are read as those of an
    inner table, which allow everything, and are or-ed into the new ones. *)
Theorem huge_page_open_to_user lv mf f : lv = 1%nat ∨ lv = 2%nat → 0 <= f < 2 ^ 52 → f mod 4096 = 0 →
  let mf := Z.lor (Z.lor mf MMU_FLAG_PERM_READ) MMU_FLAG_HUGE_PAGE in
  let e := vm_ptable_entity_set_frame (vm_ptable_entity_set_mmu_flags 0 lv mf) lv f in
  hw_present e = true ∧ hw_huge e = true ∧ hw_write e = true ∧ hw_user e = true.
Proof.
  intros Hlv Hf Hal. cbv zeta. rewrite set_mmu_flags_huge; [|done|by rewrite !Z.lor_spec, orb_true_r|by rewrite !Z.lor_spec, !orb_true_r].
  rewrite set_frame_add by lia. unfold hw_present, hw_huge, hw_write, hw_user.
  rewrite !testbit_page by (done || lia).
  by destruct (Z.testbit _ 3).
Qed.

(** ** Witnesses *)

Lemma page_entry_roundtrip_witness :
  vm_ptable_entity_get_frame
    (vm_ptable_entity_set_frame (vm_ptable_entity_set_mmu_flags 0 0 0x17) 0 0x123000) 0 = 0x123000.
Proof. apply (page_entry_roundtrip 0x17 0x123000); [lia|done]. Defined.

(** The direct map of the kernel, which asks for a privileged page. *)
Lemma huge_page_open_to_user_witness :
  let mf := Z.lor (Z.lor MMU_FLAG_PERM_WRITE MMU_FLAG_UNCACHED) MMU_FLAG_PERM_READ in
  Z.testbit mf 4 = false ∧
  hw_user (vm_ptable_entity_set_frame
    (vm_ptable_entity_set_mmu_flags 0 2 (Z.lor (Z.lor mf MMU_FLAG_PERM_READ) MMU_FLAG_HUGE_PAGE)) 2 0x40000000) = true.
Proof.
  split; [done|].
  apply (huge_page_open_to_user 2 (Z.lor (Z.lor MMU_FLAG_PERM_WRITE MMU_FLAG_UNCACHED) MMU_FLAG_PERM_READ) 0x40000000);
    [by right|lia|done].
Defined.
