(* ===== verification/Vmm64.v ===== *)
(** * Vmm64: the page tables of x86_64

    [mem/bits64/vm_pspace64.c], [mem/bits64/vmm64.c], [mem/vm_alloc.c] and the
    geometry of [mem/bits/vm.h]. The state is the physical memory, by 64-bit
    words at their physical address, the physical memory manager, and the page
    directory of the active address space. A table is used through a pointer
    into the direct map of the physical memory, which starts at
    [vm_pspace_paddr_zone_offset]; the directory of an address space, which the
    code reaches through a mapping of its own, is given by its pointer in that
    map as well. [None] is a panic or an access through a null pointer. The
    flushes of the translation buffer have no state to act on here: [translate]
    always reads the tables. *)
From stdpp Require Import gmap relations.
From S2P Require Import Prelude Platform Bitmap Alloc Pmm Mmu64.

#[local] Existing Instance x86_64.

(** ** Geometry: [mem/bits/vm.h] and [vmm/consts.h] *)

Definition PTABLE_LV_TOP : nat := 3.
Definition PTABLE_ENTITY_COUNT (lv : nat) : Z := 512.
Definition PTABLE_SIZE (lv : nat) : Z := 512 * 8.
Definition PTABLE_TOP_KERNEL_OFFSET : Z := 512 / 2.

Definition ptable_entity_vaddr_offset_at_level (lv : nat) : Z :=
  match lv with 0%nat => 12 | 1%nat => 21 | 2%nat => 30 | _ => 39 end.

Definition VM_VADDR_OFFSET_AT_LEVEL (vaddr : Z) (lv : nat) : Z :=
  Z.shiftr vaddr (ptable_entity_vaddr_offset_at_level lv) mod PTABLE_ENTITY_COUNT lv.

Definition lower_level (lv : nat) : option nat :=
  match lv with 0%nat => None | S l => Some l end.
Definition upper_level (lv : nat) : option nat :=
  if bool_decide (lv = PTABLE_LV_TOP) then None else Some (S lv).

(** ** State *)

Record vm := mk_vm {
  words : gmap Z Z;
  vpmm : pmm_state_t;
  active_pdir : option Z;
}.

Definition word (m : gmap Z Z) (a : Z) : Z := default 0 (m !! a).
Definition set_words (s : vm) (m : gmap Z Z) : vm := mk_vm m (vpmm s) (active_pdir s).
Definition set_pmm (s : vm) (st : pmm_state_t) : vm := mk_vm (words s) st (active_pdir s).

Section vmm64.
Context (vm_pspace_paddr_zone_offset : Z).

Definition paddr_to_vaddr (paddr : Z) : Z := u64 (vm_pspace_paddr_zone_offset + paddr).

(** The physical address behind a pointer into the direct map. *)
Definition phys (ptr : Z) : Z := u64 (ptr - vm_pspace_paddr_zone_offset).

Definition entity (s : vm) (p : Z) : Z := word (words s) (phys p).

(** [*entity = f( *entity)]. *)
Definition update (p : Z) (f : Z → Z) (s : vm) : option vm :=
  if p =? 0 then None else Some (set_words s (<[phys p := f (entity s p)]> (words s))).

(** [memset(ptr, 0, 8 * n)]. *)
Definition zero_words (p : Z) (n : nat) (m : gmap Z Z) : gmap Z Z :=
  foldr (λ i m, <[p + 8 * Z.of_nat i := 0]> m) m (seq 0 n).

Definition memset_zero (p : Z) (size : Z) (s : vm) : option vm :=
  if p =? 0 then None else Some (set_words s (zero_words (phys p) (Z.to_nat (size / 8)) (words s))).

(** ** [vm_pspace64.c] *)

Definition vm_lookup (table : Z) (lv : nat) (vaddr : Z) : Z :=
  u64 (table + 8 * VM_VADDR_OFFSET_AT_LEVEL vaddr lv).

Fixpoint vm_get_table_impl (s : vm) (cur vaddr : Z) (lv needlv : nat) : option Z :=
  if bool_decide (lv = needlv) then Some cur else
  let ptable_desc := vm_lookup cur lv vaddr in
  if negb (vm_ptable_entity_is_present (entity s ptable_desc) lv) then Some 0 else
  let next_ptable := paddr_to_vaddr (vm_ptable_entity_get_frame (entity s ptable_desc) lv) in
  match lv with
  | 0%nat => None
  | S lower => vm_get_table_impl s next_ptable vaddr lower needlv
  end.

Definition vm_get_table (s : vm) (vaddr : Z) (lv : nat) : option Z :=
  match active_pdir s with
  | None => Some 0
  | Some active_pdir =>
      if active_pdir =? 0 then None else vm_get_table_impl s active_pdir vaddr PTABLE_LV_TOP lv
  end.

Definition vm_get_entity (s : vm) (vaddr : Z) (lv : nat) : option Z :=
  ptable ← vm_get_table s vaddr lv;
  if ptable =? 0 then Some 0 else Some (vm_lookup ptable lv vaddr).

(** [vm_ptable_entity_is_present] on a pointer, null included. *)
Definition entity_is_present (s : vm) (p : Z) (lv : nat) : bool :=
  if p =? 0 then false else vm_ptable_entity_is_present (entity s p) lv.

(** ** [vm_alloc.c] *)

Definition vm_alloc_ptable_paddr (lv : nat) (s : vm) : option (Z * vm) :=
  '(paddr, st) ← pmm_alloc_aligned (PTABLE_SIZE lv) (PTABLE_SIZE lv) (vpmm s);
  Some (paddr, set_pmm s st).

Definition vm_alloc_page_paddr (s : vm) : option (Z * vm) :=
  '(paddr, st) ← pmm_alloc_aligned VMM_PAGE_SIZE VMM_PAGE_SIZE (vpmm s);
  Some (paddr, set_pmm s st).

Definition vm_free_page_paddr (addr : Z) (s : vm) : option vm :=
  '(_, st) ← pmm_free addr VMM_PAGE_SIZE (vpmm s);
  Some (set_pmm s st).

(** ** [vmm64.c]: mapping *)

Definition _vmm_map_page_locked_lv0 (ptable vaddr paddr mmu_flags : Z) (s : vm) : option (Z * vm) :=
  if ptable =? 0 then Some (- EINVAL, s) else
  page_desc ← vm_get_entity s vaddr 0;
  s ← update page_desc (λ e, vm_ptable_entity_set_default_flags e 0) s;
  s ← update page_desc (λ e, vm_ptable_entity_set_mmu_flags e 0 (Z.lor mmu_flags MMU_FLAG_PERM_READ)) s;
  s ← update page_desc (λ e, vm_ptable_entity_set_frame e 0 paddr) s;
  Some (0, s).

Definition _vmm_map_huge_page_locked_lv (ptable vaddr paddr mmu_flags : Z) (lv : nat) (s : vm)
  : option (Z * vm) :=
  if ptable =? 0 then Some (- EINVAL, s) else
  page_desc ← vm_get_entity s vaddr lv;
  s ← update page_desc (λ e, vm_ptable_entity_set_default_flags e lv) s;
  s ← update page_desc (λ e, vm_ptable_entity_set_mmu_flags e lv
        (Z.lor (Z.lor mmu_flags MMU_FLAG_PERM_READ) MMU_FLAG_HUGE_PAGE)) s;
  s ← update page_desc (λ e, vm_ptable_entity_set_frame e lv paddr) s;
  Some (0, s).

(** The table of level [lv] that [ptable_desc], an entry of level [upper_lv],
    has to point to: allocated and cleared when there is none. *)
Definition ensure_table (vaddr ptable_desc : Z) (lv upper_lv : nat) (s : vm) : option vm :=
  if entity_is_present s ptable_desc upper_lv then Some s else
  '(ptable_paddr, s) ← vm_alloc_ptable_paddr lv s;
  s ← update ptable_desc (λ e, vm_ptable_entity_set_default_flags e upper_lv) s;
  s ← update ptable_desc (λ e, vm_ptable_entity_set_mmu_flags e upper_lv
        (Z.lor (Z.lor (Z.lor MMU_FLAG_PERM_READ MMU_FLAG_PERM_WRITE) MMU_FLAG_PERM_EXEC) MMU_FLAG_NONPRIV)) s;
  s ← update ptable_desc (λ e, vm_ptable_entity_set_frame e upper_lv ptable_paddr) s;
  this_table ← vm_get_table s vaddr lv;
  memset_zero this_table (PTABLE_SIZE lv) s.

Fixpoint _vmm_map_page_locked_impl (ptable vaddr paddr mmu_flags : Z) (lv termlv : nat) (s : vm)
  : option (Z * vm) :=
  if ptable =? 0 then Some (- EINVAL, s) else
  upper_lv ← upper_level lv;
  ptable_desc ← vm_get_entity s vaddr upper_lv;
  s ← ensure_table vaddr ptable_desc lv upper_lv s;
  if bool_decide (lv = termlv) then
    match lv with
    | 0%nat => _vmm_map_page_locked_lv0 ptable vaddr paddr mmu_flags s
    | _ => _vmm_map_huge_page_locked_lv ptable vaddr paddr mmu_flags lv s
    end
  else
  child_ptable ← vm_get_table s vaddr lv;
  if child_ptable =? 0 then None else
  match lv with
  | 0%nat => None
  | S lower => _vmm_map_page_locked_impl child_ptable vaddr paddr mmu_flags lower termlv s
  end.

Definition vmm_map_page_locked_impl (vaddr paddr mmu_flags : Z) (s : vm) : option (Z * vm) :=
  match active_pdir s with
  | None => Some (- EACCES, s)
  | Some _ =>
      ptable ← vm_get_table s vaddr PTABLE_LV_TOP;
      if ptable =? 0 then Some (- EACCES, s) else
      lower ← lower_level PTABLE_LV_TOP;
      _vmm_map_page_locked_impl ptable vaddr paddr mmu_flags lower 0 s
  end.

Definition vmm_map_huge_page_locked_impl (vaddr paddr mmu_flags : Z) (termlv : nat) (s : vm)
  : option (Z * vm) :=
  match active_pdir s with
  | None => Some (- EACCES, s)
  | Some _ =>
      ptable ← vm_get_table s vaddr PTABLE_LV_TOP;
      if ptable =? 0 then Some (- EACCES, s) else
      if bool_decide (PTABLE_LV_TOP = termlv)
      then _vmm_map_huge_page_locked_lv ptable vaddr paddr mmu_flags PTABLE_LV_TOP s
      else
      lower ← lower_level PTABLE_LV_TOP;
      _vmm_map_page_locked_impl ptable vaddr paddr mmu_flags lower termlv s
  end.

Definition vmm_is_copy_on_write (vaddr : Z) : bool := false.
Definition vmm_resolve_copy_on_write (vaddr : Z) (s : vm) : option (Z * vm) := Some (0, s).
Definition vmm_is_page_swapped_impl (vaddr : Z) : bool := false.
Definition vmm_restore_swapped_page_locked_impl (vaddr : Z) (s : vm) : option (Z * vm) := Some (-1, s).

Definition vmm_unmap_page_locked_impl (vaddr : Z) (s : vm) : option (Z * vm) :=
  match active_pdir s with
  | None => Some (- EACCES, s)
  | Some _ =>
      if vmm_is_copy_on_write vaddr then Some (- EBUSY, s) else
      page_desc ← vm_get_entity s vaddr 0;
      if negb (entity_is_present s page_desc 0) then Some (- EACCES, s) else
      s ← update page_desc (λ e, vm_ptable_entity_invalidate e 0) s;
      Some (0, s)
  end.

Definition vmm_is_page_present_impl (vaddr : Z) (s : vm) : option bool :=
  page_desc ← vm_get_entity s vaddr 0;
  if page_desc =? 0 then Some false else Some (entity_is_present s page_desc 0).

Definition vmm_alloc_page_no_fill_locked_impl (vaddr mmu_flags : Z) (s : vm) : option (Z * vm) :=
  '(paddr, s) ← vm_alloc_page_paddr s;
  vmm_map_page_locked_impl vaddr paddr mmu_flags s.

(** A missing table makes the page descriptor a null pointer. *)
Definition vmm_convert_vaddr_to_paddr_impl (vaddr : Z) (s : vm) : option Z :=
  page_desc ← vm_get_entity s vaddr 0;
  if page_desc =? 0 then None else
  Some (Z.lor (vm_ptable_entity_get_frame (entity s page_desc) 0) (Z.land vaddr 0xfff)).

End vmm64.

(** ** The processor's walk

    Four levels from the directory at [p]; an access may write, or come from
    user mode, if every entry on the way lets it. *)
Fixpoint hw_walk (m : gmap Z Z) (p v : Z) (lv : nat) (w u : bool) : option (Z * bool * bool) :=
  let e := word m (p + 8 * VM_VADDR_OFFSET_AT_LEVEL v lv) in
  if negb (hw_present e) then None else
  let w := w && hw_write e in
  let u := u && hw_user e in
  let k := ptable_entity_vaddr_offset_at_level lv in
  match lv with
  | 0%nat => Some (hw_frame k e + v mod 2 ^ k, w, u)
  | S l =>
      if hw_huge e
      then if bool_decide (lv = PTABLE_LV_TOP) then None else Some (hw_frame k e + v mod 2 ^ k, w, u)
      else hw_walk m (hw_frame 12 e) v l w u
  end.

Definition translate (m : gmap Z Z) (root v : Z) : option (Z * bool * bool) :=
  hw_walk m root v PTABLE_LV_TOP true true.

(** *** A small machine *)

Definition example_off : Z := 0xffffffff00000000.
Definition example_frames : pmm_state_t :=
  mk_pmm_state 0 0 (mk_bitmap_t (Some [0x0f; 0; 0]) 24) (24 * 4096) 0x100000 24 4.
Definition example_vm : vm := mk_vm ∅ example_frames (Some (example_off + 0x103000)).

(** ** The tables of an address space, by their depth below the directory *)

Abbreviation idx v k := (VM_VADDR_OFFSET_AT_LEVEL v (3 - k)).

(** The bits of an address that select the table of depth [k]; [pre v 4] is
    its page. *)
Definition pre (v : Z) (k : nat) : Z := (v / 2 ^ (48 - 9 * Z.of_nat k)) mod 2 ^ (9 * Z.of_nat k).

Definition child (m : gmap Z Z) (q v : Z) (k : nat) : option Z :=
  let e := word m (q + 8 * idx v k) in
  if hw_present e && negb (hw_huge e) then Some (hw_frame 12 e) else None.

Fixpoint tab (m : gmap Z Z) (root v : Z) (k : nat) : option Z :=
  match k with
  | O => Some root
  | S k => q ← tab m root v k; child m q v k
  end.

(** The entry of depth [k] that ends the walk for [v], if there is one. *)
Definition leaf (m : gmap Z Z) (root v : Z) (k : nat) : option Z :=
  q ← tab m root v k;
  let e := word m (q + 8 * idx v k) in
  if hw_present e && (bool_decide (k = 3%nat) || hw_huge e) then Some e else None.

Lemma idx_range v k : 0 <= idx v k < 512.
Proof. unfold VM_VADDR_OFFSET_AT_LEVEL, PTABLE_ENTITY_COUNT. by apply Z.mod_pos_bound. Qed.

Lemma idx_div v k : (k <= 3)%nat → idx v k = (v / 2 ^ (39 - 9 * Z.of_nat k)) mod 512.
Proof.
  intros Hk. unfold VM_VADDR_OFFSET_AT_LEVEL, PTABLE_ENTITY_COUNT.
  assert (k = 0 ∨ k = 1 ∨ k = 2 ∨ k = 3)%nat as [->|[->|[->| ->]]] by lia; cbn; by rewrite Z.shiftr_div_pow2.
Qed.

Lemma pre_S v k : (k <= 3)%nat → pre v (S k) = 512 * pre v k + idx v k.
Proof.
  intros Hk. rewrite idx_div by done. unfold pre.
  replace (48 - 9 * Z.of_nat (S k)) with (39 - 9 * Z.of_nat k) by lia.
  replace (48 - 9 * Z.of_nat k) with ((39 - 9 * Z.of_nat k) + 9) by lia.
  replace (9 * Z.of_nat (S k)) with (9 + 9 * Z.of_nat k) by lia.
  rewrite !Z.pow_add_r, <-Z.div_div by lia. change (2 ^ 9) with 512.
  rewrite Z.rem_mul_r by lia. lia.
Qed.

Lemma pre_S_eq v v' k : (k <= 3)%nat →
  pre v (S k) = pre v' (S k) ↔ pre v k = pre v' k ∧ idx v k = idx v' k.
Proof.
  intros Hk. rewrite !pre_S by done. pose proof (idx_range v k). pose proof (idx_range v' k). lia.
Qed.

Lemma pre_le v v' j k : (j <= k <= 4)%nat → pre v k = pre v' k → pre v j = pre v' j.
Proof.
  intros [Hjk Hk] He. induction k as [|k IH]; [by assert (j = 0)%nat as -> by lia|].
  destruct (decide (j = S k)) as [->|]; [done|].
  apply pre_S_eq in He as [He _]; [|lia]. apply IH; [lia..|done].
Qed.

Lemma pre_0 v v' : pre v 0 = pre v' 0.
Proof. unfold pre. change (2 ^ (9 * Z.of_nat 0)) with 1. by rewrite !Z.mod_1_r. Qed.

Lemma leaf_no_tab m root v k : tab m root v k = None → leaf m root v k = None.
Proof. unfold leaf. by intros ->. Qed.

Lemma tab_none m root v k j : (k <= j)%nat → tab m root v k = None → tab m root v j = None.
Proof. intros Hkj Hk. induction Hkj as [|j Hkj IH]; [done|]. cbn [tab]. by rewrite IH. Qed.

Lemma tab_some m root v k j q : (k <= j)%nat → tab m root v j = Some q → ∃ q', tab m root v k = Some q'.
Proof.
  intros Hkj Hj. destruct (tab m root v k) eqn:Hk; [eauto|]. by rewrite (tab_none m root v k j) in Hj.
Qed.

Lemma leaf_inner m root v k q : (k < 3)%nat → tab m root v (S k) = Some q → leaf m root v k = None.
Proof.
  intros Hk. unfold leaf. cbn [tab]. destruct (tab m root v k); [|done]. bind_red. unfold child. cbv zeta.
  rewrite bool_decide_false by lia. by destruct (hw_present _), (hw_huge _).
Qed.

(** Two addresses of one page, as the processor sees it. *)
Definition canonical (v : Z) : Prop := 0 <= v < 2 ^ 47 ∨ 2 ^ 64 - 2 ^ 47 <= v < 2 ^ 64.

Lemma same_page v v' : canonical v → canonical v' → pre v 4 = pre v' 4 ↔ v / 4096 = v' / 4096.
Proof.
  unfold canonical, pre. change (48 - 9 * Z.of_nat 4) with 12. change (9 * Z.of_nat 4) with 36.
  change (2 ^ 12) with 4096. intros Hv Hv'. split; [|by intros ->].
  intros. Z.div_mod_to_equations. lia.
Qed.

Lemma idx_pre v v' k : (k <= 3)%nat → pre v (S k) = pre v' (S k) → idx v k = idx v' k.
Proof. intros Hk He. by apply pre_S_eq in He as [_ ?]. Qed.

Lemma tab_pre m root v v' k : (k <= 3)%nat → pre v k = pre v' k → tab m root v k = tab m root v' k.
Proof.
  induction k as [|k IH]; intros Hk He; [done|]. cbn [tab].
  rewrite IH by (try apply (pre_le v v' k (S k)); done || lia).
  unfold child. by rewrite (idx_pre v v' k) by (done || lia).
Qed.

(** ** The state of an address space

    The directory is at [root] and active; every table of it is a frame the
    memory manager has given out, no frame serves as two tables, an inner entry
    gives way to every access, and the direct map reaches all frames. *)

Definition frame_taken (st : pmm_state_t) (d : list Z) (p : Z) : Prop :=
  ∃ b, 0 <= b < len (mat st) ∧ p = ram_offset st + b * 4096 ∧ bit d b = true.

Record tables_ok (off : Z) (s : vm) (root : Z) (d : list Z) : Prop := {
  ok_active : active_pdir s = Some (off + root);
  ok_pmm : pmm_inv (vpmm s) d;
  ok_off : 0 < off;
  ok_ram : ram_offset (vpmm s) mod 4096 = 0;
  ok_direct : off + (ram_offset (vpmm s) + len (mat (vpmm s)) * 4096) <= 2 ^ 64;
  ok_phys : ram_offset (vpmm s) + len (mat (vpmm s)) * 4096 <= 2 ^ 52;
  ok_word : ∀ a, 0 <= word (words s) a < 2 ^ 64;
  ok_table : ∀ v k p, (k <= 3)%nat → tab (words s) root v k = Some p → frame_taken (vpmm s) d p;
  ok_inner : ∀ v k q, (k < 3)%nat → tab (words s) root v k = Some q →
    let e := word (words s) (q + 8 * idx v k) in
    hw_present e = true → hw_huge e = false → e < 2 ^ 52 ∧ hw_write e = true ∧ hw_user e = true;
  ok_inj : ∀ v v' k k' p, (k <= 3)%nat → (k' <= 3)%nat →
    tab (words s) root v k = Some p → tab (words s) root v' k' = Some p → k = k' ∧ pre v k = pre v' k;
  ok_page : ∀ v e, leaf (words s) root v 3 = Some e → e < 2 ^ 52;
}.

(** No huge page covers [v]. *)
Definition no_huge (m : gmap Z Z) (root v : Z) : Prop := ∀ k, (k < 3)%nat → leaf m root v k = None.

Lemma no_huge_entry m root v k q : no_huge m root v → (k < 3)%nat → tab m root v k = Some q →
  hw_present (word m (q + 8 * idx v k)) = true → hw_huge (word m (q + 8 * idx v k)) = false.
Proof.
  intros Hnh Hk Hq Hpr. specialize (Hnh k Hk). revert Hnh. unfold leaf. rewrite Hq. bind_red. cbv zeta.
  rewrite Hpr, bool_decide_false by lia. by destruct (hw_huge _).
Qed.

(** ** Pointers and words *)

Lemma word_insert m a b v : word (<[a := v]> m) b = if decide (a = b) then v else word m b.
Proof.
  unfold word. case_decide; [subst; by rewrite lookup_insert_eq|by rewrite lookup_insert_ne].
Qed.

Lemma word_zero p n m b : word (zero_words p n m) b =
  if decide (p <= b < p + 8 * Z.of_nat n ∧ (b - p) mod 8 = 0) then 0 else word m b.
Proof.
  unfold zero_words. induction n as [|n IH] in m |- *.
  - simpl. rewrite decide_False; [done|lia].
  - rewrite seq_S, foldr_app. simpl foldr. rewrite IH, word_insert.
    case_decide as H1.
    + rewrite decide_True; [done|lia].
    + destruct (decide (p + 8 * Z.of_nat n = b)) as [<-|].
      * rewrite decide_True; [done|]. split; [lia|]. replace (_ - p) with (Z.of_nat n * 8) by lia.
        by apply Z.mod_mul.
      * rewrite decide_False; [done|]. intros [? Hm]. apply H1. Z.div_mod_to_equations. lia.
Qed.

(** A table's frame is aligned, so an entry's address tells the table and the
    index. *)
Lemma entry_inj q q' i i' : q mod 4096 = 0 → q' mod 4096 = 0 → 0 <= i < 512 → 0 <= i' < 512 →
  q + 8 * i = q' + 8 * i' → q = q' ∧ i = i'.
Proof. intros. Z.div_mod_to_equations. lia. Qed.

Section spec.
Context (off : Z).

Lemma phys_direct p i : 0 <= p → 0 <= i < 512 → 0 < off → off + p + 4096 <= 2 ^ 64 →
  phys off (u64 (off + p + 8 * i)) = p + 8 * i ∧ u64 (off + p + 8 * i) ≠ 0.
Proof.
  intros Hp Hi Hoff Hend. rewrite (u64_small (off + p + 8 * i)) by lia. unfold phys.
  split; [|lia]. rewrite u64_small; lia.
Qed.

Lemma frame_bounds s root d p : tables_ok off s root d → frame_taken (vpmm s) d p →
  p mod 4096 = 0 ∧ 0 <= p ∧ p + 4096 <= 2 ^ 52 ∧ off + p + 4096 <= 2 ^ 64.
Proof.
  intros H (b & Hb & -> & _). destruct H as [? (_ & Hr & _) ? Hal ? ? _ _ _ _ _].
  split; [|lia]. by rewrite Z.mod_add by lia.
Qed.

(** A frame the direct map reaches. *)
Definition direct (p : Z) : Prop := 0 < off ∧ 0 <= p ∧ off + p + 4096 <= 2 ^ 64.

Lemma frame_direct s root d p : tables_ok off s root d → frame_taken (vpmm s) d p → direct p.
Proof. intros H Hp. destruct (frame_bounds s root d p H Hp) as (_ & ? & _ & ?). by destruct H. Qed.

(** The entries of a table, through its pointer. *)
Lemma lookup_entity s p v k : direct p →
  vm_lookup (off + p) (3 - k) v ≠ 0 ∧ off + p ≠ 0 ∧
  entity off s (vm_lookup (off + p) (3 - k) v) = word (words s) (p + 8 * idx v k) ∧
  phys off (vm_lookup (off + p) (3 - k) v) = p + 8 * idx v k.
Proof.
  intros (? & ? & ?). destruct (phys_direct p (idx v k)) as [Hph Hnz]; [lia|apply idx_range|lia..|].
  unfold vm_lookup, entity. split_and!; [done|lia|by rewrite Hph|done].
Qed.

Lemma present_at e k : vm_ptable_entity_is_present e (3 - k) = hw_present e.
Proof. apply is_present_hw. lia. Qed.

(** The first [n] entries of the walk for [v] lead to tables the code can
    reach, and the code reads them as the processor does. *)
Definition walkable (s : vm) (root v : Z) (n : nat) : Prop :=
  active_pdir s = Some (off + root) ∧ direct root ∧
  ∀ k q, (k < n)%nat → tab (words s) root v k = Some q →
    let e := word (words s) (q + 8 * idx v k) in
    hw_present e = true →
    hw_huge e = false ∧ vm_ptable_entity_get_frame e (3 - k) = hw_frame 12 e ∧ direct (hw_frame 12 e).

Lemma walkable_tab s root v n k q : walkable s root v n → (k <= n)%nat →
  tab (words s) root v k = Some q → direct q.
Proof.
  intros (_ & Hr & Hw) Hk. destruct k as [|k]; [by intros [= <-]|]. cbn [tab].
  destruct (tab _ _ _ k) as [q'|] eqn:Hq'; [|done]. bind_red. unfold child. cbv zeta.
  destruct (hw_present _) eqn:Hpr; [|done]. destruct (Hw k q' ltac:(lia) Hq' Hpr) as (-> & _ & Hd).
  by intros [= <-].
Qed.

(** Tables of the address space are where the code looks for them. *)
Lemma aspace_walkable s root d v : tables_ok off s root d → no_huge (words s) root v → walkable s root v 3.
Proof.
  intros Hok Hnh. split; [by apply Hok|]. split.
  { eapply frame_direct; [done|]. by apply (ok_table _ _ _ _ Hok v 0); [lia|]. }
  intros k q Hk Hq e Hpr. pose proof (no_huge_entry _ _ _ _ _ Hnh Hk Hq Hpr) as Hhu. fold e in Hhu. split; [done|].
  destruct (ok_inner _ _ _ _ Hok v k q Hk Hq Hpr Hhu) as (Hlt & _). fold e in Hlt.
  pose proof (ok_word _ _ _ _ Hok (q + 8 * idx v k)) as Hr. fold e in Hr. split.
  - apply get_hw_frame. lia.
  - eapply frame_direct; [done|]. apply (ok_table _ _ _ _ Hok v (S k)); [lia|]. cbn [tab]. rewrite Hq. bind_red.
    unfold child. cbv zeta. fold e. by rewrite Hpr, Hhu.
Qed.

Lemma get_table_impl_spec s root v n need j : walkable s root v n → (n <= 3)%nat →
  (3 - n <= need)%nat → (need + j <= 3)%nat → ∀ q, tab (words s) root v (3 - (need + j)) = Some q →
  vm_get_table_impl off s (off + q) v (need + j) need =
    Some (match tab (words s) root v (3 - need) with Some p => off + p | None => 0 end).
Proof.
  intros Hwk Hn Hneed. induction j as [|j IH]; intros Hj q Hq.
  - rewrite Nat.add_0_r in Hq |- *. rewrite Hq. destruct need; cbn [vm_get_table_impl]; by rewrite bool_decide_true.
  - remember (3 - (need + S j))%nat as k eqn:Hk. assert (Hlv : (need + S j = S (need + j))%nat) by lia.
    assert (Hlv3 : (need + S j = 3 - k)%nat) by lia.
    assert (HkS : (S k = 3 - (need + j))%nat) by lia.
    destruct (lookup_entity s q v k) as (_ & _ & Hent & _); [eapply walkable_tab; [done| |done]; lia|].
    rewrite Hlv. cbn [vm_get_table_impl]. rewrite bool_decide_false by lia.
    rewrite <-Hlv, Hlv3, Hent, present_at.
    assert (Htab : tab (words s) root v (S k) = child (words s) q v k) by (cbn [tab]; by rewrite Hq).
    unfold child in Htab. cbv zeta in Htab. destruct (hw_present _) eqn:Hpr; cbn [negb].
    + destruct Hwk as (Ha & Hr & Hw). destruct (Hw k q ltac:(lia) Hq Hpr) as (Hhu & -> & Hd).
      rewrite Hhu in Htab. destruct Hd as (? & ? & ?). unfold paddr_to_vaddr. rewrite u64_small by lia.
      apply IH; [lia|by rewrite <-HkS].
    + replace (3 - need)%nat with (S k + j)%nat by lia. by rewrite (tab_none _ _ _ (S k)) by (done || lia).
Qed.

Lemma vm_get_table_spec s root v n k : walkable s root v n → (k <= n)%nat → (n <= 3)%nat →
  vm_get_table off s v (3 - k) =
    Some (match tab (words s) root v k with Some p => off + p | None => 0 end).
Proof.
  intros Hwk Hk Hn. unfold vm_get_table. rewrite (proj1 Hwk). pose proof (proj1 (proj2 Hwk)) as (? & ? & ?).
  destruct (Z.eqb_spec (off + root) 0); [lia|].
  pose proof (get_table_impl_spec s root v n (3 - k) k Hwk Hn ltac:(lia) ltac:(lia) root) as Hg.
  replace (3 - (3 - k + k))%nat with 0%nat in Hg by lia. replace (3 - k + k)%nat with 3%nat in Hg by lia.
  unfold PTABLE_LV_TOP. rewrite Hg by done. by replace (3 - (3 - k))%nat with k by lia.
Qed.

Lemma vm_get_entity_spec s root v n k : walkable s root v n → (k <= n)%nat → (n <= 3)%nat →
  vm_get_entity off s v (3 - k) =
    Some (match tab (words s) root v k with Some q => vm_lookup (off + q) (3 - k) v | None => 0 end).
Proof.
  intros Hwk Hk Hn. unfold vm_get_entity. returns (vm_get_table_spec s root v n k Hwk Hk Hn).
  destruct (tab _ _ _ _) as [q|] eqn:Hq; [|done].
  destruct (lookup_entity s q v k) as (_ & Hnz & _); [by eapply walkable_tab|].
  by destruct (Z.eqb_spec (off + q) 0).
Qed.

(** ** Adding a table *)

(** [m1] is [m] with the entry [i] of the table [q] set to [e] and the table
    [p] cleared. *)
Definition linked (m m1 : gmap Z Z) (q i e p : Z) : Prop :=
  ∀ q' i', q' mod 4096 = 0 → 0 <= i' < 512 →
    word m1 (q' + 8 * i') =
      if decide (q' = p) then 0 else if decide (q' = q ∧ i' = i) then e else word m (q' + 8 * i').

Section link.
Context (s : vm) (root : Z) (d : list Z) (v : Z) (k : nat) (q p e : Z) (m1 : gmap Z Z).
Context (Hok : tables_ok off s root d) (Hk : (k < 3)%nat) (Hq : tab (words s) root v k = Some q).
Context (Habs : hw_present (word (words s) (q + 8 * idx v k)) = false).
Context (Hfresh : ∀ v' j, (j <= 3)%nat → tab (words s) root v' j ≠ Some p).
Context (Hp : p mod 4096 = 0) (Hpe : hw_present e = true) (Hhe : hw_huge e = false) (Hfe : hw_frame 12 e = p).
Context (Hm1 : linked (words s) m1 q (idx v k) e p).

Lemma tab_aligned v' j q' : (j <= 3)%nat → tab (words s) root v' j = Some q' → q' mod 4096 = 0.
Proof.
  intros Hj Hq'. by destruct (frame_bounds s root d q' Hok (ok_table _ _ _ _ Hok v' j q' Hj Hq')) as [? _].
Qed.

Lemma no_child : tab (words s) root v (S k) = None.
Proof. cbn [tab]. rewrite Hq. bind_red. unfold child. cbv zeta. by rewrite Habs. Qed.

(** An entry of a table other than the one written is as before. *)
Lemma word_link v' j q' : (j <= 3)%nat → tab (words s) root v' j = Some q' →
  word m1 (q' + 8 * idx v' j) =
    if decide (j = k ∧ pre v' (S j) = pre v (S k)) then e else word (words s) (q' + 8 * idx v' j).
Proof.
  intros Hj Hq'. rewrite Hm1 by (try apply idx_range; by eapply tab_aligned).
  rewrite decide_False by (intros ->; by apply (Hfresh v' j)).
  destruct (decide (q' = q ∧ idx v' j = idx v k)) as [[-> Hi]|Hne].
  - destruct (ok_inj _ _ _ _ Hok v' v j k q) as [-> Hpre]; [lia|lia|done..|].
    rewrite decide_True; [done|]. split; [done|]. apply pre_S_eq; [lia|done].
  - rewrite decide_False; [done|]. intros [-> Hpre]. apply pre_S_eq in Hpre as [Hpre Hi]; [|lia].
    rewrite (tab_pre _ root v' v k) in Hq' by (lia || done). apply Hne. split; [congruence|done].
Qed.

Lemma tab_link v' j : (j <= 3)%nat →
  tab m1 root v' j = if decide (j = S k ∧ pre v' j = pre v j) then Some p else tab (words s) root v' j.
Proof.
  induction j as [|j IH]; intros Hj; [by rewrite decide_False by lia|].
  cbn [tab]. rewrite IH by lia. destruct (decide (j = S k ∧ pre v' j = pre v j)) as [[-> Hpre]|Hne].
  - rewrite decide_False by lia. rewrite (tab_pre _ root v' v (S k)), no_child by (done || lia). bind_red.
    unfold child. rewrite Hm1 by (done || apply idx_range). by rewrite decide_True.
  - destruct (tab (words s) root v' j) as [q'|] eqn:Hq'; bind_red.
    + unfold child. cbv zeta. rewrite (word_link v' j q') by (done || lia).
      destruct (decide (j = k ∧ _)) as [[-> Hpre]|Hno].
      * rewrite decide_True by done. by rewrite Hpe, Hhe, Hfe.
      * rewrite decide_False; [done|]. intros [[= ->] ?]. by apply Hno.
    + rewrite decide_False; [done|]. intros [[= ->] Hpre].
      apply (pre_le v' v k (S k)) in Hpre; [|lia]. rewrite (tab_pre _ root v' v k) in Hq' by (done || lia).
      congruence.
Qed.

Lemma leaf_link v' j : (j <= 3)%nat → leaf m1 root v' j = leaf (words s) root v' j.
Proof.
  intros Hj. unfold leaf. rewrite tab_link by done.
  destruct (decide (j = S k ∧ pre v' j = pre v j)) as [[-> Hpre]|Hne].
  - rewrite (tab_pre _ root v' v (S k)), no_child by (done || lia). bind_red.
    rewrite Hm1 by (done || apply idx_range). by rewrite decide_True.
  - destruct (tab (words s) root v' j) as [q'|] eqn:Hq'; [|done]. bind_red.
    rewrite (word_link v' j q') by done. destruct (decide (j = k ∧ _)) as [[-> Hpre]|Hno]; [|done].
    rewrite Hpe, Hhe, bool_decide_false by lia. cbn [andb orb negb]. apply pre_S_eq in Hpre as [Hpre Hi]; [|lia].
    rewrite (tab_pre _ root v' v k) in Hq' by (done || lia). assert (q' = q) as -> by congruence.
    by rewrite Hi, Habs.
Qed.

(** The new table keeps the address space well-formed. *)
Lemma aspace_link s1 d1 : words s1 = m1 → active_pdir s1 = active_pdir s →
  pmm_inv (vpmm s1) d1 → frame_taken (vpmm s1) d1 p →
  (∀ r, frame_taken (vpmm s) d r → frame_taken (vpmm s1) d1 r) →
  ram_offset (vpmm s1) = ram_offset (vpmm s) → len (mat (vpmm s1)) = len (mat (vpmm s)) →
  (∀ a, 0 <= word m1 a < 2 ^ 64) → e < 2 ^ 52 → hw_write e = true → hw_user e = true →
  tables_ok off s1 root d1.
Proof.
  intros Hw Hact Hinv Hpt Hmono Hro Hlen Hword He Hwr Hus. destruct Hok as [Ha _ Ho Hr Hd Hph _ Htab Hin Hinj Hpg].
  split; rewrite ?Hw, ?Hact, ?Hro, ?Hlen; try done.
  - intros v' j r Hj. rewrite tab_link by done. case_decide; [by intros [= <-]|]. intros Ht. eauto.
  - intros v' j q' Hj. rewrite tab_link by lia. case_decide as Hnew.
    + intros [= <-]. cbv zeta. rewrite Hm1 by (done || apply idx_range). by rewrite decide_True.
    + intros Ht. cbv zeta. rewrite (word_link v' j q') by (done || lia). case_decide; [done|]. by apply Hin.
  - intros v' v'' j j' r Hj Hj'. rewrite !tab_link by done.
    destruct (decide (j = S k ∧ _)) as [[-> Hp1]|_], (decide (j' = S k ∧ _)) as [[-> Hp2]|_].
    + intros _ _. split; [done|congruence].
    + intros [= <-] Ht. by apply Hfresh in Ht.
    + intros Ht [= <-]. by apply Hfresh in Ht.
    + intros. by apply Hinj with (p := r).
  - intros v' e'. rewrite leaf_link by done. apply Hpg.
Qed.
End link.

(** ** Writing the entry of a page *)

Section write.
Context (s : vm) (root : Z) (d : list Z) (v : Z) (q e : Z).
Context (Hok : tables_ok off s root d) (Hq : tab (words s) root v 3 = Some q) (He : 0 <= e < 2 ^ 52).

Definition written : vm := set_words s (<[q + 8 * idx v 3 := e]> (words s)).

Lemma word_write v' j q' : (j <= 3)%nat → tab (words s) root v' j = Some q' →
  word (words written) (q' + 8 * idx v' j) =
    if decide (j = 3%nat ∧ pre v' 4 = pre v 4) then e else word (words s) (q' + 8 * idx v' j).
Proof.
  intros Hj Hq'. unfold written. cbn [words set_words]. rewrite word_insert.
  destruct (decide (q + 8 * idx v 3 = q' + 8 * idx v' j)) as [Heq|Hne].
  - apply entry_inj in Heq as [-> Hi]; [|by apply (tab_aligned s root d Hok v 3)|by apply (tab_aligned s root d Hok v' j)|apply idx_range..].
    destruct (ok_inj _ _ _ _ Hok v' v j 3%nat q') as [-> Hpre]; [lia|lia|done..|].
    rewrite decide_True; [done|]. split; [done|]. apply pre_S_eq; [lia|done].
  - rewrite decide_False; [done|]. intros [-> Hpre]. apply pre_S_eq in Hpre as [Hpre Hi]; [|lia].
    rewrite (tab_pre _ root v' v 3) in Hq' by (lia || done). apply Hne. rewrite Hi. congruence.
Qed.

Lemma tab_write v' j : (j <= 3)%nat → tab (words written) root v' j = tab (words s) root v' j.
Proof.
  induction j as [|j IH]; intros Hj; [done|]. cbn [tab]. rewrite IH by lia.
  destruct (tab (words s) root v' j) as [q'|] eqn:Hq'; [|done]. bind_red.
  unfold child. rewrite (word_write v' j q') by (done || lia). by rewrite decide_False by lia.
Qed.

Lemma leaf_write v' j : (j <= 3)%nat → leaf (words written) root v' j =
  if decide (j = 3%nat ∧ pre v' 4 = pre v 4) then (if hw_present e then Some e else None)
  else leaf (words s) root v' j.
Proof.
  intros Hj. unfold leaf. rewrite tab_write by done.
  destruct (tab (words s) root v' j) as [q'|] eqn:Hq'; bind_red.
  - rewrite (word_write v' j q') by done. case_decide as H1; [|done].
    destruct H1 as [-> _]. by rewrite bool_decide_true, andb_true_r by done.
  - rewrite decide_False; [done|]. intros [-> Hpre]. apply (pre_le _ _ 3) in Hpre; [|lia].
    rewrite (tab_pre _ root v' v 3) in Hq' by (lia || done). congruence.
Qed.

Lemma aspace_write : tables_ok off written root d.
Proof.
  pose proof (λ v' j Hj, tab_write v' j Hj) as Ht. pose proof (leaf_write) as Hl.
  destruct Hok as [Ha Hi Ho Hr Hd Hph Hw Htab Hin Hinj Hpg].
  split; try done.
  - intros a. unfold written. cbn [words set_words]. rewrite word_insert. case_decide; [lia|apply Hw].
  - intros v' j r Hj. rewrite Ht by done. by apply Htab.
  - intros v' j q' Hj. rewrite Ht by lia. intros Hq'. rewrite (word_write v' j q') by (done || lia).
    rewrite decide_False by lia. by apply Hin.
  - intros v' v'' j j' r Hj Hj'. rewrite !Ht by done. by apply Hinj.
  - intros v' e'. rewrite Hl by done. case_decide; [|apply Hpg].
    destruct (hw_present e); [|done]. intros [= <-]. lia.
Qed.
End write.

(** ** What the processor finds, from the ends of the walks *)

Definition page_of (k e v : Z) : Z * bool * bool := (hw_frame k e + v mod 2 ^ k, hw_write e, hw_user e).

(** The walk from a table of depth [k] on. *)
Definition ends (m : gmap Z Z) (root v : Z) : option (Z * bool * bool) :=
  match leaf m root v 3 with
  | Some e => Some (page_of 12 e v)
  | None => match leaf m root v 2 with
            | Some e => Some (page_of 21 e v)
            | None => (λ e, page_of 30 e v) <$> leaf m root v 1
            end
  end.

(** One level of the walk at a table of depth [k]. *)
Lemma walk_step s root d v k q : tables_ok off s root d → (k < 3)%nat → tab (words s) root v k = Some q →
  hw_walk (words s) q v (3 - k) true true =
    match tab (words s) root v (S k) with
    | Some q' => hw_walk (words s) q' v (3 - S k) true true
    | None => if bool_decide (k = 0%nat) then None
              else (λ e, page_of (ptable_entity_vaddr_offset_at_level (3 - k)) e v) <$> leaf (words s) root v k
    end.
Proof.
  intros Hok Hk Hq. pose proof (ok_inner _ _ _ _ Hok v k q Hk Hq) as Hin. cbv zeta in Hin.
  unfold leaf. cbn [tab]. rewrite Hq. bind_red. unfold child. cbv zeta.
  assert (Hlv : (3 - k = S (3 - S k))%nat) by lia.
  rewrite Hlv at 1. cbn [hw_walk]. rewrite <-Hlv.
  destruct (hw_present _); [|by destruct (bool_decide (k = 0%nat))]. cbn [negb andb].
  destruct (hw_huge _); cbn [negb].
  - rewrite (bool_decide_ext (3 - k = PTABLE_LV_TOP)%nat (k = 0%nat)) by (unfold PTABLE_LV_TOP; lia).
    rewrite (bool_decide_false (k = 3%nat)) by lia. by destruct (bool_decide _).
  - by destruct Hin as (_ & -> & ->).
Qed.

Lemma translate_ends s root d v : tables_ok off s root d → translate (words s) root v = ends (words s) root v.
Proof.
  intros Hok. unfold translate, ends, PTABLE_LV_TOP. change 3%nat with (3 - 0)%nat at 1.
  rewrite (walk_step s root d v 0 root) by (done || lia). rewrite bool_decide_true by done.
  destruct (tab (words s) root v 1) as [q1|] eqn:H1.
  2:{ rewrite !leaf_no_tab; [done|done|by apply (tab_none _ _ _ 1); [lia|]..]. }
  rewrite (walk_step s root d v 1 q1) by (done || lia).
  destruct (tab (words s) root v 2) as [q2|] eqn:H2.
  2:{ rewrite (leaf_no_tab _ _ _ 2), (leaf_no_tab _ _ _ 3); [done|by apply (tab_none _ _ _ 2); [lia|]|done]. }
  rewrite (walk_step s root d v 2 q2) by (done || lia).
  pose proof (leaf_inner _ _ _ 1 _ ltac:(lia) H2) as Hl1.
  destruct (tab (words s) root v 3) as [q3|] eqn:H3.
  2:{ rewrite (leaf_no_tab _ _ _ 3), Hl1 by done. cbn. by destruct (leaf _ _ _ _). }
  pose proof (leaf_inner _ _ _ 2 _ ltac:(lia) H3) as Hl2.
  rewrite Hl1, Hl2. unfold leaf. rewrite H3. bind_red. cbv zeta. rewrite bool_decide_true, andb_true_r by done.
  cbn [Nat.sub hw_walk]. by destruct (hw_present _).
Qed.

(** ** Frames of the memory manager *)

(** [p] is a frame that was free and has been handed out. *)
Definition new_frame (st : pmm_state_t) (d : list Z) (p : Z) (st' : pmm_state_t) (d' : list Z) : Prop :=
  ∃ b, 0 <= b < len (mat st) ∧ bit d b = false ∧ p = ram_offset st + b * 4096 ∧
    (∀ i, 0 <= i → bit d' i = bool_decide (i = b) || bit d i) ∧ pmm_inv st' d' ∧
    len (mat st') = len (mat st) ∧ ram_offset st' = ram_offset st.

Definition free_frames (st : pmm_state_t) (d : list Z) : nat :=
  length (filter (λ i, bit d i = false) (seqZ 0 (len (mat st)))).

Lemma filter_ext_in {A} (P Q : A → Prop) `{∀ x, Decision (P x)} `{∀ x, Decision (Q x)} (l : list A) :
  (∀ x, x ∈ l → P x ↔ Q x) → filter P l = filter Q l.
Proof.
  induction l as [|x l IH]; intros Heq; [done|]. rewrite !filter_cons, IH.
  - destruct (Heq x); [apply list_elem_of_here|]. by destruct (decide (P x)), (decide (Q x)); try tauto.
  - intros y Hy. apply Heq. by apply list_elem_of_further.
Qed.

Lemma filter_but_one {A} (P Q : A → Prop) `{∀ x, Decision (P x)} `{∀ x, Decision (Q x)} (l : list A) b :
  NoDup l → b ∈ l → P b → (∀ x, x ∈ l → Q x ↔ P x ∧ x ≠ b) →
  length (filter P l) = S (length (filter Q l)).
Proof.
  intros Hnd Hb HP HQ. apply list_elem_of_split in Hb as (l1 & l2 & ->).
  apply NoDup_app in Hnd as (_ & Hd & Hnd). apply NoDup_cons in Hnd as [Hb2 _].
  rewrite !filter_app, !filter_cons, !length_app, (decide_True _ _ HP).
  assert (Hin : ∀ x, x ∈ l1 ∨ x ∈ l2 ∨ x = b → x ∈ l1 ++ b :: l2).
  { intros x Hx. apply elem_of_app. rewrite elem_of_cons. tauto. }
  rewrite (decide_False (P := Q b)) by (rewrite HQ by auto; tauto).
  rewrite (filter_ext_in Q P l1), (filter_ext_in Q P l2); [simpl; lia|..]; intros x Hx;
    (rewrite HQ by auto; split; [tauto|]; intros; split; [done|]; intros ->).
  - done.
  - apply (Hd b); [done|by apply list_elem_of_here].
Qed.

Lemma new_frame_count st d p st' d' : new_frame st d p st' d' →
  free_frames st d = S (free_frames st' d').
Proof.
  intros (b & Hb & Hfree & _ & Hbit & _ & Hlen & _). unfold free_frames. rewrite Hlen.
  apply (filter_but_one _ _ _ b); [apply NoDup_seqZ|by apply elem_of_seqZ|done|].
  intros x Hx%elem_of_seqZ. rewrite Hbit by lia. case_bool_decide; simpl; [by subst; split; [|intros []]|by split; [|intros []]].
Qed.

Lemma frame_alloc st d : pmm_inv st d → (0 < free_frames st d)%nat →
  ∃ p st' d', pmm_alloc_aligned 4096 4096 st = Some (p, st') ∧ new_frame st d p st' d'.
Proof.
  intros Hinv Hfree. change (pmm_alloc_aligned 4096 4096 st) with (pmm_alloc_blocks 1 st).
  destruct (pmm_alloc_blocks_spec st d 1 Hinv) as (p & st' & Heq & Hcase); [lia|].
  exists p, st'. destruct Hcase as [(b & _ & Hal)|(_ & _ & Hno)].
  - destruct Hal as (Hb & Hin & Hfr & Hp & Hset).
    destruct (blocks_set_inv true st st' d b 1 Hinv Hset Hb) as (d' & Hinv' & Hupd); [done|].
    exists d'. split; [done|]. exists b. split; [lia|]. split; [apply Hfr; lia|]. split; [done|].
    split; [|split; [done|by destruct Hset as (? & _ & ->)]].
    intros i Hi. destruct Hupd as (_ & _ & ->); [|done]. destruct (decide (b <= i < b + 1)).
    + by rewrite bool_decide_true by lia.
    + by rewrite bool_decide_false by lia.
  - exfalso. unfold free_frames in Hfree.
    destruct (filter _ (seqZ 0 (len (mat st)))) as [|i l] eqn:Hf; [simpl in Hfree; lia|].
    assert (Hi : i ∈ filter (λ i, bit d i = false) (seqZ 0 (len (mat st)))) by (rewrite Hf; apply list_elem_of_here).
    apply list_elem_of_filter in Hi as [Hbit Hi%elem_of_seqZ].
    apply (Hno i); [lia..|]. intros j Hj. by assert (j = i) as -> by lia.
Qed.

Lemma new_frame_taken st d p st' d' : new_frame st d p st' d' → frame_taken st' d' p ∧
  ¬ frame_taken st d p ∧ ∀ r, frame_taken st d r → frame_taken st' d' r.
Proof.
  intros (b & Hb & Hfree & -> & Hbit & _ & Hlen & Hro). split; [|split].
  - exists b. rewrite Hlen, Hro, Hbit, bool_decide_true by lia. done.
  - intros (b' & Hb' & He & Ht). assert (b' = b) as -> by lia. congruence.
  - intros r (b' & Hb' & -> & Ht). exists b'. rewrite Hlen, Hro, Hbit, Ht, orb_true_r by lia. done.
Qed.

(** ** A table for the next level *)

Definition foreign (m : gmap Z Z) (root r : Z) : Prop := ∀ v j, (j <= 3)%nat → tab m root v j ≠ Some r.

(** A page of memory the manager may not hand out: taken, or not RAM. *)
Definition kept (st : pmm_state_t) (d : list Z) (r : Z) : Prop :=
  r mod 4096 = 0 ∧ ∀ b, 0 <= b < len (mat st) → r = ram_offset st + b * 4096 → bit d b = true.

Definition same_page_words (m m' : gmap Z Z) (r : Z) : Prop :=
  ∀ i, 0 <= i < 512 → word m' (r + 8 * i) = word m (r + 8 * i).

(** From [s] to [s'] the address space got at most new, empty tables. *)
Record grows (root : Z) (s : vm) (d : list Z) (s' : vm) (d' : list Z) : Prop := {
  gr_ok : tables_ok off s' root d';
  gr_leaf : ∀ v j, (j <= 3)%nat → leaf (words s') root v j = leaf (words s) root v j;
  gr_kept : ∀ r, kept (vpmm s) d r → foreign (words s) root r →
    kept (vpmm s') d' r ∧ foreign (words s') root r ∧ same_page_words (words s) (words s') r;
}.

Lemma grows_refl root s d : tables_ok off s root d → grows root s d s d.
Proof. by split. Qed.

Lemma grows_trans root s d s1 d1 s2 d2 : grows root s d s1 d1 → grows root s1 d1 s2 d2 → grows root s d s2 d2.
Proof.
  intros [_ Hl1 Hk1] [Hok Hl2 Hk2]. split; [done|intros; by rewrite Hl2, Hl1|].
  intros r Hr Hf. destruct (Hk1 r Hr Hf) as (Hr1 & Hf1 & Hw1). destruct (Hk2 r Hr1 Hf1) as (? & ? & Hw2).
  split; [done|]. split; [done|]. intros i Hi. by rewrite Hw2, Hw1.
Qed.

Lemma grows_no_huge root s d s' d' v : grows root s d s' d' → no_huge (words s) root v → no_huge (words s') root v.
Proof. intros H Hnh k Hk. rewrite (gr_leaf _ _ _ _ _ H) by lia. by apply Hnh. Qed.

Lemma update_entity s q v k f : direct q →
  update off (vm_lookup (off + q) (3 - k) v) f s =
    Some (set_words s (<[q + 8 * idx v k := f (word (words s) (q + 8 * idx v k))]> (words s))).
Proof.
  intros Hd. destruct (lookup_entity s q v k Hd) as (Hnz & _ & He & Hph). unfold update.
  destruct (Z.eqb_spec (vm_lookup (off + q) (3 - k) v) 0); [done|]. by rewrite He, Hph.
Qed.

(** The three updates that make an entry anew. *)
Lemma set_entity {B} s q v k lv mf f (K : vm → option B) : direct q →
  (s1 ← update off (vm_lookup (off + q) (3 - k) v) (λ e, vm_ptable_entity_set_default_flags e lv) s;
   s2 ← update off (vm_lookup (off + q) (3 - k) v) (λ e, vm_ptable_entity_set_mmu_flags e lv mf) s1;
   s3 ← update off (vm_lookup (off + q) (3 - k) v) (λ e, vm_ptable_entity_set_frame e lv f) s2; K s3) =
  K (set_words s (<[q + 8 * idx v k :=
       vm_ptable_entity_set_frame (vm_ptable_entity_set_mmu_flags 0 lv mf) lv f]> (words s))).
Proof.
  intros Hd. returns (update_entity s q v k (λ e, vm_ptable_entity_set_default_flags e lv) Hd).
  rewrite update_entity by done. bind_red. rewrite update_entity by done. bind_red.
  unfold set_words. cbn [words vpmm active_pdir]. by rewrite !insert_insert_eq, !word_insert, !decide_True by done.
Qed.

Section one_table.
Context (s : vm) (root : Z) (d : list Z) (v : Z) (k : nat) (q : Z).
Context (Hok : tables_ok off s root d) (Hnh : no_huge (words s) root v).
Context (Hk : (k < 3)%nat) (Hq : tab (words s) root v k = Some q).

Lemma tab_insert e j : (j <= k)%nat →
  tab (<[q + 8 * idx v k := e]> (words s)) root v j = tab (words s) root v j.
Proof.
  induction j as [|j IH]; intros Hj; [done|]. cbn [tab]. rewrite IH by lia.
  destruct (tab (words s) root v j) as [q'|] eqn:Hq'; [|done]. bind_red. unfold child. cbv zeta.
  rewrite word_insert, decide_False; [done|]. intros Heq.
  apply entry_inj in Heq as [-> _];
    [|by apply (tab_aligned s root d Hok v k); [lia|]|by apply (tab_aligned s root d Hok v j); [lia|]|apply idx_range..].
  destruct (ok_inj _ _ _ _ Hok v v j k q') as [-> _]; [lia|lia|done..|lia].
Qed.

(** With the entry set to a table at [p], the walk gets one table further. *)
Lemma walkable_insert st p : direct p → p mod 4096 = 0 → p + 4096 <= 2 ^ 52 →
  let m := <[q + 8 * idx v k := 7 + p]> (words s) in
  walkable (mk_vm m st (active_pdir s)) root v (S k) ∧ tab m root v (S k) = Some p.
Proof.
  intros Hd Hal Hp m. destruct (aspace_walkable s root d v Hok Hnh) as (Ha & Hr & Hw).
  destruct (flags_frame 7 p (3 - k)) as (_ & Hg & Hf & _); [lia|unfold direct in Hd; lia|done|].
  assert (He : word m (q + 8 * idx v k) = 7 + p) by (unfold m; by rewrite word_insert, decide_True).
  assert (Hpr : hw_present (7 + p) = true ∧ hw_huge (7 + p) = false).
  { unfold hw_present, hw_huge. by rewrite !testbit_page by (done || lia). }
  split; [split; [done|]; split; [done|]|].
  - cbn [words]. intros j q' Hj Hq'. unfold m in Hq'. rewrite tab_insert in Hq' by lia. fold m.
    destruct (decide (j = k)) as [->|Hne].
    + assert (q' = q) as -> by congruence. cbv zeta. rewrite He. intros _. rewrite Hg, Hf. by destruct Hpr.
    + assert (word m (q' + 8 * idx v j) = word (words s) (q' + 8 * idx v j)) as ->; [|apply Hw; [lia|done]].
      unfold m. rewrite word_insert, decide_False; [done|]. intros Heq.
      apply entry_inj in Heq as [-> _];
        [|by apply (tab_aligned s root d Hok v k); [lia|]|by apply (tab_aligned s root d Hok v j); [lia|]|apply idx_range..].
      destruct (ok_inj _ _ _ _ Hok v v j k q') as [-> _]; [lia|lia|done..].
  - cbn [tab]. assert (tab m root v k = Some q) as -> by (unfold m; by rewrite tab_insert). bind_red. unfold child. cbv zeta. rewrite He.
    destruct Hpr as [-> ->]. by rewrite Hf.
Qed.
End one_table.

Lemma memset_table p st m a : direct p →
  memset_zero off (off + p) (PTABLE_SIZE 0) (mk_vm m st a) = Some (mk_vm (zero_words p 512 m) st a).
Proof.
  intros (? & ? & ?). unfold memset_zero. destruct (Z.eqb_spec (off + p) 0); [lia|]. cbn [words].
  destruct (phys_direct p 0) as [Hph _]; [lia..|]. rewrite u64_small in Hph by lia.
  replace (off + p + 8 * 0) with (off + p) in Hph by lia. by rewrite Hph, Z.add_0_r.
Qed.

Lemma linked_zero s v k q p e : p mod 4096 = 0 → q mod 4096 = 0 → p ≠ q →
  linked (words s) (zero_words p 512 (<[q + 8 * idx v k := e]> (words s))) q (idx v k) e p.
Proof.
  intros Hp Hqa Hne q' i' Hq' Hi'. pose proof (idx_range v k). rewrite word_zero, word_insert.
  change (Z.of_nat 512) with 512. destruct (decide (q' = p)) as [->|Hqp].
  - rewrite decide_True; [done|]. split; [lia|]. replace (p + 8 * i' - p) with (i' * 8) by lia. by apply Z.mod_mul.
  - rewrite decide_False by (Z.div_mod_to_equations; lia).
    destruct (decide (q' = q ∧ i' = idx v k)) as [[-> ->]|Hn]; [by rewrite decide_True|].
    rewrite decide_False; [done|]. intros Heq. apply Hn. by apply entry_inj in Heq as [-> ->].
Qed.

Lemma kept_fresh s d p st' d' r : new_frame (vpmm s) d p st' d' → kept (vpmm s) d r → kept st' d' r ∧ r ≠ p.
Proof.
  intros (b & Hb & Hfree & -> & Hbit & _ & Hlen & Hro) [Hal Hr]. split; [split; [done|]|].
  - intros b' Hb' ->. rewrite Hlen, Hro in *. by rewrite Hbit, Hr, orb_true_r by lia.
  - intros ->. rewrite (Hr b) in Hfree by done. done.
Qed.

(** What is known of a frame just handed out. *)
Lemma new_frame_facts s root d p st' d' : tables_ok off s root d → new_frame (vpmm s) d p st' d' →
  p mod 4096 = 0 ∧ p + 4096 <= 2 ^ 52 ∧ direct p ∧ foreign (words s) root p.
Proof.
  intros Hok Hnew. pose proof (ok_off _ _ _ _ Hok). destruct (new_frame_taken _ _ _ _ _ Hnew) as (_ & Hntk & _).
  split; [|split; [|split; [split; [done|]|]]].
  4:{ intros v' j Hj Ht. by apply (ok_table _ _ _ _ Hok) in Ht. }
  all: destruct Hnew as (b & Hb & _ & -> & _); destruct Hok as [? (_ & ? & _) ? Hro ? ? _ _ _ _ _].
  - by rewrite Z.mod_add by lia.
  - lia.
  - lia.
Qed.

(** The state after the missing table of [v] below [q] was put at [p]. *)
Definition table_added (s : vm) (v : Z) (k : nat) (q p : Z) (st' : pmm_state_t) : vm :=
  mk_vm (zero_words p 512 (<[q + 8 * idx v k := 7 + p]> (words s))) st' (active_pdir s).

Lemma table_added_grows s root d v k q p st' d' : tables_ok off s root d → (k < 3)%nat →
  tab (words s) root v k = Some q → hw_present (word (words s) (q + 8 * idx v k)) = false →
  new_frame (vpmm s) d p st' d' →
  grows root s d (table_added s v k q p st') d' ∧ tab (words (table_added s v k q p st')) root v (S k) = Some p.
Proof.
  intros Hok Hk Hq Hpr Hnew. destruct (new_frame_facts s root d p st' d' Hok Hnew) as (Hpa & Hp52 & (_ & Hp0 & Hp64) & Hfr).
  destruct (new_frame_taken _ _ _ _ _ Hnew) as (Htk & _ & Hmono).
  destruct (flags_frame 7 p 0) as (_ & _ & Hff & _); [lia..|done|].
  assert (Hqp : p ≠ q) by (intros ->; by apply (Hfr v k); [lia|]).
  pose proof (tab_aligned s root d Hok v k q ltac:(lia) Hq) as Hqa.
  pose proof (linked_zero s v k q p (7 + p) Hpa Hqa Hqp) as Hlink.
  assert (Hb : hw_present (7 + p) = true ∧ hw_huge (7 + p) = false ∧ hw_write (7 + p) = true ∧ hw_user (7 + p) = true).
  { unfold hw_present, hw_huge, hw_write, hw_user. by rewrite !testbit_page by (done || lia). }
  destruct Hb as (Hb0 & Hb7 & Hb1 & Hb2).
  assert (Htl : ∀ v' j, (j <= 3)%nat → tab (words (table_added s v k q p st')) root v' j =
    if decide (j = S k ∧ pre v' j = pre v j) then Some p else tab (words s) root v' j).
  { intros v' j Hj. by eapply (tab_link s root d v k q p (7 + p)). }
  split; [split|].
  - pose proof Hnew as (b & _ & _ & _ & _ & Hinv' & Hlen & Hro).
    eapply (aspace_link s root d v k q p (7 + p)); try done; [|lia].
    intros a. cbn [words table_added]. rewrite word_zero, word_insert. pose proof (ok_word _ _ _ _ Hok a).
    repeat case_decide; lia.
  - intros v' j Hj. by eapply leaf_link.
  - intros r Hr Hrf. destruct (kept_fresh s d p st' d' r Hnew Hr) as [Hr' Hrp]. split; [done|]. split.
    + intros v' j Hj. rewrite Htl by done. case_decide; [congruence|]. by apply Hrf.
    + intros i Hi. cbn [words table_added]. rewrite Hlink by (done || apply Hr). rewrite decide_False by done.
      rewrite decide_False; [done|]. intros [-> _]. by apply (Hrf v k); [lia|].
  - rewrite Htl by lia. by rewrite decide_True.
Qed.

Lemma ensure_table_spec s root d v k q : tables_ok off s root d → no_huge (words s) root v →
  (k < 3)%nat → tab (words s) root v k = Some q → (0 < free_frames (vpmm s) d)%nat →
  ∃ s' d' p, ensure_table off v (vm_lookup (off + q) (3 - k) v) (3 - S k) (3 - k) s = Some s' ∧
    grows root s d s' d' ∧ tab (words s') root v (S k) = Some p ∧
    (free_frames (vpmm s) d <= S (free_frames (vpmm s') d'))%nat.
Proof.
  intros Hok Hnh Hk Hq Hfree. pose proof (aspace_walkable s root d v Hok Hnh) as Hwk.
  pose proof (walkable_tab s root v 3 k q Hwk ltac:(lia) Hq) as Hd.
  destruct (lookup_entity s q v k Hd) as (Hnz & _ & Hent & _).
  unfold ensure_table, entity_is_present. destruct (Z.eqb_spec (vm_lookup (off + q) (3 - k) v) 0); [done|].
  rewrite Hent, present_at. destruct (hw_present _) eqn:Hpr.
  { exists s, d, (hw_frame 12 (word (words s) (q + 8 * idx v k))). split; [done|]. split; [by apply grows_refl|].
    split; [|lia]. cbn [tab]. rewrite Hq. bind_red. unfold child. cbv zeta.
    by rewrite Hpr, (no_huge_entry _ _ _ _ _ Hnh Hk Hq Hpr). }
  destruct (frame_alloc _ _ (ok_pmm _ _ _ _ Hok) Hfree) as (p & st' & d' & Hal & Hnew).
  destruct (new_frame_facts s root d p st' d' Hok Hnew) as (Hpa & Hp52 & Hdp & _).
  unfold vm_alloc_ptable_paddr. change (PTABLE_SIZE (3 - S k)) with 4096. returns Hal.
  rewrite set_entity, set_mmu_flags_table by (done || lia).
  destruct (flags_frame 7 p (3 - k)) as (-> & _); [lia|unfold direct in Hdp; lia|done|].
  destruct (walkable_insert s root d v k q Hok Hnh Hk Hq st' p Hdp Hpa Hp52) as [Hwk1 Ht1].
  destruct (table_added_grows s root d v k q p st' d' Hok Hk Hq Hpr Hnew) as [Hgr Htab].
  exists (table_added s v k q p st'), d', p. split; [|split; [done|split; [done|]]].
  - unfold set_words, set_pmm. cbn [words vpmm active_pdir].
    returns (vm_get_table_spec _ root v (S k) (S k) Hwk1 ltac:(lia) ltac:(lia)). cbn [words]. rewrite Ht1.
    by apply (memset_table p).
  - rewrite (new_frame_count _ _ _ _ _ Hnew). cbn [vpmm table_added]. lia.
Qed.

(** ** Mapping a page *)

(** The entry of a page at [paddr] with flags [mf]. *)
Definition page_entry (paddr mf : Z) : Z :=
  page_flags (Z.lor mf MMU_FLAG_PERM_READ) + (paddr - paddr mod 4096).

Lemma page_entry_facts paddr mf : 0 <= paddr < 2 ^ 52 →
  vm_ptable_entity_set_frame (vm_ptable_entity_set_mmu_flags 0 0 (Z.lor mf MMU_FLAG_PERM_READ)) 0 paddr =
    page_entry paddr mf ∧
  0 <= page_entry paddr mf < 2 ^ 52 ∧ hw_present (page_entry paddr mf) = true ∧
  hw_write (page_entry paddr mf) = Z.testbit mf 0 ∧ hw_user (page_entry paddr mf) = Z.testbit mf 4 ∧
  hw_frame 12 (page_entry paddr mf) = paddr - paddr mod 4096.
Proof.
  intros Hp. unfold page_entry. pose proof (page_flags_range (Z.lor mf MMU_FLAG_PERM_READ)).
  assert (Hal : (paddr - paddr mod 4096) mod 4096 = 0) by (Z.div_mod_to_equations; lia).
  assert (Hr : 0 <= paddr - paddr mod 4096 ∧ paddr - paddr mod 4096 + 4096 <= 2 ^ 52) by (Z.div_mod_to_equations; lia).
  rewrite set_mmu_flags_page, set_frame_round.
  destruct (flags_frame (page_flags (Z.lor mf MMU_FLAG_PERM_READ)) (paddr - paddr mod 4096) 0)
    as (-> & _ & -> & _); [lia..|done|].
  destruct (page_flags_bits (Z.lor mf MMU_FLAG_PERM_READ) _ Hal) as (-> & -> & -> & _).
  rewrite !Z.lor_spec. split_and!; [done|lia|lia|by rewrite orb_true_r|by rewrite orb_false_r..|done].
Qed.

Lemma map_lv0_spec s root d v q paddr mf : tables_ok off s root d → no_huge (words s) root v →
  tab (words s) root v 3 = Some q → 0 <= paddr < 2 ^ 52 → ∀ ptable, ptable ≠ 0 →
  _vmm_map_page_locked_lv0 off ptable v paddr mf s = Some (0, written s v q (page_entry paddr mf)).
Proof.
  intros Hok Hnh Hq Hp ptable Hnz. pose proof (aspace_walkable s root d v Hok Hnh) as Hwk.
  pose proof (walkable_tab s root v 3 3 q Hwk ltac:(lia) Hq) as Hd.
  unfold _vmm_map_page_locked_lv0. destruct (Z.eqb_spec ptable 0); [done|].
  pose proof (vm_get_entity_spec s root v 3 3 Hwk ltac:(lia) ltac:(lia)) as He. rewrite Hq in He.
  change (3 - 3)%nat with 0%nat in He. returns He.
  pose proof (set_entity s q v 3 0 (Z.lor mf MMU_FLAG_PERM_READ) paddr (λ s, Some (0, s)) Hd) as Hs.
  change (3 - 3)%nat with 0%nat in Hs. rewrite Hs. by destruct (page_entry_facts paddr mf Hp) as [-> _].
Qed.

Lemma map_impl_spec root v paddr mf lv : (lv <= 2)%nat → 0 <= paddr < 2 ^ 52 → ∀ s d q,
  tables_ok off s root d → no_huge (words s) root v → tab (words s) root v (2 - lv) = Some q →
  (lv < free_frames (vpmm s) d)%nat →
  ∃ s1 d1 q1, grows root s d s1 d1 ∧ tab (words s1) root v 3 = Some q1 ∧
    (free_frames (vpmm s) d <= S lv + free_frames (vpmm s1) d1)%nat ∧
    _vmm_map_page_locked_impl off (off + q) v paddr mf lv 0 s = Some (0, written s1 v q1 (page_entry paddr mf)).
Proof.
  intros Hlv Hp. induction lv as [|lv IH]; intros s d q Hok Hnh Hq Hfree;
    pose proof (aspace_walkable s root d v Hok Hnh) as Hwk.
  - pose proof (walkable_tab s root v 3 2 q Hwk ltac:(lia) Hq) as Hd.
    destruct (lookup_entity s q v 2 Hd) as (_ & Hnz & _).
    destruct (ensure_table_spec s root d v 2 q) as (s1 & d1 & p & He & Hg & Hp1 & Hfr); [done|done|lia|done|lia|].
    exists s1, d1, p. split; [done|]. split; [done|]. split; [lia|].
    cbn [_vmm_map_page_locked_impl]. destruct (Z.eqb_spec (off + q) 0); [done|].
    change (upper_level 0) with (Some 1%nat). bind_red.
    pose proof (vm_get_entity_spec s root v 3 2 Hwk ltac:(lia) ltac:(lia)) as Hge.
    change (2 - 0)%nat with 2%nat in Hq. rewrite Hq in Hge. change (3 - 2)%nat with 1%nat in *. returns Hge.
    change (3 - 3)%nat with 0%nat in He. returns He. rewrite bool_decide_true by done.
    eapply map_lv0_spec; [by apply Hg|by eapply grows_no_huge|done|done|done].
  - remember (2 - S lv)%nat as k eqn:Hk. assert (Hlk : (S lv = 3 - S k)%nat) by lia.
    pose proof (walkable_tab s root v 3 k q Hwk ltac:(lia) Hq) as Hd.
    destruct (lookup_entity s q v k Hd) as (_ & Hnz & _).
    destruct (ensure_table_spec s root d v k q) as (s1 & d1 & p & He & Hg & Hp1 & Hfr); [done|done|lia|done|lia|].
    pose proof (gr_ok _ _ _ _ _ Hg) as Hok1. pose proof (grows_no_huge _ _ _ _ _ v Hg Hnh) as Hnh1.
    destruct (IH ltac:(lia) s1 d1 p Hok1 Hnh1) as (s2 & d2 & q2 & Hg2 & Hq2 & Hfr2 & Hr).
    { by replace (2 - lv)%nat with (S k) by lia. }
    { lia. }
    exists s2, d2, q2. split; [by eapply grows_trans|]. split; [done|]. split; [lia|].
    cbn [_vmm_map_page_locked_impl]. destruct (Z.eqb_spec (off + q) 0); [done|].
    assert (upper_level (S lv) = Some (3 - k)%nat) as ->.
    { unfold upper_level, PTABLE_LV_TOP. rewrite bool_decide_false by lia. f_equal. lia. }
    bind_red. pose proof (vm_get_entity_spec s root v 3 k Hwk ltac:(lia) ltac:(lia)) as Hge. rewrite Hq in Hge.
    returns Hge. rewrite <-Hlk in He. returns He. rewrite bool_decide_false by lia.
    pose proof (aspace_walkable s1 root d1 v Hok1 Hnh1) as Hwk1.
    pose proof (vm_get_table_spec s1 root v 3 (S k) Hwk1 ltac:(lia) ltac:(lia)) as Hgt. rewrite Hp1, <-Hlk in Hgt.
    returns Hgt. destruct (lookup_entity s1 p v (S k)) as (_ & Hnzp & _).
    { by eapply (walkable_tab s1 root v 3 (S k)); [|lia|]. }
    by destruct (Z.eqb_spec (off + p) 0).
Qed.

(** The whole of [vmm_map_page_locked]: the tables grow, then one entry is
    written. *)
Lemma vmm_map_page_spec s root d v paddr mf : tables_ok off s root d → no_huge (words s) root v →
  0 <= paddr < 2 ^ 52 → (3 <= free_frames (vpmm s) d)%nat →
  ∃ s1 d1 q1, grows root s d s1 d1 ∧ tab (words s1) root v 3 = Some q1 ∧
    (free_frames (vpmm s) d <= 3 + free_frames (vpmm s1) d1)%nat ∧
    vmm_map_page_locked_impl off v paddr mf s = Some (0, written s1 v q1 (page_entry paddr mf)).
Proof.
  intros Hok Hnh Hp Hfree. pose proof (aspace_walkable s root d v Hok Hnh) as Hwk.
  destruct (map_impl_spec root v paddr mf 2 ltac:(lia) Hp s d root Hok Hnh eq_refl ltac:(lia))
    as (s1 & d1 & q1 & Hg & Hq1 & Hfr & Hr).
  exists s1, d1, q1. split; [done|]. split; [done|]. split; [done|]. unfold vmm_map_page_locked_impl.
  rewrite (ok_active _ _ _ _ Hok).
  pose proof (vm_get_table_spec s root v 3 0 Hwk ltac:(lia) ltac:(lia)) as Hgt.
  change (3 - 0)%nat with PTABLE_LV_TOP in Hgt. cbn [tab] in Hgt. returns Hgt.
  destruct (lookup_entity s root v 0) as (_ & Hnz & _); [by apply Hwk|].
  by destruct (Z.eqb_spec (off + root) 0).
Qed.

(** ** The processor's view after an entry was written *)

Lemma translate_written s root d v q e v' : tables_ok off s root d → 0 <= e < 2 ^ 52 →
  tab (words s) root v 3 = Some q →
  translate (words (written s v q e)) root v' =
    if decide (pre v' 4 = pre v 4) then (if hw_present e then Some (page_of 12 e v') else None)
    else translate (words s) root v'.
Proof.
  intros Hok He Hq. pose proof (aspace_write s root d v q e Hok Hq He) as Hok'.
  rewrite (translate_ends _ root d v' Hok'), (translate_ends s root d v' Hok). unfold ends.
  assert (Hin : ∀ j, (j < 3)%nat → leaf (words (written s v q e)) root v' j = leaf (words s) root v' j).
  { intros j Hj. rewrite (leaf_write s root d v q e Hok Hq), decide_False by lia. done. }
  rewrite (Hin 2%nat), (Hin 1%nat), (leaf_write s root d v q e Hok Hq) by lia.
  destruct (decide (pre v' 4 = pre v 4)) as [Hpre|Hne].
  - rewrite decide_True by done. apply (pre_le v' v 3) in Hpre; [|lia].
    rewrite <-(tab_pre _ root v' v 3) in Hq by (done || lia).
    destruct (hw_present e); [done|]. pose proof (tab_some _ _ _ 2 3 _ ltac:(lia) Hq) as (q2 & Hq2).
    by rewrite (leaf_inner _ _ _ 2 q), (leaf_inner _ _ _ 1 q2) by (done || lia).
  - rewrite decide_False; [done|]. tauto.
Qed.

(** The tables that were added are not seen. *)
Lemma translate_grows root s d s' d' v : tables_ok off s root d → grows root s d s' d' →
  translate (words s') root v = translate (words s) root v.
Proof.
  intros Hok Hg. rewrite (translate_ends s' root d' v (gr_ok _ _ _ _ _ Hg)), (translate_ends s root d v Hok).
  unfold ends. by rewrite !(gr_leaf _ _ _ _ _ Hg) by lia.
Qed.

(** The address in a page, from its entry, the way the code puts it together. *)
Lemma frame_lor e v : 0 <= e < 2 ^ 52 → 0 <= v →
  Z.lor (e - e mod 4096) (Z.land v 0xfff) = hw_frame 12 e + v mod 2 ^ 12.
Proof.
  intros He Hv. change 0xfff with (Z.ones 12). rewrite Z.land_ones by lia. unfold hw_frame.
  replace (e - e mod 4096) with (Z.shiftl (e / 4096) 12).
  2:{ rewrite Z.shiftl_mul_pow2 by lia. change (2 ^ 12) with 4096. pose proof (Z.div_mod e 4096). lia. }
  rewrite lor_shiftl_add by (try apply Z.mod_pos_bound; lia). change (2 ^ 12) with 4096.
  rewrite (Z.mod_small (_ * _)); [lia|]. pose proof (Z.div_mod e 4096). pose proof (Z.mod_pos_bound e 4096). lia.
Qed.

(** Where no huge page is, an address is translated if it has a page entry. *)
Lemma translate_page s root d v : tables_ok off s root d → no_huge (words s) root v →
  translate (words s) root v = (λ e, page_of 12 e v) <$> leaf (words s) root v 3.
Proof.
  intros Hok Hnh. rewrite (translate_ends s root d v Hok). unfold ends.
  rewrite (Hnh 2%nat), (Hnh 1%nat) by lia. by destruct (leaf _ _ _ 3).
Qed.

(** The page descriptor of [v], through the code's lookup. *)
Lemma page_desc_spec s root d v : tables_ok off s root d → no_huge (words s) root v →
  match tab (words s) root v 3 with
  | None => vm_get_entity off s v 0 = Some 0 ∧ leaf (words s) root v 3 = None
  | Some q =>
      let p := vm_lookup (off + q) 0 v in
      let e := word (words s) (q + 8 * idx v 3) in
      vm_get_entity off s v 0 = Some p ∧ p ≠ 0 ∧ direct q ∧ entity off s p = e ∧
      entity_is_present off s p 0 = hw_present e ∧
      leaf (words s) root v 3 = if hw_present e then Some e else None
  end.
Proof.
  intros Hok Hnh. pose proof (aspace_walkable s root d v Hok Hnh) as Hwk.
  pose proof (vm_get_entity_spec s root v 3 3 Hwk ltac:(lia) ltac:(lia)) as He.
  change (3 - 3)%nat with 0%nat in He. destruct (tab (words s) root v 3) as [q|] eqn:Hq.
  - pose proof (walkable_tab s root v 3 3 q Hwk ltac:(lia) Hq) as Hd.
    destruct (lookup_entity s q v 3 Hd) as (Hnz & _ & Hent & _). change (3 - 3)%nat with 0%nat in *.
    cbv zeta. split; [done|]. split; [done|]. split; [done|]. split; [done|]. split.
    + unfold entity_is_present. destruct (Z.eqb_spec (vm_lookup (off + q) 0 v) 0); [done|].
      by rewrite Hent, is_present_hw by lia.
    + unfold leaf. rewrite Hq. bind_red. cbv zeta. by rewrite bool_decide_true, andb_true_r.
  - split; [done|]. by apply leaf_no_tab.
Qed.

Lemma update_page s q v f : direct q →
  update off (vm_lookup (off + q) 0 v) f s = Some (written s v q (f (word (words s) (q + 8 * idx v 3)))).
Proof. intros Hd. pose proof (update_entity s q v 3 f Hd) as H. by change (3 - 3)%nat with 0%nat in H. Qed.

Lemma vmm_unmap_page_spec s root d v : tables_ok off s root d → no_huge (words s) root v →
  match leaf (words s) root v 3 with
  | None => vmm_unmap_page_locked_impl off v s = Some (- EACCES, s)
  | Some _ => ∃ q, tab (words s) root v 3 = Some q ∧
                vmm_unmap_page_locked_impl off v s = Some (0, written s v q 0)
  end.
Proof.
  intros Hok Hnh. pose proof (page_desc_spec s root d v Hok Hnh) as Hpd. unfold vmm_unmap_page_locked_impl.
  rewrite (ok_active _ _ _ _ Hok). change (vmm_is_copy_on_write v) with false.
  destruct (tab (words s) root v 3) as [q|] eqn:Hq.
  - destruct Hpd as (Hg & _ & Hd & _ & Hpr & ->). returns Hg. rewrite Hpr. destruct (hw_present _); [|done].
    exists q. split; [done|]. cbn [negb]. by rewrite update_page.
  - destruct Hpd as [Hg ->]. by returns Hg.
Qed.

Lemma written_no_huge s root d v q e v' : tables_ok off s root d → 0 <= e < 2 ^ 52 →
  tab (words s) root v 3 = Some q → no_huge (words s) root v' → no_huge (words (written s v q e)) root v'.
Proof.
  intros Hok He Hq Hnh k Hk. rewrite (leaf_write s root d v q e Hok Hq), decide_False by lia. by apply Hnh.
Qed.

(** Pages that are no tables keep their words when an entry is written. *)
Lemma written_foreign s root d v q e r : tables_ok off s root d → 0 <= e < 2 ^ 52 →
  tab (words s) root v 3 = Some q → kept (vpmm s) d r → foreign (words s) root r →
  foreign (words (written s v q e)) root r ∧ same_page_words (words s) (words (written s v q e)) r.
Proof.
  intros Hok He Hq [Hal _] Hr. split.
  - intros v' j Hj. rewrite (tab_write s root d v q e Hok Hq) by done. by apply Hr.
  - intros i Hi. unfold written. cbn [words set_words]. rewrite word_insert, decide_False; [done|].
    intros Heq. apply entry_inj in Heq as [-> _]; [by apply (Hr v 3%nat)| |done|apply idx_range|done].
    by apply (tab_aligned s root d Hok v 3).
Qed.

(** ** Writes that miss the tables *)

Definition agree (m m' : gmap Z Z) (root : Z) : Prop :=
  ∀ v j q, (j <= 3)%nat → tab m root v j = Some q → word m' (q + 8 * idx v j) = word m (q + 8 * idx v j).

Lemma agree_tab m m' root v j : agree m m' root → (j <= 3)%nat → tab m' root v j = tab m root v j.
Proof.
  intros Ha. induction j as [|j IH]; intros Hj; [done|]. cbn [tab]. rewrite IH by lia.
  destruct (tab m root v j) eqn:Hq; [|done]. bind_red. unfold child. by rewrite (Ha v j) by (done || lia).
Qed.

Lemma agree_leaf m m' root v j : agree m m' root → (j <= 3)%nat → leaf m' root v j = leaf m root v j.
Proof.
  intros Ha Hj. unfold leaf. rewrite (agree_tab m m' root v j Ha Hj). destruct (tab m root v j) eqn:Hq; [|done].
  bind_red. by rewrite (Ha v j) by done.
Qed.

(** A page that is no table can be cleared. *)
Lemma zero_agree s root d p : tables_ok off s root d → p mod 4096 = 0 → foreign (words s) root p →
  agree (words s) (zero_words p 512 (words s)) root.
Proof.
  intros Hok Hp Hf v j q Hj Hq. pose proof (tab_aligned s root d Hok v j q Hj Hq) as Hqa.
  pose proof (idx_range v j). rewrite word_zero, decide_False; [done|]. change (Z.of_nat 512) with 512.
  intros [Hr _]. apply (Hf v j Hj). rewrite Hq. f_equal. Z.div_mod_to_equations. lia.
Qed.

(** The same address space, with other words outside its tables and frames
    taken since. *)
Lemma aspace_same_tables s s' root d d' : tables_ok off s root d → agree (words s) (words s') root →
  active_pdir s' = active_pdir s → (∀ a, 0 <= word (words s') a < 2 ^ 64) →
  pmm_inv (vpmm s') d' → ram_offset (vpmm s') = ram_offset (vpmm s) → len (mat (vpmm s')) = len (mat (vpmm s)) →
  (∀ r, frame_taken (vpmm s) d r → frame_taken (vpmm s') d' r) → tables_ok off s' root d'.
Proof.
  intros Hok Ha Hact Hw Hinv Hro Hlen Hmono.
  pose proof (λ v j, agree_tab _ _ root v j Ha) as Ht. pose proof (λ v j, agree_leaf _ _ root v j Ha) as Hl.
  destruct Hok as [Hac _ Ho Hr Hd Hph _ Htab Hin Hinj Hpg]. split; rewrite ?Hact, ?Hro, ?Hlen; try done.
  - intros v k p Hk. rewrite Ht by done. intros Hq. by eapply Hmono, Htab.
  - intros v k q Hk. rewrite Ht by lia. intros Hq. rewrite (Ha v k) by (done || lia). by apply Hin.
  - intros v v' k k' p Hk Hk'. rewrite !Ht by done. by apply Hinj.
  - intros v e. rewrite Hl by done. apply Hpg.
Qed.

Lemma agree_translate s s' root d d' v : tables_ok off s root d → tables_ok off s' root d' →
  agree (words s) (words s') root → translate (words s') root v = translate (words s) root v.
Proof.
  intros Hok Hok' Ha. rewrite (translate_ends s root d v Hok), (translate_ends s' root d' v Hok').
  unfold ends. by rewrite !(agree_leaf _ _ _ _ _ Ha) by lia.
Qed.

Lemma zero_page_ok s root d p : tables_ok off s root d → p mod 4096 = 0 → foreign (words s) root p →
  let s' := set_words s (zero_words p 512 (words s)) in
  tables_ok off s' root d ∧ ∀ v, translate (words s') root v = translate (words s) root v.
Proof.
  intros Hok Hp Hf s'. pose proof (zero_agree s root d p Hok Hp Hf) as Ha.
  assert (Hok' : tables_ok off s' root d).
  { eapply (aspace_same_tables s); try done; [|by apply Hok]. intros a.
    pose proof (ok_word _ _ _ _ Hok a). unfold s'. cbn [words set_words]. rewrite word_zero. case_decide; lia. }
  split; [done|]. intros v. by eapply agree_translate.
Qed.

(** Taking a frame leaves the tables alone. *)
Lemma frame_taken_ok s root d p st' d' : tables_ok off s root d → new_frame (vpmm s) d p st' d' →
  tables_ok off (set_pmm s st') root d'.
Proof.
  intros Hok Hnew. destruct (new_frame_taken _ _ _ _ _ Hnew) as (_ & _ & Hmono).
  destruct Hnew as (b & _ & _ & _ & _ & Hinv & Hlen & Hro).
  by eapply (aspace_same_tables s); try apply Hok.
Qed.

Lemma new_frame_kept s d p st' d' : new_frame (vpmm s) d p st' d' → p mod 4096 = 0 → kept st' d' p.
Proof.
  intros (b & Hb & _ & -> & Hbit & _ & Hlen & Hro) Hp. split; [done|]. intros b' Hb'. rewrite Hlen, Hro in *.
  intros He. assert (b' = b) as -> by lia. by rewrite Hbit, bool_decide_true by lia.
Qed.

(** What the kernel's own lookup says of an address. *)
Lemma lookup_agrees s root d v : tables_ok off s root d → no_huge (words s) root v → 0 <= v →
  match translate (words s) root v with
  | None => vmm_is_page_present_impl off v s = Some false
  | Some (paddr, _, _) => vmm_is_page_present_impl off v s = Some true ∧
                          vmm_convert_vaddr_to_paddr_impl off v s = Some paddr
  end.
Proof.
  intros Hok Hnh Hv. rewrite (translate_page s root d v Hok Hnh).
  pose proof (page_desc_spec s root d v Hok Hnh) as Hpd. pose proof (ok_page _ _ _ _ Hok v) as Hpg.
  unfold vmm_is_page_present_impl, vmm_convert_vaddr_to_paddr_impl.
  destruct (tab (words s) root v 3) as [q|] eqn:Hq.
  2:{ destruct Hpd as [Hg ->]. by returns Hg. }
  destruct Hpd as (Hg & Hnz & Hd & He & Hpr & Hl). rewrite Hl in *. returns Hg. rewrite Hpr, He.
  destruct (Z.eqb_spec (vm_lookup (off + q) 0 v) 0); [done|].
  destruct (hw_present _); [|done]. cbn [fmap option_fmap option_map]. unfold page_of. split; [done|]. f_equal.
  pose proof (ok_word _ _ _ _ Hok (q + 8 * idx v 3)). rewrite get_frame_sub by lia.
  specialize (Hpg _ eq_refl). set (e := word _ _) in *. clearbody e. apply frame_lor; lia.
Qed.

End spec.

(** ** Properties *)

(** C11. Mapping a page makes every address of the page translate to the frame
    given, writable and open to user mode as the flags say, and changes the
    translation of no other address, whatever tables had to be made on the way;
    the address space stays well-formed, and no page of memory that is taken or
    is not RAM changes unless it is one of its tables. Three free frames are
    enough. *)
Theorem vmm_map_page_translates off s root d v paddr mf :
  tables_ok off s root d → no_huge (words s) root v → canonical v → 0 <= paddr < 2 ^ 52 →
  (3 <= free_frames (vpmm s) d)%nat →
  ∃ s' d', vmm_map_page_locked_impl off v paddr mf s = Some (0, s') ∧ tables_ok off s' root d' ∧
    (∀ v', canonical v' → translate (words s') root v' =
      if decide (v' / 4096 = v / 4096)
      then Some (paddr - paddr mod 4096 + v' mod 4096, Z.testbit mf 0, Z.testbit mf 4)
      else translate (words s) root v') ∧
    (∀ r, kept (vpmm s) d r → foreign (words s) root r → same_page_words (words s) (words s') r).
Proof.
  intros Hok Hnh Hv Hp Hfree.
  destruct (vmm_map_page_spec off s root d v paddr mf Hok Hnh Hp Hfree) as (s1 & d1 & q1 & Hg & Hq1 & _ & Hmap).
  pose proof (gr_ok _ _ _ _ _ _ Hg) as Hok1.
  destruct (page_entry_facts paddr mf Hp) as (_ & He & Hpr & Hw & Hu & Hf).
  exists (written s1 v q1 (page_entry paddr mf)), d1. split; [done|]. split; [|split].
  - apply aspace_write; [done|done|lia].
  - intros v' Hv'. rewrite (translate_written off s1 root d1) by (done || lia).
    rewrite (decide_ext (pre v' 4 = pre v 4) (v' / 4096 = v / 4096)) by by apply same_page.
    case_decide; [|by eapply translate_grows]. rewrite Hpr. unfold page_of. by rewrite Hw, Hu, Hf.
  - intros r Hr Hrf. destruct (gr_kept _ _ _ _ _ _ Hg r Hr Hrf) as (Hr1 & Hrf1 & Hs1).
    destruct (written_foreign off s1 root d1 v q1 (page_entry paddr mf) r) as [_ Hs2]; [done|lia|done..|].
    intros i Hi. by rewrite Hs2, Hs1.
Qed.

(** Unmapping the page of an address that is mapped makes the whole page
    fault and changes no other translation; an address that has no page is
    answered with [-EACCES] and nothing changes. *)
Theorem vmm_unmap_page_faults off s root d v : tables_ok off s root d → no_huge (words s) root v → canonical v →
  match translate (words s) root v with
  | None => vmm_unmap_page_locked_impl off v s = Some (- EACCES, s)
  | Some _ => ∃ s', vmm_unmap_page_locked_impl off v s = Some (0, s') ∧ tables_ok off s' root d ∧
      ∀ v', canonical v' → translate (words s') root v' =
        if decide (v' / 4096 = v / 4096) then None else translate (words s) root v'
  end.
Proof.
  intros Hok Hnh Hv. rewrite (translate_page off s root d v Hok Hnh).
  pose proof (vmm_unmap_page_spec off s root d v Hok Hnh) as Hu.
  destruct (leaf (words s) root v 3); [|done]. destruct Hu as (q & Hq & Hu). cbn [fmap option_fmap option_map].
  exists (written s v q 0). split; [done|]. split; [by apply aspace_write|].
  intros v' Hv'. rewrite (translate_written off s root d) by done.
  by rewrite (decide_ext (pre v' 4 = pre v 4) (v' / 4096 = v / 4096)) by by apply same_page.
Qed.

(** What the kernel computes for an address by its own lookup is what the
    processor does: the page is present exactly when the processor translates
    the address, and then [vmm_convert_vaddr_to_paddr] gives its physical
    address. *)
Theorem vmm_lookup_agrees off s root d v : tables_ok off s root d → no_huge (words s) root v → 0 <= v →
  match translate (words s) root v with
  | None => vmm_is_page_present_impl off v s = Some false
  | Some (paddr, _, _) => vmm_is_page_present_impl off v s = Some true ∧
                          vmm_convert_vaddr_to_paddr_impl off v s = Some paddr
  end.
Proof. apply lookup_agrees. Qed.

(** *** The kernel's direct map

    One gigabyte of physical memory is mapped as a huge page without
    [MMU_FLAG_NONPRIV]: user mode may read and write all of it. The kernel's
    own lookup takes the huge page for a table, so it calls a page of it absent
    and would make up a descriptor from the data it finds there. *)
Definition direct_map : option (Z * vm) :=
  vmm_map_huge_page_locked_impl example_off example_off 0
    (Z.lor (Z.lor MMU_FLAG_PERM_WRITE MMU_FLAG_PERM_READ) MMU_FLAG_UNCACHED) 2 example_vm.

Example direct_map_open :
  (λ '(r, s), (r, translate (words s) 0x103000 (example_off + 0x104008),
               vmm_is_page_present_impl example_off (example_off + 0x104008) s)) <$> direct_map =
  Some (0, Some (0x104008, true, true), Some false).
Proof. vm_compute. reflexivity. Qed.

(** *** Witnesses *)

Lemma example_tab v k p : tab (words example_vm) 0x103000 v k = Some p → k = 0%nat ∧ p = 0x103000.
Proof. destruct k as [|k]; [by intros [= <-]|]. cbn [tab]. by destruct (tab _ _ _ k). Qed.

Lemma example_tables : tables_ok example_off example_vm 0x103000 [0x0f; 0; 0].
Proof.
  split; try (intros; by apply example_tab in H as [-> ->]); try done.
  - split_and!; try done; try (vm_compute; done); [repeat constructor; done|by left].
  - intros v k p _ [-> ->]%example_tab. exists 3. by vm_compute.
  - intros v v' k k' p _ _ [-> _]%example_tab [-> _]%example_tab. split; [done|apply pre_0].
Qed.

Lemma example_no_huge v : no_huge (words example_vm) 0x103000 v.
Proof. intros k _. unfold leaf. by destruct (tab _ _ _ k). Qed.

Lemma vmm_map_page_translates_witness :
  ∃ s', vmm_map_page_locked_impl example_off 0x7fff12345000 0x200000 0x11 example_vm = Some (0, s') ∧
    translate (words s') 0x103000 0x7fff12345678 = Some (0x200678, true, true).
Proof.
  destruct (vmm_map_page_translates example_off example_vm 0x103000 [0x0f; 0; 0] 0x7fff12345000 0x200000 0x11
    example_tables (example_no_huge _)) as (s' & d' & Hm & _ & Ht & _);
    [left; lia|lia|vm_compute; lia|].
  exists s'. split; [exact Hm|]. rewrite Ht by (left; lia). by vm_compute.
Defined.

Lemma vmm_unmap_page_faults_witness :
  vmm_unmap_page_locked_impl example_off 0x7fff12345000 example_vm = Some (- EACCES, example_vm).
Proof.
  apply (vmm_unmap_page_faults example_off example_vm 0x103000 [0x0f; 0; 0] 0x7fff12345000
    example_tables (example_no_huge _)).
  left; lia.
Defined.

Lemma vmm_lookup_agrees_witness :
  vmm_is_page_present_impl example_off 0x7fff12345000 example_vm = Some false.
Proof.
  apply (vmm_lookup_agrees example_off example_vm 0x103000 [0x0f; 0; 0] 0x7fff12345000
    example_tables (example_no_huge _)).
  lia.
Defined.
