(* ===== verification/Vmm.v ===== *)
(** * Vmm: virtual memory on demand, [kernel/mem/vmm.c]

    The functions of [vmm.c] and those of [vmm64.c] that call them, over the
    tables of [Vmm64.v] and the zones of [Memzone.v]. The state is the [vm] of
    [Vmm64.v]; the zones of the active address space and whether it is the
    kernel's do not change here and are parameters, as is the direct map. The
    locks around the [_locked] functions are not modelled: each call is one step.
    A zone's [load_page_content], a function pointer, is a parameter too. The
    kernel writes a page through its virtual address: where the processor finds
    no translation this is undefined. Supervisor writes ignore the write bit, as
    the kernel runs with [CR0.WP] clear. *)
From stdpp Require Import gmap relations.
From S2P Require Import Prelude Platform Bitmap Pmm Dynarr Memzone Mmu64 Vmm64.

#[local] Existing Instance x86_64.

Section vmm.
Context (off : Z) (zs : vm_address_space_t) (in_kernel_space : bool).
Context (load_page_content : Z → option (memzone_t → Z → vm → option (Z * vm))).

Definition IS_KERNEL_VADDR (v : Z) : bool := KERNEL_BASE <=? v.
Definition VMM_INVALID_PADDR : Z := u64 (-1).

Definition vmm_memzone_for_active_address_space (v : Z) : option (option memzone_t) :=
  r ← memzone_find (Some zs) v;
  match r with
  | None => Some None
  | Some p => z ← slot (zones zs) p; Some (Some z)
  end.

(** ** Mapping *)

Definition vmm_map_page_locked (v paddr mf : Z) (s : vm) : option (Z * vm) :=
  vmm_map_page_locked_impl off v paddr mf s.

Definition vmm_unmap_page_locked (v : Z) (s : vm) : option (Z * vm) := vmm_unmap_page_locked_impl off v s.

(** The public functions take the lock of the active address space first. *)
Definition with_active {A} (s : vm) (x : option A) : option A :=
  match active_pdir s with None => None | Some _ => x end.

Definition vmm_map_page (v paddr mf : Z) (s : vm) : option (Z * vm) := with_active s (vmm_map_page_locked v paddr mf s).
Definition vmm_unmap_page (v : Z) (s : vm) : option (Z * vm) := with_active s (vmm_unmap_page_locked v s).

(** [status] is the outcome of the comparison, [1], not the error. *)
Definition vmm_map_pages_locked (v paddr n_pages mf : Z) (s : vm) : option (Z * vm) :=
  let v := ROUND_FLOOR v VMM_PAGE_SIZE in
  let paddr := ROUND_FLOOR paddr VMM_PAGE_SIZE in
  r ← for_loop (Z.to_nat n_pages) 0 (λ _ '(v, paddr, s),
        '(r, s) ← vmm_map_page_locked v paddr mf s;
        let status := if negb (r =? 0) then 1 else 0 in
        if negb (status =? 0) then Some (inr (status, s))
        else Some (inl (u64 (v + VMM_PAGE_SIZE), u64 (paddr + VMM_PAGE_SIZE), s))) (v, paddr, s);
  Some (match r with inl (_, _, s) => (0, s) | inr rs => rs end).

Definition vmm_map_pages (v paddr n_pages mf : Z) (s : vm) : option (Z * vm) :=
  with_active s (vmm_map_pages_locked v paddr n_pages mf s).

Definition vmm_unmap_pages_locked (v n_pages : Z) (s : vm) : option (Z * vm) :=
  let v := ROUND_FLOOR v VMM_PAGE_SIZE in
  r ← for_loop (Z.to_nat n_pages) 0 (λ _ '(v, s),
        '(r, s) ← vmm_unmap_page_locked v s;
        let status := if r <? 0 then 1 else 0 in
        if negb (status =? 0) then Some (inr (status, s))
        else Some (inl (u64 (v + VMM_PAGE_SIZE), s))) (v, s);
  Some (match r with inl (_, s) => (0, s) | inr rs => rs end).

Definition vmm_unmap_pages (v n_pages : Z) (s : vm) : option (Z * vm) :=
  with_active s (vmm_unmap_pages_locked v n_pages s).

(** ** Allocation *)

Definition vmm_is_page_present (v : Z) (s : vm) : option bool := vmm_is_page_present_impl off v s.

Definition vmm_alloc_page_no_fill_locked (v mf : Z) (s : vm) : option (Z * vm) :=
  vmm_alloc_page_no_fill_locked_impl off v mf s.

(** [memset(dest, 0, VMM_PAGE_SIZE)] at the start of a page. *)
Definition memset_page (dest : Z) (s : vm) : option vm :=
  pdir ← active_pdir s;
  '(pa, _, _) ← translate (words s) (phys off pdir) dest;
  Some (set_words s (zero_words pa 512 (words s))).

Definition vmm_alloc_page_locked (v mf : Z) (s : vm) : option (Z * vm) :=
  '(err, s) ← vmm_alloc_page_no_fill_locked v mf s;
  if negb (err =? 0) then Some (err, s) else
  s ← memset_page (ROUND_FLOOR v VMM_PAGE_SIZE) s;
  Some (0, s).

Definition vmm_alloc_page (v mf : Z) (s : vm) : option (Z * vm) :=
  with_active s (
    present ← vmm_is_page_present v s;
    if (present : bool) then Some (- EALREADY, s) else
    '(err, s) ← vmm_alloc_page_no_fill_locked v mf s;
    if negb (err =? 0) then Some (err, s) else
    s ← memset_page (ROUND_FLOOR v VMM_PAGE_SIZE) s;
    Some (0, s)).

Definition vm_alloc_kernel_page_locked (v : Z) (s : vm) : option (Z * vm) :=
  vmm_alloc_page_locked v (Z.lor (Z.lor MMU_FLAG_PERM_READ MMU_FLAG_PERM_WRITE) MMU_FLAG_PERM_EXEC) s.

Definition vm_alloc_user_page_no_fill_locked (zone : option memzone_t) (v : Z) (s : vm) : option (Z * vm) :=
  match zone with
  | None => Some (- ESRCH, s)
  | Some z => vmm_alloc_page_no_fill_locked v (mmu_flags z) s
  end.

Definition vm_alloc_user_page_locked (zone : option memzone_t) (v : Z) (s : vm) : option (Z * vm) :=
  match zone with
  | None => Some (- EFAULT, s)
  | Some z => vmm_alloc_page_locked v (mmu_flags z) s
  end.

Definition vm_alloc_page_with_perm (v : Z) (s : vm) : option (Z * vm) :=
  if IS_USER_VADDR v && negb in_kernel_space then
    zone ← vmm_memzone_for_active_address_space v;
    vm_alloc_user_page_locked zone v s
  else vm_alloc_kernel_page_locked v s.

(** ** Changing the flags of pages: [vmm64.c] and [vmm.c] *)

Definition vmm_tune_page_locked_impl (v mf : Z) (s : vm) : option (Z * vm) :=
  match active_pdir s with
  | None => Some (- EACCES, s)
  | Some _ =>
      let v := ROUND_FLOOR v VMM_PAGE_SIZE in
      if vmm_is_copy_on_write v then Some (- EBUSY, s) else
      page_desc ← vm_get_entity off s v 0;
      if entity_is_present off s page_desc 0 then
        let frame := vm_ptable_entity_get_frame (entity off s page_desc) 0 in
        s ← update off page_desc (λ e, vm_ptable_entity_set_default_flags e 0) s;
        s ← update off page_desc (λ e, vm_ptable_entity_set_mmu_flags e 0 mf) s;
        s ← update off page_desc (λ e, vm_ptable_entity_set_frame e 0 frame) s;
        Some (0, s)
      else
        '(_, s) ← vmm_alloc_page_locked v mf s;
        Some (0, s)
  end.

Definition vmm_tune_page_locked (v mf : Z) (s : vm) : option (Z * vm) := vmm_tune_page_locked_impl v mf s.
Definition vmm_tune_page (v mf : Z) (s : vm) : option (Z * vm) := with_active s (vmm_tune_page_locked v mf s).

(** [while (page_addr < vaddr + length)]; a range that ends in the last page of
    the address space never ends. *)
Definition each_page {R} (v length : Z) (body : Z → vm → option (vm + R)) (page_addr : Z) (s : vm)
  : option (vm + R) :=
  loop (S (Z.to_nat (length / VMM_PAGE_SIZE + 2))) (λ '(page_addr, s),
    if page_addr <? u64 (v + length) then
      r ← body page_addr s;
      Some (match r with
            | inl s => inl (u64 (page_addr + VMM_PAGE_SIZE), s)
            | inr r => inr (inr r)
            end)
    else Some (inr (inl s))) (page_addr, s).

Definition PAGE_START (v : Z) : Z := Z.land v (u64 (Z.lnot 0xfff)).

Definition vmm_tune_pages_locked (v length mf : Z) (s : vm) : option (Z * vm) :=
  r ← each_page (R := Empty_set) v length (λ page_addr s,
        '(_, s) ← vmm_tune_page_locked page_addr mf s; Some (inl s)) (PAGE_START v) s;
  match r with inl s => Some (0, s) | inr f => match (f : Empty_set) with end end.

Definition vmm_tune_pages (v length mf : Z) (s : vm) : option (Z * vm) :=
  with_active s (vmm_tune_pages_locked v length mf s).

(** ** Pages that are not there *)

Definition vmm_is_page_swapped (v : Z) : bool := vmm_is_page_swapped_impl v.
Definition vmm_restore_swapped_page_locked (v : Z) (s : vm) : option (Z * vm) :=
  vmm_restore_swapped_page_locked_impl v s.

Definition vmm_resolve_page_not_present_locked (v : Z) (s : vm) : option (Z * vm) :=
  if vmm_is_copy_on_write v then None else
  if IS_KERNEL_VADDR v then vm_alloc_kernel_page_locked v s else
  zone ← vmm_memzone_for_active_address_space v;
  match zone with
  | None => Some (- EFAULT, s)
  | Some z =>
      if vmm_is_page_swapped v then vmm_restore_swapped_page_locked v s else
      '(err, s) ← vm_alloc_user_page_no_fill_locked (Some z) v s;
      if negb (err =? 0) then Some (err, s) else
      match ops z ≫= load_page_content with
      | Some f => f z v s
      | None => s ← memset_page (ROUND_FLOOR v VMM_PAGE_SIZE) s; Some (0, s)
      end
  end.

Definition _vmm_ensure_write_to_page_locked (v : Z) (s : vm) : option (Z * vm) :=
  '(err, s) ← (if IS_USER_VADDR v && vmm_is_copy_on_write v then vmm_resolve_copy_on_write v s else Some (0, s));
  if negb (err =? 0) then Some (err, s) else
  present ← vmm_is_page_present v s;
  if (present : bool) then Some (0, s) else vmm_resolve_page_not_present_locked v s.

Definition _vmm_ensure_read_from_page_locked (v : Z) (s : vm) : option (Z * vm) :=
  present ← vmm_is_page_present v s;
  if (present : bool) then Some (0, s) else vmm_resolve_page_not_present_locked v s.

Definition ensure_range (page : Z → vm → option (Z * vm)) (v length : Z) (s : vm) : option (Z * vm) :=
  r ← each_page v length (λ page_addr s,
        '(err, s) ← page page_addr s;
        Some (if negb (err =? 0) then inr (err, s) else inl s)) (ROUND_FLOOR v VMM_PAGE_SIZE) s;
  Some (match r with inl s => (0, s) | inr rs => rs end).

Definition _vmm_ensure_write_to_range_locked (v length : Z) (s : vm) : option (Z * vm) :=
  ensure_range _vmm_ensure_write_to_page_locked v length s.
Definition _vmm_ensure_read_from_range_locked (v length : Z) (s : vm) : option (Z * vm) :=
  ensure_range _vmm_ensure_read_from_page_locked v length s.

(** The functions that take the lock per page do the same, one call at a time. *)
Definition _vmm_ensure_write_to_page (v : Z) (s : vm) : option (Z * vm) :=
  with_active s (_vmm_ensure_write_to_page_locked v s).
Definition _vmm_ensure_write_to_range (v length : Z) (s : vm) : option (Z * vm) :=
  ensure_range _vmm_ensure_write_to_page v length s.
Definition _vmm_ensure_read_from_page (v : Z) (s : vm) : option (Z * vm) :=
  with_active s (_vmm_ensure_read_from_page_locked v s).
Definition _vmm_ensure_read_from_range (v length : Z) (s : vm) : option (Z * vm) :=
  ensure_range _vmm_ensure_read_from_page v length s.

(** The error is dropped. *)
Definition vmm_ensure_writing_to_active_address_space_locked (v length : Z) (s : vm) : option vm :=
  '(_, s) ← _vmm_ensure_write_to_range_locked v length s; Some s.
Definition vmm_ensure_writing_to_active_address_space (v length : Z) (s : vm) : option vm :=
  '(_, s) ← _vmm_ensure_write_to_range v length s; Some s.
Definition vmm_ensure_reading_from_active_address_space_locked (v length : Z) (s : vm) : option vm :=
  '(_, s) ← _vmm_ensure_read_from_range_locked v length s; Some s.
Definition vmm_ensure_reading_from_active_address_space (v length : Z) (s : vm) : option vm :=
  '(_, s) ← _vmm_ensure_read_from_range v length s; Some s.

(** ** Page faults *)

Definition _vmm_on_page_not_present_locked (v : Z) (s : vm) : option (Z * vm) :=
  present ← vmm_is_page_present v s;
  if (present : bool) then Some (0, s) else
  '(err, s) ← (if IS_USER_VADDR v && vmm_is_copy_on_write v then vmm_resolve_copy_on_write v s else Some (0, s));
  if negb (err =? 0) then Some (err, s) else
  vmm_resolve_page_not_present_locked v s.

Definition _vmm_pf_on_writing_locked (v : Z) (s : vm) : option (Z * vm) :=
  let visited := 0 in
  '(err, visited, s) ← (if vmm_is_copy_on_write v
    then '(err, s) ← vmm_resolve_copy_on_write v s;
         Some (err, if negb (err =? 0) then visited else visited + 1, s)
    else Some (0, visited, s));
  if negb (err =? 0) then Some (err, s) else
  if visited =? 0 then Some (- EFAULT, s) else Some (0, s).

Definition vmm_page_fault_handler (info v : Z) (s : vm) : option (Z * vm) :=
  let pf_info_flags := vm_arch_parse_pf_info info in
  if TEST_FLAG pf_info_flags MMU_PF_INFO_ON_NOT_PRESENT then
    with_active s (_vmm_on_page_not_present_locked v s)
  else if TEST_FLAG pf_info_flags MMU_PF_INFO_ON_WRITE then
    with_active s (_vmm_pf_on_writing_locked v s)
  else Some (- EINVAL, s).

Definition vmm_convert_kernel_vaddr_to_paddr (v : Z) (s : vm) : option Z :=
  if negb (IS_KERNEL_VADDR v) then Some VMM_INVALID_PADDR else
  with_active s (
    present ← vmm_is_page_present v s;
    if negb present then Some VMM_INVALID_PADDR else vmm_convert_vaddr_to_paddr_impl off v s).

End vmm.

(** ** A page allocated *)

(** From [s] to [s'] the page of [v] became mapped to a zeroed frame that was
    free, with flags [mf]; every other translation, and every page of memory
    that was taken and is no table, is as it was. *)
Definition page_allocated (off root v mf : Z) (s : vm) (d : list Z) (s' : vm) (p : Z) : Prop :=
  p mod 4096 = 0 ∧ ¬ frame_taken (vpmm s) d p ∧
  (∀ i, 0 <= i < 512 → word (words s') (p + 8 * i) = 0) ∧
  (∀ v', canonical v' → translate (words s') root v' =
    if decide (v' / 4096 = v / 4096) then Some (p + v' mod 4096, Z.testbit mf 0, Z.testbit mf 4)
    else translate (words s) root v') ∧
  (∀ r, kept (vpmm s) d r → foreign (words s) root r → same_page_words (words s) (words s') r).

(** The same, but with the frame as it was found. *)
Definition page_mapped (off root v mf : Z) (s : vm) (d : list Z) (s' : vm) (p : Z) : Prop :=
  p mod 4096 = 0 ∧ ¬ frame_taken (vpmm s) d p ∧
  (∀ v', canonical v' → translate (words s') root v' =
    if decide (v' / 4096 = v / 4096) then Some (p + v' mod 4096, Z.testbit mf 0, Z.testbit mf 4)
    else translate (words s) root v') ∧
  (∀ r, kept (vpmm s) d r → foreign (words s) root r → same_page_words (words s) (words s') r).

Section facts.
Context (off : Z) (s : vm) (root : Z) (d : list Z).
Context (Hok : tables_ok off s root d).

Lemma active_some {A} (x : option A) : with_active s x = x.
Proof. unfold with_active. by rewrite (ok_active _ _ _ _ Hok). Qed.

Lemma root_phys : phys off (off + root) = root.
Proof.
  assert (Ht : frame_taken (vpmm s) d root) by (by apply (ok_table _ _ _ _ Hok 0 0); [lia|]).
  destruct (frame_bounds off s root d root Hok Ht) as (_ & ? & ? & ?). unfold phys.
  rewrite u64_small; lia.
Qed.

Lemma page_start v : canonical v → ROUND_FLOOR v VMM_PAGE_SIZE = v - v mod 4096 ∧
  canonical (v - v mod 4096) ∧ (v - v mod 4096) / 4096 = v / 4096.
Proof.
  intros Hv. unfold VMM_PAGE_SIZE. change 4096 with (2 ^ 12) at 1. rewrite ROUND_FLOOR_spec.
  - change (2 ^ 12) with 4096. split; [done|]. unfold canonical in *. split; Z.div_mod_to_equations; lia.
  - lia.
  - change (2 ^ ptr_bits) with (2 ^ 64). unfold canonical in Hv. lia.
Qed.

(** Mapping a frame that was just taken, before it is cleared. *)
Lemma alloc_no_fill_spec v mf : no_huge (words s) root v → canonical v → (4 <= free_frames (vpmm s) d)%nat →
  ∃ s1 d1 p, vmm_alloc_page_no_fill_locked off v mf s = Some (0, s1) ∧ tables_ok off s1 root d1 ∧
    p mod 4096 = 0 ∧ ¬ frame_taken (vpmm s) d p ∧ foreign (words s1) root p ∧
    (∀ v', canonical v' → translate (words s1) root v' =
      if decide (v' / 4096 = v / 4096) then Some (p + v' mod 4096, Z.testbit mf 0, Z.testbit mf 4)
      else translate (words s) root v') ∧
    (∀ r, kept (vpmm s) d r → foreign (words s) root r → r ≠ p ∧ same_page_words (words s) (words s1) r).
Proof.
  intros Hnh Hv Hfree. destruct (frame_alloc _ _ (ok_pmm _ _ _ _ Hok)) as (p & st' & d' & Hal & Hnew); [lia|].
  pose proof (new_frame_count _ _ _ _ _ Hnew) as Hcnt.
  pose proof (frame_taken_ok off s root d p st' d' Hok Hnew) as Hok0.
  destruct (new_frame_facts off s root d p st' d' Hok Hnew) as (Hpa & Hp52 & (_ & Hp0 & _) & Hpf).
  destruct (new_frame_taken _ _ _ _ _ Hnew) as (_ & Hntk & _).
  destruct (vmm_map_page_spec off (set_pmm s st') root d' v p mf Hok0 Hnh) as (s1 & d1 & q1 & Hg & Hq1 & _ & Hm);
    [lia|cbn [vpmm set_pmm]; lia|].
  destruct (page_entry_facts p mf) as (_ & He & Hpr & Hw & Hu & Hf); [lia|].
  pose proof (gr_ok _ _ _ _ _ _ Hg) as Hok1.
  assert (Hkeep : ∀ r, kept st' d' r → foreign (words s) root r →
    foreign (words (written s1 v q1 (page_entry p mf))) root r ∧
    same_page_words (words s) (words (written s1 v q1 (page_entry p mf))) r).
  { intros r Hr Hrf. destruct (gr_kept _ _ _ _ _ _ Hg r Hr Hrf) as (Hr1 & Hrf1 & Hs1).
    destruct (written_foreign off s1 root d1 v q1 (page_entry p mf) r) as [Hrf2 Hs2]; [done|lia|done..|].
    split; [done|]. intros i Hi. by rewrite Hs2, Hs1. }
  exists (written s1 v q1 (page_entry p mf)), d1, p. split.
  { unfold vmm_alloc_page_no_fill_locked, vmm_alloc_page_no_fill_locked_impl, vm_alloc_page_paddr.
    change VMM_PAGE_SIZE with 4096. returns Hal. exact Hm. }
  split; [apply aspace_write; [done|done|lia]|]. split; [done|]. split; [done|].
  split; [apply Hkeep; [by eapply new_frame_kept|done]|]. split.
  - intros v' Hv'. rewrite (translate_written off s1 root d1) by (done || lia).
    rewrite (decide_ext (pre v' 4 = pre v 4) (v' / 4096 = v / 4096)) by by apply same_page.
    case_decide; [|by rewrite (translate_grows off root (set_pmm s st') d' s1 d1)].
    rewrite Hpr. unfold page_of. rewrite Hw, Hu, Hf, Hpa. by rewrite Z.sub_0_r.
  - intros r Hr Hrf. destruct (kept_fresh _ _ _ _ _ r Hnew Hr) as [Hr' Hrp]. split; [done|]. by apply Hkeep.
Qed.
End facts.

Lemma memset_page_spec off s root d v p w u : tables_ok off s root d → canonical v →
  translate (words s) root (v - v mod 4096) = Some (p, w, u) →
  memset_page off (ROUND_FLOOR v VMM_PAGE_SIZE) s = Some (set_words s (zero_words p 512 (words s))).
Proof.
  intros Hok Hv Ht. unfold memset_page. rewrite (ok_active _ _ _ _ Hok). bind_red.
  rewrite (root_phys off s root d Hok). destruct (page_start v Hv) as (-> & _). by rewrite Ht.
Qed.

Lemma zero_page_words m p i : 0 <= i < 512 → word (zero_words p 512 m) (p + 8 * i) = 0.
Proof.
  intros Hi. rewrite word_zero, decide_True; [done|]. change (Z.of_nat 512) with 512. split; [lia|].
  replace (p + 8 * i - p) with (i * 8) by lia. by apply Z.mod_mul.
Qed.

Lemma zero_page_other m p r i : p mod 4096 = 0 → r mod 4096 = 0 → r ≠ p → 0 <= i < 512 →
  word (zero_words p 512 m) (r + 8 * i) = word m (r + 8 * i).
Proof.
  intros Hp Hr Hne Hi. rewrite word_zero, decide_False; [done|]. change (Z.of_nat 512) with 512.
  intros [? _]. apply Hne. Z.div_mod_to_equations. lia.
Qed.

(** Clearing the new page through its address completes the allocation. *)
Lemma no_fill_cleared off s root d v mf s1 d1 p : tables_ok off s root d → canonical v →
  tables_ok off s1 root d1 → p mod 4096 = 0 → ¬ frame_taken (vpmm s) d p → foreign (words s1) root p →
  (∀ v', canonical v' → translate (words s1) root v' =
    if decide (v' / 4096 = v / 4096) then Some (p + v' mod 4096, Z.testbit mf 0, Z.testbit mf 4)
    else translate (words s) root v') →
  (∀ r, kept (vpmm s) d r → foreign (words s) root r → r ≠ p ∧ same_page_words (words s) (words s1) r) →
  ∃ s', memset_page off (ROUND_FLOOR v VMM_PAGE_SIZE) s1 = Some s' ∧ tables_ok off s' root d1 ∧
    page_allocated off root v mf s d s' p.
Proof.
  intros Hok Hv Hok1 Hpa Hntk Hpf Ht Hk. destruct (page_start v Hv) as (_ & Hv0 & Hpg).
  pose proof (Ht _ Hv0) as Ht0. rewrite decide_True in Ht0 by done.
  replace ((v - v mod 4096) mod 4096) with 0 in Ht0 by (Z.div_mod_to_equations; lia). rewrite Z.add_0_r in Ht0.
  destruct (zero_page_ok off s1 root d1 p Hok1 Hpa Hpf) as [Hok' Ht'].
  eexists. split; [by eapply memset_page_spec|]. split; [done|]. split; [done|]. split; [done|]. split; [|split].
  - intros i Hi. by apply zero_page_words.
  - intros v' Hv'. rewrite Ht'. by apply Ht.
  - intros r Hr Hrf. destruct (Hk r Hr Hrf) as [Hne Hs]. intros i Hi. cbn [words set_words].
    rewrite zero_page_other by (done || apply Hr). by apply Hs.
Qed.

Lemma vmm_alloc_page_spec off s root d v mf : tables_ok off s root d → no_huge (words s) root v → canonical v →
  (4 <= free_frames (vpmm s) d)%nat →
  ∃ s' d' p, vmm_alloc_page_locked off v mf s = Some (0, s') ∧ tables_ok off s' root d' ∧
    page_allocated off root v mf s d s' p.
Proof.
  intros Hok Hnh Hv Hfree.
  destruct (alloc_no_fill_spec off s root d Hok v mf Hnh Hv Hfree) as (s1 & d1 & p & Hal & Hok1 & Hpa & Hntk & Hpf & Ht & Hk).
  destruct (no_fill_cleared off s root d v mf s1 d1 p) as (s' & Hm & Hok' & Hpg); [done..|].
  exists s', d1, p. split; [|done]. unfold vmm_alloc_page_locked. returns Hal. by returns Hm.
Qed.

(** ** Ranges of pages *)

(** [n] pages from [v], a page's start, in one half of the address space. *)
Definition page_range (v n : Z) : Prop :=
  v mod 4096 = 0 ∧ 0 < n ∧ ((0 <= v ∧ v + n * 4096 <= 2 ^ 47) ∨ (2 ^ 64 - 2 ^ 47 <= v ∧ v + n * 4096 <= 2 ^ 64)).

Lemma page_range_at v n i : page_range v n → 0 <= i < n →
  canonical (v + i * 4096) ∧ u64 (v + i * 4096) = v + i * 4096.
Proof. intros (? & ? & ?) ?. unfold canonical. split; [lia|]. apply u64_small. lia. Qed.

Lemma in_page v i v' : v mod 4096 = 0 → v' / 4096 = (v + i * 4096) / 4096 ↔ v + i * 4096 <= v' < v + i * 4096 + 4096.
Proof. intros. Z.div_mod_to_equations. lia. Qed.

Lemma page_floor a : a mod 4096 = 0 → 0 <= a < 2 ^ 64 → ROUND_FLOOR a VMM_PAGE_SIZE = a.
Proof.
  intros Ha Hb. unfold VMM_PAGE_SIZE. change 4096 with (2 ^ 12) at 1. rewrite ROUND_FLOOR_spec; [|lia|done].
  change (2 ^ 12) with 4096. lia.
Qed.

Section range.
Context (off root : Z) (s : vm) (d : list Z) (v n : Z).
Context (Hok : tables_ok off s root d) (Hr : page_range v n).
Context (Hnh : ∀ i, 0 <= i < n → no_huge (words s) root (v + i * 4096)).

(** The tables after the first [i] pages: [f] says what their addresses
    translate to, the others are as they were. *)
Definition pages_done (f : Z → option (Z * bool * bool)) (i : Z) (s' : vm) (d' : list Z) : Prop :=
  tables_ok off s' root d' ∧ (∀ j, 0 <= j < n → no_huge (words s') root (v + j * 4096)) ∧
  ∀ v', canonical v' → translate (words s') root v' =
    if decide (v <= v' < v + i * 4096) then f v' else translate (words s) root v'.

Lemma pages_done_0 f : pages_done f 0 s d.
Proof. split; [done|]. split; [done|]. intros. rewrite decide_False by lia. done. Qed.

(** One page more, by the write of its entry. *)
Lemma pages_done_S f i s1 d1 s2 d2 q e : pages_done f i s1 d1 → 0 <= i < n → grows off root s1 d1 s2 d2 →
  tab (words s2) root (v + i * 4096) 3 = Some q → 0 <= e < 2 ^ 52 →
  (∀ v', v' / 4096 = (v + i * 4096) / 4096 → (if hw_present e then Some (page_of 12 e v') else None) = f v') →
  pages_done f (i + 1) (written s2 (v + i * 4096) q e) d2.
Proof.
  intros (Hok1 & Hnh1 & Ht) Hi Hg Hq He Hf. pose proof (gr_ok _ _ _ _ _ _ Hg) as Hok2.
  destruct (page_range_at v n i Hr Hi) as [Hc _]. split; [by apply aspace_write|]. split.
  - intros j Hj. eapply written_no_huge; [done..|]. eapply grows_no_huge; [done|]. by apply Hnh1.
  - intros v' Hv'. rewrite (translate_written off s2 root d2) by done.
    rewrite (decide_ext (pre v' 4 = pre (v + i * 4096) 4) (v' / 4096 = (v + i * 4096) / 4096)) by by apply same_page.
    pose proof (in_page v i v' (proj1 Hr)). case_decide as Hp.
    + rewrite Hf by done. by rewrite decide_True by lia.
    + rewrite (translate_grows off root s1 d1 s2 d2) by done. rewrite Ht by done.
      rewrite (decide_ext (v <= v' < v + i * 4096) (v <= v' < v + (i + 1) * 4096)) by lia. done.
Qed.

Lemma map_pages_spec paddr mf : paddr mod 4096 = 0 → 0 <= paddr → paddr + n * 4096 <= 2 ^ 52 →
  (Z.to_nat (3 * n) <= free_frames (vpmm s) d)%nat →
  ∃ s' d', vmm_map_pages_locked off v paddr n mf s = Some (0, s') ∧
    pages_done (λ v', Some (paddr + (v' - v), Z.testbit mf 0, Z.testbit mf 4)) n s' d'.
Proof.
  intros Hpa Hp0 Hp Hfree. unfold vmm_map_pages_locked. cbv zeta.
  pose proof Hr as (Hva & Hn & Hrange).
  rewrite (page_floor v), (page_floor paddr) by lia. set (f := λ v', Some (paddr + (v' - v), Z.testbit mf 0, Z.testbit mf 4)).
  edestruct (for_loop_total (λ i '(v1, p1, s1), v1 = u64 (v + i * 4096) ∧ p1 = u64 (paddr + i * 4096) ∧
      ∃ d1, pages_done f i s1 d1 ∧ (Z.to_nat (3 * (n - i)) <= free_frames (vpmm s1) d1)%nat) (λ _ : Z * vm, False))
    as (x & Hx & Hq); [| |rewrite Hx].
  - rewrite Z.mul_0_l, !Z.add_0_r, !u64_small by lia. split; [done|]. split; [done|]. exists d.
    split; [apply pages_done_0|]. by rewrite Z.sub_0_r.
  - intros i [[v1 p1] s1] Hi (-> & -> & d1 & Hd1 & Hfr). rewrite Z2Nat.id in Hi by lia.
    destruct (page_range_at v n i Hr) as [Hc ->]; [lia|]. rewrite (u64_small (paddr + i * 4096)) by lia.
    destruct (vmm_map_page_spec off s1 root d1 (v + i * 4096) (paddr + i * 4096) mf) as (s2 & d2 & q & Hg & Hq & Hfr2 & Hm);
      [by apply Hd1|apply Hd1; lia|lia|lia|].
    unfold vmm_map_page_locked. rewrite Hm. bind_red. cbn [Z.eqb negb].
    destruct (page_entry_facts (paddr + i * 4096) mf) as (_ & He & Hpr & Hw & Hu & Hf); [lia|].
    split; [unfold VMM_PAGE_SIZE; f_equal; lia|]. split; [unfold VMM_PAGE_SIZE; f_equal; lia|].
    exists d2. split; [|cbn [vpmm written set_words]; lia].
    eapply pages_done_S; [done|lia|done..|]. intros v' Hv'. rewrite Hpr. unfold page_of, f. rewrite Hw, Hu, Hf.
    change (2 ^ 12) with 4096. do 3 f_equal. clear -Hva Hpa Hv'. Z.div_mod_to_equations. lia.
  - destruct x as [[[v1 p1] s1]|]; [|done]. destruct Hq as (_ & _ & d1 & Hd1 & _).
    exists s1, d1. split; [done|]. by rewrite Z2Nat.id, Z.add_0_l in Hd1 by lia.
Qed.

Lemma unmap_pages_spec : (∀ i, 0 <= i < n → is_Some (translate (words s) root (v + i * 4096))) →
  ∃ s', vmm_unmap_pages_locked off v n s = Some (0, s') ∧ pages_done (λ _, None) n s' d.
Proof.
  intros Hmap. unfold vmm_unmap_pages_locked. cbv zeta. pose proof Hr as (Hva & Hn & Hrange).
  rewrite (page_floor v) by lia.
  edestruct (for_loop_total (λ i '(v1, s1), v1 = u64 (v + i * 4096) ∧ pages_done (λ _, None) i s1 d) (λ _ : Z * vm, False))
    as (x & Hx & Hq); [| |rewrite Hx].
  - rewrite Z.mul_0_l, Z.add_0_r, u64_small by lia. split; [done|apply pages_done_0].
  - intros i [v1 s1] Hi (-> & Hd1). rewrite Z2Nat.id in Hi by lia.
    destruct (page_range_at v n i Hr) as [Hc ->]; [lia|]. pose proof Hd1 as (Hok1 & Hnh1 & Ht).
    specialize (Hnh1 i ltac:(lia)). pose proof (vmm_unmap_page_spec off s1 root d (v + i * 4096) Hok1 Hnh1) as Hu.
    pose proof (translate_page off s1 root d (v + i * 4096) Hok1 Hnh1) as Htp.
    rewrite Ht, decide_False in Htp by (done || lia). destruct (Hmap i ltac:(lia)) as [t Htm]. rewrite Htm in Htp.
    destruct (leaf (words s1) root (v + i * 4096) 3) as [e|]; [|done]. destruct Hu as (q & Hq & Hu).
    unfold vmm_unmap_page_locked. rewrite Hu. bind_red. cbn [Z.ltb Z.compare negb Z.eqb].
    split; [unfold VMM_PAGE_SIZE; f_equal; lia|].
    eapply pages_done_S; [done|lia|by apply grows_refl|done|lia|done].
  - destruct x as [[v1 s1]|]; [|done]. destruct Hq as (_ & Hd1).
    exists s1. split; [done|]. by rewrite Z2Nat.id, Z.add_0_l in Hd1 by lia.
Qed.
End range.

(** ** New flags for a page *)

Lemma leaf_pre m root v v' k : (k <= 3)%nat → pre v 4 = pre v' 4 → leaf m root v k = leaf m root v' k.
Proof.
  intros Hk He. unfold leaf. rewrite (tab_pre _ root v v' k) by (lia || by apply (pre_le v v' k 4); [lia|]).
  by rewrite (idx_pre v v' k) by (lia || by apply (pre_le v v' (S k) 4); [lia|]).
Qed.

Lemma no_huge_pre m root v v' : no_huge m root v' → pre v 4 = pre v' 4 → no_huge m root v.
Proof. intros Hnh He k Hk. rewrite (leaf_pre m root v v' k) by (done || lia). by apply Hnh. Qed.

Lemma hw_frame_range e : 0 <= hw_frame 12 e < 2 ^ 52.
Proof. unfold hw_frame. by apply Z.mod_pos_bound. Qed.

Lemma hw_frame_page e : hw_frame 12 e mod 4096 = 0.
Proof.
  unfold hw_frame. change (2 ^ 12) with 4096. rewrite Z.mod_mod_divide by (by exists (2 ^ 40)).
  by apply Z.mod_mul.
Qed.

Lemma frame_flags mf e : hw_frame 12 (page_flags mf + hw_frame 12 e) = hw_frame 12 e.
Proof.
  pose proof (page_flags_range mf). pose proof (hw_frame_range e).
  destruct (flags_frame (page_flags mf) (hw_frame 12 e) 0) as (_ & _ & Hf & _); [lia|done|apply hw_frame_page|done].
Qed.

(** What [vmm_tune_page_locked] does to the entry of a page that is mapped, and
    to a page that is not. *)
Lemma tune_spec off s root d v mf : tables_ok off s root d → no_huge (words s) root v → canonical v →
  match leaf (words s) root v 3 with
  | Some e => ∃ q, tab (words s) root v 3 = Some q ∧ 0 <= page_flags mf + hw_frame 12 e < 2 ^ 52 ∧
      hw_frame 12 e mod 4096 = 0 ∧
      vmm_tune_page_locked off v mf s = Some (0, written s v q (page_flags mf + hw_frame 12 e))
  | None => vmm_tune_page_locked off v mf s = ('(_, s) ← vmm_alloc_page_locked off (v - v mod 4096) mf s; Some (0, s))
  end.
Proof.
  intros Hok Hnh Hv. destruct (page_start v Hv) as (Hfl & Hv0 & Hpg).
  assert (Hpre : pre (v - v mod 4096) 4 = pre v 4) by (by apply same_page).
  unfold vmm_tune_page_locked, vmm_tune_page_locked_impl. rewrite (ok_active _ _ _ _ Hok), Hfl. cbv zeta.
  remember (v - v mod 4096) as v0 eqn:Hv0e. change (vmm_is_copy_on_write v0) with false. cbv match.
  pose proof (page_desc_spec off s root d v0 Hok (no_huge_pre _ _ _ _ Hnh Hpre)) as Hpd.
  rewrite (leaf_pre _ root v0 v 3), (tab_pre _ root v0 v 3) in Hpd by (done || lia || by apply (pre_le v0 v 3 4); [lia|]).
  destruct (tab (words s) root v 3) as [q|] eqn:Hq.
  2:{ destruct Hpd as [Hg ->]. returns Hg. by unfold entity_is_present. }
  rewrite (idx_pre v0 v 3) in Hpd by (done || lia). destruct Hpd as (Hg & _ & Hd & He & Hpr & Hl). returns Hg.
  rewrite Hpr, Hl. destruct (hw_present _) eqn:Hp; [|done]. exists q. split; [done|].
  pose proof (ok_page _ _ _ _ Hok v _ Hl) as Hlt. pose proof (ok_word _ _ _ _ Hok (q + 8 * idx v 3)) as Hw.
  pose proof (page_flags_range mf). pose proof (hw_frame_range (word (words s) (q + 8 * idx v 3))).
  pose proof (hw_frame_page (word (words s) (q + 8 * idx v 3))) as Hfp.
  split; [Z.div_mod_to_equations; lia|]. split; [done|]. rewrite He, get_hw_frame by lia.
  pose proof (set_entity off s q v0 3 0 mf (hw_frame 12 (word (words s) (q + 8 * idx v 3))) (λ s, Some (0, s)) Hd) as Hs.
  etrans; [exact Hs|]. unfold written. rewrite (idx_pre v0 v 3) by (done || lia).
  rewrite set_mmu_flags_page. by destruct (flags_frame (page_flags mf) _ 0 ltac:(lia) ltac:(done) Hfp) as [-> _].
Qed.

(** ** Zones and page faults *)

Definition zones_known (zs : vm_address_space_t) (l : list memzone_t) : Prop :=
  holds (zones zs) l ∧ total_capacity (zones zs) < 2 ^ 29 ∧ Forall zone_ok l.

Lemma zone_of_spec zs l v : zones_known zs l →
  (∃ z, vmm_memzone_for_active_address_space zs v = Some (Some z) ∧ z ∈ l ∧ vaddr z <= v < zone_end z) ∨
  (vmm_memzone_for_active_address_space zs v = Some None ∧ ∀ z, z ∈ l → ¬ (vaddr z <= v < zone_end z)).
Proof.
  intros (Hh & Hcap & Hl). unfold vmm_memzone_for_active_address_space. cbn [memzone_find].
  destruct (find_spec (zones zs) l v Hh Hcap Hl) as [(p & i & z & -> & Hp & Hi & Hz)|[-> Hno]]; [left|by right].
  exists z. bind_red. unfold get_zone in Hp. destruct (dynarr_get _ _) as [p'|]; [|done]. cbn [mbind option_bind] in Hp.
  destruct (slot (zones zs) p') as [z'|] eqn:Hs; [|done]. cbn [mbind option_bind] in Hp. injection Hp as -> ->.
  rewrite Hs. bind_red. split; [done|]. split; [|done]. pose proof (zget_Some _ _ _ Hi).
  rewrite zget_lookup in Hi by lia. by eapply list_elem_of_lookup_2.
Qed.

Lemma user_not_kernel v : canonical v → IS_USER_VADDR v = true → IS_KERNEL_VADDR v = false.
Proof.
  unfold IS_USER_VADDR, IS_KERNEL_VADDR. intros _ ?%Z.leb_le. apply Z.leb_gt. pose proof user_kernel. lia.
Qed.

Lemma canonical_kernel v : canonical v → IS_USER_VADDR v = false → IS_KERNEL_VADDR v = true.
Proof.
  unfold IS_USER_VADDR, IS_KERNEL_VADDR, canonical. intros Hv ?%Z.leb_gt. apply Z.leb_le.
  change USER_HIGH with 0x7fffffffffff in *. change KERNEL_BASE with 0xffff800000000000. lia.
Qed.

Lemma not_present_flag info : TEST_FLAG (vm_arch_parse_pf_info info) MMU_PF_INFO_ON_NOT_PRESENT = negb (Z.testbit info 0).
Proof.
  unfold MMU_PF_INFO_ON_NOT_PRESENT. rewrite test_flag_bit by done. unfold vm_arch_parse_pf_info. cbv zeta.
  assert (Z.land info 1 = Z.b2z (Z.testbit info 0)) as ->.
  { change 1 with (Z.ones 1) at 1. rewrite Z.land_ones by lia. change (2 ^ 1) with 2. by rewrite Z.bit0_mod. }
  destruct (Z.testbit info 0), (Z.land info 4 =? 4), (Z.land info 2 =? 2); reflexivity.
Qed.

(** ** Properties *)

(** [vmm_alloc_page] refuses a page that is mapped; otherwise it maps it to
    a frame that was free, all zeros, with the flags asked for, and changes no
    other translation and no memory in use. Four free frames are enough. *)
Theorem vmm_alloc_page_zeroed off s root d v mf :
  tables_ok off s root d → no_huge (words s) root v → canonical v → (4 <= free_frames (vpmm s) d)%nat →
  match translate (words s) root v with
  | Some _ => vmm_alloc_page off v mf s = Some (- EALREADY, s)
  | None => ∃ s' d' p, vmm_alloc_page off v mf s = Some (0, s') ∧ tables_ok off s' root d' ∧
                       page_allocated off root v mf s d s' p
  end.
Proof.
  intros Hok Hnh Hv Hfree. assert (Hv0 : 0 <= v) by (unfold canonical in Hv; lia).
  pose proof (lookup_agrees off s root d v Hok Hnh Hv0) as Hpr. unfold vmm_alloc_page, vmm_is_page_present.
  rewrite (active_some off s root d Hok). destruct (translate (words s) root v) as [[[pa w] u]|].
  - destruct Hpr as [Hpr _]. by returns Hpr.
  - returns Hpr. exact (vmm_alloc_page_spec off s root d v mf Hok Hnh Hv Hfree).
Qed.

(** C19. The page fault handler on an access to a page that is not there: an
    address outside every zone of the process is refused with [-EFAULT] and
    nothing changes; in a zone without content of its own, and in the kernel's
    half, the page is mapped to a zeroed free frame with the flags of the zone or
    of the kernel; in a zone with a [load_page_content], as segments of programs
    and mapped files have, it is mapped to a free frame with the flags of the zone
    and the outcome is that of the zone's function on it (for segments see
    [elf_page_content]); a page that is there by now is left alone. *)
Theorem vmm_page_fault_on_demand off zs lpc l s root d info v :
  tables_ok off s root d → no_huge (words s) root v → canonical v → zones_known zs l →
  Z.testbit info 0 = false → (4 <= free_frames (vpmm s) d)%nat →
  match translate (words s) root v with
  | Some _ => vmm_page_fault_handler off zs lpc info v s = Some (0, s)
  | None =>
      (IS_USER_VADDR v = true ∧ (∀ z, z ∈ l → ¬ (vaddr z <= v < zone_end z)) ∧
       vmm_page_fault_handler off zs lpc info v s = Some (- EFAULT, s)) ∨
      (∃ z f s' d' p, IS_USER_VADDR v = true ∧ z ∈ l ∧ vaddr z <= v < zone_end z ∧ ops z ≫= lpc = Some f ∧
        tables_ok off s' root d' ∧ page_mapped off root v (mmu_flags z) s d s' p ∧
        vmm_page_fault_handler off zs lpc info v s = f z v s') ∨
      ∃ mf s' d' p, vmm_page_fault_handler off zs lpc info v s = Some (0, s') ∧ tables_ok off s' root d' ∧
        page_allocated off root v mf s d s' p ∧
        (if IS_USER_VADDR v
         then ∃ z, z ∈ l ∧ vaddr z <= v < zone_end z ∧ ops z ≫= lpc = None ∧ mf = mmu_flags z else mf = 7)
  end.
Proof.
  intros Hok Hnh Hv Hz Hinfo Hfree. assert (Hv0 : 0 <= v) by (unfold canonical in Hv; lia).
  pose proof (lookup_agrees off s root d v Hok Hnh Hv0) as Hpr.
  unfold vmm_page_fault_handler. cbv zeta. rewrite not_present_flag, Hinfo. cbn [negb].
  rewrite (active_some off s root d Hok). unfold _vmm_on_page_not_present_locked, vmm_is_page_present.
  destruct (translate (words s) root v) as [[[pa w] u]|]; [destruct Hpr as [Hpr _]; by returns Hpr|]. returns Hpr.
  change (vmm_is_copy_on_write v) with false. rewrite andb_false_r. bind_red. cbn [Z.eqb negb].
  unfold vmm_resolve_page_not_present_locked. change (vmm_is_copy_on_write v) with false.
  destruct (IS_USER_VADDR v) eqn:Hu.
  - rewrite (user_not_kernel v Hv Hu). destruct (zone_of_spec zs l v Hz) as [(z & Hfz & Hin & Hr)|[Hfz Hno]]; returns Hfz.
    + right. destruct (alloc_no_fill_spec off s root d Hok v (mmu_flags z) Hnh Hv Hfree)
        as (s1 & d1 & p & Hal & Hok1 & Hpa & Hntk & Hpf & Ht & Hk).
      change (vmm_is_page_swapped v) with false. unfold vm_alloc_user_page_no_fill_locked. returns Hal.
      cbn [Z.eqb negb]. destruct (ops z ≫= lpc) as [f|] eqn:Hf; [left|right].
      * exists z, f, s1, d1, p. do 5 (split; [done|]). split; [|done]. split; [done|]. split; [done|]. split; [done|].
        intros r Hr1 Hr2. by apply Hk.
      * destruct (no_fill_cleared off s root d v (mmu_flags z) s1 d1 p) as (s' & Hm & Hok' & Hpg); [done..|].
        exists (mmu_flags z), s', d1, p. split; [by returns Hm|]. split; [done|]. split; [done|by exists z].
    + left. done.
  - rewrite (canonical_kernel v Hv Hu). do 2 right.
    destruct (vmm_alloc_page_spec off s root d v 7 Hok Hnh Hv Hfree) as (s' & d' & p & Hal & Hok' & Hpg).
    exists 7, s', d', p. by split.
Qed.

(** C32. Mapping [n] pages from [v] makes each of their addresses translate to
    the address as far into the physical range, whatever it translated to before,
    and unmapping them again makes each of them translate to nothing; all other
    addresses keep their translations throughout. The tables made for the pages
    stay, empty. Three free frames a page are enough. *)
Theorem vmm_map_unmap_pages off s root d v n paddr mf :
  tables_ok off s root d → page_range v n → (∀ i, 0 <= i < n → no_huge (words s) root (v + i * 4096)) →
  paddr mod 4096 = 0 → 0 <= paddr → paddr + n * 4096 <= 2 ^ 52 → (Z.to_nat (3 * n) <= free_frames (vpmm s) d)%nat →
  ∃ s1 s2 d', vmm_map_pages off v paddr n mf s = Some (0, s1) ∧ vmm_unmap_pages off v n s1 = Some (0, s2) ∧
    tables_ok off s1 root d' ∧ tables_ok off s2 root d' ∧
    (∀ v', canonical v' → translate (words s1) root v' =
      if decide (v <= v' < v + n * 4096) then Some (paddr + (v' - v), Z.testbit mf 0, Z.testbit mf 4)
      else translate (words s) root v') ∧
    (∀ v', canonical v' → translate (words s2) root v' =
      if decide (v <= v' < v + n * 4096) then None else translate (words s) root v').
Proof.
  intros Hok Hr Hnh Hpa Hp0 Hp Hfree.
  destruct (map_pages_spec off root s d v n Hok Hr Hnh paddr mf Hpa Hp0 Hp Hfree) as (s1 & d1 & Hm & Hok1 & Hnh1 & Ht1).
  destruct (unmap_pages_spec off root s1 d1 v n Hok1 Hr Hnh1) as (s2 & Hu & Hok2 & _ & Ht2).
  { intros i Hi. rewrite Ht1, decide_True; [done|lia|by apply (page_range_at v n i)]. }
  exists s1, s2, d1. split; [unfold vmm_map_pages; by rewrite (active_some off s root d Hok)|].
  split; [unfold vmm_unmap_pages; by rewrite (active_some off s1 root d1 Hok1)|].
  split; [done|]. split; [done|]. split; [done|]. intros v' Hv'. rewrite Ht2, Ht1 by done. by case_decide.
Qed.

(** Tuning a page that is mapped keeps its frame and gives it the new flags
    and no others: without [MMU_FLAG_PERM_READ] the page is gone. A page that is
    not mapped is allocated, zeroed, whatever the outcome reported. *)
Theorem vmm_tune_page_flags off s root d v mf :
  tables_ok off s root d → no_huge (words s) root v → canonical v → (4 <= free_frames (vpmm s) d)%nat →
  ∃ s' d', vmm_tune_page off v mf s = Some (0, s') ∧ tables_ok off s' root d' ∧
    match translate (words s) root v with
    | Some _ => ∀ v', canonical v' → translate (words s') root v' =
        if decide (v' / 4096 = v / 4096)
        then (if Z.testbit mf 1
              then (λ '(pa, _, _), (pa, Z.testbit mf 0, Z.testbit mf 4)) <$> translate (words s) root v' else None)
        else translate (words s) root v'
    | None => ∃ p, page_allocated off root v mf s d s' p
    end.
Proof.
  intros Hok Hnh Hv Hfree. destruct (page_start v Hv) as (_ & Hv0 & Hpg).
  assert (Hpre : pre (v - v mod 4096) 4 = pre v 4) by (by apply same_page).
  unfold vmm_tune_page. rewrite (active_some off s root d Hok).
  pose proof (tune_spec off s root d v mf Hok Hnh Hv) as Ht. rewrite (translate_page off s root d v Hok Hnh).
  destruct (leaf (words s) root v 3) as [e|] eqn:Hl; cbn [fmap option_fmap option_map].
  - destruct Ht as (q & Hq & He & Hf & ->). exists (written s v q (page_flags mf + hw_frame 12 e)), d.
    split; [done|]. split; [by apply aspace_write|]. intros v' Hv'. rewrite (translate_written off s root d) by done.
    rewrite (decide_ext (pre v' 4 = pre v 4) (v' / 4096 = v / 4096)) by by apply same_page.
    case_decide as Hp; [|done]. apply same_page in Hp; [|done..].
    destruct (page_flags_bits mf (hw_frame 12 e)) as (-> & Hw & Hu & _); [done|].
    destruct (Z.testbit mf 1); [|done].
    rewrite (translate_page off s root d v' Hok), (leaf_pre _ root v' v 3), Hl by (done || lia || by eapply no_huge_pre).
    cbn [fmap option_fmap option_map]. unfold page_of. by rewrite Hw, Hu, frame_flags.
  - destruct (vmm_alloc_page_spec off s root d (v - v mod 4096) mf Hok) as (s' & d' & p & Hal & Hok' & Hp);
      [by eapply no_huge_pre|done|done|]. exists s', d'. rewrite Ht. returns Hal. split; [done|]. split; [done|].
    exists p. destruct Hp as (H1 & H2 & H3 & H4 & H5). split; [done|]. split; [done|]. split; [done|]. split; [|done].
    intros v' Hv'. rewrite H4 by done. by rewrite Hpg.
Qed.

(** *** Witnesses *)

Definition no_content (_ : Z) : option (memzone_t → Z → vm → option (Z * vm)) := None.

Lemma vmm_alloc_page_zeroed_witness : ∃ s', vmm_alloc_page example_off 0x7fff12345678 0x11 example_vm = Some (0, s').
Proof.
  pose proof (vmm_alloc_page_zeroed example_off example_vm 0x103000 [0x0f; 0; 0] 0x7fff12345678 0x11
    example_tables (example_no_huge _)) as H.
  assert (Ht : translate (words example_vm) 0x103000 0x7fff12345678 = None) by (vm_compute; reflexivity).
  rewrite Ht in H. destruct H as (s' & d' & p & H & _); [left; lia|vm_compute; lia|]. exists s'. exact H.
Defined.

Lemma example_zones_known : zones_known Memzone.example_aspace example_zones.
Proof.
  split; [|split; [done|]].
  - destruct Memzone.example_aspace_ok as [H _]. exact H.
  - repeat constructor; try done; vm_compute; done.
Qed.

(** A fault in the second zone of the example of [Memzone.v]: without functions of
    its own, and when its function fails. *)
Definition failing_content (_ : Z) : option (memzone_t → Z → vm → option (Z * vm)) := Some (λ _ _ s, Some (- ENOMEM, s)).

(** The same zones, the second with functions of its own. *)
Definition mapped_zone : memzone_t := mk_memzone 8192 8192 16 64 (Some 7) 0 100 (Some 3).
Definition mapped_zones : list memzone_t := [mk_memzone 0 4096 16 0 None 0 0 None; mapped_zone].
Definition mapped_aspace : vm_address_space_t :=
  mk_aspace (mk_dynarr [mk_bucket ((Some <$> mapped_zones) ++ replicate 6 None) 8 2] 2) {[ 7 := 1 ]}.

Lemma mapped_zones_known : zones_known mapped_aspace mapped_zones.
Proof.
  split; [|split; [done|]].
  - split; [by repeat constructor|]. split; [by vm_compute|]. split; [done|]. by exists (replicate 6 None).
  - repeat constructor; try done; vm_compute; done.
Qed.

Lemma failing_some o f : o ≫= failing_content = Some f → f = λ _ _ s, Some (- ENOMEM, s).
Proof. destruct o; [|done]. by intros [= <-]. Qed.

Lemma vmm_page_fault_on_demand_witness :
  (∃ s', vmm_page_fault_handler example_off Memzone.example_aspace no_content 4 9000 example_vm = Some (0, s')) ∧
  ∃ s', vmm_page_fault_handler example_off mapped_aspace failing_content 4 9000 example_vm = Some (- ENOMEM, s').
Proof.
  assert (Ht : translate (words example_vm) 0x103000 9000 = None) by (vm_compute; reflexivity).
  assert (Hz : mk_memzone 8192 8192 16 64 (Some 7) 0 100 None ∈ example_zones) by (right; left).
  split.
  - pose proof (vmm_page_fault_on_demand example_off Memzone.example_aspace no_content example_zones example_vm 0x103000
      [0x0f; 0; 0] 4 9000 example_tables (example_no_huge _)) as H.
    rewrite Ht in H. destruct H as [(_ & Hno & _)|[(z & f & s' & d' & p & _ & _ & _ & Hf & _)|(mf & s' & d' & p & H & _)]].
    + left; lia.
    + apply example_zones_known.
    + done.
    + vm_compute; lia.
    + exfalso. apply (Hno _ Hz). vm_compute; split; done.
    + exfalso. by destruct (ops z).
    + exists s'. exact H.
  - pose proof (vmm_page_fault_on_demand example_off mapped_aspace failing_content mapped_zones example_vm 0x103000
      [0x0f; 0; 0] 4 9000 example_tables (example_no_huge _)) as H.
    rewrite Ht in H. destruct H as [(_ & Hno & _)|[(z & f & s' & d' & p & _ & _ & _ & Hf & _ & _ & H)|(mf & s' & d' & p & _ & _ & _ & H)]].
    + left; lia.
    + apply mapped_zones_known.
    + done.
    + vm_compute; lia.
    + exfalso. apply (Hno mapped_zone); [right; left|vm_compute; split; done].
    + exists s'. etransitivity; [exact H|]. by rewrite (failing_some _ _ Hf).
    + exfalso. change (IS_USER_VADDR 9000) with true in H. cbv match in H. destruct H as (z & Hin & Hr & Hn & _).
      apply elem_of_cons in Hin as [->|Hin]; [revert Hr; vm_compute; intros [_ ?]; done|].
      by apply list_elem_of_singleton in Hin as ->.
Defined.

Lemma vmm_map_unmap_pages_witness : ∃ s1 s2,
  vmm_map_pages example_off 0x40000000 0x200000 3 1 example_vm = Some (0, s1) ∧
  vmm_unmap_pages example_off 0x40000000 3 s1 = Some (0, s2).
Proof.
  destruct (vmm_map_unmap_pages example_off example_vm 0x103000 [0x0f; 0; 0] 0x40000000 3 0x200000 1 example_tables)
    as (s1 & s2 & d' & H1 & H2 & _); [split; [done|lia]|intros; apply example_no_huge|done|lia|lia|vm_compute; lia|].
  exists s1, s2. split; [exact H1|exact H2].
Defined.

Lemma vmm_tune_page_flags_witness : ∃ s', vmm_tune_page example_off 0x7fff12345678 3 example_vm = Some (0, s').
Proof.
  destruct (vmm_tune_page_flags example_off example_vm 0x103000 [0x0f; 0; 0] 0x7fff12345678 3 example_tables (example_no_huge _))
    as (s' & d' & H & _); [left; lia|vm_compute; lia|]. exists s'. exact H.
Defined.

(** *** Error codes

    The comparison is inside the assignment: a page that cannot be mapped or
    unmapped is reported as [1], not as its error. *)
Example map_pages_status :
  fst <$> vmm_map_pages_locked example_off 0x1000 0x1000 1 1 (mk_vm ∅ example_frames None) = Some 1 ∧
  fst <$> vmm_map_page_locked example_off 0x1000 0x1000 1 (mk_vm ∅ example_frames None) = Some (- EACCES) ∧
  fst <$> vmm_unmap_pages_locked example_off 0x1000 1 example_vm = Some 1.
Proof. split_and!; vm_compute; reflexivity. Qed.

(** *** No frame left

    An exhausted memory manager answers 0, which is taken for a frame: the first
    page of memory is cleared and becomes every missing table in turn, and the
    mapping ends in the assertion that the next table exists. *)
Definition no_frames : pmm_state_t :=
  mk_pmm_state 0 0 (mk_bitmap_t (Some [0xff; 0xff; 0xff]) 24) (24 * 4096) 0x100000 24 24.
Example map_without_frames :
  vmm_map_page_locked example_off 0x7fff12345000 0x200000 1 (mk_vm ∅ no_frames (Some (example_off + 0x103000))) = None.
Proof. vm_compute. reflexivity. Qed.
