(* ===== verification/Hash.v ===== *)
(** * Hash: CRC-32, [kernel/algo/hash.c]

    The bit-by-bit CRC-32 of a block of memory and of a string. *)
From stdpp Require Import gmap.
From S2P Require Import Prelude Platform Memory Libkern.

(** One of the eight rounds for a byte. *)
Definition crc_round (crc : Z) : Z :=
  let mask := u32 (- Z.land crc 1) in
  Z.lxor (Z.shiftr crc 1) (Z.land 0xEDB88320 mask).

(** [byte] is a [uint32_t]. *)
Definition crc_byte (crc byte : Z) : Z := Nat.iter 8 crc_round (Z.lxor crc byte).

Definition hash_crc32 (data len : Z) (m : mem) : option Z :=
  crc ← for_n (Z.to_nat len) 0 (λ i crc, byte ← m !! (data + i); Some (crc_byte crc byte)) 0xFFFFFFFF;
  Some (u32 (Z.lnot crc)).

Section hash.
Context `{Platform}.

(** A [char] is converted to [uint32_t]: sign-extended where [char] is
    signed. *)
Definition hashstr_crc32 (data : Z) (m : mem) : option Z :=
  crc ← loop (str_fuel m) (λ '(i, crc),
    c ← m !! (data + i);
    if c =? 0 then Some (inr crc)
    else Some (inl (usize (i + 1), crc_byte crc (u32 (char_val c))))) (0, 0xFFFFFFFF);
  Some (u32 (Z.lnot crc)).

End hash.

(** ** The register *)

Lemma crc_round_range crc : 0 <= crc < 2 ^ 32 → 0 <= crc_round crc < 2 ^ 32.
Proof.
  intros Hc. unfold crc_round. split.
  - apply Z.lxor_nonneg. split; intros _; [|apply Z.shiftr_nonneg; lia].
    apply Z.land_nonneg. by left.
  - apply testbit_bound; [lia| |].
    + apply Z.lxor_nonneg. split; intros _; [apply Z.land_nonneg; by left|apply Z.shiftr_nonneg; lia].
    + intros j Hj. rewrite Z.lxor_spec, Z.shiftr_spec, Z.land_spec by lia.
      rewrite (testbit_high crc 32) by lia. rewrite (testbit_high 0xEDB88320 32) by lia. done.
Qed.

(** The bit that is shifted out decides the highest bit, so that nothing is
    lost. *)
Lemma crc_round_high crc : 0 <= crc < 2 ^ 32 → Z.testbit (crc_round crc) 31 = Z.testbit crc 0.
Proof.
  intros Hc. unfold crc_round. rewrite Z.lxor_spec, Z.shiftr_spec, Z.land_spec by lia.
  rewrite (testbit_high crc 32) by lia. change (Z.testbit 0xEDB88320 31) with true.
  rewrite <- (Z.shiftr_0_r crc) at 1. rewrite land_1_testbit by lia. by destruct (Z.testbit crc 0).
Qed.

Lemma crc_round_inj crc1 crc2 : 0 <= crc1 < 2 ^ 32 → 0 <= crc2 < 2 ^ 32 →
  crc_round crc1 = crc_round crc2 → crc1 = crc2.
Proof.
  intros H1 H2 Heq. pose proof (crc_round_high crc1 H1) as Hh1.
  pose proof (crc_round_high crc2 H2) as Hh2. rewrite Heq, Hh2 in Hh1.
  assert (Z.land crc1 1 = Z.land crc2 1) as Hl.
  { rewrite <- (Z.shiftr_0_r crc1), <- (Z.shiftr_0_r crc2), !land_1_testbit by lia. by rewrite Hh1. }
  unfold crc_round in Heq. rewrite Hl in Heq.
  assert (Z.shiftr crc1 1 = Z.shiftr crc2 1) as Hs.
  { apply (f_equal (λ x, Z.lxor x (Z.land 0xEDB88320 (u32 (- Z.land crc2 1))))) in Heq.
    rewrite !Z.lxor_assoc, Z.lxor_nilpotent, !Z.lxor_0_r in Heq. done. }
  apply Z.bits_inj'. intros j Hj. destruct (Z.eq_dec j 0) as [->|]; [done|].
  replace j with (j - 1 + 1) by lia. rewrite <- !(Z.shiftr_spec _ 1) by lia. by rewrite Hs.
Qed.

Lemma lxor_range a b n : 0 <= n → 0 <= a < 2 ^ n → 0 <= b < 2 ^ n → 0 <= Z.lxor a b < 2 ^ n.
Proof.
  intros Hn Ha Hb. assert (0 <= Z.lxor a b) by (apply Z.lxor_nonneg; lia). split; [done|].
  apply testbit_bound; [done|done|]. intros j Hj.
  rewrite Z.lxor_spec, (testbit_high a n), (testbit_high b n) by done. done.
Qed.

Lemma crc_rounds_range n crc : 0 <= crc < 2 ^ 32 → 0 <= Nat.iter n crc_round crc < 2 ^ 32.
Proof. intros Hc. induction n; [done|]. by apply crc_round_range. Qed.

Lemma crc_rounds_inj n crc1 crc2 : 0 <= crc1 < 2 ^ 32 → 0 <= crc2 < 2 ^ 32 →
  Nat.iter n crc_round crc1 = Nat.iter n crc_round crc2 → crc1 = crc2.
Proof.
  intros H1 H2. induction n as [|n IH]; [done|]. intros Heq. apply IH.
  apply crc_round_inj; [by apply crc_rounds_range..|done].
Qed.

Lemma crc_byte_range crc b : 0 <= crc < 2 ^ 32 → 0 <= b < 2 ^ 32 → 0 <= crc_byte crc b < 2 ^ 32.
Proof. intros. apply crc_rounds_range. by apply lxor_range. Qed.

(** The register is a permutation for each byte, and tells bytes apart. *)
Lemma crc_byte_inj crc1 crc2 b1 b2 : 0 <= crc1 < 2 ^ 32 → 0 <= crc2 < 2 ^ 32 →
  0 <= b1 < 2 ^ 32 → 0 <= b2 < 2 ^ 32 → crc_byte crc1 b1 = crc_byte crc2 b2 →
  Z.lxor crc1 b1 = Z.lxor crc2 b2.
Proof. intros ????. by apply crc_rounds_inj; apply lxor_range. Qed.

Definition crc_bytes (crc : Z) (l : list Z) : Z := foldl crc_byte crc l.

Definition bytes_ok (l : list Z) : Prop := Forall (λ b, 0 <= b < 256) l.

Lemma crc_bytes_range crc l : 0 <= crc < 2 ^ 32 → bytes_ok l → 0 <= crc_bytes crc l < 2 ^ 32.
Proof.
  intros Hc Hl. revert crc Hc. induction Hl as [|b l Hb Hl IH]; intros crc Hc; simpl; [done|].
  apply IH. apply crc_byte_range; lia.
Qed.

Lemma crc_bytes_inj crc1 crc2 l : 0 <= crc1 < 2 ^ 32 → 0 <= crc2 < 2 ^ 32 → bytes_ok l →
  crc_bytes crc1 l = crc_bytes crc2 l → crc1 = crc2.
Proof.
  intros H1 H2 Hl. revert crc1 crc2 H1 H2.
  induction Hl as [|b l Hb Hl IH]; intros crc1 crc2 H1 H2; simpl; [done|].
  intros Heq. apply IH in Heq; [|apply crc_byte_range; lia..].
  apply crc_byte_inj in Heq; [|lia..].
  apply (f_equal (λ x, Z.lxor x b)) in Heq.
  by rewrite !Z.lxor_assoc, Z.lxor_nilpotent, !Z.lxor_0_r in Heq.
Qed.

Lemma hash_crc32_spec data l m : bytes_at m data l →
  hash_crc32 data (Z.of_nat (length l)) m = Some (u32 (Z.lnot (crc_bytes 0xFFFFFFFF l))).
Proof.
  intros Hl. unfold hash_crc32. rewrite Nat2Z.id.
  destruct (for_n_total (λ i crc, crc = crc_bytes 0xFFFFFFFF (take (Z.to_nat i) l))
    (λ i crc, byte ← m !! (data + i); Some (crc_byte crc byte)) (length l) 0 0xFFFFFFFF)
    as (crc & -> & ->).
  - done.
  - intros i crc Hi ->. rewrite Hl by lia. rewrite zget_lookup by lia.
    destruct (lookup_lt_is_Some_2 l (Z.to_nat i)) as [b Hb]; [lia|]. rewrite Hb. cbn [mbind option_bind].
    eexists. split; [done|]. replace (Z.to_nat (i + 1)) with (S (Z.to_nat i)) by lia.
    rewrite (take_S_r _ _ _ Hb). unfold crc_bytes. by rewrite foldl_snoc.
  - cbn [mbind option_bind]. rewrite Z.add_0_l, Nat2Z.id, take_ge by lia. done.
Qed.

Lemma u32_lnot_inj a b : 0 <= a < 2 ^ 32 → 0 <= b < 2 ^ 32 → u32 (Z.lnot a) = u32 (Z.lnot b) → a = b.
Proof.
  intros Ha Hb. unfold Z.lnot, u32. rewrite <- (Z.mod_add (Z.pred (- a)) 1 (2 ^ 32)) by lia.
  rewrite <- (Z.mod_add (Z.pred (- b)) 1 (2 ^ 32)) by lia. rewrite !Z.mod_small by lia. lia.
Qed.

Lemma hashstr_crc32_spec `{Platform} data l m : cstr m data l → Z.of_nat (length l) < 2 ^ ptr_bits →
  hashstr_crc32 data m =
    Some (u32 (Z.lnot (foldl crc_byte 0xFFFFFFFF ((λ c, u32 (char_val c)) <$> l)))).
Proof.
  intros Hs Hlen. unfold hashstr_crc32. pose proof (cstr_fuel m data l Hs).
  match goal with |- context [loop ?f ?b ?s0] =>
    destruct (loop_total (λ '(i, crc), 0 <= i <= Z.of_nat (length l) ∧
        crc = foldl crc_byte 0xFFFFFFFF ((λ c, u32 (char_val c)) <$> take (Z.to_nat i) l))
      (λ '(i, _), Z.of_nat (length l) - i)
      (λ r, r = foldl crc_byte 0xFFFFFFFF ((λ c, u32 (char_val c)) <$> l)) b f s0) as (r & -> & ->) end.
  - split; [lia|done].
  - lia.
  - intros [i crc] [Hi ->] _. destruct (cstr_get m data l i Hs Hi) as (c & -> & Hz & Hget). cbn [mbind option_bind].
    destruct (Z.eqb_spec c 0) as [Hc|Hc].
    + apply Hz in Hc. rewrite take_ge by lia. done.
    + assert (i < Z.of_nat (length l)) as Hlt by (destruct (Z.eq_dec i (Z.of_nat (length l))); [tauto|lia]).
      destruct (Hget Hlt) as [Hli _]. rewrite zget_lookup in Hli by lia.
      rewrite usize_small by lia. split; [|lia]. split; [lia|].
      replace (Z.to_nat (i + 1)) with (S (Z.to_nat i)) by lia.
      rewrite (take_S_r _ _ _ Hli), fmap_app, foldl_app. cbn [fmap list_fmap foldl]. reflexivity.
  - done.
Qed.

(** ** Properties *)

(** The checksum notices any change of one byte, wherever it is in the
    block; and the string version agrees with it on strings of ASCII
    characters, on every target. *)
Theorem crc32_detects_and_agrees `{Platform} m1 m2 a1 a2 pre x y post :
  bytes_at m1 a1 (pre ++ x :: post) → bytes_at m2 a2 (pre ++ y :: post) →
  bytes_ok (pre ++ x :: post) → bytes_ok (pre ++ y :: post) → x ≠ y →
  let n := Z.of_nat (length (pre ++ x :: post)) in
  ∃ h1 h2, hash_crc32 a1 n m1 = Some h1 ∧ hash_crc32 a2 n m2 = Some h2 ∧ h1 ≠ h2 ∧
    (cstr m1 a1 (pre ++ x :: post) → n < 2 ^ ptr_bits →
     Forall (λ b, b < 128) (pre ++ x :: post) → hashstr_crc32 a1 m1 = Some h1).
Proof.
  intros H1 H2 Hb1 Hb2 Hne n. unfold n.
  assert (length (pre ++ x :: post) = length (pre ++ y :: post)) as Hlen by by rewrite !length_app.
  eexists _, _. split; [by apply hash_crc32_spec|].
  split; [rewrite Hlen; by apply hash_crc32_spec|]. split.
  - intros Heq%u32_lnot_inj; [|by apply crc_bytes_range..]. unfold crc_bytes in Heq.
    rewrite !foldl_app in Heq. simpl in Heq.
    apply Forall_app in Hb1 as [Hpre [Hx Hpost]%Forall_cons].
    apply Forall_app in Hb2 as [_ [Hy _]%Forall_cons].
    pose proof (crc_bytes_range 0xFFFFFFFF pre ltac:(lia) Hpre) as Hr. unfold crc_bytes in Hr.
    apply crc_bytes_inj in Heq; [|apply crc_byte_range; lia..|done].
    apply crc_byte_inj in Heq; [|lia..].
    apply (f_equal (Z.lxor (foldl crc_byte 0xFFFFFFFF pre))) in Heq.
    rewrite <- !Z.lxor_assoc, Z.lxor_nilpotent, !Z.lxor_0_l in Heq. done.
  - intros Hs Hn Ha. rewrite (hashstr_crc32_spec _ _ _ Hs Hn). do 3 f_equal. unfold crc_bytes. f_equal.
    destruct Hs as [_ Hs]. clear -Ha Hs.
    induction Ha as [|b l Hb Ha IH]; [done|]. apply Forall_cons in Hs as [Hb0 Hs].
    rewrite fmap_cons, IH by done. f_equal. unfold char_val. destruct char_signed; [|apply u32_small; lia].
    destruct (Z.ltb_spec b 128); [apply u32_small; lia|lia].
Qed.

Definition example_page' : mem := <[0x1001 := 99]> example_page.

Lemma crc32_detects_and_agrees_witness : ∃ h1 h2,
  hash_crc32 0x1000 2 example_page = Some h1 ∧ hash_crc32 0x1000 2 example_page' = Some h2 ∧ h1 ≠ h2 ∧
  (cstr example_page 0x1000 [97; 98] → 2 < 2 ^ 32 → Forall (λ b, b < 128) [97; 98] →
   @hashstr_crc32 x86 0x1000 example_page = Some h1).
Proof.
  apply (@crc32_detects_and_agrees x86 example_page example_page' 0x1000 0x1000 [97] 98 99 []).
  - cbn [app]. rewrite !bytes_at_cons. split_and!; try done. intros i Hi. simpl in Hi. lia.
  - cbn [app]. rewrite !bytes_at_cons. split_and!; try done. intros i Hi. simpl in Hi. lia.
  - repeat constructor; lia.
  - repeat constructor; lia.
  - lia.
Defined.

(** The check value of CRC-32, and a byte from 128 up, which the string version
    extends where [char] is signed. *)
Example crc32_check_value :
  hash_crc32 0 9 (list_to_map (zip (seqZ 0 9) [49; 50; 51; 52; 53; 54; 55; 56; 57])) = Some 0xCBF43926.
Proof. vm_compute. reflexivity. Qed.

Example hashstr_signed :
  let m : mem := list_to_map [(0, 0xe9); (1, 0)] in
  @hashstr_crc32 arm64 0 m = hash_crc32 0 1 m ∧ @hashstr_crc32 x86 0 m ≠ hash_crc32 0 1 m.
Proof. split; [|intros Heq]; vm_compute in *; congruence. Qed.
