(* ===== verification/Uint2048.v ===== *)
(** * Uint2048: big numbers of the boot loader, [boot/libboot/crypto/uint2048.c]

    64 buckets of 32 bits, the least significant first. A routine that writes
    its result over one of its operands reads a bucket before it writes the same
    one, so the routines are functions of the values. *)
From S2P Require Import Prelude.

Definition N_UINT2048 : Z := 64.
Definition BASE_UINT2048U : Z := 2 ^ 32.

(** The buckets. *)
Abbreviation uint2048_t := (list Z).

Definition uint2048_init (n : Z) : uint2048_t := n :: replicate 63 0.

(** The bytes of memory as buckets, four at a time. *)
Fixpoint buckets_of (n : nat) (bytes : list Z) : list Z :=
  match n with
  | O => []
  | S n =>
      match bytes with
      | b0 :: b1 :: b2 :: b3 :: bytes =>
          (b0 + 2 ^ 8 * b1 + 2 ^ 16 * b2 + 2 ^ 24 * b3) :: buckets_of n bytes
      | _ => []
      end
  end.

(** [f] holds the [n] bytes; the object is zeroed and the bytes copied over.
    [None] is the error. *)
Definition uint2048_init_bytes (f : list Z) : option uint2048_t :=
  if 256 <? Z.of_nat (length f) then None
  else Some (buckets_of 64 (f ++ replicate (256 - length f) 0)).

(** The loop from the last four bytes up. *)
Definition be_word (f : list Z) (fi : Z) : option Z :=
  b0 ← f.[fi]; b1 ← f.[fi + 1]; b2 ← f.[fi + 2]; b3 ← f.[fi + 3];
  Some (Z.lor (Z.lor (Z.lor (Z.shiftl b0 24) (Z.shiftl b1 16)) (Z.shiftl b2 8)) b3).

(** [Some None] is the error; a store past the 64 buckets is undefined. [d] is
    the object as it was. *)
Definition uint2048_init_bytes_be (d : uint2048_t) (f : list Z) : option (option uint2048_t) :=
  let n := Z.of_nat (length f) in
  if 256 <? n then Some None else
  let dd := n / 4 * 4 in
  let dr := n - dd in
  '(i, d) ← for_n (Z.to_nat (n / 4)) 0 (λ k '(i, d),
    bytes4 ← be_word f (n - 4 - 4 * k);
    d ← d.[i <- bytes4];
    Some (i + 1, d)) (0, d);
  bytes4 ← for_n (Z.to_nat dr) 0 (λ k bytes4,
    let remi := dr - 1 - k in
    b ← f.[dd + remi];
    Some (Z.lor bytes4 (Z.shiftl b (remi * 8)))) 0;
  d ← d.[i <- bytes4];
  d ← for_n (Z.to_nat (N_UINT2048 - (i + 1))) (i + 1) (λ i d, d.[i <- 0]) d;
  Some (Some d).

Definition EOVERFLOW_result (carry : Z) : Z := if carry =? 0 then 0 else - EOVERFLOW.

Fixpoint add_loop (a b : list Z) (carry : Z) : list Z * Z :=
  match a, b with
  | ab :: a, bb :: b =>
      let sum := u64 (u64 (ab + bb) + carry) in
      let '(carry, sum) :=
        if BASE_UINT2048U <=? sum then (1, sum - BASE_UINT2048U) else (0, sum) in
      let '(c, carry) := add_loop a b carry in
      (u32 sum :: c, carry)
  | _, _ => ([], carry)
  end.

Definition uint2048_add (a b : uint2048_t) : Z * uint2048_t :=
  let '(c, carry) := add_loop a b 0 in (EOVERFLOW_result carry, c).

Fixpoint sub_loop (a b : list Z) (carry : Z) : list Z * Z :=
  match a, b with
  | ab :: a, bb :: b =>
      let sum := u64 (carry + bb) in
      let '(ab, carry) :=
        if sum <=? ab then (ab - sum, 0) else (u64 (ab + BASE_UINT2048U) - sum, 1) in
      let '(c, carry) := sub_loop a b carry in
      (u32 ab :: c, carry)
  | _, _ => ([], carry)
  end.

Definition uint2048_sub (a b : uint2048_t) : Z * uint2048_t :=
  let '(c, carry) := sub_loop a b 0 in
  (EOVERFLOW_result carry, if carry =? 0 then c else uint2048_init 0).

(** In place: the first loop goes down from the last bucket, the second clears
    what is left below. *)
Definition uint2048_shl (a : uint2048_t) (n : Z) : option uint2048_t :=
  a ← for_n (Z.to_nat (N_UINT2048 - n)) 0 (λ k a,
    let i := N_UINT2048 - 1 - k in x ← a.[i - n]; a.[i <- x]) a;
  for_n (Z.to_nat (Z.min N_UINT2048 n)) 0 (λ k a, a.[Z.min N_UINT2048 n - 1 - k <- 0]) a.

Definition uint2048_shr (a : uint2048_t) (n : Z) : option uint2048_t :=
  a ← for_n (Z.to_nat (N_UINT2048 - n)) 0 (λ i a, x ← a.[i + n]; a.[i <- x]) a;
  for_n (Z.to_nat (Z.min N_UINT2048 n)) (Z.max 0 (N_UINT2048 - n)) (λ i a, a.[i <- 0]) a.

Fixpoint mult_loop (a : list Z) (n carry : Z) : list Z * Z :=
  match a with
  | [] => ([], carry)
  | ab :: a =>
      let tmp := u64 (u64 (n * ab) + carry) in
      let '(carry, tmp) :=
        if BASE_UINT2048U <=? tmp then (tmp / BASE_UINT2048U, tmp mod BASE_UINT2048U)
        else (0, tmp) in
      let '(b, carry) := mult_loop a n carry in
      (u32 tmp :: b, carry)
  end.

Definition uint2048_mult_by_digit (a : uint2048_t) (un : Z) : Z * uint2048_t :=
  let '(b, carry) := mult_loop a un 0 in (EOVERFLOW_result carry, b).

Definition mult_step (a b : uint2048_t) (i : Z) (c : uint2048_t) : option uint2048_t :=
  ai ← a.[i];
  if ai =? 0 then Some c else
  let '(_, p) := uint2048_mult_by_digit b ai in
  p ← uint2048_shl p i;
  let '(_, c) := uint2048_add c p in
  Some c.

Definition uint2048_mult (a b : uint2048_t) : option uint2048_t :=
  for_n 64 0 (mult_step a b) (uint2048_init 0).

(** From the most significant bucket down; [eq] is the answer for equal
    numbers. *)
Fixpoint less_loop (eq : bool) (a b : list Z) : bool :=
  match a, b with
  | x :: a, y :: b => if x <? y then true else if y <? x then false else less_loop eq a b
  | _, _ => eq
  end.

Definition uint2048_less (a b : uint2048_t) : bool := less_loop false (rev a) (rev b).
Definition uint2048_less_equal (a b : uint2048_t) : bool := less_loop true (rev a) (rev b).

Fixpoint uint2048_equal (a b : uint2048_t) : bool :=
  match a, b with
  | x :: a, y :: b => if negb (x =? y) then false else uint2048_equal a b
  | _, _ => true
  end.

Fixpoint uint2048_is_not_zero (a : uint2048_t) : bool :=
  match a with
  | [] => false
  | x :: a => if negb (x =? 0) then true else uint2048_is_not_zero a
  end.

Definition uint2048_is_odd (a : uint2048_t) : option bool :=
  x ← a.[0]; Some (x mod 2 =? 1).

(** The digit of the quotient, by bisection of [0 .. 2 ^ 32): 33 halvings. *)
Definition div_digit (b reminder : uint2048_t) : option Z :=
  loop 34 (λ '(l, r),
    if 1 <? u64 (r - l) then
      let m := u64 (l + r) / 2 in
      let '(_, tmp) := uint2048_mult_by_digit b (u32 m) in
      Some (inl (if uint2048_less_equal tmp reminder then (m, r) else (l, m)))
    else Some (inr l)) (0, BASE_UINT2048U).

Definition div_step (a b : uint2048_t) (k : Z) (s : uint2048_t * uint2048_t)
  : option (uint2048_t * uint2048_t) :=
  let '(dividend, reminder) := s in
  let i := N_UINT2048 - 1 - k in
  reminder ← uint2048_shl reminder 1;
  ai ← a.[i];
  reminder ← reminder.[0 <- ai];
  l ← div_digit b reminder;
  dividend ← dividend.[i <- u32 l];
  let '(_, tmp) := uint2048_mult_by_digit b (u32 l) in
  let '(_, reminder) := uint2048_sub reminder tmp in
  Some (dividend, reminder).

(** The quotient, called [dividend] in the source, and the remainder. *)
Definition uint2048_div (a b : uint2048_t) : option (uint2048_t * uint2048_t) :=
  for_n 64 0 (div_step a b) (uint2048_init 0, uint2048_init 0).

Definition pow_step (md const2 : uint2048_t) (s : uint2048_t * uint2048_t * uint2048_t)
  : option (uint2048_t * uint2048_t * uint2048_t + uint2048_t) :=
  let '(a, p, ans) := s in
  if uint2048_is_not_zero p then
    odd ← uint2048_is_odd p;
    ans ← (if odd : bool then
             tmp1 ← uint2048_mult ans a;
             '(_, tmp2) ← uint2048_div tmp1 md;
             Some tmp2
           else Some ans);
    tmp1 ← uint2048_mult a a;
    '(_, a) ← uint2048_div tmp1 md;
    '(p, _) ← uint2048_div p const2;
    Some (inl (a, p, ans))
  else Some (inr ans).

(** The exponent has 2048 bits and is halved in each round. *)
Definition uint2048_pow (ua up md : uint2048_t) : option uint2048_t :=
  loop 2049 (pow_step md (uint2048_init 2)) (ua, up, uint2048_init 1).

(** ** Numbers *)

(** The value of a list of buckets. *)
Definition val (l : list Z) : Z := foldr (λ x v, x + 2 ^ 32 * v) 0 l.
Definition wf (l : list Z) : Prop := Forall (λ x, 0 <= x < 2 ^ 32) l.
(** What the routines are given and return. *)
Definition num (a : uint2048_t) : Prop := length a = 64%nat ∧ wf a.
(** The weight of the bucket [n]. *)
Definition weight (n : nat) : Z := 2 ^ (32 * Z.of_nat n).

Lemma weight_S n : weight (S n) = 2 ^ 32 * weight n.
Proof. unfold weight. rewrite <- Z.pow_add_r by lia. f_equal. lia. Qed.
Lemma weight_pos n : 0 < weight n.
Proof. apply Z.pow_pos_nonneg; lia. Qed.
Lemma weight_add n m : weight (n + m) = weight n * weight m.
Proof. unfold weight. rewrite <- Z.pow_add_r by lia. f_equal. lia. Qed.
Lemma weight_1 : weight 1 = 2 ^ 32.
Proof. reflexivity. Qed.

Lemma val_cons x l : val (x :: l) = x + 2 ^ 32 * val l.
Proof. reflexivity. Qed.
Lemma val_app a b : val (a ++ b) = val a + weight (length a) * val b.
Proof.
  induction a as [|x a IH]; simpl app; [unfold weight; simpl length; change (val []) with 0; lia|].
  rewrite !val_cons, IH. simpl length. rewrite weight_S. lia.
Qed.
Lemma val_zeros n : val (replicate n 0) = 0.
Proof. induction n as [|n IH]; [done|]. simpl replicate. rewrite val_cons. lia. Qed.
Lemma val_bound l : wf l → 0 <= val l < weight (length l).
Proof.
  induction 1 as [|x l Hx _ IH]; [unfold weight; simpl; lia|].
  rewrite val_cons. simpl length. rewrite weight_S. lia.
Qed.
Lemma wf_zeros n : wf (replicate n 0).
Proof. apply Forall_replicate. lia. Qed.
Lemma wf_app a b : wf (a ++ b) ↔ wf a ∧ wf b.
Proof. apply Forall_app. Qed.
Lemma wf_rev a : wf a → wf (rev a).
Proof. intros. by apply Forall_rev. Qed.
Lemma wf_get l i x : wf l → l !! i = Some x → 0 <= x < 2 ^ 32.
Proof. intros Hl Hx. by eapply Forall_lookup_1 in Hl. Qed.
Lemma val_inj a b : wf a → wf b → length a = length b → val a = val b → a = b.
Proof.
  intros Ha. revert b. induction Ha as [|x a Hx _ IH]; intros [|y b] Hb Hl Hv; try done.
  rewrite !val_cons in Hv. apply Forall_cons in Hb as [Hy Hb]. simpl in Hl.
  assert (x = y) by lia. f_equal; [done|]. apply IH; [done|lia|lia].
Qed.

Lemma num_init n : 0 <= n < 2 ^ 32 → num (uint2048_init n) ∧ val (uint2048_init n) = n.
Proof.
  intros. unfold uint2048_init. split; [split; [done|]|].
  - apply Forall_cons. split; [lia|]. apply wf_zeros.
  - rewrite val_cons, val_zeros. lia.
Qed.
Lemma num_bound a : num a → 0 <= val a < weight 64.
Proof. intros [Hl Hw]. rewrite <- Hl. by apply val_bound. Qed.

(** ** Addition, subtraction, multiplication by a digit *)

Lemma add_loop_spec a b carry : wf a → wf b → length a = length b → 0 <= carry <= 1 →
  ∃ c k, add_loop a b carry = (c, k) ∧ length c = length a ∧ wf c ∧ 0 <= k <= 1 ∧
    val c + weight (length a) * k = val a + val b + carry.
Proof.
  intros Ha. revert b carry.
  induction Ha as [|x a Hx _ IH]; intros [|y b] carry Hb Hl Hc; try done.
  { exists [], carry. split; [done|]. split; [done|]. split; [done|]. split; [done|].
    unfold weight. simpl. lia. }
  apply Forall_cons in Hb as [Hy Hb]. simpl in Hl. cbn [add_loop].
  rewrite (u64_small (x + y)) by lia. rewrite u64_small by lia.
  unfold BASE_UINT2048U. destruct (Z.leb_spec (2 ^ 32) (x + y + carry)).
  - destruct (IH b 1) as (c & k & Hk & Hlc & Hwc & Hkr & Hv); [done|lia|lia|]. rewrite Hk.
    exists (u32 (x + y + carry - 2 ^ 32) :: c), k. rewrite u32_small by lia.
    split; [done|]. simpl length. rewrite weight_S, !val_cons. split; [lia|].
    split; [apply Forall_cons; split; [lia|done]|]. lia.
  - destruct (IH b 0) as (c & k & Hk & Hlc & Hwc & Hkr & Hv); [done|lia|lia|]. rewrite Hk.
    exists (u32 (x + y + carry) :: c), k. rewrite u32_small by lia.
    split; [done|]. simpl length. rewrite weight_S, !val_cons. split; [lia|].
    split; [apply Forall_cons; split; [lia|done]|]. lia.
Qed.

Lemma sub_loop_spec a b carry : wf a → wf b → length a = length b → 0 <= carry <= 1 →
  ∃ c k, sub_loop a b carry = (c, k) ∧ length c = length a ∧ wf c ∧ 0 <= k <= 1 ∧
    val c + val b + carry = val a + weight (length a) * k.
Proof.
  intros Ha. revert b carry.
  induction Ha as [|x a Hx _ IH]; intros [|y b] carry Hb Hl Hc; try done.
  { exists [], carry. split; [done|]. split; [done|]. split; [done|]. split; [done|].
    unfold weight. simpl. lia. }
  apply Forall_cons in Hb as [Hy Hb]. simpl in Hl. cbn [sub_loop].
  rewrite (u64_small (carry + y)) by lia.
  unfold BASE_UINT2048U. destruct (Z.leb_spec (carry + y) x).
  - destruct (IH b 0) as (c & k & Hk & Hlc & Hwc & Hkr & Hv); [done|lia|lia|]. rewrite Hk.
    exists (u32 (x - (carry + y)) :: c), k. rewrite u32_small by lia.
    split; [done|]. simpl length. rewrite weight_S, !val_cons. split; [lia|].
    split; [apply Forall_cons; split; [lia|done]|]. lia.
  - destruct (IH b 1) as (c & k & Hk & Hlc & Hwc & Hkr & Hv); [done|lia|lia|]. rewrite Hk.
    exists (u32 (u64 (x + 2 ^ 32) - (carry + y)) :: c), k.
    rewrite (u64_small (x + _)) by lia. rewrite u32_small by lia.
    split; [done|]. simpl length. rewrite weight_S, !val_cons. split; [lia|].
    split; [apply Forall_cons; split; [lia|done]|]. lia.
Qed.

Lemma mult_loop_spec a n carry : wf a → 0 <= n < 2 ^ 32 → 0 <= carry < 2 ^ 32 →
  ∃ c k, mult_loop a n carry = (c, k) ∧ length c = length a ∧ wf c ∧ 0 <= k < 2 ^ 32 ∧
    val c + weight (length a) * k = n * val a + carry.
Proof.
  intros Ha Hn. revert carry. induction Ha as [|x a Hx _ IH]; intros carry Hc.
  { exists [], carry. split; [done|]. split; [done|]. split; [apply Forall_nil_2|]. split; [exact Hc|].
    unfold weight. simpl. lia. }
  cbn [mult_loop]. assert (0 <= n * x <= (2 ^ 32 - 1) * (2 ^ 32 - 1)) by nia.
  rewrite (u64_small (n * x)) by lia. rewrite u64_small by lia.
  set (t := n * x + carry) in *. unfold BASE_UINT2048U.
  assert ((if 2 ^ 32 <=? t then (t / 2 ^ 32, t mod 2 ^ 32) else (0, t))
    = (t / 2 ^ 32, t mod 2 ^ 32)) as ->.
  { destruct (Z.leb_spec (2 ^ 32) t); [done|].
    rewrite Z.div_small, Z.mod_small by lia. done. }
  assert (0 <= t < 2 ^ 32 * 2 ^ 32) by lia.
  pose proof (Z.div_mod t (2 ^ 32) ltac:(lia)) as Hdm.
  pose proof (Z.mod_pos_bound t (2 ^ 32) ltac:(lia)) as Hm.
  assert (0 <= t / 2 ^ 32 < 2 ^ 32) by lia.
  destruct (IH (t / 2 ^ 32)) as (c & k & Hk & Hlc & Hwc & Hkr & Hv); [lia|]. rewrite Hk.
  exists (u32 (t mod 2 ^ 32) :: c), k. rewrite u32_small by lia.
  split; [done|]. simpl length. rewrite weight_S, !val_cons. split; [lia|].
  split; [apply Forall_cons; split; [lia|done]|]. split; [lia|].
  transitivity (t mod 2 ^ 32 + 2 ^ 32 * (n * val a + t / 2 ^ 32)); [lia|].
  transitivity (t + 2 ^ 32 * (n * val a)); [lia|]. unfold t. lia.
Qed.

Lemma uint2048_add_spec a b : num a → num b →
  ∃ c, uint2048_add a b = (if val a + val b <? weight 64 then 0 else - EOVERFLOW, c) ∧ num c ∧
    val c = (val a + val b) mod weight 64.
Proof.
  intros [Hla Ha] [Hlb Hb].
  destruct (add_loop_spec a b 0) as (c & k & Hk & Hlc & Hc & Hkr & Hv); [done..|lia|lia|].
  assert (num c) as Hn by (split; [lia|done]). pose proof (num_bound c Hn). rewrite Hla in Hv.
  pose proof (weight_pos 64).
  exists c. unfold uint2048_add, EOVERFLOW_result. rewrite Hk. split; [|split; [done|]].
  - f_equal. destruct (Z.ltb_spec (val a + val b) (weight 64)), (Z.eqb_spec k 0); nia.
  - apply Z.mod_unique_pos with k; lia.
Qed.

Lemma uint2048_sub_spec a b : num a → num b →
  ∃ c, uint2048_sub a b = (if val b <=? val a then 0 else - EOVERFLOW, c) ∧ num c ∧
    val c = if val b <=? val a then val a - val b else 0.
Proof.
  intros [Hla Ha] [Hlb Hb].
  destruct (sub_loop_spec a b 0) as (c & k & Hk & Hlc & Hc & Hkr & Hv); [done..|lia|lia|].
  assert (num c) as Hn by (split; [lia|done]). pose proof (num_bound c Hn). rewrite Hla in Hv.
  pose proof (weight_pos 64). destruct (num_init 0) as [Hn0 Hv0]; [lia|].
  unfold uint2048_sub, EOVERFLOW_result. rewrite Hk.
  destruct (Z.leb_spec (val b) (val a)), (Z.eqb_spec k 0); try nia; eexists; (split; [reflexivity|]).
  - split; [done|]. subst k. lia.
  - by split.
Qed.

Lemma mult_by_digit_spec a n : num a → 0 <= n < 2 ^ 32 →
  ∃ c, uint2048_mult_by_digit a n = (if n * val a <? weight 64 then 0 else - EOVERFLOW, c) ∧
    num c ∧ val c = (n * val a) mod weight 64.
Proof.
  intros [Hla Ha] Hn.
  destruct (mult_loop_spec a n 0) as (c & k & Hk & Hlc & Hc & Hkr & Hv); [done..|lia|].
  assert (num c) as Hnc by (split; [lia|done]). pose proof (num_bound c Hnc). rewrite Hla in Hv.
  pose proof (weight_pos 64).
  exists c. unfold uint2048_mult_by_digit, EOVERFLOW_result. rewrite Hk. split; [|split; [done|]].
  - f_equal. destruct (Z.ltb_spec (n * val a) (weight 64)), (Z.eqb_spec k 0); nia.
  - apply Z.mod_unique_pos with k; lia.
Qed.

(** ** Shifts by buckets *)

Lemma uint2048_shl_spec a n : length a = 64%nat → 0 <= n →
  uint2048_shl a n = Some (take 64 (replicate (Z.to_nat n) 0 ++ a)).
Proof.
  intros Hl Hn. unfold uint2048_shl, N_UINT2048.
  destruct (for_n_total (S:=uint2048_t) (λ k (l : uint2048_t), length l = 64%nat ∧
      ∀ j, 0 <= j < 64 → l.[j] = if decide (64 - k <= j) then a.[j - n] else a.[j])
    (λ k a0, x ← a0.[64 - 1 - k - n]; a0.[64 - 1 - k <- x])
    (Z.to_nat (64 - n)) 0 a) as (l1 & -> & Hl1 & Hj1).
  { split; [done|]. intros j Hj. by rewrite decide_False by lia. }
  { intros k l Hk [Hll Hlj].
    destruct (zget_is_Some a (64 - 1 - k - n)) as (x & Hx); [lia|].
    assert (l.[64 - 1 - k - n] = Some x) as ->.
    { rewrite Hlj by lia. case_decide; [|done]. replace n with 0 in * by lia. lia. }
    cbn [mbind option_bind]. rewrite zset_in by lia. eexists. split; [done|].
    rewrite length_insert. split; [done|]. intros j Hj. rewrite zget_insert by lia.
    case_decide as Hd.
    - subst j. by rewrite decide_True by lia.
    - rewrite Hlj by done. do 2 case_decide; try done; lia. }
  cbn [mbind option_bind].
  destruct (for_n_total (S:=uint2048_t) (λ k (l : uint2048_t), length l = 64%nat ∧
      ∀ j, 0 <= j < 64 → l.[j] = if decide (Z.min 64 n - k <= j < Z.min 64 n) then Some 0 else l1.[j])
    (λ k a0, a0.[Z.min 64 n - 1 - k <- 0])
    (Z.to_nat (Z.min 64 n)) 0 l1) as (l2 & -> & Hl2 & Hj2).
  { split; [done|]. intros j Hj. by rewrite decide_False by lia. }
  { intros k l Hk [Hll Hlj]. rewrite zset_in by lia. eexists. split; [done|].
    rewrite length_insert. split; [done|]. intros j Hj. rewrite zget_insert by lia.
    case_decide as Hd.
    - subst j. by rewrite decide_True by lia.
    - rewrite Hlj by done. do 2 case_decide; try done; lia. }
  f_equal. apply list_eq_zget.
  { rewrite length_take, length_app, length_replicate. lia. }
  rewrite Hl2. intros j Hj. rewrite Hj2 by lia.
  rewrite (zget_lookup (take _ _)) by lia. rewrite lookup_take_lt by lia. case_decide.
  - rewrite lookup_app_l by (rewrite length_replicate; lia).
    rewrite lookup_replicate_2 by lia. done.
  - rewrite Hj1 by lia. rewrite lookup_app_r by (rewrite length_replicate; lia).
    rewrite length_replicate. rewrite decide_True by lia. rewrite zget_lookup by lia. f_equal. lia.
Qed.

Lemma uint2048_shr_spec a n : length a = 64%nat → 0 <= n →
  uint2048_shr a n = Some (take 64 (drop (Z.to_nat n) a ++ replicate (Z.to_nat n) 0)).
Proof.
  intros Hl Hn. unfold uint2048_shr, N_UINT2048.
  destruct (for_n_total (S:=uint2048_t) (λ k (l : uint2048_t), length l = 64%nat ∧
      ∀ j, 0 <= j < 64 → l.[j] = if decide (j < k) then a.[j + n] else a.[j])
    (λ i a0, x ← a0.[i + n]; a0.[i <- x])
    (Z.to_nat (64 - n)) 0 a) as (l1 & -> & Hl1 & Hj1).
  { split; [done|]. intros j Hj. by rewrite decide_False by lia. }
  { intros k l Hk [Hll Hlj].
    destruct (zget_is_Some a (k + n)) as (x & Hx); [lia|].
    assert (l.[k + n] = Some x) as ->.
    { rewrite Hlj by lia. case_decide; [lia|done]. }
    cbn [mbind option_bind]. rewrite zset_in by lia. eexists. split; [done|].
    rewrite length_insert. split; [done|]. intros j Hj. rewrite zget_insert by lia.
    case_decide as Hd.
    - subst j. by rewrite decide_True by lia.
    - rewrite Hlj by done. do 2 case_decide; try done; lia. }
  cbn [mbind option_bind].
  destruct (for_n_total (S:=uint2048_t) (λ k (l : uint2048_t), length l = 64%nat ∧
      ∀ j, 0 <= j < 64 → l.[j] = if decide (Z.max 0 (64 - n) <= j < k) then Some 0 else l1.[j])
    (λ i a0, a0.[i <- 0])
    (Z.to_nat (Z.min 64 n)) (Z.max 0 (64 - n)) l1) as (l2 & -> & Hl2 & Hj2).
  { split; [done|]. intros j Hj. by rewrite decide_False by lia. }
  { intros k l Hk [Hll Hlj]. rewrite zset_in by lia. eexists. split; [done|].
    rewrite length_insert. split; [done|]. intros j Hj. rewrite zget_insert by lia.
    case_decide as Hd.
    - subst j. by rewrite decide_True by lia.
    - rewrite Hlj by done. do 2 case_decide; try done; lia. }
  f_equal. apply list_eq_zget.
  { rewrite length_take, length_app, length_drop, length_replicate. lia. }
  rewrite Hl2. intros j Hj. rewrite Hj2 by lia.
  rewrite (zget_lookup (take _ _)) by lia. rewrite lookup_take_lt by lia. case_decide.
  - rewrite lookup_app_r by (rewrite length_drop; lia).
    rewrite length_drop, lookup_replicate_2 by lia. done.
  - rewrite Hj1 by lia. rewrite lookup_app_l by (rewrite length_drop; lia).
    rewrite lookup_drop. rewrite decide_True by lia. rewrite zget_lookup by lia. f_equal. lia.
Qed.

Lemma wf_take l n : wf l → wf (take n l).
Proof. apply Forall_take. Qed.
Lemma wf_drop l n : wf l → wf (drop n l).
Proof. apply Forall_drop. Qed.

(** A prefix is a remainder, a suffix a quotient. *)
Lemma val_take_drop l n : (n <= length l)%nat → val l = val (take n l) + weight n * val (drop n l).
Proof.
  intros. rewrite <- (take_drop n l) at 1. rewrite val_app, length_take. by rewrite Nat.min_l by lia.
Qed.
Lemma val_take l n : wf l → (n <= length l)%nat → val (take n l) = val l mod weight n.
Proof.
  intros Hl Hn. apply Z.mod_unique_pos with (val (drop n l)).
  - pose proof (val_bound _ (wf_take l n Hl)) as H. rewrite length_take in H.
    by rewrite Nat.min_l in H by lia.
  - rewrite (val_take_drop l n) by done. lia.
Qed.
Lemma val_drop l n : wf l → (n <= length l)%nat → val (drop n l) = val l / weight n.
Proof.
  intros Hl Hn. pose proof (val_bound _ (wf_take l n Hl)) as H. rewrite length_take in H.
  rewrite Nat.min_l in H by lia. apply Z.div_unique_pos with (val (take n l)); [done|].
  rewrite (val_take_drop l n) by done. lia.
Qed.

Lemma shl_num a n : num a → 0 <= n →
  ∃ c, uint2048_shl a n = Some c ∧ num c ∧ val c = (val a * 2 ^ (32 * n)) mod weight 64.
Proof.
  intros [Hl Hw] Hn. eexists. split; [by apply uint2048_shl_spec|].
  assert (wf (replicate (Z.to_nat n) 0 ++ a)) by (apply wf_app; split; [apply wf_zeros|done]).
  split; [split|].
  - rewrite length_take, length_app. lia.
  - by apply wf_take.
  - rewrite val_take by (done || rewrite length_app; lia).
    rewrite val_app, val_zeros, length_replicate. f_equal. unfold weight. rewrite Z2Nat.id by lia. lia.
Qed.

Lemma shr_num a n : num a → 0 <= n →
  ∃ c, uint2048_shr a n = Some c ∧ num c ∧ val c = val a / 2 ^ (32 * n).
Proof.
  intros [Hl Hw] Hn. eexists. split; [by apply uint2048_shr_spec|].
  assert (wf (drop (Z.to_nat n) a ++ replicate (Z.to_nat n) 0)).
  { apply wf_app; split; [by apply wf_drop|apply wf_zeros]. }
  split; [split|].
  - rewrite length_take, length_app, length_drop, length_replicate. lia.
  - by apply wf_take.
  - rewrite val_take by (done || rewrite length_app, length_drop, length_replicate; lia).
    rewrite val_app, val_zeros, Z.mul_0_r, Z.add_0_r.
    pose proof (num_bound a (conj Hl Hw)).
    destruct (decide (n <= 64)).
    + rewrite val_drop by (done || lia). unfold weight at 1. rewrite Z2Nat.id by lia.
      apply Z.mod_small. split; [apply Z.div_pos; [lia|by apply Z.pow_pos_nonneg; lia]|].
      apply Z.le_lt_trans with (val a); [|lia]. apply Z.div_le_upper_bound; [by apply Z.pow_pos_nonneg; lia|].
      assert (0 < 2 ^ (32 * n)) by (apply Z.pow_pos_nonneg; lia). nia.
    + rewrite drop_ge by lia. change (val []) with 0. rewrite Z.mod_0_l by (pose proof (weight_pos 64); lia).
      symmetry. apply Z.div_small. split; [lia|]. apply Z.lt_le_trans with (weight 64); [lia|].
      apply Z.pow_le_mono_r; lia.
Qed.

(** ** Comparisons *)

Lemma less_loop_spec eq a b : wf a → wf b → length a = length b →
  less_loop eq a b = (val (rev a) <? val (rev b)) || eq && (val (rev a) =? val (rev b)).
Proof.
  intros Ha. revert b. induction Ha as [|x a Hx Ha IH]; intros [|y b] Hb Hl; try done.
  { by destruct eq. }
  apply Forall_cons in Hb as [Hy Hb]. simpl in Hl. cbn [less_loop rev].
  rewrite !val_app, !length_rev. assert (∀ z, val [z] = z) as Hone by (intros; rewrite val_cons; change (val []) with 0; lia).
  rewrite !Hone. rewrite IH by (done || lia). replace (length b) with (length a) by lia.
  pose proof (val_bound _ (wf_rev a Ha)) as H1. pose proof (val_bound _ (wf_rev b Hb)) as H2.
  rewrite length_rev in H1, H2. replace (length b) with (length a) in H2 by lia.
  pose proof (weight_pos (length a)) as Hw. set (w := weight (length a)) in *.
  destruct (Z.ltb_spec x y).
  { symmetry. apply orb_true_intro. left. apply Z.ltb_lt. nia. }
  destruct (Z.ltb_spec y x).
  { symmetry. apply orb_false_intro; [apply Z.ltb_ge; nia|].
    apply andb_false_iff. right. apply Z.eqb_neq. nia. }
  replace y with x by lia. f_equal; [|f_equal].
  - destruct (Z.ltb_spec (val (rev a)) (val (rev b))); symmetry; [apply Z.ltb_lt|apply Z.ltb_ge]; lia.
  - destruct (Z.eqb_spec (val (rev a)) (val (rev b))); symmetry; [apply Z.eqb_eq|apply Z.eqb_neq]; lia.
Qed.

Lemma uint2048_less_spec a b : num a → num b → uint2048_less a b = (val a <? val b).
Proof.
  intros [Hla Ha] [Hlb Hb]. unfold uint2048_less.
  rewrite less_loop_spec by (rewrite ?length_rev; try apply wf_rev; done || lia).
  rewrite !rev_involutive. by rewrite orb_false_r.
Qed.
Lemma uint2048_less_equal_spec a b : num a → num b → uint2048_less_equal a b = (val a <=? val b).
Proof.
  intros [Hla Ha] [Hlb Hb]. unfold uint2048_less_equal.
  rewrite less_loop_spec by (rewrite ?length_rev; try apply wf_rev; done || lia).
  rewrite !rev_involutive. simpl.
  destruct (Z.leb_spec (val a) (val b)), (Z.ltb_spec (val a) (val b)), (Z.eqb_spec (val a) (val b));
    simpl; done || lia.
Qed.
Lemma uint2048_equal_spec a b : num a → num b → uint2048_equal a b = (val a =? val b).
Proof.
  intros [Hla Ha] [Hlb Hb]. rewrite <- Hlb in Hla. clear Hlb.
  revert b Hb Hla. induction Ha as [|x a Hx Ha IH]; intros [|y b] Hb Hl; try done.
  apply Forall_cons in Hb as [Hy Hb]. simpl in Hl. cbn [uint2048_equal].
  rewrite IH by (done || lia). rewrite !val_cons.
  destruct (Z.eqb_spec x y); simpl.
  - destruct (Z.eqb_spec (val a) (val b)); symmetry; [apply Z.eqb_eq|apply Z.eqb_neq]; lia.
  - symmetry. apply Z.eqb_neq. lia.
Qed.
Lemma is_not_zero_spec a : wf a → uint2048_is_not_zero a = negb (val a =? 0).
Proof.
  induction 1 as [|x a Hx Ha IH]; [done|]. cbn [uint2048_is_not_zero]. rewrite IH, val_cons.
  pose proof (val_bound a Ha). destruct (Z.eqb_spec x 0); simpl.
  - f_equal. destruct (Z.eqb_spec (val a) 0); symmetry; [apply Z.eqb_eq|apply Z.eqb_neq]; lia.
  - symmetry. apply negb_true_iff, Z.eqb_neq. lia.
Qed.
Lemma is_odd_spec a : num a → uint2048_is_odd a = Some (val a mod 2 =? 1).
Proof.
  intros [Hl Hw]. destruct a as [|x a]; [done|]. unfold uint2048_is_odd.
  rewrite zget_lookup by lia. change (Z.to_nat 0) with 0%nat. cbn [lookup list_lookup mbind option_bind].
  rewrite val_cons. do 2 f_equal. replace (x + 2 ^ 32 * val a) with (x + (2 ^ 31 * val a) * 2) by lia.
  by rewrite Z_mod_plus_full.
Qed.

(** ** Multiplication *)

Lemma num_get a i : num a → 0 <= i < 64 → ∃ x, a.[i] = Some x ∧ 0 <= x < 2 ^ 32.
Proof.
  intros [Hl Hw] Hi. destruct (zget_is_Some a i) as (x & Hx); [lia|].
  exists x. split; [done|]. rewrite zget_lookup in Hx by lia. by eapply wf_get.
Qed.
Lemma val_take_S a i x : a !! i = Some x → val (take (S i) a) = val (take i a) + weight i * x.
Proof.
  intros Hx. rewrite (take_S_r a i x) by done. rewrite val_app, length_take.
  apply lookup_lt_Some in Hx. rewrite Nat.min_l by lia. rewrite val_cons. change (val []) with 0. lia.
Qed.

(** Replacing a remainder by the number it is the remainder of. *)
Lemma mod_eq_sym m a b : a mod m = b mod m → b mod m = a mod m.
Proof. done. Qed.
Lemma mod_add_eq m a a' b b' : a mod m = a' mod m → b mod m = b' mod m → (a + b) mod m = (a' + b') mod m.
Proof. intros Ha Hb. rewrite (Zplus_mod a b), Ha, Hb. symmetry. apply Zplus_mod. Qed.
Lemma mod_mul_eq m a a' b b' : a mod m = a' mod m → b mod m = b' mod m → (a * b) mod m = (a' * b') mod m.
Proof. intros Ha Hb. rewrite (Zmult_mod a b), Ha, Hb. symmetry. apply Zmult_mod. Qed.

Lemma mult_step_spec a b i c : num a → num b → num c → 0 <= i < 64 →
  val c = (val (take (Z.to_nat i) a) * val b) mod weight 64 →
  ∃ c', mult_step a b i c = Some c' ∧ num c' ∧
    val c' = (val (take (Z.to_nat (i + 1)) a) * val b) mod weight 64.
Proof.
  intros Ha Hb Hc Hi Hv. destruct (num_get a i Ha Hi) as (x & Hx & Hxr).
  unfold mult_step. rewrite Hx. cbn [mbind option_bind].
  rewrite zget_lookup in Hx by lia. replace (Z.to_nat (i + 1)) with (S (Z.to_nat i)) by lia.
  rewrite (val_take_S a _ x Hx). destruct (Z.eqb_spec x 0) as [-> |].
  { exists c. split; [done|]. split; [done|]. rewrite Hv. f_equal. lia. }
  destruct (mult_by_digit_spec b x Hb Hxr) as (p & -> & Hp & Hpv).
  destruct (shl_num p i Hp) as (p' & -> & Hp' & Hpv'); [lia|]. cbn [mbind option_bind].
  destruct (uint2048_add_spec c p' Hc Hp') as (c' & -> & Hc' & Hcv').
  exists c'. split; [done|]. split; [done|]. rewrite Hcv', Hv, Hpv', Hpv.
  rewrite Z.mul_add_distr_r. apply mod_add_eq; [apply Zmod_mod|]. rewrite Zmod_mod.
  rewrite Zmult_mod_idemp_l. f_equal. unfold weight. rewrite Z2Nat.id by lia. lia.
Qed.

Lemma uint2048_mult_spec a b : num a → num b →
  ∃ c, uint2048_mult a b = Some c ∧ num c ∧ val c = (val a * val b) mod weight 64.
Proof.
  intros Ha Hb. destruct (num_init 0) as [Hn0 Hv0]; [lia|].
  destruct (for_n_total (λ i c, num c ∧ val c = (val (take (Z.to_nat i) a) * val b) mod weight 64)
    (mult_step a b) 64 0 (uint2048_init 0)) as (c & Hc & Hn & Hv).
  - split; [done|]. rewrite Hv0. reflexivity.
  - intros i c Hi [Hc Hv]. by apply mult_step_spec.
  - exists c. split; [exact Hc|]. split; [done|]. rewrite Hv.
    change (Z.to_nat (0 + Z.of_nat 64)) with 64%nat. rewrite take_ge by (destruct Ha; lia). done.
Qed.

(** ** Division *)

(** The bisection ends after at most one halving per bit and finds the
    quotient. *)
Lemma bisection_spec b s : num b → num s → 0 < val b → val b * 2 ^ 32 <= weight 64 →
  ∀ fuel l r, 0 <= l < r → r <= 2 ^ 32 → r - l <= 2 ^ Z.of_nat fuel →
  l * val b <= val s < r * val b →
  loop (S fuel) (λ '(l, r),
    if 1 <? u64 (r - l) then
      let m := u64 (l + r) / 2 in
      let '(_, tmp) := uint2048_mult_by_digit b (u32 m) in
      Some (inl (if uint2048_less_equal tmp s then (m, r) else (l, m)))
    else Some (inr l)) (l, r) = Some (val s / val b).
Proof.
  intros Hb Hs Hpos Hfit fuel. induction fuel as [|fuel IH]; intros l r Hl Hr Hd Hv;
    rewrite loop_S; cbn zeta beta iota; rewrite u64_small by lia; rewrite (u64_small (l + r)) by lia.
  { change (2 ^ Z.of_nat 0) with 1 in Hd. destruct (Z.ltb_spec 1 (r - l)); [lia|].
    do 2 f_equal. apply Z.div_unique_pos with (val s - l * val b); nia. }
  destruct (Z.ltb_spec 1 (r - l)).
  2:{ do 2 f_equal. apply Z.div_unique_pos with (val s - l * val b); nia. }
  assert (2 ^ Z.of_nat (S fuel) = 2 * 2 ^ Z.of_nat fuel) as H2.
  { rewrite <- Z.pow_succ_r by lia. f_equal. lia. }
  set (m := (l + r) / 2).
  assert (l < m < r ∧ m - l <= 2 ^ Z.of_nat fuel ∧ r - m <= 2 ^ Z.of_nat fuel) as (Hm & Hm1 & Hm2).
  { unfold m. pose proof (Z.div_mod (l + r) 2). pose proof (Z.mod_pos_bound (l + r) 2). lia. }
  clearbody m. rewrite (u32_small m) by lia.
  destruct (mult_by_digit_spec b m Hb) as (tmp & -> & Ht & Htv); [lia|].
  rewrite uint2048_less_equal_spec by done. rewrite Htv, Z.mod_small by nia.
  destruct (Z.leb_spec (m * val b) (val s)); apply IH; lia.
Qed.

Lemma div_digit_spec b s : num b → num s → 0 < val b → val b * 2 ^ 32 <= weight 64 →
  val s < 2 ^ 32 * val b → div_digit b s = Some (val s / val b).
Proof.
  intros Hb Hs Hpos Hfit Hlt. pose proof (num_bound s Hs).
  apply (bisection_spec b s); try done; unfold BASE_UINT2048U; lia.
Qed.

(** The remainder moved up one bucket, with the next bucket of the dividend
    below it. *)
Lemma next_reminder s b x : num s → val s < val b → val b * 2 ^ 32 <= weight 64 → 0 <= x < 2 ^ 32 →
  ∃ s1 s2, uint2048_shl s 1 = Some s1 ∧ s1.[0 <- x] = Some s2 ∧ num s2 ∧ val s2 = x + 2 ^ 32 * val s.
Proof.
  intros [Hl Hw] Hlt Hb Hx. rewrite uint2048_shl_spec by (done || lia).
  change (Z.to_nat 1) with 1%nat. cbn [replicate app].
  eexists _, (x :: take 63 s). split; [done|]. split; [done|].
  split; [split|].
  - simpl. rewrite length_take. lia.
  - apply Forall_cons. split; [done|]. by apply wf_take.
  - rewrite val_cons. f_equal. f_equal. rewrite val_take by (done || lia).
    pose proof (val_bound s Hw). apply Z.mod_small. split; [lia|].
    replace (weight 64) with (2 ^ 32 * weight 63) in Hb by (symmetry; apply (weight_S 63)). lia.
Qed.

(** After the top [k] buckets of the dividend, the quotient and the remainder
    of their value. *)
Definition div_inv (a b : uint2048_t) (k : Z) (s : uint2048_t * uint2048_t) : Prop :=
  num s.1 ∧ num s.2 ∧ val s.2 < val b ∧
  val (drop (Z.to_nat (64 - k)) a) = val (drop (Z.to_nat (64 - k)) s.1) * val b + val s.2.

Lemma drop_insert_val (l : list Z) i x : (i < length l)%nat →
  val (drop i (<[i := x]> l)) = x + 2 ^ 32 * val (drop (S i) l).
Proof.
  intros. rewrite (drop_S (<[i:=x]> l) x i) by (by apply list_lookup_insert_eq).
  rewrite val_cons. by rewrite drop_insert_lt by lia.
Qed.

Lemma div_step_spec a b k s : num a → num b → val b * 2 ^ 32 <= weight 64 → 0 <= k < 64 →
  div_inv a b k s → ∃ s', div_step a b k s = Some s' ∧ div_inv a b (k + 1) s'.
Proof.
  intros Ha Hb Hfit Hk (Hq & Hs & Hlt & Hv). destruct s as [q s]. cbn [fst snd] in *.
  unfold div_step, N_UINT2048. replace (64 - 1 - k) with (63 - k) by lia.
  destruct (num_get a (63 - k) Ha) as (x & Hx & Hxr); [lia|].
  destruct (next_reminder s b x Hs Hlt Hfit Hxr) as (s1 & s2 & -> & Hs1 & Hs2 & Hv2).
  cbn [mbind option_bind]. rewrite Hx. cbn [mbind option_bind]. rewrite Hs1. cbn [mbind option_bind].
  pose proof (num_bound s Hs) as Hsb. pose proof (num_bound s2 Hs2) as Hs2b.
  assert (0 < val b) as Hpos by lia.
  rewrite div_digit_spec by (done || lia). cbn [mbind option_bind].
  set (d := val s2 / val b).
  pose proof (Z.div_mod (val s2) (val b) ltac:(lia)) as Hdm. fold d in Hdm.
  pose proof (Z.mod_pos_bound (val s2) (val b) Hpos) as Hmb.
  assert (0 <= d < 2 ^ 32) as Hd by nia. clearbody d. rewrite (u32_small d) by done.
  destruct Hq as [Hql Hqw].
  rewrite zset_in by lia. cbn [mbind option_bind].
  destruct (mult_by_digit_spec b d Hb Hd) as (t & -> & Ht & Htv).
  assert (val t = d * val b) as Htv' by (rewrite Htv; apply Z.mod_small; nia).
  destruct (uint2048_sub_spec s2 t Hs2 Ht) as (s3 & -> & Hs3 & Hv3).
  destruct (Z.leb_spec (val t) (val s2)); [|lia].
  eexists. split; [reflexivity|]. unfold div_inv. cbn [fst snd].
  split; [split; [by rewrite length_insert|by apply Forall_insert]|]. split; [done|]. split; [lia|].
  replace (Z.to_nat (64 - (k + 1))) with (Z.to_nat (63 - k)) by lia.
  rewrite drop_insert_val by lia. rewrite zget_lookup in Hx by lia.
  rewrite (drop_S a x) by done. rewrite val_cons.
  replace (Z.to_nat (64 - k)) with (S (Z.to_nat (63 - k))) in Hv by lia. rewrite Hv, Hv3. lia.
Qed.

Lemma uint2048_div_num a b : num a → num b → 0 < val b → val b * 2 ^ 32 <= weight 64 →
  ∃ q r, uint2048_div a b = Some (q, r) ∧ num q ∧ num r ∧
    val q = val a / val b ∧ val r = val a mod val b.
Proof.
  intros Ha Hb Hpos Hfit. destruct (num_init 0) as [Hn0 Hv0]; [lia|].
  destruct (for_n_total (div_inv a b) (div_step a b) 64 0 (uint2048_init 0, uint2048_init 0))
    as ([q r] & Hqr & Hq & Hr & Hlt & Hv).
  - split; [done|]. split; [done|]. cbn [fst snd]. rewrite Hv0. split; [done|].
    rewrite drop_ge by (destruct Ha; lia). done.
  - intros k s Hk. by apply div_step_spec.
  - cbn [fst snd] in *. change (Z.to_nat (64 - (0 + Z.of_nat 64))) with 0%nat in Hv. rewrite !drop_0 in Hv.
    pose proof (num_bound r Hr). exists q, r. split; [exact Hqr|]. do 2 (split; [done|]). split.
    + apply Z.div_unique_pos with (val r); [lia|]. rewrite Hv. lia.
    + apply Z.mod_unique_pos with (val q); [lia|]. rewrite Hv. lia.
Qed.

(** ** Exponentiation *)

Lemma mod_pow_eq m a b n : 0 <= n → a mod m = b mod m → (a ^ n) mod m = (b ^ n) mod m.
Proof.
  intros Hn Hab. revert n Hn. apply natlike_ind; [done|].
  intros n Hn IH. rewrite !Z.pow_succ_r by lia. by apply mod_mul_eq.
Qed.

(** [ans * a ^ p] keeps its remainder. *)
Definition pow_inv (ua up md : uint2048_t) (s : uint2048_t * uint2048_t * uint2048_t) : Prop :=
  let '(a, p, ans) := s in
  num a ∧ num p ∧ num ans ∧ val a < weight 32 ∧ val ans < val md ∧
  (val ans * val a ^ val p) mod val md = (val ua ^ val up) mod val md.

Lemma mult_div_md x y md : num x → num y → num md → val x < weight 32 → val y < weight 32 →
  0 < val md <= weight 32 →
  ∃ t q r, uint2048_mult x y = Some t ∧ uint2048_div t md = Some (q, r) ∧ num r ∧
    val r = (val x * val y) mod val md.
Proof.
  intros Hx Hy Hmd Hxb Hyb Hb. destruct (uint2048_mult_spec x y Hx Hy) as (t & Ht & Htn & Htv).
  destruct (uint2048_div_num t md Htn Hmd) as (q & r & Hd & _ & Hr & _ & Hrv).
  { lia. } { pose proof (weight_add 32 32) as W. change (32 + 32)%nat with 64%nat in W. rewrite W.
    assert (2 ^ 32 <= weight 32) by (vm_compute; discriminate). pose proof (weight_pos 32). nia. }
  exists t, q, r. do 3 (split; [done|]). rewrite Hrv, Htv. f_equal. apply Z.mod_small.
  pose proof (num_bound x Hx). pose proof (num_bound y Hy).
  pose proof (weight_add 32 32) as W. change (32 + 32)%nat with 64%nat in W. rewrite W. nia.
Qed.

Lemma pow_step_spec ua up md s : num md → 0 < val md <= weight 32 → pow_inv ua up md s →
  match pow_step md (uint2048_init 2) s with
  | None => False
  | Some (inl s') => pow_inv ua up md s' ∧ 0 < val s.1.2 ∧ val s'.1.2 = val s.1.2 / 2
  | Some (inr ans') => ∃ a p ans, s = (a, p, ans) ∧ ans = ans' ∧ val p = 0
  end.
Proof.
  intros Hmd Hb Hinv. destruct s as [[a p] ans]. destruct Hinv as (Ha & Hp & Hans & Hab & Hansb & Heq).
  unfold pow_step. rewrite is_not_zero_spec by (by destruct Hp). pose proof (num_bound p Hp) as Hpb.
  destruct (Z.eqb_spec (val p) 0) as [Hz|Hz]; cbn [negb]; [by eauto 7|].
  rewrite is_odd_spec by done. cbn [mbind option_bind].
  destruct (mult_div_md ans a md) as (t1 & q1 & r1 & Ht1 & Hd1 & Hr1 & Hv1); [done|done|done|lia|lia|lia|].
  destruct (mult_div_md a a md) as (t2 & q2 & r2 & Ht2 & Hd2 & Hr2 & Hv2); [done|done|done|lia|lia|lia|].
  destruct (num_init 2) as [Hn2 Hv2']; [lia|].
  destruct (uint2048_div_num p (uint2048_init 2) Hp Hn2) as (p' & rp & Hdp & Hp' & _ & Hpv & _).
  { lia. } { rewrite Hv2'. vm_compute. discriminate. }
  rewrite Hv2' in Hpv. clear Hv2'.
  pose proof (Z.mod_pos_bound (val ans * val a) (val md) ltac:(lia)).
  pose proof (Z.mod_pos_bound (val a * val a) (val md) ltac:(lia)).
  pose proof (Z.mod_pos_bound (val p) 2 ltac:(lia)). pose proof (Z.div_mod (val p) 2 ltac:(lia)).
  assert (val a ^ val p = val a ^ (val p mod 2) * (val a * val a) ^ (val p / 2)) as Hsplit.
  { rewrite <- Z.pow_2_r, <- Z.pow_mul_r, <- Z.pow_add_r; [|lia..].
    f_equal. lia. }
  assert (((val a * val a) ^ (val p / 2)) mod val md = (val r2 ^ (val p / 2)) mod val md) as Hsq.
  { apply mod_pow_eq; [lia|]. rewrite Hv2. by rewrite Zmod_mod. }
  destruct (Z.eqb_spec (val p mod 2) 1) as [Ho|Ho].
  - rewrite Ht1. cbn [mbind option_bind]. rewrite Hd1. cbn [mbind option_bind].
    rewrite Ht2. cbn [mbind option_bind]. rewrite Hd2. cbn [mbind option_bind].
    rewrite Hdp. cbn [mbind option_bind fst snd]. split; [|split; [lia|exact Hpv]].
    split; [done|]. split; [done|]. split; [done|]. split; [lia|]. split; [lia|].
    rewrite <- Heq, Hsplit, Ho, Z.pow_1_r, Hpv, Z.mul_assoc.
    apply mod_mul_eq; [rewrite Hv1; apply Zmod_mod|]. by rewrite Hsq.
  - cbn [mbind option_bind].
    rewrite Ht2. cbn [mbind option_bind]. rewrite Hd2. cbn [mbind option_bind].
    rewrite Hdp. cbn [mbind option_bind fst snd]. split; [|split; [lia|exact Hpv]].
    split; [done|]. split; [done|]. split; [done|]. split; [lia|]. split; [lia|].
    rewrite <- Heq, Hsplit, Hpv. replace (val p mod 2) with 0 by lia. rewrite Z.pow_0_r, Z.mul_1_l.
    apply mod_mul_eq; [done|]. by rewrite Hsq.
Qed.

Lemma uint2048_pow_num ua up md : num ua → num up → num md →
  val ua < weight 32 → 1 < val md <= weight 32 →
  ∃ r, uint2048_pow ua up md = Some r ∧ num r ∧ val r = (val ua ^ val up) mod val md.
Proof.
  intros Hua Hup Hmd Huab Hb. destruct (num_init 1) as [Hn1 Hv1]; [lia|].
  assert (∀ fuel s, pow_inv ua up md s → val s.1.2 < 2 ^ Z.of_nat fuel →
    ∃ r, loop (S fuel) (pow_step md (uint2048_init 2)) s = Some r ∧ num r ∧
      val r = (val ua ^ val up) mod val md) as Hloop.
  { assert (∀ s a p r, s = (a, p, r) → pow_inv ua up md s → val p = 0 →
      num r ∧ val r = (val ua ^ val up) mod val md) as Hend.
    { intros s a p r -> (_ & _ & Hr & _ & Hlt & Heq) Hp0. split; [done|].
      rewrite Hp0, Z.pow_0_r, Z.mul_1_r in Heq. pose proof (num_bound r Hr).
      rewrite <- Heq. symmetry. apply Z.mod_small. lia. }
    induction fuel as [|fuel IH]; intros s Hs Hf; rewrite loop_S;
      pose proof (pow_step_spec ua up md s Hmd ltac:(lia) Hs) as Hst;
      (destruct (pow_step md (uint2048_init 2) s) as [[s'|r]|]; [| |done]).
    2, 4: destruct Hst as (a & p & ans & Hst & <- & Hp0); exists ans; split; [done|]; by eapply Hend.
    - change (2 ^ Z.of_nat 0) with 1 in Hf. lia.
    - destruct Hst as (Hs' & Hpos & Hhalf). apply IH; [done|]. rewrite Hhalf.
      apply Z.div_lt_upper_bound; [lia|]. rewrite <- Z.pow_succ_r by lia.
      replace (Z.succ (Z.of_nat fuel)) with (Z.of_nat (S fuel)) by lia. done. }
  apply (Hloop 2048%nat).
  - split; [done|]. split; [done|]. split; [done|]. rewrite Hv1. split; [done|]. split; [lia|].
    f_equal. lia.
  - cbn [fst snd]. pose proof (num_bound up Hup) as H. unfold weight in H.
    replace (Z.of_nat 2048) with (32 * Z.of_nat 64) by reflexivity. lia.
Qed.

(** ** Numbers from bytes *)

Lemma le_val_zeros l n : le_val (l ++ replicate n 0) = le_val l.
Proof.
  induction l as [|b l IH]; simpl app.
  - induction n as [|n IH]; [done|]. simpl. rewrite IH. reflexivity.
  - change (b + 2 ^ 8 * le_val (l ++ replicate n 0) = b + 2 ^ 8 * le_val l). by rewrite IH.
Qed.

(** The next four bytes. *)
Lemma four_bytes {A} (l : list A) : (4 <= length l)%nat →
  ∃ b0 b1 b2 b3 l', l = b0 :: b1 :: b2 :: b3 :: l'.
Proof. destruct l as [|b0 [|b1 [|b2 [|b3 l']]]]; simpl; try lia. eauto 6. Qed.

Lemma buckets_of_spec n l : Forall byte l → length l = (4 * n)%nat →
  length (buckets_of n l) = n ∧ wf (buckets_of n l) ∧ val (buckets_of n l) = le_val l.
Proof.
  revert l. induction n as [|n IH]; intros l Hl Hn.
  { destruct l; [|done]. split; [done|]. split; [apply Forall_nil_2|done]. }
  destruct (four_bytes l) as (b0 & b1 & b2 & b3 & l' & ->); [lia|]. cbn [buckets_of].
  rewrite !Forall_cons in Hl. destruct Hl as (H0 & H1 & H2 & H3 & Hl'). unfold byte in *.
  destruct (IH l' Hl') as (Hbl & Hbw & Hbv); [simpl in Hn; lia|].
  split; [simpl; lia|]. split; [apply Forall_cons; split; [lia|done]|].
  rewrite val_cons, Hbv. unfold le_val. cbn [foldr]. lia.
Qed.

Lemma buckets_of_lookup n l k : Forall byte l → length l = (4 * n)%nat → (k < n)%nat →
  ∃ b0 b1 b2 b3, l !! (4 * k)%nat = Some b0 ∧ l !! (4 * k + 1)%nat = Some b1 ∧
    l !! (4 * k + 2)%nat = Some b2 ∧ l !! (4 * k + 3)%nat = Some b3 ∧
    byte b0 ∧ byte b1 ∧ byte b2 ∧ byte b3 ∧
    buckets_of n l !! k = Some (b0 + 2 ^ 8 * b1 + 2 ^ 16 * b2 + 2 ^ 24 * b3).
Proof.
  revert l k. induction n as [|n IH]; intros l k Hl Hn Hk; [lia|].
  destruct (four_bytes l) as (b0 & b1 & b2 & b3 & l' & ->); [lia|]. cbn [buckets_of].
  rewrite !Forall_cons in Hl. destruct Hl as (H0 & H1 & H2 & H3 & Hl').
  destruct k as [|k]; [exists b0, b1, b2, b3; auto 10|].
  destruct (IH l' k Hl') as (c0 & c1 & c2 & c3 & Hc); [simpl in Hn; lia|lia|].
  exists c0, c1, c2, c3. replace (4 * S k)%nat with (4 + 4 * k)%nat by lia. exact Hc.
Qed.

Lemma init_bytes_spec f : Forall byte f → (length f <= 256)%nat →
  ∃ a, uint2048_init_bytes f = Some a ∧ num a ∧ val a = le_val f.
Proof.
  intros Hf Hl. unfold uint2048_init_bytes. destruct (Z.ltb_spec 256 (Z.of_nat (length f))); [lia|].
  destruct (buckets_of_spec 64 (f ++ replicate (256 - length f) 0)) as (Hbl & Hbw & Hbv).
  { apply Forall_app. split; [done|]. apply Forall_replicate. unfold byte. lia. }
  { rewrite length_app, length_replicate. lia. }
  eexists. split; [done|]. split; [done|]. by rewrite Hbv, le_val_zeros.
Qed.

Lemma reverse_zget {A} (f : list A) i j : 0 <= i → i + Z.of_nat j = Z.of_nat (length f) - 1 →
  f.[i] = reverse f !! j.
Proof. intros. rewrite zget_lookup by lia. rewrite reverse_lookup by lia. f_equal. lia. Qed.

(** A word read big endian is a bucket of the reversed bytes. *)
Lemma be_word_spec f n k : Forall byte f → length f = (4 * n)%nat → (k < n)%nat →
  be_word f (Z.of_nat (length f) - 4 - 4 * Z.of_nat k) = buckets_of n (reverse f) !! k.
Proof.
  intros Hf Hn Hk.
  destruct (buckets_of_lookup n (reverse f) k) as (b0 & b1 & b2 & b3 & H0 & H1 & H2 & H3 & Hb); [|by rewrite length_reverse|done|].
  { by apply Forall_reverse. }
  destruct Hb as (B0 & B1 & B2 & B3 & ->). unfold byte in *.
  unfold be_word. remember (Z.of_nat (length f) - 4 - 4 * Z.of_nat k) as i eqn:Hi.
  rewrite (reverse_zget f i (4 * k + 3)) by lia. rewrite H3. cbn [mbind option_bind].
  rewrite (reverse_zget f (i + 1) (4 * k + 2)) by lia. rewrite H2. cbn [mbind option_bind].
  rewrite (reverse_zget f (i + 2) (4 * k + 1)) by lia. rewrite H1. cbn [mbind option_bind].
  rewrite (reverse_zget f (i + 3) (4 * k)) by lia. rewrite H0. cbn [mbind option_bind].
  f_equal. rewrite <- !Z.lor_assoc.
  rewrite (lor_shiftl_add b0 b1 8) by lia. rewrite (lor_shiftl_add _ b2 16) by lia.
  rewrite (lor_shiftl_add _ b3 24) by lia. lia.
Qed.

Lemma zset_app_drop {A} (l d : list A) x : (length l < length d)%nat →
  (l ++ drop (length l) d).[Z.of_nat (length l) <- x] = Some ((l ++ [x]) ++ drop (S (length l)) d).
Proof.
  intros Hl. destruct (lookup_lt_is_Some_2 d (length l) Hl) as [y Hy].
  rewrite (drop_S d y) by done. by apply zset_next.
Qed.

(** For a whole number of words below the size of the object. *)
Lemma init_bytes_be_spec d f n : length d = 64%nat → Forall byte f → length f = (4 * n)%nat → (n < 64)%nat →
  ∃ a, uint2048_init_bytes_be d f = Some (Some a) ∧ num a ∧ val a = le_val (reverse f).
Proof.
  intros Hd Hf Hn Hn64.
  destruct (buckets_of_spec n (reverse f)) as (Hbl & Hbw & Hbv); [by apply Forall_reverse|by rewrite length_reverse|].
  set (T := buckets_of n (reverse f)) in *.
  unfold uint2048_init_bytes_be. cbn zeta. destruct (Z.ltb_spec 256 (Z.of_nat (length f))); [lia|].
  assert (Z.of_nat (length f) / 4 = Z.of_nat n) as Hq by (rewrite Hn, Nat2Z.inj_mul; apply Z.div_mul_cancel_l || (rewrite Z.mul_comm; by apply Z.div_mul)).
  rewrite Hq. 
  destruct (for_n_total (λ k '(i, e), i = k ∧ e = take (Z.to_nat k) T ++ drop (Z.to_nat k) d)
    (λ k '(i, d), bytes4 ← be_word f (Z.of_nat (length f) - 4 - 4 * k); d ← d.[i <- bytes4]; Some (i + 1, d))
    (Z.to_nat (Z.of_nat n)) 0 (0, d)) as ([i e] & -> & -> & ->).
  { split; [done|]. change (Z.to_nat 0) with 0%nat. by rewrite take_0, drop_0. }
  { intros k [i e] Hk [-> ->].
    pose proof (be_word_spec f n (Z.to_nat k) Hf Hn) as Hw. rewrite Z2Nat.id in Hw by lia.
    rewrite Hw by lia. fold T.
    destruct (lookup_lt_is_Some_2 T (Z.to_nat k)) as [x Hx]; [lia|]. rewrite Hx. cbn [mbind option_bind].
    assert (length (take (Z.to_nat k) T) = Z.to_nat k) as Hlt by (rewrite length_take; lia).
    pose proof (zset_app_drop (take (Z.to_nat k) T) d x) as Hset. rewrite Hlt, Z2Nat.id in Hset by lia.
    rewrite Hset by lia. cbn [mbind option_bind]. eexists. split; [done|]. split; [done|].
    replace (Z.to_nat (k + 1)) with (S (Z.to_nat k)) by lia. by rewrite (take_S_r T _ x). }
  cbn [mbind option_bind].
  replace (Z.to_nat (0 + Z.of_nat (Z.to_nat (Z.of_nat n)))) with n by lia.
  replace (0 + Z.of_nat (Z.to_nat (Z.of_nat n))) with (Z.of_nat n) by lia.
  rewrite take_ge by lia. replace (Z.to_nat (Z.of_nat (length f) - Z.of_nat n * 4)) with 0%nat by lia.
  assert (∀ X (b : Z → X → option X) i s, for_n 0 i b s = Some s) as -> by done. cbn [mbind option_bind].
  pose proof (zset_app_drop T d 0) as Hset. rewrite Hbl in Hset. rewrite Hset by lia. cbn [mbind option_bind].
  pose proof (fill_next (T ++ [0]) (drop (S n) d) 0 (63 - n)) as Hfill.
  rewrite length_app, Hbl, length_drop in Hfill. unfold N_UINT2048. simpl length in Hfill.
  replace (Z.to_nat (64 - (Z.of_nat n + 1))) with (63 - n)%nat by lia.
  replace (Z.of_nat n + 1) with (Z.of_nat (n + 1)) by lia. rewrite Hfill by lia.
  cbn [mbind option_bind]. rewrite drop_ge by (rewrite length_drop; lia). rewrite app_nil_r, <- app_assoc.
  eexists. split; [done|]. split; [split|].
  - rewrite !length_app, length_replicate. simpl. lia.
  - apply wf_app. split; [done|]. apply (wf_zeros (S (63 - n))).
  - rewrite val_app. change ([0] ++ replicate (63 - n) 0) with (replicate (S (63 - n)) 0).
    rewrite val_zeros. lia.
Qed.

(** A remainder of bytes lands in the wrong place: the words are cut from the
    end of the bytes, but the loop for the remainder takes the last bytes again
    and not the first ones, which are lost. *)
Example init_bytes_be_misorders : ∃ a,
  uint2048_init_bytes_be (uint2048_init 0) [1; 2; 3; 4; 5] = Some (Some a) ∧
  val a = 0x502030405 ∧ le_val (reverse [1; 2; 3; 4; 5]) = 0x102030405.
Proof. eexists. vm_compute. split; [reflexivity|]. by split. Qed.

(** All 64 words given, the bucket 64 is cleared too. *)
Example init_bytes_be_overflows :
  uint2048_init_bytes_be (uint2048_init 0) (replicate 256 1) = None.
Proof. vm_compute. reflexivity. Qed.

(** A divisor too large for the bisection: its multiples wrap, and 1 divided by
    2 ^ 2047 is not 0. *)
Example div_large_divisor : ∃ q r,
  uint2048_div (uint2048_init 1) (replicate 63 0 ++ [2 ^ 31]) = Some (q, r) ∧ val q ≠ 0.
Proof. eexists _, _. split; [vm_compute; reflexivity|]. vm_compute. discriminate. Qed.

(** ** Properties *)

(** The routines compute with the numbers the buckets stand for, below
    2 ^ 2048: the sum and the product modulo 2 ^ 2048, the sum with the error
    exactly when it does not fit, the difference or the error and 0, the order
    and equality of the values, the product with a power of 2 ^ 32 and its
    quotient. The schoolbook division ends with the quotient and the remainder
    if the divisor is not 0 and leaves a bucket free. *)
Theorem uint2048_arithmetic a b n : num a → num b → 0 <= n →
  (∃ c, uint2048_add a b = (if val a + val b <? weight 64 then 0 else - EOVERFLOW, c) ∧
    num c ∧ val c = (val a + val b) mod weight 64) ∧
  (∃ c, uint2048_sub a b = (if val b <=? val a then 0 else - EOVERFLOW, c) ∧
    num c ∧ val c = if val b <=? val a then val a - val b else 0) ∧
  (∃ c, uint2048_mult a b = Some c ∧ num c ∧ val c = (val a * val b) mod weight 64) ∧
  (∃ c, uint2048_shl a n = Some c ∧ num c ∧ val c = (val a * 2 ^ (32 * n)) mod weight 64) ∧
  (∃ c, uint2048_shr a n = Some c ∧ num c ∧ val c = val a / 2 ^ (32 * n)) ∧
  uint2048_less a b = (val a <? val b) ∧ uint2048_less_equal a b = (val a <=? val b) ∧
  uint2048_equal a b = (val a =? val b) ∧
  (0 < val b < weight 63 → ∃ q r, uint2048_div a b = Some (q, r) ∧ num q ∧ num r ∧
    val q = val a / val b ∧ val r = val a mod val b).
Proof.
  intros Ha Hb Hn.
  split; [by apply uint2048_add_spec|]. split; [by apply uint2048_sub_spec|].
  split; [by apply uint2048_mult_spec|]. split; [by apply shl_num|]. split; [by apply shr_num|].
  split; [by apply uint2048_less_spec|]. split; [by apply uint2048_less_equal_spec|].
  split; [by apply uint2048_equal_spec|].
  intros Hd. apply uint2048_div_num; [done|done|lia|].
  change (weight 64) with (2 ^ 32 * weight 63). lia.
Qed.

Lemma uint2048_arithmetic_witness : ∃ q r,
  uint2048_div (uint2048_init 17) (uint2048_init 5) = Some (q, r) ∧ val q = 3 ∧ val r = 2.
Proof.
  destruct (num_init 17) as [Ha Hav]; [lia|]. destruct (num_init 5) as [Hb Hbv]; [lia|].
  pose proof (uint2048_arithmetic (uint2048_init 17) (uint2048_init 5) 0 Ha Hb ltac:(lia)) as H.
  destruct H as (_ & _ & _ & _ & _ & _ & _ & _ & Hd).
  destruct Hd as (q & r & Hqr & _ & _ & Hq & Hr).
  { rewrite Hbv. split; [lia|]. vm_compute. reflexivity. }
  exists q, r. split; [exact Hqr|]. rewrite Hq, Hr, Hav, Hbv. split; reflexivity.
Defined.

(** C35. The exponentiation by squaring ends and gives the power modulo the
    modulus, for a base below 2 ^ 1024 and a modulus up to it (so that squares
    fit): the operation of an RSA check with a key of 1024 bits, without any
    access out of the buckets. *)
Theorem uint2048_pow_modular ua up md : num ua → num up → num md →
  val ua < weight 32 → 1 < val md <= weight 32 →
  ∃ r, uint2048_pow ua up md = Some r ∧ num r ∧ val r = (val ua ^ val up) mod val md.
Proof. apply uint2048_pow_num. Qed.

Lemma uint2048_pow_modular_witness : ∃ r,
  uint2048_pow (uint2048_init 3) (uint2048_init 5) (uint2048_init 7) = Some r ∧ val r = 5.
Proof.
  destruct (num_init 3) as [Ha Hav]; [lia|]. destruct (num_init 5) as [Hb Hbv]; [lia|].
  destruct (num_init 7) as [Hm Hmv]; [lia|].
  pose proof (uint2048_pow_modular (uint2048_init 3) (uint2048_init 5) (uint2048_init 7) Ha Hb Hm) as H.
  destruct H as (r & Hr & _ & Hv).
  - rewrite Hav. vm_compute. reflexivity.
  - rewrite Hmv. split; [lia|]. vm_compute. discriminate.
  - exists r. split; [exact Hr|]. rewrite Hv, Hav, Hbv, Hmv. reflexivity.
Defined.
