(* ===== verification/Sha256.v ===== *)
(** * Sha256: the hash of the boot loader, [boot/libboot/crypto/sha256.c]

    The context is a record, the arrays are lists; an array that is filled from
    the start ([m] in the transform) is the list of the cells written so far, so
    that reading a cell before it is written is undefined. *)
From S2P Require Import Prelude.

(** A row of a table: four words, one after the other as hexadecimal digits. *)
Definition row (n : Z) : list Z := map (λ k, u32 (Z.shiftr n k)) [96; 64; 32; 0].

Definition sha256_consts : list Z := Eval vm_compute in flat_map row [
  0x428a2f9871374491b5c0fbcfe9b5dba5;
  0x3956c25b59f111f1923f82a4ab1c5ed5;
  0xd807aa9812835b01243185be550c7dc3;
  0x72be5d7480deb1fe9bdc06a7c19bf174;
  0xe49b69c1efbe47860fc19dc6240ca1cc;
  0x2de92c6f4a7484aa5cb0a9dc76f988da;
  0x983e5152a831c66db00327c8bf597fc7;
  0xc6e00bf3d5a7914706ca635114292967;
  0x27b70a852e1b21384d2c6dfc53380d13;
  0x650a7354766a0abb81c2c92e92722c85;
  0xa2bfe8a1a81a664bc24b8b70c76c51a3;
  0xd192e819d6990624f40e3585106aa070;
  0x19a4c1161e376c082748774c34b0bcb5;
  0x391c0cb34ed8aa4a5b9cca4f682e6ff3;
  0x748f82ee78a5636f84c878148cc70208;
  0x90befffaa4506cebbef9a3f7c67178f2 ].

Definition sha256_state_init : list Z := Eval vm_compute in flat_map row [
  0x6a09e667bb67ae853c6ef372a54ff53a;
  0x510e527f9b05688c1f83d9ab5be0cd19 ].

Definition ROTRIGHT (a b : Z) : Z := u32 (Z.lor (Z.shiftr a b) (Z.shiftl a (32 - b))).

Definition CH (x y z : Z) : Z := Z.lxor (Z.land x y) (Z.land (Z.lnot x) z).
Definition MAJ (x y z : Z) : Z := Z.lxor (Z.lxor (Z.land x y) (Z.land x z)) (Z.land y z).
Definition EP0 (x : Z) : Z := Z.lxor (Z.lxor (ROTRIGHT x 2) (ROTRIGHT x 13)) (ROTRIGHT x 22).
Definition EP1 (x : Z) : Z := Z.lxor (Z.lxor (ROTRIGHT x 6) (ROTRIGHT x 11)) (ROTRIGHT x 25).
Definition SIG0 (x : Z) : Z := Z.lxor (Z.lxor (ROTRIGHT x 7) (ROTRIGHT x 18)) (Z.shiftr x 3).
Definition SIG1 (x : Z) : Z := Z.lxor (Z.lxor (ROTRIGHT x 17) (ROTRIGHT x 19)) (Z.shiftr x 10).

Record sha256_ctx_t := {
  bits_count : Z;
  state : list Z;
  bufnxt : Z;
  buf : list Z;
}.

(** The two loops that fill [m]. *)
Definition load_word (data : list Z) (i : Z) (m : list Z) : option (list Z) :=
  let j := 4 * i in
  d0 ← data.[j]; d1 ← data.[j + 1]; d2 ← data.[j + 2]; d3 ← data.[j + 3];
  Some (m ++ [u32 (Z.lor (Z.lor (Z.lor (Z.shiftl d0 24) (Z.shiftl d1 16)) (Z.shiftl d2 8)) d3)]).

Definition extend_word (i : Z) (m : list Z) : option (list Z) :=
  m2 ← m.[i - 2]; m7 ← m.[i - 7]; m15 ← m.[i - 15]; m16 ← m.[i - 16];
  Some (m ++ [u32 (SIG1 m2 + m7 + SIG0 m15 + m16)]).

Definition registers : Type := Z * Z * Z * Z * Z * Z * Z * Z.

Definition sha256_round (m : list Z) (i : Z) (r : registers) : option registers :=
  let '(a, b, c, d, e, f, g, h) := r in
  k ← sha256_consts.[i]; w ← m.[i];
  let t1 := u32 (h + EP1 e + CH e f g + k + w) in
  let t2 := u32 (EP0 a + MAJ a b c) in
  Some (u32 (t1 + t2), a, b, c, u32 (d + t1), e, f, g).

Definition sha256_transform (st data : list Z) : option (list Z) :=
  m ← for_n 16 0 (load_word data) [];
  m ← for_n 48 16 extend_word m;
  match st with
  | [s0; s1; s2; s3; s4; s5; s6; s7] =>
      '(a, b, c, d, e, f, g, h) ← for_n 64 0 (sha256_round m) (s0, s1, s2, s3, s4, s5, s6, s7);
      Some [u32 (s0 + a); u32 (s1 + b); u32 (s2 + c); u32 (s3 + d);
            u32 (s4 + e); u32 (s5 + f); u32 (s6 + g); u32 (s7 + h)]
  | _ => None
  end.

(** The buffer is left as it is. *)
Definition sha256_init (ctx : sha256_ctx_t) : sha256_ctx_t :=
  {| bufnxt := 0; bits_count := 0; state := sha256_state_init; buf := buf ctx |}.

Definition update_byte (ctx : sha256_ctx_t) (b : Z) : option sha256_ctx_t :=
  buf' ← (buf ctx).[bufnxt ctx <- b];
  let nxt := u32 (bufnxt ctx + 1) in
  if nxt =? 64 then
    st ← sha256_transform (state ctx) buf';
    Some {| state := st; bits_count := u64 (bits_count ctx + 512); bufnxt := 0; buf := buf' |}
  else Some {| state := state ctx; bits_count := bits_count ctx; bufnxt := nxt; buf := buf' |}.

Fixpoint sha256_update (ctx : sha256_ctx_t) (data : list Z) : option sha256_ctx_t :=
  match data with
  | [] => Some ctx
  | b :: data => ctx ← update_byte ctx b; sha256_update ctx data
  end.

(** [while (i < hi) buf[i++] = 0x00] *)
Definition zero_fill (buf : list Z) (i hi : Z) : option (list Z) :=
  for_n (Z.to_nat (hi - i)) i (λ i buf, buf.[i <- 0]) buf.

(** The length in bits, in the last eight bytes of the block. *)
Definition put_length (b : list Z) (bits : Z) : option (list Z) :=
  b ← b.[56 <- u8 (Z.shiftr bits 56)];
  b ← b.[57 <- u8 (Z.shiftr bits 48)];
  b ← b.[58 <- u8 (Z.shiftr bits 40)];
  b ← b.[59 <- u8 (Z.shiftr bits 32)];
  b ← b.[60 <- u8 (Z.shiftr bits 24)];
  b ← b.[61 <- u8 (Z.shiftr bits 16)];
  b ← b.[62 <- u8 (Z.shiftr bits 8)];
  b.[63 <- u8 (Z.shiftr bits 0)].

Definition big_endian_hash (st : list Z) : option (list Z) :=
  match st with
  | [s0; s1; s2; s3; s4; s5; s6; s7] =>
      Some (flat_map (λ s, map (λ i, Z.land (Z.shiftr s (24 - i * 8)) 0xff) [0; 1; 2; 3])
        [s0; s1; s2; s3; s4; s5; s6; s7])
  | _ => None
  end.

(** The bytes of the hash; the context is not used afterwards. *)
Definition sha256_hash (ctx : sha256_ctx_t) : option (list Z) :=
  let i := bufnxt ctx in
  '(st, b, i) ← (
    b ← (buf ctx).[i <- 0x80];
    let i := i + 1 in
    if bufnxt ctx <? 56 then Some (state ctx, b, i)
    else
      b ← zero_fill b i 64;
      st ← sha256_transform (state ctx) b;
      Some (st, b, 0));
  b ← zero_fill b i 56;
  let bits := u64 (bits_count ctx + u32 (bufnxt ctx * 8)) in
  b ← put_length b bits;
  st ← sha256_transform st b;
  big_endian_hash st.

(** ** The test vectors of the standard *)

Definition example_ctx : sha256_ctx_t :=
  {| bits_count := 7; state := []; bufnxt := 3; buf := replicate 64 9 |}.
Definition sha256 (msg : list Z) : option (list Z) :=
  ctx ← sha256_update (sha256_init example_ctx) msg; sha256_hash ctx.
(** The digest as a number. *)
Definition digest (h : list Z) : Z := foldl (λ v b, 256 * v + b) 0 h.

Example sha256_abc : digest <$> sha256 [0x61; 0x62; 0x63] =
  Some 0xba7816bf8f01cfea414140de5dae2223b00361a396177a9cb410ff61f20015ad.
Proof. vm_compute. reflexivity. Qed.
Example sha256_empty : digest <$> sha256 [] =
  Some 0xe3b0c44298fc1c149afbf4c8996fb92427ae41e4649b934ca495991b7852b855.
Proof. vm_compute. reflexivity. Qed.
(** "abcdbcdecdefdefgefghfghighijhijkijkljklmklmnlmnomnopnopq": two blocks. *)
Example sha256_two_blocks :
  digest <$> sha256 (flat_map (λ c, [c; c + 1; c + 2; c + 3])
    [0x61; 0x62; 0x63; 0x64; 0x65; 0x66; 0x67; 0x68; 0x69; 0x6a; 0x6b; 0x6c; 0x6d; 0x6e]) =
  Some 0x248d6a61d20638b8e5c026930c3e6039a33ce45964ff2167f6ecedd419db06c1.
Proof. vm_compute. reflexivity. Qed.

(** ** The hash as a function of the message *)

(** The compression function of the code over [n] blocks. *)
Fixpoint process (n : nat) (st l : list Z) : option (list Z) :=
  match n with
  | O => Some st
  | S n => st ← sha256_transform st (take 64 l); process n st (drop 64 l)
  end.

(** The padding of the standard: a one bit, zeros up to 448 bits modulo 512, and
    the length in bits as a big endian number of 64 bits. *)
Definition length_bytes (bits : Z) : list Z :=
  map (λ k, u8 (Z.shiftr bits k)) [56; 48; 40; 32; 24; 16; 8; 0].
Definition padding (n : nat) : list Z :=
  0x80 :: replicate ((119 - n mod 64) mod 64) 0 ++ length_bytes (u64 (8 * Z.of_nat n)).
Definition sha256_spec (msg : list Z) : option (list Z) :=
  let p := msg ++ padding (length msg) in
  st ← process (length p / 64) sha256_state_init p; big_endian_hash st.

(** *** The transform always returns *)

Lemma append_loop n lo (f : Z → list Z → option (list Z)) (m : list Z) :
  (∀ i m, lo <= i < lo + Z.of_nat n → Z.of_nat (length m) = i → ∃ x, f i m = Some (m ++ [x])) →
  Z.of_nat (length m) = lo →
  ∃ m', for_n n lo f m = Some m' ∧ Z.of_nat (length m') = lo + Z.of_nat n.
Proof.
  intros Hf Hm. apply (for_n_total (λ i m, Z.of_nat (length m) = i)); [done|].
  intros i m0 Hi Hm0. destruct (Hf i m0 Hi Hm0) as [x ->]. eexists. split; [done|].
  rewrite length_app. simpl. lia.
Qed.

Ltac read_cell l i x :=
  let H := fresh "Hcell" in
  destruct (zget_is_Some l i) as (x & H); [lia|rewrite H; clear H; cbn [mbind option_bind]].

Lemma load_word_total data i m : length data = 64%nat → 0 <= i < 16 →
  ∃ x, load_word data i m = Some (m ++ [x]).
Proof.
  intros Hd Hi. unfold load_word. read_cell data (4 * i) d0. read_cell data (4 * i + 1) d1.
  read_cell data (4 * i + 2) d2. read_cell data (4 * i + 3) d3. eauto.
Qed.
Lemma extend_word_total i m : 16 <= i → Z.of_nat (length m) = i →
  ∃ x, extend_word i m = Some (m ++ [x]).
Proof.
  intros Hi Hm. unfold extend_word. read_cell m (i - 2) m2. read_cell m (i - 7) m7.
  read_cell m (i - 15) m15. read_cell m (i - 16) m16. eauto.
Qed.
Lemma sha256_round_total m i r : Z.of_nat (length m) = 64 → 0 <= i < 64 →
  ∃ r', sha256_round m i r = Some r'.
Proof.
  intros Hm Hi. destruct r as [[[[[[[a b] c] d] e] f] g] h]. unfold sha256_round.
  destruct (zget_is_Some sha256_consts i) as (k & ->); [change (length sha256_consts) with 64%nat; lia|].
  cbn [mbind option_bind]. read_cell m i w. eauto.
Qed.

Lemma sha256_transform_total st data : length st = 8%nat → length data = 64%nat →
  ∃ st', sha256_transform st data = Some st' ∧ length st' = 8%nat.
Proof.
  intros Hst Hd. unfold sha256_transform.
  destruct (append_loop 16 0 (load_word data) []) as (m & -> & Hm); [|done|].
  { intros i m Hi _. by apply load_word_total. }
  cbn [mbind option_bind].
  destruct (append_loop 48 16 extend_word m) as (m' & -> & Hm'); [|done|].
  { intros i m0 Hi Hm0. apply extend_word_total; lia. }
  cbn [mbind option_bind].
  destruct st as [|s0 [|s1 [|s2 [|s3 [|s4 [|s5 [|s6 [|s7 [|]]]]]]]]]; try done.
  destruct (for_n_total (λ _ _, True) (sha256_round m') 64 0 (s0, s1, s2, s3, s4, s5, s6, s7)) as (r & -> & _);
    [done| |].
  { intros i r Hi _. destruct (sha256_round_total m' i r) as (r' & ->); [lia|lia|eauto]. }
  destruct r as [[[[[[[a b] c] d] e] f] g] h]. cbn [mbind option_bind]. eauto.
Qed.

(** *** Blocks *)

Lemma process_app n st l l' : length l = (64 * n)%nat → process n st (l ++ l') = process n st l.
Proof.
  revert st l. induction n as [|n IH]; intros st l Hl; [done|]. cbn [process].
  rewrite take_app_le, drop_app_le by lia.
  destruct (sha256_transform st (take 64 l)); [|done]. cbn [mbind option_bind].
  apply IH. rewrite length_drop. lia.
Qed.
Lemma process_snoc n st l b st' : length l = (64 * n)%nat → length b = 64%nat →
  process n st l = Some st' → process (S n) st (l ++ b) = sha256_transform st' b.
Proof.
  revert st l. induction n as [|n IH]; intros st l Hl Hb Hp.
  - destruct l; [|done]. injection Hp as ->. cbn [process app]. rewrite take_ge by lia.
    by destruct (sha256_transform st' b).
  - cbn [process] in *. rewrite take_app_le, drop_app_le by lia.
    destruct (sha256_transform st (take 64 l)) as [s|]; [|done]. cbn [mbind option_bind] in *.
    rewrite <- (IH s (drop 64 l)); [done|rewrite length_drop; lia|done|done].
Qed.

(** *** The context after the bytes of a message *)

(** [q] blocks are processed and the rest waits in the buffer. *)
Definition absorbed (msg : list Z) (ctx : sha256_ctx_t) : Prop :=
  ∃ (q : nat) full rest tl, msg = full ++ rest ∧ length full = (64 * q)%nat ∧ (length rest < 64)%nat ∧
    process q sha256_state_init full = Some (state ctx) ∧ length (state ctx) = 8%nat ∧
    bufnxt ctx = Z.of_nat (length rest) ∧ buf ctx = rest ++ tl ∧ length (buf ctx) = 64%nat ∧
    bits_count ctx = u64 (512 * Z.of_nat q).

Lemma u64_add_l a b : u64 (u64 a + b) = u64 (a + b).
Proof. apply Zplus_mod_idemp_l. Qed.

Lemma update_byte_absorbed msg ctx b : absorbed msg ctx →
  ∃ ctx', update_byte ctx b = Some ctx' ∧ absorbed (msg ++ [b]) ctx'.
Proof.
  intros (q & full & rest & tl & -> & Hfull & Hrest & Hp & Hst & Hnxt & Hbuf & Hlen & Hbits).
  unfold update_byte. rewrite Hbuf in Hlen |- *. rewrite length_app in Hlen.
  destruct tl as [|y tl]; [simpl in Hlen; lia|].
  rewrite zset_next by done. cbn [mbind option_bind]. simpl in Hlen.
  rewrite Hnxt. rewrite u32_small by lia.
  destruct (Z.eqb_spec (Z.of_nat (length rest) + 1) 64).
  - destruct tl; [|simpl in Hlen; lia]. rewrite app_nil_r.
    assert (length (rest ++ [b]) = 64%nat) as Hblock by (rewrite length_app; simpl; lia).
    destruct (sha256_transform_total (state ctx) (rest ++ [b]) Hst Hblock) as (st & Ht & Hst').
    rewrite Ht. cbn [mbind option_bind]. eexists. split; [done|].
    exists (S q), (full ++ rest ++ [b]), [], (rest ++ [b]). cbn [state bufnxt buf bits_count].
    split; [by rewrite app_nil_r, <- app_assoc|]. split; [rewrite length_app; lia|].
    split; [simpl; lia|]. split; [by rewrite (process_snoc q _ full _ (state ctx))|].
    split; [done|]. split; [done|]. split; [done|]. split; [done|].
    rewrite Hbits, u64_add_l. f_equal. lia.
  - eexists. split; [done|]. exists q, full, (rest ++ [b]), tl. cbn [state bufnxt buf bits_count].
    rewrite !length_app. simpl length. split; [by rewrite <- app_assoc|]. do 5 (split; [done || lia|]).
    split; [done|]. split; [lia|done].
Qed.

Lemma sha256_update_absorbed data msg ctx : absorbed msg ctx →
  ∃ ctx', sha256_update ctx data = Some ctx' ∧ absorbed (msg ++ data) ctx'.
Proof.
  revert msg ctx. induction data as [|b data IH]; intros msg ctx Hctx.
  { exists ctx. by rewrite app_nil_r. }
  cbn [sha256_update]. destruct (update_byte_absorbed msg ctx b Hctx) as (ctx1 & -> & H1).
  cbn [mbind option_bind]. destruct (IH (msg ++ [b]) ctx1 H1) as (ctx2 & -> & H2).
  exists ctx2. split; [done|]. by rewrite <- app_assoc in H2.
Qed.

Lemma sha256_init_absorbed ctx : length (buf ctx) = 64%nat → absorbed [] (sha256_init ctx).
Proof. intros. exists 0%nat, [], [], (buf ctx). repeat split; simpl; lia || done. Qed.

(** *** Padding *)

Lemma put_length_spec (z tl : list Z) bits : length z = 56%nat → length tl = 8%nat →
  put_length (z ++ tl) bits = Some (z ++ length_bytes bits).
Proof.
  intros Hz Hb. unfold put_length.
  destruct tl as [|t0 [|t1 [|t2 [|t3 [|t4 [|t5 [|t6 [|t7 [|]]]]]]]]]; try done.
  do 7 (rewrite zset_next by (rewrite ?length_app, Hz; reflexivity); cbn [mbind option_bind]).
  rewrite zset_next by (rewrite ?length_app, Hz; reflexivity).
  f_equal. by rewrite app_nil_r, <- !app_assoc.
Qed.

Lemma zero_fill_spec (l tl : list Z) i hi : i = Z.of_nat (length l) → i <= hi <= Z.of_nat (length (l ++ tl)) →
  ∃ tl', zero_fill (l ++ tl) i hi = Some (l ++ replicate (Z.to_nat hi - length l) 0 ++ tl') ∧
    length tl' = (length (l ++ tl) - Z.to_nat hi)%nat.
Proof.
  intros -> Hhi. rewrite length_app in *. unfold zero_fill. rewrite fill_next by lia.
  eexists. split; [do 4 f_equal; lia|]. rewrite length_drop. lia.
Qed.

(** The bytes that complete the last block or the last two. *)
Lemma padding_length q r : (r < 64)%nat → padding (64 * q + r) =
  0x80 :: replicate (if decide (r < 56)%nat then 55 - r else 119 - r) 0 ++
    length_bytes (u64 (u64 (512 * Z.of_nat q) + Z.of_nat r * 8)).
Proof.
  intros Hr. unfold padding. f_equal. f_equal.
  - f_equal. rewrite Nat.add_comm, Nat.mul_comm, Nat.Div0.mod_add, (Nat.mod_small r) by lia.
    case_decide; [|apply Nat.mod_small; lia]. replace (119 - r)%nat with (55 - r + 1 * 64)%nat by lia.
    rewrite Nat.Div0.mod_add. apply Nat.mod_small. lia.
  - f_equal. rewrite u64_add_l. f_equal. lia.
Qed.

Lemma big_endian_hash_total st : length st = 8%nat → ∃ h, big_endian_hash st = Some h ∧
  length h = 32%nat ∧ Forall byte h.
Proof.
  intros Hst. destruct st as [|s0 [|s1 [|s2 [|s3 [|s4 [|s5 [|s6 [|s7 [|]]]]]]]]]; try done.
  eexists. split; [done|]. split; [done|]. apply Forall_forall. intros x Hx.
  apply list_elem_of_In, in_flat_map in Hx as (s & _ & Hx). apply in_map_iff in Hx as (i & <- & _).
  unfold byte. change 0xff with (Z.ones 8). rewrite Z.land_ones by lia.
  by apply Z.mod_pos_bound.
Qed.

Lemma sha256_hash_absorbed msg ctx : absorbed msg ctx →
  ∃ h, sha256_hash ctx = Some h ∧ sha256_spec msg = Some h ∧ length h = 32%nat ∧ Forall byte h.
Proof.
  intros (q & full & rest & tl & -> & Hfull & Hrest & Hp & Hst & Hnxt & Hbuf & Hlen & Hbits).
  unfold sha256_hash, sha256_spec. cbn zeta. rewrite (length_app full rest), Hfull, padding_length by done.
  rewrite Hbuf in Hlen |- *. rewrite length_app in Hlen. rewrite Hnxt, Hbits.
  rewrite (u32_small (Z.of_nat (length rest) * 8)) by lia.
  set (bits := u64 (u64 (512 * Z.of_nat q) + Z.of_nat (length rest) * 8)).
  destruct tl as [|y tl]; [simpl in Hlen; lia|]. simpl in Hlen.
  rewrite zset_next by done. cbn [mbind option_bind].
  destruct (Z.ltb_spec (Z.of_nat (length rest)) 56) as [H|H].
  - cbn [mbind option_bind]. rewrite decide_True by lia.
    destruct (zero_fill_spec (rest ++ [0x80]) tl (Z.of_nat (length rest) + 1) 56) as (tl' & -> & Htl').
    { rewrite length_app. simpl. lia. } { rewrite !length_app. simpl. lia. }
    cbn [mbind option_bind].
    rewrite (app_assoc _ _ tl'). rewrite put_length_spec; cycle 1.
    { rewrite !length_app, length_replicate. simpl. lia. } { rewrite Htl', !length_app. simpl. lia. }
    cbn [mbind option_bind]. rewrite length_app in *. simpl length.
    set (block := ((rest ++ [0x80]) ++ replicate (Z.to_nat 56 - (length rest + 1)) 0) ++ length_bytes bits).
    assert (length block = 64%nat) as Hblock.
    { unfold block. rewrite !length_app, length_replicate. simpl. lia. }
    destruct (sha256_transform_total (state ctx) block Hst Hblock) as (st & Ht & Hst').
    destruct (big_endian_hash_total st Hst') as (h & Hh & Hlh). exists h. rewrite Ht. cbn [mbind option_bind].
    split; [done|]. split; [|done].
    assert (full ++ block = (full ++ rest) ++ 0x80 :: replicate (55 - length rest) 0 ++ length_bytes bits) as <-.
    { unfold block. replace (55 - length rest)%nat with (Z.to_nat 56 - (length rest + 1))%nat by lia.
      by rewrite <- !app_assoc. }
    rewrite length_app, Hblock, Hfull. replace (64 * q + 64)%nat with (S q * 64)%nat by lia.
    rewrite Nat.div_mul by lia. rewrite (process_snoc q _ full block (state ctx)) by done.
    rewrite Ht. done.
  - rewrite decide_False by lia.
    destruct (zero_fill_spec (rest ++ [0x80]) tl (Z.of_nat (length rest) + 1) 64) as (tl' & -> & Htl').
    { rewrite length_app. simpl. lia. } { rewrite !length_app. simpl. lia. }
    destruct tl'; [|rewrite !length_app in Htl'; simpl in Htl'; lia]. clear Htl'.
    rewrite app_nil_r. cbn [mbind option_bind]. rewrite length_app. simpl length.
    set (b1 := (rest ++ [0x80]) ++ replicate (Z.to_nat 64 - (length rest + 1)) 0).
    assert (length b1 = 64%nat) as Hb1.
    { unfold b1. rewrite !length_app, length_replicate. simpl. lia. }
    destruct (sha256_transform_total (state ctx) b1 Hst Hb1) as (st1 & Ht1 & Hst1).
    rewrite Ht1. cbn [mbind option_bind].
    destruct (zero_fill_spec [] b1 0 56) as (tl' & Hz & Htl'); [done|simpl; lia|].
    cbn [app] in Hz, Htl'. rewrite Hz. cbn [mbind option_bind length]. rewrite Nat.sub_0_r.
    rewrite put_length_spec by (rewrite ?length_replicate; lia). cbn [mbind option_bind].
    set (b2 := replicate (Z.to_nat 56) 0 ++ length_bytes bits).
    assert (length b2 = 64%nat) as Hb2 by done.
    destruct (sha256_transform_total st1 b2 Hst1 Hb2) as (st & Ht & Hst').
    destruct (big_endian_hash_total st Hst') as (h & Hh & Hlh). exists h. rewrite Ht. cbn [mbind option_bind].
    split; [done|]. split; [|done].
    assert ((full ++ b1) ++ b2 =
      (full ++ rest) ++ 0x80 :: replicate (119 - length rest) 0 ++ length_bytes bits) as <-.
    { unfold b1, b2.
      replace (119 - length rest)%nat with ((Z.to_nat 64 - (length rest + 1)) + Z.to_nat 56)%nat by lia.
      by rewrite replicate_add, <- !app_assoc. }
    rewrite !length_app, Hb1, Hb2, Hfull. replace (64 * q + 64 + 64)%nat with (S (S q) * 64)%nat by lia.
    rewrite Nat.div_mul by lia. rewrite (process_snoc (S q) _ _ b2 st1); [by rewrite Ht| |done|].
    + rewrite length_app. lia.
    + by rewrite (process_snoc q _ full b1 (state ctx)).
Qed.

(** ** Property *)

(** C26. However a message is cut into calls of the update, the hash is that of
    the whole message: the compression function run from the initial state over
    the 512 bit blocks of the message with the padding of the standard, which is
    32 bytes. No access leaves its array and the cells of the message schedule
    are written before they are read, whatever the context held before. *)
Theorem sha256_update_hash ctx0 pieces : length (buf ctx0) = 64%nat →
  ∃ ctx h, foldl (λ c p, c ← c; sha256_update c p) (Some (sha256_init ctx0)) pieces = Some ctx ∧
    sha256_hash ctx = Some h ∧ sha256_spec (concat pieces) = Some h ∧ length h = 32%nat ∧ Forall byte h.
Proof.
  intros Hb.
  assert (∀ msg ctx, absorbed msg ctx → ∃ ctx',
    foldl (λ c p, c ← c; sha256_update c p) (Some ctx) pieces = Some ctx' ∧
    absorbed (msg ++ concat pieces) ctx') as Hrun.
  { induction pieces as [|p pieces IH]; intros msg ctx Hctx; simpl; [exists ctx; by rewrite app_nil_r|].
    destruct (sha256_update_absorbed p msg ctx Hctx) as (ctx1 & -> & H1).
    destruct (IH _ _ H1) as (ctx2 & H2 & H3). exists ctx2. by rewrite app_assoc. }
  destruct (Hrun [] (sha256_init ctx0)) as (ctx & Hc & Ha); [by apply sha256_init_absorbed|].
  destruct (sha256_hash_absorbed _ _ Ha) as (h & Hh). by exists ctx, h.
Qed.

Lemma sha256_update_hash_witness : ∃ ctx h,
  foldl (λ c p, c ← c; sha256_update c p) (Some (sha256_init example_ctx)) [[0x61]; []; [0x62; 0x63]] = Some ctx ∧
  sha256_hash ctx = Some h ∧ sha256_spec [0x61; 0x62; 0x63] = Some h.
Proof.
  destruct (sha256_update_hash example_ctx [[0x61]; []; [0x62; 0x63]] eq_refl) as (ctx & h & Hc & Hh & Hs & _).
  exists ctx, h. split; [exact Hc|]. split; [exact Hh|exact Hs].
Defined.
