(* ===== verification/BootMem.v ===== *)
(** * BootMem: memory and string routines of the boot loader

    [boot/libboot/mem/mem.c]. Loops that are those of the kernel, line for line,
    are the kernel's definitions. *)
From stdpp Require Import gmap.
From S2P Require Import Prelude Platform Memory Libkern.

Section boot.
Context `{Platform}.
Definition strcmp (m : mem) (a b : Z) : option Z := Libkern.strcmp m a b.
Definition strncmp (m : mem) (a b num : Z) : option Z := Libkern.strncmp m a b num.
Definition strlen (m : mem) (s : Z) : option Z := Libkern.strlen m s.

Definition strnlen (m : mem) (s maxlen : Z) : option Z :=
  loop (str_fuel m) (λ '(i, maxlen),
    b ← m !! (s + i);
    if negb (b =? 0) && negb (maxlen =? 0) then Some (inl (i + 1, maxlen - 1))
    else Some (inr i)) (0, maxlen).

Definition memset (dest fll nbytes : Z) (m : mem) : option (Z * mem) :=
  m ← for_int nbytes (set_byte dest fll) m; Some (dest, m).
Definition memcpy (dest src nbytes : Z) (m : mem) : option (Z * mem) :=
  Libkern.memcpy dest src nbytes m.

(** The count has 32 bits on every target. *)
Definition memmove (dest src nbytes : Z) (m : mem) : option (Z * mem) :=
  if dest <? src then
    m ← for_int nbytes (copy_byte dest src) m; Some (dest, m)
  else
    let i0 := s32 (u32 (nbytes - 1)) in
    m ← for_n (Z.to_nat (i0 + 1)) 0 (λ k, copy_byte dest src (i0 - k)) m;
    Some (dest, m).

Definition memccpy (dest src stop nbytes : Z) (m : mem) : option (Z * mem) :=
  Libkern.memccpy dest src stop nbytes m.
Definition memcmp (m : mem) (src1 src2 nbytes : Z) : option Z :=
  Libkern.memcmp m src1 src2 nbytes.

Lemma boot_memmove_spec dest src n m : 0 <= n < 2 ^ 31 → mapped m dest n → mapped m src n →
  ∃ m', memmove dest src n m = Some (dest, m') ∧ copied m m' dest src n.
Proof.
  intros Hn Hd Hs. pose proof (memmove_spec dest src n m Hn Hd Hs) as Hmm.
  unfold memmove, Libkern.memmove in *. rewrite s32_usize_pred in Hmm by lia.
  assert (s32 (u32 (n - 1)) = n - 1) as ->; [|done].
  destruct (Z.eq_dec n 0) as [->|]; [reflexivity|]. by rewrite u32_small, s32_small by lia.
Qed.
End boot.

(** [strnlen] reads the character after the last one it may count. *)
Example strnlen_over_read : let m : mem := list_to_map [(16, 97); (17, 98)] in
  strnlen m 16 2 = None.
Proof. vm_compute. reflexivity. Qed.
