(* ===== verification/LibcString.v ===== *)
(** * LibcString: strings and memory blocks of the C library

    [libs/libc/string/string.c] over byte-addressed memory. A pointer is its
    address and NULL is 0. Loops that are those of the kernel, line for line,
    are the kernel's definitions. The [restrict] of [memcpy] is not modelled:
    the copy is the sequence of its loads and stores. *)
From stdpp Require Import gmap.
From S2P Require Import Prelude Platform Memory Libkern.
From S2P Require BootMem.

(** One chunk; the addresses need not be aligned. *)
Definition copy_word (dest src i : Z) (m : mem) : option mem :=
  v ← load m (src + 4 * i) 4; store m (dest + 4 * i) 4 v.

Section libc.
Context `{Platform}.

Definition memset (dest fill nbytes : Z) (m : mem) : option (Z * mem) :=
  m ← for_int nbytes (set_byte dest (u8 fill)) m; Some (dest, m).

Definition memcpy (dest src nbytes : Z) (m : mem) : option (Z * mem) :=
  let rest := nbytes mod 4 in
  let chunks := Z.shiftr (nbytes - rest) 2 in
  m ← (if chunks =? 0 then Some m
       else for_n (Z.to_nat chunks) 0 (copy_word dest src) m);
  let chunks := usize (Z.shiftl chunks 2) in
  m ← for_n (Z.to_nat rest) 0 (λ i, copy_byte dest src (chunks + i)) m;
  Some (dest, m).

Definition memmove (dest src nbytes : Z) (m : mem) : option (Z * mem) :=
  if dest <? src then memcpy dest src nbytes m
  else
    let i0 := s32 (usize (nbytes - 1)) in
    m ← for_n (Z.to_nat (i0 + 1)) 0 (λ k, copy_byte dest src (i0 - k)) m;
    Some (dest, m).

Definition memccpy (dest src stop nbytes : Z) (m : mem) : option (Z * mem) :=
  Libkern.memccpy dest src stop nbytes m.

Definition memcmp (m : mem) (src1 src2 nbytes : Z) : option Z :=
  if 2 ^ 31 <=? nbytes then None else
  r ← for_loop (Z.to_nat nbytes) 0 (λ i (_ : unit),
    b1 ← m !! (src1 + i);
    b2 ← m !! (src2 + i);
    if negb (b1 =? b2) then Some (inr (b1 - b2)) else Some (inl ())) ();
  Some (match r with inl _ => 0 | inr r => r end).

Definition memchr (m : mem) (ptr c size : Z) : option Z :=
  r ← for_loop (Z.to_nat size) 0 (λ i (_ : unit),
    b ← m !! (ptr + i);
    if b =? u8 c then Some (inr (ptr + i)) else Some (inl ())) ();
  Some (match r with inl _ => 0 | inr r => r end).

Definition strcmp (m : mem) (a b : Z) : option Z := Libkern.strcmp m a b.
Definition strncmp (m : mem) (a b num : Z) : option Z := Libkern.strncmp m a b num.
Definition strlen (m : mem) (str : Z) : option Z := Libkern.strlen m str.

Definition strcpy (dest src : Z) (m : mem) : option (Z * mem) :=
  '(i, m) ← loop (str_fuel m) (λ '(i, m),
    b ← m !! (src + i);
    if b =? 0 then Some (inr (i, m))
    else m ← mset m (dest + i) b; Some (inl (i + 1, m))) (0, m);
  m ← mset m (dest + i) 0;
  Some (dest, m).

Definition strncpy (dest src nbytes : Z) (m : mem) : option (Z * mem) :=
  '(i, m) ← loop (S (Z.to_nat nbytes)) (λ '(i, m),
    if i <? nbytes then
      b ← m !! (src + i);
      if b =? 0 then Some (inr (i, m))
      else m ← mset m (dest + i) b; Some (inl (i + 1, m))
    else Some (inr (i, m))) (0, m);
  m ← for_n (Z.to_nat (nbytes - i)) i (set_byte dest 0) m;
  Some (dest, m).

Definition strchr (m : mem) (s c : Z) : option Z :=
  loop (str_fuel m) (λ s,
    b ← m !! s;
    if char_val b =? c then Some (inr s)
    else if b =? 0 then Some (inr 0)
    else Some (inl (s + 1))) s.

Definition strrchr (m : mem) (str ch : Z) : option Z :=
  loop (str_fuel m) (λ '(str, last),
    c ← m !! str;
    if c =? 0 then Some (inr last)
    else Some (inl (str + 1, if char_val c =? ch then str else last))) (str, 0).

(** The loop over the delimiters: [start], and whether one was met. *)
Definition delim_loop (m : mem) (c delim mlen start tend : Z) : option (Z * bool) :=
  r ← for_loop (Z.to_nat mlen) 0 (λ j '(start, ok),
    d ← m !! (delim + j);
    if c =? d then
      if usize (tend - start) =? 0 then Some (inr (usize (start + 1), ok))
      else Some (inl (start, true))
    else Some (inl (start, ok))) (start, false);
  Some (match r with inl s => s | inr s => s end).

(** The cell [*saveptr] is passed and returned as a value; [None] is a null
    [saveptr]. *)
Definition strtok_r (str delim : Z) (saveptr : option Z) (m : mem)
  : option (Z * option Z * mem) :=
  if (str =? 0) && bool_decide (saveptr = None) then Some (0, saveptr, m) else
  let str := if str =? 0 then default 0 saveptr else str in
  n ← strlen m str;
  mlen ← strlen m delim;
  r ← for_loop (Z.to_nat n) 0 (λ i '(start, tend),
    c ← m !! (str + i);
    '(start, ok) ← delim_loop m c delim mlen start tend;
    if ok : bool then Some (inr (start, tend)) else Some (inl (start, usize (tend + 1)))) (0, 0);
  let '(start, tend) := match r with inl s => s | inr s => s end in
  c ← m !! (str + start);
  if c =? 0 then Some (0, saveptr, m) else
  _ ← saveptr;
  if tend =? 0 then Some (str + start, Some 0, m) else
  e ← m !! (str + tend);
  let saved := if e =? 0 then str + tend else str + tend + 1 in
  m ← mset m (str + tend) 0;
  Some (str + start, Some saved, m).

(** [static_saveptr] is the static variable. *)
Definition strtok (str delim static_saveptr : Z) (m : mem) : option (Z * Z * mem) :=
  '(r, s, m) ← strtok_r str delim (Some static_saveptr) m;
  s ← s; Some (r, s, m).

Definition strstr (m : mem) (haystack needle : Z) : option Z :=
  n ← strlen m needle;
  loop (str_fuel m) (λ haystack,
    c ← m !! haystack;
    if c =? 0 then Some (inr 0)
    else
      r ← memcmp m haystack needle n;
      if r =? 0 then Some (inr haystack) else Some (inl (haystack + 1))) haystack.

Definition strcat (dest src : Z) (m : mem) : option (Z * mem) :=
  dest_len ← strlen m dest;
  '(i, m) ← loop (str_fuel m) (λ '(i, m),
    b ← m !! (src + i);
    if b =? 0 then Some (inr (i, m))
    else m ← mset m (dest + usize (dest_len + i)) b; Some (inl (usize (i + 1), m))) (0, m);
  m ← mset m (dest + usize (dest_len + i)) 0;
  Some (dest, m).
End libc.

(** ** Memory blocks *)

Section mem_spec.
Context `{Platform}.

(** A load gives the bytes that are there. *)
Lemma load_bytes n m a : mem_ok m → mapped m a (Z.of_nat n) →
  ∃ v, load m a n = Some v ∧ ∀ i, 0 <= i < Z.of_nat n → m !! (a + i) = Some (v / 256 ^ i mod 256).
Proof.
  intros Hok. revert a. induction n as [|n IH]; intros a Hm.
  { exists 0. split; [done|lia]. }
  destruct (Hm a) as [b Hb]; [lia|]. destruct (IH (a + 1)) as (v & Hv & Hbytes).
  { intros x Hx. apply Hm. lia. }
  pose proof (Hok a b Hb) as Hbr. exists (b + 256 * v). cbn [load]. rewrite Hb. cbn [mbind option_bind].
  rewrite Hv. split; [done|]. intros i Hi. destruct (Z.eq_dec i 0) as [->|].
  - rewrite Z.add_0_r, Hb, Z.pow_0_r, Z.div_1_r. f_equal.
    rewrite Z.mul_comm, Z_mod_plus_full, Z.mod_small by lia. done.
  - replace (a + i) with (a + 1 + (i - 1)) by lia. rewrite Hbytes by lia.
    replace i with (1 + (i - 1)) at 2 by lia.
    rewrite Z.pow_add_r, Z.pow_1_r, <- Z.div_div by (try apply Z.pow_pos_nonneg; lia).
    do 3 f_equal. apply Z.div_unique_pos with b; lia.
Qed.

Lemma copy_word_spec m m' dest src i n : mem_ok m → dest <= src ∨ src + n <= dest →
  0 <= i → 4 * (i + 1) <= n → mapped m src n →
  filled m m' dest (4 * i) (λ x, m !! (src + (x - dest))) → mapped m' dest n →
  ∃ m'', copy_word dest src i m' = Some m'' ∧
    filled m' m'' (dest + 4 * i) 4 (λ x, m !! (src + (x - dest))).
Proof.
  intros Hok Hov Hi Hn Hs Hf Hd. unfold copy_word.
  destruct (load_bytes 4 m (src + 4 * i) Hok) as (v & Hv & Hbytes).
  { eapply mapped_sub; [exact Hs|lia|lia]. }
  rewrite (load_ext 4 m' m) by (intros x Hx; rewrite Hf, decide_False by lia; done).
  rewrite Hv. cbn [mbind option_bind].
  destruct (store_filled 4 m' (dest + 4 * i) v) as (m'' & -> & Hf').
  { eapply mapped_sub; [exact Hd|lia|lia]. }
  exists m''. split; [done|]. intros x. rewrite Hf'. change (Z.of_nat 4) with 4.
  case_decide; [|done]. rewrite <- Hbytes by (change (Z.of_nat 4) with 4; lia). f_equal. lia.
Qed.

Lemma copied_app m m1 m2 dest src n k : 0 <= n → 0 <= k → copied m m1 dest src n →
  filled m1 m2 (dest + n) k (λ x, m !! (src + (x - dest))) → copied m m2 dest src (n + k).
Proof. intros Hn Hk H1 H2. by eapply filled_app. Qed.

(** By chunks or by bytes is the same. *)
Lemma memcpy_chunks_spec dest src n m : mem_ok m → dest <= src ∨ src + n <= dest →
  0 <= n < 2 ^ 31 → mapped m dest n → mapped m src n →
  ∃ m', memcpy dest src n m = Some (dest, m') ∧ copied m m' dest src n.
Proof.
  intros Hok Hov Hn Hd Hs. unfold memcpy. pose proof ptr_bits_ge.
  assert (Z.shiftr (n - n mod 4) 2 = n / 4) as ->.
  { rewrite Z.shiftr_div_pow2 by lia. change (2 ^ 2) with 4.
    rewrite (Z.div_mod n 4) at 1 by lia. replace (4 * (n / 4) + n mod 4 - n mod 4) with (n / 4 * 4) by lia.
    by rewrite Z.div_mul. }
  set (c := n / 4). assert (0 <= c ∧ 4 * c + n mod 4 = n ∧ 0 <= n mod 4 < 4) as (Hc & Hnc & Hr).
  { unfold c. Z.div_mod_to_equations; lia. }
  clearbody c.
  assert ((if c =? 0 then Some m else for_n (Z.to_nat c) 0 (copy_word dest src) m)
    = for_n (Z.to_nat c) 0 (copy_word dest src) m) as -> by (by destruct (Z.eqb_spec c 0) as [->|]).
  rewrite Z.shiftl_mul_pow2 by lia. change (2 ^ 2) with 4. rewrite usize_small by lia.
  destruct (for_n_filled 4 (copy_word dest src) (Z.to_nat c) m dest
    (λ x, m !! (src + (x - dest)))) as (m1 & -> & Hf1); rewrite ?Z2Nat.id by lia.
  { lia. } { intros x Hx. apply Hs. lia. } { eapply mapped_sub; [exact Hd|lia|lia]. }
  { intros i m1 Hi Hf Hm1. eapply (copy_word_spec m m1 dest src i (4 * c)); try done; try lia.
    eapply mapped_sub; [exact Hs|lia|lia]. }
  rewrite Z2Nat.id in Hf1 by lia. cbn [mbind option_bind].
  destruct (for_n_total (λ i m2, copied m m2 dest src (4 * c + i)) (λ i, copy_byte dest src (c * 4 + i))
    (Z.to_nat (n mod 4)) 0 m1) as (m2 & -> & Hf2).
  - by rewrite Z.add_0_r.
  - intros i m2 Hi Hf2. destruct (copy_byte_spec m m2 dest src (c * 4 + i)) as (m3 & -> & Hf3).
    + rewrite Hf2. case_decide; apply Hs; lia.
    + rewrite Hf2. case_decide; [apply Hs|apply Hd]; lia.
    + rewrite Hf2. rewrite decide_False by lia. done.
    + exists m3. split; [done|]. rewrite Z.add_assoc. eapply copied_app; [lia|lia|exact Hf2|].
      by replace (dest + (4 * c + i)) with (dest + (c * 4 + i)) by lia.
  - cbn [mbind option_bind]. exists m2. split; [done|].
    by replace (4 * c + (0 + Z.of_nat (Z.to_nat (n mod 4)))) with n in Hf2 by lia.
Qed.

Lemma memmove_libc_spec dest src n m : mem_ok m → 0 <= n < 2 ^ 31 → mapped m dest n → mapped m src n →
  ∃ m', memmove dest src n m = Some (dest, m') ∧ copied m m' dest src n.
Proof.
  intros Hok Hn Hd Hs. pose proof (memmove_spec dest src n m Hn Hd Hs) as Hmm.
  unfold memmove, Libkern.memmove in *. destruct (Z.ltb_spec dest src); [|done].
  apply memcpy_chunks_spec; [done|lia|done..].
Qed.

Lemma memset_libc_spec dest v n m : 0 <= n < 2 ^ 31 → mapped m dest n →
  ∃ m', memset dest v n m = Some (dest, m') ∧ filled m m' dest n (λ _, Some (u8 v)).
Proof.
  intros Hn Hm. unfold memset, for_int. destruct (Z.leb_spec (2 ^ 31) n); [lia|].
  destruct (set_loop_spec (Z.to_nat n) m dest (u8 v)) as (m' & -> & Hf); [by rewrite Z2Nat.id by lia|].
  rewrite Z2Nat.id in Hf by lia. cbn [mbind option_bind]. eauto.
Qed.

(** The comparison: the difference of the first pair that differs. *)
Lemma memcmp_libc_spec m a b la lb : bytes_at m a la → bytes_at m b lb → length la = length lb →
  Z.of_nat (length la) < 2 ^ 31 →
  ∃ r, memcmp m a b (Z.of_nat (length la)) = Some r ∧
    (la = lb ∧ r = 0 ∨
     ∃ p x y ra rb, la = p ++ x :: ra ∧ lb = p ++ y :: rb ∧ x ≠ y ∧ r = x - y).
Proof.
  intros Ha Hb Hl Hlt. unfold memcmp. destruct (Z.leb_spec (2 ^ 31) (Z.of_nat (length la))); [lia|].
  clear Hlt. rewrite Nat2Z.id.
  enough (∀ la lb a b i, bytes_at m (a + i) la → bytes_at m (b + i) lb → length la = length lb →
    ∃ r, for_loop (length la) i (λ i (_ : unit),
      b1 ← m !! (a + i); b2 ← m !! (b + i);
      if negb (b1 =? b2) then Some (inr (b1 - b2)) else Some (inl ())) () = Some r ∧
    (la = lb ∧ r = inl () ∨
     ∃ p x y ra rb, la = p ++ x :: ra ∧ lb = p ++ y :: rb ∧ x ≠ y ∧ r = inr (x - y))) as Hgen.
  { destruct (Hgen la lb a b 0) as (r & -> & Hr); [by rewrite Z.add_0_r..|done|].
    cbn [mbind option_bind]. destruct Hr as [[-> ->]|(p & x & y & ra & rb & -> & -> & Hne & ->)]; [by eauto|].
    eexists. split; [done|]. right. by exists p, x, y, ra, rb. }
  clear. intros la. induction la as [|x la IH]; intros [|y lb] a b i Ha Hb Hl; try done.
  { eexists. split; [done|]. by left. }
  apply bytes_at_cons in Ha as [Hx Ha], Hb as [Hy Hb].
  change (for_loop (length (x :: la)) i) with (for_loop (S:=unit) (R:=Z) (S (length la)) i).
  unfold for_loop at 1. fold (@for_loop unit Z). rewrite Hx, Hy. cbn [mbind option_bind].
  destruct (Z.eqb_spec x y) as [->|Hne]; cbn [negb].
  - rewrite <- Z.add_assoc in Ha, Hb. destruct (IH lb a b (i + 1) Ha Hb) as (r & -> & Hr); [simpl in Hl; lia|].
    exists r. split; [done|]. destruct Hr as [[-> ->]|(p & x' & y' & ra & rb & -> & -> & Hr)]; [by left|right].
    by exists (y :: p), x', y', ra, rb.
  - eexists. split; [done|]. right. by exists [], x, y, la, lb.
Qed.
End mem_spec.

(** ** Strings *)

Section str_spec.
Context `{Platform}.

(** The address of the first [c] among the bytes [l] at [s], or NULL. *)
Definition first_at (c s : Z) (l : list Z) (r : Z) : Prop :=
  (c ∉ l) ∧ r = 0 ∨ ∃ p q, l = p ++ c :: q ∧ (c ∉ p) ∧ r = s + Z.of_nat (length p).

Lemma first_at_here c s l : first_at c s (c :: l) s.
Proof. right. exists [], l. split; [done|]. split; [apply not_elem_of_nil|]. simpl. lia. Qed.
Lemma first_at_cons b c s l r : b ≠ c → first_at c (s + 1) l r → first_at c s (b :: l) r.
Proof.
  intros Hne [[Hc ->]|(p & q & -> & Hc & ->)]; [left|right].
  - split; [by apply not_elem_of_cons|done].
  - exists (b :: p), q. split; [done|]. split; [by apply not_elem_of_cons|]. simpl. lia.
Qed.

Lemma memchr_spec m s c l : 0 <= c < 256 → bytes_at m s l →
  ∃ r, memchr m s c (Z.of_nat (length l)) = Some r ∧ first_at c s l r.
Proof.
  intros Hc Hl. unfold memchr. rewrite Nat2Z.id, u8_small by done.
  enough (∀ l s i, bytes_at m (s + i) l → ∃ r,
    for_loop (length l) i (λ i (_ : unit),
      b ← m !! (s + i); if b =? c then Some (inr (s + i)) else Some (inl ())) () = Some r ∧
    first_at c (s + i) l (match r with inl _ => 0 | inr r => r end)) as Hgen.
  { destruct (Hgen l s 0) as (r & -> & Hr); [by rewrite Z.add_0_r|]. rewrite Z.add_0_r in Hr.
    cbn [mbind option_bind]. eauto. }
  clear s l Hl. intros l. induction l as [|b l IH]; intros s i Hl.
  { eexists. split; [done|]. left. split; [apply not_elem_of_nil|done]. }
  apply bytes_at_cons in Hl as [Hb Hl].
  change (for_loop (length (b :: l)) i) with (for_loop (S:=unit) (R:=Z) (S (length l)) i).
  unfold for_loop at 1. fold (@for_loop unit Z). rewrite Hb. cbn [mbind option_bind].
  destruct (Z.eqb_spec b c) as [->|Hne].
  - eexists. split; [done|]. apply first_at_here.
  - rewrite <- Z.add_assoc in Hl. destruct (IH s (i + 1) Hl) as (r & -> & Hr).
    exists r. split; [done|]. rewrite Z.add_assoc in Hr. by apply first_at_cons.
Qed.

(** [strchr] looks for a character in the string with its terminator. *)
Lemma strchr_spec m s c l : cstr m s l → 0 <= c < 256 →
  ∃ r, strchr m s (char_val c) = Some r ∧ first_at c s (l ++ [0]) r.
Proof.
  intros Hs Hc. unfold strchr. pose proof (cstr_fuel m s l Hs) as Hf. assert (length l < str_fuel m)%nat as Hf' by lia.
  clear Hf. revert Hf'. generalize (str_fuel m) as fuel. revert s Hs.
  induction l as [|b l IH]; intros s Hs fuel Hf; (destruct fuel as [|fuel]; [lia|]); rewrite loop_S.
  - apply cstr_nil in Hs. rewrite Hs. cbn [mbind option_bind].
    destruct (Z.eqb_spec (char_val 0) (char_val c)) as [E|E].
    + apply char_val_inj in E as <-; [|lia..]. eexists. split; [done|]. apply first_at_here.
    + eexists. split; [done|]. left. split; [|done]. intros ->%list_elem_of_singleton. done.
  - apply cstr_cons in Hs as (Hb & Hbr & Hs). rewrite Hb. cbn [mbind option_bind].
    destruct (Z.eqb_spec (char_val b) (char_val c)) as [E|E].
    + apply char_val_inj in E as <-; [|lia..]. eexists. split; [done|]. apply first_at_here.
    + replace (b =? 0) with false by lia. destruct (IH (s + 1) Hs fuel) as (r & -> & Hr); [simpl in Hf; lia|].
      exists r. split; [done|]. apply first_at_cons; [congruence|done].
Qed.

(** The last [c] of the string without its terminator. *)
Lemma strrchr_spec m s c l : cstr m s l → 0 < c < 256 →
  ∃ r, strrchr m s (char_val c) = Some r ∧
    ((c ∉ l) ∧ r = 0 ∨ ∃ p q, l = p ++ c :: q ∧ (c ∉ q) ∧ r = s + Z.of_nat (length p)).
Proof.
  intros Hs Hc. unfold strrchr.
  enough (∀ fuel s last, cstr m s l → (length l < fuel)%nat → ∃ r, loop fuel (λ '(str, last),
    c0 ← m !! str;
    if c0 =? 0 then Some (inr last)
    else Some (inl (str + 1, if char_val c0 =? char_val c then str else last))) (s, last) = Some r ∧
    ((c ∉ l) ∧ r = last ∨ ∃ p q, l = p ++ c :: q ∧ (c ∉ q) ∧ r = s + Z.of_nat (length p))) as Hgen.
  { apply (Hgen _ _ 0 Hs). pose proof (cstr_fuel m s l Hs). lia. }
  clear s Hs. induction l as [|b l IH]; intros fuel s last Hs Hf; (destruct fuel as [|fuel]; [lia|]);
    rewrite loop_S; cbn beta iota.
  - apply cstr_nil in Hs. rewrite Hs. cbn [mbind option_bind]. eexists. split; [done|]. left.
    split; [apply not_elem_of_nil|done].
  - apply cstr_cons in Hs as (Hb & Hbr & Hs). rewrite Hb. cbn [mbind option_bind].
    replace (b =? 0) with false by lia.
    edestruct (IH fuel (s + 1)) as (r & -> & Hr); [exact Hs|simpl in Hf; lia|].
    exists r. split; [done|]. destruct Hr as [[Hnot ->]|(p & q & -> & Hq & ->)].
    + destruct (Z.eqb_spec (char_val b) (char_val c)) as [E|E].
      * apply char_val_inj in E as <-; [|lia..]. right. exists [], l. simpl. split; [done|]. split; [done|lia].
      * left. split; [|done]. apply not_elem_of_cons. split; [congruence|done].
    + right. exists (b :: p), q. simpl. split; [done|]. split; [done|lia].
Qed.

(** Copying a string: one address after the other up to the terminator. *)
Lemma copied_snoc m m1 m2 dest src i : 0 <= i → copied m m1 dest src i →
  filled m1 m2 (dest + i) 1 (λ x, m !! (src + (x - dest))) → copied m m2 dest src (i + 1).
Proof. intros. by eapply copied_app. Qed.

Lemma copied_cstr m m' dest src l : cstr m src l → copied m m' dest src (Z.of_nat (length l) + 1) →
  cstr m' dest l.
Proof.
  intros [Hb Hl] Hc. split; [|done]. intros i Hi. rewrite length_app in Hi. simpl in Hi.
  rewrite Hc, decide_True by lia. replace (src + (dest + i - dest)) with (src + i) by lia.
  apply Hb. rewrite length_app. simpl. lia.
Qed.

(** A byte outside what was filled. *)
Lemma copied_src m m1 dest src n i : dest <= src ∨ src + i < dest → n <= i → copied m m1 dest src n →
  m1 !! (src + i) = m !! (src + i).
Proof. intros Hov Hn Hc. rewrite Hc, decide_False by lia. done. Qed.

Lemma copied_next m m1 dest src i b : 0 <= i → copied m m1 dest src i → m !! (src + i) = Some b →
  is_Some (m1 !! (dest + i)) →
  mset m1 (dest + i) b = Some (<[dest + i := b]> m1) ∧ copied m (<[dest + i := b]> m1) dest src (i + 1).
Proof.
  intros Hi Hc Hb Hd. split; [by apply mset_mapped|]. eapply copied_snoc; [done|done|].
  apply filled_one. rewrite <- Hb. f_equal. lia.
Qed.

Lemma copied_mapped m m1 dest src n k : copied m m1 dest src n → mapped m src n → mapped m dest k →
  mapped m1 dest k.
Proof. intros Hc Hs Hd. eapply mapped_filled; [exact Hc| |done]. intros x Hx. apply Hs. lia. Qed.

Lemma strcpy_spec m dest src l : cstr m src l → mapped m dest (Z.of_nat (length l) + 1) →
  dest <= src ∨ src + Z.of_nat (length l) < dest →
  ∃ m', strcpy dest src m = Some (dest, m') ∧ copied m m' dest src (Z.of_nat (length l) + 1).
Proof.
  intros Hs Hd Hov. unfold strcpy. pose proof (cstr_mapped m src l Hs) as Hsm.
  pose proof (cstr_fuel m src l Hs) as Hf.
  match goal with |- context [loop ?f ?b ?s0] =>
    destruct (loop_total (λ '(i, m1), 0 <= i <= Z.of_nat (length l) ∧ copied m m1 dest src i)
      (λ '(i, _), Z.of_nat (length l) - i)
      (λ '(i, m1), i = Z.of_nat (length l) ∧ copied m m1 dest src i) b f s0) as ([i m1] & -> & -> & Hc) end.
  - split; [lia|by apply filled_nil].
  - lia.
  - intros [i m1] (Hi & Hc) _. destruct (cstr_get m src l i Hs Hi) as (b & Hb & Hz & Hnz).
    rewrite (copied_src m m1 dest src i i) by (done || lia). rewrite Hb. cbn [mbind option_bind].
    destruct (Z.eqb_spec b 0) as [Hb0|Hb0]; [by rewrite <- (proj1 Hz Hb0)|].
    assert (i ≠ Z.of_nat (length l)) by tauto.
    destruct (copied_next m m1 dest src i b) as [-> Hc']; [lia|done|done| |].
    { eapply (copied_mapped m m1 dest src i); [done| |done|lia]. eapply mapped_sub; [exact Hsm|lia|lia]. }
    cbn [mbind option_bind]. split; [split; [lia|done]|lia].
  - cbn [mbind option_bind]. destruct (cstr_get m src l (Z.of_nat (length l)) Hs) as (b & Hb & Hz & _); [lia|].
    rewrite (proj2 Hz eq_refl) in Hb.
    destruct (copied_next m m1 dest src (Z.of_nat (length l)) 0) as [-> Hc']; [lia|done|done| |].
    { eapply (copied_mapped m m1 dest src); [done| |done|lia]. eapply mapped_sub; [exact Hsm|lia|lia]. }
    cbn [mbind option_bind]. eauto.
Qed.

Lemma strncpy_spec m dest src l n : cstr m src l → 0 <= n → mapped m dest n →
  dest <= src ∨ src + Z.of_nat (length l) < dest →
  ∃ m', strncpy dest src n m = Some (dest, m') ∧
    filled m m' dest n (λ x, if decide (x - dest < Z.of_nat (length l))
                             then m !! (src + (x - dest)) else Some 0).
Proof.
  intros Hs Hn Hd Hov. unfold strncpy. pose proof (cstr_mapped m src l Hs) as Hsm.
  set (k := Z.min n (Z.of_nat (length l))).
  match goal with |- context [loop ?f ?b ?s0] =>
    destruct (loop_total (λ '(i, m1), 0 <= i <= k ∧ copied m m1 dest src i) (λ '(i, _), n - i)
      (λ '(i, m1), i = k ∧ copied m m1 dest src i) b f s0) as ([i m1] & -> & -> & Hc) end.
  - split; [lia|by apply filled_nil].
  - lia.
  - intros [i m1] (Hi & Hc) _. destruct (Z.ltb_spec i n); [|split; [lia|done]].
    destruct (cstr_get m src l i Hs) as (b & Hb & Hz & Hnz); [lia|].
    rewrite (copied_src m m1 dest src i i) by (done || lia). rewrite Hb. cbn [mbind option_bind].
    destruct (Z.eqb_spec b 0) as [Hb0|Hb0]; [split; [|done]; pose proof (proj1 Hz Hb0); lia|].
    assert (i ≠ Z.of_nat (length l)) by tauto.
    destruct (copied_next m m1 dest src i b) as [-> Hc']; [lia|done|done| |].
    { eapply (copied_mapped m m1 dest src i); [done| |exact Hd|lia]. eapply mapped_sub; [exact Hsm|lia|lia]. }
    cbn [mbind option_bind]. split; [split; [lia|done]|lia].
  - cbn [mbind option_bind].
    destruct (for_n_total (λ i m2, filled m m2 dest i (λ x, if decide (x - dest < Z.of_nat (length l))
      then m !! (src + (x - dest)) else Some 0)) (set_byte dest 0) (Z.to_nat (n - k)) k m1) as (m2 & -> & Hf).
    + intros x. rewrite Hc. repeat case_decide; done || lia.
    + intros i m2 Hi Hf. unfold set_byte. rewrite mset_mapped.
      2:{ rewrite Hf. repeat case_decide; [apply Hsm|done|apply Hd]; lia. }
      eexists. split; [done|]. eapply filled_app; [lia|lia|exact Hf|]. apply filled_one.
      by rewrite decide_False by lia.
    + cbn [mbind option_bind]. exists m2. split; [done|].
      by replace (k + Z.of_nat (Z.to_nat (n - k))) with n in Hf by lia.
Qed.

Lemma strcat_spec m dest src ld ls : cstr m dest ld → cstr m src ls →
  Z.of_nat (length ld + length ls) < 2 ^ ptr_bits →
  mapped m dest (Z.of_nat (length ld + length ls) + 1) →
  dest + Z.of_nat (length ld) <= src ∨ src + Z.of_nat (length ls) < dest + Z.of_nat (length ld) →
  ∃ m', strcat dest src m = Some (dest, m') ∧
    copied m m' (dest + Z.of_nat (length ld)) src (Z.of_nat (length ls) + 1).
Proof.
  intros Hdc Hs Hfit Hd Hov. unfold strcat, strlen. rewrite (strlen_spec m dest ld) by (done || lia).
  cbn [mbind option_bind]. pose proof (cstr_mapped m src ls Hs) as Hsm. pose proof (cstr_fuel m src ls Hs) as Hf.
  set (d := dest + Z.of_nat (length ld)) in *.
  assert (mapped m d (Z.of_nat (length ls) + 1)) as Hdm by (eapply mapped_sub; [exact Hd|lia|lia]).
  match goal with |- context [loop ?f ?b ?s0] =>
    destruct (loop_total (λ '(i, m1), 0 <= i <= Z.of_nat (length ls) ∧ copied m m1 d src i)
      (λ '(i, _), Z.of_nat (length ls) - i)
      (λ '(i, m1), i = Z.of_nat (length ls) ∧ copied m m1 d src i) b f s0) as ([i m1] & -> & -> & Hc) end.
  - split; [lia|by apply filled_nil].
  - lia.
  - intros [i m1] (Hi & Hc) _. destruct (cstr_get m src ls i Hs Hi) as (b & Hb & Hz & Hnz).
    rewrite (copied_src m m1 d src i i) by (done || lia). rewrite Hb. cbn [mbind option_bind].
    destruct (Z.eqb_spec b 0) as [Hb0|Hb0]; [by rewrite <- (proj1 Hz Hb0)|].
    assert (i ≠ Z.of_nat (length ls)) by tauto. rewrite !usize_small by lia.
    replace (dest + (Z.of_nat (length ld) + i)) with (d + i) by lia.
    destruct (copied_next m m1 d src i b) as [-> Hc']; [lia|done|done| |].
    { eapply (copied_mapped m m1 d src i); [done| |exact Hdm|lia]. eapply mapped_sub; [exact Hsm|lia|lia]. }
    cbn [mbind option_bind]. split; [split; [lia|done]|lia].
  - cbn [mbind option_bind]. rewrite usize_small by lia.
    destruct (cstr_get m src ls (Z.of_nat (length ls)) Hs) as (b & Hb & Hz & _); [lia|].
    rewrite (proj2 Hz eq_refl) in Hb.
    replace (dest + (Z.of_nat (length ld) + Z.of_nat (length ls))) with (d + Z.of_nat (length ls)) by lia.
    destruct (copied_next m m1 d src (Z.of_nat (length ls)) 0) as [-> Hc']; [lia|done|done| |].
    { eapply (copied_mapped m m1 d src); [done| |exact Hdm|lia]. eapply mapped_sub; [exact Hsm|lia|lia]. }
    cbn [mbind option_bind]. eauto.
Qed.

Lemma strcat_cstr m m' dest src ld ls : cstr m dest ld → cstr m src ls →
  copied m m' (dest + Z.of_nat (length ld)) src (Z.of_nat (length ls) + 1) → cstr m' dest (ld ++ ls).
Proof.
  intros [Hd Hld] Hs Hc. pose proof (copied_cstr _ _ _ _ _ Hs Hc) as [Hls Hlsr].
  split; [|by apply Forall_app]. rewrite <- app_assoc. apply bytes_at_app. split; [|done].
  intros i Hi. rewrite Hc, decide_False by lia. apply bytes_at_app in Hd as [Hd _]. by apply Hd.
Qed.

(** The comparison of [strstr] stops at the end of the string it looks into. *)
Lemma memcmp_prefix m a b la lb : cstr m a la → cstr m b lb → Z.of_nat (length lb) < 2 ^ 31 →
  ∃ r, memcmp m a b (Z.of_nat (length lb)) = Some r ∧ (r = 0 ↔ ∃ q, la = lb ++ q).
Proof.
  intros Ha Hb Hlt. unfold memcmp. destruct (Z.leb_spec (2 ^ 31) (Z.of_nat (length lb))); [lia|].
  clear Hlt. rewrite Nat2Z.id.
  enough (∀ lb la a b i, cstr m (a + i) la → cstr m (b + i) lb →
    ∃ r, for_loop (length lb) i (λ i (_ : unit),
      b1 ← m !! (a + i); b2 ← m !! (b + i);
      if negb (b1 =? b2) then Some (inr (b1 - b2)) else Some (inl ())) () = Some r ∧
    (match r with inl _ => 0 | inr r => r end = 0 ↔ ∃ q, la = lb ++ q)) as Hgen.
  { destruct (Hgen lb la a b 0) as (r & -> & Hr); [by rewrite Z.add_0_r..|].
    cbn [mbind option_bind]. eauto. }
  clear. intros lb. induction lb as [|y lb IH]; intros la a b i Ha Hb.
  { eexists. split; [done|]. simpl. split; [by eauto|done]. }
  apply cstr_cons in Hb as (Hy & Hyr & Hb).
  change (for_loop (length (y :: lb)) i) with (for_loop (S:=unit) (R:=Z) (S (length lb)) i).
  unfold for_loop at 1. fold (@for_loop unit Z). destruct la as [|x la].
  { apply cstr_nil in Ha. rewrite Ha, Hy. cbn [mbind option_bind]. replace (0 =? y) with false by lia.
    cbn [negb]. eexists. split; [done|]. split; [lia|]. by intros [q ?]. }
  apply cstr_cons in Ha as (Hx & Hxr & Ha). rewrite Hx, Hy. cbn [mbind option_bind].
  destruct (Z.eqb_spec x y) as [->|Hne]; cbn [negb].
  - rewrite <- Z.add_assoc in Ha, Hb. destruct (IH la a b (i + 1) Ha Hb) as (r & -> & Hr).
    exists r. split; [done|]. rewrite Hr. simpl. split; intros [q Hq]; exists q; [by rewrite Hq|congruence].
  - eexists. split; [done|]. split; [lia|]. intros [q Hq]. simpl in Hq. congruence.
Qed.

(** The first occurrence, if there is one; an empty string has none, not even
    of the empty string. *)
Definition occurrence (s : Z) (l nl : list Z) (r : Z) : Prop :=
  r = 0 ∧ (l = [] ∨ ∀ p q, l ≠ p ++ nl ++ q) ∨
  ∃ p q, l = p ++ nl ++ q ∧ l ≠ [] ∧ r = s + Z.of_nat (length p) ∧
    ∀ p' q', l = p' ++ nl ++ q' → (length p <= length p')%nat.

Lemma strstr_spec m s needle l nl : cstr m s l → cstr m needle nl → Z.of_nat (length nl) < 2 ^ 31 →
  ∃ r, strstr m s needle = Some r ∧ occurrence s l nl r.
Proof.
  intros Hs Hnl Hlt. unfold strstr, strlen. pose proof ptr_bits_ge.
  rewrite (strlen_spec m needle nl) by (done || lia). cbn [mbind option_bind].
  pose proof (cstr_fuel m s l Hs) as Hf. assert (length l < str_fuel m)%nat as Hf' by lia.
  clear Hf. revert Hf'. generalize (str_fuel m) as fuel. revert s Hs.
  induction l as [|b l IH]; intros s Hs fuel Hf; (destruct fuel as [|fuel]; [lia|]); rewrite loop_S.
  - apply cstr_nil in Hs. rewrite Hs. cbn [mbind option_bind]. eexists. split; [done|]. left. auto.
  - destruct (memcmp_prefix m s needle (b :: l) nl Hs Hnl Hlt) as (r & Hr & Hpre).
    apply cstr_cons in Hs as (Hb & Hbr & Hs). rewrite Hb. cbn [mbind option_bind].
    replace (b =? 0) with false by lia. rewrite Hr. cbn [mbind option_bind].
    destruct (Z.eqb_spec r 0) as [Hr0|Hr0].
    + apply Hpre in Hr0 as [q Hq]. eexists. split; [done|]. right. exists [], q. simpl.
      split; [done|]. split; [done|]. split; [lia|]. intros. lia.
    + assert (∀ p q, b :: l = p ++ nl ++ q → ∃ p', p = b :: p' ∧ l = p' ++ nl ++ q) as Hcut.
      { intros [|x p] q Hq; [exfalso; apply Hr0, Hpre; by exists q|]. injection Hq as -> ->. eauto. }
      destruct (IH (s + 1) Hs fuel) as (r' & -> & Ho); [simpl in Hf; lia|]. exists r'. split; [done|].
      destruct Ho as [(-> & Hno)|(p & q & Hl & Hne & -> & Hmin)].
      * left. split; [done|]. right. intros p q (p' & -> & Hl)%Hcut. destruct Hno as [->|Hno]; [|by apply (Hno p' q)].
        destruct p', nl; try done. apply Hr0, Hpre. by exists [b].
      * right. exists (b :: p), q. simpl. split; [by rewrite Hl|]. split; [done|]. split; [lia|].
        intros p0 q0 (p' & -> & Hl')%Hcut. apply Hmin in Hl'. simpl. lia.
Qed.

(** *** [strtok_r] *)

(** The string is leading delimiters, a token without any, and either nothing
    or a delimiter and the remaining string. *)
Definition token_split (d l p tok rest : list Z) : Prop :=
  l = p ++ tok ++ rest ∧ Forall (.∈ d) p ∧ Forall (.∉ d) tok ∧
  (tok = [] → rest = []) ∧ match rest with [] => True | c :: _ => c ∈ d end.

(** Any string is split in this way. *)
Lemma token_split_exists d l : ∃ p tok rest, token_split d l p tok rest.
Proof.
  assert (∀ l, ∃ tok rest, l = tok ++ rest ∧ Forall (.∉ d) tok ∧
    match rest with [] => True | c :: _ => c ∈ d end) as Htok.
  { clear l. induction l as [|b l (tok & rest & -> & Ht & Hr)]; [by exists [], []|].
    destruct (decide (b ∈ d)); [by exists [], (b :: tok ++ rest)|].
    exists (b :: tok), rest. split; [done|]. split; [by constructor|done]. }
  induction l as [|b l (p & tok & rest & -> & Hp & Ht & Hn & Hr)]; [by exists [], [], []|].
  destruct (decide (b ∈ d)).
  - exists (b :: p), tok, rest. split; [done|]. split; [by constructor|]. auto.
  - destruct (Htok (b :: p ++ tok ++ rest)) as (tok' & rest' & Heq & Ht' & Hr').
    exists [], tok', rest'. split; [done|]. split; [constructor|]. split; [done|]. split; [|done].
    intros ->. simpl in Heq. subst rest'. done.
Qed.

(** At the start of a token a delimiter moves the start; later it ends the
    token. *)
Lemma delim_loop_spec m c delim d start tend : bytes_at m delim d →
  0 <= start <= tend → tend + 1 < 2 ^ ptr_bits →
  delim_loop m c delim (Z.of_nat (length d)) start tend =
  Some (if decide (c ∈ d) then if start =? tend then (start + 1, false) else (start, true)
        else (start, false)).
Proof.
  intros Hd Hst Hfit. unfold delim_loop. rewrite Nat2Z.id.
  enough (∀ d ok i, bytes_at m (delim + i) d →
    for_loop (length d) i (λ j '(start, ok),
      d ← m !! (delim + j);
      if c =? d then
        if usize (tend - start) =? 0 then Some (inr (usize (start + 1), ok))
        else Some (inl (start, true))
      else Some (inl (start, ok))) (start, ok) =
    Some (if decide (c ∈ d) then if start =? tend then inr (start + 1, ok) else inl (start, true)
          else inl (start, ok))) as Hgen.
  { rewrite Hgen by (by rewrite Z.add_0_r). cbn [mbind option_bind].
    destruct (decide (c ∈ d)); [|done]. by destruct (start =? tend). }
  clear d Hd. induction d as [|y d IH]; intros ok i Hd.
  { rewrite decide_False by apply not_elem_of_nil. done. }
  apply bytes_at_cons in Hd as [Hy Hd]. rewrite <- Z.add_assoc in Hd.
  change (for_loop (length (y :: d)) i) with (for_loop (S:=Z * bool) (R:=Z * bool) (S (length d)) i).
  unfold for_loop at 1. fold (@for_loop (Z * bool) (Z * bool)). rewrite Hy. cbn [mbind option_bind].
  rewrite (usize_small (tend - start)), (usize_small (start + 1)) by lia.
  destruct (Z.eqb_spec c y) as [->|Hne].
  - rewrite (decide_True (P:=y ∈ y :: d)) by apply list_elem_of_here.
    destruct (Z.eqb_spec (tend - start) 0), (Z.eqb_spec start tend); try lia; [done|].
    rewrite (IH true (i + 1) Hd). destruct (decide (y ∈ d)); [|done].
    by destruct (Z.eqb_spec start tend).
  - rewrite (IH ok (i + 1) Hd).
    destruct (decide (c ∈ d)) as [Hin|Hin], (decide (c ∈ y :: d)) as [Hin'|Hin']; try done.
    + by exfalso; apply Hin'; apply list_elem_of_further.
    + apply elem_of_cons in Hin' as [?|?]; done.
Qed.

(** The scan: [start] is past the leading delimiters and [end] at the end of
    the token. *)
Lemma token_scan_spec m str delim d l p tok rest : cstr m str l → cstr m delim d →
  token_split d l p tok rest → Z.of_nat (length l) + 1 < 2 ^ ptr_bits →
  ∃ r, for_loop (length l) 0 (λ i '(start, tend),
      c ← m !! (str + i);
      '(start, ok) ← delim_loop m c delim (Z.of_nat (length d)) start tend;
      if ok : bool then Some (inr (start, tend)) else Some (inl (start, usize (tend + 1)))) (0, 0) = Some r ∧
    match r with inl s => s | inr s => s end =
      (Z.of_nat (length p), Z.of_nat (length p + length tok)).
Proof.
  intros Hs [Hd _] (Hl & Hp & Ht & Hnil & Hrest) Hfit.
  apply bytes_at_app in Hd as [Hd _].
  assert (length l = (length p + length tok + length rest)%nat) as Hlen.
  { rewrite Hl, !length_app. lia. }
  destruct (for_loop_total (λ i '(start, tend), tend = i ∧ start = Z.min i (Z.of_nat (length p)) ∧
      i <= Z.of_nat (length p + length tok))
    (λ '(start, tend), start = Z.of_nat (length p) ∧ tend = Z.of_nat (length p + length tok))
    (λ i '(start, tend),
      c ← m !! (str + i);
      '(start, ok) ← delim_loop m c delim (Z.of_nat (length d)) start tend;
      if ok : bool then Some (inr (start, tend)) else Some (inl (start, usize (tend + 1))))
    (length l) 0 (0, 0)) as (r & -> & Hr).
  - lia.
  - intros i [start tend] Hi (-> & -> & Hle).
    destruct (cstr_get m str l i Hs) as (c & -> & _ & Hc); [lia|]. cbn [mbind option_bind].
    destruct Hc as [Hc _]; [lia|]. rewrite zget_lookup in Hc by lia.
    rewrite (delim_loop_spec m c delim d) by (done || lia). cbn [mbind option_bind].
    rewrite Hl in Hc. destruct (decide (i < Z.of_nat (length p))) as [H1|H1].
    { rewrite lookup_app_l in Hc by lia.
      rewrite decide_True by (by eapply Forall_lookup_1 in Hp). 
      destruct (Z.eqb_spec (i `min` Z.of_nat (length p)) i); [|lia]. rewrite usize_small by lia. lia. }
    rewrite lookup_app_r in Hc by lia. destruct (decide (i < Z.of_nat (length p + length tok))) as [H2|H2].
    { rewrite lookup_app_l in Hc by lia.
      rewrite decide_False by (by eapply Forall_lookup_1 in Ht). rewrite usize_small by lia. lia. }
    rewrite lookup_app_r in Hc by lia.
    replace (Z.to_nat i - length p - length tok)%nat with 0%nat in Hc by lia.
    destruct rest as [|c' rest]; [done|]. injection Hc as ->. rewrite decide_True by done.
    destruct tok as [|t tok]; [by specialize (Hnil eq_refl)|]. simpl length in *.
    destruct (Z.eqb_spec (i `min` Z.of_nat (length p)) i); [lia|]. lia.
  - exists r. split; [done|]. destruct r as [[start tend]|[start tend]].
    + destruct Hr as (-> & -> & Hle). f_equal; lia.
    + by destruct Hr as [-> ->].
Qed.

Lemma cstr_app_r m s l1 l2 : cstr m s (l1 ++ l2) → cstr m (s + Z.of_nat (length l1)) l2.
Proof.
  intros [Hb [_ Hl]%Forall_app]. split; [|done]. rewrite <- app_assoc in Hb.
  by apply bytes_at_app in Hb as [_ ?].
Qed.

(** Cutting a string at a position leaves the part before it. *)
Lemma cstr_cut m s l1 l2 : cstr m s (l1 ++ l2) → cstr (<[s + Z.of_nat (length l1) := 0]> m) s l1.
Proof.
  intros [Hb [Hl _]%Forall_app]. split; [|done]. rewrite <- app_assoc in Hb.
  apply bytes_at_app in Hb as [Hb _]. apply bytes_at_app. split.
  - intros i Hi. rewrite lookup_insert_ne by lia. by apply Hb.
  - intros i Hi. simpl in Hi. replace i with 0 by lia. rewrite Z.add_0_r, lookup_insert_eq. done.
Qed.
Lemma cstr_insert_lt m s l a v : a < s → cstr m s l → cstr (<[a := v]> m) s l.
Proof.
  intros Ha [Hb Hl]. split; [|done]. intros i Hi. rewrite lookup_insert_ne by lia. by apply Hb.
Qed.

(** [str] is the string itself, or NULL and the string is the saved one. *)
Lemma strtok_r_spec m str delim saveptr s d l p tok rest :
  (str ≠ 0 ∧ s = str ∨ str = 0 ∧ saveptr = s) → cstr m s l → cstr m delim d →
  token_split d l p tok rest →
  Z.of_nat (length l) + 1 < 2 ^ ptr_bits → Z.of_nat (length d) < 2 ^ ptr_bits →
  let tend := s + Z.of_nat (length p + length tok) in
  strtok_r str delim (Some saveptr) m =
  Some (if decide (tok = []) then (0, Some saveptr, m)
        else (s + Z.of_nat (length p), Some (if decide (rest = []) then tend else tend + 1),
              <[tend := 0]> m)).
Proof.
  intros Hstr Hs Hd Hsplit Hfit Hfitd tend. unfold strtok_r.
  rewrite bool_decide_eq_false_2, andb_false_r by done.
  assert ((if str =? 0 then default 0 (Some saveptr) else str) = s) as ->.
  { destruct (Z.eqb_spec str 0); simpl; lia. }
  unfold strlen. rewrite (strlen_spec m s l Hs), (strlen_spec m delim d Hd) by lia.
  cbn [mbind option_bind]. rewrite Nat2Z.id.
  destruct (token_scan_spec m s delim d l p tok rest Hs Hd Hsplit Hfit) as (r & -> & Hr).
  cbn [mbind option_bind]. rewrite Hr. clear r Hr. destruct Hsplit as (-> & _ & _ & Hnil & Hrest).
  pose proof (cstr_app_r m s p (tok ++ rest) Hs) as Hs1.
  destruct tok as [|t tok].
  { rewrite (Hnil eq_refl) in Hs1. apply cstr_nil in Hs1. rewrite Hs1. done. }
  simpl app in Hs1. apply cstr_cons in Hs1 as (Ht & Htr & Htail). rewrite Ht. cbn [mbind option_bind].
  replace (t =? 0) with false by lia. simpl length.
  destruct (Z.eqb_spec (Z.of_nat (length p + S (length tok))) 0); [lia|]. simpl in tend. fold tend.
  apply cstr_app_r in Htail.
  replace (s + Z.of_nat (length p) + 1 + Z.of_nat (length tok)) with tend in Htail by lia.
  destruct rest as [|c rest].
  - apply cstr_nil in Htail. rewrite Htail. cbn [mbind option_bind]. rewrite mset_mapped by done. done.
  - apply cstr_cons in Htail as (Hc & Hcr & _). rewrite Hc. cbn [mbind option_bind].
    replace (c =? 0) with false by lia. rewrite mset_mapped by done. done.
Qed.
End str_spec.

(** ** Properties *)

Section properties.
Context `{Platform}.

(** The copies of the library write exactly their destination: [memmove]
    copies whatever the overlap, [memcpy] in 32 bit chunks copies like a loop
    over bytes unless the destination starts inside the source, and so does the
    boot loader's [memmove]. *)
Theorem libc_block_copies m dest src n : mem_ok m → 0 <= n < 2 ^ 31 →
  mapped m dest n → mapped m src n →
  ∃ m', (∀ x, m' !! x = if decide (dest <= x < dest + n) then m !! (src + (x - dest)) else m !! x) ∧
    memmove dest src n m = Some (dest, m') ∧ BootMem.memmove dest src n m = Some (dest, m') ∧
    (dest <= src ∨ src + n <= dest → memcpy dest src n m = Some (dest, m')).
Proof.
  intros Hok Hn Hd Hs. destruct (memmove_libc_spec dest src n m Hok Hn Hd Hs) as (m' & Hm & Hc).
  exists m'. split; [exact Hc|]. split; [done|]. split.
  - destruct (BootMem.boot_memmove_spec dest src n m Hn Hd Hs) as (m2 & -> & Hc2).
    by rewrite (filled_eq _ _ _ _ _ _ Hc Hc2).
  - intros Hov. destruct (memcpy_chunks_spec dest src n m Hok Hov Hn Hd Hs) as (m2 & -> & Hc2).
    by rewrite (filled_eq _ _ _ _ _ _ Hc Hc2).
Qed.

(** The string copies: [strcpy] leaves the source string at the destination
    and [strcat] the concatenation, both without touching any other byte, and
    [strncpy] writes exactly [n] bytes, zeros after the string. The destination
    must not start inside the string that is copied. *)
Theorem libc_string_copies m dest src ld ls n : cstr m dest ld → cstr m src ls → 0 <= n →
  Z.of_nat (length ld + length ls) < 2 ^ ptr_bits →
  mapped m dest (Z.of_nat (length ld + length ls) + 1 + n) →
  dest + Z.of_nat (length ld) <= src ∨ src + Z.of_nat (length ls) < dest →
  (∃ m', strcpy dest src m = Some (dest, m') ∧ cstr m' dest ls ∧
    ∀ x, ¬ (dest <= x <= dest + Z.of_nat (length ls)) → m' !! x = m !! x) ∧
  (∃ m', strcat dest src m = Some (dest, m') ∧ cstr m' dest (ld ++ ls) ∧
    ∀ x, ¬ (dest + Z.of_nat (length ld) <= x <= dest + Z.of_nat (length ld + length ls)) →
      m' !! x = m !! x) ∧
  (∃ m', strncpy dest src n m = Some (dest, m') ∧
    (∀ i, 0 <= i < n → m' !! (dest + i) = if decide (i < Z.of_nat (length ls)) then ls.[i] else Some 0) ∧
    ∀ x, ¬ (dest <= x < dest + n) → m' !! x = m !! x).
Proof.
  intros Hld Hls Hn Hfit Hd Hov. split; [|split].
  - destruct (strcpy_spec m dest src ls Hls) as (m' & -> & Hc);
      [eapply mapped_sub; [exact Hd|lia|lia]|lia|].
    exists m'. split; [done|]. split; [by eapply copied_cstr|]. intros x Hx. by rewrite Hc, decide_False by lia.
  - destruct (strcat_spec m dest src ld ls Hld Hls Hfit) as (m' & -> & Hc);
      [eapply mapped_sub; [exact Hd|lia|lia]|lia|].
    exists m'. split; [done|]. split; [by eapply strcat_cstr|]. intros x Hx. by rewrite Hc, decide_False by lia.
  - destruct (strncpy_spec m dest src ls n Hls Hn) as (m' & -> & Hf);
      [eapply mapped_sub; [exact Hd|lia|lia]|lia|].
    exists m'. split; [done|]. split; [|intros x Hx; by rewrite Hf, decide_False by lia].
    intros i Hi. rewrite Hf, decide_True by lia. replace (dest + i - dest) with i by lia.
    case_decide; [|done]. destruct (cstr_get m src ls i Hls) as (b & -> & _ & Hb); [lia|].
    by destruct Hb as [-> _].
Qed.

(** The searches stay inside the strings and find what they look for:
    [strchr] the first and [strrchr] the last occurrence of a character,
    [memchr] the first byte of a block, and [strstr] the first place where the
    needle stands (except in an empty string, where it finds nothing, not even
    an empty needle). *)
Theorem libc_searches m s needle l nl c : cstr m s l → cstr m needle nl →
  Z.of_nat (length nl) < 2 ^ 31 → 0 < c < 256 →
  (∃ r, strchr m s (char_val c) = Some r ∧ first_at c s (l ++ [0]) r) ∧
  (∃ r, strrchr m s (char_val c) = Some r ∧
    ((c ∉ l) ∧ r = 0 ∨ ∃ p q, l = p ++ c :: q ∧ (c ∉ q) ∧ r = s + Z.of_nat (length p))) ∧
  (∃ r, memchr m s c (Z.of_nat (length (l ++ [0]))) = Some r ∧ first_at c s (l ++ [0]) r) ∧
  (∃ r, strstr m s needle = Some r ∧ occurrence s l nl r).
Proof.
  intros Hs Hnl Hlt Hc. split; [apply strchr_spec; [done|lia]|]. split; [by apply strrchr_spec|].
  split; [apply memchr_spec; [lia|by destruct Hs]|]. by apply strstr_spec.
Qed.

(** One step of the tokenizer, on the string given or the one saved: any
    string is leading delimiters, a token and what is left, and the step answers
    NULL if there is no token; otherwise it returns the token, which it
    terminates, and saves the string after the delimiter. Repeating it therefore
    yields all the tokens. *)
Theorem libc_strtok_splits m str delim saveptr s l d :
  (str ≠ 0 ∧ s = str ∨ str = 0 ∧ saveptr = s) → cstr m s l → cstr m delim d →
  Z.of_nat (length l) + 1 < 2 ^ ptr_bits → Z.of_nat (length d) < 2 ^ ptr_bits →
  ∃ p tok rest, token_split d l p tok rest ∧
    (tok = [] → strtok_r str delim (Some saveptr) m = Some (0, Some saveptr, m)) ∧
    (tok ≠ [] → ∃ saved m', strtok_r str delim (Some saveptr) m =
        Some (s + Z.of_nat (length p), Some saved, m') ∧
      cstr m' (s + Z.of_nat (length p)) tok ∧ cstr m' saved (tail rest) ∧
      m' = <[s + Z.of_nat (length p + length tok) := 0]> m).
Proof.
  intros Hstr Hs Hd Hfit Hfitd. destruct (token_split_exists d l) as (p & tok & rest & Hsp).
  exists p, tok, rest. split; [done|].
  pose proof (strtok_r_spec m str delim saveptr s d l p tok rest Hstr Hs Hd Hsp Hfit Hfitd) as Hr.
  split; intros Htok; [by rewrite Hr, decide_True by done|].
  rewrite Hr, decide_False by done. destruct Hsp as (-> & _ & _ & _ & _).
  pose proof (cstr_app_r m s p _ Hs) as Hs1. pose proof (cstr_cut _ _ _ _ Hs1) as Hcut.
  replace (s + Z.of_nat (length p) + Z.of_nat (length tok)) with (s + Z.of_nat (length p + length tok))
    in Hcut by lia.
  eexists _, _. split; [done|]. split; [done|]. split; [|done].
  apply cstr_app_r in Hs1.
  replace (s + Z.of_nat (length p) + Z.of_nat (length tok)) with (s + Z.of_nat (length p + length tok))
    in Hs1 by lia.
  destruct rest as [|c rest]; cbn [decide tail].
  - rewrite decide_True by done. apply cstr_nil. apply lookup_insert_eq.
  - rewrite decide_False by done. apply cstr_cons in Hs1 as (_ & _ & Hs1).
    apply cstr_insert_lt; [lia|done].
Qed.
End properties.

Lemma example_page_ok : mem_ok example_page.
Proof.
  assert (map_Forall (λ _ b, 0 <= b < 256) example_page) as Hall; [|intros a b Hab; by apply (Hall a)].
  apply (bool_decide_unpack _). vm_compute. exact I.
Qed.

Lemma libc_block_copies_witness : ∃ m',
  @memmove x86 0x1002 0x1000 50 example_page = Some (0x1002, m') ∧ m' !! 0x1003 = Some 98.
Proof.
  destruct (@libc_block_copies x86 example_page 0x1002 0x1000 50 example_page_ok) as (m' & Hm' & H1 & _);
    [lia|apply example_page_mapped; lia|apply example_page_mapped; lia|].
  exists m'. split; [exact H1|]. rewrite Hm'. reflexivity.
Defined.

Lemma libc_string_copies_witness : ∃ m',
  @strcat x86 0x1003 0x1000 example_page = Some (0x1003, m') ∧ cstr m' 0x1003 [97; 98; 97; 98].
Proof.
  destruct example_page_cstr as [H1 H2].
  destruct (@libc_string_copies x86 example_page 0x1003 0x1000 [97; 98] [97; 98] 4 H2 H1)
    as (_ & (m' & Hm' & Hc & _) & _);
    [lia|reflexivity|apply example_page_mapped; simpl; lia|simpl; lia|].
  exists m'. split; [exact Hm'|exact Hc].
Defined.

Lemma libc_searches_witness : ∃ r,
  @strstr x86 example_page 0x1000 0x1003 = Some r ∧ occurrence 0x1000 [97; 98] [97; 98] r.
Proof.
  destruct example_page_cstr as [H1 H2].
  destruct (@libc_searches x86 example_page 0x1000 0x1003 [97; 98] [97; 98] 98 H1 H2) as (_ & _ & _ & Hr);
    [reflexivity|lia|exact Hr].
Defined.

Lemma libc_strtok_splits_witness : ∃ p tok rest, token_split [98] [97; 98] p tok rest ∧
  (tok ≠ [] → ∃ saved m', @strtok_r x86 0x1000 0x1004 (Some 0) example_page =
    Some (0x1000 + Z.of_nat (length p), Some saved, m')).
Proof.
  destruct example_page_cstr as [H1 H2]. apply cstr_cons in H2 as (_ & _ & H2).
  destruct (@libc_strtok_splits x86 example_page 0x1000 0x1004 0 0x1000 [97; 98] [98]) as
    (p & tok & rest & Hsp & _ & Ht); [left; split; [discriminate|reflexivity]|exact H1|exact H2|reflexivity|reflexivity|].
  exists p, tok, rest. split; [exact Hsp|]. intros Htok. destruct (Ht Htok) as (saved & m' & Hm' & _).
  by exists saved, m'.
Defined.

(** The first token of ["ab"] with the delimiter ["b"] is ["a"]. *)
Example strtok_first : (λ r, r.1) <$> @strtok_r x86 0x1000 0x1004 (Some 0) example_page = Some (0x1000, Some 0x1002).
Proof. vm_compute. reflexivity. Qed.

(** The empty string contains the empty string, but is not searched. *)
Example strstr_empty : let m : mem := list_to_map [(16, 0)] in @strstr x86 m 16 16 = Some 0.
Proof. vm_compute. reflexivity. Qed.
