(* ===== verification/LibcMalloc.v ===== *)
(** * LibcMalloc: the allocator of the C library

    [libs/libc/malloc/malloc.c] and [slab.c]. The headers of the chunks are a map
    from their addresses; the bytes that users have of a chunk are not part of the
    state, since the allocator does not look at them. [mmap] is a parameter: what it
    answers for a size, by the areas that are mapped already. *)
From stdpp Require Import gmap.
From S2P Require Import Prelude Alloc.

Record malloc_header_t := { size : Z; flags : Z; next : Z; prev : Z }.
(** [memory] with its [allocated_blocks] entries, the lists of the slab allocator,
    and the areas that [mmap] has given. *)
Record heap := { headers : gmap Z malloc_header_t; memory : list Z; free_blocks : list Z; areas : list (Z * Z) }.

Definition with_headers (st : heap) (hs : gmap Z malloc_header_t) : heap :=
  {| headers := hs; memory := memory st; free_blocks := free_blocks st; areas := areas st |}.
Definition with_free_blocks (st : heap) (l : list Z) : heap :=
  {| headers := headers st; memory := memory st; free_blocks := l; areas := areas st |}.

Definition set_size (v : Z) (h : malloc_header_t) := {| size := v; flags := flags h; next := next h; prev := prev h |}.
Definition put_flags (v : Z) (h : malloc_header_t) := {| size := size h; flags := v; next := next h; prev := prev h |}.
Definition set_next (v : Z) (h : malloc_header_t) := {| size := size h; flags := flags h; next := v; prev := prev h |}.
Definition set_prev (v : Z) (h : malloc_header_t) := {| size := size h; flags := flags h; next := next h; prev := v |}.

(** An assignment to a header; there must be one. *)
Definition assign (hs : gmap Z malloc_header_t) (a : Z) (f : malloc_header_t → malloc_header_t) : option (gmap Z malloc_header_t) :=
  h ← hs !! a; Some (<[a := f h]> hs).

Definition MALLOC_DEFAULT_BLOCK_SIZE : Z := 4096.
Definition MALLOC_MAX_ALLOCATED_BLOCKS : Z := 256.
Definition FLAG_ALLOCATED : Z := 1.
Definition FLAG_SLAB : Z := 2.
Definition ALIGNMENT : Z := 4.
Definition DEVIDE_SPACE_BOUNDARY : Z := 32.

Definition block_has_flags (h : malloc_header_t) (f : Z) : bool := Z.land (flags h) f =? f.
Definition block_is_free (h : malloc_header_t) : bool := negb (block_has_flags h FLAG_ALLOCATED).
Definition block_is_slab (h : malloc_header_t) : bool := block_has_flags h FLAG_SLAB.
Definition block_rem_flags (f : Z) (h : malloc_header_t) : malloc_header_t :=
  put_flags (Z.land (flags h) (u32 (Z.lnot f))) h.

Section malloc.
Context `{Target} (mmap : list (Z * Z) → Z → option Z).
Implicit Types (st : heap) (h : malloc_header_t) (hs : gmap Z malloc_header_t).

(** Four words, the second one of 32 bits. *)
Definition sizeof_malloc_header : Z := if decide (ptr_bits = 32) then 16 else 32.

(** A walk over headers meets each at most once. *)
Definition header_fuel hs : nat := S (stdpp.base.size hs).

(** *** The slab allocator *)

(** A chunk of slabs is cut up. *)
Definition carve_body (sz : Z) (s : gmap Z malloc_header_t * Z * Z * Z) :
    option (gmap Z malloc_header_t * Z * Z * Z + gmap Z malloc_header_t * Z) :=
  let '(hs, raw_area, passed, prev_header) := s in
  let sizeof_block_with_header := sz + sizeof_malloc_header in
  if passed + sizeof_block_with_header <=? MALLOC_DEFAULT_BLOCK_SIZE then
    let hs := <[raw_area := {| size := sz; flags := Z.lor FLAG_SLAB FLAG_ALLOCATED; next := 0; prev := prev_header |}]> hs in
    Some (inl (hs, raw_area + sizeof_block_with_header, passed + sizeof_block_with_header, raw_area))
  else Some (inr (hs, prev_header)).
(** From the last one back; [next_header] stays NULL. *)
Definition chain_body (s : gmap Z malloc_header_t * Z) : option (gmap Z malloc_header_t * Z + gmap Z malloc_header_t) :=
  let '(hs, prev_header) := s in
  if prev_header =? 0 then Some (inr hs) else
  hs ← assign hs prev_header (set_next 0);
  h ← hs !! prev_header; Some (inl (hs, prev h)).

Definition prepare_free_blocks st (sz : Z) : option heap :=
  let block_id := Z.shiftr sz 4 in
  match mmap (areas st) MALLOC_DEFAULT_BLOCK_SIZE with
  | None => l ← (free_blocks st).[block_id <- 0]; Some (with_free_blocks st l)
  | Some ret =>
      l ← (free_blocks st).[block_id <- ret];
      '(hs, prev_header) ← loop (S (Z.to_nat MALLOC_DEFAULT_BLOCK_SIZE)) (carve_body sz) (headers st, ret, 0, 0);
      hs ← loop (header_fuel hs) chain_body (hs, prev_header);
      Some {| headers := hs; memory := memory st; free_blocks := l; areas := areas st ++ [(ret, MALLOC_DEFAULT_BLOCK_SIZE)] |}
  end.

Definition _slab_init st : option heap :=
  st ← prepare_free_blocks st 16; st ← prepare_free_blocks st 32; st ← prepare_free_blocks st 48; prepare_free_blocks st 64.

Definition slab_alloc st (sz : Z) : option (Z * heap) :=
  if 64 <? sz then Some (0, st) else
  let block_id := Z.shiftr (usize (sz + 15)) 4 in
  zone ← (free_blocks st).[block_id];
  if zone =? 0 then Some (0, st) else
  h ← headers st !! zone;
  l ← (free_blocks st).[block_id <- next h];
  Some (zone + sizeof_malloc_header, with_free_blocks st l).

Definition slab_free st (mem_header : Z) : option heap :=
  h ← headers st !! mem_header;
  nx ← (free_blocks st).[Z.shiftr (size h) 4];
  l ← (free_blocks st).[Z.shiftr (size h) 4 <- mem_header];
  let hs := <[mem_header := set_prev 0 (set_next nx h)]> (headers st) in
  hs ← (if nx =? 0 then Some hs else assign hs nx (set_prev mem_header));
  Some (with_free_blocks (with_headers st hs) l).

(** *** The chunks *)

(** The error, and the heap; more than 256 blocks fail the assertion. *)
Definition _alloc_new_block st (sz : Z) : outcome (Z * heap) :=
  if MALLOC_MAX_ALLOCATED_BLOCKS <=? Z.of_nat (length (memory st)) then SystemStop else
  let sz := usize (sz + sizeof_malloc_header) in
  let allocated_sz := if MALLOC_DEFAULT_BLOCK_SIZE <? sz then sz else MALLOC_DEFAULT_BLOCK_SIZE in
  match mmap (areas st) allocated_sz with
  | None => Returned (-1, st)
  | Some ret => Returned (0, {|
      headers := <[ret := {| size := usize (allocated_sz - sizeof_malloc_header); flags := 0; next := 0; prev := 0 |}]> (headers st);
      memory := memory st ++ [ret]; free_blocks := free_blocks st; areas := areas st ++ [(ret, allocated_sz)] |})
  end.

Definition _malloc_need_to_divide_space h (alloc_size : Z) : bool := usize (alloc_size + DEVIDE_SPACE_BOUNDARY) <=? size h.
Definition _malloc_can_fit_allocation h (alloc_size : Z) : bool :=
  usize (alloc_size + if _malloc_need_to_divide_space h alloc_size then sizeof_malloc_header else 0) <=? size h.
Definition fits h (sz : Z) : bool := block_is_free h && _malloc_can_fit_allocation h sz.

(** The first chunk of the block at [cur] that fits. *)
Definition scan_body hs (sz cur : Z) : option (Z + option Z) :=
  h ← hs !! cur;
  if negb (next h =? 0) && negb (fits h sz) then Some (inl (next h))
  else Some (inr (if fits h sz then Some cur else None)).
Definition scan_block hs (cur sz : Z) : option (option Z) := loop (header_fuel hs) (scan_body hs sz) cur.

Definition find_first_fit st (sz : Z) : option (option Z) :=
  r ← for_loop (length (memory st)) 0 (λ i (_ : unit),
    cur_block ← (memory st).[i];
    r ← scan_block (headers st) cur_block sz;
    Some (match r with Some c => inr c | None => inl () end)) ();
  Some (match r with inr c => Some c | inl _ => None end).

(** A field of the header that [first_fit->next] points to; there need not have
    been one before. *)
Definition blank : malloc_header_t := {| size := 0; flags := 0; next := 0; prev := 0 |}.
Definition at_next hs (first_fit : Z) (f : malloc_header_t → malloc_header_t) : option (gmap Z malloc_header_t) :=
  h ← hs !! first_fit;
  if next h =? 0 then None else Some (<[next h := f (default blank (hs !! next h))]> hs).

(** The chunk is taken, and what it has too much becomes a chunk of its own. *)
Definition take_chunk hs (first_fit sz : Z) : option (gmap Z malloc_header_t) :=
  h ← hs !! first_fit;
  let copy_next := next h in
  let copy_size := size h in
  let taken := put_flags (Z.lor (flags h) FLAG_ALLOCATED) h in
  if _malloc_need_to_divide_space h sz then
    let hs := <[first_fit := set_next (usize (first_fit + sz + sizeof_malloc_header)) (set_size sz taken)]> hs in
    hs ← at_next hs first_fit (put_flags 0);
    hs ← at_next hs first_fit (set_size (usize (copy_size - sz - sizeof_malloc_header)));
    hs ← at_next hs first_fit (set_next copy_next);
    hs ← at_next hs first_fit (set_prev first_fit);
    h ← hs !! first_fit; n ← hs !! next h;
    if next n =? 0 then Some hs else assign hs (next n) (set_prev (next h))
  else Some (<[first_fit := taken]> hs).

(** The mask is one of 32 bits. *)
Definition round_size (sz : Z) : Z := Z.land (usize (sz + (ALIGNMENT - 1))) (u32 (Z.lnot (ALIGNMENT - 1))).

(** [malloc] behind the slabs. *)
Definition malloc_chunk st (sz : Z) : option (outcome (Z * heap)) :=
  first_fit ← find_first_fit st sz;
  '(err, st, first_fit) ←! (match first_fit with
    | Some c => Some (Returned (0, st, c))
    | None =>
        match _alloc_new_block st sz with
        | SystemStop => Some SystemStop
        | Returned (err, st) => Some (Returned (err, st, default 0 (last (memory st))))
        end
    end);
  if negb (err =? 0) then Some (Returned (0, st)) else
  hs ← take_chunk (headers st) first_fit sz;
  Some (Returned (first_fit + sizeof_malloc_header, with_headers st hs)).

Definition malloc st (sz : Z) : option (outcome (Z * heap)) :=
  if sz =? 0 then Some (Returned (0, st)) else
  let sz := round_size sz in
  '(res, st) ← slab_alloc st sz;
  if negb (res =? 0) then Some (Returned (res, st)) else malloc_chunk st sz.

(** Back to the first of the free chunks before. *)
Definition glue_start_body hs (cur : Z) : option (Z + Z) :=
  h ← hs !! cur;
  if prev h =? 0 then Some (inr cur) else
  p ← hs !! prev h; Some (if block_is_free p then inl (prev h) else inr cur).
Definition glue_start hs (mem_header : Z) : option Z := loop (header_fuel hs) (glue_start_body hs) mem_header.

(** The free chunks behind are taken in. *)
Definition glue_body (mem_header : Z) hs : option (gmap Z malloc_header_t + gmap Z malloc_header_t) :=
  h ← hs !! mem_header;
  if next h =? 0 then Some (inr hs) else
  n ← hs !! next h;
  if negb (block_is_free n) then Some (inr hs) else
  let hs := <[mem_header := set_size (usize (size h + (size n + sizeof_malloc_header))) h]> hs in
  hs ← (if next n =? 0 then Some hs else assign hs (next n) (set_prev mem_header));
  hs ← assign hs mem_header (set_next (next n)); Some (inl hs).
Definition glue hs (mem_header : Z) : option (gmap Z malloc_header_t) := loop (header_fuel hs) (glue_body mem_header) hs.

Definition free st (mem : Z) : option heap :=
  if mem =? 0 then Some st else
  let mem_header := usize (mem - sizeof_malloc_header) in
  h ← headers st !! mem_header;
  if block_is_slab h then slab_free st mem_header else
  hs ← assign (headers st) mem_header (block_rem_flags FLAG_ALLOCATED);
  mem_header ← glue_start hs mem_header;
  hs ← glue hs mem_header;
  Some (with_headers st hs).

(** The pointer, and the number of its bytes that are cleared. *)
Definition calloc st (num size : Z) : option (outcome (Z * Z * heap)) :=
  '(mem, st) ←! malloc st (usize (num * size));
  Some (Returned (mem, if mem =? 0 then 0 else usize (num * size), st)).

(** The pointer, and the number of bytes that are copied to it from [ptr]. *)
Definition realloc st (ptr new_size : Z) : option (outcome (Z * Z * heap)) :=
  if ptr =? 0 then '(p, st) ←! malloc st new_size; Some (Returned (p, 0, st)) else
  h ← headers st !! usize (ptr - sizeof_malloc_header);
  let old_size := size h in
  if old_size =? new_size then Some (Returned (ptr, 0, st)) else
  '(new_area, st) ←! malloc st new_size;
  if new_area =? 0 then Some (Returned (0, 0, st)) else
  st ← free st ptr;
  Some (Returned (new_area, if new_size <? old_size then new_size else old_size, st)).
End malloc.

(** ** The chunks of a block *)

(** A chunk begins with its header. *)
Record chunk := { c_addr : Z; c_size : Z; c_used : bool }.

Lemma chunk_eq c d : c_addr c = c_addr d → c_size c = c_size d → c_used c = c_used d → c = d.
Proof. destruct c, d. cbn. by intros -> -> ->. Qed.

Definition head_addr (l : list chunk) (d : Z) : Z := match l with c :: _ => c_addr c | [] => d end.
Definition last_addr (l : list chunk) (d : Z) : Z := match last l with Some c => c_addr c | None => d end.
Definition header_of (pv : Z) (c : chunk) (nx : Z) : malloc_header_t :=
  {| size := c_size c; flags := if c_used c then 1 else 0; next := nx; prev := pv |}.

(** The headers of [l] form a doubly linked list between [pv] and [nx]. *)
Fixpoint linked (hs : gmap Z malloc_header_t) (pv : Z) (l : list chunk) (nx : Z) : Prop :=
  match l with
  | [] => True
  | c :: l => hs !! c_addr c = Some (header_of pv c (head_addr l nx)) ∧ linked hs (c_addr c) l nx
  end.

Lemma linked_app hs pv l1 l2 nx :
  linked hs pv (l1 ++ l2) nx ↔ linked hs pv l1 (head_addr l2 nx) ∧ linked hs (last_addr l1 pv) l2 nx.
Proof.
  revert pv. induction l1 as [|c l1 IH]; intros pv; cbn [app linked]; [tauto|]. rewrite IH.
  replace (head_addr (l1 ++ l2) nx) with (head_addr l1 (head_addr l2 nx)) by by destruct l1.
  replace (last_addr (c :: l1) pv) with (last_addr l1 (c_addr c)); [tauto|]. symmetry. unfold last_addr. rewrite last_cons.
  by destruct (last l1).
Qed.

Lemma linked_same hs hs' pv l nx : (∀ c, c ∈ l → hs' !! c_addr c = hs !! c_addr c) → linked hs pv l nx → linked hs' pv l nx.
Proof.
  revert pv. induction l as [|c l IH]; intros pv Hs; [done|]. cbn [linked]. intros [Hc Hl]. split.
  - rewrite Hs; [done|left].
  - apply IH; [|done]. intros d Hd. apply Hs. by right.
Qed.

Lemma linked_keys hs pv l nx c : linked hs pv l nx → c ∈ l → ∃ h, hs !! c_addr c = Some h.
Proof.
  revert pv. induction l as [|d l IH]; intros pv; [by intros _ ?%not_elem_of_nil|]. intros [Hd Hl] [->|Hc]%elem_of_cons; [eauto|].
  by apply (IH (c_addr d)).
Qed.

Definition c_free (c : chunk) : Prop := c_used c = false.
Lemma header_free pv c nx : block_is_free (header_of pv c nx) = negb (c_used c).
Proof. by destruct c as [? ? []]. Qed.

Section chunks.
Context `{Target}.
Abbreviation HD := sizeof_malloc_header.

Lemma header_size : 16 <= HD <= 32 ∧ HD mod 4 = 0.
Proof. unfold sizeof_malloc_header. by case_decide. Qed.

Definition c_end (c : chunk) : Z := c_addr c + HD + c_size c.
Definition inside (c : chunk) (i : Z) : bool := bool_decide (c_addr c <= i < c_end c).

(** The chunks fill [a .. fin) one after the other. *)
Fixpoint tiled (a : Z) (l : list chunk) (fin : Z) : Prop :=
  match l with
  | [] => a = fin
  | c :: l => c_addr c = a ∧ 0 <= c_size c ∧ c_size c mod 4 = 0 ∧ tiled (c_end c) l fin
  end.

Lemma tiled_app a l1 l2 fin : tiled a (l1 ++ l2) fin ↔ ∃ b, tiled a l1 b ∧ tiled b l2 fin.
Proof.
  revert a. induction l1 as [|c l1 IH]; intros a; cbn [app tiled].
  - split; [by exists a|]. by intros (b & -> & ?).
  - rewrite IH. split.
    + intros (Ea & Hs & Hm & b & H1 & H2). by exists b.
    + intros (b & (Ea & Hs & Hm & H1) & H2). repeat (split; [done|]). by exists b.
Qed.

Lemma tiled_le a l fin : tiled a l fin → a <= fin.
Proof.
  revert a. induction l as [|c l IH]; intros a; cbn [tiled]; [lia|]. intros (<- & ? & _ & Hl). apply IH in Hl.
  pose proof header_size. unfold c_end in *. lia.
Qed.
Lemma tiled_in a l fin c : tiled a l fin → c ∈ l → a <= c_addr c ∧ c_end c <= fin ∧ 0 <= c_size c ∧ c_size c mod 4 = 0.
Proof.
  revert a. induction l as [|d l IH]; intros a; [by intros _ ?%not_elem_of_nil|]. cbn [tiled].
  intros (<- & ? & ? & Hl) [->|Hc]%elem_of_cons; pose proof header_size.
  - split; [lia|]. split; [by apply tiled_le in Hl|done].
  - destruct (IH _ Hl Hc) as (? & ? & ? & ?). unfold c_end in *. split; [lia|done].
Qed.
Lemma tiled_aligned a l fin c : tiled a l fin → a mod 4 = 0 → c ∈ l → c_addr c mod 4 = 0.
Proof.
  revert a. induction l as [|d l IH]; intros a; [by intros _ _ ?%not_elem_of_nil|]. cbn [tiled].
  intros (<- & ? & Hs & Hl) Ha [->|Hc]%elem_of_cons; [done|]. apply (IH _ Hl); [|done]. destruct header_size as [_ Hh].
  unfold c_end. rewrite Z.add_mod, (Z.add_mod (c_addr d)), Ha, Hh, Hs by lia. done.
Qed.

(** The chunks before one end before it, and the others begin behind it. *)
Lemma tiled_split a l1 c l2 fin : tiled a (l1 ++ c :: l2) fin →
  tiled a l1 (c_addr c) ∧ 0 <= c_size c ∧ c_size c mod 4 = 0 ∧ tiled (c_end c) l2 fin.
Proof. intros (b & H1 & <- & H2)%tiled_app. done. Qed.

Lemma tiled_nodup a l fin : tiled a l fin → NoDup (map c_addr l).
Proof.
  revert a. induction l as [|c l IH]; intros a; cbn [tiled map]; [constructor|]. intros (<- & ? & _ & Hl). constructor; [|by eapply IH].
  intros (d & Hd & Hdl)%list_elem_of_fmap. destruct (tiled_in _ _ _ _ Hl Hdl) as (? & _). pose proof header_size. unfold c_end in *. lia.
Qed.

(** No two neighbours are both free. *)
Fixpoint coalesced (l : list chunk) : Prop :=
  match l with
  | c :: ((d :: _) as l) => (c_used c = true ∨ c_used d = true) ∧ coalesced l
  | _ => True
  end.
Definition first_used (l : list chunk) : Prop := match l with c :: _ => c_used c = true | [] => True end.
Definition last_used (l : list chunk) : Prop := match last l with Some c => c_used c = true | None => True end.

Lemma coalesced_cons c l : coalesced (c :: l) ↔ (c_used c = true ∨ first_used l) ∧ coalesced l.
Proof. destruct l; cbn; tauto. Qed.

Lemma coalesced_app l1 l2 : coalesced (l1 ++ l2) ↔ coalesced l1 ∧ coalesced l2 ∧ (last_used l1 ∨ first_used l2).
Proof.
  induction l1 as [|c l1 IH]; [cbn; tauto|]. change ((c :: l1) ++ l2) with (c :: (l1 ++ l2)). rewrite !coalesced_cons, IH.
  destruct l1 as [|d l1]; [|cbn; tauto]. cbn. tauto.
Qed.
Lemma first_used_dec l : first_used l ∨ ∃ c l', l = c :: l' ∧ c_free c.
Proof. destruct l as [|c l]; [by left|]. cbn. destruct (c_used c) eqn:E; [by left|]. right. by exists c, l. Qed.

(** The free chunk of a coalesced block has no free neighbours. *)
Lemma coalesced_alone l1 c l2 : coalesced (l1 ++ c :: l2) → c_free c → last_used l1 ∧ first_used l2 ∧ coalesced l1 ∧ coalesced l2.
Proof.
  intros (H1 & H2 & H3)%coalesced_app Hc. apply coalesced_cons in H2 as [H2 H4]. cbn in H3. unfold c_free in Hc. rewrite Hc in *.
  split; [by destruct H3|]. by destruct H2.
Qed.

(** ** The operations on one block *)

(** The chunks that are met from [a] on. *)
Fixpoint follow (hs : gmap Z malloc_header_t) (fuel : nat) (a : Z) : list chunk :=
  match fuel with
  | O => []
  | S fuel =>
      if a =? 0 then [] else
      match hs !! a with
      | None => []
      | Some h => {| c_addr := a; c_size := size h; c_used := negb (block_is_free h) |} :: follow hs fuel (next h)
      end
  end.

Lemma follow_linked hs pv l fuel a fin : linked hs pv l 0 → tiled a l fin → 0 < a → (length l <= fuel)%nat →
  follow hs fuel (head_addr l 0) = l.
Proof.
  revert pv a fuel. induction l as [|c l IH]; intros pv a fuel Hl Ht Ha Hf; [by destruct fuel|].
  destruct fuel as [|fuel]; [cbn in Hf; lia|]. destruct Hl as [Hc Hl], Ht as (<- & Hs & _ & Ht). cbn [follow head_addr].
  destruct (Z.eqb_spec (c_addr c) 0); [lia|]. rewrite Hc. cbn [next header_of]. rewrite header_free, negb_involutive.
  rewrite (IH (c_addr c) (c_end c) fuel Hl Ht); [by destruct c| |cbn in Hf; lia]. pose proof header_size. unfold c_end. lia.
Qed.

Lemma nodup_fuel {A} (hs : gmap Z A) l : NoDup l → (∀ a, a ∈ l → ∃ h, hs !! a = Some h) → (length l <= stdpp.base.size hs)%nat.
Proof.
  intros Hn Hin. rewrite <- (size_list_to_set (C := gset Z) l), <- size_dom by done. apply subseteq_size.
  intros a Ha%elem_of_list_to_set. apply elem_of_dom. destruct (Hin a Ha) as [h Hh]. by exists h.
Qed.

Lemma linked_fuel hs pv l nx a fin : linked hs pv l nx → tiled a l fin → (length l < header_fuel hs)%nat.
Proof.
  intros Hl Ht. unfold header_fuel. assert (length (map c_addr l) <= stdpp.base.size hs)%nat as Hle; [|rewrite length_map in Hle; lia].
  apply nodup_fuel; [by eapply tiled_nodup|]. intros a' (c & -> & Hc)%list_elem_of_fmap. by eapply linked_keys.
Qed.

(** The chunk of a header. *)
Definition c_fits (sz : Z) (c : chunk) : bool :=
  negb (c_used c) && (usize (sz + if usize (sz + DEVIDE_SPACE_BOUNDARY) <=? c_size c then HD else 0) <=? c_size c).
Lemma header_fits pv c nx sz : fits (header_of pv c nx) sz = c_fits sz c.
Proof. unfold fits. by rewrite header_free. Qed.

(** The first chunk that fits, with the ones before it. *)
Lemma scan_spec hs sz l : ∀ pv a fin fuel, linked hs pv l 0 → tiled a l fin → 0 < a → l ≠ [] → (length l <= fuel)%nat →
  ∃ r, loop fuel (scan_body hs sz) (head_addr l 0) = Some r ∧
    match r with
    | None => Forall (λ c, c_fits sz c = false) l
    | Some cur => ∃ l1 c l2, l = l1 ++ c :: l2 ∧ c_addr c = cur ∧ c_fits sz c = true ∧ Forall (λ c, c_fits sz c = false) l1
    end.
Proof.
  induction l as [|c l IH]; intros pv a fin fuel Hl Ht Ha Hne Hf; [done|].
  destruct fuel as [|fuel]; [cbn in Hf; lia|]. destruct Hl as [Hc Hl], Ht as (<- & Hs & _ & Ht). cbn [head_addr].
  rewrite loop_S. unfold scan_body at 1. rewrite Hc. bind_red. rewrite header_fits. cbn [next header_of].
  destruct (c_fits sz c) eqn:Ef; cbn [negb].
  { rewrite andb_false_r. eexists. split; [done|]. by exists [], c, l. }
  rewrite andb_true_r. destruct l as [|d l]; cbn [head_addr].
  { change (negb (0 =? 0)) with false. cbv match. eexists. split; [done|]. by repeat constructor. }
  pose proof header_size. assert (c_addr d = c_end c) as Ed by apply Ht. unfold c_end in Ed.
  destruct (Z.eqb_spec (c_addr d) 0); [lia|]. cbn [negb].
  destruct (IH (c_addr c) (c_end c) fin fuel Hl Ht) as (r & Er & Hr); [unfold c_end; lia|done|cbn in *; lia|].
  exists r. split; [exact Er|]. destruct r as [cur|]; [|by constructor].
  destruct Hr as (l1 & e & l2 & -> & Hr). exists (c :: l1), e, l2. split; [done|]. destruct Hr as (? & ? & ?).
  split; [done|]. split; [done|]. by constructor.
Qed.

(** *** Taking a chunk *)

(** A chunk that is taken for [sz] bytes, and what is left of it. *)
Definition taken_chunks (sz : Z) (c : chunk) : list chunk :=
  if sz + DEVIDE_SPACE_BOUNDARY <=? c_size c then
    [{| c_addr := c_addr c; c_size := sz; c_used := true |};
     {| c_addr := c_addr c + HD + sz; c_size := c_size c - sz - HD; c_used := false |}]
  else [{| c_addr := c_addr c; c_size := c_size c; c_used := true |}].

(** *** Changes to the headers of an area *)

(** Outside of [a .. fin) all is as it was, and inside there are no new slabs. *)
Definition quiet (a fin : Z) (hs hs' : gmap Z malloc_header_t) : Prop :=
  (∀ x, ¬ (a <= x < fin) → hs' !! x = hs !! x) ∧
  ∀ x h, a <= x < fin → hs' !! x = Some h → block_is_slab h = true → ∃ h0, hs !! x = Some h0 ∧ block_is_slab h0 = true.

Lemma quiet_refl a fin hs : quiet a fin hs hs.
Proof. split; [done|]. eauto. Qed.
Lemma quiet_trans a fin hs hs1 hs2 : quiet a fin hs hs1 → quiet a fin hs1 hs2 → quiet a fin hs hs2.
Proof.
  intros [H1 G1] [H2 G2]. split.
  - intros x Hx. by rewrite H2, H1.
  - intros x h Hx Hh Hs. destruct (G2 x h Hx Hh Hs) as (h0 & Hh0 & Hs0). eauto.
Qed.
Lemma quiet_wider a b fin e hs hs' : quiet b e hs hs' → a <= b → e <= fin → quiet a fin hs hs'.
Proof.
  intros [H1 G1] Hab Hef. split.
  - intros x Hx. apply H1. lia.
  - intros x h Hx Hh Hs. destruct (decide (b <= x < e)) as [Hi|Hi]; [eauto|]. rewrite (H1 x Hi) in Hh. eauto.
Qed.
Lemma quiet_insert a fin x h hs : a <= x < fin → block_is_slab h = false → quiet a fin hs (<[x := h]> hs).
Proof.
  intros Hx Hh. split.
  - intros y Hy. apply lookup_insert_ne. lia.
  - intros y h' Hy. destruct (decide (x = y)) as [->|Hn].
    + rewrite lookup_insert_eq. intros [= <-]. by rewrite Hh.
    + rewrite lookup_insert_ne by done. eauto.
Qed.
Lemma linked_quiet a fin b e hs hs' pv l nx : quiet a fin hs hs' → tiled b l e → e <= a ∨ fin <= b →
  linked hs pv l nx → linked hs' pv l nx.
Proof.
  intros [Hq _] Ht Hd. apply linked_same. intros c Hc. apply Hq. destruct (tiled_in _ _ _ _ Ht Hc) as (? & ? & ? & _).
  pose proof header_size. unfold c_end in *. lia.
Qed.

Lemma header_not_slab pv c nx : block_is_slab (header_of pv c nx) = false.
Proof. by destruct c as [? ? []]. Qed.

(** The chunk behind is told of the one before. *)
Lemma relink hs p pv l b fin : linked hs pv l 0 → tiled b l fin → 0 < b →
  ∃ hs', (if head_addr l 0 =? 0 then Some hs else assign hs (head_addr l 0) (set_prev p)) = Some hs' ∧
    linked hs' p l 0 ∧ quiet b fin hs hs'.
Proof.
  intros Hl Ht Hb. destruct l as [|d l]; [exists hs; split; [done|]; split; [done|apply quiet_refl]|].
  destruct Hl as [Hd Hl], Ht as (<- & Hs & _ & Ht). cbn [head_addr]. destruct (Z.eqb_spec (c_addr d) 0); [lia|].
  unfold assign. rewrite Hd. bind_red. pose proof (tiled_le _ _ _ Ht). pose proof header_size. unfold c_end in *.
  eexists. split; [done|]. split; [split|].
  - by rewrite lookup_insert_eq.
  - apply (linked_quiet (c_addr d) (c_end d) (c_end d) fin hs); [|done|lia|done].
    apply quiet_insert; [unfold c_end; lia|apply header_not_slab].
  - apply quiet_insert; [lia|apply header_not_slab].
Qed.

Lemma taken_tiled sz c fin l2 : 0 <= sz → sz mod 4 = 0 → 0 <= c_size c → c_size c mod 4 = 0 → tiled (c_end c) l2 fin →
  tiled (c_addr c) (taken_chunks sz c ++ l2) fin.
Proof.
  intros Hs Hm Hcs Hcm Ht. pose proof header_size as [? Hh]. unfold taken_chunks, DEVIDE_SPACE_BOUNDARY.
  destruct (Z.leb_spec (sz + 32) (c_size c)); cbn [app tiled c_addr c_size c_end]; [|by repeat (split; [done|])].
  split; [done|]. split; [done|]. split; [done|]. unfold c_end. cbn [c_addr c_size]. split; [lia|]. split; [lia|]. split.
  - rewrite (Zminus_mod (c_size c - sz)), (Zminus_mod (c_size c)), Hcm, Hm, Hh. done.
  - by replace (c_addr c + HD + sz + HD + (c_size c - sz - HD)) with (c_end c) by (unfold c_end; lia).
Qed.

Lemma at_next_is hs a hc f : hs !! a = Some hc → next hc ≠ 0 → at_next hs a f = Some (<[next hc := f (default blank (hs !! next hc))]> hs).
Proof. intros Ha Hn. unfold at_next. rewrite Ha. bind_red. by destruct (Z.eqb_spec (next hc) 0). Qed.

(** The four assignments make the header of the rest. *)
Lemma rest_made {B} hs a hc sz nx (g : gmap Z malloc_header_t → option B) : next hc ≠ 0 → next hc ≠ a →
  (hs ← at_next (<[a := hc]> hs) a (put_flags 0); hs ← at_next hs a (set_size sz); hs ← at_next hs a (set_next nx); hs ← at_next hs a (set_prev a); g hs) =
  g (<[next hc := {| size := sz; flags := 0; next := nx; prev := a |}]> (<[a := hc]> hs)).
Proof.
  intros H0 Ha. assert (∀ h, (<[next hc := h]> (<[a := hc]> hs)) !! a = Some hc) as Hl by (intros h; by rewrite lookup_insert_ne, lookup_insert_eq).
  rewrite (at_next_is _ a hc) by first [done|apply lookup_insert_eq]. bind_red.
  do 3 (rewrite (at_next_is _ a hc) by done; bind_red; rewrite lookup_insert_eq, insert_insert_eq). done.
Qed.

Lemma take_spec hs l1 c l2 a fin sz : linked hs 0 (l1 ++ c :: l2) 0 → tiled a (l1 ++ c :: l2) fin → 0 < a → fin < 2 ^ (ptr_bits - 1) →
  c_free c → 0 <= sz < 2 ^ 31 + 4 →
  ∃ hs', take_chunk hs (c_addr c) sz = Some hs' ∧ linked hs' 0 (l1 ++ taken_chunks sz c ++ l2) 0 ∧ quiet a fin hs hs'.
Proof.
  intros Hl Ht Ha Hfin Hc Hsz. pose proof header_size as [HH _].
  assert (2 ^ 31 <= 2 ^ (ptr_bits - 1) ∧ 2 ^ ptr_bits = 2 * 2 ^ (ptr_bits - 1)) as [Hp Hp2].
  { by destruct ptr_bits_cases as [-> | ->]. }
  pose proof (tiled_split _ _ _ _ _ Ht) as (Ht1 & Hcs & _ & Ht2). pose proof (tiled_le _ _ _ Ht1). pose proof (tiled_le _ _ _ Ht2) as Hend.
  apply linked_app in Hl as [Hl1 [Hlc Hl2]]. cbn [head_addr] in Hl1.
  assert (c_addr c < c_end c) as Hce by (unfold c_end; lia). assert (c_end c = c_addr c + HD + c_size c) as Ee by done.
  unfold take_chunk. rewrite Hlc. bind_red. unfold _malloc_need_to_divide_space, taken_chunks. cbn [size header_of].
  unfold DEVIDE_SPACE_BOUNDARY. rewrite (usize_small (sz + 32)) by lia.
  assert (Z.lor (flags (header_of (last_addr l1 0) c (head_addr l2 0))) FLAG_ALLOCATED = 1) as ->.
  { cbn. unfold c_free in Hc. by rewrite Hc. }
  destruct (Z.leb_spec (sz + 32) (c_size c)).
  - cbn [next header_of set_next set_size put_flags size flags prev].
    rewrite (usize_small (c_addr c + sz + HD)), (usize_small (c_size c - sz - HD)) by lia.
    replace (c_addr c + sz + HD) with (c_addr c + HD + sz) by lia. set (rest := c_addr c + HD + sz).
    match goal with |- context [<[c_addr c := ?g]> hs] => set (hc := g) end.
    rewrite (rest_made hs (c_addr c) hc) by (change (next hc) with (c_addr c + HD + sz); lia). change (next hc) with rest.
    match goal with |- context [<[rest := ?h]> (<[_ := hc]> hs)] => set (hr := h) end.
    rewrite (lookup_insert_ne _ rest), lookup_insert_eq by lia. bind_red. change (next hc) with rest. rewrite lookup_insert_eq. bind_red. cbn [hr next].
    assert (quiet (c_addr c) (c_end c) hs (<[rest := hr]> (<[c_addr c := hc]> hs))) as Hq.
    { eapply quiet_trans; apply quiet_insert; [lia|done|lia|done]. }
    destruct (relink (<[rest := hr]> (<[c_addr c := hc]> hs)) rest (c_addr c) l2 (c_end c) fin) as (hs2 & -> & Hl2' & Hq2);
      [eapply linked_quiet; [exact Hq|exact Ht2|lia|done]|done|lia|].
    exists hs2. split; [done|]. split; [|by eapply quiet_trans; (eapply quiet_wider; [eassumption|lia..])].
    apply linked_app. cbn [app linked head_addr c_addr c_size c_used]. split; [|split; [|split; [|exact Hl2']]].
    + eapply linked_quiet; [exact Hq2|exact Ht1|lia|]. by eapply linked_quiet; [exact Hq|exact Ht1|lia|].
    + rewrite (proj1 Hq2) by lia. by rewrite lookup_insert_ne, lookup_insert_eq by lia.
    + rewrite (proj1 Hq2) by lia. by rewrite lookup_insert_eq.
  - assert (quiet (c_addr c) (c_end c) hs (<[c_addr c := put_flags 1 (header_of (last_addr l1 0) c (head_addr l2 0))]> hs)) as Hq.
    { apply quiet_insert; [lia|done]. }
    eexists. split; [done|]. split; [|by eapply quiet_wider; [exact Hq|lia..]].
    apply linked_app. cbn [app linked head_addr c_addr c_size c_used]. split; [|split].
    + by eapply linked_quiet; [exact Hq|exact Ht1|lia|].
    + by rewrite lookup_insert_eq.
    + by eapply linked_quiet; [exact Hq|exact Ht2|lia|].
Qed.

(** *** Gluing *)

Definition glue1 (m d : chunk) : chunk := {| c_addr := c_addr m; c_size := c_size m + (c_size d + HD); c_used := c_used m |}.
Definition glued (m : chunk) (k : list chunk) : chunk := foldl glue1 m k.

Lemma glued_addr m k : c_addr (glued m k) = c_addr m ∧ c_used (glued m k) = c_used m.
Proof. revert m. induction k as [|d k IH]; intros m; [done|]. apply (IH (glue1 m d)). Qed.

Lemma glued_tiled m k l fin : tiled (c_addr m) (m :: k ++ l) fin → tiled (c_addr m) (glued m k :: l) fin.
Proof.
  revert m. induction k as [|d k IH]; intros m; [done|]. intros (_ & Hs & Hm & Hd & Hds & Hdm & Ht).
  apply (IH (glue1 m d)). pose proof header_size as [? Hh]. cbn [tiled]. split; [done|]. cbn [glue1 c_size]. split; [lia|]. split.
  - rewrite Z.add_mod, (Z.add_mod (c_size d)), Hm, Hdm, Hh by lia. done.
  - replace (c_end (glue1 m d)) with (c_end d) by (unfold c_end in *; cbn [glue1 c_size c_addr]; lia). done.
Qed.

Lemma glued_tiled_app a l1 m k l fin : tiled a (l1 ++ m :: k ++ l) fin → tiled a (l1 ++ glued m k :: l) fin.
Proof.
  intros (b & H1 & H2)%tiled_app. apply tiled_app. exists b. split; [done|]. pose proof (proj1 H2) as <-. by apply glued_tiled.
Qed.

(** One turn of the loop of [free]. *)
Lemma glue_turn hs l1 m d l2 a fin : linked hs 0 (l1 ++ m :: d :: l2) 0 → tiled a (l1 ++ m :: d :: l2) fin → 0 < a →
  fin < 2 ^ (ptr_bits - 1) → c_free d →
  ∃ hs', glue_body (c_addr m) hs = Some (inl hs') ∧ linked hs' 0 (l1 ++ glue1 m d :: l2) 0 ∧ quiet a fin hs hs'.
Proof.
  intros Hl Ht Ha Hfin Hd. pose proof header_size as [HH _].
  assert (2 ^ ptr_bits = 2 * 2 ^ (ptr_bits - 1)) as Hp by by destruct ptr_bits_cases as [-> | ->].
  destruct (tiled_split _ _ _ _ _ Ht) as (Ht1 & Hms & _ & Hed & Hds & _ & Ht2).
  pose proof (tiled_le _ _ _ Ht1). pose proof (tiled_le _ _ _ Ht2). assert (c_end m = c_addr m + HD + c_size m) as Em by done.
  assert (c_end d = c_addr d + HD + c_size d) as Ed by done. apply linked_app in Hl as (Hl1 & Hm & Hhd & Hl2). cbn [head_addr] in *.
  unfold glue_body. rewrite Hm. bind_red. cbn [next header_of]. destruct (Z.eqb_spec (c_addr d) 0); [lia|]. rewrite Hhd. bind_red.
  rewrite header_free. rewrite Hd. cbn [negb next size header_of]. rewrite usize_small by lia. set (hm := set_size _ _).
  assert (quiet (c_addr m) (c_end m) hs (<[c_addr m := hm]> hs)) as Hq.
  { apply quiet_insert; [lia|]. apply (header_not_slab (last_addr l1 0) m (c_addr d)). }
  destruct (relink (<[c_addr m := hm]> hs) (c_addr m) (c_addr d) l2 (c_end d) fin) as (hs2 & -> & Hl2' & Hq2);
    [eapply linked_quiet; [exact Hq|exact Ht2|lia|done]|done|lia|]. bind_red. unfold assign.
  rewrite (proj1 Hq2) by lia. rewrite lookup_insert_eq. bind_red. set (hm2 := set_next _ _).
  assert (quiet (c_addr m) (c_end m) hs2 (<[c_addr m := hm2]> hs2)) as Hq3.
  { apply quiet_insert; [lia|]. apply (header_not_slab (last_addr l1 0) m (c_addr d)). }
  eexists. split; [done|]. split.
  - apply linked_app. cbn [head_addr linked glue1 c_addr]. split; [|split].
    + eapply linked_quiet; [exact Hq3|exact Ht1|lia|]. eapply linked_quiet; [exact Hq2|exact Ht1|lia|].
      by eapply linked_quiet; [exact Hq|exact Ht1|lia|].
    + by rewrite lookup_insert_eq.
    + by eapply linked_quiet; [exact Hq3|exact Ht2|lia|].
  - do 2 (eapply quiet_trans; [eapply quiet_wider; [eassumption|lia..]|]). eapply quiet_wider; [eassumption|lia..].
Qed.

Lemma glue_spec l1 a fin l2 : ∀ hs m fuel, linked hs 0 (l1 ++ m :: l2) 0 → tiled a (l1 ++ m :: l2) fin → 0 < a →
  fin < 2 ^ (ptr_bits - 1) → (length l2 < fuel)%nat →
  ∃ k l' hs', l2 = k ++ l' ∧ Forall c_free k ∧ first_used l' ∧ loop fuel (glue_body (c_addr m)) hs = Some hs' ∧
    linked hs' 0 (l1 ++ glued m k :: l') 0 ∧ quiet a fin hs hs'.
Proof.
  induction l2 as [|d l2 IH]; intros hs m fuel Hl Ht Ha Hfin Hf; (destruct fuel as [|fuel]; [lia|]).
  - exists [], [], hs. pose proof (proj2 (proj1 (linked_app _ _ _ _ _) Hl)) as [Hm _]. rewrite loop_S. unfold glue_body at 1. rewrite Hm.
    bind_red. by repeat split; try apply quiet_refl.
  - destruct (c_used d) eqn:Eu.
    + exists [], (d :: l2), hs. pose proof (proj2 (proj1 (linked_app _ _ _ _ _) Hl)) as (Hm & Hd & _). cbn [head_addr] in Hm.
      assert (0 < c_addr d).
      { destruct (tiled_in _ _ _ d Ht) as (? & _); [|lia]. apply elem_of_app. right. right. left. }
      rewrite loop_S. unfold glue_body at 1. rewrite Hm. bind_red. cbn [next header_of]. destruct (Z.eqb_spec (c_addr d) 0); [lia|].
      rewrite Hd. bind_red. rewrite header_free, Eu. by repeat split; try apply quiet_refl.
    + destruct (glue_turn _ _ _ _ _ _ _ Hl Ht Ha Hfin Eu) as (hs1 & E1 & Hl1 & Hq1).
      destruct (IH hs1 (glue1 m d) fuel Hl1) as (k & l' & hs' & -> & Hk & Hfu & Ek & Hlk & Hqk); [|done|done|cbn in Hf; lia|].
      { by apply (glued_tiled_app a l1 m [d] l2 fin). }
      exists (d :: k), l', hs'. split; [done|]. split; [by constructor|]. split; [done|]. rewrite loop_S, E1. split; [done|].
      split; [done|]. by eapply quiet_trans.
Qed.

(** The chunk where the gluing begins: the first of the free ones before. *)
Lemma glue_start_spec hs m l2 a fin l1 : ∀ k fuel, linked hs 0 (l1 ++ k ++ m :: l2) 0 → tiled a (l1 ++ k ++ m :: l2) fin → 0 < a →
  (length l1 < fuel)%nat → Forall c_free k →
  ∃ l k', l1 ++ k = l ++ k' ∧ Forall c_free k' ∧ last_used l ∧
    loop fuel (glue_start_body hs) (head_addr (k ++ [m]) 0) = Some (head_addr (k' ++ [m]) 0).
Proof.
  induction l1 as [|p l1 IH] using rev_ind; intros k fuel Hl Ht Ha Hf Hk; (destruct fuel as [|fuel]; [lia|]); rewrite loop_S; unfold glue_start_body at 1.
  - exists [], k. assert (∃ h, hs !! head_addr (k ++ [m]) 0 = Some h ∧ prev h = 0) as (h & Eh & Ep).
    { destruct k as [|c k]; cbn in Hl |- *; destruct Hl as [Hl _]; rewrite Hl; eauto. }
    rewrite Eh. bind_red. rewrite Ep. done.
  - rewrite <- (app_assoc l1) in Hl, Ht. assert (∃ h, hs !! head_addr (k ++ [m]) 0 = Some h ∧ prev h = c_addr p) as (h & Eh & Ep).
    { apply linked_app in Hl as [_ [_ Hl]]. destruct k as [|c k]; cbn in Hl |- *; destruct Hl as [Hl _]; rewrite Hl; eauto. }
    rewrite Eh. bind_red. rewrite Ep. assert (0 < c_addr p).
    { destruct (tiled_in _ _ _ p Ht) as (? & _); [|lia]. apply elem_of_app. right. left. }
    destruct (Z.eqb_spec (c_addr p) 0); [lia|]. pose proof (proj1 (proj2 (proj1 (linked_app _ _ _ _ _) Hl))) as Hp. rewrite Hp. bind_red.
    rewrite header_free. destruct (c_used p) eqn:Eu; cbn [negb].
    + exists (l1 ++ [p]), k. repeat (split; [done|]). split; [|done]. unfold last_used. by rewrite last_snoc.
    + destruct (IH (p :: k) fuel Hl Ht Ha) as (l & k' & E & Hk' & Hu & El); [rewrite length_app in Hf; cbn in Hf; lia|by constructor|].
      exists l, k'. rewrite <- (app_assoc l1). done.
Qed.

(** ** The heap *)

(** The free list of the slab allocator from [a] on. *)
Fixpoint chain (hs : gmap Z malloc_header_t) (fuel : nat) (a : Z) : list Z :=
  match fuel with
  | O => []
  | S fuel => if a =? 0 then [] else a :: match hs !! a with Some h => chain hs fuel (next h) | None => [] end
  end.
Definition slab_list (st : heap) (k : Z) : list Z := chain (headers st) (header_fuel (headers st)) (default 0 (free_blocks st).[k]).
(** A slab is in use when it is in no free list. *)
Definition slab_chunk (st : heap) (e : Z * malloc_header_t) : chunk :=
  {| c_addr := e.1; c_size := size e.2; c_used := negb (bool_decide (e.1 ∈ slab_list st (Z.shiftr (size e.2) 4))) |}.

(** Every chunk of the heap, and every slab. *)
Definition chunks (st : heap) : list chunk :=
  concat (map (follow (headers st) (header_fuel (headers st))) (memory st)) ++
  map (slab_chunk st) (List.filter (λ e, block_is_slab e.2) (map_to_list (headers st))).
Definition heap_taken (st : heap) (i : Z) : bool := existsb (λ c, c_used c && inside c i) (chunks st).

Record block := { b_addr : Z; b_size : Z; b_chunks : list chunk }.
Definition block_ok (hs : gmap Z malloc_header_t) (B : block) : Prop :=
  linked hs 0 (b_chunks B) 0 ∧ tiled (b_addr B) (b_chunks B) (b_addr B + b_size B) ∧ b_chunks B ≠ [] ∧ coalesced (b_chunks B).
Definition area (B : block) : Z * Z := (b_addr B, b_size B).
Definition h_end (a : Z) (h : malloc_header_t) : Z := a + HD + size h.

(** The slabs [l] of size [sz] are linked. *)
Fixpoint slab_linked (hs : gmap Z malloc_header_t) (sz : Z) (l : list Z) : Prop :=
  match l with
  | [] => True
  | a :: l => (∃ h, hs !! a = Some h ∧ block_is_slab h = true ∧ size h = sz ∧ next h = default 0 (head l)) ∧ slab_linked hs sz l
  end.

Record rep (st : heap) (Bs : list block) (F : Z → list Z) : Prop := {
  rep_memory : memory st = map b_addr Bs;
  rep_blocks : Forall (λ B, block_ok (headers st) B ∧ area B ∈ areas st) Bs;
  rep_nodup : NoDup (map b_addr Bs);
  rep_areas : ∀ r, r ∈ areas st → 0 < r.1 ∧ r.1 mod 4 = 0 ∧ 0 < r.2 ∧ r.1 + r.2 < 2 ^ (ptr_bits - 1);
  rep_disjoint : ∀ r r', r ∈ areas st → r' ∈ areas st → r ≠ r' → range_disjoint r r';
  rep_lists : length (free_blocks st) = 5%nat;
  rep_free : ∀ k, 0 <= k < 5 → (free_blocks st).[k] = Some (default 0 (head (F k))) ∧ slab_linked (headers st) (16 * k) (F k) ∧ NoDup (F k);
  rep_slab : ∀ a h, headers st !! a = Some h → block_is_slab h = true →
    (∃ k, 1 <= k < 5 ∧ size h = 16 * k) ∧ a mod 4 = 0 ∧
    ∃ r, r ∈ areas st ∧ r.1 <= a ∧ h_end a h <= r.1 + r.2 ∧ r ∉ map area Bs;
  rep_slabs : ∀ a h a' h', headers st !! a = Some h → block_is_slab h = true → headers st !! a' = Some h' → block_is_slab h' = true →
    a < a' → h_end a h <= a';
}.

Lemma slab_linked_in hs sz l a : slab_linked hs sz l → a ∈ l → ∃ h, hs !! a = Some h ∧ block_is_slab h = true ∧ size h = sz.
Proof.
  induction l as [|b l IH]; [by intros _ ?%not_elem_of_nil|]. intros [(h & Hh & Hs & Hz & _) Hl] [->|Ha]%elem_of_cons; eauto.
Qed.

Lemma chain_linked hs sz l fuel : slab_linked hs sz l → (∀ a, a ∈ l → a ≠ 0) → (length l <= fuel)%nat →
  chain hs fuel (default 0 (head l)) = l.
Proof.
  revert fuel. induction l as [|a l IH]; intros fuel Hl H0 Hf; [by destruct fuel|]. destruct fuel as [|fuel]; [cbn in Hf; lia|].
  destruct Hl as [(h & Hh & _ & _ & Hn) Hl]. change (default 0 (head (a :: l))) with a. cbn [chain]. destruct (Z.eqb_spec a 0) as [E|]; [by apply H0 in E; [|left]|].
  rewrite Hh, Hn. f_equal. apply IH; [done| |cbn in Hf; lia]. intros b Hb. apply H0. by right.
Qed.

Section rep.
Context {st : heap} {Bs : list block} {F : Z → list Z} (R : rep st Bs F).

Lemma rep_block B : B ∈ Bs → block_ok (headers st) B ∧ area B ∈ areas st.
Proof. pose proof (rep_blocks _ _ _ R) as HB. rewrite Forall_forall in HB. apply HB. Qed.

Lemma rep_area B : B ∈ Bs → 0 < b_addr B ∧ b_addr B mod 4 = 0 ∧ 0 < b_size B ∧ b_addr B + b_size B < 2 ^ (ptr_bits - 1).
Proof. intros [_ HB]%rep_block. apply (rep_areas _ _ _ R _ HB). Qed.

Lemma slab_pos a h : headers st !! a = Some h → block_is_slab h = true → 0 < a ∧ 16 <= size h <= 64 ∧ h_end a h < 2 ^ (ptr_bits - 1).
Proof.
  intros Ha Hs. destruct (rep_slab _ _ _ R a h Ha Hs) as ((k & Hk & Ek) & _ & r & Hr & Hra & Hre & _).
  destruct (rep_areas _ _ _ R r Hr) as (? & _ & _ & ?). split; [lia|]. split; [lia|]. lia.
Qed.

Lemma slab_list_rep k : 0 <= k < 5 → slab_list st k = F k.
Proof.
  intros Hk. destruct (rep_free _ _ _ R k Hk) as (E & Hl & Hn). unfold slab_list. rewrite E. cbn [default].
  apply (chain_linked _ (16 * k)); [done| |].
  - intros a Ha. destruct (slab_linked_in _ _ _ _ Hl Ha) as (h & Hh & Hs & _). destruct (slab_pos a h Hh Hs). lia.
  - unfold header_fuel. assert (length (F k) <= stdpp.base.size (headers st))%nat; [|lia]. apply nodup_fuel; [done|].
    intros a Ha. destruct (slab_linked_in _ _ _ _ Hl Ha) as (h & Hh & _). eauto.
Qed.

Lemma block_chunks B : B ∈ Bs → follow (headers st) (header_fuel (headers st)) (b_addr B) = b_chunks B.
Proof.
  intros HB. destruct (rep_block B HB) as [(Hl & Ht & Hne & _) _]. destruct (rep_area B HB) as (? & _).
  assert (b_addr B = head_addr (b_chunks B) 0) as -> by (destruct (b_chunks B); [done|by destruct Ht]).
  eapply follow_linked; [done..|]. apply Nat.lt_le_incl. by eapply linked_fuel.
Qed.

(** The chunks are the chunks of the blocks, and the slabs. *)
Lemma in_chunks c : c ∈ chunks st ↔ (∃ B, B ∈ Bs ∧ c ∈ b_chunks B) ∨
  ∃ h, headers st !! c_addr c = Some h ∧ block_is_slab h = true ∧ c_size c = size h ∧
    c_used c = negb (bool_decide (c_addr c ∈ F (Z.shiftr (size h) 4))).
Proof.
  unfold chunks. rewrite elem_of_app. f_equiv.
  - rewrite (rep_memory _ _ _ R), map_map, !list_elem_of_In, in_concat. split.
    + intros (l & Hl & Hc). apply in_map_iff in Hl as (B & <- & HB). rewrite <- list_elem_of_In in HB. exists B.
      rewrite block_chunks in Hc by done. split; [done|by rewrite list_elem_of_In].
    + intros (B & HB & Hc). exists (b_chunks B). split; [|by apply list_elem_of_In]. apply in_map_iff. exists B.
      split; [by apply block_chunks|by apply list_elem_of_In].
  - rewrite list_elem_of_fmap. split.
    + intros ([a h] & -> & Hin). rewrite list_elem_of_In, filter_In, <- list_elem_of_In, elem_of_map_to_list in Hin. destruct Hin as [Ha Hs].
      exists h. cbn [fst snd slab_chunk c_addr c_size c_used] in *. split; [done|]. split; [done|]. split; [done|]. rewrite slab_list_rep; [done|].
      destruct (rep_slab _ _ _ R a h Ha Hs) as ((k & Hk & ->) & _). change 16 with (2 ^ 4). rewrite Z.mul_comm, Z.shiftr_div_pow2, Z.div_mul by lia. lia.
    + intros (h & Ha & Hs & Hz & Hu). exists (c_addr c, h). split.
      * unfold slab_chunk. cbn [fst snd]. rewrite slab_list_rep; [by rewrite <- Hu, <- Hz; destruct c|].
        destruct (rep_slab _ _ _ R _ h Ha Hs) as ((k & Hk & ->) & _). change 16 with (2 ^ 4). rewrite Z.mul_comm, Z.shiftr_div_pow2, Z.div_mul by lia. lia.
      * rewrite list_elem_of_In, filter_In, <- list_elem_of_In, elem_of_map_to_list. done.
Qed.
End rep.

Lemma ranges_apart r r' : range_disjoint r r' → 0 < r.2 → 0 < r'.2 → r.1 + r.2 <= r'.1 ∨ r'.1 + r'.2 <= r.1.
Proof.
  intros Hd H1 H2. destruct (decide (r.1 + r.2 <= r'.1)); [by left|]. destruct (decide (r'.1 + r'.2 <= r.1)); [by right|].
  exfalso. apply (Hd (Z.max r.1 r'.1)); lia.
Qed.

Lemma tiled_apart a l fin c d : tiled a l fin → c ∈ l → d ∈ l → c ≠ d → c_end c <= c_addr d ∨ c_end d <= c_addr c.
Proof.
  revert a. induction l as [|e l IH]; intros a; [by intros _ ?%not_elem_of_nil|]. intros (_ & _ & _ & Ht) Hc Hd Hne.
  apply elem_of_cons in Hc as [->|Hc], Hd as [->|Hd].
  - done.
  - left. by destruct (tiled_in _ _ _ _ Ht Hd).
  - right. by destruct (tiled_in _ _ _ _ Ht Hc).
  - by eapply IH.
Qed.

Lemma quiet_same a fin hs hs' x h : (∀ x h, a <= x < fin → hs !! x = Some h → block_is_slab h = false) → quiet a fin hs hs' →
  block_is_slab h = true → hs' !! x = Some h ↔ hs !! x = Some h.
Proof.
  intros Hno [Hq Hn] Hs. destruct (decide (a <= x < fin)) as [Hi|Hi]; [|by rewrite Hq]. split; intros Hx.
  - destruct (Hn x h Hi Hx Hs) as (h0 & Hh0 & Hs0). by rewrite (Hno x h0) in Hs0.
  - by rewrite (Hno x h) in Hs.
Qed.

Section rep2.
Context {st : heap} {Bs : list block} {F : Z → list Z} (R : rep st Bs F).

Lemma area_inj B B' : B ∈ Bs → B' ∈ Bs → area B = area B' → B = B'.
Proof.
  intros HB HB' [= E _]. pose proof (rep_nodup _ _ _ R) as Hn.
  apply list_elem_of_lookup in HB as [i Hi], HB' as [j Hj]. assert (i = j) as ->; [|congruence].
  eapply (NoDup_lookup _ _ _ _ Hn); rewrite list_lookup_fmap; [by rewrite Hi|by rewrite Hj, E].
Qed.

Lemma areas_apart r r' : r ∈ areas st → r' ∈ areas st → r ≠ r' → r.1 + r.2 <= r'.1 ∨ r'.1 + r'.2 <= r.1.
Proof.
  intros Hr Hr' Hne. apply ranges_apart; [by apply (rep_disjoint _ _ _ R)|..].
  - by destruct (rep_areas _ _ _ R r Hr) as (_ & _ & ? & _).
  - by destruct (rep_areas _ _ _ R r' Hr') as (_ & _ & ? & _).
Qed.

Lemma block_bounds B c : B ∈ Bs → c ∈ b_chunks B → b_addr B <= c_addr c ∧ c_end c <= b_addr B + b_size B ∧ 0 <= c_size c.
Proof.
  intros HB Hc. destruct (rep_block R B HB) as [(_ & Ht & _) _]. destruct (tiled_in _ _ _ _ Ht Hc) as (? & ? & ? & _). done.
Qed.

(** A slab is in no block. *)
Lemma slab_block a h B : headers st !! a = Some h → block_is_slab h = true → B ∈ Bs →
  h_end a h <= b_addr B ∨ b_addr B + b_size B <= a.
Proof.
  intros Ha Hs HB. destruct (rep_slab _ _ _ R a h Ha Hs) as (_ & _ & r & Hr & Hra & Hre & Hn).
  destruct (rep_block R B HB) as [_ HA]. assert (r ≠ area B) as Hne.
  { intros ->. apply Hn. by apply list_elem_of_fmap_2. }
  destruct (areas_apart r (area B) Hr HA Hne) as [Hd|Hd]; cbn [area fst snd] in Hd; [left|right]; lia.
Qed.

Lemma chunk_bounds c : c ∈ chunks st → 0 < c_addr c ∧ c_addr c mod 4 = 0 ∧ 0 <= c_size c ∧ c_end c < 2 ^ (ptr_bits - 1).
Proof.
  intros [(B & HB & Hc)|(h & Ha & Hs & Hz & _)]%(in_chunks R).
  - destruct (rep_area R B HB) as (? & ? & ? & ?). destruct (block_bounds B c HB Hc) as (? & ? & ?). split; [lia|]. split; [|lia].
    destruct (rep_block R B HB) as [(_ & Ht & _) _]. by eapply tiled_aligned.
  - destruct (slab_pos R _ _ Ha Hs) as (? & ? & ?). destruct (rep_slab _ _ _ R _ h Ha Hs) as (_ & ? & _).
    unfold c_end, h_end in *. rewrite Hz. lia.
Qed.

Lemma chunks_apart c d : c ∈ chunks st → d ∈ chunks st → c ≠ d → c_end c <= c_addr d ∨ c_end d <= c_addr c.
Proof.
  intros [(B & HB & Hc)|(h & Ha & Hs & Hz & Hu)]%(in_chunks R) [(B' & HB' & Hd)|(h' & Ha' & Hs' & Hz' & Hu')]%(in_chunks R) Hne.
  - destruct (decide (area B = area B')) as [E|E].
    + apply area_inj in E as <-; [|done..]. destruct (rep_block R B HB) as [(_ & Ht & _) _]. by eapply tiled_apart.
    + destruct (block_bounds _ _ HB Hc) as (? & ? & _), (block_bounds _ _ HB' Hd) as (? & ? & _).
      destruct (areas_apart (area B) (area B')) as [Hx|Hx]; [by apply (rep_block R)..|done| |]; cbn [area fst snd] in Hx; lia.
  - destruct (block_bounds _ _ HB Hc) as (? & ? & _). pose proof (slab_block _ _ _ Ha' Hs' HB). unfold c_end, h_end in *. lia.
  - destruct (block_bounds _ _ HB' Hd) as (? & ? & _). pose proof (slab_block _ _ _ Ha Hs HB'). unfold c_end, h_end in *. lia.
  - destruct (Z.lt_trichotomy (c_addr c) (c_addr d)) as [Hx|[Hx|Hx]].
    + left. pose proof (rep_slabs _ _ _ R _ _ _ _ Ha Hs Ha' Hs' Hx). unfold c_end, h_end in *. lia.
    + exfalso. apply Hne. rewrite <- Hx in Ha', Hu'. rewrite Ha in Ha'. injection Ha' as <-.
      apply chunk_eq; congruence.
    + right. pose proof (rep_slabs _ _ _ R _ _ _ _ Ha' Hs' Ha Hs Hx). unfold c_end, h_end in *. lia.
Qed.

Lemma quiet_slabs B hs' a h : B ∈ Bs → quiet (b_addr B) (b_addr B + b_size B) (headers st) hs' → block_is_slab h = true →
  hs' !! a = Some h ↔ headers st !! a = Some h.
Proof.
  intros HB. apply quiet_same. intros x h0 Hx Ha. apply not_true_is_false. intros Hs.
  destruct (slab_block _ _ _ Ha Hs HB) as [Hy|Hy]; [|lia]. pose proof (slab_pos R _ _ Ha Hs). pose proof header_size. unfold h_end in *. lia.
Qed.
End rep2.

Lemma slab_linked_same hs hs' sz l : (∀ a h, block_is_slab h = true → hs !! a = Some h → hs' !! a = Some h) →
  slab_linked hs sz l → slab_linked hs' sz l.
Proof. intros Hs. induction l as [|a l IH]; [done|]. intros [(h & ? & ? & ? & ?) Hl]. split; [exists h; auto|auto]. Qed.

Lemma elem_of_middle {A} (P : A → Prop) l1 x l2 : (∃ y, y ∈ l1 ++ x :: l2 ∧ P y) ↔ P x ∨ ∃ y, y ∈ l1 ++ l2 ∧ P y.
Proof.
  split.
  - intros (y & [Hy|[->|Hy]%elem_of_cons]%elem_of_app & HP); [right|by left|right]; exists y; rewrite elem_of_app; tauto.
  - intros [HP|(y & Hy & HP)]; [exists x|exists y]; rewrite elem_of_app, elem_of_cons; [tauto|]. apply elem_of_app in Hy. tauto.
Qed.

(** *** One block changes *)

Section update.
Context {st : heap} {Bs1 Bs2 : list block} {B : block} {F : Z → list Z} (R : rep st (Bs1 ++ B :: Bs2) F).
Context {hs' : gmap Z malloc_header_t} {l : list chunk}.
Let B' := {| b_addr := b_addr B; b_size := b_size B; b_chunks := l |}.
Context (Hq : quiet (b_addr B) (b_addr B + b_size B) (headers st) hs') (HB' : block_ok hs' B').

Lemma update_in : B ∈ Bs1 ++ B :: Bs2.
Proof. apply elem_of_app. right. left. Qed.
Lemma update_slabs a h : block_is_slab h = true → hs' !! a = Some h ↔ headers st !! a = Some h.
Proof. apply (quiet_slabs R B hs' a h update_in Hq). Qed.

(** The other blocks lie elsewhere. *)
Lemma update_other B0 : B0 ∈ Bs1 ++ Bs2 →
  B0 ∈ Bs1 ++ B :: Bs2 ∧ (b_addr B0 + b_size B0 <= b_addr B ∨ b_addr B + b_size B <= b_addr B0).
Proof.
  intros HB0. assert (B0 ∈ Bs1 ++ B :: Bs2) as HB0' by (rewrite elem_of_app, elem_of_cons; apply elem_of_app in HB0; tauto).
  split; [done|]. apply (areas_apart R (area B0) (area B)); [by apply (rep_block R)|by apply (rep_block R), update_in|].
  intros E%(area_inj R); [|done|apply update_in]. subst B0. pose proof (rep_nodup _ _ _ R) as Hn.
  apply (NoDup_fmap_1 b_addr), NoDup_app in Hn as (_ & Hx & [Hy _]%NoDup_cons).
  apply elem_of_app in HB0 as [HB0|HB0]; [|done]. apply (Hx B HB0). left.
Qed.

Lemma rep_updated : rep (with_headers st hs') (Bs1 ++ B' :: Bs2) F.
Proof.
  assert (map area (Bs1 ++ B' :: Bs2) = map area (Bs1 ++ B :: Bs2)) as Ear by by rewrite !map_app.
  assert (map b_addr (Bs1 ++ B' :: Bs2) = map b_addr (Bs1 ++ B :: Bs2)) as Ead by by rewrite !map_app.
  pose proof R as [Rm Rb Rn Ra Rd Rl Rf Rs Rss]. split; cbn [with_headers memory areas free_blocks headers]; try done.
  - by rewrite Ead.
  - apply Forall_forall. intros B0 HB0. rewrite Forall_forall in Rb.
    apply elem_of_app in HB0 as [HB0|[->|HB0]%elem_of_cons]; [|split; [done|apply (Rb B update_in)]|].
    all: destruct (update_other B0) as [HB0' Hap]; [rewrite elem_of_app; tauto|]; destruct (Rb B0 HB0') as [(Hl & Ht & Hne & Hco) HA].
    all: split; [|done]; split; [|done]; eapply linked_quiet; [exact Hq|exact Ht|done|done].
  - by rewrite Ead.
  - intros k Hk. destruct (Rf k Hk) as (? & Hl & ?). split; [done|]. split; [|done]. eapply slab_linked_same; [|done].
    intros a h Hs. by apply update_slabs.
  - intros a h Ha Hs. rewrite Ear. apply Rs; [by apply update_slabs|done].
  - intros a h a' h' Ha Hs Ha' Hs'. apply update_slabs in Ha, Ha'; [|done..]. eauto.
Qed.

(** The chunks that are not of this block. *)
Definition other_chunk (c : chunk) : Prop := (∃ B0, B0 ∈ Bs1 ++ Bs2 ∧ c ∈ b_chunks B0) ∨
  ∃ h, headers st !! c_addr c = Some h ∧ block_is_slab h = true ∧ c_size c = size h ∧
    c_used c = negb (bool_decide (c_addr c ∈ F (Z.shiftr (size h) 4))).

Lemma other_chunk_not c : other_chunk c → c ∉ b_chunks B.
Proof.
  intros HO Hc. destruct (block_bounds R B c update_in Hc) as (Hc1 & Hc2 & Hc3). pose proof header_size.
  destruct HO as [(B0 & HB0 & Hc0)|(h & Ha & Hs & Hz & _)].
  - destruct (update_other B0 HB0) as [HB0' Hx]. destruct (block_bounds R B0 c HB0' Hc0) as (? & ? & _). unfold c_end in *. lia.
  - pose proof (slab_block R _ _ _ Ha Hs update_in). unfold c_end, h_end in *. lia.
Qed.
Lemma chunks_before c : c ∈ chunks st ↔ c ∈ b_chunks B ∨ other_chunk c.
Proof. rewrite (in_chunks R), elem_of_middle. unfold other_chunk. tauto. Qed.
Lemma chunks_after c : c ∈ chunks (with_headers st hs') ↔ c ∈ l ∨ other_chunk c.
Proof.
  rewrite (in_chunks rep_updated), elem_of_middle. unfold other_chunk.
  assert ((∃ h, headers (with_headers st hs') !! c_addr c = Some h ∧ block_is_slab h = true ∧ c_size c = size h ∧
      c_used c = negb (bool_decide (c_addr c ∈ F (Z.shiftr (size h) 4)))) ↔
    ∃ h, headers st !! c_addr c = Some h ∧ block_is_slab h = true ∧ c_size c = size h ∧
      c_used c = negb (bool_decide (c_addr c ∈ F (Z.shiftr (size h) 4)))) as <-.
  { by split; intros (h & Ha & Hs & ?); exists h; (split; [by apply update_slabs|]). }
  cbn [b_chunks B']. tauto.
Qed.
End update.

Lemma rep_update st Bs1 B Bs2 F hs' l : rep st (Bs1 ++ B :: Bs2) F →
  let B' := {| b_addr := b_addr B; b_size := b_size B; b_chunks := l |} in
  quiet (b_addr B) (b_addr B + b_size B) (headers st) hs' → block_ok hs' B' →
  rep (with_headers st hs') (Bs1 ++ B' :: Bs2) F ∧
  ∃ O : chunk → Prop, (∀ c, O c → c ∉ b_chunks B) ∧ (∀ c, c ∈ chunks st ↔ c ∈ b_chunks B ∨ O c) ∧
    ∀ c, c ∈ chunks (with_headers st hs') ↔ c ∈ l ∨ O c.
Proof.
  intros R B' Hq HB'. split; [by apply rep_updated|]. exists (other_chunk (st := st) (Bs1 := Bs1) (Bs2 := Bs2) (F := F)).
  split; [apply (other_chunk_not R)|]. split; [apply (chunks_before R)|]. apply (chunks_after R Hq HB').
Qed.

(** ** malloc *)

Definition apart (c d : chunk) : Prop := c_end c <= c_addr d ∨ c_end d <= c_addr c.
(** [c] has been taken: the chunks in use are the same ones and [c]. *)
Definition gains (st : heap) (c : chunk) (st' : heap) : Prop :=
  c_used c = true ∧ (∀ d, d ∈ chunks st → c_used d = true → apart c d) ∧
  ∀ d, c_used d = true → d ∈ chunks st' ↔ d = c ∨ d ∈ chunks st.

Lemma taken_coalesced sz l1 c l2 : coalesced (l1 ++ c :: l2) → c_free c → coalesced (l1 ++ taken_chunks sz c ++ l2).
Proof.
  intros Hc Hf. destruct (coalesced_alone _ _ _ Hc Hf) as (Hu & Hfu & H1 & H2). apply coalesced_app. split; [done|]. split; [|by left].
  unfold taken_chunks. destruct (_ <=? _); cbn [app].
  - apply coalesced_cons. split; [by left|]. apply coalesced_cons. split; [by right|done].
  - apply coalesced_cons. split; [by left|done].
Qed.

Lemma take_rep st Bs F B l1 c l2 sz : rep st Bs F → B ∈ Bs → b_chunks B = l1 ++ c :: l2 → c_free c → 0 <= sz < 2 ^ 31 + 4 → sz mod 4 = 0 →
  sz <= c_size c →
  ∃ hs' Bs' c', take_chunk (headers st) (c_addr c) sz = Some hs' ∧ rep (with_headers st hs') Bs' F ∧
    c_addr c' = c_addr c ∧ sz <= c_size c' ∧ gains st c' (with_headers st hs').
Proof.
  intros R HB El Hf Hsz Hm Hle. pose proof HB as HBs. apply list_elem_of_split in HBs as (Bs1 & Bs2 & ->).
  destruct (rep_block R B HB) as [(Hl & Ht & _ & Hco) _]. destruct (rep_area R B HB) as (Hpos & _ & _ & Hfin). rewrite El in Hl, Ht, Hco.
  destruct (take_spec _ _ _ _ _ _ sz Hl Ht Hpos Hfin Hf Hsz) as (hs' & Etk & Hl' & Hq).
  destruct (rep_update st Bs1 B Bs2 F hs' (l1 ++ taken_chunks sz c ++ l2) R Hq) as (R' & O & HO1 & HO & HO').
  { split; [done|]. cbn [b_addr b_size b_chunks]. split; [|split].
    - apply tiled_split in Ht as (Ht1 & Hcs & Hcm & Ht2). apply tiled_app. exists (c_addr c). split; [done|]. apply taken_tiled; [lia|done..].
    - unfold taken_chunks. by destruct l1, (_ <=? _).
    - by apply taken_coalesced. }
  set (c' := {| c_addr := c_addr c; c_size := if sz + DEVIDE_SPACE_BOUNDARY <=? c_size c then sz else c_size c; c_used := true |}).
  exists hs', (Bs1 ++ {| b_addr := b_addr B; b_size := b_size B; b_chunks := l1 ++ taken_chunks sz c ++ l2 |} :: Bs2), c'.
  split; [done|]. split; [done|]. split; [done|]. assert (sz <= c_size c' <= c_size c) as Hc'.
  { cbn. unfold DEVIDE_SPACE_BOUNDARY. destruct (Z.leb_spec (sz + 32) (c_size c)); lia. }
  split; [lia|]. split; [done|]. split.
  - intros d Hd Hu. assert (c ∈ chunks st) as Hc by (apply HO; left; rewrite El; apply elem_of_app; right; left).
    assert (c ≠ d) as Hne by (intros ->; unfold c_free in Hf; congruence).
    destruct (chunks_apart R c d Hc Hd Hne) as [Hx|Hx]; [left|right]; unfold c_end in *; cbn [c' c_addr] in *; lia.
  - intros d Hu. rewrite HO, HO', El, !elem_of_app, elem_of_cons. assert (d ∈ taken_chunks sz c ↔ d = c') as ->.
    { unfold taken_chunks. cbn. destruct (_ <=? _); rewrite !elem_of_cons, elem_of_nil; [|tauto]. split; [|tauto].
      intros [->|[->|Hno]]; [done|done|by destruct Hno]. }
    assert (d ≠ c) by (intros ->; unfold c_free in Hf; congruence). tauto.
Qed.

(** *** The first fit *)

Lemma find_fit_spec st Bs F sz : rep st Bs F → ∃ r, find_first_fit st sz = Some r ∧
  match r with
  | None => ∀ B, B ∈ Bs → Forall (λ c, c_fits sz c = false) (b_chunks B)
  | Some cur => ∃ B l1 c l2, B ∈ Bs ∧ b_chunks B = l1 ++ c :: l2 ∧ c_addr c = cur ∧ c_fits sz c = true
  end.
Proof.
  intros R. unfold find_first_fit.
  match goal with |- context [for_loop ?n 0 ?b ()] =>
    destruct (for_loop_total (λ i _, ∀ B, B ∈ take (Z.to_nat i) Bs → Forall (λ c, c_fits sz c = false) (b_chunks B))
      (λ cur, ∃ B l1 c l2, B ∈ Bs ∧ b_chunks B = l1 ++ c :: l2 ∧ c_addr c = cur ∧ c_fits sz c = true) b n 0 ()) as (x & -> & Hx) end.
  - by intros B ?%not_elem_of_nil.
  - rewrite (rep_memory _ _ _ R), length_map. intros i _ Hi IH. rewrite zget_lookup, list_lookup_fmap by lia.
    destruct (lookup_lt_is_Some_2 Bs (Z.to_nat i)) as [B HBi]; [lia|]. rewrite HBi. cbn [fmap option_fmap option_map]. bind_red.
    assert (B ∈ Bs) as HB by by eapply list_elem_of_lookup_2. destruct (rep_block R B HB) as [(Hl & Ht & Hne & _) _].
    destruct (rep_area R B HB) as (? & _). assert (b_addr B = head_addr (b_chunks B) 0) as -> by (destruct (b_chunks B); [done|by destruct Ht]).
    destruct (scan_spec _ sz _ _ _ _ (header_fuel (headers st)) Hl Ht) as (r & Er & Hr); [done|done|apply Nat.lt_le_incl; by eapply linked_fuel|].
    unfold scan_block. rewrite Er. bind_red. destruct r as [cur|].
    + destruct Hr as (l1 & c & l2 & ? & ? & ? & _). by exists B, l1, c, l2.
    + intros B0. rewrite Z2Nat.inj_add by lia. change (Z.to_nat 1) with 1%nat. rewrite Nat.add_1_r, (take_S_r _ _ B HBi).
      intros [HB0|HB0]%elem_of_app; [by apply IH|]. apply list_elem_of_singleton in HB0 as ->. done.
  - bind_red. destruct x as [u|cur]; eexists; (split; [done|]); [|done]. intros B HB. apply Hx. rewrite (rep_memory _ _ _ R), length_map.
    rewrite take_ge by lia. done.
Qed.

(** *** New areas *)

(** What the system call promises: a part of the address space that nobody has. *)
Definition fresh (ar : list (Z * Z)) (a sz : Z) : Prop :=
  0 < a ∧ a mod MALLOC_DEFAULT_BLOCK_SIZE = 0 ∧ a + sz < 2 ^ (ptr_bits - 1) ∧ ∀ r, r ∈ ar → range_disjoint (a, sz) r.
Definition mmap_fresh (mmap : list (Z * Z) → Z → option Z) : Prop :=
  ∀ ar sz a, 0 < sz → mmap ar sz = Some a → fresh ar a sz.

Section fresh.
Context {st : heap} {Bs : list block} {F : Z → list Z} (R : rep st Bs F) (a sz : Z) (Hf : fresh (areas st) a sz) (Hsz : 0 < sz).

Lemma fresh_apart r : r ∈ areas st → a + sz <= r.1 ∨ r.1 + r.2 <= a.
Proof.
  intros Hr. destruct Hf as (_ & _ & _ & Hd). destruct (rep_areas _ _ _ R r Hr) as (_ & _ & ? & _).
  apply (ranges_apart (a, sz) r (Hd r Hr)); done.
Qed.
Lemma fresh_not_in : (a, sz) ∉ areas st.
Proof. intros Hin. destruct (fresh_apart _ Hin); cbn in *; lia. Qed.
Lemma fresh_areas r : r ∈ areas st ++ [(a, sz)] → 0 < r.1 ∧ r.1 mod 4 = 0 ∧ 0 < r.2 ∧ r.1 + r.2 < 2 ^ (ptr_bits - 1).
Proof.
  intros [Hr| ->%list_elem_of_singleton]%elem_of_app; [by apply (rep_areas _ _ _ R)|]. destruct Hf as (? & Hm & ? & _). cbn.
  split; [done|]. split; [|done]. unfold MALLOC_DEFAULT_BLOCK_SIZE in Hm. apply Z.mod_divide in Hm as [q ->]; [|lia].
  replace (q * 4096) with (q * 1024 * 4) by lia. apply Z.mod_mul. lia.
Qed.
Lemma fresh_disjoint r r' : r ∈ areas st ++ [(a, sz)] → r' ∈ areas st ++ [(a, sz)] → r ≠ r' → range_disjoint r r'.
Proof.
  intros [Hr| ->%list_elem_of_singleton]%elem_of_app [Hr'| ->%list_elem_of_singleton]%elem_of_app Hne.
  - by apply (rep_disjoint _ _ _ R).
  - symmetry. by apply Hf.
  - by apply Hf.
  - done.
Qed.
(** The slabs that are there lie outside of a new area. *)
Lemma fresh_old x h : headers st !! x = Some h → block_is_slab h = true → h_end x h <= a ∨ a + sz <= x.
Proof.
  intros Hx Hs. destruct (rep_slab _ _ _ R x h Hx Hs) as (_ & _ & r & Hr & H1 & H2 & _). destruct (fresh_apart r Hr); lia.
Qed.
Lemma fresh_no_slab x h : a <= x < a + sz → headers st !! x = Some h → block_is_slab h = false.
Proof.
  intros Hx Hh. apply not_true_is_false. intros Hs. pose proof (slab_pos R _ _ Hh Hs). pose proof header_size.
  destruct (fresh_old x h Hh Hs); unfold h_end in *; lia.
Qed.
Lemma fresh_block B : B ∈ Bs → a + sz <= b_addr B ∨ b_addr B + b_size B <= a.
Proof. intros [_ HA]%(rep_block R). apply (fresh_apart _ HA). Qed.
Lemma fresh_block_addr B : B ∈ Bs → b_addr B ≠ a.
Proof. intros HB. destruct (rep_area R B HB) as (_ & _ & ? & _). destruct (fresh_block B HB); lia. Qed.

(** A block of one free chunk. *)
Lemma rep_grow : HD <= sz → sz mod 4 = 0 →
  let c := {| c_addr := a; c_size := sz - HD; c_used := false |} in
  let st' := {| headers := <[a := header_of 0 c 0]> (headers st); memory := memory st ++ [a]; free_blocks := free_blocks st;
                areas := areas st ++ [(a, sz)] |} in
  let B := {| b_addr := a; b_size := sz; b_chunks := [c] |} in
  rep st' (Bs ++ [B]) F ∧ ∀ d, d ∈ chunks st' ↔ d = c ∨ d ∈ chunks st.
Proof.
  intros Hle Hm c st' B. pose proof header_size as [HH Hh].
  assert (quiet a (a + sz) (headers st) (headers st')) as Hq by (apply quiet_insert; [lia|apply header_not_slab]).
  pose proof (λ x h, quiet_same a (a + sz) (headers st) (headers st') x h fresh_no_slab Hq) as Hss.
  assert (rep st' (Bs ++ [B]) F) as R'.
  { pose proof R as [Rm Rb Rn Ra Rd Rl Rf Rs Rss]. split; cbn [st' memory areas free_blocks].
    - by rewrite Rm, map_app.
    - apply Forall_app. split.
      + rewrite Forall_forall in Rb |- *. intros B0 HB0. destruct (Rb B0 HB0) as [(Hl & Ht & Hne & Hco) HA]. split.
        * split; [|done]. eapply linked_quiet; [exact Hq|exact Ht| |done]. destruct (fresh_block B0 HB0); lia.
        * apply elem_of_app. by left.
      + apply Forall_singleton. split; [|apply elem_of_app; right; left]. split; [|split; [|done]].
        * cbn. split; [|done]. by rewrite lookup_insert_eq.
        * cbn. split; [done|]. split; [lia|]. split; [by rewrite Zminus_mod, Hm, Hh|]. unfold c_end. cbn. lia.
    - rewrite map_app. apply NoDup_app. split; [done|]. split; [|apply NoDup_singleton].
      intros x (B0 & -> & HB0)%list_elem_of_fmap ?%list_elem_of_singleton. by apply (fresh_block_addr B0).
    - apply fresh_areas.
    - apply fresh_disjoint.
    - done.
    - intros k Hk. destruct (Rf k Hk) as (? & Hl & ?). split; [done|]. split; [|done]. eapply slab_linked_same; [|done].
      intros x h Hs. by apply Hss.
    - intros x h Hx Hs. apply Hss in Hx; [|done]. destruct (Rs x h Hx Hs) as (Hk & Hx4 & r & Hr & H1 & H2 & H3). split; [done|]. split; [done|].
      exists r. split; [apply elem_of_app; by left|]. split; [done|]. split; [done|]. rewrite map_app. intros [?|Hb]%elem_of_app; [done|].
      apply list_elem_of_singleton in Hb as ->. by apply fresh_not_in.
    - intros x h x' h' Hx Hs Hx' Hs'. apply Hss in Hx, Hx'; [|done..]. eauto. }
  split; [done|]. intros d. rewrite (in_chunks R), (in_chunks R'), elem_of_middle. cbn [b_chunks B]. rewrite app_nil_r, list_elem_of_singleton.
  assert ((∃ h, headers st' !! c_addr d = Some h ∧ block_is_slab h = true ∧ c_size d = size h ∧
      c_used d = negb (bool_decide (c_addr d ∈ F (Z.shiftr (size h) 4)))) ↔
    ∃ h, headers st !! c_addr d = Some h ∧ block_is_slab h = true ∧ c_size d = size h ∧
      c_used d = negb (bool_decide (c_addr d ∈ F (Z.shiftr (size h) 4)))) as ->.
  { by split; intros (h & Hx & Hs & ?); exists h; (split; [by apply Hss|]). }
  tauto.
Qed.
End fresh.

Context (mmap : list (Z * Z) → Z → option Z) (Hmmap : mmap_fresh mmap).

(** Either no free chunk fits, and there is no room for a block; or a chunk of
    at least the size is handed out, and it was nobody's. *)
Lemma malloc_chunk_spec st Bs F sz : rep st Bs F → 0 <= sz < 2 ^ 31 + 4 → sz mod 4 = 0 →
  malloc_chunk mmap st sz = Some SystemStop ∨ malloc_chunk mmap st sz = Some (Returned (0, st)) ∨
  ∃ c st' Bs', malloc_chunk mmap st sz = Some (Returned (c_addr c + HD, st')) ∧ rep st' Bs' F ∧ 0 < c_addr c ∧ sz <= c_size c ∧ gains st c st'.
Proof.
  intros R Hsz Hm. pose proof header_size as [HH Hh]. unfold malloc_chunk. destruct (find_fit_spec st Bs F sz R) as (r & -> & Hr). bind_red.
  destruct r as [cur|].
  - right. right. destruct Hr as (B & l1 & c & l2 & HB & El & <- & Hfit). cbn [kbind]. rewrite Z.eqb_refl. cbn [negb].
    unfold c_fits in Hfit. apply andb_prop in Hfit as [Hu Hfit]. apply negb_true_iff in Hu. apply Z.leb_le in Hfit.
    assert (sz <= c_size c) as Hle.
    { rewrite usize_small in Hfit; [by destruct (_ <=? _); lia|]. pose proof ptr_bits_ge. destruct (_ <=? _); lia. }
    destruct (take_rep st Bs F B l1 c l2 sz R HB El Hu Hsz Hm Hle) as (hs' & Bs' & c' & -> & R' & <- & Hle' & Hg). bind_red.
    exists c', (with_headers st hs'), Bs'. split; [done|]. split; [done|]. split; [|done].
    destruct Hg as (Hu' & _ & Hin). by apply (chunk_bounds R' c'), Hin; [|left].
  - unfold _alloc_new_block. destruct (_ <=? _) eqn:Emax; [by left|]. right. rewrite (usize_small (sz + HD)) by (pose proof ptr_bits_ge; lia).
    set (asz := if MALLOC_DEFAULT_BLOCK_SIZE <? sz + HD then sz + HD else MALLOC_DEFAULT_BLOCK_SIZE).
    assert (sz + HD <= asz ∧ asz mod 4 = 0 ∧ asz < 2 ^ 31 + 40) as (Ha1 & Ha2 & Ha3).
    { unfold asz, MALLOC_DEFAULT_BLOCK_SIZE. destruct (Z.ltb_spec 4096 (sz + HD)); [|by repeat split; try lia].
      split; [lia|]. split; [by rewrite Z.add_mod, Hm, Hh|lia]. }
    destruct (mmap (areas st) asz) as [ret|] eqn:Emm; [|by left]. right. cbn [kbind memory]. rewrite last_snoc, Z.eqb_refl. change (default 0 (Some ret)) with ret. cbn [negb headers].
    assert (fresh (areas st) ret asz) as Hf by by apply (Hmmap (areas st) asz ret ltac:(lia) Emm).
    rewrite usize_small by (pose proof ptr_bits_ge; lia).
    destruct (rep_grow R ret asz Hf ltac:(lia) ltac:(lia) Ha2) as (R1 & Hc1).
    set (c := {| c_addr := ret; c_size := asz - HD; c_used := false |}) in *. set (B := {| b_addr := ret; b_size := asz; b_chunks := [c] |}) in *.
    destruct (take_rep _ _ F B [] c [] sz R1) as (hs' & Bs' & c' & Etk & R' & Ec & Hle' & Hg);
      [apply elem_of_app; right; left|done|done|done|done|cbn; lia|].
    cbn [c c_addr] in Etk. match goal with |- context [take_chunk ?h ret sz] => change h with (<[ret := header_of 0 c 0]> (headers st)) end.
    cbn [headers] in Etk. rewrite Etk. bind_red. eexists c', _, Bs'. cbn [c c_addr] in Ec. rewrite Ec. split; [reflexivity|]. split; [exact R'|]. split; [by apply Hf|].
    split; [done|]. destruct Hg as (Hu & Hap & Hin). split; [done|]. split.
    + intros d Hd. apply Hap. apply Hc1. by right.
    + intros d Hd. rewrite (Hin d Hd), (Hc1 d). split; [|tauto]. intros [?|[->|?]]; [tauto|done|tauto].
Qed.

(** ** The slabs *)

Lemma round_size_up sz : 0 < sz < 2 ^ 31 → sz <= round_size sz < sz + 4 ∧ round_size sz mod 4 = 0.
Proof.
  intros Hsz. unfold round_size, ALIGNMENT. pose proof ptr_bits_ge. rewrite usize_small by lia. set (x := sz + (4 - 1)).
  assert (Z.land x (u32 (Z.lnot (4 - 1))) = 4 * (x / 4)) as ->; [|subst x; Z.to_euclidean_division_equations; lia].
  assert (Z.land x (u32 (Z.lnot (4 - 1))) = Z.ldiff x (Z.ones 2)) as ->.
  - apply Z.bits_inj'. intros j Hj. rewrite Z.land_spec, Z.ldiff_spec, testbit_u32, Z.lnot_spec by done. change (4 - 1) with (Z.ones 2).
    destruct (decide (j < 32)); [done|]. rewrite (testbit_high x 32 j) by (subst x; lia). done.
  - rewrite Z.ldiff_ones_r, Z.shiftl_mul_pow2, Z.shiftr_div_pow2 by lia. change (2 ^ 2) with 4. lia.
Qed.

(** Only the links of slabs differ. *)
Definition relinked (hs hs' : gmap Z malloc_header_t) : Prop :=
  ∀ x, hs' !! x = hs !! x ∨ ∃ h h', hs !! x = Some h ∧ hs' !! x = Some h' ∧ block_is_slab h = true ∧ block_is_slab h' = true ∧ size h' = size h.

Lemma relinked_refl hs : relinked hs hs.
Proof. intros x. by left. Qed.
Lemma relinked_insert hs hs' a h nx pv : relinked hs hs' → hs' !! a = Some h → block_is_slab h = true →
  relinked hs (<[a := set_prev pv (set_next nx h)]> hs').
Proof.
  intros Hr Ha Hs x. destruct (decide (a = x)) as [<-|Hn]; [|rewrite lookup_insert_ne by done; apply Hr].
  right. rewrite lookup_insert_eq. destruct (Hr a) as [E|(h0 & h1 & E0 & E1 & Hs0 & _ & Ez)].
  - exists h, (set_prev pv (set_next nx h)). by rewrite <- E.
  - rewrite Ha in E1. injection E1 as <-. by exists h0, (set_prev pv (set_next nx h)).
Qed.
Lemma relinked_slab hs hs' x h' : relinked hs hs' → hs' !! x = Some h' → block_is_slab h' = true →
  ∃ h, hs !! x = Some h ∧ block_is_slab h = true ∧ size h = size h'.
Proof.
  intros Hr Hx Hs. destruct (Hr x) as [E|(h & h1 & E0 & E1 & Hs0 & _ & Ez)]; [exists h'; by rewrite <- E|].
  rewrite Hx in E1. injection E1 as <-. by exists h.
Qed.
Lemma relinked_back hs hs' x h : relinked hs hs' → hs !! x = Some h → block_is_slab h = true →
  ∃ h', hs' !! x = Some h' ∧ block_is_slab h' = true ∧ size h' = size h.
Proof.
  intros Hr Hx Hs. destruct (Hr x) as [E|(h0 & h1 & E0 & E1 & Hs0 & Hs1 & Ez)]; [exists h; by rewrite E|].
  rewrite Hx in E0. injection E0 as <-. by exists h1.
Qed.

(** The free lists change. *)
Lemma rep_relink st Bs F F' hs' fb' : rep st Bs F → relinked (headers st) hs' → length fb' = 5%nat →
  (∀ k, 0 <= k < 5 → fb'.[k] = Some (default 0 (head (F' k))) ∧ slab_linked hs' (16 * k) (F' k) ∧ NoDup (F' k)) →
  let st' := with_free_blocks (with_headers st hs') fb' in
  rep st' Bs F' ∧
  ∀ c, c ∈ chunks st' ↔ (∃ B, B ∈ Bs ∧ c ∈ b_chunks B) ∨
    ∃ h, headers st !! c_addr c = Some h ∧ block_is_slab h = true ∧ c_size c = size h ∧
      c_used c = negb (bool_decide (c_addr c ∈ F' (Z.shiftr (size h) 4))).
Proof.
  intros R Hr Hlen Hf' st'. assert (rep st' Bs F') as R'.
  { pose proof R as [Rm Rb Rn Ra Rd Rl Rf Rs Rss]. split; cbn [st' with_free_blocks with_headers memory areas free_blocks headers]; try done.
    - rewrite Forall_forall in Rb |- *. intros B HB. destruct (Rb B HB) as [(Hl & Ht & Hne & Hco) HA]. split; [|done]. split; [|done].
      assert (∀ pv l, linked (headers st) pv l 0 → linked hs' pv l 0) as Hll; [|by apply Hll].
      intros pv l. revert pv. induction l as [|c l IH]; intros pv; [done|]. intros [Hc Hcl]. split; [|by apply IH].
      destruct (Hr (c_addr c)) as [E|(h & h1 & E & _ & Hs & _)]; [by rewrite E|]. rewrite Hc in E. injection E as <-.
      by rewrite header_not_slab in Hs.
    - intros a h' Ha Hs. destruct (relinked_slab _ _ _ _ Hr Ha Hs) as (h & Hh & Hhs & Hz). unfold h_end in *. rewrite <- Hz. by apply Rs.
    - intros a h a' h' Ha Hs Ha' Hs'. destruct (relinked_slab _ _ _ _ Hr Ha Hs) as (h1 & Hh & Hhs & Hz).
      destruct (relinked_slab _ _ _ _ Hr Ha' Hs') as (h1' & Hh' & Hhs' & Hz'). unfold h_end. rewrite <- Hz. by apply (Rss a h1 a' h1'). }
  split; [done|]. intros c. rewrite (in_chunks R'). f_equiv. split.
  - intros (h' & Ha & Hs & Hz & Hu). destruct (relinked_slab _ _ _ _ Hr Ha Hs) as (h & Hh & Hhs & Ez). exists h. by rewrite Ez.
  - intros (h & Ha & Hs & Hz & Hu). destruct (relinked_back _ _ _ _ Hr Ha Hs) as (h' & Hh & Hhs & Ez). exists h'. by rewrite Ez.
Qed.

Definition with_list (F : Z → list Z) (k : Z) (l : list Z) : Z → list Z := λ j, if j =? k then l else F j.

Lemma size_class k : Z.shiftr (16 * k) 4 = k.
Proof. change 16 with (2 ^ 4). by rewrite Z.mul_comm, Z.shiftr_div_pow2, Z.div_mul by lia. Qed.

Lemma slab_alloc_spec st Bs F sz : rep st Bs F → 0 < sz < 2 ^ 31 + 4 →
  slab_alloc st sz = Some (0, st) ∨
  ∃ c st' F', slab_alloc st sz = Some (c_addr c + HD, st') ∧ rep st' Bs F' ∧ 0 < c_addr c ∧ sz <= c_size c ∧ gains st c st'.
Proof.
  intros R Hsz. unfold slab_alloc. destruct (Z.ltb_spec 64 sz) as [|Hle]; [by left|]. pose proof ptr_bits_ge.
  rewrite usize_small by lia. set (k := Z.shiftr (sz + 15) 4).
  assert (1 <= k < 5 ∧ sz <= 16 * k) as [Hk Hksz].
  { unfold k. rewrite Z.shiftr_div_pow2 by lia. change (2 ^ 4) with 16. Z.to_euclidean_division_equations. lia. }
  destruct (rep_free _ _ _ R k ltac:(lia)) as (E & Hl & Hn). rewrite E. bind_red. destruct (F k) as [|a l] eqn:EF; [by left|right].
  change (default 0 (head (a :: l))) with a. destruct Hl as [(h & Hh & Hs & Hz & Hnx) Hl]. destruct (slab_pos R a h Hh Hs) as (Ha & _).
  destruct (Z.eqb_spec a 0); [lia|]. rewrite Hh. bind_red. rewrite zset_in by (rewrite (rep_lists _ _ _ R); lia). bind_red.
  apply NoDup_cons in Hn as [Hna Hnl].
  destruct (rep_relink st Bs F (with_list F k l) (headers st) (<[Z.to_nat k := next h]> (free_blocks st)) R (relinked_refl _)) as [R' HC].
  { rewrite length_insert. apply (rep_lists _ _ _ R). }
  { intros j Hj. rewrite zget_insert by (rewrite (rep_lists _ _ _ R); lia). unfold with_list. rewrite (Z.eqb_sym j k).
    destruct (Z.eqb_spec k j) as [<-|]; [rewrite decide_True, Hnx; done|rewrite decide_False by done]. by apply (rep_free _ _ _ R). }
  set (c0 := {| c_addr := a; c_size := size h; c_used := false |}). assert (c0 ∈ chunks st) as Hc0.
  { apply (in_chunks R). right. exists h. split; [done|]. split; [done|]. split; [done|]. rewrite Hz, size_class, EF.
    rewrite bool_decide_eq_true_2; [done|left]. }
  eexists {| c_addr := a; c_size := size h; c_used := true |}, _, (with_list F k l). split; [reflexivity|]. split; [exact R'|].
  split; [done|]. split; [cbn; lia|]. split; [done|]. split.
  - intros d Hd Hu. apply (chunks_apart R c0 d); [done|done|]. intros <-. done.
  - intros d Hu. change (with_free_blocks (with_headers st (headers st))) with (with_free_blocks st) in HC.
    rewrite HC, (in_chunks R). rewrite Hu. split.
    + intros [?|(h1 & Hh1 & Hs1 & Hz1 & Hu1)]; [by right; left|]. destruct (decide (c_addr d = a)) as [Ed|Ed].
      { left. rewrite Ed, Hh in Hh1. injection Hh1 as <-. by apply chunk_eq. }
      right. right. exists h1. split; [done|]. split; [done|]. split; [done|]. rewrite Hu1. unfold with_list.
      destruct (Z.eqb_spec (Z.shiftr (size h1) 4) k) as [->|]; [|done]. f_equal. rewrite EF. apply bool_decide_ext. rewrite elem_of_cons. tauto.
    + intros [->|[?|(h1 & Hh1 & Hs1 & Hz1 & Hu1)]]; [right|by left|right].
      * exists h. split; [done|]. split; [done|]. split; [done|]. rewrite Hz, size_class. unfold with_list. rewrite Z.eqb_refl.
        by rewrite bool_decide_eq_false_2.
      * exists h1. split; [done|]. split; [done|]. split; [done|]. rewrite Hu1. unfold with_list.
        destruct (Z.eqb_spec (Z.shiftr (size h1) 4) k) as [Ek|]; [|done]. f_equal. rewrite Ek, EF. apply bool_decide_ext. rewrite elem_of_cons.
        split; [|tauto]. intros [Ea|?]; [|done]. rewrite Ek, EF in Hu1. rewrite bool_decide_eq_true_2 in Hu1; [done|]. rewrite Ea. left.
Qed.

(** *** malloc, for every size *)

Lemma malloc_spec st Bs F sz : rep st Bs F → 0 < sz < 2 ^ 31 →
  malloc mmap st sz = Some SystemStop ∨ malloc mmap st sz = Some (Returned (0, st)) ∨
  ∃ c st' Bs' F', malloc mmap st sz = Some (Returned (c_addr c + HD, st')) ∧ rep st' Bs' F' ∧ 0 < c_addr c ∧ sz <= c_size c ∧ gains st c st'.
Proof.
  intros R Hsz. destruct (round_size_up sz Hsz) as [Hr Hm]. pose proof header_size as [HH _]. unfold malloc.
  destruct (Z.eqb_spec sz 0); [lia|]. destruct (slab_alloc_spec st Bs F (round_size sz) R) as [->|(c & st' & F' & -> & R' & Hp & Hle & Hg)]; [lia|..]; bind_red.
  - cbn [negb]. change (negb (0 =? 0)) with false. cbv match.
    destruct (malloc_chunk_spec st Bs F (round_size sz) R) as [->|[->|(c & st' & Bs' & -> & ? & ? & ? & ?)]]; [lia|done|by left|by right; left|].
    right. right. exists c, st', Bs', F. split; [done|]. split; [done|]. split; [done|]. split; [lia|done].
  - right. right. destruct (Z.eqb_spec (c_addr c + HD) 0); [lia|]. exists c, st', Bs, F'. split; [done|]. split; [done|]. split; [done|].
    split; [lia|done].
Qed.

(** ** free *)

(** [c] has been given back. *)
Definition loses (st : heap) (c : chunk) (st' : heap) : Prop :=
  ∀ d, c_used d = true → d ∈ chunks st' ↔ d ∈ chunks st ∧ d ≠ c.

(** A slab goes to the head of its list. *)
Lemma slab_push st Bs F a h k : rep st Bs F → headers st !! a = Some h → block_is_slab h = true → 1 <= k < 5 → size h = 16 * k → a ∉ F k →
  ∃ hs2 fb', slab_free st a = Some (with_free_blocks (with_headers st hs2) fb') ∧ relinked (headers st) hs2 ∧ length fb' = 5%nat ∧
    ∀ j, 0 <= j < 5 → let l := with_list F k (a :: F k) j in
      fb'.[j] = Some (default 0 (head l)) ∧ slab_linked hs2 (16 * j) l ∧ NoDup l.
Proof.
  intros R Ha Hs Hk Ek Hnot.
  unfold slab_free. rewrite Ha. bind_red. rewrite Ek, size_class. destruct (rep_free _ _ _ R k ltac:(lia)) as (E & Hl & Hn). rewrite E. bind_red.
  rewrite zset_in by (rewrite (rep_lists _ _ _ R); lia). bind_red. set (nx := default 0 (head (F k))).
  set (hs1 := <[a := set_prev 0 (set_next nx h)]> (headers st)).
  assert (relinked (headers st) hs1) as Hr1 by (apply relinked_insert; [apply relinked_refl|done|done]).
  assert (∃ hs2, (if nx =? 0 then Some hs1 else assign hs1 nx (set_prev a)) = Some hs2 ∧ relinked (headers st) hs2 ∧
    ∀ x h1, hs1 !! x = Some h1 → ∃ h2, hs2 !! x = Some h2 ∧ next h2 = next h1 ∧ block_is_slab h2 = block_is_slab h1 ∧ size h2 = size h1)
    as (hs2 & -> & Hr2 & H2).
  { destruct (Z.eqb_spec nx 0) as [|Hnx]; [exists hs1; split; [done|]; split; [done|]; eauto|]. unfold nx in *. destruct (F k) as [|b l]; [done|].
    change (default 0 (head (b :: l))) with b in *. assert (a ≠ b) as Hab by (intros ->; apply Hnot; left).
    destruct Hl as [(hb & Hhb & Hsb & _) _]. unfold assign. assert (hs1 !! b = Some hb) as Eb by (unfold hs1; by rewrite lookup_insert_ne).
    rewrite Eb. bind_red. eexists. split; [done|]. split.
    - replace (set_prev a hb) with (set_prev a (set_next (next hb) hb)) by by destruct hb. by apply relinked_insert.
    - intros x h1 Hx. destruct (decide (b = x)) as [<-|Hbx]; [rewrite lookup_insert_eq|rewrite lookup_insert_ne by done; eauto].
      rewrite Eb in Hx. injection Hx as <-. by eexists. }
  bind_red. exists hs2, (<[Z.to_nat k := a]> (free_blocks st)). split; [done|]. split; [done|].
  split; [rewrite length_insert; apply (rep_lists _ _ _ R)|].
  assert (∀ sz l, a ∉ l → slab_linked (headers st) sz l → slab_linked hs2 sz l) as Hll.
  { intros sz l. induction l as [|b l IH]; [done|]. intros Hab [(hb & Hhb & Hsb & Hzb & Hnb) Hbl]. rewrite not_elem_of_cons in Hab.
    destruct Hab as [Hab Hal]. split; [|by apply IH]. destruct (H2 b hb) as (h2 & E2 & En2 & Es2 & Ez2).
    - unfold hs1. by rewrite lookup_insert_ne.
    - exists h2. rewrite Es2, Ez2, En2. done. }
  intros j Hj. rewrite zget_insert by (rewrite (rep_lists _ _ _ R); lia). unfold with_list. rewrite (Z.eqb_sym j k).
  destruct (Z.eqb_spec k j) as [<-|Hkj]; [rewrite decide_True by done|rewrite decide_False by done].
  - split; [done|]. split; [|by constructor]. split; [|by apply Hll]. destruct (H2 a (set_prev 0 (set_next nx h))) as (h2 & E2 & En2 & Es2 & Ez2).
    + unfold hs1. by rewrite lookup_insert_eq.
    + exists h2. rewrite Es2, Ez2, En2. done.
  - destruct (rep_free _ _ _ R j Hj) as (? & Hlj & ?). split; [done|]. split; [|done]. apply Hll; [|done]. intros Haj.
    destruct (slab_linked_in _ _ _ _ Hlj Haj) as (h' & Hh' & _ & Hz'). rewrite Ha in Hh'. injection Hh' as <-. lia.
Qed.

Lemma slab_free_spec st Bs F c h : rep st Bs F → headers st !! c_addr c = Some h → block_is_slab h = true → c_size c = size h →
  c_used c = true → c_addr c ∉ F (Z.shiftr (size h) 4) →
  ∃ st' F', slab_free st (c_addr c) = Some st' ∧ rep st' Bs F' ∧ loses st c st'.
Proof.
  intros R Ha Hs Hz Hu Hnot. destruct (rep_slab _ _ _ R _ h Ha Hs) as ((k & Hk & Ek) & _). rewrite Ek, size_class in Hnot.
  destruct (slab_push st Bs F (c_addr c) h k R Ha Hs Hk Ek Hnot) as (hs2 & fb' & -> & Hr2 & Hlen & Hfb).
  destruct (rep_relink st Bs F (with_list F k (c_addr c :: F k)) hs2 fb' R Hr2 Hlen Hfb) as [R' HC].
  eexists _, (with_list F k (c_addr c :: F k)). split; [reflexivity|]. split; [exact R'|]. intros d Hud. rewrite HC, (in_chunks R), Hud.
  unfold with_list. split.
  - intros [(B & HB & Hd)|(h1 & Hh1 & Hs1 & Hz1 & Hu1)].
    + split; [left; eauto|]. intros ->. destruct (block_bounds R B c HB Hd) as (? & ? & ?). pose proof (slab_block R _ _ B Ha Hs HB).
      pose proof header_size. unfold h_end, c_end in *. lia.
    + destruct (Z.eqb_spec (Z.shiftr (size h1) 4) k) as [Ekk|Ekk].
      * symmetry in Hu1. apply negb_true_iff, bool_decide_eq_false in Hu1. rewrite not_elem_of_cons in Hu1. destruct Hu1 as [Hne Hu1].
        split; [right|by intros ->]. exists h1. split; [done|]. split; [done|]. split; [done|]. by rewrite Ekk, bool_decide_eq_false_2.
      * split; [right; eauto|]. intros ->. rewrite Ha in Hh1. injection Hh1 as <-. rewrite Ek, size_class in Ekk. done.
  - intros [[?|(h1 & Hh1 & Hs1 & Hz1 & Hu1)] Hne]; [by left|right]. exists h1. split; [done|]. split; [done|]. split; [done|].
    destruct (Z.eqb_spec (Z.shiftr (size h1) 4) k) as [Ekk|]; [|done]. rewrite Hu1. f_equal. rewrite Ekk. apply bool_decide_ext. rewrite elem_of_cons.
    split; [by right|]. intros [Ed|?]; [|done]. exfalso. apply Hne. rewrite Ed in Hh1. rewrite Ha in Hh1. injection Hh1 as <-.
    apply chunk_eq; [exact Ed|congruence..].
Qed.

(** What becomes of a block when its chunk [c] is freed. *)
Definition set_free (c : chunk) : chunk := {| c_addr := c_addr c; c_size := c_size c; c_used := false |}.

Lemma tiled_set_free a l1 c l2 fin : tiled a (l1 ++ c :: l2) fin → tiled a (l1 ++ set_free c :: l2) fin.
Proof. by intros (b & H1 & H2)%tiled_app; apply tiled_app; exists b. Qed.

Lemma unlink_flag hs l1 c l2 a fin : linked hs 0 (l1 ++ c :: l2) 0 → tiled a (l1 ++ c :: l2) fin → c_used c = true →
  ∃ hs', assign hs (c_addr c) (block_rem_flags FLAG_ALLOCATED) = Some hs' ∧ linked hs' 0 (l1 ++ set_free c :: l2) 0 ∧ quiet a fin hs hs'.
Proof.
  intros Hl Ht Hu. destruct (tiled_split _ _ _ _ _ Ht) as (Ht1 & Hcs & _ & Ht2). apply linked_app in Hl as (Hl1 & Hc & Hl2). cbn [head_addr] in *.
  pose proof header_size. pose proof (tiled_le _ _ _ Ht1). pose proof (tiled_le _ _ _ Ht2). assert (c_end c = c_addr c + HD + c_size c) as Ee by done.
  unfold assign. rewrite Hc. bind_red. eexists. split; [done|].
  assert (block_rem_flags FLAG_ALLOCATED (header_of (last_addr l1 0) c (head_addr l2 0)) = header_of (last_addr l1 0) (set_free c) (head_addr l2 0)) as ->.
  { destruct c as [? ? []]; [done|discriminate]. }
  assert (quiet (c_addr c) (c_end c) hs (<[c_addr c := header_of (last_addr l1 0) (set_free c) (head_addr l2 0)]> hs)) as Hq.
  { apply quiet_insert; [lia|apply header_not_slab]. }
  split; [|by eapply quiet_wider; [exact Hq|lia..]]. apply linked_app. cbn [head_addr set_free c_addr linked]. split; [|split].
  - by eapply linked_quiet; [exact Hq|exact Ht1|lia|].
  - by rewrite lookup_insert_eq.
  - by eapply linked_quiet; [exact Hq|exact Ht2|lia|].
Qed.

Lemma coalesced_tail l1 l2 : coalesced (l1 ++ l2) → coalesced l2.
Proof. by intros (_ & ? & _)%coalesced_app. Qed.
Lemma coalesced_head l1 l2 : coalesced (l1 ++ l2) → coalesced l1.
Proof. by intros (? & _ & _)%coalesced_app. Qed.

(** The two loops of [free] on a block where [m] has become free. *)
Lemma glue_block hs l1 m l2 a fin : linked hs 0 (l1 ++ m :: l2) 0 → tiled a (l1 ++ m :: l2) fin → 0 < a → fin < 2 ^ (ptr_bits - 1) →
  c_free m → coalesced l1 → coalesced l2 →
  ∃ s hs' l k1 k2 l' g, glue_start hs (c_addr m) = Some s ∧ glue hs s = Some hs' ∧ l1 = l ++ k1 ∧ l2 = k2 ++ l' ∧
    Forall c_free k1 ∧ Forall c_free k2 ∧ c_free g ∧ linked hs' 0 (l ++ g :: l') 0 ∧ tiled a (l ++ g :: l') fin ∧
    coalesced (l ++ g :: l') ∧ quiet a fin hs hs'.
Proof.
  intros Hl Ht Ha Hfin Hm H1 H2. pose proof (linked_fuel _ _ _ _ _ _ Hl Ht) as Hfuel.
  destruct (glue_start_spec hs m l2 a fin l1 [] (header_fuel hs)) as (l & k1 & E1 & Hk1 & Hlu & Es); [done|done|done| |done|].
  { rewrite length_app in Hfuel. lia. }
  rewrite app_nil_r in E1. cbn [app head_addr] in Es. subst l1. rewrite <- app_assoc in Hl, Ht, Hfuel.
  assert (∃ g0 r, k1 ++ [m] = g0 :: r ∧ c_free g0 ∧ Forall c_free r) as (g0 & r & Eg & Hg0 & Hrf).
  { assert (Forall c_free (k1 ++ [m])) as HF by (apply Forall_app; split; [done|by constructor]). destruct (k1 ++ [m]) as [|g0 r] eqn:E.
    - by destruct k1.
    - apply Forall_cons in HF as [? ?]. by exists g0, r. }
  rewrite Eg in Es. cbn [head_addr] in Es. assert (k1 ++ m :: l2 = g0 :: r ++ l2) as Ekm.
  { change (m :: l2) with ([m] ++ l2). by rewrite app_assoc, Eg. }
  rewrite Ekm in Hl, Ht, Hfuel. destruct (glue_spec l a fin (r ++ l2) hs g0 (header_fuel hs) Hl Ht Ha Hfin) as (k & l' & hs' & Ek & Hk & Hfu & Egl & Hl' & Hq).
  { rewrite length_app in Hfuel. cbn in Hfuel. lia. }
  assert (∃ k2, l2 = k2 ++ l' ∧ Forall c_free k2) as (k2 & E2 & Hk2).
  { apply app_eq_inv in Ek as [(x & Er & El')|(x & Ekx & El2)].
    - destruct x as [|y x]; [exists []; by rewrite El'|]. rewrite El' in Hfu. cbn in Hfu. rewrite Er in Hrf.
      apply Forall_app in Hrf as [_ [Hy _]%Forall_cons]. unfold c_free in Hy. congruence.
    - exists x. split; [done|]. rewrite Ekx in Hk. by apply Forall_app in Hk as [_ ?]. }
  exists (c_addr g0), hs', l, k1, k2, l', (glued g0 k). destruct (glued_addr g0 k) as [_ Hgu].
  split; [exact Es|]. split; [exact Egl|]. split; [done|]. split; [done|]. split; [done|]. split; [done|].
  split; [by unfold c_free; rewrite Hgu|]. split; [done|]. split; [|split; [|done]].
  - apply glued_tiled_app. by rewrite <- Ek.
  - apply coalesced_app. split; [by apply coalesced_head in H1|]. split; [|by left]. apply coalesced_cons. split; [by right|].
    rewrite E2 in H2. by apply coalesced_tail in H2.
Qed.

Lemma free_elem_used d k : Forall c_free k → c_used d = true → d ∉ k.
Proof. intros Hk Hu Hd. rewrite Forall_forall in Hk. apply Hk in Hd. unfold c_free in Hd. congruence. Qed.

Lemma chunk_free_spec st Bs F c : rep st Bs F → c ∈ chunks st → c_used c = true →
  ∃ st' Bs' F', free st (c_addr c + HD) = Some st' ∧ rep st' Bs' F' ∧ loses st c st'.
Proof.
  intros R Hc Hu. destruct (chunk_bounds R c Hc) as (Hp & _ & Hcs & Hce). pose proof header_size as [HH _].
  assert (2 ^ ptr_bits = 2 * 2 ^ (ptr_bits - 1)) as Hp2 by by destruct ptr_bits_cases as [-> | ->].
  unfold free. destruct (Z.eqb_spec (c_addr c + HD) 0); [lia|]. replace (c_addr c + HD - HD) with (c_addr c) by lia.
  unfold c_end in Hce. rewrite usize_small by lia. apply (in_chunks R) in Hc as [(B & HB & Hc)|(h & Ha & Hs & Hz & Huc)].
  - apply list_elem_of_split in HB as (Bs1 & Bs2 & EB). subst Bs. assert (B ∈ Bs1 ++ B :: Bs2) as HB by (apply elem_of_app; right; left).
    destruct (rep_block R B HB) as [(Hl & Ht & _ & Hco) _]. destruct (rep_area R B HB) as (Hpos & _ & _ & Hfin).
    apply list_elem_of_split in Hc as (l1 & l2 & El). rewrite El in Hl, Ht, Hco.
    pose proof (proj1 (proj2 (proj1 (linked_app _ _ _ _ _) Hl))) as Hh. rewrite Hh. bind_red. rewrite header_not_slab.
    destruct (unlink_flag _ _ _ _ _ _ Hl Ht Hu) as (hs1 & -> & Hl1 & Hq1). bind_red.
    destruct (glue_block hs1 l1 (set_free c) l2 (b_addr B) (b_addr B + b_size B)) as (s & hs' & l & k1 & k2 & l' & g & Es & Eg & E1 & E2 & Hk1 & Hk2 & Hg & Hl' & Ht' & Hco' & Hq');
      [done|by apply tiled_set_free|done|done|done|by eapply coalesced_head|by eapply (coalesced_tail (l1 ++ [c])); rewrite <- app_assoc|].
    cbn [set_free c_addr] in Es. rewrite Es. bind_red. rewrite Eg. bind_red.
    destruct (rep_update st Bs1 B Bs2 F hs' (l ++ g :: l') R) as (R' & O & HO1 & HO & HO'); [by eapply quiet_trans| |].
    { split; [done|]. split; [done|]. split; [by destruct l|done]. }
    exists (with_headers st hs'), (Bs1 ++ {| b_addr := b_addr B; b_size := b_size B; b_chunks := l ++ g :: l' |} :: Bs2), F.
    split; [done|]. split; [done|]. intros d Hud. rewrite HO, HO', El.
    pose proof (free_elem_used d k1 Hk1 Hud). pose proof (free_elem_used d k2 Hk2 Hud).
    assert (d ≠ g) by (intros ->; unfold c_free in Hg; congruence).
    assert (d = c → ¬ (d ∈ l1) ∧ ¬ (d ∈ l2) ∧ ¬ (O d)) as Hdc.
    { intros ->. pose proof (tiled_nodup _ _ _ Ht) as Hn. apply (NoDup_fmap_1 c_addr), NoDup_app in Hn as (_ & Hx & [Hy _]%NoDup_cons).
      split; [intros Hin; apply (Hx c Hin); left|]. split; [done|]. intros HOc. apply (HO1 c HOc). rewrite El. apply elem_of_app. right. left. }
    rewrite E1, E2, !elem_of_app, !elem_of_cons, !elem_of_app in *. tauto.
  - rewrite Ha. bind_red. rewrite Hs. rewrite Hu in Huc. symmetry in Huc. apply negb_true_iff, bool_decide_eq_false in Huc.
    destruct (slab_free_spec st Bs F c h R Ha Hs Hz Hu Huc) as (st' & F' & -> & R' & Hls). by exists st', Bs, F'.
Qed.

(** ** The slabs are made *)

Section carve.
Context (hs : gmap Z malloc_header_t) (ret sz : Z) (Hret : 0 < ret) (Hsz : 0 < sz).
Abbreviation step := (sz + HD).

(** The address of slab [j], counted from 1; 0 is none. *)
Definition nth_slab (j : nat) : Z := match j with O => 0 | S j => ret + Z.of_nat j * step end.
Definition slab_header (j : nat) : malloc_header_t := {| size := sz; flags := 3; next := 0; prev := nth_slab j |}.
Fixpoint carve (n : nat) : gmap Z malloc_header_t :=
  match n with O => hs | S n => <[nth_slab (S n) := slab_header n]> (carve n) end.

Lemma nth_slab_inj i j : nth_slab (S i) = nth_slab (S j) → i = j.
Proof. cbn. pose proof header_size. nia. Qed.

Lemma carve_in n j : (j < n)%nat → carve n !! nth_slab (S j) = Some (slab_header j).
Proof.
  induction n as [|n IH]; [lia|]. intros Hj. cbn [carve]. destruct (decide (j = n)) as [->|Hn]; [apply lookup_insert_eq|].
  rewrite lookup_insert_ne; [apply IH; lia|]. intros E%nth_slab_inj. lia.
Qed.
Lemma carve_out n x : (∀ j, (j < n)%nat → x ≠ nth_slab (S j)) → carve n !! x = hs !! x.
Proof.
  induction n as [|n IH]; [done|]. intros Hx. cbn [carve]. rewrite lookup_insert_ne; [apply IH; intros j Hj; apply Hx; lia|].
  intros <-. by apply (Hx n); [lia|].
Qed.
Lemma carve_inv n x h : carve n !! x = Some h → (∃ j, (j < n)%nat ∧ x = nth_slab (S j) ∧ h = slab_header j) ∨ hs !! x = Some h.
Proof.
  induction n as [|n IH]; [by right|]. cbn [carve]. destruct (decide (nth_slab (S n) = x)) as [<-|Hn].
  - rewrite lookup_insert_eq. intros [= <-]. left. exists n. split; [lia|done].
  - rewrite lookup_insert_ne by done. intros [(j & ? & ?)|?]%IH; [left; exists j; split; [lia|done]|by right].
Qed.
Lemma carve_fuel n : (n < header_fuel (carve n))%nat.
Proof.
  unfold header_fuel. assert (n <= stdpp.base.size (carve n))%nat; [|lia].
  replace n with (length (map (λ j, nth_slab (S j)) (seq 0 n))) at 1 by by rewrite length_map, length_seq.
  apply nodup_fuel.
  - apply NoDup_fmap_2; [intros i j; apply nth_slab_inj|apply NoDup_seq].
  - intros a (j & -> & [_ Hj]%elem_of_seq)%list_elem_of_fmap. eexists. apply carve_in. lia.
Qed.

Lemma carve_loop : step <= MALLOC_DEFAULT_BLOCK_SIZE →
  ∃ n, loop (S (Z.to_nat MALLOC_DEFAULT_BLOCK_SIZE)) (carve_body sz) (hs, ret, 0, 0) = Some (carve n, nth_slab n) ∧
    (0 < n)%nat ∧ Z.of_nat n * step <= MALLOC_DEFAULT_BLOCK_SIZE.
Proof.
  intros Hle. pose proof header_size.
  destruct (loop_total (λ '(hs', raw, passed, pv), ∃ n, hs' = carve n ∧ raw = nth_slab (S n) ∧ passed = Z.of_nat n * step ∧ pv = nth_slab n ∧
      Z.of_nat n * step <= MALLOC_DEFAULT_BLOCK_SIZE) (λ s, MALLOC_DEFAULT_BLOCK_SIZE - s.1.2)
    (λ '(hs', pv), ∃ n, hs' = carve n ∧ pv = nth_slab n ∧ (0 < n)%nat ∧ Z.of_nat n * step <= MALLOC_DEFAULT_BLOCK_SIZE)
    (carve_body sz) (S (Z.to_nat MALLOC_DEFAULT_BLOCK_SIZE)) (hs, ret, 0, 0)) as ([hs' pv] & -> & n & -> & -> & Hn).
  - exists O. cbn. unfold MALLOC_DEFAULT_BLOCK_SIZE. repeat split; lia.
  - cbn [fst snd]. unfold MALLOC_DEFAULT_BLOCK_SIZE. lia.
  - intros [[[hs' raw] passed] pv] (n & -> & -> & -> & -> & Hn) Hm. cbn [fst snd] in *. unfold carve_body.
    destruct (Z.leb_spec (Z.of_nat n * step + step) MALLOC_DEFAULT_BLOCK_SIZE) as [Hl|Hl].
    + split; [|cbn [fst snd]; lia]. exists (S n). split; [done|]. split; [cbn [nth_slab]; lia|]. split; [lia|]. split; [done|lia].
    + exists n. split; [done|]. split; [done|]. split; [|done]. destruct n; [lia|lia].
  - by exists n.
Qed.

Lemma chain_loop n j fuel : (j <= n)%nat → (j < fuel)%nat → loop fuel chain_body (carve n, nth_slab j) = Some (carve n).
Proof.
  revert fuel. induction j as [|j IH]; intros fuel Hj Hf; (destruct fuel as [|fuel]; [lia|]); rewrite loop_S; cbn [chain_body]; [done|].
  pose proof header_size. destruct (Z.eqb_spec (nth_slab (S j)) 0) as [E|_]; [cbn in E; nia|]. unfold assign.
  rewrite (carve_in n j) by lia. bind_red. rewrite insert_id by by rewrite (carve_in n j) by lia. rewrite (carve_in n j) by lia. bind_red.
  cbn [prev slab_header]. apply IH; lia.
Qed.

Lemma carve_bounds n j : Z.of_nat n * step <= MALLOC_DEFAULT_BLOCK_SIZE → (j < n)%nat →
  ret <= nth_slab (S j) ∧ nth_slab (S j) + HD + sz <= ret + MALLOC_DEFAULT_BLOCK_SIZE.
Proof.
  intros Hend Hj. pose proof header_size. cbn [nth_slab]. split; [nia|].
  assert (Z.of_nat (S j) * step <= Z.of_nat n * step) by nia. nia.
Qed.
Lemma carve_outside n x : Z.of_nat n * step <= MALLOC_DEFAULT_BLOCK_SIZE → ¬ (ret <= x < ret + MALLOC_DEFAULT_BLOCK_SIZE) →
  carve n !! x = hs !! x.
Proof.
  intros Hend Hx. apply carve_out. intros j Hj ->. pose proof (carve_bounds n j Hend Hj). pose proof header_size. lia.
Qed.
End carve.


Lemma prepare_rep st Bs F k : rep st Bs F → 1 <= k < 5 → F k = [] →
  ∃ st' F', prepare_free_blocks mmap st (16 * k) = Some st' ∧ rep st' Bs F' ∧ ∀ j, j ≠ k → F' j = F j.
Proof.
  intros R Hk HF. unfold prepare_free_blocks. rewrite size_class. destruct (rep_free _ _ _ R k ltac:(lia)) as (E & _). rewrite HF in E.
  destruct (mmap (areas st) MALLOC_DEFAULT_BLOCK_SIZE) as [ret|] eqn:Emm.
  2:{ rewrite zset_in by (rewrite (rep_lists _ _ _ R); lia). bind_red. exists st, F. split; [|done].
      rewrite zget_lookup in E by lia. rewrite list_insert_id by done. by destruct st. }
  assert (fresh (areas st) ret MALLOC_DEFAULT_BLOCK_SIZE) as Hf by by apply (Hmmap (areas st) MALLOC_DEFAULT_BLOCK_SIZE ret).
  rewrite zset_in by (rewrite (rep_lists _ _ _ R); lia). bind_red. destruct Hf as (Hp & Hf') eqn:Ef. clear Ef.
  pose proof header_size as [HH H4]. destruct (carve_loop (headers st) ret (16 * k)) as (n & -> & Hn & Hend);
    [lia|unfold MALLOC_DEFAULT_BLOCK_SIZE; lia|].
  bind_red. rewrite (chain_loop (headers st) ret (16 * k)) by first [lia|apply carve_fuel; lia]. bind_red.
  set (hs' := carve (headers st) ret (16 * k) n). set (z := MALLOC_DEFAULT_BLOCK_SIZE) in *.
  pose proof (λ j, carve_bounds ret (16 * k) ltac:(lia) n j Hend) as Hin.
  pose proof (λ x, carve_outside (headers st) ret (16 * k) ltac:(lia) n x Hend) as Hout. fold hs' in Hout.
  assert (∀ x h, headers st !! x = Some h → block_is_slab h = true → hs' !! x = Some h) as Hkeep.
  { intros x h Hx Hs. rewrite Hout; [done|]. intros Hi. by rewrite (fresh_no_slab R ret z Hf eq_refl x h Hi Hx) in Hs. }
  assert (∀ x h, hs' !! x = Some h → block_is_slab h = true →
    (∃ j, (j < n)%nat ∧ x = nth_slab ret (16 * k) (S j) ∧ size h = 16 * k) ∨ headers st !! x = Some h) as Hinv.
  { intros x h Hx _. apply carve_inv in Hx as [(j & Hj & -> & ->)|]; [left; by exists j|by right]. }
  eexists _, (with_list F k [ret]). split; [reflexivity|]. split.
  2:{ intros j Hj. unfold with_list. by destruct (Z.eqb_spec j k). }
  pose proof R as [Rm Rb Rn Ra Rd Rl Rf Rs Rss]. split; cbn [memory areas free_blocks headers]; try done.
  - rewrite Forall_forall in Rb |- *. intros B0 HB0. destruct (Rb B0 HB0) as [(Hl & Ht & Hne & Hco) HA]. split; [|apply elem_of_app; by left].
    split; [|done]. apply (linked_same (headers st)); [|done]. intros c Hc. apply Hout. destruct (block_bounds R B0 c HB0 Hc) as (? & ? & ?).
    unfold c_end in *. destruct (fresh_block R ret z Hf eq_refl B0 HB0); lia.
  - apply (fresh_areas R ret z Hf eq_refl).
  - apply (fresh_disjoint R ret z Hf).
  - by rewrite length_insert.
  - intros j Hj. rewrite zget_insert by (rewrite Rl; lia). unfold with_list. rewrite (Z.eqb_sym j k).
    destruct (Z.eqb_spec k j) as [<-|]; [rewrite decide_True by done|rewrite decide_False by done].
    + split; [done|]. split; [|apply NoDup_singleton]. split; [|done]. exists (slab_header ret (16 * k) 0). split; [|done].
      replace ret with (nth_slab ret (16 * k) 1) at 1 by (cbn; lia). apply carve_in; lia.
    + destruct (Rf j Hj) as (? & Hl & ?). split; [done|]. split; [|done]. eapply slab_linked_same; [|done]. intros a h Hs Ha. by apply Hkeep.
  - intros x h Hx Hs. destruct (Hinv x h Hx Hs) as [(j & Hj & -> & Hz)|Hx'].
    + split; [by exists k|]. split.
      * cbn [nth_slab]. assert (ret mod 4 = 0) as Hr4 by by apply (fresh_areas R ret z Hf eq_refl (ret, z)); apply elem_of_app; right; left.
        rewrite Z.add_mod, Hr4, Z.mul_mod, (Z.add_mod (16 * k)), H4 by lia. replace (16 * k) with (4 * k * 4) by lia. by rewrite Z.mod_mul, Z.mul_0_r by lia.
      * exists (ret, z). split; [apply elem_of_app; right; left|]. destruct (Hin j Hj). unfold h_end. rewrite Hz. split; [done|]. split; [done|].
        intros (B & EB & HB)%list_elem_of_fmap. apply (fresh_not_in R ret z Hf eq_refl). rewrite EB. by apply (rep_block R).
    + destruct (Rs x h Hx' Hs) as (Hkk & Hx4 & r & Hr & ? & ? & ?). split; [done|]. split; [done|]. exists r. split; [apply elem_of_app; by left|done].
  - intros a h a' h' Ha Hs Ha' Hs' Hlt. pose proof (fresh_old R ret z Hf eq_refl) as Hold.
    destruct (Hinv a h Ha Hs) as [(j & Hj & -> & Hz)|Hx], (Hinv a' h' Ha' Hs') as [(j' & Hj' & -> & Hz')|Hx'].
    + unfold h_end. rewrite Hz. cbn [nth_slab] in *. assert (j < j')%nat by nia. nia.
    + destruct (Hin j Hj). pose proof (slab_pos R _ _ Hx' Hs'). unfold h_end in *. rewrite Hz. destruct (Hold _ _ Hx' Hs'); lia.
    + destruct (Hin j' Hj'). destruct (Hold _ _ Hx Hs); lia.
    + by apply (Rss a h a' h').
Qed.

Definition heap0 : heap := {| headers := ∅; memory := []; free_blocks := [0; 0; 0; 0; 0]; areas := [] |}.

Lemma rep_heap0 : rep heap0 [] (λ _, []).
Proof.
  split; cbn; try done; try by intros ? ?%not_elem_of_nil.
  - constructor.
  - intros r ? ?%not_elem_of_nil. done.
  - intros k Hk. split; [|split; [done|constructor]]. by assert (k = 0 ∨ k = 1 ∨ k = 2 ∨ k = 3 ∨ k = 4) as [->|[->|[->|[->| ->]]]] by lia.
Qed.

(** The heap after [_malloc_init]. *)
Lemma slab_init_rep : ∃ st F, _slab_init mmap heap0 = Some st ∧ rep st [] F.
Proof.
  unfold _slab_init. destruct (prepare_rep _ _ _ 1 rep_heap0) as (st1 & F1 & E1 & R1 & H1); [lia|done|].
  destruct (prepare_rep _ _ _ 2 R1) as (st2 & F2 & E2 & R2 & H2); [lia|by rewrite H1|].
  destruct (prepare_rep _ _ _ 3 R2) as (st3 & F3 & E3 & R3 & H3); [lia|by rewrite H2, H1|].
  destruct (prepare_rep _ _ _ 4 R3) as (st4 & F4 & E4 & R4 & _); [lia|by rewrite H3, H2, H1|].
  change (16 * 1) with 16 in E1. change (16 * 2) with 32 in E2. change (16 * 3) with 48 in E3. change (16 * 4) with 64 in E4.
  rewrite E1. bind_red. rewrite E2. bind_red. rewrite E3. bind_red. by exists st4, F4.
Qed.

(** ** The contract *)

Definition heap_ok (st : heap) : Prop := ∃ Bs F, rep st Bs F.
Definition request_ok (sz : Z) : Prop := 0 < sz < 2 ^ 31.
(** A pointer that [malloc] gave, and the size of its chunk. *)
Definition chunk_of (m : Z * Z) : chunk := {| c_addr := m.1 - HD; c_size := m.2; c_used := true |}.
Definition heap_range (m : Z * Z) : Z * Z := (m.1 - HD, HD + m.2).
Definition heap_owned (st : heap) (m : Z * Z) : Prop := chunk_of m ∈ chunks st.

(** [NULL], and an assertion that stops the program, hand nothing out. *)
Definition heap_alloc (sz : Z) (st : heap) : option (option (Z * Z) * heap) :=
  r ← malloc mmap st sz;
  match r with
  | SystemStop => Some (None, st)
  | Returned (p, st') => if p =? 0 then Some (None, st') else h ← headers st' !! (p - HD); Some (Some (p, size h), st')
  end.
Definition heap_free (m : Z * Z) (st : heap) : option heap := free st m.1.

Lemma heap_taken_true st i : heap_taken st i = true ↔ ∃ c, c ∈ chunks st ∧ c_used c = true ∧ inside c i = true.
Proof.
  unfold heap_taken. rewrite existsb_exists. split.
  - intros (c & Hc & [Hu Hi]%andb_prop). exists c. by rewrite list_elem_of_In.
  - intros (c & Hc & Hu & Hi). exists c. by rewrite <- list_elem_of_In, Hu, Hi.
Qed.
Lemma inside_range m i : in_range (heap_range m) i = inside (chunk_of m) i.
Proof. unfold in_range, inside, heap_range, chunk_of, c_end. cbn. apply bool_decide_ext. lia. Qed.
Lemma apart_inside c d i : apart c d → inside c i = true → inside d i = false.
Proof.
  intros Hap Hc%bool_decide_eq_true. apply bool_decide_eq_false. unfold apart in Hap. lia.
Qed.
Lemma chunk_header st Bs F c : rep st Bs F → c ∈ chunks st → ∃ h, headers st !! c_addr c = Some h ∧ size h = c_size c.
Proof.
  intros R [(B & HB & Hc)|(h & Ha & _ & Hz & _)]%(in_chunks R); [|by exists h].
  destruct (rep_block R B HB) as [(Hl & _) _]. apply list_elem_of_split in Hc as (l1 & l2 & El). rewrite El in Hl.
  apply linked_app in Hl as (_ & Hc & _). eexists. split; [exact Hc|done].
Qed.

Lemma heap_alloc_law sz st : heap_ok st → request_ok sz →
  ∃ h st', heap_alloc sz st = Some (h, st') ∧ heap_ok st' ∧
    match h with
    | None => st' = st
    | Some h => (∀ i, in_range (heap_range h) i = true → heap_taken st i = false) ∧
        (∀ i, 0 <= i → heap_taken st' i = in_range (heap_range h) i || heap_taken st i) ∧
        heap_owned st' h ∧ 0 < (heap_range h).2 ∧ ∀ h0, heap_owned st h0 → heap_owned st' h0
    end.
Proof.
  intros (Bs & F & R) Hsz. pose proof header_size as [HH _]. unfold heap_alloc.
  destruct (malloc_spec st Bs F sz R Hsz) as [->|[->|(c & st' & Bs' & F' & -> & R' & Hp & Hle & Hu & Hap & Hin)]]; bind_red.
  - exists None, st. split; [done|]. split; [by exists Bs, F|done].
  - exists None, st. split; [done|]. split; [by exists Bs, F|done].
  - destruct (Z.eqb_spec (c_addr c + HD) 0); [lia|]. replace (c_addr c + HD - HD) with (c_addr c) by lia.
    assert (c ∈ chunks st') as Hc by (apply Hin; [done|by left]). destruct (chunk_header st' Bs' F' c R' Hc) as (h & Ha & Ez). rewrite Ha. bind_red. rewrite Ez.
    set (m := (c_addr c + HD, c_size c)). assert (chunk_of m = c) as Em by (apply chunk_eq; cbn; [lia|done|done]).
    exists (Some m), st'. split; [done|]. split; [by exists Bs', F'|]. split; [|split; [|split; [|split]]].
    + intros i. rewrite inside_range, Em. intros Hi. apply not_true_is_false. intros (d & Hd & Hud & Hid)%heap_taken_true.
      by rewrite (apart_inside c d i (Hap d Hd Hud) Hi) in Hid.
    + intros i _. rewrite inside_range, Em. apply eq_iff_eq_true. rewrite orb_true_iff, !heap_taken_true. split.
      * intros (d & Hd & Hud & Hid). apply Hin in Hd as [->|Hd]; [by left|right; by exists d|done].
      * intros [Hi|(d & Hd & Hud & Hid)]; [by exists c|exists d]. split; [|done]. apply Hin; [done|by right].
    + unfold heap_owned. by rewrite Em.
    + change (0 < HD + c_size c). unfold request_ok in Hsz. lia.
    + intros h0 Hh0. apply Hin; [done|by right].
Qed.

Lemma heap_free_law m st : heap_ok st → heap_owned st m →
  ∃ st', heap_free m st = Some st' ∧ heap_ok st' ∧
    (∀ i, 0 <= i → heap_taken st' i = negb (in_range (heap_range m) i) && heap_taken st i) ∧
    ∀ h0, heap_owned st h0 → range_disjoint (heap_range m) (heap_range h0) → heap_owned st' h0.
Proof.
  intros (Bs & F & R) Ho. pose proof header_size as [HH _]. destruct (chunk_free_spec st Bs F (chunk_of m) R Ho eq_refl) as (st' & Bs' & F' & Ef & R' & Hls).
  cbn [chunk_of c_addr] in Ef. replace (m.1 - HD + HD) with m.1 in Ef by lia. exists st'. split; [done|]. split; [by exists Bs', F'|]. split.
  - intros i _. rewrite inside_range. apply eq_iff_eq_true. rewrite andb_true_iff, negb_true_iff, !heap_taken_true. split.
    + intros (d & Hd & Hud & Hid). apply Hls in Hd as [Hd Hne]; [|done]. split; [|by exists d].
      apply (apart_inside d); [|done]. by apply (chunks_apart R).
    + intros [Hi (d & Hd & Hud & Hid)]. exists d. split; [|done]. apply Hls; [done|]. split; [done|]. intros ->. by rewrite Hi in Hid.
  - intros h0 Hh0 Hdis. apply Hls; [done|]. split; [done|]. intros E. destruct (chunk_bounds R _ Hh0) as (_ & _ & ? & _).
    apply (Hdis (h0.1 - HD)); [|unfold heap_range; cbn in *; lia]. injection E as E1 E2. unfold heap_range. cbn in *. lia.
Qed.

#[global] Instance malloc_allocator : RangeAllocator heap Z (Z * Z).
Proof.
  refine {| ra_alloc := heap_alloc; ra_free := heap_free; ra_range := heap_range; ra_taken := heap_taken;
            ra_inv := heap_ok; ra_req_ok := request_ok; ra_owned := heap_owned |}.
  - intros st m i Ho Hi. apply heap_taken_true. exists (chunk_of m). by rewrite <- inside_range.
  - apply heap_alloc_law.
  - apply heap_free_law.
Defined.

(** ** Properties *)

Lemma new_heap_live st0 st live : _slab_init mmap heap0 = Some st0 → rtc alloc_step (st0, []) (st, live) → live_ok (st, live).
Proof.
  intros Hi Hr. destruct slab_init_rep as (st0' & F & Hi' & R). rewrite Hi in Hi'. injection Hi' as <-.
  apply (alloc_reachable_ok _ _ Hr). split; [by exists [], F|by split].
Qed.

(** C2. Whatever the program allocated and freed before, the chunks it holds have
    no byte in common, neither of the memory nor of the headers before it; all
    are aligned to 4 bytes and lie below the middle of the address space. *)
Theorem malloc_live_chunks_disjoint st0 st live : _slab_init mmap heap0 = Some st0 → rtc alloc_step (st0, []) (st, live) →
  (∀ p n, (p, n) ∈ live → HD < p ∧ p mod 4 = 0 ∧ p + n < 2 ^ (ptr_bits - 1)) ∧
  ∀ i j p n p' n', i ≠ j → live !! i = Some (p, n) → live !! j = Some (p', n') → range_disjoint (p - HD, HD + n) (p' - HD, HD + n').
Proof.
  intros Hi Hr. destruct (new_heap_live _ _ _ Hi Hr) as ((Bs & F & R) & Ho & Hp). split.
  - intros p n Hin. rewrite Forall_forall in Ho. destruct (chunk_bounds R _ (Ho _ Hin)) as (H1 & H4 & _ & H3). destruct header_size as [_ Hh].
    unfold c_end in H3. cbn [chunk_of c_addr c_size fst snd] in *. split; [lia|]. split; [|lia].
    replace p with (p - HD + HD) by lia. by rewrite Z.add_mod, H4, Hh by lia.
  - intros i j p n p' n' Hij Hi1 Hj1. apply (pairwise_lookup live i j (p, n) (p', n') Hp Hij Hi1 Hj1).
Qed.

(** *** When everything is free *)

(** The blocks are new: none is an area of [st0]. *)
Definition new_blocks (st0 st : heap) : Prop :=
  (∀ r, r ∈ areas st0 → r ∈ areas st) ∧ ∀ b s, b ∈ memory st → (b, s) ∉ areas st0.

Lemma malloc_blocks st sz p st' : malloc mmap st sz = Some (Returned (p, st')) →
  (memory st' = memory st ∧ areas st' = areas st) ∨
  ∃ a s, 0 < s ∧ mmap (areas st) s = Some a ∧ memory st' = memory st ++ [a] ∧ areas st' = areas st ++ [(a, s)].
Proof.
  unfold malloc. destruct (sz =? 0); [intros [= <- <-]; by left|]. intros ([res st1] & E1 & E)%bind_Some.
  assert (memory st1 = memory st ∧ areas st1 = areas st) as [Em Ea].
  { unfold slab_alloc in E1. destruct (64 <? _); [by injection E1 as <- <-|]. apply bind_Some in E1 as (zone & _ & E1).
    destruct (zone =? 0); [by injection E1 as <- <-|]. apply bind_Some in E1 as (h & _ & (l & _ & [= <- <-])%bind_Some). done. }
  destruct (negb (res =? 0)); [injection E as <- <-; by left|]. rewrite <- Em, <- Ea. unfold malloc_chunk in E. apply bind_Some in E as (r & _ & E).
  destruct r as [c|]; cbn [kbind] in E.
  { apply bind_Some in E as (hs & _ & [= <- <-]). by left. }
  destruct (_alloc_new_block mmap st1 (round_size sz)) as [[err st2]|] eqn:En; [|done]. cbn [kbind] in E.
  unfold _alloc_new_block in En. destruct (_ <=? _); [done|]. set (s := if MALLOC_DEFAULT_BLOCK_SIZE <? _ then _ else _) in En.
  destruct (mmap (areas st1) s) as [a|] eqn:Emm; injection En as <- <-.
  - right. apply bind_Some in E as (hs & _ & [= <- <-]). exists a, s. split; [|done]. unfold s, MALLOC_DEFAULT_BLOCK_SIZE. destruct (Z.ltb_spec 4096 (usize (round_size sz + HD))); lia.
  - injection E as <- <-. by left.
Qed.

Lemma free_blocks_same st p st' : free st p = Some st' → memory st' = memory st ∧ areas st' = areas st.
Proof.
  unfold free. destruct (p =? 0); [by intros [= <-]|]. intros (h & _ & E)%bind_Some. destruct (block_is_slab h).
  - unfold slab_free in E. apply bind_Some in E as (h1 & _ & (nx & _ & (l & _ & (hs & _ & [= <-])%bind_Some)%bind_Some)%bind_Some). done.
  - apply bind_Some in E as (hs & _ & (s & _ & (hs' & _ & [= <-])%bind_Some)%bind_Some). done.
Qed.

Lemma step_new_blocks st0 s s' : (∀ r, r ∈ areas st0 → 0 < r.2) → alloc_step s s' → new_blocks st0 s.1 → new_blocks st0 s'.1.
Proof.
  intros Hpos Hstep [Hsub Hnew].
  assert (∀ sz p st', malloc mmap s.1 sz = Some (Returned (p, st')) → new_blocks st0 st') as Hm.
  { intros sz p st' E. destruct (malloc_blocks _ _ _ _ E) as [[Em Ea]|(a & z & Hz & Emm & Em & Ea)]; unfold new_blocks; rewrite Em, Ea; [done|].
    split; [intros r Hr; apply elem_of_app; left; auto|]. intros b z' [Hb| ->%list_elem_of_singleton]%elem_of_app; [by apply Hnew|].
    intros Hin. destruct (Hmmap (areas s.1) z a Hz Emm) as (_ & _ & _ & Hd). apply (Hd _ (Hsub _ Hin) a); cbn; [lia|]. specialize (Hpos _ Hin). cbn in Hpos. lia. }
  assert (∀ sz h st', ra_alloc sz s.1 = Some (h, st') → new_blocks st0 st') as Ha.
  { intros sz h st' (r & E & E')%bind_Some. destruct r as [[p st1]|]; [|by injection E' as <- <-]. specialize (Hm _ _ _ E).
    destruct (p =? 0); [by injection E' as <- <-|]. by apply bind_Some in E' as (h1 & _ & [= <- <-]). }
  destruct Hstep as [st live r h st' Hr E|st live r st' Hr E|st l1 h l2 st' E]; cbn [fst] in *; [by eapply Ha..|].
  destruct (free_blocks_same _ _ _ E) as [Em Ea]. split; [by rewrite Ea|by rewrite Em].
Qed.

(** C16. A program that has freed everything it allocated, in any order, leaves each
    block as it was when it was mapped: one free chunk. *)
Theorem malloc_all_freed st0 st b : _slab_init mmap heap0 = Some st0 → rtc alloc_step (st0, []) (st, []) → b ∈ memory st →
  ∃ s, (b, s) ∈ areas st ∧ headers st !! b = Some {| size := s - HD; flags := 0; next := 0; prev := 0 |}.
Proof.
  intros Hi Hr Hb. destruct slab_init_rep as (st0' & F0 & Hi' & R0). rewrite Hi in Hi'. injection Hi' as <-.
  destruct (new_heap_live _ _ _ Hi Hr) as ((Bs & F & R) & _). cbn [fst] in R.
  assert (new_blocks st0 st) as [Hsub Hnew].
  { assert (∀ s s', rtc alloc_step s s' → new_blocks st0 s.1 → new_blocks st0 s'.1) as Hall.
    { assert (∀ r, r ∈ areas st0 → 0 < r.2) by (intros r Hr1; apply (rep_areas _ _ _ R0 r Hr1)). induction 1; eauto using step_new_blocks. }
    apply (Hall _ _ Hr). split; [done|]. cbn [fst]. rewrite (rep_memory _ _ _ R0). by intros ? ? ?%not_elem_of_nil. }
  rewrite (rep_memory _ _ _ R) in Hb. apply list_elem_of_fmap in Hb as (B & -> & HB). destruct (rep_block R B HB) as [(Hl & Ht & Hne & Hco) HA].
  assert (Forall c_free (b_chunks B)) as Hfree.
  { apply Forall_forall. intros c Hc. apply not_true_is_false. intros Hu. destruct (block_bounds R B c HB Hc) as (Hc1 & Hc2 & Hc3).
    pose proof header_size. destruct (rep_area R B HB) as (? & _).
    assert (heap_taken st (c_addr c) = true) as Htk.
    { apply heap_taken_true. exists c. split; [apply (in_chunks R); left; eauto|]. split; [done|]. apply bool_decide_eq_true. unfold c_end. lia. }
    change (ra_taken st (c_addr c) = true) in Htk. rewrite (all_freed st0 st (c_addr c)) in Htk by first [by exists [], F0|done|lia].
    apply heap_taken_true in Htk as (d & [(B0 & ?%not_elem_of_nil & _)|(h & Hh & Hs & Hz & _)]%(in_chunks R0) & _ & Hd%bool_decide_eq_true); [done|].
    destruct (rep_slab _ _ _ R0 _ h Hh Hs) as (_ & _ & r & Hr0 & Hr1 & Hr2 & _). unfold h_end, c_end in *. rewrite Hz in Hd.
    destruct (areas_apart R r (area B) (Hsub r Hr0) HA) as [Hx|Hx]; [|cbn [area fst snd] in Hx; lia..].
    intros ->. by apply (Hnew (b_addr B) (b_size B)); [rewrite (rep_memory _ _ _ R); by apply list_elem_of_fmap_2|]. }
  exists (b_size B). split; [done|]. destruct (b_chunks B) as [|c [|d l]]; [done| |].
  - destruct Hl as [Hc _], Ht as (Ea & _ & _ & Et). apply Forall_cons in Hfree as [Hcf _]. rewrite <- Ea, Hc. unfold header_of. cbn in Hcf.
    unfold c_free in Hcf. rewrite Hcf. cbn [head_addr]. do 2 f_equal. cbn in Et. unfold c_end in Et. lia.
  - apply Forall_cons in Hfree as [Hc1 [Hc2 _]%Forall_cons]. cbn in Hco. unfold c_free in *. destruct Hco as [[?|?] _]; congruence.
Qed.

(** C33. [realloc] of a live chunk. Either it answers with the same pointer or with
    NULL, and the heap is as it was; or the system stops, out of memory; or it
    answers with another chunk, which overlaps no chunk that is live, the old one
    included, while the copy is made: both have room for the bytes that [memcpy]
    is told to copy, the least of both sizes. (The bytes of the chunks are not in
    this model; the copying is that of [LibcString.v].) The old chunk is then freed
    and all others stay live. *)
Theorem realloc_moves st p n sz : heap_ok st → heap_owned st (p, n) → 0 < sz < 2 ^ 31 →
  (∃ q st', realloc mmap st p sz = Some (Returned (q, 0, st')) ∧ st' = st ∧ (q = 0 ∨ (q = p ∧ sz = n))) ∨
  realloc mmap st p sz = Some SystemStop ∨
  ∃ q m st', realloc mmap st p sz = Some (Returned (q, Z.min sz n, st')) ∧ heap_ok st' ∧ heap_owned st' (q, m) ∧ sz <= m ∧
    (∀ h0, heap_owned st h0 → range_disjoint (heap_range h0) (heap_range (q, m)) ∧ (h0 ≠ (p, n) → heap_owned st' h0)) ∧
    ∀ i, 0 <= i → heap_taken st' i = in_range (heap_range (q, m)) i || negb (in_range (heap_range (p, n)) i) && heap_taken st i.
Proof.
  intros (Bs & F & R) Ho Hsz. pose proof header_size as [HH _]. destruct (chunk_bounds R _ Ho) as (Hp & _ & Hn & He).
  unfold c_end in He. cbn [chunk_of c_addr c_size fst snd] in *.
  assert (2 ^ ptr_bits = 2 * 2 ^ (ptr_bits - 1)) as Hp2 by by destruct ptr_bits_cases as [-> | ->].
  destruct (chunk_header st Bs F _ R Ho) as (h & Hh & Ez). cbn [chunk_of c_addr c_size fst snd] in *.
  unfold realloc. destruct (Z.eqb_spec p 0); [lia|]. rewrite usize_small, Hh by lia. bind_red. rewrite Ez.
  destruct (Z.eqb_spec n sz) as [->|Hne]; [left; exists p, st; auto|].
  destruct (malloc_spec st Bs F sz R Hsz) as [->|[->|(c & st' & Bs' & F' & -> & R' & Hcp & Hle & Hu & Hap & Hin)]]; cbn [kbind];
    [by right; left|left; exists 0, st; auto|]. right. right. destruct (Z.eqb_spec (c_addr c + HD) 0); [lia|].
  assert (chunk_of (p, n) ∈ chunks st') as Ho' by (apply Hin; [done|by right]).
  destruct (chunk_free_spec st' Bs' F' _ R' Ho' eq_refl) as (st2 & Bs2 & F2 & Ef & R2 & Hls). cbn [chunk_of c_addr fst] in Ef.
  replace (p - HD + HD) with p in Ef by lia. rewrite Ef. bind_red.
  assert (chunk_of (c_addr c + HD, c_size c) = c) as Ec by (apply chunk_eq; cbn [chunk_of c_addr c_size c_used fst snd]; [lia|done|done]).
  assert (c ∈ chunks st') as Hc by (apply Hin; [done|by left]). assert (apart c (chunk_of (p, n))) as Hac by by apply Hap.
  assert (c ≠ chunk_of (p, n)) as Hcn.
  { intros ->. unfold apart, c_end in Hac. cbn [chunk_of c_addr c_size fst snd] in Hac. lia. }
  exists (c_addr c + HD), (c_size c), st2. replace (if sz <? n then sz else n) with (Z.min sz n) by (destruct (Z.ltb_spec sz n); lia).
  split; [done|]. split; [by exists Bs2, F2|]. split; [unfold heap_owned; rewrite Ec; by apply Hls|]. split; [done|]. split.
  - intros [p0 k0] Hh0. split.
    + pose proof (Hap _ Hh0 eq_refl) as Hap0. unfold apart, c_end in Hap0. cbn [chunk_of c_addr c_size fst snd] in Hap0.
      intros i. unfold heap_range. cbn [fst snd]. lia.
    + intros Hne0. apply Hls; [done|]. split; [apply Hin; [done|by right]|]. intros E. apply Hne0.
      injection E as E1 E2. f_equal; lia.
  - intros i _. rewrite !inside_range, Ec. apply eq_iff_eq_true. rewrite orb_true_iff, andb_true_iff, negb_true_iff, !heap_taken_true. split.
    + intros (d & Hd & Hud & Hid). apply Hls in Hd as [Hd Hdp]; [|done]. apply Hin in Hd as [->|Hd]; [by left| |done]. right. split; [|by exists d].
      apply (apart_inside d); [|done]. by apply (chunks_apart R).
    + intros [Hi|(Hi & d & Hd & Hud & Hid)]; [exists c; split; [by apply Hls|done]|]. exists d. split; [|done]. apply Hls; [done|]. split.
      * apply Hin; [done|by right].
      * intros ->. by rewrite Hi in Hid.
Qed.
End chunks.

(** ** A system call that maps one area behind the other *)

Definition bump_mmap `{Target} (ar : list (Z * Z)) (sz : Z) : option Z :=
  let a := (foldr (λ r t, Z.max t (r.1 + r.2)) 0x10000000 ar + 4095) / 4096 * 4096 in
  if a + sz <? 2 ^ (ptr_bits - 1) then Some a else None.

Lemma bump_mmap_fresh `{Target} : mmap_fresh bump_mmap.
Proof.
  intros ar sz a Hsz. unfold bump_mmap. set (t := foldr _ _ ar). assert (0x10000000 <= t ∧ ∀ r, r ∈ ar → r.1 + r.2 <= t) as [Ht Hr].
  { subst t. induction ar as [|r ar [IH1 IH2]]; cbn [foldr]; [split; [lia|by intros ? ?%not_elem_of_nil]|].
    split; [lia|]. intros r' [->|Hr']%elem_of_cons; [lia|]. specialize (IH2 r' Hr'). lia. }
  destruct (Z.ltb_spec ((t + 4095) / 4096 * 4096 + sz) (2 ^ (ptr_bits - 1))); [|done]. intros [= <-].
  split; [Z.to_euclidean_division_equations; lia|]. split; [by apply Z.mod_mul|]. split; [done|].
  intros r Hin i Hi1 Hi2. specialize (Hr r Hin). cbn [fst snd] in *. Z.to_euclidean_division_equations. lia.
Qed.

Section run32.
#[local] Existing Instance target32.

Definition new_heap : heap := default heap0 (_slab_init bump_mmap heap0).
Lemma new_heap_is : _slab_init bump_mmap heap0 = Some new_heap.
Proof. vm_compute. reflexivity. Qed.

Definition run (ops : list (Z + nat)) : option (heap * list (Z * Z)) :=
  alloc_run (RangeAllocator0 := malloc_allocator bump_mmap bump_mmap_fresh) ops (new_heap, []).
(** Small and large chunks; 40 and 60 bytes are slabs, and 80 bytes fill the gap of the 100. *)
Definition some_calls : list (Z + nat) := [inl 20; inl 20; inl 100; inl 5000; inr 1%nat; inl 40; inl 60; inl 80].
Definition some_live : list (Z * Z) := [(268451892, 80); (268447760, 64); (268443664, 48); (268455952, 5000); (268451856, 20); (268439568, 32)].
(** They are freed in another order. *)
Definition all_back : list (Z + nat) := [inr 4%nat; inr 1%nat; inr 0%nat; inr 1%nat; inr 1%nat; inr 0%nat].

Lemma some_calls_live : snd <$> run some_calls = Some some_live.
Proof. vm_compute. reflexivity. Qed.
Lemma all_back_live : snd <$> run (some_calls ++ all_back) = Some [].
Proof. vm_compute. reflexivity. Qed.

Lemma run_reach ops live : Forall (λ op, match op with inl r => request_ok r | inr _ => True end) ops → snd <$> run ops = Some live →
  ∃ st, fst <$> run ops = Some st ∧ rtc (alloc_step (RangeAllocator0 := malloc_allocator bump_mmap bump_mmap_fresh)) (new_heap, []) (st, live).
Proof.
  intros Hok E. destruct (run ops) as [[st l]|] eqn:Er; [|done]. injection E as <-. exists st. split; [done|]. by apply (alloc_run_reach ops).
Qed.
Lemma some_calls_ok : Forall (λ op, match op with inl r => request_ok r | inr _ => True end) some_calls.
Proof. unfold request_ok. by repeat constructor. Qed.
Lemma all_calls_ok : Forall (λ op, match op with inl r => request_ok r | inr _ => True end) (some_calls ++ all_back).
Proof. unfold request_ok. by repeat constructor. Qed.

Lemma malloc_live_chunks_disjoint_witness : range_disjoint (268451876, 96) (268451840, 36).
Proof.
  destruct (run_reach _ _ some_calls_ok some_calls_live) as (st & _ & Hr).
  apply (proj2 (malloc_live_chunks_disjoint bump_mmap bump_mmap_fresh new_heap st some_live new_heap_is Hr) 0%nat 4%nat
    268451892 80 268451856 20); done.
Defined.

Lemma last_memory : memory <$> (fst <$> run (some_calls ++ all_back)) = Some [268451840; 268455936].
Proof. vm_compute. reflexivity. Qed.

Lemma malloc_all_freed_witness : ∃ st s, fst <$> run (some_calls ++ all_back) = Some st ∧ (268451840, s) ∈ areas st ∧
  headers st !! 268451840 = Some {| size := s - 16; flags := 0; next := 0; prev := 0 |}.
Proof.
  destruct (run_reach _ _ all_calls_ok all_back_live) as (st & Est & Hr).
  destruct (malloc_all_freed bump_mmap bump_mmap_fresh new_heap st 268451840 new_heap_is Hr) as (s & Hs).
  - pose proof last_memory as Hm. rewrite Est in Hm. injection Hm as ->. left.
  - exists st, s. split; [exact Est|exact Hs].
Defined.

Lemma realloc_moved : (λ '(st, _), match realloc bump_mmap st 268451892 200 with
  | Some (Returned (q, n, _)) => Some (q =? 0, n) | _ => None end) <$> run some_calls = Some (Some (false, 80)).
Proof. vm_compute. reflexivity. Qed.

Lemma realloc_moves_witness : ∃ st, fst <$> run some_calls = Some st ∧
  ∃ q m st', realloc bump_mmap st 268451892 200 = Some (Returned (q, 80, st')) ∧ 200 <= m ∧
     range_disjoint (heap_range (268451892, 80)) (heap_range (q, m)).
Proof.
  destruct (run_reach _ _ some_calls_ok some_calls_live) as (st & Est & Hr). exists st. split; [exact Est|].
  destruct (new_heap_live bump_mmap bump_mmap_fresh new_heap st some_live new_heap_is Hr) as (Hok & Ho & _).
  pose proof (Forall_lookup_1 _ _ 0%nat (268451892, 80) Ho eq_refl) as Hown.
  pose proof realloc_moved as Hm0. destruct (run some_calls) as [[st0 live0]|]; [|done]. injection Est as ->. cbn [fmap option_fmap option_map] in Hm0.
  destruct (realloc_moves bump_mmap bump_mmap_fresh st 268451892 80 200 Hok Hown ltac:(lia))
    as [(q & st' & E & _ & Hq)|[E|(q & m & st' & E & _ & _ & Hm & Hd & _)]]; rewrite E in Hm0.
  - destruct Hq as [->|[_ Hq]]; [discriminate Hm0|discriminate Hq].
  - discriminate Hm0.
  - exists q, m, st'. split; [exact E|]. split; [exact Hm|exact (proj1 (Hd _ Hown))].
Defined.

(** *** What else it does *)

(** Four kilobytes are cut into 128 slabs of 16 bytes, and the free list has one. *)
Example one_slab_in_list : slab_list new_heap 1 = [268435456] ∧
  length (List.filter (λ e, size e.2 =? 16) (map_to_list (headers new_heap))) = 128%nat.
Proof. split; vm_compute; reflexivity. Qed.

(** Sizes near the end of the address space wrap around: 4294967295 bytes are a
    chunk of none, and the rest of a chunk of 4294967280 bytes has its header on
    top of it, where the new chunk loses its link and the code goes through NULL. *)
Definition malloc_size (ops : list (Z + nat)) (sz : Z) : option (Z * Z) :=
  '(st, _) ← run ops;
  match malloc bump_mmap st sz with
  | Some (Returned (p, st)) => h ← headers st !! (p - 16); Some (p, size h)
  | _ => None
  end.
Example malloc_wraps : malloc_size [inl 100] 0xFFFFFFFF = Some (268451972, 0) ∧ malloc_size [inl 100] 0xFFFFFFF0 = None.
Proof. split; vm_compute; reflexivity. Qed.

(** 65537 times 65537 bytes are 131073 bytes. *)
Example calloc_wraps : (match calloc bump_mmap new_heap 65537 65537 with Some (Returned (p, n, st)) => h ← headers st !! (p - 16); Some (n, size h) | _ => None end) =
  Some (131073, 131076).
Proof. vm_compute. reflexivity. Qed.
End run32.

(** On 64 bits the mask cuts the size to its lower half. *)
Example round_size_cuts : @round_size target64 (2 ^ 32 + 8) = 8.
Proof. reflexivity. Qed.
