(* ===== verification/BootFs.v ===== *)
(** * BootFs: what the boot loader needs of a file system

    The function pointers of [fs_desc] ([boot/libboot/abi/drivers.h]) and what
    their users rely on: a file has bytes, and a read returns them. The inode
    type is the file system's. *)
From stdpp Require Import gmap.
From S2P Require Import Prelude Memory.

Class BootFs (inode : Type) := {
  (** The bytes a path names; [Some None] is an error. *)
  fs_get_inode : mem → Z → option (option inode);
  fs_read_from_inode : inode → Z → Z → option (list Z);
  fs_read : mem → Z → Z → Z → option (list Z);
  (** An inode as [fs_get_inode] gives it, and the bytes of its file. *)
  fs_inode_ok : inode → Prop;
  fs_byte : inode → Z → Z;
  fs_byte_range i x : byte (fs_byte i x);
  fs_get_ok m path i : fs_get_inode m path = Some (Some i) → fs_inode_ok i;
  fs_read_bytes i from len : fs_inode_ok i → 0 <= from → 0 < len → from + len <= 2 ^ 32 →
    fs_read_from_inode i from len = Some (map (fs_byte i) (seqZ from len));
  fs_read_path m path i from len : fs_get_inode m path = Some (Some i) →
    fs_read m path from len = fs_read_from_inode i from len;
}.
