(* ===== verification/Ext2Lite.v ===== *)
(** * Ext2Lite: the file system of the boot loader, [boot/libboot/fs/ext2_lite.c]

    The drive is a function from a sector to its 512 bytes: the [read] of the
    [drive_desc] belongs to the drivers. What is read from the disk into packed
    records is parsed by the offsets of their fields, and the records keep the
    fields the code uses. A path lies in memory. The static buffers are filled
    before they are used; bytes that a read did not fill are left from earlier
    calls and the model gives them no value. *)
From stdpp Require Import gmap.
From S2P Require Import Prelude Platform Memory Libkern BootFs.

Definition SUPERBLOCK_START : Z := 1024.
Definition SUPERBLOCK_LEN : Z := 1024.
Definition GROUP_LEN : Z := 32.
Definition INODE_LEN : Z := 128.

Record superblock_t := {
  log_block_size : Z;
  inodes_per_group : Z;
  magic : Z;
  rev_level : Z;
}.
Definition parse_superblock (b : list Z) : option superblock_t :=
  log ← field b 24 4; ipg ← field b 40 4; mg ← field b 56 2; rev ← field b 76 4;
  Some {| log_block_size := log; inodes_per_group := ipg; magic := mg; rev_level := rev |}.

Record group_desc_t := { inode_table : Z }.
Definition parse_group (b : list Z) : option group_desc_t :=
  t ← field b 8 4; Some {| inode_table := t |}.

(** The 15 block numbers of an inode. *)
Record inode_t := { block : list Z }.
Definition parse_inode (b : list Z) : option inode_t :=
  blocks ← mapM (λ i, field b (40 + 4 * i) 4) (seqZ 0 15); Some {| block := blocks |}.

Section ext2_lite.
Context (sector : Z → list Z).

Section mounted.
Context (sb : superblock_t).

Definition _ext2_lite_get_block_len : Z := u32 (Z.shiftl 1 (u32 (log_block_size sb + 10))).
Definition _ext2_lite_get_offset_of_block (block_index : Z) : Z :=
  u32 (SUPERBLOCK_START + u32 (u32 (block_index - 1) * _ext2_lite_get_block_len)).
End mounted.

(** [out] is what is in [buf] so far. *)
Definition read_step (s : Z * Z * list Z) : option (Z * Z * list Z + list Z) :=
  let '(start, len, out) := s in
  if len =? 0 then Some (inr out) else
  let start_offset := start mod 512 in
  bytes ← zread (sector (start / 512)) start_offset (Z.min (512 - start_offset) len);
  let len := len - Z.min (512 - start_offset) len in
  Some (inl (u32 (start + Z.min (512 - start_offset) len), len, out ++ bytes)).

Definition _ext2_lite_read (start len : Z) : option (list Z) :=
  loop (S (Z.to_nat len)) read_step (start, len, []).

Definition _ext2_lite_read_group (sb : superblock_t) (group_id : Z) : option group_desc_t :=
  let group_start :=
    u32 (SUPERBLOCK_START + _ext2_lite_get_block_len sb + u32 (group_id * GROUP_LEN)) in
  b ← _ext2_lite_read group_start GROUP_LEN; parse_group b.

Definition _ext2_lite_read_inode (sb : superblock_t) (inode_id : Z) : option inode_t :=
  if inodes_per_group sb =? 0 then None else
  let holder_group := u32 (inode_id - 1) / inodes_per_group sb in
  let pos_inside_group := u32 (inode_id - 1) mod inodes_per_group sb in
  gr ← _ext2_lite_read_group sb holder_group;
  let inode_start := u32 (SUPERBLOCK_START +
    u32 (u32 (inode_table gr - 1) * _ext2_lite_get_block_len sb) + u32 (pos_inside_group * INODE_LEN)) in
  b ← _ext2_lite_read inode_start INODE_LEN; parse_inode b.

(** The result and the superblock. *)
Definition ext2_lite_init : option (Z * superblock_t) :=
  b ← _ext2_lite_read SUPERBLOCK_START SUPERBLOCK_LEN;
  sb ← parse_superblock b;
  if negb (magic sb =? 0xEF53) then Some (-1, sb)
  else if negb (rev_level sb =? 0) then Some (-1, sb)
  else if 3 <? log_block_size sb then Some (-1, sb)
  else Some (0, sb).

(** ** Directories *)

(** The comparison goes on over the whole name, also past a difference and past
    the end of the path. *)
Definition name_matches (m : mem) (path : Z) (buf : list Z) (off name_len : Z) : option bool :=
  is_name_correct ← for_n (Z.to_nat name_len) 0 (λ i is_name_correct,
    p ← m !! (path + i); c ← buf.[off + 8 + i];
    Some (is_name_correct && (p =? c))) true;
  e ← m !! (path + name_len);
  Some (is_name_correct && ((e =? 0) || (e =? 47))).

Definition entry_step (m : mem) (path : Z) (buf : list Z) (block_len off : Z) : option (Z + option Z) :=
  inode ← field buf off 4;
  if inode =? 0 then Some (inr None) else
  name_len ← field buf (off + 6) 1;
  ok ← name_matches m path buf off name_len;
  if ok : bool then Some (inr (Some inode)) else
  rec_len ← field buf (off + 4) 2;
  let off := off + rec_len in
  if block_len <=? off then Some (inr None) else Some (inl off).

(** The inode that is found. The function hangs for a block length other than
    1024, and for an entry of length 0: [None]. *)
Definition ext2_lite_has_in_dir (sb : superblock_t) (m : mem) (block_index path : Z) : option (option Z) :=
  if block_index =? 0 then Some None else
  let block_len := _ext2_lite_get_block_len sb in
  if negb (block_len =? 1024) then None else
  buf ← _ext2_lite_read (_ext2_lite_get_offset_of_block sb block_index) block_len;
  loop (S (Z.to_nat block_len)) (entry_step m path buf block_len) 0.

(** The first of the twelve direct blocks that has the name. *)
Definition scan_blocks (sb : superblock_t) (m : mem) (inode : inode_t) (path : Z) : option (option Z) :=
  r ← for_loop 12 0 (λ i (_ : unit),
    b ← (block inode).[i];
    if negb (b =? 0) then
      found ← ext2_lite_has_in_dir sb m b path;
      Some (match found with Some n => inr n | None => inl () end)
    else Some (inl ())) ();
  Some (match r with inl _ => None | inr n => Some n end).

(** Past the component; [true] if the path ends there. *)
Definition next_component (m : mem) (path : Z) : option (Z * bool) :=
  path ← loop (str_fuel m) (λ path,
    c ← m !! path;
    if negb (c =? 0) && negb (c =? 47) then Some (inl (path + 1)) else Some (inr path)) path;
  loop (str_fuel m) (λ path,
    c ← m !! path;
    if negb (c =? 47) then (if c =? 0 then Some (inr (path, true)) else Some (inl (path + 1)))
    else Some (inr (path, false))) path.

(** The inode of the path, or the error -1. *)
Definition ext2_lite_scan_dir (sb : superblock_t) (m : mem) (inode : inode_t) (path : Z)
  : option (option inode_t) :=
  loop (str_fuel m) (λ '(inode, path),
    found ← scan_blocks sb m inode path;
    match found with
    | None => Some (inr None)
    | Some nxt_inode_index =>
        '(path, last) ← next_component m path;
        inode ← _ext2_lite_read_inode sb nxt_inode_index;
        Some (if last : bool then inr (Some inode) else inl (inode, path + 1))
    end) (inode, path).

Definition ext2_lite_get_inode (sb : superblock_t) (m : mem) (path : Z) : option (option inode_t) :=
  root_inode ← _ext2_lite_read_inode sb 2;
  c ← m !! path;
  if c =? 47 then ext2_lite_scan_dir sb m root_inode (path + 1)
  else ext2_lite_scan_dir sb m root_inode path.

(** ** Files *)

Section file.
Context (sb : superblock_t).
Let block_bytes (b : Z) : option (list Z) :=
  _ext2_lite_read (_ext2_lite_get_offset_of_block sb b) (_ext2_lite_get_block_len sb).

Definition _ext2_lite_get_block_of_file_lev0 (cur_block file_block_index : Z) : option Z :=
  buf ← block_bytes cur_block;
  field buf (4 * file_block_index) 4.

Definition _ext2_lite_get_block_of_file_lev1 (cur_block file_block_index : Z) : option Z :=
  buf ← block_bytes cur_block;
  let lev_contain := _ext2_lite_get_block_len sb / 4 in
  let offset := file_block_index / lev_contain in
  let offset_inner := file_block_index mod lev_contain in
  b ← field buf (4 * offset) 4;
  _ext2_lite_get_block_of_file_lev0 b offset_inner.

Definition _ext2_lite_get_block_of_file_lev2 (cur_block file_block_index : Z) : option Z :=
  buf ← block_bytes cur_block;
  let block_len := _ext2_lite_get_block_len sb / 4 in
  let lev_contain := u32 (block_len * block_len) in
  let offset := file_block_index / lev_contain in
  let offset_inner := file_block_index mod lev_contain in
  b ← field buf (4 * offset) 4;
  _ext2_lite_get_block_of_file_lev1 b offset_inner.

Definition _ext2_lite_get_block_of_file (inode : inode_t) (file_block_index : Z) : option Z :=
  let block_len := _ext2_lite_get_block_len sb / 4 in
  if file_block_index <? 12 then (block inode).[file_block_index]
  else if file_block_index <? 12 + block_len then
    b ← (block inode).[12]; _ext2_lite_get_block_of_file_lev0 b (file_block_index - 12)
  else if file_block_index <? 12 + block_len + block_len * block_len then
    b ← (block inode).[13]; _ext2_lite_get_block_of_file_lev1 b (file_block_index - 12 - block_len)
  else
    b ← (block inode).[14];
    _ext2_lite_get_block_of_file_lev2 b (file_block_index - (12 + block_len + block_len * block_len)).

(** One block of the file: [out] is what is in the caller's buffer. *)
Definition read_block_step (inode : inode_t) (block_index : Z) (s : Z * Z * list Z)
  : option (Z * Z * list Z) :=
  let '(len, read_offset, out) := s in
  let block_len := _ext2_lite_get_block_len sb in
  data_block_index ← _ext2_lite_get_block_of_file inode block_index;
  buf ← block_bytes data_block_index;
  let n := Z.min len (block_len - read_offset) in
  bytes ← zread buf read_offset n;
  Some (len - n, 0, out ++ bytes).

Definition ext2_lite_read_inode (inode : inode_t) (from len : Z) : option (list Z) :=
  let block_len := _ext2_lite_get_block_len sb in
  let start_block_index := from / block_len in
  let end_block_index := u32 (from + len - 1) / block_len in
  let read_offset := from mod block_len in
  '(_, _, out) ← for_n (Z.to_nat (end_block_index - start_block_index + 1)) start_block_index
    (read_block_step inode) (len, read_offset, []);
  Some out.
End file.

(** An inode that is not found leaves the variable of the caller unset. *)
Definition ext2_lite_read (sb : superblock_t) (m : mem) (path from len : Z) : option (list Z) :=
  inode ← ext2_lite_get_inode sb m path;
  inode ← inode; ext2_lite_read_inode sb inode from len.
End ext2_lite.

(** ** What the disk holds *)

Section spec.
Context (sector : Z → list Z).
Hypothesis sector_ok : ∀ s, length (sector s) = 512%nat ∧ Forall byte (sector s).

(** The byte of the disk at an address. *)
Definition disk (x : Z) : Z := default 0 ((sector (x / 512)).[x mod 512]).

Lemma disk_byte x : byte (disk x).
Proof.
  unfold disk. destruct (sector_ok (x / 512)) as [Hl Hb].
  destruct ((sector (x / 512)).[x mod 512]) as [b|] eqn:E; [|unfold byte; simpl; lia].
  simpl. rewrite zget_lookup in E by (apply Z.mod_pos_bound; lia). by eapply Forall_lookup_1 in E.
Qed.

(** The bytes from an address on. *)
Definition disk_bytes (start len : Z) : list Z := map (λ i, disk (u32 (start + i))) (seqZ 0 len).

Lemma length_disk_bytes start len : length (disk_bytes start len) = Z.to_nat len.
Proof. unfold disk_bytes. rewrite length_map. apply length_seqZ. Qed.
Lemma disk_bytes_byte start len : Forall byte (disk_bytes start len).
Proof. apply Forall_forall. intros b (i & -> & _)%list_elem_of_fmap. apply disk_byte. Qed.

Lemma map_seqZ_ext {A} (f g : Z → A) a b n : (∀ i, 0 <= i < n → f (a + i) = g (b + i)) →
  map f (seqZ a n) = map g (seqZ b n).
Proof.
  intros Hfg. unfold seqZ. rewrite <- !list_fmap_compose. apply list_fmap_ext. intros i x Hx.
  apply lookup_seq in Hx as [-> Hi]. simpl. replace (Z.of_nat i + a) with (a + Z.of_nat i) by lia.
  replace (Z.of_nat i + b) with (b + Z.of_nat i) by lia. apply Hfg. lia.
Qed.

Lemma map_seqZ_app {A} (f : Z → A) a n k : 0 <= n → 0 <= k →
  map f (seqZ a (n + k)) = map f (seqZ a n) ++ map f (seqZ (a + n) k).
Proof. intros. rewrite seqZ_app by done. apply map_app. Qed.

Lemma sector_slice s n : 0 <= s → 0 <= n → s mod 512 + n <= 512 →
  zread (sector (s / 512)) (s mod 512) n = Some (map (λ i, disk (s + i)) (seqZ 0 n)).
Proof.
  intros Hs Hn Hfit. destruct (sector_ok (s / 512)) as [Hl _].
  pose proof (Z.mod_pos_bound s 512 ltac:(lia)) as Hm. pose proof (Z.div_mod s 512 ltac:(lia)) as Hd.
  rewrite zread_in by lia. f_equal. apply list_eq_same_length with (n := Z.to_nat n).
  - rewrite length_map, length_seqZ. done.
  - rewrite length_take, length_drop, Hl. lia.
  - intros i x y Hi Hx Hy. rewrite list_lookup_fmap, lookup_seqZ_lt in Hy by lia.
    injection Hy as <-. rewrite lookup_take_lt, lookup_drop in Hx by lia.
    unfold disk. rewrite (Z.add_0_l (Z.of_nat i)).
    assert ((s + Z.of_nat i) / 512 = s / 512 ∧ (s + Z.of_nat i) mod 512 = s mod 512 + Z.of_nat i) as [-> ->].
    { split; [symmetry; apply Z.div_unique_pos with (s mod 512 + Z.of_nat i)|
              symmetry; apply Z.mod_unique_pos with (s / 512)]; lia. }
    rewrite zget_lookup by lia.
    replace (Z.to_nat (s mod 512 + Z.of_nat i)) with (Z.to_nat (s mod 512) + i)%nat by lia. by rewrite Hx.
Qed.

Lemma read_step_spec start len out : 0 <= start < 2 ^ 32 → 0 < len →
  let n := Z.min (512 - start mod 512) len in
  read_step sector (start, len, out) =
  Some (inl (u32 (start + Z.min (512 - start mod 512) (len - n)), len - n, out ++ disk_bytes start n)).
Proof.
  intros Hs Hl n. unfold read_step. replace (len =? 0) with false by lia. cbn zeta. fold n.
  pose proof (Z.mod_pos_bound start 512 ltac:(lia)) as Hm.
  rewrite sector_slice by lia. cbn [mbind option_bind]. do 5 f_equal.
  unfold disk_bytes. apply map_seqZ_ext. intros i Hi. rewrite !Z.add_0_l. rewrite u32_small; [done|].
  pose proof (Z.div_mod start 512 ltac:(lia)). 
  assert (start / 512 < 2 ^ 23) by (apply Z.div_lt_upper_bound; lia). lia.
Qed.

(** Whole sectors are read as they are. *)
Lemma read_sectors start n : 0 <= start < 2 ^ 32 → start mod 512 = 0 →
  _ext2_lite_read sector start (512 * Z.of_nat n) = Some (disk_bytes start (512 * Z.of_nat n)).
Proof.
  intros Hs Hal. unfold _ext2_lite_read.
  enough (∀ n fuel start out, 0 <= start < 2 ^ 32 → start mod 512 = 0 → (n < fuel)%nat →
    loop fuel (read_step sector) (start, 512 * Z.of_nat n, out) =
    Some (out ++ disk_bytes start (512 * Z.of_nat n))) as Hgen by (apply (Hgen n _ start []); lia || done).
  clear n start Hs Hal. induction n as [|n IH]; intros fuel start out Hs Hal Hf;
    (destruct fuel as [|fuel]; [lia|]); rewrite loop_S.
  - cbn [read_step]. change (512 * Z.of_nat 0 =? 0) with true. change (disk_bytes start (512 * Z.of_nat 0)) with (@nil Z).
    cbn. by rewrite app_nil_r.
  - rewrite read_step_spec by lia. rewrite Hal.
    replace (Z.min (512 - 0) (512 * Z.of_nat (S n))) with 512 by lia.
    replace (512 * Z.of_nat (S n) - 512) with (512 * Z.of_nat n) by lia.
    rewrite IH; [|apply u32_range| |lia].
    + rewrite <- app_assoc. do 2 f_equal.
      replace (512 * Z.of_nat (S n)) with (512 + 512 * Z.of_nat n) by lia. unfold disk_bytes.
      rewrite (map_seqZ_app _ 0) by lia. f_equal. apply map_seqZ_ext. intros i Hi.
      f_equal. destruct n as [|n]; [lia|]. replace (Z.min (512 - 0) (512 * Z.of_nat (S n))) with 512 by lia.
      unfold u32. rewrite Zplus_mod_idemp_l. f_equal. lia.
    + unfold u32. rewrite Z.mod_mod_divide by (by exists (2 ^ 23)).
      rewrite Z.add_mod, Hal by lia. destruct n as [|n]; [done|].
      by replace (Z.min (512 - 0) (512 * Z.of_nat (S n))) with 512 by lia.
Qed.

(** A record that lies in one sector is read as it is. *)
Lemma read_inside start len : 0 <= start < 2 ^ 32 → 0 <= len → start mod 512 + len <= 512 →
  _ext2_lite_read sector start len = Some (disk_bytes start len).
Proof.
  intros Hs Hl Hfit. unfold _ext2_lite_read. rewrite loop_S. destruct (Z.eq_dec len 0) as [->|]; [done|].
  rewrite read_step_spec by lia. replace (Z.min (512 - start mod 512) len) with len by lia.
  rewrite Z.sub_diag. destruct (Z.to_nat len) eqn:E; [lia|]. done.
Qed.

(** ** Mounted *)

Section mounted_spec.
Context (sb : superblock_t).
(** What the initialisation checks. *)
Hypothesis log_ok : 0 <= log_block_size sb <= 3.

Abbreviation bl := (_ext2_lite_get_block_len sb).

Lemma block_len_cases : bl = 1024 ∨ bl = 2048 ∨ bl = 4096 ∨ bl = 8192.
Proof.
  unfold _ext2_lite_get_block_len.
  assert (log_block_size sb = 0 ∨ log_block_size sb = 1 ∨ log_block_size sb = 2 ∨ log_block_size sb = 3)
    as [-> | [-> | [-> | ->]]] by lia; vm_compute; auto.
Qed.

(** The bytes of a block, and the pointers in it. *)
Definition block_data (b : Z) : list Z := disk_bytes (_ext2_lite_get_offset_of_block sb b) bl.
Definition pointer (b k : Z) : Z :=
  le_val (take 4 (drop (Z.to_nat (4 * k)) (block_data b))).

Lemma read_block b :
  _ext2_lite_read sector (_ext2_lite_get_offset_of_block sb b) bl = Some (block_data b).
Proof.
  assert (∃ n, bl = 512 * Z.of_nat n) as [n Hn].
  { exists (Z.to_nat (bl / 512)). destruct block_len_cases as [-> | [-> | [-> | ->]]]; reflexivity. }
  unfold block_data. rewrite Hn. apply read_sectors; [apply u32_range|].
  unfold _ext2_lite_get_offset_of_block, SUPERBLOCK_START, u32 at 1.
  rewrite Z.mod_mod_divide by (by exists (2 ^ 23)).
  rewrite Z.add_mod by lia. unfold u32 at 1.
  rewrite Z.mod_mod_divide by (by exists (2 ^ 23)).
  rewrite Hn. rewrite (Z.mul_comm 512), Z.mul_assoc, Z.mod_mul by lia. done.
Qed.

Lemma length_block_data b : Z.of_nat (length (block_data b)) = bl.
Proof. unfold block_data. rewrite length_disk_bytes. destruct block_len_cases as [-> | [-> | [-> | ->]]]; lia. Qed.

Lemma pointer_field b k : 0 <= k < bl / 4 →
  field (block_data b) (4 * k) 4 = Some (pointer b k) ∧ 0 <= pointer b k < 2 ^ 32.
Proof.
  intros Hk. pose proof (length_block_data b) as Hl.
  assert (4 * (bl / 4) = bl) by (destruct block_len_cases as [-> | [-> | [-> | ->]]]; reflexivity).
  destruct (field_in (block_data b) (4 * k) 4) as (v & -> & Hv & ->); [lia..|apply disk_bytes_byte|].
  done.
Qed.

(** The block of a file: direct, or through one, two or three levels. *)
Definition file_block (inode : inode_t) (n : Z) : Z :=
  let p := bl / 4 in
  let blk i := default 0 ((block inode).[i]) in
  if n <? 12 then blk n
  else if n <? 12 + p then pointer (blk 12) (n - 12)
  else if n <? 12 + p + p * p then
    let n := n - 12 - p in pointer (pointer (blk 13) (n / p)) (n mod p)
  else
    let n := n - (12 + p + p * p) in
    pointer (pointer (pointer (blk 14) (n / (p * p))) (n mod (p * p) / p)) (n mod p).

Lemma lev0_spec b k : 0 <= k < bl / 4 →
  _ext2_lite_get_block_of_file_lev0 sector sb b k = Some (pointer b k).
Proof.
  intros Hk. unfold _ext2_lite_get_block_of_file_lev0. rewrite read_block. cbn [mbind option_bind].
  by apply pointer_field.
Qed.

Lemma lev1_spec b k : 0 <= k < bl / 4 * (bl / 4) →
  _ext2_lite_get_block_of_file_lev1 sector sb b k = Some (pointer (pointer b (k / (bl / 4))) (k mod (bl / 4))).
Proof.
  intros Hk. unfold _ext2_lite_get_block_of_file_lev1. rewrite read_block. cbn [mbind option_bind].
  assert (0 < bl / 4) by (destruct block_len_cases as [-> | [-> | [-> | ->]]]; reflexivity).
  destruct (pointer_field b (k / (bl / 4))) as [-> _].
  { split; [apply Z.div_pos; lia|]. apply Z.div_lt_upper_bound; lia. }
  cbn [mbind option_bind]. apply lev0_spec. apply Z.mod_pos_bound. lia.
Qed.

Lemma lev2_spec b k : let p := bl / 4 in 0 <= k < p * p * p →
  _ext2_lite_get_block_of_file_lev2 sector sb b k =
  Some (pointer (pointer (pointer b (k / (p * p))) (k mod (p * p) / p)) (k mod p)).
Proof.
  intros p Hk. unfold _ext2_lite_get_block_of_file_lev2. rewrite read_block. cbn [mbind option_bind]. fold p.
  assert (0 < p ∧ p * p < 2 ^ 32) as [Hp Hpp].
  { unfold p. destruct block_len_cases as [-> | [-> | [-> | ->]]]; split; reflexivity. }
  rewrite u32_small by nia. destruct (pointer_field b (k / (p * p))) as [-> _].
  { fold p. split; [apply Z.div_pos; nia|]. apply Z.div_lt_upper_bound; nia. }
  cbn [mbind option_bind]. rewrite lev1_spec by (fold p; apply Z.mod_pos_bound; nia). fold p.
  by rewrite Z.mod_mod_divide by (by exists p).
Qed.

Lemma get_block_of_file_spec inode n : length (block inode) = 15%nat →
  let p := bl / 4 in 0 <= n < 12 + p + p * p + p * p * p →
  _ext2_lite_get_block_of_file sector sb inode n = Some (file_block inode n).
Proof.
  intros Hl p Hn. unfold _ext2_lite_get_block_of_file, file_block. fold p.
  assert (∀ i, 0 <= i < 15 → (block inode).[i] = Some (default 0 ((block inode).[i]))) as Hblk.
  { intros i Hi. destruct (zget_is_Some (block inode) i) as (b & ->); [lia|done]. }
  destruct (Z.ltb_spec n 12); [apply Hblk; lia|].
  destruct (Z.ltb_spec n (12 + p)).
  { rewrite Hblk by lia. cbn [mbind option_bind default]. rewrite lev0_spec by (fold p; lia). done. }
  destruct (Z.ltb_spec n (12 + p + p * p)).
  { rewrite Hblk by lia. cbn [mbind option_bind]. rewrite lev1_spec by (fold p; lia). done. }
  rewrite Hblk by lia. cbn [mbind option_bind]. rewrite lev2_spec by (fold p; lia). done.
Qed.

(** The bytes of a file. *)
Definition file_byte (inode : inode_t) (x : Z) : Z :=
  default 0 ((block_data (file_block inode (x / bl))).[x mod bl]).

Lemma file_bytes_in_block inode k o n : 0 <= o → 0 <= n → o + n <= bl → 0 <= k →
  zread (block_data (file_block inode k)) o n = Some (map (file_byte inode) (seqZ (k * bl + o) n)).
Proof.
  intros Ho Hn Hfit Hk. pose proof (length_block_data (file_block inode k)) as Hl.
  rewrite zread_in by lia. f_equal. apply list_eq_same_length with (n := Z.to_nat n).
  - rewrite length_map, length_seqZ. done.
  - rewrite length_take, length_drop. lia.
  - intros i x y Hi Hx Hy. rewrite list_lookup_fmap, lookup_seqZ_lt in Hy by lia. injection Hy as <-.
    rewrite lookup_take_lt, lookup_drop in Hx by lia. unfold file_byte.
    assert ((k * bl + o + Z.of_nat i) / bl = k ∧ (k * bl + o + Z.of_nat i) mod bl = o + Z.of_nat i) as [-> ->].
    { split; [symmetry; apply Z.div_unique_pos with (o + Z.of_nat i)|
              symmetry; apply Z.mod_unique_pos with k]; lia. }
    rewrite zget_lookup by lia. replace (Z.to_nat (o + Z.of_nat i)) with (Z.to_nat o + i)%nat by lia. by rewrite Hx.
Qed.

(** Where the read of [len] bytes at [from] stands before the block [k]. *)
Definition read_pos (from len k : Z) : Z := Z.min (from + len) (Z.max from (k * bl)).

Lemma read_block_step_spec inode from len k : length (block inode) = 15%nat →
  0 <= from → 0 < len → from + len <= 2 ^ 32 → from / bl <= k <= (from + len - 1) / bl →
  let pos := read_pos from len k in let pos' := read_pos from len (k + 1) in
  read_block_step sector sb inode k
    (from + len - pos, if k =? from / bl then from mod bl else 0, map (file_byte inode) (seqZ from (pos - from))) =
  Some (from + len - pos', 0, map (file_byte inode) (seqZ from (pos' - from))).
Proof.
  intros Hl Hf Hlen Hfit Hk pos pos'. unfold read_block_step.
  pose proof (Z.div_mod from bl) as Hdm. pose proof (Z.mod_pos_bound from bl) as Hm.
  assert (0 < bl ∧ 2 ^ 32 / bl <= bl / 4 * (bl / 4) * (bl / 4)) as [Hbl Hbig].
  { destruct block_len_cases as [-> | [-> | [-> | ->]]]; split; vm_compute; (done || discriminate). }
  specialize (Hdm ltac:(lia)). specialize (Hm Hbl).
  assert (0 <= from / bl) by (apply Z.div_pos; lia).
  assert (k * bl <= from + len - 1).
  { pose proof (Z.mul_div_le (from + len - 1) bl Hbl). nia. }
  rewrite get_block_of_file_spec; [|done|].
  2:{ split; [lia|]. assert (k <= 2 ^ 32 / bl).
      { apply Z.div_le_lower_bound; lia. }
      assert (0 <= bl / 4) by (apply Z.div_pos; lia). nia. }
  cbn [mbind option_bind]. rewrite read_block. cbn [mbind option_bind].
  assert ((if k =? from / bl then from mod bl else 0) = pos - k * bl) as ->.
  { unfold pos, read_pos. destruct (Z.eqb_spec k (from / bl)) as [->|]; [lia|].
    assert (from / bl + 1 <= k) by lia. nia. }
  assert (k * bl <= pos < k * bl + bl) as Hpos.
  { unfold pos, read_pos. destruct (Z.eq_dec k (from / bl)) as [->|]; [lia|].
    assert (from / bl + 1 <= k) by lia. nia. }
  assert (pos + Z.min (from + len - pos) (bl - (pos - k * bl)) = pos') as Hpos'.
  { unfold pos, pos', read_pos in *. nia. }
  set (n := Z.min (from + len - pos) (bl - (pos - k * bl))) in *.
  assert (0 <= n) by (unfold n, pos, read_pos in *; lia).
  rewrite file_bytes_in_block by lia. cbn [mbind option_bind].
  replace (k * bl + (pos - k * bl)) with pos by lia.
  replace (from + len - pos - n) with (from + len - pos') by lia. do 2 f_equal.
  replace (pos' - from) with ((pos - from) + n) by lia.
  rewrite map_seqZ_app; [|unfold pos, read_pos; lia|done].
  by replace (from + (pos - from)) with pos by lia.
Qed.

(** Reading a file gives its bytes. *)
Lemma ext2_lite_read_inode_spec inode from len : length (block inode) = 15%nat →
  0 <= from → 0 < len → from + len <= 2 ^ 32 →
  ext2_lite_read_inode sector sb inode from len = Some (map (file_byte inode) (seqZ from len)).
Proof.
  intros Hl Hf Hlen Hfit. unfold ext2_lite_read_inode. rewrite u32_small by lia.
  assert (0 < bl) as Hbl by (destruct block_len_cases as [-> | [-> | [-> | ->]]]; done).
  set (k0 := from / bl). set (k1 := (from + len - 1) / bl).
  assert (k0 <= k1) by (apply Z.div_le_mono; lia).
  destruct (for_n_total (λ k '(l, ro, out), let pos := read_pos from len k in
      l = from + len - pos ∧ ro = (if k =? k0 then from mod bl else 0) ∧
      out = map (file_byte inode) (seqZ from (pos - from)))
    (read_block_step sector sb inode) (Z.to_nat (k1 - k0 + 1)) k0 (len, from mod bl, []))
    as ([[l ro] out] & -> & _ & _ & ->).
  - cbn zeta. assert (read_pos from len k0 = from) as ->.
    { unfold read_pos. pose proof (Z.mul_div_le from bl Hbl) as Hle. fold k0 in Hle. lia. }
    rewrite Z.sub_diag, Z.eqb_refl. split; [lia|done].
  - intros k [[l ro] out] Hk (-> & -> & ->).
    rewrite read_block_step_spec; [|done..|fold k0 k1; lia]. eexists. split; [done|].
    split; [done|]. split; [|done]. destruct (Z.eqb_spec (k + 1) k0); [lia|done].
  - cbn [mbind option_bind]. do 3 f_equal. rewrite Z2Nat.id by lia. unfold read_pos.
    replace (k0 + (k1 - k0 + 1)) with (k1 + 1) by lia.
    pose proof (Z.mul_succ_div_gt (from + len - 1) bl Hbl) as Hgt. fold k1 in Hgt. lia.
Qed.
End mounted_spec.
End spec.

(** ** Directories *)

(** A character of a name: neither the end of the path nor a separator. *)
Definition name_char (b : Z) : bool := negb (b =? 0) && negb (b =? 47).

(** The entries of a directory block: up to an entry without an inode or the
    end of the block. *)
Fixpoint dir_list (fuel : nat) (buf : list Z) (off : Z) : option (list (Z * list Z)) :=
  match fuel with
  | O => None
  | S fuel =>
      inode ← field buf off 4;
      if inode =? 0 then Some [] else
      name_len ← field buf (off + 6) 1;
      name ← zread buf (off + 8) name_len;
      rec_len ← field buf (off + 4) 2;
      if negb (forallb name_char name) then None else
      if 1024 <=? off + rec_len then Some [(inode, name)] else
      es ← dir_list fuel buf (off + rec_len);
      Some ((inode, name) :: es)
  end.

(** The first entry with the name. *)
Fixpoint find_name (name : list Z) (es : list (Z * list Z)) : option Z :=
  match es with
  | [] => None
  | (inode, n) :: es => if decide (n = name) then Some inode else find_name name es
  end.

(** The component [comp] stands at [path], and memory can be read as far as the
    comparison with the longest name does. *)
Definition component_at (m : mem) (path : Z) (comp : list Z) : Prop :=
  (∃ t, bytes_at m path (comp ++ [t]) ∧ name_char t = false) ∧
  forallb name_char comp = true ∧ mapped m path 256.

Lemma zread_lookup {A} (l : list A) off n b i : zread l off n = Some b → 0 <= i < n →
  l.[off + i] = b.[i].
Proof.
  unfold zread. case_decide; [|done]. intros [= <-] Hi. rewrite !zget_lookup by lia.
  rewrite lookup_take_lt, lookup_drop by lia. f_equal. lia.
Qed.
Lemma zread_length {A} (l : list A) off n b : zread l off n = Some b → Z.of_nat (length b) = n.
Proof.
  unfold zread. case_decide; [|done]. intros [= <-]. rewrite length_take, length_drop. lia.
Qed.

(** The comparison of a name decides whether it is the component. *)
Lemma name_loop_spec m path buf off name n : (n <= length name)%nat →
  zread buf (off + 8) (Z.of_nat (length name)) = Some name → mapped m path (Z.of_nat n) →
  ∃ b, for_n n 0 (λ i ok,
      p ← m !! (path + i); c ← buf.[off + 8 + i]; Some (ok && (p =? c))) true = Some b ∧
    (b = true ↔ ∀ i, 0 <= i < Z.of_nat n → m !! (path + i) = name.[i]).
Proof.
  intros Hn Hname Hm.
  destruct (for_n_total (λ k b, b = true ↔ ∀ i, 0 <= i < k → m !! (path + i) = name.[i])
    (λ i ok, p ← m !! (path + i); c ← buf.[off + 8 + i]; Some (ok && (p =? c))) n 0 true)
    as (b & -> & Hb); [by split; [lia|]| |by exists b].
  intros k b Hk Hb. destruct (Hm (path + k)) as [p Hp]; [lia|]. rewrite Hp. cbn [mbind option_bind].
  rewrite (zread_lookup _ _ _ _ _ Hname) by lia.
  destruct (zget_is_Some name k) as (c & Hc); [lia|]. rewrite Hc. cbn [mbind option_bind].
  eexists. split; [done|]. rewrite andb_true_iff, Hb. split.
  - intros [H1 H2] i Hi. destruct (Z.eq_dec i k) as [->|]; [|apply H1; lia].
    apply Z.eqb_eq in H2. by rewrite Hp, Hc, H2.
  - intros H1. split; [intros i Hi; apply H1; lia|]. specialize (H1 k ltac:(lia)).
    rewrite Hp, Hc in H1. apply Z.eqb_eq. congruence.
Qed.

Lemma bytes_at_name m path comp t i : bytes_at m path (comp ++ [t]) → forallb name_char comp = true →
  0 <= i <= Z.of_nat (length comp) →
  ∃ b, m !! (path + i) = Some b ∧
    (i < Z.of_nat (length comp) → comp.[i] = Some b ∧ name_char b = true) ∧
    (i = Z.of_nat (length comp) → b = t).
Proof.
  intros Hb Hc Hi. specialize (Hb i). rewrite length_app in Hb. simpl in Hb. rewrite Hb by lia.
  rewrite zget_lookup by lia. destruct (Z.eq_dec i (Z.of_nat (length comp))) as [->|].
  - rewrite lookup_app_r, Nat2Z.id, Nat.sub_diag by lia. exists t. split; [done|]. split; [lia|done].
  - rewrite lookup_app_l by lia. destruct (lookup_lt_is_Some_2 comp (Z.to_nat i)) as [b Eb]; [lia|].
    exists b. split; [done|]. split; [|lia]. intros _. rewrite zget_lookup by lia. split; [done|].
    rewrite forallb_forall in Hc. apply Hc. apply list_elem_of_In. by eapply list_elem_of_lookup_2.
Qed.

Lemma name_matches_spec m path buf off comp name : component_at m path comp →
  zread buf (off + 8) (Z.of_nat (length name)) = Some name → (length name < 256)%nat →
  forallb name_char name = true →
  name_matches m path buf off (Z.of_nat (length name)) = Some (bool_decide (name = comp)).
Proof.
  intros ((t & Hb & Ht) & Hc & Hm) Hname Hlt Hn. unfold name_matches. rewrite Nat2Z.id.
  destruct (name_loop_spec m path buf off name (length name)) as (ok & -> & Hok); [lia|done| |].
  { eapply mapped_sub; [exact Hm|lia|lia]. }
  cbn [mbind option_bind]. destruct (Hm (path + Z.of_nat (length name))) as [e He]; [lia|].
  rewrite He. cbn [mbind option_bind]. f_equal.
  assert ((e =? 0) || (e =? 47) = negb (name_char e)) as ->.
  { unfold name_char. by destruct (e =? 0), (e =? 47). }
  apply Bool.eq_iff_eq_true. rewrite bool_decide_eq_true, andb_true_iff, negb_true_iff, Hok.
  pose proof (λ i, bytes_at_name m path comp t i Hb Hc) as Hcomp. split.
  - intros [H1 H2]. destruct (Z.lt_trichotomy (Z.of_nat (length name)) (Z.of_nat (length comp))) as [?|[?|?]].
    + destruct (Hcomp (Z.of_nat (length name))) as (b & Hb' & Hch & _); [lia|]. rewrite He in Hb'.
      destruct Hch as [_ Hch]; [done|]. congruence.
    + apply list_eq_zget; [lia|]. intros i Hi. rewrite <- H1 by lia.
      destruct (Hcomp i) as (b & -> & Hch & _); [lia|]. by destruct Hch as [-> _]; [lia|].
    + destruct (Hcomp (Z.of_nat (length comp))) as (b & Hb' & _ & Hbt); [lia|].
      specialize (Hbt eq_refl). subst b. rewrite H1 in Hb' by lia. rewrite forallb_forall in Hn. rewrite zget_lookup in Hb' by lia.
      apply list_elem_of_lookup_2, list_elem_of_In, Hn in Hb'. congruence.
  - intros ->. split.
    + intros i Hi. destruct (Hcomp i) as (b & -> & Hch & _); [lia|]. by destruct Hch as [-> _]; [lia|].
    + destruct (Hcomp (Z.of_nat (length comp))) as (b & Hb' & _ & Hbt); [lia|].
      specialize (Hbt eq_refl). congruence.
Qed.

Section directory_spec.
Context (sector : Z → list Z) (sb : superblock_t).
Hypothesis sector_ok : ∀ s, length (sector s) = 512%nat ∧ Forall byte (sector s).
Hypothesis log_0 : log_block_size sb = 0.

Lemma block_len_1024 : _ext2_lite_get_block_len sb = 1024.
Proof. unfold _ext2_lite_get_block_len. rewrite log_0. reflexivity. Qed.

Lemma entry_loop_spec m path comp buf fuel off es : component_at m path comp → Forall byte buf →
  dir_list fuel buf off = Some es → 
  loop fuel (entry_step m path buf 1024) off = Some (find_name comp es).
Proof.
  intros Hp Hbytes. revert off es. induction fuel as [|fuel IH]; intros off es Hes; [done|].
  rewrite loop_S. cbn [dir_list] in Hes. unfold entry_step at 1.
  destruct (field buf off 4) as [inode|]; [|done]. cbn [mbind option_bind] in *.
  destruct (inode =? 0); [by injection Hes as <-|].
  destruct (field buf (off + 6) 1) as [nl|] eqn:Enl; [|done]. cbn [mbind option_bind] in *.
  destruct (zread buf (off + 8) nl) as [name|] eqn:Ename; [|done]. cbn [mbind option_bind] in *.
  destruct (field buf (off + 4) 2) as [rl|]; [|done]. cbn [mbind option_bind] in *.
  destruct (forallb name_char name) eqn:Hn; [|done]. cbn [negb] in Hes.
  pose proof (zread_length _ _ _ _ Ename) as Hlen. subst nl.
  assert (length name < 256)%nat as Hlt.
  { unfold field in Enl. destruct (zread buf (off + 6) 1) as [b1|] eqn:E1; [|done]. injection Enl as E2.
    assert (Forall byte b1) as Hb1.
    { unfold zread in E1. case_decide; [|done]. injection E1 as <-. by apply Forall_take, Forall_drop. }
    apply le_val_range in Hb1. rewrite E2, (zread_length _ _ _ _ E1) in Hb1. change (2 ^ (8 * 1)) with 256 in Hb1. lia. }
  rewrite (name_matches_spec m path buf off comp name) by done. cbn [mbind option_bind].
  destruct (1024 <=? off + rl).
  - injection Hes as <-. cbn [find_name]. by case_bool_decide; case_decide.
  - destruct (dir_list fuel buf (off + rl)) as [es'|] eqn:E; [|done]. injection Hes as <-.
    cbn [find_name]. case_bool_decide; case_decide; try done. by apply IH.
Qed.

(** The entries of a block. *)
Definition dir_entries (b : Z) : option (list (Z * list Z)) :=
  dir_list 1025 (block_data sector sb b) 0.

Lemma has_in_dir_spec m path comp b es : b ≠ 0 → component_at m path comp → dir_entries b = Some es →
  ext2_lite_has_in_dir sector sb m b path = Some (find_name comp es).
Proof.
  intros Hb Hp Hes. unfold ext2_lite_has_in_dir. replace (b =? 0) with false by lia.
  cbn zeta. rewrite (read_block sector sector_ok sb) by lia. rewrite block_len_1024.
  cbn [negb Z.eqb Pos.eqb mbind option_bind].
  assert (S (Z.to_nat 1024) = 1025%nat) as -> by reflexivity. unfold dir_entries in Hes.
  exact (entry_loop_spec m path comp _ 1025 0 es Hp (disk_bytes_byte sector sector_ok _ _) Hes).
Qed.

(** The name in the blocks of a directory. *)
Fixpoint lookup_blocks (bs : list Z) (comp : list Z) : option (option Z) :=
  match bs with
  | [] => Some None
  | b :: bs =>
      if b =? 0 then lookup_blocks bs comp else
      es ← dir_entries b;
      match find_name comp es with Some n => Some (Some n) | None => lookup_blocks bs comp end
  end.
Definition dir_lookup (inode : inode_t) (comp : list Z) : option (option Z) :=
  lookup_blocks (take 12 (block inode)) comp.

Lemma scan_blocks_spec m path comp inode r : length (block inode) = 15%nat → component_at m path comp →
  dir_lookup inode comp = Some r → scan_blocks sector sb m inode path = Some r.
Proof.
  intros Hl Hp Hr. unfold scan_blocks.
  enough (∀ n i bs, bs = drop (Z.to_nat i) (take 12 (block inode)) → 0 <= i → length bs = n →
    lookup_blocks bs comp = Some r →
    ∃ x, for_loop n i (λ i (_ : unit),
      b ← (block inode).[i];
      if negb (b =? 0) then
        found ← ext2_lite_has_in_dir sector sb m b path;
        Some (match found with Some n => inr n | None => inl () end)
      else Some (inl ())) () = Some x ∧
    r = match x with inl _ => None | inr n => Some n end) as Hgen.
  { destruct (Hgen 12%nat 0 (take 12 (block inode))) as (x & -> & ->); [done|lia|rewrite length_take; lia|done|done]. }
  clear Hr. induction n as [|n IH]; intros i bs Hbs Hi Hlen Hr.
  { destruct bs; [|done]. injection Hr as <-. by exists (inl ()). }
  destruct bs as [|b bs]; [done|]. 
  assert (take 12 (block inode) !! Z.to_nat i = Some b) as Hb.
  { rewrite <- (Nat.add_0_r (Z.to_nat i)), <- lookup_drop, <- Hbs. done. }
  assert (bs = drop (Z.to_nat (i + 1)) (take 12 (block inode))) as Hbs'.
  { replace (Z.to_nat (i + 1)) with (S (Z.to_nat i)) by lia. rewrite (drop_S _ b) in Hbs by done. congruence. }
  apply lookup_take_Some in Hb as [Hb _].
  unfold for_loop at 1. fold (@for_loop unit Z). rewrite zget_lookup by lia. rewrite Hb. cbn [mbind option_bind].
  cbn [lookup_blocks] in Hr. destruct (Z.eqb_spec b 0) as [|Hb0]; cbn [negb].
  { apply (IH (i + 1) bs); [done|lia|simpl in Hlen; lia|done]. }
  destruct (dir_entries b) as [es|] eqn:Ees; [|done]. cbn [mbind option_bind] in Hr.
  rewrite (has_in_dir_spec m path comp b es) by done. cbn [mbind option_bind].
  destruct (find_name comp es) as [k|].
  - exists (inr k). split; [done|congruence].
  - apply (IH (i + 1) bs); [done|lia|simpl in Hlen; lia|done].
Qed.
End directory_spec.

(** *** Inodes *)

Section inode_spec.
Context (sector : Z → list Z) (sb : superblock_t).
Hypothesis sector_ok : ∀ s, length (sector s) = 512%nat ∧ Forall byte (sector s).
Hypothesis log_0 : log_block_size sb = 0.
Hypothesis groups : 0 < inodes_per_group sb.

Definition group_addr (id : Z) : Z :=
  u32 (SUPERBLOCK_START + 1024 + u32 (u32 (id - 1) / inodes_per_group sb * GROUP_LEN)).
Definition inode_addr (id : Z) : Z :=
  let table := le_val (take 4 (drop 8 (disk_bytes sector (group_addr id) GROUP_LEN))) in
  u32 (SUPERBLOCK_START + u32 (u32 (table - 1) * 1024) +
       u32 (u32 (id - 1) mod inodes_per_group sb * INODE_LEN)).
(** The inode in the table of its group. *)
Definition inode_at (id : Z) : inode_t :=
  {| block := map (λ i, le_val (take 4 (drop (Z.to_nat (40 + 4 * i)) (disk_bytes sector (inode_addr id) INODE_LEN))))
                  (seqZ 0 15) |}.

Lemma length_inode_at id : length (block (inode_at id)) = 15%nat.
Proof. unfold inode_at, block. rewrite length_map. apply length_seqZ. Qed.

Lemma u32_mult c x : (c | 2 ^ 32) → 0 < c → u32 x mod c = x mod c.
Proof. intros Hc Hp. unfold u32. by apply Z.mod_mod_divide. Qed.

Lemma aligned_inside c a : 0 < c → (c | 512) → a mod c = 0 → 0 <= a → a mod 512 + c <= 512.
Proof.
  intros Hc [k Hk] Ha Hpos. pose proof (Z.mod_pos_bound a 512 ltac:(lia)).
  pose proof (Z.div_mod a 512 ltac:(lia)). pose proof (Z.div_mod a c ltac:(lia)).
  set (q := a / 512) in *. set (r := a mod 512) in *.
  set (t := a / c - k * q).
  assert (r = c * t) as Hr by (unfold t; assert (512 * q = k * c * q) by congruence; lia).
  clearbody t. assert (t < k) by nia. nia.
Qed.

Lemma parse_inode_total b : length b = 128%nat → Forall byte b →
  parse_inode b = Some {| block := map (λ i, le_val (take 4 (drop (Z.to_nat (40 + 4 * i)) b))) (seqZ 0 15) |}.
Proof.
  intros Hl Hb. unfold parse_inode.
  assert (mapM (λ i, field b (40 + 4 * i) 4) (seqZ 0 15) =
    Some (map (λ i, le_val (take 4 (drop (Z.to_nat (40 + 4 * i)) b))) (seqZ 0 15))) as ->; [|done].
  apply mapM_Some. apply Forall2_fmap_r, Forall_Forall2_diag, Forall_forall.
  intros i Hi%elem_of_seqZ. destruct (field_in b (40 + 4 * i) 4) as (v & -> & _ & ->); [lia..|done|done].
Qed.

Lemma group_addr_aligned id : 0 <= group_addr id < 2 ^ 32 ∧ group_addr id mod 32 = 0.
Proof.
  split; [apply u32_range|].
  unfold group_addr. rewrite u32_mult by (lia || by exists (2 ^ 27)).
  rewrite Z.add_mod, u32_mult by (lia || by exists (2 ^ 27)).
  unfold GROUP_LEN. rewrite Z.mod_mul by lia. done.
Qed.
Lemma inode_addr_aligned id : 0 <= inode_addr id < 2 ^ 32 ∧ inode_addr id mod 128 = 0.
Proof.
  split; [apply u32_range|]. unfold inode_addr. cbn zeta. generalize
    (le_val (take 4 (drop 8 (disk_bytes sector (group_addr id) GROUP_LEN)))) as t. intros t.
  rewrite u32_mult by (lia || by exists (2 ^ 25)).
  rewrite Z.add_mod, u32_mult by (lia || by exists (2 ^ 25)).
  unfold INODE_LEN. rewrite Z.mod_mul, Z.add_0_r, Z.mod_mod by lia.
  rewrite Z.add_mod, u32_mult by (lia || by exists (2 ^ 25)).
  replace 1024 with (8 * 128) by lia. rewrite Z.mul_assoc, Z.mod_mul by lia. done.
Qed.

Lemma parse_group_total b : length b = 32%nat → Forall byte b →
  parse_group b = Some {| inode_table := le_val (take 4 (drop 8 b)) |}.
Proof.
  intros Hl Hb. unfold parse_group. destruct (field_in b 8 4) as (v & -> & _ & ->); [lia..|done|done].
Qed.

Lemma read_group_spec id : _ext2_lite_read_group sector sb (u32 (id - 1) / inodes_per_group sb) =
  Some {| inode_table := le_val (take 4 (drop 8 (disk_bytes sector (group_addr id) GROUP_LEN))) |}.
Proof.
  destruct (group_addr_aligned id) as [Hg Hg32].
  unfold _ext2_lite_read_group. rewrite (block_len_1024 sb log_0). cbn zeta. fold (group_addr id).
  rewrite (read_inside sector sector_ok (group_addr id) GROUP_LEN Hg);
    [|done|apply aligned_inside; [done|by exists 16|done|lia]].
  cbn [mbind option_bind].
  apply parse_group_total; [rewrite length_disk_bytes; done|by apply disk_bytes_byte].
Qed.

Lemma read_inode_parts id t b :
  _ext2_lite_read_group sector sb (u32 (id - 1) / inodes_per_group sb) = Some {| inode_table := t |} →
  _ext2_lite_read sector (u32 (SUPERBLOCK_START + u32 (u32 (t - 1) * _ext2_lite_get_block_len sb) +
    u32 (u32 (id - 1) mod inodes_per_group sb * INODE_LEN))) INODE_LEN = Some b →
  _ext2_lite_read_inode sector sb id = parse_inode b.
Proof.
  intros Hg Hb. unfold _ext2_lite_read_inode. destruct (Z.eqb_spec (inodes_per_group sb) 0); [lia|].
  rewrite Hg. generalize dependent (_ext2_lite_read sector). intros read Hb. cbn. by rewrite Hb.
Qed.

Lemma inode_addr_eq id : inode_addr id = u32 (SUPERBLOCK_START +
    u32 (u32 (le_val (take 4 (drop 8 (disk_bytes sector (group_addr id) GROUP_LEN))) - 1) * 1024) +
    u32 (u32 (id - 1) mod inodes_per_group sb * INODE_LEN)).
Proof. reflexivity. Qed.

Lemma read_inode_spec id : _ext2_lite_read_inode sector sb id = Some (inode_at id).
Proof.
  destruct (inode_addr_aligned id) as [Hi Hi128].
  rewrite (read_inode_parts id _ (disk_bytes sector (inode_addr id) INODE_LEN) (read_group_spec id)).
  - apply parse_inode_total; [rewrite length_disk_bytes; done|by apply disk_bytes_byte].
  - rewrite (block_len_1024 sb log_0), <- inode_addr_eq.
    apply (read_inside sector sector_ok (inode_addr id) INODE_LEN Hi); [done|].
    apply aligned_inside; [done|by exists 4|done|lia].
Qed.

(** *** Paths *)

(** The components stand at [path], separated by slashes. *)
Fixpoint path_at (m : mem) (path : Z) (comps : list (list Z)) : Prop :=
  match comps with
  | [] => False
  | c :: cs =>
      forallb name_char c = true ∧ mapped m path 256 ∧
      match cs with
      | [] => bytes_at m path (c ++ [0])
      | _ => bytes_at m path (c ++ [47]) ∧ path_at m (path + Z.of_nat (length c) + 1) cs
      end
  end.

(** The inode the components lead to; the outer [None] is a malformed
    directory on the way. *)
Fixpoint resolve (inode : inode_t) (comps : list (list Z)) : option (option inode_t) :=
  match comps with
  | [] => Some (Some inode)
  | c :: cs =>
      r ← dir_lookup sector sb inode c;
      match r with None => Some None | Some n => resolve (inode_at n) cs end
  end.

Lemma path_at_component m path c cs : path_at m path (c :: cs) →
  component_at m path c ∧ bytes_at m path (c ++ [match cs with [] => 0 | _ => 47 end]).
Proof.
  intros (Hc & Hm & Hb). assert (bytes_at m path (c ++ [match cs with [] => 0 | _ => 47 end])) as Hb'.
  { destruct cs; [done|]. by destruct Hb. }
  split; [|done]. split; [|done]. eexists. split; [exact Hb'|]. by destruct cs.
Qed.

Lemma path_at_size m path comps : path_at m path comps → (length comps <= size m)%nat.
Proof.
  intros Hp. apply (mapped_size m path).
  enough (∃ n, Z.of_nat (length comps) <= n ∧ mapped m path n) as (n & Hn & Hm).
  { eapply mapped_sub; [exact Hm|lia|lia]. }
  revert path Hp. induction comps as [|c cs IH]; intros path Hp; [done|].
  destruct (path_at_component m path c cs Hp) as [_ Hb%bytes_at_mapped]. rewrite length_app in Hb. simpl in Hb.
  destruct cs as [|c' cs].
  { exists (Z.of_nat (length c + 1)). split; [simpl; lia|done]. }
  destruct Hp as (_ & _ & _ & Hp). destruct (IH _ Hp) as (n & Hn & Hm).
  exists (Z.of_nat (length c + 1) + n). split; [simpl in *; lia|].
  intros x Hx. destruct (Z.lt_ge_cases x (path + Z.of_nat (length c + 1))); [apply Hb; lia|apply Hm; lia].
Qed.

Lemma next_component_spec m path c cs : path_at m path (c :: cs) →
  next_component m path = Some (path + Z.of_nat (length c), match cs with [] => true | _ => false end).
Proof.
  intros Hp. destruct (path_at_component m path c cs Hp) as [(_ & Hc & _) Hb]. unfold next_component.
  set (t := match cs with [] => 0 | _ => 47 end) in *.
  assert (length c + 1 < str_fuel m)%nat as Hf.
  { apply bytes_at_mapped, mapped_size in Hb. rewrite length_app in Hb. simpl in Hb. unfold str_fuel. lia. }
  match goal with |- context [loop ?f ?b ?s0] =>
    destruct (loop_total (λ a, ∃ i, a = path + i ∧ 0 <= i <= Z.of_nat (length c))
      (λ a, path + Z.of_nat (length c) - a) (λ a, a = path + Z.of_nat (length c)) b f s0)
      as (a & -> & ->) end.
  - exists 0. lia.
  - lia.
  - intros a (i & -> & Hi) _. destruct (bytes_at_name m path c t i Hb Hc Hi) as (b & -> & Hch & Hend).
    cbn [mbind option_bind]. fold (name_char b). destruct (Z.eq_dec i (Z.of_nat (length c))) as [->|].
    + rewrite Hend by done. unfold t. by destruct cs.
    + destruct Hch as [_ ->]; [lia|]. split; [exists (i + 1); lia|lia].
  - cbn [mbind option_bind]. destruct (str_fuel m); [lia|]. rewrite loop_S.
    destruct (bytes_at_name m path c t _ Hb Hc (conj (Nat2Z.is_nonneg (length c)) (Z.le_refl _)))
      as (b & -> & _ & Hend). cbn [mbind option_bind]. rewrite Hend by done. unfold t. by destruct cs.
Qed.

Lemma scan_dir_spec m path comps inode r : length (block inode) = 15%nat → path_at m path comps →
  resolve inode comps = Some r → ext2_lite_scan_dir sector sb m inode path = Some r.
Proof.
  intros Hl Hp Hr. unfold ext2_lite_scan_dir. pose proof (path_at_size m path comps Hp) as Hf.
  assert (length comps < str_fuel m)%nat as Hf' by (unfold str_fuel; lia). clear Hf.
  revert inode path Hl Hp Hr Hf'. generalize (str_fuel m) as fuel.
  induction comps as [|c cs IH]; intros fuel inode path Hl Hp Hr Hf; [done|].
  destruct fuel as [|fuel]; [simpl in Hf; lia|]. rewrite loop_S.
  destruct (path_at_component m path c cs Hp) as [Hc _].
  cbn [resolve] in Hr. destruct (dir_lookup sector sb inode c) as [x|] eqn:Ex; [|done].
  cbn [mbind option_bind] in Hr. rewrite (scan_blocks_spec sector sb sector_ok log_0 m path c inode x) by done.
  cbn [mbind option_bind]. destruct x as [n|]; [|by injection Hr as <-].
  rewrite (next_component_spec m path c cs Hp). cbn [mbind option_bind].
  rewrite read_inode_spec. cbn [mbind option_bind].
  destruct cs as [|c' cs]; [by injection Hr as <-|].
  destruct Hp as (_ & _ & _ & Hp).
  exact (IH fuel (inode_at n) _ (length_inode_at n) Hp Hr ltac:(simpl in Hf |- *; lia)).
Qed.

Lemma get_inode_spec m path comps r :
  (m !! path ≠ Some 47 ∧ path_at m path comps ∨ m !! path = Some 47 ∧ path_at m (path + 1) comps) →
  resolve (inode_at 2) comps = Some r → ext2_lite_get_inode sector sb m path = Some r.
Proof.
  intros Hp Hr. unfold ext2_lite_get_inode. rewrite read_inode_spec. cbn [mbind option_bind].
  destruct Hp as [[Hne Hp]|[-> Hp]]; cbn [mbind option_bind]; [|by eapply scan_dir_spec].
  assert (is_Some (m !! path)) as [b Hb].
  { destruct comps as [|c cs]; [done|]. destruct Hp as (_ & Hm & _). apply Hm. lia. }
  rewrite Hb. cbn [mbind option_bind]. destruct (Z.eqb_spec b 47); [congruence|]. by eapply scan_dir_spec.
Qed.
End inode_spec.

(** ** Initialisation *)

(** The record as the disk has it, and the verdict on it. *)
Definition superblock_accepted (sb : superblock_t) : bool :=
  (magic sb =? 0xEF53) && (rev_level sb =? 0) && (log_block_size sb <=? 3).

Lemma ext2_lite_init_spec sector : (∀ s, length (sector s) = 512%nat ∧ Forall byte (sector s)) →
  ∃ sb, parse_superblock (disk_bytes sector 1024 1024) = Some sb ∧ 0 <= log_block_size sb ∧
    ext2_lite_init sector = Some (if superblock_accepted sb then 0 else -1, sb).
Proof.
  intros Hok. pose proof (length_disk_bytes sector 1024 1024) as Hl.
  pose proof (disk_bytes_byte sector Hok 1024 1024) as Hb.
  unfold ext2_lite_init, SUPERBLOCK_START, SUPERBLOCK_LEN.
  pose proof (read_sectors sector Hok 1024 2) as Hr. change (512 * Z.of_nat 2) with 1024 in Hr.
  rewrite Hr by (done || lia). cbn [mbind option_bind]. clear Hr.
  revert Hl Hb. generalize (disk_bytes sector 1024 1024). intros b Hl Hb. unfold parse_superblock.
  destruct (field_in b 24 4) as (log & -> & Hlog & _); [lia..|done|].
  destruct (field_in b 40 4) as (ipg & -> & _); [lia..|done|].
  destruct (field_in b 56 2) as (mg & -> & _); [lia..|done|].
  destruct (field_in b 76 4) as (rev & -> & _); [lia..|done|].
  cbn [mbind option_bind]. eexists. split; [done|]. cbn [log_block_size magic rev_level]. split; [lia|].
  unfold superblock_accepted. cbn [log_block_size magic rev_level].
  rewrite Z.leb_antisym. by destruct (mg =? 0xEF53), (rev =? 0), (3 <? log).
Qed.

(** ** The interface of the boot loader *)

Section boot_fs.
Context (sector : Z → list Z) (sb : superblock_t).
Hypothesis sector_ok : ∀ s, length (sector s) = 512%nat ∧ Forall byte (sector s).
Hypothesis log_ok : 0 <= log_block_size sb <= 3.

Lemma parse_inode_length b i : parse_inode b = Some i → length (block i) = 15%nat.
Proof.
  unfold parse_inode. destruct (mapM _ _) as [blocks|] eqn:E; [|done]. intros [= <-].
  apply length_mapM in E. by rewrite length_seqZ in E.
Qed.

Lemma read_inode_length id i : _ext2_lite_read_inode sector sb id = Some i → length (block i) = 15%nat.
Proof.
  unfold _ext2_lite_read_inode. destruct (inodes_per_group sb =? 0); [done|]. cbn zeta.
  rewrite bind_Some. intros (gr & _ & Hr). rewrite bind_Some in Hr.
  destruct Hr as (b & _ & Hb). by eapply parse_inode_length.
Qed.

Lemma get_inode_length m path i :
  ext2_lite_get_inode sector sb m path = Some (Some i) → length (block i) = 15%nat.
Proof.
  assert (∀ inode path, ext2_lite_scan_dir sector sb m inode path = Some (Some i) →
    length (block i) = 15%nat) as Hscan.
  { intros inode p Hs. enough (∀ r, Some (Some i) = Some r →
      match r with Some i => length (block i) = 15%nat | None => True end) as H by exact (H _ eq_refl).
    intros r [= <-]. revert Hs. unfold ext2_lite_scan_dir.
    apply (loop_result (λ r, match r with Some i => length (block i) = 15%nat | None => True end)).
    intros [inode' p'] r. destruct (scan_blocks sector sb m inode' p') as [[n|]|]; [| |done].
    2:{ by intros [= <-]. }
    cbn [mbind option_bind]. destruct (next_component m p') as [[p2 [|]]|]; [| |done]; cbn [mbind option_bind].
    - destruct (_ext2_lite_read_inode sector sb n) as [i'|] eqn:Ei; [|done].
      intros [= <-]. by eapply read_inode_length.
    - by destruct (_ext2_lite_read_inode sector sb n). }
  unfold ext2_lite_get_inode. destruct (_ext2_lite_read_inode sector sb 2) as [root|]; [|done].
  cbn [mbind option_bind]. destruct (m !! path) as [c|]; [|done]. cbn [mbind option_bind].
  destruct (c =? 47); apply Hscan.
Qed.

#[refine] Instance ext2_lite_fs : BootFs inode_t := {|
  fs_get_inode := ext2_lite_get_inode sector sb;
  fs_read_from_inode := ext2_lite_read_inode sector sb;
  fs_read := ext2_lite_read sector sb;
  fs_inode_ok i := length (block i) = 15%nat;
  fs_byte := file_byte sector sb;
|}.
Proof.
  - intros i x. unfold file_byte. destruct (zget _ _) as [b|] eqn:E; [|unfold byte; simpl; lia].
    simpl. unfold zget in E. case_decide; [|done].
    pose proof (disk_bytes_byte sector sector_ok (_ext2_lite_get_offset_of_block sb (file_block sector sb i
      (x / _ext2_lite_get_block_len sb))) (_ext2_lite_get_block_len sb)) as Hb.
    by eapply Forall_lookup_1 in Hb.
  - apply get_inode_length.
  - intros i from len. by apply ext2_lite_read_inode_spec.
  - intros m path i from len Hi. unfold ext2_lite_read. by rewrite Hi.
Defined.
End boot_fs.

(** ** Properties *)

(** A drive with the bytes of an image. *)
Definition image_sector (image : Z → Z) (s : Z) : list Z :=
  map (λ i, u8 (image (512 * s + i))) (seqZ 0 512).

(** The reader advances by what is left and not by what it read, so a range that
    neither lies in one sector nor ends a sector is misread: the bytes 512 to
    599 of the disk come out as those from 88 on. The callers read only aligned
    records. *)
Example read_misreads : ∃ l,
  _ext2_lite_read (image_sector (λ x, x / 8)) 0 600 = Some l ∧
  l.[512] = Some 11 ∧ disk (image_sector (λ x, x / 8)) 512 = 64.
Proof. eexists. split; [vm_compute; reflexivity|]. by split. Qed.

(** An entry of length 0 keeps the search going forever. *)
Example zero_length_entry_hangs :
  let image x := if x =? 1024 * 10 then 11 else 0 in
  let sb := {| log_block_size := 0; inodes_per_group := 8; magic := 0xEF53; rev_level := 0 |} in
  ext2_lite_has_in_dir (image_sector image) sb (list_to_map [(16, 97); (17, 0)]) 10 16 = None.
Proof. vm_compute. reflexivity. Qed.

Section properties.
Context (sector : Z → list Z).
Hypothesis sector_ok : ∀ s, length (sector s) = 512%nat ∧ Forall byte (sector s).

(** Reading a file of a mounted file system terminates and gives exactly its
    bytes: each byte comes from the block that the direct, single, double and
    triple indirect pointers of the inode lead to, whatever the block size, for
    any range below 4 GiB. *)
Theorem ext2_lite_read_inode_bytes sb inode from len :
  0 <= log_block_size sb <= 3 → length (block inode) = 15%nat →
  0 <= from → 0 < len → from + len <= 2 ^ 32 →
  ext2_lite_read_inode sector sb inode from len = Some (map (file_byte sector sb inode) (seqZ from len)).
Proof. intros. by apply ext2_lite_read_inode_spec. Qed.

(** C36. On a file system with blocks of 1 KiB, looking up a path terminates and
    gives the inode that a walk over the directories' entries gives: each
    component is looked up by its exact name in the directory reached so far.
    The memory behind the path must be readable as far as the longest name. *)
Theorem ext2_lite_get_inode_resolves sb m path comps r :
  log_block_size sb = 0 → 0 < inodes_per_group sb →
  (m !! path ≠ Some 47 ∧ path_at m path comps ∨ m !! path = Some 47 ∧ path_at m (path + 1) comps) →
  resolve sector sb (inode_at sector sb 2) comps = Some r →
  ext2_lite_get_inode sector sb m path = Some r.
Proof. intros. by eapply get_inode_spec. Qed.
End properties.

(** A drive with the file [ab], inode 3, in the root directory: its first byte
    is 42. *)
Definition sparse_sector (l : list (nat * Z)) : list Z := foldr (λ '(i, b) s, <[i := b]> s) (replicate 512 0) l.
Definition zero_sector : list Z := Eval vm_compute in sparse_sector [].
Definition group_sector : list Z := Eval vm_compute in sparse_sector [(8%nat, 5)].
Definition inode_sector : list Z := Eval vm_compute in sparse_sector [(168%nat, 10); (296%nat, 20)].
Definition dir_sector : list Z :=
  Eval vm_compute in sparse_sector [(0%nat, 3); (5%nat, 4); (6%nat, 2); (8%nat, 97); (9%nat, 98)].
Definition file_sector : list Z := Eval vm_compute in sparse_sector [(0%nat, 42)].
Definition example_drive (s : Z) : list Z :=
  if s =? 4 then group_sector else if s =? 10 then inode_sector
  else if s =? 20 then dir_sector else if s =? 40 then file_sector else zero_sector.

Lemma example_drive_ok s : length (example_drive s) = 512%nat ∧ Forall byte (example_drive s).
Proof.
  assert (∀ l, (length l =? 512)%nat && forallb (λ b, (0 <=? b) && (b <? 256)) l = true →
    length l = 512%nat ∧ Forall byte l) as Hl.
  { intros l [H1 H2]%andb_true_iff. split; [by apply Nat.eqb_eq|]. apply Forall_forall. intros b Hb.
    rewrite forallb_forall in H2. apply list_elem_of_In, H2 in Hb. unfold byte. lia. }
  unfold example_drive. repeat case_match; apply Hl; vm_compute; reflexivity.
Qed.

Definition example_sb : superblock_t :=
  {| log_block_size := 0; inodes_per_group := 8; magic := 0xEF53; rev_level := 0 |}.

Lemma ext2_lite_read_inode_bytes_witness :
  ext2_lite_read_inode example_drive example_sb {| block := 20 :: replicate 14 0 |} 0 2 = Some [42; 0].
Proof.
  rewrite (ext2_lite_read_inode_bytes example_drive example_drive_ok
    example_sb {| block := 20 :: replicate 14 0 |} 0 2);
    [vm_compute; reflexivity|split; discriminate|reflexivity|lia|lia|lia].
Defined.

Lemma ext2_lite_get_inode_resolves_witness :
  ext2_lite_get_inode example_drive example_sb example_page 0x1000 =
  Some (Some {| block := 20 :: replicate 14 0 |}).
Proof.
  apply (ext2_lite_get_inode_resolves example_drive example_drive_ok
    example_sb example_page 0x1000 [[97; 98]]); [reflexivity|reflexivity| |vm_compute; reflexivity].
  left. split; [vm_compute; discriminate|]. split; [reflexivity|].
  split; [apply example_page_mapped; lia|]. exact (proj1 (proj1 example_page_cstr)).
Defined.
