(* ===== verification/Ext2Dev.v ===== *)
(** * Ext2Dev: the drive below the kernel's ext2, [kernel/fs/ext2/ext2.c]

    A drive is its bytes; the functions of the storage driver move one sector of
    512 bytes. On top of them [_ext2_read_from_dev] and [_ext2_write_to_dev] move
    any range, and their [user] variants move it from and to user memory; here
    they are shown to do just that. The packed records of [fs/ext2/ext2.h] are
    put together from and taken apart into the widths of their fields. *)
From stdpp Require Import gmap.
From S2P Require Import Prelude Platform Memory Umem.

Definition disk : Type := list Z.

(** The storage driver: a sector outside the drive is undefined. *)
Definition read_sector (d : disk) (sector : Z) : option (list Z) := zread d (512 * sector) 512.
Definition write_sector (d : disk) (sector : Z) (b : list Z) : option disk := zwrite d (512 * sector) b.

(** [min(512 - start_offset, len)] bytes of every sector on the way. *)
Definition _ext2_read_from_dev (d : disk) (start len : Z) : option (list Z) :=
  loop (S (Z.to_nat len)) (λ '(buf, sector, start_offset, len),
    if len =? 0 then Some (inr buf) else
    tmp_buf ← read_sector d sector;
    let to_read := Z.min (512 - start_offset) len in
    bytes ← zread tmp_buf start_offset to_read;
    Some (inl (buf ++ bytes, u32 (sector + 1), 0, len - to_read))) ([], start / 512, start mod 512, len).

(** A sector that is written whole is not read first: [tmp_buf] then holds what
    it held before, and all of it is overwritten. *)
Definition _ext2_write_to_dev (d : disk) (buf : list Z) (start : Z) : option disk :=
  let len := Z.of_nat (length buf) in
  loop (S (Z.to_nat len)) (λ '(d, tmp_buf, already_written, sector, start_offset, len),
    if len =? 0 then Some (inr d) else
    tmp_buf ← (if negb (start_offset =? 0) || (len <? 512) then read_sector d sector else Some tmp_buf);
    let to_write := Z.min (512 - start_offset) len in
    bytes ← zread buf already_written to_write;
    tmp_buf ← zwrite tmp_buf start_offset bytes;
    d ← write_sector d sector tmp_buf;
    Some (inl (d, tmp_buf, already_written + to_write, u32 (sector + 1), 0, len - to_write)))
    (d, replicate 512 0, 0, start / 512, start mod 512, len).

(** *** User memory *)

Section user.
Context `{Platform} (kernel_access : bool).

(** [umem_copy_to_user] and [umem_copy_from_user] with the kernel's side in a
    local buffer: the kernel stops at an address that is not the user's. *)
Fixpoint put_bytes (m : mem) (a : Z) (b : list Z) : option mem :=
  match b with
  | [] => Some m
  | x :: b => m ← mset m a x; put_bytes m (a + 1) b
  end.
Fixpoint get_bytes (m : mem) (a : Z) (n : nat) : option (list Z) :=
  match n with
  | O => Some []
  | S n => x ← m !! a; b ← get_bytes m (a + 1) n; Some (x :: b)
  end.

Definition _ext2_umem_copy_to_user (dest : Z) (b : list Z) (m : mem) : option (outcome mem) :=
  if negb (access_ok kernel_access dest (Z.of_nat (length b))) then Some SystemStop else
  m ← put_bytes m dest b; Some (Returned m).
Definition _ext2_umem_copy_from_user (src n : Z) (m : mem) : option (outcome (list Z)) :=
  if negb (access_ok kernel_access src n) then Some SystemStop else
  b ← get_bytes m src (Z.to_nat n); Some (Returned b).

Definition _ext2_user_read_from_dev (d : disk) (buf start len : Z) (m : mem) : option (outcome mem) :=
  loop (S (Z.to_nat len)) (λ '(m, already_read, sector, start_offset, len),
    if len =? 0 then Some (inr (Returned m)) else
    tmp_buf ← read_sector d sector;
    let to_read := Z.min (512 - start_offset) len in
    bytes ← zread tmp_buf start_offset to_read;
    r ← _ext2_umem_copy_to_user (usize (buf + already_read)) bytes m;
    Some (match r with
    | SystemStop => inr SystemStop
    | Returned m => inl (m, already_read + to_read, u32 (sector + 1), 0, len - to_read)
    end)) (m, 0, start / 512, start mod 512, len).

Definition _ext2_user_write_to_dev (d : disk) (buf start len : Z) (m : mem) : option (outcome disk) :=
  loop (S (Z.to_nat len)) (λ '(d, tmp_buf, already_written, sector, start_offset, len),
    if len =? 0 then Some (inr (Returned d)) else
    tmp_buf ← (if negb (start_offset =? 0) || (len <? 512) then read_sector d sector else Some tmp_buf);
    let to_write := Z.min (512 - start_offset) len in
    r ← _ext2_umem_copy_from_user (usize (buf + already_written)) to_write m;
    match r with
    | SystemStop => Some (inr SystemStop)
    | Returned bytes =>
        tmp_buf ← zwrite tmp_buf start_offset bytes;
        d ← write_sector d sector tmp_buf;
        Some (inl (d, tmp_buf, already_written + to_write, u32 (sector + 1), 0, len - to_write))
    end) (d, replicate 512 0, 0, start / 512, start mod 512, len).
End user.

(** ** Packed records *)

(** A number as [n] bytes. *)
Fixpoint le_bytes (n : nat) (v : Z) : list Z :=
  match n with O => [] | S n => v mod 2 ^ 8 :: le_bytes n (v / 2 ^ 8) end.

(** A record by the widths of its fields in bytes. *)
Fixpoint pack (widths : list nat) (values : list Z) : list Z :=
  match widths, values with
  | w :: widths, v :: values => le_bytes w v ++ pack widths values
  | _, _ => []
  end.
Fixpoint unpack (widths : list nat) (b : list Z) : list Z :=
  match widths with
  | [] => []
  | w :: widths => le_val (take w b) :: unpack widths (drop w b)
  end.

Definition SUPERBLOCK_START : Z := 1024.
Definition SUPERBLOCK_LEN : Z := 1024.
Record superblock_t := {
  inodes_count : Z; blocks_count : Z; r_blocks_count : Z; sb_free_blocks_count : Z;
  sb_free_inodes_count : Z; first_data_block : Z; log_block_size : Z; log_frag_size : Z;
  blocks_per_group : Z; frags_per_group : Z; inodes_per_group : Z; sb_mtime : Z; wtime : Z;
  mnt_count : Z; max_mnt_count : Z; magic : Z; sb_state : Z; errors : Z; minor_rev_level : Z;
  lastcheck : Z; checkinterval : Z; creator_os : Z; rev_level : Z; def_resuid : Z; def_resgid : Z;
  first_ino : Z; inode_size : Z; block_group_nr : Z; feature_compat : Z; feature_incompat : Z;
  feature_ro_compat : Z; uuid : Z; volume_name : Z; last_mounted : Z; algo_bitmap : Z;
  prealloc_blocks : Z; prealloc_dir_blocks : Z; sb_unused : Z;
}.
Definition superblock_widths : list nat :=
  replicate 13 4%nat ++ replicate 6 2%nat ++ replicate 4 4%nat ++ [2; 2; 4; 2; 2; 4; 4; 4; 16; 16; 64; 4; 1; 1; 818]%nat.
Definition superblock_bytes (s : superblock_t) : list Z :=
  let '(Build_superblock_t a1 a2 a3 a4 a5 a6 a7 a8 a9 a10 a11 a12 a13 a14 a15 a16 a17 a18 a19 a20
    a21 a22 a23 a24 a25 a26 a27 a28 a29 a30 a31 a32 a33 a34 a35 a36 a37 a38) := s in
  pack superblock_widths [a1; a2; a3; a4; a5; a6; a7; a8; a9; a10; a11; a12; a13; a14; a15; a16; a17;
    a18; a19; a20; a21; a22; a23; a24; a25; a26; a27; a28; a29; a30; a31; a32; a33; a34; a35; a36; a37; a38].
Definition superblock_of (b : list Z) : option superblock_t :=
  match unpack superblock_widths b with
  | [a1; a2; a3; a4; a5; a6; a7; a8; a9; a10; a11; a12; a13; a14; a15; a16; a17;
     a18; a19; a20; a21; a22; a23; a24; a25; a26; a27; a28; a29; a30; a31; a32; a33; a34; a35; a36; a37; a38] =>
      Some (Build_superblock_t a1 a2 a3 a4 a5 a6 a7 a8 a9 a10 a11 a12 a13 a14 a15 a16 a17 a18 a19 a20
        a21 a22 a23 a24 a25 a26 a27 a28 a29 a30 a31 a32 a33 a34 a35 a36 a37 a38)
  | _ => None
  end.

Definition GROUP_LEN : Z := 32.
Record group_desc_t := {
  block_bitmap : Z; inode_bitmap : Z; inode_table : Z;
  free_blocks_count : Z; free_inodes_count : Z; used_dirs_count : Z; gd_pad : Z; gd_reserved : Z;
}.
Definition group_widths : list nat := [4; 4; 4; 2; 2; 2; 2; 12]%nat.
Definition group_values (g : group_desc_t) : list Z :=
  [block_bitmap g; inode_bitmap g; inode_table g;
   free_blocks_count g; free_inodes_count g; used_dirs_count g; gd_pad g; gd_reserved g].
Definition group_bytes (g : group_desc_t) : list Z := pack group_widths (group_values g).
Definition group_of (b : list Z) : option group_desc_t :=
  match unpack group_widths b with
  | [bb; ib; it; fb; fi; ud; p; r] => Some (Build_group_desc_t bb ib it fb fi ud p r)
  | _ => None
  end.

Definition INODE_LEN : Z := 128.
Record inode_t := {
  mode : Z; uid : Z; size : Z; atime : Z; ctime : Z; mtime : Z; dtime : Z; gid : Z;
  links_count : Z; blocks : Z; flags : Z; osd1 : Z;
  block : list Z;
  generation : Z; file_acl : Z; dir_acl : Z; faddr : Z; osd2 : Z;
}.
Definition inode_widths : list nat :=
  [2; 2; 4; 4; 4; 4; 4; 2; 2; 4; 4; 4]%nat ++ replicate 15 4%nat ++ [4; 4; 4; 4; 12]%nat.
Definition inode_values (i : inode_t) : list Z :=
  [mode i; uid i; size i; atime i; ctime i; mtime i; dtime i; gid i;
   links_count i; blocks i; flags i; osd1 i] ++ block i ++
  [generation i; file_acl i; dir_acl i; faddr i; osd2 i].
Definition inode_bytes (i : inode_t) : list Z := pack inode_widths (inode_values i).
Definition inode_of (b : list Z) : option inode_t :=
  match unpack inode_widths b with
  | m :: u :: sz :: at' :: ct :: mt :: dt :: g :: lc :: bl :: fl :: o1 :: rest =>
      match drop 15 rest with
      | [gen; fa; da; fad; o2] =>
          Some (Build_inode_t m u sz at' ct mt dt g lc bl fl o1 (take 15 rest) gen fa da fad o2)
      | _ => None
      end
  | _ => None
  end.

(** Assignments to the fields of an inode. *)
Definition set_size (i : inode_t) (v : Z) : inode_t :=
  Build_inode_t (mode i) (uid i) v (atime i) (ctime i) (mtime i) (dtime i) (gid i) (links_count i) (blocks i)
    (flags i) (osd1 i) (block i) (generation i) (file_acl i) (dir_acl i) (faddr i) (osd2 i).
Definition set_mtime (i : inode_t) (v : Z) : inode_t :=
  Build_inode_t (mode i) (uid i) (size i) (atime i) (ctime i) v (dtime i) (gid i) (links_count i) (blocks i)
    (flags i) (osd1 i) (block i) (generation i) (file_acl i) (dir_acl i) (faddr i) (osd2 i).
Definition set_links_count (i : inode_t) (v : Z) : inode_t :=
  Build_inode_t (mode i) (uid i) (size i) (atime i) (ctime i) (mtime i) (dtime i) (gid i) (u16 v) (blocks i)
    (flags i) (osd1 i) (block i) (generation i) (file_acl i) (dir_acl i) (faddr i) (osd2 i).
Definition set_blocks (i : inode_t) (v : Z) : inode_t :=
  Build_inode_t (mode i) (uid i) (size i) (atime i) (ctime i) (mtime i) (dtime i) (gid i) (links_count i) (u32 v)
    (flags i) (osd1 i) (block i) (generation i) (file_acl i) (dir_acl i) (faddr i) (osd2 i).
Definition set_block_list (i : inode_t) (l : list Z) : inode_t :=
  Build_inode_t (mode i) (uid i) (size i) (atime i) (ctime i) (mtime i) (dtime i) (gid i) (links_count i) (blocks i)
    (flags i) (osd1 i) l (generation i) (file_acl i) (dir_acl i) (faddr i) (osd2 i).
Definition set_owner (i : inode_t) (m u g : Z) : inode_t :=
  Build_inode_t (u16 m) (u16 u) (size i) (atime i) (ctime i) (mtime i) (dtime i) (u16 g) (links_count i) (blocks i)
    (flags i) (osd1 i) (block i) (generation i) (file_acl i) (dir_acl i) (faddr i) (osd2 i).
Definition set_mode (i : inode_t) (m : Z) : inode_t :=
  Build_inode_t (u16 m) (uid i) (size i) (atime i) (ctime i) (mtime i) (dtime i) (gid i) (links_count i) (blocks i)
    (flags i) (osd1 i) (block i) (generation i) (file_acl i) (dir_acl i) (faddr i) (osd2 i).

(** ** Ranges of arrays *)

Section ranges.
Context {A : Type}.
Implicit Types (d b : list A).

Lemma zread_Some d a n b : zread d a n = Some b ↔
  0 <= a ∧ 0 <= n ∧ a + n <= Z.of_nat (length d) ∧ Z.of_nat (length b) = n ∧
  ∀ j, 0 <= j < n → b.[j] = d.[a + j].
Proof.
  split.
  - unfold zread. case_decide as H; [|done]. intros [= <-].
    split; [lia|]. split; [lia|]. split; [lia|]. split; [rewrite length_take, length_drop; lia|].
    intros j Hj. rewrite !zget_lookup by lia. rewrite lookup_take_lt, lookup_drop by lia. f_equal. lia.
  - intros (Ha & Hn & Hl & Hb & Hj). rewrite zread_in by lia. f_equal.
    apply list_eq_zget; [rewrite length_take, length_drop; lia|].
    intros j Hj'. rewrite length_take, length_drop in Hj'. rewrite Hj by lia.
    rewrite !zget_lookup by lia. rewrite lookup_take_lt, lookup_drop by lia. f_equal. lia.
Qed.

Lemma zread_is_Some d a n : 0 <= a → 0 <= n → a + n <= Z.of_nat (length d) →
  ∃ b, zread d a n = Some b.
Proof. intros. eexists. by apply zread_in. Qed.

Lemma zread_len d a n b : zread d a n = Some b → Z.of_nat (length b) = n.
Proof. intros H. by apply zread_Some in H as (_ & _ & _ & ? & _). Qed.

Lemma zread_app d a n k b1 b2 : zread d a n = Some b1 → zread d (a + n) k = Some b2 →
  zread d a (n + k) = Some (b1 ++ b2).
Proof.
  intros (?&?&?&Hl1&Ea)%zread_Some (?&?&?&Hl2&Eb)%zread_Some. apply zread_Some.
  split; [lia|]. split; [lia|]. split; [lia|]. split; [rewrite length_app; lia|].
  intros j Hj. rewrite zget_app. case_decide; [apply Ea; lia|]. rewrite Eb by lia. f_equal. lia.
Qed.

Lemma zread_zread d a n b c k b1 : zread d a n = Some b1 → 0 <= c → 0 <= k → c + k <= n →
  zread b1 c k = Some b → zread d (a + c) k = Some b.
Proof.
  intros (?&?&?&Hl1&Ea)%zread_Some ? ? ? (?&?&?&Hl2&Eb)%zread_Some. apply zread_Some.
  split; [lia|]. split; [lia|]. split; [lia|]. split; [done|].
  intros j Hj. rewrite Eb, Ea by lia. f_equal. lia.
Qed.

(** A range inside a range. *)
Lemma zread_sub d a n b1 c k : zread d a n = Some b1 → 0 <= c → 0 <= k → c + k <= n →
  zread b1 c k = zread d (a + c) k.
Proof.
  intros H1 ? ? ?. destruct (zread_is_Some b1 c k) as [b E]; [lia|lia|by rewrite (zread_len _ _ _ _ H1)|].
  rewrite E. symmetry. by eapply zread_zread.
Qed.

Lemma zwrite_Some d a b d' : zwrite d a b = Some d' ↔
  0 <= a ∧ a + Z.of_nat (length b) <= Z.of_nat (length d) ∧ length d' = length d ∧
  ∀ j, 0 <= j < Z.of_nat (length d) →
    d'.[j] = if decide (a <= j < a + Z.of_nat (length b)) then b.[j - a] else d.[j].
Proof.
  split.
  - intros H. pose proof (zwrite_length _ _ _ _ H) as Hl. pose proof H as H'.
    unfold zwrite in H. case_decide; [|done]. split; [lia|]. split; [lia|]. split; [done|].
    intros j Hj. by apply zwrite_get.
  - intros (Ha & Hl & Hl' & Hj). destruct (zwrite d a b) as [d2|] eqn:E.
    2:{ unfold zwrite in E. rewrite decide_True in E by lia. done. }
    f_equal. pose proof (zwrite_length _ _ _ _ E). apply list_eq_zget; [congruence|].
    intros j Hj'. rewrite (zwrite_get _ _ _ _ _ E). rewrite Hj by lia. done.
Qed.

Lemma zwrite_is_Some d a b : 0 <= a → a + Z.of_nat (length b) <= Z.of_nat (length d) →
  ∃ d', zwrite d a b = Some d'.
Proof. intros. eexists. by apply zwrite_in. Qed.

Lemma zwrite_app d a b1 b2 d1 : zwrite d a b1 = Some d1 →
  zwrite d1 (a + Z.of_nat (length b1)) b2 = zwrite d a (b1 ++ b2).
Proof.
  intros H1. pose proof H1 as (Ha & Hl & Hl1 & _)%zwrite_Some.
  destruct (zwrite d1 _ b2) as [d2|] eqn:E2.
  - pose proof E2 as (_ & Hl2 & Hl2' & _)%zwrite_Some. symmetry. apply zwrite_Some.
    rewrite length_app. split; [lia|]. split; [lia|]. split; [congruence|].
    intros j Hj. rewrite (zwrite_get _ _ _ _ _ E2), (zwrite_get _ _ _ _ _ H1), zget_app.
    repeat case_decide; try lia; try done; f_equal; lia.
  - unfold zwrite in E2 |- *. rewrite length_app. case_decide; [done|]. by rewrite decide_False by lia.
Qed.

(** A range that was written reads back; one beside it reads as before. *)
Lemma zread_zwrite_same d a b d' n : zwrite d a b = Some d' → n = Z.of_nat (length b) →
  zread d' a n = Some b.
Proof.
  intros (?&?&?&E)%zwrite_Some ->. apply zread_Some. split; [done|]. split; [lia|]. split; [lia|].
  split; [done|]. intros j Hj. rewrite E by lia. rewrite decide_True by lia. f_equal. lia.
Qed.
Lemma zread_zwrite_other d a b d' c n : zwrite d a b = Some d' →
  c + n <= a ∨ a + Z.of_nat (length b) <= c → zread d' c n = zread d c n.
Proof.
  intros (Ha&Hl&Hl'&Ew)%zwrite_Some Hd. destruct (zread d c n) as [r|] eqn:E.
  - apply zread_Some in E as (?&?&?&?&Hr). apply zread_Some.
    split; [done|]. split; [done|]. split; [lia|]. split; [done|].
    intros j Hj. rewrite Hr, Ew by lia. by rewrite decide_False by lia.
  - unfold zread in *. rewrite Hl'. case_decide; done.
Qed.
Lemma zwrite_zread_id d a n b : zread d a n = Some b → zwrite d a b = Some d.
Proof.
  intros (?&?&?&Hl&Er)%zread_Some. apply zwrite_Some. split; [done|]. split; [lia|]. split; [done|].
  intros j Hj. case_decide; [|done]. rewrite Er by lia. f_equal. lia.
Qed.
(** Writing a part of a range is writing the range with that part changed. *)
Lemma zwrite_part d a n b c x b' : zread d a n = Some b → zwrite b c x = Some b' →
  zwrite d a b' = zwrite d (a + c) x.
Proof.
  intros (?&?&?&Hl&Er)%zread_Some (?&?&Hl'&Ew)%zwrite_Some.
  destruct (zwrite_is_Some d (a + c) x) as [d' E]; [lia|lia|]. rewrite E.
  apply zwrite_Some in E as (?&?&?&E). apply zwrite_Some.
  split; [lia|]. split; [lia|]. split; [done|]. intros j Hj. rewrite E by lia.
  repeat case_decide; try lia; try done.
  - rewrite Ew by lia. rewrite decide_True by lia. f_equal. lia.
  - rewrite Ew by lia. rewrite decide_False by lia. rewrite Er by lia. f_equal. lia.
Qed.
End ranges.

(** ** What the transfers compute *)

(** A drive of whole sectors that a 32-bit offset reaches. *)
Definition disk_ok (d : disk) : Prop :=
  Z.of_nat (length d) mod 512 = 0 ∧ Z.of_nat (length d) <= 2 ^ 32.

(** A sector of the drive, from any place inside it. *)
Lemma sector_in (d : disk) sector o : disk_ok d → 0 <= sector → 0 <= o < 512 →
  512 * sector + o < Z.of_nat (length d) → 512 * sector + 512 <= Z.of_nat (length d).
Proof. intros (Hm & _) ? ? ?. Z.div_mod_to_equations. lia. Qed.

Lemma read_loop d fuel buf sector o len b : disk_ok d → 0 <= sector → 0 <= o < 512 →
  0 <= len < Z.of_nat fuel → zread d (512 * sector + o) len = Some b →
  loop fuel (λ '(buf, sector, start_offset, len),
    if len =? 0 then Some (inr buf) else
    tmp_buf ← read_sector d sector;
    bytes ← zread tmp_buf start_offset (Z.min (512 - start_offset) len);
    Some (inl (buf ++ bytes, u32 (sector + 1), 0, len - Z.min (512 - start_offset) len)))
    (buf, sector, o, len) = Some (buf ++ b).
Proof.
  intros Hd. revert buf sector o len b.
  induction fuel as [|fuel IH]; intros buf sector o len b Hs Ho Hlen Hb; [lia|]. rewrite loop_S.
  pose proof Hb as (_ & _ & Hend & Hbl & _)%zread_Some. pose proof Hd as (_ & Hmax).
  destruct (Z.eqb_spec len 0) as [->|Hnz].
  { destruct b; [|simpl in Hbl; lia]. by rewrite app_nil_r. }
  pose proof (sector_in d sector o Hd Hs Ho) as Hsec. unfold read_sector.
  destruct (zread_is_Some d (512 * sector) 512) as [t Et]; [lia|lia|lia|]. returns Et.
  remember (Z.min (512 - o) len) as n eqn:Hn.
  rewrite (zread_sub d (512 * sector) 512 t o n Et) by lia.
  destruct (zread_is_Some d (512 * sector + o) n) as [b1 E1]; [lia|lia|lia|]. returns E1.
  rewrite u32_small by lia.
  destruct (zread_is_Some d (512 * sector + o + n) (len - n)) as [b2 E2]; [lia|lia|lia|].
  assert (b = b1 ++ b2) as ->.
  { pose proof (zread_app _ _ _ _ _ _ E1 E2) as E. replace (n + (len - n)) with len in E by lia. congruence. }
  rewrite app_assoc. apply IH; [lia..|].
  destruct (decide (len <= 512 - o)).
  - replace (len - n) with 0 in * by lia.
    apply zread_Some in E2 as (_ & _ & _ & Hl2 & _). destruct b2; [|simpl in Hl2; lia].
    apply zread_Some. split; [lia|]. split; [lia|]. split; [lia|]. split; [done|lia].
  - replace (512 * (sector + 1) + 0) with (512 * sector + o + n) by lia. done.
Qed.

Lemma div_mod_512 start : 0 <= start → 0 <= start / 512 ∧ 0 <= start mod 512 < 512 ∧
  512 * (start / 512) + start mod 512 = start.
Proof. intros. Z.div_mod_to_equations. lia. Qed.

Lemma read_from_dev_spec d start len : disk_ok d → 0 <= start → 0 <= len →
  start + len <= Z.of_nat (length d) → _ext2_read_from_dev d start len = zread d start len.
Proof.
  intros Hd Hs Hl Hend. destruct (zread_is_Some d start len) as [b E]; [done..|]. rewrite E.
  destruct (div_mod_512 start Hs) as (? & ? & Heq).
  apply (read_loop d _ [] (start / 512) (start mod 512) len b); [done..| |]; [lia|]. by rewrite Heq.
Qed.

Lemma zwrite_whole {A} (t b : list A) : length b = length t → zwrite t 0 b = Some b.
Proof.
  intros Hl. apply zwrite_Some. split; [lia|]. split; [lia|]. split; [done|].
  intros j Hj. rewrite decide_True by lia. f_equal. lia.
Qed.

Lemma zwrite_nil {A} (d : list A) a : 0 <= a <= Z.of_nat (length d) → zwrite d a [] = Some d.
Proof.
  intros. apply zwrite_Some. split; [lia|]. split; [simpl; lia|]. split; [done|].
  intros j Hj. by rewrite decide_False by (simpl; lia).
Qed.

(** One sector on the way: whatever the buffer held, the bytes land in their place. *)
Lemma write_step (d : disk) t tmp sector o len b : disk_ok d → 0 <= sector → 0 <= o < 512 → length tmp = 512%nat →
  512 * sector + 512 <= Z.of_nat (length d) → Z.of_nat (length b) = Z.min (512 - o) len →
  (if negb (o =? 0) || (len <? 512) then read_sector d sector else Some tmp) = Some t →
  ∃ t' d', zwrite t o b = Some t' ∧ length t' = 512%nat ∧ write_sector d sector t' = Some d' ∧
    zwrite d (512 * sector + o) b = Some d'.
Proof.
  intros Hd Hs Ho Htmp Hsec Hb Ht.
  destruct (zwrite_is_Some d (512 * sector + o) b) as [d' Ed]; [lia|lia|].
  destruct (negb (o =? 0) || (len <? 512)) eqn:E.
  - unfold read_sector in Ht. pose proof (zread_len _ _ _ _ Ht) as Hl.
    destruct (zwrite_is_Some t o b) as [t' Et]; [lia|lia|].
    exists t', d'. split; [done|]. pose proof (zwrite_length _ _ _ _ Et). split; [lia|]. split; [|done].
    unfold write_sector. by rewrite (zwrite_part d (512 * sector) 512 t o b t' Ht Et).
  - apply orb_false_iff in E as [E1 E2]. apply negb_false_iff, Z.eqb_eq in E1 as ->.
    apply Z.ltb_ge in E2. injection Ht as <-.
    exists b, d'. split; [apply zwrite_whole; lia|]. split; [lia|]. split; [|done].
    unfold write_sector. etrans; [|exact Ed]. f_equal. lia.
Qed.

Lemma write_loop buf fuel d tmp aw sector o len b : disk_ok d → 0 <= sector → 0 <= o < 512 →
  length tmp = 512%nat → 0 <= len < Z.of_nat fuel → 512 * sector + o + len <= Z.of_nat (length d) →
  zread buf aw len = Some b →
  loop fuel (λ '(d, tmp_buf, already_written, sector, start_offset, len),
    if len =? 0 then Some (inr d) else
    tmp_buf ← (if negb (start_offset =? 0) || (len <? 512) then read_sector d sector else Some tmp_buf);
    bytes ← zread buf already_written (Z.min (512 - start_offset) len);
    tmp_buf ← zwrite tmp_buf start_offset bytes;
    d ← write_sector d sector tmp_buf;
    Some (inl (d, tmp_buf, already_written + Z.min (512 - start_offset) len, u32 (sector + 1), 0,
      len - Z.min (512 - start_offset) len)))
    (d, tmp, aw, sector, o, len) = zwrite d (512 * sector + o) b.
Proof.
  revert d tmp aw sector o len b.
  induction fuel as [|fuel IH]; intros d tmp aw sector o len b Hd Hs Ho Htmp Hlen Hend Hb; [lia|].
  rewrite loop_S. pose proof Hb as (Haw & _ & Hbend & Hbl & _)%zread_Some. pose proof Hd as (_ & Hmax).
  destruct (Z.eqb_spec len 0) as [->|Hnz].
  { destruct b; [|simpl in Hbl; lia]. by rewrite zwrite_nil by lia. }
  pose proof (sector_in d sector o Hd Hs Ho ltac:(lia)) as Hsec.
  assert (∃ t, (if negb (o =? 0) || (len <? 512) then read_sector d sector else Some tmp) = Some t) as [t Et].
  { case_match; [|by eauto]. apply zread_is_Some; lia. }
  returns Et. remember (Z.min (512 - o) len) as n eqn:Hn.
  destruct (zread_is_Some buf aw n) as [b1 E1]; [lia..|]. returns E1.
  pose proof (zread_len _ _ _ _ E1) as Hl1.
  destruct (zread_is_Some buf (aw + n) (len - n)) as [b2 E2]; [lia..|].
  assert (b = b1 ++ b2) as ->.
  { pose proof (zread_app _ _ _ _ _ _ E1 E2) as E. replace (n + (len - n)) with len in E by lia. congruence. }
  destruct (write_step d t tmp sector o len b1) as (t' & d' & Et' & Hlt & Ed' & Ed); [done..| |lia| |].
  { lia. } { done. }
  returns Et'. returns Ed'. rewrite u32_small by lia.
  pose proof (zwrite_length _ _ _ _ Ed) as Hld.
  rewrite (IH d' t' _ (sector + 1) 0 _ b2); [| |lia..|done].
  2:{ unfold disk_ok. by rewrite Hld. }
  rewrite <- (zwrite_app _ _ _ b2 _ Ed), Hl1. destruct (decide (len <= 512 - o)).
  - pose proof (zread_len _ _ _ _ E2). destruct b2; [|simpl in *; lia].
    rewrite !zwrite_nil by lia. done.
  - f_equal. lia.
Qed.

Lemma write_to_dev_spec d start b : disk_ok d → 0 <= start →
  start + Z.of_nat (length b) <= Z.of_nat (length d) → _ext2_write_to_dev d b start = zwrite d start b.
Proof.
  intros Hd Hs Hend. destruct (div_mod_512 start Hs) as (? & ? & Heq). unfold _ext2_write_to_dev.
  cbv zeta. pose proof (write_loop b (S (Z.to_nat (Z.of_nat (length b)))) d (replicate 512 0) 0
    (start / 512) (start mod 512) (Z.of_nat (length b)) b) as Hw. rewrite Heq in Hw.
  apply Hw; [done|lia|lia|done|lia|lia|].
  apply zread_Some. split; [lia|]. split; [lia|]. split; [lia|]. split; [done|]. intros. done.
Qed.

Lemma disk_ok_write d a b d' : disk_ok d → zwrite d a b = Some d' → disk_ok d'.
Proof. intros Hd E. unfold disk_ok. by rewrite (zwrite_length _ _ _ _ E). Qed.

(** *** User memory *)

Lemma put_bytes_app m a b1 b2 : put_bytes m a (b1 ++ b2) =
  m1 ← put_bytes m a b1; put_bytes m1 (a + Z.of_nat (length b1)) b2.
Proof.
  revert m a. induction b1 as [|x b1 IH]; intros m a; simpl; [by rewrite Z.add_0_r|].
  destruct (mset m a x) as [m1|]; [|done]. cbn [mbind option_bind]. rewrite IH.
  destruct (put_bytes m1 (a + 1) b1) as [m2|]; [|done]. cbn [mbind option_bind]. f_equal. lia.
Qed.

Lemma get_bytes_app m a n k : get_bytes m a (n + k) =
  b1 ← get_bytes m a n; b2 ← get_bytes m (a + Z.of_nat n) k; Some (b1 ++ b2).
Proof.
  revert a. induction n as [|n IH]; intros a.
  { simpl. rewrite Z.add_0_r. by destruct (get_bytes m a k). }
  simpl. destruct (m !! a) as [x|]; [|done]. cbn [mbind option_bind]. rewrite IH.
  replace (a + 1 + Z.of_nat n) with (a + Z.of_nat (S n)) by lia.
  destruct (get_bytes m (a + 1) n); [|done]. cbn [mbind option_bind].
  by destruct (get_bytes m (a + Z.of_nat (S n)) k).
Qed.

Lemma get_bytes_length m a n b : get_bytes m a n = Some b → length b = n.
Proof.
  revert a b. induction n as [|n IH]; intros a b; simpl; [by intros [= <-]|].
  intros (x & _ & (b' & E & [= <-])%bind_Some)%bind_Some. simpl. f_equal. by eapply IH.
Qed.

Section user_spec.
Context `{Platform} (ka : bool).

(** A buffer every byte of which the copies let through. *)
Definition user_buffer (buf len : Z) : Prop := 0 <= buf ∧ 0 <= len <= 2 ^ 30 ∧
  buf + len < 2 ^ ptr_bits ∧ (ka = false → buf + len - 1 <= USER_HIGH).

Lemma user_buffer_ok buf len k n : user_buffer buf len → 0 <= k → 0 < n → k + n <= len →
  usize (buf + k) = buf + k ∧ access_ok ka (buf + k) n = true.
Proof.
  intros (Hb & Hl & Hend & Hu) Hk Hn Hle. rewrite usize_small by lia. split; [done|].
  unfold access_ok, IS_USER_VADDR. destruct ka; [done|]. specialize (Hu eq_refl). simpl.
  rewrite usize_small by lia. apply andb_true_iff. rewrite !Z.leb_le. lia.
Qed.

Lemma user_read_loop d fuel buf total m aw sector o len b : disk_ok d → 0 <= sector → 0 <= o < 512 →
  0 <= len < Z.of_nat fuel → user_buffer buf total → 0 <= aw → aw + len <= total →
  zread d (512 * sector + o) len = Some b →
  loop fuel (λ '(m, already_read, sector, start_offset, len),
    if len =? 0 then Some (inr (Returned m)) else
    tmp_buf ← read_sector d sector;
    bytes ← zread tmp_buf start_offset (Z.min (512 - start_offset) len);
    r ← _ext2_umem_copy_to_user ka (usize (buf + already_read)) bytes m;
    Some (match r with
    | SystemStop => inr SystemStop
    | Returned m => inl (m, already_read + Z.min (512 - start_offset) len, u32 (sector + 1), 0,
        len - Z.min (512 - start_offset) len)
    end)) (m, aw, sector, o, len) = m' ← put_bytes m (buf + aw) b; Some (Returned m').
Proof.
  intros Hd. revert m aw sector o len b.
  induction fuel as [|fuel IH]; intros m aw sector o len b Hs Ho Hlen Hub Haw Hle Hb; [lia|]. rewrite loop_S.
  pose proof Hb as (_ & _ & Hend & Hbl & _)%zread_Some. pose proof Hd as (_ & Hmax).
  destruct (Z.eqb_spec len 0) as [->|Hnz].
  { destruct b; [done|simpl in Hbl; lia]. }
  pose proof (sector_in d sector o Hd Hs Ho) as Hsec. unfold read_sector at 1.
  destruct (zread_is_Some d (512 * sector) 512) as [t Et]; [lia|lia|lia|]. returns Et.
  remember (Z.min (512 - o) len) as n eqn:Hn.
  rewrite (zread_sub d (512 * sector) 512 t o n Et) by lia.
  destruct (zread_is_Some d (512 * sector + o) n) as [b1 E1]; [lia|lia|lia|]. returns E1.
  destruct (zread_is_Some d (512 * sector + o + n) (len - n)) as [b2 E2]; [lia|lia|lia|].
  assert (b = b1 ++ b2) as ->.
  { pose proof (zread_app _ _ _ _ _ _ E1 E2) as E. replace (n + (len - n)) with len in E by lia. congruence. }
  pose proof (zread_len _ _ _ _ E1) as Hl1.
  destruct (user_buffer_ok buf total aw n Hub) as [-> Hok]; [lia..|].
  unfold _ext2_umem_copy_to_user at 1. rewrite Hl1, Hok. cbn [negb]. rewrite put_bytes_app, Hl1.
  destruct (put_bytes m (buf + aw) b1) as [m1|] eqn:E3; [|done]. cbn [mbind option_bind].
  rewrite u32_small by lia. rewrite (IH _ _ _ _ _ b2); [|lia..|done|lia|lia|].
  { by rewrite Z.add_assoc. }
  destruct (decide (len <= 512 - o)).
  - replace (len - n) with 0 in * by lia.
    apply zread_Some in E2 as (_ & _ & _ & Hl2 & _). destruct b2; [|simpl in Hl2; lia].
    apply zread_Some. split; [lia|]. split; [lia|]. split; [lia|]. split; [done|lia].
  - replace (512 * (sector + 1) + 0) with (512 * sector + o + n) by lia. done.
Qed.

Lemma user_read_from_dev_spec d buf start len m b : disk_ok d → 0 <= start → user_buffer buf len →
  zread d start len = Some b →
  _ext2_user_read_from_dev ka d buf start len m = m' ← put_bytes m buf b; Some (Returned m').
Proof.
  intros Hd Hs Hub Hb. pose proof Hub as (_ & Hl & _). destruct (div_mod_512 start Hs) as (? & ? & Heq).
  unfold _ext2_user_read_from_dev. cbv zeta.
  pose proof (user_read_loop d (S (Z.to_nat len)) buf len m 0 (start / 512) (start mod 512) len b) as Hw.
  rewrite Heq, Z.add_0_r in Hw. apply Hw; (done || lia).
Qed.

Lemma user_write_loop buf total m fuel d tmp aw sector o len : disk_ok d → 0 <= sector → 0 <= o < 512 →
  length tmp = 512%nat → 0 <= len < Z.of_nat fuel → 512 * sector + o + len <= Z.of_nat (length d) →
  user_buffer buf total → 0 <= aw → aw + len <= total →
  loop fuel (λ '(d, tmp_buf, already_written, sector, start_offset, len),
    if len =? 0 then Some (inr (Returned d)) else
    tmp_buf ← (if negb (start_offset =? 0) || (len <? 512) then read_sector d sector else Some tmp_buf);
    r ← _ext2_umem_copy_from_user ka (usize (buf + already_written)) (Z.min (512 - start_offset) len) m;
    match r with
    | SystemStop => Some (inr SystemStop)
    | Returned bytes =>
        tmp_buf ← zwrite tmp_buf start_offset bytes;
        d ← write_sector d sector tmp_buf;
        Some (inl (d, tmp_buf, already_written + Z.min (512 - start_offset) len, u32 (sector + 1), 0,
          len - Z.min (512 - start_offset) len))
    end) (d, tmp, aw, sector, o, len) =
  b ← get_bytes m (buf + aw) (Z.to_nat len); d' ← zwrite d (512 * sector + o) b; Some (Returned d').
Proof.
  revert d tmp aw sector o len.
  induction fuel as [|fuel IH]; intros d tmp aw sector o len Hd Hs Ho Htmp Hlen Hend Hub Haw Hle; [lia|].
  rewrite loop_S. pose proof Hd as (_ & Hmax).
  destruct (Z.eqb_spec len 0) as [->|Hnz].
  { simpl. by rewrite zwrite_nil by lia. }
  pose proof (sector_in d sector o Hd Hs Ho ltac:(lia)) as Hsec.
  assert (∃ t, (if negb (o =? 0) || (len <? 512) then read_sector d sector else Some tmp) = Some t) as [t Et].
  { case_match; [|by eauto]. apply zread_is_Some; lia. }
  returns Et. remember (Z.min (512 - o) len) as n eqn:Hn.
  destruct (user_buffer_ok buf total aw n Hub) as [-> Hok]; [lia..|].
  unfold _ext2_umem_copy_from_user at 1. rewrite Hok. cbn [negb].
  replace (Z.to_nat len) with (Z.to_nat n + Z.to_nat (len - n))%nat by lia. rewrite get_bytes_app.
  destruct (get_bytes m (buf + aw) (Z.to_nat n)) as [b1|] eqn:E1; [|done]. cbn [mbind option_bind].
  pose proof (get_bytes_length _ _ _ _ E1) as Hl1.
  destruct (write_step d t tmp sector o len b1) as (t' & d' & Et' & Hlt & Ed' & Ed); [done..| |lia| |].
  { lia. } { done. }
  returns Et'. returns Ed'. rewrite u32_small by lia.
  pose proof (zwrite_length _ _ _ _ Ed) as Hld.
  rewrite (IH d' t' _ (sector + 1) 0 (len - n)); [| |lia..|done|lia|lia].
  2:{ unfold disk_ok. by rewrite Hld. }
  replace (buf + aw + Z.of_nat (Z.to_nat n)) with (buf + (aw + n)) by lia.
  destruct (get_bytes m (buf + (aw + n)) (Z.to_nat (len - n))) as [b2|] eqn:E2; [|done]. cbn [mbind option_bind].
  pose proof (get_bytes_length _ _ _ _ E2) as Hl2.
  rewrite <- (zwrite_app _ _ _ b2 _ Ed), Hl1. destruct (decide (len <= 512 - o)).
  - destruct b2; [|simpl in *; lia]. rewrite !zwrite_nil by lia. done.
  - do 2 f_equal. lia.
Qed.

Lemma user_write_to_dev_spec d buf start len m : disk_ok d → 0 <= start → user_buffer buf len →
  start + len <= Z.of_nat (length d) →
  _ext2_user_write_to_dev ka d buf start len m =
  b ← get_bytes m buf (Z.to_nat len); d' ← zwrite d start b; Some (Returned d').
Proof.
  intros Hd Hs Hub Hend. pose proof Hub as (_ & Hl & _). destruct (div_mod_512 start Hs) as (? & ? & Heq).
  unfold _ext2_user_write_to_dev. cbv zeta.
  pose proof (user_write_loop buf len m (S (Z.to_nat len)) d (replicate 512 0) 0 (start / 512) (start mod 512) len) as Hw.
  rewrite Heq, Z.add_0_r in Hw. apply Hw; (done || lia).
Qed.
End user_spec.

(** *** Records *)

Lemma length_le_bytes n v : length (le_bytes n v) = n.
Proof. revert v. induction n; intros v; simpl; [done|]. by f_equal. Qed.
Lemma le_bytes_byte n v : Forall byte (le_bytes n v).
Proof. revert v. induction n; intros v; simpl; constructor; [apply Z.mod_pos_bound; lia|done]. Qed.
Lemma le_val_bytes n v : 0 <= v < 2 ^ (8 * Z.of_nat n) → le_val (le_bytes n v) = v.
Proof.
  revert v. induction n as [|n IH]; intros v Hv; [simpl in *; lia|]. cbn [le_bytes le_val foldr]. fold (le_val (le_bytes n (v / 2 ^ 8))).
  replace (8 * Z.of_nat (S n)) with (8 + 8 * Z.of_nat n) in Hv by lia. rewrite Z.pow_add_r in Hv by lia.
  rewrite IH; [pose proof (Z.div_mod v (2 ^ 8)); lia|].
  split; [apply Z.div_pos; lia|apply Z.div_lt_upper_bound; lia].
Qed.
Lemma le_bytes_val l : Forall byte l → le_bytes (length l) (le_val l) = l.
Proof.
  induction 1 as [|b l Hb _ IH]; [done|]. cbn [le_val foldr length le_bytes]. fold (le_val l).
  unfold byte in Hb. rewrite (Z.mul_comm (2 ^ 8)), Z_mod_plus_full, Z.mod_small by lia.
  rewrite Z_div_plus_full, Z.div_small by lia. by rewrite Z.add_0_l, IH.
Qed.

(** Values that fit their fields. *)
Definition values_ok (widths : list nat) (values : list Z) : Prop :=
  Forall2 (λ w v, 0 <= v < 2 ^ (8 * Z.of_nat w)) widths values.

Lemma length_pack widths values : values_ok widths values → length (pack widths values) = sum_list widths.
Proof. induction 1; simpl; [done|]. rewrite length_app, length_le_bytes. by f_equal. Qed.
Lemma pack_byte widths values : Forall byte (pack widths values).
Proof.
  revert values. induction widths; intros [|v values]; simpl; [done..|].
  apply Forall_app. split; [apply le_bytes_byte|done].
Qed.
Lemma unpack_pack widths values : values_ok widths values → unpack widths (pack widths values) = values.
Proof.
  induction 1 as [|w v widths values Hv _ IH]; simpl; [done|].
  rewrite take_app_length', drop_app_length' by (by rewrite length_le_bytes). by rewrite le_val_bytes, IH.
Qed.
Lemma unpack_ok widths b : Forall byte b → sum_list widths = length b → 
  values_ok widths (unpack widths b) ∧ pack widths (unpack widths b) = b.
Proof.
  revert b. induction widths as [|w widths IH]; intros b Hb Hl; simpl in *.
  { split; [constructor|]. by destruct b. }
  destruct (IH (drop w b)) as [H1 H2]; [by apply Forall_drop|rewrite length_drop; lia|].
  assert (length (take w b) = w) as Hlw by (rewrite length_take; lia).
  assert (Forall byte (take w b)) as Hbw by by apply Forall_take.
  split.
  - constructor; [|done]. pose proof (le_val_range _ Hbw) as Hr. by rewrite Hlw in Hr.
  - rewrite H2. pose proof (le_bytes_val _ Hbw) as E. rewrite Hlw in E. by rewrite E, take_drop.
Qed.

Definition group_ok (g : group_desc_t) : Prop := values_ok group_widths (group_values g).
Definition inode_ok (i : inode_t) : Prop :=
  length (block i) = 15%nat ∧ values_ok inode_widths (inode_values i).

Lemma group_of_bytes g : group_ok g → group_of (group_bytes g) = Some g.
Proof. intros Hg. unfold group_of, group_bytes. rewrite unpack_pack by done. by destruct g. Qed.
Lemma length_group_bytes g : group_ok g → length (group_bytes g) = 32%nat.
Proof. apply length_pack. Qed.
Lemma group_of_Some b : Forall byte b → length b = 32%nat →
  ∃ g, group_of b = Some g ∧ group_ok g ∧ group_bytes g = b.
Proof.
  intros Hb Hl. destruct (unpack_ok group_widths b Hb) as [Hv Hp]; [by rewrite Hl|].
  eexists. split; [reflexivity|]. by split.
Qed.

Lemma inode_of_bytes i : inode_ok i → inode_of (inode_bytes i) = Some i.
Proof.
  intros [Hl Hi]. unfold inode_of, inode_bytes. rewrite unpack_pack by done.
  destruct i as [? ? ? ? ? ? ? ? ? ? ? ? bl ? ? ? ? ?]. simpl in Hl.
  unfold inode_values. cbn [mode uid size atime ctime mtime dtime gid links_count blocks flags osd1 block
    generation file_acl dir_acl faddr osd2 app].
  rewrite take_app_length', drop_app_length' by done. done.
Qed.
Lemma length_inode_bytes i : inode_ok i → length (inode_bytes i) = 128%nat.
Proof. intros [_ Hi]. by apply length_pack. Qed.
Lemma inode_of_Some b : Forall byte b → length b = 128%nat →
  ∃ i, inode_of b = Some i ∧ inode_ok i ∧ inode_bytes i = b.
Proof.
  intros Hb Hl. destruct (unpack_ok inode_widths b Hb) as [Hv Hp]; [by rewrite Hl|].
  eexists. split; [reflexivity|]. split; [split; [reflexivity|exact Hv]|exact Hp].
Qed.

Lemma superblock_of_Some b : Forall byte b → length b = 1024%nat →
  ∃ s, superblock_of b = Some s ∧ superblock_bytes s = b.
Proof.
  intros Hb Hl. destruct (unpack_ok superblock_widths b Hb) as [Hv Hp]; [by rewrite Hl|].
  eexists. split; [reflexivity|]. exact Hp.
Qed.

(** ** Properties *)

(** C29. The transfers below ext2. Writing any range of a drive of whole sectors,
    whatever sectors it touches in part, ends and makes exactly those bytes the
    ones that were given: reading the range gives them back, and reading any other
    range gives what it gave before. Neither goes past the end of the drive. *)
Theorem ext2_dev_transfers d start b : disk_ok d → 0 <= start → start + Z.of_nat (length b) <= Z.of_nat (length d) →
  ∃ d', _ext2_write_to_dev d b start = Some d' ∧ disk_ok d' ∧ length d' = length d ∧
    _ext2_read_from_dev d' start (Z.of_nat (length b)) = Some b ∧
    ∀ a n, 0 <= a → 0 <= n → a + n <= Z.of_nat (length d) → a + n <= start ∨ start + Z.of_nat (length b) <= a →
      ∃ c, _ext2_read_from_dev d a n = Some c ∧ _ext2_read_from_dev d' a n = Some c.
Proof.
  intros Hd Hs Hend. rewrite write_to_dev_spec by done.
  destruct (zwrite_is_Some d start b) as [d' E]; [done..|]. pose proof (zwrite_length _ _ _ _ E) as Hl.
  pose proof (disk_ok_write _ _ _ _ Hd E) as Hd'. exists d'. split; [done|]. split; [done|]. split; [done|]. split.
  - rewrite read_from_dev_spec by (done || lia). by eapply zread_zwrite_same.
  - intros a n Ha Hn Hle Hout. rewrite !read_from_dev_spec by (done || lia).
    destruct (zread_is_Some d a n) as [c Ec]; [done..|]. exists c. split; [done|].
    by rewrite (zread_zwrite_other _ _ _ _ _ _ E).
Qed.

Lemma ext2_dev_transfers_witness :
  ∃ d', _ext2_write_to_dev (replicate 2048 0) (seqZ 1 700) 400 = Some d' ∧ disk_ok d' ∧ length d' = 2048%nat ∧
    _ext2_read_from_dev d' 400 700 = Some (seqZ 1 700) ∧
    ∀ a n, 0 <= a → 0 <= n → a + n <= 2048 → a + n <= 400 ∨ 1100 <= a →
      ∃ c, _ext2_read_from_dev (replicate 2048 0) a n = Some c ∧ _ext2_read_from_dev d' a n = Some c.
Proof.
  apply (ext2_dev_transfers (replicate 2048 0) 400 (seqZ 1 700)); [|lia|vm_compute; discriminate].
  split; vm_compute; [reflexivity|discriminate].
Defined.
