(* ===== verification/Ext2Alloc.v ===== *)
(** * Ext2Alloc: groups, bitmaps and the allocation of blocks and inodes of ext2

    The state of a mounted drive is its bytes and the group table that
    [ext2_prepare_fs] loads; the superblock never changes while it is mounted.
    Blocks and inodes are allocated by the same search, so the model has it once,
    over the bitmap, the counter and the size of a group. *)
From stdpp Require Import gmap.
From S2P Require Import Prelude Platform Bitmap Ext2Dev.

Definition MAX_BLOCK_LEN : Z := 1024.

(** A mounted drive: [vfsdev->dev] and [fsdata->gt->table]. *)
Record fs_t := { dev : disk; gt : list group_desc_t }.
Definition with_dev (s : fs_t) (d : disk) : fs_t := {| dev := d; gt := gt s |}.
Definition with_group (s : fs_t) (id : Z) (g : group_desc_t) : option fs_t :=
  t ← (gt s).[id <- g]; Some {| dev := dev s; gt := t |}.

(** *** Utils *)

Definition _ext2_bitmap_get (bitmap : list Z) (index : Z) : option bool :=
  b ← bitmap.[index / 8]; Some (Z.land (Z.shiftr b (index mod 8)) 1 =? 1).
Definition _ext2_bitmap_set_bit (bitmap : list Z) (index : Z) : option (list Z) :=
  b ← bitmap.[index / 8]; bitmap.[index / 8 <- u8 (Z.lor b (u8 (Z.shiftl 1 (index mod 8))))].
Definition _ext2_bitmap_unset_bit (bitmap : list Z) (index : Z) : option (list Z) :=
  b ← bitmap.[index / 8]; bitmap.[index / 8 <- u8 (Z.land b (Z.lnot (Z.shiftl 1 (index mod 8))))].

Definition set_free_blocks_count (g : group_desc_t) (n : Z) : group_desc_t :=
  {| block_bitmap := block_bitmap g; inode_bitmap := inode_bitmap g; inode_table := inode_table g;
     free_blocks_count := u16 n; free_inodes_count := free_inodes_count g;
     used_dirs_count := used_dirs_count g; gd_pad := gd_pad g; gd_reserved := gd_reserved g |}.
Definition set_free_inodes_count (g : group_desc_t) (n : Z) : group_desc_t :=
  {| block_bitmap := block_bitmap g; inode_bitmap := inode_bitmap g; inode_table := inode_table g;
     free_blocks_count := free_blocks_count g; free_inodes_count := u16 n;
     used_dirs_count := used_dirs_count g; gd_pad := gd_pad g; gd_reserved := gd_reserved g |}.

Section ext2.
Context (sb : superblock_t).

Definition BLOCK_LEN : Z := Z.shiftl 1024 (log_block_size sb).
Definition TO_EXT_BLOCKS_CNT (x : Z) : Z := x / Z.shiftl 2 (log_block_size sb).

(** [int] arithmetic. *)
Definition _ext2_get_group_len : option Z :=
  let n := BLOCK_LEN * BLOCK_LEN * 8 in if 2 ^ 31 <=? n then None else Some n.
(** The last group is left out when it is smaller. *)
Definition _ext2_get_groups_cnt (disk_size : Z) : option Z :=
  let sz := u32 (disk_size - SUPERBLOCK_START) in
  n ← _ext2_get_group_len; Some (s32 (sz / n)).

Definition _ext2_get_block_offset (block_index : Z) : Z :=
  u32 (SUPERBLOCK_START + u32 (u32 (block_index - 1) * BLOCK_LEN)).

(** A block into a buffer of [MAX_BLOCK_LEN] bytes on the stack: a longer block
    runs over it. *)
Definition read_block (d : disk) (off : Z) : option (list Z) :=
  if MAX_BLOCK_LEN <? BLOCK_LEN then None else _ext2_read_from_dev d off BLOCK_LEN.

(** ** Allocation *)

(** The first clear bit of a bitmap is set; [None] is -ENOSPC. *)
Definition find_free (s : fs_t) (bitmap_block per_group group_index : Z) : option (option Z * fs_t) :=
  let blockoff := _ext2_get_block_offset bitmap_block in
  bitmap ← read_block (dev s) blockoff;
  r ← for_loop (Z.to_nat (8 * BLOCK_LEN)) 0 (λ off (_ : unit),
    taken ← _ext2_bitmap_get bitmap off;
    if negb taken then
      bitmap ← _ext2_bitmap_set_bit bitmap off;
      d ← _ext2_write_to_dev (dev s) bitmap blockoff;
      Some (inr (u32 (per_group * group_index + off + 1), with_dev s d))
    else Some (inl ())) ();
  Some (match r with inr (index, s) => (Some index, s) | inl _ => (None, s) end).

(** The groups from [pref_group] on, around the table. [took] is what becomes of
    the entry of the group that had one. *)
Definition allocate_index (bitmap count : group_desc_t → Z) (took : group_desc_t → group_desc_t)
    (per_group : Z) (s : fs_t) (pref_group : Z) : option (option Z * fs_t) :=
  let groups_cnt := Z.of_nat (length (gt s)) in
  r ← for_loop (Z.to_nat groups_cnt) 0 (λ i s,
    let group_id := u32 (pref_group + i) mod groups_cnt in
    g ← (gt s).[group_id];
    if negb (count g =? 0) then
      '(r, s) ← find_free s (bitmap g) per_group group_id;
      match r with
      | Some index => s ← with_group s group_id (took g); Some (inr (index, s))
      | None => Some (inl s)
      end
    else Some (inl s)) s;
  Some (match r with inr (index, s) => (Some index, s) | inl s => (None, s) end).

Definition _ext2_find_free_block_index (s : fs_t) (group_index : Z) : option (option Z * fs_t) :=
  g ← (gt s).[group_index]; find_free s (block_bitmap g) (blocks_per_group sb) group_index.
Definition _ext2_allocate_block_index (s : fs_t) (pref_group : Z) : option (option Z * fs_t) :=
  allocate_index block_bitmap free_blocks_count (λ g, set_free_blocks_count g (free_blocks_count g - 1))
    (blocks_per_group sb) s pref_group.

(** The bit of the block's place in a range of [block_len] blocks. *)
Definition _ext2_free_block_index (s : fs_t) (block_index : Z) : option fs_t :=
  let block_index := u32 (block_index - 1) in
  if blocks_per_group sb =? 0 then None else
  let group_index := block_index / blocks_per_group sb in
  let off := block_index mod BLOCK_LEN in
  g ← (gt s).[group_index];
  let block_off := _ext2_get_block_offset (block_bitmap g) in
  bitmap ← read_block (dev s) block_off;
  bitmap ← _ext2_bitmap_unset_bit bitmap off;
  d ← _ext2_write_to_dev (dev s) bitmap block_off;
  with_group (with_dev s d) group_index (set_free_blocks_count g (free_blocks_count g + 1)).

Definition _ext2_find_free_inode_index (s : fs_t) (group_index : Z) : option (option Z * fs_t) :=
  g ← (gt s).[group_index]; find_free s (inode_bitmap g) (inodes_per_group sb) group_index.
(** The counter stays as it is. *)
Definition _ext2_allocate_inode_index (s : fs_t) (pref_group : Z) : option (option Z * fs_t) :=
  allocate_index inode_bitmap free_inodes_count (λ g, g) (inodes_per_group sb) s pref_group.

Definition _ext2_free_inode_index (s : fs_t) (inode_index : Z) : option fs_t :=
  let inode_index := u32 (inode_index - 1) in
  if inodes_per_group sb =? 0 then None else
  let group_index := inode_index / inodes_per_group sb in
  let off := inode_index mod inodes_per_group sb in
  g ← (gt s).[group_index];
  let block_off := _ext2_get_block_offset (inode_bitmap g) in
  bitmap ← read_block (dev s) block_off;
  bitmap ← _ext2_bitmap_unset_bit bitmap off;
  d ← _ext2_write_to_dev (dev s) bitmap block_off;
  with_group (with_dev s d) group_index (set_free_inodes_count g (free_inodes_count g + 1)).

(** ** Mounting *)

Definition ext2_recognize_drive (d : disk) : option Z :=
  b ← _ext2_read_from_dev d SUPERBLOCK_START SUPERBLOCK_LEN;
  superblock ← superblock_of b;
  Some (if negb (magic superblock =? 0xEF53) then - EINVAL
        else if negb (rev_level superblock =? 0) then - EINVAL
        else 0).

End ext2.

(** The descriptors that [group_table] holds. *)
Definition groups_of (b : list Z) (n : nat) : option (list group_desc_t) :=
  mapM (λ i, b ← zread b (GROUP_LEN * Z.of_nat i) GROUP_LEN; group_of b) (seq 0 n).

(** The superblock and the state, kept per device. *)
Definition ext2_prepare_fs (d : disk) (disk_size : Z) : option (superblock_t * fs_t) :=
  b ← _ext2_read_from_dev d SUPERBLOCK_START SUPERBLOCK_LEN;
  superblock ← superblock_of b;
  groups_cnt ← _ext2_get_groups_cnt superblock disk_size;
  let groups_cnt := u32 groups_cnt in
  let group_table_len := u32 (groups_cnt * GROUP_LEN) in
  b ← _ext2_read_from_dev d (_ext2_get_block_offset superblock 2) group_table_len;
  t ← groups_of b (Z.to_nat groups_cnt);
  Some (superblock, {| dev := d; gt := t |}).

(** [None] for a drive that was never prepared is the caller's. *)
Definition ext2_save_state (sb : superblock_t) (s : fs_t) : option disk :=
  d ← _ext2_write_to_dev (dev s) (concat (map group_bytes (gt s))) (_ext2_get_block_offset sb 2);
  _ext2_write_to_dev d (superblock_bytes sb) SUPERBLOCK_START.

(** ** Blocks of the drive *)

(** The kernel can use a drive with blocks of 1 KiB only: a longer block would
    not fit its buffers. *)
Definition block_at (d : disk) (b : Z) : list Z := default [] (zread d (1024 * b) 1024).
Definition valid_block (d : disk) (b : Z) : Prop := 1 <= b ∧ 1024 * (b + 1) <= Z.of_nat (length d).
Definition drive_ok (d : disk) : Prop := disk_ok d ∧ Forall byte d.

Section blocks.
Context (sb : superblock_t) (Hlog : log_block_size sb = 0).

Lemma BLOCK_LEN_1024 : BLOCK_LEN sb = 1024.
Proof. unfold BLOCK_LEN. by rewrite Hlog. Qed.

Lemma block_offset d b : drive_ok d → valid_block d b → _ext2_get_block_offset sb b = 1024 * b.
Proof.
  intros [[_ Hd] _] [Hb Hv]. unfold _ext2_get_block_offset, SUPERBLOCK_START. rewrite BLOCK_LEN_1024.
  rewrite (u32_small (b - 1)), (u32_small ((b - 1) * 1024)), u32_small by lia. lia.
Qed.

Lemma block_at_read d b : valid_block d b → zread d (1024 * b) 1024 = Some (block_at d b).
Proof.
  intros [Hb Hv]. unfold block_at. destruct (zread_is_Some d (1024 * b) 1024) as [x ->]; [lia..|done].
Qed.
Lemma length_block_at d b : valid_block d b → length (block_at d b) = 1024%nat.
Proof. intros Hv%block_at_read%zread_len. lia. Qed.
Lemma block_at_bytes d b : Forall byte d → Forall byte (block_at d b).
Proof.
  intros Hd. unfold block_at, zread. case_decide; [|constructor].
  cbn [default]. by apply Forall_take, Forall_drop.
Qed.

Lemma read_block_spec d b : drive_ok d → valid_block d b →
  read_block sb d (_ext2_get_block_offset sb b) = Some (block_at d b).
Proof.
  intros Hd Hv. rewrite (block_offset d b Hd Hv). unfold read_block. rewrite BLOCK_LEN_1024.
  destruct Hv as [Hb Hv]. rewrite read_from_dev_spec by (apply Hd || lia). by apply block_at_read.
Qed.

(** A block that is written holds what was written; the others hold what they held. *)
Lemma write_block_spec d b x : drive_ok d → valid_block d b → Forall byte x → length x = 1024%nat →
  ∃ d', _ext2_write_to_dev d x (_ext2_get_block_offset sb b) = Some d' ∧ zwrite d (1024 * b) x = Some d'.
Proof.
  intros Hd Hv Hx Hl. rewrite (block_offset d b Hd Hv). destruct Hv as [Hb Hv].
  rewrite write_to_dev_spec by (apply Hd || lia). destruct (zwrite_is_Some d (1024 * b) x); [lia..|eauto].
Qed.
End blocks.

Lemma drive_ok_write d a x d' : drive_ok d → Forall byte x → zwrite d a x = Some d' → drive_ok d'.
Proof.
  intros [Hd Hb] Hx E. split; [by eapply disk_ok_write|]. unfold zwrite in E. case_decide; [|done].
  injection E as <-. apply Forall_app. split; [by apply Forall_take|]. apply Forall_app.
  split; [done|by apply Forall_drop].
Qed.
Lemma block_at_written d b x d' : zwrite d (1024 * b) x = Some d' → length x = 1024%nat → block_at d' b = x.
Proof. intros E Hl. unfold block_at. by rewrite (zread_zwrite_same _ _ _ _ _ E) by lia. Qed.
Lemma block_at_other d b x d' b' : zwrite d (1024 * b) x = Some d' → length x = 1024%nat → b' ≠ b →
  block_at d' b' = block_at d b'.
Proof. intros E Hl Hne. unfold block_at. by rewrite (zread_zwrite_other _ _ _ _ _ _ E) by lia. Qed.
Lemma valid_block_write d a x d' b : zwrite d a x = Some d' → valid_block d' b ↔ valid_block d b.
Proof. intros E. unfold valid_block. by rewrite (zwrite_length _ _ _ _ E). Qed.

(** ** Bitmaps *)

Lemma ext2_bitmap_get_bit bm i : 0 <= i < 8 * Z.of_nat (length bm) → _ext2_bitmap_get bm i = Some (bit bm i).
Proof.
  intros Hi. unfold _ext2_bitmap_get, bit.
  destruct (zget_is_Some bm (i / 8)) as [b ->]; [Z.div_mod_to_equations; lia|]. simpl.
  rewrite land_1_testbit by (apply Z.mod_pos_bound; lia). by destruct (Z.testbit b (i mod 8)).
Qed.

Lemma bitmap_set_bit_spec bm i : is_bytes bm → 0 <= i < 8 * Z.of_nat (length bm) →
  ∃ bm', _ext2_bitmap_set_bit bm i = Some bm' ∧ updated true bm bm' i 1.
Proof.
  intros Hd Hi. unfold _ext2_bitmap_set_bit.
  destruct (zget_is_Some bm (i / 8)) as [b Hb]; [Z.div_mod_to_equations; lia|]. returns Hb.
  rewrite zset_in by (by eapply zget_Some).
  eexists. split; [done|]. apply updated_bit; [done|lia|apply u8_range|].
  intros j Hj. pose proof (Z.mod_pos_bound i 8).
  rewrite testbit_u8, decide_True, Z.lor_spec, testbit_u8, decide_True, testbit_pow2 by lia.
  rewrite (bit_byte _ _ _ _ Hb) by done. by case_bool_decide; case_decide; try lia; destruct (Z.testbit b j).
Qed.

Lemma bitmap_unset_bit_spec bm i : is_bytes bm → 0 <= i < 8 * Z.of_nat (length bm) →
  ∃ bm', _ext2_bitmap_unset_bit bm i = Some bm' ∧ updated false bm bm' i 1.
Proof.
  intros Hd Hi. unfold _ext2_bitmap_unset_bit.
  destruct (zget_is_Some bm (i / 8)) as [b Hb]; [Z.div_mod_to_equations; lia|]. returns Hb.
  rewrite zset_in by (by eapply zget_Some).
  eexists. split; [done|]. apply updated_bit; [done|lia|apply u8_range|].
  intros j Hj. pose proof (Z.mod_pos_bound i 8).
  rewrite testbit_u8, decide_True, Z.land_spec, Z.lnot_spec, testbit_pow2 by lia.
  rewrite (bit_byte _ _ _ _ Hb) by done. by case_bool_decide; case_decide; try lia; destruct (Z.testbit b j).
Qed.

(** One bit of the bitmap in block [b] is now [v]; nothing else changed. *)
Definition bit_changed (v : bool) (d d' : disk) (b off : Z) : Prop :=
  ∃ bm, updated v (block_at d b) bm off 1 ∧ length bm = 1024%nat ∧ zwrite d (1024 * b) bm = Some d'.

(** The loop of the search, from [off0] on: [f] is what is done at the first clear bit. *)
Lemma find_free_loop {R} bm (f : Z → option (unit + R)) n off0 :
  (∀ off u, f off ≠ Some (inl u)) → 0 <= off0 → off0 + Z.of_nat n <= 8 * Z.of_nat (length bm) →
  (∃ off, off0 <= off < off0 + Z.of_nat n ∧ bit bm off = false ∧
     for_loop n off0 (λ off (_ : unit),
       taken ← _ext2_bitmap_get bm off; if negb taken then f off else Some (inl ())) () = f off) ∨
  ((∀ off, off0 <= off < off0 + Z.of_nat n → bit bm off = true) ∧
     for_loop n off0 (λ off (_ : unit),
       taken ← _ext2_bitmap_get bm off; if negb taken then f off else Some (inl ())) () = Some (inl ())).
Proof.
  intros Hf. revert off0. induction n as [|n IH]; intros off0 H0 Hn.
  { right. split; [lia|done]. }
  rewrite !for_loop_S, ext2_bitmap_get_bit by lia. cbn [mbind option_bind].
  destruct (bit bm off0) eqn:E; cbn [negb].
  - destruct (IH (off0 + 1)) as [(off & Ho & Hb & ->)|[Hall ->]]; [lia..| |].
    + left. exists off. split; [lia|done].
    + right. split; [|done]. intros off Ho. destruct (decide (off = off0)) as [->|]; [done|]. apply Hall. lia.
  - left. exists off0. split; [lia|]. split; [done|].
    destruct (f off0) as [[u|r]|] eqn:Ef; [|done..]. by apply Hf in Ef.
Qed.

Section spec.
Context (sb : superblock_t) (Hlog : log_block_size sb = 0).

Lemma find_free_spec s bb per gi : drive_ok (dev s) → valid_block (dev s) bb →
  (∃ off d', 0 <= off < 8192 ∧ bit (block_at (dev s) bb) off = false ∧ bit_changed true (dev s) d' bb off ∧
     drive_ok d' ∧ find_free sb s bb per gi = Some (Some (u32 (per * gi + off + 1)), with_dev s d')) ∨
  ((∀ off, 0 <= off < 8192 → bit (block_at (dev s) bb) off = true) ∧
     find_free sb s bb per gi = Some (None, s)).
Proof.
  intros Hd Hv. unfold find_free. cbv zeta. rewrite read_block_spec by done. cbn [mbind option_bind].
  rewrite (BLOCK_LEN_1024 sb Hlog). pose proof (length_block_at _ _ Hv) as Hl.
  assert (is_bytes (block_at (dev s) bb)) as Hb by (apply (block_at_bytes (dev s) bb), Hd).
  match goal with |- context [for_loop ?n 0 (λ off _, _ ← _; if negb _ then @?f off else _) ()] =>
    destruct (find_free_loop (block_at (dev s) bb) f n 0) as [(off & Ho & Hbit & ->)|[Hall ->]] end.
  - intros off u. destruct (_ext2_bitmap_set_bit _ _) as [bm|]; [|done]. cbn [mbind option_bind].
    by destruct (_ext2_write_to_dev _ _ _).
  - lia.
  - rewrite Hl. done.
  - left. destruct (bitmap_set_bit_spec (block_at (dev s) bb) off Hb) as (bm & -> & Hup); [rewrite Hl; lia|].
    pose proof Hup as (Hlbm & Hbm & _). cbn [mbind option_bind].
    destruct (write_block_spec sb Hlog (dev s) bb bm) as (d' & -> & Hw); [done..|congruence|].
    cbn [mbind option_bind]. exists off, d'. split; [lia|]. split; [done|]. split; [|split; [|done]].
    + exists bm. split; [done|]. split; [congruence|done].
    + by eapply drive_ok_write.
  - right. split; [|done]. intros off Ho. apply Hall. lia.
Qed.

(** ** Mounted drives *)

(** The groups of a mounted drive: their bitmaps are blocks of the drive, no two
    the same; a block group is as large as its bitmap. *)
Record fs_ok (s : fs_t) : Prop := {
  fs_drive : drive_ok (dev s);
  fs_per_group : blocks_per_group sb = 8192;
  fs_per_inodes : 0 < inodes_per_group sb <= 8192;
  fs_groups : 8192 * Z.of_nat (length (gt s)) < 2 ^ 31;
  fs_group i g : (gt s).[i] = Some g → group_ok g ∧
    valid_block (dev s) (block_bitmap g) ∧ valid_block (dev s) (inode_bitmap g);
  fs_distinct i j g h : (gt s).[i] = Some g → (gt s).[j] = Some h →
    (block_bitmap g = block_bitmap h → i = j) ∧ (inode_bitmap g = inode_bitmap h → i = j) ∧
    block_bitmap g ≠ inode_bitmap h;
}.

(** Whether block or inode [n] is taken, by the bitmaps [bitmap] of groups of [per]. *)
Definition used (bitmap : group_desc_t → Z) (per : Z) (s : fs_t) (n : Z) : bool :=
  match (gt s).[(n - 1) / per] with
  | Some g => bit (block_at (dev s) (bitmap g)) ((n - 1) mod per)
  | None => true
  end.
(** The bits of a bitmap past the end of its group are set. *)
Definition padded (bitmap : group_desc_t → Z) (per : Z) (s : fs_t) : Prop :=
  ∀ i g off, (gt s).[i] = Some g → per <= off < 8192 → bit (block_at (dev s) (bitmap g)) off = true.

Lemma bit_changed_bit v d d' b off o : bit_changed v d d' b off → 0 <= o →
  bit (block_at d' b) o = if decide (o = off) then v else bit (block_at d b) o.
Proof.
  intros (bm & (_ & _ & Hb) & Hl & Hw) Ho. rewrite (block_at_written _ _ _ _ Hw Hl), Hb by done.
  repeat case_decide; (done || lia).
Qed.
Lemma bit_changed_other v d d' b off b' : bit_changed v d d' b off → b' ≠ b → block_at d' b' = block_at d b'.
Proof. intros (bm & _ & Hl & Hw) Hne. by eapply block_at_other. Qed.
Lemma bit_changed_length v d d' b off : bit_changed v d d' b off → length d' = length d.
Proof. intros (bm & _ & _ & Hw). by eapply zwrite_length. Qed.

Section bitmaps.
Context (bitmap : group_desc_t → Z) (per : Z) (Hper : 0 < per <= 8192).
(** It is the bitmap of the blocks or that of the inodes. *)
Context (Hbitmap : bitmap = block_bitmap ∨ bitmap = inode_bitmap).

Lemma bitmap_valid s i g : fs_ok s → (gt s).[i] = Some g → valid_block (dev s) (bitmap g).
Proof. intros Hs Hg. destruct (fs_group s Hs i g Hg) as (_ & ? & ?). by destruct Hbitmap as [-> | ->]. Qed.
Lemma bitmap_distinct s i j g h : fs_ok s → (gt s).[i] = Some g → (gt s).[j] = Some h →
  bitmap g = bitmap h → i = j.
Proof.
  intros Hs Hg Hh. destruct (fs_distinct s Hs i j g h Hg Hh) as (? & ? & _). by destruct Hbitmap as [-> | ->].
Qed.

(** [n] as the group and the bit it is. *)
Lemma index_split i off : 0 <= off < per → (per * i + off + 1 - 1) / per = i ∧ (per * i + off + 1 - 1) mod per = off.
Proof.
  intros Ho. replace (per * i + off + 1 - 1) with (off + i * per) by lia.
  rewrite Z.div_add, Z_mod_plus_full by lia. rewrite Z.div_small, Z.mod_small by lia. lia.
Qed.

(** A changed entry that keeps its bitmaps, and one changed bit. *)
Definition index_changed (v : bool) (s s' : fs_t) (i off : Z) : Prop := ∃ g g' d',
  (gt s).[i] = Some g ∧ group_ok g' ∧ block_bitmap g' = block_bitmap g ∧ inode_bitmap g' = inode_bitmap g ∧
  inode_table g' = inode_table g ∧
  bit_changed v (dev s) d' (bitmap g) off ∧ drive_ok d' ∧
  s' = {| dev := d'; gt := <[Z.to_nat i := g']> (gt s) |}.

Lemma index_changed_group v s s' i off j g' : index_changed v s s' i off → (gt s').[j] = Some g' → 
  group_ok g' ∨ (gt s).[j] = Some g'.
Proof.
  intros (g & h & d' & Hg & Hh & _ & _ & _ & _ & _ & ->). cbn [gt]. pose proof (zget_Some _ _ _ Hg).
  rewrite zget_insert by done. case_decide; [|by right]. intros [= <-]. by left.
Qed.

(** The group table is as before, for the places of the bitmaps. *)
Lemma index_changed_bitmaps v s s' i off j : index_changed v s s' i off →
  (λ g, (block_bitmap g, inode_bitmap g, inode_table g)) <$> (gt s').[j] =
  (λ g, (block_bitmap g, inode_bitmap g, inode_table g)) <$> (gt s).[j].
Proof.
  intros (g & h & d' & Hg & Hh & Eb & Ei & Et & _ & _ & ->). cbn [gt]. pose proof (zget_Some _ _ _ Hg).
  rewrite zget_insert by done. case_decide; [|done]. subst j. rewrite Hg. simpl. by rewrite Eb, Ei, Et.
Qed.

Lemma index_changed_group_inv v s s' i off j g' : index_changed v s s' i off → (gt s').[j] = Some g' →
  ∃ g, (gt s).[j] = Some g ∧ block_bitmap g' = block_bitmap g ∧ inode_bitmap g' = inode_bitmap g ∧
    inode_table g' = inode_table g.
Proof.
  intros Hc Hg. pose proof (index_changed_bitmaps v s s' i off j Hc) as E. rewrite Hg in E.
  destruct ((gt s).[j]) as [g|]; [|done]. injection E as ? ? ?. eauto 6.
Qed.

Lemma index_changed_ok v s s' i off : fs_ok s → index_changed v s s' i off → fs_ok s'.
Proof.
  intros Hs Hc. pose proof Hc as (g & h & d' & Hg & Hh & _ & _ & _ & Hbit & Hd' & ->).
  pose proof (bit_changed_length _ _ _ _ _ Hbit) as Hl.
  assert (∀ b, valid_block d' b ↔ valid_block (dev s) b) as Hv by (intros; unfold valid_block; by rewrite Hl).
  constructor; cbn [gt dev]; [done|apply Hs|apply Hs|rewrite length_insert; apply Hs| |].
  - intros j g' Hg'. destruct (index_changed_group_inv _ _ _ _ _ j g' Hc Hg') as (g0 & Hg0 & Eb & Ei & _).
    destruct (fs_group s Hs j g0 Hg0) as (Hok & Hvb & Hvi). rewrite Eb, Ei, !Hv. split; [|done].
    destruct (index_changed_group _ _ _ _ _ j g' Hc Hg') as [?|E]; [done|]. congruence.
  - intros j k g1 g2 Hg1 Hg2.
    destruct (index_changed_group_inv _ _ _ _ _ j g1 Hc Hg1) as (h1 & Hh1 & -> & -> & _).
    destruct (index_changed_group_inv _ _ _ _ _ k g2 Hc Hg2) as (h2 & Hh2 & -> & -> & _).
    by apply (fs_distinct s Hs).
Qed.

(** One index changes hands, and no other. *)
Lemma index_changed_used v s s' i off n : fs_ok s → index_changed v s s' i off → 0 <= off < per → 1 <= n →
  used bitmap per s' n = if decide (n = per * i + off + 1) then v else used bitmap per s n.
Proof.
  intros Hs Hc Ho Hn. pose proof Hc as (g & h & d' & Hg & Hh & Eb & Ei & _ & Hbit & Hd' & ->).
  pose proof (zget_Some _ _ _ Hg) as Hi.
  assert (bitmap h = bitmap g) as Ebm by (destruct Hbitmap as [-> | ->]; done).
  unfold used. cbn [gt dev]. rewrite zget_insert by done.
  pose proof (Z.mod_pos_bound (n - 1) per ltac:(lia)) as Hm.
  destruct (decide (i = (n - 1) / per)) as [->|Hne].
  - rewrite Ebm, Hg, (bit_changed_bit _ _ _ _ _ _ Hbit) by lia.
    pose proof (Z.div_mod (n - 1) per). repeat case_decide; (done || lia).
  - rewrite decide_False.
    2:{ intros ->. apply Hne. by destruct (index_split i off Ho) as [-> _]. }
    destruct ((gt s).[(n - 1) / per]) as [g2|] eqn:E2; [|done].
    rewrite (bit_changed_other _ _ _ _ _ _ Hbit); [done|].
    intros Heq. apply Hne. symmetry. by eapply bitmap_distinct.
Qed.

Lemma index_changed_padded s s' i off : fs_ok s → index_changed true s s' i off → padded bitmap per s →
  padded bitmap per s'.
Proof.
  intros Hs Hc Hp j g' o Hg' Ho.
  destruct (index_changed_group_inv _ _ _ _ _ j g' Hc Hg') as (g0 & Hg0 & Eb & Ei & _).
  assert (bitmap g' = bitmap g0) as -> by (destruct Hbitmap as [-> | ->]; done).
  pose proof Hc as (g & h & d' & Hg & _ & _ & _ & _ & Hbit & _ & ->). cbn [dev].
  destruct (decide (bitmap g0 = bitmap g)) as [Heq|Hne].
  - rewrite Heq, (bit_changed_bit _ _ _ _ _ _ Hbit) by lia. case_decide; [done|].
    rewrite <- Heq. by eapply Hp.
  - rewrite (bit_changed_other _ _ _ _ _ _ Hbit) by done. by eapply Hp.
Qed.

(** *** The search over the groups *)

Section allocate.
Context (count : group_desc_t → Z) (took : group_desc_t → group_desc_t).
Hypothesis took_ok : ∀ g, group_ok g → group_ok (took g) ∧ block_bitmap (took g) = block_bitmap g ∧
  inode_bitmap (took g) = inode_bitmap g ∧ inode_table (took g) = inode_table g.

(** A group that the search passes over. *)
Definition exhausted (s : fs_t) (g : group_desc_t) : Prop :=
  count g = 0 ∨ ∀ off, 0 <= off < per → bit (block_at (dev s) (bitmap g)) off = true.

Lemma group_ids pref cnt j : 0 <= pref → 0 < cnt → pref + cnt <= 2 ^ 32 → 0 <= j < cnt →
  ∃ k, 0 <= k < cnt ∧ u32 (pref + k) mod cnt = j.
Proof.
  intros Hp Hc Hle Hj. exists ((j - pref) mod cnt). pose proof (Z.mod_pos_bound (j - pref) cnt Hc).
  split; [lia|]. rewrite u32_small by lia. rewrite Zplus_mod_idemp_r.
  replace (pref + (j - pref)) with j by lia. by apply Z.mod_small.
Qed.

Lemma allocate_index_spec s pref : fs_ok s → padded bitmap per s →
  0 <= pref → pref + Z.of_nat (length (gt s)) <= 2 ^ 32 →
  ∃ r s', allocate_index sb bitmap count took per s pref = Some (r, s') ∧
    match r with
    | Some n => ∃ i off, 0 <= i < Z.of_nat (length (gt s)) ∧ 0 <= off < per ∧ n = per * i + off + 1 ∧
        used bitmap per s n = false ∧ index_changed true s s' i off ∧
        ∃ g, (gt s).[i] = Some g ∧ count g ≠ 0 ∧ (gt s').[i] = Some (took g)
    | None => s' = s ∧ ∀ i g, (gt s).[i] = Some g → exhausted s g
    end.
Proof.
  intros Hs Hpad Hp0 Hp. unfold allocate_index. cbv zeta. set (cnt := Z.of_nat (length (gt s))) in *.
  pose proof (fs_groups s Hs) as Hgs. fold cnt in Hgs.
  match goal with |- context [for_loop ?nn ?i0 ?f ?s0] =>
    destruct (for_loop_total
      (λ i s1, s1 = s ∧ ∀ k g, 0 <= k < i → (gt s).[u32 (pref + k) mod cnt] = Some g → exhausted s g)
      (λ '(n, s'), ∃ i off, 0 <= i < cnt ∧ 0 <= off < per ∧ n = per * i + off + 1 ∧
        used bitmap per s n = false ∧ index_changed true s s' i off ∧
        ∃ g, (gt s).[i] = Some g ∧ count g ≠ 0 ∧ (gt s').[i] = Some (took g)) f nn i0 s0) as (x & -> & Hx) end.
  - split; [done|lia].
  - intros i s1 Hi [-> Hex]. set (gid := u32 (pref + i) mod cnt) in *.
    assert (0 <= gid < cnt) as Hgid by (apply Z.mod_pos_bound; lia).
    destruct (zget_is_Some (gt s) gid) as [g Hg]; [done|]. returns Hg.
    destruct (Z.eqb_spec (count g) 0) as [Hc|Hc]; cbn [negb].
    { split; [done|]. intros k g' Hk Hg'. destruct (decide (k = i)) as [->|]; [|apply (Hex k); [lia|done]].
      left. unfold gid in Hg. congruence. }
    destruct (find_free_spec s (bitmap g) per gid (fs_drive s Hs) (bitmap_valid s gid g Hs Hg))
      as [(off & d' & Ho & Hbit & Hch & Hd' & ->)|[Hall ->]]; cbn [mbind option_bind].
    + unfold with_group, with_dev. cbn [gt dev]. rewrite zset_in by done. cbn [mbind option_bind].
      assert (off < per) as Hoff.
      { destruct (decide (off < per)); [done|]. rewrite (Hpad gid g off Hg) in Hbit by lia. done. }
      rewrite u32_small by nia. exists gid, off. split; [done|]. split; [lia|]. split; [done|].
      destruct (index_split gid off) as [E1 E2]; [lia|].
      split; [unfold used; by rewrite E1, E2, Hg|].
      destruct (took_ok g (proj1 (fs_group s Hs gid g Hg))) as (Tk & Tb & Ti & Tt).
      split; [exists g, (took g), d'; done|]. exists g. split; [done|]. split; [done|]. cbn [gt].
      rewrite zget_insert by done. by rewrite decide_True.
    + split; [done|]. intros k g' Hk Hg'. destruct (decide (k = i)) as [->|]; [|apply (Hex k); [lia|done]].
      right. assert (g' = g) as -> by (unfold gid in Hg; congruence). intros off Ho. apply Hall. lia.
  - cbn [mbind option_bind]. destruct x as [s1|[n s1]].
    + destruct Hx as [-> Hex]. exists None, s. split; [done|]. split; [done|].
      intros i g Hg. pose proof (zget_Some _ _ _ Hg) as Hi.
      destruct (group_ids pref cnt i) as (k & Hk & Ek); [lia..|].
      apply (Hex k g); [lia|]. by rewrite Ek.
    + exists (Some n), s1. split; [done|]. exact Hx.
Qed.
End allocate.

(** Clearing a bit. *)
Lemma free_index_spec s i off g (f : group_desc_t → group_desc_t) : fs_ok s → (gt s).[i] = Some g → 0 <= off < 8192 →
  group_ok (f g) → block_bitmap (f g) = block_bitmap g → inode_bitmap (f g) = inode_bitmap g →
  inode_table (f g) = inode_table g →
  ∃ s', (bm ← read_block sb (dev s) (_ext2_get_block_offset sb (bitmap g));
         bm ← _ext2_bitmap_unset_bit bm off;
         d ← _ext2_write_to_dev (dev s) bm (_ext2_get_block_offset sb (bitmap g));
         with_group (with_dev s d) i (f g)) = Some s' ∧
    index_changed false s s' i off ∧ (gt s').[i] = Some (f g).
Proof.
  intros Hs Hg Ho Hok Eb Ei Et. pose proof (bitmap_valid s i g Hs Hg) as Hv.
  pose proof (fs_drive s Hs) as Hd. rewrite read_block_spec by done. cbn [mbind option_bind].
  pose proof (length_block_at _ _ Hv) as Hl.
  destruct (bitmap_unset_bit_spec (block_at (dev s) (bitmap g)) off) as (bm & -> & Hup).
  { apply (block_at_bytes (dev s) (bitmap g)), Hd. } { rewrite Hl. lia. }
  pose proof Hup as (Hlbm & Hbm & _). cbn [mbind option_bind].
  destruct (write_block_spec sb Hlog (dev s) (bitmap g) bm) as (d' & -> & Hw); [done..|congruence|].
  cbn [mbind option_bind]. unfold with_group, with_dev. cbn [gt dev].
  pose proof (zget_Some _ _ _ Hg) as Hi. rewrite zset_in by done. cbn [mbind option_bind].
  eexists. split; [done|]. cbn [gt]. split; [|rewrite zget_insert by done; by rewrite decide_True].
  exists g, (f g), d'. split; [done|]. split; [done|]. split; [done|]. split; [done|]. split; [done|].
  split; [|split; [by eapply drive_ok_write|done]].
  exists bm. split; [done|]. split; [congruence|done].
Qed.
End bitmaps.
End spec.

(** ** Counters *)

Lemma filter_same {A} (P Q : A → Prop) `{!∀ x, Decision (P x), !∀ x, Decision (Q x)} (l : list A) :
  (∀ x, x ∈ l → P x ↔ Q x) → filter P l = filter Q l.
Proof.
  induction l as [|x l IH]; intros Hl; [done|]. rewrite !filter_cons, IH by (intros; apply Hl; by right).
  pose proof (Hl x (list_elem_of_here x l)). repeat case_decide; (done || tauto).
Qed.

(** The clear bits among the first [n]. *)
Definition clear_bits (bm : list Z) (n : Z) : Z := Z.of_nat (length (filter (λ i, bit bm i = false) (seqZ 0 n))).

Lemma clear_bits_set bm bm' off n : 0 <= off < n → bit bm off = false →
  (∀ i, 0 <= i → bit bm' i = if decide (i = off) then true else bit bm i) →
  clear_bits bm' n = clear_bits bm n - 1.
Proof.
  intros Ho Hb Hb'. unfold clear_bits.
  replace n with (off + (1 + (n - off - 1))) at 1 2 by lia. rewrite !seqZ_app by lia. rewrite !filter_app, !length_app.
  assert (∀ a k, 0 <= a → off < a ∨ a + k <= off →
    filter (λ i, bit bm' i = false) (seqZ a k) = filter (λ i, bit bm i = false) (seqZ a k)) as Hsame.
  { intros a k Ha Hout. apply filter_same. intros i Hi%elem_of_seqZ.
    rewrite Hb' by lia. by rewrite decide_False by lia. }
  rewrite (Hsame 0 off), (Hsame (0 + off + 1) (n - off - 1)) by lia.
  assert (seqZ (0 + off) 1 = [off]) as -> by (rewrite seqZ_cons by lia; done).
  rewrite !filter_cons, Hb' by lia. rewrite (decide_True (P := off = off)) by done.
  rewrite decide_False by done. rewrite decide_True by done. simpl. lia.
Qed.

Lemma clear_bits_0 bm n : clear_bits bm n = 0 ↔ ∀ i, 0 <= i < n → bit bm i = true.
Proof.
  unfold clear_bits. split.
  - intros Hl i Hi. destruct (bit bm i) eqn:E; [done|].
    assert (i ∈ filter (λ i, bit bm i = false) (seqZ 0 n)) as Hin.
    { apply list_elem_of_filter. split; [done|]. apply elem_of_seqZ. lia. }
    destruct (filter _ _); [by apply not_elem_of_nil in Hin|simpl in Hl; lia].
  - intros Hall. destruct (filter _ _) as [|i l] eqn:E; [done|].
    assert (i ∈ filter (λ i, bit bm i = false) (seqZ 0 n)) as Hin by (rewrite E; left).
    apply list_elem_of_filter in Hin as [Hf Hi%elem_of_seqZ]. rewrite Hall in Hf by lia. done.
Qed.

Lemma clear_bits_range bm n : 0 <= n → 0 <= clear_bits bm n <= n.
Proof.
  intros Hn. unfold clear_bits. pose proof (length_filter (λ i, bit bm i = false) (seqZ 0 n)) as Hl.
  rewrite length_seqZ in Hl. lia.
Qed.

Lemma u16_field x : 0 <= u16 x < 2 ^ (8 * Z.of_nat 2).
Proof. apply Z.mod_pos_bound. lia. Qed.

Ltac values_inv := unfold group_ok, values_ok, group_widths, group_values in *;
  repeat match goal with H : Forall2 _ (_ :: _) _ |- _ => apply Forall2_cons in H as [? H] end.

Lemma set_free_blocks_count_ok g n : group_ok g → group_ok (set_free_blocks_count g n) ∧
  block_bitmap (set_free_blocks_count g n) = block_bitmap g ∧
  inode_bitmap (set_free_blocks_count g n) = inode_bitmap g ∧
  inode_table (set_free_blocks_count g n) = inode_table g.
Proof.
  intros Hg. split; [|done]. pose proof (u16_field n). values_inv. simpl. repeat constructor; (done || lia).
Qed.
Lemma set_free_inodes_count_ok g n : group_ok g → group_ok (set_free_inodes_count g n) ∧
  block_bitmap (set_free_inodes_count g n) = block_bitmap g ∧
  inode_bitmap (set_free_inodes_count g n) = inode_bitmap g ∧
  inode_table (set_free_inodes_count g n) = inode_table g.
Proof.
  intros Hg. split; [|done]. pose proof (u16_field n). values_inv. simpl. repeat constructor; (done || lia).
Qed.

(** ** Properties *)

Section properties.
Context (sb : superblock_t).

Abbreviation block_used s b := (used block_bitmap (blocks_per_group sb) s b).
Abbreviation inode_used s n := (used inode_bitmap (inodes_per_group sb) s n).
(** The number of the groups' blocks or inodes. *)
Abbreviation count_of s per := (per * Z.of_nat (length (gt s))).

(** The blocks that hold no bitmap of [bitmap] are as before. *)
Definition same_besides (bitmap : group_desc_t → Z) (s s' : fs_t) : Prop :=
  length (dev s') = length (dev s) ∧
  ∀ x, (∀ i g, (gt s).[i] = Some g → bitmap g ≠ x) → block_at (dev s') x = block_at (dev s) x.

Lemma index_changed_same bitmap v s s' i off : index_changed bitmap v s s' i off → same_besides bitmap s s'.
Proof.
  intros (g & g' & d' & Hg & _ & _ & _ & _ & Hbit & _ & ->). split; [by eapply bit_changed_length|].
  intros x Hx. eapply bit_changed_other; [exact Hbit|]. intros ->. by eapply Hx.
Qed.

(** The counter of every group is the number of its free blocks. *)
Definition counted (s : fs_t) : Prop := ∀ i g, (gt s).[i] = Some g →
  free_blocks_count g = clear_bits (block_at (dev s) (block_bitmap g)) 8192.

Lemma counted_allocate s s' i off g : fs_ok sb s → counted s → index_changed block_bitmap true s s' i off →
  0 <= off < 8192 → bit (block_at (dev s) (block_bitmap g)) off = false → (gt s).[i] = Some g →
  (gt s').[i] = Some (set_free_blocks_count g (free_blocks_count g - 1)) → counted s'.
Proof.
  intros Hs Hc Hch Ho Hfree Hg Hg' j h Hh.
  destruct (index_changed_group_inv _ _ _ _ _ _ j h Hch Hh) as (h0 & Hh0 & -> & _ & _).
  pose proof Hch as (g0 & g1 & d' & Hg0 & _ & _ & _ & _ & Hbit & _ & Es).
  assert (g0 = g) as -> by congruence. rewrite Es. cbn [dev].
  destruct (decide (j = i)) as [->|Hne].
  - assert (h = set_free_blocks_count g (free_blocks_count g - 1)) as -> by congruence.
    assert (h0 = g) as -> by congruence. cbn [free_blocks_count set_free_blocks_count].
    rewrite (clear_bits_set (block_at (dev s) (block_bitmap g)) _ off) by
      (done || (intros; by eapply bit_changed_bit)).
    rewrite <- (Hc i g Hg). unfold u16. apply Z.mod_small.
    pose proof (clear_bits_range (block_at (dev s) (block_bitmap g)) 8192).
    assert (clear_bits (block_at (dev s) (block_bitmap g)) 8192 ≠ 0).
    { intros E. rewrite clear_bits_0 in E. rewrite E in Hfree by lia. done. }
    rewrite (Hc i g Hg). lia.
  - rewrite (bit_changed_other _ _ _ _ _ _ Hbit).
    + rewrite Es in Hh. cbn [gt] in Hh. pose proof (zget_Some _ _ _ Hg).
      rewrite zget_insert in Hh by done. rewrite decide_False in Hh by done.
      assert (h0 = h) as -> by congruence. by eapply Hc.
    + intros E. apply Hne. by destruct (fs_distinct sb s Hs j i h0 g Hh0 Hg) as [-> _].
Qed.

(** C6. Allocation of blocks. [_ext2_allocate_block_index] always ends. It hands
    out a block of the drive's groups that was free, and then exactly that block
    more is taken; besides the bitmaps no block of the drive changes, and the
    counters of the groups keep counting their free blocks. When it fails with
    -ENOSPC nothing has changed and every block is taken. *)
Theorem ext2_allocate_block s pref :
  log_block_size sb = 0 → fs_ok sb s → counted s → 0 <= pref → pref + Z.of_nat (length (gt s)) <= 2 ^ 32 →
  ∃ r s', _ext2_allocate_block_index sb s pref = Some (r, s') ∧ fs_ok sb s' ∧ counted s' ∧
    match r with
    | Some b => 1 <= b <= count_of s 8192 ∧ block_used s b = false ∧
        (∀ b', 1 <= b' → block_used s' b' = (b' =? b) || block_used s b') ∧ same_besides block_bitmap s s'
    | None => s' = s ∧ ∀ b, 1 <= b <= count_of s 8192 → block_used s b = true
    end.
Proof.
  intros Hlog Hs Hc Hp0 Hp. pose proof (fs_per_group sb s Hs) as Hper. unfold _ext2_allocate_block_index.
  rewrite Hper in *.
  destruct (allocate_index_spec sb Hlog block_bitmap 8192 ltac:(lia) ltac:(by left) free_blocks_count
    (λ g, set_free_blocks_count g (free_blocks_count g - 1))
    (λ g, set_free_blocks_count_ok g _) s pref Hs) as (r & s' & -> & Hr); [intros ? ? ? _ ?; lia|done..|].
  exists r, s'. split; [done|]. destruct r as [b|].
  - destruct Hr as (i & off & Hi & Ho & -> & Hu & Hch & g & Hg & Hcnt & Hg').
    destruct (index_split 8192 ltac:(lia) i off Ho) as [E1 E2].
    assert (bit (block_at (dev s) (block_bitmap g)) off = false) as Hfree.
    { unfold used in Hu. by rewrite E1, E2, Hg in Hu. }
    split; [by eapply index_changed_ok|]. split; [by eapply counted_allocate|].
    split; [lia|]. split; [done|]. split; [|by eapply index_changed_same].
    intros b' Hb'. rewrite (index_changed_used sb block_bitmap 8192 ltac:(lia) ltac:(by left) true s s' i off b' Hs Hch) by done.
    case_decide as Hd; [rewrite Hd, Z.eqb_refl; done|]. by replace (b' =? 8192 * i + off + 1) with false by lia.
  - destruct Hr as [-> Hex]. split; [done|]. split; [done|]. split; [done|]. intros b Hb. unfold used.
    destruct ((gt s).[(b - 1) / 8192]) as [g|] eqn:Hg; [|done].
    pose proof (Z.mod_pos_bound (b - 1) 8192 ltac:(lia)).
    destruct (Hex _ g Hg) as [Hz|Hall]; [|by apply Hall].
    rewrite (Hc _ g Hg), clear_bits_0 in Hz. by apply Hz.
Qed.

(** C28. What freeing a block does. [_ext2_free_block_index] clears one bit, in
    the right group, and counts one more free block there. But it takes the
    place inside the bitmap modulo the length of a block and not modulo the
    number of blocks of a group: exactly for the first 1024 blocks of a group it
    frees the block it is given. For any other it frees another block of the
    group, which may belong to another file, and the given one stays taken. *)
Theorem ext2_free_block s b :
  log_block_size sb = 0 → fs_ok sb s → 1 <= b <= count_of s 8192 →
  let freed := b - (b - 1) mod 8192 + (b - 1) mod 1024 in
  ∃ s', _ext2_free_block_index sb s b = Some s' ∧ fs_ok sb s' ∧ same_besides block_bitmap s s' ∧
    (∀ b', 1 <= b' → block_used s' b' = negb (b' =? freed) && block_used s b') ∧
    (freed = b ↔ (b - 1) mod 8192 < 1024).
Proof.
  intros Hlog Hs Hb freed. pose proof (fs_per_group sb s Hs) as Hper. pose proof (fs_groups sb s Hs) as Hgs.
  unfold _ext2_free_block_index. cbv zeta. rewrite Hper in *.
  rewrite (BLOCK_LEN_1024 sb Hlog), (u32_small (b - 1)) by lia. cbn [Z.eqb].
  change (8192 =? 0) with false. cbv match.
  set (i := (b - 1) / 8192). set (off := (b - 1) mod 1024).
  assert (0 <= off < 1024) as Ho by (apply Z.mod_pos_bound; lia).
  destruct (zget_is_Some (gt s) i) as [g Hg].
  { unfold i. split; [apply Z.div_pos; lia|apply Z.div_lt_upper_bound; lia]. }
  returns Hg.
  destruct (set_free_blocks_count_ok g (free_blocks_count g + 1) (proj1 (fs_group sb s Hs i g Hg)))
    as (Hok & Eb & Ei & Et).
  destruct (free_index_spec sb Hlog block_bitmap ltac:(by left) s i off g
    (λ g, set_free_blocks_count g (free_blocks_count g + 1)) Hs Hg) as (s' & -> & Hch & _); [lia|done..|].
  exists s'. split; [done|]. split; [by eapply index_changed_ok|]. split; [by eapply index_changed_same|].
  assert (freed = 8192 * i + off + 1) as Hfr.
  { unfold freed, i, off. pose proof (Z.div_mod (b - 1) 8192). lia. }
  split.
  - intros b' Hb'. rewrite (index_changed_used sb block_bitmap 8192 ltac:(lia) ltac:(by left) false s s' i off b' Hs Hch)
      by (done || lia). rewrite Hfr.
    case_decide as Hd; [by rewrite Hd, Z.eqb_refl|]. by replace (b' =? 8192 * i + off + 1) with false by lia.
  - unfold freed. pose proof (Z.mod_mod_divide (b - 1) 8192 1024) as Hdiv.
    rewrite <- Hdiv by (by exists 8). pose proof (Z.mod_pos_bound (b - 1) 8192 ltac:(lia)) as Hm.
    split; intros E.
    + pose proof (Z.mod_pos_bound ((b - 1) mod 8192) 1024). lia.
    + rewrite (Z.mod_small ((b - 1) mod 8192) 1024) by lia. lia.
Qed.

(** Inodes. When the bits past the end of the groups' bitmaps are set, as
    mkfs leaves them, [_ext2_allocate_inode_index] hands out a free inode of the
    drive, exactly it becomes taken, and [_ext2_free_inode_index] makes exactly it
    free again. When it fails, every group either is full or has a counter of 0.
    But only freeing updates the counter: after the pair it is one too high. *)
Theorem ext2_inode_allocate_free s pref :
  log_block_size sb = 0 → fs_ok sb s → padded inode_bitmap (inodes_per_group sb) s →
  0 <= pref → pref + Z.of_nat (length (gt s)) <= 2 ^ 32 →
  ∃ r s', _ext2_allocate_inode_index sb s pref = Some (r, s') ∧
    match r with
    | Some n => 1 <= n <= count_of s (inodes_per_group sb) ∧ inode_used s n = false ∧ fs_ok sb s' ∧
        (∀ n', 1 <= n' → inode_used s' n' = (n' =? n) || inode_used s n') ∧ same_besides inode_bitmap s s' ∧
        ∃ s'' i g, _ext2_free_inode_index sb s' n = Some s'' ∧ fs_ok sb s'' ∧
          (∀ n', 1 <= n' → inode_used s'' n' = inode_used s n') ∧
          (gt s).[i] = Some g ∧ (gt s'').[i] = Some (set_free_inodes_count g (free_inodes_count g + 1))
    | None => s' = s ∧ ∀ i g, (gt s).[i] = Some g →
        free_inodes_count g = 0 ∨ ∀ n, inodes_per_group sb * i < n <= inodes_per_group sb * (i + 1) → inode_used s n = true
    end.
Proof.
  intros Hlog Hs Hpad Hp0 Hp. pose proof (fs_per_inodes sb s Hs) as Hper. pose proof (fs_groups sb s Hs) as Hgs.
  unfold _ext2_allocate_inode_index. set (per := inodes_per_group sb) in *.
  destruct (allocate_index_spec sb Hlog inode_bitmap per Hper ltac:(by right) free_inodes_count
    (λ g, g) ltac:(done) s pref Hs Hpad Hp0 Hp) as (r & s' & -> & Hr).
  exists r, s'. split; [done|]. destruct r as [n|].
  - destruct Hr as (i & off & Hi & Ho & -> & Hu & Hch & g & Hg & Hcnt & Hg').
    destruct (index_split per Hper i off Ho) as [E1 E2].
    assert (fs_ok sb s') as Hs' by by eapply index_changed_ok.
    assert (∀ n', 1 <= n' → used inode_bitmap per s' n' = (n' =? per * i + off + 1) || used inode_bitmap per s n') as Hu'.
    { intros n' Hn'. rewrite (index_changed_used sb inode_bitmap per Hper ltac:(by right) true s s' i off n' Hs Hch) by done.
      case_decide as Hd; [by rewrite Hd, Z.eqb_refl|]. by replace (n' =? per * i + off + 1) with false by lia. }
    split; [nia|]. split; [done|]. split; [done|]. split; [done|]. split; [by eapply index_changed_same|].
    unfold _ext2_free_inode_index. cbv zeta. fold per. rewrite u32_small by nia.
    destruct (Z.eqb_spec per 0); [lia|]. rewrite E1, E2. returns Hg'.
    destruct (set_free_inodes_count_ok g (free_inodes_count g + 1) (proj1 (fs_group sb s Hs i g Hg)))
      as (Hok & Eb & Ei & Et).
    destruct (free_index_spec sb Hlog inode_bitmap ltac:(by right) s' i off g
      (λ g, set_free_inodes_count g (free_inodes_count g + 1)) Hs' Hg') as (s'' & -> & Hch' & Hg''); [lia|done..|].
    exists s'', i, g. split; [done|]. split; [by eapply index_changed_ok|]. split; [|done].
    intros n' Hn'. rewrite (index_changed_used sb inode_bitmap per Hper ltac:(by right) false s' s'' i off n' Hs' Hch') by done.
    case_decide as Hd; [by rewrite Hd|]. rewrite Hu' by done. by replace (n' =? per * i + off + 1) with false by lia.
  - destruct Hr as [-> Hex]. split; [done|]. intros i g Hg. destruct (Hex i g Hg) as [|Hall]; [by left|right].
    intros n Hn. unfold used. pose proof (zget_Some _ _ _ Hg).
    replace ((n - 1) / per) with i by (apply Z.div_unique_pos with (n - 1 - per * i); lia).
    rewrite Hg. apply Hall. apply Z.mod_pos_bound. lia.
Qed.
End properties.

(** ** Mounting *)

Definition superblock_ok (sb : superblock_t) : Prop :=
  length (superblock_bytes sb) = 1024%nat ∧ superblock_of (superblock_bytes sb) = Some sb.

Lemma length_groups_bytes l : Forall group_ok l →
  Z.of_nat (length (concat (map group_bytes l))) = GROUP_LEN * Z.of_nat (length l).
Proof.
  induction 1 as [|g l Hg _ IH]; [done|]. cbn [map concat length]. rewrite length_app, length_group_bytes by done.
  unfold GROUP_LEN in *. lia.
Qed.

Lemma groups_bytes_byte l : Forall byte (concat (map group_bytes l)).
Proof. induction l; cbn [map concat]; [constructor|]. apply Forall_app. split; [apply pack_byte|done]. Qed.

Lemma groups_of_bytes l : Forall group_ok l → groups_of (concat (map group_bytes l)) (length l) = Some l.
Proof.
  intros Hl. unfold groups_of.
  enough (∀ pre k, Z.of_nat (length pre) = GROUP_LEN * Z.of_nat k →
    mapM (λ i, b ← zread (pre ++ concat (map group_bytes l)) (GROUP_LEN * Z.of_nat i) GROUP_LEN; group_of b)
      (seq k (length l)) = Some l) as Hgen by by apply (Hgen [] 0%nat).
  induction Hl as [|g l Hg Hl IH]; intros pre k Hpre; [done|]. cbn [length seq map concat].
  pose proof (length_group_bytes g Hg) as Hlg. unfold GROUP_LEN in *. cbn [mapM].
  assert (zread (pre ++ group_bytes g ++ concat (map group_bytes l)) (32 * Z.of_nat k) 32 = Some (group_bytes g)) as ->.
  { rewrite <- Hpre. apply zread_Some. rewrite !length_app, Hlg.
    split; [lia|]. split; [lia|]. split; [lia|]. split; [done|]. intros j Hj.
    rewrite !zget_app. rewrite decide_False by lia. rewrite decide_True by lia. f_equal. lia. }
  cbn [mbind option_bind]. rewrite group_of_bytes by done. cbn [mbind option_bind].
  rewrite app_assoc, IH; [done|]. rewrite length_app, Hlg. lia.
Qed.

(** A drive survives unmounting. What [ext2_save_state] writes,
    [ext2_prepare_fs] reads back: the superblock and the whole group table, with
    the counters as they were; and besides the first block and those of the table
    the drive is as it was. *)
Theorem ext2_save_prepare sb s disk_size :
  log_block_size sb = 0 → superblock_ok sb → drive_ok (dev s) → Forall group_ok (gt s) →
  2048 + GROUP_LEN * Z.of_nat (length (gt s)) <= Z.of_nat (length (dev s)) →
  0 <= disk_size - 1024 < 2 ^ 32 → (disk_size - 1024) / 8388608 = Z.of_nat (length (gt s)) →
  ∃ d, ext2_save_state sb s = Some d ∧
    ext2_prepare_fs d disk_size = Some (sb, {| dev := d; gt := gt s |}) ∧
    ext2_recognize_drive d = Some (if (magic sb =? 0xEF53) && (rev_level sb =? 0) then 0 else - EINVAL) ∧
    ∀ x, 2048 + GROUP_LEN * Z.of_nat (length (gt s)) <= 1024 * x → block_at d x = block_at (dev s) x.
Proof.
  intros Hlog [Hlsb Hsb] Hd Hgt Htab Hds Hcnt. pose proof (length_groups_bytes _ Hgt) as Hlt.
  unfold ext2_save_state. unfold GROUP_LEN in Hlt, Htab |- *.
  assert (_ext2_get_block_offset sb 2 = 2048) as Hoff.
  { unfold _ext2_get_block_offset, SUPERBLOCK_START. by rewrite (BLOCK_LEN_1024 sb Hlog). }
  rewrite Hoff. unfold SUPERBLOCK_START.
  rewrite write_to_dev_spec by (apply Hd || lia).
  destruct (zwrite_is_Some (dev s) 2048 (concat (map group_bytes (gt s)))) as [d1 E1]; [lia..|]. returns E1.
  pose proof (drive_ok_write _ _ _ _ Hd (groups_bytes_byte _) E1) as Hd1.
  pose proof (zwrite_length _ _ _ _ E1) as Hl1. rewrite write_to_dev_spec by (apply Hd1 || lia).
  destruct (zwrite_is_Some d1 1024 (superblock_bytes sb)) as [d2 E2]; [lia..|]. exists d2. split; [done|].
  assert (Forall byte (superblock_bytes sb)) as Hbsb by (destruct sb; apply pack_byte).
  pose proof (drive_ok_write _ _ _ _ Hd1 Hbsb E2) as Hd2. pose proof (zwrite_length _ _ _ _ E2) as Hl2.
  assert (zread d2 1024 1024 = Some (superblock_bytes sb)) as Er.
  { eapply zread_zwrite_same; [exact E2|lia]. }
  split; [|split].
  - unfold ext2_prepare_fs, SUPERBLOCK_START, SUPERBLOCK_LEN. rewrite read_from_dev_spec by (apply Hd2 || lia).
    returns Er. returns Hsb. unfold _ext2_get_groups_cnt, _ext2_get_group_len, SUPERBLOCK_START.
    rewrite (BLOCK_LEN_1024 sb Hlog). change (1024 * 1024 * 8) with 8388608. change (2 ^ 31 <=? 8388608) with false.
    cbn [mbind option_bind]. rewrite (u32_small (disk_size - 1024)), Hcnt by lia.
    assert (Z.of_nat (length (gt s)) < 2 ^ 10).
    { rewrite <- Hcnt. apply Z.div_lt_upper_bound; lia. }
    rewrite s32_small, (u32_small (Z.of_nat _)), Hoff by lia. unfold GROUP_LEN.
    rewrite u32_small, Nat2Z.id by lia.
    rewrite read_from_dev_spec by (apply Hd2 || lia).
    rewrite (zread_zwrite_other _ _ _ _ _ _ E2) by lia.
    rewrite (zread_zwrite_same _ _ _ _ _ E1) by lia. cbn [mbind option_bind].
    by rewrite groups_of_bytes.
  - unfold ext2_recognize_drive, SUPERBLOCK_START, SUPERBLOCK_LEN. rewrite read_from_dev_spec by (apply Hd2 || lia).
    returns Er. returns Hsb. destruct (magic sb =? 0xEF53), (rev_level sb =? 0); done.
  - intros x Hx. unfold block_at. rewrite (zread_zwrite_other _ _ _ _ _ _ E2) by lia.
    by rewrite (zread_zwrite_other _ _ _ _ _ _ E1) by lia.
Qed.

(** ** Examples *)

(** A small drive: the bitmaps of its one group in blocks 3 and 4, the first
    eight blocks taken, 2048 inodes. *)
Definition example_sb : superblock_t :=
  Build_superblock_t 2048 8192 0 8184 2048 1 0 0 8192 8192 2048 0 0 0 0 0xEF53 1 1 0 0 0 0 0 0 0
    11 128 0 0 0 0 0 0 0 0 0 0 0.
Definition example_group : group_desc_t := Build_group_desc_t 3 4 5 8184 2048 0 0 0.
Definition example_drive : disk :=
  replicate 3072 0 ++ (255 :: replicate 1023 0) ++ (replicate 256 0 ++ replicate 768 255) ++ replicate 3072 0.
Definition example_fs : fs_t := {| dev := example_drive; gt := [example_group] |}.

Lemma zget_one {A} (x : A) i y : [x].[i] = Some y → i = 0 ∧ y = x.
Proof.
  intros H. pose proof (zget_Some _ _ _ H) as Hi. simpl in Hi. assert (i = 0) as -> by lia.
  split; [done|]. by injection H.
Qed.

Lemma example_drive_length : Z.of_nat (length example_drive) = 8192.
Proof. vm_compute. reflexivity. Qed.
Lemma sample_drive_ok : drive_ok example_drive.
Proof.
  split; [split; rewrite example_drive_length; [done|lia]|]. unfold example_drive, byte.
  rewrite !Forall_app, Forall_cons. split_and!; try apply Forall_replicate; lia.
Qed.
Lemma example_group_ok : group_ok example_group.
Proof.
  unfold group_ok, values_ok, group_widths, group_values.
  repeat (apply Forall2_cons; split; [vm_compute; split; [discriminate|reflexivity]|]). constructor.
Qed.
Lemma example_fs_ok : fs_ok example_sb example_fs.
Proof.
  constructor; [apply sample_drive_ok|done|simpl; lia|simpl; lia| |].
  - intros i g [-> ->]%zget_one. split; [apply example_group_ok|].
    unfold valid_block. cbn [dev example_fs]. rewrite example_drive_length. simpl. lia.
  - intros i j g h [-> ->]%zget_one [-> ->]%zget_one. simpl. lia.
Qed.
Lemma example_counted : counted example_fs.
Proof. intros i g [-> ->]%zget_one. vm_compute. reflexivity. Qed.
Lemma example_padded : padded inode_bitmap 2048 example_fs.
Proof.
  intros i g off [-> ->]%zget_one Ho. unfold bit.
  change (block_at (dev example_fs) (inode_bitmap example_group)) with (block_at example_drive 4).
  assert (block_at example_drive 4 = replicate 256 0 ++ replicate 768 255) as -> by (vm_compute; reflexivity).
  assert (256 <= off / 8 < 1024) by (split; [apply Z.div_le_lower_bound|apply Z.div_lt_upper_bound]; lia).
  rewrite zget_app, length_replicate, decide_False by lia. rewrite zget_lookup by lia.
  rewrite lookup_replicate_2 by lia. simpl. pose proof (Z.mod_pos_bound off 8 ltac:(lia)).
  change 255 with (Z.ones 8). apply Z.ones_spec_low. lia.
Qed.
Lemma example_sb_ok : superblock_ok example_sb.
Proof. split; vm_compute; reflexivity. Qed.

Lemma ext2_allocate_block_witness :
  ∃ r s', _ext2_allocate_block_index example_sb example_fs 0 = Some (r, s') ∧ fs_ok example_sb s' ∧ counted s' ∧
    match r with
    | Some b => 1 <= b <= 8192 ∧ used block_bitmap 8192 example_fs b = false ∧
        (∀ b', 1 <= b' → used block_bitmap 8192 s' b' = (b' =? b) || used block_bitmap 8192 example_fs b') ∧
        same_besides block_bitmap example_fs s'
    | None => s' = example_fs ∧ ∀ b, 1 <= b <= 8192 → used block_bitmap 8192 example_fs b = true
    end.
Proof.
  apply (ext2_allocate_block example_sb example_fs 0);
    [done|apply example_fs_ok|apply example_counted|lia|simpl; lia].
Defined.

(** The ninth block is the first free one. *)
Example allocate_block_9 :
  (λ '(r, s), (r, free_blocks_count <$> (gt s).[0])) <$> _ext2_allocate_block_index example_sb example_fs 0 =
  Some (Some 9, Some 8183).
Proof. vm_compute. reflexivity. Qed.

Lemma ext2_free_block_witness :
  ∃ s', _ext2_free_block_index example_sb example_fs 2000 = Some s' ∧ fs_ok example_sb s' ∧
    same_besides block_bitmap example_fs s' ∧
    (∀ b', 1 <= b' → used block_bitmap 8192 s' b' = negb (b' =? 976) && used block_bitmap 8192 example_fs b') ∧
    (976 = 2000 ↔ 1999 < 1024).
Proof. apply (ext2_free_block example_sb example_fs 2000); [done|apply example_fs_ok|simpl; lia]. Defined.

Lemma ext2_inode_allocate_free_witness :
  ∃ r s', _ext2_allocate_inode_index example_sb example_fs 0 = Some (r, s') ∧
    match r with
    | Some n => 1 <= n <= 2048 ∧ used inode_bitmap 2048 example_fs n = false ∧ fs_ok example_sb s' ∧
        (∀ n', 1 <= n' → used inode_bitmap 2048 s' n' = (n' =? n) || used inode_bitmap 2048 example_fs n') ∧
        same_besides inode_bitmap example_fs s' ∧
        ∃ s'' i g, _ext2_free_inode_index example_sb s' n = Some s'' ∧ fs_ok example_sb s'' ∧
          (∀ n', 1 <= n' → used inode_bitmap 2048 s'' n' = used inode_bitmap 2048 example_fs n') ∧
          (gt example_fs).[i] = Some g ∧ (gt s'').[i] = Some (set_free_inodes_count g (free_inodes_count g + 1))
    | None => s' = example_fs ∧ ∀ i g, (gt example_fs).[i] = Some g →
        free_inodes_count g = 0 ∨ ∀ n, 2048 * i < n <= 2048 * (i + 1) → used inode_bitmap 2048 example_fs n = true
    end.
Proof.
  apply (ext2_inode_allocate_free example_sb example_fs 0);
    [done|apply example_fs_ok|apply example_padded|lia|simpl; lia].
Defined.

Lemma ext2_save_prepare_witness :
  ∃ d, ext2_save_state example_sb example_fs = Some d ∧
    ext2_prepare_fs d 8389632 = Some (example_sb, {| dev := d; gt := [example_group] |}) ∧
    ext2_recognize_drive d = Some 0 ∧
    ∀ x, 2080 <= 1024 * x → block_at d x = block_at example_drive x.
Proof.
  apply (ext2_save_prepare example_sb example_fs 8389632);
    [done|apply example_sb_ok|apply sample_drive_ok| |vm_compute; discriminate|lia|done].
  constructor; [apply example_group_ok|constructor].
Defined.
