(* ===== verification/Ext2File.v ===== *)
(** * Ext2File: inodes, the blocks of a file, reading, writing and truncating

    A dentry is what the functions use of it: the inode's number and copy in
    memory, the count of its users and whether it is dirty. The locks are left
    out: every function takes the lock of the dentry and of the file system for
    all of its work. *)
From stdpp Require Import gmap.
From S2P Require Import Prelude Platform Bitmap Memory Umem Ext2Dev Ext2Alloc.

Record dentry_t := { d_count : Z; inode_indx : Z; inode : inode_t; dirty : bool }.

Definition with_inode (d : dentry_t) (i : inode_t) : dentry_t :=
  {| d_count := d_count d; inode_indx := inode_indx d; inode := i; dirty := dirty d |}.
Definition set_dirty (d : dentry_t) : dentry_t :=
  {| d_count := d_count d; inode_indx := inode_indx d; inode := inode d; dirty := true |}.

(** [inode->block[k] = v]. *)
Definition set_inode_block (d : dentry_t) (k v : Z) : option dentry_t :=
  l ← (block (inode d)).[k <- v]; Some (with_inode d (set_block_list (inode d) l)).

Section ext2.
Context (sb : superblock_t).

(** ** The blocks of a file *)

Definition read_pointer (s : fs_t) (cur_block offset : Z) : option Z :=
  b ← _ext2_read_from_dev (dev s) (u32 (_ext2_get_block_offset sb cur_block + u32 (offset * 4))) 4;
  Some (le_val b).
Definition write_pointer (s : fs_t) (cur_block offset val : Z) : option fs_t :=
  d ← _ext2_write_to_dev (dev s) (le_bytes 4 val) (u32 (_ext2_get_block_offset sb cur_block + u32 (offset * 4)));
  Some (with_dev s d).

Definition _ext2_get_block_of_inode_lev0 (s : fs_t) (cur_block inode_block_index : Z) : option Z :=
  read_pointer s cur_block inode_block_index.

Definition _ext2_get_block_of_inode_lev1 (s : fs_t) (cur_block inode_block_index : Z) : option Z :=
  let lev_contain := BLOCK_LEN sb / 4 in
  let offset := inode_block_index / lev_contain in
  let offset_inner := inode_block_index mod lev_contain in
  res ← read_pointer s cur_block offset;
  if negb (res =? 0) then _ext2_get_block_of_inode_lev0 s res offset_inner else Some 0.

Definition _ext2_get_block_of_inode_lev2 (s : fs_t) (cur_block inode_block_index : Z) : option Z :=
  let block_len := BLOCK_LEN sb / 4 in
  let lev_contain := u32 (block_len * block_len) in
  let offset := inode_block_index / lev_contain in
  let offset_inner := inode_block_index mod lev_contain in
  res ← read_pointer s cur_block offset;
  if negb (res =? 0) then _ext2_get_block_of_inode_lev1 s res offset_inner else Some 0.

Definition _ext2_get_block_of_inode (s : fs_t) (d : dentry_t) (inode_block_index : Z) : option Z :=
  let block_len := BLOCK_LEN sb / 4 in
  if inode_block_index <? 12 then (block (inode d)).[inode_block_index]
  else if inode_block_index <? u32 (12 + block_len) then
    b ← (block (inode d)).[12]; _ext2_get_block_of_inode_lev0 s b (inode_block_index - 12)
  else if inode_block_index <? u32 (12 + block_len + block_len * block_len) then
    b ← (block (inode d)).[13]; _ext2_get_block_of_inode_lev1 s b (inode_block_index - 12 - block_len)
  else
    b ← (block (inode d)).[14];
    _ext2_get_block_of_inode_lev2 s b (u32 (inode_block_index - (12 + block_len + block_len * block_len))).

(** The error, or 0. *)
Definition _ext2_set_block_of_inode_lev0 (s : fs_t) (cur_block inode_block_index val : Z) : option (Z * fs_t) :=
  s ← write_pointer s cur_block inode_block_index val; Some (0, s).

(** A level above: the block of pointers at [offset], a new one if there is none.
    What is in a new one stays as it was on the drive. *)
Definition set_block_level (next : fs_t → Z → Z → Z → option (Z * fs_t)) (lev_contain : Z)
    (s : fs_t) (cur_block inode_block_index val : Z) : option (Z * fs_t) :=
  let offset := inode_block_index / lev_contain in
  let offset_inner := inode_block_index mod lev_contain in
  res ← read_pointer s cur_block offset;
  if res =? 0 then
    '(r, s) ← _ext2_allocate_block_index sb s 0;
    match r with
    | None => Some (- ENOSPC, s)
    | Some res =>
        s ← write_pointer s cur_block offset res;
        if negb (res =? 0) then next s res offset_inner val else Some (-1, s)
    end
  else next s res offset_inner val.

Definition _ext2_set_block_of_inode_lev1 : fs_t → Z → Z → Z → option (Z * fs_t) :=
  set_block_level _ext2_set_block_of_inode_lev0 (BLOCK_LEN sb / 4).
Definition _ext2_set_block_of_inode_lev2 : fs_t → Z → Z → Z → option (Z * fs_t) :=
  set_block_level _ext2_set_block_of_inode_lev1 (u32 (BLOCK_LEN sb / 4 * (BLOCK_LEN sb / 4))).

(** The top of an indirect tree, a new block if there is none. *)
Definition set_block_top (next : fs_t → Z → Z → Z → option (Z * fs_t)) (k : Z)
    (s : fs_t) (d : dentry_t) (inode_block_index val : Z) : option (Z * fs_t * dentry_t) :=
  b ← (block (inode d)).[k];
  if b =? 0 then
    '(r, s) ← _ext2_allocate_block_index sb s 0;
    match r with
    | None => Some (- ENOSPC, s, d)
    | Some b =>
        d ← set_inode_block d k b;
        '(err, s) ← next s b inode_block_index val; Some (err, s, d)
    end
  else '(err, s) ← next s b inode_block_index val; Some (err, s, d).

Definition _ext2_set_block_of_inode (s : fs_t) (d : dentry_t) (inode_block_index val : Z)
  : option (Z * fs_t * dentry_t) :=
  let block_len := BLOCK_LEN sb / 4 in
  if inode_block_index <? 12 then
    d ← set_inode_block d inode_block_index val; Some (0, s, set_dirty d)
  else if inode_block_index <? u32 (12 + block_len) then
    set_block_top _ext2_set_block_of_inode_lev0 12 s d (inode_block_index - 12) val
  else if inode_block_index <? u32 (12 + block_len + block_len * block_len) then
    set_block_top _ext2_set_block_of_inode_lev1 13 s d (inode_block_index - 12 - block_len) val
  else
    set_block_top _ext2_set_block_of_inode_lev2 14 s d
      (u32 (inode_block_index - (12 + block_len + block_len * block_len))) val.

(** The new block, or [None] for -ENOSPC. A block that cannot be entered into the
    inode stays taken. *)
Definition _ext2_allocate_block_for_inode (s : fs_t) (d : dentry_t) (pref_group : Z)
  : option (option Z * fs_t * dentry_t) :=
  '(r, s) ← _ext2_allocate_block_index sb s pref_group;
  match r with
  | Some block_index =>
      let blocks_per_inode := TO_EXT_BLOCKS_CNT sb (blocks (inode d)) in
      '(err, s, d) ← _ext2_set_block_of_inode s d blocks_per_inode block_index;
      if err =? 0 then
        Some (Some block_index, s,
          set_dirty (with_inode d (set_blocks (inode d) (blocks (inode d) + BLOCK_LEN sb / 512))))
      else Some (None, s, d)
  | None => Some (None, s, d)
  end.

(** ** Inodes *)

Definition inode_start (s : fs_t) (inode_indx : Z) : option Z :=
  if inodes_per_group sb =? 0 then None else
  let holder_group := u32 (inode_indx - 1) / inodes_per_group sb in
  let pos_inside_group := u32 (inode_indx - 1) mod inodes_per_group sb in
  g ← (gt s).[holder_group];
  Some (u32 (_ext2_get_block_offset sb (inode_table g) + u32 (pos_inside_group * INODE_LEN))).

Definition ext2_read_inode (s : fs_t) (d : dentry_t) : option dentry_t :=
  start ← inode_start s (inode_indx d);
  b ← _ext2_read_from_dev (dev s) start INODE_LEN;
  i ← inode_of b; Some (with_inode d i).

Definition ext2_write_inode (s : fs_t) (d : dentry_t) : option fs_t :=
  start ← inode_start s (inode_indx d);
  dv ← _ext2_write_to_dev (dev s) (inode_bytes (inode d)) start;
  Some (with_dev s dv).

(** The blocks of pointers stay taken. *)
Definition ext2_free_inode (s : fs_t) (d : dentry_t) : option (fs_t * dentry_t) :=
  if negb ((d_count d =? 0) && (links_count (inode d) =? 0)) then None else
  let block_per_dir := TO_EXT_BLOCKS_CNT sb (blocks (inode d)) in
  s ← for_n (Z.to_nat block_per_dir) 0 (λ block_index s,
    data_block_index ← _ext2_get_block_of_inode s d block_index;
    _ext2_free_block_index sb s data_block_index) s;
  i ← inode_of (replicate 128 0);
  let d := with_inode d i in
  s ← ext2_write_inode s d;
  s ← _ext2_free_inode_index sb s (inode_indx d);
  Some (s, d).

(** ** Files *)

Section files.
Context `{Platform} (kernel_access : bool).

(** The bytes that were read, or 0 past the end. *)
Definition ext2_read (s : fs_t) (d : dentry_t) (buf start len : Z) (m : mem) : option (outcome (Z * mem)) :=
  let block_len := BLOCK_LEN sb in
  let blocks_allocated := TO_EXT_BLOCKS_CNT sb (blocks (inode d)) in
  let start_block_index := u32 (start / block_len) in
  let end_block_index := u32 (Z.min (usize (start + len - 1) / block_len) (u32 (blocks_allocated - 1))) in
  if size (inode d) <=? start then Some (Returned (0, m)) else
  let have_to_read := u32 (Z.min len (usize (size (inode d) - start))) in
  let read_offset := start mod block_len in
  r ← for_loop (Z.to_nat (end_block_index - start_block_index + 1)) start_block_index
    (λ virt_block_index '(have_to_read, read_offset, already_read, m),
      data_block_index ← _ext2_get_block_of_inode s d virt_block_index;
      let read_from_block := Z.min have_to_read (block_len - read_offset) in
      r ← _ext2_user_read_from_dev kernel_access (dev s) (usize (buf + already_read))
        (u32 (_ext2_get_block_offset sb data_block_index + read_offset)) read_from_block m;
      Some (match r with
      | SystemStop => inr ()
      | Returned m => inl (have_to_read - read_from_block, 0, already_read + read_from_block, m)
      end)) (have_to_read, read_offset, 0, m);
  Some (match r with inl (_, _, already_read, m) => Returned (s32 already_read, m) | inr _ => SystemStop end).

(** The count, or the error of an allocation. [now] is
    [timeman_seconds_since_epoch()]. *)
Definition ext2_write (s : fs_t) (d : dentry_t) (buf start len now : Z) (m : mem)
  : option (outcome (Z * fs_t * dentry_t)) :=
  let block_len := BLOCK_LEN sb in
  let start_block_index := u32 (start / block_len) in
  let end_block_index := u32 (usize (start + len) / block_len) in
  let write_offset := start mod block_len in
  let blocks_allocated := TO_EXT_BLOCKS_CNT sb (blocks (inode d)) in
  r ← for_loop (Z.to_nat (end_block_index - start_block_index + 1)) start_block_index
    (λ virt_block_index '(to_write, write_offset, already_written, s, d),
      let write_to_block := Z.min to_write (block_len - write_offset) in
      '(r, s, d) ← (if blocks_allocated <=? virt_block_index then
          _ext2_allocate_block_for_inode s d 0
        else b ← _ext2_get_block_of_inode s d virt_block_index; Some (Some b, s, d));
      match r with
      | None => Some (inr (Returned (- ENOSPC, s, d)))
      | Some data_block_index =>
          r ← _ext2_user_write_to_dev kernel_access (dev s) (usize (buf + already_written))
            (u32 (_ext2_get_block_offset sb data_block_index + write_offset)) write_to_block m;
          Some (match r with
          | SystemStop => inr SystemStop
          | Returned dv => inl (to_write - write_to_block, 0, already_written + write_to_block, with_dev s dv, d)
          end)
      end) (u32 len, write_offset, 0, s, d);
  Some (match r with
  | inr r => r
  | inl (_, _, already_written, s, d) =>
      let i := if size (inode d) <? usize (start + len) then set_size (inode d) (u32 (start + len)) else inode d in
      Returned (s32 already_written, s, set_dirty (with_inode d (set_mtime i (u32 now))))
  end).
End files.

(** The blocks that are left out are freed, but the inode keeps them. *)
Definition ext2_truncate (s : fs_t) (d : dentry_t) (len now : Z) : option (fs_t * dentry_t) :=
  if size (inode d) <=? len then Some (s, d) else
  let block_len := BLOCK_LEN sb in
  let last_written_byte := u32 (len - 1) in
  let last_written_block_index := last_written_byte / block_len in
  let start_block_index := u32 (last_written_block_index + 1) in
  let blocks_allocated := TO_EXT_BLOCKS_CNT sb (blocks (inode d)) in
  s ← for_n (Z.to_nat (blocks_allocated - start_block_index)) start_block_index (λ virt_block_index s,
    block_index ← _ext2_get_block_of_inode s d virt_block_index;
    _ext2_free_block_index sb s block_index) s;
  Some (s, set_dirty (with_inode d (set_mtime (set_size (inode d) len) (u32 now)))).
End ext2.

(** ** Pointers and owned blocks *)

(** The [k]-th pointer of a block of pointers. *)
Definition ptr (d : disk) (b k : Z) : Z := le_val (default [] (zread d (1024 * b + 4 * k) 4)).

Section spec.
Context (sb : superblock_t) (Hlog : log_block_size sb = 0).

Abbreviation block_used s b := (used block_bitmap 8192 s b).

Lemma block_len : BLOCK_LEN sb = 1024.
Proof. by apply BLOCK_LEN_1024. Qed.

Lemma blocks_cnt x : TO_EXT_BLOCKS_CNT sb x = x / 2.
Proof. unfold TO_EXT_BLOCKS_CNT. by rewrite Hlog. Qed.

Lemma offset_in_block d b o : drive_ok d → valid_block d b → 0 <= o < 1024 →
  u32 (_ext2_get_block_offset sb b + o) = 1024 * b + o.
Proof.
  intros Hd Hv Ho. rewrite (block_offset sb Hlog d b Hd Hv). destruct Hd as [[_ Hd] _]. destruct Hv.
  apply u32_small. lia.
Qed.

Lemma read_pointer_spec s b k : drive_ok (dev s) → valid_block (dev s) b → 0 <= k < 256 →
  read_pointer sb s b k = Some (ptr (dev s) b k).
Proof.
  intros Hd Hv Hk. unfold read_pointer. rewrite (u32_small (k * 4)) by lia.
  rewrite (offset_in_block (dev s) b (k * 4) Hd Hv) by lia. destruct Hv as [? Hv].
  rewrite read_from_dev_spec by (apply Hd || lia).
  unfold ptr. rewrite (Z.mul_comm k 4). destruct (zread_is_Some (dev s) (1024 * b + 4 * k) 4) as [x ->]; [lia..|done].
Qed.

Lemma write_pointer_spec s b k v : drive_ok (dev s) → valid_block (dev s) b → 0 <= k < 256 →
  ∃ d', write_pointer sb s b k v = Some (with_dev s d') ∧ zwrite (dev s) (1024 * b + 4 * k) (le_bytes 4 v) = Some d'.
Proof.
  intros Hd Hv Hk. unfold write_pointer. rewrite (u32_small (k * 4)) by lia.
  rewrite (offset_in_block (dev s) b (k * 4) Hd Hv) by lia. destruct Hv as [? Hv].
  rewrite (Z.mul_comm k 4). rewrite write_to_dev_spec by first [apply Hd|lia|rewrite length_le_bytes; lia].
  destruct (zwrite_is_Some (dev s) (1024 * b + 4 * k) (le_bytes 4 v)) as [d' E];
    [lia|rewrite length_le_bytes; lia|]. exists d'. by rewrite E.
Qed.

Lemma ptr_written d b k v d' : zwrite d (1024 * b + 4 * k) (le_bytes 4 v) = Some d' → 0 <= v < 2 ^ 32 →
  ptr d' b k = v.
Proof.
  intros E Hv. unfold ptr. rewrite (zread_zwrite_same _ _ _ _ _ E) by (by rewrite length_le_bytes).
  cbn [default]. by apply le_val_bytes.
Qed.
Lemma ptr_other d b k v d' b' k' : zwrite d (1024 * b + 4 * k) (le_bytes 4 v) = Some d' →
  0 <= k < 256 → 0 <= k' < 256 → (b', k') ≠ (b, k) → ptr d' b' k' = ptr d b' k'.
Proof.
  intros E Hk Hk' Hne. unfold ptr. rewrite (zread_zwrite_other _ _ _ _ _ _ E); [done|].
  rewrite length_le_bytes. assert (b' ≠ b ∨ k' ≠ k) by (destruct (decide (b' = b)); [right; congruence|by left]). lia.
Qed.
(** A pointer is a part of its block. *)
Lemma ptr_block d d' b k : valid_block d b → length d' = length d → 0 <= k < 256 →
  block_at d' b = block_at d b → ptr d' b k = ptr d b k.
Proof.
  intros Hv Hl Hk E. assert (valid_block d' b) as Hv' by (unfold valid_block in *; lia). unfold ptr.
  rewrite <- (zread_sub d (1024 * b) 1024 (block_at d b) (4 * k) 4) by (by apply block_at_read || lia).
  rewrite <- (zread_sub d' (1024 * b) 1024 (block_at d' b) (4 * k) 4) by (by apply block_at_read || lia).
  by rewrite E.
Qed.

Definition is_bitmap (s : fs_t) (b : Z) : Prop :=
  ∃ i g, (gt s).[i] = Some g ∧ (block_bitmap g = b ∨ inode_bitmap g = b).

(** A drive on which blocks can be allocated: what is free is a block of the
    drive and no bitmap. *)
Record alloc_ok (s : fs_t) : Prop := {
  ao_fs : fs_ok sb s;
  ao_counted : counted s;
  ao_free b : 1 <= b <= 8192 * Z.of_nat (length (gt s)) → block_used s b = false →
    valid_block (dev s) b ∧ ¬ is_bitmap s b;
}.

Lemma ao_drive s : alloc_ok s → drive_ok (dev s).
Proof. intros Hao. apply (fs_drive sb s), Hao. Qed.

(** A block that can belong to a file. *)
Definition owned (s : fs_t) (b : Z) : Prop :=
  valid_block (dev s) b ∧ 1 <= b <= 8192 * Z.of_nat (length (gt s)) ∧ block_used s b = true ∧ ¬ is_bitmap s b.

(** *** Writing into an owned block *)

Lemma block_at_outside d a x d' b : zwrite d a x = Some d' → 1024 * b + 1024 <= a ∨ a + Z.of_nat (length x) <= 1024 * b →
  block_at d' b = block_at d b.
Proof. intros E Ho. unfold block_at. by rewrite (zread_zwrite_other _ _ _ _ _ _ E) by lia. Qed.

Section write.
Context (s : fs_t) (b o : Z) (x : list Z) (d' : disk).
Hypothesis (Hao : alloc_ok s) (Hown : owned s b) (Hx : Forall byte x).
Hypothesis (Hin : 0 <= o ∧ o + Z.of_nat (length x) <= 1024).
Hypothesis (E : zwrite (dev s) (1024 * b + o) x = Some d').

Lemma write_other b' : b' ≠ b → block_at d' b' = block_at (dev s) b'.
Proof. intros Hne. eapply block_at_outside; [exact E|]. lia. Qed.

Lemma write_bitmap i g : (gt s).[i] = Some g →
  block_at d' (block_bitmap g) = block_at (dev s) (block_bitmap g) ∧
  block_at d' (inode_bitmap g) = block_at (dev s) (inode_bitmap g).
Proof.
  intros Hg. destruct Hown as (_ & _ & _ & Hnb).
  split; apply write_other; intros Heq; apply Hnb; exists i, g; auto.
Qed.

Lemma write_used b' : block_used (with_dev s d') b' = block_used s b'.
Proof.
  unfold used. cbn [gt dev with_dev]. destruct ((gt s).[_]) as [g|] eqn:Hg; [|done].
  by destruct (write_bitmap _ g Hg) as [-> _].
Qed.

Lemma write_alloc_ok : alloc_ok (with_dev s d').
Proof.
  pose proof (zwrite_length _ _ _ _ E) as Hl. destruct Hao as [Hfs Hc Hfree].
  assert (∀ b, valid_block d' b ↔ valid_block (dev s) b) as Hv by (intros; unfold valid_block; by rewrite Hl).
  constructor.
  - constructor; cbn [gt dev with_dev]; try apply Hfs.
    + eapply drive_ok_write; [apply Hfs|exact Hx|exact E].
    + intros i g Hg. rewrite !Hv. by apply (fs_group sb s Hfs i).
  - intros i g Hg. cbn [gt dev with_dev] in *. destruct (write_bitmap i g Hg) as [-> _]. by apply (Hc i).
  - intros b' Hb' Hu. rewrite write_used in Hu. cbn [dev with_dev]. rewrite Hv. by apply Hfree.
Qed.

Lemma write_owned b' : owned (with_dev s d') b' ↔ owned s b'.
Proof.
  unfold owned. rewrite write_used. unfold valid_block. cbn [gt dev with_dev].
  by rewrite (zwrite_length _ _ _ _ E).
Qed.
End write.

(** *** Allocation *)

Lemma index_changed_is_bitmap s s' i off b : index_changed block_bitmap true s s' i off →
  is_bitmap s' b → is_bitmap s b.
Proof.
  intros Hc (j & g & Hg & Hb). destruct (index_changed_group_inv _ _ _ _ _ _ j g Hc Hg) as (g0 & Hg0 & Eb & Ei & _).
  exists j, g0. split; [done|]. by rewrite <- Eb, <- Ei.
Qed.

(** A new block was free, and so is none of the owned ones; those keep what they hold. *)
Lemma allocate_owned s : alloc_ok s → 
  ∃ r s', _ext2_allocate_block_index sb s 0 = Some (r, s') ∧ alloc_ok s' ∧
    length (gt s') = length (gt s) ∧ length (dev s') = length (dev s) ∧
    (∀ b', owned s b' → owned s' b' ∧ block_at (dev s') b' = block_at (dev s) b') ∧
    match r with
    | Some b => owned s' b ∧ ¬ owned s b ∧ 0 < b < 2 ^ 31 
    | None => s' = s
    end.
Proof.
  intros [Hs Hc Hfree]. pose proof (fs_per_group sb s Hs) as Hper. pose proof (fs_groups sb s Hs) as Hgs.
  unfold _ext2_allocate_block_index. rewrite Hper.
  destruct (allocate_index_spec sb Hlog block_bitmap 8192 ltac:(lia) ltac:(by left) free_blocks_count
    (λ g, set_free_blocks_count g (free_blocks_count g - 1))
    (λ g, set_free_blocks_count_ok g _) s 0 Hs) as (r & s' & -> & Hr); [intros ? ? ? _ ?; lia|lia|lia|].
  exists r, s'. split; [done|]. destruct r as [b|].
  2:{ destruct Hr as [-> _]. done. }
  destruct Hr as (i & off & Hi & Ho & -> & Hu & Hch & g & Hg & Hcnt & Hg').
  pose proof Hch as (g0 & g' & d' & Hg0 & _ & _ & _ & _ & Hbit & _ & Es).
  assert (g0 = g) as -> by congruence.
  pose proof (bit_changed_length _ _ _ _ _ Hbit) as Hld.
  assert (length (gt s') = length (gt s)) as Hlg by (rewrite Es; apply length_insert).
  assert (length (dev s') = length (dev s)) as Hlv by (rewrite Es; exact Hld).
  assert (∀ n, 1 <= n → block_used s' n = if decide (n = 8192 * i + off + 1) then true else block_used s n) as Hu'.
  { intros n Hn. by apply (index_changed_used sb block_bitmap 8192 ltac:(lia) ltac:(by left) true s s' i off n Hs Hch). }
  assert (∀ b, valid_block (dev s') b ↔ valid_block (dev s) b) as Hv by (intros; unfold valid_block; by rewrite Hlv).
  destruct (index_split 8192 ltac:(lia) i off Ho) as [E1 E2].
  assert (bit (block_at (dev s) (block_bitmap g)) off = false) as Hfr.
  { unfold used in Hu. by rewrite E1, E2, Hg in Hu. }
  destruct (Hfree (8192 * i + off + 1)) as [Hvb Hnb]; [lia|done|].
  split; [|split; [done|split; [done|split; [|split; [|split]]]]].
  - constructor; [by eapply index_changed_ok|by eapply counted_allocate|].
    rewrite Hlg. intros b' Hb' Hub'. rewrite Hu' in Hub' by lia. case_decide; [done|].
    destruct (Hfree b' Hb' Hub') as [? Hn]. rewrite Hv. split; [done|].
    intros Hbm. apply Hn. by eapply index_changed_is_bitmap.
  - intros b' (Hvb' & Hb' & Hub' & Hn'). split.
    + unfold owned. rewrite Hv, Hlg, Hu' by lia. split; [done|]. split; [done|].
      split; [by case_decide|]. intros Hbm. apply Hn'. by eapply index_changed_is_bitmap.
    + rewrite Es. cbn [dev]. eapply bit_changed_other; [exact Hbit|]. intros ->. apply Hn'. exists i, g. auto.
  - unfold owned. rewrite Hv, Hlg, Hu' by lia. rewrite decide_True by done. split; [done|]. split; [lia|].
    split; [done|]. intros Hbm. apply Hnb. by eapply index_changed_is_bitmap.
  - intros (_ & _ & Hut & _). congruence.
  - lia.
Qed.

(** ** The blocks of a file *)

(** The top of the single indirect tree. *)
Definition ind (d : dentry_t) : Z := default 0 ((block (inode d)).[12]).

(** The dentry [d] holds a file of [n] blocks, block [k] being [f k]; up to 268
    blocks the direct and the single indirect pointers are enough. *)
Record file_ok (s : fs_t) (d : dentry_t) (n : Z) (f : Z → Z) : Prop := {
  fo_len : length (block (inode d)) = 15%nat;
  fo_n : 0 <= n <= 268;
  fo_blocks : blocks (inode d) = 2 * n;
  fo_direct k : 0 <= k < n → k < 12 → (block (inode d)).[k] = Some (f k);
  fo_indirect k : 12 <= k < n → ptr (dev s) (ind d) (k - 12) = f k;
  fo_owned k : 0 <= k < n → owned s (f k);
  fo_inj j k : 0 <= j < n → 0 <= k < n → f j = f k → j = k;
  fo_top : ind d = 0 ∨ owned s (ind d) ∧ ∀ k, 0 <= k < n → f k ≠ ind d;
  fo_top_n : 12 < n → ind d ≠ 0;
}.

(** What was owned is owned, on a drive of the same length. *)
Definition keeps (s s' : fs_t) : Prop :=
  length (dev s') = length (dev s) ∧ ∀ b, owned s b → owned s' b.

Lemma file_ok_keeps s s' d n f : file_ok s d n f → keeps s s' →
  (12 < n → block_at (dev s') (ind d) = block_at (dev s) (ind d)) → file_ok s' d n f.
Proof.
  intros [Hl Hn Hb Hd Hi Ho Hj Ht Htn] [Hlen Hk] Hsame.
  constructor; try done.
  - intros k Hk'. rewrite <- Hi by done. destruct Ht as [Hz|[(Hv & _) _]]; [exfalso; apply Htn; [lia|done]|].
    apply ptr_block; [done|done|lia|apply Hsame; lia].
  - intros k Hk'. by apply Hk, Ho.
  - destruct Ht as [|[]]; [by left|right]. auto.
Qed.

Lemma get_block_spec s d n f k : alloc_ok s → file_ok s d n f → 0 <= k < n →
  _ext2_get_block_of_inode sb s d k = Some (f k).
Proof.
  intros Hao Hf Hk. pose proof (fo_n _ _ _ _ Hf). unfold _ext2_get_block_of_inode. cbv zeta.
  rewrite block_len. change (1024 / 4) with 256. change (u32 (12 + 256)) with 268.
  destruct (Z.ltb_spec k 12); [by apply (fo_direct s d n f)|].
  destruct (Z.ltb_spec k 268); [|lia].
  destruct (zget_is_Some (block (inode d)) 12) as [b Hb]; [rewrite (fo_len _ _ _ _ Hf); lia|].
  returns Hb. assert (ind d = b) as Hi by (unfold ind; by rewrite Hb).
  unfold _ext2_get_block_of_inode_lev0. rewrite <- Hi.
  destruct (fo_top _ _ _ _ Hf) as [Hz|[(Hv & _) _]]; [exfalso; apply (fo_top_n _ _ _ _ Hf); [lia|done]|].
  rewrite read_pointer_spec by (by apply ao_drive || done || lia). f_equal. apply (fo_indirect s d n f); [done|lia].
Qed.

(** *** Files of any length *)

(** The word [k] of block [b]. *)
Definition word_at (d : disk) (b k : Z) : option Z := le_val <$> zread d (1024 * b + 4 * k) 4.

(** The leaf [k] of a tree of pointers of [levels] levels, or 0 where the tree
    has no branch. *)
Fixpoint tree_walk (d : disk) (levels : nat) (b k : Z) : option Z :=
  match levels with
  | O => Some b
  | S l =>
      next ← word_at d b (k / 256 ^ Z.of_nat l);
      if next =? 0 then Some 0 else tree_walk d l next (k mod 256 ^ Z.of_nat l)
  end.

(** Block [k] of the file with these 15 pointers: 12 blocks, then a tree of one,
    of two and of three levels. *)
Definition file_walk (d : disk) (ptrs : list Z) (k : Z) : option Z :=
  if k <? 12 then ptrs.[k]
  else if k <? 12 + 256 then b ← ptrs.[12]; tree_walk d 1 b (k - 12)
  else if k <? 12 + 256 + 65536 then b ← ptrs.[13]; tree_walk d 2 b (k - (12 + 256))
  else b ← ptrs.[14]; tree_walk d 3 b (k - (12 + 256 + 65536)).

Lemma word_at_range d b k v : drive_ok d → word_at d b k = Some v → 0 <= v < 2 ^ 32.
Proof.
  intros [_ Hd] E. unfold word_at in E. destruct (zread _ _ _) as [x|] eqn:Ex; [|done]. injection E as <-.
  assert (Forall byte x) as Hx.
  { unfold zread in Ex. case_decide; [|done]. injection Ex as <-. by apply Forall_take, Forall_drop. }
  apply zread_Some in Ex as (_ & _ & _ & Hl & _). pose proof (le_val_range x Hx) as Hr.
  by replace (8 * Z.of_nat (length x)) with 32 in Hr by lia.
Qed.

(** Also for block 0, which stands for none: it is the start of the drive. *)
Lemma read_pointer_word s b k v : drive_ok (dev s) → 0 <= b < 2 ^ 32 → 0 <= k < 2 ^ 30 →
  word_at (dev s) b k = Some v → read_pointer sb s b k = Some v.
Proof.
  intros Hd Hb Hk Hw. unfold word_at in Hw. destruct (zread _ _ _) as [x|] eqn:Ex; [|done].
  pose proof Ex as (_ & _ & Hin & _)%zread_Some. destruct Hd as [Hdk _]. pose proof Hdk as [_ Hmax].
  unfold read_pointer, _ext2_get_block_offset, SUPERBLOCK_START. rewrite block_len.
  assert (u32 (u32 (1024 + u32 (u32 (b - 1) * 1024)) + u32 (k * 4)) = 1024 * b + 4 * k) as ->.
  { unfold u32. rewrite Zmult_mod_idemp_l, !Zplus_mod_idemp_l, !Zplus_mod_idemp_r.
    replace (1024 + ((b - 1) * 1024) mod 2 ^ 32 + k * 4) with (1024 + k * 4 + ((b - 1) * 1024) mod 2 ^ 32) by lia.
    rewrite Zplus_mod_idemp_r, Z.mod_small by lia. lia. }
  rewrite read_from_dev_spec by (done || lia). by rewrite Ex.
Qed.

(** The three routines are walks down trees of one, two and three levels. *)
Lemma lev0_walk s b k v : drive_ok (dev s) → 0 <= b < 2 ^ 32 → 0 <= k < 2 ^ 30 →
  tree_walk (dev s) 1 b k = Some v → _ext2_get_block_of_inode_lev0 sb s b k = Some v.
Proof.
  intros Hd Hb Hk Hw. cbn [tree_walk] in Hw. change (256 ^ Z.of_nat 0) with 1 in Hw. rewrite Z.div_1_r in Hw.
  apply read_pointer_word; [done..|]. destruct (word_at _ _ _) as [y|]; [|done]. cbn [mbind option_bind] in Hw.
  destruct (Z.eqb_spec y 0); congruence.
Qed.
Lemma lev1_walk s b k v : drive_ok (dev s) → 0 <= b < 2 ^ 32 → 0 <= k < 2 ^ 30 →
  tree_walk (dev s) 2 b k = Some v → _ext2_get_block_of_inode_lev1 sb s b k = Some v.
Proof.
  intros Hd Hb Hk Hw. remember 1%nat as one eqn:E1. cbn [tree_walk] in Hw. rewrite E1 in Hw.
  change (256 ^ Z.of_nat 1) with 256 in Hw. unfold _ext2_get_block_of_inode_lev1. cbv zeta. rewrite block_len.
  change (1024 / 4) with 256. destruct (word_at _ _ _) as [y|] eqn:Ey; [|done]. cbn [mbind option_bind] in Hw.
  pose proof (word_at_range _ _ _ _ Hd Ey) as Hy. pose proof (Z.mod_pos_bound k 256 ltac:(lia)).
  rewrite (read_pointer_word s b (k / 256) y) by (done || (split; [apply Z.div_pos; lia|apply Z.div_lt_upper_bound; lia])).
  cbn [mbind option_bind]. destruct (y =? 0); cbn [negb]; [congruence|]. apply lev0_walk; (done || lia).
Qed.
Lemma lev2_walk s b k v : drive_ok (dev s) → 0 <= b < 2 ^ 32 → 0 <= k < 2 ^ 30 →
  tree_walk (dev s) 3 b k = Some v → _ext2_get_block_of_inode_lev2 sb s b k = Some v.
Proof.
  intros Hd Hb Hk Hw. remember 2%nat as two eqn:E2. cbn [tree_walk] in Hw. rewrite E2 in Hw.
  change (256 ^ Z.of_nat 2) with 65536 in Hw. unfold _ext2_get_block_of_inode_lev2. cbv zeta. rewrite block_len.
  change (u32 (1024 / 4 * (1024 / 4))) with 65536.
  destruct (word_at _ _ _) as [y|] eqn:Ey; [|done]. cbn [mbind option_bind] in Hw.
  pose proof (word_at_range _ _ _ _ Hd Ey) as Hy. pose proof (Z.mod_pos_bound k 65536 ltac:(lia)).
  rewrite (read_pointer_word s b (k / 65536) y) by (done || (split; [apply Z.div_pos; lia|apply Z.div_lt_upper_bound; lia])).
  cbn [mbind option_bind]. destruct (y =? 0); cbn [negb]; [congruence|]. apply lev1_walk; (done || lia).
Qed.

Lemma get_block_walk s d k b : drive_ok (dev s) → Forall (λ x, 0 <= x < 2 ^ 32) (block (inode d)) →
  0 <= k < 2 ^ 30 → file_walk (dev s) (block (inode d)) k = Some b → _ext2_get_block_of_inode sb s d k = Some b.
Proof.
  intros Hd Hptrs Hk. unfold file_walk, _ext2_get_block_of_inode. cbv zeta. rewrite block_len.
  change (1024 / 4) with 256. change (u32 (12 + 256)) with (12 + 256).
  change (u32 (12 + 256 + 256 * 256)) with (12 + 256 + 65536). change (256 * 256) with 65536.
  assert (∀ j x, (block (inode d)).[j] = Some x → 0 <= x < 2 ^ 32) as Hx.
  { intros j x E. unfold zget in E. case_decide; [|done]. by apply (Forall_lookup_1 _ _ _ _ Hptrs E). }
  destruct (Z.ltb_spec k 12); [done|]. destruct (Z.ltb_spec k (12 + 256)); [|destruct (Z.ltb_spec k (12 + 256 + 65536))].
  - destruct ((block (inode d)).[12]) eqn:E; [|done]. intros Hw. apply lev0_walk; [done|eauto|lia|done].
  - destruct ((block (inode d)).[13]) eqn:E; [|done]. intros Hw.
    replace (k - 12 - 256) with (k - (12 + 256)) by lia. apply lev1_walk; [done|eauto|lia|done].
  - destruct ((block (inode d)).[14]) eqn:E; [|done]. intros Hw.
    rewrite u32_small by lia. apply lev2_walk; [done|eauto|lia|done].
Qed.

(** The dentry [d] leads to [n] blocks of data, block [k] being [f k], by any of
    the pointers. The count of the inode may be larger, since other systems count
    the blocks of pointers, too: a read past the end then follows the pointers
    behind the last block, which therefore must not lead off the drive. *)
Record file_data (s : fs_t) (d : dentry_t) (n : Z) (f : Z → Z) : Prop := {
  fd_ptrs : Forall (λ x, 0 <= x < 2 ^ 32) (block (inode d));
  fd_blocks : 0 <= 2 * n <= blocks (inode d) ∧ blocks (inode d) < 2 ^ 31;
  fd_size : size (inode d) < 2 ^ 32;
  fd_walk k : 0 <= k < n → file_walk (dev s) (block (inode d)) k = Some (f k) ∧ valid_block (dev s) (f k);
  fd_rest k : n <= k < blocks (inode d) / 2 → is_Some (file_walk (dev s) (block (inode d)) k);
}.

Lemma file_data_block s d n f k : drive_ok (dev s) → file_data s d n f → 0 <= k < blocks (inode d) / 2 →
  ∃ b, _ext2_get_block_of_inode sb s d k = Some b ∧ (k < n → b = f k ∧ valid_block (dev s) b).
Proof.
  intros Hd Hf Hk. pose proof (fd_blocks _ _ _ _ Hf).
  assert (k < 2 ^ 30) by (pose proof (Z.div_lt_upper_bound (blocks (inode d)) 2 (2 ^ 30)); lia).
  destruct (decide (k < n)) as [Hlt|Hge].
  - destruct (fd_walk _ _ _ _ Hf k) as [Hw Hv]; [lia|]. exists (f k). split; [|done].
    apply get_block_walk; [done|by apply (fd_ptrs s d n f)|lia|done].
  - destruct (fd_rest _ _ _ _ Hf k) as [b Hw]; [lia|]. exists b. split; [|lia].
    apply get_block_walk; [done|by apply (fd_ptrs s d n f)|lia|done].
Qed.

(** Entering a new block [b] as block [n]. *)
Definition entered (f : Z → Z) (n b k : Z) : Z := if decide (k = n) then b else f k.

Lemma set_inode_block_spec d k v : length (block (inode d)) = 15%nat → 0 <= k < 15 →
  ∃ d', set_inode_block d k v = Some d' ∧ length (block (inode d')) = 15%nat ∧
    (∀ j, (block (inode d')).[j] = if decide (k = j) then Some v else (block (inode d)).[j]) ∧
    blocks (inode d') = blocks (inode d) ∧ size (inode d') = size (inode d).
Proof.
  intros Hl Hk. unfold set_inode_block. rewrite zset_in by (rewrite Hl; lia). cbn [mbind option_bind].
  eexists. split; [done|]. cbn. split; [by rewrite length_insert|]. split; [|done].
  intros j. apply zget_insert. rewrite Hl. lia.
Qed.

(** A direct pointer. *)
Lemma set_direct_spec s d n f b : alloc_ok s → file_ok s d n f → n < 12 → owned s b →
  (∀ k, 0 <= k < n → f k ≠ b) → ind d ≠ b →
  ∃ d', _ext2_set_block_of_inode sb s d n b = Some (0, s, d') ∧ size (inode d') = size (inode d) ∧
    blocks (inode d') = 2 * n ∧
    ∀ d'', block (inode d'') = block (inode d') → blocks (inode d'') = 2 * (n + 1) →
      file_ok s d'' (n + 1) (entered f n b).
Proof.
  intros Hao Hf Hn Hb Hne Hib. pose proof (fo_n _ _ _ _ Hf) as Hn0. pose proof (fo_len _ _ _ _ Hf) as Hl.
  unfold _ext2_set_block_of_inode. cbv zeta. destruct (Z.ltb_spec n 12); [|lia].
  destruct (set_inode_block_spec d n b Hl) as (d' & -> & Hl' & Hget & Hbl & Hsz); [lia|].
  cbn [mbind option_bind]. exists (set_dirty d'). split; [done|]. cbn [inode set_dirty].
  split; [done|]. split; [rewrite Hbl; apply (fo_blocks _ _ _ _ Hf)|]. intros d'' Hd'' Hb''.
  assert (ind d'' = ind d) as Hind by (unfold ind; rewrite Hd'', Hget; by rewrite decide_False by lia).
  assert (∀ k, 0 <= k < n + 1 → k ≠ n → entered f n b k = f k ∧ 0 <= k < n) as Hold.
  { intros k Hk Hkn. unfold entered. rewrite decide_False by done. split; [done|lia]. }
  assert (entered f n b n = b) as Hnew by (unfold entered; by rewrite decide_True).
  constructor; [by rewrite Hd''|lia|done| | | | | |lia].
  - intros k Hk Hk12. rewrite Hd'', Hget. destruct (decide (n = k)) as [<-|Hkn]; [by rewrite Hnew|].
    destruct (Hold k Hk) as [-> Hk']; [done|]. by apply (fo_direct _ _ _ _ Hf).
  - lia.
  - intros k Hk. destruct (decide (k = n)) as [->|Hkn]; [by rewrite Hnew|].
    destruct (Hold k Hk) as [-> Hk']; [done|]. by apply (fo_owned _ _ _ _ Hf).
  - intros j k Hj Hk. destruct (decide (j = n)) as [->|Hjn], (decide (k = n)) as [->|Hkn]; [done| | |].
    + rewrite Hnew. destruct (Hold k Hk) as [-> Hk']; [done|]. intros E. by destruct (Hne k).
    + rewrite Hnew. destruct (Hold j Hj) as [-> Hj']; [done|]. intros E. by destruct (Hne j).
    + destruct (Hold j Hj) as [-> Hj']; [done|]. destruct (Hold k Hk) as [-> Hk']; [done|].
      by apply (fo_inj _ _ _ _ Hf).
  - rewrite Hind. destruct (fo_top _ _ _ _ Hf) as [|[Ho Hall]]; [by left|right]. split; [done|].
    intros k Hk. destruct (decide (k = n)) as [->|Hkn]; [rewrite Hnew; congruence|].
    destruct (Hold k Hk) as [-> Hk']; [done|]. by apply Hall.
Qed.

(** A pointer in the single indirect block. *)
Lemma enter_indirect s d n f b : alloc_ok s → file_ok s d n f → 12 <= n < 268 → ind d ≠ 0 → owned s b →
  (∀ k, 0 <= k < n → f k ≠ b) → ind d ≠ b → 0 < b < 2 ^ 31 →
  ∃ s', write_pointer sb s (ind d) (n - 12) b = Some s' ∧ alloc_ok s' ∧ keeps s s' ∧
    (∀ k, 0 <= k < n → block_at (dev s') (f k) = block_at (dev s) (f k)) ∧
    ∀ d'', block (inode d'') = block (inode d) → blocks (inode d'') = 2 * (n + 1) →
      file_ok s' d'' (n + 1) (entered f n b).
Proof.
  intros Hao Hf Hn Hi Hb Hne Hib Hbr. destruct (fo_top _ _ _ _ Hf) as [|[Hown Hall]]; [done|].
  pose proof Hown as (Hv & _).
  destruct (write_pointer_spec s (ind d) (n - 12) b (ao_drive s Hao) Hv) as (d1 & -> & E); [lia|].
  assert (0 <= 4 * (n - 12) ∧ 4 * (n - 12) + Z.of_nat (length (le_bytes 4 b)) <= 1024) as Hin
    by (rewrite length_le_bytes; lia).
  pose proof (write_owned s (ind d) _ _ d1 Hown Hin E) as Hown'.
  exists (with_dev s d1). split; [done|]. cbn [dev with_dev].
  assert (∀ k, 0 <= k < n → block_at d1 (f k) = block_at (dev s) (f k)) as Hdata.
  { intros k Hk. apply (write_other s (ind d) _ _ d1 Hin E). by apply Hall. }
  split; [by apply (write_alloc_ok s (ind d) _ _ d1 Hao Hown (le_bytes_byte _ _) Hin E)|].
  split; [split; [by eapply zwrite_length|]; intros b'; apply Hown'|]. split; [done|].
  intros d'' Hd'' Hb''. assert (ind d'' = ind d) as Hind by (unfold ind; by rewrite Hd'').
  assert (∀ k, 0 <= k < n + 1 → k ≠ n → entered f n b k = f k ∧ 0 <= k < n) as Hold.
  { intros k Hk Hkn. unfold entered. rewrite decide_False by done. split; [done|lia]. }
  assert (entered f n b n = b) as Hnew by (unfold entered; by rewrite decide_True).
  constructor; rewrite ?Hind; [rewrite Hd''; apply (fo_len _ _ _ _ Hf)|lia|done| | | | | |done].
  - intros k Hk Hk12. rewrite Hd''. destruct (Hold k Hk) as [-> Hk']; [lia|]. by apply (fo_direct _ _ _ _ Hf).
  - intros k Hk. cbn [dev with_dev]. destruct (decide (k = n)) as [->|Hkn].
    + rewrite Hnew. eapply ptr_written; [exact E|lia].
    + destruct (Hold k) as [-> Hk']; [lia|done|]. rewrite (ptr_other _ _ _ _ _ _ _ E) by (lia || congruence || (intros [=]; lia)).
      apply (fo_indirect _ _ _ _ Hf). lia.
  - intros k Hk. apply Hown'. destruct (decide (k = n)) as [->|Hkn]; [by rewrite Hnew|].
    destruct (Hold k Hk) as [-> Hk']; [done|]. by apply (fo_owned _ _ _ _ Hf).
  - intros j k Hj Hk. destruct (decide (j = n)) as [->|Hjn], (decide (k = n)) as [->|Hkn]; [done| | |].
    + rewrite Hnew. destruct (Hold k Hk) as [-> Hk']; [done|]. intros Eq. by destruct (Hne k).
    + rewrite Hnew. destruct (Hold j Hj) as [-> Hj']; [done|]. intros Eq. by destruct (Hne j).
    + destruct (Hold j Hj) as [-> Hj']; [done|]. destruct (Hold k Hk) as [-> Hk']; [done|].
      by apply (fo_inj _ _ _ _ Hf).
  - right. split; [by apply Hown'|]. intros k Hk. destruct (decide (k = n)) as [->|Hkn]; [rewrite Hnew; congruence|].
    destruct (Hold k Hk) as [-> Hk']; [done|]. by apply Hall.
Qed.

(** A new, empty tree below the inode. *)
Lemma file_ok_new_top s d n f b d2 : file_ok s d n f → n <= 12 → owned s b → b ≠ 0 → (∀ k, 0 <= k < n → f k ≠ b) →
  set_inode_block d 12 b = Some d2 →
  file_ok s d2 n f ∧ ind d2 = b ∧ size (inode d2) = size (inode d) ∧ blocks (inode d2) = blocks (inode d).
Proof.
  intros Hf Hn Hb Hnz Hne E. pose proof (fo_len _ _ _ _ Hf) as Hl.
  destruct (set_inode_block_spec d 12 b Hl) as (d2' & E2 & Hl' & Hget & Hbl & Hsz); [lia|].
  assert (d2' = d2) as -> by congruence.
  assert (ind d2 = b) as Hi by (unfold ind; by rewrite Hget, decide_True).
  split; [|done]. constructor; rewrite ?Hi; [done|apply (fo_n _ _ _ _ Hf)| | |lia|apply (fo_owned _ _ _ _ Hf)|apply (fo_inj _ _ _ _ Hf)|by right|done].
  - rewrite Hbl. apply (fo_blocks _ _ _ _ Hf).
  - intros k Hk Hk12. rewrite Hget, decide_False by lia. by apply (fo_direct _ _ _ _ Hf).
Qed.

Lemma set_indirect_spec s d n f b : alloc_ok s → file_ok s d n f → 12 <= n < 268 → owned s b →
  (∀ k, 0 <= k < n → f k ≠ b) → ind d ≠ b → 0 < b < 2 ^ 31 →
  ∃ err s' d', _ext2_set_block_of_inode sb s d n b = Some (err, s', d') ∧ alloc_ok s' ∧ keeps s s' ∧
    (∀ k, 0 <= k < n → block_at (dev s') (f k) = block_at (dev s) (f k)) ∧
    size (inode d') = size (inode d) ∧ blocks (inode d') = 2 * n ∧
    (err = 0 ∧ (∀ d'', block (inode d'') = block (inode d') → blocks (inode d'') = 2 * (n + 1) →
       file_ok s' d'' (n + 1) (entered f n b)) ∨ err ≠ 0 ∧ file_ok s' d' n f).
Proof.
  intros Hao Hf Hn Hb Hne Hib Hbr. pose proof (fo_blocks _ _ _ _ Hf) as Hbl.
  unfold _ext2_set_block_of_inode. cbv zeta. rewrite block_len.
  change (1024 / 4) with 256. change (u32 (12 + 256)) with 268.
  destruct (Z.ltb_spec n 12); [lia|]. destruct (Z.ltb_spec n 268); [|lia].
  unfold set_block_top. destruct (zget_is_Some (block (inode d)) 12) as [t Ht]; [rewrite (fo_len _ _ _ _ Hf); lia|].
  returns Ht. assert (ind d = t) as Hi by (unfold ind; by rewrite Ht). rewrite <- Hi.
  unfold _ext2_set_block_of_inode_lev0. destruct (Z.eqb_spec (ind d) 0) as [Hz|Hnz].
  - destruct (allocate_owned s Hao) as (r & s1 & -> & Hao1 & _ & Hlen & Hkeep & Hr). cbn [mbind option_bind].
    destruct r as [b2|].
    2:{ subst s1. exists (- ENOSPC), s, d. split; [done|]. split; [done|]. split; [by split|]. split; [done|].
        split; [done|]. split; [done|]. by right. }
    destruct Hr as (Hb2 & Hnb2 & Hb2r). assert (n = 12) as -> by (pose proof (fo_top_n _ _ _ _ Hf); lia).
    destruct (set_inode_block_spec d 12 b2 (fo_len _ _ _ _ Hf)) as (d2 & E2 & _); [lia|]. returns E2.
    assert (keeps s s1) as Hk1 by (split; [done|]; intros; by apply Hkeep).
    assert (file_ok s1 d 12 f) as Hf1 by (eapply file_ok_keeps; [exact Hf|done|lia]).
    destruct (file_ok_new_top s1 d 12 f b2 d2 Hf1) as (Hf2 & Hi2 & Hs2 & Hbl2); [done|done|lia| |done|].
    { intros k Hk Heq. apply Hnb2. rewrite <- Heq. by apply (fo_owned _ _ _ _ Hf). }
    destruct (enter_indirect s1 d2 12 f b Hao1 Hf2) as (s' & Ew & Hao' & Hk' & Hdata & Hfile);
      [lia|lia|by apply Hkeep|done|congruence|done|].
    rewrite <- Hi2. returns Ew. exists 0, s', d2. split; [done|]. split; [done|].
    split; [split; [destruct Hk' as [-> _]; done|intros b' ?; by apply Hk', Hkeep]|].
    split; [|split; [done|split; [lia|by left]]].
    intros k Hk. rewrite Hdata by done. apply Hkeep. by apply (fo_owned _ _ _ _ Hf).
  - destruct (enter_indirect s d n f b Hao Hf Hn Hnz Hb Hne Hib Hbr) as (s' & Ew & Hao' & Hk' & Hdata & Hfile).
    returns Ew. exists 0, s', d. split; [done|]. split; [done|]. split; [done|]. split; [done|].
    split; [done|]. split; [done|]. by left.
Qed.

(** One more block at the end of the file, or -ENOSPC. *)
Lemma file_grow_spec s d n f : alloc_ok s → file_ok s d n f → n < 268 →
  ∃ r s' d', _ext2_allocate_block_for_inode sb s d 0 = Some (r, s', d') ∧ alloc_ok s' ∧ keeps s s' ∧
    size (inode d') = size (inode d) ∧
    (∀ k, 0 <= k < n → block_at (dev s') (f k) = block_at (dev s) (f k)) ∧
    match r with
    | Some b => file_ok s' d' (n + 1) (entered f n b)
    | None => file_ok s' d' n f
    end.
Proof.
  intros Hao Hf Hn. pose proof (fo_n _ _ _ _ Hf) as Hn0. pose proof (fo_blocks _ _ _ _ Hf) as Hbl.
  unfold _ext2_allocate_block_for_inode.
  destruct (allocate_owned s Hao) as (r & s1 & -> & Hao1 & _ & Hlen & Hkeep & Hr). cbn [mbind option_bind].
  destruct r as [b|].
  2:{ subst s1. exists None, s, d. split; [done|]. split; [done|]. split; [by split|]. done. }
  destruct Hr as (Hb & Hnb & Hbr). rewrite blocks_cnt, Hbl, (Z.mul_comm 2), Z.div_mul by lia.
  assert (keeps s s1) as Hk1 by (split; [done|]; intros; by apply Hkeep).
  assert (∀ k, 0 <= k < n → block_at (dev s1) (f k) = block_at (dev s) (f k)) as Hd1.
  { intros k Hk. apply Hkeep. by apply (fo_owned _ _ _ _ Hf). }
  assert (file_ok s1 d n f) as Hf1.
  { eapply file_ok_keeps; [exact Hf|done|]. intros H12. apply Hkeep.
    destruct (fo_top _ _ _ _ Hf) as [Hz|[? _]]; [by destruct (fo_top_n _ _ _ _ Hf H12)|done]. }
  assert (∀ k, 0 <= k < n → f k ≠ b) as Hne.
  { intros k Hk Heq. apply Hnb. rewrite <- Heq. by apply (fo_owned _ _ _ _ Hf). }
  assert (ind d ≠ b) as Hib.
  { destruct (fo_top _ _ _ _ Hf) as [Hz|[? _]]; [lia|congruence]. }
  rewrite block_len. change (1024 / 512) with 2. destruct (decide (n < 12)).
  - destruct (set_direct_spec s1 d n f b Hao1 Hf1) as (d' & -> & Hsz & Hbl' & Hfile); [done..|].
    cbn [mbind option_bind]. change (0 =? 0) with true. cbv match.
    eexists (Some b), s1, _. split; [done|]. split; [done|]. split; [done|]. split; [done|]. split; [done|].
    apply Hfile; [done|]. cbn. rewrite Hbl'. rewrite u32_small; lia.
  - destruct (set_indirect_spec s1 d n f b Hao1 Hf1) as (err & s' & d' & -> & Hao' & Hk' & Hdata & Hsz & Hbl' & Hr);
      [lia|done..|]. cbn [mbind option_bind].
    assert (keeps s s') as Hk by (split; [destruct Hk' as [-> _]; done|intros b' ?; by apply Hk', Hk1]).
    assert (∀ k, 0 <= k < n → block_at (dev s') (f k) = block_at (dev s) (f k)) as Hd' by
      (intros k Hk0; by rewrite Hdata, Hd1).
    destruct Hr as [[-> Hfile]|[Herr Hfile]].
    + change (0 =? 0) with true. cbv match. eexists (Some b), s', _.
      split; [done|]. split; [done|]. split; [done|]. split; [done|]. split; [done|].
      apply Hfile; [done|]. cbn. rewrite Hbl'. rewrite u32_small; lia.
    + destruct (Z.eqb_spec err 0); [done|]. exists None, s', d'. done.
Qed.

(** ** The bytes of a file *)

(** Byte [x] of the file whose block [k] is [f k]. *)
Definition fbyte (s : fs_t) (f : Z → Z) (x : Z) : option Z := (block_at (dev s) (f (x / 1024))).[x mod 1024].

Lemma block_at_get d b j : valid_block d b → 0 <= j < 1024 → (block_at d b).[j] = d.[1024 * b + j].
Proof. intros Hv Hj. apply block_at_read in Hv as (_ & _ & _ & _ & Hget)%zread_Some. by apply Hget. Qed.

Lemma fbyte_at s f v o : 0 <= o < 1024 → fbyte s f (1024 * v + o) = (block_at (dev s) (f v)).[o].
Proof.
  intros Ho. unfold fbyte. replace (1024 * v + o) with (o + v * 1024) by lia.
  rewrite Z.div_add, Z_mod_plus_full, Z.div_small, Z.mod_small by lia. done.
Qed.

Lemma file_ok_inode s d d2 n f : file_ok s d n f → block (inode d2) = block (inode d) →
  blocks (inode d2) = blocks (inode d) → file_ok s d2 n f.
Proof.
  intros [] Eb Ebs. assert (ind d2 = ind d) as Hi by (unfold ind; by rewrite Eb).
  constructor; rewrite ?Hi, ?Eb, ?Ebs; done.
Qed.

(** Writing into one block of the file. *)
Lemma write_fbyte s d n f v o x d' : alloc_ok s → file_ok s d n f → 0 <= v < n → Forall byte x →
  0 <= o → o + Z.of_nat (length x) <= 1024 → zwrite (dev s) (1024 * f v + o) x = Some d' →
  alloc_ok (with_dev s d') ∧ keeps s (with_dev s d') ∧ file_ok (with_dev s d') d n f ∧
  ∀ y, 0 <= y < 1024 * n → fbyte (with_dev s d') f y =
    if decide (1024 * v + o <= y < 1024 * v + o + Z.of_nat (length x)) then x.[y - (1024 * v + o)] else fbyte s f y.
Proof.
  intros Hao Hf Hv Hx Ho Hle E. pose proof (fo_owned _ _ _ _ Hf v Hv) as Hown. pose proof Hown as (Hvb & _).
  assert (0 <= o ∧ o + Z.of_nat (length x) <= 1024) as Hin by lia.
  assert (keeps s (with_dev s d')) as Hk.
  { split; [by eapply zwrite_length|]. intros b. by apply (write_owned s (f v) o x d' Hown Hin E). }
  split; [by apply (write_alloc_ok s (f v) o x d' Hao Hown Hx Hin E)|]. split; [done|].
  split.
  { eapply file_ok_keeps; [exact Hf|done|]. intros H12. cbn [dev with_dev].
    apply (write_other s (f v) o x d' Hin E). intros Heq.
    destruct (fo_top _ _ _ _ Hf) as [Hz|[_ Hall]]; [by apply (fo_top_n _ _ _ _ Hf)|by apply (Hall v)]. }
  intros y Hy. pose proof (Z.div_mod y 1024 ltac:(lia)) as Hdm. pose proof (Z.mod_pos_bound y 1024 ltac:(lia)) as Hm.
  remember (y / 1024) as q eqn:Hq. remember (y mod 1024) as r eqn:Hr. clear Hq Hr. subst y.
  rewrite !fbyte_at by done. cbn [dev with_dev].
  assert (0 <= q < n) as Hyn by lia. destruct (decide (q = v)) as [->|Hyv].
  - assert (valid_block d' (f v)) as Hvb' by (unfold valid_block in *; by rewrite (zwrite_length _ _ _ _ E)).
    rewrite !block_at_get, (zwrite_get _ _ _ _ _ E) by done.
    repeat case_decide; try lia; [|done]. f_equal. lia.
  - rewrite decide_False by lia. rewrite (write_other s (f v) o x d' Hin E); [done|].
    intros Heq. apply Hyv. by apply (fo_inj _ _ _ _ Hf).
Qed.

(** The data of the blocks there were. *)
Lemma fbyte_entered s s' f n b y : 0 <= y < 1024 * n →
  (∀ k, 0 <= k < n → block_at (dev s') (f k) = block_at (dev s) (f k)) →
  fbyte s' (entered f n b) y = fbyte s f y.
Proof.
  intros Hy Hd. unfold fbyte, entered. assert (0 <= y / 1024 < n) as Hk.
  { split; [apply Z.div_pos; lia|apply Z.div_lt_upper_bound; lia]. }
  rewrite decide_False by lia. by rewrite Hd.
Qed.

Lemma get_bytes_sub m a n b k w : get_bytes m a n = Some b → (k + w <= n)%nat →
  ∃ c, get_bytes m (a + Z.of_nat k) w = Some c ∧ length c = w ∧ ∀ j, 0 <= j < Z.of_nat w → c.[j] = b.[Z.of_nat k + j].
Proof.
  intros Hb Hle. replace n with (k + (w + (n - k - w)))%nat in Hb by lia.
  rewrite get_bytes_app in Hb. apply bind_Some in Hb as (b1 & E1 & Hb).
  rewrite get_bytes_app in Hb. apply bind_Some in Hb as (b2 & E2 & [= <-]).
  apply bind_Some in E2 as (c & Ec & E2). apply bind_Some in E2 as (c2 & Ec2 & [= <-]).
  pose proof (get_bytes_length _ _ _ _ E1) as Hl1. pose proof (get_bytes_length _ _ _ _ Ec) as Hlc.
  exists c. split; [done|]. split; [done|]. intros j Hj. rewrite !zget_app.
  rewrite decide_False by lia. rewrite decide_True by lia. f_equal. lia.
Qed.

Lemma get_bytes_byte m a n b : mem_ok m → get_bytes m a n = Some b → Forall byte b.
Proof.
  intros Hm. revert a b. induction n as [|n IH]; intros a b; simpl; [by intros [= <-]|].
  intros (x & Hx & (b' & E & [= <-])%bind_Some)%bind_Some. constructor; [|by eapply IH].
  unfold byte. by apply (Hm a).
Qed.

Section transfers.
Context `{Platform} (ka : bool) (buf start len : Z) (m : mem).
Hypothesis (Hbuf : user_buffer ka buf len) (Hstart : 0 <= start).

Lemma user_buffer_sub k w : 0 <= k → 0 <= w → k + w <= len → user_buffer ka (buf + k) w ∧ usize (buf + k) = buf + k.
Proof.
  intros Hk Hw Hle. destruct Hbuf as (Hb & Hl & Hend & Hu). split.
  - split; [lia|]. split; [lia|]. split; [lia|]. intros Hka. specialize (Hu Hka). lia.
  - apply usize_small. lia.
Qed.

(** How much is done, and from where in its block the block [v] goes on, when the
    blocks before [v] are done. *)
Definition done_at (total v : Z) : Z := Z.max 0 (Z.min total (1024 * v - start)).
Definition offset_at (v : Z) : Z := if decide (v = start / 1024) then start mod 1024 else 0.

Lemma done_step total v w : start / 1024 <= v → 0 <= total →
  w = Z.min (total - done_at total v) (1024 - offset_at v) →
  0 <= done_at total v ∧ 0 <= w ∧ done_at total v + w = done_at total (v + 1) ∧ done_at total (v + 1) <= total ∧
  0 <= offset_at v < 1024 ∧ offset_at (v + 1) = 0 ∧ (w = 0 ∨ start + done_at total v = 1024 * v + offset_at v).
Proof.
  intros Hv Htot ->. unfold done_at, offset_at. pose proof (Z.div_mod start 1024 ltac:(lia)).
  pose proof (Z.mod_pos_bound start 1024 ltac:(lia)). repeat case_decide; subst; try lia.
Qed.

Lemma done_at_start total : 0 <= total → done_at total (start / 1024) = 0 ∧ offset_at (start / 1024) = start mod 1024.
Proof.
  intros. unfold done_at, offset_at. rewrite decide_True by done.
  pose proof (Z.div_mod start 1024 ltac:(lia)). pose proof (Z.mod_pos_bound start 1024 ltac:(lia)). lia.
Qed.

(** *** Writing *)

Context (data : list Z) (Hmem : mem_ok m) (Hdata : get_bytes m buf (Z.to_nat len) = Some data).

(** What is written into block [v]. *)
Lemma write_chunk s d n f v aw w : alloc_ok s → file_ok s d n f → 0 <= v < n → start / 1024 <= v →
  aw = done_at len v → w = Z.min (len - aw) (1024 - offset_at v) →
  ∃ d', _ext2_user_write_to_dev ka (dev s) (usize (buf + aw)) (u32 (_ext2_get_block_offset sb (f v) + offset_at v)) w m =
      Some (Returned d') ∧
    alloc_ok (with_dev s d') ∧ keeps s (with_dev s d') ∧ file_ok (with_dev s d') d n f ∧
    ∀ y, 0 <= y < 1024 * n → fbyte (with_dev s d') f y =
      if decide (start + aw <= y < start + aw + w) then data.[y - start] else fbyte s f y.
Proof.
  intros Hao Hf Hv Hsv Haw0 Hw0. pose proof Hbuf as (_ & Hl & _).
  destruct (done_step len v w Hsv) as (Haw & Hw & Hnext & Htot & Hoff & _ & Hpos); [lia|by rewrite <- Haw0|].
  rewrite <- Haw0 in *. clear Haw0.
  destruct (user_buffer_sub aw w) as [Hub ->]; [lia..|].
  destruct (fo_owned _ _ _ _ Hf v Hv) as [Hvb Hown].
  rewrite (offset_in_block (dev s) (f v) (offset_at v) (ao_drive s Hao) Hvb Hoff).
  pose proof Hvb as [Hb1 Hb2].
  rewrite user_write_to_dev_spec by (apply (ao_drive s Hao) || done || lia).
  destruct (get_bytes_sub m buf (Z.to_nat len) data (Z.to_nat aw) (Z.to_nat w) Hdata) as (c & Ec & Hlc & Hc); [lia|].
  rewrite Z2Nat.id in Ec by lia. returns Ec.
  destruct (zwrite_is_Some (dev s) (1024 * f v + offset_at v) c) as [d' E]; [lia|lia|]. returns E.
  exists d'. split; [done|].
  destruct (write_fbyte s d n f v (offset_at v) c d' Hao Hf Hv) as (H1 & H2 & H3 & H4);
    [by eapply get_bytes_byte|lia|lia|done|].
  split; [done|]. split; [done|]. split; [done|]. intros y Hy. rewrite H4 by done. rewrite Hlc.
  destruct Hpos as [Hz|Hpos]; [rewrite !decide_False by lia; done|].
  rewrite Z2Nat.id by lia. rewrite Hpos. repeat case_decide; try done; try lia.
  rewrite Hc by lia. rewrite Z2Nat.id by lia. f_equal. lia.
Qed.

(** The state of the write when the blocks before [v] are done; the file had [n] blocks [f] of [s]. *)
Definition write_inv (s : fs_t) (d : dentry_t) (n : Z) (f : Z → Z) (v : Z) (s1 : fs_t) (d1 : dentry_t) : Prop :=
  ∃ f1, alloc_ok s1 ∧ keeps s s1 ∧ file_ok s1 d1 (Z.max n v) f1 ∧ size (inode d1) = size (inode d) ∧
    (∀ y, 0 <= y < 1024 * Z.max n v → start <= y < start + done_at len v → fbyte s1 f1 y = data.[y - start]) ∧
    (∀ y, 0 <= y < 1024 * n → ¬ (start <= y < start + done_at len v) → fbyte s1 f1 y = fbyte s f y).

(** The block [v] of the file: a new one past its end. *)
Lemma write_block_of s d n f v s1 d1 : write_inv s d n f v s1 d1 → 0 <= v < 268 → 0 <= n →
  ∃ r s2 d2, (if n <=? v then _ext2_allocate_block_for_inode sb s1 d1 0
     else b ← _ext2_get_block_of_inode sb s1 d1 v; Some (Some b, s1, d1)) = Some (r, s2, d2) ∧
    match r with
    | None => ∃ f2, alloc_ok s2 ∧ keeps s s2 ∧ file_ok s2 d2 (Z.max n v) f2 ∧ size (inode d2) = size (inode d) ∧
        ∀ y, 0 <= y < 1024 * n → ¬ (start <= y < start + len) → fbyte s2 f2 y = fbyte s f y
    | Some b => ∃ f2, b = f2 v ∧ alloc_ok s2 ∧ keeps s s2 ∧ file_ok s2 d2 (Z.max n (v + 1)) f2 ∧
        size (inode d2) = size (inode d) ∧
        (∀ y, 0 <= y < 1024 * Z.max n v → start <= y < start + done_at len v → fbyte s2 f2 y = data.[y - start]) ∧
        (∀ y, 0 <= y < 1024 * n → ¬ (start <= y < start + done_at len v) → fbyte s2 f2 y = fbyte s f y)
    end.
Proof.
  intros (f1 & Hao1 & Hk1 & Hf1 & Hsz & Hnew & Hold) Hv Hn. destruct (Z.leb_spec n v).
  - assert (Z.max n v = v) as Em by lia. rewrite Em in *.
    destruct (file_grow_spec s1 d1 v f1 Hao1 Hf1) as (r & s2 & d2 & -> & Hao2 & Hk2 & Hsz2 & Hd2 & Hr); [lia|].
    assert (keeps s s2) as Hk by (split; [destruct Hk2 as [-> _]; apply Hk1|intros b ?; by apply Hk2, Hk1]).
    exists r, s2, d2. split; [done|]. destruct r as [b|].
    + exists (entered f1 v b). split; [unfold entered; by rewrite decide_True|]. split; [done|]. split; [done|].
      rewrite Z.max_r by lia. split; [done|]. split; [congruence|]. split.
      * intros y Hy Hd. rewrite (fbyte_entered s1 s2 f1 v b) by done. by apply Hnew.
      * intros y Hy Hd. rewrite (fbyte_entered s1 s2 f1 v b) by (done || lia). by apply Hold.
    + exists f1. split; [done|]. split; [done|]. split; [done|]. split; [congruence|].
      intros y Hy Hd. rewrite <- (Hold y Hy) by (unfold done_at in *; lia).
      unfold fbyte. rewrite Hd2; [done|]. split; [apply Z.div_pos; lia|apply Z.div_lt_upper_bound; lia].
  - rewrite (Z.max_l n (v + 1)) by lia. assert (Z.max n v = n) as Em by lia. rewrite Em in *.
    rewrite (get_block_spec s1 d1 n f1 v) by (done || lia). cbn [mbind option_bind].
    exists (Some (f1 v)), s1, d1. split; [done|]. exists f1. done.
Qed.

Section write.
Context (s : fs_t) (d : dentry_t) (n : Z) (f : Z → Z).
Context (Hao : alloc_ok s) (Hf : file_ok s d n f) (Hstart2 : start <= 1024 * n) (Hend : start + len < 1024 * 268).

(** One round of the loop. *)
Lemma write_round v s1 d1 : start / 1024 <= v <= (start + len) / 1024 → write_inv s d n f v s1 d1 →
  ∃ r s2 d2, (if n <=? v then _ext2_allocate_block_for_inode sb s1 d1 0
     else b ← _ext2_get_block_of_inode sb s1 d1 v; Some (Some b, s1, d1)) = Some (r, s2, d2) ∧
    match r with
    | None => ∃ n2 f2, alloc_ok s2 ∧ file_ok s2 d2 n2 f2 ∧ n <= n2 ∧ size (inode d2) = size (inode d) ∧
        ∀ y, 0 <= y < 1024 * n → ¬ (start <= y < start + len) → fbyte s2 f2 y = fbyte s f y
    | Some b => ∃ dv, _ext2_user_write_to_dev ka (dev s2) (usize (buf + done_at len v))
          (u32 (_ext2_get_block_offset sb b + offset_at v)) (Z.min (len - done_at len v) (1024 - offset_at v)) m =
          Some (Returned dv) ∧ write_inv s d n f (v + 1) (with_dev s2 dv) d2
    end.
Proof.
  intros Hv Hinv. pose proof (fo_n _ _ _ _ Hf) as Hn. pose proof Hbuf as (_ & Hl & _).
  assert (0 <= v < 268) as Hv268.
  { split; [pose proof (Z.div_pos start 1024); lia|].
    assert ((start + len) / 1024 < 268) by (apply Z.div_lt_upper_bound; lia). lia. }
  destruct (write_block_of s d n f v s1 d1 Hinv Hv268) as (r & s2 & d2 & -> & Hr); [lia|].
  exists r, s2, d2. split; [done|]. destruct r as [b|].
  - destruct Hr as (f2 & -> & Hao2 & Hk2 & Hf2 & Hsz2 & Hnew & Hold).
    destruct (done_step len v _ ltac:(lia) ltac:(lia) eq_refl) as (Haw & Hw & Hnext & Htot & Hoff & _ & Hpos).
    destruct (write_chunk s2 d2 (Z.max n (v + 1)) f2 v _ _ Hao2 Hf2 ltac:(lia) ltac:(lia) eq_refl eq_refl)
      as (dv & -> & Hao3 & Hk3 & Hf3 & Hbytes).
    exists dv. split; [done|]. exists f2. split; [done|].
    split; [split; [destruct Hk3 as [-> _]; apply Hk2|intros b ?; by apply Hk3, Hk2]|].
    split; [done|]. split; [done|]. rewrite <- Z.add_assoc, Hnext in Hbytes. split.
    + intros y Hy Hd. rewrite Hbytes by done. case_decide; [done|]. apply Hnew; [|lia].
      split; [lia|]. assert (y < start + done_at len v) by lia. unfold done_at in *. lia.
    + intros y Hy Hd. rewrite Hbytes by lia. rewrite decide_False by lia. apply Hold; [done|lia].
  - destruct Hr as (f2 & Hao2 & Hk2 & Hf2 & Hsz2 & Hold). exists (Z.max n v), f2.
    split; [done|]. split; [done|]. split; [lia|]. done.
Qed.

Lemma file_write_spec now :
  ∃ r s' d' n' f', ext2_write sb ka s d buf start len now m = Some (Returned (r, s', d')) ∧
    alloc_ok s' ∧ file_ok s' d' n' f' ∧ n <= n' ∧
    (∀ y, 0 <= y < 1024 * n → ¬ (start <= y < start + len) → fbyte s' f' y = fbyte s f y) ∧
    (r = len ∧ start + len <= 1024 * n' ∧ size (inode d') = Z.max (size (inode d)) (start + len) ∧
       dirty d' = true ∧ (∀ i, 0 <= i < len → fbyte s' f' (start + i) = data.[i]) ∨
     r = - ENOSPC ∧ size (inode d') = size (inode d)).
Proof.
  pose proof (fo_n _ _ _ _ Hf) as Hn. pose proof Hbuf as (_ & Hl & _). pose proof ptr_bits_ge as Hpb.
  unfold ext2_write. cbv zeta. rewrite block_len, blocks_cnt, (fo_blocks _ _ _ _ Hf), (Z.mul_comm 2), Z.div_mul by lia.
  rewrite (usize_small (start + len)) by lia.
  assert (0 <= start / 1024 <= (start + len) / 1024) as Hdiv.
  { split; [apply Z.div_pos; lia|apply Z.div_le_mono; lia]. }
  assert ((start + len) / 1024 < 268) as Hdiv2 by (apply Z.div_lt_upper_bound; lia).
  rewrite !(u32_small (_ / 1024)), (u32_small len) by lia.
  match goal with |- context [for_loop ?nn ?i0 ?g ?s0] =>
    destruct (for_loop_total (λ v '(tw, wo, aw, s1, d1), tw = len - aw ∧ wo = offset_at v ∧ aw = done_at len v ∧
        write_inv s d n f v s1 d1)
      (λ r, ∃ s' d' n' f', r = Returned (- ENOSPC, s', d') ∧ alloc_ok s' ∧ file_ok s' d' n' f' ∧ n <= n' ∧
        size (inode d') = size (inode d) ∧
        ∀ y, 0 <= y < 1024 * n → ¬ (start <= y < start + len) → fbyte s' f' y = fbyte s f y)
      g nn i0 s0) as (x & -> & Hx) end.
  - destruct (done_at_start len) as [E1 E2]; [lia|]. rewrite E1, E2. split; [lia|]. split; [done|]. split; [done|].
    exists f. rewrite Z.max_l by (pose proof (Z.div_mod start 1024); pose proof (Z.mod_pos_bound start 1024); lia).
    split; [done|]. split; [by split|]. split; [done|]. split; [done|]. split; [intros; lia|]. done.
  - intros v [[[[tw wo] aw] s1] d1] Hv (-> & -> & -> & Hinv).
    destruct (write_round v s1 d1 ltac:(lia) Hinv) as (r & s2 & d2 & -> & Hr). cbn [mbind option_bind].
    destruct r as [b|].
    + destruct Hr as (dv & -> & Hinv'). cbn [mbind option_bind].
      destruct (done_step len v _ ltac:(lia) ltac:(lia) eq_refl) as (Haw & Hw & Hnext & Htot & Hoff & Hoff' & Hpos).
      split; [lia|]. split; [done|]. split; [lia|done].
    + destruct Hr as (n2 & f2 & Hr). exists s2, d2, n2, f2. split; [done|]. tauto.
  - cbn [mbind option_bind]. destruct x as [[[[[tw wo] aw] s1] d1]|r].
    + destruct Hx as (_ & _ & -> & f1 & Hao1 & _ & Hf1 & Hsz & Hnew & Hold).
      replace (start / 1024 + Z.of_nat (Z.to_nat ((start + len) / 1024 - start / 1024 + 1)))
        with ((start + len) / 1024 + 1) in * by lia.
      assert (done_at len ((start + len) / 1024 + 1) = len) as Ed.
      { unfold done_at. pose proof (Z.div_mod (start + len) 1024). pose proof (Z.mod_pos_bound (start + len) 1024). lia. }
      rewrite Ed in *.
      assert (start + len <= 1024 * Z.max n ((start + len) / 1024 + 1)) as Hcov.
      { pose proof (Z.div_mod (start + len) 1024). pose proof (Z.mod_pos_bound (start + len) 1024). lia. }
      eexists _, s1, _, (Z.max n ((start + len) / 1024 + 1)), f1. split; [done|]. split; [done|]. split; [|split; [lia|split; [done|left]]].
      { eapply file_ok_inode; [exact Hf1|by case_match|by case_match]. }
      split; [apply s32_small; lia|]. split; [done|]. split; [|split; [done|]].
      * cbn [inode set_dirty with_inode set_mtime size]. rewrite Hsz. destruct (Z.ltb_spec (size (inode d)) (start + len)).
        -- cbn [size set_size]. rewrite u32_small by lia. lia.
        -- rewrite Hsz. lia.
      * intros i Hi. rewrite Hnew by lia. f_equal. lia.
    + destruct Hx as (s' & d' & n' & f' & -> & ?). exists (- ENOSPC), s', d', n', f'. split; [done|]. tauto.
Qed.
End write.
End transfers.

(** *** Reading *)

Lemma put_bytes_total m a b : mapped m a (Z.of_nat (length b)) →
  ∃ m', put_bytes m a b = Some m' ∧ ∀ x n, mapped m x n → mapped m' x n.
Proof.
  revert m a. induction b as [|y b IH]; intros m a Hm; simpl; [by exists m|].
  rewrite mset_mapped by (apply Hm; simpl; lia). cbn [mbind option_bind].
  destruct (IH (<[a := y]> m) (a + 1)) as (m' & -> & Hk).
  { apply mapped_insert. intros x Hx. apply Hm. simpl. lia. }
  exists m'. split; [done|]. intros x n Hx. apply Hk. by apply mapped_insert.
Qed.

Section reading.
Context `{Platform} (ka : bool) (buf start len : Z) (m : mem).
Hypothesis (Hbuf : user_buffer ka buf len) (Hstart : 0 <= start) (Hmapped : mapped m buf len).
Context (s : fs_t) (d : dentry_t) (n : Z) (f : Z → Z) (Hdrive : drive_ok (dev s)) (Hf : file_data s d n f).

(** The bytes read so far are in the buffer. *)
Definition read_inv (aw : Z) (m1 : mem) : Prop := ∃ data, Z.of_nat (length data) = aw ∧
  (∀ i, 0 <= i < aw → data.[i] = fbyte s f (start + i)) ∧ put_bytes m buf data = Some m1 ∧
  ∀ x k, mapped m x k → mapped m1 x k.

Lemma read_round v m1 : start / 1024 <= v < blocks (inode d) / 2 → start + len <= 1024 * n →
  read_inv (done_at start len v) m1 →
  ∃ b m2, _ext2_get_block_of_inode sb s d v = Some b ∧
    _ext2_user_read_from_dev ka (dev s) (usize (buf + done_at start len v))
      (u32 (_ext2_get_block_offset sb b + offset_at start v))
      (Z.min (len - done_at start len v) (1024 - offset_at start v)) m1 = Some (Returned m2) ∧
    read_inv (done_at start len (v + 1)) m2.
Proof.
  intros Hv Hin (data & Hld & Hdata & Hput & Hmap). pose proof Hbuf as (_ & Hl & _).
  assert (0 <= start / 1024) by (apply Z.div_pos; lia).
  destruct (file_data_block s d n f v Hdrive Hf) as (fv & -> & Hfv); [lia|].
  destruct (done_step start len v _ ltac:(lia) ltac:(lia) eq_refl) as (Haw & Hw & Hnext & Htot & Hoff & _ & Hpos).
  remember (done_at start len v) as aw eqn:Eaw. remember (Z.min (len - aw) (1024 - offset_at start v)) as w eqn:Ew.
  destruct (user_buffer_sub ka buf len Hbuf aw w) as [Hub ->]; [lia..|]. exists fv.
  destruct (decide (v < n)) as [Hvn|Hvn].
  2:{ assert (w = 0) as Hw0 by (unfold done_at in Eaw; lia). exists m1. split; [done|]. rewrite Hw0.
      split; [done|]. exists data. rewrite <- Hnext, Hw0, Z.add_0_r. done. }
  destruct (Hfv Hvn) as [-> Hvb].
  rewrite (offset_in_block (dev s) (f v) (offset_at start v) Hdrive Hvb Hoff).
  destruct (zread_is_Some (dev s) (1024 * f v + offset_at start v) w) as [b Hb].
  { destruct Hvb. lia. } { lia. } { destruct Hvb. lia. }
  rewrite (user_read_from_dev_spec ka (dev s) (buf + aw) _ w m1 b) by (apply Hdrive || done || (destruct Hvb; lia)).
  pose proof Hb as (_ & _ & _ & Hlb & Hget)%zread_Some.
  destruct (put_bytes_total m1 (buf + aw) b) as (m2 & E2 & Hmap2).
  { rewrite Hlb. eapply mapped_sub; [by apply Hmap|lia|lia]. }
  returns E2. exists m2. split; [done|]. split; [done|]. exists (data ++ b).
  split; [rewrite length_app; lia|]. split; [|split].
  - intros i Hi. rewrite zget_app. case_decide; [apply Hdata; lia|]. rewrite Hget by lia.
    destruct Hpos as [|Hpos]; [lia|].
    replace (start + i) with (1024 * v + (offset_at start v + (i - aw))) by lia.
    rewrite fbyte_at by lia. rewrite block_at_get by (done || lia). f_equal. lia.
  - rewrite put_bytes_app, Hput. cbn [mbind option_bind]. by rewrite Hld.
  - intros x k Hx. by apply Hmap2, Hmap.
Qed.

Lemma file_read_spec want : start < size (inode d) → size (inode d) <= 1024 * n → 0 < want → start + want < 2 ^ 31 →
  len = Z.min want (size (inode d) - start) →
  ∃ data m', ext2_read sb ka s d buf start want m = Some (Returned (len, m')) ∧
    put_bytes m buf data = Some m' ∧ Z.of_nat (length data) = len ∧
    ∀ i, 0 <= i < len → data.[i] = fbyte s f (start + i).
Proof.
  intros Hlt Hsz Hwant Hend Hlen. pose proof (fd_blocks _ _ _ _ Hf) as Hn. pose proof (fd_size _ _ _ _ Hf) as Hsize. pose proof ptr_bits_ge as Hpb.
  unfold ext2_read. cbv zeta. rewrite block_len, blocks_cnt.
  remember (blocks (inode d) / 2) as c eqn:Ec. assert (n <= c < 2 ^ 30) as Hc by (Z.div_mod_to_equations; lia).
  destruct (Z.leb_spec (size (inode d)) start); [lia|].
  rewrite (usize_small (start + want - 1)), (usize_small (size (inode d) - start)) by lia. rewrite <- Hlen.
  assert (0 <= start / 1024 < n) as Hs by (split; [apply Z.div_pos; lia|apply Z.div_lt_upper_bound; lia]).
  assert (start / 1024 <= (start + want - 1) / 1024 < 2 ^ 31) as He.
  { split; [apply Z.div_le_mono; lia|apply Z.div_lt_upper_bound; lia]. }
  rewrite (u32_small (c - 1)), (u32_small (start / 1024)), (u32_small len), (u32_small (Z.min _ _)) by lia.
  remember (Z.min ((start + want - 1) / 1024) (c - 1)) as e eqn:Ee.
  match goal with |- context [for_loop ?nn ?i0 ?g ?s0] =>
    destruct (for_loop_total (λ v '(tr, wo, aw, m1), tr = len - aw ∧ wo = offset_at start v ∧
        aw = done_at start len v ∧ read_inv aw m1) (λ _, False) g nn i0 s0) as (x & -> & Hx) end.
  - destruct (done_at_start start len) as [E1 E2]; [lia|]. rewrite E1, E2. split; [lia|]. split; [done|]. split; [done|].
    exists []. split; [done|]. split; [intros; lia|]. done.
  - intros v [[[tr wo] aw] m1] Hv (-> & -> & -> & Hinv).
    destruct (read_round v m1 ltac:(lia) ltac:(lia) Hinv) as (b & m2 & -> & E2 & Hinv'). cbn [mbind option_bind]. returns E2.
    destruct (done_step start len v _ ltac:(lia) ltac:(lia) eq_refl) as (Haw & Hw & Hnext & Htot & Hoff & Hoff' & Hpos).
    split; [lia|]. split; [done|]. split; [lia|]. by rewrite Hnext.
  - cbn [mbind option_bind]. destruct x as [[[[tr wo] aw] m1]|[]]; [|done].
    destruct Hx as (_ & _ & -> & Hinv).
    replace (start / 1024 + Z.of_nat (Z.to_nat (e - start / 1024 + 1))) with (e + 1) in * by lia.
    assert (done_at start len (e + 1) = len) as Ed.
    { unfold done_at. pose proof (Z.div_mod (start + want - 1) 1024).
      pose proof (Z.mod_pos_bound (start + want - 1) 1024). lia. }
    rewrite Ed in *. destruct Hinv as (data & Hld & Hdata & Hput & _). exists data, m1.
    split; [|done]. rewrite s32_small by lia. done.
Qed.
End reading.
End spec.

(** ** Inodes *)

Section inodes.
Context (sb : superblock_t) (Hlog : log_block_size sb = 0).

(** The tables of inodes lie on the drive and do not overlap. *)
Record tables_ok (s : fs_t) : Prop := {
  table_in i g : (gt s).[i] = Some g →
    1 <= inode_table g ∧ 1024 * inode_table g + INODE_LEN * inodes_per_group sb <= Z.of_nat (length (dev s));
  table_apart i j g h : (gt s).[i] = Some g → (gt s).[j] = Some h → i ≠ j →
    1024 * inode_table g + INODE_LEN * inodes_per_group sb <= 1024 * inode_table h ∨
    1024 * inode_table h + INODE_LEN * inodes_per_group sb <= 1024 * inode_table g;
}.

(** Where inode [n] lies. *)
Definition inode_at (s : fs_t) (n a : Z) : Prop := ∃ g,
  (gt s).[(n - 1) / inodes_per_group sb] = Some g ∧
  a = 1024 * inode_table g + INODE_LEN * ((n - 1) mod inodes_per_group sb).

Definition inode_number (s : fs_t) (n : Z) : Prop := 1 <= n <= inodes_per_group sb * Z.of_nat (length (gt s)).

Lemma inode_at_ex s n : fs_ok sb s → tables_ok s → inode_number s n →
  ∃ a, inode_at s n a ∧ inode_start sb s n = Some a ∧ 1024 <= a ∧ a + INODE_LEN <= Z.of_nat (length (dev s)).
Proof.
  intros Hs Ht Hn. pose proof (fs_per_inodes sb s Hs) as Hper. pose proof (fs_groups sb s Hs) as Hgs.
  pose proof (fs_drive sb s Hs) as Hd. unfold inode_number in Hn. set (per := inodes_per_group sb) in *.
  destruct (zget_is_Some (gt s) ((n - 1) / per)) as [g Hg].
  { split; [apply Z.div_pos; lia|apply Z.div_lt_upper_bound; lia]. }
  pose proof (Z.mod_pos_bound (n - 1) per ltac:(lia)) as Hm.
  destruct (table_in s Ht _ g Hg) as [Ht1 Ht2]. fold per in Ht2. unfold INODE_LEN in *.
  assert (drive_ok (dev s)) as [[_ Hmax] _] by done.
  exists (1024 * inode_table g + 128 * ((n - 1) mod per)).
  split; [exists g; split; done|]. split; [|split; [lia|lia]].
  unfold inode_start, INODE_LEN. fold per. destruct (Z.eqb_spec per 0); [lia|]. rewrite (u32_small (n - 1)) by nia.
  rewrite Hg. cbn [mbind option_bind]. f_equal.
  unfold _ext2_get_block_offset, SUPERBLOCK_START. rewrite (BLOCK_LEN_1024 sb Hlog).
  rewrite (u32_small (inode_table g - 1)), (u32_small ((inode_table g - 1) * 1024)), (u32_small (1024 + _)) by lia.
  rewrite (u32_small (_ * 128)) by lia. rewrite u32_small by lia. lia.
Qed.

Lemma inode_at_apart s n n' a a' : fs_ok sb s → tables_ok s → inode_at s n a → inode_at s n' a' → n ≠ n' →
  a + INODE_LEN <= a' ∨ a' + INODE_LEN <= a.
Proof.
  intros Hs Ht (g & Hg & ->) (g' & Hg' & ->) Hne. pose proof (fs_per_inodes sb s Hs) as Hper.
  set (per := inodes_per_group sb) in *.
  pose proof (Z.mod_pos_bound (n - 1) per ltac:(lia)). pose proof (Z.mod_pos_bound (n' - 1) per ltac:(lia)).
  pose proof (Z.div_mod (n - 1) per ltac:(lia)). pose proof (Z.div_mod (n' - 1) per ltac:(lia)).
  unfold INODE_LEN. destruct (decide ((n - 1) / per = (n' - 1) / per)) as [Heq|Hgne].
  - rewrite Heq in *. assert (g' = g) as -> by congruence.
    assert ((n - 1) mod per ≠ (n' - 1) mod per) by (intros E; apply Hne; lia). lia.
  - destruct (table_apart s Ht _ _ g g' Hg Hg' Hgne) as [Hap|Hap]; unfold INODE_LEN in Hap; fold per in Hap; lia.
Qed.

Lemma inode_read_spec s d a : fs_ok sb s → tables_ok s → inode_at s (inode_indx d) a → inode_number s (inode_indx d) →
  ext2_read_inode sb s d = b ← zread (dev s) a INODE_LEN; i ← inode_of b; Some (with_inode d i).
Proof.
  intros Hs Ht (g & Hg & Ha) Hn. destruct (inode_at_ex s _ Hs Ht Hn) as (a' & (g' & Hg' & Ha') & E & ? & ?).
  assert (a' = a) as -> by congruence. unfold ext2_read_inode. rewrite E. cbn [mbind option_bind].
  rewrite read_from_dev_spec; [done|apply (fs_drive sb s Hs)|lia|done|done].
Qed.
Lemma inode_write_spec s d :
  fs_ok sb s → tables_ok s → inode_ok (inode d) → inode_number s (inode_indx d) →
  ∃ s', ext2_write_inode sb s d = Some s' ∧ gt s' = gt s ∧
    (∀ d', inode_indx d' = inode_indx d → ext2_read_inode sb s' d' = Some (with_inode d' (inode d))) ∧
    (∀ d', inode_number s (inode_indx d') → inode_indx d' ≠ inode_indx d →
       ext2_read_inode sb s' d' = ext2_read_inode sb s d') ∧
    (∀ b, (∀ i g, (gt s).[i] = Some g → 1024 * (b + 1) <= 1024 * inode_table g ∨
             1024 * inode_table g + INODE_LEN * inodes_per_group sb <= 1024 * b) →
       block_at (dev s') b = block_at (dev s) b).
Proof.
  intros Hs Ht Hi Hn. pose proof (length_inode_bytes _ Hi) as Hlb. pose proof (fs_drive sb s Hs) as Hd.
  destruct (inode_at_ex s _ Hs Ht Hn) as (a & Hat & E & Ha1 & Ha2). unfold INODE_LEN in Ha2.
  unfold ext2_write_inode. rewrite E. cbn [mbind option_bind]. rewrite write_to_dev_spec by (apply Hd || lia).
  destruct (zwrite_is_Some (dev s) a (inode_bytes (inode d))) as [d1 E1]; [lia|lia|]. returns E1.
  exists (with_dev s d1). split; [done|]. split; [done|].
  assert (Hrd : ∀ d' a', inode_at s (inode_indx d') a' → inode_number s (inode_indx d') →
    ext2_read_inode sb (with_dev s d1) d' = b ← zread d1 a' INODE_LEN; i ← inode_of b; Some (with_inode d' i)).
  { intros d' a' (g & Hg & Ha') Hn'. destruct (inode_at_ex s _ Hs Ht Hn') as (a2 & (g2 & Hg2 & Ha2') & E2 & ? & ?).
    assert (a2 = a') as -> by congruence. unfold ext2_read_inode.
    change (inode_start sb (with_dev s d1) (inode_indx d')) with (inode_start sb s (inode_indx d')). rewrite E2.
    cbn [mbind option_bind dev with_dev]. pose proof (zwrite_length _ _ _ _ E1) as Hl1.
    rewrite read_from_dev_spec; [done|eapply disk_ok_write; [apply Hd|exact E1]|lia|unfold INODE_LEN; lia|by rewrite Hl1]. }
  split; [|split].
  - intros d' Heq. rewrite (Hrd d' a) by (by rewrite Heq).
    rewrite (zread_zwrite_same _ _ _ _ _ E1) by (by rewrite Hlb). cbn [mbind option_bind].
    by rewrite inode_of_bytes.
  - intros d' Hn' Hne. destruct (inode_at_ex s _ Hs Ht Hn') as (a' & Hat' & _).
    rewrite (Hrd d' a' Hat' Hn'), (inode_read_spec s d' a' Hs Ht Hat' Hn').
    rewrite (zread_zwrite_other _ _ _ _ _ _ E1); [done|]. rewrite Hlb.
    destruct (inode_at_apart s _ _ a' a Hs Ht Hat' Hat Hne) as [Hap|Hap]; unfold INODE_LEN in *; lia.
  - intros b Hb. cbn [dev with_dev]. apply (block_at_outside _ _ _ _ _ E1). rewrite Hlb.
    destruct Hat as (g & Hg & ->). pose proof (fs_per_inodes sb s Hs).
    pose proof (Z.mod_pos_bound (inode_indx d - 1) (inodes_per_group sb) ltac:(lia)).
    destruct (Hb _ g Hg) as [|]; unfold INODE_LEN in *; lia.
Qed.

Lemma inode_write_drive s d s' : fs_ok sb s → tables_ok s → inode_ok (inode d) → inode_number s (inode_indx d) →
  ext2_write_inode sb s d = Some s' → drive_ok (dev s') ∧ length (dev s') = length (dev s).
Proof.
  intros Hs Ht Hi Hn E. pose proof (fs_drive sb s Hs) as Hd. pose proof (length_inode_bytes _ Hi) as Hlb.
  destruct (inode_at_ex s _ Hs Ht Hn) as (a & _ & Ea & Ha1 & Ha2). unfold INODE_LEN in Ha2.
  unfold ext2_write_inode in E. rewrite Ea in E. cbn [mbind option_bind] in E.
  rewrite write_to_dev_spec in E by (apply Hd || lia). apply bind_Some in E as (d1 & E1 & [= <-]).
  split; [eapply drive_ok_write; [done|apply pack_byte|exact E1]|by eapply zwrite_length].
Qed.
End inodes.

(** ** Properties *)

Section properties.
Context (sb : superblock_t).

(** An inode that is written is read back as it was, with all its fields,
    and writing it changes no other inode of the drive and no block outside the
    tables of inodes. *)
Theorem ext2_inode_roundtrip s d :
  log_block_size sb = 0 → fs_ok sb s → tables_ok sb s → inode_ok (inode d) → inode_number sb s (inode_indx d) →
  ∃ s', ext2_write_inode sb s d = Some s' ∧ gt s' = gt s ∧
    (∀ d', inode_indx d' = inode_indx d → ext2_read_inode sb s' d' = Some (with_inode d' (inode d))) ∧
    (∀ d', inode_number sb s (inode_indx d') → inode_indx d' ≠ inode_indx d →
       ext2_read_inode sb s' d' = ext2_read_inode sb s d') ∧
    (∀ b, (∀ i g, (gt s).[i] = Some g → 1024 * (b + 1) <= 1024 * inode_table g ∨
             1024 * inode_table g + INODE_LEN * inodes_per_group sb <= 1024 * b) →
       block_at (dev s') b = block_at (dev s) b).
Proof. intros Hlog. by apply inode_write_spec. Qed.

Context `{Platform} (ka : bool).


(** C15. Reading a file, of any length, by its direct pointers and by those of one,
    two and three levels ([file_walk], a walk of its own), in blocks of 1 KiB.
    [ext2_read] gives the bytes of the file from [start] on, as many as are asked
    for and are there: they are copied into the user's buffer and counted. From
    the end of the file on it gives none. The file has no holes; the count of the
    inode may include blocks of pointers, as other systems count. *)
Theorem ext2_read_bytes s d n f buf start want m :
  let len := Z.min want (size (inode d) - start) in
  log_block_size sb = 0 → drive_ok (dev s) → file_data s d n f → size (inode d) <= 1024 * n →
  0 <= start → 0 < want → start + want < 2 ^ 31 →
  (start < size (inode d) → user_buffer ka buf len ∧ mapped m buf len) →
  if size (inode d) <=? start then ext2_read sb ka s d buf start want m = Some (Returned (0, m)) else
  ∃ data m', ext2_read sb ka s d buf start want m = Some (Returned (len, m')) ∧
    put_bytes m buf data = Some m' ∧ Z.of_nat (length data) = len ∧
    ∀ i, 0 <= i < len → data.[i] = fbyte s f (start + i).
Proof.
  intros len Hlog Hd Hf Hsz Hs Hw Hend Hbuf. destruct (Z.leb_spec (size (inode d)) start).
  - unfold ext2_read. cbv zeta. by destruct (Z.leb_spec (size (inode d)) start); [|lia].
  - destruct Hbuf as [Hub Hm]; [done|]. by eapply file_read_spec.
Qed.
End properties.

(** ** Examples *)

(** A drive of 32 blocks: the bitmaps in blocks 3 and 4, 16 inodes in blocks 5 and
    6, the first ten blocks taken; a file of the blocks 9 and 10. *)
Definition file_group : group_desc_t := Build_group_desc_t 3 4 5 21 16 0 0 0.
Definition file_sb : superblock_t :=
  Build_superblock_t 16 32 0 21 16 1 0 0 8192 8192 16 0 0 0 0 0xEF53 1 1 0 0 0 0 0 0 0
    11 128 0 0 0 0 0 0 0 0 0 0 0.
Definition file_bitmap : list Z := [255; 3; 0; 128] ++ replicate 1020 255.
Definition file_drive : disk :=
  replicate 3072 0 ++ file_bitmap ++ replicate (5 * 1024) 0 ++ replicate 1024 65 ++ replicate 1024 66 ++ replicate (21 * 1024) 0.
Definition file_fs : fs_t := {| dev := file_drive; gt := [file_group] |}.
Definition file_inode : inode_t :=
  Build_inode_t 0x81ff 0 2000 0 0 0 0 0 1 4 0 0 ([9; 10] ++ replicate 13 0) 0 0 0 0 0.
Definition file_dentry : dentry_t := {| d_count := 1; inode_indx := 12; inode := file_inode; dirty := false |}.
Definition file_blocks (k : Z) : Z := 9 + k.

Lemma file_drive_length : Z.of_nat (length file_drive) = 32768.
Proof. vm_compute. reflexivity. Qed.
Lemma file_drive_ok : drive_ok file_drive.
Proof.
  split; [split; rewrite file_drive_length; [done|lia]|]. unfold file_drive, file_bitmap, byte.
  rewrite !Forall_app, !Forall_cons. split_and!; try apply Forall_replicate; try done; lia.
Qed.
Lemma file_group_ok : group_ok file_group.
Proof.
  unfold group_ok, values_ok, group_widths, group_values.
  repeat (apply Forall2_cons; split; [vm_compute; split; [discriminate|reflexivity]|]). constructor.
Qed.
(** The taken blocks, by computation over all of the group. *)
Lemma file_bits : forallb (λ o, Bool.eqb (bit file_bitmap o) ((o <=? 9) || (31 <=? o))) (seqZ 0 8192) = true.
Proof. vm_compute. reflexivity. Qed.

(** Any drive of 32 blocks with this bitmap will do. *)
Section example.
Context (d : disk) (Hd : drive_ok d) (Hl : Z.of_nat (length d) = 32768) (Hb : block_at d 3 = file_bitmap).
Abbreviation fs := {| dev := d; gt := [file_group] |}.

Lemma drive_fs_ok : fs_ok file_sb fs.
Proof.
  constructor; [done|done|simpl; lia|simpl; lia| |].
  - intros i g [-> ->]%zget_one. split; [apply file_group_ok|].
    unfold valid_block. cbn [dev]. rewrite Hl. simpl. lia.
  - intros i j g h [-> ->]%zget_one [-> ->]%zget_one. simpl. lia.
Qed.

Lemma drive_used b : 1 <= b <= 8192 → used block_bitmap 8192 fs b = (b <=? 10) || (32 <=? b).
Proof.
  intros Hr. unfold used. cbn [gt dev]. replace ((b - 1) / 8192) with 0 by (symmetry; apply Z.div_small; lia).
  rewrite Z.mod_small by lia. change ([file_group].[0]) with (Some file_group). cbv match.
  change (block_bitmap file_group) with 3. rewrite Hb.
  pose proof file_bits as Hall. rewrite forallb_forall in Hall.
  specialize (Hall (b - 1)). rewrite <- list_elem_of_In, elem_of_seqZ in Hall.
  specialize (Hall ltac:(lia)). apply Bool.eqb_prop in Hall. rewrite Hall. f_equal; lia.
Qed.

Lemma drive_is_bitmap b : is_bitmap fs b → b = 3 ∨ b = 4.
Proof. intros (i & g & [-> ->]%zget_one & [<-|<-]); simpl; lia. Qed.

Lemma drive_alloc_ok : alloc_ok file_sb fs.
Proof.
  constructor; [apply drive_fs_ok| |].
  - intros i g [-> ->]%zget_one. cbn [dev]. change (block_bitmap file_group) with 3. rewrite Hb. vm_compute. reflexivity.
  - intros b Hr Hu. cbn [gt length] in Hr. rewrite drive_used in Hu by lia.
    apply orb_false_iff in Hu as [H1 H2]. apply Z.leb_gt in H1, H2.
    unfold valid_block. cbn [dev]. rewrite Hl. split; [lia|].
    intros [|]%drive_is_bitmap; lia.
Qed.

Lemma drive_file_ok e : block (inode e) = [9; 10] ++ replicate 13 0 → blocks (inode e) = 4 →
  file_ok fs e 2 file_blocks.
Proof.
  intros Eb En. unfold file_blocks.
  constructor; [by rewrite Eb|lia|done| |intros; lia| |intros; lia|left; unfold ind; by rewrite Eb|intros; lia].
  - intros k Hk _. rewrite Eb. assert (k = 0 ∨ k = 1) as [-> | ->] by lia; done.
  - intros k Hk. unfold owned, valid_block. cbn [dev gt length]. rewrite Hl, drive_used by lia.
    split; [lia|]. split; [lia|]. split; [lia|]. intros [|]%drive_is_bitmap; lia.
Qed.
End example.

Lemma file_fs_ok : fs_ok file_sb file_fs.
Proof. apply (drive_fs_ok file_drive file_drive_ok file_drive_length). Qed.
Lemma file_drive_bitmap : block_at file_drive 3 = file_bitmap.
Proof. vm_compute. reflexivity. Qed.
Lemma file_alloc_ok : alloc_ok file_sb file_fs.
Proof. apply (drive_alloc_ok file_drive file_drive_ok file_drive_length file_drive_bitmap). Qed.
Lemma file_example_ok : file_ok file_fs file_dentry 2 file_blocks.
Proof. by apply (drive_file_ok file_drive file_drive_length file_drive_bitmap). Qed.

Lemma file_tables_ok : tables_ok file_sb file_fs.
Proof.
  constructor.
  - intros i g [-> ->]%zget_one. cbn [dev file_fs]. rewrite file_drive_length.
    unfold INODE_LEN. simpl. lia.
  - intros i j g h [-> ->]%zget_one [-> ->]%zget_one. lia.
Qed.

Lemma file_inode_ok : inode_ok file_inode.
Proof.
  split; [done|]. unfold values_ok, inode_widths, inode_values.
  cbn [app replicate file_inode mode uid size atime ctime mtime dtime gid links_count blocks flags osd1 block
    generation file_acl dir_acl faddr osd2].
  repeat (apply Forall2_cons; split; [vm_compute; split; [discriminate|reflexivity]|]). constructor.
Qed.

Lemma ext2_inode_roundtrip_witness :
  ∃ s', ext2_write_inode file_sb file_fs file_dentry = Some s' ∧ gt s' = [file_group] ∧
    (∀ d', inode_indx d' = 12 → ext2_read_inode file_sb s' d' = Some (with_inode d' file_inode)) ∧
    (∀ d', inode_number file_sb file_fs (inode_indx d') → inode_indx d' ≠ 12 →
       ext2_read_inode file_sb s' d' = ext2_read_inode file_sb file_fs d') ∧
    (∀ b, (∀ i g, [file_group].[i] = Some g → 1024 * (b + 1) <= 1024 * inode_table g ∨
             1024 * inode_table g + INODE_LEN * 16 <= 1024 * b) →
       block_at (dev s') b = block_at file_drive b).
Proof.
  apply (ext2_inode_roundtrip file_sb file_fs file_dentry);
    [done|apply file_fs_ok|apply file_tables_ok|apply file_inode_ok|unfold inode_number; simpl; lia].
Defined.

(** A user's buffer of 100 bytes at 4096. *)
Definition file_mem : mem := list_to_map (zip (seqZ 4096 100) (seqZ 0 100)).

Lemma file_mem_get i : 0 <= i < 100 → file_mem !! (4096 + i) = Some i.
Proof.
  intros Hi. apply elem_of_list_to_map_1.
  - rewrite fst_zip by (rewrite !length_seqZ; lia). apply NoDup_seqZ.
  - apply elem_of_lookup_zip_with. exists (Z.to_nat i), (4096 + i), i.
    rewrite !lookup_seqZ_lt by lia. split; [done|]. split; f_equal; lia.
Qed.
Lemma file_mem_ok : mem_ok file_mem.
Proof.
  intros a b Hb. apply elem_of_list_to_map_2, elem_of_lookup_zip_with in Hb as (k & x & y & E & Hx & Hy).
  injection E as -> ->. apply lookup_seqZ in Hy as [-> ?]. lia.
Qed.


(** It takes one more block, the eleventh. *)
Example write_grows :
  (λ r, match r with
        | Returned (r, s, d) => Some (r, blocks (inode d), (block (inode d)).[2], size (inode d))
        | SystemStop => None
        end) <$> ext2_write (H := x86) file_sb false file_fs file_dentry 4096 2000 100 7 file_mem =
  Some (Some (100, 6, Some 11, 2100)).
Proof. vm_compute. reflexivity. Qed.

(** A file of 270 blocks, as another system writes it: 12 direct blocks, 256 by the
    pointers in block 11, and two, the blocks 14 and 15, by two levels of pointers
    in the blocks 12 and 13. All that is said by pointers may be said twice. *)
Definition host_drive : disk :=
  default [] (zwrite file_drive 11264 (concat (replicate 256 [10; 0; 0; 0]) ++
    [13; 0; 0; 0] ++ replicate 1020 0 ++ [14; 0; 0; 0; 15; 0; 0; 0] ++ replicate 1016 0 ++
    replicate 1024 65 ++ replicate 1024 66)).
Definition host_fs : fs_t := {| dev := host_drive; gt := [file_group] |}.
Definition host_dentry : dentry_t :=
  with_inode file_dentry (set_size (set_blocks (set_block_list file_inode (replicate 12 9 ++ [11; 12; 0])) 546) 276000).
Definition host_blocks (k : Z) : Z := default 0 (file_walk host_drive (block (inode host_dentry)) k).

Lemma host_drive_ok : drive_ok host_drive.
Proof.
  split; [split; vm_compute; [done|discriminate]|].
  assert (forallb (λ b, (0 <=? b) && (b <? 256)) host_drive = true) as H by (vm_compute; reflexivity).
  apply Forall_forall. intros b Hb. rewrite forallb_forall in H. apply list_elem_of_In, H in Hb. unfold byte. lia.
Qed.

Lemma host_walks : forallb (λ k, match file_walk host_drive (block (inode host_dentry)) k with
  | Some b => (270 <=? k) || (1 <=? b) && (b <? 32) | None => false end) (seqZ 0 273) = true.
Proof. vm_compute. reflexivity. Qed.

Lemma host_file_data : file_data host_fs host_dentry 270 host_blocks.
Proof.
  assert (∀ k, 0 <= k < 273 → ∃ b, file_walk host_drive (block (inode host_dentry)) k = Some b ∧
    (k < 270 → 1 <= b < 32)) as Hw.
  { intros k Hk. pose proof host_walks as H. rewrite forallb_forall in H.
    specialize (H k). destruct (file_walk _ _ _) as [b|]; [exists b; split; [done|]|]; 
      specialize (H ltac:(apply list_elem_of_In, elem_of_seqZ; lia)); [lia|done]. }
  assert (Z.of_nat (length (dev host_fs)) = 32768) as Hl by (vm_compute; reflexivity).
  assert (block (inode host_dentry) = replicate 12 9 ++ [11; 12; 0]) as Hp by reflexivity.
  assert (blocks (inode host_dentry) = 546) as Hc by reflexivity.
  constructor.
  - rewrite Hp. cbn [replicate app]. repeat constructor; lia.
  - rewrite Hc. lia.
  - change (size (inode host_dentry)) with 276000. lia.
  - intros k Hk. destruct (Hw k) as (b & E & Hb); [lia|].
    assert (host_blocks k = b) as -> by exact (f_equal (default 0) E). split; [exact E|].
    unfold valid_block. rewrite Hl. lia.
  - intros k Hk. rewrite Hc in Hk. change (546 / 2) with 273 in Hk. destruct (Hw k) as (b & E & _); [lia|by exists b].
Qed.

(** A read of 100 bytes across the two last blocks, 50 of each. *)
Lemma ext2_read_bytes_witness :
  ∃ data m', ext2_read (H := x86) file_sb false host_fs host_dentry 4096 275406 100 file_mem = Some (Returned (100, m')) ∧
    put_bytes file_mem 4096 data = Some m' ∧ data.[49] = Some 65 ∧ data.[50] = Some 66.
Proof.
  destruct (ext2_read_bytes file_sb (H := x86) false host_fs host_dentry 270 host_blocks 4096 275406 100 file_mem)
    as (data & m' & Hr & Hp & _ & Hb);
    [done|exact host_drive_ok|exact host_file_data|simpl; lia|lia|lia|lia| |].
  - intros _. split.
    + split; [lia|]. split; [simpl; lia|]. split; [vm_compute; reflexivity|]. intros _. vm_compute. discriminate.
    + intros x Hx. change (Z.min 100 (size (inode host_dentry) - 275406)) with 100 in Hx.
      exists (x - 4096). rewrite <- (file_mem_get (x - 4096)) by lia. f_equal. lia.
  - exists data, m'. split; [exact Hr|]. split; [exact Hp|].
    split; rewrite Hb by (split; [done|vm_compute; done]); vm_compute; reflexivity.
Defined.

(** *** What goes wrong *)

(** A file of 268 blocks gets its first double indirect block. The drive's free
    block 11 holds 5 in its first word from earlier: the new pointer is written
    into block 5, the table of inodes, and block 13 of the inode stands for a
    tree with that block in it. *)
Definition stale_fs : fs_t :=
  {| dev := default [] (zwrite file_drive 11264 [5; 0; 0; 0]); gt := [file_group] |}.
Definition big_dentry : dentry_t := with_inode file_dentry (set_blocks file_inode 536).
Example stale_pointer_followed :
  (λ '(r, s, d), (r, (block (inode d)).[13], ptr (dev stale_fs) 5 0, ptr (dev s) 5 0)) <$>
    _ext2_set_block_of_inode file_sb stale_fs big_dentry 268 31 = Some (0, Some 11, 0, 31).
Proof. vm_compute. reflexivity. Qed.

(** A file of 13 blocks that another system has written: its count is 14, with the
    block of pointers. What is appended is written into block 0, the start of the
    drive, and no block is taken. *)
Definition host_file_fs : fs_t :=
  {| dev := default [] (zwrite file_drive 11264 ([10; 0; 0; 0] ++ replicate 1020 0)); gt := [file_group] |}.
Definition host_file : dentry_t :=
  with_inode file_dentry (set_size (set_blocks (set_block_list file_inode (replicate 12 9 ++ [11; 0; 0])) 28) 13312).
Example host_append_lost :
  (λ r, match r with
        | Returned (r, s, d) => Some (r, blocks (inode d), size (inode d), zread (dev host_file_fs) 0 3, zread (dev s) 0 3)
        | SystemStop => None
        end) <$> ext2_write (H := x86) file_sb false host_file_fs host_file 4096 13312 3 7 file_mem =
  Some (Some (3, 28, 13315, Some [0; 0; 0], Some [0; 1; 2])).
Proof. vm_compute. reflexivity. Qed.

(** Truncating to 1000 bytes frees block 10, and the file goes on using it;
    truncating to nothing frees no block at all. *)
Example truncate_keeps_freed :
  (λ '(s, d), (used block_bitmap 8192 s 10, (block (inode d)).[1], blocks (inode d), size (inode d))) <$>
    ext2_truncate file_sb file_fs file_dentry 1000 7 = Some (false, Some 10, 4, 1000).
Proof. vm_compute. reflexivity. Qed.
Example truncate_to_nothing :
  (λ '(s, d), (used block_bitmap 8192 s 9, used block_bitmap 8192 s 10, size (inode d))) <$>
    ext2_truncate file_sb file_fs file_dentry 0 7 = Some (true, true, 0).
Proof. vm_compute. reflexivity. Qed.

(** A write past the end of the file lands in its next block: here at 2048 and
    not at 10240. *)
Example write_past_end :
  (λ r, match r with
        | Returned (r, s, d) => Some (blocks (inode d), (block (inode d)).[2], (block (inode d)).[10], fbyte s (λ k, 9 + k) 2049)
        | SystemStop => None
        end) <$> ext2_write (H := x86) file_sb false file_fs file_dentry 4096 10240 100 7 file_mem =
  Some (Some (6, Some 11, Some 0, Some 1)).
Proof. vm_compute. reflexivity. Qed.
