(* ===== verification/Ext2Dir.v ===== *)
(** * Ext2Dir: the directories of ext2

    A block of a directory is a chain of records: the number of an inode, the
    length of the record, the length of the name and the name. The functions work
    on a copy of the block in a buffer on the stack and write it back. Dentries
    are handed around by pointer, and a directory can be its own child, so they
    live in a store [dentries] from pointers to dentries. *)
From stdpp Require Import gmap.
From S2P Require Import Prelude Platform Bitmap Memory Umem Ext2Dev Ext2Alloc Ext2File.

Abbreviation dentries := (gmap Z dentry_t).

(** [NORM_FILENAME]: up to the next multiple of 4. *)
Definition NORM_FILENAME (x : Z) : Z := x + Z.land (4 - Z.land x 3) 3.

Definition write_field (buf : list Z) (off : Z) (n : nat) (v : Z) : option (list Z) := zwrite buf off (le_bytes n v).

(** The fields of the record at [off]. *)
Definition entry_inode (buf : list Z) (off : Z) : option Z := field buf off 4.
Definition entry_rec_len (buf : list Z) (off : Z) : option Z := field buf (off + 4) 2.
Definition entry_name_len (buf : list Z) (off : Z) : option Z := field buf (off + 6) 1.

Section ext2.
Context `{Platform} (sb : superblock_t).
(** The byte of [new_entry.file_type], which is never set. *)
Context (junk : Z).

Definition DIR_ENTRY_LEN : Z := 8 + ptr_bytes.

Definition name_same (buf : list Z) (off : Z) (name : list Z) (name_len : Z) : option bool :=
  for_n (Z.to_nat name_len) 0 (λ i is_name_same,
    a ← name.[i]; b ← buf.[off + 8 + i]; Some (is_name_same && (a =? b))) true.

(** The error and the inode that was found. *)
Definition _ext2_lookup_block (s : fs_t) (block_index : Z) (name : list Z) (len : Z) : option (Z * Z) :=
  if block_index =? 0 then Some (- EINVAL, 0) else
  tmp_buf ← read_block sb (dev s) (_ext2_get_block_offset sb block_index);
  loop (S (Z.to_nat (BLOCK_LEN sb))) (λ off,
    ino ← entry_inode tmp_buf off;
    if ino =? 0 then Some (inr (- EFAULT, 0)) else
    name_len ← entry_name_len tmp_buf off;
    is_name_same ← (if name_len =? len then name_same tmp_buf off name name_len else Some false);
    if is_name_same : bool then Some (inr (0, ino)) else
    rec_len ← entry_rec_len tmp_buf off;
    if BLOCK_LEN sb <=? off + rec_len then Some (inr (- EFAULT, 0)) else Some (inl (off + rec_len))) 0.

Definition _ext2_get_dir_entries_count_in_block (s : fs_t) (block_index : Z) : option Z :=
  if block_index =? 0 then None else
  tmp_buf ← read_block sb (dev s) (_ext2_get_block_offset sb block_index);
  loop (S (Z.to_nat (BLOCK_LEN sb))) (λ '(internal_offset, result),
    rec_len ← entry_rec_len tmp_buf internal_offset;
    ino ← entry_inode tmp_buf internal_offset;
    let result := if negb (ino =? 0) then result + 1 else result in
    if BLOCK_LEN sb <=? internal_offset + rec_len then Some (inr result)
    else Some (inl (internal_offset + rec_len, result))) (0, 0).

Definition _ext2_is_dir_empty (s : fs_t) (dir : dentry_t) : option bool :=
  let end_block_index := TO_EXT_BLOCKS_CNT sb (blocks (inode dir)) in
  r ← for_loop (Z.to_nat end_block_index) 0 (λ block_index result,
    data_block_index ← _ext2_get_block_of_inode sb s dir block_index;
    n ← _ext2_get_dir_entries_count_in_block s data_block_index;
    Some (if 2 <? result + n then inr tt else inl (result + n))) 0;
  Some (match r with inl _ => true | inr _ => false end).

(** One entry after the other into the user's buffer: the bytes of the record up
    to the end of its name and one more, which is then set to 0. The result, the
    bytes of the block that were passed, and the memory. *)
Definition _ext2_getdents_block (kernel_access : bool) (s : fs_t) (block_index buf len inner_offset : Z) (m : mem)
  : option (outcome (Z * Z * mem)) :=
  if block_index =? 0 then Some (Returned (- EINVAL, 0, m)) else
  tmp_buf ← read_block sb (dev s) (_ext2_get_block_offset sb block_index);
  loop (S (Z.to_nat (BLOCK_LEN sb))) (λ '(tmp_buf, len, inner_offset, already_read, scanned_bytes, m),
    name_len ← entry_name_len tmp_buf inner_offset;
    let real_rec_len := 8 + NORM_FILENAME name_len + 1 in
    if len <? real_rec_len then
      Some (inr (Returned (if already_read =? 0 then - EINVAL else already_read, scanned_bytes, m)))
    else
      rec_len ← entry_rec_len tmp_buf inner_offset;
      ino ← entry_inode tmp_buf inner_offset;
      let next := inner_offset + rec_len in
      if negb (ino =? 0) then
        tmp_buf ← write_field tmp_buf (inner_offset + 4) 2 real_rec_len;
        bytes ← zread tmp_buf inner_offset real_rec_len;
        r ← _ext2_umem_copy_to_user kernel_access (usize (buf + already_read)) bytes m;
        match r with
        | SystemStop => Some (inr SystemStop)
        | Returned m =>
            m ← mset m (usize (buf + already_read + real_rec_len - 1)) 0;
            let already_read := already_read + real_rec_len in
            if BLOCK_LEN sb <=? next then Some (inr (Returned (already_read, scanned_bytes + rec_len, m)))
            else Some (inl (tmp_buf, len - real_rec_len, next, already_read, scanned_bytes + rec_len, m))
        end
      else if BLOCK_LEN sb <=? next then Some (inr (Returned (already_read, scanned_bytes + rec_len, m)))
      else Some (inl (tmp_buf, len, next, already_read, scanned_bytes + rec_len, m)))
    (tmp_buf, len, inner_offset, 0, 0, m).

(** The head of a record, the name after it and zeros up to its normal length. *)
Definition put_entry (buf : list Z) (off ino rec_len : Z) (filename : list Z) (len : Z) : option (list Z) :=
  buf ← zwrite buf off (le_bytes 4 ino ++ le_bytes 2 rec_len ++ le_bytes 1 len ++ [junk]);
  name ← zread filename 0 len;
  buf ← zwrite buf (off + 8) name;
  zwrite buf (off + 8 + len) (replicate (Z.to_nat (NORM_FILENAME len - len)) 0).

(** The buffer has the size of the structure, which has room for a pointer in the
    place of the name. *)
Definition _ext2_add_first_entry_to_dir_block (s : fs_t) (block_index : Z) (child : dentry_t)
    (filename : list Z) (len : Z) : option (Z * fs_t) :=
  if block_index =? 0 then Some (- EINVAL, s) else
  let blockoff := _ext2_get_block_offset sb block_index in
  tmp_buf ← _ext2_read_from_dev (dev s) blockoff DIR_ENTRY_LEN;
  tmp_buf ← put_entry tmp_buf 0 (inode_indx child) (BLOCK_LEN sb) filename len;
  d ← _ext2_write_to_dev (dev s) tmp_buf blockoff;
  Some (0, with_dev s d).

(** The first record with room for itself and the new one is split. *)
Definition _ext2_add_to_dir_block (s : fs_t) (block_index : Z) (child : dentry_t)
    (filename : list Z) (len : Z) : option (outcome (Z * fs_t)) :=
  if block_index =? 0 then Some (Returned (- EINVAL, s)) else
  let blockoff := _ext2_get_block_offset sb block_index in
  let min_rec_len := 8 + NORM_FILENAME len in
  tmp_buf ← read_block sb (dev s) blockoff;
  ino ← entry_inode tmp_buf 0;
  if ino =? 0 then Some SystemStop else
  r ← loop (S (Z.to_nat (BLOCK_LEN sb))) (λ off,
    name_len ← entry_name_len tmp_buf off;
    rec_len ← entry_rec_len tmp_buf off;
    let cur_rec_len := 8 + NORM_FILENAME name_len in
    if cur_rec_len + min_rec_len <=? rec_len then Some (inr (Some (off, cur_rec_len, rec_len)))
    else if BLOCK_LEN sb <=? off + rec_len then Some (inr None) else Some (inl (off + rec_len))) 0;
  match r with
  | None => Some (Returned (- EFAULT, s))
  | Some (off, cur_rec_len, rec_len) =>
      tmp_buf ← write_field tmp_buf (off + 4) 2 cur_rec_len;
      tmp_buf ← put_entry tmp_buf (off + cur_rec_len) (inode_indx child) (rec_len - cur_rec_len) filename len;
      d ← _ext2_write_to_dev (dev s) tmp_buf blockoff;
      Some (Returned (0, with_dev s d))
  end.

(** The record joins the one before it; the first one of a block stops the system. *)
Definition rm_step (s : fs_t) (child : dentry_t) (blockoff : Z) (tmp_buf : list Z) (st : Z * option Z)
  : option (Z * option Z + outcome (Z * fs_t)) :=
  let '(off, prev) := st in
  ino ← entry_inode tmp_buf off;
  rec_len ← entry_rec_len tmp_buf off;
  if ino =? inode_indx child then
    match prev with
    | None => Some (inr SystemStop)
    | Some prev =>
        tmp_buf ← write_field tmp_buf off 4 0;
        prev_len ← entry_rec_len tmp_buf prev;
        tmp_buf ← write_field tmp_buf (prev + 4) 2 (u16 (prev_len + rec_len));
        d ← _ext2_write_to_dev (dev s) tmp_buf blockoff;
        Some (inr (Returned (0, with_dev s d)))
    end
  else if BLOCK_LEN sb <=? off + rec_len then Some (inr (Returned (- EFAULT, s)))
  else Some (inl (off + rec_len, Some off)).

Definition _ext2_rm_from_dir_block (s : fs_t) (block_index : Z) (child : dentry_t) : option (outcome (Z * fs_t)) :=
  if block_index =? 0 then Some (Returned (- EINVAL, s)) else
  let blockoff := _ext2_get_block_offset sb block_index in
  tmp_buf ← read_block sb (dev s) blockoff;
  loop (S (Z.to_nat (BLOCK_LEN sb))) (rm_step s child blockoff tmp_buf) (0, None).

(** ** Children *)

(** The child's new link, once its name is in the directory. *)
Definition count_link (ds : dentries) (child n : Z) : option dentries :=
  c ← ds !! child;
  Some (<[child := set_dirty (with_inode c (set_links_count (inode c) (links_count (inode c) + n)))]> ds).

(** The blocks of the directory are tried in turn; then it gets a new one. *)
Definition _ext2_add_child (s : fs_t) (ds : dentries) (dir child : Z) (name : list Z) (len : Z)
  : option (outcome (Z * fs_t * dentries)) :=
  d ← ds !! dir; c ← ds !! child;
  let blocks_per_dir := TO_EXT_BLOCKS_CNT sb (blocks (inode d)) in
  r ← for_loop (Z.to_nat blocks_per_dir) 0 (λ i (_ : unit),
    block_index ← _ext2_get_block_of_inode sb s d i;
    if negb (block_index =? 0) then
      r ← _ext2_add_to_dir_block s block_index c name len;
      Some (match r with
      | SystemStop => inr SystemStop
      | Returned (err, s) => if err =? 0 then inr (Returned s) else inl ()
      end)
    else Some (inl ())) ();
  match r with
  | inr SystemStop => Some SystemStop
  | inr (Returned s) => ds ← count_link ds child 1; Some (Returned (0, s, ds))
  | inl _ =>
      '(r, s, d) ← _ext2_allocate_block_for_inode sb s d 0;
      let ds := <[dir := d]> ds in
      match r with
      | None => Some (Returned (- EFAULT, s, ds))
      | Some new_block_index =>
          '(err, s) ← _ext2_add_first_entry_to_dir_block s new_block_index c name len;
          if err =? 0 then ds ← count_link ds child 1; Some (Returned (0, s, ds))
          else Some (Returned (- EFAULT, s, ds))
      end
  end.

Definition _ext2_rm_child (s : fs_t) (ds : dentries) (dir child : Z) : option (outcome (Z * fs_t * dentries)) :=
  d ← ds !! dir; c ← ds !! child;
  let blocks_per_dir := TO_EXT_BLOCKS_CNT sb (blocks (inode d)) in
  r ← for_loop (Z.to_nat blocks_per_dir) 0 (λ i (_ : unit),
    block_index ← _ext2_get_block_of_inode sb s d i;
    if negb (block_index =? 0) then
      r ← _ext2_rm_from_dir_block s block_index c;
      Some (match r with
      | SystemStop => inr SystemStop
      | Returned (err, s) => if err =? 0 then inr (Returned s) else inl ()
      end)
    else Some (inl ())) ();
  match r with
  | inr SystemStop => Some SystemStop
  | inr (Returned s) => ds ← count_link ds child (-1); Some (Returned (0, s, ds))
  | inl _ => Some (Returned (- ENOENT, s, ds))
  end.

(** The number of the inode that the name stands for, which [ext2_lookup] then
    asks the cache of dentries for; [None] is -ENOENT. *)
Definition ext2_lookup (s : fs_t) (dir : dentry_t) (name : list Z) (len : Z) : option (option Z) :=
  let block_per_dir := TO_EXT_BLOCKS_CNT sb (blocks (inode dir)) in
  r ← for_loop (Z.to_nat block_per_dir) 0 (λ block_index (_ : unit),
    data_block_index ← _ext2_get_block_of_inode sb s dir block_index;
    '(err, res_inode_indx) ← _ext2_lookup_block s data_block_index name len;
    Some (if err =? 0 then inr res_inode_indx else inl ())) ();
  Some (match r with inr ino => Some ino | inl _ => None end).

(** [.] and [..]. *)
Definition _ext2_setup_dir (s : fs_t) (ds : dentries) (dir parent_dir mode uid gid : Z)
  : option (outcome (Z * fs_t * dentries)) :=
  d ← ds !! dir;
  let i := set_blocks (set_links_count (set_owner (inode d) mode uid gid) 0) 0 in
  let ds := <[dir := set_dirty (with_inode d i)]> ds in
  '(err, s, ds) ←! _ext2_add_child s ds dir dir [46] 1;
  if err <? 0 then Some (Returned (- EFAULT, s, ds)) else
  '(err, s, ds) ←! _ext2_add_child s ds dir parent_dir [46; 46] 2;
  if err <? 0 then Some (Returned (- EFAULT, s, ds)) else
  Some (Returned (0, s, ds)).

Definition _ext2_setup_file (d : dentry_t) (mode uid gid : Z) : dentry_t :=
  let i := set_size (set_blocks (set_links_count (set_owner (inode d) mode uid gid) 0) 0) 0 in
  set_dirty (with_inode d i).

(** The entries from [offset] on, block after block: the result, the new offset and the memory. *)
Definition ext2_getdents (kernel_access : bool) (s : fs_t) (dir : dentry_t) (buf offset len : Z) (m : mem)
  : option (outcome (Z * Z * mem)) :=
  let block_len := BLOCK_LEN sb in
  let start_block_index := u32 (offset / block_len) in
  let end_block_index := TO_EXT_BLOCKS_CNT sb (blocks (inode dir)) in
  r ← for_loop (Z.to_nat (end_block_index - start_block_index)) start_block_index
    (λ block_index '(len, read_offset, already_read, offset, m),
      data_block_index ← _ext2_get_block_of_inode sb s dir block_index;
      let read_from_block := u32 (Z.min len (block_len - read_offset)) in
      r ← _ext2_getdents_block kernel_access s data_block_index (usize (buf + already_read)) read_from_block read_offset m;
      Some (match r with
      | SystemStop => inr SystemStop
      | Returned (act_read, scanned, m) =>
          if act_read <? 0 then
            inr (Returned (if already_read =? 0 then act_read else already_read, offset + scanned, m))
          else inl (len - act_read, 0, already_read + act_read, offset + scanned, m)
      end)) (len, u32 (offset mod block_len), 0, offset, m);
  Some (match r with inr r => r | inl (_, _, already_read, offset, m) => Returned (already_read, offset, m) end).

(** ** Owner and status *)

(** [flags] of [07777] only; the caller owns the file or is the super user. *)
Definition ext2_fchmod (d : dentry_t) (euid : Z) (is_su : bool) (mode : Z) : Z * dentry_t :=
  if negb (uid (inode d) =? euid) && negb is_su then (- EPERM, d) else
  let m := Z.lor (Z.land (Ext2Dev.mode (inode d)) (u32 (Z.lnot 0xfff))) (Z.land mode 0xfff) in
  (0, set_dirty (with_inode d (set_mode (inode d) m))).
End ext2.

(** ** What a block of a directory holds *)

Record entry := { e_ino : Z; e_rec : Z; e_name : list Z }.
Definition e_len (e : entry) : Z := Z.of_nat (length (e_name e)).
(** The room that the entry needs. *)
Definition e_min (e : entry) : Z := 8 + NORM_FILENAME (e_len e).

Definition entry_at (buf : list Z) (off : Z) (e : entry) : Prop :=
  entry_inode buf off = Some (e_ino e) ∧ entry_rec_len buf off = Some (e_rec e) ∧
  entry_name_len buf off = Some (e_len e) ∧ zread buf (off + 8) (e_len e) = Some (e_name e).

(** The records of [es] follow each other from [off] to [fin]. *)
Fixpoint chain (buf : list Z) (off : Z) (es : list entry) (fin : Z) : Prop :=
  match es with
  | [] => off = fin
  | e :: es => entry_at buf off e ∧ e_min e <= e_rec e ∧ chain buf (off + e_rec e) es fin
  end.

(** The two buffers agree from [a] to [b]. *)
Definition agree (buf buf' : list Z) (a b : Z) : Prop :=
  length buf' = length buf ∧ ∀ j, a <= j < b → buf'.[j] = buf.[j].

Lemma NORM_spec x : 0 <= x → x <= NORM_FILENAME x <= x + 3 ∧ NORM_FILENAME x mod 4 = 0.
Proof.
  intros Hx. unfold NORM_FILENAME. change 3 with (Z.ones 2). rewrite !Z.land_ones by lia. change (2 ^ 2) with 4. change (Z.ones 2) with 3.
  Z.div_mod_to_equations. lia.
Qed.

Lemma e_min_pos e : 8 <= 8 + e_len e <= e_min e.
Proof. unfold e_min, e_len. pose proof (NORM_spec (Z.of_nat (length (e_name e))) ltac:(lia)). lia. Qed.

Lemma zread_agree buf buf' a n x : agree buf buf' a (a + n) → zread buf a n = Some x → zread buf' a n = Some x.
Proof.
  intros [Hl Hj] (?&?&?&?&Hg)%zread_Some. apply zread_Some.
  split; [done|]. split; [done|]. split; [lia|]. split; [done|]. intros j ?. rewrite Hg, Hj by lia. done.
Qed.
Lemma field_agree buf buf' a n v : agree buf buf' a (a + n) → field buf a n = Some v → field buf' a n = Some v.
Proof.
  unfold field. intros Ha (x & Hx & [= <-])%bind_Some. by rewrite (zread_agree _ _ _ _ _ Ha Hx).
Qed.
Lemma agree_sub buf buf' a b a' b' : agree buf buf' a b → a <= a' → b' <= b → agree buf buf' a' b'.
Proof. intros [Hl Hj] ? ?. split; [done|]. intros. apply Hj. lia. Qed.

Lemma entry_at_agree buf buf' off e : agree buf buf' off (off + 8 + e_len e) → entry_at buf off e → entry_at buf' off e.
Proof.
  intros Ha (H1 & H2 & H3 & H4). pose proof (e_min_pos e). unfold entry_at, entry_inode, entry_rec_len, entry_name_len in *.
  split; [|split; [|split]].
  - eapply field_agree; [|exact H1]. eapply agree_sub; [exact Ha|lia|lia].
  - eapply field_agree; [|exact H2]. eapply agree_sub; [exact Ha|lia|lia].
  - eapply field_agree; [|exact H3]. eapply agree_sub; [exact Ha|lia|lia].
  - eapply zread_agree; [|exact H4]. eapply agree_sub; [exact Ha|lia|lia].
Qed.

Lemma chain_le buf off es fin : chain buf off es fin → off <= fin.
Proof.
  revert off. induction es as [|e es IH]; intros off; simpl; [lia|]. intros (_ & Hm & Hc%IH).
  pose proof (e_min_pos e). lia.
Qed.

Lemma chain_agree buf buf' off es fin : agree buf buf' off fin → chain buf off es fin → chain buf' off es fin.
Proof.
  revert off. induction es as [|e es IH]; intros off Ha; simpl; [done|]. intros (He & Hm & Hc).
  pose proof (chain_le _ _ _ _ Hc). pose proof (e_min_pos e). split; [|split; [done|]].
  - eapply entry_at_agree; [|exact He]. eapply agree_sub; [exact Ha|lia|lia].
  - apply IH; [|done]. eapply agree_sub; [exact Ha|lia|lia].
Qed.

Lemma chain_app buf off es1 es2 fin : chain buf off (es1 ++ es2) fin ↔
  ∃ mid, chain buf off es1 mid ∧ chain buf mid es2 fin.
Proof.
  revert off. induction es1 as [|e es1 IH]; intros off; simpl.
  - split; [intros ?; by exists off|by intros (? & -> & ?)].
  - rewrite IH. split; [intros (? & ? & m & ? & ?); by exists m|intros (m & (? & ? & ?) & ?)]. eauto 6.
Qed.

(** A record is a part of its block. *)
Lemma entry_at_in buf off e : entry_at buf off e → 0 <= off ∧ off + 8 + e_len e <= Z.of_nat (length buf).
Proof.
  intros (H1 & _ & _ & (_ & ? & ? & _)%zread_Some). unfold entry_inode, field in H1.
  apply bind_Some in H1 as (x & (? & _)%zread_Some & _). lia.
Qed.

(** *** Writing records *)

Lemma zread_zwrite_part (buf : list Z) a x buf' k n : zwrite buf a x = Some buf' → 0 <= k → 0 <= n → k + n <= Z.of_nat (length x) →
  zread buf' (a + k) n = zread x k n.
Proof.
  intros E ? ? ?. symmetry. eapply zread_sub; [by eapply zread_zwrite_same|done..].
Qed.

Lemma zwrite_byte (b : list Z) a x b' : zwrite b a x = Some b' → Forall byte b → Forall byte x → Forall byte b'.
Proof.
  intros E Hb Hx. unfold zwrite in E. case_decide; [|done]. injection E as <-.
  apply Forall_app. split; [by apply Forall_take|]. apply Forall_app. split; [done|by apply Forall_drop].
Qed.

Lemma agree_zwrite buf a x buf' b c : zwrite buf a x = Some buf' → c <= a ∨ a + Z.of_nat (length x) <= b →
  agree buf buf' b c.
Proof.
  intros E Ho. split; [by eapply zwrite_length|]. intros j Hj. rewrite (zwrite_get _ _ _ _ _ E).
  by rewrite decide_False by lia.
Qed.
Lemma agree_trans b1 b2 b3 a b : agree b1 b2 a b → agree b2 b3 a b → agree b1 b3 a b.
Proof. intros [Hl1 H1] [Hl2 H2]. split; [congruence|]. intros j Hj. by rewrite H2, H1. Qed.

Section dir.
Context `{Platform} (sb : superblock_t) (junk : Z) (Hlog : log_block_size sb = 0).

(** The head of a record by its bytes. *)
Lemma head_fields buf off ino rec len buf' : 0 <= ino < 2 ^ 32 → 0 <= rec < 2 ^ 16 → 0 <= len < 2 ^ 8 →
  zwrite buf off (le_bytes 4 ino ++ le_bytes 2 rec ++ le_bytes 1 len ++ [junk]) = Some buf' →
  entry_inode buf' off = Some ino ∧ entry_rec_len buf' off = Some rec ∧ entry_name_len buf' off = Some len.
Proof.
  intros Hi Hr Hl E. unfold entry_inode, entry_rec_len, entry_name_len, field.
  rewrite <- (Z.add_0_r off) at 1.
  rewrite !(zread_zwrite_part _ _ _ _ _ _ E) by (simpl; lia).
  rewrite !zread_in by (simpl; lia). cbn [mbind option_bind].
  split; [|split]; f_equal.
  - etrans; [|exact (le_val_bytes 4 ino Hi)]. reflexivity.
  - etrans; [|exact (le_val_bytes 2 rec Hr)]. reflexivity.
  - etrans; [|exact (le_val_bytes 1 len Hl)]. reflexivity.
Qed.

Lemma put_entry_spec buf off ino rec name : 0 <= ino < 2 ^ 32 → 0 <= rec < 2 ^ 16 →
  Z.of_nat (length name) < 2 ^ 8 → 0 <= off →
  off + 8 + NORM_FILENAME (Z.of_nat (length name)) <= Z.of_nat (length buf) →
  ∃ buf', put_entry junk buf off ino rec name (Z.of_nat (length name)) = Some buf' ∧
    entry_at buf' off {| e_ino := ino; e_rec := rec; e_name := name |} ∧
    (∀ a b, b <= off ∨ off + 8 + NORM_FILENAME (Z.of_nat (length name)) <= a → agree buf buf' a b) ∧
    (Forall byte buf → Forall byte name → byte junk → Forall byte buf').
Proof.
  intros Hi Hr Hn Hoff Hlen. set (len := Z.of_nat (length name)) in *.
  pose proof (NORM_spec len ltac:(lia)) as [Hnorm _]. unfold put_entry.
  destruct (zwrite_is_Some buf off (le_bytes 4 ino ++ le_bytes 2 rec ++ le_bytes 1 len ++ [junk])) as [b1 E1];
    [done|simpl; lia|]. returns E1. pose proof (zwrite_length _ _ _ _ E1) as Hl1.
  assert (zread name 0 len = Some name) as ->.
  { apply zread_Some. split; [lia|]. split; [lia|]. split; [lia|]. split; [done|]. intros. f_equal; lia. }
  cbn [mbind option_bind].
  destruct (zwrite_is_Some b1 (off + 8) name) as [b2 E2]; [lia|lia|]. returns E2.
  pose proof (zwrite_length _ _ _ _ E2) as Hl2.
  destruct (zwrite_is_Some b2 (off + 8 + len) (replicate (Z.to_nat (NORM_FILENAME len - len)) 0)) as [b3 E3];
    [lia|rewrite length_replicate; lia|]. rewrite E3. exists b3. split; [done|].
  assert (∀ a b, b <= off + 8 → agree b1 b3 a b) as Hhead.
  { intros a b Hb. eapply agree_trans; [eapply agree_zwrite; [exact E2|lia]|eapply agree_zwrite; [exact E3|lia]]. }
  split; [|split].
  - destruct (head_fields buf off ino rec len b1) as (F1 & F2 & F3); [done|done|lia|done|].
    unfold entry_at, e_len. cbn [e_ino e_rec e_name]. fold len.
    split; [eapply field_agree; [apply Hhead; lia|done]|].
    split; [eapply field_agree; [apply Hhead; lia|done]|].
    split; [eapply field_agree; [apply Hhead; lia|done]|].
    eapply zread_agree; [eapply agree_zwrite; [exact E3|lia]|]. by eapply zread_zwrite_same.
  - intros a b Hab. eapply agree_trans; [eapply agree_zwrite; [exact E1|simpl; lia]|].
    eapply agree_trans; [eapply agree_zwrite; [exact E2|lia]|].
    eapply agree_zwrite; [exact E3|rewrite length_replicate; lia].
  - intros Hb Hnb Hj.
    eapply zwrite_byte; [exact E3| |apply Forall_replicate; unfold byte; lia].
    eapply zwrite_byte; [exact E2| |done]. eapply zwrite_byte; [exact E1|done|].
    repeat (apply Forall_app; split); try apply le_bytes_byte. by constructor.
Qed.

(** ** Looking up *)

Fixpoint find_name (es : list entry) (name : list Z) : Z * Z :=
  match es with
  | [] => (- EFAULT, 0)
  | e :: es =>
      if e_ino e =? 0 then (- EFAULT, 0)
      else if bool_decide (e_name e = name) then (0, e_ino e)
      else find_name es name
  end.

(** A block of the drive that holds the directory entries [es]. *)
Definition dir_block (s : fs_t) (b : Z) (es : list entry) : Prop :=
  drive_ok (dev s) ∧ valid_block (dev s) b ∧ es ≠ [] ∧ chain (block_at (dev s) b) 0 es 1024.

Lemma name_same_spec buf off e name : entry_at buf off e → e_len e = Z.of_nat (length name) →
  name_same buf off name (e_len e) = Some (bool_decide (e_name e = name)).
Proof.
  intros (_ & _ & _ & Hn) Hlen. apply zread_Some in Hn as (Hn0 & Hn1 & Hn2 & Hn3 & Hn4). unfold name_same.
  match goal with |- context [for_n ?k ?i0 ?g ?s0] =>
    destruct (for_n_total (S := bool) (λ i same, same = true ↔ ∀ j, 0 <= j < i → name.[j] = (e_name e).[j]) g k i0 s0)
      as (same & -> & Hs) end.
  - split; [intros _ j ?; lia|done].
  - intros i same Hi Hs. rewrite Z2Nat.id in Hi by lia.
    destruct (zget_is_Some name i) as [x Hx]; [lia|]. rewrite Hx.
    destruct (zget_is_Some (e_name e) i) as [y Hy]; [lia|]. rewrite <- Hn4, Hy by lia. cbn [mbind option_bind].
    eexists. split; [done|]. rewrite andb_true_iff, Z.eqb_eq, Hs. split.
    + intros [Hall ->] j Hj. destruct (decide (j = i)) as [->|]; [congruence|apply Hall; lia].
    + intros Hall. split; [intros j Hj; apply Hall; lia|]. specialize (Hall i ltac:(lia)). congruence.
  - f_equal. rewrite Z2Nat.id in Hs by lia. destruct same; symmetry.
    + apply bool_decide_eq_true. symmetry. apply list_eq_zget; [unfold e_len in *; lia|].
      intros j Hj. apply Hs; [done|lia].
    + apply bool_decide_eq_false. intros Heq. assert (false = true) as ?; [|done].
      apply Hs. intros j Hj. by rewrite Heq.
Qed.

Lemma lookup_loop buf name fuel off es : chain buf off es 1024 → es ≠ [] → 1024 - off < Z.of_nat fuel →
  loop fuel (λ off,
    ino ← entry_inode buf off;
    if ino =? 0 then Some (inr (- EFAULT, 0)) else
    name_len ← entry_name_len buf off;
    is_name_same ← (if name_len =? Z.of_nat (length name) then name_same buf off name name_len else Some false);
    if is_name_same : bool then Some (inr (0, ino)) else
    rec_len ← entry_rec_len buf off;
    if 1024 <=? off + rec_len then Some (inr (- EFAULT, 0)) else Some (inl (off + rec_len))) off =
  Some (find_name es name).
Proof.
  revert off es. induction fuel as [|fuel IH]; intros off es Hc Hne Hf.
  { destruct es as [|e es]; [done|]. pose proof (chain_le _ _ _ _ Hc). lia. }
  destruct es as [|e es]; [done|]. destruct Hc as (He & Hm & Hc). pose proof (chain_le _ _ _ _ Hc) as Hle.
  pose proof (e_min_pos e) as Hp. pose proof He as (Hi & Hr & Hn & _). rewrite loop_S. returns Hi. cbn [find_name].
  destruct (Z.eqb_spec (e_ino e) 0); [done|]. returns Hn.
  assert ((if e_len e =? Z.of_nat (length name) then name_same buf off name (e_len e) else Some false) =
    Some (bool_decide (e_name e = name))) as ->.
  { destruct (Z.eqb_spec (e_len e) (Z.of_nat (length name))) as [Hl|Hl]; [by apply name_same_spec|].
    rewrite bool_decide_eq_false_2; [done|]. intros Heq. apply Hl. unfold e_len. by rewrite Heq. }
  cbn [mbind option_bind]. case_bool_decide; [done|]. returns Hr.
  destruct es as [|e2 es].
  - simpl in Hc. destruct (Z.leb_spec 1024 (off + e_rec e)); [done|lia].
  - pose proof Hc as (_ & Hm2 & Hc2). pose proof (chain_le _ _ _ _ Hc2). pose proof (e_min_pos e2).
    destruct (Z.leb_spec 1024 (off + e_rec e)); [lia|]. apply IH; [done|done|lia].
Qed.

Lemma lookup_spec s b es name : dir_block s b es →
  _ext2_lookup_block sb s b name (Z.of_nat (length name)) = Some (find_name es name).
Proof.
  intros (Hd & Hv & Hne & Hc). unfold _ext2_lookup_block. pose proof Hv as [Hb _].
  destruct (Z.eqb_spec b 0); [lia|]. rewrite read_block_spec by done. cbn [mbind option_bind].
  rewrite (BLOCK_LEN_1024 sb Hlog). apply lookup_loop; [done|done|lia].
Qed.

(** ** Counting *)

Definition live (es : list entry) : list entry := filter (λ e, e_ino e ≠ 0) es.

Lemma count_loop buf fuel off es result : chain buf off es 1024 → es ≠ [] → 1024 - off < Z.of_nat fuel →
  loop fuel (λ '(internal_offset, result),
    rec_len ← entry_rec_len buf internal_offset;
    ino ← entry_inode buf internal_offset;
    if 1024 <=? internal_offset + rec_len then Some (inr (if negb (ino =? 0) then result + 1 else result))
    else Some (inl (internal_offset + rec_len, if negb (ino =? 0) then result + 1 else result))) (off, result) =
  Some (result + Z.of_nat (length (live es))).
Proof.
  revert off es result. induction fuel as [|fuel IH]; intros off es result Hc Hne Hf.
  { destruct es as [|e es]; [done|]. pose proof (chain_le _ _ _ _ Hc). lia. }
  destruct es as [|e es]; [done|]. destruct Hc as (He & Hm & Hc). pose proof (chain_le _ _ _ _ Hc) as Hle.
  pose proof (e_min_pos e) as Hp. pose proof He as (Hi & Hr & _). rewrite loop_S. returns Hr. returns Hi.
  assert (Z.of_nat (length (live (e :: es))) = (if negb (e_ino e =? 0) then 1 else 0) + Z.of_nat (length (live es))) as ->.
  { unfold live. rewrite filter_cons. destruct (Z.eqb_spec (e_ino e) 0); case_decide; (done || simpl; lia). }
  destruct es as [|e2 es].
  - simpl in Hc. destruct (Z.leb_spec 1024 (off + e_rec e)); [|lia]. f_equal. change (live []) with (@nil entry).
    simpl. destruct (e_ino e =? 0); simpl; lia.
  - pose proof Hc as (_ & Hm2 & Hc2). pose proof (chain_le _ _ _ _ Hc2). pose proof (e_min_pos e2).
    destruct (Z.leb_spec 1024 (off + e_rec e)); [lia|]. rewrite (IH (off + e_rec e) (e2 :: es)) by (done || lia). f_equal.
    destruct (e_ino e =? 0); simpl; lia.
Qed.

Lemma count_spec s b es : dir_block s b es →
  _ext2_get_dir_entries_count_in_block sb s b = Some (Z.of_nat (length (live es))).
Proof.
  intros (Hd & Hv & Hne & Hc). unfold _ext2_get_dir_entries_count_in_block. pose proof Hv as [Hb _].
  destruct (Z.eqb_spec b 0); [lia|]. rewrite read_block_spec by done. cbn [mbind option_bind].
  rewrite (BLOCK_LEN_1024 sb Hlog). cbv zeta. rewrite (count_loop _ _ 0 es 0) by (done || lia). done.
Qed.

(** ** Adding *)

Definition with_rec (e : entry) (r : Z) : entry := {| e_ino := e_ino e; e_rec := r; e_name := e_name e |}.

(** The first entry with room for itself and the new one is split. *)
Fixpoint insert_entry (es : list entry) (ino : Z) (name : list Z) : option (list entry) :=
  match es with
  | [] => None
  | e :: es =>
      if e_min e + (8 + NORM_FILENAME (Z.of_nat (length name))) <=? e_rec e then
        Some (with_rec e (e_min e) :: {| e_ino := ino; e_rec := e_rec e - e_min e; e_name := name |} :: es)
      else (e ::.) <$> insert_entry es ino name
  end.

(** The split, where it happens. *)
Lemma insert_entry_split es ino name es' : insert_entry es ino name = Some es' ↔ ∃ pre e post,
  es = pre ++ e :: post ∧ Forall (λ e, e_rec e < e_min e + (8 + NORM_FILENAME (Z.of_nat (length name)))) pre ∧
  e_min e + (8 + NORM_FILENAME (Z.of_nat (length name))) <= e_rec e ∧
  es' = pre ++ with_rec e (e_min e) :: {| e_ino := ino; e_rec := e_rec e - e_min e; e_name := name |} :: post.
Proof.
  revert es'. induction es as [|e es IH]; intros es'; simpl.
  { split; [done|]. intros (pre & e & post & E & _). by destruct pre. }
  destruct (Z.leb_spec (e_min e + (8 + NORM_FILENAME (Z.of_nat (length name)))) (e_rec e)) as [Hle|Hle].
  - split.
    + intros [= <-]. exists [], e, es. by repeat constructor.
    + intros (pre & e1 & post & E & Hpre & H1 & ->). destruct pre as [|p pre]; simpl in E.
      * by injection E as -> ->.
      * injection E as -> ->. apply Forall_cons in Hpre as [? _]. lia.
  - rewrite fmap_Some. split.
    + intros (es1 & (pre & e1 & post & -> & Hpre & H1 & ->)%IH & ->). exists (e :: pre), e1, post.
      split; [done|]. split; [by constructor|]. done.
    + intros (pre & e1 & post & E & Hpre & H1 & ->). destruct pre as [|p pre]; simpl in E.
      * injection E as -> ->. lia.
      * injection E as -> ->. apply Forall_cons in Hpre as [_ Hpre].
        exists (pre ++ with_rec e1 (e_min e1) :: {| e_ino := ino; e_rec := e_rec e1 - e_min e1; e_name := name |} :: post).
        split; [|done]. apply IH. exists pre, e1, post. done.
Qed.

(** The search for room. *)
Lemma room_loop buf need fuel off pre e post : chain buf off (pre ++ e :: post) 1024 →
  1024 - off < Z.of_nat fuel → Forall (λ e, e_rec e < e_min e + need) pre → e_min e + need <= e_rec e →
  ∃ mid, chain buf off pre mid ∧ chain buf mid (e :: post) 1024 ∧
  loop fuel (λ off,
    name_len ← entry_name_len buf off;
    rec_len ← entry_rec_len buf off;
    if 8 + NORM_FILENAME name_len + need <=? rec_len then Some (inr (Some (off, 8 + NORM_FILENAME name_len, rec_len)))
    else if 1024 <=? off + rec_len then Some (inr None) else Some (inl (off + rec_len))) off =
  Some (Some (mid, e_min e, e_rec e)).
Proof.
  revert off pre. induction fuel as [|fuel IH]; intros off pre Hc Hf Hpre He.
  { pose proof (chain_le _ _ _ _ Hc). lia. }
  destruct pre as [|p pre]; simpl app in Hc; pose proof Hc as (Hat & Hm & Hc').
  - exists off. split; [done|]. split; [done|]. pose proof Hat as (_ & Hr & Hn & _).
    rewrite loop_S. returns Hn. returns Hr. change (8 + NORM_FILENAME (e_len e)) with (e_min e).
    by destruct (Z.leb_spec (e_min e + need) (e_rec e)); [|lia].
  - apply Forall_cons in Hpre as [Hp Hpre]. pose proof (e_min_pos p).
    pose proof Hat as (_ & Hr & Hn & _). rewrite loop_S. returns Hn. returns Hr.
    change (8 + NORM_FILENAME (e_len p)) with (e_min p).
    destruct (Z.leb_spec (e_min p + need) (e_rec p)); [lia|].
    destruct (IH (off + e_rec p) pre Hc') as (mid & Hc1 & Hc2 & El); [lia|done|done|].
    exists mid. split; [by split|]. split; [done|].
    pose proof (chain_le _ _ _ _ Hc1). pose proof Hc2 as (_ & Hm2 & Hc3). pose proof (chain_le _ _ _ _ Hc3).
    pose proof (e_min_pos e). destruct (Z.leb_spec 1024 (off + e_rec p)); [lia|]. done.
Qed.

Lemma no_room_loop buf need fuel off es : chain buf off es 1024 → es ≠ [] →
  1024 - off < Z.of_nat fuel → Forall (λ e, e_rec e < e_min e + need) es →
  loop fuel (λ off,
    name_len ← entry_name_len buf off;
    rec_len ← entry_rec_len buf off;
    if 8 + NORM_FILENAME name_len + need <=? rec_len then Some (inr (Some (off, 8 + NORM_FILENAME name_len, rec_len)))
    else if 1024 <=? off + rec_len then Some (inr None) else Some (inl (off + rec_len))) off =
  Some (None : option (Z * Z * Z)).
Proof.
  revert off es. induction fuel as [|fuel IH]; intros off es Hc Hne Hf Hall.
  { destruct es as [|e es]; [done|]. pose proof (chain_le _ _ _ _ Hc). lia. }
  destruct es as [|e es]; [done|]. destruct Hc as (He & Hm & Hc). pose proof (chain_le _ _ _ _ Hc) as Hle.
  apply Forall_cons in Hall as [Hp Hall].
  pose proof (e_min_pos e) as Hpos. pose proof He as (_ & Hr & Hn & _). rewrite loop_S. returns Hn. returns Hr.
  change (8 + NORM_FILENAME (e_len e)) with (e_min e). destruct (Z.leb_spec (e_min e + need) (e_rec e)); [lia|].
  destruct es as [|e2 es].
  - simpl in Hc. by destruct (Z.leb_spec 1024 (off + e_rec e)); [|lia].
  - pose proof Hc as (_ & Hm2 & Hc2). pose proof (chain_le _ _ _ _ Hc2). pose proof (e_min_pos e2).
    destruct (Z.leb_spec 1024 (off + e_rec e)); [lia|]. apply (IH _ (e2 :: es)); [done|done|lia|done].
Qed.

(** Splitting a record in the buffer. *)
Lemma split_record buf off pre e post ino name : chain buf 0 (pre ++ e :: post) 1024 → length buf = 1024%nat →
  chain buf 0 pre off → chain buf off (e :: post) 1024 →
  0 <= ino < 2 ^ 32 → Z.of_nat (length name) < 2 ^ 8 →
  e_min e + (8 + NORM_FILENAME (Z.of_nat (length name))) <= e_rec e →
  ∃ b1 b2, write_field buf (off + 4) 2 (e_min e) = Some b1 ∧
    put_entry junk b1 (off + e_min e) ino (e_rec e - e_min e) name (Z.of_nat (length name)) = Some b2 ∧
    length b2 = 1024%nat ∧ (Forall byte buf → Forall byte name → byte junk → Forall byte b2) ∧
    chain b2 0 (pre ++ with_rec e (e_min e) :: {| e_ino := ino; e_rec := e_rec e - e_min e; e_name := name |} :: post) 1024.
Proof.
  intros _ Hlen Hpre (He & Hm & Hpost) Hino Hname Hroom.
  pose proof (chain_le _ _ _ _ Hpre) as H0. pose proof (chain_le _ _ _ _ Hpost) as H1. pose proof (e_min_pos e) as Hpos.
  pose proof (NORM_spec (Z.of_nat (length name)) ltac:(lia)) as [Hnorm _].
  unfold write_field. destruct (zwrite_is_Some buf (off + 4) (le_bytes 2 (e_min e))) as [b1 E1]; [lia|simpl; lia|].
  pose proof (zwrite_length _ _ _ _ E1) as Hl1.
  destruct (put_entry_spec b1 (off + e_min e) ino (e_rec e - e_min e) name) as (b2 & E2 & Hnew & Hagree & Hbytes);
    [done|lia|done|lia|lia|].
  exists b1, b2. split; [done|]. split; [done|].
  assert (agree b1 b2 0 (off + e_min e)) as Ha2 by (apply Hagree; lia).
  split; [destruct Ha2; congruence|]. split.
  { intros Hb Hnb Hj. apply Hbytes; [|done|done]. eapply zwrite_byte; [exact E1|done|apply le_bytes_byte]. }
  assert (∀ a b, b <= off + 4 ∨ off + 6 <= a → agree buf b1 a b) as Ha1.
  { intros a b Hab. eapply agree_zwrite; [exact E1|simpl; lia]. }
  destruct He as (F1 & F2 & F3 & F4). apply chain_app. exists off. split.
  { eapply chain_agree; [|exact Hpre]. eapply agree_trans; [apply Ha1; lia|]. eapply agree_sub; [exact Ha2|lia|lia]. }
  simpl chain. split; [|split; [done|]].
  - unfold entry_at. cbn [e_ino e_rec e_name with_rec]. change (e_len (with_rec e (e_min e))) with (e_len e).
    unfold entry_inode, entry_rec_len, entry_name_len in *.
    assert (∀ a b, 0 <= a → b <= off + e_min e → agree b1 b2 a b) as Ha3 by (intros; eapply agree_sub; [exact Ha2|lia|lia]).
    split; [|split; [|split]].
    + eapply field_agree; [apply Ha3; lia|]. eapply field_agree; [apply Ha1; lia|done].
    + eapply field_agree; [apply Ha3; lia|]. unfold field. rewrite (zread_zwrite_same _ _ _ _ _ E1) by done.
      cbn [mbind option_bind]. f_equal. apply le_val_bytes. change (2 ^ (8 * Z.of_nat 2)) with 65536. lia.
    + eapply field_agree; [apply Ha3; lia|]. eapply field_agree; [apply Ha1; lia|done].
    + eapply zread_agree; [apply Ha3; lia|]. eapply zread_agree; [apply Ha1; lia|done].
  - split; [done|]. split; [unfold e_min at 1, e_len; cbn [e_name]; lia|].
    replace (off + e_min e + (e_rec e - e_min e)) with (off + e_rec e) by lia.
    eapply chain_agree; [|exact Hpost]. eapply agree_trans; [apply Ha1; lia|]. apply Hagree. lia.
Qed.

(** [s'] is [s] with other contents in block [b]. *)
Definition block_changed (s s' : fs_t) (b : Z) : Prop := ∃ x d',
  length x = 1024%nat ∧ Forall byte x ∧ zwrite (dev s) (1024 * b) x = Some d' ∧ s' = with_dev s d'.

Lemma block_changed_dir s s' b x es : drive_ok (dev s) → valid_block (dev s) b → length x = 1024%nat → Forall byte x →
  zwrite (dev s) (1024 * b) x = Some (dev s') → es ≠ [] → chain x 0 es 1024 → dir_block s' b es.
Proof.
  intros Hd Hv Hl Hx E Hne Hc. split; [by eapply drive_ok_write|]. split; [by eapply valid_block_write|].
  split; [done|]. by rewrite (block_at_written _ _ _ _ E Hl).
Qed.

Lemma insert_entry_None es ino name : insert_entry es ino name = None →
  Forall (λ e, e_rec e < e_min e + (8 + NORM_FILENAME (Z.of_nat (length name)))) es.
Proof.
  induction es as [|e es IH]; simpl; [constructor|].
  destruct (Z.leb_spec (e_min e + (8 + NORM_FILENAME (Z.of_nat (length name)))) (e_rec e)); [done|].
  intros Hi. constructor; [done|]. apply IH. by destruct (insert_entry es ino name).
Qed.

Lemma add_spec s b e0 es child name : dir_block s b (e0 :: es) → e_ino e0 ≠ 0 → byte junk →
  0 <= inode_indx child < 2 ^ 32 → Z.of_nat (length name) < 2 ^ 8 → Forall byte name →
  match insert_entry (e0 :: es) (inode_indx child) name with
  | None => _ext2_add_to_dir_block sb junk s b child name (Z.of_nat (length name)) = Some (Returned (- EFAULT, s))
  | Some es' => ∃ s', _ext2_add_to_dir_block sb junk s b child name (Z.of_nat (length name)) = Some (Returned (0, s')) ∧
      block_changed s s' b ∧ dir_block s' b es'
  end.
Proof.
  intros (Hd & Hv & Hne & Hc) He0 Hj Hino Hname Hnb. unfold _ext2_add_to_dir_block. pose proof Hv as [Hb _].
  destruct (Z.eqb_spec b 0); [lia|]. rewrite read_block_spec by done. cbn [mbind option_bind].
  pose proof Hc as ((Hi0 & _) & _). returns Hi0. destruct (Z.eqb_spec (e_ino e0) 0); [done|].
  rewrite (BLOCK_LEN_1024 sb Hlog). pose proof (length_block_at _ _ Hv) as Hl.
  pose proof (block_at_bytes (dev s) b ltac:(apply Hd)) as Hbb.
  destruct (insert_entry (e0 :: es) (inode_indx child) name) as [es'|] eqn:Ei.
  - apply insert_entry_split in Ei as (pre & e & post & Ees & Hpre & Hroom & ->). rewrite Ees in Hc.
    destruct (room_loop (block_at (dev s) b) (8 + NORM_FILENAME (Z.of_nat (length name))) (S (Z.to_nat 1024)) 0 pre e post
      Hc ltac:(lia) Hpre Hroom) as (mid & Hc1 & Hc2 & ->). cbn [mbind option_bind].
    destruct (split_record _ mid pre e post (inode_indx child) name Hc Hl Hc1 Hc2 Hino Hname Hroom)
      as (b1 & b2 & -> & E2 & Hl2 & Hby & Hch). cbn [mbind option_bind]. returns E2.
    destruct (write_block_spec sb Hlog (dev s) b b2) as (d' & -> & Ew); [done|done|by apply Hby|done|].
    cbn [mbind option_bind]. exists (with_dev s d'). split; [done|]. split.
    + exists b2, d'. split; [done|]. split; [by apply Hby|]. done.
    + eapply (block_changed_dir s); [done|done|exact Hl2|by apply Hby|done|by destruct pre|done].
  - rewrite (no_room_loop (block_at (dev s) b) (8 + NORM_FILENAME (Z.of_nat (length name))) _ 0 (e0 :: es));
      [done|done|done|lia|by eapply insert_entry_None].
Qed.

(** ** Removing *)

Fixpoint remove_after (p : entry) (es : list entry) (n : Z) : option (list entry) :=
  match es with
  | [] => None
  | e :: es =>
      if e_ino e =? n then Some (with_rec p (e_rec p + e_rec e) :: es) else (p ::.) <$> remove_after e es n
  end.

(** Two records become one in the buffer. *)
Lemma merge_records buf off pre q e post : length buf = 1024%nat →
  chain buf 0 pre off → chain buf off (q :: e :: post) 1024 →
  ∃ b1 b2, write_field buf (off + e_rec q) 4 0 = Some b1 ∧ entry_rec_len b1 off = Some (e_rec q) ∧
    write_field b1 (off + 4) 2 (u16 (e_rec q + e_rec e)) = Some b2 ∧ length b2 = 1024%nat ∧
    (Forall byte buf → Forall byte b2) ∧ chain b2 0 (pre ++ with_rec q (e_rec q + e_rec e) :: post) 1024.
Proof.
  intros Hlen Hpre (Hq & Hmq & He & Hme & Hpost).
  pose proof (chain_le _ _ _ _ Hpre). pose proof (chain_le _ _ _ _ Hpost). pose proof (e_min_pos q). pose proof (e_min_pos e).
  unfold write_field. destruct (zwrite_is_Some buf (off + e_rec q) (le_bytes 4 0)) as [b1 E1]; [lia|simpl; lia|].
  pose proof (zwrite_length _ _ _ _ E1) as Hl1.
  assert (∀ a b, b <= off + e_rec q ∨ off + e_rec q + 4 <= a → agree buf b1 a b) as Ha1.
  { intros a b Hab. eapply agree_zwrite; [exact E1|simpl; lia]. }
  destruct (zwrite_is_Some b1 (off + 4) (le_bytes 2 (u16 (e_rec q + e_rec e)))) as [b2 E2]; [lia|simpl; lia|].
  pose proof (zwrite_length _ _ _ _ E2) as Hl2.
  assert (∀ a b, b <= off + 4 ∨ off + 6 <= a → agree b1 b2 a b) as Ha2.
  { intros a b Hab. eapply agree_zwrite; [exact E2|simpl; lia]. }
  destruct Hq as (F1 & F2 & F3 & F4). unfold entry_inode, entry_rec_len, entry_name_len in *.
  exists b1, b2. split; [done|]. split; [eapply field_agree; [apply Ha1; lia|done]|]. split; [done|].
  split; [congruence|]. split.
  { intros Hb. eapply zwrite_byte; [exact E2| |apply le_bytes_byte]. eapply zwrite_byte; [exact E1|done|apply le_bytes_byte]. }
  apply chain_app. exists off. split.
  { eapply chain_agree; [|exact Hpre]. eapply agree_trans; [apply Ha1; lia|apply Ha2; lia]. }
  simpl chain. split; [|split].
  - unfold entry_at. cbn [e_ino e_rec e_name with_rec]. change (e_len (with_rec q (e_rec q + e_rec e))) with (e_len q).
    unfold entry_inode, entry_rec_len, entry_name_len.
    split; [|split; [|split]].
    + eapply field_agree; [apply Ha2; lia|]. eapply field_agree; [apply Ha1; lia|done].
    + unfold field. rewrite (zread_zwrite_same _ _ _ _ _ E2) by done.
      cbn [mbind option_bind]. f_equal. unfold u16. rewrite (Z.mod_small _ (2 ^ 16)) by lia.
      apply le_val_bytes. change (2 ^ (8 * Z.of_nat 2)) with 65536. lia.
    + eapply field_agree; [apply Ha2; lia|]. eapply field_agree; [apply Ha1; lia|done].
    + eapply zread_agree; [apply Ha2; lia|]. eapply zread_agree; [apply Ha1; lia|done].
  - change (e_min (with_rec q (e_rec q + e_rec e))) with (e_min q). lia.
  - rewrite Z.add_assoc. eapply chain_agree; [|exact Hpost]. eapply agree_trans; [apply Ha1; lia|apply Ha2; lia].
Qed.

Lemma rm_loop s b child fuel pre off q es : drive_ok (dev s) → valid_block (dev s) b →
  chain (block_at (dev s) b) 0 pre off → chain (block_at (dev s) b) off (q :: es) 1024 → es ≠ [] →
  1024 - (off + e_rec q) < Z.of_nat fuel →
  match remove_after q es (inode_indx child) with
  | None => loop fuel (rm_step sb s child (_ext2_get_block_offset sb b) (block_at (dev s) b)) (off + e_rec q, Some off) =
      Some (Returned (- EFAULT, s))
  | Some es' => ∃ s',
      loop fuel (rm_step sb s child (_ext2_get_block_offset sb b) (block_at (dev s) b)) (off + e_rec q, Some off) =
        Some (Returned (0, s')) ∧ block_changed s s' b ∧ dir_block s' b (pre ++ es')
  end.
Proof.
  intros Hd Hv. revert pre off q es. induction fuel as [|fuel IH]; intros pre off q es Hpre Hc Hne Hf.
  { destruct Hc as (_ & _ & Hc). destruct es as [|e es]; [done|]. pose proof (chain_le _ _ _ _ Hc). lia. }
  destruct es as [|e es]; [done|]. pose proof Hc as (Hq & Hmq & He & Hme & Hpost).
  pose proof He as (Hi & Hr & _ & _). pose proof (chain_le _ _ _ _ Hpost). pose proof (e_min_pos e).
  pose proof (length_block_at _ _ Hv) as Hl. pose proof (block_at_bytes (dev s) b ltac:(apply Hd)) as Hbb.
  rewrite !loop_S. cbn [remove_after]. unfold rm_step at 1 3. rewrite !Hi, !Hr. cbn [mbind option_bind].
  destruct (Z.eqb_spec (e_ino e) (inode_indx child)).
  - destruct (merge_records _ off pre q e es Hl Hpre Hc) as (b1 & b2 & -> & E2 & E3 & Hl2 & Hby & Hch).
    cbn [mbind option_bind]. returns E2. returns E3.
    destruct (write_block_spec sb Hlog (dev s) b b2) as (d' & -> & Ew); [done|done|by apply Hby|done|].
    cbn [mbind option_bind]. exists (with_dev s d'). split; [done|]. split.
    + exists b2, d'. split; [done|]. split; [by apply Hby|]. done.
    + eapply (block_changed_dir s); [done|done|exact Hl2|by apply Hby|done|by destruct pre|done].
  - rewrite (BLOCK_LEN_1024 sb Hlog). destruct es as [|e2 es].
    + simpl in Hpost. destruct (Z.leb_spec 1024 (off + e_rec q + e_rec e)); [|lia]. done.
    + pose proof Hpost as (_ & Hm2 & Hc2). pose proof (chain_le _ _ _ _ Hc2). pose proof (e_min_pos e2).
      destruct (Z.leb_spec 1024 (off + e_rec q + e_rec e)); [lia|].
      assert (chain (block_at (dev s) b) 0 (pre ++ [q]) (off + e_rec q)) as Hpre'.
      { apply chain_app. exists off. split; [done|]. by split. }
      assert (chain (block_at (dev s) b) (off + e_rec q) (e :: e2 :: es) 1024) as Hc' by (by split).
      specialize (IH (pre ++ [q]) (off + e_rec q) e (e2 :: es) Hpre' Hc' ltac:(done) ltac:(lia)).
      destruct (remove_after e (e2 :: es) (inode_indx child)) as [es'|]; [|done].
      destruct IH as (s' & El & Hch & Hdir). exists s'. split; [done|]. split; [done|].
      by rewrite <- app_assoc in Hdir.
Qed.

Lemma rm_spec s b e0 es child : dir_block s b (e0 :: es) →
  if e_ino e0 =? inode_indx child then _ext2_rm_from_dir_block sb s b child = Some SystemStop else
  match remove_after e0 es (inode_indx child) with
  | None => _ext2_rm_from_dir_block sb s b child = Some (Returned (- EFAULT, s))
  | Some es' => ∃ s', _ext2_rm_from_dir_block sb s b child = Some (Returned (0, s')) ∧
      block_changed s s' b ∧ dir_block s' b es'
  end.
Proof.
  intros (Hd & Hv & Hne & Hc). unfold _ext2_rm_from_dir_block. pose proof Hv as [Hb _].
  destruct (Z.eqb_spec b 0); [lia|]. rewrite read_block_spec by done. cbn [mbind option_bind].
  rewrite (BLOCK_LEN_1024 sb Hlog). pose proof Hc as ((Hi & Hr & _) & Hm & Hpost).
  assert (rm_step sb s child (_ext2_get_block_offset sb b) (block_at (dev s) b) (0, None) =
    if e_ino e0 =? inode_indx child then Some (inr SystemStop)
    else if 1024 <=? 0 + e_rec e0 then Some (inr (Returned (- EFAULT, s))) else Some (inl (0 + e_rec e0, Some 0))) as Est.
  { unfold rm_step. rewrite Hi, Hr, (BLOCK_LEN_1024 sb Hlog). done. }
  rewrite !loop_S, Est. destruct (Z.eqb_spec (e_ino e0) (inode_indx child)); [done|].
  pose proof (chain_le _ _ _ _ Hpost). pose proof (e_min_pos e0). destruct es as [|e es].
  - simpl in Hpost. destruct (Z.leb_spec 1024 (0 + e_rec e0)); [done|lia].
  - pose proof Hpost as (_ & Hm2 & Hc2). pose proof (chain_le _ _ _ _ Hc2). pose proof (e_min_pos e).
    destruct (Z.leb_spec 1024 (0 + e_rec e0)); [lia|].
    apply (rm_loop s b child _ [] 0 e0 (e :: es)); [done|done|done|done|done|lia].
Qed.

(** ** Entries by number and name *)

Definition ident (e : entry) : Z * list Z := (e_ino e, e_name e).

Lemma insert_entry_idents es ino name es' : insert_entry es ino name = Some es' →
  map ident es' ≡ₚ (ino, name) :: map ident es.
Proof.
  intros (pre & e & post & -> & _ & _ & ->)%insert_entry_split. rewrite !map_app. cbn [map].
  change (ident (with_rec e (e_min e))) with (ident e). unfold ident at 3. cbn [e_ino e_name].
  rewrite <- !Permutation_middle. apply perm_swap || reflexivity.
Qed.

Lemma remove_after_idents p es n es' : remove_after p es n = Some es' →
  ∃ name, map ident (p :: es) ≡ₚ (n, name) :: map ident es'.
Proof.
  revert p es'. induction es as [|e es IH]; intros p es'; cbn [remove_after]; [done|].
  destruct (Z.eqb_spec (e_ino e) n) as [<-|].
  - intros [= <-]. exists (e_name e). cbn [map]. change (ident (with_rec p (e_rec p + e_rec e))) with (ident p).
    apply perm_swap.
  - intros (es1 & Hr & ->)%fmap_Some. destruct (IH e es1 Hr) as [name Hp]. exists name. cbn [map] in *.
    rewrite Hp. apply perm_swap.
Qed.
Lemma remove_after_None p es n : remove_after p es n = None → Forall (λ e, e_ino e ≠ n) es.
Proof.
  revert p. induction es as [|e es IH]; intros p; cbn [remove_after]; [constructor|].
  destruct (Z.eqb_spec (e_ino e) n); [done|]. intros Hr. constructor; [done|].
  apply (IH e). by destruct (remove_after e es n).
Qed.

(** Every entry is in use. *)
Definition all_live (es : list entry) : Prop := Forall (λ e, e_ino e ≠ 0) es.

Lemma find_name_spec es name : all_live es →
  (∃ ino, find_name es name = (0, ino) ∧ (ino, name) ∈ map ident es) ∨
  (find_name es name = (- EFAULT, 0) ∧ ∀ ino, (ino, name) ∉ map ident es).
Proof.
  induction 1 as [|e es He _ IH]; [right; split; [done|]; intros ? []%not_elem_of_nil|].
  cbn [find_name map]. destruct (Z.eqb_spec (e_ino e) 0); [done|]. case_bool_decide as Hn.
  - left. exists (e_ino e). split; [done|]. unfold ident at 1. rewrite Hn. left.
  - destruct IH as [(ino & -> & Hin)|[-> Hno]].
    + left. exists ino. split; [done|]. by right.
    + right. split; [done|]. intros ino. rewrite elem_of_cons. unfold ident at 1.
      intros [[= _ Heq]|Hin]; [by apply Hn|]. by eapply Hno.
Qed.

Lemma all_live_idents es es' : map ident es' ⊆ map ident es → all_live es → all_live es'.
Proof.
  intros Hsub Hl. apply Forall_forall. intros e He Hz. apply (list_elem_of_fmap_2 ident) in He.
  apply Hsub, list_elem_of_fmap in He as (e2 & Heq & He2).
  unfold all_live in Hl. rewrite Forall_forall in Hl. apply (Hl e2 He2). unfold ident in Heq. congruence.
Qed.

(** ** Whole directories *)

(** The directory [d] of [n] blocks, block [k] being [f k] and holding [ess k]. *)
Record directory (s : fs_t) (d : dentry_t) (n : Z) (f : Z → Z) (ess : Z → list entry) : Prop := {
  di_alloc : alloc_ok sb s;
  di_file : file_ok s d n f;
  di_block k : 0 <= k < n → dir_block s (f k) (ess k);
}.

(** The entries of block [k0] are now [es']. *)
Definition with_entries (ess : Z → list entry) (k0 : Z) (es' : list entry) (k : Z) : list entry :=
  if decide (k = k0) then es' else ess k.

Lemma directory_changed s s' d n f ess k0 es' : directory s d n f ess → 0 <= k0 < n →
  block_changed s s' (f k0) → dir_block s' (f k0) es' → directory s' d n f (with_entries ess k0 es').
Proof.
  intros [Hao Hf Hb] Hk0 (x & d' & Hl & Hx & E & ->) Hdir.
  replace (1024 * f k0) with (1024 * f k0 + 0) in E by lia.
  pose proof (fo_owned _ _ _ _ Hf k0 Hk0) as Hown.
  destruct (write_fbyte sb s d n f k0 0 x d' Hao Hf Hk0 Hx) as (Hao' & _ & Hf' & _); [lia|lia|done|].
  constructor; [done|done|]. intros k Hk. unfold with_entries. case_decide as Hkk; [by subst|].
  destruct (Hb k Hk) as (Hd & Hv & Hne & Hc). split; [apply Hdir|].
  split; [unfold valid_block in *; cbn [dev with_dev]; by rewrite (zwrite_length _ _ _ _ E)|]. split; [done|].
  cbn [dev with_dev]. rewrite (write_other s (f k0) 0 x d' ltac:(lia) E); [done|].
  intros Heq. apply Hkk. by apply (fo_inj _ _ _ _ Hf).
Qed.

Lemma dir_blocks_cnt s d n f ess : directory s d n f ess → TO_EXT_BLOCKS_CNT sb (blocks (inode d)) = n.
Proof.
  intros [_ Hf _]. rewrite blocks_cnt by done. rewrite (fo_blocks _ _ _ _ Hf), Z.mul_comm. apply Z.div_mul. lia.
Qed.

Lemma dir_get_block s d n f ess k : directory s d n f ess → 0 <= k < n →
  _ext2_get_block_of_inode sb s d k = Some (f k) ∧ (f k =? 0) = false.
Proof.
  intros Hdir Hk. destruct Hdir as [Hao Hf Hb]. rewrite (get_block_spec sb Hlog s d n f k) by done. split; [done|].
  destruct (fo_owned _ _ _ _ Hf k Hk) as ((? & _) & _). lia.
Qed.

Lemma dir_lookup_spec s d n f ess name : directory s d n f ess → (∀ k, 0 <= k < n → all_live (ess k)) →
  (∃ ino k, 0 <= k < n ∧ (ino, name) ∈ map ident (ess k) ∧ (∀ j i, 0 <= j < k → (i, name) ∉ map ident (ess j)) ∧
     ext2_lookup sb s d name (Z.of_nat (length name)) = Some (Some ino)) ∨
  ((∀ ino k, 0 <= k < n → (ino, name) ∉ map ident (ess k)) ∧
     ext2_lookup sb s d name (Z.of_nat (length name)) = Some None).
Proof.
  intros Hdir Hlive. unfold ext2_lookup. cbv zeta. rewrite (dir_blocks_cnt s d n f ess Hdir).
  pose proof (fo_n _ _ _ _ (di_file _ _ _ _ _ Hdir)) as Hn.
  match goal with |- context [for_loop ?nn ?i0 ?g ?s0] =>
    destruct (for_loop_total (λ k _, ∀ i j, 0 <= j < k → (i, name) ∉ map ident (ess j))
      (λ ino, ∃ k, 0 <= k < n ∧ (ino, name) ∈ map ident (ess k) ∧
         ∀ j i, 0 <= j < k → (i, name) ∉ map ident (ess j)) g nn i0 s0) as (x & -> & Hx) end.
  - intros i j ?. lia.
  - intros k [] Hk Hno. destruct (dir_get_block s d n f ess k Hdir) as [-> _]; [lia|]. cbn [mbind option_bind].
    rewrite (lookup_spec s (f k) (ess k)) by (apply (di_block _ _ _ _ _ Hdir); lia). cbn [mbind option_bind].
    destruct (find_name_spec (ess k) name) as [(ino & -> & Hin)|[-> Hnot]]; [apply Hlive; lia| |].
    + change (0 =? 0) with true. cbv match. exists k. split; [lia|]. split; [done|]. intros j i Hj. by apply Hno.
    + change (- EFAULT =? 0) with false. cbv match. intros i j Hj.
      destruct (decide (j = k)) as [->|]; [apply Hnot|apply Hno; lia].
  - cbn [mbind option_bind]. destruct x as [[]|ino].
    + right. split; [|done]. intros ino k Hk. apply Hx. lia.
    + left. destruct Hx as (k & Hk & Hin & Hfirst). exists ino, k. done.
Qed.

(** A new link of the child. *)
Definition linked (c : dentry_t) (n : Z) : dentry_t :=
  set_dirty (with_inode c (set_links_count (inode c) (links_count (inode c) + n))).

Lemma for_loop_first {R} n lo k (body : Z → unit → option (unit + R)) r :
  lo <= k < lo + Z.of_nat n → (∀ i, lo <= i < k → body i () = Some (inl ())) → body k () = Some (inr r) →
  for_loop n lo body () = Some (inr r).
Proof.
  revert lo. induction n as [|n IH]; intros lo Hk Hskip Hb; [lia|]. rewrite for_loop_S.
  destruct (decide (lo = k)) as [->|]; [by rewrite Hb|]. rewrite Hskip by lia.
  apply IH; [lia| |done]. intros i Hi. apply Hskip. lia.
Qed.

Lemma add_child_spec s ds dir child d c n f ess name k0 es' : directory s d n f ess →
  ds !! dir = Some d → ds !! child = Some c → byte junk → 0 <= inode_indx c < 2 ^ 32 →
  Z.of_nat (length name) < 2 ^ 8 → Forall byte name → (∀ k, 0 <= k < n → all_live (ess k)) →
  0 <= k0 < n → insert_entry (ess k0) (inode_indx c) name = Some es' →
  (∀ k, 0 <= k < k0 → insert_entry (ess k) (inode_indx c) name = None) →
  ∃ s', _ext2_add_child sb junk s ds dir child name (Z.of_nat (length name)) =
      Some (Returned (0, s', <[child := linked c 1]> ds)) ∧
    directory s' d n f (with_entries ess k0 es').
Proof.
  intros Hdir Hd Hc Hj Hino Hname Hnb Hlive Hk0 Hins Hnone. unfold _ext2_add_child. rewrite Hd, Hc.
  cbn [mbind option_bind]. cbv zeta. rewrite (dir_blocks_cnt s d n f ess Hdir).
  assert (∀ k, 0 <= k < n → ∃ e0 es, ess k = e0 :: es ∧ e_ino e0 ≠ 0 ∧ dir_block s (f k) (e0 :: es)) as Hfirst.
  { intros k Hk. pose proof (di_block _ _ _ _ _ Hdir k Hk) as Hb. pose proof (Hlive k Hk) as Hl.
    destruct (ess k) as [|e0 es]; [by destruct Hb as (_ & _ & [] & _)|]. apply Forall_cons in Hl as [? _]. eauto. }
  destruct (Hfirst k0 Hk0) as (e0 & es & Ees & He0 & Hb0).
  pose proof (add_spec s (f k0) e0 es c name Hb0 He0 Hj Hino Hname Hnb) as Hadd. rewrite <- Ees, Hins in Hadd.
  destruct Hadd as (s' & Eadd & Hch & Hdb).
  rewrite (for_loop_first _ 0 k0 _ (Returned s')); [|lia| |].
  - cbn [mbind option_bind]. unfold count_link. rewrite Hc. cbn [mbind option_bind]. exists s'. split; [done|].
    by eapply directory_changed.
  - intros k Hk. destruct (dir_get_block s d n f ess k Hdir) as [Eg Ez]; [lia|]. returns Eg. rewrite Ez. cbn [negb].
    destruct (Hfirst k ltac:(lia)) as (e1 & es1 & Ees1 & He1 & Hb1).
    pose proof (add_spec s (f k) e1 es1 c name Hb1 He1 Hj Hino Hname Hnb) as Hadd.
    rewrite <- Ees1, Hnone in Hadd by lia. rewrite Hadd. done.
  - destruct (dir_get_block s d n f ess k0 Hdir) as [Eg Ez]; [lia|]. returns Eg. rewrite Ez. cbn [negb]. by rewrite Eadd.
Qed.

Lemma rm_child_spec s ds dir child d c n f ess k0 e0 es es' : directory s d n f ess →
  ds !! dir = Some d → ds !! child = Some c → 0 <= k0 < n → ess k0 = e0 :: es →
  e_ino e0 ≠ inode_indx c → remove_after e0 es (inode_indx c) = Some es' →
  (∀ k, 0 <= k < k0 → Forall (λ e, e_ino e ≠ inode_indx c) (ess k)) →
  ∃ s', _ext2_rm_child sb s ds dir child = Some (Returned (0, s', <[child := linked c (-1)]> ds)) ∧
    directory s' d n f (with_entries ess k0 es').
Proof.
  intros Hdir Hd Hc Hk0 Ees He0 Hrm Hnone. unfold _ext2_rm_child. rewrite Hd, Hc.
  cbn [mbind option_bind]. cbv zeta. rewrite (dir_blocks_cnt s d n f ess Hdir).
  pose proof (di_block _ _ _ _ _ Hdir k0 Hk0) as Hb0. rewrite Ees in Hb0.
  pose proof (rm_spec s (f k0) e0 es c Hb0) as Hr. destruct (Z.eqb_spec (e_ino e0) (inode_indx c)); [done|].
  rewrite Hrm in Hr. destruct Hr as (s' & Erm & Hch & Hdb).
  rewrite (for_loop_first _ 0 k0 _ (Returned s')); [|lia| |].
  - cbn [mbind option_bind]. unfold count_link. rewrite Hc. cbn [mbind option_bind]. exists s'. split; [done|].
    by eapply directory_changed.
  - intros k Hk. destruct (dir_get_block s d n f ess k Hdir) as [Eg Ez]; [lia|]. returns Eg. rewrite Ez. cbn [negb].
    pose proof (di_block _ _ _ _ _ Hdir k ltac:(lia)) as Hb1. specialize (Hnone k Hk).
    destruct (ess k) as [|e1 es1]; [by destruct Hb1 as (_ & _ & [] & _)|].
    apply Forall_cons in Hnone as [Hne Hnone]. pose proof (rm_spec s (f k) e1 es1 c Hb1) as Hr.
    destruct (Z.eqb_spec (e_ino e1) (inode_indx c)); [done|].
    destruct (remove_after e1 es1 (inode_indx c)) as [es2|] eqn:E2.
    { exfalso. destruct (remove_after_idents _ _ _ _ E2) as [nm Hp].
      assert ((inode_indx c, nm) ∈ map ident (e1 :: es1)) as Hin by (rewrite Hp; left).
      apply list_elem_of_fmap in Hin as (e & [= Heq _] & He). apply elem_of_cons in He as [->|He]; [done|].
      rewrite Forall_forall in Hnone. by apply (Hnone e He). }
    rewrite Hr. done.
  - destruct (dir_get_block s d n f ess k0 Hdir) as [Eg Ez]; [lia|]. returns Eg. rewrite Ez. cbn [negb]. by rewrite Erm.
Qed.

(** *** The first entry of a block *)

Lemma ptr_bytes_mod4 : ptr_bytes mod 4 = 0 ∧ 0 < ptr_bytes <= 8.
Proof. unfold ptr_bytes. destruct ptr_bits_cases as [-> | ->]; split; (done || lia). Qed.

Lemma entry_at_part buf x off e n : zread buf 0 n = Some x → entry_at x off e → entry_at buf off e.
Proof.
  intros Hx He. pose proof (entry_at_in _ _ _ He) as Hin. pose proof (zread_len _ _ _ _ Hx) as Hl.
  destruct He as (H1 & H2 & H3 & H4). assert (0 <= e_len e) by (unfold e_len; lia).
  unfold entry_at, entry_inode, entry_rec_len, entry_name_len, field in *.
  rewrite !(zread_sub buf 0 n x) in * by (done || lia). rewrite !Z.add_0_l in *. done.
Qed.
End dir.

(** ** Properties *)

Section properties.
Context `{Platform} (sb : superblock_t) (junk : Z).

(** Looking up. In a directory of up to 268 blocks whose entries are all in
    use, [ext2_lookup] ends and finds a name exactly if some entry has it: then it
    gives the inode of an entry with that name, from the first block that has
    one. *)
Theorem ext2_lookup_finds s d n f ess name :
  log_block_size sb = 0 → directory sb s d n f ess → (∀ k, 0 <= k < n → all_live (ess k)) →
  (∃ ino k, 0 <= k < n ∧ (ino, name) ∈ map ident (ess k) ∧ (∀ j i, 0 <= j < k → (i, name) ∉ map ident (ess j)) ∧
     ext2_lookup sb s d name (Z.of_nat (length name)) = Some (Some ino)) ∨
  ((∀ ino k, 0 <= k < n → (ino, name) ∉ map ident (ess k)) ∧
     ext2_lookup sb s d name (Z.of_nat (length name)) = Some None).
Proof. intros Hlog. by apply dir_lookup_spec. Qed.

(** C14. Adding a child to a directory one of whose blocks has room, and none of
    whose entries is cleared: the first such block gets the entry and keeps all the
    ones it had; the other blocks of the directory and its well-formedness are
    untouched and the child has one link more. If no entry had the name before, the
    name is then found, and stands for the child. (When no block has room the
    directory gets a new one, in which the first entry overflows a buffer unless its
    name is short: [ext2_first_entry_room].) *)
Theorem ext2_add_child_found s ds dir child d c n f ess name k0 es' :
  log_block_size sb = 0 → directory sb s d n f ess → (∀ k, 0 <= k < n → all_live (ess k)) →
  ds !! dir = Some d → ds !! child = Some c → byte junk → 0 < inode_indx c < 2 ^ 32 →
  Z.of_nat (length name) < 2 ^ 8 → Forall byte name → 
  0 <= k0 < n → insert_entry (ess k0) (inode_indx c) name = Some es' →
  (∀ k, 0 <= k < k0 → insert_entry (ess k) (inode_indx c) name = None) →
  ∃ s', _ext2_add_child sb junk s ds dir child name (Z.of_nat (length name)) =
      Some (Returned (0, s', <[child := linked c 1]> ds)) ∧
    directory sb s' d n f (with_entries ess k0 es') ∧
    map ident es' ≡ₚ (inode_indx c, name) :: map ident (ess k0) ∧
    ((∀ ino k, 0 <= k < n → (ino, name) ∉ map ident (ess k)) →
      ext2_lookup sb s' d name (Z.of_nat (length name)) = Some (Some (inode_indx c))).
Proof.
  intros Hlog Hdir Hlive Hd Hc Hj Hino Hname Hnb Hk0 Hins Hnone.
  destruct (add_child_spec sb junk Hlog s ds dir child d c n f ess name k0 es') as (s' & E & Hdir');
    [done|done|done|done|lia|done|done|done|done|done|done|].
  pose proof (insert_entry_idents _ _ _ _ Hins) as Hp.
  exists s'. split; [done|]. split; [done|]. split; [done|]. intros Hnew.
  assert (∀ k, 0 <= k < n → all_live (with_entries ess k0 es' k)) as Hlive'.
  { intros k Hk. unfold with_entries. case_decide; [|by apply Hlive].
    apply Forall_forall. intros e He. apply (list_elem_of_fmap_2 ident) in He. rewrite Hp in He.
    apply elem_of_cons in He as [[= -> _]|He]; [lia|].
    apply list_elem_of_fmap in He as (e2 & [= -> _] & He2). pose proof (Hlive k0 Hk0) as Hl.
    unfold all_live in Hl. rewrite Forall_forall in Hl. by apply Hl. }
  destruct (dir_lookup_spec sb Hlog s' d n f _ name Hdir' Hlive') as [(ino & k & Hk & Hin & _ & ->)|[Hno _]].
  - unfold with_entries in Hin. case_decide as Hkk; [|by destruct (Hnew ino k Hk)].
    rewrite Hp in Hin. apply elem_of_cons in Hin as [[= ->]|Hin]; [done|]. by destruct (Hnew ino k0 Hk0).
  - destruct (Hno (inode_indx c) k0 Hk0). unfold with_entries. rewrite decide_True by done. rewrite Hp. left.
Qed.

(** C27. Removing a child. If the first block with an entry of the child does not
    have it in the first place, [_ext2_rm_child] takes that entry, and no other,
    out of the directory, which stays well formed, and the child has one link
    less. An entry in the first place of its block stops the system. *)
Theorem ext2_rm_child_removes s ds dir child d c n f ess k0 e0 es :
  log_block_size sb = 0 → directory sb s d n f ess → ds !! dir = Some d → ds !! child = Some c →
  0 <= k0 < n → ess k0 = e0 :: es → inode_indx c ∈ map e_ino (e0 :: es) →
  (∀ k, 0 <= k < k0 → Forall (λ e, e_ino e ≠ inode_indx c) (ess k)) →
  if e_ino e0 =? inode_indx c then
    _ext2_rm_from_dir_block sb s (f k0) c = Some SystemStop
  else ∃ s' es' name, _ext2_rm_child sb s ds dir child = Some (Returned (0, s', <[child := linked c (-1)]> ds)) ∧
    directory sb s' d n f (with_entries ess k0 es') ∧
    map ident (ess k0) ≡ₚ (inode_indx c, name) :: map ident es'.
Proof.
  intros Hlog Hdir Hd Hc Hk0 Ees Hin Hnone. destruct (Z.eqb_spec (e_ino e0) (inode_indx c)) as [He|He].
  - pose proof (di_block _ _ _ _ _ _ Hdir k0 Hk0) as Hb. rewrite Ees in Hb.
    pose proof (rm_spec sb Hlog s (f k0) e0 es c Hb) as Hr. by rewrite He, Z.eqb_refl in Hr.
  - destruct (remove_after e0 es (inode_indx c)) as [es'|] eqn:Erm.
    + destruct (rm_child_spec sb Hlog s ds dir child d c n f ess k0 e0 es es') as (s' & E & Hdir'); [done..|].
      destruct (remove_after_idents _ _ _ _ Erm) as [name Hp]. exists s', es', name. rewrite Ees. done.
    + exfalso. apply remove_after_None in Erm. rewrite Forall_forall in Erm.
      apply list_elem_of_fmap in Hin as (e & Heq & He1). apply elem_of_cons in He1 as [->|He1]; [done|].
      by apply (Erm e He1).
Qed.

(** The first entry of a new block. The buffer on the stack has the size of
    [dir_entry_t], the head of a record and a pointer. A name that fits in the
    place of the pointer gets a record as long as the block; with a longer name,
    from 9 characters on (5 on 32-bit targets), the copy runs over the stack. *)
Theorem ext2_first_entry_room s b child name :
  log_block_size sb = 0 → drive_ok (dev s) → valid_block (dev s) b → byte junk → 0 <= inode_indx child < 2 ^ 32 →
  Z.of_nat (length name) < 2 ^ 8 → Forall byte name →
  if Z.of_nat (length name) <=? ptr_bytes then
    ∃ s', _ext2_add_first_entry_to_dir_block sb junk s b child name (Z.of_nat (length name)) = Some (0, s') ∧
      dir_block s' b [{| e_ino := inode_indx child; e_rec := 1024; e_name := name |}] ∧
      ∀ b', b' ≠ b → block_at (dev s') b' = block_at (dev s) b'
  else _ext2_add_first_entry_to_dir_block sb junk s b child name (Z.of_nat (length name)) = None.
Proof.
  intros Hlog Hd Hv Hj Hino Hname Hnb. unfold _ext2_add_first_entry_to_dir_block. pose proof Hv as [Hb Hv2].
  destruct (Z.eqb_spec b 0); [lia|]. rewrite (block_offset sb Hlog (dev s) b Hd Hv), (BLOCK_LEN_1024 sb Hlog).
  destruct ptr_bytes_mod4 as [Hp4 Hp8]. unfold DIR_ENTRY_LEN. rewrite read_from_dev_spec by (apply Hd || lia).
  destruct (zread_is_Some (dev s) (1024 * b) (8 + ptr_bytes)) as [x Ex]; [lia..|]. returns Ex.
  pose proof (zread_len _ _ _ _ Ex) as Hlx. set (len := Z.of_nat (length name)) in *.
  destruct (Z.leb_spec len ptr_bytes) as [Hfit|Hfit].
  - assert (NORM_FILENAME len <= ptr_bytes) as Hnorm.
    { pose proof (NORM_spec len ltac:(lia)). Z.div_mod_to_equations. lia. }
    destruct (put_entry_spec junk x 0 (inode_indx child) 1024 name) as (x' & Ep & Hat & _ & Hby);
      [done|lia|done|lia|fold len; lia|]. fold len in Ep. returns Ep.
    assert (length x' = length x) as Hlx'.
    { unfold put_entry in Ep. apply bind_Some in Ep as (x1 & E1%zwrite_length & Ep).
      apply bind_Some in Ep as (nm & _ & Ep). apply bind_Some in Ep as (x2 & E2%zwrite_length & E3%zwrite_length). congruence. }
    assert (Forall byte x) as Hbx.
    { unfold zread in Ex. case_decide; [|done]. injection Ex as <-. apply Forall_take, Forall_drop, Hd. }
    rewrite write_to_dev_spec by (apply Hd || lia).
    destruct (zwrite_is_Some (dev s) (1024 * b) x') as [d' Ew]; [lia..|]. returns Ew.
    assert (valid_block d' b) as Hv' by (eapply valid_block_write; done).
    exists (with_dev s d'). split; [done|]. cbn [dev with_dev]. split.
    + split; [eapply drive_ok_write; [done| |done]; by apply Hby|]. split; [done|]. split; [done|]. cbn [dev with_dev].
      split; [|split].
      * apply (entry_at_part _ x' _ _ (8 + ptr_bytes)); [|done].
        rewrite (zread_sub d' (1024 * b) 1024) by (by apply block_at_read || lia). rewrite Z.add_0_r.
        eapply zread_zwrite_same; [done|lia].
      * unfold e_min, e_len. cbn [e_name e_rec]. fold len. lia.
      * done.
    + intros b' Hne. eapply block_at_outside; [done|]. lia.
  - unfold put_entry. 
    destruct (zwrite_is_Some x 0 (le_bytes 4 (inode_indx child) ++ le_bytes 2 1024 ++ le_bytes 1 len ++ [junk])) as [x1 E1];
      [lia|simpl; lia|]. rewrite E1. cbn [mbind option_bind].
    assert (zread name 0 len = Some name) as ->.
    { apply zread_Some. split; [lia|]. split; [lia|]. split; [lia|]. split; [done|]. intros. f_equal; lia. }
    cbn [mbind option_bind]. pose proof (zwrite_length _ _ _ _ E1).
    assert (zwrite x1 (0 + 8) name = None) as -> by (unfold zwrite; rewrite decide_False by (fold len; lia); done).
    done.
Qed.
End properties.

(** ** Examples *)

(** The directory in block 9: [.], [..] and a file [ab]; block 10 is empty but
    for a first entry. *)
Definition dir_entries : list entry :=
  [{| e_ino := 2; e_rec := 12; e_name := [46] |}; {| e_ino := 2; e_rec := 12; e_name := [46; 46] |};
   {| e_ino := 12; e_rec := 1000; e_name := [97; 98] |}].
Definition dir_entries2 : list entry := [{| e_ino := 13; e_rec := 1024; e_name := [99] |}].
Definition entry_bytes (e : entry) : list Z :=
  le_bytes 4 (e_ino e) ++ le_bytes 2 (e_rec e) ++ le_bytes 1 (e_len e) ++ [0] ++ e_name e ++
  replicate (Z.to_nat (e_rec e - 8 - e_len e)) 0.
Definition dir_drive : disk :=
  replicate 3072 0 ++ file_bitmap ++ replicate (5 * 1024) 0 ++ concat (map entry_bytes dir_entries) ++
  concat (map entry_bytes dir_entries2) ++ replicate (21 * 1024) 0.
Definition dir_fs : fs_t := {| dev := dir_drive; gt := [file_group] |}.
Definition dir_dentry : dentry_t :=
  {| d_count := 1; inode_indx := 2; inode := set_mode file_inode 0x41ed; dirty := false |}.
Definition dir_ess (k : Z) : list entry := if k =? 0 then dir_entries else dir_entries2.
Definition dir_store : dentries := {[ 1 := dir_dentry; 2 := file_dentry ]}.

Lemma dir_drive_length : Z.of_nat (length dir_drive) = 32768.
Proof. vm_compute. reflexivity. Qed.
Lemma dir_drive_ok : drive_ok dir_drive.
Proof.
  split; [split; rewrite dir_drive_length; [done|lia]|]. apply (bool_decide_unpack _). vm_compute. exact I.
Qed.
Lemma dir_drive_bitmap : block_at dir_drive 3 = file_bitmap.
Proof. vm_compute. reflexivity. Qed.

Lemma entry_at_dec buf off e :
  bool_decide (entry_inode buf off = Some (e_ino e) ∧ entry_rec_len buf off = Some (e_rec e) ∧
    entry_name_len buf off = Some (e_len e) ∧ zread buf (off + 8) (e_len e) = Some (e_name e)) = true → entry_at buf off e.
Proof. intros H%bool_decide_eq_true. exact H. Qed.

Lemma dir_example : directory file_sb dir_fs dir_dentry 2 file_blocks dir_ess.
Proof.
  constructor.
  - apply (drive_alloc_ok dir_drive dir_drive_ok dir_drive_length dir_drive_bitmap).
  - by apply (drive_file_ok dir_drive dir_drive_length dir_drive_bitmap).
  - intros k Hk. assert (k = 0 ∨ k = 1) as [-> | ->] by lia; (split; [apply dir_drive_ok|]; split;
      [unfold valid_block, file_blocks; cbn [dev dir_fs]; rewrite dir_drive_length; lia|]; split; [done|]).
    + change (dir_ess 0) with dir_entries. change (file_blocks 0) with 9. cbn [chain dir_entries].
      repeat (split; [apply entry_at_dec; vm_compute; reflexivity|split; [vm_compute; discriminate|]]). done.
    + change (dir_ess 1) with dir_entries2. change (file_blocks 1) with 10. cbn [chain dir_entries2].
      repeat (split; [apply entry_at_dec; vm_compute; reflexivity|split; [vm_compute; discriminate|]]). done.
Qed.

Lemma dir_live k : 0 <= k < 2 → all_live (dir_ess k).
Proof. intros Hk. assert (k = 0 ∨ k = 1) as [-> | ->] by lia; repeat constructor; done. Qed.

Lemma ext2_lookup_finds_witness :
  (∃ ino k, 0 <= k < 2 ∧ (ino, [97; 98]) ∈ map ident (dir_ess k) ∧
     (∀ j i, 0 <= j < k → (i, [97; 98]) ∉ map ident (dir_ess j)) ∧
     ext2_lookup file_sb dir_fs dir_dentry [97; 98] 2 = Some (Some ino)) ∨
  ((∀ ino k, 0 <= k < 2 → (ino, [97; 98]) ∉ map ident (dir_ess k)) ∧
     ext2_lookup file_sb dir_fs dir_dentry [97; 98] 2 = Some None).
Proof.
  apply (ext2_lookup_finds file_sb dir_fs dir_dentry 2 file_blocks dir_ess [97; 98]);
    [done|apply dir_example|apply dir_live].
Defined.

Definition dir_entries' : list entry :=
  [{| e_ino := 2; e_rec := 12; e_name := [46] |}; {| e_ino := 2; e_rec := 12; e_name := [46; 46] |};
   {| e_ino := 12; e_rec := 12; e_name := [97; 98] |}; {| e_ino := 12; e_rec := 988; e_name := [100] |}].

(** A second name for the file. *)
Lemma ext2_add_child_found_witness :
  ∃ s', _ext2_add_child (H := x86_64) file_sb 0 dir_fs dir_store 1 2 [100] 1 =
      Some (Returned (0, s', <[2 := linked file_dentry 1]> dir_store)) ∧
    directory file_sb s' dir_dentry 2 file_blocks (with_entries dir_ess 0 dir_entries') ∧
    map ident dir_entries' ≡ₚ (12, [100]) :: map ident dir_entries ∧
    ((∀ ino k, 0 <= k < 2 → (ino, [100]) ∉ map ident (dir_ess k)) →
      ext2_lookup file_sb s' dir_dentry [100] 1 = Some (Some 12)).
Proof.
  apply (ext2_add_child_found (H := x86_64) file_sb 0 dir_fs dir_store 1 2 dir_dentry file_dentry 2 file_blocks dir_ess [100] 0
    dir_entries'); [done|apply dir_example|apply dir_live|done|done|unfold byte; lia|simpl; lia|simpl; lia|
    repeat constructor; unfold byte; lia|lia|vm_compute; reflexivity|intros; lia].
Defined.

Lemma ext2_rm_child_removes_witness :
  ∃ s' es' name, _ext2_rm_child file_sb dir_fs dir_store 1 2 =
      Some (Returned (0, s', <[2 := linked file_dentry (-1)]> dir_store)) ∧
    directory file_sb s' dir_dentry 2 file_blocks (with_entries dir_ess 0 es') ∧
    map ident dir_entries ≡ₚ (12, name) :: map ident es'.
Proof.
  apply (ext2_rm_child_removes file_sb dir_fs dir_store 1 2 dir_dentry file_dentry 2 file_blocks dir_ess 0
    {| e_ino := 2; e_rec := 12; e_name := [46] |} (tail dir_entries));
    [done|apply dir_example|done|done|lia|done|right; right; left|intros; lia].
Defined.

Lemma ext2_first_entry_room_witness :
  _ext2_add_first_entry_to_dir_block (H := x86_64) file_sb 0 file_fs 11 file_dentry (seqZ 97 9) 9 = None.
Proof.
  apply (ext2_first_entry_room (H := x86_64) file_sb 0 file_fs 11 file_dentry (seqZ 97 9));
    [done|apply file_drive_ok| |unfold byte; lia|simpl; lia|simpl; lia|].
  - unfold valid_block. cbn [dev file_fs]. rewrite file_drive_length. lia.
  - apply (bool_decide_unpack _). vm_compute. exact I.
Defined.

(** A directory is set up with [.] and [..] in a fresh block. *)
Example setup_dir :
  (λ r, match r with
        | Returned (err, s, ds) => Some (err, (λ d, (blocks (inode d), links_count (inode d))) <$> ds !! 2,
            ext2_lookup file_sb s (default dir_dentry (ds !! 2)) [46; 46] 2)
        | SystemStop => None
        end) <$> _ext2_setup_dir (H := x86_64) file_sb 0 dir_fs dir_store 2 1 0x41ed 0 0 =
  Some (Some (0, Some (2, 1), Some (Some 2))).
Proof. vm_compute. reflexivity. Qed.
