(* ===== verification/Dentry.v ===== *)
(** * Dentry: the cache of directory entries

    [kernel/fs/dentry.c]: every inode in use has one dentry, a slot of a cache
    that only grows, with a count of its users and a copy of the inode on the heap.
    A released dentry stays in the cache until its slot is needed. Dentries are
    referred to by pointers, here their places in the cache from 1 on, 0 being
    NULL; inodes and names are objects on the heap, whose addresses are never used
    twice. A lock is part of the state: taking a lock that the caller already has
    never ends, so it is [None]. What is stored on a device, and how its file
    system reads, writes and frees inodes, is the interface [InodeOps]. *)
From stdpp Require Import gmap.
From S2P Require Import Prelude Platform Ext2Dev.

Definition DENTRY_DIRTY : Z := 0x1.
Definition DENTRY_MOUNTPOINT : Z := 0x2.
Definition DENTRY_MOUNTED : Z := 0x4.
Definition DENTRY_INODE_TO_BE_DELETED : Z := 0x8.
Definition DENTRY_PRIVATE : Z := 0x10.
Definition DENTRY_CUSTOM : Z := 0x20.

(** [ops] and [vfsdev] follow from [dev_indx]; [inode], [filename] and the
    dentries are pointers. *)
Record dentry := {
  d_count : Z; d_flags : Z; inode_indx : Z; inode_ptr : Z; locked : bool; dev_indx : Z;
  filename : Z; parent : Z; mountpoint : Z; mounted_dentry : Z }.

(** A slot of a new block of the cache, which is filled with zeros. *)
Definition no_dentry : dentry := Build_dentry 0 0 0 0 false 0 0 0 0 0.

Definition set_count (v : Z) (d : dentry) : dentry :=
  Build_dentry v (d_flags d) (inode_indx d) (inode_ptr d) (locked d) (dev_indx d) (filename d) (parent d)
    (mountpoint d) (mounted_dentry d).
Definition set_dflags (v : Z) (d : dentry) : dentry :=
  Build_dentry (d_count d) v (inode_indx d) (inode_ptr d) (locked d) (dev_indx d) (filename d) (parent d)
    (mountpoint d) (mounted_dentry d).
Definition set_indx (v : Z) (d : dentry) : dentry :=
  Build_dentry (d_count d) (d_flags d) v (inode_ptr d) (locked d) (dev_indx d) (filename d) (parent d)
    (mountpoint d) (mounted_dentry d).
Definition set_inode_ptr (v : Z) (d : dentry) : dentry :=
  Build_dentry (d_count d) (d_flags d) (inode_indx d) v (locked d) (dev_indx d) (filename d) (parent d)
    (mountpoint d) (mounted_dentry d).
Definition set_locked (v : bool) (d : dentry) : dentry :=
  Build_dentry (d_count d) (d_flags d) (inode_indx d) (inode_ptr d) v (dev_indx d) (filename d) (parent d)
    (mountpoint d) (mounted_dentry d).
Definition set_filename (v : Z) (d : dentry) : dentry :=
  Build_dentry (d_count d) (d_flags d) (inode_indx d) (inode_ptr d) (locked d) (dev_indx d) v (parent d)
    (mountpoint d) (mounted_dentry d).
Definition set_parent (v : Z) (d : dentry) : dentry :=
  Build_dentry (d_count d) (d_flags d) (inode_indx d) (inode_ptr d) (locked d) (dev_indx d) (filename d) v
    (mountpoint d) (mounted_dentry d).
Definition set_mountpoint (v : Z) (d : dentry) : dentry :=
  Build_dentry (d_count d) (d_flags d) (inode_indx d) (inode_ptr d) (locked d) (dev_indx d) (filename d) (parent d)
    v (mounted_dentry d).
Definition set_mounted (v : Z) (d : dentry) : dentry :=
  Build_dentry (d_count d) (d_flags d) (inode_indx d) (inode_ptr d) (locked d) (dev_indx d) (filename d) (parent d)
    (mountpoint d) v.

(** What the cache has on the heap; a name is the bytes before its NUL. *)
Inductive obj := Inode (i : inode_t) | Name (s : list Z).

(** The blocks of the cache one after the other ([dentry_cache] and [data] of its
    blocks), whether the lock of a block is held, the heap and the mounted devices
    ([_vfs_devices]). *)
Record cache (D : Type) := {
  data : list dentry; block_locked : bool; heap : gmap Z obj; brk : Z;
  can_cache_inodes : bool; stat_cached_dentries : Z; stat_cached_inodes_area_size : Z;
  devs : gmap Z D }.
Arguments Build_cache {D}. Arguments data {D}. Arguments block_locked {D}. Arguments heap {D}. Arguments brk {D}.
Arguments can_cache_inodes {D}. Arguments stat_cached_dentries {D}. Arguments stat_cached_inodes_area_size {D}.
Arguments devs {D}.

(** The [dentry] functions of a file system, and what the kernel's own structure
    needs of the heap. [free_inode] gets the count of the dentry, too. *)
Class InodeOps (D : Type) := {
  read_inode : D → Z → inode_t → option (Z * inode_t);
  write_inode : D → Z → inode_t → option D;
  free_inode : option (D → Z → Z → inode_t → option (D * inode_t));
}.

Section cache.
Context `{Platform} {D : Type}.
Implicit Types (c : cache D) (d : dentry) (p : Z).

Definition with_data c (l : list dentry) : cache D :=
  Build_cache l (block_locked c) (heap c) (brk c) (can_cache_inodes c) (stat_cached_dentries c)
    (stat_cached_inodes_area_size c) (devs c).
Definition with_block_locked c (b : bool) : cache D :=
  Build_cache (data c) b (heap c) (brk c) (can_cache_inodes c) (stat_cached_dentries c)
    (stat_cached_inodes_area_size c) (devs c).
Definition with_heap c (h : gmap Z obj) : cache D :=
  Build_cache (data c) (block_locked c) h (brk c) (can_cache_inodes c) (stat_cached_dentries c)
    (stat_cached_inodes_area_size c) (devs c).
Definition with_brk c (b : Z) : cache D :=
  Build_cache (data c) (block_locked c) (heap c) b (can_cache_inodes c) (stat_cached_dentries c)
    (stat_cached_inodes_area_size c) (devs c).
Definition with_can_cache c (b : bool) : cache D :=
  Build_cache (data c) (block_locked c) (heap c) (brk c) b (stat_cached_dentries c)
    (stat_cached_inodes_area_size c) (devs c).
Definition with_dentries c (n : Z) : cache D :=
  Build_cache (data c) (block_locked c) (heap c) (brk c) (can_cache_inodes c) (usize n)
    (stat_cached_inodes_area_size c) (devs c).
Definition with_area c (n : Z) : cache D :=
  Build_cache (data c) (block_locked c) (heap c) (brk c) (can_cache_inodes c) (stat_cached_dentries c)
    (usize n) (devs c).
Definition with_devs c (m : gmap Z D) : cache D :=
  Build_cache (data c) (block_locked c) (heap c) (brk c) (can_cache_inodes c) (stat_cached_dentries c)
    (stat_cached_inodes_area_size c) m.

(** ** Memory

    [kmalloc] and [kfree] of what the cache keeps. *)

Definition slot c p : option dentry := (data c).[p - 1].
Definition put_slot c p d : option (cache D) := l ← (data c).[p - 1 <- d]; Some (with_data c l).
Definition modify c p (f : dentry → dentry) : option (cache D) := d ← slot c p; put_slot c p (f d).

Definition alloc_obj c (o : obj) : Z * cache D := (brk c, with_brk (with_heap c (<[brk c := o]> (heap c))) (brk c + 1)).
(** NULL is let through; anything else must be allocated. *)
Definition free_obj c (a : Z) : option (cache D) :=
  if a =? 0 then Some c else _ ← heap c !! a; Some (with_heap c (delete a (heap c))).

Definition load_inode c (a : Z) : option inode_t :=
  match heap c !! a with Some (Inode i) => Some i | _ => None end.
Definition store_inode c (a : Z) (i : inode_t) : option (cache D) :=
  _ ← load_inode c a; Some (with_heap c (<[a := Inode i]> (heap c))).

Definition spinlock_acquire c p : option (cache D) :=
  d ← slot c p; if locked d then None else put_slot c p (set_locked true d).
Definition spinlock_release c p : option (cache D) :=
  d ← slot c p; if locked d then put_slot c p (set_locked false d) else None.

(** ** The blocks of the cache *)

Definition DENTRY_ALLOC_SIZE : Z := 4096.
Definition DENTRY_SWAP_THRESHOLD_FOR_INODE_CACHE : Z := 16384.
(** [sizeof(dentry_t)] and the head of a block: 13 and 5 words, some of them
    filled by two fields on 64-bit targets. *)
Definition sizeof_dentry : Z := if decide (ptr_bits = 32) then 52 else 96.
Definition dentries_in_block : Z := (DENTRY_ALLOC_SIZE - 5 * ptr_bytes) / sizeof_dentry.

Definition need_to_free_inode_cache c : bool :=
  DENTRY_SWAP_THRESHOLD_FOR_INODE_CACHE <? stat_cached_inodes_area_size c.

(** Every dentry without users loses its inode, the ones that have none, too. *)
Definition free_inode_cache c : option (cache D) :=
  if block_locked c then None else
  c ← for_n (length (data c)) 1 (λ p c,
    d ← slot c p;
    if d_count d =? 0 then
      c ← modify c p (set_indx 0);
      let c := with_area c (stat_cached_inodes_area_size c - INODE_LEN) in
      free_obj c (inode_ptr d)
    else Some c) c;
  Some (if need_to_free_inode_cache c then with_can_cache c false else c).

Definition dentry_cache_alloc c : cache D :=
  with_data c (data c ++ replicate (Z.to_nat dentries_in_block) no_dentry).

(** A free slot, or else the last one without users, or else one of a new block. *)
Definition dentry_cache_find_empty_entry c : option (Z * cache D) :=
  if block_locked c then None else
  r ← for_loop (length (data c)) 1 (λ p candidate,
    d ← slot c p;
    if inode_indx d =? 0 then Some (inr p)
    else Some (inl (if d_count d =? 0 then p else candidate))) 0;
  Some (match r with
  | inr p => (p, c)
  | inl candidate =>
      if negb (candidate =? 0) then (candidate, c)
      else (Z.of_nat (length (data c)) + 1, dentry_cache_alloc c)
  end).

(** ** Dentries *)

Context `{!InodeOps D}.

Definition dentry_test_flag_locked c p (flag : Z) : option bool := d ← slot c p; Some (TEST_FLAG (d_flags d) flag).
Definition dentry_set_flag_locked c p (flag : Z) : option (cache D) :=
  d ← slot c p; put_slot c p (set_dflags (Z.lor (d_flags d) flag) d).
Definition dentry_rem_flag_locked c p (flag : Z) : option (cache D) :=
  d ← slot c p; put_slot c p (set_dflags (Z.land (d_flags d) (u32 (Z.lnot flag))) d).

Definition dentry_delete_inode_locked c p : option (cache D) :=
  d ← slot c p;
  if negb ((d_count d =? 0) && TEST_FLAG (d_flags d) DENTRY_INODE_TO_BE_DELETED) then None else
  f ← free_inode; v ← devs c !! dev_indx d; i ← load_inode c (inode_ptr d);
  '(v, i) ← f v (d_count d) (inode_indx d) i;
  store_inode (with_devs c (<[dev_indx d := v]> (devs c))) (inode_ptr d) i.

Definition dentry_flush_inode_locked c p : option (cache D) :=
  d ← slot c p;
  if TEST_FLAG (d_flags d) DENTRY_DIRTY && negb (inode_ptr d =? 0) then
    v ← devs c !! dev_indx d; i ← load_inode c (inode_ptr d);
    v ← write_inode v (inode_indx d) i;
    dentry_rem_flag_locked (with_devs c (<[dev_indx d := v]> (devs c))) p DENTRY_DIRTY
  else Some c.

(** The pointers stay in the slot. *)
Definition dentry_delete_from_cache_locked c p : option (cache D) :=
  d ← slot c p;
  c ← put_slot c p (set_indx 0 d);
  c ← free_obj c (inode_ptr d);
  c ← free_obj c (filename d);
  let c := with_area c (stat_cached_inodes_area_size c - INODE_LEN) in
  Some (if negb (need_to_free_inode_cache c) then with_can_cache c true else c).

Definition dentry_prefree_locked c p : option (cache D) :=
  c ← (if negb (can_cache_inodes c) then dentry_delete_from_cache_locked c p
       else if need_to_free_inode_cache c then free_inode_cache c else Some c);
  Some (with_dentries c (stat_cached_dentries c - 1)).

(** The memory of a new inode holds whatever was there. *)
Context (junk_inode : inode_t).

(** The dentry, 0 if there is none. *)
Definition dentry_alloc_new c (dev ino : Z) (read : bool) : option (Z * cache D) :=
  if ino =? 0 then Some (0, c) else
  '(p, c) ← dentry_cache_find_empty_entry c;
  d ← slot c p;
  let already_allocated_inode := negb (inode_indx d =? 0) in
  v ← devs c !! dev;
  c ← put_slot c p (Build_dentry 1 0 ino (inode_ptr d) false dev 0 0 (mountpoint d) (mounted_dentry d));
  c ← (if negb already_allocated_inode then
         let '(a, c) := alloc_obj c (Inode junk_inode) in
         c ← modify c p (set_inode_ptr a);
         Some (with_area c (stat_cached_inodes_area_size c + INODE_LEN))
       else Some c);
  '(err, c) ← (if read : bool then
         d ← slot c p; i ← load_inode c (inode_ptr d);
         '(err, i) ← read_inode v ino i;
         c ← store_inode c (inode_ptr d) i; Some (err, c)
       else Some (0, c));
  if err <? 0 then Some (0, c) else Some (p, with_dentries c (stat_cached_dentries c + 1)).

Definition dentry_set_inode c p (inode : Z) : option (cache D) :=
  c ← spinlock_acquire c p;
  d ← slot c p;
  c ← free_obj c (inode_ptr d);
  c ← modify c p (set_inode_ptr inode);
  spinlock_release c p.

Definition dentry_duplicate c p : option (cache D) :=
  c ← spinlock_acquire c p;
  d ← slot c p;
  c ← put_slot c p (set_count (usize (d_count d + 1)) d);
  spinlock_release c p.

Definition dentry_set_parent c (to par : Z) : option (cache D) :=
  c ← spinlock_acquire c to;
  c ← dentry_duplicate c par;
  c ← modify c to (set_parent par);
  spinlock_release c to.

Definition dentry_set_filename c (to name : Z) : option (cache D) :=
  c ← spinlock_acquire c to;
  c ← modify c to (set_filename name);
  spinlock_release c to.

Definition dentry_get_parent c p : option (Z * cache D) :=
  c ← spinlock_acquire c p;
  d ← slot c p;
  c ← spinlock_release c p; Some (parent d, c).

Definition dentry_flush c p : option (cache D) :=
  c ← spinlock_acquire c p;
  c ← dentry_flush_inode_locked c p;
  spinlock_release c p.

(** One round of [kdentryflusherd]; it passes over the dentries whose lock is held. *)
Definition dentry_flusher_round c : option (cache D) :=
  if block_locked c then None else
  for_n (length (data c)) 1 (λ p c,
    d ← slot c p;
    if negb (inode_indx d =? 0) && negb (locked d) then
      c ← spinlock_acquire c p; c ← dentry_flush_inode_locked c p; spinlock_release c p
    else Some c) c.

(** The first slot for the inode, 0 if there is none. *)
Definition find_slot c (dev ino : Z) : option Z :=
  r ← for_loop (length (data c)) 1 (λ p (_ : unit),
    d ← slot c p;
    if (dev_indx d =? dev) && (inode_indx d =? ino) then Some (inr p) else Some (inl ())) ();
  Some (match r with inr p => p | inl _ => 0 end).

(** The dentry and whether it is new. *)
Definition get_dentry c (dev ino : Z) (read : bool) : option (bool * Z * cache D) :=
  if block_locked c then None else
  p ← find_slot c dev ino;
  if negb (p =? 0) then
    d ← slot c p;
    let c := if d_count d =? 0 then with_dentries c (stat_cached_dentries c + 1) else c in
    c ← dentry_duplicate c p; Some (false, p, c)
  else '(p, c) ← dentry_alloc_new c dev ino read; Some (true, p, c).

Definition dentry_get c (dev ino : Z) : option (Z * cache D) :=
  '(_, p, c) ← get_dentry c dev ino true; Some (p, c).
Definition dentry_get_no_inode c (dev ino : Z) : option (bool * Z * cache D) := get_dentry c dev ino false.

(** ** Releasing *)

(** The last user is gone; [put] is [dentry_put] of the parent. *)
Definition dentry_put_impl_locked (put : cache D → Z → option (cache D)) c p : option (cache D) :=
  d ← slot c p;
  c ← (if negb (parent d =? 0) then put c (parent d) else Some c);
  d ← slot c p;
  if TEST_FLAG (d_flags d) DENTRY_CUSTOM then
    c ← put_slot c p (set_indx 0 d);
    match free_inode with
    | None => Some c
    | Some f =>
        v ← devs c !! dev_indx d; i ← load_inode c (inode_ptr d);
        '(v, i) ← f v (d_count d) 0 i;
        store_inode (with_devs c (<[dev_indx d := v]> (devs c))) (inode_ptr d) i
    end
  else if TEST_FLAG (d_flags d) DENTRY_INODE_TO_BE_DELETED then
    c ← dentry_delete_inode_locked c p;
    dentry_delete_from_cache_locked c p
  else
    c ← dentry_flush_inode_locked c p;
    dentry_prefree_locked c p.

Definition put_locked (put : cache D → Z → option (cache D)) c p : option (cache D) :=
  d ← slot c p;
  if d_count d <=? 0 then None else
  c ← put_slot c p (set_count (d_count d - 1) d);
  if d_count d - 1 =? 0 then dentry_put_impl_locked put c p else Some c.

(** Up the parents; each holds its lock, so there are at most as many rounds as slots. *)
Fixpoint put_up (fuel : nat) c p : option (cache D) :=
  match fuel with
  | O => None
  | S fuel =>
      c ← spinlock_acquire c p;
      c ← put_locked (put_up fuel) c p;
      spinlock_release c p
  end.
Definition dentry_put c p : option (cache D) := put_up (S (length (data c))) c p.
Definition dentry_put_locked c p : option (cache D) := put_locked dentry_put c p.

Definition dentry_force_put c p : option (cache D) :=
  c ← spinlock_acquire c p;
  d ← slot c p;
  if TEST_FLAG (d_flags d) DENTRY_MOUNTPOINT then spinlock_release c p else
  c ← put_slot c p (set_count 0 d);
  c ← dentry_put_impl_locked dentry_put c p;
  spinlock_release c p.

Definition dentry_put_all_dentries_of_dev c (dev : Z) : option (cache D) :=
  if block_locked c then None else
  for_n (length (data c)) 1 (λ p c,
    d ← slot c p;
    if (dev_indx d =? dev) && negb (inode_ptr d =? 0) then
      c ← dentry_force_put (with_block_locked c true) p; Some (with_block_locked c false)
    else Some c) c.

(** ** Flags and modes *)

Definition dentry_set_flag c p (flag : Z) : option (cache D) :=
  c ← spinlock_acquire c p; c ← dentry_set_flag_locked c p flag; spinlock_release c p.
Definition dentry_test_flag c p (flag : Z) : option (bool * cache D) :=
  c ← spinlock_acquire c p; r ← dentry_test_flag_locked c p flag; c ← spinlock_release c p; Some (r, c).
Definition dentry_rem_flag c p (flag : Z) : option (cache D) :=
  c ← spinlock_acquire c p; c ← dentry_rem_flag_locked c p flag; spinlock_release c p.

Definition test_mode (have want : Z) : bool :=
  if (0x1000 <=? want) && negb (Z.land have 0xf000 =? Z.land want 0xf000) then false
  else TEST_FLAG have (Z.land want 0xfff).

Definition dentry_test_mode_locked c p (m : Z) : option bool :=
  d ← slot c p; i ← load_inode c (inode_ptr d); Some (test_mode (mode i) m).

Definition dentry_test_mode c p (m : Z) : option (bool * cache D) :=
  c ← spinlock_acquire c p; r ← dentry_test_mode_locked c p m; c ← spinlock_release c p; Some (r, c).

Definition dentry_inode_set_flag c p (m : Z) : option (cache D) :=
  c ← spinlock_acquire c p;
  has ← dentry_test_mode_locked c p m;
  c ← (if negb has then dentry_set_flag_locked c p DENTRY_DIRTY else Some c);
  d ← slot c p; i ← load_inode c (inode_ptr d);
  c ← store_inode c (inode_ptr d) (set_mode i (Z.lor (mode i) m));
  spinlock_release c p.

Definition dentry_inode_rem_flag c p (m : Z) : option (cache D) :=
  c ← spinlock_acquire c p;
  has ← dentry_test_mode_locked c p m;
  c ← (if has : bool then dentry_set_flag_locked c p DENTRY_DIRTY else Some c);
  d ← slot c p; i ← load_inode c (inode_ptr d);
  c ← store_inode c (inode_ptr d) (set_mode i (Z.land (mode i) (Z.lnot m)));
  spinlock_release c p.

Definition dentry_stat_cached_count c : Z := stat_cached_dentries c.
End cache.

(** ** What a file system promises

    The inodes [stored] on a device are what [read_inode] gives and [write_inode]
    changes; what it changes nothing else of is [same_files]. *)
Class InodeStore (D : Type) `{!InodeOps D} := {
  store_ok : D → Prop;
  stored : D → Z → option inode_t;
  inode_fits : inode_t → Prop;
  same_files : D → D → Prop;
  same_files_preorder :: PreOrder same_files;
  stored_fits v ino i : store_ok v → stored v ino = Some i → inode_fits i;
  read_stored v ino i j : store_ok v → stored v ino = Some i → read_inode v ino j = Some (0, i);
  write_stored v ino i i0 : store_ok v → stored v ino = Some i0 → inode_fits i →
    ∃ v', write_inode v ino i = Some v' ∧ store_ok v' ∧ same_files v v' ∧
      ∀ n, stored v' n = if decide (n = ino) then Some i else stored v n;
}.

Section slots.
Context {D : Type}.
Implicit Types (c : cache D) (d e : dentry) (p q : Z).

Definition with_slot c p d : cache D := with_data c (<[Z.to_nat (p - 1) := d]> (data c)).

Lemma slot_range c p d : slot c p = Some d → 1 <= p <= Z.of_nat (length (data c)).
Proof. intros ?%zget_Some. lia. Qed.

Lemma slot_is_Some c p : 1 <= p <= Z.of_nat (length (data c)) → ∃ d, slot c p = Some d.
Proof. intros ?. apply zget_is_Some. lia. Qed.

Lemma put_slot_eq c p d e : slot c p = Some d → put_slot c p e = Some (with_slot c p e).
Proof. intros Hs%slot_range. unfold put_slot. by rewrite zset_in by lia. Qed.

Lemma modify_eq c p d f : slot c p = Some d → modify c p f = Some (with_slot c p (f d)).
Proof. intros Hs. unfold modify. rewrite Hs. by apply put_slot_eq with d. Qed.

Lemma slot_with c p d e q : slot c p = Some d →
  slot (with_slot c p e) q = if decide (p = q) then Some e else slot c q.
Proof.
  intros Hs%slot_range. unfold slot, with_slot. cbn [data with_data]. rewrite zget_insert by lia.
  by repeat case_decide; try lia.
Qed.
Lemma slot_with_eq c p d e : slot c p = Some d → slot (with_slot c p e) p = Some e.
Proof. intros Hs. rewrite (slot_with c p d) by done. by rewrite decide_True. Qed.
Lemma slot_with_ne c p d e q : slot c p = Some d → p ≠ q → slot (with_slot c p e) q = slot c q.
Proof. intros Hs ?. rewrite (slot_with c p d) by done. by rewrite decide_False. Qed.

Lemma with_slot_twice c p d e : with_slot (with_slot c p d) p e = with_slot c p e.
Proof. unfold with_slot. cbn. by rewrite list_insert_insert_eq. Qed.
Lemma with_slot_same c p d : slot c p = Some d → with_slot c p d = c.
Proof.
  intros Hs. pose proof (slot_range c p d Hs). unfold with_slot. unfold slot in Hs. rewrite zget_lookup in Hs by lia.
  rewrite list_insert_id by done. by destruct c.
Qed.

(** The number of slots with a property, after a slot has changed. *)
Definition count (P : dentry → Prop) `{!∀ d, Decision (P d)} c : Z := Z.of_nat (length (filter P (data c))).

Lemma count_with (P : dentry → Prop) `{!∀ d, Decision (P d)} c p d e : slot c p = Some d →
  count P (with_slot c p e) = count P c - (if decide (P d) then 1 else 0) + (if decide (P e) then 1 else 0).
Proof.
  intros Hs. pose proof (slot_range c p d Hs). unfold slot in Hs. rewrite zget_lookup in Hs by lia.
  unfold count, with_slot. cbn [data with_data]. rewrite insert_take_drop by (apply lookup_lt_Some in Hs; lia).
  rewrite <- (take_drop_middle _ _ _ Hs) at 3.
  rewrite !filter_app, !filter_cons, !length_app.
  repeat case_decide; cbn [length]; lia.
Qed.
Lemma count_bound (P : dentry → Prop) `{!∀ d, Decision (P d)} c : 0 <= count P c <= Z.of_nat (length (data c)).
Proof. unfold count. pose proof (length_filter P (data c)). lia. Qed.
Lemma count_pos (P : dentry → Prop) `{!∀ d, Decision (P d)} c p d : slot c p = Some d → P d → 0 < count P c.
Proof.
  intros Hs HP. pose proof (count_with P c p d d Hs) as Hc. pose proof (slot_range c p d Hs).
  unfold slot in Hs. rewrite zget_lookup in Hs by lia. unfold count.
  apply list_elem_of_lookup_2 in Hs. assert (d ∈ filter P (data c)) as Hin by by apply list_elem_of_filter.
  destruct (filter P (data c)); [by apply elem_of_nil in Hin|cbn [length]; lia].
Qed.
End slots.

Section invariant.
Context `{Platform} `{!InodeOps D, !InodeStore D} (junk_inode : inode_t).
Implicit Types (c : cache D) (d e : dentry) (p q : Z).

(** ** The invariant of the cache *)

(** A slot that holds a dentry. *)
Definition valid c p d : Prop := slot c p = Some d ∧ inode_indx d ≠ 0.
Definition is_dirty d : bool := TEST_FLAG (d_flags d) DENTRY_DIRTY.

(** The copy of an inode is in memory, and it is what the device has unless it is dirty. *)
Definition backed (h : gmap Z obj) (m : gmap Z D) d : Prop := 0 < inode_ptr d ∧ ∃ i i0 v,
  h !! inode_ptr d = Some (Inode i) ∧ inode_fits i ∧ m !! dev_indx d = Some v ∧
  stored v (inode_indx d) = Some i0 ∧ (is_dirty d = false → i = i0).

Definition ordinary d : Prop :=
  TEST_FLAG (d_flags d) DENTRY_CUSTOM = false ∧ TEST_FLAG (d_flags d) DENTRY_INODE_TO_BE_DELETED = false.

Definition taken_slots c : Z := count (λ d, inode_indx d ≠ 0) c.
Definition held_slots c : Z := count (λ d, 0 < d_count d) c.

(** No inode has two dentries, and no two dentries share their memory. *)
Record cache_ok c : Prop := {
  co_unique p q d e : valid c p d → valid c q e → dev_indx d = dev_indx e → inode_indx d = inode_indx e → p = q;
  co_apart p q d e : valid c p d → valid c q e → inode_ptr d = inode_ptr e → p = q;
  co_backed p d : valid c p d → backed (heap c) (devs c) d;
  co_ordinary p d : valid c p d → ordinary d;
  co_count p d : slot c p = Some d → 0 <= d_count d ∧ (inode_indx d = 0 → d_count d = 0);
  co_fresh a : brk c <= a → heap c !! a = None;
  co_brk : 0 < brk c;
  co_devs n v : devs c !! n = Some v → store_ok v;
  co_area : stat_cached_inodes_area_size c = INODE_LEN * taken_slots c;
}.

(** Dentries without users are clean, but for one that is being released. *)
Definition tidy c : Prop := ∀ p d, valid c p d → d_count d = 0 → locked d = false → is_dirty d = false.

(** There is room for [n] more inodes before the cache starts to throw some out. *)
Definition roomy c (n : Z) : Prop :=
  can_cache_inodes c = true ∧ block_locked c = false ∧
  stat_cached_inodes_area_size c + INODE_LEN * n <= DENTRY_SWAP_THRESHOLD_FOR_INODE_CACHE.

(** The references to [p] from the dentries in use, which hold their parents. *)
Definition children c p : Z := count (λ d, 0 < d_count d ∧ parent d = p) c.
(** Every reference is counted: those of the cache and [ext], the others. *)
Definition refs_ok c (ext : Z → Z) : Prop := ∀ p, 0 <= ext p ∧
  (p ≠ 0 → 0 < ext p + children c p → ∃ d, slot c p = Some d ∧ ext p + children c p <= d_count d).

(** An inode as the kernel sees it: the copy in the cache, or else what is stored. *)
Definition view c (dev ino : Z) : option inode_t :=
  match find_slot c dev ino with
  | None => None
  | Some p => if p =? 0 then v ← devs c !! dev; stored v ino else d ← slot c p; load_inode c (inode_ptr d)
  end.

Lemma find_slot_spec c dev ino : ∃ p, find_slot c dev ino = Some p ∧
  ((1 <= p ∧ ∃ d, slot c p = Some d ∧ dev_indx d = dev ∧ inode_indx d = ino) ∨
   (p = 0 ∧ ∀ q d, slot c q = Some d → ¬ (dev_indx d = dev ∧ inode_indx d = ino))).
Proof.
  unfold find_slot.
  match goal with |- context [for_loop ?nn ?i0 ?g ?s0] =>
    destruct (for_loop_total (λ k _, ∀ q d, q < k → slot c q = Some d → ¬ (dev_indx d = dev ∧ inode_indx d = ino))
      (λ p, 1 <= p ∧ ∃ d, slot c p = Some d ∧ dev_indx d = dev ∧ inode_indx d = ino) g nn i0 s0) as (x & -> & Hx) end.
  - intros q d Hq ?%slot_range. lia.
  - intros p [] Hp Hno. destruct (slot_is_Some c p) as [d Hd]; [lia|]. returns Hd.
    destruct (Z.eqb_spec (dev_indx d) dev), (Z.eqb_spec (inode_indx d) ino); cbn [andb];
      try (split; [lia|]; by exists d);
      (intros q d0 Hq Hd0; destruct (decide (q = p)) as [->|]; [|apply (Hno q); [lia|done]]); intros []; congruence.
  - bind_red. destruct x as [[]|p]; [|by exists p; auto].
    exists 0. split; [done|]. right. split; [done|]. intros q d Hq. apply (Hx q); [|done].
    apply slot_range in Hq. lia.
Qed.

Lemma view_cached c p d : cache_ok c → valid c p d → view c (dev_indx d) (inode_indx d) = load_inode c (inode_ptr d).
Proof.
  intros Hc [Hd Hi]. unfold view.
  destruct (find_slot_spec c (dev_indx d) (inode_indx d)) as (q & -> & [(Hq & e & He & ? & ?)|(-> & Hno)]).
  - destruct (Z.eqb_spec q 0); [lia|]. rewrite He. bind_red.
    assert (q = p) as -> by (apply (co_unique c Hc q p e d); [split; [done|congruence]|by split|done|done]).
    congruence.
  - by destruct (Hno p d Hd).
Qed.

Lemma view_stored c dev ino : (∀ q d, slot c q = Some d → ¬ (dev_indx d = dev ∧ inode_indx d = ino)) →
  view c dev ino = v ← devs c !! dev; stored v ino.
Proof.
  intros Hno. unfold view.
  destruct (find_slot_spec c dev ino) as (q & -> & [(Hq & e & He & ? & ?)|(-> & _)]); [|done].
  by destruct (Hno q e He).
Qed.

(** What a view depends on. *)
Lemma view_eq c c' : cache_ok c → cache_ok c' → heap c' = heap c →
  (∀ p d, slot c p = Some d → ∃ d', slot c' p = Some d' ∧
     dev_indx d' = dev_indx d ∧ inode_indx d' = inode_indx d ∧ inode_ptr d' = inode_ptr d) →
  length (data c') = length (data c) →
  (∀ dev ino, ino ≠ 0 → (∀ q d, slot c q = Some d → ¬ (dev_indx d = dev ∧ inode_indx d = ino)) →
     (v ← devs c' !! dev; stored v ino) = v ← devs c !! dev; stored v ino) →
  ∀ dev ino, ino ≠ 0 → view c' dev ino = view c dev ino.
Proof.
  intros Hc Hc' Hh Hs Hl Hst dev ino Hino.
  assert (∀ q d', slot c' q = Some d' → ∃ d, slot c q = Some d ∧ dev_indx d' = dev_indx d ∧
            inode_indx d' = inode_indx d ∧ inode_ptr d' = inode_ptr d) as Hback.
  { intros q d' Hq. pose proof (slot_range _ _ _ Hq). destruct (slot_is_Some c q) as [d Hd]; [lia|].
    destruct (Hs q d Hd) as (e & He & ?). exists d. split; [done|]. congruence. }
  destruct (find_slot_spec c dev ino) as (p & _ & [(Hp & d & Hd & <- & <-)|(-> & Hno)]).
  - destruct (Hs p d Hd) as (d' & Hd' & Ed & Ei & Ep). rewrite <- Ed, <- Ei at 1.
    rewrite (view_cached c' p d') by first [done | split; [done|congruence]].
    rewrite (view_cached c p d) by (done || by split). unfold load_inode. by rewrite Hh, Ep.
  - rewrite (view_stored c' dev ino), (view_stored c dev ino); [by apply Hst|done|].
    intros q d' Hq [Hqd Hqi]. destruct (Hback q d' Hq) as (d & Hd & ? & ? & ?).
    apply (Hno q d Hd). split; congruence.
Qed.

(** *** Changing a slot *)

(** A changed slot that stays the dentry it is. *)
Lemma cache_ok_with c p d e : cache_ok c → slot c p = Some d →
  dev_indx e = dev_indx d → inode_indx e = inode_indx d → inode_ptr e = inode_ptr d →
  0 <= d_count e → (inode_indx e = 0 → d_count e = 0) →
  (inode_indx e ≠ 0 → backed (heap c) (devs c) e ∧ ordinary e) →
  cache_ok (with_slot c p e).
Proof.
  intros Hc Hd Edev Eino Eptr Hcnt Hz Hv.
  assert (∀ q x, valid (with_slot c p e) q x → (q = p ∧ x = e ∧ valid c p d) ∨ (q ≠ p ∧ valid c q x)) as Hval.
  { intros q x [Hq Hx]. rewrite (slot_with c p d) in Hq by done. case_decide as E.
    - injection Hq as <-. left. split; [done|]. split; [done|]. split; [done|congruence].
    - right. split; [congruence|by split]. }
  constructor; try apply Hc.
  - intros q q' x x' [(-> & -> & H1)|[Hq H1]]%Hval [(-> & -> & H2)|[Hq' H2]]%Hval; [done| | |];
      rewrite ?Edev, ?Eino; by apply (co_unique c Hc).
  - intros q q' x x' [(-> & -> & H1)|[Hq H1]]%Hval [(-> & -> & H2)|[Hq' H2]]%Hval; [done| | |];
      rewrite ?Eptr; by apply (co_apart c Hc).
  - intros q x [(-> & -> & [? H1])|[Hq H1]]%Hval; [|by apply (co_backed c Hc q)].
    apply Hv. congruence.
  - intros q x [(-> & -> & [? H1])|[Hq H1]]%Hval; [|by apply (co_ordinary c Hc q)].
    apply Hv. congruence.
  - intros q x Hq. rewrite (slot_with c p d) in Hq by done. case_decide; [by injection Hq as <-|by apply (co_count c Hc q)].
  - cbn [with_slot stat_cached_inodes_area_size with_data]. rewrite (co_area c Hc). f_equal.
    unfold taken_slots. rewrite (count_with _ c p d e) by done. rewrite Eino. lia.
Qed.

(** The count, the lock, the name and the parent can be anything. *)
Lemma cache_ok_links c p d e : cache_ok c → slot c p = Some d →
  dev_indx e = dev_indx d → inode_indx e = inode_indx d → inode_ptr e = inode_ptr d → d_flags e = d_flags d →
  0 <= d_count e → (inode_indx e = 0 → d_count e = 0) → cache_ok (with_slot c p e).
Proof.
  intros Hc Hd Edev Eino Eptr Efl ? ?. apply cache_ok_with with d; try done. intros Hi.
  assert (valid c p d) as Hv by (split; [done|congruence]).
  destruct (co_backed c Hc p d Hv) as (? & i & i0 & v & ?). destruct (co_ordinary c Hc p d Hv).
  unfold backed, ordinary, is_dirty in *. rewrite Edev, Eino, Eptr, Efl. split; [|done]. split; [done|].
  by exists i, i0, v.
Qed.

Lemma view_with c p d e : cache_ok c → cache_ok (with_slot c p e) → slot c p = Some d →
  dev_indx e = dev_indx d → inode_indx e = inode_indx d → inode_ptr e = inode_ptr d →
  ∀ dev ino, ino ≠ 0 → view (with_slot c p e) dev ino = view c dev ino.
Proof.
  intros Hc Hc' Hd ? ? ?. apply view_eq; [done|done|done| | |done].
  - intros q x Hq. rewrite (slot_with c p d) by done. case_decide; [|by exists x].
    exists e. subst q. replace x with d by congruence. done.
  - unfold with_slot. cbn. by rewrite length_insert.
Qed.

(** Taking and giving back a lock around a change of its slot. *)
Lemma duplicate_spec c p d : slot c p = Some d → locked d = false → 0 <= d_count d < 2 ^ 31 - 1 →
  dentry_duplicate c p = Some (with_slot c p (set_count (d_count d + 1) d)).
Proof.
  intros Hd Hl Hcnt. unfold dentry_duplicate, spinlock_acquire. rewrite Hd. bind_red. rewrite Hl.
  rewrite (put_slot_eq c p d) by done. bind_red.
  rewrite (slot_with_eq c p d) by done. bind_red. cbn [d_count set_locked].
  rewrite usize_int by lia. rewrite (put_slot_eq _ p (set_locked true d)) by by apply slot_with_eq with d.
  bind_red. rewrite with_slot_twice. unfold spinlock_release.
  rewrite (slot_with_eq c p d) by done. bind_red. cbn [locked set_count set_locked].
  rewrite (put_slot_eq _ p (set_count (d_count d + 1) (set_locked true d))) by by apply slot_with_eq with d.
  rewrite with_slot_twice. do 2 f_equal. destruct d; cbn in *; by subst.
Qed.

(** *** Flushing *)

(** The slot after its inode was written. *)
Definition cleaned d : dentry := set_dflags (Z.land (d_flags d) (u32 (Z.lnot DENTRY_DIRTY))) d.

Lemma cleaned_flags d k : 0 < k < 32 → TEST_FLAG (d_flags (cleaned d)) (Z.shiftl 1 k) = TEST_FLAG (d_flags d) (Z.shiftl 1 k).
Proof.
  intros Hk. rewrite !test_flag_bit by lia. cbn [d_flags cleaned set_dflags]. rewrite Z.land_spec, testbit_u32.
  rewrite decide_True by lia. rewrite Z.lnot_spec by lia.
  replace (Z.testbit DENTRY_DIRTY k) with false; [by rewrite andb_true_r|].
  symmetry. apply (testbit_high _ 1); unfold DENTRY_DIRTY; lia.
Qed.
Lemma cleaned_clean d : is_dirty (cleaned d) = false.
Proof.
  unfold is_dirty. change DENTRY_DIRTY with (Z.shiftl 1 0). rewrite test_flag_bit by lia.
  cbn [d_flags cleaned set_dflags]. rewrite Z.land_spec, testbit_u32, decide_True by lia.
  by rewrite Z.lnot_spec, andb_false_r by lia.
Qed.
Lemma cleaned_ordinary d : ordinary d → ordinary (cleaned d).
Proof. unfold ordinary. intros [E5 E3]. split; [rewrite <- E5; apply (cleaned_flags d 5)|rewrite <- E3; apply (cleaned_flags d 3)]; lia. Qed.

(** The device only has other inodes than before. *)
Definition devs_same (m m' : gmap Z D) : Prop := ∀ n,
  match m !! n, m' !! n with
  | Some v, Some v' => same_files v v'
  | None, None => True
  | _, _ => False
  end.
#[global] Instance devs_same_preorder : PreOrder devs_same.
Proof.
  split.
  - intros m n. destruct (m !! n); [reflexivity|done].
  - intros m1 m2 m3 H1 H2 n. specialize (H1 n). specialize (H2 n).
    destruct (m1 !! n), (m2 !! n), (m3 !! n); try done. by etrans.
Qed.

Lemma flush_spec c p d : cache_ok c → valid c p d →
  ∃ m d', dentry_flush_inode_locked c p = Some (with_slot (with_devs c m) p d') ∧
    (d' = d ∨ d' = cleaned d) ∧ is_dirty d' = false ∧
    cache_ok (with_slot (with_devs c m) p d') ∧ devs_same (devs c) m ∧
    (∀ dev ino, ino ≠ 0 → view (with_slot (with_devs c m) p d') dev ino = view c dev ino).
Proof.
  intros Hc Hv. pose proof Hv as [Hd Hi]. unfold dentry_flush_inode_locked. rewrite Hd. bind_red.
  destruct (co_backed c Hc p d Hv) as (Hp & i & i0 & v & Hh & Hfit & Hdev & Hst & Hcl).
  destruct (Z.eqb_spec (inode_ptr d) 0); [lia|]. rewrite andb_true_r. fold (is_dirty d).
  destruct (is_dirty d) eqn:Edirty.
  2:{ exists (devs c), d. assert (with_slot (with_devs c (devs c)) p d = c) as E.
      { destruct c. by apply with_slot_same. }
      rewrite E. split; [done|]. split; [by left|]. split; [done|]. split; [done|]. split; [reflexivity|done]. }
  rewrite Hdev. bind_red. unfold load_inode. rewrite Hh. bind_red.
  destruct (write_stored v (inode_indx d) i i0) as (v' & Ew & Hv' & Hsame & Hst'); [by apply (co_devs c Hc (dev_indx d))|done|done|].
  returns Ew. set (m := <[dev_indx d:=v']> (devs c)).
  exists m, (cleaned d). unfold dentry_rem_flag_locked. change (slot (with_devs c m) p) with (slot c p).
  rewrite Hd. bind_red. rewrite (put_slot_eq _ p d) by done. split; [done|]. split; [by right|].
  split; [apply cleaned_clean|].
  assert (cache_ok (with_slot (with_devs c m) p (cleaned d))) as Hok.
  { apply cache_ok_with with d; try done; [|by apply (co_count c Hc p d)|].
    - constructor; try apply Hc.
      + intros q e He. cbn [with_devs devs heap]. destruct (co_backed c Hc q e He) as (Hpe & j & j0 & w & Hj & Hfj & Hw & Hjw & Hcj).
        split; [done|]. destruct (decide (dev_indx e = dev_indx d)) as [Ed|Ed].
        * destruct (decide (q = p)) as [->|Hne].
          { destruct He as [He _]. change (slot c p = Some e) in He. assert (e = d) as -> by congruence. exists i, i, v'. unfold m.
            rewrite lookup_insert_eq, Hst', decide_True by done. done. }
          assert (inode_indx e ≠ inode_indx d) by (intros E; apply Hne; by apply (co_unique c Hc q p e d)).
          exists j, j0, v'. unfold m. rewrite Ed, lookup_insert_eq, Hst', decide_False by done. split; [done|].
          split; [done|]. split; [done|]. split; [|done]. congruence.
        * exists j, j0, w. unfold m. rewrite lookup_insert_ne by done. done.
      + intros k w. cbn [with_devs devs]. unfold m. destruct (decide (k = dev_indx d)) as [->|].
        * rewrite lookup_insert_eq. by intros [= <-].
        * rewrite lookup_insert_ne by done. apply (co_devs c Hc).
    - intros _. split; [|by apply cleaned_ordinary, (co_ordinary c Hc p)].
      split; [done|]. cbn [with_devs heap devs]. exists i, i, v'. unfold m. cbn [cleaned set_dflags dev_indx inode_indx inode_ptr].
      rewrite lookup_insert_eq, Hst', decide_True by done. done. }
  split; [done|]. split.
  - intros k. unfold m. destruct (decide (k = dev_indx d)) as [->|].
    + by rewrite lookup_insert_eq, Hdev.
    + rewrite lookup_insert_ne by done. destruct (devs c !! k); [reflexivity|done].
  - apply view_eq; [done|done|done| | |].
    + intros q x Hq. rewrite (slot_with (with_devs c m) p d) by done. case_decide; [|by exists x].
      exists (cleaned d). subst q. replace x with d by congruence. done.
    + unfold with_slot. cbn. by rewrite length_insert.
    + intros k ino Hino Hno. cbn [with_slot with_data with_devs devs]. unfold m. destruct (decide (k = dev_indx d)) as [->|].
      * rewrite lookup_insert_eq, Hdev. bind_red. rewrite Hst'. rewrite decide_False; [done|].
        intros ->. by apply (Hno p d Hd).
      * by rewrite lookup_insert_ne by done.
Qed.

(** ** Releasing *)

(** A dentry after some of its users are gone. *)
Definition released d d' : Prop := d' = set_count (d_count d') (set_dflags (d_flags d') d) ∧
  d_count d' <= d_count d ∧
  ∀ k, 0 < k < 32 → TEST_FLAG (d_flags d') (Z.shiftl 1 k) = TEST_FLAG (d_flags d) (Z.shiftl 1 k).

(** Only counts have gone down and dirty inodes have been written. *)
Record put_rel c c' : Prop := {
  pr_len : length (data c') = length (data c);
  pr_heap : heap c' = heap c;
  pr_brk : brk c' = brk c;
  pr_cache : can_cache_inodes c' = can_cache_inodes c;
  pr_block : block_locked c' = block_locked c;
  pr_area : stat_cached_inodes_area_size c' = stat_cached_inodes_area_size c;
  pr_devs : devs_same (devs c) (devs c');
  pr_view dev ino : ino ≠ 0 → view c' dev ino = view c dev ino;
  pr_slot p d : slot c p = Some d → ∃ d', slot c' p = Some d' ∧ released d d';
}.

#[global] Instance released_preorder : PreOrder released.
Proof.
  split.
  - intros d. split; [by destruct d|]. split; [lia|done].
  - intros d1 d2 d3 (E2 & ? & Hf2) (E3 & ? & Hf3). split; [rewrite E3, E2; done|]. split; [lia|].
    intros k Hk. by rewrite Hf3, Hf2.
Qed.
#[global] Instance put_rel_preorder : PreOrder put_rel.
Proof.
  split.
  - intros c. constructor; try done. intros p d Hd. exists d. done.
  - intros c1 c2 c3 [] []. constructor; try congruence.
    + by etrans.
    + intros dev ino Hi. rewrite pr_view1 by done. by apply pr_view0.
    + intros p d Hd. destruct (pr_slot0 p d Hd) as (d2 & Hd2 & H2). destruct (pr_slot1 p d2 Hd2) as (d3 & Hd3 & H3).
      exists d3. split; [done|]. by etrans.
Qed.

Lemma put_rel_roomy c c' n : put_rel c c' → roomy c n → roomy c' n.
Proof. intros [] (? & ? & ?). unfold roomy. split; [congruence|]. split; [congruence|lia]. Qed.

(** A lock that is taken and given back. *)
Lemma put_rel_unlock c p d c' d' : cache_ok c → slot c p = Some d → locked d = false → cache_ok c' →
  put_rel (with_slot c p (set_locked true d)) c' → slot c' p = Some d' →
  cache_ok (with_slot c' p (set_locked false d')) ∧ put_rel c (with_slot c' p (set_locked false d')).
Proof.
  intros Hc Hd Hl Hc' Hr Hd'.
  assert (cache_ok (with_slot c p (set_locked true d))) as Hc1.
  { apply cache_ok_links with d; try done; by apply (co_count c Hc p d). }
  assert (cache_ok (with_slot c' p (set_locked false d'))) as Hc2.
  { apply cache_ok_links with d'; try done; by apply (co_count c' Hc' p d'). }
  split; [done|]. destruct Hr. constructor; try done.
  - unfold with_slot. cbn [data with_data]. rewrite length_insert, pr_len0. unfold with_slot. cbn. by rewrite length_insert.
  - intros dev ino Hi. rewrite (view_with c' p d') by done. rewrite pr_view0 by done. by apply (view_with c p d).
  - intros q x Hx. rewrite (slot_with c' p d') by done. case_decide as Hq.
    + subst q. assert (x = d) as -> by congruence. eexists. split; [done|].
      destruct (pr_slot0 p (set_locked true d)) as (y & Hy & Ey & ? & Hf); [by apply slot_with_eq with d|].
      assert (y = d') as -> by congruence. split; [|split; [done|done]].
      cbn [set_locked d_count d_flags]. rewrite Ey. destruct d; cbn in *; by subst.
    + apply pr_slot0. by rewrite slot_with_ne with (d := d).
Qed.

(** *** Counting references *)

Lemma refs_ext c ext ext' : refs_ok c ext → (∀ p, ext' p = ext p) → refs_ok c ext'.
Proof. intros Hr He p. rewrite He. apply Hr. Qed.

(** What references depend on. *)
Lemma refs_put_rel_flags c c' ext : refs_ok c ext →
  (∀ q, children c' q = children c q) →
  (∀ q d, slot c q = Some d → ∃ d', slot c' q = Some d' ∧ d_count d' = d_count d) → refs_ok c' ext.
Proof.
  intros Hr Hch Hs p. rewrite Hch. destruct (Hr p) as [? Hp]. split; [done|]. intros Hp0 Hpos.
  destruct (Hp Hp0 Hpos) as (d & Hd & Hle). destruct (Hs p d Hd) as (d' & Hd' & E). exists d'. split; [done|lia].
Qed.

Lemma children_with c p d e q : slot c p = Some d →
  children (with_slot c p e) q = children c q - (if decide (0 < d_count d ∧ parent d = q) then 1 else 0)
    + (if decide (0 < d_count e ∧ parent e = q) then 1 else 0).
Proof. intros Hd. unfold children. by rewrite (count_with _ c p d e). Qed.

Definition drop_ref (ext : Z → Z) (p q : Z) : Z := if decide (q = p) then ext q - 1 else ext q.
Definition add_ref (ext : Z → Z) (p q : Z) : Z := if decide (q = p) then ext q + 1 else ext q.

(** One user fewer, and not the last one. *)
Lemma refs_put_some c ext p d : refs_ok c ext → slot c p = Some d → 1 <= ext p → 1 < d_count d →
  refs_ok (with_slot c p (set_count (d_count d - 1) d)) (drop_ref ext p).
Proof.
  intros Hr Hd Hp Hcnt q. rewrite (children_with c p d) by done. cbn [d_count set_count parent].
  pose proof (count_bound (λ d, 0 < d_count d ∧ parent d = q) c) as Hb. fold (children c q) in Hb.
  destruct (Hr q) as [? Hq]. unfold drop_ref.
  replace (if decide (0 < d_count d - 1 ∧ parent d = q) then 1 else 0)
    with (if decide (0 < d_count d ∧ parent d = q) then 1 else 0) by (repeat case_decide; lia).
  split; [case_decide; [subst|]; lia|]. intros Hq0 Hpos. destruct (decide (q = p)) as [->|Hne].
  - destruct Hq as (x & Hx & Hle); [done|lia|]. assert (x = d) as -> by congruence.
    eexists. split; [by apply slot_with_eq with d|]. cbn [set_count d_count]. lia.
  - destruct Hq as (x & Hx & Hle); [done|lia|]. exists x. split; [|lia]. by rewrite slot_with_ne with (d := d).
Qed.

(** The last user: its reference to its parent is handed to the caller. *)
Lemma refs_put_last c ext p d e : refs_ok c ext → slot c p = Some d → 1 <= ext p → p ≠ 0 → d_count d = 1 →
  d_count e = 0 →
  refs_ok (with_slot c p e) (λ q, drop_ref ext p q + if decide (q = parent d ∧ q ≠ 0) then 1 else 0) ∧
  (parent d ≠ 0 → parent d ≠ p).
Proof.
  intros Hr Hd Hp Hp0 Hcnt He.
  destruct (Hr p) as [_ Hrp]. pose proof (count_bound (λ d, 0 < d_count d ∧ parent d = p) c) as Hb. fold (children c p) in Hb.
  destruct (Hrp Hp0) as (x & Hx & Hle); [lia|]. assert (x = d) as -> by congruence.
  assert (parent d ≠ p) as Hnp.
  { intros E. assert (0 < children c p); [|lia]. apply (count_pos _ c p d Hd). lia. }
  split; [|done]. intros q. rewrite (children_with c p d) by done. rewrite He.
  rewrite (decide_False (P := 0 < 0 ∧ parent e = q)) by lia.
  pose proof (count_bound (λ d, 0 < d_count d ∧ parent d = q) c) as Hbq. fold (children c q) in Hbq.
  destruct (Hr q) as [? Hq]. unfold drop_ref.
  destruct (decide (q = p)) as [->|Hne].
  - rewrite !decide_False by (intros []; congruence). split; [lia|]. intros _ ?. lia.
  - split; [case_decide; lia|]. intros Hq0 Hpos. destruct (decide (q = parent d ∧ q ≠ 0)) as [[-> _]|Hn].
    + rewrite decide_True in * by (split; [lia|done]). destruct Hq as (y & Hy & Hyle); [done|lia|]. exists y.
      split; [|lia]. by rewrite slot_with_ne with (d := d).
    + rewrite decide_False in * by (intros []; apply Hn; split; congruence).
      destruct Hq as (y & Hy & Hyle); [done|lia|]. exists y. split; [|lia]. by rewrite slot_with_ne with (d := d).
Qed.

(** A slot whose count and parent stay. *)
Lemma refs_same c ext p d e : refs_ok c ext → slot c p = Some d → d_count e = d_count d → parent e = parent d →
  refs_ok (with_slot c p e) ext.
Proof.
  intros Hr Hd Ec Ep. apply refs_put_rel_flags with c; [done| |].
  - intros q. rewrite (children_with c p d) by done. rewrite Ec, Ep. lia.
  - intros q x Hx. rewrite (slot_with c p d) by done. case_decide; [|by exists x]. subst. exists e.
    split; [done|]. congruence.
Qed.
Lemma held_with c p d e : slot c p = Some d → held_slots (with_slot c p e) =
  held_slots c - (if decide (0 < d_count d) then 1 else 0) + (if decide (0 < d_count e) then 1 else 0).
Proof. intros Hd. unfold held_slots. by rewrite (count_with _ c p d e). Qed.

(** *** [dentry_put] *)

(** The inode is written back and the dentry stays in the cache. *)
Lemma flush_prefree_spec c p d : cache_ok c → valid c p d → roomy c 0 →
  ∃ c' d', (c2 ← dentry_flush_inode_locked c p; dentry_prefree_locked c2 p) = Some c' ∧
    slot c' p = Some d' ∧ is_dirty d' = false ∧ d_count d' = d_count d ∧ cache_ok c' ∧ put_rel c c' ∧
    (∀ q, q ≠ p → slot c' q = slot c q) ∧ (∀ q, children c' q = children c q) ∧ held_slots c' = held_slots c ∧
    stat_cached_dentries c' = usize (stat_cached_dentries c - 1).
Proof.
  intros Hc Hv Hroom. pose proof Hv as [Hd Hi].
  destruct (flush_spec c p d Hc Hv) as (m & d' & -> & Hd' & Hcl & Hok & Hsame & Hview). bind_red.
  assert (d_count d' = d_count d ∧ parent d' = parent d ∧ released d d') as (Ec & Ep & Hrel).
  { destruct Hd' as [-> | ->]; [done|]. split; [done|]. split; [done|]. split; [by destruct d|].
    split; [cbn; lia|]. intros k Hk. by apply cleaned_flags. }
  destruct Hroom as (Hcc & Hbl & Harea).
  set (c1 := with_slot (with_devs c m) p d') in *.
  assert (dentry_prefree_locked c1 p = Some (with_dentries c1 (stat_cached_dentries c - 1))) as ->.
  { unfold dentry_prefree_locked, c1. cbn [can_cache_inodes with_slot with_data with_devs]. rewrite Hcc. cbn [negb].
    unfold need_to_free_inode_cache. cbn [stat_cached_inodes_area_size with_slot with_data with_devs].
    destruct (Z.ltb_spec DENTRY_SWAP_THRESHOLD_FOR_INODE_CACHE (stat_cached_inodes_area_size c)); [lia|done]. }
  exists (with_dentries c1 (stat_cached_dentries c - 1)), d'. split; [done|].
  assert (∀ q, slot (with_dentries c1 (stat_cached_dentries c - 1)) q = if decide (p = q) then Some d' else slot c q) as Hs.
  { intros q. apply (slot_with (with_devs c m) p d). done. }
  split; [by rewrite Hs, decide_True|]. split; [done|]. split; [done|].
  split; [constructor; apply Hok|]. split.
  - constructor; try done.
    + unfold c1, with_slot. cbn. by rewrite length_insert.
    + intros q x Hx. rewrite Hs. case_decide; [subst|by exists x]. exists d'. split; [done|]. congruence.
  - split; [intros q Hq; rewrite Hs, decide_False by done; done|]. split; [|split].
    + intros q. change (children (with_slot (with_devs c m) p d') q = children (with_devs c m) q).
      rewrite (children_with _ p d) by done. rewrite Ec, Ep. lia.
    + change (held_slots (with_slot (with_devs c m) p d') = held_slots (with_devs c m)).
      rewrite (held_with _ p d) by done. rewrite Ec. lia.
    + done.
Qed.

(** A smaller count under a lock. *)
Lemma put_rel_count c p d n : cache_ok c → slot c p = Some d → inode_indx d ≠ 0 → 0 <= n <= d_count d →
  put_rel (with_slot c p (set_locked true d)) (with_slot c p (set_count n (set_locked true d))).
Proof.
  intros Hc Hd Hi Hn.
  assert (∀ e, e = set_locked true d ∨ e = set_count n (set_locked true d) → cache_ok (with_slot c p e)) as Hok.
  { intros e [-> | ->]; apply cache_ok_links with d; try done; [by apply (co_count c Hc p d)|cbn; lia]. }
  constructor; try done; [unfold with_slot; cbn; by rewrite !length_insert| |].
  - intros dev ino Hino. rewrite !(view_with c p d) by auto. done.
  - intros q x Hx. rewrite (slot_with c p d) in * by done. case_decide; [|by exists x].
    injection Hx as <-. eexists. split; [done|]. split; [done|]. split; [cbn; lia|done].
Qed.

(** The parent's turn: [put] of it if there is one. *)
Definition put_parent (put : cache D → Z → option (cache D)) c (q : Z) : option (cache D) :=
  if negb (q =? 0) then put c q else Some c.

Definition put_result c p k ext r : Prop := ∃ c', r = Some c' ∧ cache_ok c' ∧ tidy c' ∧
  refs_ok c' (drop_ref ext p) ∧ put_rel c c' ∧ stat_cached_dentries c' = usize (held_slots c' + k).

(** The caller holds [p], no dentry in use is locked, and the cache is not so full
    that inodes are thrown out; [k] is by how much the count of dentries is off. *)
Record put_ready c p k ext : Prop := {
  py_ok : cache_ok c;
  py_tidy : tidy c;
  py_refs : refs_ok c ext;
  py_roomy : roomy c 0;
  py_locks q d : slot c q = Some d → locked d = true → d_count d = 0;
  py_ref : p ≠ 0 ∧ 1 <= ext p;
  py_stat : stat_cached_dentries c = usize (held_slots c + k);
}.

(** The last user of [p]. *)
Lemma put_last put c p k ext d : put_ready c p k ext → slot c p = Some d → d_count d = 1 → locked d = false →
  (∀ c1 q k1 ext1, held_slots c1 < held_slots c → put_ready c1 q k1 ext1 → put_result c1 q k1 ext1 (put c1 q)) →
  put_result c p k ext
    (c2 ← dentry_put_impl_locked put (with_slot c p (set_count 0 (set_locked true d))) p; spinlock_release c2 p).
Proof.
  intros [Hc Ht Hr Hroom Hlk [Hp0 Hp] Est] Hd Hcnt Hl Hput.
  set (d1 := set_count 0 (set_locked true d)). set (c1 := with_slot c p d1).
  assert (inode_indx d ≠ 0) as Hi by (intros E; destruct (co_count c Hc p d Hd) as [_ E0]; specialize (E0 E); lia).
  assert (cache_ok c1) as Hc1 by (apply cache_ok_links with d; done).
  assert (slot c1 p = Some d1) as Hd1 by by apply slot_with_eq with d.
  destruct (refs_put_last c ext p d d1 Hr Hd Hp Hp0 Hcnt eq_refl) as [Hr1 Hpar]. fold c1 in Hr1.
  assert (held_slots c1 = held_slots c - 1) as Hh1.
  { unfold c1. rewrite (held_with c p d) by done. rewrite decide_True by lia. rewrite decide_False by (cbn; lia). lia. }
  assert (∃ c3, put_parent put c1 (parent d) = Some c3 ∧ cache_ok c3 ∧ tidy c3 ∧ refs_ok c3 (drop_ref ext p) ∧
    put_rel c1 c3 ∧ stat_cached_dentries c3 = usize (held_slots c3 + (k + 1)))
    as (c3 & E3 & Hc3 & Ht3 & Hr3 & Hrel3 & Hst3).
  { assert (tidy c1) as Ht1.
    { intros q x [Hx Hxi] Hx0 Hxl. unfold c1 in Hx. rewrite (slot_with c p d) in Hx by done. case_decide.
      - injection Hx as <-. done.
      - apply (Ht q); [by split|done|done]. }
    unfold put_parent. destruct (Z.eqb_spec (parent d) 0) as [E|E]; cbn [negb].
    - exists c1. split; [done|]. split; [done|]. split; [done|]. split; [|split; [done|]].
      + eapply refs_ext; [exact Hr1|]. intros q. cbn beta. rewrite decide_False by (intros []; congruence). lia.
      + change (stat_cached_dentries c1) with (stat_cached_dentries c). rewrite Est, Hh1. f_equal. lia.
    - destruct (Hput c1 (parent d) (k + 1) (λ q, drop_ref ext p q + if decide (q = parent d ∧ q ≠ 0) then 1 else 0))
        as (c3 & -> & ? & ? & Hr3 & ? & ?); [lia| |].
      + constructor; try done.
        * intros q x Hx Hxl. unfold c1 in Hx. rewrite (slot_with c p d) in Hx by done. case_decide; [by injection Hx as <-|].
          by apply (Hlk q).
        * split; [done|]. rewrite decide_True by done. destruct (Hr (parent d)). unfold drop_ref.
          rewrite decide_False by auto. lia.
        * change (stat_cached_dentries c1) with (stat_cached_dentries c). rewrite Est, Hh1. f_equal. lia.
      + exists c3. split; [done|]. split; [done|]. split; [done|]. split; [|done].
        eapply refs_ext; [exact Hr3|]. intros q. unfold drop_ref at 2. case_decide; [rewrite decide_True by (split; congruence); lia|].
        rewrite decide_False by (intros []; congruence). lia. }
  destruct (pr_slot _ _ Hrel3 p d1 Hd1) as (d3 & Hd3 & E & Hle & Hfl).
  assert (d_count d3 = 0) as Hz by (pose proof (co_count c3 Hc3 p d3 Hd3); cbn in Hle; lia).
  assert (valid c3 p d3) as Hv3 by (split; [done|]; rewrite E; done).
  destruct (co_ordinary c3 Hc3 p d3 Hv3) as [Hcu Hde].
  destruct (flush_prefree_spec c3 p d3 Hc3 Hv3) as (c5 & d5 & E5 & Hd5 & Hcl5 & Hcnt5 & Hc5 & Hrel5 & Hoth & Hch5 & Hh5 & Hst5).
  { by eapply put_rel_roomy. }
  unfold dentry_put_impl_locked. fold d1 c1. rewrite Hd1. bind_red.
  change (if negb (parent d1 =? 0) then put c1 (parent d1) else Some c1) with (put_parent put c1 (parent d)).
  rewrite E3. bind_red. rewrite Hd3. bind_red. rewrite Hcu, Hde. 
  assert (put_rel c1 c5) as Hrel by by etrans.
  destruct (pr_slot _ _ Hrel p d1 Hd1) as (x & Hx & Ex & _ & _). assert (x = d5) as -> by congruence.
  match goal with |- context [mbind ?f ?e] => replace e with (Some c5) end. bind_red.
  unfold spinlock_release. rewrite Hd5. bind_red. rewrite Ex. cbn [locked set_count set_dflags set_locked d1]. rewrite <- Ex.
  rewrite (put_slot_eq c5 p d5) by done.
  destruct (put_rel_unlock c p d c5 d5 Hc Hd Hl Hc5) as [Hc6 Hrel6]; [|done|].
  { transitivity c1; [|exact Hrel]. unfold c1, d1. apply put_rel_count; (done || lia). }
  assert (d_count (set_locked false d5) = d_count d5 ∧ parent (set_locked false d5) = parent d5) as [Ec6 Ep6] by done.
  eexists. split; [done|]. split; [done|]. split; [|split; [|split; [done|]]].
  - intros q x [Hx2 Hxi] Hx0 Hxl. rewrite (slot_with c5 p d5) in Hx2 by done. case_decide as Hq.
    + by injection Hx2 as <-.
    + rewrite Hoth in Hx2 by done. by apply (Ht3 q).
  - apply refs_same with d5; [|done|done|done].
    apply refs_put_rel_flags with c3; [done|done|]. intros q x Hx2. destruct (decide (q = p)) as [->|].
    + exists d5. split; [done|]. rewrite Hcnt5. congruence.
    + exists x. by rewrite Hoth.
  - rewrite (held_with c5 p d5) by done. change (stat_cached_dentries (with_slot c5 p _)) with (stat_cached_dentries c5).
    rewrite Ec6, Hst5, Hst3, usize_sub_l, Hh5. f_equal. lia.
Qed.

Lemma put_up_spec fuel c p k ext : put_ready c p k ext → held_slots c < Z.of_nat fuel →
  put_result c p k ext (put_up fuel c p).
Proof.
  revert c p k ext. induction fuel as [|fuel IH]; intros c p k ext Hready Hf; pose proof Hready as [Hc Ht Hr Hroom Hlk [Hp0 Hp] Est].
  { pose proof (count_bound (λ d, 0 < d_count d) c). unfold held_slots in Hf. lia. }
  destruct (Hr p) as [_ Hrp]. pose proof (count_bound (λ d, 0 < d_count d ∧ parent d = p) c) as Hb. fold (children c p) in Hb.
  destruct (Hrp Hp0) as (d & Hd & Hle); [lia|].
  assert (locked d = false) as Hl.
  { destruct (locked d) eqn:E; [|done]. specialize (Hlk p d Hd E). lia. }
  assert (inode_indx d ≠ 0) as Hi by (intros E; destruct (co_count c Hc p d Hd) as [_ E0]; specialize (E0 E); lia).
  cbn [put_up]. unfold spinlock_acquire. rewrite Hd. bind_red. rewrite Hl, (put_slot_eq c p d) by done. bind_red.
  unfold put_locked. rewrite (slot_with_eq c p d) by done. bind_red. cbn [d_count set_locked].
  destruct (Z.leb_spec (d_count d) 0); [lia|].
  rewrite (put_slot_eq _ p (set_locked true d)) by by apply slot_with_eq with d. bind_red. rewrite with_slot_twice.
  destruct (Z.eqb_spec (d_count d - 1) 0) as [E1|E1].
  - rewrite E1. apply put_last; [done|done|lia|done|]. intros c1 q k1 ext1 Hh Hready1. apply IH; [done|lia].
  - bind_red. unfold spinlock_release. rewrite (slot_with_eq c p d) by done. bind_red. cbn [locked set_count set_locked].
    rewrite (put_slot_eq _ p (set_count (d_count d - 1) (set_locked true d))) by by apply slot_with_eq with d.
    rewrite with_slot_twice.
    replace (set_locked false _) with (set_count (d_count d - 1) d) by (destruct d; cbn in *; by subst).
    eexists. split; [done|].
    assert (cache_ok (with_slot c p (set_count (d_count d - 1) d))) as Hok by (apply cache_ok_links with d; try done; cbn; lia).
    split; [done|]. split; [|split; [|split]].
    + intros q x [Hx Hxi] Hx0 Hxl. rewrite (slot_with c p d) in Hx by done. case_decide; [injection Hx as <-; cbn in Hx0; lia|].
      by apply (Ht q).
    + apply refs_put_some; [done|done|done|lia].
    + constructor; try done; [unfold with_slot; cbn; by rewrite length_insert|by apply (view_with c p d)|].
      intros q x Hx. rewrite (slot_with c p d) by done. case_decide; [|by exists x]. subst. eexists. split; [done|].
      assert (x = d) as -> by congruence. split; [by destruct d|]. split; [cbn; lia|done].
    + rewrite (held_with c p d) by done. change (stat_cached_dentries (with_slot c p _)) with (stat_cached_dentries c).
      cbn [set_count d_count]. rewrite !decide_True by lia. rewrite Est. f_equal. lia.
Qed.

(** ** Getting *)

Lemma dentries_in_block_pos : 1 <= dentries_in_block.
Proof. unfold dentries_in_block, sizeof_dentry, ptr_bytes. destruct ptr_bits_cases as [-> | ->]; vm_compute; discriminate. Qed.

Lemma slot_alloc c q : slot (dentry_cache_alloc c) q =
  if decide (Z.of_nat (length (data c)) < q <= Z.of_nat (length (data c)) + dentries_in_block) then Some no_dentry else slot c q.
Proof.
  unfold slot, dentry_cache_alloc. cbn [data with_data]. pose proof dentries_in_block_pos. case_decide.
  - rewrite zget_lookup by lia. rewrite lookup_app_r by lia. apply lookup_replicate_2. lia.
  - destruct (decide (1 <= q)); [|unfold zget; by rewrite !decide_False by lia].
    rewrite !zget_lookup by lia. destruct (decide (q <= Z.of_nat (length (data c)))).
    + by rewrite lookup_app_l by lia.
    + rewrite !lookup_ge_None_2; [done|lia|]. rewrite length_app, length_replicate. lia.
Qed.
Lemma slot_alloc_old c q d : slot c q = Some d → slot (dentry_cache_alloc c) q = Some d.
Proof. intros Hq. rewrite slot_alloc. apply slot_range in Hq as ?. rewrite decide_False by lia. done. Qed.
Lemma valid_alloc c q d : valid (dentry_cache_alloc c) q d → valid c q d.
Proof. intros [Hq Hi]. rewrite slot_alloc in Hq. case_decide; [by injection Hq as <-|done]. Qed.

Lemma count_alloc (P : dentry → Prop) `{!∀ d, Decision (P d)} c : ¬ P no_dentry → count P (dentry_cache_alloc c) = count P c.
Proof.
  intros Hn. unfold count, dentry_cache_alloc. cbn [data with_data]. rewrite filter_app, length_app.
  replace (filter P (replicate _ no_dentry)) with (@nil dentry); [cbn; lia|]. symmetry.
  induction (Z.to_nat dentries_in_block) as [|n IH]; [done|]. cbn [replicate]. by rewrite filter_cons, decide_False.
Qed.

Lemma cache_alloc_ok c : cache_ok c → cache_ok (dentry_cache_alloc c).
Proof.
  intros Hc. constructor; try apply Hc.
  - intros p q d e Hp%valid_alloc Hq%valid_alloc. by apply (co_unique c Hc).
  - intros p q d e Hp%valid_alloc Hq%valid_alloc. by apply (co_apart c Hc).
  - intros p d Hp%valid_alloc. by apply (co_backed c Hc p).
  - intros p d Hp%valid_alloc. by apply (co_ordinary c Hc p).
  - intros p d Hp. rewrite slot_alloc in Hp. case_decide; [injection Hp as <-; done|by apply (co_count c Hc p)].
  - unfold taken_slots. rewrite count_alloc by (cbn; lia). apply (co_area c Hc).
Qed.

(** The slot that is used for a new dentry has no users. *)
Lemma find_empty_spec c : cache_ok c → block_locked c = false → ∃ p c1 d0,
  dentry_cache_find_empty_entry c = Some (p, c1) ∧ slot c1 p = Some d0 ∧ d_count d0 = 0 ∧
  (c1 = c ∨ c1 = dentry_cache_alloc c).
Proof.
  intros Hc Hb. unfold dentry_cache_find_empty_entry. rewrite Hb.
  match goal with |- context [for_loop ?nn ?i0 ?g ?s0] =>
    destruct (for_loop_total (λ _ q, q = 0 ∨ ∃ d, slot c q = Some d ∧ d_count d = 0)
      (λ q, ∃ d, slot c q = Some d ∧ d_count d = 0) g nn i0 s0) as (x & -> & Hx) end.
  - by left.
  - intros p cand Hp Hcand. destruct (slot_is_Some c p) as [d Hd]; [lia|]. returns Hd.
    destruct (Z.eqb_spec (inode_indx d) 0).
    + exists d. split; [done|]. by apply (co_count c Hc p d).
    + destruct (Z.eqb_spec (d_count d) 0); [right; by exists d|done].
  - bind_red. destruct x as [q|q].
    + destruct (Z.eqb_spec q 0) as [->|Hq]; cbn [negb].
      * eexists _, _, no_dentry. split; [done|]. split; [|split; [done|by right]].
        rewrite slot_alloc. pose proof dentries_in_block_pos. by rewrite decide_True by lia.
      * destruct Hx as [?|(d & ? & ?)]; [done|]. exists q, c, d. auto.
    + destruct Hx as (d & ? & ?). exists q, c, d. auto.
Qed.

(** The dentry that [dentry_alloc_new] leaves in a slot, with its inode at [a]. *)
Definition new_dentry d0 (dev ino a : Z) : dentry :=
  Build_dentry 1 0 ino a false dev 0 0 (mountpoint d0) (mounted_dentry d0).

(** The cache once inode [i] is in slot [p]. *)
Definition with_new c p d0 (dev ino : Z) (i : inode_t) : cache D :=
  let fresh := inode_indx d0 =? 0 in
  let a := if fresh then brk c else inode_ptr d0 in
  Build_cache (<[Z.to_nat (p - 1) := new_dentry d0 dev ino a]> (data c)) (block_locked c) (<[a := Inode i]> (heap c))
    (if fresh then brk c + 1 else brk c) (can_cache_inodes c) (usize (stat_cached_dentries c + 1))
    (if fresh then usize (stat_cached_inodes_area_size c + INODE_LEN) else stat_cached_inodes_area_size c) (devs c).

Lemma alloc_new_spec c c1 p d0 dev ino i : cache_ok c1 → dentry_cache_find_empty_entry c = Some (p, c1) →
  slot c1 p = Some d0 → ino ≠ 0 → (v ← devs c1 !! dev; stored v ino) = Some i →
  dentry_alloc_new junk_inode c dev ino true = Some (p, with_new c1 p d0 dev ino i).
Proof.
  intros Hc Ef Hd Hino (v & Hdev & Hst)%bind_Some. unfold dentry_alloc_new. destruct (Z.eqb_spec ino 0); [done|].
  rewrite Ef. bind_red. rewrite Hd. bind_red. rewrite Hdev. bind_red. rewrite (put_slot_eq c1 p d0) by done. bind_red.
  pose proof (read_stored v ino i) as Hrd.
  unfold with_new. destruct (Z.eqb_spec (inode_indx d0) 0) as [E|E]; cbn [negb].
  - unfold alloc_obj. rewrite (modify_eq _ p (new_dentry d0 dev ino (inode_ptr d0))) by by apply (slot_with_eq c1 p d0).
    bind_red. set (c2 := with_area _ _).
    assert (slot c2 p = Some (new_dentry d0 dev ino (brk c1))) as Hs2.
    { apply (slot_with_eq _ p (new_dentry d0 dev ino (inode_ptr d0))). by apply (slot_with_eq c1 p d0). }
    rewrite Hs2. bind_red. cbn [inode_ptr new_dentry]. unfold load_inode.
    replace (heap c2 !! brk c1) with (Some (Inode junk_inode)) by (symmetry; apply lookup_insert_eq). bind_red.
    rewrite Hrd by (try done; by apply (co_devs c1 Hc dev)). bind_red. unfold store_inode, load_inode.
    replace (heap c2 !! brk c1) with (Some (Inode junk_inode)) by (symmetry; apply lookup_insert_eq). bind_red.
    change (0 <? 0) with false. cbv match. do 2 f_equal.
    unfold with_dentries, with_heap, c2. cbn. rewrite insert_insert_eq, list_insert_insert_eq. done.
  - bind_red. set (c2 := with_slot c1 p _).
    assert (slot c2 p = Some (new_dentry d0 dev ino (inode_ptr d0))) as Hs2 by by apply (slot_with_eq c1 p d0).
    destruct (co_backed c1 Hc p d0) as (_ & j & j0 & w & Hj & _); [by split|].
    rewrite Hs2. bind_red. cbn [inode_ptr new_dentry]. unfold load_inode. change (heap c2) with (heap c1). rewrite Hj. bind_red.
    rewrite Hrd by (try done; by apply (co_devs c1 Hc dev)). bind_red. unfold store_inode, load_inode.
    change (heap c2) with (heap c1). rewrite Hj. bind_red. change (0 <? 0) with false. cbv match. done.
Qed.

Section new.
Context c p d0 (dev ino : Z) (i : inode_t).
Hypothesis (Hc : cache_ok c) (Hd : slot c p = Some d0) (H0 : d_count d0 = 0) (Hino : ino ≠ 0).
Hypothesis (Hdev : (v ← devs c !! dev; stored v ino) = Some i).
Hypothesis (Hno : ∀ q d, slot c q = Some d → ¬ (dev_indx d = dev ∧ inode_indx d = ino)).
Hypothesis (Hclean : inode_indx d0 ≠ 0 → is_dirty d0 = false).
Hypothesis (Harea : stat_cached_inodes_area_size c + INODE_LEN < 2 ^ 32).
Let a := if inode_indx d0 =? 0 then brk c else inode_ptr d0.
Let e := new_dentry d0 dev ino a.
Let c' := with_new c p d0 dev ino i.

Lemma new_slot q : slot c' q = if decide (p = q) then Some e else slot c q.
Proof. apply (slot_with c p d0 e q Hd). Qed.

(** The inode's memory is no other dentry's. *)
Lemma new_apart q d : valid c q d → q ≠ p → inode_ptr d ≠ a.
Proof.
  intros Hv Hne. unfold a. destruct (Z.eqb_spec (inode_indx d0) 0).
  - destruct (co_backed c Hc q d Hv) as (_ & j & j0 & w & Hj & _). intros E.
    rewrite E, (co_fresh c Hc) in Hj by lia. done.
  - intros E. apply Hne. apply (co_apart c Hc q p d d0); [done|by split|done].
Qed.

Lemma new_valid q x : valid c' q x → (q = p ∧ x = e) ∨ (q ≠ p ∧ valid c q x).
Proof.
  intros [Hq Hx]. rewrite new_slot in Hq. case_decide; [left|right].
  - split; [done|congruence].
  - split; [congruence|by split].
Qed.

Lemma new_heap q d : valid c q d → q ≠ p → heap c' !! inode_ptr d = heap c !! inode_ptr d.
Proof. intros Hv Hne. cbn. fold a. rewrite lookup_insert_ne; [done|]. intros E. by apply (new_apart q d). Qed.

Lemma new_pos : 0 < a < brk c'.
Proof.
  unfold a. cbn. destruct (Z.eqb_spec (inode_indx d0) 0); [pose proof (co_brk c Hc); lia|].
  destruct (co_backed c Hc p d0) as (? & j & j0 & w & Hj & _); [by split|]. split; [done|].
  destruct (Z.lt_ge_cases (inode_ptr d0) (brk c)); [done|]. by rewrite (co_fresh c Hc) in Hj.
Qed.

Lemma new_ok : cache_ok c'.
Proof.
  apply bind_Some in Hdev as (v & Hv & Hst).
  constructor.
  - intros q q' x x' [[-> ->]|[Hq H1]]%new_valid [[-> ->]|[Hq' H2]]%new_valid; [done| | |by apply (co_unique c Hc)];
      cbn [dev_indx inode_indx e new_dentry].
    + intros ? ?. destruct (Hno q' x'); [apply H2|done].
    + intros ? ?. destruct (Hno q x); [apply H1|done].
  - intros q q' x x' [[-> ->]|[Hq H1]]%new_valid [[-> ->]|[Hq' H2]]%new_valid; [done| | |by apply (co_apart c Hc)];
      cbn [inode_ptr e new_dentry].
    + intros E. by destruct (new_apart q' x' H2 Hq').
    + intros E. by destruct (new_apart q x H1 Hq).
  - intros q x [[-> ->]|[Hq H1]]%new_valid.
    + split; [apply new_pos|]. exists i, i, v. split; [apply lookup_insert_eq|].
      split; [|done]. apply (stored_fits v ino i); [by apply (co_devs c Hc dev)|done].
    + destruct (co_backed c Hc q x H1) as (? & j & j0 & w & Hj & ?). split; [done|]. exists j, j0, w.
      rewrite new_heap with (q := q) by done. done.
  - intros q x [[-> ->]|[Hq H1]]%new_valid; [done|by apply (co_ordinary c Hc q)].
  - intros q x Hq. rewrite new_slot in Hq. case_decide; [injection Hq as <-; by cbn|by apply (co_count c Hc q)].
  - intros b Hb. pose proof new_pos as Hp. cbn in *. fold a. rewrite lookup_insert_ne by lia. apply (co_fresh c Hc).
    destruct (inode_indx d0 =? 0); lia.
  - pose proof new_pos. lia.
  - apply (co_devs c Hc).
  - unfold taken_slots. change (count (λ d, inode_indx d ≠ 0) c') with (count (λ d, inode_indx d ≠ 0) (with_slot c p e)).
    rewrite (count_with _ c p d0 e) by done. rewrite (decide_True (P := inode_indx e ≠ 0)) by done.
    cbn [c' with_new stat_cached_inodes_area_size]. pose proof (co_area c Hc) as Ha. unfold taken_slots in Ha.
    pose proof (count_bound (λ d, inode_indx d ≠ 0) c). unfold INODE_LEN in *.
    destruct (Z.eqb_spec (inode_indx d0) 0); [|rewrite decide_True by done; lia].
    rewrite decide_False by lia. rewrite usize_small; [lia|]. pose proof ptr_bits_ge. lia.
Qed.

Lemma new_view dv n : n ≠ 0 → view c' dv n = view c dv n.
Proof.
  intros Hn. destruct (find_slot_spec c dv n) as (q & _ & [(Hq & x & Hx & <- & <-)|(_ & Hno')]).
  - destruct (decide (q = p)) as [->|Hne].
    + assert (x = d0) as -> by congruence.
      destruct (co_backed c Hc p d0) as (_ & j & j0 & w & Hj & _ & Hw & Hst & Heq); [by split|].
      rewrite (view_cached c p d0) by (done || by split). unfold load_inode. rewrite Hj.
      rewrite (view_stored c').
      { change (devs c') with (devs c). rewrite Hw. bind_red. rewrite Hst. f_equal. symmetry. by apply Heq, Hclean. }
      intros q y Hy [Ed Ei]. rewrite new_slot in Hy. case_decide as Hpq; [injection Hy as <-|].
      * cbn in Ed, Ei. by apply (Hno p d0).
      * apply Hpq. by apply (co_unique c Hc p q d0 y); [split|split; [|congruence]| |].
    + rewrite (view_cached c' q x); [|apply new_ok|split; [rewrite new_slot, decide_False by done; done|done]].
      rewrite (view_cached c q x) by (done || by split). unfold load_inode. by rewrite (new_heap q x) by (done || by split).
  - rewrite (view_stored c dv n) by done. destruct (decide (dv = dev ∧ n = ino)) as [[-> ->]|Hne].
    + replace (view c' dev ino) with (load_inode c' (inode_ptr e)).
      * rewrite Hdev. unfold load_inode. cbn. fold a. by rewrite lookup_insert_eq.
      * symmetry. apply (view_cached c' p e); [apply new_ok|]. split; [by rewrite new_slot, decide_True|done].
    + rewrite (view_stored c' dv n); [done|]. intros q1 x Hq1. rewrite new_slot in Hq1. case_decide; [|by apply (Hno' q1)].
      injection Hq1 as <-. cbn. intros []. apply Hne. split; congruence.
Qed.

Lemma new_tidy : tidy c → tidy c'.
Proof.
  intros Ht q x [[-> ->]|[Hq H1]]%new_valid; [done|]. by apply (Ht q).
Qed.

Lemma new_children q : q ≠ 0 → children c' q = children c q.
Proof.
  intros Hq. change (children c' q) with (children (with_slot c p e) q). rewrite (children_with c p d0) by done.
  rewrite H0. cbn [e new_dentry parent d_count]. rewrite !decide_False by lia. lia.
Qed.

Lemma new_refs ext : refs_ok c ext → refs_ok c' (add_ref ext p).
Proof.
  intros Hr q. destruct (Hr q) as [? Hq]. pose proof (count_bound (λ d, 0 < d_count d ∧ parent d = q) c) as Hb.
  fold (children c q) in Hb. unfold add_ref. split; [case_decide; lia|]. intros Hq0 Hpos.
  rewrite new_children in * by done. rewrite new_slot. destruct (decide (q = p)) as [->|].
  - rewrite decide_True by done. exists e. split; [done|]. cbn [e new_dentry d_count].
    destruct (decide (0 < ext p + children c p)) as [Hp|]; [|lia].
    destruct (Hq Hq0 Hp) as (x & Hx & Hle). assert (x = d0) as -> by congruence. lia.
  - rewrite decide_False by congruence. by apply Hq.
Qed.

Lemma new_held : held_slots c' = held_slots c + 1.
Proof.
  change (held_slots c') with (held_slots (with_slot c p e)). rewrite (held_with c p d0) by done. rewrite H0.
  rewrite (decide_False (P := 0 < 0)) by lia. by rewrite decide_True by (cbn; lia); lia.
Qed.
End new.

(** What [dentry_get] gives: the dentry [d'] in slot [p] of [c']. *)
Record got c (dev ino : Z) (i : inode_t) (ext : Z → Z) p c' d' : Prop := {
  gt_slot : slot c' p = Some d';
  gt_ident : dev_indx d' = dev ∧ inode_indx d' = ino ∧ locked d' = false;
  gt_inode : load_inode c' (inode_ptr d') = Some i;
  gt_case : (∃ d, valid c p d ∧ d' = set_count (d_count d + 1) d) ∨
    ((∀ q d, slot c q = Some d → ¬ (dev_indx d = dev ∧ inode_indx d = ino)) ∧
     d_count d' = 1 ∧ parent d' = 0 ∧ d_flags d' = 0 ∧ (∀ d, slot c p = Some d → d_count d = 0));
  gt_ok : cache_ok c';
  gt_tidy : tidy c';
  gt_refs : refs_ok (with_slot c' p (set_parent 0 d')) (add_ref ext p);
  gt_held_refs d : slot c p = Some d → 0 < d_count d → refs_ok c' (add_ref ext p);
  gt_view dv n : n ≠ 0 → view c' dv n = view c dv n;
  gt_same q x : slot c q = Some x → q ≠ p → slot c' q = Some x;
  gt_back q x : slot c' q = Some x → q ≠ p → slot c q = Some x ∨ x = no_dentry;
  gt_env : devs c' = devs c ∧ can_cache_inodes c' = can_cache_inodes c ∧ block_locked c' = block_locked c;
  gt_area : stat_cached_inodes_area_size c' <= stat_cached_inodes_area_size c + INODE_LEN;
  gt_stat k : stat_cached_dentries c = usize (held_slots c + k) → stat_cached_dentries c' = usize (held_slots c' + k);
}.

Lemma refs_put_more c ext p d : refs_ok c ext → slot c p = Some d → 0 <= d_count d → p ≠ 0 → 0 < d_count d ∨ parent d = 0 →
  refs_ok (with_slot c p (set_count (d_count d + 1) d)) (add_ref ext p).
Proof.
  intros Hr Hd Hcnt Hp0 Hcase q. pose proof (count_bound (λ d, 0 < d_count d ∧ parent d = q) c) as Hb. fold (children c q) in Hb.
  destruct (Hr q) as [? Hq]. unfold add_ref. split; [case_decide; lia|]. intros Hq0.
  assert (children (with_slot c p (set_count (d_count d + 1) d)) q = children c q) as Hch.
  { rewrite (children_with c p d) by done. cbn [set_count d_count parent]. repeat case_decide; lia. }
  rewrite Hch. intros Hpos. rewrite (slot_with c p d) by done. destruct (decide (q = p)) as [->|].
  - rewrite decide_True by done. eexists. split; [done|]. cbn [set_count d_count].
    destruct (decide (0 < ext p + children c p)) as [Hp|]; [|lia].
    destruct (Hq Hq0 Hp) as (x & Hx & Hle). assert (x = d) as -> by congruence. lia.
  - rewrite decide_False by congruence. by apply Hq.
Qed.

(** Without its parent a dentry holds no reference. *)
Lemma refs_orphan c ext p d : refs_ok c ext → slot c p = Some d → refs_ok (with_slot c p (set_parent 0 d)) ext.
Proof.
  intros Hr Hd q. destruct (Hr q) as [? Hq]. split; [done|]. intros Hq0. rewrite (children_with c p d) by done.
  cbn [set_parent d_count parent]. rewrite (decide_False (P := 0 < d_count d ∧ 0 = q)) by lia.
  pose proof (count_bound (λ d, 0 < d_count d ∧ parent d = q) c) as Hb. fold (children c q) in Hb.
  intros Hpos. destruct Hq as (x & Hx & Hle); [done|case_decide; lia|].
  rewrite (slot_with c p d) by done. destruct (decide (p = q)) as [Hpq|Hpq].
  - eexists. split; [done|]. cbn [set_parent d_count]. subst. assert (x = d) as -> by congruence. case_decide; lia.
  - exists x. split; [done|]. case_decide; lia.
Qed.

Lemma get_cached c dev ino i ext p d : cache_ok c → tidy c → refs_ok c ext → valid c p d → dev_indx d = dev →
  inode_indx d = ino → locked d = false → d_count d < 2 ^ 31 - 1 → view c dev ino = Some i →
  ∃ c', dentry_duplicate (if d_count d =? 0 then with_dentries c (stat_cached_dentries c + 1) else c) p = Some c' ∧
    got c dev ino i ext p c' (set_count (d_count d + 1) d).
Proof.
  intros Hc Ht Hr Hv <- <- Hl Hcnt Hview. pose proof Hv as [Hd Hi]. pose proof (co_count c Hc p d Hd) as [Hcnt0 _].
  pose proof (slot_range c p d Hd) as Hp.
  set (c1 := if d_count d =? 0 then with_dentries c (stat_cached_dentries c + 1) else c).
  assert (slot c1 p = Some d ∧ cache_ok c1 ∧ tidy c1 ∧ refs_ok c1 ext ∧ (∀ q, slot c1 q = slot c q) ∧
    (∀ dv n, view c1 dv n = view c dv n)) as (Hd1 & Hc1 & Ht1 & Hr1 & Hs1 & Hv1).
  { unfold c1. destruct (d_count d =? 0); [|done]. split; [done|]. split; [constructor; apply Hc|]. done. }
  rewrite (duplicate_spec c1 p d) by (done || lia). eexists. split; [done|].
  assert (cache_ok (with_slot c1 p (set_count (d_count d + 1) d))) as Hok.
  { apply cache_ok_links with d; try done. cbn. lia. }
  constructor.
  - by apply slot_with_eq with d.
  - done.
  - rewrite <- Hview. symmetry. rewrite (view_cached c p d Hc Hv). unfold c1. by destruct (d_count d =? 0).
  - left. by exists d.
  - done.
  - intros q x [Hq Hxi] Hx0 Hxl. rewrite (slot_with c1 p d) in Hq by done. case_decide.
    + injection Hq as <-. cbn in Hx0. lia.
    + by apply (Ht1 q).
  - rewrite with_slot_twice.
    replace (set_parent 0 (set_count (d_count d + 1) d)) with
      (set_count (d_count (set_parent 0 d) + 1) (set_parent 0 d)) by done.
    rewrite <- (with_slot_twice c1 p (set_parent 0 d)).
    apply refs_put_more; [by apply refs_orphan|by apply slot_with_eq with d|exact Hcnt0|lia|by right].
  - intros x Hx Hpos. assert (x = d) as -> by congruence. apply refs_put_more; [done..|lia|by left].
  - intros dv n Hn. rewrite (view_with c1 p d) by done. apply Hv1.
  - intros q x Hq Hne. rewrite slot_with_ne with (d := d) by done. by rewrite Hs1.
  - intros q x Hq Hne. rewrite slot_with_ne with (d := d) in Hq by done. left. by rewrite <- Hs1.
  - unfold c1. by destruct (d_count d =? 0).
  - unfold c1, INODE_LEN. destruct (d_count d =? 0); cbn; lia.
  - intros k Hk. rewrite (held_with c1 p d) by done.
    cbn [set_count d_count]. rewrite (decide_True (P := 0 < d_count d + 1)) by lia.
    unfold c1. destruct (Z.eqb_spec (d_count d) 0) as [E|E].
    + rewrite E. rewrite decide_False by lia. cbn. rewrite Hk, usize_add_l. f_equal.
      change (held_slots (with_dentries c _)) with (held_slots c). lia.
    + rewrite decide_True by lia. cbn. rewrite Hk. f_equal. lia.
Qed.

Lemma view_alloc c dev ino : cache_ok c → ino ≠ 0 → view (dentry_cache_alloc c) dev ino = view c dev ino.
Proof.
  intros Hc Hino. destruct (find_slot_spec c dev ino) as (p & _ & [(Hp & d & Hd & <- & <-)|(_ & Hno)]).
  - rewrite (view_cached (dentry_cache_alloc c) p d); [|by apply cache_alloc_ok|split; [by apply slot_alloc_old|done]].
    by rewrite (view_cached c p d) by (done || by split).
  - rewrite (view_stored c), (view_stored (dentry_cache_alloc c)); [done| |done].
    intros q d Hq [? Hi]. destruct (valid_alloc c q d) as [Hd _]; [split; [done|congruence]|]. by apply (Hno q d).
Qed.

Lemma dentry_get_spec c dev ino i ext : cache_ok c → tidy c → refs_ok c ext → block_locked c = false → ino ≠ 0 →
  view c dev ino = Some i → stat_cached_inodes_area_size c + INODE_LEN < 2 ^ 32 →
  (∀ q d, slot c q = Some d → locked d = true → 0 < d_count d ∧ ¬ (dev_indx d = dev ∧ inode_indx d = ino)) →
  (∀ q d, slot c q = Some d → d_count d < 2 ^ 31 - 1) →
  ∃ p c' d', dentry_get junk_inode c dev ino = Some (p, c') ∧ got c dev ino i ext p c' d'.
Proof.
  intros Hc Ht Hr Hb Hino Hview Harea Hlk Hcnt. unfold dentry_get, get_dentry. rewrite Hb.
  destruct (find_slot_spec c dev ino) as (p & Ef & [(Hp & d & Hd & Hde & Hdi)|(-> & Hno)]); returns Ef.
  - destruct (Z.eqb_spec p 0); [lia|]. cbn [negb]. rewrite Hd. bind_red.
    assert (locked d = false) as Hl.
    { destruct (locked d) eqn:E; [|done]. by destruct (Hlk p d Hd E) as [_ []]. }
    assert (valid c p d) as Hv by (split; [done|congruence]).
    destruct (get_cached c dev ino i ext p d Hc Ht Hr Hv Hde Hdi Hl (Hcnt p d Hd) Hview) as (c' & Ec & Hgot).
    rewrite Ec. by eexists _, _, _.
  - change (negb (0 =? 0)) with false. cbv match.
    destruct (find_empty_spec c Hc Hb) as (p & c1 & d0 & E1 & Hd0 & Hz & Hc1).
    rewrite view_stored in Hview by done.
    assert (cache_ok c1 ∧ devs c1 = devs c ∧ can_cache_inodes c1 = can_cache_inodes c ∧ block_locked c1 = block_locked c ∧
      stat_cached_inodes_area_size c1 = stat_cached_inodes_area_size c ∧ stat_cached_dentries c1 = stat_cached_dentries c ∧
      heap c1 = heap c) as (Hok1 & Edev & Ecc & Ebl & Ear & Est & Ehp).
    { destruct Hc1 as [-> | ->]; [done|]. split; [by apply cache_alloc_ok|done]. }
    assert (∀ q x, slot c q = Some x → slot c1 q = Some x) as Hold.
    { intros q x Hq. destruct Hc1 as [-> | ->]; [done|by apply slot_alloc_old]. }
    assert (∀ q x, slot c1 q = Some x → slot c q = Some x ∨ x = no_dentry) as Hback.
    { intros q x Hq. destruct Hc1 as [-> | ->]; [by left|]. rewrite slot_alloc in Hq. case_decide; [right; congruence|by left]. }
    assert (held_slots c1 = held_slots c ∧ ∀ q, children c1 q = children c q) as [Hh1 Hch1].
    { destruct Hc1 as [-> | ->]; [done|]. unfold held_slots, children. split; [|intros q]; apply count_alloc; cbn; lia. }
    rewrite <- Edev in Hview.
    rewrite (alloc_new_spec c c1 p d0 dev ino i) by done. bind_red. eexists p, _, _. split; [done|].
    assert (∀ q d, slot c1 q = Some d → ¬ (dev_indx d = dev ∧ inode_indx d = ino)) as Hno1.
    { intros q d [Hq| ->]%Hback; [by apply (Hno q)|]. cbn. intros []. congruence. }
    assert (tidy c1) as Ht1.
    { intros q x [[Hq| ->]%Hback Hxi] ? ?; [|done]. by apply (Ht q). }
    assert (refs_ok c1 ext) as Hr1.
    { intros q. rewrite Hch1. destruct (Hr q) as [? Hq]. split; [done|]. intros Hq0 Hpos.
      destruct (Hq Hq0 Hpos) as (x & Hx & ?). exists x. split; [by apply Hold|done]. }
    assert (inode_indx d0 ≠ 0 → is_dirty d0 = false) as Hclean.
    { intros Hi. destruct (Hback p d0 Hd0) as [Hd| ->]; [|done]. apply (Ht p); [by split|done|].
      destruct (locked d0) eqn:E; [|done]. destruct (Hlk p d0 Hd E). lia. }
    rewrite <- Ear in Harea.
    pose proof (new_ok c1 p d0 dev ino i Hok1 Hd0 Hino Hview Hno1 Harea) as Hok.
    pose proof (new_refs c1 p d0 dev ino i Hd0 Hz ext Hr1) as Hrefs.
    pose proof (new_slot c1 p d0 dev ino i Hd0) as Hslot.
    pose proof (slot_range c1 p d0 Hd0) as Hp.
    assert (slot (with_new c1 p d0 dev ino i) p = Some (new_dentry d0 dev ino (if inode_indx d0 =? 0 then brk c1 else inode_ptr d0))) as Hsp
      by by rewrite Hslot, decide_True.
    constructor.
    + exact Hsp.
    + done.
    + cbn [inode_ptr new_dentry]. unfold load_inode, with_new. cbn [heap]. by rewrite lookup_insert_eq.
    + right. split; [done|]. split; [done|]. split; [done|]. split; [done|]. intros d Hd. apply Hold in Hd. congruence.
    + done.
    + by apply new_tidy.
    + by apply refs_orphan.
    + intros d Hd. apply Hold in Hd. assert (d = d0) as -> by congruence. lia.
    + intros dv n Hn. rewrite new_view by done. destruct Hc1 as [-> | ->]; [done|].
      by apply view_alloc.
    + intros q x Hq Hne. rewrite Hslot, decide_False by congruence. by apply Hold.
    + intros q x Hq Hne. rewrite Hslot, decide_False in Hq by congruence. by apply Hback.
    + by cbn.
    + cbn. rewrite <- Ear. unfold INODE_LEN in *. destruct (inode_indx d0 =? 0); [|lia].
      rewrite usize_small; [lia|]. pose proof ptr_bits_ge. pose proof (co_area c1 Hok1).
      pose proof (count_bound (λ d, inode_indx d ≠ 0) c1). unfold taken_slots in *. unfold INODE_LEN in *. lia.
    + intros k Hk. rewrite (new_held c1 p d0) by done. cbn. rewrite Est, Hk, usize_add_l, Hh1. f_equal. lia.
Qed.

(** [dentry_get] and [dentry_put] leave what the kernel sees of the inodes alone. *)
Lemma put_spec c p k ext : put_ready c p k ext → put_result c p k ext (dentry_put c p).
Proof.
  intros Hready. apply put_up_spec; [done|]. pose proof (count_bound (λ d, 0 < d_count d) c). unfold held_slots. lia.
Qed.
End invariant.

(** ** Properties *)

Section properties.
Context `{Platform} `{!InodeOps D, !InodeStore D} (junk_inode : inode_t).

(** C13. The cache is transparent. [dentry_get] answers for an inode of a device
    with the one dentry that stands for it, counted for the caller; the dentry
    holds the inode as the kernel saw it, from the cache or from the device, and no
    inode of any device looks different afterwards. When the dentry was in use, all
    the references are still counted. *)
Theorem dentry_get_transparent c dev ino i ext :
  cache_ok c → tidy c → refs_ok c ext → block_locked c = false → ino ≠ 0 → view c dev ino = Some i →
  stat_cached_inodes_area_size c + INODE_LEN < 2 ^ 32 →
  (∀ q d, slot c q = Some d → locked d = true → 0 < d_count d ∧ ¬ (dev_indx d = dev ∧ inode_indx d = ino)) →
  (∀ q d, slot c q = Some d → d_count d < 2 ^ 31 - 1) →
  ∃ p c' d', dentry_get junk_inode c dev ino = Some (p, c') ∧
    slot c' p = Some d' ∧ dev_indx d' = dev ∧ inode_indx d' = ino ∧ load_inode c' (inode_ptr d') = Some i ∧
    (d_count d' = 1 ∨ ∃ d, slot c p = Some d ∧ d_count d' = d_count d + 1) ∧
    (∀ q e, slot c' q = Some e → dev_indx e = dev → inode_indx e = ino → q = p) ∧
    cache_ok c' ∧ tidy c' ∧ devs c' = devs c ∧ (∀ dv n, n ≠ 0 → view c' dv n = view c dv n) ∧
    (∀ d, slot c p = Some d → 0 < d_count d → refs_ok c' (add_ref ext p)).
Proof.
  intros Hc Ht Hr Hb Hino Hv Ha Hl Hn.
  destruct (dentry_get_spec junk_inode c dev ino i ext) as (p & c' & d' & E & []); try done.
  destruct gt_ident0 as (Ede & Edi & _). exists p, c', d'.
  do 5 (split; [done|]). split.
  { destruct gt_case0 as [(d & [Hd _] & ->)|(_ & ? & _)]; [right|by left]. by exists d. }
  split; [|split; [done|]; split; [done|]; split; [apply gt_env0|done]].
  intros q e Hq Eqd Eqi. apply (co_unique c' gt_ok0 q p e d'); try congruence; (split; [done|congruence]).
Qed.

(** C12. Giving back a dentry, in a cache of at most 128 inodes ([roomy]: past that
    [free_inode_cache] frees what is free already), in which no dentry is marked
    for the deletion of its inode ([ordinary] in [cache_ok]) and no dentry in use is
    locked. There [dentry_put] of a reference that the caller holds always comes to
    an end, on the dentry and, if it was the last one, on its parents; every inode
    looks as before, the ones that lose their last user are written back when they
    were changed, and the other references stay counted. *)
Theorem dentry_put_keeps c p k ext : put_ready c p k ext →
  ∃ c', dentry_put c p = Some c' ∧ cache_ok c' ∧ tidy c' ∧ refs_ok c' (drop_ref ext p) ∧ 
    devs_same (devs c) (devs c') ∧ (∀ dev ino, ino ≠ 0 → view c' dev ino = view c dev ino) ∧
    (∀ q d, slot c q = Some d → ∃ d', slot c' q = Some d' ∧ released d d') ∧
    stat_cached_dentries c' = usize (held_slots c' + k).
Proof.
  intros Hp. destruct (put_spec c p k ext Hp) as (c' & E & Hc & Ht & Hr & Hrel & Hs).
  exists c'. do 4 (split; [done|]). split; [apply Hrel|]. split; [apply Hrel|]. split; [apply Hrel|done].
Qed.
End properties.
