(* ===== verification/Vfs.v ===== *)
(** * Vfs: paths, and the calls of the virtual file system

    [kernel/fs/vfs.c] and the helpers of [kernel/fs/helper.c] over the cache of
    dentries. What a file system does is the table [file_ops] of its functions,
    each of which may be missing; [Directories] is what the resolution of paths
    asks of its [lookup]. A C string is the list of its bytes before the NUL. *)
From stdpp Require Import gmap.
From S2P Require Import Prelude Platform Ext2Dev Dentry.

Definition ENOEXEC : Z := 8.
Definition EAGAIN : Z := 11.
Definition EEXIST : Z := 17.
Definition ENOTDIR : Z := 20.
Definition EISDIR : Z := 21.
Definition EROFS : Z := 30.

Definition S_IFMT : Z := 0xf000.
Definition S_IFSOCK : Z := 0xc000.
Definition S_IFREG : Z := 0x8000.
Definition S_IFBLK : Z := 0x6000.
Definition S_IFDIR : Z := 0x4000.
Definition S_IFCHR : Z := 0x2000.
Definition S_IFIFO : Z := 0x1000.

Definition O_RDONLY : Z := 0x1.
Definition O_WRONLY : Z := 0x2.
Definition O_DIRECTORY : Z := 0x4.
Definition O_EXEC : Z := 0x80.

(** The functions of a file system that go through directories. Each gets the
    dentry of the path and a name with its length; the results are the error, or 0,
    and for [lookup] the dentry that was found. [unlink] and the others that write
    may stop the system. *)
Record file_ops (D : Type) := {
  op_lookup : option (cache D → Z → list Z → Z → option (Z * Z * cache D));
  op_create : option (cache D → Z → list Z → Z → Z → Z → Z → option (outcome (Z * cache D)));
  op_unlink : option (cache D → Z → option (outcome (Z * cache D)));
  op_mkdir : option (cache D → Z → list Z → Z → Z → Z → Z → option (outcome (Z * cache D)));
  op_rmdir : option (cache D → Z → option (outcome (Z * cache D)));
  op_fchmod : bool;   (* whether there is one: all that [vfs_chmod] looks at *)
}.
Arguments op_lookup {D}. Arguments op_create {D}. Arguments op_unlink {D}. Arguments op_mkdir {D}.
Arguments op_rmdir {D}. Arguments op_fchmod {D}.

(** The table of the file system that a device holds ([vfsdev->fsdesc->ops->file]). *)
Class FileSystem (D : Type) := { fs_ops : D → file_ops D }.

Section vfs.
Context `{Platform} `{!InodeOps D, !FileSystem D} (junk_inode : inode_t).
Implicit Types (c : cache D) (d : dentry) (p : Z) (name path : list Z).

(** [dentry->ops->file]. *)
Definition dentry_ops c p : option (file_ops D) :=
  d ← slot c p; v ← devs c !! dev_indx d; Some (fs_ops v).
(** [dentry->inode]. *)
Definition dentry_inode c p : option inode_t := d ← slot c p; load_inode c (inode_ptr d).

(** ** Looking up *)

(** The error, the dentry and the cache. *)
Definition vfs_lookup c dir name (len : Z) : option (Z * Z * cache D) :=
  if dir =? 0 then Some (- EINVAL, 0, c) else
  '(is_dir, c) ← dentry_test_mode c dir S_IFDIR;
  if negb is_dir then Some (- ENOTDIR, 0, c) else
  this ← (if len =? 1 then ch ← name.[0]; Some (ch =? 46) else Some false);
  if this : bool then c ← dentry_duplicate c dir; Some (0, dir, c) else
  '(mounted, c) ← dentry_test_flag c dir DENTRY_MOUNTED;
  up ← (if (mounted : bool) && (len =? 2) then a ← name.[0]; b ← name.[1]; Some ((a =? 46) && (b =? 46)) else Some false);
  if up : bool then
    d ← slot c dir; c ← dentry_duplicate c (parent d); Some (0, parent d, c)
  else
    ops ← dentry_ops c dir;
    match op_lookup ops with
    | None => Some (- ENOEXEC, 0, c)
    | Some lookup =>
        '(err, res, c) ← lookup c dir name len;
        if negb (err =? 0) then Some (err, 0, c) else Some (0, res, c)
    end.

(** ** Paths *)

Fixpoint skip_slashes path : list Z :=
  match path with
  | ch :: rest => if ch =? 47 then skip_slashes rest else path
  | [] => []
  end.
(** The name that a path starts with, and what comes after it. *)
Fixpoint split_name path : list Z * list Z :=
  match path with
  | ch :: rest => if ch =? 47 then ([], path) else let '(name, after) := split_name rest in (ch :: name, after)
  | [] => ([], [])
  end.

(** The names of a path, from [name] on that is being read. *)
Fixpoint names_from name path : list (list Z) :=
  match path with
  | [] => if bool_decide (name = []) then [] else [name]
  | ch :: rest =>
      if ch =? 47 then (if bool_decide (name = []) then names_from [] rest else name :: names_from [] rest)
      else names_from (name ++ [ch]) rest
  end.
Definition path_names path : list (list Z) := names_from [] path.

(** From a mount point to what is mounted there, and on. *)
Definition through_mounts c p : option (Z * cache D) :=
  loop (S (length (data c))) (λ '(p, c),
    '(flag, c) ← dentry_test_flag c p DENTRY_MOUNTPOINT;
    if flag : bool then d ← slot c p; Some (inl (mounted_dentry d, c)) else Some (inr (p, c))) (p, c).

(** One name of a path: the error, or the next dentry. When the lookup fails the
    dentry that was reached stays counted. *)
Definition resolve_name c (parent_dent : Z) name : option (Z * Z * cache D) :=
  let len := Z.of_nat (length name) in
  '(err, looked, c) ← vfs_lookup c parent_dent name len;
  if err <? 0 then Some (- ENOENT, 0, c) else
  '(cur_dent, c) ← through_mounts c looked;
  '(flag, c) ← dentry_test_flag c looked DENTRY_MOUNTPOINT;
  c ← (if flag : bool then c ← dentry_put c looked; dentry_duplicate c cur_dent else Some c);
  d ← slot c parent_dent;
  c ← (if negb (cur_dent =? parent_dent) && negb (parent d =? cur_dent) then
         let '(a, c) := alloc_obj c (Name name) in
         c ← dentry_set_filename c cur_dent a;
         dentry_set_parent c cur_dent parent_dent
       else Some c);
  c ← dentry_put c parent_dent;
  Some (0, cur_dent, c).

(** The names of the rest of the path: the error, or 0, and the dentry. *)
Definition resolve_names c (cur : Z) path : option (Z * Z * cache D) :=
  loop (S (length path)) (λ '(path, cur, c),
    if bool_decide (path = []) then Some (inr (0, cur, c)) else
    let '(name, after) := split_name (skip_slashes path) in
    if bool_decide (name = []) then Some (inr (0, cur, c)) else
    '(err, next, c) ← resolve_name c cur name;
    Some (if err <? 0 then inr (err, 0, c) else inl (after, next, c))) (path, cur, c).

(** [root_fs_dev_id] is -1 before a device is there; the root directory is inode 2
    of that device. [start] is NULL for none. *)
Definition vfs_resolve_path_start_from c (root_fs_dev_id start : Z) path : option (Z * Z * cache D) :=
  let absolute := match path with ch :: _ => ch =? 47 | [] => false end in
  '(cur, path, c) ← (if (start =? 0) || absolute then
      if root_fs_dev_id =? -1 then None else
      '(cur, c) ← dentry_get junk_inode c root_fs_dev_id 2; Some (cur, skip_slashes path, c)
    else c ← dentry_duplicate c start; Some (start, path, c));
  '(err, cur, c) ← resolve_names c cur path;
  if err <? 0 then Some (err, 0, c) else
  c ← dentry_duplicate c cur;
  c ← dentry_put c cur;
  Some (0, cur, c).

Definition vfs_resolve_path c (root_fs_dev_id : Z) path : option (Z * Z * cache D) :=
  vfs_resolve_path_start_from c root_fs_dev_id 0 path.

(** *** The way back: the path of a dentry *)

Definition _vfs_is_root_dentry c (root_fs_dev_id p : Z) : option bool :=
  if p =? 0 then Some false else
  d ← slot c p; Some ((dev_indx d =? root_fs_dev_id) && (inode_indx d =? 2)).

Definition name_of c p : option (list Z) :=
  d ← slot c p; match heap c !! filename d with Some (Name s) => Some s | _ => None end.

(** [path_len] when the way up from [p] ends, and where it ends. *)
Definition _vfs_len_of_absolute_path c (root_fs_dev_id p : Z) : option Z :=
  if p =? 0 then Some 0 else
  is_root ← _vfs_is_root_dentry c root_fs_dev_id p;
  if is_root : bool then Some 2 else
  '(path_len, p) ← loop (S (length (data c))) (λ '(path_len, p),
    is_root ← _vfs_is_root_dentry c root_fs_dev_id p;
    d ← slot c p;
    if negb is_root && negb (parent d =? 0) then
      name ← name_of c p;
      Some (inl (path_len + (Z.of_nat (length name) + 1), parent d))
    else Some (inr (path_len, p))) (0, p);
  is_root ← _vfs_is_root_dentry c root_fs_dev_id p;
  Some (if is_root : bool then path_len + 1 else - EAGAIN).

(** The length with the NUL, or the error, and the buffer; there may be none. *)
Definition vfs_get_absolute_path c (root_fs_dev_id p : Z) (buf : option (list Z)) (len : Z) : option (Z * option (list Z)) :=
  if p =? 0 then Some (0, buf) else
  req_len ← _vfs_len_of_absolute_path c root_fs_dev_id p;
  match buf with
  | None => Some (req_len, buf)
  | Some b =>
      if req_len <? 0 then Some (req_len, buf) else
      if len <? req_len then Some (- EOVERFLOW, buf) else
      is_root ← _vfs_is_root_dentry c root_fs_dev_id p;
      if is_root : bool then b ← zwrite b 0 [47; 0]; Some (req_len, Some b) else
      b ← loop (S (length (data c))) (λ '(b, start, p),
        is_root ← _vfs_is_root_dentry c root_fs_dev_id p;
        d ← slot c p;
        if negb is_root && negb (parent d =? 0) then
          name ← name_of c p;
          let start := start - Z.of_nat (length name) in
          b ← zwrite b start name;
          b ← zwrite b (start - 1) [47];
          Some (inl (b, start - 1, parent d))
        else Some (inr b)) (b, req_len - 1, p);
      b ← zwrite b (req_len - 1) [0];
      Some (req_len, Some b)
  end.

(** ** Files and directories *)

Definition vfs_create c dir name (len m uid gid : Z) : option (outcome (Z * cache D)) :=
  if dir =? 0 then Some (Returned (- EINVAL, c)) else
  '(is_dir, c) ← dentry_test_mode c dir S_IFDIR;
  if negb is_dir then Some (Returned (- ENOTDIR, c)) else
  '(err, tmp, c) ← vfs_lookup c dir name len;
  if err =? 0 then c ← dentry_put c tmp; Some (Returned (- EEXIST, c)) else
  ops ← dentry_ops c dir;
  match op_create ops with
  | None => Some (Returned (- EROFS, c))
  | Some create =>
      let kind := Z.land m S_IFMT in
      let m := if negb (kind =? S_IFSOCK) && negb (kind =? S_IFIFO) && negb (kind =? S_IFBLK) && negb (kind =? S_IFCHR)
               then Z.lor m S_IFREG else m in
      create c dir name len m uid gid
  end.

(** The flag is set before it is known whether the file system can unlink. *)
Definition vfs_unlink c file : option (outcome (Z * cache D)) :=
  if file =? 0 then Some (Returned (- EINVAL, c)) else
  '(is_dir, c) ← dentry_test_mode c file S_IFDIR;
  if is_dir : bool then Some (Returned (- EPERM, c)) else
  i ← dentry_inode c file;
  c ← (if links_count i =? 1 then dentry_set_flag c file DENTRY_INODE_TO_BE_DELETED else Some c);
  ops ← dentry_ops c file;
  match op_unlink ops with
  | None => Some (Returned (- EROFS, c))
  | Some unlink => unlink c file
  end.

Definition vfs_mkdir c dir name (len m uid gid : Z) : option (outcome (Z * cache D)) :=
  if dir =? 0 then Some (Returned (- EINVAL, c)) else
  '(is_dir, c) ← dentry_test_mode c dir S_IFDIR;
  if negb is_dir then Some (Returned (- ENOTDIR, c)) else
  ops ← dentry_ops c dir;
  match op_mkdir ops with
  | None => Some (Returned (- EROFS, c))
  | Some mkdir => mkdir c dir name len (Z.lor m S_IFDIR) uid gid
  end.

Definition vfs_rmdir c dir : option (outcome (Z * cache D)) :=
  if dir =? 0 then Some (Returned (- EINVAL, c)) else
  '(is_dir, c) ← dentry_test_mode c dir S_IFDIR;
  if negb is_dir then Some (Returned (- ENOTDIR, c)) else
  '(mp, c) ← dentry_test_flag c dir DENTRY_MOUNTPOINT;
  '(mo, c) ← (if mp : bool then Some (true, c) else dentry_test_flag c dir DENTRY_MOUNTED);
  d ← slot c dir;
  if mp || mo || negb (d_count d =? 1) then Some (Returned (- EBUSY, c)) else
  ops ← dentry_ops c dir;
  match op_rmdir ops with
  | None => Some (Returned (- EROFS, c))
  | Some rmdir =>
      '(err, c) ←! rmdir c dir;
      if err =? 0 then c ← dentry_set_flag c dir DENTRY_INODE_TO_BE_DELETED; Some (Returned (err, c))
      else Some (Returned (err, c))
  end.

(** ** Permissions *)

(** A thread, as far as it matters: its process's [uid], [gid] and [euid]. *)
Record cred := { c_uid : Z; c_gid : Z; c_euid : Z }.
Definition proc_is_su (t : cred) : bool := c_euid t =? 0.

Definition perm (usr grp oth : Z) (i : inode_t) (t : option cred) : Z :=
  match t with
  | None => 0
  | Some t =>
      if proc_is_su t then 0
      else if (c_uid t =? uid i) && TEST_FLAG (mode i) usr then 0
      else if (c_gid t =? gid i) && TEST_FLAG (mode i) grp then 0
      else if negb (c_uid t =? uid i) && negb (c_gid t =? gid i) && TEST_FLAG (mode i) oth then 0
      else - EPERM
  end.
Definition vfs_perm_to_read : inode_t → option cred → Z := perm 0x100 0x20 0x4.
Definition vfs_perm_to_write : inode_t → option cred → Z := perm 0x80 0x10 0x2.
Definition vfs_perm_to_execute : inode_t → option cred → Z := perm 0x40 0x8 0x1.

Definition vfs_check_open_perms c file (flags : Z) (t : option cred) : option (Z * cache D) :=
  i ← dentry_inode c file;
  if TEST_FLAG flags O_EXEC && negb (vfs_perm_to_execute i t =? 0) then Some (- EACCES, c) else
  '(err, c) ← (if TEST_FLAG flags O_WRONLY then
      if negb (vfs_perm_to_write i t =? 0) then Some (- EACCES, c) else
      '(is_dir, c) ← dentry_test_mode c file S_IFDIR;
      Some (if is_dir : bool then - EISDIR else 0, c)
    else Some (0, c));
  if negb (err =? 0) then Some (err, c) else
  if TEST_FLAG flags O_RDONLY && negb (vfs_perm_to_read i t =? 0) then Some (- EACCES, c) else Some (0, c).

(** [vfs_open] up to the point where the file descriptor is filled. *)
Definition vfs_open_check c file (flags : Z) (t : option cred) : option (Z * cache D) :=
  if file =? 0 then Some (- EINVAL, c) else
  '(priv, c) ← dentry_test_flag c file DENTRY_PRIVATE;
  if priv : bool then Some (- EPERM, c) else
  '(is_dir, c) ← dentry_test_mode c file S_IFDIR;
  if (is_dir : bool) && negb (TEST_FLAG flags O_DIRECTORY) then Some (- EISDIR, c) else
  vfs_check_open_perms c file flags t.

Definition vfs_chmod c file (m : Z) (t : cred) : option (Z * cache D) :=
  if file =? 0 then Some (- EINVAL, c) else
  i ← dentry_inode c file;
  if negb (uid i =? c_euid t) && negb (proc_is_su t) then Some (- EPERM, c) else
  c ← spinlock_acquire c file;
  ops ← dentry_ops c file;
  if negb (op_fchmod ops) then c ← spinlock_release c file; Some (- EROFS, c) else
  c ← dentry_set_flag_locked c file DENTRY_DIRTY;
  d ← slot c file; i ← load_inode c (inode_ptr d);
  c ← store_inode c (inode_ptr d) (set_mode i (Z.lor (Z.land (mode i) (u32 (Z.lnot 0xfff))) (Z.land m 0xfff)));
  c ← spinlock_release c file; Some (0, c).

(** ** Mounting *)

(** [add] is [vfs_add_dev_with_fs], whose error is not looked at. *)
Definition vfs_mount c mount_path (dev : Z) (add : cache D → option (cache D)) : option (Z * cache D) :=
  if mount_path =? 0 then Some (- EINVAL, c) else
  '(mp, c) ← dentry_test_flag c mount_path DENTRY_MOUNTPOINT;
  if mp : bool then Some (- EBUSY, c) else
  '(is_dir, c) ← dentry_test_mode c mount_path S_IFDIR;
  if negb is_dir then Some (- ENOTDIR, c) else
  c ← add c;
  c ← dentry_duplicate c mount_path;
  c ← dentry_set_flag c mount_path DENTRY_MOUNTPOINT;
  '(mounted, c) ← dentry_get junk_inode c dev 2;
  c ← dentry_set_flag c mounted DENTRY_MOUNTED;
  c ← modify c mount_path (set_mounted mounted);
  c ← modify c mounted (set_mountpoint mount_path);
  Some (0, c).

(** The mount points that are themselves mounted are unmounted, too. *)
Fixpoint umount (fuel : nat) c mounted : option (Z * cache D) :=
  match fuel with
  | O => None
  | S fuel =>
      c ← spinlock_acquire c mounted;
      is_mounted ← dentry_test_flag_locked c mounted DENTRY_MOUNTED;
      if negb is_mounted then c ← spinlock_release c mounted; Some (- EPERM, c) else
      d ← slot c mounted;
      let mp := mountpoint d in
      is_mp ← dentry_test_flag_locked c mp DENTRY_MOUNTPOINT;
      if negb is_mp then c ← spinlock_release c mounted; Some (- EPERM, c) else
      c ← dentry_rem_flag_locked c mounted DENTRY_MOUNTED;
      c ← dentry_rem_flag c mp DENTRY_MOUNTPOINT;
      c ← modify c mounted (set_mountpoint 0);
      c ← modify c mp (set_mounted 0);
      c ← dentry_put_locked c mounted;
      c ← dentry_put c mp;
      '(again, c) ← dentry_test_flag c mp DENTRY_MOUNTED;
      '(_, c) ← (if again : bool then umount fuel c mp else Some (0, c));
      c ← spinlock_release c mounted; Some (0, c)
  end.
Definition vfs_umount c mounted : option (Z * cache D) := umount (S (length (data c))) c mounted.
End vfs.

(** ** Splitting a path *)

(** [path], which is cut, and the name; the buffer has the NUL after [len] bytes.
    [None] is also the search that runs before the start of a path of slashes. *)
Definition vfs_helper_split_path_with_name (buf : list Z) (len : Z) : option (option (list Z * list Z)) :=
  if len =? 0 then Some None else
  res ← loop (S (length buf)) (λ res, ch ← buf.[res]; Some (if ch =? 47 then inl (res - 1) else inr res)) (len - 1);
  '(len_of_name, res) ← loop (S (length buf)) (λ '(len_of_name, res),
    if res <? 0 then Some (inr (len_of_name, res)) else
    ch ← buf.[res]; Some (if ch =? 47 then inr (len_of_name, res) else inl (len_of_name + 1, res - 1))) (0, res);
  let res := res + 1 in
  name ← zread buf res len_of_name;
  buf ← buf.[res <- 0];
  Some (Some (buf, name)).

(** The first character of the name goes where the cut path ends. *)
Definition vfs_helper_restore_full_path_after_split (buf name : list Z) : option (list Z) :=
  path_len ← loop (S (length buf)) (λ i, ch ← buf.[i]; Some (if ch =? 0 then inr i else inl (i + 1))) 0;
  ch ← (name ++ [0]).[0];
  buf.[path_len <- ch].

(** ** What the resolution of paths asks of a file system *)

(** [find_in v i name]: the number of the inode that directory [i] of device [v]
    has under the name. It is what [lookup] asks the cache for, with the lock of the
    directory held. *)
Class Directories (D : Type) `{Platform} `{!InodeOps D, !InodeStore D, !FileSystem D} (junk_inode : inode_t) := {
  find_in : D → inode_t → list Z → option Z;
  dir_ok : D → inode_t → Prop;
  dir_ok_same v v' i : same_files v v' → dir_ok v i → dir_ok v' i;
  find_in_same v v' i name : same_files v v' → dir_ok v i → find_in v' i name = find_in v i name;
  find_in_pos v i name ino : dir_ok v i → find_in v i name = Some ino → ino ≠ 0;
  dir_op_lookup c p d v i name : slot c p = Some d → locked d = false → devs c !! dev_indx d = Some v →
    load_inode c (inode_ptr d) = Some i → dir_ok v i →
    ∃ lookup, op_lookup (fs_ops v) = Some lookup ∧
      lookup c p name (Z.of_nat (length name)) =
      match find_in v i name with
      | None => Some (- ENOENT, 0, c)
      | Some ino =>
          c1 ← spinlock_acquire c p;
          '(q, c2) ← dentry_get junk_inode c1 (dev_indx d) ino;
          c3 ← spinlock_release c2 p;
          Some (0, q, c3)
      end;
}.

Section resolve.
Context `{Platform} `{!InodeOps D, !InodeStore D, !FileSystem D} (junk_inode : inode_t).
Context `{!Directories D junk_inode}.
Implicit Types (c : cache D) (d : dentry) (p q : Z) (name path : list Z).

Lemma lock_unlock c p d : slot c p = Some d → locked d = false →
  spinlock_acquire c p = Some (with_slot c p (set_locked true d)) ∧
  spinlock_release (with_slot c p (set_locked true d)) p = Some c ∧
  slot (with_slot c p (set_locked true d)) p = Some (set_locked true d).
Proof.
  intros Hd Hl. unfold spinlock_acquire, spinlock_release. rewrite Hd. bind_red. rewrite Hl.
  rewrite (put_slot_eq c p d) by done. rewrite (slot_with_eq c p d) by done. bind_red. cbn [locked set_locked].
  rewrite (put_slot_eq _ p (set_locked true d)) by by apply slot_with_eq with d. rewrite with_slot_twice.
  split; [done|]. split; [|done]. f_equal.
  replace (set_locked false (set_locked true d)) with d; [by apply with_slot_same|]. destruct d; cbn in *; by subst.
Qed.

Lemma test_flag_spec c p d flag : slot c p = Some d → locked d = false →
  dentry_test_flag c p flag = Some (TEST_FLAG (d_flags d) flag, c).
Proof.
  intros Hd Hl. destruct (lock_unlock c p d Hd Hl) as (E1 & E2 & E3). unfold dentry_test_flag. returns E1.
  unfold dentry_test_flag_locked. rewrite E3. bind_red. by rewrite E2.
Qed.

Lemma test_mode_spec c p d i m : slot c p = Some d → locked d = false → load_inode c (inode_ptr d) = Some i →
  dentry_test_mode c p m = Some (test_mode (mode i) m, c).
Proof.
  intros Hd Hl Hi. destruct (lock_unlock c p d Hd Hl) as (E1 & E2 & E3). unfold dentry_test_mode. returns E1.
  unfold dentry_test_mode_locked. rewrite E3. bind_red.
  change (load_inode (with_slot c p (set_locked true d)) (inode_ptr (set_locked true d))) with (load_inode c (inode_ptr d)).
  rewrite Hi. bind_red. by rewrite E2.
Qed.

(** ** The invariant of the resolution *)

(** Inode [ino] of [dev] is in the cache neither as a mount point nor as a mounted
    directory; others may be. *)
Definition plain c (dev ino : Z) : Prop := ∀ p d, slot c p = Some d → dev_indx d = dev → inode_indx d = ino →
  TEST_FLAG (d_flags d) DENTRY_MOUNTPOINT = false ∧ TEST_FLAG (d_flags d) DENTRY_MOUNTED = false.
(** No lock is held. *)
Definition unlocked c : Prop := ∀ p d, slot c p = Some d → locked d = false.
(** [n] more references fit into every count. *)
Definition few_refs c (n : Z) : Prop := ∀ p d, slot c p = Some d → d_count d + n < 2 ^ 31.

(** The cache between two calls: there is room for [n] more inodes and for [m] more
    references to each. *)
Record at_rest c (ext : Z → Z) (n m : Z) : Prop := {
  ar_ok : cache_ok c;
  ar_tidy : tidy c;
  ar_refs : refs_ok c ext;
  ar_roomy : roomy c n;
  ar_unlocked : unlocked c;
  ar_few : few_refs c m;
  ar_stat : stat_cached_dentries c = usize (held_slots c);
}.

(** What one call leaves for the next one: the inodes are the same to the kernel,
    and the directories on the devices, too; nothing has become a mount point. *)
Definition same_tree c c' : Prop := devs_same (devs c) (devs c') ∧
  (∀ dev ino, ino ≠ 0 → view c' dev ino = view c dev ino) ∧ ∀ dev ino, ino ≠ 0 → plain c dev ino → plain c' dev ino.

#[global] Instance same_tree_preorder : PreOrder same_tree.
Proof.
  split; [done|]. intros c1 c2 c3 (H1 & E1 & P1) (H2 & E2 & P2). split; [by etrans|]. split.
  - intros dev ino Hi. by rewrite E2, E1.
  - intros dev ino Hi Hp. by apply P2, P1.
Qed.

(** ** Walking *)

(** The inode that [name] stands for in directory [ino]. *)
Definition walk_step c (dev ino : Z) name : option Z :=
  i ← view c dev ino; v ← devs c !! dev;
  if test_mode (mode i) S_IFDIR then if bool_decide (name = [46]) then Some ino else find_in v i name else None.
Fixpoint walk c (dev ino : Z) (names : list (list Z)) : option Z :=
  match names with
  | [] => Some ino
  | name :: names => ino ← walk_step c dev ino name; walk c dev ino names
  end.

(** The directories on the way are well formed, nothing is mounted on them, and none
    of the names is an entry for the directory that it is in: such a lookup takes a
    lock that is held. *)
Fixpoint walkable c (dev ino : Z) (names : list (list Z)) : Prop :=
  match names with
  | [] => True
  | name :: names =>
      plain c dev ino ∧ ∃ i v, view c dev ino = Some i ∧ devs c !! dev = Some v ∧
        (test_mode (mode i) S_IFDIR = true → dir_ok v i ∧ (name ≠ [46] → find_in v i name ≠ Some ino)) ∧
        ∀ next, walk_step c dev ino name = Some next →
          plain c dev next ∧ is_Some (view c dev next) ∧ walkable c dev next names
  end.

Lemma walk_same c c' dev ino name : same_tree c c' → ino ≠ 0 → 
  (∀ i v, view c dev ino = Some i → devs c !! dev = Some v → test_mode (mode i) S_IFDIR = true → dir_ok v i) →
  walk_step c' dev ino name = walk_step c dev ino name.
Proof.
  intros (Hd & Hv & _) Hi Hok. unfold walk_step. rewrite Hv by done. destruct (view c dev ino) as [i|] eqn:Ei; [|done]. bind_red.
  specialize (Hd dev). destruct (devs c !! dev) as [v|] eqn:Ev, (devs c' !! dev) as [v'|]; try done. bind_red.
  destruct (test_mode (mode i) S_IFDIR) eqn:Em; [|done]. case_bool_decide; [done|].
  apply find_in_same; [done|]. by apply (Hok i v).
Qed.

(** ** One name *)

Lemma with_slot_comm c p q d e : 1 <= p → 1 <= q → p ≠ q → with_slot (with_slot c p d) q e = with_slot (with_slot c q e) p d.
Proof. intros ???. unfold with_slot. cbn. f_equal. apply list_insert_insert_ne. lia. Qed.

(** A dentry is looked up with the lock of its directory held. *)
Lemma got_unlock c p0 d0 dev ino i ext p c2 d' : cache_ok c → unlocked c → slot c p0 = Some d0 → 0 < d_count d0 →
  ¬ (dev_indx d0 = dev ∧ inode_indx d0 = ino) →
  got (with_slot c p0 (set_locked true d0)) dev ino i ext p c2 d' →
  spinlock_release c2 p0 = Some (with_slot c2 p0 d0) ∧ p ≠ p0 ∧ got c dev ino i ext p (with_slot c2 p0 d0) d'.
Proof.
  intros Hc Hu Hd0 Hpos Hne Hg. set (c1 := with_slot c p0 (set_locked true d0)) in *.
  assert (slot c1 p0 = Some (set_locked true d0)) as Hd1 by by apply slot_with_eq with d0.
  pose proof Hg as [Hs (Ede & Edi & Edl) Hin Hcase Hok Ht Hr Hhr Hview Hsame Hback Henv Harea Hstat].
  assert (p ≠ p0) as Hp.
  { intros ->. destruct Hcase as [(d & [Hd _] & E)|(_ & _ & _ & _ & Hz)].
    - apply Hne. rewrite Hd1 in Hd. injection Hd as <-. rewrite E in Ede, Edi. done.
    - specialize (Hz _ Hd1). cbn in Hz. lia. }
  assert (slot c2 p0 = Some (set_locked true d0)) as Hd2 by by apply Hsame.
  assert (set_locked false (set_locked true d0) = d0) as Eu.
  { specialize (Hu p0 d0 Hd0). destruct d0; cbn in *; by subst. }
  assert (∀ q, q ≠ p0 → slot c1 q = slot c q) as Hs1 by (intros q ?; by apply slot_with_ne with d0).
  assert (∀ q, q ≠ p0 → slot (with_slot c2 p0 d0) q = slot c2 q) as Hs2 by (intros q ?; by apply slot_with_ne with (set_locked true d0)).
  assert (slot (with_slot c2 p0 d0) p0 = Some d0) as Hd3 by by apply slot_with_eq with (set_locked true d0).
  assert (cache_ok (with_slot c2 p0 d0)) as Hok3.
  { apply cache_ok_links with (set_locked true d0); try done; by apply (co_count c Hc p0 d0). }
  split; [|split; [done|]].
  { unfold spinlock_release. rewrite Hd2. bind_red. cbn [locked set_locked].
    rewrite (put_slot_eq _ p0 (set_locked true d0)) by done. by rewrite Eu. }
  constructor; try done.
  - by rewrite Hs2.
  - destruct Hcase as [(d & [Hd Hdi] & E)|(Hno & ? & ? & ? & Hz)].
    + left. exists d. split; [|done]. split; [by rewrite <- Hs1|done].
    + right. split; [|do 3 (split; [done|]); intros d Hd; apply Hz; by rewrite Hs1].
      intros q d Hq. destruct (decide (q = p0)) as [->|]; [congruence|]. apply (Hno q). by rewrite Hs1.
  - intros q x [Hq Hxi] Hx0 Hxl. destruct (decide (q = p0)) as [->|].
    + assert (x = d0) as -> by congruence. lia.
    + rewrite Hs2 in Hq by done. by apply (Ht q).
  - rewrite with_slot_comm by (apply slot_range in Hs, Hd0; lia).
    apply refs_same with (set_locked true d0); [done| |done|done]. rewrite slot_with_ne with (d := d'); done.
  - intros d Hd Hcnt. apply refs_same with (set_locked true d0); [|done|done|done]. apply (Hhr d); [by rewrite Hs1|done].
  - intros dv n Hn. rewrite (view_with c2 p0 (set_locked true d0)) by done. rewrite Hview by done.
    apply (view_with c p0 d0); try done. apply cache_ok_links with d0; try done; by apply (co_count c Hc p0 d0).
  - intros q x Hq Hqp. destruct (decide (q = p0)) as [->|]; [congruence|]. rewrite Hs2 by done.
    apply Hsame; [by rewrite Hs1|done].
  - intros q x Hq Hqp. destruct (decide (q = p0)) as [->|]; [left; congruence|]. rewrite Hs2 in Hq by done.
    destruct (Hback q x Hq Hqp); [left; by rewrite <- Hs1|by right].
  - intros k Hk. rewrite (held_with c2 p0 (set_locked true d0)) by done. cbn [d_count set_locked].
    change (stat_cached_dentries (with_slot c2 p0 d0)) with (stat_cached_dentries c2). rewrite (Hstat k); [f_equal; lia|].
    unfold c1. rewrite (held_with c p0 d0) by done. cbn [d_count set_locked].
    change (stat_cached_dentries (with_slot c p0 _)) with (stat_cached_dentries c). rewrite Hk. f_equal. lia.
Qed.

Lemma get_in_dir c p0 d0 dev ino i ext n m : at_rest c ext (1 + n) (1 + m) → 0 <= n → 0 <= m → slot c p0 = Some d0 → 0 < d_count d0 →
  ¬ (dev_indx d0 = dev ∧ inode_indx d0 = ino) → ino ≠ 0 → view c dev ino = Some i →
  ∃ p c' d', (c1 ← spinlock_acquire c p0;
      '(q, c2) ← dentry_get junk_inode c1 dev ino;
      c3 ← spinlock_release c2 p0; Some (0, q, c3)) = Some (0, p, c') ∧
    got c dev ino i ext p c' d' ∧ p ≠ p0.
Proof.
  intros [Hc Ht Hr (Hcc & Hbl & Har) Hu Hfew Hst] Hn Hm Hd0 Hpos Hne Hino Hv.
  destruct (lock_unlock c p0 d0 Hd0 (Hu p0 d0 Hd0)) as (-> & _ & E3). bind_red.
  set (c1 := with_slot c p0 (set_locked true d0)) in *.
  assert (cache_ok c1) as Hc1 by (apply cache_ok_links with d0; try done; by apply (co_count c Hc p0 d0)).
  assert (∀ q x, slot c1 q = Some x → ∃ y, slot c q = Some y ∧ d_count x = d_count y ∧ (q ≠ p0 → x = y)) as Hback.
  { intros q x Hq. unfold c1 in Hq. rewrite (slot_with c p0 d0) in Hq by done. case_decide as Hqp.
    - subst q. injection Hq as <-. exists d0. done.
    - exists x. done. }
  destruct (dentry_get_spec junk_inode c1 dev ino i ext) as (p & c2 & d' & E & Hg); try done.
  - intros q x [Hq Hxi] Hx0 Hxl. destruct (Hback q x Hq) as (y & Hy & E & Hxy). destruct (decide (q = p0)) as [->|Hqp].
    + assert (y = d0) as -> by congruence. lia.
    + rewrite (Hxy Hqp) in *. by apply (Ht q).
  - apply refs_same with d0; done.
  - unfold c1. rewrite (view_with c p0 d0) by done. done.
  - change (stat_cached_inodes_area_size c1) with (stat_cached_inodes_area_size c).
    unfold INODE_LEN, DENTRY_SWAP_THRESHOLD_FOR_INODE_CACHE in *. lia.
  - intros q x Hq Hlx. destruct (decide (q = p0)) as [->|Hqp].
    + assert (x = set_locked true d0) as -> by congruence. done.
    + destruct (Hback q x Hq) as (y & Hy & _ & Hxy). rewrite (Hxy Hqp) in *. rewrite (Hu q y Hy) in Hlx. done.
  - intros q x Hq. destruct (Hback q x Hq) as (y & Hy & -> & _). specialize (Hfew q y Hy). lia.
  - destruct (got_unlock c p0 d0 dev ino i ext p c2 d' Hc Hu Hd0 Hpos Hne Hg) as (Er & Hp & Hg').
    returns E. returns Er. by exists p, (with_slot c2 p0 d0), d'.
Qed.

(** A change between taking a lock and giving it back. *)
Lemma locked_modify c p d (f : dentry → dentry) : slot c p = Some d → locked d = false →
  set_locked false (f (set_locked true d)) = f d → locked (f (set_locked true d)) = true →
  (c1 ← spinlock_acquire c p; c2 ← modify c1 p f; spinlock_release c2 p) = Some (with_slot c p (f d)).
Proof.
  intros Hd Hl Ef Efl. destruct (lock_unlock c p d Hd Hl) as (-> & _ & E3). bind_red.
  rewrite (modify_eq _ p (set_locked true d)) by done. bind_red. rewrite with_slot_twice. unfold spinlock_release.
  rewrite (slot_with_eq c p d) by done. bind_red. rewrite Efl.
  rewrite (put_slot_eq _ p (f (set_locked true d))) by by apply slot_with_eq with d. by rewrite with_slot_twice, Ef.
Qed.

Lemma set_parent_spec c to par d dp : slot c to = Some d → slot c par = Some dp → to ≠ par → locked d = false →
  locked dp = false → 0 <= d_count dp < 2 ^ 31 - 1 →
  dentry_set_parent c to par =
    Some (with_slot (with_slot c par (set_count (d_count dp + 1) dp)) to (set_parent par d)).
Proof.
  intros Hd Hp Hne Hl Hlp Hcnt. unfold dentry_set_parent. destruct (lock_unlock c to d Hd Hl) as (-> & _ & E3). bind_red.
  rewrite (duplicate_spec _ par dp); [|by rewrite slot_with_ne with (d := d)|done|done]. bind_red.
  rewrite with_slot_comm by (apply slot_range in Hd, Hp; lia).
  rewrite (modify_eq _ to (set_locked true d)).
  2:{ apply slot_with_eq with d. by rewrite slot_with_ne with (d := dp) by done. }
  bind_red. rewrite with_slot_twice. unfold spinlock_release.
  rewrite (slot_with_eq _ to d) by by rewrite slot_with_ne with (d := dp) by done. bind_red. cbn [locked set_parent set_locked].
  rewrite (put_slot_eq _ to (set_parent par (set_locked true d))).
  2:{ apply slot_with_eq with d. by rewrite slot_with_ne with (d := dp) by done. }
  rewrite with_slot_twice. do 2 f_equal. destruct d; cbn in *; by subst.
Qed.

(** The parent's count and the child's pointer go together. *)
Lemma refs_adopt c ext p d q dq : refs_ok (with_slot c p (set_parent 0 d)) ext → slot c p = Some d → slot c q = Some dq →
  p ≠ q → 0 < d_count dq → refs_ok (with_slot (with_slot c q (set_count (d_count dq + 1) dq)) p (set_parent q d)) ext.
Proof.
  intros Hr Hd Hq Hne Hpos x. destruct (Hr x) as [? Hx]. split; [done|]. intros Hx0.
  assert (slot (with_slot c q (set_count (d_count dq + 1) dq)) p = Some d) as Hd1 by by rewrite slot_with_ne with (d := dq).
  rewrite (children_with c p d) in Hx by done. rewrite (children_with _ p d) by done. rewrite (children_with c q dq) by done.
  cbn [set_count set_parent d_count parent] in *.
  rewrite (decide_False (P := 0 < d_count d ∧ 0 = x)) in Hx by lia.
  replace (if decide (0 < d_count dq + 1 ∧ parent dq = x) then 1 else 0)
    with (if decide (0 < d_count dq ∧ parent dq = x) then 1 else 0) by (repeat case_decide; lia).
  intros Hsum.
  assert (∃ e, slot c x = Some e ∧ ext x + (children c x - (if decide (0 < d_count d ∧ parent d = x) then 1 else 0)) <= d_count e) as (e & He & Hle).
  { destruct (decide (0 < ext x + (children c x - (if decide (0 < d_count d ∧ parent d = x) then 1 else 0)))) as [Hp|Hp].
    - destruct Hx as (e & He & Hle); [done|lia|]. rewrite (slot_with c p d) in He by done. destruct (decide (p = x)) as [<-|].
      + injection He as <-. exists d. split; [done|]. cbn in Hle. lia.
      + exists e. split; [done|lia].
    - destruct (decide (x = q)) as [->|]; [exists dq; split; [done|lia]|].
      exfalso. revert Hsum. rewrite (decide_False (P := 0 < d_count d ∧ q = x)) by (intros []; congruence). lia. }
  rewrite (slot_with _ p d) by done. destruct (decide (p = x)) as [<-|Hpx].
  - eexists. split; [done|]. cbn [set_parent d_count]. assert (e = d) as -> by congruence.
    rewrite (decide_False (P := 0 < d_count d ∧ q = p)) by (intros []; congruence). lia.
  - rewrite (slot_with c q dq) by done. destruct (decide (q = x)) as [<-|Hqx].
    + eexists. split; [done|]. cbn [set_count d_count]. assert (e = dq) as -> by congruence. repeat case_decide; lia.
    + exists e. split; [done|]. rewrite (decide_False (P := 0 < d_count d ∧ q = x)) by (intros []; congruence). lia.
Qed.

(** An object that is new on the heap. *)
Lemma alloc_obj_ok c o : cache_ok c → cache_ok (snd (alloc_obj c o)) ∧
  ∀ dev ino, ino ≠ 0 → view (snd (alloc_obj c o)) dev ino = view c dev ino.
Proof.
  intros Hc. set (c' := snd (alloc_obj c o)).
  assert (∀ a x, heap c !! a = Some x → heap c' !! a = Some x) as Hold.
  { intros a x Ha. cbn. rewrite lookup_insert_ne; [done|]. intros <-. by rewrite (co_fresh c Hc) in Ha. }
  assert (cache_ok c') as Hc'.
  { constructor; try apply Hc.
    - intros p d Hv. destruct (co_backed c Hc p d Hv) as (? & i & i0 & v & Hi & ?). split; [done|].
      exists i, i0, v. split; [by apply Hold|done].
    - intros a Ha. cbn in *. rewrite lookup_insert_ne by lia. apply (co_fresh c Hc). lia.
    - pose proof (co_brk c Hc). cbn. lia. }
  split; [done|]. intros dev ino Hi. destruct (find_slot_spec c dev ino) as (p & _ & [(Hp & d & Hd & <- & <-)|(_ & Hno)]).
  - rewrite (view_cached c' p d), (view_cached c p d) by (done || by split).
    destruct (co_backed c Hc p d) as (_ & i & i0 & v & Hh & _); [by split|].
    unfold load_inode. rewrite Hh. by rewrite (Hold _ _ Hh).
  - by rewrite (view_stored c'), (view_stored c).
Qed.

Lemma put_rest c ext n m p : at_rest c ext n m → 0 <= n → p ≠ 0 → 1 <= ext p →
  ∃ c', dentry_put c p = Some c' ∧ at_rest c' (drop_ref ext p) n m ∧ put_rel c c'.
Proof.
  intros [Hc Ht Hr Hro Hu Hfew Hst] Hn Hp0 Hp.
  destruct (put_spec c p 0 ext) as (c' & E & Hc' & Ht' & Hr' & Hrel & Hst').
  { constructor; try done; [|intros q d Hq Hl; by rewrite (Hu q d Hq) in Hl|by rewrite Z.add_0_r].
    destruct Hro as (? & ? & ?). unfold roomy, INODE_LEN in *. split; [done|]. split; [done|lia]. }
  exists c'. split; [done|]. split; [|done].
  assert (∀ q d', slot c' q = Some d' → ∃ d, slot c q = Some d ∧ released d d') as Hback.
  { intros q d' Hq. pose proof (slot_range _ _ _ Hq). rewrite (pr_len _ _ Hrel) in *. destruct (slot_is_Some c q) as [d Hd]; [lia|].
    destruct (pr_slot _ _ Hrel q d Hd) as (x & Hx & ?). exists d. split; [done|]. congruence. }
  constructor; try done.
  - by eapply put_rel_roomy.
  - intros q d' Hq. destruct (Hback q d' Hq) as (d & Hd & E' & _). rewrite E'. exact (Hu q d Hd).
  - intros q d' Hq. destruct (Hback q d' Hq) as (d & Hd & _ & Hle & _). specialize (Hfew q d Hd). lia.
  - by rewrite Hst', Z.add_0_r.
Qed.

(** A changed slot that keeps its flags and its lock. *)
Lemma rest_with c ext ext' n m k p d e : at_rest c ext n (k + m) → slot c p = Some d → 0 <= k →
  dev_indx e = dev_indx d → inode_indx e = inode_indx d → inode_ptr e = inode_ptr d → d_flags e = d_flags d →
  locked e = locked d → 0 < d_count d → d_count d <= d_count e <= d_count d + k → refs_ok (with_slot c p e) ext' →
  at_rest (with_slot c p e) ext' n m ∧ same_tree c (with_slot c p e).
Proof.
  intros [Hc Ht Hr Hro Hu Hfew Hst] Hd Hk Ede Ei ? Ef El Hpos Hcnt Hr'.
  assert (cache_ok (with_slot c p e)) as Hok.
  { apply cache_ok_links with d; try done; [lia|]. intros E. destruct (co_count c Hc p d Hd) as [_ Hz]. rewrite Ei in E. lia. }
  assert (∀ q x, slot (with_slot c p e) q = Some x → (q = p ∧ x = e) ∨ slot c q = Some x) as Hs.
  { intros q x Hq. rewrite (slot_with c p d) in Hq by done. case_decide; [left|by right]. split; [done|congruence]. }
  split.
  - constructor; try done.
    + intros q x [[[-> ->]|Hq]%Hs Hxi] Hx0 Hxl; [lia|]. by apply (Ht q).
    + intros q x [[-> ->]|Hq]%Hs; [|by apply (Hu q)]. rewrite El. by apply (Hu p).
    + intros q x [[-> ->]|Hq]%Hs; [specialize (Hfew p d Hd)|specialize (Hfew q x Hq)]; lia.
    + change (stat_cached_dentries (with_slot c p e)) with (stat_cached_dentries c). rewrite Hst.
      rewrite (held_with c p d) by done. rewrite !decide_True by lia. f_equal. lia.
  - split; [done|]. split; [intros dev ino Hi; by apply (view_with c p d)|].
    intros dev ino _ Hpl q x [[-> ->]|Hq]%Hs Hxd Hxi; [|by apply (Hpl q)]. rewrite Ef. apply (Hpl p); congruence.
Qed.

Lemma duplicate_rest c ext n m p d : at_rest c ext n (1 + m) → 0 <= m → slot c p = Some d → 0 < d_count d →
  dentry_duplicate c p = Some (with_slot c p (set_count (d_count d + 1) d)) ∧
  at_rest (with_slot c p (set_count (d_count d + 1) d)) (add_ref ext p) n m ∧
  same_tree c (with_slot c p (set_count (d_count d + 1) d)).
Proof.
  intros Har Hm Hd Hpos. pose proof (slot_range c p d Hd). pose proof (ar_few _ _ _ _ Har p d Hd).
  split; [apply duplicate_spec; [done|by apply (ar_unlocked _ _ _ _ Har p)|lia]|].
  apply (rest_with c ext (add_ref ext p) n m 1 p d); try done; [cbn; lia|].
  apply refs_put_more; [apply Har|done|lia|lia|by left].
Qed.

Lemma got_common c ext dev ino i p c' d' n m : at_rest c ext (1 + n) (1 + m) → 0 <= m < 2 ^ 31 - 1 →
  got c dev ino i ext p c' d' →
  unlocked c' ∧ few_refs c' m ∧ roomy c' n ∧ stat_cached_dentries c' = usize (held_slots c') ∧ same_tree c c'.
Proof.
  intros [Hc Ht Hr (Hcc & Hbl & Har) Hu Hfew Hst] Hm [Hs (Ede & Edi & Edl) Hin Hcase Hok Htd Hrf Hhr Hview Hsame Hback (Ed & Ec & Eb) Harea Hstat].
  assert (∀ q x, slot c' q = Some x → (q = p ∧ x = d') ∨ slot c q = Some x ∨ x = no_dentry) as Hsl.
  { intros q x Hq. destruct (decide (q = p)) as [->|]; [left; split; [done|congruence]|right; by apply Hback]. }
  split; [|split; [|split; [|split; [|split; [|split]]]]].
  - intros q x [[-> ->]|[Hq| ->]]%Hsl; [done|by apply (Hu q)|done].
  - intros q x [[-> ->]|[Hq| ->]]%Hsl; [|specialize (Hfew q x Hq); lia|cbn; lia].
    destruct Hcase as [(x & [Hx _] & ->)|(_ & -> & _)]; [specialize (Hfew p x Hx); cbn|]; lia.
  - unfold roomy, INODE_LEN in *. split; [congruence|]. split; [congruence|lia].
  - specialize (Hstat 0). rewrite !Z.add_0_r in Hstat. by apply Hstat.
  - by rewrite Ed.
  - done.
  - intros dv k Hk Hpl q x [[-> ->]|[Hq| ->]]%Hsl Hxd Hxi; [|by apply (Hpl q)|done].
    destruct Hcase as [(x & [Hx _] & ->)|(_ & _ & _ & -> & _)]; [by apply (Hpl p x Hx)|done].
Qed.

Lemma got_valid c ext dev ino i p c' d' : ino ≠ 0 → got c dev ino i ext p c' d' → valid c' p d'.
Proof. intros Hi Hg. split; [apply Hg|]. destruct (gt_ident _ _ _ _ _ _ _ _ Hg) as (_ & -> & _). done. Qed.

Lemma got_held c ext dev ino i p c' d' : got c dev ino i ext p c' d' → cache_ok c → 0 < d_count d'.
Proof.
  intros Hg Hc. destruct (gt_case _ _ _ _ _ _ _ _ Hg) as [(x & [Hx _] & ->)|(_ & -> & _)]; [|lia].
  cbn. pose proof (co_count c Hc p x Hx). lia.
Qed.

(** A dentry that was looked up gets a name and a parent, which is in use. *)
Lemma adopt_rest c ext dev ino i p c' d' n m name p0 d0 : at_rest c ext (1 + n) (3 + m) → 0 <= n → 0 <= m < 2 ^ 31 - 3 → ino ≠ 0 →
  got c dev ino i ext p c' d' → p ≠ p0 → slot c p0 = Some d0 → 0 < d_count d0 →
  ∃ c2 d2, (let '(a, c) := alloc_obj c' (Name name) in
      c ← dentry_set_filename c p a; dentry_set_parent c p p0) = Some c2 ∧
    at_rest c2 (add_ref ext p) n (1 + m) ∧ same_tree c c2 ∧ slot c2 p = Some d2 ∧
    dev_indx d2 = dev ∧ inode_indx d2 = ino ∧ parent d2 = p0 ∧ heap c2 !! filename d2 = Some (Name name) ∧
    slot c2 p0 = Some (set_count (d_count d0 + 1) d0) ∧
    (∀ q x, q ≠ p → q ≠ p0 → slot c' q = Some x → slot c2 q = Some x) ∧
    (∀ a o, heap c' !! a = Some o → heap c2 !! a = Some o).
Proof.
  intros Har Hn Hm Hino Hg Hne Hd0 Hpos0.
  destruct (got_common c ext dev ino i p c' d' n (2 + m)) as (Hu & Hfew & Hro & Hst & Htree); [|lia|done|].
  { by replace (1 + (2 + m)) with (3 + m) by lia. }
  pose proof (got_held _ _ _ _ _ _ _ _ Hg (ar_ok _ _ _ _ Har)) as Hpos.
  pose proof Hg as [Hs (Ede & Edi & Edl) Hin Hcase Hok Htd Hrf Hhr Hview Hsame Hback _ _ _].
  assert (slot c' p0 = Some d0) as Hd0' by (apply Hsame; [done|congruence]).
  pose proof (Hfew p0 d0 Hd0') as Hf0. pose proof (slot_range _ _ _ Hs) as Hp. pose proof (slot_range _ _ _ Hd0') as Hp0.
  destruct (alloc_obj_ok c' (Name name) Hok) as [Hok1 Hv1]. unfold alloc_obj in *. cbn [snd] in Hok1, Hv1.
  set (a := brk c') in *. set (c1 := with_brk (with_heap c' (<[a:=Name name]> (heap c'))) (a + 1)) in *.
  unfold dentry_set_filename. rewrite (locked_modify c1 p d' (set_filename a)); [|done|done| |done].
  2:{ destruct d'; cbn in *; by subst. }
  bind_red. set (d1 := set_filename a d').
  assert (slot (with_slot c1 p d1) p = Some d1) as Hs1 by by apply (slot_with_eq c1 p d').
  assert (slot (with_slot c1 p d1) p0 = Some d0) as Hs0 by by rewrite (slot_with_ne c1 p d') by done.
  rewrite (set_parent_spec _ p p0 d1 d0); [|done|done|done|done|by apply (Hu p0)|lia].
  set (c2 := with_slot (with_slot (with_slot c1 p d1) p0 (set_count (d_count d0 + 1) d0)) p (set_parent p0 d1)).
  assert (c2 = with_slot (with_slot c1 p0 (set_count (d_count d0 + 1) d0)) p (set_parent p0 d1)) as Ec2.
  { unfold c2. rewrite with_slot_comm by (congruence || lia). rewrite with_slot_twice. rewrite with_slot_comm by (congruence || lia). done. }
  assert (∀ q, slot c2 q = if decide (p = q) then Some (set_parent p0 d1) else
     if decide (p0 = q) then Some (set_count (d_count d0 + 1) d0) else slot c' q) as Hsl.
  { intros q. rewrite Ec2. rewrite (slot_with _ p d') by by rewrite (slot_with_ne c1 p0 d0). case_decide; [done|].
    by rewrite (slot_with c1 p0 d0). }
  assert (cache_ok (with_slot c1 p0 (set_count (d_count d0 + 1) d0))) as Hok2.
  { apply cache_ok_links with d0; try done; [cbn; lia|]. intros E. destruct (co_count c' Hok p0 d0 Hd0') as [_ Hz].
    cbn in E. specialize (Hz E). lia. }
  assert (cache_ok c2) as Hok3.
  { rewrite Ec2. apply cache_ok_links with d'; try done; [by rewrite (slot_with_ne c1 p0 d0)|cbn; lia|].
    cbn. intros E. congruence. }
  exists c2, (set_parent p0 d1). split; [done|]. split; [|split; [|split; [by rewrite Hsl, decide_True|]]].
  - constructor; try done.
    + intros q x [Hq Hxi] Hx0 Hxl. rewrite Hsl in Hq. repeat case_decide.
      * injection Hq as <-. cbn in Hx0. lia.
      * injection Hq as <-. cbn in Hx0. lia.
      * by apply (Htd q).
    + apply (refs_adopt (with_slot c1 p d1) (add_ref ext p) p d1 p0 d0); try done. rewrite with_slot_twice.
      rewrite <- (with_slot_twice c1 p (set_parent 0 d')).
      apply refs_same with (set_parent 0 d'); [exact Hrf|by apply (slot_with_eq c1 p d')|done|done].
    + intros q x Hq. rewrite Hsl in Hq. repeat case_decide; [injection Hq as <-; apply (Hu p d' Hs)|injection Hq as <-; apply (Hu p0 d0 Hd0')|by apply (Hu q)].
    + intros q x Hq. rewrite Hsl in Hq. repeat case_decide; [injection Hq as <-|injection Hq as <-|]; cbn.
      * specialize (Hfew p d' Hs). lia.
      * lia.
      * specialize (Hfew q x Hq). lia.
    + change (stat_cached_dentries c2) with (stat_cached_dentries c'). rewrite Hst. f_equal. rewrite Ec2.
      rewrite (held_with _ p d') by by rewrite (slot_with_ne c1 p0 d0). rewrite (held_with c1 p0 d0) by done.
      cbn [set_parent set_count set_filename d_count d1]. rewrite !decide_True by lia. change (held_slots c1) with (held_slots c'). lia.
  - etrans; [exact Htree|]. split; [done|]. split; cycle 1.
    { intros dv k _ Hpl q x Hq Hxd Hxi. rewrite Hsl in Hq. repeat case_decide.
      - injection Hq as <-. by apply (Hpl p d' Hs).
      - injection Hq as <-. by apply (Hpl p0 d0 Hd0').
      - by apply (Hpl q). }
    intros dv k Hk. rewrite <- Hv1 by done. rewrite Ec2.
    rewrite (view_with _ p d'); [by apply (view_with c1 p0 d0)|done|by rewrite <- Ec2|by rewrite (slot_with_ne c1 p0 d0)|done|done|done|done].
  - do 3 (split; [done|]). split; [apply lookup_insert_eq|]. split; [by rewrite Hsl, decide_False, decide_True|]. split.
    + intros q x ???. by rewrite Hsl, !decide_False by congruence.
    + intros b o Hb. cbn. rewrite lookup_insert_ne; [done|]. intros <-. by rewrite (co_fresh c' Hok) in Hb.
Qed.

Lemma name_dot name : (if Z.of_nat (length name) =? 1 then ch ← name.[0]; Some (ch =? 46) else Some false) =
  Some (bool_decide (name = [46])).
Proof.
  destruct name as [|a [|b name]]; [done| |].
  - change (Z.of_nat (length [a]) =? 1) with true. change ([a].[0]) with (Some a). bind_red. f_equal.
    case_bool_decide as E; [injection E as ->; done|]. apply Z.eqb_neq. congruence.
  - destruct (Z.eqb_spec (Z.of_nat (length (a :: b :: name))) 1) as [E|E]; [cbn in E; lia|]. by rewrite bool_decide_false by done.
Qed.

(** What [vfs_lookup] does in a directory without mounts. *)
Lemma vfs_lookup_spec c p d v i name : slot c p = Some d → locked d = false → devs c !! dev_indx d = Some v →
  load_inode c (inode_ptr d) = Some i → TEST_FLAG (d_flags d) DENTRY_MOUNTED = false →
  (test_mode (mode i) S_IFDIR = true → dir_ok v i) → (∀ q, is_Some (slot c q) → q ≠ 0) →
  vfs_lookup c p name (Z.of_nat (length name)) =
    if negb (test_mode (mode i) S_IFDIR) then Some (- ENOTDIR, 0, c)
    else if bool_decide (name = [46]) then c ← dentry_duplicate c p; Some (0, p, c)
    else match find_in v i name with
      | None => Some (- ENOENT, 0, c)
      | Some ino =>
          c1 ← spinlock_acquire c p;
          '(q, c2) ← dentry_get junk_inode c1 (dev_indx d) ino;
          c3 ← spinlock_release c2 p;
          Some (0, q, c3)
      end.
Proof.
  intros Hd Hl Hv Hi Hm Hok Hp. unfold vfs_lookup. destruct (Z.eqb_spec p 0) as [->|]; [by destruct (Hp 0)|].
  rewrite (test_mode_spec c p d i) by done. bind_red. destruct (test_mode (mode i) S_IFDIR) eqn:Ed; [|done]. cbn [negb].
  rewrite name_dot. bind_red. case_bool_decide; [done|].
  rewrite (test_flag_spec c p d) by done. bind_red. rewrite Hm. cbn [andb]. bind_red.
  unfold dentry_ops. rewrite Hd. bind_red. rewrite Hv. bind_red.
  destruct (dir_op_lookup (junk_inode := junk_inode) c p d v i name Hd Hl Hv Hi (Hok eq_refl)) as (lookup & -> & ->).
  destruct (find_in v i name) as [ino|]; [|done].
  destruct (spinlock_acquire c p); [|done]. bind_red. destruct (dentry_get junk_inode _ _ _) as [[q c2]|]; [|done]. bind_red.
  by destruct (spinlock_release c2 p).
Qed.

Lemma no_mount_through c p d : slot c p = Some d → locked d = false → TEST_FLAG (d_flags d) DENTRY_MOUNTPOINT = false →
  through_mounts c p = Some (p, c).
Proof.
  intros Hd Hl Hf. unfold through_mounts. rewrite loop_S. rewrite (test_flag_spec c p d) by done. bind_red. by rewrite Hf.
Qed.

(** A dentry in use that the path has reached. *)
Definition reached c (ext : Z → Z) (dev ino p : Z) : Prop := ino ≠ 0 ∧ (∀ q, 0 <= ext q) ∧
  ∃ d, slot c p = Some d ∧ dev_indx d = dev ∧ inode_indx d = ino.

Lemma rest_held c ext n m p d : at_rest c ext n m → 1 <= ext p → slot c p = Some d → 0 < d_count d.
Proof.
  intros Har Hp Hd. destruct (ar_refs _ _ _ _ Har p) as [_ Hr]. pose proof (slot_range _ _ _ Hd).
  pose proof (count_bound (λ d, 0 < d_count d ∧ parent d = p) c) as Hb. fold (children c p) in Hb.
  destruct Hr as (x & Hx & ?); [lia|lia|]. assert (x = d) as -> by congruence. lia.
Qed.

Lemma put_rel_tree c c' : put_rel c c' → same_tree c c'.
Proof.
  intros Hr. split; [apply Hr|]. split; [intros dev ino; apply (pr_view _ _ Hr)|].
  intros dev ino _ Hpl q d' Hq Hxd Hxi. pose proof (slot_range _ _ _ Hq). rewrite (pr_len _ _ Hr) in *.
  destruct (slot_is_Some c q) as [d Hd]; [lia|]. destruct (pr_slot _ _ Hr q d Hd) as (x & Hx & Er & _ & Hf).
  assert (x = d') as -> by congruence. rewrite Er in Hxd, Hxi. destruct (Hpl q d Hd Hxd Hxi) as [E1 E2].
  split; [rewrite <- E1; apply (Hf 1)|rewrite <- E2; apply (Hf 2)]; lia.
Qed.

(** A slot after [dentry_put] of another reference. *)
Lemma put_rel_slot c c' q d : put_rel c c' → slot c q = Some d →
  ∃ d', slot c' q = Some d' ∧ dev_indx d' = dev_indx d ∧ inode_indx d' = inode_indx d ∧ parent d' = parent d ∧
    filename d' = filename d.
Proof.
  intros Hr Hd. destruct (pr_slot _ _ Hr q d Hd) as (d' & Hd' & E & _). exists d'. split; [done|]. by rewrite E.
Qed.

Lemma at_rest_ext c ext ext' n m : at_rest c ext n m → (∀ q, ext' q = ext q) → at_rest c ext' n m.
Proof. intros [] He. constructor; try done. by eapply refs_ext. Qed.

Lemma at_rest_more c ext n m n' m' : at_rest c ext n m → n' <= n → m' <= m → at_rest c ext n' m'.
Proof.
  intros [] ??. constructor; try done; [|intros p d Hd; specialize (ar_few0 p d Hd); lia].
  destruct ar_roomy0 as (? & ? & ?). unfold roomy, INODE_LEN in *. split; [done|]. split; [done|lia].
Qed.

(** The name [name] leads from [ino] to [next]. *)
Lemma resolve_name_found c ext p dev ino next name n m : at_rest c (add_ref ext p) (1 + n) (3 + m) →
  0 <= n → 0 <= m < 2 ^ 31 - 3 → reached c ext dev ino p → walkable c dev ino [name] → walk_step c dev ino name = Some next →
  ∃ p' c', resolve_name c p name = Some (0, p', c') ∧ at_rest c' (add_ref ext p') n m ∧ same_tree c c' ∧
    reached c' ext dev next p'.
Proof.
  intros Har Hn Hm (Hino & Hext & d & Hd & Hde & Hdi) (Hplain & i & v & Hvi & Hv & Hdir & Hnext) Hstep.
  destruct (Hnext next Hstep) as (Hplnext & [j Hj] & _).
  pose proof (slot_range _ _ _ Hd) as Hp. pose proof (Hext p) as Hep.
  assert (1 <= add_ref ext p p) as Hpp by (unfold add_ref; rewrite decide_True by done; lia).
  pose proof (rest_held _ _ _ _ p d Har Hpp Hd) as Hpos.
  assert (valid c p d) as Hval by (split; [done|congruence]).
  pose proof (ar_unlocked _ _ _ _ Har p d Hd) as Hl. destruct (Hplain p d Hd Hde Hdi) as [Hmp Hmt].
  assert (load_inode c (inode_ptr d) = Some i) as Hi by (rewrite <- (view_cached c p d (ar_ok _ _ _ _ Har) Hval); congruence).
  unfold walk_step in Hstep. rewrite Hvi in Hstep. cbn [mbind option_bind] in Hstep. rewrite Hv in Hstep. cbn [mbind option_bind] in Hstep.
  destruct (test_mode (mode i) S_IFDIR) eqn:Edir; [|done]. destruct (Hdir eq_refl) as [Hdok Hself].
  unfold resolve_name. rewrite (vfs_lookup_spec c p d v i name) by first [done|congruence|intros q [x Hx%slot_range]; lia].
  rewrite Edir. cbn [negb]. case_bool_decide as Edot.
  - (* "." *) injection Hstep as <-.
    destruct (duplicate_rest c (add_ref ext p) (1 + n) (2 + m) p d) as (-> & Har1 & Htr1); [|lia|done|done|].
    { by replace (1 + (2 + m)) with (3 + m) by lia. }
    bind_red. change (0 <? 0) with false. cbv match. set (c1 := with_slot c p _) in *.
    assert (slot c1 p = Some (set_count (d_count d + 1) d)) as Hd1 by by apply slot_with_eq with d.
    rewrite (no_mount_through c1 p _ Hd1) by done. bind_red. rewrite (test_flag_spec c1 p _ _ Hd1) by done. bind_red.
    cbn [d_flags set_count]. rewrite Hmp. bind_red. rewrite Hd1. bind_red. rewrite Z.eqb_refl. cbn [negb andb]. bind_red.
    destruct (put_rest c1 (add_ref (add_ref ext p) p) (1 + n) (2 + m) p Har1) as (c2 & -> & Har2 & Hrel); [lia|lia| |].
    { unfold add_ref. rewrite !decide_True by done. lia. }
    bind_red. exists p, c2. split; [done|]. split; [|split].
    + eapply at_rest_ext; [apply (at_rest_more c2 _ (1 + n) (2 + m)); [exact Har2|lia|lia]|].
      intros q. unfold add_ref, drop_ref. repeat case_decide; lia.
    + etrans; [done|]. by apply put_rel_tree.
    + split; [done|]. split; [done|]. destruct (put_rel_slot _ _ p _ Hrel Hd1) as (d2 & Hd2 & E1 & E2 & _).
      exists d2. split; [done|]. split; [by rewrite E1|by rewrite E2].
  - rewrite Hstep. pose proof (find_in_pos v i name next Hdok Hstep) as Hnx.
    destruct (get_in_dir c p d dev next j (add_ref ext p) n (2 + m)) as (q & c1 & d1 & Eg & Hg & Hqp); try done; [|lia| | ].
    { by replace (1 + (2 + m)) with (3 + m) by lia. }
    { intros [_ E]. apply Hself; [done|]. congruence. }
    rewrite Hde, Eg. bind_red. change (0 <? 0) with false. cbv match.
    destruct (got_common c (add_ref ext p) dev next j q c1 d1 n (2 + m)) as (Hu1 & Hfew1 & Hro1 & Hst1 & Htr1); [|lia|done|].
    { by replace (1 + (2 + m)) with (3 + m) by lia. }
    pose proof (gt_slot _ _ _ _ _ _ _ _ Hg) as Hd1. destruct (gt_ident _ _ _ _ _ _ _ _ Hg) as (Ede1 & Edi1 & El1).
    assert (slot c1 p = Some d) as Hdp by (apply (gt_same _ _ _ _ _ _ _ _ Hg); [done|congruence]).
    destruct (proj2 (proj2 Htr1) dev next Hnx Hplnext q d1 Hd1 Ede1 Edi1) as [Hmq _].
    rewrite (no_mount_through c1 q d1) by done. bind_red. rewrite (test_flag_spec c1 q d1) by done. bind_red.
    rewrite Hmq. bind_red. rewrite Hdp. bind_red. destruct (Z.eqb_spec q p); [done|]. cbn [negb andb].
    assert (∃ c2 d2, (if negb (parent d =? q) then
        let '(a, c) := alloc_obj c1 (Name name) in c ← dentry_set_filename c q a; dentry_set_parent c q p
      else Some c1) = Some c2 ∧ at_rest c2 (add_ref (add_ref ext p) q) n (1 + m) ∧ same_tree c c2 ∧
      slot c2 q = Some d2 ∧ dev_indx d2 = dev ∧ inode_indx d2 = next) as (c2 & d2 & -> & Har2 & Htr2 & Hd2 & Ede2 & Edi2).
    { destruct (Z.eqb_spec (parent d) q) as [Epar|Epar]; cbn [negb].
      - exists c1, d1. split; [done|]. split; [|done].
        assert (∃ x, slot c q = Some x ∧ 0 < d_count x) as (x & Hx & Hx0).
        { destruct (ar_refs _ _ _ _ Har q) as [? Hrq]. pose proof (slot_range _ _ _ Hd1).
          pose proof (count_pos (λ d, 0 < d_count d ∧ parent d = q) c p d Hd ltac:(done)) as Hch. fold (children c q) in Hch.
          destruct Hrq as (x & Hx & ?); [lia|lia|]. exists x. split; [done|lia]. }
        constructor; try done; [apply Hg|apply Hg|by apply (gt_held_refs _ _ _ _ _ _ _ _ Hg x)|].
        intros y dy Hy. specialize (Hfew1 y dy Hy). lia.
      - destruct (adopt_rest c (add_ref ext p) dev next j q c1 d1 n m name p d) as (c2 & d2 & E2 & ? & ? & ? & ? & ? & _);
          [done..|]. exists c2, d2. done. }
    bind_red. destruct (put_rest c2 (add_ref (add_ref ext p) q) n (1 + m) p Har2) as (c3 & -> & Har3 & Hrel); [lia|lia| |].
    { unfold add_ref. rewrite decide_False, decide_True by congruence. lia. }
    bind_red. exists q, c3. split; [done|]. split; [|split].
    + eapply at_rest_ext; [apply (at_rest_more c3 _ n (1 + m)); [exact Har3|lia|lia]|].
      intros y. unfold add_ref, drop_ref. repeat case_decide; lia.
    + etrans; [done|]. by apply put_rel_tree.
    + split; [done|]. split; [done|]. destruct (put_rel_slot _ _ q _ Hrel Hd2) as (d3 & Hd3 & E1 & E2 & _).
      exists d3. split; [done|]. split; congruence.
Qed.

(** The name is not there: nothing changes, and the dentry stays counted. *)
Lemma resolve_name_missing c ext p dev ino name n m : at_rest c (add_ref ext p) n m → reached c ext dev ino p →
  walkable c dev ino [name] → walk_step c dev ino name = None → resolve_name c p name = Some (- ENOENT, 0, c).
Proof.
  intros Har (Hino & Hext & d & Hd & Hde & Hdi) (Hplain & i & v & Hvi & Hv & Hdir & _) Hstep.
  assert (valid c p d) as Hval by (split; [done|congruence]).
  pose proof (ar_unlocked _ _ _ _ Har p d Hd) as Hl. destruct (Hplain p d Hd Hde Hdi) as [Hmp Hmt].
  assert (load_inode c (inode_ptr d) = Some i) as Hi by (rewrite <- (view_cached c p d (ar_ok _ _ _ _ Har) Hval); congruence).
  unfold walk_step in Hstep. rewrite Hvi in Hstep. cbn [mbind option_bind] in Hstep. rewrite Hv in Hstep. cbn [mbind option_bind] in Hstep.
  unfold resolve_name. rewrite (vfs_lookup_spec c p d v i name);
    [|done|done|congruence|done|done|by intros ?; apply Hdir|intros q [x Hx%slot_range]; lia].
  destruct (test_mode (mode i) S_IFDIR); cbn [negb]; [|done]. case_bool_decide; [done|]. by rewrite Hstep.
Qed.

(** *** All the names *)

Lemma walk_step_pos c dev ino name next : ino ≠ 0 → walkable c dev ino [name] → walk_step c dev ino name = Some next → next ≠ 0.
Proof.
  intros Hino (_ & i & v & Hvi & Hv & Hdir & _) Hs. unfold walk_step in Hs. rewrite Hvi in Hs. cbn [mbind option_bind] in Hs.
  rewrite Hv in Hs. cbn [mbind option_bind] in Hs. destruct (test_mode (mode i) S_IFDIR); [|done].
  destruct (Hdir eq_refl) as [Hok _]. case_bool_decide; [congruence|]. by eapply find_in_pos.
Qed.

Lemma walkable_head c dev ino name names : walkable c dev ino (name :: names) → walkable c dev ino [name].
Proof.
  intros (Hpl & i & v & Hvi & Hv & Hdir & Hnext). split; [done|]. exists i, v. split; [done|]. split; [done|].
  split; [done|]. intros next Hs. split; [by apply Hnext|]. split; [by apply Hnext|done].
Qed.

Lemma walk_step_same c c' dev ino name : same_tree c c' → ino ≠ 0 → walkable c dev ino [name] →
  walk_step c' dev ino name = walk_step c dev ino name.
Proof.
  intros Ht Hino (_ & i & v & Hvi & Hv & Hdir & _). apply walk_same; [done|done|]. intros i' v' Hi' Hv' Hm.
  assert (i' = i) as -> by congruence. assert (v' = v) as -> by congruence. by apply Hdir.
Qed.

Lemma walkable_same c c' dev ino names : same_tree c c' → ino ≠ 0 → walkable c dev ino names →
  walkable c' dev ino names ∧ walk c' dev ino names = walk c dev ino names.
Proof.
  intros Ht. revert ino. induction names as [|name names IH]; intros ino Hino Hw; [done|].
  pose proof (walkable_head _ _ _ _ _ Hw) as Hw1. cbn [walkable walk] in Hw |- *.
  rewrite (walk_step_same c c') by done. destruct Hw as (Hpl & i & v & Hvi & Hv & Hdir & Hnext).
  destruct Ht as (Hd & Hview & Hplain). pose proof (Hd dev) as Hdd. rewrite Hv in Hdd. destruct (devs c' !! dev) as [v'|] eqn:Hv'; [|done].
  split.
  - split; [by apply Hplain|]. exists i, v'. split; [by rewrite Hview|]. split; [done|]. split.
    + intros Hm. destruct (Hdir Hm) as [Hok Hself]. split; [by eapply dir_ok_same|]. intros Hne.
      rewrite (find_in_same v v' i name) by done. by apply Hself.
    + intros next Hs. destruct (Hnext next Hs) as (Hpn & [j Hj] & Hwn).
      assert (next ≠ 0) as Hn by by eapply walk_step_pos.
      split; [by apply Hplain|]. split; [exists j; by rewrite Hview|by apply IH].
  - destruct (walk_step c dev ino name) as [next|] eqn:Hs; [|done]. bind_red. apply (IH next); [exact (walk_step_pos c dev ino name next Hino Hw1 Hs)|apply (Hnext next ltac:(done))].
Qed.

Lemma names_split path name : names_from name path = let '(rest, after) := split_name path in
  if bool_decide (name ++ rest = []) then match after with [] => [] | _ :: path => path_names path end
  else (name ++ rest) :: match after with [] => [] | _ :: path => path_names path end.
Proof.
  revert name. induction path as [|ch path IH]; intros name; cbn [names_from split_name].
  - rewrite app_nil_r. by case_bool_decide.
  - destruct (ch =? 47).
    + rewrite app_nil_r. by case_bool_decide.
    + rewrite IH. destruct (split_name path) as [rest after]. by rewrite <- app_assoc.
Qed.

Lemma split_slash path : match snd (split_name path) with [] => True | ch :: _ => ch = 47 end.
Proof.
  induction path as [|ch path IH]; [done|]. cbn [split_name]. destruct (Z.eqb_spec ch 47); [done|].
  by destruct (split_name path).
Qed.

Lemma skip_names path : path_names (skip_slashes path) = path_names path.
Proof.
  induction path as [|ch path IH]; [done|]. cbn [skip_slashes]. destruct (Z.eqb_spec ch 47) as [->|]; [by rewrite IH|done].
Qed.
Lemma skip_length path : (length (skip_slashes path) <= length path)%nat.
Proof. induction path as [|ch path IH]; [done|]. cbn [skip_slashes]. destruct (ch =? 47); cbn [length]; lia. Qed.
Lemma split_length path : length path = (length (fst (split_name path)) + length (snd (split_name path)))%nat.
Proof.
  induction path as [|ch path IH]; [done|]. cbn [split_name]. destruct (ch =? 47); [done|].
  destruct (split_name path) as [rest after]. cbn [fst snd length] in *. lia.
Qed.

Lemma skip_head path ch rest : skip_slashes path = ch :: rest → ch ≠ 47.
Proof.
  induction path as [|x path IH]; [done|]. cbn [skip_slashes]. destruct (Z.eqb_spec x 47); [done|]. by intros [= <- _].
Qed.

(** What a round of the resolution does with a path. *)
Lemma path_round path : let '(name, after) := split_name (skip_slashes path) in
  path_names path = if bool_decide (name = []) then [] else name :: path_names after.
Proof.
  rewrite <- skip_names. pose proof (names_split (skip_slashes path) []) as E. pose proof (split_slash (skip_slashes path)) as Hs.
  pose proof (skip_head path) as Hhd. change (path_names (skip_slashes path)) with (names_from [] (skip_slashes path)).
  destruct (split_name (skip_slashes path)) as [name0 after0] eqn:E0. rewrite E. cbn [app].
  destruct (skip_slashes path) as [|ch rest]; [by injection E0 as <- <-|].
  specialize (Hhd ch rest eq_refl). cbn [split_name] in E0. destruct (Z.eqb_spec ch 47); [done|].
  destruct (split_name rest) as [name after]. injection E0 as <- <-. cbn [snd] in Hs. rewrite !bool_decide_false by done.
  destruct after as [|x after]; [done|]. subst x. by cbn.
Qed.

(** What the resolution of [names] from [ino] on gives. *)
Definition resolved c ext dev (r : option Z) n m (x : option (Z * Z * cache D)) : Prop := ∃ p' c' ino',
  x = Some (match r with Some _ => (0, p', c') | None => (- ENOENT, 0, c') end) ∧
  at_rest c' (add_ref ext p') n m ∧ same_tree c c' ∧ reached c' ext dev ino' p' ∧
  match r with Some next => next = ino' | None => True end.

Lemma resolve_names_spec path c ext p dev ino n m : let names := path_names path in let k := Z.of_nat (length names) in
  at_rest c (add_ref ext p) (k + n) (3 * k + m) → 0 <= n → 0 <= m → 3 * k + m < 2 ^ 31 - 3 →
  reached c ext dev ino p → walkable c dev ino names →
  resolved c ext dev (walk c dev ino names) n m (resolve_names c p path).
Proof.
  cbv zeta. unfold resolve_names. assert (length path < S (length path))%nat as Hf by lia.
  revert Hf. generalize (S (length path)) as fuel. intros fuel. revert path c p ino.
  induction fuel as [|fuel IH]; intros path c p ino Hf Har Hn Hm Hbig Hre Hw; [lia|].
  rewrite loop_S. case_bool_decide as Epath.
  { subst path. exists p, c, ino. done. }
  pose proof (path_round path) as Er. pose proof (split_length (skip_slashes path)) as Hlen. pose proof (skip_length path) as Hsk.
  destruct (split_name (skip_slashes path)) as [name after] eqn:Es. cbn [fst snd] in Hlen. rewrite Er in *.
  destruct (decide (name = [])) as [->|Hname].
  { rewrite bool_decide_true by done. exists p, c, ino. rewrite !bool_decide_true in * by done. cbn in Har |- *. done. }
  rewrite !bool_decide_false in * by done. cbn [length walk] in *.
  set (k := Z.of_nat (length (path_names after))) in *. 
  pose proof (walkable_head _ _ _ _ _ Hw) as Hw1.
  destruct (walk_step c dev ino name) as [next|] eqn:Hs.
  - bind_red. destruct (resolve_name_found c ext p dev ino next name (k + n) (3 * k + m)) as (p' & c' & -> & Har' & Htr & Hre'); try done.
    { eapply at_rest_more; [exact Har|lia|lia]. }
    { lia. } { lia. }
    bind_red. change (0 <? 0) with false. cbv match.
    destruct Hw as (_ & i & v & _ & _ & _ & Hnext). destruct (Hnext next Hs) as (_ & _ & Hwn).
    destruct (walkable_same c c' dev next (path_names after) Htr) as [Hwn' Ewn]; [apply Hre'|done|].
    destruct (IH after c' p' next) as (p2 & c2 & ino2 & E & Har2 & Htr2 & Hre2 & Hr); try done;
      [destruct name; [done|cbn in Hlen; lia]|lia|].
    rewrite Ewn in *. exists p2, c2, ino2. split; [done|]. split; [done|]. split; [by etrans|done].
  - rewrite (resolve_name_missing c ext p dev ino name (k + n + 1) (3 * k + m + 3)); [|eapply at_rest_more; [exact Har|lia|lia]|done|done|done].
    bind_red. exists p, c, ino. split; [done|]. split; [|done]. eapply at_rest_more; [exact Har|lia|lia].
Qed.

(** *** Paths *)

Lemma got_rest c ext dev ino i p c' d' n m : at_rest c ext (1 + n) (1 + m) → 0 <= m < 2 ^ 31 - 1 →
  got c dev ino i ext p c' d' → (∀ d, valid c p d → dev_indx d = dev → inode_indx d = ino → 0 < d_count d ∨ parent d = 0) →
  at_rest c' (add_ref ext p) n m ∧ same_tree c c'.
Proof.
  intros Har Hm Hg Hpar. destruct (got_common c ext dev ino i p c' d' n m Har Hm Hg) as (? & ? & ? & ? & ?).
  split; [|done]. constructor; try done; [apply Hg|apply Hg|].
  pose proof (gt_slot _ _ _ _ _ _ _ _ Hg) as Hd'. pose proof (gt_refs _ _ _ _ _ _ _ _ Hg) as Hr.
  assert (parent d' = 0 → refs_ok c' (add_ref ext p)) as Horphan.
  { intros E. replace (set_parent 0 d') with d' in Hr by (destruct d'; cbn in E; by subst). by rewrite with_slot_same in Hr. }
  destruct (gt_ident _ _ _ _ _ _ _ _ Hg) as (Ede & Edi & _).
  destruct (gt_case _ _ _ _ _ _ _ _ Hg) as [(d & Hv & ->)|(_ & _ & Hp & _)]; [|by apply Horphan].
  destruct (Hpar d Hv Ede Edi) as [Hc|Hp]; [|by apply Horphan]. by apply (gt_held_refs _ _ _ _ _ _ _ _ Hg d); [apply Hv|].
Qed.

Definition is_absolute path : bool := match path with ch :: _ => ch =? 47 | [] => false end.

(** Where a path begins: inode [ino] of [dev]. The root directory is in use or has no parent. *)
Definition begins c (root start : Z) path (dev ino : Z) : Prop :=
  if (start =? 0) || is_absolute path then
    dev = root ∧ ino = 2 ∧ root ≠ -1 ∧ is_Some (view c root 2) ∧
    ∀ p d, valid c p d → dev_indx d = root → inode_indx d = 2 → 0 < d_count d ∨ parent d = 0
  else ∃ d, slot c start = Some d ∧ 0 < d_count d ∧ dev_indx d = dev ∧ inode_indx d = ino.

Lemma begin_spec c ext root start path dev ino n m : at_rest c ext (1 + n) (1 + m) → 0 <= n → 0 <= m < 2 ^ 31 - 1 →
  (∀ q, 0 <= ext q) → begins c root start path dev ino →
  ∃ p c' rest, (if (start =? 0) || is_absolute path then
      if root =? -1 then None else
      '(cur, c) ← dentry_get junk_inode c root 2; Some (cur, skip_slashes path, c)
    else c ← dentry_duplicate c start; Some (start, path, c)) = Some (p, rest, c') ∧
    path_names rest = path_names path ∧ at_rest c' (add_ref ext p) n m ∧ same_tree c c' ∧ reached c' ext dev ino p.
Proof.
  intros Har Hn Hm Hext Hb. unfold begins in Hb. destruct ((start =? 0) || is_absolute path).
  - destruct Hb as (-> & -> & Hroot & [i Hi] & Hpar). destruct (Z.eqb_spec root (-1)); [done|].
    destruct (dentry_get_spec junk_inode c root 2 i ext) as (p & c' & d' & E & Hg); try done; try apply Har.
    { destruct (ar_roomy _ _ _ _ Har) as (_ & _ & ?). unfold INODE_LEN, DENTRY_SWAP_THRESHOLD_FOR_INODE_CACHE in *. lia. }
    { intros q d Hq Hl. by rewrite (ar_unlocked _ _ _ _ Har q d Hq) in Hl. }
    { intros q d Hq. pose proof (ar_few _ _ _ _ Har q d Hq). lia. }
    rewrite E. bind_red. exists p, c', (skip_slashes path). split; [done|]. split; [apply skip_names|].
    destruct (gt_ident _ _ _ _ _ _ _ _ Hg) as (Ede & Edi & _).
    destruct (got_rest c ext root 2 i p c' d' n m Har Hm Hg) as [? ?]; [intros d; apply Hpar|].
    split; [done|]. split; [done|]. split; [done|]. split; [done|]. exists d'. split; [apply Hg|done].
  - destruct Hb as (d & Hd & Hpos & <- & <-).
    destruct (duplicate_rest c ext (1 + n) m start d Har) as (-> & Har1 & Htr); [lia|done|done|]. bind_red.
    exists start, (with_slot c start (set_count (d_count d + 1) d)), path. split; [done|]. split; [done|].
    split; [eapply at_rest_more; [exact Har1|lia|lia]|]. split; [done|]. split; [|split; [done|]].
    + intros E. destruct (co_count c (ar_ok _ _ _ _ Har) start d Hd) as [_ Hz]. specialize (Hz E). lia.
    + eexists. split; [by apply slot_with_eq with d|done].
Qed.

Lemma resolve_spec c ext root start path dev ino n : let names := path_names path in let k := Z.of_nat (length names) in
  at_rest c ext (1 + (k + n)) (3 * k + 2) → 0 <= n → 3 * k + 1 < 2 ^ 31 - 3 → (∀ q, 0 <= ext q) →
  begins c root start path dev ino → walkable c dev ino names →
  resolved c ext dev (walk c dev ino names) n 0 (vfs_resolve_path_start_from junk_inode c root start path).
Proof.
  cbv zeta. intros Har Hn Hk Hext Hb Hw. unfold vfs_resolve_path_start_from. fold (is_absolute path).
  set (k := Z.of_nat (length (path_names path))) in *.
  destruct (begin_spec c ext root start path dev ino (k + n) (3 * k + 1)) as (p & c1 & rest & -> & Enames & Har1 & Htr1 & Hre1);
    [by replace (1 + (3 * k + 1)) with (3 * k + 2) by lia|lia|lia|done|done|].
  bind_red. destruct (walkable_same c c1 dev ino (path_names path) Htr1) as [Hw1 Ew]; [apply Hre1|done|].
  destruct (resolve_names_spec rest c1 ext p dev ino n 1) as (p' & c2 & ino' & -> & Har2 & Htr2 & Hre2 & Hr);
    [rewrite Enames; exact Har1|done|lia|rewrite Enames; fold k; lia|done|by rewrite Enames|].
  rewrite Enames, Ew in *. bind_red. destruct (walk c dev ino (path_names path)) as [next|] eqn:Ewalk.
  - subst next. bind_red. change (0 <? 0) with false. cbv match.
    destruct Hre2 as (Hi' & _ & d & Hd & Ede & Edi). pose proof (slot_range _ _ _ Hd). pose proof (Hext p').
    assert (1 <= add_ref ext p' p') as Hpp by (unfold add_ref; rewrite decide_True by done; lia).
    pose proof (rest_held _ _ _ _ p' d Har2 Hpp Hd) as Hpos.
    destruct (duplicate_rest c2 (add_ref ext p') n 0 p' d Har2) as (-> & Har3 & Htr3); [lia|done|done|]. bind_red.
    destruct (put_rest _ (add_ref (add_ref ext p') p') n 0 p' Har3) as (c4 & -> & Har4 & Hrel); [lia|lia| |].
    { unfold add_ref. rewrite !decide_True by done. lia. }
    bind_red. exists p', c4, ino'. split; [done|]. split; [|split; [|split; [|done]]].
    + eapply at_rest_ext; [exact Har4|]. intros q. unfold add_ref, drop_ref. repeat case_decide; lia.
    + etrans; [done|]. etrans; [done|]. etrans; [done|]. by apply put_rel_tree.
    + split; [done|]. split; [done|].
      destruct (put_rel_slot _ _ p' _ Hrel (slot_with_eq c2 p' d (set_count (d_count d + 1) d) Hd)) as (d4 & Hd4 & E1 & E2 & _).
      exists d4. split; [done|]. by rewrite E1, E2.
  - bind_red. exists p', c2, ino'. split; [done|]. split; [eapply at_rest_more; [exact Har2|lia|lia]|]. split; [by etrans|done].
Qed.
End resolve.

(** ** The way up *)

Section up.
Context `{Platform} {D : Type}.
Implicit Types (c : cache D) (d : dentry) (p q : Z) (name : list Z).

(** The names on the way from [p] up to the root directory, the last one first. *)
Fixpoint up c (root p : Z) (names : list (list Z)) : Prop := ∃ d, slot c p = Some d ∧
  match names with
  | [] => dev_indx d = root ∧ inode_indx d = 2
  | name :: names => ¬ (dev_indx d = root ∧ inode_indx d = 2) ∧ name_of c p = Some name ∧ parent d ≠ 0 ∧ up c root (parent d) names
  end.

(** [/name/name...]. *)
Definition spell (names : list (list Z)) : list Z := concat (map (cons 47) names).

Lemma up_pos c root p names : up c root p names → 1 <= p.
Proof. destruct names; intros (d & Hd & _); apply slot_range in Hd; lia. Qed.

Lemma is_root_spec c root p d : slot c p = Some d →
  _vfs_is_root_dentry c root p = Some (bool_decide (dev_indx d = root ∧ inode_indx d = 2)).
Proof.
  intros Hd. unfold _vfs_is_root_dentry. pose proof (slot_range _ _ _ Hd). destruct (Z.eqb_spec p 0); [lia|].
  rewrite Hd. bind_red. f_equal. case_bool_decide as E.
  - destruct E as [-> ->]. by rewrite !Z.eqb_refl.
  - apply andb_false_iff. destruct (Z.eqb_spec (dev_indx d) root); [right|by left]. apply Z.eqb_neq. intros ?. by apply E.
Qed.

(** Every step up is at another slot, so there are fewer than slots. *)
Fixpoint chain_up c p (n : nat) : list Z :=
  match n with
  | O => [p]
  | S n => p :: match slot c p with Some d => chain_up c (parent d) n | None => [] end
  end.

Lemma up_det c root p l l' : up c root p l → up c root p l' → l = l'.
Proof.
  revert p l'. induction l as [|x l IH]; intros p [|y l'] (d & Hd & H1) (e & He & H2); try done.
  - assert (e = d) as -> by congruence. by destruct H2 as (H2 & _).
  - assert (e = d) as -> by congruence. by destruct H1 as (H1 & _).
  - assert (e = d) as -> by congruence. destruct H1 as (_ & N1 & _ & U1), H2 as (_ & N2 & _ & U2).
    f_equal; [congruence|by eapply IH].
Qed.

Lemma chain_up_in c root p l q : up c root p l → q ∈ chain_up c p (length l) → ∃ l', up c root q l' ∧ (length l' <= length l)%nat.
Proof.
  revert p. induction l as [|x l IH]; intros p Hu; cbn [chain_up length].
  - intros ->%list_elem_of_singleton. by exists [].
  - pose proof Hu as (d & Hd & _ & _ & _ & U). rewrite Hd. intros [->|Hq]%elem_of_cons; [by exists (x :: l)|].
    destruct (IH _ U Hq) as (l' & ? & ?). exists l'. split; [done|lia].
Qed.

Lemma up_length c root p l : up c root p l → (length l < length (data c))%nat.
Proof.
  intros Hu. assert (∀ p l, up c root p l → NoDup (chain_up c p (length l)) ∧ length (chain_up c p (length l)) = S (length l)) as Hnd.
  { intros p0 l0. revert p0. induction l0 as [|x l0 IH]; intros p0 U; cbn [chain_up length].
    - split; [apply NoDup_singleton|done].
    - pose proof U as (d & Hd & _ & _ & _ & U'). rewrite Hd. destruct (IH _ U') as [Hn Hl]. split; [|cbn [length]; lia].
      apply NoDup_cons. split; [|done]. intros Hin. destruct (chain_up_in c root _ _ _ U' Hin) as (l' & U2 & Hle).
      pose proof (up_det _ _ _ _ _ U U2) as <-. cbn [length] in Hle. lia. }
  destruct (Hnd p l Hu) as [Hn Hl].
  assert (length (chain_up c p (length l)) <= length (seqZ 1 (Z.of_nat (length (data c)))))%nat as Hle.
  { apply submseteq_length, NoDup_submseteq; [done|]. intros q Hq. destruct (chain_up_in c root p l q Hu Hq) as (l' & U & _).
    apply elem_of_seqZ. destruct l'; destruct U as (d & Hd & _); apply slot_range in Hd; lia. }
  rewrite length_seqZ in Hle. lia.
Qed.

Lemma length_spell_cons name names : Z.of_nat (length (spell (name :: names))) = Z.of_nat (length name) + 1 + Z.of_nat (length (spell names)).
Proof. unfold spell. cbn [map concat]. rewrite length_app. cbn [length]. lia. Qed.
Lemma spell_snoc names name : spell (names ++ [name]) = spell names ++ 47 :: name.
Proof. unfold spell. rewrite map_app, concat_app. cbn. by rewrite app_nil_r. Qed.

(** The length of a path that is not the root's. *)
Lemma len_spec c root p names : up c root p names → names ≠ [] →
  _vfs_len_of_absolute_path c root p = Some (Z.of_nat (length (spell names)) + 1).
Proof.
  intros Hu Hne. unfold _vfs_len_of_absolute_path. pose proof (up_pos _ _ _ _ Hu). destruct (Z.eqb_spec p 0); [lia|].
  pose proof (up_length _ _ _ _ Hu) as Hlen.
  destruct names as [|name0 names0] eqn:En; [done|]. rewrite <- En in *. 
  assert (∃ d, slot c p = Some d ∧ ¬ (dev_indx d = root ∧ inode_indx d = 2)) as (d0 & Hd0 & Hnr).
  { rewrite En in Hu. destruct Hu as (d & ? & ? & _). by exists d. }
  rewrite (is_root_spec c root p d0) by done. bind_red. rewrite bool_decide_false by done.
  assert (∀ fuel acc q l, up c root q l → (length l < fuel)%nat →
    ∃ r, loop fuel (λ '(path_len, p),
      is_root ← _vfs_is_root_dentry c root p;
      d ← slot c p;
      if negb is_root && negb (parent d =? 0) then
        name ← name_of c p;
        Some (inl (path_len + (Z.of_nat (length name) + 1), parent d))
      else Some (inr (path_len, p))) (acc, q) = Some (acc + Z.of_nat (length (spell l)), r) ∧
      _vfs_is_root_dentry c root r = Some true) as Hloop.
  { intros fuel. induction fuel as [|fuel IH]; intros acc q l U Hf; [lia|]. rewrite loop_S.
    destruct l as [|x l]; pose proof U as (d & Hd & Hcase); rewrite (is_root_spec c root q d), Hd by done; bind_red.
    - rewrite bool_decide_true by done. cbn [negb andb]. exists q. split; [by rewrite Z.add_0_r|].
      by rewrite (is_root_spec c root q d), bool_decide_true.
    - destruct Hcase as (Hn & Hnm & Hp & U'). rewrite bool_decide_false by done. destruct (Z.eqb_spec (parent d) 0); [done|].
      cbn [negb andb]. rewrite Hnm. bind_red. destruct (IH (acc + (Z.of_nat (length x) + 1)) (parent d) l U') as (r & -> & Hr); [cbn in Hf; lia|].
      exists r. split; [|done]. rewrite length_spell_cons. do 2 f_equal. lia. }
  destruct (Hloop (S (length (data c))) 0 p names Hu) as (r & -> & Hr); [lia|]. bind_red. rewrite Hr. bind_red. done.
Qed.

Lemma zwrite_mid (a m s x : list Z) : length m = length x → zwrite (a ++ m ++ s) (Z.of_nat (length a)) x = Some (a ++ x ++ s).
Proof.
  intros Hl. rewrite zwrite_in by (rewrite ?length_app; lia). f_equal.
  rewrite Nat2Z.id, take_app_length. f_equal. f_equal. rewrite <- Hl, <- length_app, app_assoc. apply drop_app_length.
Qed.

Lemma length_spell_rev l : length (spell (rev l)) = length (spell l).
Proof.
  induction l as [|x l IH]; [done|]. cbn [rev]. rewrite spell_snoc, length_app. cbn [length]. rewrite IH.
  unfold spell. cbn. rewrite length_app. lia.
Qed.

(** The names are written from the last one back. *)
Lemma write_up c root fuel pre suf q l : up c root q l → (length l < fuel)%nat → length pre = length (spell (rev l)) →
  loop fuel (λ '(b, start, p),
    is_root ← _vfs_is_root_dentry c root p;
    d ← slot c p;
    if negb is_root && negb (parent d =? 0) then
      name ← name_of c p;
      let start := start - Z.of_nat (length name) in
      b ← zwrite b start name;
      b ← zwrite b (start - 1) [47];
      Some (inl (b, start - 1, parent d))
    else Some (inr b)) (pre ++ suf, Z.of_nat (length pre), q) = Some (spell (rev l) ++ suf).
Proof.
  revert fuel pre suf q. induction l as [|x l IH]; intros [|fuel] pre suf q U Hf Hpre; try lia; rewrite loop_S;
    pose proof U as (d & Hd & Hcase); rewrite (is_root_spec c root q d), Hd by done; bind_red.
  - rewrite bool_decide_true by done. cbn [negb andb]. cbn in Hpre |- *. by destruct pre.
  - destruct Hcase as (Hn & Hnm & Hp & U'). rewrite bool_decide_false by done. destruct (Z.eqb_spec (parent d) 0); [done|].
    cbn [negb andb]. rewrite Hnm. bind_red. cbv zeta. cbn [rev] in *. rewrite spell_snoc, length_app in Hpre. cbn [length] in Hpre.
    set (k := length (spell (rev l))) in *.
    assert (pre = take k pre ++ [nth k pre 0] ++ drop (S k) pre) as Epre.
    { rewrite <- (take_drop k pre) at 1. f_equal. destruct (drop k pre) as [|y t] eqn:E.
      - apply (f_equal length) in E. rewrite length_drop in E. cbn in E. lia.
      - replace (nth k pre 0) with y; [|rewrite <- (take_drop k pre), app_nth2, length_take, E by (rewrite length_take; lia); replace (k - k `min` length pre)%nat with 0%nat by lia; done].
        replace (drop (S k) pre) with t; [done|]. replace (S k) with (k + 1)%nat by lia. rewrite <- drop_drop, E. done. }
    set (a := take k pre) in *. set (m := drop (S k) pre) in *. set (y := nth k pre 0) in *.
    assert (length a = k) as Ha by (unfold a; rewrite length_take; lia).
    assert (length m = length x) as Hm by (unfold m; rewrite length_drop; lia).
    rewrite Epre at 1. 
    replace ((a ++ [y] ++ m) ++ suf) with ((a ++ [y]) ++ m ++ suf) by (by rewrite <- !app_assoc).
    replace (Z.of_nat (length pre) - Z.of_nat (length x)) with (Z.of_nat (length (a ++ [y]))) by (rewrite length_app; cbn; lia).
    rewrite zwrite_mid by done. bind_red.
    replace (Z.of_nat (length (a ++ [y])) - 1) with (Z.of_nat (length a)) by (rewrite length_app; cbn; lia).
    replace ((a ++ [y]) ++ x ++ suf) with (a ++ [y] ++ x ++ suf) by (by rewrite <- !app_assoc).
    rewrite zwrite_mid by done. bind_red. rewrite (IH fuel a ([47] ++ x ++ suf) (parent d) U') by (lia || (cbn in Hf; lia)).
    rewrite spell_snoc, <- !app_assoc. done.
Qed.

Lemma absolute_path_spec c root p names b len : let n := length (spell names) in
  up c root p (rev names) → names ≠ [] → Z.of_nat n + 1 <= len → (n + 1 <= length b)%nat →
  vfs_get_absolute_path c root p (Some b) len = Some (Z.of_nat n + 1, Some (spell names ++ [0] ++ drop (n + 1) b)).
Proof.
  cbv zeta. intros Hu Hne Hlen Hb. unfold vfs_get_absolute_path. pose proof (up_pos _ _ _ _ Hu).
  destruct (Z.eqb_spec p 0) as [|_]; [lia|].
  assert (rev names ≠ []) as Hrn by (intros E; apply Hne; by apply (f_equal (@rev _)) in E; rewrite rev_involutive in E).
  rewrite (len_spec c root p (rev names)) by done. rewrite length_spell_rev. bind_red.
  set (n := length (spell names)) in *.
  destruct (Z.ltb_spec (Z.of_nat n + 1) 0); [lia|]. destruct (Z.ltb_spec len (Z.of_nat n + 1)); [lia|].
  assert (_vfs_is_root_dentry c root p = Some false) as ->.
  { destruct (rev names) as [|x l]; [done|]. destruct Hu as (d & Hd & Hn & _).
    by rewrite (is_root_spec c root p d), bool_decide_false. }
  bind_red. replace (Z.of_nat n + 1 - 1) with (Z.of_nat (length (take n b))) by (rewrite length_take; lia).
  rewrite <- (take_drop n b) at 1. pose proof (up_length _ _ _ _ Hu).
  rewrite (write_up c root _ (take n b) (drop n b) p (rev names) Hu) by (rewrite ?rev_involutive, ?length_take; fold n; lia).
  rewrite rev_involutive. bind_red. destruct (drop n b) as [|y t] eqn:E.
  { apply (f_equal length) in E. rewrite length_drop in E. cbn in E. lia. }
  replace (Z.of_nat (length (take n b))) with (Z.of_nat (length (spell names))) by (rewrite length_take; fold n; lia).
  change (y :: t) with ([y] ++ t). rewrite zwrite_mid by done. bind_red. rewrite <- drop_drop, E. done.
Qed.

(** A spelled path has the names it was made of. *)
Lemma names_of_name name rest after : 47 ∉ name →
  names_from rest (name ++ after) = names_from (rest ++ name) after.
Proof.
  revert rest. induction name as [|ch name IH]; intros rest Hn; [by rewrite app_nil_r|].
  apply not_elem_of_cons in Hn as [Hch Hn]. cbn [names_from app]. destruct (Z.eqb_spec ch 47); [done|].
  rewrite IH by done. by rewrite <- app_assoc.
Qed.
Lemma names_spell name names : name ≠ [] → 47 ∉ name → Forall (λ x, x ≠ [] ∧ 47 ∉ x) names →
  names_from name (spell names) = name :: names.
Proof.
  revert name. induction names as [|x names IH]; intros name Hne Hn Hall; cbn.
  - by rewrite bool_decide_false.
  - apply Forall_cons in Hall as [[Hx Hx47] Hall]. rewrite bool_decide_false by done. f_equal.
    change (concat (map (cons 47) names)) with (spell names). rewrite names_of_name by done. by apply IH.
Qed.
Lemma path_names_spell names : Forall (λ x, x ≠ [] ∧ 47 ∉ x) names → path_names (spell names) = names.
Proof.
  destruct names as [|x names]; [done|]. intros [[Hx Hx47] Hall]%Forall_cons. cbn.
  change (concat (map (cons 47) names)) with (spell names).
  unfold path_names. rewrite names_of_name by done. by apply names_spell.
Qed.
End up.

(** ** Splitting and restoring *)

Lemma zget_app_r (a b : list Z) i : 0 <= i → (a ++ b).[Z.of_nat (length a) + i] = b.[i].
Proof. intros Hi. rewrite !zget_lookup by lia. rewrite lookup_app_r by lia. f_equal. lia. Qed.
Lemma zget_app_l (a b : list Z) i : i < Z.of_nat (length a) → (a ++ b).[i] = a.[i].
Proof. intros Hi. unfold zget. case_decide; [|done]. apply lookup_app_l. lia. Qed.

(** Back over trailing slashes. *)
Lemma back_slashes buf fuel k t : (t < fuel)%nat → (∀ i, k <= i < k + Z.of_nat t → buf.[i] = Some 47) →
  (∃ ch, buf.[k - 1] = Some ch ∧ ch ≠ 47) →
  loop fuel (λ res, ch ← buf.[res]; Some (if ch =? 47 then inl (res - 1) else inr res)) (k + Z.of_nat t - 1) = Some (k - 1).
Proof.
  revert t. induction fuel as [|fuel IH]; intros t Hf Hs Hk; [lia|]. rewrite loop_S. destruct t as [|t].
  - replace (k + Z.of_nat 0 - 1) with (k - 1) by lia. destruct Hk as (ch & -> & Hch). bind_red.
    by destruct (Z.eqb_spec ch 47).
  - rewrite (Hs (k + Z.of_nat (S t) - 1)) by lia. bind_red. change (47 =? 47) with true. cbv match.
    replace (k + Z.of_nat (S t) - 1 - 1) with (k + Z.of_nat t - 1) by lia. apply IH; [lia| |done]. intros i Hi. apply Hs. lia.
Qed.

(** Back over a name to the slash before it, or to the start. *)
Lemma back_name buf fuel k n acc : (n < fuel)%nat → 0 <= k → (∀ i, k <= i < k + Z.of_nat n → ∃ ch, buf.[i] = Some ch ∧ ch ≠ 47) →
  k = 0 ∨ buf.[k - 1] = Some 47 →
  loop fuel (λ '(len_of_name, res),
    if res <? 0 then Some (inr (len_of_name, res)) else
    ch ← buf.[res]; Some (if ch =? 47 then inr (len_of_name, res) else inl (len_of_name + 1, res - 1))) (acc, k + Z.of_nat n - 1)
  = Some (acc + Z.of_nat n, k - 1).
Proof.
  revert n acc. induction fuel as [|fuel IH]; intros n acc Hf Hk0 Hs Hk; [lia|]. rewrite loop_S. destruct n as [|n].
  - replace (k + Z.of_nat 0 - 1) with (k - 1) by lia. rewrite Z.add_0_r. destruct (Z.ltb_spec (k - 1) 0); [done|].
    destruct Hk as [|Hk]; [lia|]. by rewrite Hk.
  - destruct (Z.ltb_spec (k + Z.of_nat (S n) - 1) 0); [lia|].
    destruct (Hs (k + Z.of_nat (S n) - 1)) as (ch & -> & Hch); [lia|]. bind_red. destruct (Z.eqb_spec ch 47); [done|].
    replace (k + Z.of_nat (S n) - 1 - 1) with (k + Z.of_nat n - 1) by lia. rewrite IH; [f_equal; f_equal; lia|lia|done| |done].
    intros i Hi. apply Hs. lia.
Qed.

(** The first NUL. *)
Lemma find_nul buf fuel k n : (n < fuel)%nat → 0 <= k → (∀ i, k <= i < k + Z.of_nat n → ∃ ch, buf.[i] = Some ch ∧ ch ≠ 0) →
  buf.[k + Z.of_nat n] = Some 0 →
  loop fuel (λ i, ch ← buf.[i]; Some (if ch =? 0 then inr i else inl (i + 1))) k = Some (k + Z.of_nat n).
Proof.
  revert n k. induction fuel as [|fuel IH]; intros n k Hf Hk0 Hs Hz; [lia|]. rewrite loop_S. destruct n as [|n].
  - rewrite Z.add_0_r in *. by rewrite Hz.
  - destruct (Hs k) as (ch & -> & Hch); [lia|]. bind_red. destruct (Z.eqb_spec ch 0); [done|].
    rewrite (IH n (k + 1)); [f_equal; lia|lia|lia| |by replace (k + 1 + Z.of_nat n) with (k + Z.of_nat (S n)) by lia].
    intros i Hi. apply Hs. lia.
Qed.

Lemma zget_notin (l : list Z) x i : x ∉ l → 0 <= i < Z.of_nat (length l) → ∃ ch, l.[i] = Some ch ∧ ch ≠ x.
Proof.
  intros Hx Hi. destruct (zget_is_Some l i Hi) as [ch Hch]. exists ch. split; [done|]. intros ->.
  rewrite zget_lookup in Hch by lia. apply Hx. by eapply list_elem_of_lookup_2.
Qed.

Lemma split_path_spec dir name t : name ≠ [] → 47 ∉ name → dir = [] ∨ last dir = Some 47 →
  vfs_helper_split_path_with_name (dir ++ name ++ replicate t 47 ++ [0]) (Z.of_nat (length (dir ++ name) + t)) =
  Some (Some (dir ++ 0 :: tail name ++ replicate t 47 ++ [0], name)).
Proof.
  intros Hne Hn Hdir. unfold vfs_helper_split_path_with_name. rewrite length_app.
  assert (0 < length name)%nat by (destruct name; [done|cbn; lia]).
  destruct (Z.eqb_spec (Z.of_nat (length dir + length name + t)) 0); [lia|].
  set (buf := dir ++ name ++ replicate t 47 ++ [0]).
  assert (length buf = (length dir + length name + t + 1)%nat) as Hl.
  { unfold buf. rewrite !length_app, length_replicate. cbn. lia. }
  assert (∀ i, 0 <= i < Z.of_nat (length name) → buf.[Z.of_nat (length dir) + i] = name.[i]) as Hname.
  { intros i Hi. unfold buf. rewrite zget_app_r by lia. apply zget_app_l. lia. }
  replace (Z.of_nat (length dir + length name + t) - 1) with (Z.of_nat (length dir + length name) + Z.of_nat t - 1) by lia.
  rewrite back_slashes; [|lia| |].
  2:{ intros i Hi. unfold buf. replace i with (Z.of_nat (length dir) + (Z.of_nat (length name) + (i - Z.of_nat (length dir + length name)))) by lia.
      rewrite zget_app_r by lia. rewrite zget_app_r by lia. rewrite zget_app_l by (rewrite length_replicate; lia).
      rewrite zget_lookup by lia. apply lookup_replicate_2. lia. }
  2:{ replace (Z.of_nat (length dir + length name) - 1) with (Z.of_nat (length dir) + (Z.of_nat (length name) - 1)) by lia.
      rewrite Hname by lia. apply zget_notin; [done|lia]. }
  bind_red. replace (Z.of_nat (length dir + length name) - 1) with (Z.of_nat (length dir) + Z.of_nat (length name) - 1) by lia.
  rewrite back_name; [|lia|lia| |].
  2:{ intros i Hi. replace i with (Z.of_nat (length dir) + (i - Z.of_nat (length dir))) by lia. rewrite Hname by lia.
      apply zget_notin; [done|lia]. }
  2:{ destruct Hdir as [->|Hd]; [by left|]. destruct dir as [|x dir]; [done|]. right. unfold buf. rewrite zget_app_l by lia.
      rewrite last_lookup in Hd. rewrite zget_lookup by (cbn; lia). rewrite <- Hd. f_equal. cbn. lia. }
  bind_red. replace (Z.of_nat (length dir) - 1 + 1) with (Z.of_nat (length dir)) by lia.
  assert (zread buf (Z.of_nat (length dir)) (0 + Z.of_nat (length name)) = Some name) as ->.
  { rewrite zread_in by lia. f_equal. unfold buf. rewrite Nat2Z.id, drop_app_length.
    replace (Z.to_nat (0 + Z.of_nat (length name))) with (length name) by lia. apply take_app_length. }
  bind_red. rewrite zset_in by lia. bind_red. do 3 f_equal. unfold buf. rewrite Nat2Z.id.
  rewrite insert_app_r_alt, Nat.sub_diag by lia. by destruct name.
Qed.

Lemma restore_spec dir name rest : name ≠ [] → 0 ∉ dir →
  vfs_helper_restore_full_path_after_split (dir ++ 0 :: tail name ++ rest) name = Some (dir ++ name ++ rest).
Proof.
  intros Hne Hd. unfold vfs_helper_restore_full_path_after_split.
  rewrite (find_nul _ _ 0 (length dir)).
  - bind_red. destruct name as [|ch name]; [done|]. change (((ch :: name) ++ [0]).[0]) with (Some ch). bind_red.
    rewrite zset_in by (rewrite length_app; cbn; lia). rewrite Z.add_0_l, Nat2Z.id, insert_app_r_alt, Nat.sub_diag by lia. done.
  - rewrite length_app. lia.
  - done.
  - intros i Hi. rewrite zget_app_l by lia. apply zget_notin; [done|lia].
  - rewrite Z.add_0_l. rewrite <- (Z.add_0_r (Z.of_nat (length dir))), zget_app_r by lia. done.
Qed.

Lemma path_names_slashes t name : names_from name (replicate t 47) = if bool_decide (name = []) then [] else [name].
Proof.
  revert name. induction t as [|t IH]; intros name; [done|]. cbn [replicate names_from]. change (47 =? 47) with true. cbv match.
  rewrite IH. rewrite (bool_decide_true (@nil Z = [])) by done. by case_bool_decide.
Qed.
Lemma names_from_dir dir rest after : dir = [] ∨ last dir = Some 47 → (dir = [] → rest = []) →
  names_from rest (dir ++ after) = names_from rest dir ++ names_from [] after.
Proof.
  revert rest. induction dir as [|ch dir IH]; intros rest Hd Hr.
  - rewrite Hr by done. by rewrite !app_nil_l.
  - cbn [names_from app]. destruct Hd as [|Hd]; [done|].
    assert (dir = [] ∨ last dir = Some 47) as Hd' by (destruct dir; [by left|by right]).
    destruct (Z.eqb_spec ch 47) as [->|Hch].
    + case_bool_decide.
      * apply IH; [done|done].
      * cbn. f_equal. by apply IH.
    + apply IH; [done|]. intros ->. cbn in Hd. congruence.
Qed.
Lemma path_names_split dir name t : name ≠ [] → 47 ∉ name → dir = [] ∨ last dir = Some 47 →
  path_names (dir ++ name ++ replicate t 47) = path_names dir ++ [name].
Proof.
  intros Hne Hn Hd. unfold path_names. rewrite names_from_dir by done. f_equal.
  rewrite names_of_name by done. rewrite path_names_slashes. by rewrite bool_decide_false.
Qed.

(** ** Properties *)

Section properties.
Context `{Platform} `{!InodeOps D, !InodeStore D, !FileSystem D} (junk_inode : inode_t) `{!Directories D junk_inode}.

End properties.

(** C31. The absolute path of a dentry spells the names on its way up to the root:
    [vfs_get_absolute_path] writes them into a buffer that is long enough, with
    slashes before them and a NUL after them, and the path is split into the same
    names again when it is resolved. *)
Theorem vfs_absolute_path_spells `{Platform} {D} (c : cache D) root p names b len : let n := length (spell names) in
  up c root p (rev names) → names ≠ [] → Forall (λ x, x ≠ [] ∧ 47 ∉ x) names →
  Z.of_nat n + 1 <= len → (n + 1 <= length b)%nat →
  ∃ path, vfs_get_absolute_path c root p (Some b) len = Some (Z.of_nat n + 1, Some (path ++ [0] ++ drop (n + 1) b)) ∧
    length path = n ∧ is_absolute path = true ∧ path_names path = names.
Proof.
  cbv zeta. intros Hu Hne Hall Hlen Hb. exists (spell names). split; [by apply absolute_path_spec|].
  split; [done|]. split; [by destruct names|]. by apply path_names_spell.
Qed.

(** Splitting the last name off a path, in place, and putting it back.
    [vfs_helper_split_path_with_name] cuts the buffer after the directory's path
    and answers with the name, trailing slashes left out; the names of the path
    are those of the directory and this one, and
    [vfs_helper_restore_full_path_after_split] makes the buffer as it was. *)
Theorem vfs_split_restore dir name t : name ≠ [] → 47 ∉ name → 0 ∉ dir → dir = [] ∨ last dir = Some 47 →
  let path := dir ++ name ++ replicate t 47 in
  ∃ rest, vfs_helper_split_path_with_name (path ++ [0]) (Z.of_nat (length path)) = Some (Some (dir ++ 0 :: rest, name)) ∧
    vfs_helper_restore_full_path_after_split (dir ++ 0 :: rest) name = Some (path ++ [0]) ∧
    path_names path = path_names dir ++ [name].
Proof.
  intros Hne Hn Hz Hd path. exists (tail name ++ replicate t 47 ++ [0]). split; [|split; [|by apply path_names_split]].
  - unfold path. rewrite <- !app_assoc. rewrite <- (split_path_spec dir name t Hne Hn Hd).
    f_equal. rewrite !length_app, length_replicate. lia.
  - rewrite restore_spec by done. unfold path. by rewrite <- !app_assoc.
Qed.
