(* ===== verification/Ext2Vfs.v ===== *)
(** * Ext2Vfs: ext2 behind the cache of dentries

    The functions of [kernel/fs/ext2/ext2.c] that the virtual file system calls,
    over the dentries of the cache: looking up, creating and removing files and
    directories, status. The functions of [Ext2Dir.v] work on the number, the inode
    and the dirty flag of a dentry, which are taken from its slot and put back; ext2
    is an instance of the interfaces of [Dentry.v] and [Vfs.v]. *)
From stdpp Require Import gmap.
From S2P Require Import Prelude Platform Bitmap Memory Umem Ext2Dev Ext2Alloc Ext2File Ext2Dir Dentry Vfs.

(** A mounted device: [vfsdev->fsdata]. *)
Record ext2_dev := { e_sb : superblock_t; e_fs : fs_t }.
Definition with_fs (v : ext2_dev) (s : fs_t) : ext2_dev := {| e_sb := e_sb v; e_fs := s |}.

(** What the functions of ext2 see of a dentry. *)
Definition to_ext2 (count ino : Z) (i : inode_t) (dirty : bool) : dentry_t :=
  {| Ext2File.d_count := count; Ext2File.inode_indx := ino; Ext2File.inode := i; Ext2File.dirty := dirty |}.

(** [ext2_read_inode], [ext2_write_inode] and [ext2_free_inode] as the cache calls them. *)
#[global] Instance ext2_inode_ops : InodeOps ext2_dev := {|
  read_inode v ino i :=
    d ← ext2_read_inode (e_sb v) (e_fs v) (to_ext2 1 ino i false); Some (0, Ext2File.inode d);
  write_inode v ino i :=
    s ← ext2_write_inode (e_sb v) (e_fs v) (to_ext2 1 ino i false); Some (with_fs v s);
  free_inode := Some (λ v count ino i,
    '(s, d) ← ext2_free_inode (e_sb v) (e_fs v) (to_ext2 count ino i false); Some (with_fs v s, Ext2File.inode d));
|}.

(** [types.h]: [MINORBITS] is 20. *)
Definition MKDEV (ma mi : Z) : Z := Z.lor (Z.shiftl ma 20) mi.

Section ext2.
Context `{Platform} (junk : Z) (junk_inode : inode_t).
Abbreviation ecache := (cache ext2_dev).
Implicit Types (c : ecache) (p : Z).

Definition dentry_of c p : option dentry_t :=
  d ← slot c p; i ← load_inode c (inode_ptr d);
  Some (to_ext2 (d_count d) (inode_indx d) i (TEST_FLAG (d_flags d) DENTRY_DIRTY)).
(** The inode and the dirty flag of the dentry as a function left them. *)
Definition store_dentry c p (e : dentry_t) : option ecache :=
  d ← slot c p;
  c ← store_inode c (inode_ptr d) (Ext2File.inode e);
  if Ext2File.dirty e then dentry_set_flag_locked c p DENTRY_DIRTY else Some c.

Definition fs_of c p : option ext2_dev := d ← slot c p; devs c !! dev_indx d.
Definition set_fs c p (s : fs_t) : option ecache :=
  d ← slot c p; v ← devs c !! dev_indx d;
  Some (with_devs c (<[dev_indx d := with_fs v s]> (devs c))).

(** A function on a directory and another dentry of the same device. *)
Definition on_dentries c dir child (f : fs_t → dentries → option (outcome (Z * fs_t * dentries)))
  : option (outcome (Z * ecache)) :=
  d ← dentry_of c dir; e ← dentry_of c child; v ← fs_of c dir;
  '(err, s, ds) ←! f (e_fs v) (<[child := e]> {[dir := d]});
  d ← ds !! dir; e ← ds !! child;
  c ← set_fs c dir s; c ← store_dentry c dir d; c ← store_dentry c child e;
  Some (Returned (err, c)).

Definition vfs_ext2_lookup c dir (name : list Z) (len : Z) : option (Z * Z * ecache) :=
  c ← spinlock_acquire c dir;
  sd ← slot c dir; d ← dentry_of c dir; v ← fs_of c dir;
  r ← ext2_lookup (e_sb v) (e_fs v) d name len;
  match r with
  | Some res_inode_indx =>
      '(res, c) ← dentry_get junk_inode c (dev_indx sd) res_inode_indx;
      c ← spinlock_release c dir; Some (0, res, c)
  | None => c ← spinlock_release c dir; Some (- ENOENT, 0, c)
  end.

(** The end of [ext2_create] and [ext2_mkdir]: both locks are given back. *)
Definition put_new c dir new (err : Z) : option (outcome (Z * ecache)) :=
  c ← spinlock_release c new;
  c ← dentry_put c new;
  c ← spinlock_release c dir; Some (Returned (err, c)).

(** A new inode, set up by [setup], under the name. *)
Definition new_child c dir (name : list Z) (len : Z) (setup : ecache → Z → option (outcome (Z * ecache)))
  : option (outcome (Z * ecache)) :=
  c ← spinlock_acquire c dir;
  sd ← slot c dir; v ← fs_of c dir;
  '(r, s) ← _ext2_allocate_inode_index (e_sb v) (e_fs v) 0;
  c ← set_fs c dir s;
  match r with
  | None => c ← spinlock_release c dir; Some (Returned (- ENOSPC, c))
  | Some new_inode_indx =>
      '(new, c) ← dentry_get junk_inode c (dev_indx sd) new_inode_indx;
      c ← spinlock_acquire c new;
      '(err, c) ←! setup c new;
      if err <? 0 then put_new c dir new (- EFAULT) else
      '(err, c) ←! on_dentries c dir new (λ s ds, _ext2_add_child (e_sb v) junk s ds dir new name len);
      put_new c dir new (if err <? 0 then - EFAULT else 0)
  end.

Definition ext2_create c dir (name : list Z) (len mode uid gid : Z) : option (outcome (Z * ecache)) :=
  new_child c dir name len (λ c new,
    d ← dentry_of c new;
    c ← store_dentry c new (_ext2_setup_file d mode uid gid); Some (Returned (0, c))).

Definition ext2_mkdir c dir (name : list Z) (len mode uid gid : Z) : option (outcome (Z * ecache)) :=
  new_child c dir name len (λ c new,
    v ← fs_of c dir;
    on_dentries c dir new (λ s ds, _ext2_setup_dir (e_sb v) junk s ds new dir mode uid gid)).

(** One link less, without the dirty flag. *)
Definition drop_link c p : option ecache :=
  d ← slot c p; i ← load_inode c (inode_ptr d);
  store_inode c (inode_ptr d) (set_links_count i (links_count i - 1)).

Definition ext2_rmdir c dir : option (outcome (Z * ecache)) :=
  '(parent_dir, c) ← dentry_get_parent c dir;
  c ← spinlock_acquire c dir;
  if parent_dir =? 0 then c ← spinlock_release c dir; Some (Returned (- EPERM, c)) else
  v ← fs_of c dir; d ← dentry_of c dir;
  empty ← _ext2_is_dir_empty (e_sb v) (e_fs v) d;
  if negb empty then c ← spinlock_release c dir; Some (Returned (- ENOTEMPTY, c)) else
  c ← spinlock_acquire c parent_dir;
  '(err, c) ←! on_dentries c parent_dir dir (λ s ds, _ext2_rm_child (e_sb v) s ds parent_dir dir);
  if err <? 0 then
    c ← spinlock_release c parent_dir; c ← spinlock_release c dir; Some (Returned (- EFAULT, c))
  else
    c ← drop_link c parent_dir;
    c ← drop_link c dir;
    c ← spinlock_release c parent_dir; c ← spinlock_release c dir; Some (Returned (0, c)).

Definition ext2_rm c file : option (outcome (Z * ecache)) :=
  '(parent_dir, c) ← dentry_get_parent c file;
  c ← spinlock_acquire c file;
  if parent_dir =? 0 then c ← spinlock_release c file; Some (Returned (- EPERM, c)) else
  c ← spinlock_acquire c parent_dir;
  v ← fs_of c parent_dir;
  '(err, c) ←! on_dentries c parent_dir file (λ s ds, _ext2_rm_child (e_sb v) s ds parent_dir file);
  c ← spinlock_release c parent_dir; c ← spinlock_release c file;
  Some (Returned (if err <? 0 then - EFAULT else 0, c)).

(** [stat_t], without the fields that stay 0. *)
Record stat_t := { st_dev : Z; st_ino : Z; st_mode : Z; st_size : Z; st_uid : Z; st_gid : Z; st_blksize : Z;
  st_nlink : Z; st_blocks : Z; st_atim : Z; st_mtim : Z; st_ctim : Z }.

Definition ext2_fstat c p : option (stat_t * ecache) :=
  c ← spinlock_acquire c p;
  d ← slot c p; i ← load_inode c (inode_ptr d); v ← fs_of c p;
  let st := {| st_dev := MKDEV 0 (dev_indx d); st_ino := inode_indx d; st_mode := mode i; st_size := size i;
    st_uid := uid i; st_gid := gid i; st_blksize := BLOCK_LEN (e_sb v); st_nlink := links_count i;
    st_blocks := blocks i; st_atim := atime i; st_mtim := mtime i; st_ctim := ctime i |} in
  c ← spinlock_release c p; Some (st, c).

#[global] Instance ext2_file_system : FileSystem ext2_dev := {|
  fs_ops _ := {| op_lookup := Some vfs_ext2_lookup; op_create := Some ext2_create; op_unlink := Some ext2_rm;
    op_mkdir := Some ext2_mkdir; op_rmdir := Some ext2_rmdir; op_fchmod := true |};
|}.
End ext2.

(** ** What ext2 promises to the cache *)

(** Block [b] lies outside the tables of inodes, which are all that writing an
    inode changes. *)
Definition outside (v : ext2_dev) (b : Z) : Prop := ∀ i g, (gt (e_fs v)).[i] = Some g →
  1024 * (b + 1) <= 1024 * inode_table g ∨ 1024 * inode_table g + INODE_LEN * inodes_per_group (e_sb v) <= 1024 * b.

Definition ext2_same (v v' : ext2_dev) : Prop :=
  e_sb v' = e_sb v ∧ gt (e_fs v') = gt (e_fs v) ∧ length (dev (e_fs v')) = length (dev (e_fs v)) ∧
  (drive_ok (dev (e_fs v)) → drive_ok (dev (e_fs v'))) ∧
  ∀ b, outside v b → block_at (dev (e_fs v')) b = block_at (dev (e_fs v)) b.

#[global] Instance ext2_same_preorder : PreOrder ext2_same.
Proof.
  split; [done|]. intros v1 v2 v3 (Hs1 & Hg1 & Hl1 & Hd1 & Hb1) (Hs2 & Hg2 & Hl2 & Hd2 & Hb2).
  split; [congruence|]. split; [congruence|]. split; [congruence|]. split; [auto|].
  intros b Hb. rewrite Hb2; [by apply Hb1|]. intros i g. unfold outside in Hb. rewrite Hs1, Hg1. apply Hb.
Qed.

Definition ext2_ok (v : ext2_dev) : Prop :=
  log_block_size (e_sb v) = 0 ∧ fs_ok (e_sb v) (e_fs v) ∧ tables_ok (e_sb v) (e_fs v).

(** An inode no function reads. *)
Definition no_inode : inode_t := Build_inode_t 0 0 0 0 0 0 0 0 0 0 0 0 [] 0 0 0 0 0.

Definition ext2_stored (v : ext2_dev) (n : Z) : option inode_t :=
  if decide (1 <= n <= inodes_per_group (e_sb v) * Z.of_nat (length (gt (e_fs v)))) then
    Ext2File.inode <$> ext2_read_inode (e_sb v) (e_fs v) (to_ext2 1 n no_inode false)
  else None.

Lemma read_inode_any sb s n i j : 
  Ext2File.inode <$> ext2_read_inode sb s (to_ext2 1 n i false) = Ext2File.inode <$> ext2_read_inode sb s (to_ext2 1 n j false).
Proof.
  unfold ext2_read_inode, to_ext2. cbn [Ext2File.inode_indx]. destruct (inode_start sb s n) as [a|]; [|done]. bind_red.
  destruct (_ext2_read_from_dev (dev s) a INODE_LEN) as [b|]; [|done]. bind_red. by destruct (inode_of b).
Qed.

Lemma fs_ok_moved sb s s' : fs_ok sb s → gt s' = gt s → length (dev s') = length (dev s) → drive_ok (dev s') → fs_ok sb s'.
Proof.
  intros [Hd Hp Hi Hg Hgr Hdi] Eg El Hd'. constructor; try done; try (rewrite Eg; done).
  intros i g. rewrite Eg. unfold valid_block. rewrite El. apply Hgr.
Qed.

Lemma tables_ok_moved sb s s' : tables_ok sb s → gt s' = gt s → length (dev s') = length (dev s) → tables_ok sb s'.
Proof. intros [Hi Ha] Eg El. constructor; rewrite Eg; [rewrite El|]; done. Qed.

Lemma zread_byte (d : list Z) a n b : Forall byte d → zread d a n = Some b → Forall byte b.
Proof. intros Hd. unfold zread. case_decide; [|done]. intros [= <-]. by apply Forall_take, Forall_drop. Qed.

Lemma ext2_stored_some v n : ext2_ok v → inode_number (e_sb v) (e_fs v) n →
  ∃ i, ext2_stored v n = Some i ∧ inode_ok i.
Proof.
  intros (Hlog & Hs & Ht) Hn. unfold ext2_stored. rewrite decide_True by done.
  destruct (inode_at_ex _ Hlog _ n Hs Ht Hn) as (a & Hat & _ & Ha1 & Ha2).
  rewrite (inode_read_spec _ Hlog _ (to_ext2 1 n no_inode false) a Hs Ht Hat Hn).
  pose proof (fs_drive _ _ Hs) as [_ Hb]. unfold INODE_LEN in *.
  destruct (zread_is_Some (dev (e_fs v)) a 128) as [b E]; [lia|lia|lia|]. returns E.
  destruct (inode_of_Some b) as (i & -> & Hi & _); [by eapply zread_byte|apply zread_len in E; lia|].
  by exists i.
Qed.

#[global] Instance ext2_inode_store : InodeStore ext2_dev.
Proof.
  refine {| store_ok := ext2_ok; stored := ext2_stored; inode_fits := inode_ok; same_files := ext2_same |}.
  - intros v n i Hv E. destruct (decide (inode_number (e_sb v) (e_fs v) n)) as [Hn|Hn].
    + destruct (ext2_stored_some v n Hv Hn) as (j & Ej & Hj). congruence.
    + unfold ext2_stored in E. by rewrite decide_False in E.
  - intros v n i j Hv E. unfold ext2_stored in E. case_decide; [|done]. rewrite (read_inode_any _ _ n no_inode j) in E.
    cbn. destruct (ext2_read_inode (e_sb v) (e_fs v) (to_ext2 1 n j false)) as [d|]; [|done]. cbn in *. congruence.
  - intros v n i i0 (Hlog & Hs & Ht) E Hi.
    assert (inode_number (e_sb v) (e_fs v) n) as Hn by (unfold ext2_stored in E; by case_decide).
    destruct (inode_write_spec _ Hlog _ (to_ext2 1 n i false) Hs Ht Hi Hn) as (s' & Es & Eg & Hsame & Hother & Hb).
    destruct (inode_write_drive _ Hlog _ (to_ext2 1 n i false) s' Hs Ht Hi Hn Es) as [Hd El].
    exists (with_fs v s'). cbn [write_inode ext2_inode_ops]. rewrite Es. split; [done|].
    split; [split; [done|]; split; [by apply fs_ok_moved with (e_fs v)|by apply tables_ok_moved with (e_fs v)]|].
    split; [split; [done|]; split; [done|]; split; [done|]; split; [done|exact Hb]|].
    intros k. unfold ext2_stored. cbn [e_sb e_fs with_fs]. rewrite Eg. destruct (decide (k = n)) as [->|Hne].
    + rewrite decide_True by done. by rewrite (Hsame (to_ext2 1 n no_inode false)).
    + case_decide as Hk; [|done]. by rewrite (Hother (to_ext2 1 k no_inode false)).
Defined.

(** ** What ext2 promises to the resolution of paths *)

Lemma for_loop_ext {S R} n lo (f g : Z → S → option (S + R)) s :
  (∀ i s, lo <= i < lo + Z.of_nat n → f i s = g i s) → for_loop n lo f s = for_loop n lo g s.
Proof.
  revert lo s. induction n as [|n IH]; intros lo s E; [done|]. rewrite !for_loop_S, E by lia.
  destruct (g lo s) as [[]|]; [|done|done]. apply IH. intros i s' Hi. apply E. lia.
Qed.

Definition bitmaps_outside (v : ext2_dev) : Prop := ∀ i g, (gt (e_fs v)).[i] = Some g →
  outside v (block_bitmap g) ∧ outside v (inode_bitmap g).

Lemma used_moved v v' bitmap per n : ext2_same v v' → bitmaps_outside v →
  bitmap = block_bitmap ∨ bitmap = inode_bitmap →
  used bitmap per (e_fs v') n = used bitmap per (e_fs v) n.
Proof.
  intros (_ & Hg & _ & _ & Hb) Hout Hbm. unfold used. rewrite Hg. destruct ((gt (e_fs v)).[_]) as [g|] eqn:E; [|done].
  f_equal. apply Hb. destruct (Hout _ g E). by destruct Hbm as [-> | ->].
Qed.

Lemma alloc_ok_moved v v' : ext2_same v v' → bitmaps_outside v → alloc_ok (e_sb v) (e_fs v) → alloc_ok (e_sb v') (e_fs v').
Proof.
  intros Hsame Hout [Hs Hc Hf]. pose proof Hsame as (Esb & Eg & El & Hd & Hb). rewrite Esb. constructor.
  - apply fs_ok_moved with (e_fs v); [done..|]. apply Hd, (fs_drive _ _ Hs).
  - intros i g. rewrite Eg. intros Hg. rewrite (Hc i g Hg). by rewrite (Hb (block_bitmap g)) by apply (Hout i g Hg).
  - intros b. rewrite Eg, (used_moved v v') by (done || by left). intros Hr Hu. destruct (Hf b Hr Hu) as [Hv Hn].
    split; [unfold valid_block in *; by rewrite El|]. unfold is_bitmap in *. by rewrite Eg.
Qed.

(** What a function sees of a directory is its inode. *)
Definition dir_view (i : inode_t) : dentry_t := to_ext2 1 0 i false.

Section directories.
Context `{Platform} (junk : Z) (junk_inode : inode_t).

Definition ext2_find (v : ext2_dev) (i : inode_t) (name : list Z) : option Z :=
  match ext2_lookup (e_sb v) (e_fs v) (dir_view i) name (Z.of_nat (length name)) with
  | Some (Some ino) => Some ino
  | _ => None
  end.

(** The directory's blocks hold chains of entries in use. *)
Definition ext2_dir (v : ext2_dev) (i : inode_t) (n : Z) (f : Z → Z) (ess : Z → list entry) : Prop :=
  log_block_size (e_sb v) = 0 ∧ bitmaps_outside v ∧ directory (e_sb v) (e_fs v) (dir_view i) n f ess ∧
  (∀ k, 0 <= k < n → all_live (ess k) ∧ outside v (f k)) ∧ (12 < n → outside v (ind (dir_view i))).
Definition ext2_dir_ok (v : ext2_dev) (i : inode_t) : Prop := ∃ n f ess, ext2_dir v i n f ess.

Lemma ext2_dir_moved v v' i n f ess : ext2_same v v' → ext2_dir v i n f ess → ext2_dir v' i n f ess.
Proof.
  intros Hsame (Hlog & Hout & [Hao Hf Hb] & Hk & Hind). pose proof Hsame as (Esb & Eg & El & Hd & Eb).
  assert (∀ b, outside v b → outside v' b) as Ho by (intros b; unfold outside; by rewrite Esb, Eg).
  split; [by rewrite Esb|]. split; [intros j g; rewrite Eg; intros Hg; destruct (Hout j g Hg); auto|].
  split; [|split; [intros k Hkn; destruct (Hk k Hkn); auto|auto]].
  constructor; [by apply alloc_ok_moved with v| |].
  - apply file_ok_keeps with (e_fs v); [done| |intros ?; by apply Eb, Hind].
    split; [done|]. intros b (Hv & Hr & Hu & Hn). split; [unfold valid_block in *; by rewrite El|].
    rewrite Eg. split; [done|]. rewrite (used_moved v v') by (done || by left).
    split; [done|]. unfold is_bitmap in *. by rewrite Eg.
  - intros k Hkn. destruct (Hb k Hkn) as (Hdr & Hv & Hne & Hc). split; [by apply Hd|].
    split; [unfold valid_block in *; by rewrite El|]. split; [done|]. by rewrite Eb by apply (Hk k Hkn).
Qed.

Lemma ext2_lookup_blocks v i n f ess name : ext2_dir v i n f ess →
  ext2_lookup (e_sb v) (e_fs v) (dir_view i) name (Z.of_nat (length name)) =
  r ← for_loop (Z.to_nat n) 0 (λ k (_ : unit),
    Some (if (find_name (ess k) name).1 =? 0 then inr (find_name (ess k) name).2 else inl ())) ();
  Some (match r with inr ino => Some ino | inl _ => None end).
Proof.
  intros (Hlog & _ & Hdir & _). unfold ext2_lookup. cbv zeta. rewrite (dir_blocks_cnt _ Hlog _ _ n f ess Hdir).
  pose proof (fo_n _ _ _ _ (di_file _ _ _ _ _ _ Hdir)) as Hn.
  erewrite for_loop_ext; [done|]. intros k [] Hk.
  destruct (dir_get_block _ Hlog _ _ n f ess k Hdir) as [-> _]; [lia|]. bind_red.
  rewrite (lookup_spec _ Hlog _ (f k) (ess k)) by (apply (di_block _ _ _ _ _ _ Hdir); lia). bind_red.
  by destruct (find_name (ess k) name).
Qed.

(** The dentry that a function sees only matters by its inode. *)
Lemma ext2_lookup_view sb s count ino i dirty name len :
  ext2_lookup sb s (to_ext2 count ino i dirty) name len = ext2_lookup sb s (dir_view i) name len.
Proof. reflexivity. Qed.

#[global] Instance ext2_directories : Directories ext2_dev junk_inode (FileSystem0 := ext2_file_system junk junk_inode).
Proof.
  refine {| find_in := ext2_find; dir_ok := ext2_dir_ok |}.
  - intros v v' i Hs (n & f & ess & Hd). exists n, f, ess. exact (ext2_dir_moved v v' i n f ess Hs Hd).
  - intros v v' i name Hs (n & f & ess & Hd). unfold ext2_find.
    rewrite (ext2_lookup_blocks v i n f ess) by done. by rewrite (ext2_lookup_blocks v' i n f ess) by exact (ext2_dir_moved v v' i n f ess Hs Hd).
  - intros v i name ino (n & f & ess & Hlog & Ho & Hd & Hk & _). unfold ext2_find.
    destruct (dir_lookup_spec _ Hlog _ _ n f ess name Hd) as [(j & k & Hkn & Hin & _ & ->)|[_ ->]]; [apply Hk| |done].
    intros [= <-] ->. destruct (Hk k Hkn) as [Hl _]. unfold all_live in Hl. rewrite Forall_forall in Hl.
    apply list_elem_of_fmap in Hin as (e & [= E _] & He). by apply (Hl e He).
  - intros c p d v i name Hd Hl Hv Hi Hok. eexists. split; [reflexivity|].
    destruct (lock_unlock c p d Hd Hl) as (E1 & E2 & E3). unfold vfs_ext2_lookup. rewrite E1. bind_red.
    rewrite E3. bind_red. unfold dentry_of, fs_of. rewrite E3. bind_red.
    change (load_inode _ (inode_ptr (set_locked true d))) with (load_inode c (inode_ptr d)). rewrite Hi. bind_red.
    change (devs (with_slot c p (set_locked true d))) with (devs c). change (dev_indx (set_locked true d)) with (dev_indx d).
    rewrite Hv. bind_red. rewrite ext2_lookup_view. unfold ext2_find.
    destruct Hok as (n & f & ess & Hdir). rewrite (ext2_lookup_blocks v i n f ess) by done.
    destruct (for_loop (Z.to_nat n) 0 _ ()) as [[[]|ino]|] eqn:El; bind_red.
    + by rewrite E2.
    + done.
    + edestruct (for_loop_total (S := unit) (R := Z) (λ _ _, True) (λ _, True)) as (x & Ex & _); [| |rewrite Ex in El; done]; [done|].
      intros k [] _ _. by destruct (_ =? 0).
Defined.
End directories.

(** ** Examples *)

(** A tree on a drive of 32 blocks: the root is inode 2, in block 9, with the file
    [f], inode 12, and the directory [d], inode 13, in block 10, which has the file
    [x], inode 11. *)
Definition tree_inode (m : Z) (b : list Z) : inode_t :=
  Build_inode_t m 0 (1024 * Z.of_nat (length b)) 0 0 0 0 0 2 (2 * Z.of_nat (length b)) 0 0
    (b ++ replicate (15 - length b) 0) 0 0 0 0 0.
Definition root_entries : list entry :=
  [{| e_ino := 2; e_rec := 12; e_name := [46] |}; {| e_ino := 2; e_rec := 12; e_name := [46; 46] |};
   {| e_ino := 12; e_rec := 12; e_name := [102] |}; {| e_ino := 13; e_rec := 988; e_name := [100] |}].
Definition d_entries : list entry :=
  [{| e_ino := 13; e_rec := 12; e_name := [46] |}; {| e_ino := 2; e_rec := 12; e_name := [46; 46] |};
   {| e_ino := 11; e_rec := 1000; e_name := [120] |}].
Definition tree_drive : disk :=
  replicate 3072 0 ++ file_bitmap ++ [255; 31] ++ replicate 1022 0 ++
  replicate 128 0 ++ inode_bytes (tree_inode 0x41ed [9]) ++ replicate 1024 0 ++ inode_bytes (tree_inode 0x81a4 []) ++
  inode_bytes (tree_inode 0x81a4 []) ++ inode_bytes (tree_inode 0x41ed [10]) ++ replicate 384 0 ++ replicate 2048 0 ++
  concat (map entry_bytes root_entries) ++ concat (map entry_bytes d_entries) ++ replicate (21 * 1024) 0.
Definition tree_dev : ext2_dev := {| e_sb := file_sb; e_fs := {| dev := tree_drive; gt := [file_group] |} |}.
(** The cache when the drive is mounted. *)
Definition tree_cache : cache ext2_dev := Build_cache [] false ∅ 1 true 0 0 {[ 0 := tree_dev ]}.

Lemma tree_length : Z.of_nat (length tree_drive) = 32768.
Proof. vm_compute. reflexivity. Qed.
Lemma tree_drive_ok : drive_ok tree_drive.
Proof.
  split; [split; rewrite tree_length; [done|lia]|]. apply (bool_decide_unpack _). vm_compute. exact I.
Qed.
Lemma tree_bitmap : block_at tree_drive 3 = file_bitmap.
Proof. vm_compute. reflexivity. Qed.

Lemma tree_outside b : b <= 4 ∨ 7 <= b → outside tree_dev b.
Proof. intros Hb i g [-> ->]%zget_one. unfold INODE_LEN. simpl. lia. Qed.

Lemma tree_dir i b es : b = 9 ∨ b = 10 → block i = [b] ++ replicate 14 0 → blocks i = 2 → es ≠ [] → all_live es →
  chain (block_at tree_drive b) 0 es 1024 → ext2_dir_ok tree_dev i.
Proof.
  intros Hb Ei En Hne Hlive Hc. exists 1, (λ _, b), (λ _, es). split; [done|].
  split; [intros j g [-> ->]%zget_one; split; apply tree_outside; simpl; lia|].
  split; [|split; [intros k Hk; split; [done|apply tree_outside; lia]|lia]].
  assert (valid_block tree_drive b) as Hv by (unfold valid_block; rewrite tree_length; lia).
  constructor; [apply (drive_alloc_ok tree_drive tree_drive_ok tree_length tree_bitmap)| |intros k Hk; split; [apply tree_drive_ok|exact (conj Hv (conj Hne Hc))]].
  constructor; cbn [Ext2File.inode dir_view to_ext2]; [by rewrite Ei|lia|done| |lia| |intros; lia| |lia].
  - intros k Hk _. rewrite Ei. by assert (k = 0) as -> by lia.
  - intros k Hk. split; [done|]. cbn [gt e_fs tree_dev length]. split; [lia|]. split; [|intros [|]%drive_is_bitmap; lia].
    etrans; [apply (drive_used tree_drive tree_bitmap); lia|]. lia.
  - left. unfold ind. cbn [Ext2File.inode dir_view to_ext2]. by rewrite Ei.
Qed.

Ltac chain_by_computation := cbn [chain];
  repeat (split; [apply entry_at_dec; vm_compute; reflexivity|split; [vm_compute; discriminate|]]); done.

Lemma tree_root_dir : ext2_dir_ok tree_dev (tree_inode 0x41ed [9]).
Proof.
  apply (tree_dir _ 9 root_entries); [by left|done|done|done|repeat constructor; done|].
  unfold root_entries. chain_by_computation.
Qed.
Lemma tree_d_dir : ext2_dir_ok tree_dev (tree_inode 0x41ed [10]).
Proof.
  apply (tree_dir _ 10 d_entries); [by right|done|done|done|repeat constructor; done|].
  unfold d_entries. chain_by_computation.
Qed.

Lemma tree_ok : ext2_ok tree_dev.
Proof.
  split; [done|]. split; [apply (drive_fs_ok tree_drive tree_drive_ok tree_length)|].
  constructor; [intros i g [-> ->]%zget_one|intros i j g h [-> ->]%zget_one [-> ->]%zget_one; lia].
  cbn [dev e_fs tree_dev]. rewrite tree_length. unfold INODE_LEN. simpl. lia.
Qed.

Lemma tree_cache_ok : cache_ok tree_cache.
Proof.
  assert (∀ p d, slot tree_cache p = Some d → False) as Hno by (intros p d ?%slot_range; simpl in *; lia).
  constructor; try done; try (intros p d []%Hno); try (intros p d [[]%Hno _]);
    try (intros p q d e [[]%Hno _]).
  intros n v. cbn. intros [<- <-]%lookup_singleton_Some. apply tree_ok.
Qed.

#[local] Existing Instance x86_64.

Lemma tree_at_rest n m : 0 <= n <= 100 → at_rest tree_cache (λ _, 0) n m.
Proof.
  intros Hn. assert (∀ p d, slot tree_cache p = Some d → False) as Hno by (intros p d ?%slot_range; simpl in *; lia).
  constructor; [apply tree_cache_ok| | | | | |done].
  - intros p d [[]%Hno _].
  - intros p. split; [done|]. intros _ H. exfalso. vm_compute in H. done.
  - split; [done|]. split; [done|]. unfold INODE_LEN, DENTRY_SWAP_THRESHOLD_FOR_INODE_CACHE. cbn [stat_cached_inodes_area_size tree_cache]. lia.
  - intros p d []%Hno.
  - intros p d []%Hno.
Qed.

Definition junk_i : inode_t := no_inode.
#[local] Instance tree_system : FileSystem ext2_dev := ext2_file_system 0 junk_i.
#[local] Instance tree_directories : Directories ext2_dev junk_i := ext2_directories 0 junk_i.

Lemma dentry_get_transparent_witness : ∃ p c' d', dentry_get junk_i tree_cache 0 12 = Some (p, c') ∧
    slot c' p = Some d' ∧ dev_indx d' = 0 ∧ inode_indx d' = 12 ∧ load_inode c' (inode_ptr d') = Some (tree_inode 0x81a4 []) ∧
    (d_count d' = 1 ∨ ∃ d, slot tree_cache p = Some d ∧ d_count d' = d_count d + 1) ∧
    (∀ q e, slot c' q = Some e → dev_indx e = 0 → inode_indx e = 12 → q = p) ∧
    cache_ok c' ∧ tidy c' ∧ devs c' = devs tree_cache ∧ (∀ dv n, n ≠ 0 → view c' dv n = view tree_cache dv n) ∧
    (∀ d, slot tree_cache p = Some d → 0 < d_count d → refs_ok c' (add_ref (λ _, 0) p)).
Proof.
  pose proof (tree_at_rest 1 1 ltac:(lia)) as [].
  apply (dentry_get_transparent junk_i tree_cache 0 12 (tree_inode 0x81a4 []) (λ _, 0)); try done.
  all: intros q d Hq%slot_range; simpl in *; lia.
Defined.

Lemma tree_get n m ino i : 0 <= n <= 99 → 0 <= m < 2 ^ 31 - 1 → ino ≠ 0 → view tree_cache 0 ino = Some i →
  ∃ p c d, dentry_get junk_i tree_cache 0 ino = Some (p, c) ∧ at_rest c (add_ref (λ _, 0) p) n m ∧ p ≠ 0 ∧
    got tree_cache 0 ino i (λ _, 0) p c d.
Proof.
  intros Hn Hm Hino Hv. pose proof (tree_at_rest (1 + n) (1 + m) ltac:(lia)) as Har. pose proof Har as [Hc Ht Hr Hroom _ _ _].
  destruct (dentry_get_spec junk_i tree_cache 0 ino i (λ _, 0) Hc Ht Hr eq_refl Hino Hv) as (p & c & d & E & Hg); [done| | |].
  1, 2: intros q d Hq%slot_range; simpl in *; lia.
  exists p, c, d. split; [done|]. split; [|split; [|done]].
  - apply (got_rest tree_cache (λ _, 0) 0 ino i p c d n m Har); [lia|done|]. intros x [Hx%slot_range _]. simpl in *. lia.
  - pose proof (slot_range _ _ _ (gt_slot _ _ _ _ _ _ _ _ Hg)). lia.
Qed.

Lemma dentry_put_keeps_witness : ∃ p c, dentry_get junk_i tree_cache 0 12 = Some (p, c) ∧
  ∃ c', dentry_put c p = Some c' ∧ cache_ok c' ∧ tidy c' ∧ refs_ok c' (drop_ref (add_ref (λ _, 0) p) p) ∧
    devs_same (devs c) (devs c') ∧ (∀ dev ino, ino ≠ 0 → view c' dev ino = view c dev ino) ∧
    (∀ q d, slot c q = Some d → ∃ d', slot c' q = Some d' ∧ released d d') ∧
    stat_cached_dentries c' = usize (held_slots c' + 0).
Proof.
  destruct (tree_get 0 0 12 (tree_inode 0x81a4 [])) as (p & c & d & E & [] & Hp & _); [lia|lia|done|vm_compute; reflexivity|].
  exists p, c. split; [done|]. apply (dentry_put_keeps c p 0 (add_ref (λ _, 0) p)).
  constructor; [exact ar_ok|exact ar_tidy|exact ar_refs|exact ar_roomy| | |].
  - intros q x Hq Hl. by rewrite (ar_unlocked q x Hq) in Hl.
  - split; [exact Hp|]. unfold add_ref. rewrite decide_True by done. lia.
  - by rewrite Z.add_0_r.
Defined.

Lemma vfs_split_restore_witness :
  ∃ rest, vfs_helper_split_path_with_name ([97; 47; 98; 99; 47] ++ [0]) 5 = Some (Some ([97; 47] ++ 0 :: rest, [98; 99])) ∧
    vfs_helper_restore_full_path_after_split ([97; 47] ++ 0 :: rest) [98; 99] = Some ([97; 47; 98; 99; 47] ++ [0]) ∧
    path_names [97; 47; 98; 99; 47] = path_names [97; 47] ++ [[98; 99]].
Proof.
  apply (vfs_split_restore [97; 47] [98; 99] 1); [done| | |by right]; apply (bool_decide_unpack _); exact I.
Defined.

(** Three dentries: the root, [d] in it and [x] in that. *)
Definition three_dentries : cache ext2_dev := Build_cache
  [Build_dentry 2 0 2 1 false 0 0 0 0 0; Build_dentry 2 0 13 2 false 0 4 1 0 0; Build_dentry 1 0 11 3 false 0 5 2 0 0]
  false {[ 4 := Name [100]; 5 := Name [120] ]} 6 true 3 384 ∅.

Lemma vfs_absolute_path_spells_witness :
  ∃ path, vfs_get_absolute_path three_dentries 0 3 (Some (replicate 8 1)) 8 = Some (5, Some (path ++ [0; 1; 1; 1])) ∧
    length path = 4%nat ∧ is_absolute path = true ∧ path_names path = [[100]; [120]].
Proof.
  apply (vfs_absolute_path_spells three_dentries 0 3 [[100]; [120]] (replicate 8 1) 8); [|done| |vm_compute; done|vm_compute; lia].
  - cbn. eexists. split; [reflexivity|]. split; [by intros []|]. split; [reflexivity|]. split; [done|].
    eexists. split; [reflexivity|]. split; [by intros []|]. split; [reflexivity|]. split; [done|].
    eexists. split; [reflexivity|done].
  - repeat constructor; try done; apply (bool_decide_unpack _); exact I.
Defined.

Definition path_d_x : list Z := [47; 100; 47; 120].

Lemma tree_view ino i : view tree_cache 0 ino = Some i → is_Some (view tree_cache 0 ino).
Proof. intros ->. by eexists. Qed.

(** [/d/x] can be walked in any cache that shows the tree, with nothing mounted on the way. *)
Lemma tree_walkable c : devs c = devs tree_cache → (∀ ino, ino ≠ 0 → view c 0 ino = view tree_cache 0 ino) →
  plain c 0 2 → plain c 0 13 → plain c 0 11 → walkable junk_i c 0 2 (path_names path_d_x).
Proof.
  intros Hd Hv H2 H13 H11. change (path_names path_d_x) with [[100]; [120]].
  assert (∀ ino name, ino ≠ 0 → walk_step junk_i c 0 ino name = walk_step junk_i tree_cache 0 ino name) as Hs.
  { intros ino name Hi. unfold walk_step. by rewrite Hd, Hv. }
  split; [done|]. exists (tree_inode 0x41ed [9]), tree_dev.
  split; [rewrite Hv by done; vm_compute; reflexivity|]. split; [by rewrite Hd|]. split.
  { intros _. split; [apply tree_root_dir|]. intros _. vm_compute. discriminate. }
  rewrite Hs by done.
  assert (walk_step junk_i tree_cache 0 2 [100] = Some 13) as -> by (vm_compute; reflexivity). intros ? [= <-].
  split; [done|]. split; [rewrite Hv by done; apply (tree_view 13 (tree_inode 0x41ed [10])); vm_compute; reflexivity|].
  split; [done|]. exists (tree_inode 0x41ed [10]), tree_dev.
  split; [rewrite Hv by done; vm_compute; reflexivity|]. split; [by rewrite Hd|]. split.
  { intros _. split; [apply tree_d_dir|]. intros _. vm_compute. discriminate. }
  rewrite Hs by done.
  assert (walk_step junk_i tree_cache 0 13 [120] = Some 11) as -> by (vm_compute; reflexivity). intros ? [= <-].
  split; [done|]. split; [rewrite Hv by done; apply (tree_view 11 (tree_inode 0x81a4 [])); vm_compute; reflexivity|done].
Qed.

Lemma tree_walk c : devs c = devs tree_cache → (∀ ino, ino ≠ 0 → view c 0 ino = view tree_cache 0 ino) →
  walk junk_i c 0 2 (path_names path_d_x) = Some 11.
Proof.
  intros Hd Hv. change (path_names path_d_x) with [[100]; [120]].
  assert (∀ ino name, ino ≠ 0 → walk_step junk_i c 0 ino name = walk_step junk_i tree_cache 0 ino name) as Hs.
  { intros ino name Hi. unfold walk_step. by rewrite Hd, Hv. }
  cbn [walk]. rewrite Hs by done.
  assert (walk_step junk_i tree_cache 0 2 [100] = Some 13) as -> by (vm_compute; reflexivity). cbn [mbind option_bind].
  rewrite Hs by done. by assert (walk_step junk_i tree_cache 0 13 [120] = Some 11) as -> by (vm_compute; reflexivity).
Qed.

(** The file [f] is in use and something is mounted on it. *)
Lemma tree_mounted : ∃ c p d, at_rest c (add_ref (λ _, 0) p) 4 10 ∧ slot c p = Some d ∧
  TEST_FLAG (d_flags d) DENTRY_MOUNTPOINT = true ∧ dev_indx d = 0 ∧ inode_indx d = 12 ∧
  devs c = devs tree_cache ∧ (∀ ino, ino ≠ 0 → view c 0 ino = view tree_cache 0 ino) ∧
  ∀ q x, slot c q = Some x → inode_indx x = 12 ∨ inode_indx x = 0.
Proof.
  destruct (tree_get 4 10 12 (tree_inode 0x81a4 [])) as (p & c & d & _ & Har & Hp & Hg); [lia|lia|done|vm_compute; reflexivity|].
  pose proof Har as [Hc Ht Hr Hro Hu Hfew Hst].
  pose proof (gt_slot _ _ _ _ _ _ _ _ Hg) as Hd. destruct (gt_ident _ _ _ _ _ _ _ _ Hg) as (Ede & Edi & El).
  destruct (gt_env _ _ _ _ _ _ _ _ Hg) as (Edv & _).
  assert (d_flags d = 0) as Efl.
  { destruct (gt_case _ _ _ _ _ _ _ _ Hg) as [(x & [Hx%slot_range _] & _)|(_ & _ & _ & ? & _)]; [simpl in *; lia|done]. }
  assert (∀ q x, slot c q = Some x → q ≠ p → x = no_dentry) as Hback.
  { intros q x Hq Hqp. destruct (gt_back _ _ _ _ _ _ _ _ Hg q x Hq Hqp) as [Hx%slot_range|]; [simpl in *; lia|done]. }
  set (e := set_dflags 2 d). assert (valid c p d) as Hval by (split; [done|congruence]).
  assert (0 < d_count d) as Hpos by (eapply got_held; [exact Hg|apply tree_cache_ok]).
  assert (cache_ok (with_slot c p e)) as Hok.
  { apply cache_ok_with with d; try done; [cbn; lia|cbn; congruence|]. intros _.
    destruct (co_backed c Hc p d Hval) as (? & i & i0 & v & H1 & H2 & H3 & H4 & H5). split; [|done].
    split; [done|]. exists i, i0, v. do 4 (split; [done|]). intros _. apply H5. unfold is_dirty. by rewrite Efl. }
  assert (∀ q x, slot (with_slot c p e) q = Some x → (q = p ∧ x = e) ∨ q ≠ p ∧ slot c q = Some x) as Hs.
  { intros q x Hq. rewrite (slot_with c p d) in Hq by done. case_decide; [left; split; [done|congruence]|right; by split]. }
  exists (with_slot c p e), p, e. split; [|split; [by apply slot_with_eq with d|]].
  - constructor; try done.
    + intros q x [[[-> ->]|[_ Hq]]%Hs Hxi] Hx0 Hxl; [cbn in Hx0; lia|]. by apply (Ht q).
    + by apply refs_same with d.
    + intros q x [[-> ->]|[_ Hq]]%Hs; [done|by apply (Hu q)].
    + intros q x [[-> ->]|[_ Hq]]%Hs; [by apply (Hfew p d)|by apply (Hfew q x)].
    + change (stat_cached_dentries (with_slot c p e)) with (stat_cached_dentries c). rewrite Hst, (held_with c p d) by done.
      cbn [d_count set_dflags e]. rewrite !decide_True by done. f_equal. lia.
  - split; [done|]. split; [done|]. split; [done|]. split; [exact Edv|]. split.
    + intros ino Hi. rewrite (view_with c p d) by done. by apply (gt_view _ _ _ _ _ _ _ _ Hg).
    + intros q x [[-> ->]|[Hqp Hq]]%Hs; [by left|right; by rewrite (Hback q x Hq Hqp)].
Qed.


(** Results of the functions of the virtual file system on the tree. *)
Abbreviation resolve c path := (vfs_resolve_path_start_from junk_i c 0 0 path).
Definition on_path {A} c path (f : cache ext2_dev → Z → option A) : option A :=
  '(err, p, c) ← resolve c path; if err =? 0 then f c p else None.
Definition returned {A} (x : option (outcome (Z * A))) : option (Z * A) :=
  r ← x; match r with Returned y => Some y | SystemStop => None end.
(** The number of the inode that a path leads to, and the counts of all dentries. *)
Definition inode_of_path c path : option Z := on_path c path (λ c p, inode_indx <$> slot c p).
Definition counts (c : cache ext2_dev) : list Z := filter (λ n, n ≠ 0) (map d_count (data c)).

Example path_found : inode_of_path tree_cache path_d_x = Some 11.
Proof. vm_compute. reflexivity. Qed.
Example path_dots : inode_of_path tree_cache [47; 100; 47; 46; 46; 47; 46; 47; 102] = Some 12.
Proof. vm_compute. reflexivity. Qed.

(** [/..]: the root is its own parent, and its lock is held when it is looked for. *)
Example root_parent_hangs : resolve tree_cache [47; 46; 46] = None.
Proof. vm_compute. reflexivity. Qed.

(** A name that does not exist leaves the directory it was looked for in counted. *)
Example missing_name_leaks :
  (λ '(err, _, c), (err, counts c)) <$> resolve tree_cache [47; 100; 47; 121] = Some (- ENOENT, [1; 1]).
Proof. vm_compute. reflexivity. Qed.
Example found_name_counts : on_path tree_cache path_d_x (λ c p, c' ← dentry_put c p; Some (counts c, counts c')) = Some ([1; 1; 1], []).
Proof. vm_compute. reflexivity. Qed.

(** Resolving a path whose dentries are in use counts every directory on it once
    more, and forgets the reference that it had: this one is never given back. *)
Example resolved_twice_leaks : on_path tree_cache path_d_x (λ c p, on_path c path_d_x (λ c q,
  c ← dentry_put c q; c ← dentry_put c p; Some (counts c))) = Some [2; 1].
Proof. vm_compute. reflexivity. Qed.

Definition path_n : list Z := [47; 110].
Definition make_file c := on_path c [47] (λ c p, r ← returned (vfs_create c p [110] 1 0x1a4 0 0); c ← dentry_put r.2 p; Some (r.1, c)).
Definition make_dir c := on_path c [47] (λ c p, r ← returned (vfs_mkdir c p [110] 1 0x1ed 0 0); c ← dentry_put r.2 p; Some (r.1, c)).
(** What is left of the inode when the last user of the path is gone. *)
Definition removed c path (f : cache ext2_dev → Z → option (outcome (Z * cache ext2_dev))) : option (Z * list Z * option Z * option Z) :=
  on_path c path (λ c p,
    d ← slot c p; r ← returned (f c p); c ← dentry_put r.2 p;
    Some (r.1, counts c, inode_of_path c path, mode <$> view c 0 (inode_indx d))).

Example created_file : ('(err, c) ← make_file tree_cache; Some (err, counts c, inode_of_path c path_n, mode <$> view c 0 14)) =
  Some (0, [], Some 14, Some 0x81a4).
Proof. vm_compute. reflexivity. Qed.
Example created_dir : ('(err, c) ← make_dir tree_cache; Some (err, counts c, inode_of_path c (path_n ++ [47; 46; 46; 47; 110]))) =
  Some (0, [], Some 14).
Proof. vm_compute. reflexivity. Qed.

Example unlinked_file : ('(_, c) ← make_file tree_cache; removed c path_n vfs_unlink) = Some (0, [], None, Some 0).
Proof. vm_compute. reflexivity. Qed.
Example removed_dir : ('(_, c) ← make_dir tree_cache; removed c path_n vfs_rmdir) = Some (0, [], None, Some 0).
Proof. vm_compute. reflexivity. Qed.
Example full_dir_stays : removed tree_cache [47; 100] vfs_rmdir = Some (- ENOTEMPTY, [], Some 13, Some 0x41ed).
Proof. vm_compute. reflexivity. Qed.

(** Creating a name that exists, which was looked up and released before, takes a
    reference away from the directory: its user's own [dentry_put] then fails. *)
Example create_existing_steals : on_path tree_cache path_d_x (λ c x,
  c ← dentry_put c x;
  on_path c [47; 100] (λ c p, r ← returned (vfs_create c p [120] 1 0x1a4 0 0);
    Some (r.1, counts c, counts r.2, match dentry_put r.2 p with Some _ => true | None => false end))) =
  Some (- EEXIST, [1; 1], [], false).
Proof. vm_compute. reflexivity. Qed.
