(* ===== verification/Elf.v ===== *)
(** * Elf: loading programs, [kernel/tasking/elf.c]

    A program's segments become memory zones of its process; their pages are read
    from the file when they are first used. The function pointer [ops->read] of a
    file is a parameter: its result, and the bytes that it writes to the buffer.
    The headers are decoded from the bytes that were read, by the offsets of their
    fields. *)
From stdpp Require Import gmap.
From S2P Require Import Prelude Platform Memory Libkern Ext2Dev Vfs Mmu64 Dynarr Memzone.

(** ** What the targets define differently *)

Class ElfTarget := {
  elf_platform :: Platform;
  MACHINE_ARCH : Z;
  USER_STACK_SIZE : Z;
  user_stack_pages : on_page USER_STACK_SIZE;
  user_stack_size : 0 < USER_STACK_SIZE <= 2 ^ 22;
}.

Definition elf_x86 : ElfTarget.
Proof. by refine {| elf_platform := x86; MACHINE_ARCH := 0x03; USER_STACK_SIZE := Z.shiftl 16 10 |}. Defined.
Definition elf_arm32 : ElfTarget.
Proof. by refine {| elf_platform := arm32; MACHINE_ARCH := 0x28; USER_STACK_SIZE := Z.shiftl 16 10 |}. Defined.
Definition elf_x86_64 : ElfTarget.
Proof. by refine {| elf_platform := x86_64; MACHINE_ARCH := 0x3e; USER_STACK_SIZE := Z.shiftl 4 20 |}. Defined.
Definition elf_arm64 : ElfTarget.
Proof. by refine {| elf_platform := arm64; MACHINE_ARCH := 0xB7; USER_STACK_SIZE := Z.shiftl 4 20 |}. Defined.
Definition elf_riscv64 : ElfTarget.
Proof. by refine {| elf_platform := riscv64; MACHINE_ARCH := 0xF3; USER_STACK_SIZE := Z.shiftl 4 20 |}. Defined.

Definition EBADARCH : Z := 125.
Definition ET_EXEC : Z := 2.
Definition PT_LOAD : Z := 1.
Definition PF_X : Z := 1.
Definition PF_W : Z := 2.
Definition PF_R : Z := 4.
Definition SHT_PROGBITS : Z := 1.
Definition SHT_SYMTAB : Z := 2.
Definition SHT_STRTAB : Z := 3.
Definition SHT_NOBITS : Z := 8.
Definition SHT_INIT_ARRAY : Z := 14.
Definition SHT_FINI_ARRAY : Z := 15.
Definition SHT_PREINIT_ARRAY : Z := 16.
Definition SHF_ALLOC : Z := 2.
Definition ZONE_TYPE_NULL : Z := 0.
Definition ZONE_TYPE_CODE : Z := 1.
Definition ZONE_TYPE_DATA : Z := 2.
Definition ZONE_TYPE_BSS : Z := 8.
Definition ZONE_TYPE_STACK : Z := 4.

(** ** The headers *)

Section headers.
Context `{Target}.

(** The offset or the size of a field on 32 and on 64 bits. *)
Definition by_class (a b : Z) : Z := if decide (ptr_bits = 32) then a else b.

Record elf_header_t := {
  e_ident : list Z; e_type : Z; e_machine : Z; e_entry : Z; e_phoff : Z; e_shoff : Z; e_phnum : Z; e_shnum : Z; e_shstrndx : Z }.
Definition sizeof_elf_header : Z := by_class 52 64.
Definition elf_header_of (b : list Z) : option elf_header_t :=
  e_ident ← zread b 0 16; e_type ← field b 16 2; e_machine ← field b 18 2;
  e_entry ← field b 24 ptr_bytes; e_phoff ← field b (by_class 28 32) ptr_bytes; e_shoff ← field b (by_class 32 40) ptr_bytes;
  e_phnum ← field b (by_class 44 56) 2; e_shnum ← field b (by_class 48 60) 2; e_shstrndx ← field b (by_class 50 62) 2;
  Some {| e_ident := e_ident; e_type := e_type; e_machine := e_machine; e_entry := e_entry; e_phoff := e_phoff; e_shoff := e_shoff;
          e_phnum := e_phnum; e_shnum := e_shnum; e_shstrndx := e_shstrndx |}.

Record elf_program_header_t := { p_type : Z; p_offset : Z; p_vaddr : Z; p_filesz : Z; p_memsz : Z; p_flags : Z }.
Definition sizeof_elf_program_header : Z := by_class 32 56.
Definition elf_program_header_of (b : list Z) : option elf_program_header_t :=
  p_type ← field b 0 4; p_offset ← field b (by_class 4 8) ptr_bytes; p_vaddr ← field b (by_class 8 16) ptr_bytes;
  p_filesz ← field b (by_class 16 32) ptr_bytes; p_memsz ← field b (by_class 20 40) ptr_bytes; p_flags ← field b (by_class 24 4) 4;
  Some {| p_type := p_type; p_offset := p_offset; p_vaddr := p_vaddr; p_filesz := p_filesz; p_memsz := p_memsz; p_flags := p_flags |}.

Record elf_section_header_t := { sh_type : Z; sh_flags : Z; sh_addr : Z; sh_offset : Z; sh_size : Z }.
Definition sizeof_elf_section_header : Z := by_class 40 64.
Definition elf_section_header_of (b : list Z) : option elf_section_header_t :=
  sh_type ← field b 4 4; sh_flags ← field b 8 ptr_bytes; sh_addr ← field b (by_class 12 16) ptr_bytes;
  sh_offset ← field b (by_class 16 24) ptr_bytes; sh_size ← field b (by_class 20 32) ptr_bytes;
  Some {| sh_type := sh_type; sh_flags := sh_flags; sh_addr := sh_addr; sh_offset := sh_offset; sh_size := sh_size |}.

Record elf_sym_t := { st_name : Z; st_value : Z }.
Definition sizeof_elf_sym : Z := by_class 16 24.
Definition elf_sym_of (b : list Z) : option elf_sym_t :=
  st_name ← field b 0 4; st_value ← field b (by_class 4 8) ptr_bytes; Some {| st_name := st_name; st_value := st_value |}.
End headers.

Section elf.
Context `{ElfTarget}.

(** The file's [ops->read], if it has one: from where and how much. *)
Context (ops_read : Z → option (Z → Z → option (Z * list Z))).

Record file_descriptor_t := { fd_file : Z; fd_offset : Z }.
Definition seek (fd : file_descriptor_t) (o : Z) : file_descriptor_t := {| fd_file := fd_file fd; fd_offset := o |}.

(** [vfs_read], with the bytes that the buffer receives. *)
Definition vfs_read (fd : file_descriptor_t) (len : Z) : option (Z * list Z * file_descriptor_t) :=
  match ops_read (fd_file fd) with
  | None => Some (- ENOEXEC, [], fd)
  | Some read =>
      '(read, b) ← read (usize (fd_offset fd)) len;
      Some (read, b, if 0 <? read then seek fd (ssize (usize (fd_offset fd + read))) else fd)
  end.

(** ** The pages of a segment *)

Definition elf_vm_ops : Z := 1.
Definition PAGE_START (vaddr : Z) : Z := by_class (usize (Z.shiftl (Z.shiftr vaddr 12) 12)) (Z.land vaddr (usize (Z.lnot 0xfff))).

Definition _elf_load_page_content (zone : memzone_t) (vaddr_ : Z) (m : mem) : option (Z * mem) :=
  let page_start_ptr := PAGE_START vaddr_ in
  let offset_diff := usize (page_start_ptr - vaddr zone) in
  let offset := ssize (usize (file_offset zone + offset_diff)) in
  let rem_len := if offset_diff <? file_size zone then usize (file_size zone - offset_diff) else 0 in
  let rem_len := Z.min rem_len VMM_PAGE_SIZE in
  let '(rem_len, page_start_ptr, offset) :=
    if offset <? 0 then
      (if usize offset <? rem_len then usize (rem_len - (- offset)) else 0, usize (page_start_ptr + - offset), 0)
    else (rem_len, page_start_ptr, offset) in
  m ← (if rem_len <? VMM_PAGE_SIZE then '(_, m) ← memset (PAGE_START vaddr_) 0 VMM_PAGE_SIZE m; Some m else Some m);
  f ← file zone; read ← ops_read f;
  '(_, b) ← read offset rem_len;
  m ← put_bytes m page_start_ptr b;
  Some (0, m).

Definition SWAP_TO_DEV : Z := 0.
Definition _elf_swap_page_mode (zone : memzone_t) (vaddr_ : Z) : Z := SWAP_TO_DEV.

(** ** The zones *)

(** The access rights of a segment. *)
Definition segment_flags (p_flags : Z) : Z :=
  let fl := MMU_FLAG_NONPRIV in
  let fl := if TEST_FLAG p_flags PF_X then Z.lor fl MMU_FLAG_PERM_EXEC else fl in
  let fl := if TEST_FLAG p_flags PF_R then Z.lor fl MMU_FLAG_PERM_READ else fl in
  if TEST_FLAG p_flags PF_W then Z.lor fl MMU_FLAG_PERM_WRITE else fl.

(** An assignment through the pointer to a zone. *)
Definition set_zone (p : Z * Z) (f : memzone_t → memzone_t) (s : vm_address_space_t) : option vm_address_space_t :=
  z ← slot (zones s) p; v ← write_slot (zones s) p.1 p.2 (f z); Some (mk_aspace v (file_counts s)).

(** The zone of a segment. *)
Definition segment_zone (ph : elf_program_header_t) (f : Z) (z : memzone_t) : memzone_t :=
  let fix_ := usize (p_vaddr ph - PAGE_START (p_vaddr ph)) in
  mk_memzone (vaddr z) (len z) (segment_flags (p_flags ph)) ZONE_TYPE_NULL (Some f) (ssize (usize (p_offset ph - fix_)))
    (usize (p_filesz ph + fix_)) (Some elf_vm_ops).

Definition _elf_load_interpret_program_header_entry (fd : file_descriptor_t) (s : vm_address_space_t) :
    option (Z * file_descriptor_t * vm_address_space_t) :=
  '(err, b, fd) ← vfs_read fd sizeof_elf_program_header;
  if negb (err =? sizeof_elf_program_header) then Some (err, fd, s) else
  ph ← elf_program_header_of b;
  if p_type ph =? PT_LOAD then
    '(zone, s) ← memzone_new (p_vaddr ph) (p_memsz ph) s;
    match zone with
    | None => Some (0, fd, s)
    | Some zone => s ← file_duplicate (fd_file fd) s; s ← set_zone zone (segment_zone ph (fd_file fd)) s; Some (0, fd, s)
    end
  else Some (0, fd, s).

Definition set_type (t : Z) (z : memzone_t) : memzone_t :=
  mk_memzone (vaddr z) (len z) (mmu_flags z) t (file z) (file_offset z) (file_size z) (ops z).

(** The type that a section gives to its zone. *)
Definition section_type (t : Z) : option Z :=
  if t =? SHT_PROGBITS then Some ZONE_TYPE_CODE else
  if t =? SHT_NOBITS then Some ZONE_TYPE_BSS else
  if (t =? SHT_INIT_ARRAY) || (t =? SHT_FINI_ARRAY) || (t =? SHT_PREINIT_ARRAY) then Some ZONE_TYPE_DATA else None.

Definition _elf_load_interpret_section_header_entry (fd : file_descriptor_t) (s : vm_address_space_t) :
    option (Z * file_descriptor_t * vm_address_space_t) :=
  '(err, b, fd) ← vfs_read fd sizeof_elf_section_header;
  if negb (err =? sizeof_elf_section_header) then Some (err, fd, s) else
  sh ← elf_section_header_of b;
  if negb (TEST_FLAG (sh_flags sh) SHF_ALLOC) then Some (0, fd, s) else
  zone ← memzone_find (Some s) (sh_addr sh);
  match zone, section_type (sh_type sh) with
  | Some zone, Some t => s ← set_zone zone (set_type t) s; Some (0, fd, s)
  | _, _ => Some (0, fd, s)
  end.

(** The registers of the main thread that loading sets. *)
Record trapframe_t := { frame_pointer : Z; stack_pointer : Z; instruction_pointer : Z }.

Definition stack_flags : Z := Z.lor (Z.lor MMU_FLAG_PERM_READ MMU_FLAG_PERM_WRITE) MMU_FLAG_NONPRIV.
Definition stack_zone (z : memzone_t) : memzone_t :=
  mk_memzone (vaddr z) (len z) stack_flags ZONE_TYPE_STACK (file z) (file_offset z) (file_size z) (ops z).

(** Without a zone for the stack, its fields are written through a null pointer. *)
Definition _elf_load_alloc_stack (s : vm_address_space_t) (tf : trapframe_t) : option (Z * vm_address_space_t * trapframe_t) :=
  '(zone, s) ← memzone_new_random_backward USER_STACK_SIZE s;
  zone ← zone;
  s ← set_zone zone stack_zone s;
  z ← slot (zones s) zone;
  let top := usize (vaddr z + USER_STACK_SIZE) in
  Some (0, s, {| frame_pointer := top; stack_pointer := top; instruction_pointer := instruction_pointer tf |}).

Definition _elf_do_load (fd : file_descriptor_t) (header : elf_header_t) (s : vm_address_space_t) (tf : trapframe_t) :
    option (Z * file_descriptor_t * vm_address_space_t * trapframe_t) :=
  let fd := seek fd (ssize (e_phoff header)) in
  '(fd, s) ← for_n (Z.to_nat (e_phnum header)) 0 (λ _ '(fd, s),
    '(_, fd, s) ← _elf_load_interpret_program_header_entry fd s; Some (fd, s)) (fd, s);
  let fd := seek fd (ssize (e_shoff header)) in
  '(fd, s) ← for_n (Z.to_nat (e_shnum header)) 0 (λ _ '(fd, s),
    '(_, fd, s) ← _elf_load_interpret_section_header_entry fd s; Some (fd, s)) (fd, s);
  zone ← memzone_find (Some s) 0;
  s ← (match zone with Some _ => Some s | None => '(_, s) ← memzone_new 0 VMM_PAGE_SIZE s; Some s end);
  '(_, s, tf) ← _elf_load_alloc_stack s tf;
  Some (0, fd, s, {| frame_pointer := frame_pointer tf; stack_pointer := stack_pointer tf; instruction_pointer := e_entry header |}).

Definition elf_signature : list Z := [0x7F; 0x45; 0x4c; 0x46].

Definition elf_check_header (header : elf_header_t) : Z :=
  if negb (bool_decide (take 4 (e_ident header) = elf_signature)) then - ENOEXEC else
  if negb (e_type header =? ET_EXEC) then - ENOEXEC else
  if negb (e_machine header =? MACHINE_ARCH) then - EBADARCH else 0.

(** The result; [THIS_CPU->data_access_type] is the kernel's meanwhile. *)
Definition elf_load (fd : file_descriptor_t) (s : vm_address_space_t) (tf : trapframe_t) :
    option (Z * file_descriptor_t * vm_address_space_t * trapframe_t) :=
  '(err, b, fd) ← vfs_read fd sizeof_elf_header;
  if negb (err =? sizeof_elf_header) then Some (err, fd, s, tf) else
  header ← elf_header_of b;
  let err := elf_check_header header in
  if negb (err =? 0) then Some (err, fd, s, tf) else _elf_do_load fd header s tf.

(** ** Symbols *)

(** [data] is the mapped file; the offsets of the symbol table and of the table of
    strings, [None] for a null pointer. *)
Definition elf_find_symtab_unchecked (data : list Z) : option (option Z * Z * option Z) :=
  header ← elf_header_of data;
  for_n (Z.to_nat (e_shnum header)) 0 (λ i '(symtab, symtab_entries, strtab),
    sh ← zread data (usize (e_shoff header + i * sizeof_elf_section_header)) sizeof_elf_section_header ≫= elf_section_header_of;
    let '(symtab, symtab_entries) :=
      if sh_type sh =? SHT_SYMTAB then (Some (sh_offset sh), sh_size sh / sizeof_elf_sym) else (symtab, symtab_entries) in
    let strtab := if (sh_type sh =? SHT_STRTAB) && negb (e_shstrndx header =? i) then Some (sh_offset sh) else strtab in
    Some (symtab, symtab_entries, strtab)) (None, 0, None).

(** The name of the symbol, or -1. *)
Definition elf_find_function_in_symtab (symtab : list elf_sym_t) (ip : Z) : Z :=
  (foldl (λ '(prev, ans) sym,
    if (prev <=? st_value sym) && (st_value sym <=? ip) then (st_value sym, st_name sym) else (prev, ans)) (0, -1) symtab).2.

(** ** Reading *)

(** The file [f] has the bytes [content]. *)
Definition reads_as (f : Z) (content : list Z) : Prop := ∃ read, ops_read f = Some read ∧
  ∀ start len, 0 <= start → 0 <= len → start + len < 2 ^ 31 →
    read start len =
    if Z.of_nat (length content) <=? start then Some (0, [])
    else let n := Z.min len (Z.of_nat (length content) - start) in
      Some (n, take (Z.to_nat n) (drop (Z.to_nat start) content)).

Lemma reads_inside f content start n b : reads_as f content → start + n < 2 ^ 31 → 0 < n → zread content start n = Some b →
  ∃ read, ops_read f = Some read ∧ read start n = Some (n, b).
Proof.
  intros (read & Er & Hr) Hs Hn Hz. exists read. split; [done|]. unfold zread in Hz. destruct (decide _) as [E|]; [|done]. injection Hz as <-.
  rewrite Hr by lia. destruct (Z.leb_spec (Z.of_nat (length content)) start); [lia|]. by rewrite Z.min_l by lia.
Qed.

Lemma ssize_usize x : - 2 ^ (ptr_bits - 1) <= x < 2 ^ (ptr_bits - 1) → ssize (usize x) = x.
Proof.
  intros Hx. assert (2 ^ ptr_bits = 2 * 2 ^ (ptr_bits - 1)) as Hp by by destruct ptr_bits_cases as [-> | ->].
  unfold ssize, usize. rewrite Zplus_mod_idemp_l, Z.mod_small by lia. lia.
Qed.
Lemma half_bits : 2 ^ 31 <= 2 ^ (ptr_bits - 1).
Proof. by destruct ptr_bits_cases as [-> | ->]. Qed.

Lemma vfs_read_inside f content start n b : reads_as f content → 0 <= start → start + n < 2 ^ 31 → 0 < n → zread content start n = Some b →
  vfs_read {| fd_file := f; fd_offset := start |} n = Some (n, b, {| fd_file := f; fd_offset := start + n |}).
Proof.
  intros Hf Hs He Hn Hz. destruct (reads_inside f content start n b Hf He Hn Hz) as (read & Er & Hr). unfold vfs_read. cbn [fd_file fd_offset].
  pose proof ptr_bits_ge. pose proof half_bits. rewrite Er, usize_small, Hr by lia. bind_red. destruct (Z.ltb_spec 0 n); [|lia].
  unfold seek. cbn [fd_file]. by rewrite ssize_usize by lia.
Qed.

(** ** The content of a page *)

Lemma put_bytes_filled m a (b : list Z) : mapped m a (Z.of_nat (length b)) →
  ∃ m', put_bytes m a b = Some m' ∧ filled m m' a (Z.of_nat (length b)) (λ x, b.[x - a]).
Proof.
  revert m a. induction b as [|y b IH]; intros m a Hm; cbn [put_bytes]; [exists m; split; [done|by apply filled_nil]|].
  rewrite mset_mapped by (apply Hm; cbn [length]; lia). bind_red. destruct (IH (<[a := y]> m) (a + 1)) as (m' & -> & Hf).
  { apply mapped_insert. apply (mapped_sub _ _ _ _ _ Hm); cbn [length]; lia. }
  exists m'. split; [done|]. intros x. rewrite Hf. cbn [length]. destruct (decide (x = a)) as [->|Hne].
  - rewrite decide_False, decide_True, Z.sub_diag, lookup_insert_eq by lia. done.
  - rewrite lookup_insert_ne by done. destruct (decide (a + 1 <= x < a + 1 + Z.of_nat (length b))); [rewrite decide_True by lia|by rewrite decide_False by lia].
    rewrite !zget_lookup by lia. replace (Z.to_nat (x - a)) with (S (Z.to_nat (x - (a + 1)))) by lia. done.
Qed.

Definition page_of (x : Z) : Z := x - x mod VMM_PAGE_SIZE.

Lemma PAGE_START_is x : 0 <= x < 2 ^ ptr_bits → PAGE_START x = page_of x.
Proof.
  intros Hx. unfold PAGE_START, by_class. assert (Z.shiftl (Z.shiftr x 12) 12 = page_of x) as Hs.
  { rewrite Z.shiftr_div_pow2, Z.shiftl_mul_pow2 by done. unfold page_of. change (2 ^ 12) with VMM_PAGE_SIZE. pose proof (Z.div_mod x VMM_PAGE_SIZE ltac:(done)). unfold VMM_PAGE_SIZE in *. lia. }
  rewrite Hs. destruct (decide _) as [_|Hb].
  - pose proof (Z.mod_pos_bound x VMM_PAGE_SIZE eq_refl). pose proof (Z.mod_le x VMM_PAGE_SIZE ltac:(lia) eq_refl). apply usize_small. unfold page_of. lia.
  - rewrite <- Hs, <- Z.ldiff_ones_r, Z.ldiff_land by done. destruct ptr_bits_cases as [|E64]; [done|].
    assert (usize (Z.lnot 0xfff) = Z.land (Z.ones 64) (Z.lnot (Z.ones 12))) as -> by (unfold usize; by rewrite E64).
    by rewrite Z.land_assoc, Z.land_ones, Z.mod_small by (done || by rewrite E64 in Hx).
Qed.

Lemma zget_segment (content : list Z) o n i : 0 <= o → 0 <= i < n → (take (Z.to_nat n) (drop (Z.to_nat o) content)).[i] = content.[o + i].
Proof.
  intros Ho Hi. rewrite !zget_lookup by lia. rewrite lookup_take_lt, lookup_drop by lia. f_equal. lia.
Qed.

(** A segment that a program may have: its part of the file is there, begins at
    the place of its page where it begins in memory, and ends in user memory. *)
Record segment_ok (content : list Z) (ph : elf_program_header_t) : Prop := {
  seg_vaddr : 0 <= p_vaddr ph;
  seg_memsz : 0 < p_memsz ph;
  seg_end : p_vaddr ph + p_memsz ph <= USER_HIGH + 1;
  seg_offset : p_vaddr ph mod VMM_PAGE_SIZE <= p_offset ph;
  seg_filesz : 0 <= p_filesz ph <= p_memsz ph;
  seg_file : p_offset ph + p_filesz ph <= Z.of_nat (length content);
  seg_small : p_offset ph + p_memsz ph + VMM_PAGE_SIZE < 2 ^ 31;
}.

(** The zone that [elf_load] makes for a segment. *)
Definition fresh_zone (ph : elf_program_header_t) : memzone_t :=
  mk_memzone (page_of (p_vaddr ph)) (page_len (usize (p_memsz ph + p_vaddr ph mod VMM_PAGE_SIZE))) MMU_FLAG_NONPRIV 0 None 0 0 None.
Definition zone_of (ph : elf_program_header_t) (f : Z) : memzone_t := segment_zone ph f (fresh_zone ph).

Lemma segment_len content ph : segment_ok content ph →
  let n := p_memsz ph + p_vaddr ph mod VMM_PAGE_SIZE in usize n = n ∧ n <= page_len n < n + VMM_PAGE_SIZE ∧ page_len n <= USER_HIGH + 1.
Proof.
  intros Hs n. pose proof (seg_vaddr _ _ Hs). pose proof (seg_memsz _ _ Hs). pose proof (seg_end _ _ Hs). pose proof user_fits.
  unfold VMM_PAGE_SIZE in *. pose proof (Z.mod_pos_bound (p_vaddr ph) 4096). pose proof (Z.mod_le (p_vaddr ph) 4096).
  assert (0 <= n <= USER_HIGH + 1) by lia. rewrite usize_small by lia. split; [done|]. apply page_len_small; lia.
Qed.

Lemma zone_of_fields content ph f : segment_ok content ph → let fix_ := p_vaddr ph mod VMM_PAGE_SIZE in
  file_offset (zone_of ph f) = p_offset ph - fix_ ∧ file_size (zone_of ph f) = p_filesz ph + fix_ ∧ vaddr (zone_of ph f) = p_vaddr ph - fix_ ∧
  len (zone_of ph f) = page_len (p_memsz ph + fix_) ∧ file (zone_of ph f) = Some f.
Proof.
  intros Hs fix_. destruct (segment_len content ph Hs) as (Hu & _). pose proof half_bits. pose proof ptr_bits_ge. destruct Hs as [Hv Hm He Ho Hf Hc Hsm].
  pose proof user_fits. unfold zone_of, segment_zone. cbn [file_offset file_size vaddr len file fresh_zone]. rewrite PAGE_START_is by lia.
  fold fix_ in Hu, Ho. assert (0 <= fix_ < 4096) by by apply Z.mod_pos_bound. unfold page_of. fold fix_. unfold VMM_PAGE_SIZE in *.
  replace (p_vaddr ph - (p_vaddr ph - fix_)) with fix_ by lia. rewrite (usize_small fix_), Hu by lia.
  rewrite ssize_usize, usize_small by lia. done.
Qed.

(** C20. A page of a segment gets the bytes of the file that belong there; behind
    them, as in the part of the segment that is not in the file, it is zero. *)
Theorem elf_page_content f content ph v m : reads_as f content → segment_ok content ph →
  vaddr (zone_of ph f) <= v < zone_end (zone_of ph f) → mapped m (page_of v) VMM_PAGE_SIZE →
  ∃ m', _elf_load_page_content (zone_of ph f) v m = Some (0, m') ∧
    filled m m' (page_of v) VMM_PAGE_SIZE (λ x,
      if x <? p_vaddr ph + p_filesz ph then content.[p_offset ph + (x - p_vaddr ph)] else Some 0).
Proof.
  intros Hr Hs Hv Hm. destruct (zone_of_fields content ph f Hs) as (Eo & Es & Ea & El & Ef). destruct (segment_len content ph Hs) as (_ & Hpl & Hpu).
  unfold zone_end in Hv. rewrite Ea, El in Hv. unfold _elf_load_page_content. rewrite Eo, Es, Ea, Ef. cbv zeta.
  set (fix_ := p_vaddr ph mod VMM_PAGE_SIZE) in *. assert (0 <= fix_ < 4096) as Hfix by by apply Z.mod_pos_bound.
  destruct Hs as [Hv0 Hmsz He Ho Hf Hc Hsm]. fold fix_ in Ho. pose proof kernel_base_fits. pose proof user_kernel. pose proof half_bits. pose proof ptr_bits_ge.
  assert (fix_ <= p_vaddr ph) by (apply Z.mod_le; [lia|done]). unfold VMM_PAGE_SIZE in *. rewrite !PAGE_START_is by lia.
  assert (page_of v <= v < page_of v + 4096 ∧ page_of v mod 4096 = 0) as [HP HPm].
  { unfold page_of, VMM_PAGE_SIZE. pose proof (Z.mod_pos_bound v 4096). split; [lia|]. by rewrite Zminus_mod_idemp_r, Z.sub_diag. }
  set (P := page_of v) in *. clearbody P. assert (p_vaddr ph - fix_ <= P) as HaP.
  { assert ((p_vaddr ph - fix_) mod 4096 = 0) as Ham by (unfold fix_; by rewrite Zminus_mod_idemp_r, Z.sub_diag).
    apply Z.mod_divide in Ham as [q Hq], HPm as [r Hr']; [|done..]. nia. }
  rewrite (usize_small (P - (p_vaddr ph - fix_))) by lia. set (d := P - (p_vaddr ph - fix_)).
  assert (0 <= d < p_memsz ph + fix_ + 4096) as Hd by lia.
  rewrite ssize_usize by lia. destruct (Z.ltb_spec (p_offset ph - fix_ + d) 0) as [|_]; [lia|].
  set (rem := Z.min _ 4096). assert (rem = Z.max 0 (Z.min (p_filesz ph + fix_ - d) 4096)) as Erem.
  { unfold rem. destruct (Z.ltb_spec d (p_filesz ph + fix_)); [rewrite usize_small by lia|]; lia. }
  clearbody rem. assert (∃ m1, (if rem <? 4096 then '(_, m) ← memset P 0 4096 m; Some m else Some m) = Some m1 ∧ mapped m1 P 4096 ∧
    ∀ x, m1 !! x = if decide (P <= x < P + 4096) then (if rem <? 4096 then Some 0 else m !! x) else m !! x) as (m1 & -> & Hm1 & E1).
  { destruct (rem <? 4096).
    - destruct (memset_spec P 0 4096 m) as (m1 & -> & Hf1); [lia..|done|]. bind_red. exists m1. split; [done|]. split; [|exact Hf1].
      apply (mapped_filled _ _ _ _ _ _ _ Hf1); [by eexists|done].
    - exists m. split; [done|]. split; [done|]. intros x. by case_decide. }
  bind_red. destruct Hr as (read & -> & Hr). bind_red. rewrite Hr by lia.
  destruct (Z.leb_spec (Z.of_nat (length content)) (p_offset ph - fix_ + d)) as [Hlc|Hlc]; bind_red.
  - exists m1. split; [done|]. intros x. rewrite E1. assert (rem = 0) as -> by lia. case_decide; [|done].
    destruct (Z.ltb_spec x (p_vaddr ph + p_filesz ph)); [lia|done].
  - rewrite Z.min_l by lia. set (b := take _ _). assert (Z.of_nat (length b) = rem) as Hbl by (unfold b; rewrite length_take, length_drop; lia).
    destruct (put_bytes_filled m1 P b) as (m2 & -> & E2); [apply (mapped_sub _ _ _ _ _ Hm1); lia|]. bind_red. exists m2. split; [done|].
    intros x. rewrite E2, Hbl. destruct (decide (P <= x < P + 4096)) as [Hx|Hx].
    + destruct (decide (P <= x < P + rem)) as [Hx'|Hx'].
      * unfold b. rewrite zget_segment by lia. destruct (Z.ltb_spec x (p_vaddr ph + p_filesz ph)); [|lia]. f_equal. lia.
      * rewrite E1, decide_True by done. destruct (Z.ltb_spec rem 4096); [|lia]. destruct (Z.ltb_spec x (p_vaddr ph + p_filesz ph)); [lia|done].
    + rewrite decide_False by lia. rewrite E1. by rewrite decide_False by lia.
Qed.

(** ** The zones of a program *)

Definition same_range (z z' : memzone_t) : Prop := vaddr z' = vaddr z ∧ len z' = len z.
#[global] Instance same_range_preorder : PreOrder same_range.
Proof. split; [done|]. intros x y z [Hv Hl] [Hv' Hl']. split; congruence. Qed.

Lemma same_range_ok z z' : same_range z z' → zone_ok z → zone_ok z'.
Proof. intros [Hv Hl]. unfold zone_ok, zone_end. by rewrite Hv, Hl. Qed.
Lemma same_range_apart z1 z1' z2 z2' : same_range z1 z1' → same_range z2 z2' → apart z1 z2 → apart z1' z2'.
Proof. intros [Hv1 Hl1] [Hv2 Hl2]. unfold apart, zone_end. by rewrite Hv1, Hl1, Hv2, Hl2. Qed.

(** Whether zones are good and apart depends on where they are only. *)
Lemma zones_ok_same l l' : Forall2 same_range l l' → zones_ok l → zones_ok l'.
Proof.
  intros Hl. induction Hl as [|z z' l l' Hz Hl IH]; [done|]. intros (Hok & Hap & Hls). split; [by eapply same_range_ok|]. split; [|auto].
  clear IH Hls. induction Hl as [|y y' l l' Hy Hl IH]; constructor; apply Forall_cons in Hap as [Hzy Hap]; [by eapply same_range_apart|auto].
Qed.

(** The last zone is the new one. *)
Lemma new_last a n s p s' : memzone_new a n s = Some (Some p, s') → dynarr_get (zones s') (s32 (usize (v_size (zones s') - 1))) = Some p.
Proof.
  unfold memzone_new. intros (ok & _ & E)%bind_Some. destruct ok; cbn [negb] in E; [|done].
  apply bind_Some in E as ([[k i] v] & _ & E). apply bind_Some in E as (q & Eq & [= -> <-]). done.
Qed.
Lemma new_none a n s s' : memzone_new a n s = Some (None, s') → s' = s.
Proof.
  unfold memzone_new. intros (ok & _ & E)%bind_Some. destruct ok; cbn [negb] in E; [|by injection E].
  apply bind_Some in E as ([[k i] v] & _ & E). by apply bind_Some in E as (q & _ & ?).
Qed.
Lemma backward_new n s p s' : memzone_new_random_backward n s = Some (Some p, s') → ∃ a m, memzone_new a m s = Some (Some p, s').
Proof.
  unfold memzone_new_random_backward. intros ([r s1] & E1 & E)%bind_Some. destruct r as [q|]; [injection E as -> ->; eauto|].
  apply new_none in E1 as ->. apply bind_Some in E as (m & _ & E). destruct (m =? 0); [done|eauto].
Qed.
Lemma new_capacity a n s r s' l : holds (zones s) l → total_capacity (zones s) < 2 ^ 26 → memzone_new a n s = Some (r, s') →
  total_capacity (zones s') <= Z.max (total_capacity (zones s)) (3 * Z.of_nat (length l) + 8).
Proof.
  intros Hh Hcap. unfold memzone_new. intros (ok & _ & E)%bind_Some. destruct ok; cbn [negb] in E; [|injection E as _ <-; lia].
  apply bind_Some in E as ([[k i] v] & Ep & E). apply bind_Some in E as (q & _ & [= _ <-]). by eapply push_capacity.
Qed.

Lemma set_zone_at s l p i z g : holds (zones s) l → bucket_at (buckets (zones s)) p.1 p.2 i → l.[i] = Some z →
  ∃ s', set_zone p g s = Some s' ∧ holds (zones s') (<[Z.to_nat i := g z]> l) ∧ total_capacity (zones s') = total_capacity (zones s) ∧
    file_counts s' = file_counts s ∧ ∀ k, dynarr_get (zones s') k = dynarr_get (zones s) k.
Proof.
  intros Hh Hat Hi. pose proof (zget_Some _ _ _ Hi) as Hr. unfold set_zone. destruct p as [j k]. cbn [fst snd] in *.
  rewrite (slot_spec _ l j k i Hh Hat Hr), Hi. bind_red.
  destruct (bucket_write_spec (zones s) l j k i (g z) Hh Hat Hr) as (v & -> & Hh' & Hc & Hg & _). bind_red. eexists. by split.
Qed.

(** The zone that was just made is written. *)
Lemma set_new a n s p s' l z g : memzone_new a n s = Some (Some p, s') → holds (zones s') (l ++ [z]) → total_capacity (zones s') < 2 ^ 28 →
  ∃ s2, set_zone p g s' = Some s2 ∧ holds (zones s2) (l ++ [g z]) ∧ total_capacity (zones s2) = total_capacity (zones s') ∧
    file_counts s2 = file_counts s' ∧ slot (zones s2) p = Some (g z).
Proof.
  intros En Hh Hcap. pose proof (new_last _ _ _ _ _ En) as Hp. pose proof (holds_length _ _ Hh) as Hlen. pose proof Hh as (_ & _ & Hn & _).
  rewrite length_app in Hlen, Hn. cbn in Hlen, Hn. pose proof ptr_bits_ge. rewrite Hn, usize_small, s32_small in Hp by lia.
  replace (Z.of_nat (length l + 1) - 1) with (Z.of_nat (length l)) in Hp by lia.
  destruct (get_zone_spec (zones s') (l ++ [z]) (Z.of_nat (length l)) z Hh) as (q & _ & Hq & Hat); [lia| |].
  { by rewrite zget_lookup, Nat2Z.id, list_lookup_middle by lia. }
  rewrite Hp in Hq. injection Hq as <-.
  destruct (set_zone_at s' (l ++ [z]) p (Z.of_nat (length l)) z g Hh Hat) as (s2 & E2 & Hh2 & Hc2 & Hf2 & Hg2).
  { by rewrite zget_lookup, Nat2Z.id, list_lookup_middle by lia. }
  exists s2. rewrite Nat2Z.id, insert_app_r_alt, Nat.sub_diag in Hh2 by lia. cbn in Hh2. split; [done|]. split; [done|]. split; [done|]. split; [done|].
  destruct (get_zone_spec (zones s2) (l ++ [g z]) (Z.of_nat (length l)) (g z) Hh2) as (q & Hgz & Hq & _); [lia| |].
  { by rewrite zget_lookup, Nat2Z.id, list_lookup_middle by lia. }
  assert (q = p) as -> by congruence. unfold get_zone in Hgz. apply bind_Some in Hgz as (q' & Hq' & Hgz).
  apply bind_Some in Hgz as (z' & Hz' & [= -> ->]). done.
Qed.

(** *** The address space while a program is loaded *)

Record loading (s : vm_address_space_t) (l : list memzone_t) (f c : Z) : Prop := {
  ld_holds : holds (zones s) l;
  ld_ok : zones_ok l;
  ld_pos : Forall (λ z, 0 < len z) l;
  ld_cap : total_capacity (zones s) <= 3 * Z.of_nat (length l) + 8;
  ld_count : file_counts s !! f = Some c;
}.

(** The zones with one more for the segment, if it is one and its pages are free. *)
Definition add_segment (f : Z) (l : list memzone_t) (ph : elf_program_header_t) : list memzone_t :=
  if (p_type ph =? PT_LOAD) && room l (page_of (p_vaddr ph)) (page_len (usize (p_memsz ph + p_vaddr ph mod VMM_PAGE_SIZE)))
  then l ++ [zone_of ph f] else l.

Lemma new_free s l f c a n (g : memzone_t → memzone_t) : loading s l f c → Z.of_nat (length l) < 2 ^ 20 →
  0 <= a < 2 ^ ptr_bits → 0 <= n < 2 ^ ptr_bits → 0 < page_len (usize (n + a mod VMM_PAGE_SIZE)) → (∀ z, same_range z (g z)) →
  let z := mk_memzone (page_of a) (page_len (usize (n + a mod VMM_PAGE_SIZE))) MMU_FLAG_NONPRIV 0 None 0 0 None in
  if room l (vaddr z) (len z) then ∃ p s1 , memzone_new a n s = Some (Some p, s1) ∧ loading s1 (l ++ [z]) f c ∧
    ∀ s1' c', zones s1' = zones s1 → file_counts s1' !! f = Some c' →
      ∃ s2, set_zone p g s1' = Some s2 ∧ loading s2 (l ++ [g z]) f c' ∧ slot (zones s2) p = Some (g z)
  else memzone_new a n s = Some (None, s).
Proof.
  intros [Hh Hok Hpos Hcap Hc] Hlen Ha Hn Hpl Hg z. pose proof (memzone_new_spec s l a n Hh ltac:(lia) Hok Ha Hn) as Hnew. cbv zeta in Hnew.
  fold (page_of a) in Hnew. fold z in Hnew. cbn [z vaddr len]. destruct (room _ _ _); [|exact Hnew].
  destruct Hnew as (p & s1 & En & Hh1 & Hok1 & _ & Hf1 & _). pose proof (new_capacity _ _ _ _ _ _ Hh ltac:(lia) En) as Hcap1.
  assert (Forall (λ z, 0 < len z) (l ++ [z])) as Hpos1 by (apply Forall_app; split; [done|by constructor]).
  exists p, s1. split; [done|]. split; [split; [done..| |by rewrite Hf1]; rewrite length_app; cbn [length]; lia|].
  intros s1' c' Ez Hc'. destruct s1 as [v1 fc1], s1' as [v1' fc1']. cbn [zones file_counts] in *. subst v1'.
  destruct (set_new a n s p (mk_aspace v1 fc1) l z g En Hh1) as (s2 & E2 & Hh2 & Hc2 & _ & Hs2); [cbn [zones]; lia|]. cbn [zones] in *.
  unfold set_zone in E2 |- *. cbn [zones file_counts] in *. apply bind_Some in E2 as (z1 & -> & (v & Ev & [= <-])%bind_Some). bind_red. rewrite Ev. bind_red.
  cbn [zones] in *. eexists. split; [done|]. split; [|done]. split; cbn [zones file_counts]; [done| | | |done].
  - apply (zones_ok_same (l ++ [z])); [|done]. apply Forall2_app; [|by constructor]. by apply Forall_Forall2_diag, Forall_true.
  - apply Forall_app in Hpos1 as [? [Hz _]%Forall_cons]. apply Forall_app. split; [done|]. constructor; [|done]. destruct (Hg z) as [_ ->]. done.
  - rewrite length_app. cbn [length]. lia.
Qed.

Lemma add_segment_length f l ph : (length (add_segment f l ph) <= length l + 1)%nat.
Proof. unfold add_segment. destruct (_ && _); [rewrite length_app; cbn; lia|lia]. Qed.
Lemma add_segments_length f l phs : (length (foldl (add_segment f) l phs) <= length l + length phs)%nat.
Proof.
  revert l. induction phs as [|ph phs IH]; intros l; cbn [foldl length]; [lia|]. pose proof (IH (add_segment f l ph)). pose proof (add_segment_length f l ph). lia.
Qed.

(** All segments. *)
Definition segment_zones (f : Z) (phs : list elf_program_header_t) : list memzone_t :=
  (λ ph, zone_of ph f) <$> filter (λ ph, p_type ph = PT_LOAD) phs.

(** If they keep apart and are in user memory, none is left out. *)
Lemma all_segments f l phs : zones_ok (l ++ segment_zones f phs) → Forall (λ z, 0 < len z) (l ++ segment_zones f phs) →
  foldl (add_segment f) l phs = l ++ segment_zones f phs.
Proof.
  revert l. induction phs as [|ph phs IH]; intros l Hok Hpos; cbn [foldl]; [by rewrite app_nil_r|].
  unfold segment_zones in *. rewrite filter_cons in *. unfold add_segment at 2.
  destruct (decide (p_type ph = PT_LOAD)) as [E|E].
  2:{ replace (p_type ph =? PT_LOAD) with false by lia. by apply IH. }
  rewrite E, Z.eqb_refl. cbn [andb fmap list_fmap] in *. 
  pose proof Hok as Hok1. rewrite <- Permutation_middle in Hok1. destruct Hok1 as (Hz & Hap & Hrest).
  pose proof Hpos as Hpos1. rewrite <- Permutation_middle in Hpos1. apply Forall_cons in Hpos1 as [Hzp Hpos1].
  apply Forall_app in Hap as [Hap _]. apply Forall_app in Hpos1 as [Hlp _].
  pose proof (zones_ok_Forall _ Hrest) as Hall. apply Forall_app in Hall as [Hall _].
  rewrite free_room; [rewrite cons_middle, app_assoc in Hok, Hpos; rewrite IH by done; by rewrite <- app_assoc|exact Hzp|by apply Forall_and|].
  destruct Hz as (_ & _ & H0 & _ & Hend). split; [exact H0|]. split; [exact (proj2 Hend)|].
  intros z Hin. rewrite Forall_forall in Hap. exact (Hap z Hin).
Qed.

Section file.
Context (f : Z) (content : list Z) (Hf : reads_as f content) (Hsize : Z.of_nat (length content) < 2 ^ 31).
Abbreviation at_ o := {| fd_file := f; fd_offset := o |}.

Lemma class_sizes : 0 < sizeof_elf_header < 2 ^ 10 ∧ 0 < sizeof_elf_program_header < 2 ^ 10 ∧ 0 < sizeof_elf_section_header < 2 ^ 10.
Proof. unfold sizeof_elf_header, sizeof_elf_program_header, sizeof_elf_section_header, by_class. by destruct (decide _). Qed.

Lemma file_read o n b : 0 <= o → 0 < n → zread content o n = Some b → vfs_read (at_ o) n = Some (n, b, at_ (o + n)).
Proof.
  intros Ho Hn Hz. apply (vfs_read_inside f content); [done|done| |done|done]. unfold zread in Hz. destruct (decide _); [lia|done].
Qed.

(** One program header. *)
Lemma load_segment s l c o b ph : loading s l f c → Z.of_nat (length l) < 2 ^ 20 → 0 < c < 2 ^ 31 → 0 <= o →
  zread content o sizeof_elf_program_header = Some b → elf_program_header_of b = Some ph → (p_type ph = PT_LOAD → segment_ok content ph) →
  ∃ s' c', _elf_load_interpret_program_header_entry (at_ o) s = Some (0, at_ (o + sizeof_elf_program_header), s') ∧
    loading s' (add_segment f l ph) f c' ∧ c <= c' <= c + 1.
Proof.
  intros Hld Hlen Hc Ho Hz Hph Hseg. unfold _elf_load_interpret_program_header_entry. destruct class_sizes as (_ & Hsz & _).
  rewrite (file_read o _ b) by (done || lia). bind_red. rewrite Z.eqb_refl. cbn [negb]. rewrite Hph. bind_red. unfold add_segment.
  destruct (Z.eqb_spec (p_type ph) PT_LOAD) as [E|]; cbn [andb]; [|exists s, c; split; [done|]; split; [done|lia]]. specialize (Hseg E).
  destruct (segment_len content ph Hseg) as (Hul & Hpl & Hpu). pose proof kernel_base_fits. pose proof user_kernel.
  pose proof Hseg as [Hv Hm He Hof Hfs Hct Hsm]. pose proof (Z.mod_pos_bound (p_vaddr ph) VMM_PAGE_SIZE eq_refl).
  pose proof (new_free s l f c (p_vaddr ph) (p_memsz ph) (segment_zone ph f) Hld Hlen) as Hnew. cbv zeta in Hnew. cbn [vaddr len] in Hnew.
  rewrite Hul in *. destruct (room _ _ _).
  - destruct Hnew as (p & s1 & -> & Hld1 & Hset); [lia|lia|lia|done|]. bind_red. cbn [fd_file]. unfold file_duplicate. rewrite (ld_count _ _ _ _ Hld1). bind_red.
    pose proof ptr_bits_ge. rewrite usize_small by lia.
    destruct (Hset (mk_aspace (zones s1) (<[f := c + 1]> (file_counts s1))) (c + 1)) as (s2 & -> & Hld2 & _); [done|apply lookup_insert_eq|]. bind_red.
    exists s2, (c + 1). split; [done|]. split; [|lia]. unfold zone_of, fresh_zone. by rewrite Hul.
  - rewrite Hnew by (done || lia). bind_red. exists s, c. split; [done|]. split; [done|lia].
Qed.

(** A table of headers in the file. *)
Definition table {A} (off sz : Z) (decode : list Z → option A) (l : list A) : Prop :=
  ∀ i a, l.[i] = Some a → ∃ b, zread content (off + i * sz) sz = Some b ∧ decode b = Some a.

Lemma load_segments s l c off phs : loading s l f c → Z.of_nat (length l) + Z.of_nat (length phs) < 2 ^ 20 → 0 < c → c + Z.of_nat (length phs) < 2 ^ 31 → 0 <= off →
  table off sizeof_elf_program_header elf_program_header_of phs → Forall (λ ph, p_type ph = PT_LOAD → segment_ok content ph) phs →
  ∃ s' c', for_n (length phs) 0 (λ _ '(fd, s), '(_, fd, s) ← _elf_load_interpret_program_header_entry fd s; Some (fd, s)) (at_ off, s) =
      Some (at_ (off + Z.of_nat (length phs) * sizeof_elf_program_header), s') ∧
    loading s' (foldl (add_segment f) l phs) f c' ∧ c <= c' <= c + Z.of_nat (length phs).
Proof.
  intros Hld Hlen Hc0 Hc Hoff Htab Hseg. destruct class_sizes as (_ & Hsz & _).
  destruct (for_n_total (λ i '(fd, s'), fd = at_ (off + i * sizeof_elf_program_header) ∧
      ∃ c', loading s' (foldl (add_segment f) l (take (Z.to_nat i) phs)) f c' ∧ c <= c' <= c + i)
    (λ _ '(fd, s), '(_, fd, s) ← _elf_load_interpret_program_header_entry fd s; Some (fd, s)) (length phs) 0 (at_ off, s)) as ([fd s'] & E & -> & c' & Hld' & Hc').
  - split; [f_equal; lia|]. exists c. split; [done|lia].
  - intros i [fd s'] Hi (-> & c' & Hld' & Hc'). destruct (zget_is_Some phs i) as [ph Hph]; [lia|]. destruct (Htab i ph Hph) as (b & Hb & Hof).
    rewrite zget_lookup in Hph by lia. pose proof (add_segments_length f l (take (Z.to_nat i) phs)) as Hll. rewrite length_take in Hll.
    rewrite Forall_forall in Hseg. destruct (load_segment s' _ c' (off + i * sizeof_elf_program_header) b ph Hld') as (s2 & c2 & -> & Hld2 & Hc2);
      [lia|lia|nia|done|done|apply Hseg; by eapply list_elem_of_lookup_2|]. bind_red. eexists (_, _). split; [done|].
    split; [f_equal; lia|]. exists c2. split; [|lia]. replace (Z.to_nat (i + 1)) with (S (Z.to_nat i)) by lia. by rewrite (take_S_r _ _ ph Hph), foldl_app.
  - exists s', c'. rewrite E. split; [done|]. rewrite Z.add_0_l, Nat2Z.id, firstn_all in Hld'. split; [done|lia].
Qed.

(** *** Sections *)

Definition contains (z : memzone_t) (a : Z) : bool := (vaddr z <=? a) && (a <? zone_end z).
Definition retype (l : list memzone_t) (sh : elf_section_header_t) : list memzone_t :=
  match section_type (sh_type sh) with
  | Some t => if TEST_FLAG (sh_flags sh) SHF_ALLOC then map (λ z, if contains z (sh_addr sh) then set_type t z else z) l else l
  | None => l
  end.

(** At most one zone contains an address. *)
Lemma only_zone l i z a t : zones_ok l → l.[i] = Some z → contains z a = true →
  <[Z.to_nat i := set_type t z]> l = map (λ z, if contains z a then set_type t z else z) l.
Proof.
  intros Hok Hi Hz. pose proof (zget_Some _ _ _ Hi) as Hr. rewrite zget_lookup in Hi by lia. set (k := Z.to_nat i) in *. clearbody k. clear Hr i.
  revert k Hi. induction l as [|y l IH]; intros k Hi; [done|]. destruct Hok as (Hy & Hap & Hl). rewrite Forall_forall in Hap. destruct k as [|k]; cbn in Hi |- *.
  - injection Hi as ->. rewrite Hz. f_equal. symmetry. rewrite <- (map_id l) at 2. apply map_ext_in. intros x Hx%list_elem_of_In.
    destruct (contains x a) eqn:Ex; [|done]. exfalso. specialize (Hap x Hx). unfold contains, apart in *. lia.
  - f_equal; [|by apply IH]. apply list_elem_of_lookup_2 in Hi. specialize (Hap z Hi). destruct (contains y a) eqn:Ey; [|done].
    exfalso. unfold contains, apart in *. lia.
Qed.
Lemma no_zone l a t : (∀ z, z ∈ l → contains z a = false) → map (λ z, if contains z a then set_type t z else z) l = l.
Proof.
  intros Hn. rewrite <- (map_id l) at 2. apply map_ext_in. intros x Hx%list_elem_of_In. by rewrite (Hn x Hx).
Qed.

Lemma retype_same l sh : Forall2 same_range l (retype l sh).
Proof.
  unfold retype. destruct (section_type _) as [t|]; [|done]. destruct (TEST_FLAG _ _); [|done].
  induction l as [|z l IH]; constructor; [|done]. by destruct (contains z _).
Qed.
Lemma retypes_same l shs : Forall2 same_range l (foldl retype l shs).
Proof.
  revert l. induction shs as [|sh shs IH]; intros l; cbn [foldl]; [done|].
  etrans; [apply retype_same|apply IH].
Qed.

Lemma loading_same s s' l l' c : loading s l f c → holds (zones s') l' → total_capacity (zones s') = total_capacity (zones s) →
  file_counts s' = file_counts s → Forall2 same_range l l' → loading s' l' f c.
Proof.
  intros [Hh Hok Hpos Hcap Hc] Hh' Hc' Hf' Hs. pose proof (Forall2_length _ _ _ Hs) as Hl. split; [done|by eapply zones_ok_same| |lia|by rewrite Hf'].
  clear - Hs Hpos. induction Hs as [|z z' l l' [_ Hz] Hs IH]; [done|]. apply Forall_cons in Hpos as [Hp Hpos]. constructor; [by rewrite Hz|auto].
Qed.

Lemma load_section s l c o b sh : loading s l f c → Z.of_nat (length l) < 2 ^ 20 → 0 <= o →
  zread content o sizeof_elf_section_header = Some b → elf_section_header_of b = Some sh →
  ∃ s', _elf_load_interpret_section_header_entry (at_ o) s = Some (0, at_ (o + sizeof_elf_section_header), s') ∧ loading s' (retype l sh) f c.
Proof.
  intros Hld Hlen Ho Hz Hsh. unfold _elf_load_interpret_section_header_entry. destruct class_sizes as (_ & _ & Hsz).
  rewrite (file_read o _ b) by (done || lia). bind_red. rewrite Z.eqb_refl. cbn [negb]. rewrite Hsh. bind_red. unfold retype.
  pose proof Hld as [Hh Hok Hpos Hcap Hc].
  destruct (TEST_FLAG (sh_flags sh) SHF_ALLOC); cbn [negb]; [|exists s; split; [done|by destruct (section_type _)]]. cbn [memzone_find].
  destruct (find_spec (zones s) l (sh_addr sh) Hh) as [(p & i & z & -> & Hp & Hi & Hz')|[-> Hno]]; [lia|by apply zones_ok_Forall|..]; bind_red.
  - destruct (section_type (sh_type sh)) as [t|]; [|by exists s].
    destruct (get_zone_spec (zones s) l i z Hh) as (q & Hq & _ & Hat); [lia|done|]. rewrite Hp in Hq. injection Hq as <-.
    destruct (set_zone_at s l p i z (set_type t) Hh Hat Hi) as (s' & -> & Hh' & Hc' & Hf' & _). bind_red. exists s'. split; [done|].
    assert (contains z (sh_addr sh) = true) as Hcz by (unfold contains; lia). rewrite (only_zone l i z (sh_addr sh) t Hok Hi Hcz) in Hh'.
    apply (loading_same s s' l _ c Hld Hh' Hc' Hf'). clear. induction l as [|y l IH]; constructor; [|done]. by destruct (contains y _).
  - destruct (section_type (sh_type sh)) as [t|]; exists s; (split; [done|]); [|done]. rewrite no_zone; [done|].
    intros y Hy. unfold contains. specialize (Hno y Hy). lia.
Qed.

Lemma load_sections s l c off shs : loading s l f c → Z.of_nat (length l) < 2 ^ 20 → 0 <= off →
  table off sizeof_elf_section_header elf_section_header_of shs →
  ∃ s', for_n (length shs) 0 (λ _ '(fd, s), '(_, fd, s) ← _elf_load_interpret_section_header_entry fd s; Some (fd, s)) (at_ off, s) =
      Some (at_ (off + Z.of_nat (length shs) * sizeof_elf_section_header), s') ∧ loading s' (foldl retype l shs) f c.
Proof.
  intros Hld Hlen Hoff Htab. destruct class_sizes as (_ & _ & Hsz).
  destruct (for_n_total (λ i '(fd, s'), fd = at_ (off + i * sizeof_elf_section_header) ∧ loading s' (foldl retype l (take (Z.to_nat i) shs)) f c)
    (λ _ '(fd, s), '(_, fd, s) ← _elf_load_interpret_section_header_entry fd s; Some (fd, s)) (length shs) 0 (at_ off, s)) as ([fd s'] & E & -> & Hld').
  - split; [f_equal; lia|done].
  - intros i [fd s'] Hi (-> & Hld'). destruct (zget_is_Some shs i) as [sh Hsh]; [lia|]. destruct (Htab i sh Hsh) as (b & Hb & Hof).
    rewrite zget_lookup in Hsh by lia. pose proof (Forall2_length _ _ _ (retypes_same l (take (Z.to_nat i) shs))) as Hll.
    destruct (load_section s' _ c (off + i * sizeof_elf_section_header) b sh Hld') as (s2 & -> & Hld2); [lia|nia|done|done|]. bind_red.
    eexists (_, _). split; [done|]. split; [f_equal; lia|]. replace (Z.to_nat (i + 1)) with (S (Z.to_nat i)) by lia. by rewrite (take_S_r _ _ sh Hsh), foldl_app.
  - exists s'. rewrite E. split; [done|]. by rewrite Z.add_0_l, Nat2Z.id, firstn_all in Hld'.
Qed.
End file.

(** *** The whole program *)

(** The first page is kept free of accesses, if it is not in use. *)
Definition null_zone : memzone_t := mk_memzone 0 VMM_PAGE_SIZE MMU_FLAG_NONPRIV 0 None 0 0 None.
Definition guard (l : list memzone_t) : list memzone_t :=
  if existsb (λ z, contains z 0) l then l else if room l 0 VMM_PAGE_SIZE then l ++ [null_zone] else l.
Definition stack_at (a : Z) : memzone_t := mk_memzone a USER_STACK_SIZE stack_flags ZONE_TYPE_STACK None 0 0 None.

Lemma load_guard s l f c : loading s l f c → Z.of_nat (length l) < 2 ^ 20 →
  ∃ s', (zone ← memzone_find (Some s) 0;
    match zone with Some _ => Some s | None => '(_, s) ← memzone_new 0 VMM_PAGE_SIZE s; Some s end) = Some s' ∧ loading s' (guard l) f c.
Proof.
  intros Hld Hlen. pose proof Hld as [Hh Hok Hpos Hcap Hc]. unfold guard. cbn [memzone_find].
  destruct (find_spec (zones s) l 0 Hh) as [(p & i & z & -> & _ & Hi & Hz)|[-> Hno]]; [lia|by apply zones_ok_Forall|..]; bind_red.
  - exists s. split; [done|]. destruct (existsb _ l) eqn:E; [done|]. exfalso. apply not_true_iff_false in E. apply E, existsb_exists.
    exists z. pose proof (zget_Some _ _ _ Hi). rewrite zget_lookup in Hi by lia. split; [apply list_elem_of_In; by eapply list_elem_of_lookup_2|].
    unfold contains. lia.
  - destruct (existsb _ l) eqn:E.
    { exfalso. apply existsb_exists in E as (z & Hz & Hcz). apply list_elem_of_In in Hz. apply (Hno z Hz). unfold contains in Hcz. lia. }
    pose proof ptr_bits_ge. pose proof (new_free s l f c 0 VMM_PAGE_SIZE (λ z, z) Hld Hlen) as Hnew. cbv zeta in Hnew. cbn [vaddr len] in Hnew.
    change (page_of 0) with 0 in Hnew. change (0 mod VMM_PAGE_SIZE) with 0 in Hnew. rewrite Z.add_0_r, usize_small, page_len_id in Hnew by (done || (unfold VMM_PAGE_SIZE; lia)).
    destruct (room l 0 VMM_PAGE_SIZE).
    + destruct Hnew as (p & s1 & -> & Hld1 & _); [lia|unfold VMM_PAGE_SIZE; lia|done|done|]. bind_red. by exists s1.
    + rewrite Hnew by (done || (unfold VMM_PAGE_SIZE; lia)). bind_red. by exists s.
Qed.

Lemma load_stack s l f c tf : loading s l f c → Z.of_nat (length l) < 2 ^ 20 →
  (∃ a s', _elf_load_alloc_stack s tf = Some (0, s', {| frame_pointer := a + USER_STACK_SIZE; stack_pointer := a + USER_STACK_SIZE;
      instruction_pointer := instruction_pointer tf |}) ∧ loading s' (l ++ [stack_at a]) f c ∧
    free_range l a USER_STACK_SIZE ∧ ∀ b, free_range l b USER_STACK_SIZE → b <= a) ∨
  (_elf_load_alloc_stack s tf = None ∧ ∀ b, ¬ free_range l b USER_STACK_SIZE).
Proof.
  intros Hld Hlen. pose proof Hld as [Hh Hok Hpos Hcap Hc]. pose proof user_stack_size as Hsz. pose proof user_stack_pages as Hpg.
  pose proof user_kernel. pose proof kernel_base_fits. unfold _elf_load_alloc_stack.
  destruct (memzone_new_random_backward_highest s l USER_STACK_SIZE Hh) as [(a & p & s1 & E & Hnz & Hmax)|[E Hno]]; [lia|done|done|lia|..];
    rewrite page_len_id in * by done; rewrite E; bind_red; [left|by right].
  destruct Hnz as [_ Hh1 Hok1 Hf1 Hfree]. destruct (backward_new _ _ _ _ E) as (a' & n' & En).
  pose proof (new_capacity _ _ _ _ _ _ Hh ltac:(lia) En) as Hcap1.
  destruct (set_new a' n' s p s1 l _ stack_zone En Hh1) as (s2 & -> & Hh2 & Hc2 & Hf2 & Hs2); [lia|]. bind_red. rewrite Hs2. bind_red.
  cbn [stack_zone vaddr]. pose proof Hfree as (Ha & Hend & _). rewrite usize_small by lia. exists a, s2. split; [done|]. split; [|done].
  split; [exact Hh2| | | |by rewrite Hf2, Hf1].
  - apply (zones_ok_same (l ++ [mk_memzone a USER_STACK_SIZE MMU_FLAG_NONPRIV 0 None 0 0 None])); [|done].
    apply Forall2_app; [by apply Forall_Forall2_diag, Forall_true|by constructor].
  - apply Forall_app. split; [done|]. constructor; [|done]. cbn. lia.
  - rewrite length_app. cbn [length]. lia.
Qed.

(** C10. A program of this machine is loaded: its zones are those of its segments
    that find their pages free, in the order of the headers, with the types that
    the sections give them, the page at 0, and the stack at the highest place that
    is free; the registers are set to its entry and to the end of the stack. The
    zones keep apart. A segment of which a page is taken, by an earlier one, say, is
    left out without an error; when all keep apart in user memory, none is. Without
    room for a stack the kernel goes through NULL. *)
Theorem elf_load_zones f content b0 h phs shs s l c tf : reads_as f content → Z.of_nat (length content) < 2 ^ 31 →
  zread content 0 sizeof_elf_header = Some b0 → elf_header_of b0 = Some h → elf_check_header h = 0 →
  e_phnum h = Z.of_nat (length phs) → e_shnum h = Z.of_nat (length shs) → 0 <= e_phoff h < 2 ^ 31 → 0 <= e_shoff h < 2 ^ 31 →
  table content (e_phoff h) sizeof_elf_program_header elf_program_header_of phs →
  table content (e_shoff h) sizeof_elf_section_header elf_section_header_of shs →
  Forall (λ ph, p_type ph = PT_LOAD → segment_ok content ph) phs →
  loading s l f c → Z.of_nat (length l) + Z.of_nat (length phs) + 1 < 2 ^ 20 → 0 < c → c + Z.of_nat (length phs) < 2 ^ 31 →
  let l' := guard (foldl retype (foldl (add_segment f) l phs) shs) in
  (zones_ok (l ++ segment_zones f phs) → Forall (λ z, 0 < len z) (l ++ segment_zones f phs) →
    foldl (add_segment f) l phs = l ++ segment_zones f phs) ∧
  ((∃ a fd s' c', elf_load {| fd_file := f; fd_offset := 0 |} s tf = Some (0, fd, s',
      {| frame_pointer := a + USER_STACK_SIZE; stack_pointer := a + USER_STACK_SIZE; instruction_pointer := e_entry h |}) ∧
    loading s' (l' ++ [stack_at a]) f c' ∧ free_range l' a USER_STACK_SIZE ∧ ∀ b, free_range l' b USER_STACK_SIZE → b <= a) ∨
  (elf_load {| fd_file := f; fd_offset := 0 |} s tf = None ∧ ∀ b, ¬ free_range l' b USER_STACK_SIZE)).
Proof.
  intros Hf Hsize Hb0 Hh Hcheck Hpn Hsn Hpo Hso Hpt Hst Hseg Hld Hlen Hc0 Hc l'. split; [apply all_segments|]. unfold elf_load. destruct class_sizes as (Hsz & _ & _).
  rewrite (file_read f content Hf Hsize 0 _ b0) by (done || lia). bind_red. rewrite Z.eqb_refl. cbn [negb]. rewrite Hh. bind_red. rewrite Hcheck.
  change (negb (0 =? 0)) with false. cbv match. unfold _elf_do_load, seek. cbn [fd_file]. rewrite Hpn, Hsn, !Nat2Z.id. pose proof half_bits.
  assert (∀ o, 0 <= o < 2 ^ 31 → ssize o = o) as Hss.
  { intros o Ho. pose proof ptr_bits_ge. rewrite <- (ssize_usize o) at 2 by lia. by rewrite usize_small by lia. }
  rewrite !Hss by done.
  destruct (load_segments f content Hf Hsize s l c (e_phoff h) phs Hld) as (s1 & c1 & -> & Hld1 & Hc1); [lia|done|done|lia|done|done|]. bind_red. cbn [fd_file].
  pose proof (add_segments_length f l phs) as Hl1.
  destruct (load_sections f content Hf Hsize s1 _ c1 (e_shoff h) shs Hld1) as (s2 & -> & Hld2); [lia|lia|done|]. bind_red.
  pose proof (Forall2_length _ _ _ (retypes_same (foldl (add_segment f) l phs) shs)) as Hl2.
  destruct (load_guard s2 _ f c1 Hld2) as (s3 & E3 & Hld3); [lia|]. apply bind_Some in E3 as (zone & -> & E3). bind_red. rewrite E3. bind_red.
  fold l' in Hld3. assert (Z.of_nat (length l') < 2 ^ 20) as Hl3.
  { unfold l', guard. destruct (existsb _ _); [lia|]. destruct (room _ _ _); [rewrite length_app; cbn [length]; lia|lia]. }
  destruct (load_stack s3 l' f c1 tf Hld3 Hl3) as [(a & s4 & -> & Hld4 & Hfr & Hmax)|[-> Hno]]; bind_red; [left|by right].
  exists a. eexists. exists s4, c1. split; [reflexivity|]. by split.
Qed.

(** ** Symbols *)

(** The function of an address is the last of the symbols that begin at the
    greatest address which is not behind it; if all begin behind it there is none. *)
Theorem elf_function_nearest syms ip : Forall (λ sym, 0 <= st_value sym) syms →
  (elf_find_function_in_symtab syms ip = -1 ∧ ∀ sym, sym ∈ syms → ip < st_value sym) ∨
  ∃ l1 sym l2, syms = l1 ++ sym :: l2 ∧ elf_find_function_in_symtab syms ip = st_name sym ∧ st_value sym <= ip ∧
    (∀ x, x ∈ l1 → st_value x <= ip → st_value x <= st_value sym) ∧ (∀ x, x ∈ l2 → st_value x <= ip → st_value x < st_value sym).
Proof.
  intros Hpos. unfold elf_find_function_in_symtab.
  set (step := λ '(prev, ans) (sym : elf_sym_t), if (prev <=? st_value sym) && (st_value sym <=? ip) then (st_value sym, st_name sym) else (prev, ans)).
  assert (∀ prev ans, ∃ r, foldl step (prev, ans) syms = r ∧
    ((r = (prev, ans) ∧ ∀ sym, sym ∈ syms → st_value sym <= ip → st_value sym < prev) ∨
     ∃ l1 sym l2, syms = l1 ++ sym :: l2 ∧ r = (st_value sym, st_name sym) ∧ prev <= st_value sym <= ip ∧
       (∀ x, x ∈ l1 → st_value x <= ip → st_value x <= st_value sym) ∧ (∀ x, x ∈ l2 → st_value x <= ip → st_value x < st_value sym))) as Hall.
  { clear Hpos. induction syms as [|sym syms IH]; intros prev ans; cbn [foldl].
    { eexists. split; [done|]. left. split; [done|]. by intros sym ?%not_elem_of_nil. }
    replace (step (prev, ans) sym) with (if (prev <=? st_value sym) && (st_value sym <=? ip) then (st_value sym, st_name sym) else (prev, ans)) by done.
    destruct ((prev <=? st_value sym) && (st_value sym <=? ip)) eqn:E.
    - apply andb_prop in E as [E1%Z.leb_le E2%Z.leb_le]. destruct (IH (st_value sym) (st_name sym)) as (r & Er & [[-> Hno]|(l1 & x & l2 & -> & -> & Hx & H1 & H2)]).
      + eexists. split; [exact Er|]. right. exists [], sym, syms. split; [done|]. split; [done|]. split; [lia|]. split; [by intros x ?%not_elem_of_nil|done].
      + eexists. split; [exact Er|]. right. exists (sym :: l1), x, l2. split; [done|]. split; [done|]. split; [lia|]. split; [|done].
        intros y [->|Hy]%elem_of_cons; [lia|by apply H1].
    - destruct (IH prev ans) as (r & Er & [[-> Hno]|(l1 & x & l2 & -> & -> & Hx & H1 & H2)]).
      + eexists. split; [exact Er|]. left. split; [done|]. intros y [->|Hy]%elem_of_cons Hyi; [|by apply Hno].
        apply andb_false_iff in E as [E%Z.leb_gt|E%Z.leb_gt]; lia.
      + eexists. split; [exact Er|]. right. exists (sym :: l1), x, l2. split; [done|]. split; [done|]. split; [lia|]. split; [|done].
        intros y [->|Hy]%elem_of_cons Hyi; [|by apply H1]. apply andb_false_iff in E as [E%Z.leb_gt|E%Z.leb_gt]; lia. }
  destruct (Hall 0 (-1)) as (r & -> & [[-> Hno]|(l1 & sym & l2 & -> & -> & Hs & H1 & H2)]); [left|right].
  - split; [done|]. intros sym Hs. rewrite Forall_forall in Hpos. destruct (Z.le_gt_cases (st_value sym) ip) as [Hle|]; [|done].
    specialize (Hno sym Hs Hle). specialize (Hpos sym Hs). lia.
  - exists l1, sym, l2. split; [done|]. split; [done|]. split; [lia|done].
Qed.
End elf.

(** ** A small program *)

(** A file that is just its bytes. *)
Definition plain_read (content : list Z) (start len : Z) : option (Z * list Z) :=
  if Z.of_nat (length content) <=? start then Some (0, [])
  else let n := Z.min len (Z.of_nat (length content) - start) in Some (n, take (Z.to_nat n) (drop (Z.to_nat start) content)).
Definition plain_files (content : list Z) (f : Z) : option (Z → Z → option (Z * list Z)) :=
  if f =? 3 then Some (plain_read content) else None.

Lemma plain_reads_as content : reads_as (plain_files content) 3 content.
Proof. by exists (plain_read content). Qed.

Lemma table_cons {A} content off sz decode (a : A) l : (∃ b, zread content off sz = Some b ∧ decode b = Some a) →
  table content (off + sz) sz decode l → table content off sz decode (a :: l).
Proof.
  intros Ha Hl i x Hi. pose proof (zget_Some _ _ _ Hi) as Hr. rewrite zget_lookup in Hi by lia. destruct (decide (i = 0)) as [->|Hne].
  - injection Hi as <-. by rewrite Z.add_0_r.
  - replace (Z.to_nat i) with (S (Z.to_nat (i - 1))) in Hi by lia. cbn in Hi. destruct (Hl (i - 1) x) as (b & Hb & Hof).
    + rewrite zget_lookup by lia. done.
    + exists b. split; [|done]. by replace (off + i * sz) with (off + sz + (i - 1) * sz) by lia.
Qed.
Lemma table_nil {A} content off sz (decode : list Z → option A) : table content off sz decode [].
Proof. intros i x Hi. by apply zget_Some in Hi as [? ?%Z.lt_nge]. Qed.

Section example.
#[local] Existing Instance elf_x86.

Definition words : list nat := replicate 8 4%nat.
Definition code_segment : elf_program_header_t :=
  {| p_type := 1; p_offset := 200; p_vaddr := 0x80480c8; p_filesz := 8; p_memsz := 5000; p_flags := 5 |}.
Definition data_segment : elf_program_header_t :=
  {| p_type := 1; p_offset := 208; p_vaddr := 0x804b0d0; p_filesz := 8; p_memsz := 8; p_flags := 6 |}.
Definition ph_bytes (ph : elf_program_header_t) : list Z :=
  pack words [p_type ph; p_offset ph; p_vaddr ph; 0; p_filesz ph; p_memsz ph; p_flags ph; 4096].
Definition code_section : elf_section_header_t := {| sh_type := 1; sh_flags := 6; sh_addr := 0x80480c8; sh_offset := 200; sh_size := 8 |}.
Definition data_section : elf_section_header_t := {| sh_type := 14; sh_flags := 3; sh_addr := 0x804b0d0; sh_offset := 208; sh_size := 8 |}.
Definition sh_bytes (sh : elf_section_header_t) : list Z :=
  pack (replicate 10 4%nat) [0; sh_type sh; sh_flags sh; sh_addr sh; sh_offset sh; sh_size sh; 0; 0; 4; 0].
Definition program : list Z :=
  elf_signature ++ replicate 12 0 ++ pack [2; 2; 4; 4; 4; 4; 4; 2; 2; 2; 2; 2; 2]%nat [2; 3; 1; 0x80480c8; 52; 116; 0; 52; 32; 2; 40; 2; 0] ++
  ph_bytes code_segment ++ ph_bytes data_segment ++ sh_bytes code_section ++ sh_bytes data_section ++ replicate 4 0 ++
  [1; 2; 3; 4; 5; 6; 7; 8] ++ [11; 12; 13; 14; 15; 16; 17; 18].
Definition program_header : elf_header_t := default
  {| e_ident := []; e_type := 0; e_machine := 0; e_entry := 0; e_phoff := 0; e_shoff := 0; e_phnum := 0; e_shnum := 0; e_shstrndx := 0 |}
  (zread program 0 52 ≫= elf_header_of).

Definition new_aspace : vm_address_space_t := mk_aspace (mk_dynarr [] 0) {[ 3 := 1 ]}.
Definition no_regs : trapframe_t := {| frame_pointer := 0; stack_pointer := 0; instruction_pointer := 0 |}.
Abbreviation the_file := {| fd_file := 3; fd_offset := 0 |}.

Lemma new_aspace_loading : loading new_aspace [] 3 1.
Proof. split; [|done|done|done|done]. split; [done|]. split; [done|]. split; [done|]. by exists []. Qed.

Lemma segments_ok : Forall (λ ph, p_type ph = PT_LOAD → segment_ok program ph) [code_segment; data_segment].
Proof. by repeat constructor. Qed.

Definition a_page (a : Z) : mem := list_to_map (zip (seqZ a 4096) (replicate 4096 7)).
Lemma a_page_mapped : mapped (a_page 0x8048000) (page_of 0x80480c8) VMM_PAGE_SIZE.
Proof.
  intros x Hx. change (page_of 0x80480c8) with 0x8048000 in Hx. unfold VMM_PAGE_SIZE in Hx. rewrite <- elem_of_dom. unfold a_page.
  rewrite dom_list_to_map_L, fst_zip by (rewrite length_seqZ, length_replicate; lia). apply elem_of_list_to_set, elem_of_seqZ. lia.
Qed.

Lemma elf_page_content_witness : ∃ m', _elf_load_page_content (plain_files program) (zone_of code_segment 3) 0x80480c8 (a_page 0x8048000) = Some (0, m') ∧
  m' !! 0x80480c8 = Some 1 ∧ m' !! 0x80480d0 = Some 0.
Proof.
  destruct (elf_page_content (plain_files program) 3 program code_segment 0x80480c8 (a_page 0x8048000) (plain_reads_as program)) as (m' & E & Hm').
  - pose proof segments_ok as H. apply Forall_cons in H as [H _]. by apply H.
  - split; vm_compute; [discriminate|reflexivity].
  - exact a_page_mapped.
  - exists m'. split; [exact E|]. rewrite (Hm' 0x80480c8), (Hm' 0x80480d0). split; vm_compute; reflexivity.
Defined.

Lemma elf_load_zones_witness : ∃ a fd s' c', elf_load (plain_files program) the_file new_aspace no_regs =
    Some (0, fd, s', {| frame_pointer := a + 16384; stack_pointer := a + 16384; instruction_pointer := 0x80480c8 |}) ∧
  loading s' [mk_memzone 0x8048000 8192 22 1 (Some 3) 0 208 (Some 1); mk_memzone 0x804b000 4096 19 2 (Some 3) 0 216 (Some 1);
    null_zone; stack_at a] 3 c'.
Proof.
  destruct (elf_load_zones (plain_files program) 3 program (default [] (zread program 0 52)) program_header [code_segment; data_segment]
    [code_section; data_section] new_aspace [] 1 no_regs (plain_reads_as program))
    as [_ [(a & fd & s' & c' & E & Hld & _)|[_ Hno]]];
    [reflexivity|vm_compute; reflexivity|vm_compute; reflexivity|vm_compute; reflexivity|reflexivity|reflexivity|vm_compute; split; [discriminate|reflexivity]
    |vm_compute; split; [discriminate|reflexivity]| | |exact segments_ok|exact new_aspace_loading|reflexivity|reflexivity|reflexivity| |].
  - do 2 (apply table_cons; [eexists; split; vm_compute; reflexivity|]). apply table_nil.
  - do 2 (apply table_cons; [eexists; split; vm_compute; reflexivity|]). apply table_nil.
  - exists a, fd, s', c'. split; [exact E|]. exact Hld.
  - exfalso. apply (Hno 0x10000000). split; [done|]. split; [vm_compute; discriminate|]. intros z Hz.
    assert (forallb (λ z, (0x10000000 + USER_STACK_SIZE <=? vaddr z) || (zone_end z <=? 0x10000000))
      (guard (foldl retype (foldl (add_segment 3) [] [code_segment; data_segment]) [code_section; data_section])) = true) as Hall by (vm_compute; reflexivity).
    rewrite forallb_forall in Hall. specialize (Hall z). rewrite <- list_elem_of_In in Hall. specialize (Hall Hz).
    apply orb_prop in Hall as [Hall|Hall]; apply Z.leb_le in Hall; [by left|by right].
Defined.

Definition some_symbols : list elf_sym_t := [{| st_name := 5; st_value := 100 |}; {| st_name := 9; st_value := 400 |}; {| st_name := 7; st_value := 200 |}].
Lemma elf_function_nearest_witness : elf_find_function_in_symtab some_symbols 250 = 7 ∧ ∃ sym, sym ∈ some_symbols ∧ st_name sym = 7 ∧ st_value sym <= 250.
Proof.
  assert (Forall (λ sym, 0 <= st_value sym) some_symbols) as Hpos by by repeat constructor.
  destruct (elf_function_nearest some_symbols 250 Hpos) as [[E _]|(l1 & sym & l2 & El & E & Hs & _)]; [discriminate E|].
  change (elf_find_function_in_symtab some_symbols 250) with 7 in E. split; [reflexivity|]. exists sym. split; [|by split].
  rewrite El. apply elem_of_app. right. left.
Defined.

(** *** What else it does *)

(** A segment whose bytes begin at the start of the file and not of a page: its
    offset becomes negative, no count of bytes is greater than that as a [size_t],
    and nothing is read. *)
Definition early_segment : elf_program_header_t :=
  {| p_type := 1; p_offset := 0; p_vaddr := 0x8048010; p_filesz := 64; p_memsz := 64; p_flags := 5 |}.
Example early_segment_empty :
  (λ '(_, m), m !! 0x8048010) <$> _elf_load_page_content (plain_files program) (zone_of early_segment 3) 0x8048010 (a_page 0x8048000) = Some (Some 0) ∧
  file_offset (zone_of early_segment 3) = -16 ∧ program.[0] = Some 0x7f.
Proof. split; [|split]; vm_compute; reflexivity. Qed.

(** Of two segments with a page in common the second one is left out. *)
Example shared_page : length (foldl (add_segment 3) [] [code_segment; early_segment]) = 1%nat.
Proof. vm_compute. reflexivity. Qed.

(** An empty file is loaded without an error, and so is one that ends after its
    first header; neither has a zone of the program. *)
Example empty_program : (λ '(err, _, _, _), err) <$> elf_load (plain_files []) the_file new_aspace no_regs = Some 0.
Proof. vm_compute. reflexivity. Qed.
Example cut_program : (λ '(err, _, s, _), (err, v_size (zones s))) <$> elf_load (plain_files (take 52 program)) the_file new_aspace no_regs = Some (0, 2).
Proof. vm_compute. reflexivity. Qed.
End example.
