(* ===== verification/TimeManager.v ===== *)
(** * TimeManager: the kernel's clocks, [kernel/time/time_manager.c], and the
    arithmetic on time stamps of [libkern/time.h]

    The counters are [time_t], which is 32 bits wide and unsigned. The device
    that reads the real-time clock is a driver: [get_rtc] is what it returns when
    it is there. *)
From S2P Require Import Prelude.

Definition TIMER_TICKS_PER_SECOND : Z := 125.

(** ** Dates *)

(** The days of a year before each month; the code adds the leap day. *)
Definition pref_sum_of_days_in_mounts : list Z :=
  [0; 31; 31 + 28; 31 + 28 + 31; 31 + 28 + 31 + 30; 31 + 28 + 31 + 30 + 31;
   31 + 28 + 31 + 30 + 31 + 30; 31 + 28 + 31 + 30 + 31 + 30 + 31;
   31 + 28 + 31 + 30 + 31 + 30 + 31 + 31; 31 + 28 + 31 + 30 + 31 + 30 + 31 + 31 + 30;
   31 + 28 + 31 + 30 + 31 + 30 + 31 + 31 + 30 + 31;
   31 + 28 + 31 + 30 + 31 + 30 + 31 + 31 + 30 + 31 + 30;
   31 + 28 + 31 + 30 + 31 + 30 + 31 + 31 + 30 + 31 + 30 + 31].

Definition timeman_is_leap_year (year : Z) : bool :=
  ((year mod 4 =? 0) && negb (year mod 100 =? 0)) || (year mod 400 =? 0).

(** The years from 1970 to [year]; for the largest [uint32_t] the loop does not
    end. *)
Definition timeman_days_in_years_since_epoch (year : Z) : option Z :=
  if year =? 2 ^ 32 - 1 then None else
  for_n (Z.to_nat (year - 1969)) 1970 (λ y days,
    let days := u32 (days + 365) in
    Some (if timeman_is_leap_year y then u32 (days + 1) else days)) 0.

Definition timeman_days_in_months_since_soy (month year : Z) : option Z :=
  days ← pref_sum_of_days_in_mounts.[month];
  Some (if timeman_is_leap_year year && (2 <=? month) then u32 (days + 1) else days).

Definition timeman_to_seconds_since_epoch (secs mins hrs day month year : Z) : option Z :=
  years ← timeman_days_in_years_since_epoch (u32 (year - 1));
  months ← timeman_days_in_months_since_soy (u8 (month - 1)) year;
  Some (u32 (years * 86400 + months * 86400 + u32 ((day - 1) * 86400) + hrs * 3600 + mins * 60 + secs)).

(** ** Clocks *)

Record timeman_t := {
  stat_ticks_since_boot : list Z;  (* of each CPU *)
  ticks_since_second : Z;
  time_since_boot : Z;
  time_since_epoch : Z;
  get_rtc : option Z;
}.

Definition timeman_setup (s : timeman_t) : Z * timeman_t :=
  (0, {| stat_ticks_since_boot := stat_ticks_since_boot s;
         ticks_since_second := ticks_since_second s;
         time_since_boot := time_since_boot s;
         time_since_epoch := match get_rtc s with Some t => u32 t | None => 0 end;
         get_rtc := get_rtc s |}).

(** The timer interrupt on a CPU; only CPU 0 keeps the clocks. *)
Definition timeman_timer_tick (cpu : Z) (s : timeman_t) : option timeman_t :=
  n ← (stat_ticks_since_boot s).[cpu];
  stats ← (stat_ticks_since_boot s).[cpu <- u32 (n + 1)];
  if negb (cpu =? 0) then
    Some {| stat_ticks_since_boot := stats; ticks_since_second := ticks_since_second s;
            time_since_boot := time_since_boot s; time_since_epoch := time_since_epoch s;
            get_rtc := get_rtc s |}
  else
    let t := u32 (ticks_since_second s + 1) in
    if TIMER_TICKS_PER_SECOND <=? t then
      Some {| stat_ticks_since_boot := stats; ticks_since_second := 0;
              time_since_boot := u32 (time_since_boot s + 1);
              time_since_epoch := u32 (time_since_epoch s + 1);
              get_rtc := get_rtc s |}
    else
      Some {| stat_ticks_since_boot := stats; ticks_since_second := t;
              time_since_boot := time_since_boot s; time_since_epoch := time_since_epoch s;
              get_rtc := get_rtc s |}.

Definition timeman_seconds_since_epoch (s : timeman_t) : Z := time_since_epoch s.
Definition timeman_seconds_since_boot (s : timeman_t) : Z := time_since_boot s.
Definition timeman_get_ticks_from_last_second (s : timeman_t) : Z := ticks_since_second s.
Definition timeman_ticks_per_second : Z := TIMER_TICKS_PER_SECOND.
Definition timeman_ticks_since_boot (cpu : Z) (s : timeman_t) : option Z := (stat_ticks_since_boot s).[cpu].

Record timespec_t := mk_timespec { tv_sec : Z; tv_nsec : Z }.
Record timeval_t := mk_timeval { tval_sec : Z; tv_usec : Z }.

Definition timeman_timespec_since_epoch (s : timeman_t) : timespec_t :=
  mk_timespec (timeman_seconds_since_epoch s)
    (u32 (timeman_get_ticks_from_last_second s * (1000000000 / timeman_ticks_per_second))).
Definition timeman_timespec_since_boot (s : timeman_t) : timespec_t :=
  mk_timespec (timeman_seconds_since_boot s)
    (u32 (timeman_get_ticks_from_last_second s * (1000000000 / timeman_ticks_per_second))).
Definition timeman_timeval_since_epoch (s : timeman_t) : timeval_t :=
  mk_timeval (timeman_seconds_since_epoch s)
    (u32 (timeman_get_ticks_from_last_second s * (1000000 / timeman_ticks_per_second))).
Definition timeman_timeval_since_boot (s : timeman_t) : timeval_t :=
  mk_timeval (timeman_seconds_since_boot s)
    (u32 (timeman_get_ticks_from_last_second s * (1000000 / timeman_ticks_per_second))).

(** ** Time stamps *)

(** [ASSERT] is [None]. The field is unsigned, so that the test for a negative
    one never holds. *)
Definition timespec_add_nsec (time : timespec_t) (nsec : Z) : option timespec_t :=
  if negb ((-1000000000 <? nsec) && (nsec <? 1000000000)) then None else
  let time := mk_timespec (tv_sec time) (u32 (tv_nsec time + u32 nsec)) in
  let time := if 1000000000 <=? tv_nsec time
    then mk_timespec (u32 (tv_sec time + 1)) (u32 (tv_nsec time - 1000000000)) else time in
  Some (if tv_nsec time <? 0
    then mk_timespec (u32 (tv_sec time - 1)) (u32 (tv_nsec time + 1000000000)) else time).

(** C's division rounds towards zero. *)
Definition timespec_add_usec (time : timespec_t) (usec : Z) : option timespec_t :=
  let sec := usec ÷ 1000000 in
  let nsec := Z.rem usec 1000000 * 1000 in
  time ← timespec_add_nsec time nsec;
  Some (mk_timespec (u32 (tv_sec time + sec)) (tv_nsec time)).

Definition timespec_add_sec (time : timespec_t) (sec : Z) : timespec_t :=
  mk_timespec (u32 (tv_sec time + sec)) (tv_nsec time).

Definition timespec_add_timespec (lhs rhs : timespec_t) : option timespec_t :=
  lhs ← timespec_add_nsec lhs (s32 (tv_nsec rhs));
  Some (mk_timespec (u32 (tv_sec lhs + tv_sec rhs)) (tv_nsec lhs)).

Definition timespec_add_timeval (lhs : timespec_t) (rhs : timeval_t) : option timespec_t :=
  lhs ← timespec_add_usec lhs (s32 (tv_usec rhs));
  Some (mk_timespec (u32 (tv_sec lhs + tval_sec rhs)) (tv_nsec lhs)).

Definition timespec_cmp (a b : timespec_t) : Z :=
  if tv_sec a =? tv_sec b then
    if tv_nsec a =? tv_nsec b then 0
    else if tv_nsec a <? tv_nsec b then -1 else 1
  else if tv_sec a <? tv_sec b then -2 else 2.

(** ** The calendar *)

Definition leap (y : Z) : Prop := y mod 4 = 0 ∧ y mod 100 ≠ 0 ∨ y mod 400 = 0.
#[global] Instance leap_dec y : Decision (leap y).
Proof. unfold leap. solve_decision. Defined.

Lemma is_leap_year_spec y : timeman_is_leap_year y = bool_decide (leap y).
Proof.
  unfold timeman_is_leap_year, leap. apply eq_true_iff_eq. rewrite bool_decide_eq_true.
  rewrite orb_true_iff, andb_true_iff, negb_true_iff, !Z.eqb_eq, Z.eqb_neq. done.
Qed.

(** A date is a year, a month and a day, from 1 on. *)
Definition month_lengths (y : Z) : list Z :=
  [31; if decide (leap y) then 29 else 28; 31; 30; 31; 30; 31; 31; 30; 31; 30; 31].
Definition month_length (y m : Z) : Z := default 0 ((month_lengths y).[m - 1]).
Definition next_day (date : Z * Z * Z) : Z * Z * Z :=
  let '(y, m, d) := date in
  if d <? month_length y m then (y, m, d + 1) else if m <? 12 then (y, m + 1, 1) else (y + 1, 1, 1).
Definition date_after (n : nat) : Z * Z * Z := Nat.iter n next_day (1970, 1, 1).

Definition valid_date (date : Z * Z * Z) : Prop :=
  let '(y, m, d) := date in 1970 <= y ∧ 1 <= m <= 12 ∧ 1 <= d <= month_length y m.

(** The days before a year, a month and a day. *)
Fixpoint days_of_years (k : nat) : Z :=
  match k with
  | O => 0
  | S k => days_of_years k + 365 + (if decide (leap (1970 + Z.of_nat k)) then 1 else 0)
  end.
Definition days_of_months (y m : Z) : Z :=
  default 0 (pref_sum_of_days_in_mounts.[m - 1]) + (if decide (leap y) then if 3 <=? m then 1 else 0 else 0).
Definition days_of (date : Z * Z * Z) : Z :=
  let '(y, m, d) := date in days_of_years (Z.to_nat (y - 1970)) + days_of_months y m + (d - 1).

(** The twelve months one by one. *)
Ltac case_month m :=
  assert (m = 1 ∨ m = 2 ∨ m = 3 ∨ m = 4 ∨ m = 5 ∨ m = 6 ∨ m = 7 ∨ m = 8 ∨ m = 9 ∨ m = 10 ∨ m = 11 ∨ m = 12)
    as [->|[->|[->|[->|[->|[->|[->|[->|[->|[->|[->| ->]]]]]]]]]]] by lia.

Lemma month_length_pos y m : 1 <= m <= 12 → 28 <= month_length y m <= 31.
Proof. intros. unfold month_length, month_lengths.
  case_month m; case_decide; split; vm_compute; discriminate.
Qed.

Lemma days_of_next_month y m : 1 <= m < 12 →
  days_of_months y (m + 1) = days_of_months y m + month_length y m.
Proof.
  intros. unfold days_of_months, month_length, month_lengths.
  case_month m; (lia || case_decide; reflexivity).
Qed.

Lemma days_of_january y : days_of_months y 1 = 0.
Proof. unfold days_of_months. case_decide; reflexivity. Qed.

Lemma days_of_december y :
  days_of_months y 12 + month_length y 12 = 365 + (if decide (leap y) then 1 else 0).
Proof. unfold days_of_months, month_length, month_lengths. case_decide; reflexivity. Qed.

Lemma next_day_spec date : valid_date date →
  valid_date (next_day date) ∧ days_of (next_day date) = days_of date + 1.
Proof.
  destruct date as [[y m] d]. unfold valid_date, next_day, days_of. intros (Hy & Hm & Hd).
  destruct (Z.ltb_spec d (month_length y m)) as [Hl|Hl]; [split; [split_and!|]; lia|].
  destruct (Z.ltb_spec m 12) as [Hm'|Hm'].
  - pose proof (month_length_pos y (m + 1)). rewrite days_of_next_month by lia. split; [split_and!|]; lia.
  - replace m with 12 in * by lia. pose proof (month_length_pos (y + 1) 1). pose proof (days_of_december y).
    split; [split_and!; lia|]. replace (Z.to_nat (y + 1 - 1970)) with (S (Z.to_nat (y - 1970))) by lia.
    cbn [days_of_years]. replace (1970 + Z.of_nat (Z.to_nat (y - 1970))) with y by lia.
    rewrite days_of_january. lia.
Qed.

Lemma date_after_spec n : valid_date (date_after n) ∧ days_of (date_after n) = Z.of_nat n.
Proof.
  induction n as [|n [Hv Hn]].
  { split; [|reflexivity]. split; [lia|]. split; [lia|]. vm_compute. split; discriminate. }
  apply next_day_spec in Hv as [Hv Hd]. change (date_after (S n)) with (next_day (date_after n)).
  split; [done|lia].
Qed.

Lemma days_of_years_bound k : 365 * Z.of_nat k <= days_of_years k <= 366 * Z.of_nat k.
Proof. induction k as [|k IH]; cbn [days_of_years]; [lia|]. case_decide; lia. Qed.

Lemma days_in_years_spec year : 1969 <= year < 10000000 →
  timeman_days_in_years_since_epoch year = Some (days_of_years (Z.to_nat (year - 1969))).
Proof.
  intros Hy. unfold timeman_days_in_years_since_epoch. replace (year =? 2 ^ 32 - 1) with false by lia.
  destruct (for_n_total (S := Z) (λ i days, days = days_of_years (Z.to_nat (i - 1970)))
    (λ y days, Some (if timeman_is_leap_year y then u32 (u32 (days + 365) + 1) else u32 (days + 365)))
    (Z.to_nat (year - 1969)) 1970 0) as (days & -> & ->); [done| |f_equal; f_equal; lia].
  intros i days Hi ->. eexists. split; [done|].
  pose proof (days_of_years_bound (Z.to_nat (i - 1970))).
  rewrite (u32_small (_ + 365)), u32_small, is_leap_year_spec by lia.
  replace (Z.to_nat (i + 1 - 1970)) with (S (Z.to_nat (i - 1970))) by lia. cbn [days_of_years].
  replace (1970 + Z.of_nat (Z.to_nat (i - 1970))) with i by lia.
  case_bool_decide; case_decide; (done || lia).
Qed.

Lemma days_in_months_spec y m : 1 <= m <= 12 →
  timeman_days_in_months_since_soy (u8 (m - 1)) y = Some (days_of_months y m) ∧ 0 <= days_of_months y m < 366.
Proof.
  intros Hm. unfold timeman_days_in_months_since_soy, days_of_months. rewrite is_leap_year_spec.
  destruct (decide (leap y)) as [Hy|Hy];
    [rewrite bool_decide_eq_true_2 by done|rewrite bool_decide_eq_false_2 by done];
    case_month m; (split; [reflexivity|split; [vm_compute; discriminate|vm_compute; reflexivity]]).
Qed.

(** ** Ticks *)

(** A run of timer interrupts on the CPUs of the list. *)
Fixpoint ticks (l : list Z) (s : timeman_t) : option timeman_t :=
  match l with
  | [] => Some s
  | cpu :: l => s ← timeman_timer_tick cpu s; ticks l s
  end.

Definition nanoseconds (t : timespec_t) : Z := tv_sec t * 1000000000 + tv_nsec t.
Definition normal (t : timespec_t) : Prop := 0 <= tv_sec t < 2 ^ 32 ∧ 0 <= tv_nsec t < 1000000000.

(** What the ticks keep: the sub-second counter stays below its bound. *)
Definition timeman_ok (s : timeman_t) : Prop :=
  0 <= ticks_since_second s < TIMER_TICKS_PER_SECOND ∧
  0 <= time_since_boot s < 2 ^ 32 ∧ 0 <= time_since_epoch s < 2 ^ 32.

Lemma timespec_ok s : timeman_ok s →
  normal (timeman_timespec_since_boot s) ∧ normal (timeman_timespec_since_epoch s) ∧
  nanoseconds (timeman_timespec_since_boot s) =
    1000000000 * time_since_boot s + 8000000 * ticks_since_second s ∧
  nanoseconds (timeman_timespec_since_epoch s) =
    1000000000 * time_since_epoch s + 8000000 * ticks_since_second s.
Proof.
  unfold timeman_ok, TIMER_TICKS_PER_SECOND. intros (Ht & Hb & He).
  unfold timeman_timespec_since_boot, timeman_timespec_since_epoch, normal, nanoseconds.
  cbn [tv_sec tv_nsec]. unfold timeman_seconds_since_boot, timeman_seconds_since_epoch,
    timeman_get_ticks_from_last_second.
  change (1000000000 / timeman_ticks_per_second) with 8000000. rewrite u32_small by lia. lia.
Qed.

Lemma tick_spec cpu s : timeman_ok s → 0 <= cpu < Z.of_nat (length (stat_ticks_since_boot s)) →
  time_since_boot s < 2 ^ 32 - 1 → time_since_epoch s < 2 ^ 32 - 1 →
  ∃ s', timeman_timer_tick cpu s = Some s' ∧ timeman_ok s' ∧
    length (stat_ticks_since_boot s') = length (stat_ticks_since_boot s) ∧
    let d := if decide (cpu = 0) then 1 else 0 in
    125 * time_since_boot s' + ticks_since_second s' = 125 * time_since_boot s + ticks_since_second s + d ∧
    125 * time_since_epoch s' + ticks_since_second s' = 125 * time_since_epoch s + ticks_since_second s + d.
Proof.
  unfold timeman_ok, TIMER_TICKS_PER_SECOND. intros (Ht & Hb & He) Hc Hb' He'.
  unfold timeman_timer_tick. destruct (zget_is_Some (stat_ticks_since_boot s) cpu) as [n ->]; [done|].
  cbn [mbind option_bind]. rewrite zset_in by done. cbn [mbind option_bind].
  case_decide as Hcpu; [subst cpu|replace (cpu =? 0) with false by lia]; cbn [negb Z.eqb].
  - rewrite (u32_small (ticks_since_second s + 1)) by lia. unfold TIMER_TICKS_PER_SECOND.
    destruct (Z.leb_spec 125 (ticks_since_second s + 1)); eexists; split; try done; cbn;
      rewrite ?length_insert, ?u32_small by lia; split; [lia|split; [done|lia]|lia|split; [done|lia]].
  - eexists. split; [done|]. cbn. rewrite length_insert. split; [lia|]. split; [done|lia].
Qed.

Lemma ticks_spec l s : timeman_ok s →
  Forall (λ cpu, 0 <= cpu < Z.of_nat (length (stat_ticks_since_boot s))) l →
  time_since_boot s + Z.of_nat (length l) < 2 ^ 32 → time_since_epoch s + Z.of_nat (length l) < 2 ^ 32 →
  let n := Z.of_nat (length (filter (λ cpu, cpu = 0) l)) in
  ∃ s', ticks l s = Some s' ∧ timeman_ok s' ∧
    125 * time_since_boot s' + ticks_since_second s' = 125 * time_since_boot s + ticks_since_second s + n ∧
    125 * time_since_epoch s' + ticks_since_second s' = 125 * time_since_epoch s + ticks_since_second s + n.
Proof.
  revert s. induction l as [|cpu l IH]; intros s Hok Hl Hb He; [exists s; cbn; split; [done|split; [done|lia]]|].
  inversion_clear Hl as [|? ? Hc Hl']. cbn [length] in Hb, He.
  destruct (tick_spec cpu s) as (s1 & Hs1 & Hok1 & Hlen & H1 & H2); [done..|lia|lia|].
  unfold timeman_ok, TIMER_TICKS_PER_SECOND in *.
  destruct (IH s1) as (s' & Hs' & Hok' & H3 & H4); [done|by rewrite Hlen|case_decide; lia..|].
  exists s'. cbn [ticks]. rewrite Hs1. split; [done|]. split; [done|].
  rewrite filter_cons. case_decide; cbn [length]; lia.
Qed.

(** ** Time stamps *)

Lemma add_nsec_spec t nsec : normal t → 0 <= nsec < 1000000000 → tv_sec t < 2 ^ 32 - 1 →
  ∃ t', timespec_add_nsec t nsec = Some t' ∧ normal t' ∧ nanoseconds t' = nanoseconds t + nsec.
Proof.
  intros [Hs Hn] Hns Hlim. unfold timespec_add_nsec.
  replace (_ && _) with true by lia. cbn [negb tv_sec tv_nsec].
  rewrite (u32_small nsec), (u32_small (_ + nsec)) by lia.
  destruct (Z.leb_spec 1000000000 (tv_nsec t + nsec)); cbn [tv_sec tv_nsec];
    rewrite ?(u32_small (tv_sec t + 1)), ?(u32_small (_ - _)) by lia;
    (replace (_ <? 0) with false by lia); eexists; (split; [done|]);
    unfold normal, nanoseconds; cbn [tv_sec tv_nsec]; lia.
Qed.

(** ** Properties *)

(** Adding a negative number of nanoseconds moves a time stamp forward, by the
    rest of the 32-bit word: the test for a negative field never holds. *)
Example add_negative_nsec :
  timespec_add_nsec (mk_timespec 5 0) (-1) = Some (mk_timespec 6 3294967295).
Proof. reflexivity. Qed.

(** C40. The conversion of a date to seconds follows the calendar: for the date
    that [n] days after 1 January 1970 bring, it terminates and gives the [n] days
    and the time of the day in seconds, leap years included, as long as the
    result fits its 32 bits (until 2106). *)
Theorem timeman_calendar n hrs mins secs :
  0 <= hrs < 24 → 0 <= mins < 60 → 0 <= secs < 60 → 86400 * (Z.of_nat n + 1) <= 2 ^ 32 →
  let '(year, month, day) := date_after n in
  timeman_to_seconds_since_epoch secs mins hrs day month year =
  Some (86400 * Z.of_nat n + 3600 * hrs + 60 * mins + secs).
Proof.
  intros Hh Hm Hs Hn. destruct (date_after_spec n) as [Hv Hd].
  destruct (date_after n) as [[y m] d]. destruct Hv as (Hy & Hmo & Hday).
  unfold days_of in Hd. pose proof (days_of_years_bound (Z.to_nat (y - 1970))).
  pose proof (month_length_pos y m Hmo). destruct (days_in_months_spec y m Hmo) as [Hmon Hmb].
  unfold timeman_to_seconds_since_epoch. rewrite (u32_small (y - 1)) by lia.
  rewrite days_in_years_spec by lia. replace (y - 1 - 1969) with (y - 1970) by lia.
  cbn [mbind option_bind]. rewrite Hmon. cbn [mbind option_bind].
  rewrite (u32_small ((d - 1) * 86400)), u32_small by lia. f_equal. lia.
Qed.

(** The clocks count the timer interrupts of the first CPU, whatever
    interrupts the others take in between: after any sequence of interrupts the
    time since boot has advanced by 8 ms for each, the stamps of both clocks are
    normal (less than a second of nanoseconds), and the two clocks advance
    together. *)
Theorem timeman_ticks_count l s :
  timeman_ok s → Forall (λ cpu, 0 <= cpu < Z.of_nat (length (stat_ticks_since_boot s))) l →
  time_since_boot s + Z.of_nat (length l) < 2 ^ 32 → time_since_epoch s + Z.of_nat (length l) < 2 ^ 32 →
  let elapsed := 8000000 * Z.of_nat (length (filter (λ cpu, cpu = 0) l)) in
  ∃ s', ticks l s = Some s' ∧
    normal (timeman_timespec_since_boot s') ∧ normal (timeman_timespec_since_epoch s') ∧
    nanoseconds (timeman_timespec_since_boot s') = nanoseconds (timeman_timespec_since_boot s) + elapsed ∧
    nanoseconds (timeman_timespec_since_epoch s') = nanoseconds (timeman_timespec_since_epoch s) + elapsed.
Proof.
  intros Hok Hl Hb He elapsed. destruct (ticks_spec l s) as (s' & Hs' & Hok' & H1 & H2); [done..|].
  exists s'. split; [done|].
  destruct (timespec_ok s Hok) as (_ & _ & -> & ->). destruct (timespec_ok s' Hok') as (Hn1 & Hn2 & -> & ->).
  split; [done|]. split; [done|]. lia.
Qed.

(** Adding normal time stamps adds their nanoseconds, carrying into the
    seconds, and comparing them compares their nanoseconds. *)
Theorem timespec_add_cmp a b :
  normal a → normal b → tv_sec a + tv_sec b < 2 ^ 32 - 1 →
  (∃ c, timespec_add_timespec a b = Some c ∧ normal c ∧ nanoseconds c = nanoseconds a + nanoseconds b) ∧
  (timespec_cmp a b < 0 ↔ nanoseconds a < nanoseconds b) ∧
  (timespec_cmp a b = 0 ↔ nanoseconds a = nanoseconds b).
Proof.
  intros Ha Hb Hlim. split.
  - pose proof Hb as [Hbs Hbn]. destruct (add_nsec_spec a (tv_nsec b)) as (c & Hc & [Hcs Hcn] & Hv);
      [done|lia|destruct Hbs; lia|].
    unfold timespec_add_timespec. rewrite s32_small by lia. rewrite Hc. cbn [mbind option_bind].
    destruct Ha as [Has Han]. unfold nanoseconds in *.
    rewrite u32_small by lia. eexists. split; [done|]. unfold normal. cbn [tv_sec tv_nsec]. lia.
  - destruct Ha as [Has Han], Hb as [Hbs Hbn]. unfold timespec_cmp, nanoseconds. repeat case_match; lia.
Qed.

Lemma timeman_calendar_witness :
  date_after 789 = (1972, 2, 29) ∧ timeman_to_seconds_since_epoch 5 4 3 29 2 1972 = Some 68180645.
Proof. split; [vm_compute; reflexivity|]. apply (timeman_calendar 789 3 4 5); lia. Defined.

Definition booted : timeman_t :=
  {| stat_ticks_since_boot := [0; 0]; ticks_since_second := 124; time_since_boot := 9;
     time_since_epoch := 1000; get_rtc := None |}.

Lemma timeman_ticks_count_witness : ∃ s', ticks [1; 0; 1] booted = Some s' ∧
  normal (timeman_timespec_since_boot s') ∧ normal (timeman_timespec_since_epoch s') ∧
  nanoseconds (timeman_timespec_since_boot s') = 10000000000 ∧
  nanoseconds (timeman_timespec_since_epoch s') = 1001000000000.
Proof.
  apply (timeman_ticks_count [1; 0; 1] booted); [unfold timeman_ok, TIMER_TICKS_PER_SECOND; cbn; lia| |cbn; lia..].
  repeat constructor; cbn; lia.
Defined.

Lemma timespec_add_cmp_witness :
  (∃ c, timespec_add_timespec (mk_timespec 1 600000000) (mk_timespec 2 500000000) = Some c ∧ normal c ∧
    nanoseconds c = 4100000000) ∧
  (timespec_cmp (mk_timespec 1 600000000) (mk_timespec 2 500000000) < 0 ↔ 1600000000 < 2500000000) ∧
  (timespec_cmp (mk_timespec 1 600000000) (mk_timespec 2 500000000) = 0 ↔ 1600000000 = 2500000000).
Proof. apply (timespec_add_cmp (mk_timespec 1 600000000) (mk_timespec 2 500000000)); unfold normal; cbn; lia. Defined.
