(* ===== verification/Tasking.v ===== *)
(** * Tasking: threads, processes and processors

    The state that the scheduler ([Sched.v]), the blockers and the signals
    ([Signal.v]) share: [thread_t] of [tasking/thread.h], [proc_t] of
    [tasking/proc.h] and [cpu_t] of [platform/generic/cpu.h], with the fields that
    this code uses. The stacks, trap frames and address spaces of a thread are not
    part of it.

    A pointer to a thread is its place in the storage of the thread list, whose
    nodes hold 128 threads each and follow each other; a pointer to a process is
    its place in [proc]. *)
From coqutil Require Export Datatypes.RecordSetters.
Export RecordSetters.TriangleBracketNotations.
From S2P Require Import Prelude TimeManager.

#[global] Open Scope record_set.
#[global] Arguments RecordSetters.constant {E} newValue _ /.

(** ** Threads *)

Inductive thread_status :=
  | THREAD_STATUS_INVALID | THREAD_STATUS_ALLOCATED | THREAD_STATUS_RUNNING
  | THREAD_STATUS_STOPPED | THREAD_STATUS_BLOCKED | THREAD_STATUS_DYING.
#[global] Instance thread_status_eq_dec : EqDecision thread_status.
Proof. solve_decision. Defined.

Inductive blocker_reason :=
  | BLOCKER_INVALID | BLOCKER_JOIN | BLOCKER_READ | BLOCKER_WRITE | BLOCKER_SLEEP
  | BLOCKER_SELECT | BLOCKER_DUMPING | BLOCKER_STOP.
#[global] Instance blocker_reason_eq_dec : EqDecision blocker_reason.
Proof. solve_decision. Defined.

(** The functions that [should_unblock] points to. *)
Inductive unblocker := unblock_join | unblock_read | unblock_write | unblock_sleep | unblock_select.

Record blocker_t := mk_blocker {
  reason : blocker_reason;
  should_unblock : option unblocker;
  should_unblock_for_signal : bool;
}.

(** The bits of an [fd_set_t], four bytes. *)
Definition FD_SETSIZE : Z := 32.
Record blocker_select_t := {
  nfds : Z;
  readfds : list Z;
  writefds : list Z;
  exceptfds : list Z;
  is_until_time_set : bool;
  select_until : timespec_t;
}.

(** The union [blocker_data]. *)
Inductive blocker_data_t :=
  | data_none
  | data_join (joinee : Z) (join_pid : Z)
  | data_rw (fd : Z * Z)
  | data_sleep (until : timespec_t)
  | data_select (d : blocker_select_t).

(** The null pointer is [None]. [frames] stands for what the signal code pushed
    on the stacks: the signals whose handlers the thread is set up to run. *)
Record thread_t := mk_thread {
  process : option Z;
  tid : Z;
  status : thread_status;
  sched_prev : option Z;
  sched_next : option Z;
  last_cpu : Z;
  ticks_until_preemption : Z;
  start_time_in_ticks : Z;
  blocker : blocker_t;
  blocker_data : blocker_data_t;
  stat_total_running_ticks : Z;
  signals_mask : Z;
  pending_signals_mask : Z;
  signal_handlers : list Z;
  frames : list Z;
}.

Definition thread_is_freed (th : thread_t) : bool := bool_decide (status th = THREAD_STATUS_INVALID).
Definition thread_is_alive (th : thread_t) : bool := negb (thread_is_freed th).

Definition THREADS_PER_NODE : Z := 128.
Definition SIGNALS_CNT : Z := 32.

(** The bytes of a fresh node are 0. *)
Definition zero_thread : thread_t :=
  mk_thread None 0 THREAD_STATUS_INVALID None None 0 0 0 (mk_blocker BLOCKER_INVALID None false)
    data_none 0 0 0 (replicate 32 0) [].

(** ** Processes *)

Inductive proc_status := PROC_INVALID | PROC_ALIVE | PROC_DEAD | PROC_DYING | PROC_ZOMBIE.
#[global] Instance proc_status_eq_dec : EqDecision proc_status.
Proof. solve_decision. Defined.

Definition MAX_PROCESS_COUNT : Z := 1024.
Definition MAX_OPENED_FILES : Z := 16.

(** A file descriptor: the file, if it is open, and the offset. *)
Record file_descriptor_t := { file : option Z; offset : Z }.

Record proc_t := mk_proc {
  pid : Z;
  ppid : Z;
  prio : Z;
  pstatus : proc_status;
  main_thread : option Z;
  fds : option (list file_descriptor_t);
  exit_code : Z;
}.

Definition proc_is_alive (p : proc_t) : bool := bool_decide (pstatus p = PROC_ALIVE).

(** ** Processors *)

Definition MAX_PRIO : Z := 0.
Definition MIN_PRIO : Z := 11.
Definition IDLE_PRIO : Z := MIN_PRIO + 1.
Definition TOTAL_PRIOS_COUNT : Z := IDLE_PRIO - MAX_PRIO + 1.
Definition LAST_CPU_NOT_SET : Z := 0xffff.
Definition MAX_CPU_CNT : Z := 4.

Record runqueue_t := mk_runqueue { head : option Z; tail : option Z }.

Record sched_data_t := {
  next_read_prio : Z;
  master_buf : list runqueue_t;
  slave_buf : list runqueue_t;
  enqueued_tasks : Z;
}.

Record cpu_t := {
  id : Z;
  running_thread : option Z;
  idle_thread : option Z;
  sched : sched_data_t;
}.

(** ** The state *)

(** Whether a file can be read or written at an offset: the operations of the
    file system that a file comes from, where it has them. *)
Record file_ops_t := {
  can_read : Z → option (Z → bool);
  can_write : Z → option (Z → bool);
}.

Record state := {
  storage : list thread_t;   (* of all nodes *)
  empty_spots : Z;           (* of the last node *)
  proc : list proc_t;
  nxt_proc : Z;
  proc_next_pid : Z;
  cpus : list cpu_t;
  _active_cpus : Z;
  _enqueued_tasks : Z;
  time : timeman_t;
  files : file_ops_t;
}.

(** Reads and writes through pointers. *)
Definition thread_at (s : state) (t : Z) : option thread_t := (storage s).[t].
Definition on_thread (t : Z) (f : thread_t → thread_t) (s : state) : option state :=
  th ← (storage s).[t];
  ts ← (storage s).[t <- f th];
  Some (s <|storage := ts|>).

Definition proc_at (s : state) (p : Z) : option proc_t := (proc s).[p].
Definition on_proc (p : Z) (f : proc_t → proc_t) (s : state) : option state :=
  pr ← (proc s).[p];
  ps ← (proc s).[p <- f pr];
  Some (s <|proc := ps|>).

Definition cpu_at (s : state) (c : Z) : option cpu_t := (cpus s).[c].
Definition on_cpu (c : Z) (f : cpu_t → cpu_t) (s : state) : option state :=
  cp ← (cpus s).[c];
  cs ← (cpus s).[c <- f cp];
  Some (s <|cpus := cs|>).

(** The process of a thread. *)
Definition process_of (s : state) (t : Z) : option (Z * proc_t) :=
  th ← thread_at s t;
  p ← process th;
  pr ← proc_at s p;
  Some (p, pr).

(** [RUNNING_THREAD] on a CPU. *)
Definition RUNNING_THREAD (s : state) (cpu : Z) : option (option Z) :=
  c ← cpu_at s cpu; Some (running_thread c).
