(* ===== verification/Runqueue.v ===== *)
(** * Runqueue: the run queues of the scheduler, [kernel/tasking/sched.c]

    A CPU has two arrays of queues, one queue for each priority: threads are taken
    from the master array and enter the slave array, and the arrays are exchanged
    when the master one is empty. A queue is a doubly linked list through the
    threads. *)
From stdpp Require Import functions sets.
From S2P Require Import Prelude TimeManager Tasking.

(** ** Queues *)

Inductive side := Master | Slave.
#[global] Instance side_eq_dec : EqDecision side.
Proof. solve_decision. Defined.

(** A queue: its CPU, its array and its priority. *)
Definition qkey : Type := Z * side * Z.

Definition buf (b : side) (sd : sched_data_t) : list runqueue_t :=
  match b with Master => master_buf sd | Slave => slave_buf sd end.
Definition set_buf (b : side) (l : list runqueue_t) (sd : sched_data_t) : sched_data_t :=
  match b with Master => sd <|master_buf := l|> | Slave => sd <|slave_buf := l|> end.

Definition runqueue (s : state) (k : qkey) : option runqueue_t :=
  let '(c, b, p) := k in cp ← cpu_at s c; (buf b (sched cp)).[p].
Definition on_runqueue (k : qkey) (f : runqueue_t → runqueue_t) (s : state) : option state :=
  let '(c, b, p) := k in
  cp ← cpu_at s c;
  rq ← (buf b (sched cp)).[p];
  l ← (buf b (sched cp)).[p <- f rq];
  on_cpu c (λ cp, cp <|sched := set_buf b l (sched cp)|>) s.

(** Assignments to the fields of a thread and of a queue. *)
Definition set_prev (t : Z) (p : option Z) : state → option state := on_thread t (λ th, th <|sched_prev := p|>).
Definition set_next (t : Z) (n : option Z) : state → option state := on_thread t (λ th, th <|sched_next := n|>).
Definition set_head (k : qkey) (h : option Z) : state → option state := on_runqueue k (λ rq, rq <|head := h|>).
Definition set_tail (k : qkey) (t : option Z) : state → option state := on_runqueue k (λ rq, rq <|tail := t|>).
Definition count_tasks (c : Z) (n : Z) : state → option state :=
  on_cpu c (λ cp, cp <|sched := (sched cp) <|enqueued_tasks := s32 (enqueued_tasks (sched cp) + n)|> |>).

(** [thread->process->prio] *)
Definition prio_of (s : state) (t : Z) : option Z := '(_, p) ← process_of s t; Some (prio p).

(** ** Operations *)

Definition _sched_timeslices : list Z := [5; 5; 4; 4; 4; 3; 3; 3; 3; 2; 2; 1; 1].
Definition _sched_get_timeslice (s : state) (t : Z) : option Z := p ← prio_of s t; _sched_timeslices.[p].

Definition _sched_swap_buffers (c : Z) : state → option state :=
  on_cpu c (λ cp, cp <|sched := {| next_read_prio := 0;
    master_buf := slave_buf (sched cp); slave_buf := master_buf (sched cp);
    enqueued_tasks := enqueued_tasks (sched cp) |} |>).

Definition _sched_add_to_start_of_runqueue (c t : Z) (s : state) : option state :=
  p ← prio_of s t;
  let k := (c, Slave, p) in
  rq ← runqueue s k;
  s ← set_next t (head rq) s;
  s ← match head rq with
      | Some h => set_prev h (Some t) s
      | None => set_tail k (Some t) s
      end;
  set_head k (Some t) s.

Definition _sched_add_to_end_of_runqueue (c t : Z) (s : state) : option state :=
  p ← prio_of s t;
  let k := (c, Slave, p) in
  rq ← runqueue s k;
  s ← set_prev t (tail rq) s;
  s ← match tail rq with
      | Some l => set_next l (Some t) s
      | None => set_head k (Some t) s
      end;
  set_tail k (Some t) s.

Definition _sched_enqueue_impl (c t : Z) (s : state) : option state :=
  s ← _sched_add_to_start_of_runqueue c t s;
  count_tasks c 1 s.

(** The ends of one array's queue that point to the thread move past it. *)
Definition unlink_ends (k : qkey) (t : Z) (s : state) : option state :=
  th ← thread_at s t;
  rq ← runqueue s k;
  s ← (if decide (tail rq = Some t) then set_tail k (sched_prev th) s else Some s);
  rq ← runqueue s k;
  if decide (head rq = Some t) then set_head k (sched_next th) s else Some s.

(** The neighbours are linked to each other. *)
Definition unlink (t : Z) (s : state) : option state :=
  th ← thread_at s t;
  s ← match sched_prev th with Some p => set_next p (sched_next th) s | None => Some s end;
  th ← thread_at s t;
  s ← match sched_next th with Some n => set_prev n (sched_prev th) s | None => Some s end;
  s ← set_prev t None s;
  set_next t None s.

Definition _sched_dequeue_impl (c t : Z) (s : state) : option state :=
  p ← prio_of s t;
  s ← unlink_ends (c, Slave, p) t s;
  s ← unlink_ends (c, Master, p) t s;
  s ← unlink t s;
  count_tasks c (-1) s.

(** The load of the CPUs from [i] on against the least one so far. *)
Definition _sched_find_cpu_with_less_load (s : state) : option Z :=
  cp ← cpu_at s 0;
  '(_, id) ← for_n (Z.to_nat (_active_cpus s - 1)) 1 (λ i '(mx, id),
    cp ← cpu_at s i;
    let n := enqueued_tasks (sched cp) in
    Some (if n <? mx then (n, i) else (mx, id))) (enqueued_tasks (sched cp), 0);
  Some id.

Definition sched_enqueue (t : Z) (s : state) : option state :=
  s ← on_thread t (λ th, th <|status := THREAD_STATUS_RUNNING|>) s;
  '(pi, p) ← process_of s t;
  s ← (if MIN_PRIO <? prio p then on_proc pi (λ p, p <|prio := MIN_PRIO|>) s else Some s);
  th ← thread_at s t;
  s ← (if negb (last_cpu th =? LAST_CPU_NOT_SET) then _sched_enqueue_impl (last_cpu th) t s
       else
         cpu ← _sched_find_cpu_with_less_load s;
         s ← _sched_enqueue_impl cpu t s;
         on_thread t (λ th, th <|last_cpu := cpu|>) s);
  Some (s <|_enqueued_tasks := s32 (_enqueued_tasks s + 1)|>).

Definition sched_dequeue (t : Z) (s : state) : option state :=
  th ← thread_at s t;
  if negb (last_cpu th =? LAST_CPU_NOT_SET) then _sched_dequeue_impl (last_cpu th) t s else Some s.

(** What [resched] does before it switches to the scheduler's context: the
    running thread of the CPU enters its queue again if it still runs. The same
    without the context being saved. *)
Definition resched (cpu : Z) (s : state) : option state :=
  r ← RUNNING_THREAD s cpu;
  match r with
  | None => Some s
  | Some t =>
      now ← timeman_ticks_since_boot cpu (time s);
      s ← on_thread t (λ th, th <|stat_total_running_ticks :=
        u32 (stat_total_running_ticks th + u32 (now - start_time_in_ticks th))|>) s;
      th ← thread_at s t;
      if decide (status th = THREAD_STATUS_RUNNING)
      then _sched_add_to_end_of_runqueue (last_cpu th) t s else Some s
  end.

Definition resched_dont_save_context (cpu : Z) (s : state) : option state :=
  r ← RUNNING_THREAD s cpu;
  match r with
  | None => Some s
  | Some t =>
      th ← thread_at s t;
      if decide (status th = THREAD_STATUS_RUNNING) then
        now ← timeman_ticks_since_boot cpu (time s);
        s ← on_thread t (λ th, th <|stat_total_running_ticks :=
          u32 (stat_total_running_ticks th + u32 (now - start_time_in_ticks th))|>) s;
        _sched_add_to_end_of_runqueue (last_cpu th) t s
      else Some s
  end.

(** The timer's call; [true] if the thread is preempted. *)
Definition sched_tick (cpu : Z) (s : state) : option (bool * state) :=
  r ← RUNNING_THREAD s cpu;
  match r with
  | None => Some (false, s)
  | Some t =>
      s ← on_thread t (λ th, th <|ticks_until_preemption := u32 (ticks_until_preemption th - 1)|>) s;
      th ← thread_at s t;
      if ticks_until_preemption th =? 0 then s ← resched cpu s; Some (true, s) else Some (false, s)
  end.

(** The thread at the head of the first non-empty queue leaves it. *)
Definition take_next (c : Z) (s : state) : option (Z * state) :=
  cp ← cpu_at s c;
  let k := (c, Master, next_read_prio (sched cp)) in
  rq ← runqueue s k;
  t ← head rq;
  th ← thread_at s t;
  s ← set_head k (sched_next th) s;
  rq ← runqueue s k;
  s ← (if decide (tail rq = Some t) then set_tail k None s else Some s);
  th ← thread_at s t;
  s ← match sched_next th with Some n => set_prev n None s | None => Some s end;
  s ← set_prev t None s;
  s ← set_next t None s;
  Some (t, s).

(** ** What the operations leave alone

    The links of the threads and the queues of the CPUs are looked at through
    functions; everything else is the rest of the state. *)

Definition links (s : state) (t : Z) : option (option Z * option Z) :=
  th ← thread_at s t; Some (sched_prev th, sched_next th).

Definition erase_links (th : thread_t) : thread_t := th <|sched_prev := None|> <|sched_next := None|>.
Definition erase_queues (cp : cpu_t) : cpu_t :=
  cp <|sched := {| next_read_prio := next_read_prio (sched cp); master_buf := []; slave_buf := [];
                   enqueued_tasks := 0 |}|>.
Definition rest (s : state) : state :=
  s <|storage := map erase_links (storage s)|> <|cpus := map erase_queues (cpus s)|>.

Definition view (s : state) (L : Z → option (option Z * option Z)) (R : qkey → option runqueue_t) : Prop :=
  (∀ t, links s t = L t) ∧ (∀ k, runqueue s k = R k).

Lemma on_thread_spec s t f th : thread_at s t = Some th →
  ∃ s', on_thread t f s = Some s' ∧ s' = s <|storage := storage s'|> ∧
    ∀ x, thread_at s' x = if decide (t = x) then Some (f th) else thread_at s x.
Proof.
  intros Ht. pose proof (zget_Some _ _ _ Ht) as Hr. unfold on_thread, thread_at in *. rewrite Ht.
  cbn [mbind option_bind]. rewrite zset_in by done. cbn [mbind option_bind].
  eexists. split; [done|]. split; [done|]. intros x. by apply zget_insert.
Qed.

Lemma on_cpu_spec s c f cp : cpu_at s c = Some cp →
  ∃ s', on_cpu c f s = Some s' ∧ s' = s <|cpus := cpus s'|> ∧
    ∀ x, cpu_at s' x = if decide (c = x) then Some (f cp) else cpu_at s x.
Proof.
  intros Ht. pose proof (zget_Some _ _ _ Ht) as Hr. unfold on_cpu, cpu_at in *. rewrite Ht.
  cbn [mbind option_bind]. rewrite zset_in by done. cbn [mbind option_bind].
  eexists. split; [done|]. split; [done|]. intros x. by apply zget_insert.
Qed.

Lemma map_erase {A} (e : A → A) (l l' : list A) :
  (∀ i, e <$> l'.[i] = e <$> l.[i]) → map e l' = map e l.
Proof.
  intros He. apply list_eq. intros i. rewrite !list_lookup_fmap. specialize (He (Z.of_nat i)).
  by rewrite !zget_lookup, !Nat2Z.id in He by lia.
Qed.

Lemma map_erase_inv {A} (e : A → A) (l l' : list A) i : map e l' = map e l → e <$> l'.[i] = e <$> l.[i].
Proof.
  intros He. unfold zget. case_decide; [|done]. rewrite <- !list_lookup_fmap.
  change (e <$> l') with (map e l'). by rewrite He.
Qed.

Lemma rest_thread s s' t : rest s' = rest s →
  erase_links <$> thread_at s' t = erase_links <$> thread_at s t.
Proof. intros Hr. apply map_erase_inv. exact (f_equal storage Hr). Qed.

Lemma fn_insert_at {A B} `{EqDecision A} (f : A → B) a b t :
  <[a := t]> f b = if decide (a = b) then t else f b.
Proof. case_decide; [subst; apply fn_lookup_insert|by apply fn_lookup_insert_ne]. Qed.

Lemma rest_thread_Some s s' t th : rest s' = rest s → thread_at s t = Some th →
  ∃ th', thread_at s' t = Some th' ∧ erase_links th' = erase_links th.
Proof.
  intros Hr Ht. pose proof (rest_thread s s' t Hr) as He. rewrite Ht in He.
  destruct (thread_at s' t) as [th'|]; [|done]. exists th'. split; [done|]. by apply (inj Some) in He.
Qed.

(** The primitive assignments. *)
Lemma set_links_spec (g : option Z * option Z → option Z * option Z) (f : thread_t → thread_t)
    s L R t l :
  (∀ th, (sched_prev (f th), sched_next (f th)) = g (sched_prev th, sched_next th)) →
  (∀ th, erase_links (f th) = erase_links th) →
  view s L R → L t = Some l →
  ∃ s', on_thread t f s = Some s' ∧ view s' (<[t := Some (g l)]> L) R ∧ rest s' = rest s.
Proof.
  intros Hg He [HL HR] Hl. rewrite <- HL in Hl. unfold links in Hl.
  destruct (thread_at s t) as [th|] eqn:Hth; [|done]. injection Hl as <-.
  destruct (on_thread_spec s t f th Hth) as (s' & Hs' & Heq & Hat). exists s'. split; [done|].
  split; [split|].
  - intros x. unfold links. rewrite Hat, fn_insert_at. case_decide; [by rewrite <- Hg|apply HL].
  - intros [[c b] p]. rewrite <- HR. by rewrite Heq.
  - unfold rest. rewrite Heq. cbn. f_equal.
    apply map_erase. intros i. change (erase_links <$> thread_at s' i = erase_links <$> thread_at s i). rewrite Hat.
    case_decide; [subst i; rewrite Hth; exact (f_equal Some (He th))|done].
Qed.

Lemma set_prev_spec s L R t p n v : view s L R → L t = Some (p, n) →
  ∃ s', set_prev t v s = Some s' ∧ view s' (<[t := Some (v, n)]> L) R ∧ rest s' = rest s.
Proof. intros Hv Hl. by apply (set_links_spec (λ l, (v, l.2)) (λ th, th <|sched_prev := v|>) s L R t (p, n)). Qed.

Lemma set_next_spec s L R t p n v : view s L R → L t = Some (p, n) →
  ∃ s', set_next t v s = Some s' ∧ view s' (<[t := Some (p, v)]> L) R ∧ rest s' = rest s.
Proof. intros Hv Hl. by apply (set_links_spec (λ l, (l.1, v)) (λ th, th <|sched_next := v|>) s L R t (p, n)). Qed.

Lemma set_queue_spec (f : runqueue_t → runqueue_t) s L R k rq : view s L R → R k = Some rq →
  ∃ s', on_runqueue k f s = Some s' ∧ view s' L (<[k := Some (f rq)]> R) ∧ rest s' = rest s.
Proof.
  intros [HL HR] Hk. rewrite <- HR in Hk. destruct k as [[c b] p]. unfold runqueue, on_runqueue in *.
  destruct (cpu_at s c) as [cp|] eqn:Hc; [|done]. cbn [mbind option_bind] in *. rewrite Hk. cbn [mbind option_bind].
  pose proof (zget_Some _ _ _ Hk) as Hr. rewrite zset_in by done. cbn [mbind option_bind].
  set (l := <[Z.to_nat p := f rq]> (buf b (sched cp))).
  destruct (on_cpu_spec s c (λ cp, cp <|sched := set_buf b l (sched cp)|>) cp Hc) as (s' & Hs' & Heq & Hat).
  exists s'. split; [done|]. split; [split|].
  - intros x. rewrite <- HL. unfold links, thread_at. by rewrite Heq.
  - intros [[c' b'] p']. rewrite fn_insert_at, <- HR. unfold runqueue. rewrite Hat.
    destruct (decide (c = c')) as [<-|Hne]; [|by rewrite decide_False by congruence].
    rewrite Hc. cbn. destruct (decide (b = b')) as [<-|Hb].
    + assert (buf b (set_buf b l (sched cp)) = l) as -> by by destruct b. unfold l.
      rewrite zget_insert by done. case_decide; [by subst; rewrite decide_True|by rewrite decide_False by congruence].
    + rewrite decide_False by congruence. by destruct b, b'.
  - unfold rest. rewrite Heq. cbn. f_equal. apply map_erase. intros i.
    change (erase_queues <$> cpu_at s' i = erase_queues <$> cpu_at s i). rewrite Hat.
    case_decide; [subst i; rewrite Hc; by destruct b|done].
Qed.

Lemma set_head_spec s L R k h t v : view s L R → R k = Some (mk_runqueue h t) →
  ∃ s', set_head k v s = Some s' ∧ view s' L (<[k := Some (mk_runqueue v t)]> R) ∧ rest s' = rest s.
Proof. intros Hv Hk. exact (set_queue_spec (λ rq, rq <|head := v|>) s L R k _ Hv Hk). Qed.

Lemma set_tail_spec s L R k h t v : view s L R → R k = Some (mk_runqueue h t) →
  ∃ s', set_tail k v s = Some s' ∧ view s' L (<[k := Some (mk_runqueue h v)]> R) ∧ rest s' = rest s.
Proof. intros Hv Hk. exact (set_queue_spec (λ rq, rq <|tail := v|>) s L R k _ Hv Hk). Qed.

Lemma count_tasks_spec s L R k n rq : view s L R → R k = Some rq →
  ∃ s', count_tasks k.1.1 n s = Some s' ∧ view s' L R ∧ rest s' = rest s.
Proof.
  intros [HL HR] Hk. rewrite <- HR in Hk. destruct k as [[c b] p]. unfold runqueue in Hk.
  destruct (cpu_at s c) as [cp|] eqn:Hc; [|done]. cbn [fst].
  destruct (on_cpu_spec s c (λ cp, cp <|sched := (sched cp) <|enqueued_tasks := s32 (enqueued_tasks (sched cp) + n)|> |>)
    cp Hc) as (s' & Hs' & Heq & Hat).
  exists s'. split; [done|]. split; [split|].
  - intros x. rewrite <- HL. unfold links, thread_at. by rewrite Heq.
  - intros [[c' b'] p']. rewrite <- HR. unfold runqueue. rewrite Hat.
    case_decide; [subst c'; rewrite Hc; by destruct b'|done].
  - unfold rest. rewrite Heq. cbn. f_equal. apply map_erase. intros i.
    change (erase_queues <$> cpu_at s' i = erase_queues <$> cpu_at s i). rewrite Hat.
    case_decide; [subst i; by rewrite Hc|done].
Qed.

(** ** Lists of threads *)

(** The links go through the threads of [l], from [prev] before it to [nxt]
    behind it. *)
Fixpoint seg (L : Z → option (option Z * option Z)) (prev : option Z) (l : list Z) (nxt : option Z) : Prop :=
  match l with
  | [] => True
  | t :: l => L t = Some (prev, from_option Some nxt (hd_error l)) ∧ seg L (Some t) l nxt
  end.

Lemma seg_app L prev l1 l2 nxt :
  seg L prev (l1 ++ l2) nxt ↔
  seg L prev l1 (from_option Some nxt (hd_error l2)) ∧ seg L (from_option Some prev (last l1)) l2 nxt.
Proof.
  revert prev. induction l1 as [|t l1 IH]; intros prev; [simpl; tauto|].
  cbn [app seg]. rewrite IH.
  assert (from_option Some nxt (hd_error (l1 ++ l2)) =
    from_option Some (from_option Some nxt (hd_error l2)) (hd_error l1)) as -> by by destruct l1.
  assert (from_option Some prev (last (t :: l1)) = from_option Some (Some t) (last l1)) as ->.
  { rewrite last_cons. by destruct (last l1). }
  tauto.
Qed.

Lemma seg_frame L L' prev l nxt : (∀ x, x ∈ l → L' x = L x) → seg L prev l nxt → seg L' prev l nxt.
Proof.
  revert prev. induction l as [|t l IH]; intros prev Hf; [done|]. intros [Ht Hl]. split.
  - rewrite Hf by set_solver. done.
  - apply IH; [set_solver|done].
Qed.

Lemma seg_insert L prev l nxt x v : x ∉ l → seg L prev l nxt → seg (<[x := v]> L) prev l nxt.
Proof. intros Hx. apply seg_frame. intros y Hy. apply fn_lookup_insert_ne. set_solver. Qed.

(** The first link of a segment changes with what is before it, the last one with
    what is behind it. *)
Lemma seg_set_prev L prev prev' t l nxt n : t ∉ l → L t = Some (prev, n) →
  seg L prev (t :: l) nxt → seg (<[t := Some (prev', n)]> L) prev' (t :: l) nxt.
Proof.
  intros Ht HL [Hl Hseg]. split.
  - rewrite fn_lookup_insert. congruence.
  - by apply seg_insert.
Qed.

Lemma seg_set_next L prev l t nxt nxt' p : t ∉ l → L t = Some (p, nxt) →
  seg L prev (l ++ [t]) nxt → seg (<[t := Some (p, nxt')]> L) prev (l ++ [t]) nxt'.
Proof.
  intros Ht HL. rewrite !seg_app. cbn [hd_error from_option seg]. intros (Hl & Hp & _).
  split; [by apply seg_insert|]. split; [|done]. rewrite fn_lookup_insert. congruence.
Qed.

(** ** Invariant *)

(** The queues of the running CPUs. *)
Definition valid_key (s : state) (k : qkey) : Prop :=
  0 <= k.1.1 < _active_cpus s ∧ 0 <= k.2 < TOTAL_PRIOS_COUNT.

(** A thread that may be in a queue: it has the priority of the queue. *)
Definition may_queue (s : state) (k : qkey) (t : Z) : Prop := prio_of s t = Some k.2.

(** The queues hold the threads [Q] gives them. *)
Record queues (s : state) (Q : qkey → list Z) : Prop := {
  q_ends k : valid_key s k → runqueue s k = Some (mk_runqueue (hd_error (Q k)) (last (Q k)));
  q_seg k : seg (links s) None (Q k) None;
  q_in k t : t ∈ Q k → valid_key s k ∧ may_queue s k t;
  q_nodup k : NoDup (Q k);
  q_disj k k' t : t ∈ Q k → t ∈ Q k' → k = k';
  q_free t l : (∀ k, t ∉ Q k) → links s t = Some l → l = (None, None);
}.

Lemma prio_of_rest s s' t : rest s' = rest s → prio_of s' t = prio_of s t.
Proof.
  intros Hr. pose proof (rest_thread s s' t Hr) as Ht.
  unfold prio_of, process_of, proc_at. rewrite (f_equal proc Hr : proc s' = proc s).
  destruct (thread_at s' t) as [th'|], (thread_at s t) as [th|]; try done.
  apply (inj Some) in Ht. cbn [mbind option_bind]. by rewrite (f_equal process Ht : process th' = process th).
Qed.

Lemma may_queue_rest s s' k t : rest s' = rest s → may_queue s k t → may_queue s' k t.
Proof. intros Hr. unfold may_queue. by rewrite (prio_of_rest s s'). Qed.

Lemma prio_of_thread s t p : prio_of s t = Some p → is_Some (thread_at s t).
Proof. unfold prio_of, process_of. destruct (thread_at s t); [eauto|done]. Qed.

Lemma valid_key_rest s s' k : rest s' = rest s → valid_key s' k ↔ valid_key s k.
Proof. intros Hr. unfold valid_key. by rewrite (f_equal _active_cpus Hr : _active_cpus s' = _active_cpus s). Qed.

(** A thread that is in no queue has no links. *)
Lemma unqueued_links s Q t : queues s Q → is_Some (thread_at s t) → (∀ k, t ∉ Q k) →
  links s t = Some (None, None).
Proof.
  intros HQ [th Hth] Hno. assert (∃ l, links s t = Some l) as [l Hl] by (unfold links; rewrite Hth; eauto).
  rewrite Hl. f_equal. by apply (q_free s Q HQ t).
Qed.

(** To replace one queue: its ends and its links are right, the other threads'
    links are as before. *)
Lemma queues_update s s' Q k l R :
  queues s Q → valid_key s k → rest s' = rest s →
  view s' R (<[k := Some (mk_runqueue (hd_error l) (last l))]> (runqueue s)) →
  seg R None l None → NoDup l → (∀ t, t ∈ l → may_queue s k t) →
  (∀ k' t, t ∈ l → t ∈ Q k' → k' = k) →
  (∀ k' t, k' ≠ k → t ∈ Q k' → R t = links s t) →
  (∀ t p, t ∉ l → (∀ k', k' ≠ k → t ∉ Q k') → R t = Some p → p = (None, None)) →
  queues s' (<[k := l]> Q).
Proof.
  intros HQ Hk Hr [HL HR] Hseg Hnd Hin Hdis Hfr Hfree. split.
  - intros k' Hk'. rewrite HR, !fn_insert_at. case_decide as Hkk; [done|]. apply HQ.
    by apply (valid_key_rest s s').
  - intros k'. apply (seg_frame R); [done|]. rewrite fn_insert_at. case_decide; [done|].
    apply (seg_frame (links s)); [|apply HQ]. intros x Hx. by apply (Hfr k').
  - intros k' t. rewrite fn_insert_at, (valid_key_rest s s') by done. case_decide; [subst k'|].
    + intros Ht. split; [done|]. by apply (may_queue_rest s), Hin.
    + intros Ht. destruct (q_in s Q HQ k' t Ht). split; [done|]. by apply (may_queue_rest s).
  - intros k'. rewrite fn_insert_at. case_decide; [done|]. apply HQ.
  - intros k1 k2 t. rewrite !fn_insert_at. repeat case_decide; subst; [done| | |].
    + intros H1 H2. symmetry. by apply (Hdis k2 t).
    + intros H1 H2. by apply (Hdis k1 t).
    + apply HQ.
  - intros t p Ht. rewrite HL. apply Hfree.
    + specialize (Ht k). by rewrite fn_lookup_insert in Ht.
    + intros k' Hne. specialize (Ht k'). by rewrite fn_lookup_insert_ne in Ht.
Qed.

Lemma view_refl s : view s (links s) (runqueue s).
Proof. done. Qed.

Lemma view_ends s L k rq rq' R :
  view s L (<[k := rq']> (<[k := rq]> R)) → view s L (<[k := rq']> R).
Proof.
  intros [HL HR]. split; [done|]. intros k'. rewrite HR, !fn_insert_at. by case_decide.
Qed.

(** ** Entering a queue *)

Section enter.
Context (s : state) (Q : qkey → list Z) (c p t : Z).
Let k : qkey := (c, Slave, p).
Hypothesis HQ : queues s Q.
Hypothesis Hk : valid_key s k.
Hypothesis Ht : may_queue s k t.
Hypothesis Hfree : ∀ k', t ∉ Q k'.

Lemma enter_links : links s t = Some (None, None).
Proof.
  apply (unqueued_links s Q); [done| |done]. by eapply prio_of_thread.
Qed.

Lemma enter_update s' l L : l ≡ₚ t :: Q k → rest s' = rest s →
  view s' L (<[k := Some (mk_runqueue (hd_error l) (last l))]> (runqueue s)) → seg L None l None →
  (∀ x, x ∉ l → L x = links s x) → queues s' (<[k := l]> Q).
Proof.
  intros Hl Hr Hv Hseg Hfr.
  apply (queues_update s s' Q k l L); try done.
  - rewrite Hl. constructor; [apply Hfree|apply HQ].
  - intros x. rewrite Hl. intros [->|Hx]%elem_of_cons; [done|]. by apply (q_in s Q HQ).
  - intros k' x. rewrite Hl. intros [->|Hx]%elem_of_cons Hx'; [by apply Hfree in Hx'|].
    by apply (q_disj s Q HQ k' k x).
  - intros k' x Hne Hx. apply Hfr. rewrite Hl. intros [->|Hx']%elem_of_cons; [by apply Hfree in Hx|].
    apply Hne. by apply (q_disj s Q HQ k' k x).
  - intros x l' Hx Hx'. rewrite Hfr by done. apply (q_free s Q HQ). intros k'.
    destruct (decide (k' = k)) as [->|]; [|by apply Hx'].
    intros Hin. apply Hx. rewrite Hl. by right.
Qed.

Lemma add_to_start_spec : ∃ s', _sched_add_to_start_of_runqueue c t s = Some s' ∧
  queues s' (<[k := t :: Q k]> Q) ∧ rest s' = rest s.
Proof.
  unfold _sched_add_to_start_of_runqueue. rewrite (Ht : prio_of s t = Some p). cbn [mbind option_bind]. fold k.
  pose proof (q_ends s Q HQ k Hk) as Hrq. rewrite Hrq. cbn [mbind option_bind head].
  destruct (set_next_spec s _ _ t _ _ (hd_error (Q k)) (view_refl s) enter_links) as (s1 & -> & Hv1 & Hr1).
  cbn [mbind option_bind]. pose proof (q_seg s Q HQ k) as Hseg. pose proof (q_nodup s Q HQ k) as Hnd.
  destruct (Q k) as [|h l] eqn:El; cbn [hd_error] in *.
  - destruct (set_tail_spec s1 _ _ k _ _ (Some t) Hv1 Hrq) as (s2 & Hs2 & Hv2 & Hr2).
    cbn [last]. rewrite Hs2.
    cbn [mbind option_bind].
    destruct (set_head_spec s2 _ _ k _ _ (Some t) Hv2 (fn_lookup_insert _ _ _))
      as (s3 & Hs3 & Hv3%view_ends & Hr3).
    exists s3. split; [exact Hs3|]. split; [|congruence].
    eapply enter_update; [by rewrite El|congruence|exact Hv3| |].
    + split; [|done]. by rewrite fn_lookup_insert.
    + intros x Hx. rewrite fn_lookup_insert_ne; [done|set_solver].
  - assert (t ≠ h) as Hne by (intros ->; apply (Hfree k); rewrite El; by left).
    destruct Hseg as [Hh Hl]. apply NoDup_cons in Hnd as [Hhl Hnd].
    assert (<[t := Some (None, Some h)]> (links s) h = Some (None, from_option Some None (hd_error l))) as Hh1.
    { by rewrite fn_lookup_insert_ne. }
    destruct (set_prev_spec s1 _ _ h _ _ (Some t) Hv1 Hh1) as (s2 & -> & Hv2 & Hr2). cbn [mbind option_bind].
    destruct (set_head_spec s2 _ _ k _ _ (Some t) Hv2 Hrq) as (s3 & Hs3 & Hv3 & Hr3).
    exists s3. split; [exact Hs3|]. split; [|congruence].
    assert (t ∉ l) as Htl by (intros Hin; apply (Hfree k); rewrite El; by right).
    eapply enter_update; [by rewrite El|congruence|exact Hv3| |].
    + split; [by rewrite fn_lookup_insert_ne, fn_lookup_insert by done|].
      split; [by rewrite fn_lookup_insert|]. by apply seg_insert, seg_insert.
    + intros x Hx. rewrite !fn_lookup_insert_ne; [done|set_solver..].
Qed.

Lemma add_to_end_spec : ∃ s', _sched_add_to_end_of_runqueue c t s = Some s' ∧
  queues s' (<[k := Q k ++ [t]]> Q) ∧ rest s' = rest s.
Proof.
  unfold _sched_add_to_end_of_runqueue. rewrite (Ht : prio_of s t = Some p). cbn [mbind option_bind]. fold k.
  pose proof (q_ends s Q HQ k Hk) as Hrq. rewrite Hrq. cbn [mbind option_bind tail].
  destruct (set_prev_spec s _ _ t _ _ (last (Q k)) (view_refl s) enter_links) as (s1 & -> & Hv1 & Hr1).
  cbn [mbind option_bind]. pose proof (q_seg s Q HQ k) as Hseg. pose proof (q_nodup s Q HQ k) as Hnd.
  destruct (Q k) as [|h l _] eqn:El using rev_ind.
  - destruct (set_head_spec s1 _ _ k _ _ (Some t) Hv1 Hrq) as (s2 & Hs2 & Hv2 & Hr2).
    cbn [last]. rewrite Hs2.
    cbn [mbind option_bind].
    destruct (set_tail_spec s2 _ _ k _ _ (Some t) Hv2 (fn_lookup_insert _ _ _))
      as (s3 & Hs3 & Hv3%view_ends & Hr3).
    exists s3. split; [exact Hs3|]. split; [|congruence].
    eapply enter_update; [by rewrite El|congruence|exact Hv3| |].
    + split; [|done]. by rewrite fn_lookup_insert.
    + intros x Hx. rewrite fn_lookup_insert_ne; [done|set_solver].
  - rewrite last_snoc in *. pose proof (Hfree k) as Htk. rewrite El, elem_of_app, list_elem_of_singleton in Htk.
    assert (t ≠ h) as Hne by tauto. assert (t ∉ l) as Htl by tauto.
    apply NoDup_app in Hnd as (Hnd & Hlh & _).
    pose proof (proj1 (seg_app _ _ _ _ _) Hseg) as (Hl & Hh & _). cbn [hd_error from_option] in Hh.
    assert (<[t := Some (Some h, None)]> (links s) h = Some (from_option Some None (last l), None)) as Hh1.
    { by rewrite fn_lookup_insert_ne. }
    destruct (set_next_spec s1 _ _ h _ _ (Some t) Hv1 Hh1) as (s2 & -> & Hv2 & Hr2). cbn [mbind option_bind].
    destruct (set_tail_spec s2 _ _ k _ _ (Some t) Hv2 Hrq) as (s3 & Hs3 & Hv3 & Hr3).
    exists s3. split; [exact Hs3|]. split; [|congruence].
    eapply enter_update; [by rewrite El, <- Permutation_cons_append|congruence| | |].
    + replace (hd_error ((l ++ [h]) ++ [t])) with (hd_error (l ++ [h])) by by destruct l.
      rewrite last_snoc. exact Hv3.
    + rewrite seg_app, last_snoc. cbn [hd_error from_option]. split.
      * apply (seg_set_next _ _ _ _ None); [intros Hin; apply (Hlh h Hin); by left|done|].
        apply seg_insert; [|done]. rewrite elem_of_app, list_elem_of_singleton. tauto.
      * split; [|done]. by rewrite fn_lookup_insert_ne, fn_lookup_insert.
    + intros x Hx. rewrite !elem_of_app, !list_elem_of_singleton in Hx.
      rewrite !fn_lookup_insert_ne; [done|intros ->; tauto..].
Qed.
End enter.

(** ** Leaving a queue *)

Lemma links_thread s t p n : links s t = Some (p, n) →
  ∃ th, thread_at s t = Some th ∧ sched_prev th = p ∧ sched_next th = n.
Proof.
  unfold links. destruct (thread_at s t) as [th|]; [|done]. intros [= <- <-]. eauto.
Qed.

(** The thread is not at an end of the queue. *)
Lemma unlink_ends_absent s k t l : is_Some (thread_at s t) → t ∉ l →
  runqueue s k = Some (mk_runqueue (hd_error l) (last l)) → unlink_ends k t s = Some s.
Proof.
  intros [th Hth] Ht Hrq. unfold unlink_ends. rewrite Hth, Hrq. cbn [mbind option_bind tail].
  rewrite decide_False by (intros Hl; by apply last_Some_elem_of in Hl).
  cbn [mbind option_bind]. rewrite Hrq. cbn [mbind option_bind head].
  rewrite decide_False; [done|]. intros Hh. apply Ht. destruct l; [done|]. injection Hh as ->. by left.
Qed.

Lemma unlink_ends_spec s L R k t l1 l2 : view s L R →
  R k = Some (mk_runqueue (hd_error (l1 ++ t :: l2)) (last (l1 ++ t :: l2))) →
  L t = Some (last l1, hd_error l2) → NoDup (l1 ++ t :: l2) →
  ∃ s', unlink_ends k t s = Some s' ∧
    view s' L (<[k := Some (mk_runqueue (hd_error (l1 ++ l2)) (last (l1 ++ l2)))]> R) ∧ rest s' = rest s.
Proof.
  intros Hv Hk Ht Hnd. pose proof Hv as [HL HR]. apply NoDup_app in Hnd as (_ & Hl1 & Hl2).
  apply NoDup_cons in Hl2 as [Hl2 _].
  assert (t ∉ l1) as Hl1' by (intros Hin; apply (Hl1 t Hin); by left).
  rewrite <- HL in Ht. destruct (links_thread _ _ _ _ Ht) as (th & Hth & Hp & Hn).
  unfold unlink_ends. rewrite Hth, HR, Hk. cbn [mbind option_bind tail]. rewrite Hp, Hn.
  rewrite last_app_cons. rewrite last_cons.
  assert (∃ s1, (if decide (match last l2 with Some y => Some y | None => Some t end = Some t)
      then set_tail k (last l1) s else Some s) = Some s1 ∧
    view s1 L (<[k := Some (mk_runqueue (hd_error (l1 ++ t :: l2)) (last (l1 ++ l2)))]> R) ∧ rest s1 = rest s)
    as (s1 & -> & Hv1 & Hr1).
  { destruct (decide (l2 = [])) as [->|Hne].
    - cbn [last]. rewrite decide_True, app_nil_r by done.
      exact (set_tail_spec s L R k _ _ (last l1) Hv Hk).
    - assert (last l2 ≠ Some t) by (intros E; by apply last_Some_elem_of in E).
      destruct (last l2) as [z|] eqn:El; [|by apply last_None in El]. rewrite decide_False by done.
      exists s. split; [done|]. split; [|done]. split; [done|]. intros k'. rewrite fn_insert_at.
      case_decide; [subst k'|apply HR]. rewrite HR, Hk. do 2 f_equal.
      by rewrite last_app_cons, last_cons, last_app, El. }
  cbn [mbind option_bind]. rewrite (proj2 Hv1), fn_lookup_insert. cbn [mbind option_bind head].
  destruct l1 as [|a l1]; cbn [app hd_error].
  - rewrite decide_True by done.
    destruct (set_head_spec s1 _ _ k _ _ (hd_error l2) Hv1 (fn_lookup_insert _ _ _))
      as (s2 & Hs2 & Hv2%view_ends & Hr2).
    exists s2. split; [exact Hs2|]. split; [exact Hv2|congruence].
  - rewrite decide_False; [by exists s1|]. intros [= ->]. apply Hl1'. by left.
Qed.

Lemma unlink_spec s L R t l1 l2 : view s L R → seg L None (l1 ++ t :: l2) None → NoDup (l1 ++ t :: l2) →
  ∃ s' L', unlink t s = Some s' ∧ view s' L' R ∧ rest s' = rest s ∧
    seg L' None (l1 ++ l2) None ∧ L' t = Some (None, None) ∧ (∀ x, x ∉ l1 ++ t :: l2 → L' x = L x).
Proof.
  intros Hv Hseg Hnd. pose proof (proj1 (seg_app _ _ _ _ _) Hseg) as (Hs1 & Ht & Hs2).
  cbn [hd_error from_option] in Hs1. replace (from_option Some None (last l1)) with (last l1) in Ht by by destruct (last l1).
  replace (from_option Some None (hd_error l2)) with (hd_error l2) in Ht by by destruct l2.
  apply NoDup_app in Hnd as (Hnd1 & Hd & Hnd2). apply NoDup_cons in Hnd2 as [Hl2 Hnd2].
  assert (t ∉ l1) as Hl1 by (intros Hin; apply (Hd t Hin); by left).
  unfold unlink. destruct (links_thread s t (last l1) (hd_error l2)) as (th & Hth & Hp & Hn).
  { by rewrite (proj1 Hv). }
  rewrite Hth. cbn [mbind option_bind]. rewrite Hp, Hn.
  (* the thread before it *)
  assert (∃ s1 L1, match last l1 with Some p => set_next p (hd_error l2) s | None => Some s end = Some s1 ∧
    view s1 L1 R ∧ rest s1 = rest s ∧ seg L1 None l1 (hd_error l2) ∧ (∀ x, x ∉ l1 → L1 x = L x))
    as (s1 & L1 & -> & Hv1 & Hr1 & Hseg1 & Hf1).
  { destruct l1 as [|a l1 _] using rev_ind; [by exists s, L|].
    rewrite last_snoc. pose proof (proj1 (seg_app _ _ _ _ _) Hs1) as (_ & Ha & _). cbn [hd_error from_option] in Ha.
    destruct (set_next_spec s L R a _ _ (hd_error l2) Hv Ha) as (s1 & -> & Hv1 & Hr1).
    eexists s1, _. split; [done|]. split; [exact Hv1|]. split; [done|].
    apply NoDup_app in Hnd1 as (_ & Ha' & _). split.
    - apply (seg_set_next _ _ _ _ (Some t)); [|done|done]. intros Hin. apply (Ha' a Hin). by left.
    - intros x Hx. apply fn_lookup_insert_ne. intros ->. apply Hx. apply elem_of_app. right. by left. }
  cbn [mbind option_bind].
  destruct (links_thread s1 t (last l1) (hd_error l2)) as (th1 & Hth1 & Hp1 & Hn1).
  { by rewrite (proj1 Hv1), Hf1. }
  rewrite Hth1. cbn [mbind option_bind]. rewrite Hp1, Hn1.
  (* the thread behind it *)
  assert (∃ s2 L2, match hd_error l2 with Some n => set_prev n (last l1) s1 | None => Some s1 end = Some s2 ∧
    view s2 L2 R ∧ rest s2 = rest s1 ∧ seg L2 (last l1) l2 None ∧ (∀ x, x ∉ l2 → L2 x = L1 x))
    as (s2 & L2 & -> & Hv2 & Hr2 & Hseg2 & Hf2).
  { assert (∀ x, x ∈ l2 → L1 x = L x) as Hl12.
    { intros x Hx. apply Hf1. intros Hx1. apply (Hd x Hx1). by right. }
    destruct l2 as [|b l2]; [by exists s1, L1|]. cbn [hd_error].
    assert (seg L1 (Some t) (b :: l2) None) as Hs2' by by apply (seg_frame L).
    pose proof (proj1 Hs2') as Hb. apply NoDup_cons in Hnd2 as [Hb2 _].
    destruct (set_prev_spec s1 L1 R b _ _ (last l1) Hv1 Hb) as (s2 & -> & Hv2 & Hr2).
    eexists s2, _. split; [done|]. split; [exact Hv2|]. split; [done|]. split.
    - by apply (seg_set_prev _ (Some t)).
    - intros x Hx. apply fn_lookup_insert_ne. intros ->. apply Hx. by left. }
  cbn [mbind option_bind].
  assert (L2 t = Some (last l1, hd_error l2)) as Ht2 by by rewrite Hf2, Hf1.
  destruct (set_prev_spec s2 L2 R t _ _ None Hv2 Ht2) as (s3 & -> & Hv3 & Hr3). cbn [mbind option_bind].
  destruct (set_next_spec s3 _ R t _ _ None Hv3 (fn_lookup_insert _ _ _)) as (s4 & -> & Hv4 & Hr4).
  eexists s4, _. split; [done|]. split; [exact Hv4|]. split; [congruence|].
  assert (∀ x, x ≠ t → <[t := Some (None, None)]> (<[t := Some (None, hd_error l2)]> L2) x = L2 x) as Hft.
  { intros x Hx. by rewrite !fn_lookup_insert_ne by done. }
  split; [|split; [by rewrite fn_lookup_insert|]].
  - apply (seg_frame L2); [intros x Hx; apply Hft; intros ->; apply elem_of_app in Hx; tauto|].
    rewrite seg_app. replace (from_option Some None (last l1)) with (last l1) by by destruct (last l1).
    replace (from_option Some None (hd_error l2)) with (hd_error l2) by by destruct l2.
    split; [|done]. apply (seg_frame L1); [|done]. intros x Hx. apply Hf2. intros Hx2. apply (Hd x Hx). by right.
  - intros x Hx. rewrite not_elem_of_app, not_elem_of_cons in Hx. rewrite Hft, Hf2, Hf1 by tauto. done.
Qed.

Lemma queues_ext s Q Q' : (∀ k, Q' k = Q k) → queues s Q → queues s Q'.
Proof.
  intros He HQ. split.
  - intros k Hk. rewrite He. by apply HQ.
  - intros k. rewrite He. apply HQ.
  - intros k t. rewrite He. apply HQ.
  - intros k. rewrite He. apply HQ.
  - intros k k' t. rewrite !He. apply HQ.
  - intros t l Ht. apply (q_free s Q HQ). intros k. rewrite <- He. apply Ht.
Qed.

Lemma queues_same s s' Q : rest s' = rest s → view s' (links s) (runqueue s) → queues s Q → queues s' Q.
Proof.
  intros Hr [HL HR] HQ. split.
  - intros k Hk. rewrite HR. by apply HQ, (valid_key_rest s s').
  - intros k. apply (seg_frame (links s)); [intros x _; apply HL|apply HQ].
  - intros k t Ht. destruct (q_in s Q HQ k t Ht). rewrite (valid_key_rest s s') by done.
    split; [done|]. by apply (may_queue_rest s).
  - apply HQ.
  - apply HQ.
  - intros t l Ht. rewrite HL. by apply (q_free s Q HQ).
Qed.

Lemma queues_remove s s' Q k t l1 l2 L : queues s Q → valid_key s k → Q k = l1 ++ t :: l2 → rest s' = rest s →
  view s' L (<[k := Some (mk_runqueue (hd_error (l1 ++ l2)) (last (l1 ++ l2)))]> (runqueue s)) →
  seg L None (l1 ++ l2) None → L t = Some (None, None) → (∀ x, x ∉ l1 ++ t :: l2 → L x = links s x) →
  queues s' (<[k := l1 ++ l2]> Q).
Proof.
  intros HQ Hk Hl Hr Hv Hseg Ht Hf.
  assert (∀ x, x ∈ Q k ↔ x = t ∨ x ∈ l1 ++ l2) as Hin.
  { intros x. rewrite Hl, !elem_of_app, elem_of_cons. tauto. }
  rewrite <- Hl in Hf.
  assert (l1 ++ t :: l2 ≡ₚ t :: (l1 ++ l2)) as Hperm by by rewrite Permutation_middle.
  apply (queues_update s s' Q k _ L); try done.
  - pose proof (q_nodup s Q HQ k) as Hnd. rewrite Hl, Hperm in Hnd. by apply NoDup_cons in Hnd as [_ ?].
  - intros x Hx. apply (q_in s Q HQ). apply Hin. by right.
  - intros k' x Hx Hx'. apply (q_disj s Q HQ k' k x); [done|]. apply Hin. by right.
  - intros k' x Hne Hx. apply Hf. intros Hx'. apply Hne. by apply (q_disj s Q HQ k' k x).
  - intros x p Hx Hx' HLx. destruct (decide (x = t)) as [->|Hne]; [congruence|].
    assert (x ∉ Q k) as Hxk by (rewrite Hin; tauto). rewrite Hf in HLx by done.
    apply (q_free s Q HQ x); [|done]. intros k'. destruct (decide (k' = k)) as [->|]; [done|by apply Hx'].
Qed.

(** The queues without a thread. *)
Definition without (t : Z) (Q : qkey → list Z) : qkey → list Z := λ k, filter (λ x, x ≠ t) (Q k).

Lemma filter_absent (t : Z) (l : list Z) : t ∉ l → filter (λ x, x ≠ t) l = l.
Proof.
  induction l as [|x l IH]; [done|]. intros Ht. rewrite filter_cons, decide_True, IH; [done|set_solver..].
Qed.

Lemma without_queued s Q k t l1 l2 : queues s Q → Q k = l1 ++ t :: l2 →
  ∀ k', without t Q k' = <[k := l1 ++ l2]> Q k'.
Proof.
  intros HQ Hl k'. unfold without. rewrite fn_insert_at. case_decide as Hk.
  - subst k'. pose proof (q_nodup s Q HQ k) as Hnd. rewrite Hl in Hnd |- *.
    apply NoDup_app in Hnd as (_ & Hd & Hnd). apply NoDup_cons in Hnd as [Ht _].
    rewrite filter_app, filter_cons, decide_False by tauto. f_equal; apply filter_absent; [|done].
    intros Hin. apply (Hd t Hin). by left.
  - apply filter_absent. intros Hin. apply Hk. apply (q_disj s Q HQ k k' t); [rewrite Hl; set_solver|done].
Qed.

Lemma unlink_free s t : links s t = Some (None, None) →
  ∃ s', unlink t s = Some s' ∧ view s' (links s) (runqueue s) ∧ rest s' = rest s.
Proof.
  intros Ht. unfold unlink. destruct (links_thread s t _ _ Ht) as (th & Hth & Hp & Hn). rewrite Hth.
  cbn [mbind option_bind]. rewrite Hp. cbn [mbind option_bind]. rewrite Hth. cbn [mbind option_bind]. rewrite Hn.
  cbn [mbind option_bind].
  destruct (set_prev_spec s _ _ t _ _ None (view_refl s) Ht) as (s1 & -> & Hv1 & Hr1). cbn [mbind option_bind].
  destruct (set_next_spec s1 _ _ t _ _ None Hv1 (fn_lookup_insert _ _ _)) as (s2 & -> & [HL HR] & Hr2).
  exists s2. split; [done|]. split; [|congruence]. split; [|done].
  intros x. rewrite HL, !fn_insert_at. by case_decide; subst.
Qed.

(** A thread leaves whichever queue of its CPU it is in, or none. *)
Lemma dequeue_impl_spec s Q c p t : queues s Q → valid_key s (c, Master, p) → prio_of s t = Some p →
  is_Some (thread_at s t) → (∀ k, t ∈ Q k → k.1.1 = c) →
  ∃ s', _sched_dequeue_impl c t s = Some s' ∧ queues s' (without t Q) ∧ rest s' = rest s.
Proof.
  intros HQ Hk Hp Hth Hc. assert (valid_key s (c, Slave, p)) as Hk' by done.
  pose proof (q_ends s Q HQ _ Hk) as HM. pose proof (q_ends s Q HQ _ Hk') as HS.
  unfold _sched_dequeue_impl. rewrite Hp. cbn [mbind option_bind].
  assert ((∃ b, t ∈ Q (c, b, p)) ∨ ¬ ∃ b, t ∈ Q (c, b, p)) as [[b Hb]|Hno].
  { destruct (decide (t ∈ Q (c, Master, p))); [left; by exists Master|].
    destruct (decide (t ∈ Q (c, Slave, p))); [left; by exists Slave|right; by intros [[] ?]]. }
  - assert (∀ k, k ≠ (c, b, p) → t ∉ Q k) as Hother.
    { intros k Hne Hin. apply Hne. by apply (q_disj s Q HQ _ _ t). }
    pose proof (q_seg s Q HQ (c, b, p)) as Hseg. pose proof (q_nodup s Q HQ (c, b, p)) as Hnd.
    pose proof (q_ends s Q HQ (c, b, p) (proj1 (q_in s Q HQ _ _ Hb))) as Hrq.
    apply list_elem_of_split in Hb as (l1 & l2 & Hl). rewrite Hl in Hseg, Hnd, Hrq.
    pose proof (proj1 (seg_app _ _ _ _ _) Hseg) as (_ & Ht & _).
    replace (from_option Some None (last l1)) with (last l1) in Ht by by destruct (last l1).
    replace (from_option Some None (hd_error l2)) with (hd_error l2) in Ht by by destruct l2.
    destruct (unlink_ends_spec s _ _ _ t l1 l2 (view_refl s) Hrq Ht Hnd) as (s1 & Hs1 & Hv1 & Hr1).
    assert (is_Some (thread_at s1 t)) as Hth1.
    { destruct Hth as [th Hth]. destruct (rest_thread_Some _ _ _ _ Hr1 Hth) as (th' & -> & _). eauto. }
    assert (∃ sa, unlink_ends (c, Slave, p) t s = Some sa ∧ unlink_ends (c, Master, p) t sa = Some s1)
      as (sa & -> & Hsa).
    { destruct b.
      - exists s. rewrite (unlink_ends_absent s _ t _ Hth (Hother (c, Slave, p) ltac:(intros [=])) HS). by rewrite Hs1.
      - exists s1. split; [done|]. apply (unlink_ends_absent s1 _ t (Q (c, Master, p))); [done|apply Hother; intros [=]|].
        rewrite (proj2 Hv1), fn_lookup_insert_ne; [done|intros [=]]. }
    cbn [mbind option_bind]. rewrite Hsa. cbn [mbind option_bind].
    destruct (unlink_spec s1 _ _ t l1 l2 Hv1 Hseg Hnd) as (s2 & L2 & -> & Hv2 & Hr2 & Hseg2 & Ht2 & Hf2).
    cbn [mbind option_bind].
    destruct (count_tasks_spec s2 _ _ (c, b, p) (-1) _ Hv2 (fn_lookup_insert _ _ _)) as (s3 & Hs3 & Hv3 & Hr3).
    exists s3. split; [exact Hs3|]. split; [|congruence].
    eapply queues_ext; [by eapply without_queued|].
    apply (queues_remove s s3 Q _ t l1 l2 L2); (done || congruence || by destruct b).
  - assert (∀ k, t ∉ Q k) as Hno'.
    { intros [[c' b] p'] Hin. apply Hno. exists b. destruct (q_in s Q HQ _ t Hin) as [_ Hp'].
      pose proof (Hc _ Hin) as Hc'. unfold may_queue in Hp'. cbn in Hc', Hp'. congruence. }
    rewrite (unlink_ends_absent s _ t _ Hth (Hno' _) HS). cbn [mbind option_bind].
    rewrite (unlink_ends_absent s _ t _ Hth (Hno' _) HM). cbn [mbind option_bind].
    destruct (unlink_free s t (unqueued_links s Q t HQ Hth Hno')) as (s1 & -> & Hv1 & Hr1). cbn [mbind option_bind].
    destruct (count_tasks_spec s1 _ _ _ (-1) _ Hv1 HM) as (s2 & Hs2 & Hv2 & Hr2).
    exists s2. split; [exact Hs2|]. split; [|congruence].
    apply (queues_ext _ Q); [intros k; by apply filter_absent|].
    apply (queues_same s); [congruence|done|done].
Qed.

(** ** The scheduler takes a thread *)

Lemma take_next_spec s Q c cp t l : queues s Q → cpu_at s c = Some cp →
  let k := (c, Master, next_read_prio (sched cp)) in
  valid_key s k → Q k = t :: l →
  ∃ s', take_next c s = Some (t, s') ∧ queues s' (<[k := l]> Q) ∧ rest s' = rest s.
Proof.
  intros HQ Hcp k Hk Hl. unfold take_next. rewrite Hcp. cbn [mbind option_bind]. fold k.
  pose proof (q_ends s Q HQ k Hk) as Hrq. pose proof (q_seg s Q HQ k) as Hseg. pose proof (q_nodup s Q HQ k) as Hnd.
  rewrite Hl in Hseg, Hnd, Hrq. rewrite Hrq. cbn [mbind option_bind head hd_error].
  pose proof Hseg as [Ht Hseg']. pose proof Hnd as Hnd0. apply NoDup_cons in Hnd0 as [Htl _].
  destruct (links_thread _ _ _ _ Ht) as (th & Hth & _ & Hn). rewrite Hth. cbn [mbind option_bind]. rewrite Hn.
  replace (from_option Some None (hd_error l)) with (hd_error l) in * by by destruct l.
  destruct (set_head_spec s _ _ k _ _ (hd_error l) (view_refl s) Hrq) as (s1 & -> & Hv1 & Hr1).
  cbn [mbind option_bind]. rewrite (proj2 Hv1), fn_lookup_insert. cbn [mbind option_bind tail].
  (* the tail *)
  assert (∃ s2, (if decide (last (t :: l) = Some t) then set_tail k None s1 else Some s1) = Some s2 ∧
    view s2 (links s) (<[k := Some (mk_runqueue (hd_error l) (last l))]> (runqueue s)) ∧ rest s2 = rest s)
    as (s2 & -> & Hv2 & Hr2).
  { destruct l as [|b l].
    - rewrite decide_True by done.
      destruct (set_tail_spec s1 _ _ k _ _ None Hv1 (fn_lookup_insert _ _ _)) as (s2 & -> & Hv2%view_ends & Hr2).
      exists s2. split; [done|]. split; [done|congruence].
    - rewrite last_cons_cons in *. rewrite decide_False by (intros E; by apply last_Some_elem_of in E).
      by exists s1. }
  cbn [mbind option_bind].
  destruct (links_thread s2 t None (hd_error l)) as (th2 & Hth2 & _ & Hn2); [by rewrite (proj1 Hv2)|].
  rewrite Hth2. cbn [mbind option_bind]. rewrite Hn2.
  (* the next thread *)
  assert (∃ s3 L3, match hd_error l with Some n => set_prev n None s2 | None => Some s2 end = Some s3 ∧
    view s3 L3 (<[k := Some (mk_runqueue (hd_error l) (last l))]> (runqueue s)) ∧ rest s3 = rest s2 ∧
    seg L3 None l None ∧ (∀ x, x ∉ l → L3 x = links s x)) as (s3 & L3 & -> & Hv3 & Hr3 & Hseg3 & Hf3).
  { destruct l as [|b l]; [by exists s2, (links s)|]. cbn [hd_error].
    destruct (set_prev_spec s2 _ _ b _ _ None Hv2 (proj1 Hseg')) as (s3 & -> & Hv3 & Hr3).
    eexists s3, _. split; [done|]. split; [exact Hv3|]. split; [done|]. split.
    - apply (seg_set_prev _ (Some t)); [|exact (proj1 Hseg')|done].
      apply NoDup_cons in Hnd as [_ Hnd]. by apply NoDup_cons in Hnd as [? _].
    - intros x Hx. apply fn_lookup_insert_ne. intros ->. apply Hx. by left. }
  cbn [mbind option_bind].
  assert (L3 t = Some (None, hd_error l)) as Ht3 by by rewrite Hf3.
  destruct (set_prev_spec s3 _ _ t _ _ None Hv3 Ht3) as (s4 & -> & Hv4 & Hr4). cbn [mbind option_bind].
  destruct (set_next_spec s4 _ _ t _ _ None Hv4 (fn_lookup_insert _ _ _)) as (s5 & -> & Hv5 & Hr5).
  cbn [mbind option_bind]. exists s5. split; [done|]. split; [|congruence].
  assert (∀ x, x ≠ t → <[t := Some (None, None)]> (<[t := Some (None, hd_error l)]> L3) x = L3 x) as Hft.
  { intros x Hx. by rewrite !fn_lookup_insert_ne by done. }
  eapply (queues_remove s s5 Q k t [] l _ HQ Hk Hl); [congruence|exact Hv5| | |].
  - apply (seg_frame L3); [|done]. intros x Hx. apply Hft. by intros ->.
  - by rewrite fn_lookup_insert.
  - intros x Hx. apply not_elem_of_cons in Hx as [Hx Hx']. by rewrite Hft, Hf3.
Qed.

(** The arrays of a CPU are exchanged. *)
Definition other (b : side) : side := match b with Master => Slave | Slave => Master end.
Definition swapped (c : Z) (k : qkey) : qkey :=
  let '(c', b, p) := k in if decide (c' = c) then (c', other b, p) else k.

Lemma swapped_swapped c k : swapped c (swapped c k) = k.
Proof. destruct k as [[c' b] p]. unfold swapped. repeat case_decide; (done || by destruct b). Qed.

(** The queues move to other places, and nothing happens to the threads. *)
Lemma queues_move s s' Q (σ : qkey → qkey) : queues s Q → s' = s <|cpus := cpus s'|> →
  (∀ k, σ (σ k) = k) → (∀ k, (σ k).1.1 = k.1.1 ∧ (σ k).2 = k.2) →
  (∀ k, valid_key s k → runqueue s' k = runqueue s (σ k)) → queues s' (λ k, Q (σ k)).
Proof.
  intros HQ Heq Hinv Hσ Hrq.
  assert (∀ k, valid_key s' k ↔ valid_key s (σ k)) as Hv.
  { intros k. destruct (Hσ k) as [H1 H2]. unfold valid_key. by rewrite H1, H2, Heq. }
  assert (∀ t, thread_at s' t = thread_at s t) as Hth by (intros t; by rewrite Heq).
  assert (∀ t, links s' t = links s t) as HL by (intros t; unfold links; by rewrite Hth).
  assert (∀ t, prio_of s' t = prio_of s t) as Hp.
  { intros t. unfold prio_of, process_of, proc_at. by rewrite Hth, Heq. }
  split.
  - intros k Hk. rewrite Hrq.
    + apply HQ. by apply Hv.
    + destruct (Hσ k) as [H1 H2]. unfold valid_key in *. by rewrite Heq in Hk.
  - intros k. apply (seg_frame (links s)); [intros x _; apply HL|apply HQ].
  - intros k t Ht. destruct (q_in s Q HQ (σ k) t Ht) as [Hk Hm]. rewrite Hv. split; [done|].
    destruct (Hσ k) as [H1 H2]. unfold may_queue. by rewrite Hp, <- H2.
  - intros k. apply HQ.
  - intros k k' t H1 H2. rewrite <- (Hinv k), <- (Hinv k'). f_equal. by apply (q_disj s Q HQ _ _ t).
  - intros t l Ht. rewrite HL. apply (q_free s Q HQ). intros k. rewrite <- (Hinv k). apply Ht.
Qed.

Lemma swap_spec s Q c cp : queues s Q → cpu_at s c = Some cp →
  ∃ s', _sched_swap_buffers c s = Some s' ∧ queues s' (λ k, Q (swapped c k)) ∧ s' = s <|cpus := cpus s'|> ∧
    ∃ cp', next_read_prio (sched cp') = 0 ∧ running_thread cp' = running_thread cp ∧
      ∀ x, cpu_at s' x = if decide (c = x) then Some cp' else cpu_at s x.
Proof.
  intros HQ Hcp. unfold _sched_swap_buffers.
  match goal with |- context [on_cpu c ?f s] => destruct (on_cpu_spec s c f cp Hcp) as (s' & -> & Heq & Hat) end.
  exists s'. split; [done|].
  split; [|split; [done|]].
  - apply (queues_move s s'); [done|done|apply swapped_swapped| |].
    + intros [[c' b] p]. unfold swapped. by case_decide.
    + intros [[c' b] p] _. unfold swapped, runqueue. rewrite Hat. repeat case_decide; subst; try done.
      rewrite Hcp. cbn. by destruct b.
  - eexists. split; [|split]; [..|exact Hat]; done.
Qed.

(** ** Threads enter and leave by their state *)

(** Other fields of a thread do not matter. *)
Lemma queues_on_thread s Q t f th : queues s Q → thread_at s t = Some th →
  (∀ th, process (f th) = process th ∧ sched_prev (f th) = sched_prev th ∧ sched_next (f th) = sched_next th) →
  ∃ s', on_thread t f s = Some s' ∧ queues s' Q ∧ s' = s <|storage := storage s'|> ∧
    ∀ x, thread_at s' x = if decide (t = x) then Some (f th) else thread_at s x.
Proof.
  intros HQ Hth Hf. destruct (on_thread_spec s t f th Hth) as (s' & Hs' & Heq & Hat).
  exists s'. split; [done|]. split; [|done].
  assert (∀ x, links s' x = links s x) as HL.
  { intros x. unfold links. rewrite Hat. case_decide; [subst x|done]. rewrite Hth. cbn.
    destruct (Hf th) as (_ & -> & ->). done. }
  assert (∀ x, prio_of s' x = prio_of s x) as Hp.
  { intros x. unfold prio_of, process_of, proc_at. rewrite Hat, Heq. case_decide; [subst x|done]. rewrite Hth.
    cbn. by destruct (Hf th) as (-> & _). }
  assert (∀ k, valid_key s' k ↔ valid_key s k) as Hv by (intros k; unfold valid_key; by rewrite Heq).
  split; try apply HQ.
  - intros [[c b] p] Hk. rewrite Hv in Hk. rewrite <- (q_ends s Q HQ _ Hk). by rewrite Heq.
  - intros k. apply (seg_frame (links s)); [intros x _; apply HL|apply HQ].
  - intros k x Hx. destruct (q_in s Q HQ k x Hx) as [Hk Hpx]. rewrite Hv. split; [done|].
    unfold may_queue. by rewrite Hp.
  - intros x l Hx. rewrite HL. by apply (q_free s Q HQ).
Qed.

Lemma enqueue_impl_spec s Q c p t : queues s Q → valid_key s (c, Slave, p) →
  may_queue s (c, Slave, p) t → (∀ k, t ∉ Q k) →
  ∃ s', _sched_enqueue_impl c t s = Some s' ∧
    queues s' (<[(c, Slave, p) := t :: Q (c, Slave, p)]> Q) ∧ rest s' = rest s.
Proof.
  intros HQ Hk Ht Hno. unfold _sched_enqueue_impl.
  destruct (add_to_start_spec s Q c p t HQ Hk Ht Hno) as (s1 & -> & HQ1 & Hr1). cbn [mbind option_bind].
  assert (valid_key s1 (c, Slave, p)) as Hk1 by by apply (valid_key_rest s).
  destruct (count_tasks_spec s1 _ _ (c, Slave, p) 1 _ (view_refl s1) (q_ends _ _ HQ1 _ Hk1)) as (s2 & Hs2 & Hv2 & Hr2).
  exists s2. split; [exact Hs2|]. split; [|congruence]. by apply (queues_same s1).
Qed.

(** The CPU with the fewest tasks, the first of them. *)
Definition load (s : state) (c : Z) : Z :=
  match cpu_at s c with Some cp => enqueued_tasks (sched cp) | None => 0 end.

Lemma queues_cpu s Q c : queues s Q → 0 <= c < _active_cpus s → ∃ cp, cpu_at s c = Some cp.
Proof.
  intros HQ Hc. assert (valid_key s (c, Master, 0)) as Hk by (unfold valid_key; cbn; done).
  pose proof (q_ends s Q HQ _ Hk) as Hr. unfold runqueue in Hr. destruct (cpu_at s c); [eauto|done].
Qed.

Lemma find_cpu_spec s Q : queues s Q → 0 < _active_cpus s →
  ∃ c, _sched_find_cpu_with_less_load s = Some c ∧ 0 <= c < _active_cpus s ∧
    ∀ c', 0 <= c' < _active_cpus s → load s c <= load s c'.
Proof.
  intros HQ Ha. unfold _sched_find_cpu_with_less_load. destruct (queues_cpu s Q 0 HQ) as [cp0 H0]; [lia|].
  rewrite H0. cbn [mbind option_bind].
  destruct (for_n_total (S := Z * Z) (λ i '(mx, id), 0 <= id < i ∧ mx = load s id ∧
      ∀ c', 0 <= c' < i → load s id <= load s c')
    (λ i '(mx, id), cp ← cpu_at s i;
      Some (if enqueued_tasks (sched cp) <? mx then (enqueued_tasks (sched cp), i) else (mx, id)))
    (Z.to_nat (_active_cpus s - 1)) 1 (enqueued_tasks (sched cp0), 0)) as ([mx id] & Hl & Hid & -> & Hmin).
  - split; [lia|]. split; [unfold load; by rewrite H0|]. intros c' Hc'. by replace c' with 0 by lia.
  - intros i [mx id] Hi (Hid & -> & Hmin). destruct (queues_cpu s Q i HQ) as [cp Hcp]; [lia|].
    rewrite Hcp. cbn [mbind option_bind]. eexists. split; [done|].
    assert (load s i = enqueued_tasks (sched cp)) as Hi' by (unfold load; by rewrite Hcp).
    rewrite <- Hi'. destruct (Z.ltb_spec (load s i) (load s id)).
    + split; [lia|]. split; [done|]. intros c' Hc'. destruct (decide (c' = i)) as [->|]; [lia|].
      specialize (Hmin c'). lia.
    + split; [lia|]. split; [done|]. intros c' Hc'. destruct (decide (c' = i)) as [->|]; [lia|].
      apply Hmin. lia.
  - setoid_rewrite Hl. cbn [mbind option_bind]. exists id. split; [done|].
    split; [lia|]. intros c' Hc'. apply Hmin. lia.
Qed.

(** Everything but one thread's fields, the links and the queues is the same. *)
Record same_but (t : Z) (s s' : state) : Prop := {
  sb_threads x : x ≠ t → erase_links <$> thread_at s' x = erase_links <$> thread_at s x;
  sb_cpus c : erase_queues <$> cpu_at s' c = erase_queues <$> cpu_at s c;
  sb_proc : proc s' = proc s;
  sb_active : _active_cpus s' = _active_cpus s;
  sb_time : time s' = time s;
  sb_files : files s' = files s;
  sb_nxt : nxt_proc s' = nxt_proc s;
  sb_length : length (storage s') = length (storage s);
}.

Lemma same_but_trans t s1 s2 s3 : same_but t s1 s2 → same_but t s2 s3 → same_but t s1 s3.
Proof.
  intros [] []. split; try congruence. intros x Hx. by rewrite sb_threads1, sb_threads0.
Qed.

Lemma same_but_rest t s s' : rest s' = rest s → same_but t s s'.
Proof.
  intros Hr. split.
  - intros x _. by apply rest_thread.
  - intros c. apply map_erase_inv. exact (f_equal cpus Hr).
  - exact (f_equal proc Hr).
  - exact (f_equal _active_cpus Hr).
  - exact (f_equal time Hr).
  - exact (f_equal files Hr).
  - exact (f_equal nxt_proc Hr).
  - rewrite <- (length_map erase_links (storage s')), <- (length_map erase_links (storage s)).
    exact (f_equal (λ s, length (storage s)) Hr).
Qed.

Lemma length_zget {A} (l l' : list A) : (∀ i, is_Some (l'.[i]) ↔ is_Some (l.[i])) → length l' = length l.
Proof.
  intros Hi. assert (∀ a b : list A, (∀ i, is_Some (a.[i]) → is_Some (b.[i])) → (length a <= length b)%nat) as Hle.
  { intros a b Hab. destruct (decide (length a <= length b)%nat) as [|Hn]; [done|].
    destruct (Hab (Z.of_nat (length b))) as [x Hx]; [destruct (zget_is_Some a (Z.of_nat (length b))); [lia|eauto]|].
    apply zget_Some in Hx. lia. }
  apply Nat.le_antisymm; apply Hle; intros i; apply Hi.
Qed.

Lemma same_but_storage t s s' th th' : s' = s <|storage := storage s'|> → thread_at s t = Some th →
  (∀ x, thread_at s' x = if decide (t = x) then Some th' else thread_at s x) → same_but t s s'.
Proof.
  intros Heq Hth Hat. split; try by rewrite Heq.
  - intros x Hx. by rewrite Hat, decide_False.
  - apply length_zget. intros i. fold (thread_at s i) (thread_at s' i). rewrite Hat.
    case_decide; [subst i; rewrite Hth; split; eauto|done].
Qed.

Lemma queues_counter s Q n : queues s Q → queues (s <|_enqueued_tasks := n|>) Q.
Proof. intros []. by split. Qed.

Lemma prio_of_process s s' t th th' : thread_at s t = Some th → thread_at s' t = Some th' →
  process th' = process th → proc s' = proc s → prio_of s' t = prio_of s t.
Proof. intros H1 H2 H3 H4. unfold prio_of, process_of, proc_at. by rewrite H1, H2, H4; cbn; rewrite H3. Qed.

(** A thread that is woken enters its CPU's slave queue at the front, or the one
    of the CPU with the least load if it never ran. *)
Lemma sched_enqueue_spec s Q t th p : queues s Q → 0 < _active_cpus s <= MAX_CPU_CNT →
  thread_at s t = Some th → (∀ k, t ∉ Q k) → prio_of s t = Some p → 0 <= p <= MIN_PRIO →
  last_cpu th = LAST_CPU_NOT_SET ∨ 0 <= last_cpu th < _active_cpus s →
  ∃ s' c, sched_enqueue t s = Some s' ∧ 0 <= c < _active_cpus s ∧
    queues s' (<[(c, Slave, p) := t :: Q (c, Slave, p)]> Q) ∧ same_but t s s' ∧
    (last_cpu th = LAST_CPU_NOT_SET ∧ (∀ c', 0 <= c' < _active_cpus s → load s c <= load s c') ∨ c = last_cpu th) ∧
    ∃ th', thread_at s' t = Some th' ∧
      erase_links th' = erase_links (th <|status := THREAD_STATUS_RUNNING|> <|last_cpu := c|>).
Proof.
  intros HQ Ha Hth Hno Hp Hpr Hlast. unfold sched_enqueue, LAST_CPU_NOT_SET, MAX_CPU_CNT in *.
  destruct (queues_on_thread s Q t (λ th, th <|status := THREAD_STATUS_RUNNING|>) th HQ Hth)
    as (s1 & -> & HQ1 & Heq1 & Hat1); [done|].
  assert (thread_at s1 t = Some (th <|status := THREAD_STATUS_RUNNING|>)) as Hth1 by by rewrite Hat1, decide_True.
  assert (same_but t s s1) as Hsb1.
  { by eapply same_but_storage. }
  cbn [mbind option_bind].
  assert (prio_of s1 t = Some p) as Hp1 by (rewrite <- Hp; eapply prio_of_process; try done; by apply Hsb1).
  unfold prio_of in Hp1. destruct (process_of s1 t) as [[pi pr]|] eqn:Hproc; [|done].
  injection Hp1 as Hp1. cbn [mbind option_bind]. rewrite Hp1.
  replace (MIN_PRIO <? p) with false by (unfold MIN_PRIO in *; lia). cbn [mbind option_bind].
  rewrite Hth1. cbn [mbind option_bind]. change (last_cpu (th <|status := _|>)) with (last_cpu th).
  assert (∀ c, 0 <= c < _active_cpus s → valid_key s1 (c, Slave, p)) as Hv.
  { intros c Hc. unfold valid_key, TOTAL_PRIOS_COUNT, IDLE_PRIO, MIN_PRIO, MAX_PRIO in *. cbn.
    rewrite (sb_active _ _ _ Hsb1). lia. }
  assert (∀ c, may_queue s1 (c, Slave, p) t) as Hmay.
  { intros c. unfold may_queue, prio_of. rewrite Hproc. by rewrite <- Hp1. }
  assert (∀ c, 0 <= c < _active_cpus s → ∃ s2 th2, _sched_enqueue_impl c t s1 = Some s2 ∧
    queues s2 (<[(c, Slave, p) := t :: Q (c, Slave, p)]> Q) ∧ same_but t s s2 ∧ thread_at s2 t = Some th2 ∧
    erase_links th2 = erase_links (th <|status := THREAD_STATUS_RUNNING|>)) as Henq.
  { intros c Hc. destruct (enqueue_impl_spec s1 Q c p t HQ1 (Hv c Hc) (Hmay c) Hno) as (s2 & Hs2 & HQ2 & Hr2).
    destruct (rest_thread_Some _ _ _ _ Hr2 Hth1) as (th2 & Hth2 & He). exists s2, th2. split; [done|].
    split; [done|]. split; [|done]. eapply same_but_trans; [exact Hsb1|]. by apply same_but_rest. }
  destruct (Z.eqb_spec (last_cpu th) 65535) as [Hset|Hset]; cbn [negb].
  - destruct (find_cpu_spec s1 Q HQ1) as (c & Hc & Hr & Hmin); [rewrite (sb_active _ _ _ Hsb1); lia|].
    rewrite (sb_active _ _ _ Hsb1) in Hr, Hmin. rewrite Hc. cbn [mbind option_bind].
    destruct (Henq c Hr) as (s2 & th2 & -> & HQ2 & Hsb2 & Hth2 & He). cbn [mbind option_bind].
    destruct (queues_on_thread s2 _ t (λ th, th <|last_cpu := c|>) th2 HQ2 Hth2)
      as (s3 & -> & HQ3 & Heq3 & Hat3); [done|]. cbn [mbind option_bind].
    eexists _, c. split; [done|]. split; [done|]. split; [by apply queues_counter|]. split; [|split].
    + eapply same_but_trans; [exact Hsb2|].
      destruct (same_but_storage t s2 s3 _ _ Heq3 Hth2 Hat3). by split.
    + left. split; [done|]. intros c' Hc'. specialize (Hmin c' Hc'). unfold load, cpu_at in *. by rewrite Heq1 in Hmin.
    + eexists. split; [exact (eq_trans (Hat3 t) (decide_True _ _ eq_refl))|].
      exact (f_equal (λ th, th <|last_cpu := c|>) He).
  - destruct Hlast as [|Hr]; [lia|].
    destruct (Henq _ Hr) as (s2 & th2 & -> & HQ2 & Hsb2 & Hth2 & He). cbn [mbind option_bind].
    eexists _, (last_cpu th). split; [done|]. split; [done|]. split; [by apply queues_counter|]. split; [|split].
    + destruct Hsb2. by split.
    + by right.
    + exists th2. split; [exact Hth2|]. rewrite He. by destruct th.
Qed.

Lemma without_absent t Q : (∀ k, t ∉ Q k) → ∀ k, without t Q k = Q k.
Proof. intros Hno k. by apply filter_absent. Qed.

Lemma elem_of_without t x Q k : x ∈ without t Q k ↔ x ≠ t ∧ x ∈ Q k.
Proof. unfold without. by rewrite list_elem_of_filter. Qed.

(** A thread that stops running leaves its queue. *)
Lemma sched_dequeue_spec s Q t th p : queues s Q → thread_at s t = Some th → prio_of s t = Some p →
  0 <= p < TOTAL_PRIOS_COUNT → (∀ k, t ∈ Q k → k.1.1 = last_cpu th) →
  last_cpu th = LAST_CPU_NOT_SET ∨ 0 <= last_cpu th < _active_cpus s → _active_cpus s <= MAX_CPU_CNT →
  ∃ s', sched_dequeue t s = Some s' ∧ queues s' (without t Q) ∧ rest s' = rest s.
Proof.
  intros HQ Hth Hp Hpr Hc Hl Ha. unfold sched_dequeue. rewrite Hth. cbn [mbind option_bind].
  unfold LAST_CPU_NOT_SET, MAX_CPU_CNT in *.
  destruct (Z.eqb_spec (last_cpu th) 65535) as [He|He]; cbn [negb].
  - exists s. split; [done|]. split; [|done]. apply (queues_ext _ Q); [|done]. apply without_absent.
    intros k Hk. pose proof (Hc k Hk). destruct (q_in s Q HQ k t Hk) as [[Hv _] _]. lia.
  - destruct Hl as [|Hl]; [lia|]. eapply dequeue_impl_spec; try done; by rewrite Hth.
Qed.

(** A thread that is preempted enters its queue at the end. *)
Lemma resched_spec s Q c cp t th now : queues s Q → cpu_at s c = Some cp → running_thread cp = Some t →
  timeman_ticks_since_boot c (time s) = Some now → thread_at s t = Some th → (∀ k, t ∉ Q k) →
  ∃ s', same_but t s s' ∧ (∃ th' n, thread_at s' t = Some th' ∧
      erase_links th' = erase_links (th <|stat_total_running_ticks := n|>)) ∧
    (status th ≠ THREAD_STATUS_RUNNING → resched c s = Some s' ∧ queues s' Q) ∧
    (∀ p, status th = THREAD_STATUS_RUNNING → prio_of s t = Some p → valid_key s (last_cpu th, Slave, p) →
      resched c s = Some s' ∧
      queues s' (<[(last_cpu th, Slave, p) := Q (last_cpu th, Slave, p) ++ [t]]> Q)).
Proof.
  intros HQ Hcp Hrun Hnow Hth Hno. unfold resched, RUNNING_THREAD. rewrite Hcp. cbn [mbind option_bind].
  rewrite Hrun, Hnow. cbn [mbind option_bind].
  set (f := λ th, th <|stat_total_running_ticks := u32 (stat_total_running_ticks th + u32 (now - start_time_in_ticks th))|>).
  destruct (queues_on_thread s Q t f th HQ Hth) as (s1 & -> & HQ1 & Heq1 & Hat1); [done|].
  assert (thread_at s1 t = Some (f th)) as Hth1 by by rewrite Hat1, decide_True.
  assert (same_but t s s1) as Hsb1.
  { by eapply same_but_storage. }
  cbn [mbind option_bind]. rewrite Hth1. cbn [mbind option_bind].
  change (status (f th)) with (status th). change (last_cpu (f th)) with (last_cpu th).
  destruct (decide (status th = THREAD_STATUS_RUNNING)) as [Hst|Hst].
  2:{ exists s1. split; [done|]. split; [by eexists (f th), _|]. by split. }
  assert (∀ p, prio_of s1 t = Some p ↔ prio_of s t = Some p) as Hp.
  { intros p. erewrite prio_of_process; [done|exact Hth|exact Hth1|done|by apply Hsb1]. }
  destruct (prio_of s t) as [p|] eqn:Hpt.
  2:{ exists s1. split; [done|]. split; [by eexists (f th), _|]. by split. }
  destruct (decide (0 <= last_cpu th < _active_cpus s ∧ 0 <= p < TOTAL_PRIOS_COUNT)) as [Hv|Hv].
  2:{ exists s1. split; [done|]. split; [by eexists (f th), _|]. split; [done|]. intros p' _ [= <-] Hk. by destruct Hv. }
  assert (valid_key s1 (last_cpu th, Slave, p)) as Hv1.
  { unfold valid_key. by rewrite (sb_active _ _ _ Hsb1). }
  destruct (add_to_end_spec s1 Q (last_cpu th) p t HQ1 Hv1) as (s2 & Hs2 & HQ2 & Hr2); [by apply Hp|done|].
  exists s2. split; [eapply same_but_trans; [done|by apply same_but_rest]|].
  destruct (rest_thread_Some _ _ _ _ Hr2 Hth1) as (th2 & Hth2 & He). split.
  - eexists th2, _. split; [done|]. exact He.
  - split; [done|]. intros p' _ [= <-] _. done.
Qed.
