(* ===== verification/Thread.v ===== *)
(** * Thread: the life of threads and processes and what they wait for

    [tasking/thread.c], [tasking/blocker.c], the thread storage and the thread
    functions of [tasking/proc.c] and the process table of [tasking/tasking.c].
    Kernel stacks, trap frames, address spaces and open files belong to other
    components: an operation is translated as far as it works on the state of
    [Tasking.v]. The locks are not modelled: an operation is one step. *)
From S2P Require Import Prelude TimeManager Tasking Runqueue.

(** ** The thread storage, [proc.c] *)

(** A fresh node behind the others; [kmalloc] stops the system if it fails. *)
Definition proc_alloc_thread_storage_node (s : state) : state :=
  s <|storage := storage s ++ replicate 128 zero_thread|> <|empty_spots := THREADS_PER_NODE|>.

Definition proc_init_storage (s : state) : Z * state :=
  (0, proc_alloc_thread_storage_node (s <|storage := []|>)).

(** The first free thread of the last node, which has free ones by its count; the
    thread is [None] behind the last [ASSERT]. *)
Definition _proc_alloc_thread (s : state) : option (Z * state) :=
  if Nat.eqb (length (storage s)) 0 then None else
  let s := if empty_spots s =? 0 then proc_alloc_thread_storage_node s else s in
  let node := Z.of_nat (length (storage s)) - THREADS_PER_NODE in
  r ← for_loop 128 node (λ i (s : state),
    th ← thread_at s i;
    if thread_is_freed th then
      s ← on_thread i (λ th, th <|status := THREAD_STATUS_ALLOCATED|>) (s <|empty_spots := empty_spots s - 1|>);
      Some (inr (i, s))
    else Some (inl s)) s;
  match r with inl _ => None | inr r => Some r end.

Definition proc_alloc_thread (s : state) : option (Z * state) := _proc_alloc_thread s.

(** [atomic_add] gives the new value. *)
Definition proc_alloc_pid (s : state) : Z * state :=
  let n := u32 (proc_next_pid s + 1) in (n, s <|proc_next_pid := n|>).

(** The loop reads the process of every thread, also of a free one: for a thread
    that was never used the pointer is null. *)
Definition thread_by_pid (s : state) (pid_ : Z) : option (option Z) :=
  r ← for_loop (length (storage s)) 0 (λ i (_ : unit),
    '(_, p) ← process_of s i;
    Some (if pid p =? pid_ then inr i else inl ())) ();
  Some (match r with inl _ => None | inr i => Some i end).

(** [foreach_thread]: the live threads of a process, by its pid. *)
Definition foreach_thread (p : Z) (body : Z → state → option state) (s : state) : option state :=
  for_n (length (storage s)) 0 (λ i s,
    th ← thread_at s i;
    if thread_is_freed th then Some s else
    '(_, q) ← process_of s i;
    pr ← proc_at s p;
    if pid q =? pid pr then body i s else Some s) s.

(** ** Threads, [thread.c] *)

(** [kstack] is the start of the zone that [kmemzone_new] gave, 0 if none. *)
Definition setup_fields (p t tid_ : Z) : state → option state :=
  on_thread t (λ th, th <|process := Some p|> <|tid := tid_|> <|last_cpu := LAST_CPU_NOT_SET|>
    <|signals_mask := 0xffffffff|> <|pending_signals_mask := 0|>
    <|signal_handlers := replicate 32 0|>).

Definition thread_setup_main (kstack p t : Z) (s : state) : option (Z * state) :=
  if kstack =? 0 then Some (- ENOMEM, s) else
  pr ← proc_at s p;
  s ← setup_fields p t (pid pr) s;
  Some (0, s).

Definition thread_setup (kstack p t : Z) (s : state) : option (Z * state) :=
  if kstack =? 0 then Some (- ENOMEM, s) else
  let '(n, s) := proc_alloc_pid s in
  s ← setup_fields p t n s;
  Some (0, s).

Definition thread_copy_of (t from_thread : Z) (s : state) : option (Z * state) :=
  from ← thread_at s from_thread;
  s ← on_thread t (λ th, th <|signal_handlers := signal_handlers from|>) s;
  Some (0, s).

Definition thread_free (t : Z) (s : state) : option (Z * state) :=
  th ← thread_at s t;
  if negb (bool_decide (status th = THREAD_STATUS_DYING)) then Some (- EINVAL, s) else
  s ← on_thread t (λ th, th <|status := THREAD_STATUS_INVALID|>) s;
  Some (0, s).

Definition thread_die (t : Z) (s : state) : option (Z * state) :=
  th ← thread_at s t;
  if thread_is_freed th then Some (- EINVAL, s) else
  s ← on_thread t (λ th, th <|status := THREAD_STATUS_DYING|>) s;
  s ← sched_dequeue t s;
  Some (0, s).

Definition thread_stop (t : Z) (s : state) : option (Z * state) :=
  s ← on_thread t (λ th, th <|status := THREAD_STATUS_STOPPED|>) s;
  s ← sched_dequeue t s;
  Some (0, s).

Definition thread_stop_and_resched (cpu t : Z) (s : state) : option (Z * state) :=
  s ← on_thread t (λ th, th <|status := THREAD_STATUS_STOPPED|>) s;
  s ← sched_dequeue t s;
  s ← resched cpu s;
  Some (0, s).

Definition thread_continue (t : Z) (s : state) : option (Z * state) :=
  s ← on_thread t (λ th, th <|status := THREAD_STATUS_RUNNING|>) s;
  Some (0, s).

Definition thread_init_blocker (t : Z) (b : blocker_t) (s : state) : option (Z * state) :=
  s ← on_thread t (λ th, th <|status := THREAD_STATUS_BLOCKED|> <|blocker := b|>) s;
  s ← sched_dequeue t s;
  Some (0, s).

(** ** Processes *)

Definition _tasking_next_proc_id (s : state) : Z * state :=
  let n := u32 (nxt_proc s + 1) in (u32 (n - 1), s <|nxt_proc := n|>).

(** The next slot, which nothing compares with the size of the table. *)
Definition _tasking_alloc_proc (s : state) : option (Z * state) :=
  let '(p, s) := _tasking_next_proc_id s in
  _ ← proc_at s p;
  Some (p, s).

Definition tasking_get_proc (s : state) (pid_ : Z) : option (option Z) :=
  r ← for_loop (Z.to_nat (nxt_proc s)) 0 (λ i (_ : unit),
    p ← proc_at s i;
    Some (if pid p =? pid_ then inr i else inl ())) ();
  Some (match r with inl _ => None | inr i => Some i end).

Definition tasking_get_thread (s : state) (tid_ : Z) : option (option Z) :=
  r ← for_loop (length (storage s)) 0 (λ i (_ : unit),
    th ← thread_at s i;
    Some (if tid th =? tid_ then inr i else inl ())) ();
  Some (match r with inl _ => None | inr i => Some i end).

Definition tasking_evict_proc_entry (p : Z) : state → option state :=
  on_proc p (λ p, p <|pid := 0|> <|pstatus := PROC_DEAD|>).

Definition tasking_evict_zombies_waiting_for (pp : Z) (s : state) : option state :=
  for_n (Z.to_nat (nxt_proc s)) 0 (λ i s,
    p ← proc_at s i;
    parent ← proc_at s pp;
    if bool_decide (pstatus p = PROC_ZOMBIE) && (ppid p =? pid parent)
    then tasking_evict_proc_entry i s else Some s) s.

Definition proc_die (p exit_code_ : Z) (s : state) : option (Z * state) :=
  s ← on_proc p (λ p, p <|exit_code := exit_code_|> <|pstatus := PROC_DYING|>) s;
  s ← foreach_thread p (λ t s, '(_, s) ← thread_die t s; Some s) s;
  s ← tasking_evict_zombies_waiting_for p s;
  Some (0, s).

Definition proc_block_all_threads (p : Z) (b : blocker_t) (s : state) : option (Z * state) :=
  s ← foreach_thread p (λ t s, '(_, s) ← thread_init_blocker t b s; Some s) s;
  Some (0, s).

Definition proc_create_thread (kstack p : Z) (s : state) : option (Z * state) :=
  '(t, s) ← proc_alloc_thread s;
  '(_, s) ← thread_setup kstack p t s;
  s ← sched_enqueue t s;
  Some (t, s).

(** Without [gthread], when it is given. *)
Definition proc_kill_all_threads_except_locked (p : Z) (gthread : option Z) (s : state) : option state :=
  foreach_thread p (λ t s,
    kill ← match gthread with
      | None => Some true
      | Some g => th ← thread_at s t; gth ← thread_at s g; Some (negb (tid th =? tid gth))
      end;
    if kill : bool then '(_, s) ← thread_free t s; Some s else Some s) s.

(** The slot of a descriptor of a process; a null table is an [ASSERT]. *)
Definition proc_get_fd (s : state) (p index : Z) : option (option file_descriptor_t) :=
  pr ← proc_at s p;
  l ← fds pr;
  if MAX_OPENED_FILES <=? index then Some None else
  fd ← l.[index];
  Some (match file fd with None => None | Some _ => Some fd end).

Definition proc_get_free_fd (s : state) (p : Z) : option (option Z) :=
  pr ← proc_at s p;
  l ← fds pr;
  r ← for_loop (Z.to_nat MAX_OPENED_FILES) 0 (λ i (_ : unit),
    fd ← l.[i];
    Some (match file fd with None => inr i | Some _ => inl () end)) ();
  Some (match r with inl _ => None | inr i => Some i end).

(** ** What a thread waits for, [blocker.c] *)

(** A bit of a set of descriptors. *)
Definition FD_ISSET (fd : Z) (set : list Z) : option bool :=
  b ← set.[fd / 8]; Some (negb (Z.land b (Z.shiftl 1 (fd mod 8)) =? 0)).

(** [blocker_data.sleep.until]: in the union the fields of [select] lie at the
    same place, [nfds] under the seconds and [readfds] under the nanoseconds. *)
Definition sleep_until (d : blocker_data_t) : option timespec_t :=
  match d with
  | data_sleep until => Some until
  | data_select sel => Some (mk_timespec (u32 (nfds sel)) (le_val (readfds sel)))
  | _ => None
  end.

Definition should_unblock_join_block (s : state) (t : Z) : option bool :=
  th ← thread_at s t;
  match blocker_data th with
  | data_join joinee join_pid =>
      j ← thread_at s joinee;
      Some (thread_is_freed j || negb (join_pid =? tid j) || bool_decide (status j = THREAD_STATUS_DYING))
  | _ => None
  end.

(** The file of the descriptor, which must be open. *)
Definition fd_file (s : state) (fd : Z * Z) : option (Z * Z) :=
  pr ← proc_at s fd.1; l ← fds pr; d ← l.[fd.2]; f ← file d; Some (f, offset d).

Definition should_unblock_read_block (s : state) (t : Z) : option bool :=
  th ← thread_at s t;
  match blocker_data th with
  | data_rw fd =>
      '(f, off) ← fd_file s fd;
      Some (match can_read (files s) f with None => true | Some g => g off end)
  | _ => None
  end.

Definition should_unblock_write_block (s : state) (t : Z) : option bool :=
  th ← thread_at s t;
  match blocker_data th with
  | data_rw fd =>
      '(f, off) ← fd_file s fd;
      Some (match can_write (files s) f with None => true | Some g => g off end)
  | _ => None
  end.

Definition should_unblock_sleep_block (s : state) (t : Z) : option bool :=
  th ← thread_at s t;
  until ← sleep_until (blocker_data th);
  Some (timespec_cmp until (timeman_timespec_since_epoch (time s)) <=? 0).

(** One of the two loops of a select: a ready descriptor of the set. *)
Definition select_ready (s : state) (p n : Z) (set : list Z) (can : Z → option (Z → bool)) : option bool :=
  r ← for_loop (Z.to_nat n) 0 (λ i (_ : unit),
    set ← FD_ISSET i set;
    if negb set then Some (inl ()) else
    fd ← proc_get_fd s p i;
    match fd with
    | None => Some (inl ())
    | Some fd => f ← file fd; g ← can f; Some (if (g (offset fd) : bool) then inr () else inl ())
    end) ();
  Some (match r with inl _ => false | inr _ => true end).

Definition should_unblock_select_block (s : state) (t : Z) : option bool :=
  th ← thread_at s t;
  match blocker_data th with
  | data_select sel =>
      until ← sleep_until (blocker_data th);
      if is_until_time_set sel && (timespec_cmp until (timeman_timespec_since_epoch (time s)) <=? 0)
      then Some true else
      p ← process th;
      r ← select_ready s p (nfds sel) (readfds sel) (can_read (files s));
      if r : bool then Some true else select_ready s p (nfds sel) (writefds sel) (can_write (files s))
  | _ => None
  end.

Definition call_should_unblock (u : unblocker) (s : state) (t : Z) : option bool :=
  match u with
  | unblock_join => should_unblock_join_block s t
  | unblock_read => should_unblock_read_block s t
  | unblock_write => should_unblock_write_block s t
  | unblock_sleep => should_unblock_sleep_block s t
  | unblock_select => should_unblock_select_block s t
  end.

(** What the functions that follow have in common: with what it waits for in the
    union, the thread goes on if that has happened, and blocks otherwise. The
    state is the one at the switch to the scheduler. *)
Definition wait_for (cpu t : Z) (u : unblocker) (r : blocker_reason) (s : state) : option (Z * state) :=
  now ← call_should_unblock u s t;
  if now : bool then Some (0, s) else
  s ← on_thread t (λ th, th <|status := THREAD_STATUS_BLOCKED|> <|blocker := mk_blocker r (Some u) true|>) s;
  s ← sched_dequeue t s;
  s ← resched cpu s;
  Some (0, s).

(** A thread that does not exist gives a null pointer, which is read. *)
Definition init_join_blocker (cpu t wait_for_pid : Z) (s : state) : option (Z * state) :=
  joinee ← tasking_get_thread s (u32 wait_for_pid);
  joinee ← joinee;
  s ← on_thread t (λ th, th <|blocker_data := data_join joinee (u32 wait_for_pid)|>) s;
  wait_for cpu t unblock_join BLOCKER_JOIN s.

Definition init_read_blocker (cpu t : Z) (bfd : Z * Z) (s : state) : option (Z * state) :=
  s ← on_thread t (λ th, th <|blocker_data := data_rw bfd|>) s;
  wait_for cpu t unblock_read BLOCKER_READ s.

Definition init_write_blocker (cpu t : Z) (bfd : Z * Z) (s : state) : option (Z * state) :=
  s ← on_thread t (λ th, th <|blocker_data := data_rw bfd|>) s;
  wait_for cpu t unblock_write BLOCKER_WRITE s.

Definition init_sleep_blocker (cpu t : Z) (ts : timespec_t) (s : state) : option (Z * state) :=
  s ← on_thread t (λ th, th <|blocker_data := data_sleep ts|>) s;
  wait_for cpu t unblock_sleep BLOCKER_SLEEP s.

Definition init_select_blocker (cpu t nfds_ : Z) (readfds_ writefds_ exceptfds_ : option (list Z))
    (timeout : option timeval_t) (s : state) : option (Z * state) :=
  let zero := replicate 4 0 in
  until ← match timeout with
    | None => Some None
    | Some tv => ts ← timespec_add_timeval (timeman_timespec_since_epoch (time s)) tv; Some (Some ts)
    end;
  s ← on_thread t (λ th, th <|blocker_data := data_select {|
    nfds := nfds_;
    readfds := default zero readfds_;
    writefds := default zero writefds_;
    exceptfds := default zero exceptfds_;
    is_until_time_set := match until with None => false | Some _ => true end;
    select_until := match until with None => mk_timespec 0 0 | Some ts => ts end |}|>) s;
  wait_for cpu t unblock_select BLOCKER_SELECT s.
