(* ===== verification/Signal.v ===== *)
(** * Signal: signals, [kernel/tasking/signal.c], and what ends a process,
    [dump_and_kill] and the rest of [tasking/tasking.c]

    Running a handler changes the user's stack and the trap frame, which are not
    modelled: that a thread was set up to run a handler is recorded in its
    [frames]. [cpu] is the CPU that executes. [kstack] is what [kmemzone_new]
    returns for the stack of the kernel thread that dumps a process. *)
From S2P Require Import Prelude Tasking Runqueue Thread.

Definition SIGHUP : Z := 1.
Definition SIGINT : Z := 2.
Definition SIGQUIT : Z := 3.
Definition SIGILL : Z := 4.
Definition SIGTRAP : Z := 5.
Definition SIGABRT : Z := 6.
Definition SIGBUS : Z := 7.
Definition SIGFPE : Z := 8.
Definition SIGKILL : Z := 9.
Definition SIGUSR1 : Z := 10.
Definition SIGSEGV : Z := 11.
Definition SIGUSR2 : Z := 12.
Definition SIGPIPE : Z := 13.
Definition SIGALRM : Z := 14.
Definition SIGTERM : Z := 15.
Definition SIGCHLD : Z := 17.
Definition SIGCONT : Z := 18.
Definition SIGSTOP : Z := 19.
Definition SIGTSTP : Z := 20.
Definition SIGTTIN : Z := 21.
Definition SIGTTOU : Z := 22.
Definition SIGURG : Z := 23.
Definition SIGXCPU : Z := 24.
Definition SIGXFSZ : Z := 25.
Definition SIGVTALRM : Z := 26.
Definition SIGPROF : Z := 27.
Definition SIGPOLL : Z := 29.
Definition SIGSYS : Z := 31.
Definition SIG_IGN : Z := 1.

Inductive signal_action :=
  | SIGNAL_ACTION_ABNORMAL_TERMINATE | SIGNAL_ACTION_TERMINATE | SIGNAL_ACTION_STOP
  | SIGNAL_ACTION_CONTINUE | SIGNAL_ACTION_IGNORE.
#[global] Instance signal_action_eq_dec : EqDecision signal_action.
Proof. solve_decision. Defined.

Definition bad_signo (signo : Z) : bool := (signo <? 0) || (SIGNALS_CNT <=? signo).

Definition signal_set_handler (t signo handler : Z) (s : state) : option (Z * state) :=
  if bad_signo signo || (signo =? SIGSTOP) || (signo =? SIGKILL) then Some (- EINVAL, s) else
  th ← thread_at s t;
  hs ← (signal_handlers th).[signo <- handler];
  s ← on_thread t (λ th, th <|signal_handlers := hs|>) s;
  Some (0, s).

Definition set_bit (mask signo : Z) : Z := Z.lor mask (u32 (Z.shiftl 1 signo)).
Definition clear_bit (mask signo : Z) : Z := Z.land mask (u32 (Z.lnot (u32 (Z.shiftl 1 signo)))).

Definition signal_set_allow (t signo : Z) (s : state) : option (Z * state) :=
  if bad_signo signo then Some (- EINVAL, s) else
  s ← on_thread t (λ th, th <|signals_mask := set_bit (signals_mask th) signo|>) s; Some (0, s).
Definition signal_set_private (t signo : Z) (s : state) : option (Z * state) :=
  if bad_signo signo then Some (- EINVAL, s) else
  s ← on_thread t (λ th, th <|signals_mask := clear_bit (signals_mask th) signo|>) s; Some (0, s).
Definition signal_set_pending (t signo : Z) (s : state) : option (Z * state) :=
  if bad_signo signo then Some (- EINVAL, s) else
  s ← on_thread t (λ th, th <|pending_signals_mask := set_bit (pending_signals_mask th) signo|>) s; Some (0, s).
Definition signal_rem_pending (t signo : Z) (s : state) : option (Z * state) :=
  if bad_signo signo then Some (- EINVAL, s) else
  s ← on_thread t (λ th, th <|pending_signals_mask := clear_bit (pending_signals_mask th) signo|>) s; Some (0, s).

(** The table of the actions; the entries that it leaves out are 0. *)
Definition defact (signo : Z) : signal_action :=
  if bool_decide (signo ∈ [SIGALRM; SIGHUP; SIGINT; SIGKILL; SIGPIPE; SIGTERM; SIGUSR1; SIGUSR2; SIGPOLL;
    SIGPROF; SIGVTALRM]) then SIGNAL_ACTION_TERMINATE
  else if bool_decide (signo ∈ [SIGCHLD; SIGURG]) then SIGNAL_ACTION_IGNORE
  else if signo =? SIGCONT then SIGNAL_ACTION_CONTINUE
  else if bool_decide (signo ∈ [SIGSTOP; SIGTSTP; SIGTTIN; SIGTTOU]) then SIGNAL_ACTION_STOP
  else SIGNAL_ACTION_ABNORMAL_TERMINATE.

Definition signal_default_action (signo : Z) : signal_action :=
  if bad_signo signo then SIGNAL_ACTION_ABNORMAL_TERMINATE else defact signo.

Definition signal_setup_stack_to_handle_signal (t signo : Z) : state → option state :=
  on_thread t (λ th, th <|frames := signo :: frames th|>).

(** ** Kernel threads, as far as the dump needs them *)

(** All signals are disabled. *)
Definition kthread_setup (kstack p : Z) (s : state) : option (Z * state) :=
  let '(n, s) := proc_alloc_pid s in
  s ← on_proc p (λ p, p <|pid := n|>) s;
  '(t, s) ← proc_alloc_thread s;
  s ← on_proc p (λ p, p <|main_thread := Some t|>) s;
  s ← on_thread t (λ th, th <|tid := n|> <|process := Some p|> <|last_cpu := LAST_CPU_NOT_SET|>) s;
  if kstack =? 0 then Some (- ENOMEM, s) else
  s ← on_proc p (λ p, p <|fds := None|>) s;
  s ← on_thread t (λ th, th <|signals_mask := 0|> <|pending_signals_mask := 0|>
    <|signal_handlers := replicate 32 0|>) s;
  Some (0, s).

Definition _tasking_alloc_kernel_thread (kstack : Z) (s : state) : option (Z * state) :=
  '(p, s) ← _tasking_alloc_proc s;
  '(_, s) ← kthread_setup kstack p s;
  Some (p, s).

Definition tasking_create_kernel_thread (kstack : Z) (s : state) : option (Z * state) :=
  '(p, s) ← _tasking_alloc_kernel_thread kstack s;
  pr ← proc_at s p;
  t ← main_thread pr;
  s ← on_thread t (λ th, th <|status := THREAD_STATUS_RUNNING|>) s;
  Some (p, s).

Definition tasking_run_kernel_thread (kstack : Z) (s : state) : option (Z * state) :=
  '(p, s) ← tasking_create_kernel_thread kstack s;
  pr ← proc_at s p;
  t ← main_thread pr;
  s ← sched_enqueue t s;
  Some (p, s).

(** ** Signals *)

Section signals.
Context (cpu kstack : Z).

(** The state at the switch to the scheduler. *)
Definition dump_and_kill (p : Z) (s : state) : option state :=
  '(_, s) ← proc_block_all_threads p (mk_blocker BLOCKER_DUMPING None false) s;
  '(_, s) ← tasking_run_kernel_thread kstack s;
  resched cpu s.

(** A process that is dumped is the one of the running thread. *)
Definition signal_process (t signo : Z) (s : state) : option (Z * state) :=
  th ← thread_at s t;
  h ← (signal_handlers th).[signo];
  if h =? SIG_IGN then Some (0, s)
  else if negb (h =? 0) then
    s ← signal_setup_stack_to_handle_signal t signo s; Some (0, s)
  else
    match signal_default_action signo with
    | SIGNAL_ACTION_TERMINATE =>
        p ← process th;
        '(_, s) ← proc_die p 0 s; Some (0, s)
    | SIGNAL_ACTION_ABNORMAL_TERMINATE =>
        r ← RUNNING_THREAD s cpu;
        r ← r;
        '(p, _) ← process_of s r;
        s ← dump_and_kill p s; Some (0, s)
    | SIGNAL_ACTION_IGNORE | SIGNAL_ACTION_STOP | SIGNAL_ACTION_CONTINUE => Some (0, s)
    end.

(** The thread is not null: every caller has read it before. *)
Definition signal_send (t signo : Z) (s : state) : option (Z * state) :=
  if signo =? 0 then Some (0, s) else
  '(err, s) ← signal_set_pending t signo s;
  if negb (err =? 0) then Some (err, s) else
  match signal_default_action signo with
  | SIGNAL_ACTION_CONTINUE =>
      th ← thread_at s t;
      s ← (if bool_decide (status th = THREAD_STATUS_BLOCKED) && should_unblock_for_signal (blocker th)
           then sched_enqueue t s else Some s);
      th ← thread_at s t;
      s ← (if bool_decide (status th = THREAD_STATUS_STOPPED) then sched_enqueue t s else Some s);
      Some (0, s)
  | SIGNAL_ACTION_STOP =>
      r ← RUNNING_THREAD s cpu;
      '(_, s) ← (if bool_decide (r = Some t) then thread_stop_and_resched cpu t s else thread_stop t s);
      Some (0, s)
  | _ => Some (0, s)
  end.

(** The least signal from [signo] on that is in the mask, or [SIGNALS_CNT]. *)
Definition first_signal (mask : Z) : option Z :=
  r ← for_loop 31 1 (λ signo (_ : unit),
    Some (if negb (Z.land mask (u32 (Z.shiftl 1 signo)) =? 0) then inr signo else inl ())) ();
  Some (match r with inl _ => SIGNALS_CNT | inr signo => signo end).

Definition signal_dispatch_pending (t : Z) (s : state) : option (Z * state) :=
  th ← thread_at s t;
  let candidate_signals := Z.land (pending_signals_mask th) (signals_mask th) in
  if candidate_signals =? 0 then Some (- EACCES, s) else
  signo ← first_signal candidate_signals;
  '(_, s) ← signal_rem_pending t signo s;
  signal_process t signo s.

Definition tasking_signal (t signo : Z) (s : state) : option (Z * state) :=
  th ← thread_at s t;
  if bool_decide (status th = THREAD_STATUS_INVALID) || bool_decide (status th = THREAD_STATUS_DYING)
  then Some (- EINVAL, s) else
  '(_, s) ← signal_send t signo s;
  r ← RUNNING_THREAD s cpu;
  if bool_decide (r = Some t) then '(_, s) ← signal_dispatch_pending t s; Some (0, s) else Some (0, s).

Definition tasking_should_become_zombie (p : Z) (s : state) : option (bool * state) :=
  pr ← proc_at s p;
  pproc ← tasking_get_proc s (ppid pr);
  match pproc with
  | None => Some (false, s)
  | Some pp =>
      parent ← proc_at s pp;
      if negb (proc_is_alive parent) then Some (false, s) else
      m ← main_thread parent;
      th ← thread_at s m;
      h ← (signal_handlers th).[SIGCHLD];
      if negb (h =? 0) then '(_, s) ← signal_send m SIGCHLD s; Some (false, s) else Some (true, s)
  end.
End signals.

(** The threads of a process become free; its descriptors, its address space and
    its files are released in other components. *)
Definition proc_free_locked (p : Z) (s : state) : option (Z * state) :=
  pr ← proc_at s p;
  if negb (bool_decide (pstatus pr = PROC_DYING)) || (pid pr =? 0) then Some (- ESRCH, s) else
  s ← proc_kill_all_threads_except_locked p None s;
  Some (0, s).

Definition tasking_kill_dying (cpu : Z) (s : state) : option state :=
  for_n (Z.to_nat (nxt_proc s)) 0 (λ i s,
    p ← proc_at s i;
    if negb (bool_decide (pstatus p = PROC_DYING)) then Some s else
    '(_, s) ← proc_free_locked i s;
    '(zombie, s) ← tasking_should_become_zombie cpu i s;
    if zombie : bool then on_proc i (λ p, p <|pstatus := PROC_ZOMBIE|>) s
    else tasking_evict_proc_entry i s) s.

(** The running thread's process. *)
Definition tasking_exit (cpu exit_code : Z) (s : state) : option state :=
  r ← RUNNING_THREAD s cpu;
  r ← r;
  '(p, _) ← process_of s r;
  '(_, s) ← proc_die p exit_code s;
  resched cpu s.

(** Waits for the process's main thread, unless [WNOHANG] is set; the exit code is
    read when the thread goes on. *)
Definition tasking_waitpid (cpu pid_ : Z) (nohang : bool) (s : state) : option (Z * state) :=
  r ← RUNNING_THREAD s cpu;
  t ← r;
  p ← tasking_get_proc s (u32 pid_);
  match p with
  | None => Some (- ESRCH, s)
  | Some _ => if nohang then Some (0, s) else '(_, s) ← init_join_blocker cpu t pid_ s; Some (0, s)
  end.

(** [sys_nice]: the sum is unsigned. *)
Definition sys_nice (cpu inc : Z) (s : state) : option (Z * state) :=
  r ← RUNNING_THREAD s cpu;
  t ← r;
  '(pi, p) ← process_of s t;
  let n := u32 (prio p + inc) in
  if (n <? MAX_PRIO) || (MIN_PRIO <? n) then Some (-1, s) else
  s ← on_proc pi (λ p, p <|prio := n|>) s;
  Some (0, s).
