(* ===== verification/Sched.v ===== *)
(** * Sched: the scheduler, [kernel/tasking/sched.c]

    The loop of [sched] over the queues of [Runqueue.v]: CPUs are activated with
    an idle thread, the first CPU unblocks threads when it exchanges its arrays,
    and a CPU takes the first thread of its first non-empty queue. [kstack] is the
    start of a kernel stack. Then the scheduler as a system of steps of several
    CPUs, with what it keeps and what it promises. *)
From stdpp Require Import functions sets.
From S2P Require Import Prelude TimeManager Tasking Runqueue Thread Signal.

Definition _init_cpu_fields (cpu : Z) : state → option state :=
  on_cpu cpu (λ cp, cp <|running_thread := None|>
    <|sched := {| next_read_prio := 0;
                  master_buf := replicate 13 (mk_runqueue None None);
                  slave_buf := replicate 13 (mk_runqueue None None);
                  enqueued_tasks := 0 |}|>).

Definition _create_idle_thread (cpu kstack : Z) (s : state) : option state :=
  '(p, s) ← tasking_create_kernel_thread kstack s;
  pr ← proc_at s p;
  t ← main_thread pr;
  s ← on_cpu cpu (λ cp, cp <|idle_thread := Some t|>) s;
  s ← on_proc p (λ p, p <|prio := IDLE_PRIO|>) s;
  _sched_enqueue_impl cpu t s.

Definition _init_cpu (cpu kstack : Z) (s : state) : option state :=
  s ← _init_cpu_fields cpu s;
  s ← _create_idle_thread cpu kstack s;
  Some (s <|_active_cpus := u32 (_active_cpus s + 1)|>).

(** [ASSERT] is [None]. *)
Definition schedule_activate_cpu (cpu kstack : Z) (s : state) : option state :=
  if negb (cpu <? MAX_CPU_CNT) then None else
  s ← _init_cpu cpu kstack s;
  on_cpu cpu (λ cp, cp <|id := cpu|>) s.

(** A blocked thread whose condition holds is woken. *)
Definition unblock_thread (i : Z) (s : state) : option state :=
  th ← thread_at s i;
  if bool_decide (status th = THREAD_STATUS_BLOCKED) && negb (bool_decide (reason (blocker th) = BLOCKER_INVALID)) then
    match should_unblock (blocker th) with
    | None => Some s
    | Some u =>
        b ← call_should_unblock u s i;
        if b : bool then
          s ← on_thread i (λ th, th <|status := THREAD_STATUS_RUNNING|>
            <|blocker := (blocker th) <|reason := BLOCKER_INVALID|> |>) s;
          sched_enqueue i s
        else Some s
    end
  else Some s.

Definition sched_unblock_threads (s : state) : option state :=
  for_n (length (storage s)) 0 unblock_thread s.

(** One round of the loop that looks for a queue: the next priority, and after
    the last one the arrays are exchanged. *)
Definition next_prio (c : Z) : state → option state :=
  on_cpu c (λ cp, cp <|sched := (sched cp) <|next_read_prio := next_read_prio (sched cp) + 1|> |>).

Definition find_step (c : Z) (s : state) : option (state + state) :=
  cp ← cpu_at s c;
  rq ← (master_buf (sched cp)).[next_read_prio (sched cp)];
  match head rq with
  | Some _ => Some (inr s)
  | None =>
      s ← next_prio c s;
      if TOTAL_PRIOS_COUNT <=? next_read_prio (sched cp) + 1 then
        s ← (if id cp =? 0 then s ← tasking_kill_dying c s; sched_unblock_threads s else Some s);
        s ← _sched_swap_buffers c s;
        Some (inl s)
      else Some (inl s)
  end.

(** With nothing in either array the loop does not end; with something, the two
    arrays are gone through at most once each. *)
Definition find_thread (c : Z) (s : state) : option state := loop 27 (find_step c) s.

(** [false] if a signal kept the thread from running. *)
Definition switch_to_thread (cpu kstack t : Z) (s : state) : option (bool * state) :=
  th ← thread_at s t;
  s ← (if negb (pending_signals_mask th =? 0)
       then '(_, s) ← signal_dispatch_pending cpu kstack t s; Some s else Some s);
  th' ← thread_at s t;
  if negb (pending_signals_mask th =? 0) && negb (bool_decide (status th' = THREAD_STATUS_RUNNING))
  then Some (false, s) else
  cp ← cpu_at s cpu;
  now ← timeman_ticks_since_boot cpu (time s);
  slice ← _sched_get_timeslice s t;
  s ← on_thread t (λ th, th <|last_cpu := id cp|> <|start_time_in_ticks := now|>
    <|ticks_until_preemption := slice|>) s;
  s ← on_cpu cpu (λ cp, cp <|running_thread := Some t|>) s;
  Some (true, s).

(** A round of [sched]: the thread that it switches to. *)
Definition sched_round (cpu kstack : Z) (s : state) : option (option Z * state) :=
  s ← find_thread cpu s;
  '(t, s) ← take_next cpu s;
  th ← thread_at s t;
  if negb (bool_decide (status th = THREAD_STATUS_RUNNING)) then None else
  '(switched, s) ← switch_to_thread cpu kstack t s;
  Some (if switched : bool then Some t else None, s).

(** ** The scheduler as a system

    [run c] is the thread that executes on CPU [c]; none while the CPU is in the
    scheduler. What happens: a thread wakes, a thread stops (it blocks, it is
    stopped, it dies), the thread on a CPU changes the priority of its process, a CPU
    leaves its thread, and the steps of the scheduler's loop. *)

Inductive event :=
  | Wake (t : Z)
  | Stop (t : Z) (st : thread_status)
  | Nice (c inc : Z)
  | Resched (c : Z)
  | Next (c : Z)
  | Swap (c : Z)
  | Take (c : Z).
#[global] Instance event_eq_dec : EqDecision event.
Proof. solve_decision. Defined.

Record config := mk_config { st : state; run : Z → option Z }.

(** The thread that is taken starts to execute. *)
Definition start_thread (c t : Z) (s : state) : option state :=
  now ← timeman_ticks_since_boot c (time s);
  slice ← _sched_get_timeslice s t;
  s ← on_thread t (λ th, th <|last_cpu := c|> <|start_time_in_ticks := now|> <|ticks_until_preemption := slice|>) s;
  on_cpu c (λ cp, cp <|running_thread := Some t|>) s.

Definition exec (e : event) (g : config) : option (option Z * config) :=
  match e with
  | Wake t => s ← sched_enqueue t (st g); Some (None, mk_config s (run g))
  | Stop t st_ =>
      s ← on_thread t (λ th, th <|status := st_|>) (st g);
      s ← sched_dequeue t s;
      Some (None, mk_config s (run g))
  | Nice c inc => '(_, s) ← sys_nice c inc (st g); Some (None, mk_config s (run g))
  | Resched c => s ← resched c (st g); Some (None, mk_config s (<[c := None]> (run g)))
  | Next c => s ← next_prio c (st g); Some (None, mk_config s (run g))
  | Swap c =>
      s ← next_prio c (st g);
      s ← _sched_swap_buffers c s; Some (None, mk_config s (run g))
  | Take c =>
      '(t, s) ← take_next c (st g);
      s ← start_thread c t s;
      Some (Some t, mk_config s (<[c := Some t]> (run g)))
  end.

(** When an event can happen. *)
Definition waiting_head (g : config) (c : Z) (h : option Z) (last_prio : bool) : Prop :=
  run g c = None ∧ 0 <= c < _active_cpus (st g) ∧
  ∃ cp rq, cpu_at (st g) c = Some cp ∧ (master_buf (sched cp)).[next_read_prio (sched cp)] = Some rq ∧
    head rq = h ∧ (h = None → (next_read_prio (sched cp) + 1 <? TOTAL_PRIOS_COUNT) = negb last_prio).

(** A thread other than an idle one, and a CPU to queue it on. *)
Definition schedulable (s : state) (t : Z) (th : thread_t) : Prop :=
  thread_at s t = Some th ∧
  (∃ p, prio_of s t = Some p ∧ 0 <= p <= MIN_PRIO) ∧
  (last_cpu th = LAST_CPU_NOT_SET ∨ 0 <= last_cpu th < _active_cpus s).

Definition enabled (e : event) (g : config) : Prop :=
  match e with
  | Wake t => ∃ th, schedulable (st g) t th ∧ status th ≠ THREAD_STATUS_RUNNING
  | Stop t st_ => st_ ≠ THREAD_STATUS_RUNNING ∧ ∃ th, schedulable (st g) t th
  | Nice c _ | Resched c => ∃ t, run g c = Some t
  | Next c => waiting_head g c None false
  | Swap c => waiting_head g c None true
  | Take c => ∃ t, waiting_head g c (Some t) false
  end.

(** What the code relies on and does not see to: a thread is woken only after its CPU
    has left it, and a priority changes only when no thread of the process is in a
    queue. *)
Definition settled (e : event) (g : config) : Prop :=
  match e with
  | Wake t => ∀ c, run g c ≠ Some t
  | Nice c _ => ∀ t p pr u th, run g c = Some t → process_of (st g) t = Some (p, pr) →
      thread_at (st g) u = Some th → process th = Some p → status th = THREAD_STATUS_RUNNING → ∃ c', run g c' = Some u
  | _ => True
  end.

(** ** The invariant *)

Record sched_ok (g : config) (Q : qkey → list Z) : Prop := {
  ok_queues : queues (st g) Q;
  ok_active : 0 < _active_cpus (st g) <= MAX_CPU_CNT;
  (* queued threads are on their CPU; an idle thread may not have run yet *)
  ok_last k t th : t ∈ Q k → thread_at (st g) t = Some th → last_cpu th = k.1.1 ∨ k.2 = IDLE_PRIO;
  ok_status k t th : t ∈ Q k → thread_at (st g) t = Some th → status th = THREAD_STATUS_RUNNING;
  (* executing threads are in no queue and know their CPU *)
  ok_run c t : run g c = Some t → 0 <= c < _active_cpus (st g) ∧ (∀ k, t ∉ Q k) ∧
    (∃ cp, cpu_at (st g) c = Some cp ∧ running_thread cp = Some t) ∧
    (∃ th, thread_at (st g) t = Some th ∧ last_cpu th = c) ∧
    (∃ p, prio_of (st g) t = Some p ∧ 0 <= p < TOTAL_PRIOS_COUNT);
  (* the queues before the next one are empty *)
  ok_next c cp : 0 <= c < _active_cpus (st g) → cpu_at (st g) c = Some cp →
    0 <= next_read_prio (sched cp) < TOTAL_PRIOS_COUNT ∧
    ∀ p, 0 <= p < next_read_prio (sched cp) → Q (c, Master, p) = [];
  ok_time c : 0 <= c < _active_cpus (st g) → ∃ now, timeman_ticks_since_boot c (time (st g)) = Some now;
}.

Section same_but.
Context (t : Z) (s s' : state) (Hsb : same_but t s s').

Lemma sb_thread x th' : x ≠ t → thread_at s' x = Some th' →
  ∃ th, thread_at s x = Some th ∧ erase_links th' = erase_links th.
Proof.
  intros Hx Hth. pose proof (sb_threads _ _ _ Hsb x Hx) as He. rewrite Hth in He.
  destruct (thread_at s x) as [th|]; [|done]. exists th. split; [done|]. by apply (inj Some) in He.
Qed.
Lemma sb_thread' x th : x ≠ t → thread_at s x = Some th →
  ∃ th', thread_at s' x = Some th' ∧ erase_links th' = erase_links th.
Proof.
  intros Hx Hth. pose proof (sb_threads _ _ _ Hsb x Hx) as He. rewrite Hth in He.
  destruct (thread_at s' x) as [th'|]; [|done]. exists th'. split; [done|]. by apply (inj Some) in He.
Qed.
Lemma sb_cpu c cp : cpu_at s c = Some cp → ∃ cp', cpu_at s' c = Some cp' ∧ erase_queues cp' = erase_queues cp.
Proof.
  intros Hc. pose proof (sb_cpus _ _ _ Hsb c) as He. rewrite Hc in He.
  destruct (cpu_at s' c) as [cp'|]; [|done]. exists cp'. split; [done|]. by apply (inj Some) in He.
Qed.
Lemma sb_cpu' c cp' : cpu_at s' c = Some cp' → ∃ cp, cpu_at s c = Some cp ∧ erase_queues cp' = erase_queues cp.
Proof.
  intros Hc. pose proof (sb_cpus _ _ _ Hsb c) as He. rewrite Hc in He.
  destruct (cpu_at s c) as [cp|]; [|done]. exists cp. split; [done|]. by apply (inj Some) in He.
Qed.
Lemma sb_prio x : x ≠ t → prio_of s' x = prio_of s x.
Proof.
  intros Hx. pose proof (sb_threads _ _ _ Hsb x Hx) as He.
  unfold prio_of, process_of, proc_at. rewrite (sb_proc _ _ _ Hsb).
  destruct (thread_at s' x), (thread_at s x); try done. apply (inj Some) in He. cbn [mbind option_bind].
  by rewrite (f_equal process He : process t0 = process t1).
Qed.
End same_but.

(** The invariant after a step that concerns one thread and the slave arrays, or
    that takes the thread off its queue. *)
Lemma ok_update g Q t s' run' Q' : sched_ok g Q → same_but t (st g) s' → queues s' Q' →
  (∀ k x, x ≠ t → x ∈ Q' k → x ∈ Q k) →
  (∀ c p, Q (c, Master, p) = [] → Q' (c, Master, p) = []) →
  (∀ k th, t ∈ Q' k → thread_at s' t = Some th →
    (last_cpu th = k.1.1 ∨ k.2 = IDLE_PRIO) ∧ status th = THREAD_STATUS_RUNNING) →
  (∀ c x, run' c = Some x → run g c = Some x) →
  (∀ c, run' c = Some t → (∀ k, t ∉ Q' k) ∧ (∃ th, thread_at s' t = Some th ∧ last_cpu th = c) ∧
    prio_of s' t = prio_of (st g) t) →
  sched_ok (mk_config s' run') Q'.
Proof.
  intros Hok Hsb HQ' Hin Hempty Hlast Hrun Hrt.
  assert (_active_cpus s' = _active_cpus (st g)) as Hact by apply Hsb.
  split; cbn [st run]; rewrite ?Hact; try apply Hok; [done|..].
  - intros k x th Hx Hth. destruct (decide (x = t)) as [->|Hne]; [by apply Hlast|].
    destruct (sb_thread t _ _ Hsb x th Hne Hth) as (th0 & Hth0 & He).
    rewrite (f_equal last_cpu He : last_cpu th = last_cpu th0).
    by apply (ok_last g Q Hok k x); [apply Hin|].
  - intros k x th Hx Hth. destruct (decide (x = t)) as [->|Hne]; [by apply (Hlast k)|].
    destruct (sb_thread t _ _ Hsb x th Hne Hth) as (th0 & Hth0 & He).
    rewrite (f_equal status He : status th = status th0).
    by apply (ok_status g Q Hok k x); [apply Hin|].
  - intros c x Hx. pose proof (ok_run g Q Hok c x (Hrun c x Hx)) as (Hc & Hnoq & (cp & Hcp & Hr) & (th & Hth & Hl) & Hp).
    split; [done|]. destruct (sb_cpu t _ _ Hsb c cp Hcp) as (cp' & Hcp' & Hecp).
    destruct (decide (x = t)) as [->|Hne].
    + destruct (Hrt c Hx) as (Hno & Hth' & Hp'). split; [done|].
      split; [exists cp'; split; [done|]; by rewrite (f_equal running_thread Hecp : running_thread cp' = running_thread cp)|].
      split; [done|]. by rewrite Hp'.
    + split; [intros k Hk; apply (Hnoq k); by apply Hin|].
      split; [exists cp'; split; [done|]; by rewrite (f_equal running_thread Hecp : running_thread cp' = running_thread cp)|].
      destruct (sb_thread' t _ _ Hsb x th Hne Hth) as (th' & Hth' & He).
      split; [exists th'; split; [done|]; by rewrite (f_equal last_cpu He : last_cpu th' = last_cpu th)|].
      by rewrite (sb_prio t _ _ Hsb x Hne).
  - intros c cp' Hc Hcp'. destruct (sb_cpu' t _ _ Hsb c cp' Hcp') as (cp & Hcp & He).
    rewrite (f_equal (λ x, next_read_prio (sched x)) He : next_read_prio (sched cp') = next_read_prio (sched cp)).
    destruct (ok_next g Q Hok c cp Hc Hcp) as [Hn He']. split; [done|]. intros p Hp. by apply Hempty, He'.
  - intros c Hc. rewrite (sb_time _ _ _ Hsb). by apply (ok_time g Q Hok).
Qed.

(** A thread that does not run or that executes is in no queue. *)
Lemma not_running_unqueued g Q t th : sched_ok g Q → thread_at (st g) t = Some th →
  status th ≠ THREAD_STATUS_RUNNING → ∀ k, t ∉ Q k.
Proof.
  intros Hok Hth Hst k Hk. by apply Hst, (ok_status g Q Hok k t).
Qed.

Lemma schedulable_queue g Q t th : sched_ok g Q → schedulable (st g) t th → ∀ k, t ∈ Q k → k.1.1 = last_cpu th.
Proof.
  intros Hok (Hth & (p & Hp & Hpr) & _) k Hk.
  destruct (q_in _ _ (ok_queues _ _ Hok) k t Hk) as [_ Hp']. unfold may_queue in Hp'.
  destruct (ok_last _ _ Hok k t th Hk Hth) as [->|Hidle]; [done|].
  unfold IDLE_PRIO in *. rewrite Hp in Hp'. injection Hp' as Hp'. lia.
Qed.

(** A thread in no queue that no CPU executes is queued. *)
Lemma enqueue_ok g Q t th : sched_ok g Q → (∀ c, run g c ≠ Some t) → schedulable (st g) t th → (∀ k, t ∉ Q k) →
  ∃ s' c p, sched_enqueue t (st g) = Some s' ∧
    sched_ok (mk_config s' (run g)) (<[(c, Slave, p) := t :: Q (c, Slave, p)]> Q) ∧
    same_but t (st g) s' ∧ prio_of (st g) t = Some p ∧ (last_cpu th = LAST_CPU_NOT_SET ∨ c = last_cpu th) ∧
    ∃ th', thread_at s' t = Some th' ∧
      erase_links th' = erase_links (th <|status := THREAD_STATUS_RUNNING|> <|last_cpu := c|>).
Proof.
  intros Hok Hnr (Hth & (p & Hp & Hpr) & Hl) Hno.
  destruct (sched_enqueue_spec (st g) Q t th p) as (s' & c & Hs' & Hc & HQ' & Hsb & Hload & th' & Hth' & Heq);
    try done; [apply Hok..|].
  exists s', c, p. split; [done|].
  split; [|split; [done|split; [done|split; [|by exists th']]]]; [|destruct Hload as [[? _]|?]; [by left|by right]].
  apply (ok_update g Q t); try done.
  - intros k x Hx. rewrite fn_insert_at. case_decide; [subst k; by intros [->|?]%elem_of_cons|done].
  - intros c' p' He. by rewrite fn_lookup_insert_ne by (intros [=]).
  - intros k th'' Hk Hth''. rewrite Hth' in Hth''. injection Hth'' as <-. rewrite fn_insert_at in Hk.
    case_decide; [subst k; split; [left; exact (f_equal last_cpu Heq)|exact (f_equal status Heq)]|by apply Hno in Hk].
  - intros c' Hc''. by apply Hnr in Hc''.
Qed.

Lemma wake_ok g Q t : sched_ok g Q → enabled (Wake t) g → settled (Wake t) g →
  ∃ g' c p, exec (Wake t) g = Some (None, g') ∧ sched_ok g' (<[(c, Slave, p) := t :: Q (c, Slave, p)]> Q) ∧
    same_but t (st g) (st g') ∧ run g' = run g ∧ prio_of (st g) t = Some p ∧
    ∀ th, thread_at (st g) t = Some th → last_cpu th = LAST_CPU_NOT_SET ∨ c = last_cpu th.
Proof.
  intros Hok (th & Hs & Hst) Hnr.
  destruct (enqueue_ok g Q t th Hok Hnr Hs) as (s' & c & p & Hs' & Hok' & Hsb & Hp & Hc & _).
  { apply (not_running_unqueued g Q t th Hok); [apply Hs|done]. }
  exists (mk_config s' (run g)), c, p. cbn [exec]. rewrite Hs'. split; [done|]. split; [done|]. split; [done|].
  split; [done|]. split; [done|]. intros th0 Hth0. destruct Hs as [Hth _]. congruence.
Qed.

(** A thread that is woken while it executes is queued at once. *)
Lemma wake_early g Q t c : sched_ok g Q → enabled (Wake t) g → run g c = Some t →
  ∃ g' Q', exec (Wake t) g = Some (None, g') ∧ run g' c = Some t ∧ queues (st g') Q' ∧ ∃ k, t ∈ Q' k.
Proof.
  intros Hok (th & (Hth & (p & Hp & Hpr) & Hl) & Hst) Hc.
  destruct (sched_enqueue_spec (st g) Q t th p) as (s' & c' & Hs' & _ & HQ' & _); try done; [apply Hok|apply Hok| |].
  { by eapply not_running_unqueued. }
  eexists (mk_config s' (run g)), _. cbn [exec]. rewrite Hs'. split; [done|]. split; [done|]. split; [exact HQ'|].
  exists (c', Slave, p). rewrite fn_lookup_insert. by left.
Qed.

(** The priority of a process none of whose threads is queued. *)
Lemma prio_on_proc s p pr f s' t : proc_at s p = Some pr → on_proc p f s = Some s' →
  prio_of s' t = match process_of s t with Some (q, pr') => Some (if decide (q = p) then prio (f pr) else prio pr') | None => None end.
Proof.
  intros Hp. pose proof (zget_Some _ _ _ Hp) as Hr. unfold on_proc, proc_at in *. rewrite Hp. bind_red. rewrite zset_in by done.
  bind_red. set (ps := <[Z.to_nat p := f pr]> (proc s)). intros E. injection E as E. set (s1 := s <|proc := ps|>). change (s1 = s') in E. subst s'.
  unfold prio_of, process_of, proc_at. change (thread_at s1 t) with (thread_at s t). change (proc s1) with ps.
  destruct (thread_at s t) as [th|]; [|done]. bind_red. destruct (process th) as [q|]; [|done]. bind_red.
  unfold ps. rewrite zget_insert by done. destruct (decide (p = q)) as [->|].
  - by rewrite Hp; bind_red; rewrite decide_True.
  - destruct ((proc s).[q]); [|done]. bind_red. by rewrite decide_False.
Qed.

Lemma nice_ok g Q c inc : sched_ok g Q → enabled (Nice c inc) g → settled (Nice c inc) g →
  ∃ g', exec (Nice c inc) g = Some (None, g') ∧ sched_ok g' Q ∧ storage (st g') = storage (st g) ∧ run g' = run g.
Proof.
  intros Hok [t Ht] Hset. destruct (ok_run _ _ Hok c t Ht) as (_ & _ & (cp & Hcp & Hrt) & _ & (n & Hn & _)).
  cbn [exec]. unfold sys_nice, RUNNING_THREAD. rewrite Hcp. bind_red. rewrite Hrt. bind_red.
  unfold prio_of in Hn. destruct (process_of (st g) t) as [[p pr]|] eqn:Ep; [|done]. bind_red. cbv zeta.
  destruct ((_ <? MAX_PRIO) || _) eqn:Eb; bind_red; [exists g; split; [by destruct g|done]|].
  set (m := u32 (prio pr + inc)) in *. assert (0 <= m < TOTAL_PRIOS_COUNT) as Hm.
  { apply orb_false_iff in Eb as [?%Z.ltb_ge ?%Z.ltb_ge]. unfold TOTAL_PRIOS_COUNT, IDLE_PRIO, MIN_PRIO, MAX_PRIO in *. lia. }
  assert (proc_at (st g) p = Some pr) as Hp.
  { unfold process_of in Ep. apply bind_Some in Ep as (th & _ & (q & _ & Ep)%bind_Some). by apply bind_Some in Ep as (x & ? & [= -> ->]). }
  pose proof (zget_Some _ _ _ Hp) as Hr. destruct (on_proc p _ (st g)) as [s'|] eqn:Es.
  2:{ exfalso. unfold on_proc, proc_at in *. rewrite Hp in Es. cbn [mbind option_bind] in Es. by rewrite zset_in in Es by done. }
  bind_red. pose proof (λ u, prio_on_proc _ _ _ _ _ u Hp Es) as Hprio. cbn [prio] in Hprio.
  assert (s' = (st g) <|proc := proc s'|>) as Heq.
  { unfold on_proc in Es. apply bind_Some in Es as (x & _ & (ps & _ & [= <-])%bind_Some). done. }
  assert (∀ k u, u ∈ Q k → prio_of s' u = prio_of (st g) u) as Hsame.
  { intros k u Hu. rewrite Hprio. unfold prio_of. destruct (process_of (st g) u) as [[q pu]|] eqn:Eu; [|done]. cbn.
    destruct (decide (q = p)) as [->|]; [exfalso|done]. pose proof Eu as Eu'. unfold process_of in Eu'.
    apply bind_Some in Eu' as (th & Hth & (q & Hq & Eu')%bind_Some). apply bind_Some in Eu' as (x & _ & [= -> _]).
    destruct (Hset t p pr u th Ht Ep Hth Hq (ok_status _ _ Hok k u th Hu Hth)) as [c' Hc'].
    destruct (ok_run _ _ Hok c' u Hc') as (_ & Hno & _). by apply (Hno k). }
  exists (mk_config s' (run g)). split; [done|]. split; [|split; [by rewrite Heq|done]].
  rewrite Heq in Hprio, Hsame |- *. split; cbn [st run]; try apply Hok.
  - pose proof (ok_queues _ _ Hok) as HQ. split; try apply HQ. intros k u Hu. destruct (q_in _ _ HQ k u Hu) as [Hv Hmq]. split; [done|].
    unfold may_queue. by rewrite (Hsame k u Hu).
  - intros c' u Hu. destruct (ok_run _ _ Hok c' u Hu) as (H1 & H2 & H3 & H4 & (x & Hx & Hxr)). repeat (split; [done|]).
    rewrite Hprio. unfold prio_of in Hx. destruct (process_of (st g) u) as [[q pu]|]; [|done]. injection Hx as <-.
    eexists. split; [done|]. by case_decide.
Qed.

(** A thread gets another state, with what goes with it, and leaves its queue. *)
Lemma leave_ok g Q t th f : sched_ok g Q → schedulable (st g) t th →
  (∀ th, process (f th) = process th ∧ sched_prev (f th) = sched_prev th ∧ sched_next (f th) = sched_next th) →
  (∀ th, last_cpu (f th) = last_cpu th) →
  ∃ s1 s', on_thread t f (st g) = Some s1 ∧ sched_dequeue t s1 = Some s' ∧
    sched_ok (mk_config s' (run g)) (without t Q) ∧ same_but t (st g) s' ∧
    ∃ th', thread_at s' t = Some th' ∧ erase_links th' = erase_links (f th).
Proof.
  intros Hok Hs Hf Hlf. pose proof (schedulable_queue g Q t th Hok Hs) as Hqc.
  destruct Hs as (Hth & (p & Hp & Hpr) & Hl).
  destruct (queues_on_thread (st g) Q t f th (ok_queues _ _ Hok) Hth Hf) as (s1 & Hs1 & HQ1 & Heq1 & Hat1).
  assert (thread_at s1 t = Some (f th)) as Hth1 by by rewrite Hat1, decide_True.
  pose proof (same_but_storage t _ _ _ _ Heq1 Hth Hat1) as Hsb1.
  assert (prio_of s1 t = Some p) as Hp1 by (rewrite <- Hp; eapply prio_of_process; try done; [apply Hf|apply Hsb1]).
  destruct (sched_dequeue_spec s1 Q t _ p HQ1 Hth1 Hp1) as (s2 & Hs2 & HQ2 & Hr2).
  - unfold TOTAL_PRIOS_COUNT, IDLE_PRIO, MIN_PRIO, MAX_PRIO in *. lia.
  - intros k. rewrite Hlf. apply Hqc.
  - by rewrite Hlf, (sb_active _ _ _ Hsb1).
  - rewrite (sb_active _ _ _ Hsb1). apply Hok.
  - assert (same_but t (st g) s2) as Hsb2 by (eapply same_but_trans; [done|by apply same_but_rest]).
    exists s1, s2. split; [done|]. split; [done|].
    destruct (rest_thread_Some _ _ _ _ Hr2 Hth1) as (th2 & Hth2 & He).
    split; [|split; [done|by exists th2]].
    apply (ok_update g Q t); try done.
    + intros k x _ Hx. by apply elem_of_without in Hx as [_ ?].
    + intros c p' He'. unfold without. by rewrite He'.
    + intros k th' Hk. by apply elem_of_without in Hk as [? _].
    + intros c Hc. split; [intros k Hk; by apply elem_of_without in Hk as [? _]|].
      destruct (ok_run _ _ Hok c t Hc) as (_ & _ & _ & (th0 & Hth0 & Hlc) & _).
      split; [|by rewrite (prio_of_rest s1 s2), Hp, Hp1].
      exists th2. split; [done|]. rewrite (f_equal last_cpu He : last_cpu th2 = last_cpu (f th)), Hlf. congruence.
Qed.

Lemma stop_ok g Q t st_ : sched_ok g Q → enabled (Stop t st_) g →
  ∃ g', exec (Stop t st_) g = Some (None, g') ∧ sched_ok g' (without t Q) ∧
    same_but t (st g) (st g') ∧ run g' = run g.
Proof.
  intros Hok (Hst & th & Hs).
  destruct (leave_ok g Q t th (λ th, th <|status := st_|>) Hok Hs) as (s1 & s2 & Hs1 & Hs2 & Hok2 & Hsb & _); [done..|].
  exists (mk_config s2 (run g)). split; [|done]. cbn [exec]. rewrite Hs1. cbn [mbind option_bind]. by rewrite Hs2.
Qed.

Lemma resched_ok g Q c : sched_ok g Q → enabled (Resched c) g →
  ∃ t g', run g c = Some t ∧ exec (Resched c) g = Some (None, g') ∧
    (sched_ok g' Q ∨ ∃ p, sched_ok g' (<[(c, Slave, p) := Q (c, Slave, p) ++ [t]]> Q)) ∧
    same_but t (st g) (st g') ∧ run g' = <[c := None]> (run g) ∧
    ∃ th th' n, thread_at (st g) t = Some th ∧ thread_at (st g') t = Some th' ∧
      erase_links th' = erase_links (th <|stat_total_running_ticks := n|>) ∧
      (status th ≠ THREAD_STATUS_RUNNING → sched_ok g' Q).
Proof.
  intros Hok (t & Ht). exists t. destruct (ok_run _ _ Hok c t Ht) as (Hc & Hno & (cp & Hcp & Hr) & (th & Hth & Hl) & (p & Hp & Hpr)).
  destruct (ok_time _ _ Hok c Hc) as (now & Hnow).
  destruct (resched_spec (st g) Q c cp t th now (ok_queues _ _ Hok) Hcp Hr Hnow Hth Hno)
    as (s' & Hsb & (th' & n & Hth' & He) & Hstop & Hrun).
  assert (status th' = status th) as Hst' by exact (f_equal status He).
  assert (last_cpu th' = last_cpu th) as Hl' by exact (f_equal last_cpu He).
  assert (∀ c' x, <[c := None]> (run g) c' = Some x → run g c' = Some x ∧ x ≠ t) as Hrun'.
  { intros c' x. rewrite fn_insert_at. case_decide as Hcc; [done|]. intros Hx. split; [done|]. intros ->.
    destruct (ok_run _ _ Hok c' t Hx) as (_ & _ & _ & (th0 & Hth0 & Hl0) & _). congruence. }
  exists (mk_config s' (<[c := None]> (run g))). split; [done|]. cbn [exec].
  destruct (decide (status th = THREAD_STATUS_RUNNING)) as [Hst|Hst].
  - rewrite Hl in Hrun. destruct (Hrun p Hst Hp) as [-> HQ']; [by split|].
    split; [done|]. split; [|split; [done|split; [done|by exists th, th', n]]].
    right. exists p. apply (ok_update g Q t); try done.
    + intros k x Hx. rewrite fn_insert_at. case_decide; [subst k|done].
      by intros [?|?%list_elem_of_singleton]%elem_of_app.
    + intros c' p' He'. by rewrite fn_lookup_insert_ne by (intros [=]).
    + intros k th'' Hk Hth''. rewrite Hth' in Hth''. injection Hth'' as <-. rewrite fn_insert_at in Hk.
      case_decide; [subst k|by apply Hno in Hk]. split; [left; cbn; congruence|congruence].
    + intros c' x Hx. exact (proj1 (Hrun' c' x Hx)).
    + intros c' Hx. by destruct (Hrun' c' t Hx).
  - destruct (Hstop Hst) as [-> HQ']. split; [done|].
    assert (sched_ok (mk_config s' (<[c := None]> (run g))) Q) as Hok'.
    { apply (ok_update g Q t); try done.
      - intros k th'' Hk. by apply Hno in Hk.
      - intros c' x Hx. exact (proj1 (Hrun' c' x Hx)).
      - intros c' Hx. by destruct (Hrun' c' t Hx). }
    split; [by left|]. split; [done|]. split; [done|]. by exists th, th', n.
Qed.

(** The next priority of a CPU changes, and nothing else does. *)
Lemma next_prio_spec s Q c cp : queues s Q → cpu_at s c = Some cp →
  ∃ s', next_prio c s = Some s' ∧ queues s' Q ∧ s' = s <|cpus := cpus s'|> ∧
    ∀ x, cpu_at s' x = if decide (c = x)
      then Some (cp <|sched := (sched cp) <|next_read_prio := next_read_prio (sched cp) + 1|> |>) else cpu_at s x.
Proof.
  intros HQ Hcp. unfold next_prio.
  match goal with |- context [on_cpu c ?f s] => destruct (on_cpu_spec s c f cp Hcp) as (s' & -> & Heq & Hat) end.
  exists s'. split; [done|]. split; [|done].
  apply (queues_move s s' Q (λ k, k)); try done. intros [[c' b] p] _. unfold runqueue. rewrite Hat.
  case_decide; [subst c'; rewrite Hcp; by destruct b|done].
Qed.

(** The invariant after the scheduler of a CPU has changed its own data. *)
Lemma ok_cpu g Q c s' cp cp' Q' : sched_ok g Q → 0 <= c < _active_cpus (st g) →
  cpu_at (st g) c = Some cp → running_thread cp' = running_thread cp →
  s' = (st g) <|cpus := cpus s'|> → (∀ x, cpu_at s' x = if decide (c = x) then Some cp' else cpu_at (st g) x) →
  queues s' Q' → (∀ k t, t ∈ Q' k → ∃ b, t ∈ Q (k.1.1, b, k.2)) →
  (∀ c' p, c' ≠ c → Q' (c', Master, p) = Q (c', Master, p)) →
  0 <= next_read_prio (sched cp') < TOTAL_PRIOS_COUNT ∧
    (∀ p, 0 <= p < next_read_prio (sched cp') → Q' (c, Master, p) = []) →
  sched_ok (mk_config s' (run g)) Q'.
Proof.
  intros Hok Hc Hcp Hrt Heq Hat HQ' Hin Hoth Hnext.
  assert (∀ t, thread_at s' t = thread_at (st g) t) as Hth by (intros t; by rewrite Heq).
  assert (_active_cpus s' = _active_cpus (st g)) as Hact by by rewrite Heq.
  split; cbn [st run]; rewrite ?Hact; try apply Hok; [done|..].
  - intros k t th Hk. rewrite Hth. destruct (Hin k t Hk) as [b Hb]. apply (ok_last _ _ Hok _ _ _ Hb).
  - intros k t th Hk. rewrite Hth. destruct (Hin k t Hk) as [b Hb]. apply (ok_status _ _ Hok _ _ _ Hb).
  - intros c' t Ht. destruct (ok_run _ _ Hok c' t Ht) as (Hc' & Hno & (cp0 & Hcp0 & Hr) & Ht' & Hp).
    split; [done|]. split; [intros k Hk; destruct (Hin k t Hk) as [b Hb]; by apply (Hno _ Hb)|].
    split; [|split; [by rewrite Hth|]].
    + rewrite Hat. case_decide; [subst c'|by exists cp0]. exists cp'. split; [done|]. congruence.
    + unfold prio_of, process_of, proc_at. by rewrite Hth, Heq.
  - intros c' cp0 Hc' Hcp0. rewrite Hat in Hcp0. case_decide; [subst c'; injection Hcp0 as <-; done|].
    destruct (ok_next _ _ Hok c' cp0 Hc' Hcp0) as [Hn He]. split; [done|]. intros p Hp.
    rewrite Hoth by done. by apply He.
  - rewrite Heq. apply Hok.
Qed.

(** What the head of the next queue says. *)
Lemma waiting_head_queue g Q c h l : sched_ok g Q → waiting_head g c h l →
  ∃ cp, cpu_at (st g) c = Some cp ∧ hd_error (Q (c, Master, next_read_prio (sched cp))) = h ∧
    valid_key (st g) (c, Master, next_read_prio (sched cp)) ∧
    (h = None → (next_read_prio (sched cp) + 1 <? TOTAL_PRIOS_COUNT) = negb l).
Proof.
  intros Hok (_ & Hc & cp & rq & Hcp & Hrq & Hh & Hl). exists cp. split; [done|].
  destruct (ok_next _ _ Hok c cp Hc Hcp) as [Hn _].
  assert (valid_key (st g) (c, Master, next_read_prio (sched cp))) as Hk by done.
  pose proof (q_ends _ _ (ok_queues _ _ Hok) _ Hk) as He. unfold runqueue in He. rewrite Hcp in He.
  cbn [mbind option_bind buf] in He. rewrite Hrq in He. injection He as ->. done.
Qed.

Lemma next_ok g Q c : sched_ok g Q → enabled (Next c) g →
  ∃ g', exec (Next c) g = Some (None, g') ∧ sched_ok g' Q ∧ storage (st g') = storage (st g) ∧
    _active_cpus (st g') = _active_cpus (st g) ∧ run g' = run g.
Proof.
  intros Hok Hen. pose proof Hen as (Hr & Hc & _).
  destruct (waiting_head_queue g Q c None false Hok Hen) as (cp & Hcp & Hhd & Hk & Hn).
  destruct (next_prio_spec (st g) Q c cp (ok_queues _ _ Hok) Hcp) as (s' & Hs' & HQ' & Heq & Hat).
  cbn [exec]. rewrite Hs'. eexists. split; [done|]. cbn [st run].
  destruct (ok_next _ _ Hok c cp Hc Hcp) as [Hnp He]. specialize (Hn eq_refl). apply Z.ltb_lt in Hn.
  split; [|by rewrite Heq].
  apply (ok_cpu g Q c s' cp _ Q Hok Hc Hcp) with (3 := Hat); try done.
  - intros [[c' b] p] t Ht. by exists b.
  - change (0 <= next_read_prio (sched cp) + 1 < TOTAL_PRIOS_COUNT ∧
      (∀ p, 0 <= p < next_read_prio (sched cp) + 1 → Q (c, Master, p) = [])).
    split; [lia|]. intros p Hp. destruct (decide (p = next_read_prio (sched cp))) as [->|]; [|apply He; lia].
    by destruct (Q _).
Qed.

Lemma swap_ok g Q c : sched_ok g Q → enabled (Swap c) g →
  ∃ g', exec (Swap c) g = Some (None, g') ∧ sched_ok g' (λ k, Q (swapped c k)) ∧
    storage (st g') = storage (st g) ∧ _active_cpus (st g') = _active_cpus (st g) ∧ run g' = run g ∧
    ∀ p, 0 <= p < TOTAL_PRIOS_COUNT → Q (c, Master, p) = [].
Proof.
  intros Hok Hen. pose proof Hen as (Hr & Hc & _).
  destruct (waiting_head_queue g Q c None true Hok Hen) as (cp & Hcp & Hhd & Hk & Hn).
  destruct (next_prio_spec (st g) Q c cp (ok_queues _ _ Hok) Hcp) as (s1 & Hs1 & HQ1 & Heq1 & Hat1).
  assert (cpu_at s1 c = Some (cp <|sched := (sched cp) <|next_read_prio := next_read_prio (sched cp) + 1|> |>)) as Hcp1
    by by rewrite Hat1, decide_True.
  destruct (swap_spec s1 Q c _ HQ1 Hcp1) as (s2 & Hs2 & HQ2 & Heq2 & cp2 & Hn2 & Hr2 & Hat2).
  cbn [exec]. rewrite Hs1. cbn [mbind option_bind]. rewrite Hs2. eexists. split; [done|]. cbn [st run].
  destruct (ok_next _ _ Hok c cp Hc Hcp) as [Hnp He]. specialize (Hn eq_refl). apply Z.ltb_ge in Hn.
  split; [|split; [by rewrite Heq2, Heq1|split; [by rewrite Heq2, Heq1|split; [done|]]]].
  - apply (ok_cpu g Q c s2 cp cp2 _ Hok Hc Hcp); [done| | |done| | |].
    + rewrite Heq2 at 1. by rewrite Heq1.
    + intros x. rewrite Hat2, Hat1. by case_decide.
    + intros [[c' b] p] t Ht. unfold swapped in Ht. cbn. case_decide; [by exists (other b)|by exists b].
    + intros c' p Hne. unfold swapped. by rewrite decide_False.
    + rewrite Hn2. split; [unfold TOTAL_PRIOS_COUNT, IDLE_PRIO, MIN_PRIO, MAX_PRIO; lia|]. intros p Hp. lia.
  - intros p Hp. destruct (decide (p = next_read_prio (sched cp))) as [->|]; [by destruct (Q _)|apply He; lia].
Qed.

Lemma timeslice_spec p : 0 <= p < TOTAL_PRIOS_COUNT → ∃ n, _sched_timeslices.[p] = Some n.
Proof. intros Hp. apply zget_is_Some. exact Hp. Qed.

Lemma start_thread_spec s Q c cp t th p now : queues s Q → cpu_at s c = Some cp → thread_at s t = Some th →
  prio_of s t = Some p → 0 <= p < TOTAL_PRIOS_COUNT → timeman_ticks_since_boot c (time s) = Some now →
  ∃ s', start_thread c t s = Some s' ∧ queues s' Q ∧
    s' = s <|storage := storage s'|> <|cpus := cpus s'|> ∧ length (storage s') = length (storage s) ∧
    (∃ th', (∀ x, thread_at s' x = if decide (t = x) then Some th' else thread_at s x) ∧
      last_cpu th' = c ∧ status th' = status th ∧ process th' = process th) ∧
    (∀ x, cpu_at s' x = if decide (c = x) then Some (cp <|running_thread := Some t|>) else cpu_at s x).
Proof.
  intros HQ Hcp Hth Hp Hpr Hnow. unfold start_thread. rewrite Hnow. cbn [mbind option_bind].
  destruct (timeslice_spec p Hpr) as [slice Hsl].
  unfold _sched_get_timeslice. rewrite Hp. cbn [mbind option_bind]. rewrite Hsl. cbn [mbind option_bind].
  destruct (queues_on_thread s Q t
    (λ th, th <|last_cpu := c|> <|start_time_in_ticks := now|> <|ticks_until_preemption := slice|>) th HQ Hth)
    as (s1 & -> & HQ1 & Heq1 & Hat1); [done|]. cbn [mbind option_bind].
  assert (cpu_at s1 c = Some cp) as Hcp1 by by rewrite Heq1.
  destruct (on_cpu_spec s1 c (λ cp, cp <|running_thread := Some t|>) cp Hcp1) as (s2 & -> & Heq2 & Hat2).
  exists s2. split; [done|]. split; [|split; [|split; [|split]]].
  - apply (queues_move s1 s2 Q (λ k, k)); try done. intros [[c' b] p'] _. unfold runqueue. rewrite Hat2.
    case_decide; [subst c'; by rewrite Hcp1|done].
  - assert (storage s2 = storage s1) as -> by by rewrite Heq2. rewrite Heq2 at 1. by rewrite Heq1 at 1.
  - assert (storage s2 = storage s1) as -> by by rewrite Heq2. exact (sb_length t s s1 (same_but_storage t s s1 th _ Heq1 Hth Hat1)).
  - eexists. split; [intros x; assert (thread_at s2 x = thread_at s1 x) as -> by (by rewrite Heq2); apply Hat1|done].
  - intros x. rewrite Hat2. case_decide; [done|]. by rewrite Heq1.
Qed.

Lemma take_ok g Q c : sched_ok g Q → enabled (Take c) g →
  ∃ cp t l g', cpu_at (st g) c = Some cp ∧ Q (c, Master, next_read_prio (sched cp)) = t :: l ∧
    exec (Take c) g = Some (Some t, g') ∧
    sched_ok g' (<[(c, Master, next_read_prio (sched cp)) := l]> Q) ∧
    length (storage (st g')) = length (storage (st g)) ∧ _active_cpus (st g') = _active_cpus (st g) ∧
    run g' = <[c := Some t]> (run g).
Proof.
  intros Hok (t & Hen). pose proof Hen as (Hr & Hc & _).
  destruct (waiting_head_queue g Q c (Some t) false Hok Hen) as (cp & Hcp & Hhd & Hk & _).
  set (k := (c, Master, next_read_prio (sched cp))) in *.
  destruct (Q k) as [|t' l] eqn:Hl; [done|]. injection Hhd as ->. exists cp, t, l.
  destruct (take_next_spec (st g) Q c cp t l (ok_queues _ _ Hok) Hcp Hk Hl) as (s1 & Hs1 & HQ1 & Hr1).
  fold k in HQ1. assert (t ∈ Q k) as Htk by (rewrite Hl; by left).
  destruct (q_in _ _ (ok_queues _ _ Hok) k t Htk) as [_ Hp]. unfold may_queue in Hp.
  destruct (prio_of_thread _ _ _ Hp) as [th Hth].
  destruct (rest_thread_Some _ _ _ _ Hr1 Hth) as (th1 & Hth1 & He1).
  pose proof (same_but_rest t _ _ Hr1) as Hsb1.
  destruct (sb_cpu t _ _ Hsb1 c cp Hcp) as (cp1 & Hcp1 & Hecp).
  destruct (ok_time _ _ Hok c Hc) as (now & Hnow).
  destruct (start_thread_spec s1 (<[k := l]> Q) c cp1 t th1 k.2 now)
    as (s2 & Hs2 & HQ2 & Heq2 & Hlen & (th2 & Hat2 & Hl2 & Hst2 & Hpr2) & Hcp2); try done.
  { by rewrite (prio_of_rest (st g) s1). }
  { apply Hk. }
  { by rewrite (sb_time _ _ _ Hsb1). }
  exists (mk_config s2 (<[c := Some t]> (run g))). split; [done|]. split; [done|].
  cbn [exec]. rewrite Hs1. cbn [mbind option_bind]. rewrite Hs2. split; [done|].
  split; [|cbn [st]; rewrite Hlen, (sb_length _ _ _ Hsb1); split; [done|]; split; [|done];
    rewrite Heq2; cbn; apply (sb_active _ _ _ Hsb1)].
  assert (∀ k', t ∉ <[k := l]> Q k') as Hno.
  { intros k'. rewrite fn_insert_at. pose proof (q_nodup _ _ (ok_queues _ _ Hok) k) as Hnd. rewrite Hl in Hnd.
    case_decide as Hkk; [by apply NoDup_cons in Hnd as [? _]|]. intros Hin. apply Hkk.
    by apply (q_disj _ _ (ok_queues _ _ Hok) k k' t). }
  assert (∀ k' x, x ∈ <[k := l]> Q k' → x ∈ Q k' ∧ x ≠ t) as Hin.
  { intros k' x Hx. split; [|intros ->; by apply Hno in Hx]. rewrite fn_insert_at in Hx.
    case_decide; [subst k'; rewrite Hl; by right|done]. }
  assert (∀ x th, x ≠ t → thread_at s2 x = Some th →
    ∃ th0, thread_at (st g) x = Some th0 ∧ erase_links th = erase_links th0) as Hoth.
  { intros x th' Hx Hx'. rewrite Hat2, decide_False in Hx' by done. by apply (sb_thread t _ _ Hsb1). }
  assert (_active_cpus s2 = _active_cpus (st g)) as Hact.
  { rewrite Heq2. apply (sb_active _ _ _ Hsb1). }
  assert (∀ x, prio_of s2 x = prio_of (st g) x) as Hprio.
  { intros x. rewrite <- (prio_of_rest (st g) s1) by done. unfold prio_of, process_of, proc_at. rewrite Hat2.
    assert (proc s2 = proc s1) as -> by by rewrite Heq2.
    case_decide; [subst x; rewrite Hth1; cbn; by rewrite Hpr2|done]. }
  split; cbn [st run]; rewrite ?Hact; [done|apply Hok|..].
  - intros k' x th' Hx Hx'. destruct (Hin k' x Hx) as [HxQ Hne]. destruct (Hoth x th' Hne Hx') as (th0 & Hth0 & He).
    rewrite (f_equal last_cpu He : last_cpu th' = last_cpu th0). by apply (ok_last _ _ Hok k' x).
  - intros k' x th' Hx Hx'. destruct (Hin k' x Hx) as [HxQ Hne]. destruct (Hoth x th' Hne Hx') as (th0 & Hth0 & He).
    rewrite (f_equal status He : status th' = status th0). by apply (ok_status _ _ Hok k' x).
  - intros c' x. rewrite fn_insert_at. case_decide as Hcc.
    + subst c'. intros [= <-]. split; [done|]. split; [done|].
      split; [eexists; rewrite Hcp2, decide_True by done; done|].
      split; [exists th2; by rewrite Hat2, decide_True|]. exists k.2. rewrite Hprio. split; [done|apply Hk].
    + intros Hx. destruct (ok_run _ _ Hok c' x Hx) as (Hc' & HnoQ & (cp0 & Hcp0 & Hrt) & (th0 & Hth0 & Hl0) & Hp0).
      assert (x ≠ t) as Hne by (intros ->; by apply (HnoQ k)).
      split; [done|]. split; [intros k' Hk'; by apply (HnoQ k'), Hin|]. split; [|split; [|by rewrite Hprio]].
      * destruct (sb_cpu t _ _ Hsb1 c' cp0 Hcp0) as (cp3 & Hcp3 & He). exists cp3.
        rewrite Hcp2, decide_False by done. split; [done|].
        by rewrite (f_equal running_thread He : running_thread cp3 = running_thread cp0).
      * destruct (sb_thread' t _ _ Hsb1 x th0 Hne Hth0) as (th3 & Hth3 & He). exists th3.
        rewrite Hat2, decide_False by done. split; [done|].
        by rewrite (f_equal last_cpu He : last_cpu th3 = last_cpu th0).
  - assert (∀ c' cp', cpu_at s2 c' = Some cp' → ∃ cp0, cpu_at (st g) c' = Some cp0 ∧
      next_read_prio (sched cp') = next_read_prio (sched cp0)) as Hnp.
    { intros c' cp' Hcp'. rewrite Hcp2 in Hcp'. case_decide.
      - subst c'. injection Hcp' as <-. exists cp. split; [done|].
        exact (f_equal (λ x, next_read_prio (sched x)) Hecp).
      - destruct (sb_cpu' t _ _ Hsb1 c' cp' Hcp') as (cp0 & Hcp0 & He). exists cp0. split; [done|].
        exact (f_equal (λ x, next_read_prio (sched x)) He). }
    intros c' cp' Hc' Hcp'. destruct (Hnp c' cp' Hcp') as (cp0 & Hcp0 & ->).
    destruct (ok_next _ _ Hok c' cp0 Hc' Hcp0) as [Hn He]. split; [done|]. intros p Hp0.
    specialize (He p Hp0). rewrite fn_insert_at. case_decide as Hkk; [|done].
    unfold k in Hkk. injection Hkk as -> <-. rewrite Hcp in Hcp0. injection Hcp0 as <-. lia.
  - intros c' Hc'. assert (time s2 = time (st g)) as ->.
    { rewrite Heq2. apply (sb_time _ _ _ Hsb1). }
    by apply (ok_time _ _ Hok).
Qed.
