(* ===== verification/SchedRuns.v ===== *)
(** * SchedRuns: what the scheduler promises

    Runs of the scheduler of [Sched.v] with several CPUs: no thread executes
    twice, every thread that waits is taken after a bounded number of turns, and
    the loop of the scheduler ends; what the first CPU does in it is in
    [Lifecycle.v]. *)
From stdpp Require Import functions sets.
From S2P Require Import Prelude TimeManager Tasking Runqueue Thread Signal Sched.

(** ** Runs *)

Inductive step (g : config) (e : event) (r : option Z) (g' : config) : Prop :=
  | step_exec : enabled e g → exec e g = Some (r, g') → step g e r g'.

(** A run with its events and the threads that were taken, in which every event is
    settled. *)
Inductive steps : config → list (event * option Z) → config → Prop :=
  | steps_refl g : steps g [] g
  | steps_cons g e r g1 tr g' : step g e r g1 → settled e g → steps g1 tr g' → steps g ((e, r) :: tr) g'.

(** How an event changes the queues. *)
Definition queues_after (e : event) (r : option Z) (Q Q' : qkey → list Z) : Prop :=
  match e with
  | Wake t => ∃ c p, Q' = <[(c, Slave, p) := t :: Q (c, Slave, p)]> Q
  | Stop t _ => Q' = without t Q
  | Nice _ _ => Q' = Q
  | Resched c => Q' = Q ∨ ∃ p t, Q' = <[(c, Slave, p) := Q (c, Slave, p) ++ [t]]> Q
  | Next c => Q' = Q
  | Swap c => Q' = (λ k, Q (swapped c k)) ∧ ∀ p, 0 <= p < TOTAL_PRIOS_COUNT → Q (c, Master, p) = []
  | Take c => ∃ n t l, 0 <= n < TOTAL_PRIOS_COUNT ∧ (∀ p, 0 <= p < n → Q (c, Master, p) = []) ∧
      Q (c, Master, n) = t :: l ∧ r = Some t ∧ Q' = <[(c, Master, n) := l]> Q
  end.

Lemma exec_ok g Q e : sched_ok g Q → enabled e g → settled e g →
  ∃ r g' Q', exec e g = Some (r, g') ∧ sched_ok g' Q' ∧ queues_after e r Q Q' ∧
    length (storage (st g')) = length (storage (st g)).
Proof.
  intros Hok Hen Hset. destruct e as [t|t st_|c inc|c|c|c|c].
  - destruct (wake_ok g Q t Hok Hen Hset) as (g' & c & p & He & Hok' & Hsb & _).
    exists None, g'. eexists. split; [done|]. split; [exact Hok'|]. split; [by exists c, p|apply Hsb].
  - destruct (stop_ok g Q t st_ Hok Hen) as (g' & He & Hok' & Hsb & _).
    exists None, g'. eexists. split; [done|]. split; [exact Hok'|]. split; [done|apply Hsb].
  - destruct (nice_ok g Q c inc Hok Hen Hset) as (g' & He & Hok' & Hst & _).
    exists None, g'. eexists. split; [done|]. split; [exact Hok'|]. split; [done|by rewrite Hst].
  - destruct (resched_ok g Q c Hok Hen) as (t & g' & _ & He & [Hok'|(p & Hok')] & Hsb & _ & _);
      exists None, g'; eexists; (split; [done|]); (split; [exact Hok'|]); (split; [|apply Hsb]);
      [by left|right; by exists p, t].
  - destruct (next_ok g Q c Hok Hen) as (g' & He & Hok' & Hst & _).
    exists None, g'. eexists. split; [done|]. split; [exact Hok'|]. split; [done|by rewrite Hst].
  - destruct (swap_ok g Q c Hok Hen) as (g' & He & Hok' & Hst & _ & _ & Hemp).
    exists None, g'. eexists. split; [done|]. split; [exact Hok'|]. split; [done|by rewrite Hst].
  - destruct (take_ok g Q c Hok Hen) as (cp & t & l & g' & Hcp & Hl & He & Hok' & Hlen & _).
    exists (Some t), g'. eexists. split; [done|]. split; [exact Hok'|]. split; [|done].
    destruct Hen as (t' & _ & Hc & _). destruct (ok_next _ _ Hok c cp Hc Hcp) as [Hn Hemp].
    by exists (next_read_prio (sched cp)), t, l.
Qed.

Lemma steps_ok g Q tr g' : sched_ok g Q → steps g tr g' → ∃ Q', sched_ok g' Q'.
Proof.
  intros Hok Hs. revert Q Hok. induction Hs as [g|g e r g1 tr g' [Hen He] Hset _ IH]; intros Q Hok; [eauto|].
  destruct (exec_ok g Q e Hok Hen Hset) as (r' & g1' & Q' & He' & Hok' & _). rewrite He in He'.
  injection He' as <- <-. by apply (IH Q').
Qed.

(** ** Waiting *)

(** The threads of the master array of a CPU in the order in which they are
    taken. *)
Definition master_list (Q : qkey → list Z) (c : Z) : list Z :=
  concat (map (λ p, Q (c, Master, p)) (seqZ 0 TOTAL_PRIOS_COUNT)).

Lemma elem_of_master_list Q c t : t ∈ master_list Q c ↔ ∃ p, 0 <= p < TOTAL_PRIOS_COUNT ∧ t ∈ Q (c, Master, p).
Proof.
  unfold master_list. rewrite <- flat_map_concat_map, list_elem_of_In, in_flat_map.
  setoid_rewrite <- list_elem_of_In. setoid_rewrite elem_of_seqZ.
  split; intros (p & Hp & Ht); (exists p; split; [lia|done]).
Qed.

Lemma master_list_ext Q Q' c : (∀ p, Q' (c, Master, p) = Q (c, Master, p)) → master_list Q' c = master_list Q c.
Proof. intros He. unfold master_list. f_equal. apply map_ext. done. Qed.

Lemma master_list_without Q t c : master_list (without t Q) c = filter (λ x, x ≠ t) (master_list Q c).
Proof.
  unfold master_list, without. induction (seqZ 0 TOTAL_PRIOS_COUNT) as [|p ps IH]; [done|].
  cbn [map concat]. by rewrite IH, filter_app.
Qed.

Lemma concat_map_nil {A B} (f : A → list B) l : (∀ x, x ∈ l → f x = []) → concat (map f l) = [].
Proof.
  induction l as [|x l IH]; [done|]. intros Hf. cbn [map concat].
  rewrite (Hf x) by by left. apply IH. intros y Hy. apply Hf. by right.
Qed.

(** Taking the first thread of the first queue takes the first of all. *)
Lemma master_list_take Q c n t l : 0 <= n < TOTAL_PRIOS_COUNT →
  (∀ p, 0 <= p < n → Q (c, Master, p) = []) → Q (c, Master, n) = t :: l →
  master_list Q c = t :: master_list (<[(c, Master, n) := l]> Q) c.
Proof.
  intros Hn Hemp Hl. unfold master_list.
  replace TOTAL_PRIOS_COUNT with (n + (1 + (TOTAL_PRIOS_COUNT - n - 1))) by lia.
  rewrite seqZ_app, seqZ_app by lia. rewrite !map_app, !concat_app.
  assert (∀ (f : Z → list Z) a k, (∀ x, a <= x < a + k → f x = []) → concat (map f (seqZ a k)) = []) as Hnil.
  { intros f a k Hf. apply concat_map_nil. intros x Hx. apply Hf. apply elem_of_seqZ in Hx. lia. }
  rewrite !(Hnil _ 0 n).
  - rewrite !Z.add_0_l. cbn [app]. change (seqZ n 1) with [Z.of_nat 0 + n]. cbn [map concat].
    rewrite Z.add_0_l, Hl, fn_lookup_insert, !app_nil_r. cbn [app]. do 3 f_equal.
    apply map_ext_in. intros p Hp. rewrite <- list_elem_of_In, elem_of_seqZ in Hp.
    rewrite fn_lookup_insert_ne; [done|]. intros [= ?]. lia.
  - intros p Hp. rewrite fn_lookup_insert_ne; [apply Hemp; lia|]. intros [= ?]. lia.
  - intros p Hp. apply Hemp. lia.
Qed.

(** No more threads wait than there are. *)
Lemma bounded_list (l : list Z) N : NoDup l → (∀ x, x ∈ l → 0 <= x < N) → Z.of_nat (length l) <= Z.max 0 N.
Proof.
  intros Hnd Hr. assert (length l <= length (seqZ 0 N))%nat as Hle.
  { apply submseteq_length, NoDup_submseteq; [done|]. intros x Hx. apply elem_of_seqZ. specialize (Hr x Hx). lia. }
  rewrite length_seqZ in Hle. lia.
Qed.

Lemma queued_in_storage g Q k t : sched_ok g Q → t ∈ Q k → 0 <= t < Z.of_nat (length (storage (st g))).
Proof.
  intros Hok Ht. destruct (q_in _ _ (ok_queues _ _ Hok) k t Ht) as [_ Hp].
  destruct (prio_of_thread _ _ _ Hp) as [th Hth]. by apply zget_Some in Hth.
Qed.

Lemma NoDup_concat_map {A} (f : A → list Z) l : NoDup l → (∀ x, NoDup (f x)) →
  (∀ x y z, z ∈ f x → z ∈ f y → x = y) → NoDup (concat (map f l)).
Proof.
  intros Hl Hf Hd. induction Hl as [|x l Hx Hl IH]; [constructor|]. cbn [map concat].
  apply NoDup_app. split; [done|]. split; [|done]. intros z Hz Hz'.
  rewrite <- flat_map_concat_map, list_elem_of_In, in_flat_map in Hz'. destruct Hz' as (y & Hy & Hzy).
  rewrite <- list_elem_of_In in Hy. rewrite <- list_elem_of_In in Hzy. apply Hx. by rewrite (Hd x y z).
Qed.

Lemma master_list_bound g Q c : sched_ok g Q →
  NoDup (master_list Q c) ∧ Z.of_nat (length (master_list Q c)) <= Z.of_nat (length (storage (st g))).
Proof.
  intros Hok. assert (NoDup (master_list Q c)) as Hnd.
  { apply NoDup_concat_map; [apply NoDup_seqZ|intros p; apply (ok_queues _ _ Hok)|].
    intros p p' t H1 H2. pose proof (q_disj _ _ (ok_queues _ _ Hok) _ _ t H1 H2) as [= ?]. done. }
  split; [done|]. etransitivity; [apply (bounded_list _ (Z.of_nat (length (storage (st g)))) Hnd)|lia].
  intros t Ht. apply elem_of_master_list in Ht as (p & _ & Ht). by eapply queued_in_storage.
Qed.

(** How many threads are taken before one that waits on a CPU: those before it in
    the master array; for one in the slave array the whole master array, and then
    no more than all threads. *)
Definition rank (g : config) (Q : qkey → list Z) (c t : Z) (m : nat) : Prop :=
  (∃ l1 l2, master_list Q c = l1 ++ t :: l2 ∧ m = length l1) ∨
  (∃ p, t ∈ Q (c, Slave, p) ∧ m = (length (storage (st g)) + length (master_list Q c))%nat).

Lemma rank_initial g Q c b p t : sched_ok g Q → t ∈ Q (c, b, p) →
  ∃ m, rank g Q c t m ∧ (S m <= 2 * length (storage (st g)))%nat.
Proof.
  intros Hok Ht. destruct (master_list_bound g Q c Hok) as [Hnd Hlen].
  destruct (q_in _ _ (ok_queues _ _ Hok) _ t Ht) as [[_ Hp] _]. cbn in Hp. destruct b.
  - assert (t ∈ master_list Q c) as Hin by (apply elem_of_master_list; eauto).
    apply list_elem_of_split in Hin as (l1 & l2 & Hl). exists (length l1). split; [left; eauto|].
    rewrite Hl, length_app in Hlen. cbn [length] in Hlen. lia.
  - exists (length (storage (st g)) + length (master_list Q c))%nat. split; [right; eauto|].
    assert (t ∉ master_list Q c) as Hno.
    { intros (p' & _ & Ht')%elem_of_master_list.
      by pose proof (q_disj _ _ (ok_queues _ _ Hok) _ _ t Ht Ht'). }
    assert (Z.of_nat (length (t :: master_list Q c)) <= Z.max 0 (Z.of_nat (length (storage (st g))))) as Hb.
    { apply bounded_list; [by constructor|]. intros x [->|Hx]%elem_of_cons; [by eapply queued_in_storage|].
      apply elem_of_master_list in Hx as (p' & _ & Hx). by eapply queued_in_storage. }
    cbn [length] in Hb. lia.
Qed.

(** No event but the thread's own stop makes it wait longer, and a thread that is
    taken by its CPU brings it closer. *)
Lemma rank_step g g' Q Q' e r c t m : sched_ok g' Q' → length (storage (st g')) = length (storage (st g)) →
  queues_after e r Q Q' → (∀ s, e ≠ Stop t s) → rank g Q c t m →
  (e = Take c ∧ r = Some t) ∨ ∃ m', rank g' Q' c t m' ∧ (m' + (if decide (e = Take c) then 1 else 0) <= m)%nat.
Proof.
  intros Hok' Hlen Haft Hns Hrank. unfold rank in *. rewrite Hlen.
  assert (master_list Q' c = master_list Q c → (∀ p, t ∈ Q (c, Slave, p) → t ∈ Q' (c, Slave, p)) → e ≠ Take c →
    ∃ m', ((∃ l1 l2, master_list Q' c = l1 ++ t :: l2 ∧ m' = length l1) ∨
      (∃ p, t ∈ Q' (c, Slave, p) ∧ m' = (length (storage (st g)) + length (master_list Q' c))%nat)) ∧
    (m' + (if decide (e = Take c) then 1 else 0) <= m)%nat) as Hsame.
  { intros Hm Hs Hne. exists m. rewrite Hm, decide_False by done. split; [|lia].
    destruct Hrank as [?|(p & Hp & ->)]; [by left|]. right. exists p. split; [by apply Hs|done]. }
  destruct e as [t'|t' s|c' inc|c'|c'|c'|c']; cbn [queues_after] in Haft.
  - destruct Haft as (c' & p & ->). right. apply Hsame; [by apply master_list_ext; intros; rewrite fn_lookup_insert_ne by (intros [=])| |done].
    intros p' Hp'. rewrite fn_insert_at. destruct (decide ((c', Slave, p) = (c, Slave, p'))) as [Hk|]; [injection Hk as -> ->; by right|done].
  - subst Q'. right. assert (t ≠ t') as Hne by (intros ->; by apply (Hns s)).
    rewrite decide_False by done. rewrite master_list_without. destruct Hrank as [(l1 & l2 & -> & ->)|(p & Hp & ->)].
    + exists (length (filter (λ x, x ≠ t') l1)). rewrite filter_app, filter_cons, decide_True by done.
      pose proof (length_filter (λ x, x ≠ t') l1). split; [left; eauto|lia].
    + exists (length (storage (st g)) + length (filter (λ x, x ≠ t') (master_list Q c)))%nat.
      pose proof (length_filter (λ x, x ≠ t') (master_list Q c)).
      split; [right; exists p; split; [by apply elem_of_without|done]|lia].
  - subst Q'. right. by apply Hsame.
  - right. destruct Haft as [->|(p & t' & ->)]; [by apply Hsame|].
    apply Hsame; [by apply master_list_ext; intros; rewrite fn_lookup_insert_ne by (intros [=])| |done].
    intros p' Hp'. rewrite fn_insert_at. destruct (decide ((c', Slave, p) = (c, Slave, p'))) as [Hk|]; [injection Hk as -> ->; apply elem_of_app; by left|done].
  - subst Q'. right. by apply Hsame.
  - destruct Haft as [-> Hemp]. right. rewrite decide_False by done. destruct (decide (c' = c)) as [->|Hne].
    + assert (master_list Q c = []) as Hnil.
      { apply concat_map_nil. intros p Hp. apply Hemp. apply elem_of_seqZ in Hp. lia. }
      destruct Hrank as [(l1 & l2 & Hl & _)|(p & Hp & ->)]; [rewrite Hnil in Hl; by destruct l1|].
      assert (t ∈ (λ k, Q (swapped c k)) (c, Master, p)) as Hp'.
      { cbn. by rewrite decide_True. }
      destruct (q_in _ _ (ok_queues _ _ Hok') _ t Hp') as [[_ Hpr] _].
      assert (t ∈ master_list (λ k, Q (swapped c k)) c) as Hin by (apply elem_of_master_list; eauto).
      apply list_elem_of_split in Hin as (l1 & l2 & Hl). exists (length l1). split; [left; eauto|].
      destruct (master_list_bound g' _ c Hok') as [_ Hb]. rewrite Hl, length_app in Hb. cbn [length] in Hb.
      rewrite Hlen in Hb. lia.
    + assert (∀ b p, swapped c' (c, b, p) = (c, b, p)) as Hsw.
      { intros b p. unfold swapped. by rewrite decide_False. }
      destruct (Hsame (master_list_ext _ _ c (λ p, f_equal Q (Hsw Master p)))) as (m' & Hm' & Hle); [|done|].
      * intros p Hp. by rewrite Hsw.
      * exists m'. split; [done|]. by rewrite decide_False in Hle.
  - destruct Haft as (n & t' & l & Hn & Hemp & Hl & -> & ->). destruct (decide (c' = c)) as [->|Hne].
    + rewrite decide_True by done. pose proof (master_list_take Q c n t' l Hn Hemp Hl) as Hm. rewrite Hm in Hrank.
      destruct Hrank as [([|x l1] & l2 & Hl1 & ->)|(p & Hp & ->)].
      * left. injection Hl1 as -> _. done.
      * right. injection Hl1 as -> Hl1. exists (length l1). split; [left; eauto|cbn [length]; lia].
      * right. eexists. split; [right; exists p; split; [|done]|cbn [length]; rewrite Nat.add_1_r, Nat.add_succ_r; done].
        by rewrite fn_lookup_insert_ne by (intros [=]).
    + right. apply Hsame; [| |by intros [=]].
      * apply master_list_ext. intros p. rewrite fn_lookup_insert_ne; [done|by intros [=]].
      * intros p Hp. rewrite fn_lookup_insert_ne; [done|by intros [=]].
Qed.

Definition takes (c : Z) (tr : list (event * option Z)) : nat :=
  length (filter (λ x, x.1 = Take c) tr).

Lemma rank_runs g Q tr g' c t m : sched_ok g Q → steps g tr g' → rank g Q c t m →
  (∀ x s, x ∈ tr → x.1 ≠ Stop t s) → (S m <= takes c tr)%nat → (Take c, Some t) ∈ tr.
Proof.
  intros Hok Hs. revert Q m Hok. induction Hs as [g|g e r g1 tr g' [Hen He] Hset Hs IH]; intros Q m Hok Hr Hns Ht.
  { cbn in Ht. lia. }
  destruct (exec_ok g Q e Hok Hen Hset) as (r' & g1' & Q' & He' & Hok' & Haft & Hlen). rewrite He in He'.
  injection He' as <- <-.
  destruct (rank_step g g1 Q Q' e r c t m Hok' Hlen Haft) as [[-> ->]|(m' & Hr' & Hle)]; [|done|by left|].
  { intros s. apply (Hns (e, r)). by left. }
  right. apply (IH Q' m'); [done|done| |].
  - intros x s Hx. apply Hns. by right.
  - unfold takes in *. rewrite filter_cons in Ht. cbn [fst] in Ht. case_decide; cbn [length] in *; lia.
Qed.

(** ** The loop of the scheduler *)

(** A CPU that is in the scheduler. *)
Definition searching (g : config) (c : Z) (cp : cpu_t) : Prop :=
  run g c = None ∧ 0 <= c < _active_cpus (st g) ∧ cpu_at (st g) c = Some cp.

(** The states of the loop differ in the fields of the CPUs only. *)
Definition scanned (c : Z) (g g' : config) : Prop :=
  run g' = run g ∧ st g' = (st g) <|cpus := cpus (st g')|> ∧
  (∀ x, x ≠ c → cpu_at (st g') x = cpu_at (st g) x) ∧ id <$> cpu_at (st g') c = id <$> cpu_at (st g) c.

Lemma scanned_trans c g1 g2 g3 : scanned c g1 g2 → scanned c g2 g3 → scanned c g1 g3.
Proof.
  intros (R1 & E1 & A1 & I1) (R2 & E2 & A2 & I2). split; [congruence|]. split; [by rewrite E2, E1|].
  split; [intros x Hx; by rewrite A2, A1|congruence].
Qed.

(** A round that finds a queue, or an empty one before the last. *)
Lemma find_step_spec g Q c cp : sched_ok g Q → searching g c cp →
  match Q (c, Master, next_read_prio (sched cp)) with
  | t :: _ => find_step c (st g) = Some (inr (st g)) ∧ waiting_head g c (Some t) false
  | [] => if next_read_prio (sched cp) + 1 <? TOTAL_PRIOS_COUNT
      then ∃ g' cp', find_step c (st g) = Some (inl (st g')) ∧ sched_ok g' Q ∧ scanned c g g' ∧ searching g' c cp' ∧
        next_read_prio (sched cp') = next_read_prio (sched cp) + 1
      else enabled (Swap c) g
  end.
Proof.
  intros Hok (Hr & Hc & Hcp). destruct (ok_next _ _ Hok c cp Hc Hcp) as [Hn _].
  assert (valid_key (st g) (c, Master, next_read_prio (sched cp))) as Hk by done.
  pose proof (q_ends _ _ (ok_queues _ _ Hok) _ Hk) as He. unfold runqueue in He. rewrite Hcp in He.
  cbn [mbind option_bind buf] in He.
  destruct (Q (c, Master, next_read_prio (sched cp))) as [|t l] eqn:El.
  - assert (waiting_head g c None (negb (next_read_prio (sched cp) + 1 <? TOTAL_PRIOS_COUNT))) as Hw.
    { split; [done|]. split; [done|]. exists cp. eexists. split; [done|]. split; [exact He|]. split; [done|].
      intros _. by rewrite negb_involutive. }
    destruct (Z.ltb_spec (next_read_prio (sched cp) + 1) TOTAL_PRIOS_COUNT) as [Hlt|Hge]; [|exact Hw].
    destruct (next_prio_spec (st g) Q c cp (ok_queues _ _ Hok) Hcp) as (s1 & Hs1 & HQ1 & Heq1 & Hat1).
    destruct (next_ok g Q c Hok Hw) as (g' & Hg' & Hok' & Hst & Hact & Hr'). cbn [exec] in Hg'. rewrite Hs1 in Hg'. injection Hg' as <-.
    cbn [st run] in *. unfold find_step. rewrite Hcp. bind_red. rewrite He. cbn [mbind option_bind head hd_error]. rewrite Hs1. bind_red.
    rewrite (proj2 (Z.leb_gt _ _)) by lia. eexists (mk_config s1 (run g)), _. split; [done|]. split; [done|].
    split; [|split; [split; [done|]; cbn [st]; split; [by rewrite Hact|]; by rewrite Hat1, decide_True|done]].
    split; [done|]. split; [done|]. cbn [st]. split; [intros x Hx; by rewrite Hat1, decide_False|]. by rewrite Hat1, decide_True, Hcp.
  - unfold find_step. rewrite Hcp. bind_red. rewrite He. cbn [mbind option_bind head hd_error]. split; [done|].
    split; [done|]. split; [done|]. exists cp. eexists. split; [done|]. split; [exact He|]. done.
Qed.

(** With a thread in the master array the loop finds the first queue. *)
Lemma find_scan Q c : ∀ (k fuel : nat) g cp p t, sched_ok g Q → searching g c cp →
  t ∈ Q (c, Master, p) → p - next_read_prio (sched cp) <= Z.of_nat k → (k < fuel)%nat →
  ∃ g' t', loop fuel (find_step c) (st g) = Some (st g') ∧ sched_ok g' Q ∧ run g' = run g ∧
    waiting_head g' c (Some t') false.
Proof.
  induction k as [|k IH]; intros fuel g cp p t Hok Hsec Ht Hk Hf; (destruct fuel as [|fuel]; [lia|]); rewrite loop_S.
  all: pose proof Hsec as (Hr & Hc & Hcp); pose proof (find_step_spec g Q c cp Hok Hsec) as Hstep;
    destruct (ok_next _ _ Hok c cp Hc Hcp) as [Hn Hemp];
    destruct (q_in _ _ (ok_queues _ _ Hok) _ t Ht) as [[_ Hpr] _]; cbn in Hpr;
    assert (next_read_prio (sched cp) <= p) by
      (destruct (decide (p < next_read_prio (sched cp))); [rewrite Hemp in Ht by lia; by apply elem_of_nil in Ht|lia]);
    destruct (Q (c, Master, next_read_prio (sched cp))) as [|t' l] eqn:El;
    [|destruct Hstep as [-> Hw]; exists g, t'; done].
  - assert (p = next_read_prio (sched cp)) as -> by lia. rewrite El in Ht. by apply elem_of_nil in Ht.
  - assert (p ≠ next_read_prio (sched cp)) by (intros ->; rewrite El in Ht; by apply elem_of_nil in Ht).
    rewrite (proj2 (Z.ltb_lt _ _)) in Hstep by lia. destruct Hstep as (g' & cp' & -> & Hok' & Hsc & Hsec' & Hn').
    destruct (IH fuel g' cp' p t) as (g2 & t2 & Hl & Hok2 & Hr2 & Hw2); try done; [lia..|].
    exists g2, t2. split; [done|]. split; [done|]. split; [|done]. destruct Hsc as [? _]. congruence.
Qed.

(** Without one, it comes to the last queue. *)
Lemma find_empty Q c : ∀ (k fuel : nat) g cp, sched_ok g Q → searching g c cp →
  (∀ p, 0 <= p < TOTAL_PRIOS_COUNT → Q (c, Master, p) = []) →
  TOTAL_PRIOS_COUNT - 1 - next_read_prio (sched cp) = Z.of_nat k →
  ∃ g' cp', loop (k + fuel) (find_step c) (st g) = loop fuel (find_step c) (st g') ∧
    sched_ok g' Q ∧ scanned c g g' ∧ searching g' c cp' ∧ enabled (Swap c) g'.
Proof.
  induction k as [|k IH]; intros fuel g cp Hok Hsec Hnil Hk; pose proof Hsec as (Hr & Hc & Hcp);
    destruct (ok_next _ _ Hok c cp Hc Hcp) as [Hn _]; pose proof (find_step_spec g Q c cp Hok Hsec) as Hstep; rewrite Hnil in Hstep by done.
  - rewrite (proj2 (Z.ltb_ge _ _)) in Hstep by lia. exists g, cp. split; [done|]. split; [done|]. split; [|done]. split; [done|]. by destruct (st g).
  - rewrite (proj2 (Z.ltb_lt _ _)) in Hstep by lia. destruct Hstep as (g1 & cp1 & E & Hok1 & Hsc1 & Hsec1 & Hn1).
    destruct (IH fuel g1 cp1 Hok1 Hsec1 Hnil) as (g2 & cp2 & Hl & Hok2 & Hsc2 & Hrest); [lia|].
    exists g2, cp2. cbn [Nat.add]. rewrite loop_S, E. split; [done|]. split; [done|]. split; [by eapply scanned_trans|done].
Qed.

(** What the exchange of the arrays comes to: [R] relates the queues before it to
    those that are exchanged. *)
Definition last_round (g : config) (Q : qkey → list Z) (c : Z) (R : (qkey → list Z) → Prop) : Prop :=
  ∀ g' cp', sched_ok g' Q → scanned c g g' → searching g' c cp' → enabled (Swap c) g' →
  ∃ g2 cp2 Q1, find_step c (st g') = Some (inl (st g2)) ∧ sched_ok g2 (λ k, Q1 (swapped c k)) ∧ run g2 = run g' ∧
    searching g2 c cp2 ∧ next_read_prio (sched cp2) = 0 ∧ R Q1.

Lemma swap_round g Q c cp : sched_ok g Q → searching g c cp → enabled (Swap c) g →
  ∃ g2 cp2, exec (Swap c) g = Some (None, g2) ∧ sched_ok g2 (λ k, Q (swapped c k)) ∧ run g2 = run g ∧
    searching g2 c cp2 ∧ next_read_prio (sched cp2) = 0.
Proof.
  intros Hok (Hr & Hc & Hcp) Hen. destruct (swap_ok g Q c Hok Hen) as (g2 & He & Hok2 & _ & Hact & Hr2 & _).
  pose proof He as Ex. cbn [exec] in Ex. apply bind_Some in Ex as (s1 & E1 & (s2 & E2 & [= <-])%bind_Some). cbn [st run] in *.
  destruct (next_prio_spec (st g) Q c cp (ok_queues _ _ Hok) Hcp) as (x & Hx & HQ1 & _ & Hat1). rewrite E1 in Hx. injection Hx as <-.
  pose proof (Hat1 c) as Hcp1. rewrite decide_True in Hcp1 by done.
  destruct (swap_spec s1 Q c _ HQ1 Hcp1) as (x & Hx & _ & _ & cp2 & Hn2 & _ & Hat2). rewrite E2 in Hx. injection Hx as <-.
  exists (mk_config s2 (run g)), cp2. split; [done|]. split; [done|]. split; [done|]. split; [|done].
  split; [done|]. cbn [st]. split; [by rewrite Hact|]. by rewrite Hat2, decide_True.
Qed.

(** On a CPU other than the first nothing else happens then. *)
Lemma last_round_secondary g Q c cp : cpu_at (st g) c = Some cp → id cp ≠ 0 → last_round g Q c (λ Q1, Q1 = Q).
Proof.
  intros Hcp Hid g' cp' Hok (_ & _ & _ & Hid') Hsec Hen. pose proof Hsec as (_ & _ & Hcp'). rewrite Hcp, Hcp' in Hid'. injection Hid' as Hid'.
  destruct (swap_round g' Q c cp' Hok Hsec Hen) as (g2 & cp2 & Ex & Hok2 & Hr2 & Hsec2 & Hn2). exists g2, cp2, Q.
  split; [|done]. cbn [exec] in Ex. apply bind_Some in Ex as (s1 & E1 & (s2 & E2 & [= <-])%bind_Some).
  destruct Hen as (_ & _ & cp0 & rq & Hcp0 & Hrq & Hh & Hlast). rewrite Hcp' in Hcp0. injection Hcp0 as <-. specialize (Hlast eq_refl).
  apply Z.ltb_ge in Hlast. unfold find_step. rewrite Hcp'. bind_red. rewrite Hrq. bind_red. rewrite Hh, E1. bind_red.
  rewrite (proj2 (Z.leb_le _ _)) by lia. rewrite (proj2 (Z.eqb_neq _ _)) by congruence. bind_red. rewrite E2. done.
Qed.

Lemma find_thread_spec g Q c cp b p t R : sched_ok g Q → searching g c cp → t ∈ Q (c, b, p) →
  (master_list Q c = [] → last_round g Q c R) → (∀ Q1, R Q1 → t ∈ Q1 (c, b, p)) →
  ∃ g' t' Q' s, find_thread c (st g) = Some (st g') ∧ sched_ok g' Q' ∧ run g' = run g ∧ take_next c (st g') = Some (t', s) ∧
    hd_error (master_list Q' c) = Some t' ∧
    (Q' = Q ∨ master_list Q c = [] ∧ ∃ Q1, R Q1 ∧ Q' = λ k, Q1 (swapped c k)).
Proof.
  intros Hok Hsec Ht Hlast HR. unfold find_thread. pose proof Hsec as (Hr & Hc & Hcp).
  destruct (ok_next _ _ Hok c cp Hc Hcp) as [Hn _].
  assert (∀ g' Q' t', sched_ok g' Q' → waiting_head g' c (Some t') false →
    ∃ s, take_next c (st g') = Some (t', s) ∧ hd_error (master_list Q' c) = Some t') as Hhead.
  { intros g' Q' t' Hok' Hw. destruct (waiting_head_queue g' Q' c _ _ Hok' Hw) as (cp' & Hcp' & Hhd & Hk & _).
    destruct Hw as (_ & Hc' & _). destruct (ok_next _ _ Hok' c cp' Hc' Hcp') as [Hn' Hemp].
    destruct (Q' (c, Master, next_read_prio (sched cp'))) as [|t1 l] eqn:El; [done|]. injection Hhd as ->.
    destruct (take_next_spec _ Q' c cp' t' l (ok_queues _ _ Hok') Hcp' Hk El) as (s & Hs & _). exists s. split; [exact Hs|].
    by rewrite (master_list_take Q' c _ t' l Hn' Hemp El). }
  destruct (master_list Q c) as [|t0 ml] eqn:Eml.
  - assert (∀ p, 0 <= p < TOTAL_PRIOS_COUNT → Q (c, Master, p) = []) as Hnil.
    { intros p0 Hp0. destruct (Q (c, Master, p0)) as [|x l] eqn:El; [done|].
      assert (x ∈ master_list Q c) as Hx by (apply elem_of_master_list; exists p0; rewrite El; split; [done|by left]).
      rewrite Eml in Hx. by apply elem_of_nil in Hx. }
    destruct (q_in _ _ (ok_queues _ _ Hok) _ t Ht) as [[_ Hpr] _]. cbn in Hpr.
    assert (b = Slave) as ->. { destruct b; [|done]. rewrite Hnil in Ht by done. by apply elem_of_nil in Ht. }
    set (k := Z.to_nat (TOTAL_PRIOS_COUNT - 1 - next_read_prio (sched cp))).
    assert (k <= 12)%nat as Hk by (unfold k, TOTAL_PRIOS_COUNT, IDLE_PRIO, MIN_PRIO, MAX_PRIO in *; lia).
    destruct (find_empty Q c k (27 - k) g cp Hok Hsec Hnil) as (g1 & cp1 & El & Hok1 & Hsc1 & Hsec1 & Hen1); [unfold k; lia|].
    replace (k + (27 - k))%nat with 27%nat in El by lia. rewrite El.
    destruct (Hlast eq_refl g1 cp1 Hok1 Hsc1 Hsec1 Hen1) as (g2 & cp2 & Q1 & Es & Hok2 & Hr2 & Hsec2 & Hn2 & HQ1).
    replace (27 - k)%nat with (S (26 - k)) by lia. rewrite loop_S, Es.
    assert (t ∈ (λ k, Q1 (swapped c k)) (c, Master, p)) as Ht1 by (cbn; rewrite decide_True by done; by apply HR).
    destruct (find_scan _ c 12 (26 - k) g2 cp2 p t Hok2 Hsec2 Ht1) as (g3 & t3 & Hl3 & Hok3 & Hr3 & Hw3);
      [unfold TOTAL_PRIOS_COUNT, IDLE_PRIO, MIN_PRIO, MAX_PRIO in *; lia|lia|].
    destruct (Hhead g3 _ t3 Hok3 Hw3) as (s & Hs & Hhd). exists g3, t3. eexists. exists s. split; [exact Hl3|]. split; [exact Hok3|].
    split; [destruct Hsc1 as [? _]; congruence|]. split; [done|]. split; [done|]. right. split; [done|]. by exists Q1.
  - assert (t0 ∈ master_list Q c) as (p0 & Hp0 & Ht0)%elem_of_master_list by (rewrite Eml; by left).
    destruct (find_scan Q c 12 27 g cp p0 t0 Hok Hsec Ht0) as (g2 & t2 & Hl2 & Hok2 & Hr2 & Hw2);
      [unfold TOTAL_PRIOS_COUNT, IDLE_PRIO, MIN_PRIO, MAX_PRIO in *; lia|lia|].
    destruct (Hhead g2 Q t2 Hok2 Hw2) as (s & Hs & Hhd). exists g2, t2, Q, s. split; [done|]. split; [done|].
    split; [done|]. split; [done|]. split; [done|]. by left.
Qed.

(** ** The start *)

(** CPUs with empty queues, and no thread with links. *)
Lemma empty_ok s : 0 < _active_cpus s <= MAX_CPU_CNT →
  (∀ c, 0 <= c < _active_cpus s → ∃ cp now, cpu_at s c = Some cp ∧ timeman_ticks_since_boot c (time s) = Some now ∧
    next_read_prio (sched cp) = 0 ∧ master_buf (sched cp) = replicate 13 (mk_runqueue None None) ∧
    slave_buf (sched cp) = replicate 13 (mk_runqueue None None)) →
  (∀ t l, links s t = Some l → l = (None, None)) →
  sched_ok (mk_config s (λ _, None)) (λ _, []).
Proof.
  intros Ha Hc Hl. split; cbn [st run]; [|done| | | | |].
  - split; cbn; try done; [|intros k t Ht; by apply elem_of_nil in Ht|intros k; constructor|intros k k' t Ht; by apply elem_of_nil in Ht|intros t l _; apply Hl].
    intros [[c b] p] [Hk Hp]. destruct (Hc c Hk) as (cp & now & Hcp & _ & _ & Hm & Hs).
    unfold runqueue. rewrite Hcp. cbn [mbind option_bind snd fst] in *.
    assert ((replicate 13 (mk_runqueue None None)).[p] = Some (mk_runqueue None None)) as Hrep.
    { rewrite zget_lookup by lia. apply lookup_replicate. split; [done|].
      unfold TOTAL_PRIOS_COUNT, IDLE_PRIO, MIN_PRIO, MAX_PRIO in Hp. lia. }
    destruct b; cbn [buf]; by rewrite ?Hm, ?Hs.
  - intros k t th Ht. by apply elem_of_nil in Ht.
  - intros k t th Ht. by apply elem_of_nil in Ht.
  - done.
  - intros c cp Hc' Hcp. destruct (Hc c Hc') as (cp' & now & Hcp' & _ & Hn & _). rewrite Hcp in Hcp'. injection Hcp' as <-.
    rewrite Hn. split; [done|]. intros p Hp. lia.
  - intros c Hc'. destruct (Hc c Hc') as (cp & now & _ & Hn & _). eauto.
Qed.

(** ** Runs by computation *)

(** What a CPU in the scheduler sees: the head of the queue, and whether there is
    a priority after it. *)
Definition master_head (c : Z) (g : config) : option (option Z * bool) :=
  match run g c with
  | Some _ => None
  | None =>
      if (0 <=? c) && (c <? _active_cpus (st g)) then
        cp ← cpu_at (st g) c;
        rq ← (master_buf (sched cp)).[next_read_prio (sched cp)];
        Some (head rq, next_read_prio (sched cp) + 1 <? TOTAL_PRIOS_COUNT)
      else None
  end.

(** The scheduler's own events, with their conditions tested. *)
Definition can_happen (e : event) (g : config) : bool :=
  match e with
  | Wake _ | Stop _ _ | Nice _ _ => false
  | Resched c => match run g c with Some _ => true | None => false end
  | Next c => match master_head c g with Some (None, true) => true | _ => false end
  | Swap c => match master_head c g with Some (None, false) => true | _ => false end
  | Take c => match master_head c g with Some (Some _, _) => true | _ => false end
  end.

Lemma master_head_waiting c g h b : master_head c g = Some (h, b) → waiting_head g c h (negb b).
Proof.
  unfold master_head. destruct (run g c) eqn:Er; [done|].
  destruct ((0 <=? c) && (c <? _active_cpus (st g))) eqn:Ec; [|done].
  destruct (cpu_at (st g) c) as [cp|] eqn:Ecp; [|done]. cbn [mbind option_bind].
  destruct ((master_buf (sched cp)).[_]) as [rq|] eqn:Erq; [|done]. cbn [mbind option_bind]. intros [= <- <-].
  split; [done|]. split; [lia|]. exists cp, rq. rewrite negb_involutive. done.
Qed.

Lemma can_happen_enabled e g : can_happen e g = true → enabled e g ∧ settled e g.
Proof.
  intros He. split; [|by destruct e]. revert He. unfold can_happen. destruct e as [| | |c|c|c|c]; try done.
  - destruct (run g c) as [t|] eqn:E; [|done]. intros _. by exists t.
  - destruct (master_head c g) as [[[t|] [|]]|] eqn:E; try done. intros _. by apply (master_head_waiting c g None true).
  - destruct (master_head c g) as [[[t|] [|]]|] eqn:E; try done. intros _. by apply (master_head_waiting c g None false).
  - destruct (master_head c g) as [[[t|] b]|] eqn:E; try done.
    intros _. exists t. destruct (master_head_waiting c g (Some t) b E) as (H1 & H2 & cp & rq & H3 & H4 & H5 & _).
    split; [done|]. split; [done|]. by exists cp, rq.
Qed.

Fixpoint play (es : list event) (g : config) : option (list (event * option Z) * config) :=
  match es with
  | [] => Some ([], g)
  | e :: es =>
      if can_happen e g then
        '(r, g) ← exec e g;
        '(tr, g) ← play es g;
        Some ((e, r) :: tr, g)
      else None
  end.

Lemma play_steps es g tr g' : play es g = Some (tr, g') → steps g tr g'.
Proof.
  revert g tr. induction es as [|e es IH]; intros g tr; cbn [play].
  { intros [= <- <-]. constructor. }
  destruct (can_happen e g) eqn:Ec; [|done]. destruct (exec e g) as [[r g1]|] eqn:Ee; [|done]. cbn [mbind option_bind].
  destruct (play es g1) as [[tr1 g2]|] eqn:Ep; [|done]. cbn [mbind option_bind]. intros [= <- <-].
  apply can_happen_enabled in Ec as [Hen Hset]. econstructor; [by split|done|by apply IH].
Qed.

(** ** Properties *)

(** C1. In a run of any number of threads and CPUs, events in any order, in which no
    thread is woken while it still executes and no priority changes while a thread
    of the process is queued ([settled]): no thread is ever executed by two CPUs, an
    executing thread is in no queue, every thread is in at most one queue, the links
    of the queues are intact, and no settled operation that can happen goes wrong.
    The code does not see to the first condition: a thread that is woken early is in
    a queue while it executes. *)
Theorem sched_threads_exclusive g Q tr g' :
  sched_ok g Q → steps g tr g' →
  (∀ c c' t, run g' c = Some t → run g' c' = Some t → c = c') ∧
  (∃ Q', queues (st g') Q' ∧ ∀ c t k, run g' c = Some t → t ∉ Q' k) ∧
  (∀ e, enabled e g' → settled e g' → ∃ r g'', exec e g' = Some (r, g'')) ∧
  (∀ t c, enabled (Wake t) g' → run g' c = Some t →
    ∃ g'' Q'', exec (Wake t) g' = Some (None, g'') ∧ run g'' c = Some t ∧ queues (st g'') Q'' ∧ ∃ k, t ∈ Q'' k).
Proof.
  intros Hok Hs. destruct (steps_ok g Q tr g' Hok Hs) as [Q' Hok']. split; [|split; [|split]].
  - intros c c' t H1 H2. destruct (ok_run _ _ Hok' c t H1) as (_ & _ & _ & (th & Hth & Hl) & _).
    destruct (ok_run _ _ Hok' c' t H2) as (_ & _ & _ & (th' & Hth' & Hl') & _). congruence.
  - exists Q'. split; [apply Hok'|]. intros c t k Ht. by apply (ok_run _ _ Hok' c t).
  - intros e He Hset. destruct (exec_ok g' Q' e Hok' He Hset) as (r & g'' & _ & Hex & _). eauto.
  - intros t c. by apply wake_early with Q'.
Qed.

(** C4. No thread starves: in a run as above, a thread that waits in either array of a CPU and is
    not stopped is taken by that CPU within twice as many turns as there are
    threads, whatever priorities the others have and however many of them are
    woken in the meantime. *)
Theorem sched_every_thread_runs g Q tr g' c b p t :
  sched_ok g Q → t ∈ Q (c, b, p) → steps g tr g' →
  (∀ x s, x ∈ tr → x.1 ≠ Stop t s) → (2 * length (storage (st g)) <= takes c tr)%nat →
  (Take c, Some t) ∈ tr.
Proof.
  intros Hok Ht Hs Hns Hn. destruct (rank_initial g Q c b p t Hok Ht) as (m & Hr & Hm).
  apply (rank_runs g Q tr g' c t m); (done || lia).
Qed.

(** ** Examples *)

(** Two CPUs and two threads of one process, which have run on the second CPU. *)
Definition fresh_sched : sched_data_t :=
  {| next_read_prio := 0; master_buf := replicate 13 (mk_runqueue None None);
     slave_buf := replicate 13 (mk_runqueue None None); enqueued_tasks := 0 |}.
Definition example_thread (st_ : thread_status) : thread_t :=
  mk_thread (Some 0) 7 st_ None None 1 0 0 (mk_blocker BLOCKER_INVALID None false) data_none 0 0xffffffff 0
    (replicate 32 0) [].
Definition example_system : state := {|
  storage := [example_thread THREAD_STATUS_BLOCKED; example_thread THREAD_STATUS_BLOCKED];
  empty_spots := 0;
  proc := [mk_proc 7 1 6 PROC_ALIVE (Some 0) None 0];
  nxt_proc := 1; proc_next_pid := 8;
  cpus := [ {| id := 0; running_thread := None; idle_thread := None; sched := fresh_sched |};
            {| id := 1; running_thread := None; idle_thread := None; sched := fresh_sched |} ];
  _active_cpus := 2; _enqueued_tasks := 0;
  time := booted;
  files := {| can_read := λ _, None; can_write := λ _, None |};
|}.
Definition example_idle : config := mk_config example_system (λ _, None).

Lemma example_idle_ok : sched_ok example_idle (λ _, []).
Proof.
  apply empty_ok; [done| |].
  - intros c Hc. cbn in Hc. assert (c = 0 ∨ c = 1) as [-> | ->] by lia; eexists _, 0; vm_compute; done.
  - intros t l Hl. unfold links, thread_at in Hl. cbn in Hl.
    destruct (zget _ t) as [th|] eqn:E; [|done]. pose proof (zget_Some _ _ _ E) as Hr. cbn in Hr.
    assert (t = 0 ∨ t = 1) as [-> | ->] by lia; injection E as <-; by injection Hl as <-.
Qed.

(** One of them is woken. *)
Definition example_woken : config := match exec (Wake 1) example_idle with Some (_, g) => g | None => example_idle end.
Definition example_queues : qkey → list Z := <[(1, Slave, 6) := [1]]> (λ _, []).

Lemma example_woken_ok : sched_ok example_woken example_queues.
Proof.
  destruct (wake_ok example_idle (λ _, []) 1 example_idle_ok) as (g' & c & p & He & Hok & _ & _ & Hp & Hc).
  { exists (example_thread THREAD_STATUS_BLOCKED). split; [|done].
    split; [done|]. split; [exists 6; by split|right; by split]. }
  { done. }
  assert (p = 6) as -> by (vm_compute in Hp; by injection Hp).
  destruct (Hc (example_thread THREAD_STATUS_BLOCKED) eq_refl) as [|Hl]; [done|]. cbn in Hl. subst c.
  unfold example_woken. rewrite He. exact Hok.
Qed.

(** The second CPU takes it, four times. *)
Definition turn : list event := replicate 6 (Next 1) ++ [Take 1; Resched 1] ++ replicate 6 (Next 1) ++ [Swap 1].
Definition example_events : list event := replicate 12 (Next 1) ++ [Swap 1] ++ turn ++ turn ++ turn ++ turn.
Definition example_trace : list (event * option Z) :=
  match play example_events example_woken with Some (tr, _) => tr | None => [] end.
Definition example_end : config :=
  match play example_events example_woken with Some (_, g) => g | None => example_woken end.

Lemma example_steps : steps example_woken example_trace example_end.
Proof. apply (play_steps example_events). vm_compute. reflexivity. Qed.

Lemma sched_threads_exclusive_witness :
  (∀ c c' t, run example_end c = Some t → run example_end c' = Some t → c = c') ∧
  (∃ Q', queues (st example_end) Q' ∧ ∀ c t k, run example_end c = Some t → t ∉ Q' k) ∧
  (∀ e, enabled e example_end → settled e example_end → ∃ r g'', exec e example_end = Some (r, g'')).
Proof.
  destruct (sched_threads_exclusive example_woken example_queues _ _ example_woken_ok example_steps) as (H1 & H2 & H3 & _).
  split; [exact H1|]. split; [exact H2|exact H3].
Defined.

Lemma sched_every_thread_runs_witness : (Take 1, Some 1) ∈ example_trace.
Proof.
  apply (sched_every_thread_runs example_woken example_queues example_trace example_end 1 Slave 6 1);
    [exact example_woken_ok|vm_compute; by left|exact example_steps| |vm_compute; lia].
  intros x s Hx. apply list_elem_of_In in Hx. revert x Hx. apply List.Forall_forall. vm_compute. repeat constructor; discriminate.
Defined.
