(* ===== verification/Lifecycle.v ===== *)
(** * Lifecycle: blocking, unblocking, signals and death

    What the operations of [Thread.v] and [Signal.v] do to a system of threads
    that the scheduler keeps in order ([sched_ok] of [Sched.v]). *)
From stdpp Require Import functions sets.
From S2P Require Import Prelude TimeManager Tasking Runqueue Thread Signal Sched SchedRuns.

(** ** Changes that the scheduler does not see *)

Lemma ok_on_thread g Q t th f : sched_ok g Q → thread_at (st g) t = Some th →
  (∀ th, process (f th) = process th ∧ sched_prev (f th) = sched_prev th ∧ sched_next (f th) = sched_next th) →
  (∀ th, last_cpu (f th) = last_cpu th ∧ status (f th) = status th) →
  ∃ s', on_thread t f (st g) = Some s' ∧ sched_ok (mk_config s' (run g)) Q ∧ same_but t (st g) s' ∧
    thread_at s' t = Some (f th).
Proof.
  intros Hok Hth Hf Hls.
  destruct (queues_on_thread (st g) Q t f th (ok_queues _ _ Hok) Hth Hf) as (s1 & Hs1 & HQ1 & Heq1 & Hat1).
  assert (thread_at s1 t = Some (f th)) as Hth1 by by rewrite Hat1, decide_True.
  pose proof (same_but_storage t _ _ _ _ Heq1 Hth Hat1) as Hsb1. destruct (Hls th) as [Hl Hst].
  exists s1. split; [done|]. split; [|done]. apply (ok_update g Q t); try done.
  - intros k th' Hk Hth'. rewrite Hth1 in Hth'. injection Hth' as <-. rewrite Hl, Hst.
    split; [by apply (ok_last _ _ Hok k t)|by apply (ok_status _ _ Hok k t)].
  - intros c Hc. destruct (ok_run _ _ Hok c t Hc) as (_ & Hno & _ & (th0 & Hth0 & Hlc) & _).
    split; [done|]. split; [exists (f th); split; [done|]; congruence|].
    apply (prio_of_process (st g) s1 t th (f th) Hth Hth1); [apply Hf|apply Hsb1].
Qed.

Lemma schedulable_on_thread s s' t th f : schedulable s t th → same_but t s s' → thread_at s' t = Some (f th) →
  process (f th) = process th → last_cpu (f th) = last_cpu th → schedulable s' t (f th).
Proof.
  intros (Hth & (p & Hp & Hpr) & Hl) Hsb Hth' Hpc Hlc. split; [done|]. split.
  - exists p. split; [|done]. rewrite <- Hp. eapply prio_of_process; try done. apply Hsb.
  - by rewrite Hlc, (sb_active _ _ _ Hsb).
Qed.

(** A process changes, but not its priority. *)
Lemma ok_on_proc g Q p pr f : sched_ok g Q → proc_at (st g) p = Some pr → prio (f pr) = prio pr →
  ∃ s', on_proc p f (st g) = Some s' ∧ sched_ok (mk_config s' (run g)) Q ∧ s' = (st g) <|proc := proc s'|> ∧
    (∀ x, proc_at s' x = if decide (p = x) then Some (f pr) else proc_at (st g) x) ∧
    length (proc s') = length (proc (st g)).
Proof.
  intros Hok Hp Hf. pose proof (zget_Some _ _ _ Hp) as Hr. unfold on_proc, proc_at in *. rewrite Hp.
  cbn [mbind option_bind]. rewrite zset_in by done. cbn [mbind option_bind]. eexists. split; [done|].
  assert (∀ x, (<[Z.to_nat p := f pr]> (proc (st g))).[x] = if decide (p = x) then Some (f pr) else (proc (st g)).[x]) as Hat.
  { intros x. by apply zget_insert. }
  split; [|split; [done|split; [exact Hat|apply length_insert]]].
  set (s' := (st g) <|proc := <[Z.to_nat p := f pr]> (proc (st g))|>) in *.
  assert (∀ t, prio_of s' t = prio_of (st g) t) as Hprio.
  { intros t. unfold prio_of, process_of. change (thread_at s' t) with (thread_at (st g) t).
    destruct (thread_at (st g) t) as [th|]; [|done]. cbn [mbind option_bind].
    destruct (process th) as [pi|]; [|done]. cbn [mbind option_bind]. unfold proc_at. cbn [s' proc].
    change (proc s') with (<[Z.to_nat p := f pr]> (proc (st g))). rewrite Hat.
    case_decide as Hd; [subst pi; rewrite Hp; cbn; by rewrite Hf|done]. }
  pose proof (ok_queues _ _ Hok) as HQ. split; cbn [st run]; try apply Hok.
  - split; try apply HQ. intros k t Hk. destruct (q_in _ _ HQ k t Hk) as [Hv Hm]. split; [done|].
    unfold may_queue. by rewrite Hprio.
  - intros c t Ht. destruct (ok_run _ _ Hok c t Ht) as (H1 & H2 & H3 & H4 & H5). by rewrite Hprio.
Qed.

(** ** Blocking *)

(** A running thread whose condition does not hold blocks and leaves its CPU; the
    queues are as before. *)
Lemma wait_for_blocks g Q c t th u r : sched_ok g Q → run g c = Some t → schedulable (st g) t th →
  call_should_unblock u (st g) t = Some false →
  ∃ s', wait_for c t u r (st g) = Some (0, s') ∧ sched_ok (mk_config s' (<[c := None]> (run g))) Q ∧
    same_but t (st g) s' ∧
    ∃ th', thread_at s' t = Some th' ∧ status th' = THREAD_STATUS_BLOCKED ∧
      blocker th' = mk_blocker r (Some u) true ∧ blocker_data th' = blocker_data th ∧ process th' = process th.
Proof.
  intros Hok Ht Hs Hu. unfold wait_for. rewrite Hu. cbn [mbind option_bind].
  destruct (leave_ok g Q t th (λ th, th <|status := THREAD_STATUS_BLOCKED|> <|blocker := mk_blocker r (Some u) true|>) Hok Hs)
    as (s1 & s2 & -> & Hs2 & Hok2 & Hsb2 & th2 & Hth2 & He2); [done..|].
  cbn [mbind option_bind]. rewrite Hs2. cbn [mbind option_bind].
  destruct (ok_run _ _ Hok c t Ht) as (_ & Hno & _).
  destruct (resched_ok (mk_config s2 (run g)) (without t Q) c Hok2) as (t' & g' & Ht' & He & _ & Hsb & Hrun & th2' & th' & n & H2 & Hth' & Heq & Hst).
  { by exists t. }
  cbn [run st] in *. rewrite Ht in Ht'. injection Ht' as <-. rewrite Hth2 in H2. injection H2 as <-.
  cbn [exec] in He. cbn [st] in He. destruct (resched c s2) as [s3|] eqn:Er; [|done]. injection He as <-.
  cbn [mbind option_bind st run] in *. exists s3. split; [done|]. split; [|split].
  - assert (sched_ok (mk_config s3 (<[c := None]> (run g))) (without t Q)) as Hok3.
    { apply Hst. rewrite (f_equal status He2 : status th2 = THREAD_STATUS_BLOCKED). done. }
    assert (∀ k, Q k = without t Q k) as Hext by (intros k; by rewrite without_absent).
    destruct Hok3. split; try done.
    + by apply (queues_ext s3 (without t Q)).
    + intros k x th3. rewrite Hext. apply ok_last.
    + intros k x th3. rewrite Hext. apply ok_status.
    + intros c' x Hx. destruct (ok_run c' x Hx) as (H1 & H2' & H3). split; [done|]. split; [|done].
      intros k. rewrite Hext. apply H2'.
    + intros c' cp Hc' Hcp. destruct (ok_next c' cp Hc' Hcp) as [H1 H2']. split; [done|]. intros p Hp.
      rewrite Hext. by apply H2'.
  - by eapply same_but_trans.
  - exists th'. split; [done|]. split; [etransitivity; [exact (f_equal status Heq)|exact (f_equal status He2)]|].
    split; [etransitivity; [exact (f_equal blocker Heq)|exact (f_equal blocker He2)]|].
    split; [etransitivity; [exact (f_equal blocker_data Heq)|exact (f_equal blocker_data He2)]|].
    etransitivity; [exact (f_equal process Heq)|exact (f_equal process He2)].
Qed.

(** [timespec_cmp] compares normal stamps by their nanoseconds. *)
Lemma timespec_cmp_le a b : normal a → normal b →
  (timespec_cmp a b <=? 0) = bool_decide (nanoseconds a <= nanoseconds b).
Proof.
  intros [Has Han] [Hbs Hbn]. unfold timespec_cmp, nanoseconds. case_bool_decide; repeat case_match; lia.
Qed.

Lemma sleep_condition s t th until : thread_at s t = Some th → blocker_data th = data_sleep until →
  normal until → timeman_ok (time s) →
  should_unblock_sleep_block s t =
  Some (bool_decide (nanoseconds until <= nanoseconds (timeman_timespec_since_epoch (time s)))).
Proof.
  intros Hth Hb Hn Ht. unfold should_unblock_sleep_block. rewrite Hth. cbn [mbind option_bind]. rewrite Hb.
  cbn [sleep_until mbind option_bind]. rewrite timespec_cmp_le; [done|done|]. by apply timespec_ok.
Qed.

(** A [select] with a time-out finds the number of descriptors in place of the
    seconds. *)
Lemma select_condition s t th p sel : thread_at s t = Some th → process th = Some p →
  blocker_data th = data_select sel → is_until_time_set sel = true →
  0 <= nfds sel <= FD_SETSIZE → FD_SETSIZE < time_since_epoch (time s) →
  should_unblock_select_block s t = Some true.
Proof.
  intros Hth Hp Hb Hset Hn Ht. unfold FD_SETSIZE in *. unfold should_unblock_select_block. rewrite Hth.
  cbn [mbind option_bind]. rewrite Hb. cbn [sleep_until mbind option_bind]. rewrite Hset.
  unfold timespec_cmp, timeman_timespec_since_epoch, timeman_seconds_since_epoch. cbn [tv_sec tv_nsec].
  rewrite u32_small by lia. replace (nfds sel =? time_since_epoch (time s)) with false by lia.
  by replace (nfds sel <? time_since_epoch (time s)) with true by lia.
Qed.

Lemma add_timeval_total a tv : ∃ b, timespec_add_timeval a tv = Some b.
Proof.
  unfold timespec_add_timeval, timespec_add_usec, timespec_add_nsec.
  pose proof (s32_range (tv_usec tv)). pose proof (Z.rem_bound_abs (s32 (tv_usec tv)) 1000000 ltac:(lia)).
  replace (_ && _) with true by lia. cbn [negb mbind option_bind]. eauto.
Qed.

(** ** Looking for a process *)

(** A thread that was never used stops the search with a null pointer. *)
Lemma for_loop_hits {R} (body : Z → unit → option (unit + R)) (k n : nat) i :
  (∀ j, i <= j < i + Z.of_nat k → body j () = Some (inl ())) → body (i + Z.of_nat k) () = None → (k < n)%nat →
  for_loop n i body () = None.
Proof.
  revert n i. induction k as [|k IH]; intros n i Hb Hk Hn; (destruct n as [|n]; [lia|]);
    change (for_loop (S n) i body ()) with (match body i () with
      | None => None | Some (inl s') => for_loop n (i + 1) body s' | Some (inr r) => Some (inr r) end).
  - replace (i + Z.of_nat 0) with i in Hk by lia. by rewrite Hk.
  - rewrite Hb by lia. apply IH; [intros j Hj; apply Hb; lia| |lia].
    by replace (i + 1 + Z.of_nat k) with (i + Z.of_nat (S k)) by lia.
Qed.

(** ** Death *)

(** The threads that [foreach_thread] visits for a process of this pid. *)
Definition thread_of_pid (s : state) (pid_ i : Z) : Prop :=
  ∃ th q, thread_at s i = Some th ∧ status th ≠ THREAD_STATUS_INVALID ∧ process_of s i = Some q ∧ pid q.2 = pid_.

(** Every live thread has a process, and those of the pid can be scheduled. *)
Definition threads_sound (s : state) (pid_ : Z) : Prop :=
  ∀ i th, thread_at s i = Some th → status th ≠ THREAD_STATUS_INVALID →
    ∃ q, process_of s i = Some q ∧ (pid q.2 = pid_ → schedulable s i th).

(** What has become of a thread when the threads below [n] have been visited and
    given the status [D]. *)
Definition left_below (D : thread_status) (s s' : state) (Q Q' : qkey → list Z) (pid_ n : Z) : Prop :=
  ∀ i th, thread_at s i = Some th → ∃ th', thread_at s' i = Some th' ∧ process th' = process th ∧
    last_cpu th' = last_cpu th ∧
    ((i < n ∧ thread_of_pid s pid_ i ∧ status th' = D ∧ ∀ k, i ∉ Q' k) ∨
     (¬ (i < n ∧ thread_of_pid s pid_ i) ∧ status th' = status th ∧ ∀ k, i ∈ Q' k ↔ i ∈ Q k)).

Lemma thread_of_pid_dec s pid_ i : thread_of_pid s pid_ i ∨ ¬ thread_of_pid s pid_ i.
Proof.
  unfold thread_of_pid. destruct (thread_at s i) as [th|] eqn:E; [|right; intros (? & ? & ? & _); congruence].
  destruct (decide (status th = THREAD_STATUS_INVALID)) as [Hi|Hi]; [right; intros (? & ? & ? & ? & _); congruence|].
  destruct (process_of s i) as [q|] eqn:Eq; [|right; intros (? & ? & _ & _ & ? & _); congruence].
  destruct (decide (pid q.2 = pid_)) as [Hp|Hp]; [left; by exists th, q|].
  right. intros (? & q' & _ & _ & Hq & Hp'). injection Hq as <-. done.
Qed.

Lemma process_of_same s s' i th th' : thread_at s i = Some th → thread_at s' i = Some th' →
  process th' = process th → proc s' = proc s → process_of s' i = process_of s i.
Proof. intros H1 H2 H3 H4. unfold process_of, proc_at. rewrite H1, H2, H4. cbn. by rewrite H3. Qed.

(** A sweep over the threads of a process that takes each of them out of its queue
    and changes it with [f]. *)
Section sweep.
Context (D : thread_status) (f : thread_t → thread_t) (body : Z → state → option (Z * state)).
Hypothesis f_keeps : ∀ th, process (f th) = process th ∧ sched_prev (f th) = sched_prev th ∧ sched_next (f th) = sched_next th.
Hypothesis f_cpu : ∀ th, last_cpu (f th) = last_cpu th.
Hypothesis f_status : ∀ th, status (f th) = D.
Hypothesis body_leaves : ∀ t th s, thread_at s t = Some th → status th ≠ THREAD_STATUS_INVALID →
  body t s = s ← on_thread t f s; s ← sched_dequeue t s; Some (0, s).

(** One thread leaves. *)
Lemma leave_step g Q s run_ Q' pid_ i th : sched_ok (mk_config s run_) Q' →
  left_below D (st g) s Q Q' pid_ i → proc s = proc (st g) → _active_cpus s = _active_cpus (st g) →
  length (storage s) = length (storage (st g)) → nxt_proc s = nxt_proc (st g) →
  thread_at (st g) i = Some th → threads_sound (st g) pid_ → thread_of_pid (st g) pid_ i →
  ∃ s' Q'', body i s = Some (0, s') ∧ sched_ok (mk_config s' run_) Q'' ∧
    left_below D (st g) s' Q Q'' pid_ (i + 1) ∧ proc s' = proc (st g) ∧ _active_cpus s' = _active_cpus (st g) ∧
    length (storage s') = length (storage (st g)) ∧ nxt_proc s' = nxt_proc (st g).
Proof.
  intros Hok Hd Hproc Hact Hlen Hnxt Hth Hsound Hv.
  destruct Hv as (th0 & q & Hth0 & Hlive & Hq & Hpid). rewrite Hth in Hth0. injection Hth0 as <-.
  destruct (Hd i th Hth) as (th1 & Hth1 & Hpr1 & Hl1 & [(Hlt & _)|(_ & Hst1 & HQ1)]); [lia|].
  destruct (Hsound i th Hth Hlive) as (q' & Hq' & Hsch). rewrite Hq in Hq'. injection Hq' as <-.
  specialize (Hsch Hpid). assert (schedulable s i th1) as Hsch1.
  { destruct Hsch as (_ & (p & Hp & Hpr) & Hl). split; [done|]. split; [|by rewrite Hl1, Hact].
    exists p. split; [|done]. rewrite <- Hp. by apply (prio_of_process (st g) s i th th1). }
  destruct (leave_ok (mk_config s run_) Q' i th1 f Hok Hsch1)
    as (s1 & s2 & Hs1 & Hs2 & Hok2 & Hsb & th2 & Hth2 & He2); [done..|]. cbn [st run] in *.
  exists s2, (without i Q'). rewrite (body_leaves i th1) by congruence. rewrite Hs1. cbn [mbind option_bind].
  rewrite Hs2. split; [done|]. split; [done|].
  split; [|rewrite (sb_proc _ _ _ Hsb), (sb_active _ _ _ Hsb), (sb_length _ _ _ Hsb), (sb_nxt _ _ _ Hsb); done].
  intros j thj Hj. destruct (decide (j = i)) as [->|Hne].
  - rewrite Hth in Hj. injection Hj as <-. exists th2. split; [done|].
    split; [etransitivity; [exact (f_equal process He2)|destruct (f_keeps th1) as [Hfp _]; etransitivity; [exact Hfp|done]]|].
    split; [etransitivity; [exact (f_equal last_cpu He2)|etransitivity; [exact (f_cpu th1)|done]]|]. left. split; [lia|].
    split; [by exists th, q|]. split; [etransitivity; [exact (f_equal status He2)|exact (f_status th1)]|]. intros k Hk. by apply elem_of_without in Hk as [? _].
  - destruct (Hd j thj Hj) as (thj1 & Hj1 & Hpj & Hlj & Hcase).
    destruct (sb_thread' i s s2 Hsb j thj1 Hne Hj1) as (thj2 & Hj2 & Hej). exists thj2. split; [done|].
    split; [etransitivity; [exact (f_equal process Hej)|done]|].
    split; [etransitivity; [exact (f_equal last_cpu Hej)|done]|].
    destruct Hcase as [(Hlt & Hv & Hst & HnoQ)|(Hnv & Hst & HQj)].
    + left. split; [lia|]. split; [done|]. split; [etransitivity; [exact (f_equal status Hej)|done]|].
      intros k Hk. apply elem_of_without in Hk as [_ Hk]. by apply (HnoQ k).
    + right. split; [intros [Hlt Hv']; apply Hnv; split; [lia|done]|].
      split; [etransitivity; [exact (f_equal status Hej)|done]|].
      intros k. rewrite elem_of_without, HQj. tauto.
Qed.

(** All of them leave. *)
Lemma leave_all g Q p pr : sched_ok g Q → proc_at (st g) p = Some pr → threads_sound (st g) (pid pr) →
  ∃ s' Q', foreach_thread p (λ t s, '(_, s) ← body t s; Some s) (st g) = Some s' ∧
    sched_ok (mk_config s' (run g)) Q' ∧ proc s' = proc (st g) ∧ nxt_proc s' = nxt_proc (st g) ∧
    left_below D (st g) s' Q Q' (pid pr) (Z.of_nat (length (storage (st g)))).
Proof.
  intros Hok Hp Hsound. unfold foreach_thread.
  destruct (for_n_total (S := state) (λ i s, ∃ Q', sched_ok (mk_config s (run g)) Q' ∧
      left_below D (st g) s Q Q' (pid pr) i ∧ proc s = proc (st g) ∧ _active_cpus s = _active_cpus (st g) ∧
      length (storage s) = length (storage (st g)) ∧ nxt_proc s = nxt_proc (st g))
    (λ i s, th ← thread_at s i;
      if thread_is_freed th then Some s else
      '(_, q) ← process_of s i;
      pr ← proc_at s p;
      if pid q =? pid pr then '(_, s) ← body i s; Some s else Some s)
    (length (storage (st g))) 0 (st g)) as (s' & Hs' & Q' & Hok' & Hd & Hpr' & _ & _ & Hnx').
  - exists Q. split; [by destruct g|]. split; [|done]. intros i th Hi. exists th. split; [done|]. split; [done|].
    split; [done|]. right. split; [|done]. intros [Hlt (th0 & _ & Hth0 & _)].
    pose proof (zget_Some _ _ _ Hth0). lia.
  - intros i s Hi (Q' & Hok' & Hd & Hproc & Hact & Hlen & Hnxt).
    destruct (zget_is_Some (storage (st g)) i) as [th Hth]; [lia|]. change (thread_at (st g) i = Some th) in Hth.
    destruct (Hd i th Hth) as (th1 & Hth1 & Hpr1 & Hl1 & [(Hlt & _)|(_ & Hst1 & HQ1)]); [lia|].
    assert (∀ s2 : state, s2 = s → ¬ thread_of_pid (st g) (pid pr) i →
      ∃ s', Some s2 = Some s' ∧ ∃ Q', sched_ok (mk_config s' (run g)) Q' ∧
        left_below D (st g) s' Q Q' (pid pr) (i + 1) ∧ proc s' = proc (st g) ∧
        _active_cpus s' = _active_cpus (st g) ∧ length (storage s') = length (storage (st g)) ∧
        nxt_proc s' = nxt_proc (st g)) as Hskip.
    { intros s2 -> Hnv. exists s. split; [done|]. exists Q'. split; [done|]. split; [|done].
      intros j thj Hj. destruct (Hd j thj Hj) as (thj1 & Hj1 & H1 & H2 & [(Hlt & Hv & H3)|(Hno & H3)]);
        exists thj1; split; [done| |done|]; (split; [done|]); (split; [done|]).
      - left. split; [lia|done].
      - right. split; [|done]. intros [Hlt Hv]. destruct (decide (j = i)) as [->|]; [done|]. apply Hno. split; [lia|done]. }
    rewrite Hth1. cbn [mbind option_bind]. unfold thread_is_freed. rewrite Hst1. case_bool_decide as Hfree.
    { apply Hskip; [done|]. intros (th0 & _ & Hth0 & Hl & _). congruence. }
    destruct (Hsound i th Hth Hfree) as (q & Hq & Hsch).
    rewrite (process_of_same (st g) s i th th1 Hth Hth1 Hpr1 Hproc), Hq. cbn [mbind option_bind].
    destruct q as [qi q]. unfold proc_at in *. rewrite Hproc, Hp. cbn [mbind option_bind].
    destruct (Z.eqb_spec (pid q) (pid pr)) as [Hpid|Hpid].
    + assert (thread_of_pid (st g) (pid pr) i) as Hv by by exists th, (qi, q).
      destruct (leave_step g Q s (run g) Q' (pid pr) i th Hok' Hd Hproc Hact Hlen Hnxt Hth Hsound Hv)
        as (s2 & Q2 & -> & Hok2 & H2). exists s2. split; [done|]. by exists Q2.
    + apply Hskip; [done|]. intros (th0 & q0 & Hth0 & _ & Hq0 & Hp0). rewrite Hq in Hq0. injection Hq0 as <-. done.
  - exists s', Q'. split; [exact Hs'|]. split; [done|]. split; [done|]. split; [done|]. by rewrite Z.add_0_l in Hd.
Qed.

End sweep.

Lemma die_all g Q p pr : sched_ok g Q → proc_at (st g) p = Some pr → threads_sound (st g) (pid pr) →
  ∃ s' Q', foreach_thread p (λ t s, '(_, s) ← thread_die t s; Some s) (st g) = Some s' ∧
    sched_ok (mk_config s' (run g)) Q' ∧ proc s' = proc (st g) ∧ nxt_proc s' = nxt_proc (st g) ∧
    left_below THREAD_STATUS_DYING (st g) s' Q Q' (pid pr) (Z.of_nat (length (storage (st g)))).
Proof.
  apply (leave_all THREAD_STATUS_DYING (λ th, th <|status := THREAD_STATUS_DYING|>)); try done.
  intros t th s Ht Hl. unfold thread_die. rewrite Ht. cbn [mbind option_bind].
  unfold thread_is_freed. by rewrite bool_decide_eq_false_2.
Qed.

(** [proc_block_all_threads] blocks all threads of a process. *)
Lemma block_all g Q p pr b : sched_ok g Q → proc_at (st g) p = Some pr → threads_sound (st g) (pid pr) →
  ∃ s' Q', proc_block_all_threads p b (st g) = Some (0, s') ∧ sched_ok (mk_config s' (run g)) Q' ∧
    left_below THREAD_STATUS_BLOCKED (st g) s' Q Q' (pid pr) (Z.of_nat (length (storage (st g)))).
Proof.
  intros Hok Hp Hs.
  destruct (leave_all THREAD_STATUS_BLOCKED (λ th, th <|status := THREAD_STATUS_BLOCKED|> <|blocker := b|>)
    (λ t, thread_init_blocker t b)) with (g := g) (Q := Q) (p := p) (pr := pr) as (s' & Q' & Hs' & Hok' & _ & _ & Hd); try done.
  unfold proc_block_all_threads. rewrite Hs'. by exists s', Q'.
Qed.

(** The pids and priorities stay, so the same threads are meant. *)
Lemma process_of_on_proc s s' p pr f i : s' = s <|proc := proc s'|> →
  (∀ x, proc_at s' x = if decide (p = x) then Some (f pr) else proc_at s x) → proc_at s p = Some pr →
  pid (f pr) = pid pr →
  match process_of s i with
  | Some q => ∃ q', process_of s' i = Some q' ∧ pid q'.2 = pid q.2
  | None => process_of s' i = None
  end.
Proof.
  intros Heq Hat Hp Hf. unfold process_of. assert (thread_at s' i = thread_at s i) as -> by by rewrite Heq.
  destruct (thread_at s i) as [th|]; [|done]. cbn [mbind option_bind].
  destruct (process th) as [pi|]; [|done]. cbn [mbind option_bind]. rewrite Hat.
  case_decide as Hd; [subst pi; rewrite Hp; cbn; eauto|]. destruct (proc_at s pi); cbn; eauto.
Qed.

Lemma evict_ok g Q pp : sched_ok g Q → is_Some (proc_at (st g) pp) →
  nxt_proc (st g) <= Z.of_nat (length (proc (st g))) →
  ∃ s', tasking_evict_zombies_waiting_for pp (st g) = Some s' ∧ sched_ok (mk_config s' (run g)) Q ∧
    storage s' = storage (st g).
Proof.
  intros Hok Hpp Hn. unfold tasking_evict_zombies_waiting_for.
  destruct (for_n_total (S := state) (λ i s, sched_ok (mk_config s (run g)) Q ∧ storage s = storage (st g) ∧
      length (proc s) = length (proc (st g)))
    (λ i s, p ← proc_at s i; parent ← proc_at s pp;
      if bool_decide (pstatus p = PROC_ZOMBIE) && (ppid p =? pid parent) then tasking_evict_proc_entry i s else Some s)
    (Z.to_nat (nxt_proc (st g))) 0 (st g)) as (s' & Hs' & Hok' & Hst & _).
  - split; [by destruct g|done].
  - intros i s Hi (Hoks & Hst & Hlen).
    destruct (zget_is_Some (proc s) i) as [p Hpi]; [lia|]. change (proc_at s i = Some p) in Hpi. rewrite Hpi.
    cbn [mbind option_bind].
    destruct (zget_is_Some (proc s) pp) as [parent Hpar].
    { destruct Hpp as [x Hx]. apply zget_Some in Hx. lia. }
    change (proc_at s pp = Some parent) in Hpar. rewrite Hpar. cbn [mbind option_bind].
    destruct (_ && _); [|by exists s].
    destruct (ok_on_proc (mk_config s (run g)) Q i p (λ p, p <|pid := 0|> <|pstatus := PROC_DEAD|>) Hoks Hpi)
      as (s' & Hs' & Hok' & Heq & _ & Hl'); [done|]. exists s'. split; [exact Hs'|]. split; [done|].
    split; [by rewrite Heq|]. cbn [st] in Hl'. congruence.
  - by exists s'.
Qed.

Lemma proc_die_spec g Q p pr code : sched_ok g Q → proc_at (st g) p = Some pr →
  threads_sound (st g) (pid pr) → nxt_proc (st g) <= Z.of_nat (length (proc (st g))) →
  ∃ s' Q', proc_die p code (st g) = Some (0, s') ∧ sched_ok (mk_config s' (run g)) Q' ∧
    ∀ i th, thread_at (st g) i = Some th → ∃ th', thread_at s' i = Some th' ∧
      ((thread_of_pid (st g) (pid pr) i ∧ status th' = THREAD_STATUS_DYING ∧ ∀ k, i ∉ Q' k) ∨
       (¬ thread_of_pid (st g) (pid pr) i ∧ status th' = status th ∧ ∀ k, i ∈ Q' k ↔ i ∈ Q k)).
Proof.
  intros Hok Hp Hsound Hn. unfold proc_die.
  set (f := λ p, p <|exit_code := code|> <|pstatus := PROC_DYING|>).
  destruct (ok_on_proc g Q p pr f Hok Hp) as (s1 & -> & Hok1 & Heq1 & Hat1 & Hlen1); [done|]. cbn [mbind option_bind].
  assert (∀ i, thread_at s1 i = thread_at (st g) i) as Hth1 by (intros i; by rewrite Heq1).
  assert (∀ i, match process_of (st g) i with Some q => ∃ q', process_of s1 i = Some q' ∧ pid q'.2 = pid q.2
    | None => process_of s1 i = None end) as Hpo.
  { intros i. by apply (process_of_on_proc (st g) s1 p pr f i). }
  assert (proc_at s1 p = Some (f pr)) as Hp1 by by rewrite Hat1, decide_True.
  assert (prio (f pr) = prio pr ∧ pid (f pr) = pid pr) as [Hprio Hpid] by done.
  assert (∀ i, prio_of s1 i = prio_of (st g) i) as Hpr1.
  { intros i. unfold prio_of, process_of. rewrite Hth1. destruct (thread_at (st g) i) as [th|]; [|done].
    cbn [mbind option_bind]. destruct (process th) as [pi|]; [|done]. cbn [mbind option_bind]. rewrite Hat1.
    case_decide as Hd; [subst pi; by rewrite Hp|done]. }
  assert (threads_sound s1 (pid (f pr))) as Hsound1.
  { intros i th Hi Hl. rewrite Hth1 in Hi. destruct (Hsound i th Hi Hl) as (q & Hq & Hs).
    specialize (Hpo i). rewrite Hq in Hpo. destruct Hpo as (q' & Hq' & Hpq). exists q'. split; [done|].
    intros Hpid'. destruct (Hs ltac:(congruence)) as (_ & (x & Hx & Hxr) & Hlc).
    split; [by rewrite Hth1|]. split; [exists x; by rewrite Hpr1|].
    by rewrite (f_equal _active_cpus Heq1 : _active_cpus s1 = _active_cpus (st g)). }
  destruct (die_all (mk_config s1 (run g)) Q p (f pr) Hok1 Hp1 Hsound1) as (s2 & Q2 & Hs2 & Hok2 & Hproc2 & Hnxt2 & Hd).
  cbn [st run] in *. rewrite Hs2. cbn [mbind option_bind].
  destruct (evict_ok (mk_config s2 (run g)) Q2 p Hok2) as (s3 & Hs3 & Hok3 & Hst3); cbn [st run] in *.
  { unfold proc_at in *. rewrite Hproc2, Hp1. eauto. }
  { rewrite Hproc2, Hnxt2, Hlen1. by rewrite (f_equal nxt_proc Heq1 : nxt_proc s1 = nxt_proc (st g)). }
  rewrite Hs3. exists s3, Q2. split; [done|]. split; [done|].
  assert (∀ i, thread_of_pid s1 (pid pr) i ↔ thread_of_pid (st g) (pid pr) i) as Hv.
  { intros i. unfold thread_of_pid. rewrite Hth1. specialize (Hpo i). split.
    - intros (th & q & H1 & H2 & H3 & H4). rewrite H3 in Hpo. destruct (process_of (st g) i) as [q0|]; [|done].
      destruct Hpo as (q' & [= <-] & Hpq). exists th, q0. split; [done|]. split; [done|]. split; [done|congruence].
    - intros (th & q & H1 & H2 & H3 & H4). rewrite H3 in Hpo. destruct Hpo as (q' & Hq' & Hpq).
      exists th, q'. split; [done|]. split; [done|]. split; [done|congruence]. }
  intros i th Hi. pose proof (zget_Some _ _ _ Hi) as Hr. rewrite <- Hth1 in Hi.
  destruct (Hd i th Hi) as (th' & Hi' & _ & _ & Hcase). exists th'.
  assert (thread_at s3 i = thread_at s2 i) as -> by (unfold thread_at; by rewrite Hst3). split; [done|].
  rewrite Hpid, (Hv i) in Hcase. rewrite (f_equal storage Heq1 : storage s1 = storage (st g)) in Hcase.
  destruct Hcase as [(_ & H1)|(Hno & H1)]; [by left|right]. split; [tauto|done].
Qed.

(** ** Masks *)

Lemma testbit_single signo j : 0 <= signo < 32 → 0 <= j →
  Z.testbit (u32 (Z.shiftl 1 signo)) j = bool_decide (j = signo).
Proof.
  intros Hs Hj. rewrite testbit_u32, testbit_pow2 by lia. case_decide; [done|].
  symmetry. apply bool_decide_eq_false. lia.
Qed.

Lemma testbit_set_bit m signo j : 0 <= signo < 32 → 0 <= j →
  Z.testbit (set_bit m signo) j = Z.testbit m j || bool_decide (j = signo).
Proof. intros. unfold set_bit. by rewrite Z.lor_spec, testbit_single. Qed.

Lemma testbit_clear_bit m signo j : 0 <= signo < 32 → 0 <= m < 2 ^ 32 → 0 <= j →
  Z.testbit (clear_bit m signo) j = Z.testbit m j && negb (bool_decide (j = signo)).
Proof.
  intros Hs Hm Hj. unfold clear_bit. rewrite Z.land_spec, testbit_u32. case_decide as Hj'.
  - by rewrite Z.lnot_spec, testbit_single by lia.
  - rewrite (testbit_high m 32) by lia. done.
Qed.

Lemma test_mask m signo : 0 <= signo < 32 → (Z.land m (u32 (Z.shiftl 1 signo)) =? 0) = negb (Z.testbit m signo).
Proof.
  intros Hs. destruct (Z.testbit m signo) eqn:E; cbn [negb].
  - apply Z.eqb_neq. intros H0. assert (Z.testbit (Z.land m (u32 (Z.shiftl 1 signo))) signo = true) as Hb.
    { rewrite Z.land_spec, E, testbit_single, bool_decide_eq_true_2 by lia. done. }
    rewrite H0, Z.bits_0 in Hb. done.
  - apply Z.eqb_eq, Z.bits_inj'. intros j Hj. rewrite Z.land_spec, testbit_single, Z.bits_0 by lia.
    case_bool_decide; [subst; by rewrite E|apply andb_false_r].
Qed.

(** The least signal in a mask. *)
Lemma first_signal_spec m signo : 1 <= signo < 32 → Z.testbit m signo = true →
  (∀ j, 1 <= j < signo → Z.testbit m j = false) → first_signal m = Some signo.
Proof.
  intros Hs Hb Hl. unfold first_signal.
  destruct (for_loop_total (S := unit) (λ i _, i <= signo) (λ r, r = signo)
    (λ signo _, Some (if negb (Z.land m (u32 (Z.shiftl 1 signo)) =? 0) then inr signo else inl ()))
    31 1 ()) as ([[]|r] & Hr & Hq); [lia| | |].
  - intros i _ Hi Hle. rewrite test_mask by lia. rewrite negb_involutive. destruct (Z.testbit m i) eqn:E.
    + destruct (decide (i = signo)); [done|]. rewrite Hl in E by lia. done.
    + destruct (decide (i = signo)) as [->|]; [congruence|lia].
  - lia.
  - subst r. by rewrite Hr.
Qed.

(** ** Dispatching *)

Lemma candidate_bits th j : Z.testbit (Z.land (pending_signals_mask th) (signals_mask th)) j =
  Z.testbit (pending_signals_mask th) j && Z.testbit (signals_mask th) j.
Proof. apply Z.land_spec. Qed.

(** The signal that is dispatched, as [signal_process] gets it. *)
Lemma dispatch_to_process cpu kstack t s th signo : thread_at s t = Some th → 1 <= signo < 32 →
  Z.testbit (pending_signals_mask th) signo = true → Z.testbit (signals_mask th) signo = true →
  (∀ j, 1 <= j < signo → Z.testbit (pending_signals_mask th) j && Z.testbit (signals_mask th) j = false) →
  signal_dispatch_pending cpu kstack t s =
  s' ← on_thread t (λ th, th <|pending_signals_mask := clear_bit (pending_signals_mask th) signo|>) s;
  signal_process cpu kstack t signo s'.
Proof.
  intros Hth Hs Hp Hm Hl. unfold signal_dispatch_pending. rewrite Hth. cbn [mbind option_bind].
  destruct (Z.eqb_spec (Z.land (pending_signals_mask th) (signals_mask th)) 0) as [H0|_].
  { pose proof (candidate_bits th signo) as Hb. rewrite H0, Z.bits_0, Hp, Hm in Hb. done. }
  rewrite (first_signal_spec _ signo); [|done|by rewrite candidate_bits, Hp, Hm|].
  - cbn [mbind option_bind]. unfold signal_rem_pending, bad_signo, SIGNALS_CNT.
    replace ((signo <? 0) || (32 <=? signo)) with false by lia. by destruct (on_thread _ _ _).
  - intros j Hj. rewrite candidate_bits. by apply Hl.
Qed.

(** ** Waking the threads whose condition holds *)

(** A thread that is in no queue and that no CPU executes may change freely. *)
Lemma ok_off_thread g Q t th f : sched_ok g Q → thread_at (st g) t = Some th → (∀ c, run g c ≠ Some t) →
  (∀ k, t ∉ Q k) →
  (∀ th, process (f th) = process th ∧ sched_prev (f th) = sched_prev th ∧ sched_next (f th) = sched_next th) →
  ∃ s', on_thread t f (st g) = Some s' ∧ sched_ok (mk_config s' (run g)) Q ∧ same_but t (st g) s' ∧
    thread_at s' t = Some (f th).
Proof.
  intros Hok Hth Hnr Hno Hf.
  destruct (queues_on_thread (st g) Q t f th (ok_queues _ _ Hok) Hth Hf) as (s1 & Hs1 & HQ1 & Heq1 & Hat1).
  assert (thread_at s1 t = Some (f th)) as Hth1 by by rewrite Hat1, decide_True.
  pose proof (same_but_storage t _ _ _ _ Heq1 Hth Hat1) as Hsb1.
  exists s1. split; [done|]. split; [|done]. apply (ok_update g Q t); try done.
  - intros k th' Hk. by apply Hno in Hk.
  - intros c Hc. by apply Hnr in Hc.
Qed.

(** States in which every condition has the same value. *)
Record alike (s s' : state) : Prop := {
  al_time : time s' = time s;
  al_files : files s' = files s;
  al_proc : proc s' = proc s;
  al_thread x : match thread_at s x with
    | Some th => ∃ th', thread_at s' x = Some th' ∧ blocker_data th' = blocker_data th ∧ process th' = process th ∧
        tid th' = tid th ∧ thread_is_freed th' = thread_is_freed th ∧
        bool_decide (status th' = THREAD_STATUS_DYING) = bool_decide (status th = THREAD_STATUS_DYING)
    | None => thread_at s' x = None
    end;
}.

#[export] Instance alike_preorder : PreOrder alike.
Proof.
  split.
  - intros s. split; try done. intros x. destruct (thread_at s x) as [th|]; [|done]. by exists th.
  - intros s1 s2 s3 H12 H23. split; [rewrite (al_time _ _ H23); apply H12|rewrite (al_files _ _ H23); apply H12|
      rewrite (al_proc _ _ H23); apply H12|].
    intros x. pose proof (al_thread _ _ H12 x) as H1. pose proof (al_thread _ _ H23 x) as H2.
    destruct (thread_at s1 x) as [th|].
    + destruct H1 as (th2 & Hth2 & A1 & A2 & A3 & A4 & A5). rewrite Hth2 in H2.
      destruct H2 as (th3 & Hth3 & B1 & B2 & B3 & B4 & B5). exists th3. split; [done|]. repeat split; congruence.
    + by rewrite H1 in H2.
Qed.

(** A thread that is neither free nor dying, before and after. *)
Lemma same_but_alike t s s' th th' : same_but t s s' → thread_at s t = Some th → thread_at s' t = Some th' →
  blocker_data th' = blocker_data th → process th' = process th → tid th' = tid th →
  thread_is_freed th = false → thread_is_freed th' = false →
  status th ≠ THREAD_STATUS_DYING → status th' ≠ THREAD_STATUS_DYING → alike s s'.
Proof.
  intros Hsb Hth Hth' Hb Hp Ht Hf Hf' Hd Hd'. split; [apply Hsb..|]. intros x. destruct (decide (x = t)) as [->|Hne].
  - rewrite Hth. exists th'. rewrite Hf, Hf', !bool_decide_eq_false_2 by done. done.
  - pose proof (sb_threads _ _ _ Hsb x Hne) as He. destruct (thread_at s x) as [tx|]; [|by destruct (thread_at s' x)].
    destruct (thread_at s' x) as [tx'|]; [|done]. apply (inj Some) in He. exists tx'. split; [done|].
    rewrite (f_equal blocker_data He : blocker_data tx' = blocker_data tx),
      (f_equal process He : process tx' = process tx), (f_equal tid He : tid tx' = tid tx).
    unfold thread_is_freed. by rewrite (f_equal status He : status tx' = status tx).
Qed.

Lemma fd_alike s s' p i : alike s s' → fd_file s' (p, i) = fd_file s (p, i) ∧ proc_get_fd s' p i = proc_get_fd s p i.
Proof. intros Ha. unfold fd_file, proc_get_fd, proc_at. by rewrite (al_proc _ _ Ha). Qed.

Lemma call_alike u s s' t : alike s s' → call_should_unblock u s' t = call_should_unblock u s t.
Proof.
  intros Ha. pose proof (al_thread _ _ Ha t) as Ht.
  assert (∀ p n set can, select_ready s' p n set can = select_ready s p n set can) as Hsel.
  { intros p n set can. unfold select_ready, proc_get_fd, proc_at. by rewrite (al_proc _ _ Ha). }
  destruct u; cbn [call_should_unblock];
    unfold should_unblock_join_block, should_unblock_read_block, should_unblock_write_block,
      should_unblock_sleep_block, should_unblock_select_block;
    (destruct (thread_at s t) as [th|]; [destruct Ht as (th' & -> & Hb & Hp & _)|by rewrite Ht]);
    cbn [mbind option_bind]; rewrite Hb.
  - destruct (blocker_data th) as [|joinee jp|fd|until|sel]; try done.
    pose proof (al_thread _ _ Ha joinee) as Hj. destruct (thread_at s joinee) as [j|]; [|by rewrite Hj].
    destruct Hj as (j' & -> & _ & _ & Ht & Hf & Hd). cbn [mbind option_bind]. by rewrite Ht, Hf, Hd.
  - destruct (blocker_data th) as [|joinee jp|[p i]|until|sel]; try done. destruct (fd_alike s s' p i Ha) as [-> _].
    by rewrite (al_files _ _ Ha).
  - destruct (blocker_data th) as [|joinee jp|[p i]|until|sel]; try done. destruct (fd_alike s s' p i Ha) as [-> _].
    by rewrite (al_files _ _ Ha).
  - by rewrite (al_time _ _ Ha).
  - destruct (blocker_data th) as [|joinee jp|[p i]|until|sel]; try done.
    rewrite Hp, (al_time _ _ Ha), (al_files _ _ Ha). destruct (sleep_until _); [|done]. cbn [mbind option_bind].
    destruct (_ && _); [done|]. destruct (process th); [|done]. cbn [mbind option_bind]. rewrite !Hsel. done.
Qed.

(** A blocked thread whose condition holds. *)
Definition ready (s : state) (t : Z) : Prop :=
  ∃ th u, thread_at s t = Some th ∧ status th = THREAD_STATUS_BLOCKED ∧ reason (blocker th) ≠ BLOCKER_INVALID ∧
    should_unblock (blocker th) = Some u ∧ call_should_unblock u s t = Some true.

(** Blocked threads execute nowhere, can be queued, and have a condition with a value. *)
Definition blocked_ok (g : config) : Prop :=
  ∀ t th, thread_at (st g) t = Some th → status th = THREAD_STATUS_BLOCKED →
    (∀ c, run g c ≠ Some t) ∧ schedulable (st g) t th ∧
    ∀ u, should_unblock (blocker th) = Some u → is_Some (call_should_unblock u (st g) t).

(** What has become of a thread when the threads below [n] have been visited. *)
Definition woken_below (s s' : state) (Q Q' : qkey → list Z) (n : Z) : Prop :=
  ∀ i th, thread_at s i = Some th → ∃ th', thread_at s' i = Some th' ∧
    ((i < n ∧ ready s i ∧ status th' = THREAD_STATUS_RUNNING ∧ ∃ c p, i ∈ Q' (c, Slave, p)) ∨
     (¬ (i < n ∧ ready s i) ∧ erase_links th' = erase_links th ∧ ∀ k, i ∈ Q' k ↔ i ∈ Q k)).

(** What the visits keep. *)
Record waking (g : config) (Q : qkey → list Z) (n : Z) (s : state) (Q' : qkey → list Z) : Prop := {
  wk_ok : sched_ok (mk_config s (run g)) Q';
  wk_alike : alike (st g) s;
  wk_below : woken_below (st g) s Q Q' n;
  wk_active : _active_cpus s = _active_cpus (st g);
  wk_length : length (storage s) = length (storage (st g));
  wk_cpus c : erase_queues <$> cpu_at s c = erase_queues <$> cpu_at (st g) c;
}.

Lemma woken_skip s s' Q Q' i : woken_below s s' Q Q' i → ¬ ready s i → woken_below s s' Q Q' (i + 1).
Proof.
  intros Hw Hnr j th Hj. destruct (Hw j th Hj) as (th' & Hj' & [(Hlt & H)|(Hno & H)]); exists th'; (split; [done|]).
  - left. split; [lia|done].
  - right. split; [|done]. intros [Hlt Hr]. destruct (decide (j = i)) as [->|]; [done|]. apply Hno. split; [lia|done].
Qed.

(** A thread that is ready is woken. *)
Lemma wake_ready g Q s Q' i th th1 : blocked_ok g → waking g Q i s Q' → thread_at (st g) i = Some th →
  ready (st g) i → thread_at s i = Some th1 → erase_links th1 = erase_links th →
  ∃ s' Q'', (s ← on_thread i (λ th, th <|status := THREAD_STATUS_RUNNING|>
        <|blocker := (blocker th) <|reason := BLOCKER_INVALID|> |>) s; sched_enqueue i s) = Some s' ∧
    waking g Q (i + 1) s' Q''.
Proof.
  intros Hb [Hok Hal Hw Hact Hlen Hcpus] Hth Hready Hth1 He. pose proof Hready as (th0 & u & Hth0 & Hst & _).
  rewrite Hth in Hth0. injection Hth0 as <-.
  destruct (Hb i th Hth Hst) as (Hnr & (_ & (p & Hp & Hpr) & Hl) & _).
  assert (status th1 = THREAD_STATUS_BLOCKED) as Hst1 by (etransitivity; [exact (f_equal status He)|done]).
  assert (∀ k, i ∉ Q' k) as Hno.
  { intros k Hk. pose proof (ok_status _ _ Hok k i th1 Hk Hth1). congruence. }
  set (f := λ th, th <|status := THREAD_STATUS_RUNNING|> <|blocker := (blocker th) <|reason := BLOCKER_INVALID|> |>).
  destruct (ok_off_thread (mk_config s (run g)) Q' i th1 f Hok Hth1 Hnr Hno) as (s1 & Hs1 & Hok1 & Hsb1 & Hi1); [done|].
  cbn [st run] in *. rewrite Hs1. cbn [mbind option_bind].
  assert (schedulable s1 i (f th1)) as Hsch1.
  { apply (schedulable_on_thread s s1 i th1 f); try done.
    split; [done|]. split; [|by rewrite (f_equal last_cpu He : last_cpu th1 = last_cpu th), Hact].
    exists p. split; [|done]. rewrite <- Hp. apply (prio_of_process (st g) s i th th1); try done; [|by apply al_proc].
    exact (f_equal process He). }
  destruct (enqueue_ok (mk_config s1 (run g)) Q' i (f th1) Hok1 Hnr Hsch1 Hno)
    as (s2 & c & p' & Hs2 & Hok2 & Hsb2 & _ & _ & th2 & Hth2 & He2). cbn [st run] in *.
  pose proof (same_but_trans i _ _ _ Hsb1 Hsb2) as Hsb.
  exists s2, (<[(c, Slave, p') := i :: Q' (c, Slave, p')]> Q'). split; [done|].
  split; [done| | |by rewrite (sb_active _ _ _ Hsb)|by rewrite (sb_length _ _ _ Hsb)|intros x; by rewrite (sb_cpus _ _ _ Hsb)].
  - transitivity s; [done|]. apply (same_but_alike i s s2 th1 th2 Hsb Hth1 Hth2); unfold thread_is_freed;
      rewrite ?(f_equal status He2 : status th2 = THREAD_STATUS_RUNNING), ?Hst1; try done;
      [exact (f_equal blocker_data He2)|exact (f_equal process He2)|exact (f_equal tid He2)].
  - intros j thj Hj. destruct (decide (j = i)) as [->|Hne].
    + exists th2. split; [done|]. left. split; [lia|]. split; [done|]. split; [exact (f_equal status He2)|].
      exists c, p'. rewrite fn_insert_at, decide_True by done. by left.
    + destruct (Hw j thj Hj) as (thj1 & Hj1 & Hcase).
      destruct (sb_thread' i s s2 Hsb j thj1 Hne Hj1) as (thj2 & Hj2 & Hej). exists thj2. split; [done|].
      assert (∀ k, j ∈ (<[(c, Slave, p') := i :: Q' (c, Slave, p')]> Q' : qkey → list Z) k ↔ j ∈ Q' k) as HQ2.
      { intros k. rewrite fn_insert_at. case_decide as Hk; [subst k|done]. rewrite elem_of_cons. tauto. }
      destruct Hcase as [(Hlt & Hr & Hs' & c' & p'' & Hin)|(Hno' & He' & HQj)].
      * left. split; [lia|]. split; [done|]. split; [etransitivity; [exact (f_equal status Hej)|done]|].
        exists c', p''. by apply HQ2.
      * right. split; [intros [Hlt Hr]; apply Hno'; split; [lia|done]|]. split; [by rewrite Hej|].
        intros k. by rewrite HQ2.
Qed.

(** One thread is visited. *)
Lemma unblock_step g Q s Q' i : blocked_ok g → waking g Q i s Q' → 0 <= i < Z.of_nat (length (storage (st g))) →
  ∃ s' Q'', unblock_thread i s = Some s' ∧ waking g Q (i + 1) s' Q''.
Proof.
  intros Hb Hwk Hi. destruct (zget_is_Some (storage (st g)) i) as [th Hth]; [lia|]. change (thread_at (st g) i = Some th) in Hth.
  assert (¬ ready (st g) i → ∃ s' Q'', Some s = Some s' ∧ waking g Q (i + 1) s' Q'') as Hskip.
  { intros Hnr. exists s, Q'. split; [done|]. destruct Hwk. split; try done. by apply woken_skip. }
  destruct (wk_below _ _ _ _ _ Hwk i th Hth) as (th1 & Hth1 & [(Hlt & _)|(_ & He & _)]); [lia|].
  unfold unblock_thread. rewrite Hth1. cbn [mbind option_bind].
  rewrite (f_equal status He : status th1 = status th), (f_equal blocker He : blocker th1 = blocker th).
  destruct (bool_decide_reflect (status th = THREAD_STATUS_BLOCKED)) as [Hst|Hst]; cbn [andb].
  2:{ apply Hskip. intros (th0 & u & H0 & H & _). congruence. }
  destruct (bool_decide_reflect (reason (blocker th) = BLOCKER_INVALID)) as [Hre|Hre]; cbn [negb].
  { apply Hskip. intros (th0 & u & H0 & _ & H & _). congruence. }
  destruct (should_unblock (blocker th)) as [u|] eqn:Eu.
  2:{ apply Hskip. intros (th0 & u & H0 & _ & _ & H & _). congruence. }
  destruct (Hb i th Hth Hst) as (_ & _ & Hu). destruct (Hu u Eu) as [b Hcb].
  rewrite (call_alike u _ _ i (wk_alike _ _ _ _ _ Hwk)), Hcb. cbn [mbind option_bind]. destruct b.
  - apply (wake_ready g Q s Q' i th th1); try done. by exists th, u.
  - apply Hskip. intros (th0 & u' & H0 & _ & _ & H & H'). congruence.
Qed.

Lemma unblock_all g Q : sched_ok g Q → blocked_ok g →
  ∃ s' Q', sched_unblock_threads (st g) = Some s' ∧ waking g Q (Z.of_nat (length (storage (st g)))) s' Q'.
Proof.
  intros Hok Hb. unfold sched_unblock_threads.
  destruct (for_n_total (S := state) (λ i s, ∃ Q', waking g Q i s Q') unblock_thread
    (length (storage (st g))) 0 (st g)) as (s' & Hs' & Q' & Hw).
  - exists Q. split; [by destruct g|done| |done..]. intros i th Hi. exists th. split; [done|].
    right. split; [|done]. intros [Hlt _]. pose proof (zget_Some _ _ _ Hi). lia.
  - intros i s Hi (Q' & Hw). destruct (unblock_step g Q s Q' i Hb Hw) as (s2 & Q2 & Hs2 & Hw2); [lia|].
    exists s2. split; [done|]. by exists Q2.
  - exists s', Q'. split; [done|]. by rewrite Z.add_0_l in Hw.
Qed.

(** ** The first CPU in the loop of the scheduler *)

(** An operation that does the same after the CPU has gone on to its next queue. *)
Definition commutes (c : Z) (F : state → option state) : Prop := ∀ s s' s1,
  next_prio c s = Some s' → F s = Some s1 → ∃ s1', F s' = Some s1' ∧ next_prio c s1 = Some s1'.
Definition blind {A} (c : Z) (r : state → A) : Prop := ∀ s s', next_prio c s = Some s' → r s' = r s.

Section commutes.
Context (c : Z).

Lemma comm_some : commutes c Some.
Proof. intros s s' s1 Hn [= <-]. by exists s'. Qed.
Lemma comm_bind F (G : state → option state) : commutes c F → commutes c G → commutes c (λ s, s ← F s; G s).
Proof.
  intros HF HG s s' s1 Hn (s2 & E1 & E2)%bind_Some. destruct (HF s s' s2 Hn E1) as (s2' & -> & Hn2). bind_red. by apply (HG s2 s2' s1).
Qed.
Lemma comm_read {A} (r : state → option A) (F : A → state → option state) : blind c r → (∀ x, commutes c (F x)) →
  commutes c (λ s, x ← r s; F x s).
Proof.
  intros Hr HF s s' s1 Hn (x & E1 & E2)%bind_Some. rewrite (Hr s s' Hn), E1. bind_red. by apply (HF x s s' s1).
Qed.
Lemma comm_for_n n i body : (∀ i, commutes c (body i)) → commutes c (for_n n i body).
Proof.
  intros Hb. revert i. induction n as [|n IH]; intros i; [apply comm_some|].
  intros s s' s1 Hn. rewrite !for_n_S. intros E. by apply (comm_bind _ _ (Hb i) (IH (i + 1)) s s' s1).
Qed.

(** What [next_prio] does. *)
Lemma next_prio_inv s s' : next_prio c s = Some s' → ∃ cp, cpu_at s c = Some cp ∧ s' = s <|cpus := cpus s'|> ∧
  length (cpus s') = length (cpus s) ∧
  ∀ x, cpu_at s' x = if decide (c = x) then Some (cp <|sched := (sched cp) <|next_read_prio := next_read_prio (sched cp) + 1|> |>) else cpu_at s x.
Proof.
  intros Hn. destruct (cpu_at s c) as [cp|] eqn:Hcp.
  - exists cp. split; [done|]. unfold next_prio in Hn.
    match type of Hn with on_cpu c ?f s = _ => destruct (on_cpu_spec s c f cp Hcp) as (x & Hx & Heq & Hat) end.
    rewrite Hn in Hx. injection Hx as <-. split; [done|]. split; [|done].
    unfold on_cpu in Hn. apply bind_Some in Hn as (y & _ & (l & Hl & [= <-])%bind_Some). cbn. by eapply zset_length.
  - unfold next_prio, on_cpu, cpu_at in *. by rewrite Hcp in Hn.
Qed.

Lemma blind_storage {A} (r : state → A) : (∀ s l, r (s <|cpus := l|>) = r s) → blind c r.
Proof. intros Hr s s' Hn. destruct (next_prio_inv s s' Hn) as (_ & _ & -> & _). apply Hr. Qed.
Lemma blind_cpu {A} (f : cpu_t → A) x :
  (∀ cp n, f (cp <|sched := (sched cp) <|next_read_prio := n|> |>) = f cp) → blind c (λ s, f <$> cpu_at s x).
Proof.
  intros Hf s s' Hn. destruct (next_prio_inv s s' Hn) as (cp & Hcp & _ & _ & Hat). rewrite Hat. case_decide as E; [|done].
  subst x. rewrite Hcp. exact (f_equal Some (Hf cp _)).
Qed.
Lemma blind_queue k : blind c (λ s, runqueue s k).
Proof.
  destruct k as [[x b] p]. intros s s' Hn. pose proof (blind_cpu (λ cp, buf b (sched cp)) x) as Hb.
  specialize (Hb ltac:(by destruct b) s s' Hn). cbn in Hb. unfold runqueue.
  destruct (cpu_at s' x), (cpu_at s x); try done. cbn in Hb |- *. by injection Hb as ->.
Qed.

(** Another part of the state is assigned. *)
Lemma comm_other (U : state → state) s s' : next_prio c s = Some s' → cpus (U s) = cpus s →
  (∀ l, (U s) <|cpus := l|> = U (s <|cpus := l|>)) → next_prio c (U s) = Some (U s').
Proof.
  intros Hn Hc HU. unfold next_prio, on_cpu in *. rewrite Hc. apply bind_Some in Hn as (x & Hx & (cs & Hcs & E)%bind_Some).
  rewrite Hx. bind_red. rewrite Hcs. bind_red. rewrite HU. congruence.
Qed.
Lemma comm_on_thread t f : commutes c (on_thread t f).
Proof.
  intros s s' s1 Hn E. destruct (next_prio_inv s s' Hn) as (_ & _ & Heq & _). unfold on_thread in *.
  apply bind_Some in E as (th & Hth & (l & Hl & E)%bind_Some). assert (storage s' = storage s) as -> by by rewrite Heq.
  rewrite Hth. bind_red. rewrite Hl. bind_red. exists (s' <|storage := l|>). split; [done|]. injection E as E. rewrite <- E.
  set (U := λ s : state, s <|storage := l|>). exact (comm_other U s s' Hn eq_refl (λ _, eq_refl)).
Qed.
Lemma comm_on_proc p f : commutes c (on_proc p f).
Proof.
  intros s s' s1 Hn E. destruct (next_prio_inv s s' Hn) as (_ & _ & Heq & _). unfold on_proc in *.
  apply bind_Some in E as (pr & Hpr & (l & Hl & E)%bind_Some). assert (proc s' = proc s) as -> by by rewrite Heq.
  rewrite Hpr. bind_red. rewrite Hl. bind_red. exists (s' <|proc := l|>). split; [done|]. injection E as E. rewrite <- E.
  set (U := λ s : state, s <|proc := l|>). exact (comm_other U s s' Hn eq_refl (λ _, eq_refl)).
Qed.

(** The rest of a CPU changes. *)
Lemma comm_on_cpu x f :
  (∀ cp n, f (cp <|sched := (sched cp) <|next_read_prio := n|> |>) = (f cp) <|sched := (sched (f cp)) <|next_read_prio := n|> |>) →
  (∀ cp, next_read_prio (sched (f cp)) = next_read_prio (sched cp)) → commutes c (on_cpu x f).
Proof.
  intros Hf Hnx s s' s1 Hn E. unfold next_prio, on_cpu in *.
  apply bind_Some in Hn as (a & Ha & (la & Hla & E1)%bind_Some). apply bind_Some in E as (b & Hb & (lb & Hlb & E2)%bind_Some).
  pose proof (zget_Some _ _ _ Ha) as Hra. pose proof (zget_Some _ _ _ Hb) as Hrb. rewrite zset_in in Hla, Hlb by done.
  assert (s' = s <|cpus := la|>) as -> by (injection E1 as E1; exact (eq_sym E1)).
  assert (s1 = s <|cpus := lb|>) as -> by (injection E2 as E2; exact (eq_sym E2)).
  set (g := λ cp : cpu_t, cp <|sched := (sched cp) <|next_read_prio := next_read_prio (sched cp) + 1|> |>) in *.
  change (cpus (s <|cpus := la|>)) with la. change (cpus (s <|cpus := lb|>)) with lb.
  assert (la = <[Z.to_nat c := g a]> (cpus s)) as -> by (injection Hla as Hla; exact (eq_sym Hla)).
  assert (lb = <[Z.to_nat x := f b]> (cpus s)) as -> by (injection Hlb as Hlb; exact (eq_sym Hlb)).
  rewrite !zget_insert by done. destruct (decide (c = x)) as [->|Hne].
  - rewrite decide_True by done. bind_red. assert (b = a) as -> by congruence. rewrite !zset_in by (rewrite length_insert; done). bind_red.
    eexists. split; [done|]. rewrite !list_insert_insert_eq. unfold g. by rewrite Hf, Hnx.
  - rewrite decide_False by congruence. rewrite Ha, Hb. bind_red. rewrite !zset_in by (rewrite length_insert; done). bind_red.
    eexists. split; [done|]. rewrite list_insert_insert_ne by lia. done.
Qed.
Lemma comm_on_runqueue k f : commutes c (on_runqueue k f).
Proof.
  destruct k as [[x b] p]. intros s s' s1 Hn E. pose proof (blind_cpu (λ cp, buf b (sched cp)) x ltac:(by destruct b) s s' Hn) as Hb.
  unfold on_runqueue in *. destruct (cpu_at s x) as [cp|]; [|done]. destruct (cpu_at s' x) as [cp'|]; [|done]. cbn in Hb. injection Hb as Hb.
  cbn [mbind option_bind] in E |- *. rewrite Hb. apply bind_Some in E as (rq & -> & (l & Hl & E)%bind_Some). bind_red. rewrite Hl. bind_red.
  revert Hn E. apply comm_on_cpu; [by destruct b|by destruct b].
Qed.

Lemma comm_enqueue t : commutes c (sched_enqueue t).
Proof.
  assert (∀ t, blind c (λ s, process_of s t)) as Hproc by (intros u; by apply blind_storage).
  assert (∀ t, blind c (λ s, thread_at s t)) as Hth by (intros u; by apply blind_storage).
  assert (∀ x u, commutes c (_sched_enqueue_impl x u)) as Himpl.
  { intros x u. unfold _sched_enqueue_impl. apply comm_bind; [|by apply comm_on_cpu].
    unfold _sched_add_to_start_of_runqueue. apply comm_read; [by apply blind_storage|]. intros p.
    apply comm_read; [apply blind_queue|]. intros rq. apply comm_bind; [apply comm_on_thread|].
    apply comm_bind; [|apply comm_on_runqueue]. destruct (head rq); [apply comm_on_thread|apply comm_on_runqueue]. }
  assert (blind c _sched_find_cpu_with_less_load) as Hload.
  { intros s s' Hn. pose proof (λ x, blind_cpu (λ cp, enqueued_tasks (sched cp)) x ltac:(done) s s' Hn) as Hb. cbn in Hb.
    destruct (next_prio_inv s s' Hn) as (_ & _ & Heq & _). unfold _sched_find_cpu_with_less_load.
    assert (_active_cpus s' = _active_cpus s) as -> by by rewrite Heq. pose proof (Hb 0) as H0.
    destruct (cpu_at s 0), (cpu_at s' 0); try done. cbn in H0 |- *. injection H0 as ->. f_equal.
    generalize (enqueued_tasks (sched c0), 0) as r. generalize (Z.to_nat (_active_cpus s - 1)) as n. intros n. generalize 1 as i.
    induction n as [|n IH]; intros i r; [done|].
    rewrite !for_n_S. destruct r as [mx id0]. specialize (Hb i). destruct (cpu_at s i), (cpu_at s' i); try done. cbn in Hb. injection Hb as Hb.
    bind_red. rewrite Hb. apply IH. }
  unfold sched_enqueue. apply comm_bind; [apply comm_on_thread|]. apply comm_read; [apply Hproc|]. intros [pi p].
  apply comm_bind; [destruct (_ <? _); [apply comm_on_proc|apply comm_some]|]. apply comm_read; [apply Hth|]. intros th.
  intros s s' s1 Hn (s2 & E2 & E)%bind_Some.
  assert (commutes c (λ s, if negb (last_cpu th =? LAST_CPU_NOT_SET) then _sched_enqueue_impl (last_cpu th) t s else
    cpu ← _sched_find_cpu_with_less_load s; s ← _sched_enqueue_impl cpu t s; on_thread t (λ th, th <|last_cpu := cpu|>) s)) as Hc.
  { destruct (negb _); [apply Himpl|]. apply comm_read; [apply Hload|]. intros x. apply comm_bind; [apply Himpl|apply comm_on_thread]. }
  destruct (Hc s s' s2 Hn E2) as (s2' & -> & Hn2). bind_red. injection E as E. rewrite <- E. eexists. split; [done|].
  destruct (next_prio_inv s2 s2' Hn2) as (_ & _ & Heq & _). assert (_enqueued_tasks s2' = _enqueued_tasks s2) as -> by by rewrite Heq.
  set (U := λ s : state, s <|_enqueued_tasks := s32 (_enqueued_tasks s2 + 1)|>). exact (comm_other U s2 s2' Hn2 eq_refl (λ _, eq_refl)).
Qed.

Lemma comm_unblock : commutes c sched_unblock_threads.
Proof.
  intros s s' s1 Hn. unfold sched_unblock_threads. destruct (next_prio_inv s s' Hn) as (_ & _ & Heq & _).
  assert (storage s' = storage s) as -> by by rewrite Heq. revert Hn. apply comm_for_n. intros i. unfold unblock_thread.
  apply comm_read; [by apply blind_storage|]. intros th. destruct (_ && _); [|apply comm_some].
  destruct (should_unblock (blocker th)) as [u|]; [|apply comm_some]. apply comm_read.
  - apply blind_storage. intros s0 l. apply call_alike. split; try done. intros x. change (thread_at (s0 <|cpus := l|>) x) with (thread_at s0 x).
    destruct (thread_at s0 x) as [y|]; [by exists y|done].
  - intros b. destruct b; [|apply comm_some]. apply comm_bind; [apply comm_on_thread|apply comm_enqueue].
Qed.
End commutes.

(** No process waits to be buried. *)
Definition none_dying (s : state) : Prop :=
  nxt_proc s <= Z.of_nat (length (proc s)) ∧ ∀ p pr, proc_at s p = Some pr → pstatus pr ≠ PROC_DYING.

Lemma kill_none c s : none_dying s → tasking_kill_dying c s = Some s.
Proof.
  intros [Hl Hn]. unfold tasking_kill_dying.
  match goal with |- for_n ?n ?lo ?body s = _ => destruct (for_n_total (λ _ x, x = s) body n lo s) as (s' & -> & ->); [done| |done] end.
  intros i x Hi ->. destruct (zget_is_Some (proc s) i) as [p Hp]; [lia|]. change (proc_at s i = Some p) in Hp. rewrite Hp. bind_red.
  rewrite bool_decide_eq_false_2 by (by eapply Hn). cbn [negb]. by exists s.
Qed.

(** The queues when the threads that are ready have been added. *)
Definition with_ready (g : config) (Q Q1 : qkey → list Z) : Prop :=
  (∀ k x, x ∈ Q k → x ∈ Q1 k) ∧ (∀ x, ready (st g) x → ∃ c p, x ∈ Q1 (c, Slave, p)) ∧
  ∀ k x, x ∈ Q1 k → x ∈ Q k ∨ ready (st g) x ∧ ∃ c p, k = (c, Slave, p).

Lemma with_ready_spec g Q s Q1 : sched_ok g Q → waking g Q (Z.of_nat (length (storage (st g)))) s Q1 → with_ready g Q Q1.
Proof.
  intros Hok Hw. pose proof (wk_ok _ _ _ _ _ Hw) as Hok1. split; [|split].
  - intros k x Hx. pose proof (queued_in_storage g Q k x Hok Hx) as Hr. destruct (zget_is_Some (storage (st g)) x Hr) as [th Hth].
    destruct (wk_below _ _ _ _ _ Hw x th Hth) as (th' & _ & [(_ & (th0 & u & Hth0 & Hst & _) & _)|(_ & _ & HQ)]); [|by apply HQ].
    exfalso. change (thread_at (st g) x = Some th) in Hth. rewrite Hth in Hth0. injection Hth0 as <-.
    pose proof (ok_status _ _ Hok k x th Hx Hth). congruence.
  - intros x Hr. pose proof Hr as (th & u & Hth & _). pose proof (zget_Some _ _ _ Hth).
    destruct (wk_below _ _ _ _ _ Hw x th Hth) as (th' & _ & [(_ & _ & _ & Hq)|(Hno & _)]); [done|]. exfalso. apply Hno. split; [lia|done].
  - intros k x Hx. pose proof (queued_in_storage _ Q1 k x Hok1 Hx) as Hr. cbn [st] in Hr. rewrite (wk_length _ _ _ _ _ Hw) in Hr.
    destruct (zget_is_Some (storage (st g)) x Hr) as [th Hth].
    destruct (wk_below _ _ _ _ _ Hw x th Hth) as (th' & _ & [(_ & Hrd & _ & c & p & Hq)|(_ & _ & HQ)]); [right|left; by apply HQ].
    split; [done|]. exists c, p. by apply (q_disj _ _ (ok_queues _ _ Hok1) _ _ x).
Qed.

(** The first CPU wakes threads before it exchanges its arrays. *)
Lemma last_round_first g Q c cp : cpu_at (st g) c = Some cp → id cp = 0 → blocked_ok g → none_dying (st g) →
  last_round g Q c (with_ready g Q).
Proof.
  intros Hcp Hid Hb Hnd g' cp' Hok (Hrun & Hst & _ & Hid') Hsec Hen. pose proof Hsec as (Hr & Hc & Hcp').
  rewrite Hcp, Hcp' in Hid'. injection Hid' as Hid'.
  assert (alike (st g) (st g')) as Hal.
  { rewrite Hst. split; try done. intros x. change (thread_at ((st g) <|cpus := cpus (st g')|>) x) with (thread_at (st g) x).
    destruct (thread_at (st g) x) as [y|]; [by exists y|done]. }
  assert (∀ x, thread_at (st g') x = thread_at (st g) x) as Hthr by (intros x; by rewrite Hst).
  assert (∀ x, ready (st g') x ↔ ready (st g) x) as Hready.
  { intros x. split; intros (th & u & H1 & H2 & H3 & H4 & H5); exists th, u.
    - rewrite Hthr in H1. by rewrite (call_alike u _ _ x Hal) in H5.
    - rewrite Hthr. by rewrite (call_alike u _ _ x Hal). }
  assert (blocked_ok g') as Hb'.
  { intros t th Hth Hs. rewrite Hthr in Hth. destruct (Hb t th Hth Hs) as (Hn & Hsch & Hu). rewrite Hrun. split; [done|].
    split; [by rewrite Hst|]. intros u Hu'. rewrite (call_alike u _ _ t Hal). by apply Hu. }
  destruct (unblock_all g' Q Hok Hb') as (s' & Q1 & Hun & Hw). pose proof (wk_ok _ _ _ _ _ Hw) as Hok1.
  assert (with_ready g Q Q1) as Hwr.
  { destruct (with_ready_spec g' Q s' Q1 Hok Hw) as (H1 & H2 & H3). split; [done|]. setoid_rewrite Hready in H2. by setoid_rewrite Hready in H3. }
  pose proof (wk_cpus _ _ _ _ _ Hw c) as Hcs. rewrite Hcp' in Hcs. destruct (cpu_at s' c) as [cp1|] eqn:Hcp1; [|done].
  apply (inj Some) in Hcs. pose proof (f_equal (λ x, next_read_prio (sched x)) Hcs : next_read_prio (sched cp1) = next_read_prio (sched cp')) as Hnx.
  set (g1 := mk_config s' (run g')). assert (searching g1 c cp1) as Hsec1.
  { split; [done|]. split; [|done]. cbn [g1 st]. by rewrite (wk_active _ _ _ _ _ Hw). }
  destruct (waiting_head_queue g' Q c None true Hok Hen) as (x & Hx & Hhd & Hk & Hlast). rewrite Hcp' in Hx. injection Hx as <-.
  specialize (Hlast eq_refl). apply Z.ltb_ge in Hlast.
  assert (enabled (Swap c) g1) as Hen1.
  { split; [done|]. split; [apply Hsec1|]. exists cp1.
    assert (valid_key s' (c, Master, next_read_prio (sched cp1))) as Hk1.
    { rewrite Hnx. destruct Hk as [Hk1 Hk2]. split; [|done]. cbn. by rewrite (wk_active _ _ _ _ _ Hw). }
    pose proof (q_ends _ _ (ok_queues _ _ Hok1) _ Hk1) as He. cbn [st] in He. unfold runqueue in He. rewrite Hcp1 in He. cbn [mbind option_bind buf] in He.
    eexists. split; [exact Hcp1|]. split; [exact He|]. split.
    - cbn [head]. destruct (Q1 (c, Master, next_read_prio (sched cp1))) as [|y l] eqn:El; [done|exfalso].
      destruct Hwr as (_ & _ & Hwr). destruct (Hwr (c, Master, next_read_prio (sched cp1)) y) as [Hy|[_ (c0 & p0 & Hy)]]; [rewrite El; by left| |done].
      rewrite Hnx in Hy. destruct (Q (c, Master, next_read_prio (sched cp'))); [by apply elem_of_nil in Hy|done].
    - intros _. rewrite Hnx. apply Z.ltb_ge. lia. }
  destruct (swap_round g1 Q1 c cp1 Hok1 Hsec1 Hen1) as (g2 & cp2 & Ex & Hok2 & Hr2 & Hsec2 & Hn2). exists g2, cp2, Q1.
  split; [|done]. cbn [exec] in Ex. apply bind_Some in Ex as (s2 & E2 & (s3 & E3 & [= <-])%bind_Some). cbn [g1 st] in E2.
  destruct (next_prio_spec (st g') Q c cp' (ok_queues _ _ Hok) Hcp') as (s1 & E1 & _ & Heq1 & _).
  destruct (comm_unblock c (st g') s1 s' E1 Hun) as (s2' & Hun1 & E2'). rewrite E2 in E2'. injection E2' as <-.
  destruct Hen as (_ & _ & cp0 & rq & Hcp0 & Hrq & Hh & _). rewrite Hcp' in Hcp0. injection Hcp0 as <-.
  unfold find_step. rewrite Hcp'. bind_red. rewrite Hrq. bind_red. rewrite Hh, E1. bind_red.
  rewrite (proj2 (Z.leb_le _ _)) by lia. rewrite (proj2 (Z.eqb_eq _ _)) by congruence. rewrite kill_none; [|by rewrite Heq1, Hst]. bind_red.
  rewrite Hun1. bind_red. rewrite E3. done.
Qed.

(** ** Sleeping and selecting *)

Definition status_of (s : state) (t : Z) : option thread_status := status <$> thread_at s t.

(** A thread with its condition set. *)
Lemma set_data g Q t th d : sched_ok g Q → schedulable (st g) t th →
  ∃ s1 th1, on_thread t (λ th, th <|blocker_data := d|>) (st g) = Some s1 ∧ sched_ok (mk_config s1 (run g)) Q ∧
    schedulable s1 t th1 ∧ blocker_data th1 = d ∧ status th1 = status th ∧ process th1 = process th ∧
    same_but t (st g) s1.
Proof.
  intros Hok Hs. pose proof Hs as (Hth & _).
  destruct (ok_on_thread g Q t th (λ th, th <|blocker_data := d|>) Hok Hth) as (s1 & Hs1 & Hok1 & Hsb & Hth1); [done..|].
  exists s1, (th <|blocker_data := d|>). split; [done|]. split; [done|]. split; [|done].
  by apply (schedulable_on_thread (st g) s1 t th (λ th, th <|blocker_data := d|>)).
Qed.

(** ** Signals *)

Lemma process_of_inv s t th p pr : thread_at s t = Some th → process_of s t = Some (p, pr) →
  process th = Some p ∧ proc_at s p = Some pr.
Proof.
  unfold process_of. intros ->. cbn [mbind option_bind]. destruct (process th) as [p0|]; [|done].
  cbn [mbind option_bind]. destruct (proc_at s p0) eqn:E; [|done]. by intros [= <- <-].
Qed.

Lemma threads_sound_on_thread s s' pid_ t th f : same_but t s s' → thread_at s t = Some th →
  thread_at s' t = Some (f th) → process (f th) = process th → status (f th) = status th →
  last_cpu (f th) = last_cpu th → threads_sound s pid_ → threads_sound s' pid_.
Proof.
  intros Hsb Hth Hth' Hp Hst Hl Hs i thi Hi Hlive. destruct (decide (i = t)) as [->|Hne].
  - assert (thi = f th) as -> by congruence. destruct (Hs t th Hth) as (q & Hq & Hsch); [congruence|].
    exists q. split; [rewrite <- Hq; by apply (process_of_same s s' t th (f th)); [..|apply Hsb]|].
    intros Hpid. by apply (schedulable_on_thread s s' t th f); [apply Hsch|..].
  - destruct (sb_thread t s s' Hsb i thi Hne Hi) as (th0 & H0 & He).
    destruct (Hs i th0 H0) as (q & Hq & Hsch); [intros H; apply Hlive; etransitivity; [exact (f_equal status He)|done]|].
    exists q. split; [rewrite <- Hq; apply (process_of_same s s' i th0 thi); try done;
      [exact (f_equal process He)|apply Hsb]|].
    intros Hpid. destruct (Hsch Hpid) as (_ & (p & Hpr & Hr) & Hlc). split; [done|]. split.
    + exists p. split; [|done]. rewrite <- Hpr. by apply (sb_prio t s s').
    + rewrite (f_equal last_cpu He : last_cpu thi = last_cpu th0), (sb_active _ _ _ Hsb). done.
Qed.

Lemma thread_of_pid_on_thread s s' pid_ t th f i : same_but t s s' → thread_at s t = Some th →
  thread_at s' t = Some (f th) → process (f th) = process th → status (f th) = status th →
  thread_of_pid s' pid_ i ↔ thread_of_pid s pid_ i.
Proof.
  intros Hsb Hth Hth' Hp Hst. unfold thread_of_pid. destruct (decide (i = t)) as [->|Hne].
  - rewrite (process_of_same s s' t th (f th)); [|done..|apply Hsb].
    split; intros (th0 & q & H1 & H2 & H3); [exists th, q|exists (f th), q]; (split; [done|]);
      (split; [congruence|done]).
  - split; intros (th0 & q & H1 & H2 & H3 & H4).
    + destruct (sb_thread t s s' Hsb i th0 Hne H1) as (th1 & H5 & He). exists th1, q. split; [done|].
      split; [intros H; apply H2; etransitivity; [exact (f_equal status He)|done]|]. split; [|done].
      rewrite <- H3. symmetry. apply (process_of_same s s' i th1 th0); try done; [exact (f_equal process He)|apply Hsb].
    + destruct (sb_thread' t s s' Hsb i th0 Hne H1) as (th1 & H5 & He). exists th1, q. split; [done|].
      split; [intros H; apply H2; etransitivity; [symmetry; exact (f_equal status He)|done]|]. split; [|done].
      rewrite <- H3. apply (process_of_same s s' i th0 th1); try done; [exact (f_equal process He)|apply Hsb].
Qed.

(** ** Properties *)

(** C25. When the first CPU exchanges its arrays it wakes the threads whose
    condition holds, and no others: each of them runs again and is queued once, the
    others keep their status and their place, and the queues stay intact. *)
Theorem unblock_wakes_ready g Q : sched_ok g Q → blocked_ok g →
  ∃ s' Q', sched_unblock_threads (st g) = Some s' ∧ sched_ok (mk_config s' (run g)) Q' ∧
    ∀ t th, thread_at (st g) t = Some th → ∃ th', thread_at s' t = Some th' ∧
      ((ready (st g) t ∧ status th' = THREAD_STATUS_RUNNING ∧ ∃ c p, t ∈ Q' (c, Slave, p)) ∨
       (¬ ready (st g) t ∧ status th' = status th ∧ ∀ k, t ∈ Q' k ↔ t ∈ Q k)).
Proof.
  intros Hok Hb. destruct (unblock_all g Q Hok Hb) as (s' & Q' & Hs' & [Hok' _ Hw _ _ _]).
  exists s', Q'. split; [done|]. split; [done|]. intros t th Hth. pose proof (zget_Some _ _ _ Hth).
  destruct (Hw t th Hth) as (th' & Hth' & [(_ & H1)|(Hno & He & HQ)]); exists th'; (split; [done|]); [by left|right].
  split; [intros Hr; apply Hno; split; [lia|done]|]. split; [exact (f_equal status He)|done].
Qed.

(** C18. On a CPU with a waiting thread the loop of the scheduler ends, and it finds
    the first thread in order of priority: of the master array if that has one;
    otherwise the arrays are exchanged, and on the first CPU the threads that are
    ready are queued before. For the exchange on the first CPU no process may be
    dying: burying one is not part of it. *)
Theorem sched_finds_most_urgent g Q c cp b p t :
  sched_ok g Q → searching g c cp → t ∈ Q (c, b, p) →
  (master_list Q c = [] → id cp = 0 → blocked_ok g ∧ none_dying (st g)) →
  ∃ g' t' Q' s, find_thread c (st g) = Some (st g') ∧ sched_ok g' Q' ∧ take_next c (st g') = Some (t', s) ∧
    hd_error (master_list Q' c) = Some t' ∧
    (Q' = Q ∨ master_list Q c = [] ∧
      ∃ Q1, (if decide (id cp = 0) then with_ready g Q Q1 else Q1 = Q) ∧ Q' = λ k, Q1 (swapped c k)).
Proof.
  intros Hok Hsec Ht H0. pose proof Hsec as (_ & _ & Hcp).
  destruct (find_thread_spec g Q c cp b p t (λ Q1, if decide (id cp = 0) then with_ready g Q Q1 else Q1 = Q) Hok Hsec Ht)
    as (g' & t' & Q' & s & Hf & Hok' & _ & Hs & Hhd & HQ').
  - intros Hnil. destruct (decide (id cp = 0)) as [E|E]; [|by apply last_round_secondary with cp].
    destruct (H0 Hnil E) as [Hb Hd]. by apply last_round_first with cp.
  - intros Q1. destruct (decide _); [intros [H1 _]; by apply H1|by intros ->].
  - exists g', t', Q', s. done.
Qed.

(** C39. A thread that sleeps until a time that has come goes on at once; another
    one blocks and leaves its CPU, and from then on it is ready exactly when the
    clock has reached that time, at whatever interrupt. *)
Theorem sleep_lasts_until g Q c t th ts : sched_ok g Q → run g c = Some t → schedulable (st g) t th → normal ts →
  timeman_ok (time (st g)) →
  ∃ s' th', init_sleep_blocker c t ts (st g) = Some (0, s') ∧ thread_at s' t = Some th' ∧
    if nanoseconds ts <=? nanoseconds (timeman_timespec_since_epoch (time (st g)))
    then sched_ok (mk_config s' (run g)) Q ∧ status th' = status th
    else sched_ok (mk_config s' (<[c := None]> (run g))) Q ∧ status th' = THREAD_STATUS_BLOCKED ∧
      ∀ clock, timeman_ok clock → ready (s' <|time := clock|>) t ↔
        nanoseconds ts <= nanoseconds (timeman_timespec_since_epoch clock).
Proof.
  intros Hok Hrun Hs Hn Ht. unfold init_sleep_blocker.
  destruct (set_data g Q t th (data_sleep ts) Hok Hs) as (s1 & th1 & -> & Hok1 & Hs1 & Hd1 & Hst1 & _ & Hsb1).
  cbn [mbind option_bind]. pose proof (sleep_condition s1 t th1 ts (proj1 Hs1) Hd1 Hn) as Hc.
  rewrite (sb_time _ _ _ Hsb1) in Hc. specialize (Hc Ht).
  destruct (Z.leb_spec (nanoseconds ts) (nanoseconds (timeman_timespec_since_epoch (time (st g))))) as [E|E];
    [rewrite bool_decide_eq_true_2 in Hc by done|rewrite bool_decide_eq_false_2 in Hc by lia].
  - exists s1, th1. unfold wait_for. cbn [call_should_unblock]. rewrite Hc. split; [done|]. split; [apply Hs1|done].
  - destruct (wait_for_blocks (mk_config s1 (run g)) Q c t th1 unblock_sleep BLOCKER_SLEEP Hok1 Hrun Hs1 Hc)
      as (s2 & Hs2 & Hok2 & Hsb2 & th2 & Hth2 & Hst2 & Hbl2 & Hd2 & _). cbn [st run] in *.
    exists s2, th2. split; [done|]. split; [done|]. split; [done|]. split; [done|]. intros clock Hclk.
    assert (should_unblock_sleep_block (s2 <|time := clock|>) t =
      Some (bool_decide (nanoseconds ts <= nanoseconds (timeman_timespec_since_epoch clock)))) as Hc2.
    { pose proof (sleep_condition (s2 <|time := clock|>) t th2 ts) as Hc2.
      assert (time (s2 <|time := clock|>) = clock) as Hclock by done. rewrite Hclock in Hc2.
      apply Hc2; [exact Hth2|congruence|done|done]. }
    split.
    + intros (th0 & u & H0 & _ & _ & Hu & Hc0). change (thread_at s2 t = Some th0) in H0.
      rewrite Hth2 in H0. injection H0 as <-. rewrite Hbl2 in Hu. injection Hu as <-.
      cbn [call_should_unblock] in Hc0. rewrite Hc2 in Hc0. injection Hc0 as Hc0. by apply bool_decide_eq_true_1 in Hc0.
    + intros Hle. exists th2, unblock_sleep. split; [exact Hth2|]. split; [done|]. rewrite Hbl2. split; [done|].
      split; [done|]. cbn [call_should_unblock]. rewrite Hc2. by rewrite bool_decide_eq_true_2.
Qed.

(** A [select] with a time-out does not wait: the time is in the part of the
    union that the test of [sleep] does not read, the number of descriptors is read
    instead and always counts as past. *)
Theorem select_timeout_ignored g Q c t th n r w e tv : sched_ok g Q → schedulable (st g) t th →
  is_Some (process th) → 0 <= n <= FD_SETSIZE → FD_SETSIZE < time_since_epoch (time (st g)) →
  ∃ s', init_select_blocker c t n r w e (Some tv) (st g) = Some (0, s') ∧ sched_ok (mk_config s' (run g)) Q ∧
    status_of s' t = Some (status th).
Proof.
  intros Hok Hs [p Hp] Hn Ht. unfold init_select_blocker.
  destruct (add_timeval_total (timeman_timespec_since_epoch (time (st g))) tv) as [ts ->]. cbn [mbind option_bind].
  set (d := data_select _).
  destruct (set_data g Q t th d Hok Hs) as (s1 & th1 & Hs1 & Hok1 & Hsch1 & Hd1 & Hst1 & Hp1 & Hsb1).
  rewrite Hs1. cbn [mbind option_bind]. exists s1.
  unfold wait_for. cbn [call_should_unblock].
  erewrite (select_condition s1 t th1 p); [|apply Hsch1|congruence|exact Hd1|done|exact Hn|by rewrite (sb_time _ _ _ Hsb1)].
  split; [done|]. split; [done|]. unfold status_of. destruct Hsch1 as [-> _]. cbn. by rewrite Hst1.
Qed.

(** C37. When a process dies, all its threads are dying afterwards and in no queue,
    those of other processes are as they were, and the queues stay intact. *)
Theorem proc_die_ends_threads g Q p pr code : sched_ok g Q → proc_at (st g) p = Some pr →
  threads_sound (st g) (pid pr) → nxt_proc (st g) <= Z.of_nat (length (proc (st g))) →
  ∃ s' Q', proc_die p code (st g) = Some (0, s') ∧ sched_ok (mk_config s' (run g)) Q' ∧
    ∀ i th, thread_at (st g) i = Some th → ∃ th', thread_at s' i = Some th' ∧
      ((thread_of_pid (st g) (pid pr) i ∧ status th' = THREAD_STATUS_DYING ∧ ∀ k, i ∉ Q' k) ∨
       (¬ thread_of_pid (st g) (pid pr) i ∧ status th' = status th ∧ ∀ k, i ∈ Q' k ↔ i ∈ Q k)).
Proof. apply proc_die_spec. Qed.

Lemma on_thread_cpus t f s s' : on_thread t f s = Some s' → cpus s' = cpus s.
Proof.
  unfold on_thread. destruct ((storage s).[t]) as [th|]; [|done]. cbn [mbind option_bind].
  destruct (zset _ _ _); [|done]. cbn [mbind option_bind]. by intros [= <-].
Qed.

(** [dump_and_kill] of the process of the running thread, up to the start of the
    kernel thread, after a change of the thread [t]. *)
Lemma dump_blocks g s Q' cpu kstack t th f cp r q : sched_ok (mk_config s (run g)) Q' → same_but t (st g) s →
  thread_at (st g) t = Some th → thread_at s t = Some (f th) → process (f th) = process th →
  status (f th) = status th → last_cpu (f th) = last_cpu th → cpus s = cpus (st g) →
  cpu_at (st g) cpu = Some cp → running_thread cp = Some r → process_of (st g) r = Some q →
  threads_sound (st g) (pid q.2) →
  ∃ s' Q', sched_ok (mk_config s' (run g)) Q' ∧
    (∀ i, thread_of_pid (st g) (pid q.2) i →
      (∃ th', thread_at s' i = Some th' ∧ status th' = THREAD_STATUS_BLOCKED) ∧ ∀ k, i ∉ Q' k) ∧
    (r ← RUNNING_THREAD s cpu; r ← r; '(p, _) ← process_of s r; s ← dump_and_kill cpu kstack p s; Some (0, s)) =
      ('(_, s1) ← tasking_run_kernel_thread kstack s'; s2 ← resched cpu s1; Some (0, s2)).
Proof.
  intros Hok Hsb Hth Hth1 Hp Hst Hl Hcpus Hcp Hr Hq Hs. destruct q as [p pr]. cbn [snd] in *.
  assert (process_of s r = Some (p, pr)) as Hq1.
  { destruct (thread_at (st g) r) as [thr|] eqn:Er; [|unfold process_of in Hq; by rewrite Er in Hq].
    rewrite <- Hq. destruct (decide (r = t)) as [->|Hne].
    - rewrite Hth in Er. injection Er as <-. by apply (process_of_same (st g) s t th (f th)); [..|apply Hsb].
    - destruct (sb_thread' t (st g) s Hsb r thr Hne Er) as (thr' & Hr' & He).
      apply (process_of_same (st g) s r thr thr'); [done..|exact (f_equal process He)|apply Hsb]. }
  assert (proc_at s p = Some pr) as Hpr.
  { unfold process_of in Hq1. destruct (thread_at s r) as [thr|]; [|done]. cbn [mbind option_bind] in Hq1.
    destruct (process thr) as [p0|]; [|done]. cbn [mbind option_bind] in Hq1.
    destruct (proc_at s p0) eqn:E; [|done]. by injection Hq1 as <- <-. }
  destruct (block_all (mk_config s (run g)) Q' p pr (mk_blocker BLOCKER_DUMPING None false) Hok Hpr)
    as (s' & Q2 & Hs' & Hok' & Hd); [by apply (threads_sound_on_thread (st g) s (pid pr) t th f)|]. cbn [st run] in *.
  exists s', Q2. split; [done|]. split.
  - intros i Hi. assert (thread_of_pid s (pid pr) i) as Hi1 by by apply (thread_of_pid_on_thread (st g) s (pid pr) t th f).
    pose proof Hi1 as (th1 & _ & Ht1 & _). pose proof (zget_Some _ _ _ Ht1).
    destruct (Hd i th1 Ht1) as (th' & Hth' & _ & _ & [(_ & _ & Hst' & Hno)|(Hno & _)]); [|exfalso; apply Hno; split; [lia|done]].
    split; [by exists th'|done].
  - unfold RUNNING_THREAD. assert (cpu_at s cpu = Some cp) as -> by (unfold cpu_at; by rewrite Hcpus).
    cbn [mbind option_bind]. rewrite Hr. cbn [mbind option_bind]. rewrite Hq1. cbn [mbind option_bind].
    unfold dump_and_kill. rewrite Hs'. cbn [mbind option_bind].
    destruct (tasking_run_kernel_thread kstack s') as [[? s3]|]; [|done]. cbn [mbind option_bind].
    by destruct (resched cpu s3).
Qed.

(** C38. Dispatching delivers the least pending signal that is allowed and leaves
    the other pending ones: it is ignored, its handler gets a frame, or the default
    action ends the process with all its threads. Where the default action is the
    abnormal termination ([SIGSEGV], [SIGABRT] and the like, without a handler), the
    process of the running thread is dumped, whose thread need not be the one that
    got the signal: all its threads are blocked, then the kernel thread that dumps
    it is started. *)
Theorem signal_dispatch_least g Q cpu kstack t th p pr signo h : sched_ok g Q → thread_at (st g) t = Some th →
  process_of (st g) t = Some (p, pr) → threads_sound (st g) (pid pr) →
  nxt_proc (st g) <= Z.of_nat (length (proc (st g))) → 0 <= pending_signals_mask th < 2 ^ 32 →
  1 <= signo < 32 → Z.testbit (pending_signals_mask th) signo && Z.testbit (signals_mask th) signo = true →
  (∀ j, 1 <= j < signo → Z.testbit (pending_signals_mask th) j && Z.testbit (signals_mask th) j = false) →
  (signal_handlers th).[signo] = Some h →
  if (h =? 0) && bool_decide (signal_default_action signo = SIGNAL_ACTION_ABNORMAL_TERMINATE)
  then ∀ cp r q, cpu_at (st g) cpu = Some cp → running_thread cp = Some r → process_of (st g) r = Some q →
    threads_sound (st g) (pid q.2) →
    ∃ s' Q', sched_ok (mk_config s' (run g)) Q' ∧
      (∀ i, thread_of_pid (st g) (pid q.2) i →
        (∃ th', thread_at s' i = Some th' ∧ status th' = THREAD_STATUS_BLOCKED) ∧ ∀ k, i ∉ Q' k) ∧
      signal_dispatch_pending cpu kstack t (st g) =
        ('(_, s1) ← tasking_run_kernel_thread kstack s'; s2 ← resched cpu s1; Some (0, s2))
  else ∃ s' Q', signal_dispatch_pending cpu kstack t (st g) = Some (0, s') ∧ sched_ok (mk_config s' (run g)) Q' ∧
    if (h =? 0) && bool_decide (signal_default_action signo = SIGNAL_ACTION_TERMINATE)
    then ∀ i, thread_of_pid (st g) (pid pr) i →
      (∃ th', thread_at s' i = Some th' ∧ status th' = THREAD_STATUS_DYING) ∧ ∀ k, i ∉ Q' k
    else Q' = Q ∧ ∃ th', thread_at s' t = Some th' ∧ status th' = status th ∧
      (∀ j, 0 <= j → Z.testbit (pending_signals_mask th') j =
        Z.testbit (pending_signals_mask th) j && negb (bool_decide (j = signo))) ∧
      frames th' = if (h =? 0) || (h =? SIG_IGN) then frames th else signo :: frames th.
Proof.
  intros Hok Hth Hproc Hsound Hnx Hm Hs Hbit Hl Hh. apply andb_true_iff in Hbit as [Hp Hmk].
  rewrite (dispatch_to_process cpu kstack t (st g) th signo) by done.
  set (f := λ th, th <|pending_signals_mask := clear_bit (pending_signals_mask th) signo|>).
  destruct (ok_on_thread g Q t th f Hok Hth) as (s1 & Hs1 & Hok1 & Hsb1 & Hth1); [done..|].
  pose proof (on_thread_cpus _ _ _ _ Hs1) as Hcpus. rewrite Hs1. cbn [mbind option_bind].
  unfold signal_process. rewrite Hth1. cbn [mbind option_bind]. change (signal_handlers (f th)) with (signal_handlers th).
  rewrite Hh. cbn [mbind option_bind].
  assert (∀ j, 0 <= j → Z.testbit (pending_signals_mask (f th)) j =
    Z.testbit (pending_signals_mask th) j && negb (bool_decide (j = signo))) as Hbits.
  { intros j Hj. cbn. apply testbit_clear_bit; (done || lia). }
  destruct ((h =? 0) && bool_decide (signal_default_action signo = SIGNAL_ACTION_ABNORMAL_TERMINATE)) eqn:Edump.
  { apply andb_true_iff in Edump as [H0 Hab]. apply Z.eqb_eq in H0 as ->. apply bool_decide_eq_true in Hab.
    intros cp r q Hcp Hr Hq Hqs. rewrite Hab. cbn [Z.eqb negb]. change (0 =? SIG_IGN) with false. cbn iota.
    by apply (dump_blocks g s1 Q cpu kstack t th f cp r q). }
  unfold SIG_IGN. destruct (Z.eqb_spec h 1) as [->|H1].
  { exists s1, Q. split; [done|]. split; [done|]. cbn. split; [done|]. by exists (f th). }
  destruct (Z.eqb_spec h 0) as [->|H0]; cbn [negb andb orb].
  2:{ destruct (ok_on_thread (mk_config s1 (run g)) Q t (f th) (λ th, th <|frames := signo :: frames th|>) Hok1 Hth1)
        as (s2 & Hs2 & Hok2 & Hsb2 & Hth2); [done..|]. cbn [st run] in *.
      unfold signal_setup_stack_to_handle_signal. rewrite Hs2. exists s2, Q. split; [done|]. split; [done|].
      split; [done|]. by eexists. }
  destruct (process_of_inv _ _ _ _ _ Hth Hproc) as [Hpf Hpr].
  assert (proc_at s1 p = Some pr) as Hp1 by (unfold proc_at; by rewrite (sb_proc _ _ _ Hsb1)).
  change (process (f th)) with (process th).
  destruct (signal_default_action signo) eqn:Ea; cbn [bool_decide decide_rel].
  all: try (exists s1, Q; split; [done|]; split; [done|]; split; [done|]; by exists (f th)).
  - rewrite Hpf. cbn [mbind option_bind].
    destruct (proc_die_spec (mk_config s1 (run g)) Q p pr 0 Hok1 Hp1) as (s2 & Q2 & Hs2 & Hok2 & H); cbn [st run] in *.
    + by apply (threads_sound_on_thread (st g) s1 (pid pr) t th f).
    + by rewrite (sb_nxt _ _ _ Hsb1), (sb_proc _ _ _ Hsb1).
    + rewrite Hs2. exists s2, Q2. split; [done|]. split; [done|]. rewrite bool_decide_eq_true_2 by done.
      intros i Hi. assert (thread_of_pid s1 (pid pr) i) as Hi1 by by apply (thread_of_pid_on_thread (st g) s1 (pid pr) t th f).
      pose proof Hi1 as (th1 & _ & Ht1 & _). destruct (H i th1 Ht1) as (th' & Hth' & [(_ & Hst & Hno)|(Hno & _)]); [|done].
      split; [by exists th'|done].
Qed.

(** ** Examples *)

Definition example_thread_at (th : thread_t) : state := example_system <|storage := [th; example_thread THREAD_STATUS_BLOCKED]|>.

Lemma example_threads_ok th : sched_prev th = None → sched_next th = None →
  sched_ok (mk_config (example_thread_at th) (λ _, None)) (λ _, []).
Proof.
  intros Hp Hn. apply empty_ok; [done| |].
  - intros c Hc. cbn in Hc. assert (c = 0 ∨ c = 1) as [-> | ->] by lia; eexists _, 0; vm_compute; done.
  - intros t l Hl. unfold links, thread_at in Hl. cbn in Hl.
    destruct (zget _ t) as [th'|] eqn:E; [|done]. pose proof (zget_Some _ _ _ E) as Hr. cbn in Hr.
    assert (t = 0 ∨ t = 1) as [-> | ->] by lia; injection E as <-; cbn in Hl; rewrite ?Hp, ?Hn in Hl; by injection Hl as <-.
Qed.

Lemma example_schedulable th t th' : process th = Some 0 → last_cpu th = 1 →
  thread_at (example_thread_at th) t = Some th' → schedulable (example_thread_at th) t th'.
Proof.
  intros Hp Hl Hth. pose proof (zget_Some _ _ _ Hth) as Hr. cbn in Hr. split; [done|].
  assert (t = 0 ∨ t = 1) as [-> | ->] by lia; injection Hth as <-.
  - split; [|right; rewrite Hl; by split]. exists 6. split; [|by split]. unfold prio_of, process_of.
    change (thread_at (example_thread_at th) 0) with (Some th). cbn [mbind option_bind]. by rewrite Hp.
  - split; [by exists 6|right; by split].
Qed.

(** The first thread sleeps; the time has come. *)
Definition example_sleeper : thread_t :=
  (example_thread THREAD_STATUS_BLOCKED) <|blocker := mk_blocker BLOCKER_SLEEP (Some unblock_sleep) true|>
    <|blocker_data := data_sleep (mk_timespec 900 5)|>.

Lemma unblock_wakes_ready_witness : ∃ s' th' Q' c p,
  sched_unblock_threads (example_thread_at example_sleeper) = Some s' ∧ thread_at s' 0 = Some th' ∧
  status th' = THREAD_STATUS_RUNNING ∧ 0 ∈ Q' (c, Slave, p) ∧ sched_ok (mk_config s' (λ _, None)) Q'.
Proof.
  destruct (unblock_wakes_ready (mk_config (example_thread_at example_sleeper) (λ _, None)) (λ _, []))
    as (s' & Q' & Hs' & Hok & H).
  - by apply example_threads_ok.
  - intros t th Hth _. split; [done|]. split; [by apply example_schedulable|].
    pose proof (zget_Some _ _ _ Hth) as Hr. cbn in Hr.
    assert (t = 0 ∨ t = 1) as [-> | ->] by lia; injection Hth as <-; intros u Hu; injection Hu as <- || done.
    vm_compute. eauto.
  - destruct (H 0 example_sleeper eq_refl) as (th' & Hth' & [(_ & Hst & c & p & Hin)|(Hno & _)]).
    + exists s', th', Q', c, p. done.
    + exfalso. apply Hno. exists example_sleeper, unblock_sleep. repeat split; done.
Defined.

(** The second CPU executes the second thread. *)
Definition example_running : config :=
  match play (replicate 12 (Next 1) ++ [Swap 1] ++ replicate 6 (Next 1) ++ [Take 1]) example_woken with
  | Some (_, g) => g | None => example_woken end.

Lemma example_running_ok : ∃ Q, sched_ok example_running Q.
Proof.
  apply (steps_ok example_woken example_queues
    match play (replicate 12 (Next 1) ++ [Swap 1] ++ replicate 6 (Next 1) ++ [Take 1]) example_woken with
    | Some (tr, _) => tr | None => [] end); [exact example_woken_ok|].
  apply (play_steps (replicate 12 (Next 1) ++ [Swap 1] ++ replicate 6 (Next 1) ++ [Take 1])). vm_compute. reflexivity.
Qed.

Definition example_runner : thread_t := default zero_thread (thread_at (st example_running) 1).

Lemma example_runner_schedulable : schedulable (st example_running) 1 example_runner.
Proof.
  split; [by vm_compute|]. split; [exists 6; split; [by vm_compute|unfold MIN_PRIO; lia]|]. right. vm_compute. by split.
Qed.

(** It sleeps until second 2000; the clock shows 1000. *)
(** The first CPU, with a thread in its slave array and one that sleeps until now. *)
Definition example_two : config := mk_config
  (example_system <|storage := [(example_thread THREAD_STATUS_BLOCKED) <|last_cpu := 0|>; example_sleeper]|>) (λ _, None).
Definition example_first : config := match exec (Wake 0) example_two with Some (_, g) => g | None => example_two end.

Lemma example_first_ok : sched_ok example_first (<[(0, Slave, 6) := [0]]> (λ _, [])).
Proof.
  destruct (wake_ok example_two (λ _, []) 0) as (g' & c & p & He & Hok & _ & _ & Hp & Hc).
  - apply empty_ok; [done| |].
    + intros c Hc. cbn in Hc. assert (c = 0 ∨ c = 1) as [-> | ->] by lia; eexists _, 0; vm_compute; done.
    + intros t l Hl. unfold links, thread_at in Hl. cbn in Hl. destruct (zget _ t) as [th|] eqn:E; [|done]. pose proof (zget_Some _ _ _ E) as Hr. cbn in Hr.
      assert (t = 0 ∨ t = 1) as [-> | ->] by lia; injection E as <-; by injection Hl as <-.
  - exists ((example_thread THREAD_STATUS_BLOCKED) <|last_cpu := 0|>). split; [|done]. split; [done|]. split; [exists 6; by split|right; by split].
  - done.
  - assert (p = 6) as -> by (vm_compute in Hp; by injection Hp).
    destruct (Hc ((example_thread THREAD_STATUS_BLOCKED) <|last_cpu := 0|>) eq_refl) as [|Hl]; [done|]. cbn in Hl. subst c.
    unfold example_first. rewrite He. exact Hok.
Qed.

Lemma sched_finds_most_urgent_witness : ∃ g' t' Q' s Q1,
  find_thread 0 (st example_first) = Some (st g') ∧ sched_ok g' Q' ∧ take_next 0 (st g') = Some (t', s) ∧
  hd_error (master_list Q' 0) = Some t' ∧ Q' = (λ k, Q1 (swapped 0 k)) ∧ ∃ c p, 1 ∈ Q1 (c, Slave, p).
Proof.
  destruct (sched_finds_most_urgent example_first _ 0 (default {| id := 0; running_thread := None; idle_thread := None; sched := fresh_sched |} (cpu_at (st example_first) 0)) Slave 6 0 example_first_ok)
    as (g' & t' & Q' & s & Hf & Hok & Ht & Hhd & [E|(_ & Q1 & Hr & HQ)]).
  - split; [reflexivity|]. split; [vm_compute; split; [discriminate|reflexivity]|vm_compute; reflexivity].
  - vm_compute. by left.
  - intros _ _. split.
    + intros t th Hth Hst. split; [done|]. pose proof (zget_Some _ _ _ Hth) as Hr. change (0 <= t < 2) in Hr.
      assert (t = 0 ∨ t = 1) as [-> | ->] by lia.
      * vm_compute in Hth. injection Hth as <-. discriminate Hst.
      * split; [split; [done|]; split; [exists 6; by split|]|]; vm_compute in Hth; injection Hth as <-; [right; by split|].
        intros u [= <-]. vm_compute. eauto.
    + split; [vm_compute; discriminate|]. intros p pr Hp. pose proof (zget_Some _ _ _ Hp) as Hr. change (0 <= p < 1) in Hr. assert (p = 0) as -> by lia.
      vm_compute in Hp. by injection Hp as <-.
  - exfalso. rewrite E in Hhd. vm_compute in Hhd. discriminate Hhd.
  - exists g', t', Q', s, Q1. split; [exact Hf|]. split; [exact Hok|]. split; [exact Ht|]. split; [exact Hhd|]. split; [exact HQ|].
    change (with_ready example_first (<[(0, Slave, 6):=[0]]> (λ _, [])) Q1) in Hr. destruct Hr as (_ & Hr & _). apply Hr.
    exists example_sleeper, unblock_sleep. split; [vm_compute; reflexivity|]. split; [reflexivity|]. split; [discriminate|]. split; [reflexivity|vm_compute; reflexivity].
Defined.

Lemma sleep_lasts_until_witness : ∃ s' th',
  init_sleep_blocker 1 1 (mk_timespec 2000 0) (st example_running) = Some (0, s') ∧ thread_at s' 1 = Some th' ∧
  status th' = THREAD_STATUS_BLOCKED ∧
  ¬ ready (s' <|time := booted <|time_since_epoch := 1999|> |>) 1 ∧
  ready (s' <|time := booted <|time_since_epoch := 2000|> |>) 1.
Proof.
  destruct example_running_ok as [Q HQ].
  destruct (sleep_lasts_until example_running Q 1 1 example_runner (mk_timespec 2000 0) HQ) as (s' & th' & Hs' & Hth' & H).
  - by vm_compute.
  - exact example_runner_schedulable.
  - split; cbn; lia.
  - unfold timeman_ok, TIMER_TICKS_PER_SECOND. vm_compute. intuition discriminate.
  - assert ((nanoseconds (mk_timespec 2000 0) <=? nanoseconds (timeman_timespec_since_epoch (time (st example_running)))) = false)
      as Hlt by (vm_compute; reflexivity).
    rewrite Hlt in H. exists s', th'. split; [done|]. split; [done|]. destruct H as (_ & Hst & H). split; [done|].
    rewrite !H by (unfold timeman_ok, TIMER_TICKS_PER_SECOND; vm_compute; intuition discriminate).
    vm_compute. split; [by intros Hc; apply Hc|discriminate].
Defined.

Lemma select_timeout_ignored_witness : ∃ s',
  init_select_blocker 1 1 3 None None None (Some (mk_timeval 5 0)) (st example_running) = Some (0, s') ∧
  status_of s' 1 = Some THREAD_STATUS_RUNNING.
Proof.
  destruct example_running_ok as [Q HQ].
  destruct (select_timeout_ignored example_running Q 1 1 example_runner 3 None None None (mk_timeval 5 0) HQ)
    as (s' & Hs' & _ & Hst); [exact example_runner_schedulable|by vm_compute; eauto|by vm_compute|by vm_compute|].
  exists s'. split; [done|]. rewrite Hst. by vm_compute.
Defined.

(** Both threads belong to the process; the second one is queued. *)
Lemma example_threads_sound : threads_sound (st example_woken) 7.
Proof.
  assert (length (storage (st example_woken)) = 2%nat) as Hlen by (vm_compute; reflexivity).
  intros i th Hi _. pose proof (zget_Some _ _ _ Hi) as Hr. rewrite Hlen in Hr.
  assert (th = default zero_thread (thread_at (st example_woken) i)) as -> by by rewrite Hi.
  assert (i = 0 ∨ i = 1) as [-> | ->] by lia; eexists; (split; [vm_compute; reflexivity|]); intros _; (split; [exact Hi|]);
    (split; [exists 6; split; [vm_compute; reflexivity|unfold MIN_PRIO; lia]|]);
    right; vm_compute; split; (discriminate || reflexivity).
Qed.

Lemma proc_die_ends_threads_witness : ∃ s' th' Q', proc_die 0 9 (st example_woken) = Some (0, s') ∧
  thread_at s' 1 = Some th' ∧ status th' = THREAD_STATUS_DYING ∧ (∀ k, 1 ∉ Q' k) ∧
  sched_ok (mk_config s' (run example_woken)) Q'.
Proof.
  destruct (proc_die_ends_threads example_woken example_queues 0 (mk_proc 7 1 6 PROC_ALIVE (Some 0) None 0) 9)
    as (s' & Q' & Hs' & Hok & H).
  - exact example_woken_ok.
  - vm_compute. reflexivity.
  - exact example_threads_sound.
  - vm_compute. discriminate.
  - destruct (H 1 (default zero_thread (thread_at (st example_woken) 1))) as (th' & Hth' & [(_ & Hst & Hno)|(Hno & _)]).
    + vm_compute. reflexivity.
    + exists s', th', Q'. done.
    + exfalso. apply Hno. eexists _, _. split; [vm_compute; reflexivity|]. split; [discriminate|].
      split; [vm_compute; reflexivity|done].
Defined.

(** [SIGUSR1], with a handler, and [SIGTERM] are pending; then only [SIGTERM]. *)
Definition example_signalled : thread_t :=
  (example_thread THREAD_STATUS_BLOCKED) <|pending_signals_mask := 33792|>
    <|signal_handlers := <[10%nat := 4096]> (replicate 32 0)|>.
Definition example_terminated : thread_t := example_signalled <|pending_signals_mask := 32768|>.

Lemma example_sound th : process th = Some 0 → last_cpu th = 1 → threads_sound (example_thread_at th) 7.
Proof.
  intros Hp Hl i thi Hi _. pose proof (example_schedulable th i thi Hp Hl Hi) as Hs.
  pose proof (zget_Some _ _ _ Hi) as Hr. cbn in Hr. unfold process_of. rewrite Hi. cbn [mbind option_bind].
  assert (i = 0 ∨ i = 1) as [-> | ->] by lia; injection Hi as <-; [rewrite Hp|]; by eexists.
Qed.

(** [SIGSEGV], without a handler, for the thread 0, when the other thread of the
    process runs on CPU 1. *)
Definition example_faulted : thread_t := (example_thread THREAD_STATUS_BLOCKED) <|pending_signals_mask := 2048|>.
Definition example_dumped : state := (example_thread_at example_faulted) <|cpus :=
  [ {| id := 0; running_thread := None; idle_thread := None; sched := fresh_sched |};
    {| id := 1; running_thread := Some 1; idle_thread := None; sched := fresh_sched |} ]|>.

Lemma example_dumped_ok : sched_ok (mk_config example_dumped (λ _, None)) (λ _, []).
Proof.
  apply empty_ok; [done| |].
  - intros c Hc. cbn in Hc. assert (c = 0 ∨ c = 1) as [-> | ->] by lia; eexists _, 0; vm_compute; done.
  - intros t l Hl. unfold links, thread_at in Hl. cbn in Hl.
    destruct (zget _ t) as [th'|] eqn:E; [|done]. pose proof (zget_Some _ _ _ E) as Hr. cbn in Hr.
    assert (t = 0 ∨ t = 1) as [-> | ->] by lia; injection E as <-; cbn in Hl; by injection Hl as <-.
Qed.

Lemma signal_dispatch_least_witness :
  (∃ s' th', signal_dispatch_pending 0 0 0 (example_thread_at example_signalled) = Some (0, s') ∧
     thread_at s' 0 = Some th' ∧ frames th' = [SIGUSR1] ∧ Z.testbit (pending_signals_mask th') SIGTERM = true) ∧
  (∃ s' th', signal_dispatch_pending 0 0 0 (example_thread_at example_terminated) = Some (0, s') ∧
     thread_at s' 1 = Some th' ∧ status th' = THREAD_STATUS_DYING) ∧
  (∃ s' th', signal_dispatch_pending 1 4096 0 example_dumped =
       ('(_, s1) ← tasking_run_kernel_thread 4096 s'; s2 ← resched 1 s1; Some (0, s2)) ∧
     thread_at s' 1 = Some th' ∧ status th' = THREAD_STATUS_BLOCKED).
Proof.
  split; [|split].
  - destruct (signal_dispatch_least (mk_config (example_thread_at example_signalled) (λ _, None)) (λ _, []) 0 0 0
      example_signalled 0 (mk_proc 7 1 6 PROC_ALIVE (Some 0) None 0) SIGUSR1 4096)
      as (s' & Q' & Hs' & _ & _ & th' & Hth' & _ & Hb & Hf); try done; [by apply example_threads_ok|by apply example_sound| |].
    + intros j Hj. assert (Z.to_nat j < 10)%nat as Hlt by (unfold SIGUSR1 in *; lia). rewrite <- (Z2Nat.id j) by lia.
      revert Hlt. generalize (Z.to_nat j). intros n Hn. do 10 (destruct n as [|n]; [done|]). lia.
    + exists s', th'. split; [done|]. split; [done|]. split; [exact Hf|]. by rewrite Hb.
  - destruct (signal_dispatch_least (mk_config (example_thread_at example_terminated) (λ _, None)) (λ _, []) 0 0 0
      example_terminated 0 (mk_proc 7 1 6 PROC_ALIVE (Some 0) None 0) SIGTERM 0)
      as (s' & Q' & Hs' & _ & H); try done; [by apply example_threads_ok|by apply example_sound| |].
    + intros j Hj. assert (Z.to_nat j < 15)%nat as Hlt by (unfold SIGTERM in *; lia). rewrite <- (Z2Nat.id j) by lia.
      revert Hlt. generalize (Z.to_nat j). intros n Hn. do 15 (destruct n as [|n]; [done|]). lia.
    + destruct (H 1) as [(th' & Hth' & Hst) _]; [|by exists s', th'].
      by eexists (example_thread THREAD_STATUS_BLOCKED), _.
  - destruct (signal_dispatch_least (mk_config example_dumped (λ _, None)) (λ _, []) 1 4096 0
      example_faulted 0 (mk_proc 7 1 6 PROC_ALIVE (Some 0) None 0) SIGSEGV 0) with
      (cp := default {| id := 0; running_thread := None; idle_thread := None; sched := fresh_sched |} (cpu_at example_dumped 1))
      (r := 1) (q := (0, mk_proc 7 1 6 PROC_ALIVE (Some 0) None 0))
      as (s' & Q' & _ & H & Hd); try done; [exact example_dumped_ok|by apply example_sound| |by apply example_sound|].
    + intros j Hj. assert (Z.to_nat j < 11)%nat as Hlt by (unfold SIGSEGV in *; lia). rewrite <- (Z2Nat.id j) by lia.
      revert Hlt. generalize (Z.to_nat j). intros n Hn. do 11 (destruct n as [|n]; [done|]). lia.
    + destruct (H 1) as [(th' & Hth' & Hst) _]; [|by exists s', th'].
      by eexists (example_thread THREAD_STATUS_BLOCKED), _.
Defined.

(** A thread that is stopped twice is counted off twice. *)
Example counted_off_twice :
  ('(_, s) ← thread_stop 1 (st example_woken); '(_, s) ← thread_stop 1 s; cp ← cpu_at s 1; Some (enqueued_tasks (sched cp)))
  = Some (-1).
Proof. vm_compute. reflexivity. Qed.

(** A thread that has blocked is woken before it leaves its CPU: it is linked to
    itself. *)
Example woken_before_resched :
  (s ← on_thread 1 (λ th, th <|status := THREAD_STATUS_BLOCKED|>) (st example_running);
   s ← sched_dequeue 1 s; s ← sched_enqueue 1 s; s ← resched 1 s; links s 1) = Some (Some 1, Some 1).
Proof. vm_compute. reflexivity. Qed.

(** A search for a process that does not exist reads a null pointer. *)
Example thread_by_pid_null : thread_by_pid (example_thread_at zero_thread) 99 = None.
Proof. vm_compute. reflexivity. Qed.
